(* ===== verification/_CoqProject ===== *)
-Q . S2P
Prelude.v
GoTime.v
GoStr.v
GoBytes.v
NetIP.v
NetParse.v
Seed.v
Drift.v
Trend.v
Retention.v
Custody.v
ResolutionWalk.v
Wildcard.v
Estate.v
Exposure.v
Signal.v
QRField.v
QRBits.v
QRMatrix.v
GoConv.v
CTMerkle.v
CTFormat.v
CTVerify.v
CTTail.v
GoCalendar.v
GoRFC3339.v
Cron.v
Release.v
GoEnc.v
Auth.v
Limiter.v
ClientIP.v
Login.v
SubjectScope.v
NetText.v
Message.v
SpanStore.v
VergeCore.v
SignalFacts.v
ZoneFile.v
Proposer.v
EdgeStore.v
Egress.v
Dispatch.v
Pacing.v
Blanket.v
Connect.v
TLSLeaf.v
HTTPLeaf.v
Departures.v
Withdrawals.v
Census.v
CensusPolls.v
CauseRules.v
Produce.v
JobQueue.v
Delivery.v
