(* ===== verification/Prelude.v ===== *)
(** * A verification library for Verge

    Verge measures the attack surface of an organisation: from declared seeds it
    resolves names, probes the addresses it has custody of, folds what it sees
    into timelines, and tells the operator what moved.  This library models that
    pipeline as the Go code under [src/internal] and [src/cmd/web] writes it, from
    the jobs a scan dispatches to the message a channel receives, and proves what
    makes it correct.

    ** How the program is put together

    A seed ([internal/seed]) is a registrable domain or an address scope; an
    organisation's name is put to registries that propose scopes
    ([internal/proposer]), certificate logs are tailed for names, and an operator
    supplies zone files.  A scan ([internal/scan]) turns the estate into jobs; the
    queue ([internal/queue]) hands each job to a worker, which runs a measurement
    leaf ([internal/measure/...]) from a vantage: the resolution walk, wildcard
    discrimination, the connect, TLS and HTTP leaves, the shared-edge handshake.
    Custody ([internal/custody]) decides which addresses may be probed, and the
    realm it derives travels in the job to the guard on the prober's sockets.  What
    a leaf says is gated by the scope of its job and folded, one line at a time,
    into a table of spans ([internal/drift], [queue/spanfold.go]).  The same
    transaction decides who left the estate and produces messages: roots and their
    censuses, moves, reach, signals' edges, gaps, expiries.  Some are held until a
    hot dispatch has looked beneath them, and two polls complete those.  A message
    becomes deliveries ([internal/delivery]); reports run on cadences
    ([internal/report]).  Exposure ([internal/exposure]) and signals
    ([internal/signal]) are also reads of the estate for the operator's screens,
    which stand behind a sign-in ([cmd/web/auth.go], [internal/auth]).

    ** Files

    The fragment of Go and of its standard library:

    - [Prelude] (this file): 64-bit wrap-around, panics as [None], stable sorting,
      loops that keep the first element of a key, counting, and computations over
      a world ([St]) for code that calls out through an interface; the tactics and
      the hint database [verge].
    - [GoTime], [GoCalendar], [GoRFC3339]: instants, durations, dates and their
      text.  [GoStr], [GoBytes], [GoConv], [GoEnc]: byte strings, SHA-2 and SHA-1,
      decimals, base64 and base32.  [NetIP], [NetParse], [NetText]: addresses,
      prefixes, their text and the text read back.

    What is declared and what may be probed:

    - [Seed]: [seed.go], part of [exclusion.go].  [Proposer]: [internal/proposer].
      [ZoneFile]: [signal/zone.go], [scan/zone.go], [queue/zone.go].
    - [Custody]: [internal/custody] but for [egressguard.go] and the rest of
      [gate.go], which are [Egress]'s.  [SubjectScope]: [queue/scopegate.go] and the
      tests it shares with [membership.go].
    - [VergeCore]: the port list.  [Dispatch]: the jobs of [scan/hot.go],
      [cold.go], [tlsacceptance.go], [httpidentity.go], [edgefanout.go], with the
      queries that feed them.

    Measurement:

    - [ResolutionWalk], [Wildcard]: the DNS leaves, over a [Peer] that is a
      parameter.  [Pacing], [Blanket], [Connect]: the connect leaf and the rate it
      keeps.  [TLSLeaf], [HTTPLeaf]: acceptance and identity.  [EdgeStore]: the
      shared-edge handshake, its rows and the reading custody makes of them.
    - [CTMerkle], [CTFormat], [CTVerify], [CTTail]: certificate logs: audit paths,
      byte formats (the class [Reader] relates a reader to the writer of its
      standard), the point check, the drift tail and what it admits.

    The store and the queue:

    - [JobQueue]: dispatches, jobs, workers, the reaper, stop and terminate, and
      retention's deletion of dispatches.
    - [Drift]: version vectors, the fold of readings into spans, kinds of a
      re-entry, withdrawal.  [SpanStore]: the same fold over the table of spans.
      [Trend]: the bucketed series.  [Retention]: [internal/retention].
    - [Departures], [Withdrawals]: who leaves, by measurement and by the operator.

    What is told:

    - [Estate], [Exposure], [Signal], [SignalFacts]: membership, the board, the
      rules as records of the rule interfaces' operations, and the facts they read.
    - [Message]: [internal/message].  [Census]: roots, dark scopes, moves.
      [CauseRules]: the edges of the rules, facets and certificate lifetimes.
      [Produce]: reach, classes, extensions, gaps, derivations, and the whole list
      of a fold.  [CensusPolls]: release and settlement.
    - [Delivery]: deliveries and report notices.  [Cron]: cadences and the report
      dispatcher.

    The listener:

    - [Auth], [Login], [Limiter], [ClientIP]: tokens, one-time passwords, sealing,
      the sign-in handlers, the limiter and the address it keys on.  [QRField],
      [QRBits], [QRMatrix]: [internal/qr], which draws the one-time password secret.
      [Release]: the check for a newer release.

    A definition has the name of the function it models; a loop's body is a
    [..._step] that the definition folds, and a Go method [T.m] is [T_m] where
    the plain name is taken.  Components meet at the rows they share: [Departures],
    [Census], [CauseRules] and [Produce] read [SpanStore]'s rows, [Dispatch] asks
    [Custody], [CauseRules] runs [Signal]'s rules on [SignalFacts], and the leaves'
    lines reach those facts through the laws of the JSON classes below.

    ** What the theorems show

    - Custody and dispatch: the gate admits an address exactly by declaration or by
      a direct citation the veto lets through, and never crosses a realm
      ([ProbeRealm_gate]); the measurement narrows the extension limb alone
      ([WithEdgeFanout_narrows_extension]); the population of the fan-out Scan is
      the gate's own reach ([EdgeFanoutPopulation_is_the_gate]) and so are the hot
      jobs ([fanOutHot_is_the_gate]); a job of the four scans that carry a realm
      names nothing outside it ([jobs_stay_in_their_realm]).
    - Queue: one batch for a job, bounded claims, no effect of a job that was lost,
      one dispatch of a window ([one_batch_per_job], [claims_are_bounded],
      [lost_job_commits_nothing], [claimDispatch_once_a_window]), over every
      sequence of the queue's transactions.
    - Timelines: the spans show at every instant the reading in force
      ([Fold_timeline_correct]) and the store holds those spans
      ([ingest_refines_Fold]), outages included.
    - Leaving: ground that is still cited or declared is not closed
      ([held_ground_stays]); a tombstone goes when its ground is empty
      ([tombstone_spent_when_empty]); the preview counts what the act closes
      ([preview_is_the_act]).
    - Messages: a dark scope's census ([dark_ground_is_told]), the split of a moved
      name's ground between the move and the roots ([residue_and_roots_partition]),
      the flagship ([flagship_fires_on_the_move]), rules told once
      ([fired_rules_told_once]), expiries told by one fold
      ([expiry_told_by_one_fold]), one enqueueing for a message
      ([one_delivery_per_message]), and when a bound on a read is exact
      ([citers_at_the_fold]).  Where the program tells twice or not at all the
      theorem's condition names the case and an evaluated [Example] shows it
      ([flagship_told_twice], [tick_tells_twice], [longer_address_is_silenced]).
    - Measurement: the outcome of a name ([Resolve_decides]), the wildcard verdict
      ([Discriminate_spec]), what one connect exchange dials, asks and says
      ([RunExchange_accounts]), acceptance from the handshakes to the signal
      ([tls10_fires_on_the_measured]), the pacer ([pacer_spaces_every_pair],
      [RoundRobin_fair]), what a zone file or a shared-edge line becomes
      ([zone_reads_back], [edge_lines_abort_only_on_nul]), a range as aligned
      prefixes ([rangeToPrefixes_spec]), the scope gate
      ([gate_admits_only_the_scope]).
    - Certificate transparency: an accepted path is the leaf's or exhibits two
      colliding inputs ([VerifyInclusion_sound]), an honest one is accepted
      ([VerifyInclusion_complete]); a poll ends and never goes back
      ([poll_ends_forward]) and on an honest log catches up ([tail_catches_up]).
    - Listener and reports: the second factor is required and a one-time password
      is never taken twice ([second_factor_is_required],
      [totp_code_never_taken_twice]); a symbol reads back as its payload
      ([Encode_roundtrip], against a reader written from the standard); a firing
      makes one delivery ([dispatchDue_once_per_tick]).

    The other theorems of each file characterise its remaining operations.

    ** Choices and bounds

    - A transaction is a function of the tables it touches; the steps of a system
      are whole transactions in the order they commit.  An error of the database
      abandons a transaction; where the caller goes on after one, whether the
      commit took place is an argument.  A query is a function of lists of rows in
      the order of their ids; [ORDER BY] on text goes by bytes, and [LIKE] reads
      one-byte characters.
    - Go maps are [gmap], sets [gset]; where Go ranges over a map and the order
      could show, the order is an argument (drawn afresh at each call in [Cron])
      or the result is shown not to depend on it.
    - [sort.Slice] is modelled by a stable sort.  Where [less] separates distinct
      elements this is the only possible result; for rows with equal keys it is
      what Go's insertion sort does up to twelve elements.
    - Fuel: the walk of a scope takes one step per address and one more
      ([enumerate_fuel], enough by [EnumerateAddresses_whole]); an exchange has two
      transports ([exchange_levels], by [Exchange_budget]); a range of addresses
      takes two prefixes a bit at most ([rangeToPrefixes_spec]); a data tile takes
      one step per leaf, a poll one per entry of its window ([window_fuel], by
      [poll_ends_forward], for cursors up to 2^62 - 16384: beyond it the sums wrap,
      [last_tile_wraps]); a cron field 256 passes ([parseField_spec]); TLS
      enumeration one step per offer ([Enumerate_ends]); the IPv6 parser reads at
      most eight groups; trimming removes a byte a pass.
    - Facts about the ten symbol versions and about the calendar's era are
      evaluated, one table per fact; everything that depends on the payload or on
      the date is proved.
    - Integers that Go keeps in 64 bits and that can reach the end wrap
      ([wrap64]); lengths and counters of in-memory slices are unbounded.

    ** Parameters

    Code outside the repository is a class or an argument, with laws where a
    theorem needs them and an instance where a witness evaluates it:
    [encoding/json] for each shape the program decodes or encodes ([SessionJSON],
    [CTJson], [JSONData], [JSONAddresses], [JSONCited], [JSONCause], [FactsJSON],
    [LeafJSON], [AcceptanceJSON], [IdentityJSON], [EdgeJSON], [ZoneJSON],
    [FeedJSON], [BodyJSON], [ARINJSON], [CAIDAJSON]); [bcrypt], HKDF and the AEAD;
    [x/crypto/cryptobyte], X.509 and OCSP ([CryptoByte], [ASN1], [CertNames]); the
    public-suffix list; [url.Parse], [strconv.Quote], [rand.Int] and Unicode case
    beyond ASCII ([UnicodeCase], [UnicodeFold], [UnicodeUpper]).  What answers from
    outside is a computation over a world: the resolver and its peers, the dialer,
    the TLS handshake, the HTTP client, the certificate logs, the throttle.  So are
    the steps of a job that write outside the queue's tables, the retention stores,
    and which rows another transaction has locked.

    ** Not modelled

    Sockets, DNS and TLS packets; JSON itself; the scanning code sqlc generates
    (queries are modelled from their SQL where a component reads them); the bulk
    certificate sources and their edges; the act corpus, vantage keys and remote
    execution; transcripts; most pages and handlers of [cmd/web] (settings, seeds,
    proposals, exclusions, restore, the screens); the tickers, logs and wiring of
    the binaries; the comment linter and the development tools. *)

From Stdlib Require Export ZArith Lia.
From stdpp Require Export base sorting numbers strings sets gmap list.

#[global] Open Scope Z_scope.
#[global] Set Default Goal Selector "!".

(** ** Notations of the Go fragment *)

Declare Scope go_scope.
Delimit Scope go_scope with go.

(** A Go [int64]/[int] operation wraps around at 64 bits. *)
Definition minInt64 : Z := - 2 ^ 63.
Definition maxInt64 : Z := 2 ^ 63 - 1.
Definition wrap64 (z : Z) : Z := (z + 2 ^ 63) mod 2 ^ 64 - 2 ^ 63.
Definition wrapu32 (z : Z) : Z := z mod 2 ^ 32.
Definition wrapu8 (z : Z) : Z := z mod 2 ^ 8.

Definition in_int64 (z : Z) : Prop := minInt64 ≤ z ≤ maxInt64.

Notation "x +64 y" := (wrap64 (x + y)) (at level 50, left associativity) : go_scope.
Notation "x -64 y" := (wrap64 (x - y)) (at level 50, left associativity) : go_scope.
Notation "x *64 y" := (wrap64 (x * y)) (at level 40, left associativity) : go_scope.
Notation "x /64 y" := (wrap64 (x ÷ y)) (at level 40, left associativity) : go_scope.

#[global] Open Scope go_scope.

(** A Go expression that may panic has type [option]: [None] is the panic. *)
Notation "'panics' e" := (e = None) (at level 70, only parsing) : go_scope.

(** Integer division panics on a zero divisor and truncates toward zero. *)
Definition go_div64 (a b : Z) : option Z := if b =? 0 then None else Some (wrap64 (a ÷ b)).

(** [make([]T, n)] panics on a negative length. *)
Definition make_slice {A} (n : Z) (zero : A) : option (list A) :=
  if n <? 0 then None else Some (replicate (Z.to_nat n) zero).

(** [l[i]], which panics out of range. *)
Definition index_slice {A} (l : list A) (i : Z) : option A :=
  if i <? 0 then None else l !! Z.to_nat i.

(** [l[i] = f(l[i])], which panics out of range. *)
Definition index_alter {A} (f : A → A) (i : Z) (l : list A) : option (list A) :=
  if (0 <=? i) && (i <? Z.of_nat (length l)) then Some (alter f (Z.to_nat i) l) else None.

(** A [for range] loop whose body may panic. *)
Definition for_range {A S} (body : S → A → option S) (items : list A) (s : S) : option S :=
  foldl (λ acc x, acc ≫= λ s, body s x) (Some s) items.

(** Elements of a slice that satisfy a test, counted. *)
Definition count_if {A} (P : A → bool) (l : list A) : Z :=
  Z.of_nat (length (filter (λ x, P x) l)).

Definition sumZ (l : list Z) : Z := foldr Z.add 0 l.

(** ** Sorting: [sort.SliceStable] and [sort.Slice] with a [less] function *)

Section StableSort.
Context {A : Type} (less : A → A → bool).

Fixpoint insert_sorted (x : A) (l : list A) : list A :=
  match l with
  | [] => [x]
  | y :: l' => if less y x then y :: insert_sorted x l' else x :: l
  end.

Definition sort_stable (l : list A) : list A := foldr insert_sorted [] l.

(** [x] may stand before [y] in a sorted slice. *)
Definition not_after (x y : A) : Prop := less y x = false.
End StableSort.

(** What [sort.Slice] asks of its [less]: a strict weak order. *)
Class StrictWeak {A} (less : A → A → bool) : Prop := {
  sw_asym : ∀ x y, less x y = true → less y x = false;
  sw_trans : ∀ x y z, less y x = false → less z y = false → less z x = false
}.

(** Go compares strings byte by byte. *)
Definition str_less (a b : string) : bool := String.ltb a b.

(** [sort.Strings]. *)
Definition sort_strings : list string → list string := sort_stable str_less.

(** The keys of a Go map or set of strings, sorted. *)
Definition sorted_keys (s : gset string) : list string := sort_strings (elements s).

(** ** Tactics of the development *)

Create HintDb verge discriminated.

(** Case analysis on an innermost [if] of the goal, naming the equation. *)
Ltac case_if_eq :=
  match goal with
  | |- context [if ?b then _ else _] =>
      lazymatch b with context [if _ then _ else _] => fail | _ => destruct b eqn:? end
  end.

Ltac bool_to_prop :=
  repeat match goal with
  | H : _ && _ = true |- _ => apply andb_true_iff in H as [? ?]
  | H : _ && _ = false |- _ => apply andb_false_iff in H
  | H : _ || _ = true |- _ => apply orb_true_iff in H
  | H : _ || _ = false |- _ => apply orb_false_iff in H as [? ?]
  | H : negb _ = true |- _ => apply negb_true_iff in H
  | H : negb _ = false |- _ => apply negb_false_iff in H
  | H : (_ <? _) = true |- _ => apply Z.ltb_lt in H
  | H : (_ <? _) = false |- _ => apply Z.ltb_ge in H
  | H : (_ <=? _) = true |- _ => apply Z.leb_le in H
  | H : (_ <=? _) = false |- _ => apply Z.leb_gt in H
  | H : (_ =? _) = true |- _ => apply Z.eqb_eq in H
  | H : (_ =? _) = false |- _ => apply Z.eqb_neq in H
  | H : bool_decide _ = true |- _ => apply bool_decide_eq_true in H
  | H : bool_decide _ = false |- _ => apply bool_decide_eq_false in H
  end.

(** Destruct every [if] and discharge the arithmetic. *)
Ltac split_ifs := repeat case_if_eq; bool_to_prop.

(** ** Integers *)

Lemma wrap64_id z : in_int64 z → wrap64 z = z.
Proof. unfold in_int64, wrap64, minInt64, maxInt64. intros. rewrite Z.mod_small; lia. Qed.

Lemma wrap64_in z : in_int64 (wrap64 z).
Proof.
  unfold in_int64, wrap64, minInt64, maxInt64.
  pose proof (Z.mod_pos_bound (z + 2 ^ 63) (2 ^ 64)). lia.
Qed.

#[export] Hint Resolve wrap64_in : verge.

(** ** Lists *)

Section ListLemmas.
Context {A : Type}.
Implicit Types l : list A.

Lemma Forall_permutation (P : A → Prop) l k : l ≡ₚ k → Forall P l → Forall P k.
Proof. by intros ->. Qed.

Lemma NoDup_length_le l k :
  NoDup l → (∀ x, x ∈ l → x ∈ k) → (length l ≤ length k)%nat.
Proof. intros Hnd Hin. by apply submseteq_length, NoDup_submseteq. Qed.

Lemma filter_none (P : A → Prop) `{∀ x, Decision (P x)} l :
  (∀ x, x ∈ l → ¬ P x) → filter P l = [].
Proof.
  induction l as [|x l IH]; intros Hn; [done|].
  rewrite filter_cons_False by (apply Hn; left). apply IH. intros y Hy. apply Hn. by right.
Qed.

Lemma filter_all (P : A → Prop) `{∀ x, Decision (P x)} l :
  (∀ x, x ∈ l → P x) → filter P l = l.
Proof.
  induction l as [|x l IH]; intros Hn; [done|].
  rewrite filter_cons_True by (apply Hn; left). f_equal. apply IH.
  intros y Hy. apply Hn. by right.
Qed.

Lemma filter_ext_in (P Q : A → Prop) `{∀ x, Decision (P x)} `{∀ x, Decision (Q x)} l :
  (∀ x, x ∈ l → P x ↔ Q x) → filter P l = filter Q l.
Proof.
  induction l as [|x l IH]; intros Hpq; [done|]. rewrite !filter_cons, IH by (intros; apply Hpq; by right).
  specialize (Hpq x ltac:(left)). destruct (decide (P x)), (decide (Q x)); tauto.
Qed.

Lemma filter_map_frame (P : A → Prop) `{∀ x, Decision (P x)} (f : A → A) l :
  (∀ x, x ∈ l → (P x ↔ P (f x)) ∧ (P x → f x = x)) → filter P (map f l) = filter P l.
Proof.
  induction l as [|x l IH]; intros Hf; [done|]. cbn [map]. rewrite !filter_cons, IH by (intros; apply Hf; by right).
  destruct (Hf x) as [Hiff Hfix]; [left|]. destruct (decide (P (f x))), (decide (P x)); try tauto.
  by rewrite Hfix.
Qed.

Lemma mapM_elem {C} (f : A → option C) l k x :
  mapM f l = Some k → x ∈ l → ∃ y, f x = Some y ∧ y ∈ k.
Proof.
  revert k. induction l as [|z l IH]; intros k Hk Hx; [by apply not_elem_of_nil in Hx|].
  cbn in Hk. apply bind_Some in Hk as (y & Hy & Hk). apply bind_Some in Hk as (k' & Hk' & [= <-]).
  apply elem_of_cons in Hx as [->|Hx]; [exists y; split; [done|left]|].
  destruct (IH k' Hk' Hx) as (w & Hw & Hin). exists w. split; [done|by right].
Qed.

Lemma NoDup_map_inj {B} (f : A → B) l x y :
  NoDup (map f l) → x ∈ l → y ∈ l → f x = f y → x = y.
Proof.
  induction l as [|z l IH]; simpl; [set_solver|]. intros [Hz Hl]%NoDup_cons Hx Hy Hf.
  apply elem_of_cons in Hx as [->|Hx], Hy as [->|Hy]; [done| | |by apply IH].
  - exfalso. apply Hz. rewrite Hf. by apply list_elem_of_fmap_2.
  - exfalso. apply Hz. rewrite <- Hf. by apply list_elem_of_fmap_2.
Qed.
End ListLemmas.

(** ** Loops *)

Lemma for_range_None {A S} (body : S → A → option S) items :
  foldl (λ acc x, acc ≫= λ s, body s x) None items = None.
Proof. by induction items. Qed.

Lemma for_range_cons {A S} (body : S → A → option S) x items s :
  for_range body (x :: items) s = s' ← body s x; for_range body items s'.
Proof. unfold for_range. simpl. destruct (body s x); simpl; [done|]. apply for_range_None. Qed.

(** A loop whose body never panics is a left fold. *)
Lemma for_range_total {A S} (I : S → Prop) (body : S → A → option S) (step : S → A → S) items s :
  I s → (∀ s x, x ∈ items → I s → body s x = Some (step s x) ∧ I (step s x)) →
  for_range body items s = Some (foldl step s items).
Proof.
  revert s. induction items as [|x items IH]; intros s Hs Hb; [done|].
  rewrite for_range_cons. destruct (Hb s x) as [-> Hs']; [by left|done|]. simpl.
  apply IH; [done|]. intros s' y Hy. apply Hb. by right.
Qed.

(** Folding a pointwise update is folding at each point. *)
Lemma foldl_imap {A P} (g : A → nat → P → P) (items : list A) (pts : list P) :
  foldl (λ ps a, imap (g a) ps) pts items = imap (λ i p, foldl (λ p a, g a i p) p items) pts.
Proof.
  revert pts. induction items as [|a items IH]; intros pts; simpl.
  - apply list_eq. intros i. rewrite list_lookup_imap. by destruct (pts !! i).
  - rewrite IH. apply list_eq. intros i. rewrite !list_lookup_imap. by destruct (pts !! i).
Qed.

Lemma index_alter_imap {A} (f : A → A) i (l : list A) :
  0 ≤ i < Z.of_nat (length l) →
  index_alter f i l = Some (imap (λ j x, if decide (Z.of_nat j = i) then f x else x) l).
Proof.
  intros Hi. unfold index_alter.
  rewrite (proj2 (Z.leb_le _ _)), (proj2 (Z.ltb_lt _ _)) by lia. simpl. f_equal.
  apply list_eq. intros j. rewrite list_lookup_imap.
  destruct (decide (Z.of_nat j = i)) as [<-|Hne].
  - rewrite Nat2Z.id, list_lookup_alter_eq. done.
  - rewrite list_lookup_alter_ne by lia. by destruct (l !! j).
Qed.

(** ** Counting and sums *)

Lemma count_if_cons {A} (P : A → bool) x l :
  count_if P (x :: l) = (if P x then 1 else 0) + count_if P l.
Proof. unfold count_if. rewrite filter_cons. destruct (P x); simpl; lia. Qed.

Lemma count_if_nil {A} (P : A → bool) : count_if P [] = 0.
Proof. done. Qed.

Lemma count_if_bounds {A} (P : A → bool) l : 0 ≤ count_if P l ≤ Z.of_nat (length l).
Proof. unfold count_if. pose proof (length_filter (λ x, P x) l). lia. Qed.

Lemma count_if_app {A} (P : A → bool) l k : count_if P (l ++ k) = count_if P l + count_if P k.
Proof. unfold count_if. rewrite filter_app, length_app. lia. Qed.

Lemma count_if_pos {A} (P : A → bool) l : 0 < count_if P l ↔ ∃ x, x ∈ l ∧ P x = true.
Proof.
  induction l as [|x l IH].
  - rewrite count_if_nil. split; [lia|]. by intros (x & []%not_elem_of_nil & _).
  - rewrite count_if_cons. setoid_rewrite elem_of_cons. pose proof (count_if_bounds P l).
    destruct (P x) eqn:Hx; split.
    + intros _. exists x. auto.
    + intros _. lia.
    + intros Hpos. destruct (proj1 IH ltac:(lia)) as (y & ? & ?). eauto.
    + intros (y & [->|Hy] & Hp); [congruence|]. assert (0 < count_if P l) by (apply IH; eauto). lia.
Qed.

Lemma count_if_split {A} (P Q : A → bool) l :
  count_if P l = count_if (λ x, P x && Q x) l + count_if (λ x, P x && negb (Q x)) l.
Proof.
  induction l as [|x l IH]; [done|]. rewrite !count_if_cons, IH.
  destruct (P x), (Q x); cbn [andb negb]; lia.
Qed.

Lemma sumZ_app l k : sumZ (l ++ k) = sumZ l + sumZ k.
Proof. induction l; simpl; lia. Qed.

Lemma sumZ_map_add {A} (f g : A → Z) l :
  sumZ (map (λ x, f x + g x) l) = sumZ (map f l) + sumZ (map g l).
Proof. induction l; simpl; lia. Qed.

Lemma sumZ_map_zero {A} (l : list A) : sumZ (map (λ _, 0) l) = 0.
Proof. induction l; simpl; lia. Qed.

(** The counts under distinct keys add up to the whole. *)
Lemma sum_of_counts {A} (key : A → string) (ks : list string) (l : list A) :
  NoDup ks → (∀ x, x ∈ l → key x ∈ ks) →
  sumZ (map (λ k, count_if (λ x, String.eqb (key x) k) l) ks) = Z.of_nat (length l).
Proof.
  intros Hn. induction l as [|x l IH]; intros Hin; [apply sumZ_map_zero|].
  assert (Hx : key x ∈ ks) by (apply Hin; left).
  assert (Hone : sumZ (map (λ k, if String.eqb (key x) k then 1 else 0) ks) = 1).
  { clear IH Hin. induction ks as [|k ks IH]; [by apply not_elem_of_nil in Hx|].
    apply NoDup_cons in Hn as [Hk Hn]. cbn [map]. unfold sumZ in *. cbn [foldr].
    destruct (String.eqb_spec (key x) k) as [E|Hne].
    - fold (sumZ (map (λ k, if String.eqb (key x) k then 1 else 0) ks)).
      rewrite (map_ext_in _ (λ _, 0)); [by rewrite sumZ_map_zero|]. intros j Hj%list_elem_of_In.
      destruct (String.eqb_spec (key x) j); [congruence|done].
    - rewrite IH; [done|done|]. apply elem_of_cons in Hx as [?|?]; [congruence|done]. }
  rewrite (map_ext _ (λ k, (if String.eqb (key x) k then 1 else 0) + count_if (λ x, String.eqb (key x) k) l)).
  2: { intros k. rewrite count_if_cons. by destruct (String.eqb (key x) k). }
  rewrite sumZ_map_add, Hone, IH; [|intros y Hy; apply Hin; by right]. cbn [length]. lia.
Qed.

(** ** The stable sort is a sort *)

Section StableSortLemmas.
Context {A : Type} (less : A → A → bool) `{!StrictWeak less}.
Implicit Types l k : list A.

Lemma less_irrefl x : less x x = false.
Proof. destruct (less x x) eqn:E; [|done]. by rewrite (sw_asym _ _ E) in E. Qed.

#[local] Instance not_after_trans : Transitive (not_after less).
Proof. intros x y z. unfold not_after. intros. by eapply sw_trans. Qed.

#[local] Instance not_after_refl : Reflexive (not_after less).
Proof. intros x. apply less_irrefl. Qed.

Lemma insert_sorted_Permutation x l : insert_sorted less x l ≡ₚ x :: l.
Proof.
  induction l as [|y l IH]; simpl; [done|].
  destruct (less y x); [|done]. rewrite IH. apply Permutation_swap.
Qed.

Lemma sort_stable_Permutation l : sort_stable less l ≡ₚ l.
Proof.
  induction l as [|x l IH]; simpl; [done|].
  by rewrite insert_sorted_Permutation, IH.
Qed.

Lemma insert_sorted_Sorted x l :
  StronglySorted (not_after less) l → StronglySorted (not_after less) (insert_sorted less x l).
Proof.
  induction 1 as [|y l Hl IH Hy]; simpl; [repeat constructor|].
  destruct (less y x) eqn:E.
  - constructor; [done|]. eapply Forall_permutation; [symmetry; apply insert_sorted_Permutation|].
    constructor; [by apply sw_asym|done].
  - constructor; [by constructor|]. constructor; [done|].
    rewrite Forall_forall in Hy |- *. intros z Hz. trans y; [exact E|auto].
Qed.

Lemma sort_stable_Sorted l : StronglySorted (not_after less) (sort_stable less l).
Proof. induction l; simpl; [constructor|]. by apply insert_sorted_Sorted. Qed.

Lemma sort_stable_elem x l : x ∈ sort_stable less l ↔ x ∈ l.
Proof. by rewrite sort_stable_Permutation. Qed.

Lemma sort_stable_length l : length (sort_stable less l) = length l.
Proof. by rewrite sort_stable_Permutation. Qed.

Lemma sort_stable_NoDup l : NoDup l → NoDup (sort_stable less l).
Proof. by rewrite sort_stable_Permutation. Qed.

Lemma sort_stable_Sorted_id l :
  StronglySorted (not_after less) l → sort_stable less l = l.
Proof.
  induction 1 as [|x l Hl IH Hx]; simpl; [done|]. rewrite IH.
  destruct l as [|y l]; [done|]. simpl. inv Hx. by rewrite H1.
Qed.

(** Any two sorted arrangements of one slice agree where [less] separates
    distinct elements, so an unstable sort has one possible result. *)
Lemma sorted_unique l k :
  (∀ x y, x ∈ l → y ∈ l → less x y = false → less y x = false → x = y) →
  StronglySorted (not_after less) l → StronglySorted (not_after less) k →
  l ≡ₚ k → l = k.
Proof.
  intros Hsep Hl Hk Hp. eapply StronglySorted_unique_strong; [|done..].
  intros x y Hx Hy Hxy Hyx. rewrite <- Hp in Hy. by apply Hsep.
Qed.

Lemma sort_stable_unique l k :
  (∀ x y, x ∈ l → y ∈ l → less x y = false → less y x = false → x = y) →
  StronglySorted (not_after less) k → l ≡ₚ k → sort_stable less l = k.
Proof.
  intros Hsep Hk Hp. apply sorted_unique.
  - intros x y. rewrite !sort_stable_elem. apply Hsep.
  - apply sort_stable_Sorted.
  - done.
  - by rewrite sort_stable_Permutation.
Qed.

Lemma sort_stable_proper_perm l k :
  (∀ x y, x ∈ l → y ∈ l → less x y = false → less y x = false → x = y) →
  l ≡ₚ k → sort_stable less l = sort_stable less k.
Proof.
  intros Hsep Hp. apply sort_stable_unique; [done|apply sort_stable_Sorted|].
  by rewrite sort_stable_Permutation.
Qed.
End StableSortLemmas.

(** ** String order *)

Lemma str_less_false_le a b : str_less a b = false ↔ String.le b a.
Proof.
  unfold str_less, String.le, String.ltb, String.leb.
  rewrite (String.compare_antisym b a).
  destruct (String.compare a b) eqn:E; simpl; naive_solver.
Qed.

#[export] Instance str_less_weak : StrictWeak str_less.
Proof.
  split.
  - intros a b H. destruct (str_less b a) eqn:E; [|done]. exfalso.
    unfold str_less, String.ltb in *. rewrite (String.compare_antisym a b) in H.
    by destruct (String.compare b a).
  - intros a b c. rewrite !str_less_false_le. intros. by trans b.
Qed.

Lemma str_less_total a b : str_less a b = false → str_less b a = false → a = b.
Proof. rewrite !str_less_false_le. intros. by apply (anti_symm String.le). Qed.

(** A slice sorted by a key. *)
Definition less_by {A} (key : A → string) (x y : A) : bool := str_less (key x) (key y).

#[export] Instance less_by_weak {A} (key : A → string) : StrictWeak (less_by key).
Proof.
  split; unfold less_by.
  - intros x y. apply sw_asym.
  - intros x y z. apply sw_trans.
Qed.

#[export] Instance Zltb_weak {A} (key : A → Z) : StrictWeak (λ x y, key x <? key y).
Proof. split; intros; bool_to_prop; lia. Qed.

(** One key after another. *)

Lemma strict_weak_ext {A} (less less' : A → A → bool) : (∀ x y, less' x y = less x y) → StrictWeak less → StrictWeak less'.
Proof. intros E [Ha Ht]. split; intros *; rewrite !E; eauto. Qed.

Definition lex_less {A} (less less' : A → A → bool) (x y : A) : bool := less x y || (negb (less y x) && less' x y).

Lemma lex_less_weak {A} (less less' : A → A → bool) : StrictWeak less → StrictWeak less' → StrictWeak (lex_less less less').
Proof.
  intros H1 H2. unfold lex_less. split.
  - intros x y. destruct (less x y) eqn:E; [by rewrite (sw_asym _ _ E)|].
    destruct (less y x) eqn:E'; [done|]. cbn [orb negb andb]. by apply sw_asym.
  - intros x y z. destruct (less y x) eqn:Eyx; [done|]. destruct (less z y) eqn:Ezy; [by intros _|].
    rewrite (sw_trans x y z Eyx Ezy). cbn [orb]. destruct (less x z) eqn:Exz; [done|]. cbn [negb andb].
    rewrite (sw_trans y z x Ezy Exz), (sw_trans z x y Exz Eyx). cbn [orb negb andb]. apply sw_trans.
Qed.

Lemma sort_strings_perm l k : l ≡ₚ k → sort_strings l = sort_strings k.
Proof.
  intros. apply sort_stable_proper_perm; [apply _| |done].
  intros. by apply str_less_total.
Qed.

Lemma elem_of_sorted_keys x s : x ∈ sorted_keys s ↔ x ∈ s.
Proof. unfold sorted_keys, sort_strings. by rewrite sort_stable_elem, elem_of_elements. Qed.

Lemma NoDup_sorted_keys s : NoDup (sorted_keys s).
Proof. apply sort_stable_NoDup, NoDup_elements. Qed.

#[export] Hint Resolve sort_stable_Sorted NoDup_sorted_keys : verge.
#[export] Hint Rewrite @elem_of_sorted_keys : verge.

(** ** Loops that keep the first element of each key *)

Section Dedup.
Context {A B K : Type} `{Countable K}.
Variable f : A → option (K * B).

Definition dedup_step (st : gset K * list B) (x : A) : gset K * list B :=
  match f x with
  | None => st
  | Some (k, b) => if bool_decide (k ∈ st.1) then st else ({[ k ]} ∪ st.1, st.2 ++ [b])
  end.

(** [key] recovers the key from the kept value, and the key determines it. *)
Context (key : B → K)
  (Hkey : ∀ x k b, f x = Some (k, b) → key b = k)
  (Hdet : ∀ x y k b c, f x = Some (k, b) → f y = Some (k, c) → b = c).

Definition dedup (l : list A) : gset K * list B := foldl dedup_step (∅, []) l.

Lemma dedup_snoc l x : dedup (l ++ [x]) = dedup_step (dedup l) x.
Proof. unfold dedup. by rewrite foldl_app. Qed.

Lemma dedup_seen l : (dedup l).1 = list_to_set (map key (dedup l).2).
Proof using Hkey.
  clear Hdet. induction l as [|x l IH] using rev_ind; [done|]. rewrite dedup_snoc. unfold dedup_step.
  destruct (f x) as [[k b]|] eqn:E; [|done]. case_bool_decide; [done|]. simpl.
  rewrite map_app, list_to_set_app_L, IH. simpl. rewrite (Hkey _ _ _ E). set_solver.
Qed.

Lemma dedup_elem l b : b ∈ (dedup l).2 ↔ ∃ x, x ∈ l ∧ f x = Some (key b, b).
Proof.
  revert b. induction l as [|x l IH] using rev_ind; intros b; [set_solver|].
  rewrite dedup_snoc. setoid_rewrite elem_of_app. setoid_rewrite list_elem_of_singleton.
  assert (Hold : (∃ y, (y ∈ l ∨ y = x) ∧ f y = Some (key b, b)) ↔
    b ∈ (dedup l).2 ∨ f x = Some (key b, b)).
  { rewrite IH. split; [intros (y & [Hy| ->] & Hf)|intros [(y & Hy & Hf)|Hf]]; eauto. }
  rewrite Hold. clear Hold. unfold dedup_step. destruct (f x) as [[k c]|] eqn:E.
  - case_bool_decide as Hin; simpl.
    + split; [by left|]. intros [Hb|[= Hk Hc]]; [done|]. subst c.
      rewrite dedup_seen, elem_of_list_to_set, Hk in Hin.
      apply list_elem_of_fmap in Hin as (b' & Hb & Hb'). pose proof Hb' as Hb''.
      apply IH in Hb' as (z & _ & Hfz). rewrite <- Hb, <- Hk in Hfz.
      by rewrite (Hdet _ _ _ _ _ E Hfz).
    + rewrite elem_of_app, list_elem_of_singleton. apply or_iff_compat_l.
      split; [intros ->|by intros [= -> ->]]. by rewrite (Hkey _ _ _ E).
  - split; [by left|]. by intros [?|?].
Qed.

Lemma dedup_NoDup l : NoDup (map key (dedup l).2).
Proof.
  induction l as [|x l IH] using rev_ind; [constructor|]. rewrite dedup_snoc. unfold dedup_step.
  destruct (f x) as [[k b]|] eqn:E; [|done]. case_bool_decide as Hin; [done|]. simpl.
  rewrite map_app. apply NoDup_app. split; [done|split; [|apply NoDup_singleton]].
  intros k' Hk' Hs. simpl in Hs. apply list_elem_of_singleton in Hs. subst.
  rewrite (Hkey _ _ _ E) in Hk'. apply Hin. by rewrite dedup_seen, elem_of_list_to_set.
Qed.

(** What is kept stands in the order it was met. *)
Lemma dedup_sublist l : (dedup l).2 `sublist_of` omap (λ x, snd <$> f x) l.
Proof.
  induction l as [|x l IH] using rev_ind; [done|]. rewrite dedup_snoc, omap_app. unfold dedup_step.
  simpl. destruct (f x) as [[k b]|] eqn:E; simpl; [|by rewrite app_nil_r].
  case_bool_decide; simpl; [by apply sublist_inserts_r|]. by apply sublist_app.
Qed.
End Dedup.

(** The keys themselves, each once. *)
Lemma elem_of_dedup_by {A K} `{Countable K} (g : A → K) l k :
  k ∈ (dedup (λ x, Some (g x, g x)) l).2 ↔ ∃ x, x ∈ l ∧ g x = k.
Proof.
  rewrite (dedup_elem _ id).
  - split; intros (x & Hx & Hf); exists x; (split; [done|]); [by injection Hf|by rewrite Hf].
  - by intros x j b [= <- <-].
  - intros x y j b c [= <- <-] [= Hy <-]. done.
Qed.

Lemma NoDup_dedup_by {A K} `{Countable K} (g : A → K) l :
  NoDup (dedup (λ x, Some (g x, g x)) l).2.
Proof.
  rewrite <- (map_id (dedup _ _).2). apply (dedup_NoDup _ id); by intros x j b [= <- <-].
Qed.

Lemma dedup_by_seen {A K} `{Countable K} (g : A → K) l :
  (dedup (λ x, Some (g x, g x)) l).1 = list_to_set (dedup (λ x, Some (g x, g x)) l).2.
Proof. rewrite (dedup_seen _ id), map_id; [done|]. by intros x j b [= <- <-]. Qed.

(** ** The first of each key in a sorted slice *)

Section Least.
Context {A K : Type} `{Countable K} (less : A → A → bool) `{!StrictWeak less} (key : A → K).

#[local] Abbreviation firsts l := (dedup (λ x, Some (key x, x)) l).2.

Lemma firsts_has l x : x ∈ l → ∃ y, y ∈ firsts l ∧ key y = key x.
Proof.
  induction l as [|z l IH] using rev_ind; [by intros ?%not_elem_of_nil|]. rewrite dedup_snoc. unfold dedup_step.
  assert (∀ l, (dedup (λ x, Some (key x, x)) l).1 = list_to_set (map key (firsts l))) as Hseen.
  { intros. apply dedup_seen. by intros ? ? ? [= <- <-]. }
  intros [Hx| ->%list_elem_of_singleton]%elem_of_app.
  - destruct (IH Hx) as (y & Hy & E). exists y. split; [|done]. case_bool_decide; [done|]. cbn. rewrite elem_of_app. by left.
  - case_bool_decide as Hin.
    + rewrite Hseen, elem_of_list_to_set in Hin. by apply list_elem_of_fmap in Hin as (y & ? & ?); exists y.
    + exists z. split; [|done]. cbn. rewrite elem_of_app. right. by left.
Qed.

Lemma firsts_least l x :
  StronglySorted (not_after less) l → x ∈ firsts l → x ∈ l ∧ ∀ y, y ∈ l → key y = key x → less y x = false.
Proof.
  induction l as [|z l IH] using rev_ind; intros Hs; [by intros ?%not_elem_of_nil|].
  apply StronglySorted_app in Hs as (Hlz & Hs & _).
  rewrite dedup_snoc. unfold dedup_step. intros Hx.
  assert (x ∈ firsts l ∨ x = z ∧ key z ∉ (dedup (λ x, Some (key x, x)) l).1) as [Hold|[-> Hnew]].
  { revert Hx. case_bool_decide; cbn; [by left|]. rewrite elem_of_app, list_elem_of_singleton. intros [?| ->]; auto. }
  - destruct (IH Hs Hold) as [Hin Hleast]. split; [rewrite elem_of_app; by left|].
    intros y [Hy| ->%list_elem_of_singleton]%elem_of_app E; [by apply Hleast|].
    apply (Hlz x z); [done|]. by left.
  - split; [rewrite elem_of_app; right; by left|]. intros y [Hy| ->%list_elem_of_singleton]%elem_of_app E; [|by apply less_irrefl].
    destruct (firsts_has l y Hy) as (w & Hw & E'). exfalso. apply Hnew.
    rewrite (dedup_seen _ key) by by intros ? ? ? [= <- <-]. rewrite elem_of_list_to_set. apply list_elem_of_fmap. exists w. split; [congruence|done].
Qed.
End Least.

Lemma foldl_inv {A S} (I : S → Prop) (f : S → A → S) l s :
  I s → (∀ s x, x ∈ l → I s → I (f s x)) → I (foldl f s l).
Proof.
  revert s. induction l as [|x l IH]; intros s Hs Hf; [done|]. simpl.
  apply IH; [apply Hf; [left|done]|]. intros s' y Hy. apply Hf. by right.
Qed.

Lemma foldl_ext {A B} (f g : B → A → B) l b :
  (∀ b a, a ∈ l → f b a = g b a) → foldl f b l = foldl g b l.
Proof.
  revert b. induction l as [|a l IH]; intros b Hfg; [done|]. simpl.
  rewrite Hfg by left. apply IH. intros b' a' Ha'. apply Hfg. by right.
Qed.

Lemma existsb_bool {A} (P : A → bool) l : existsb P l = true ↔ ∃ x, x ∈ l ∧ P x = true.
Proof. rewrite existsb_exists. setoid_rewrite list_elem_of_In. done. Qed.

Lemma forallb_bool {A} (P : A → bool) l : forallb P l = true ↔ ∀ x, x ∈ l → P x = true.
Proof. rewrite forallb_forall. setoid_rewrite list_elem_of_In. done. Qed.

Lemma forallb_perm {B} (P : B → bool) (l k : list B) : l ≡ₚ k → forallb P l = forallb P k.
Proof.
  intros Hp. apply eq_true_iff_eq. rewrite !forallb_bool.
  split; intros H x Hx; apply H; by (rewrite Hp || rewrite <- Hp).
Qed.

Lemma existsb_snoc {A} (P : A → bool) l x : existsb P (l ++ [x]) = existsb P l || P x.
Proof. rewrite existsb_app. cbn. by rewrite orb_false_r. Qed.

(** ** Effects: a state-passing computation over a world [W]

    What the code asks of a peer it cannot see (a network, a store) is a
    function of the world, and the world is threaded in the order of the calls. *)

Definition St (W A : Type) : Type := W → A * W.

#[export] Instance St_ret W : MRet (St W) := λ A a w, (a, w).
#[export] Instance St_bind W : MBind (St W) := λ A B f m w, let '(a, w') := m w in f a w'.

(** A [for range] loop that calls out. *)
Fixpoint for_each {W A S} (body : S → A → St W S) (items : list A) (s : S) : St W S :=
  match items with
  | [] => mret s
  | x :: items' => s' ← body s x; for_each body items' s'
  end.

(** The answers of a call made for each element in turn. *)
Fixpoint ask_each {W A B} (ask : A → St W B) (items : list A) : St W (list B) :=
  match items with
  | [] => mret []
  | x :: items' => b ← ask x; bs ← ask_each ask items'; mret (b :: bs)
  end.

(** *** What is asked, in order

    A call that leaves its mark in a log beside the world; [yields m Q] says that
    whatever the world answers, [m] appends to the log marks [d] and returns [a]
    with [Q a d]. *)

Section Logged.
Context {W D : Type}.

Definition logged {A} (mark : D) (ask : St W A) : St (W * list D) A := λ '(w, l),
  let '(a, w') := ask w in (a, (w', l ++ [mark])).

(** The same, with the answer in the mark. *)
Definition answered {A} (mark : A → D) (ask : St W A) : St (W * list D) A := λ '(w, l),
  let '(a, w') := ask w in (a, (w', l ++ [mark a])).

Definition yields {A} (m : St (W * list D) A) (Q : A → list D → Prop) : Prop :=
  ∀ w l, let '(a, (_, l')) := m (w, l) in ∃ d, l' = l ++ d ∧ Q a d.

Lemma yields_mono {A} (m : St (W * list D) A) (Q R : A → list D → Prop) :
  yields m Q → (∀ a d, Q a d → R a d) → yields m R.
Proof.
  intros Hm Hqr w l. specialize (Hm w l). destruct (m (w, l)) as [a [w' l']].
  destruct Hm as (d & -> & Hq). exists d. auto.
Qed.

Lemma yields_ret {A} (a : A) Q : Q a [] → yields (mret a) Q.
Proof. intros HQ w l. cbn. exists []. by rewrite app_nil_r. Qed.

Lemma yields_bind {A B} (m : St (W * list D) A) (f : A → St (W * list D) B) Q R :
  yields m Q → (∀ a d, Q a d → yields (f a) (λ b d', R b (d ++ d'))) → yields (m ≫= f) R.
Proof.
  intros Hm Hf w l. unfold mbind, St_bind. specialize (Hm w l). destruct (m (w, l)) as [a [w' l']].
  destruct Hm as (d & -> & HQ). specialize (Hf a d HQ w' (l ++ d)). destruct (f a (w', l ++ d)) as [b [w'' l'']].
  destruct Hf as (d' & -> & HR). exists (d ++ d'). by rewrite app_assoc.
Qed.

Lemma yields_logged {A} mark (ask : St W A) Q : (∀ a, Q a [mark]) → yields (logged mark ask) Q.
Proof. intros HQ w l. unfold logged. destruct (ask w) as [a w']. exists [mark]. auto. Qed.

Lemma yields_answered {A} mark (ask : St W A) Q : (∀ a, Q a [mark a]) → yields (answered mark ask) Q.
Proof. intros HQ w l. unfold answered. destruct (ask w) as [a w']. exists [mark a]. auto. Qed.

Lemma yields_for_each {A S} (body : S → A → St (W * list D) S) (I : S → list A → list D → Prop) items s0 :
  I s0 [] [] →
  (∀ s pre d x, x ∈ items → I s pre d → yields (body s x) (λ s' dx, I s' (pre ++ [x]) (d ++ dx))) →
  yields (for_each body items s0) (λ s d, I s items d).
Proof.
  intros H0 Hb. assert (H : ∀ rest pre d s, (∀ x, x ∈ rest → x ∈ items) → I s pre d →
    yields (for_each body rest s) (λ s' d', I s' (pre ++ rest) (d ++ d'))).
  { induction rest as [|x rest IH]; intros pre d s Hin HI; cbn [for_each].
    - apply yields_ret. by rewrite !app_nil_r.
    - apply (yields_bind _ _ (λ s' dx, I s' (pre ++ [x]) (d ++ dx))); [apply Hb; [apply Hin; left|done]|].
      intros s' dx HI'. eapply yields_mono; [apply (IH (pre ++ [x]) (d ++ dx)); [intros; apply Hin; by right|done]|].
      intros s'' d' HI''. by rewrite <- !app_assoc in HI''. }
  eapply yields_mono; [apply (H items [] [] s0); [done|done]|]. done.
Qed.

Lemma yields_ask_each {A B} (ask : A → St (W * list D) B) (P : A → B → list D → Prop) items :
  (∀ x, x ∈ items → yields (ask x) (P x)) →
  yields (ask_each ask items) (λ bs d, ∃ ds, Forall3 P items bs ds ∧ d = concat ds).
Proof.
  induction items as [|x items IH]; intros Ha; cbn [ask_each].
  - apply yields_ret. exists []. split; [constructor|done].
  - apply (yields_bind _ _ (P x)); [apply Ha; left|]. intros b d Hb.
    apply (yields_bind _ _ (λ bs d, ∃ ds, Forall3 P items bs ds ∧ d = concat ds)); [apply IH; intros; apply Ha; by right|].
    intros bs d' (ds & Hf & ->). apply yields_ret. exists (d :: ds). split; [by constructor|]. cbn. by rewrite app_nil_r.
Qed.
End Logged.

(** A loop that only folds the answers is the answers, folded. *)
Lemma for_each_ask {W A B S} (ask : A → St W B) (step : S → A → B → S) items s w :
  for_each (λ s x, b ← ask x; mret (step s x b)) items s w =
    let '(bs, w') := ask_each ask items w in
    (foldl (λ s xb, step s xb.1 xb.2) s (zip items bs), w').
Proof.
  revert s w. induction items as [|x items IH]; intros s w; [done|].
  cbn [for_each ask_each]. unfold mbind, St_bind, mret, St_ret in *.
  destruct (ask x w) as [b w1]. rewrite IH.
  by destruct (ask_each ask items w1) as [bs w2].
Qed.
