(* ===== verification/GoTime.v ===== *)
(** * The instants and durations of Go's [time] package

    A [time.Time] is the number of nanoseconds since Go's zero instant
    (1 January of year 1, UTC), so [IsZero] tests for [0]; a [time.Duration] is
    an [int64] of nanoseconds.  An instant itself does not wrap: the code reads
    instants from clocks and from the database, nowhere near the ends of the
    292-billion-year range of [time.Time].  [Time.Sub] saturates, and arithmetic
    on durations wraps at 64 bits, as in Go.  Monotonic clock readings are not
    modelled: every instant here compares by its wall clock. *)

From S2P Require Import Prelude.

Definition zeroTime : Z := 0.
Definition IsZero (t : Z) : bool := t =? zeroTime.
Definition After (t u : Z) : bool := u <? t.
Definition Before (t u : Z) : bool := t <? u.
Definition TimeEqual (t u : Z) : bool := t =? u.
Definition TimeAdd (t d : Z) : Z := t + d.

(** [t.Sub(u)]: the difference, saturated at the ends of [int64]. *)
Definition TimeSub (t u : Z) : Z :=
  if t - u <? minInt64 then minInt64 else if maxInt64 <? t - u then maxInt64 else t - u.

Definition Nanosecond : Z := 1.
Definition Millisecond : Z := 1000000.
Definition Second : Z := 1000000000.
Definition Minute : Z := 60 * Second.
Definition Hour : Z := 60 * Minute.

(** Seconds between Go's zero instant and the Unix epoch. *)
Definition unixToInternal : Z := 62135596800.
Definition Unix (t : Z) : Z := t / Second - unixToInternal.
Definition TimeUnix (sec : Z) : Z := (sec + unixToInternal) * Second.

Lemma TimeSub_exact t u : in_int64 (t - u) → TimeSub t u = t - u.
Proof. unfold in_int64, TimeSub, minInt64, maxInt64. intros. split_ifs; lia. Qed.

Lemma TimeSub_in t u : in_int64 (TimeSub t u).
Proof. unfold in_int64, TimeSub, minInt64, maxInt64. split_ifs; lia. Qed.

Lemma TimeSub_nonneg t u : u ≤ t → 0 ≤ TimeSub t u ≤ t - u.
Proof. unfold TimeSub, minInt64, maxInt64. intros. split_ifs; lia. Qed.

Lemma Unix_TimeUnix s : Unix (TimeUnix s) = s.
Proof. unfold Unix, TimeUnix, Second. rewrite Z.div_mul; lia. Qed.

#[export] Hint Resolve TimeSub_in : verge.
