(* ===== verification/GoStr.v ===== *)
(** * Go's byte strings and the [strings] functions the program calls

    A Go string is a sequence of bytes: [string], one [ascii] per byte.
    [TrimSpace] removes Unicode white space, so its byte sequences are the
    UTF-8 encodings of [unicode.IsSpace]. *)

From Stdlib Require Export Ascii.
From S2P Require Import Prelude.

Definition code (c : ascii) : Z := Z.of_N (N_of_ascii c).
Definition byte_of (z : Z) : ascii := ascii_of_N (Z.to_N z).

Definition is_upper (c : ascii) : bool := (65 <=? code c) && (code c <=? 90).
Definition is_lower (c : ascii) : bool := (97 <=? code c) && (code c <=? 122).
Definition is_digit (c : ascii) : bool := (48 <=? code c) && (code c <=? 57).

Fixpoint string_map (f : ascii → ascii) (s : string) : string :=
  match s with "" => "" | String c s' => String (f c) (string_map f s') end.

Fixpoint string_forallb (f : ascii → bool) (s : string) : bool :=
  match s with "" => true | String c s' => f c && string_forallb f s' end.

Fixpoint string_existsb (f : ascii → bool) (s : string) : bool :=
  match s with "" => false | String c s' => f c || string_existsb f s' end.

(** [strings.CutPrefix] and [strings.CutSuffix]. *)
Fixpoint cut_prefix (p s : string) : option string :=
  match p, s with
  | "", _ => Some s
  | String a p', String b s' => if Ascii.eqb a b then cut_prefix p' s' else None
  | _, _ => None
  end.

Fixpoint cut_suffix (q s : string) : option string :=
  if String.eqb s q then Some ""
  else match s with "" => None | String c s' => String c <$> cut_suffix q s' end.

Definition HasPrefix (s p : string) : bool := bool_decide (is_Some (cut_prefix p s)).
Definition HasSuffix (s q : string) : bool := bool_decide (is_Some (cut_suffix q s)).

(** [strings.Contains], and SQL's [position(sub IN s) > 0]. *)
Fixpoint contains_text (sub s : string) : bool :=
  HasPrefix s sub || match s with "" => false | String _ s' => contains_text sub s' end.

Definition TrimPrefix (s p : string) : string := default s (cut_prefix p s).
Definition TrimSuffix (s q : string) : string := default s (cut_suffix q s).

(** [strings.Split(s, sep)] for a one-byte separator: never empty. *)
Fixpoint Split (sep : ascii) (s : string) : list string :=
  match s with
  | "" => [""]
  | String c s' =>
      if Ascii.eqb c sep then "" :: Split sep s'
      else match Split sep s' with
           | [] => [String c ""]
           | w :: ws => String c w :: ws
           end
  end.

(** [strings.IndexByte], [-1] when absent. *)
Fixpoint IndexByte (s : string) (b : ascii) : Z :=
  match s with
  | "" => -1
  | String c s' =>
      if Ascii.eqb c b then 0
      else let i := IndexByte s' b in if i <? 0 then -1 else i + 1
  end.

(** [s[:n]] and [s[n:]] for an index in range. *)
Definition slice_to (s : string) (n : Z) : string := String.substring 0 (Z.to_nat n) s.
Definition slice_from (s : string) (n : Z) : string :=
  String.substring (Z.to_nat n) (String.length s - Z.to_nat n) s.

(** [strings.LastIndex] of one byte. *)
Fixpoint LastIndexByte (s : string) (b : ascii) : Z :=
  match s with
  | "" => -1
  | String c s' =>
      let i := LastIndexByte s' b in
      if 0 <=? i then i + 1 else if Ascii.eqb c b then 0 else -1
  end.

Definition bytes (l : list Z) : string :=
  foldr (λ z s, String (byte_of z) s) "" l.

(** The UTF-8 encodings of Unicode white space. *)
Definition white_space : list string :=
  map bytes ([[9]; [10]; [11]; [12]; [13]; [32]; [194; 133]; [194; 160]; [225; 154; 128];
     [226; 128; 168]; [226; 128; 169]; [226; 128; 175]; [226; 129; 159]; [227; 128; 128]] ++
    map (λ z, [226; 128; z]) [128; 129; 130; 131; 132; 133; 134; 135; 136; 137; 138]).

Fixpoint trim_with (cut : string → string → option string) (fuel : nat) (s : string) : string :=
  match fuel with
  | O => s
  | S fuel' =>
      match list_find is_Some (map (λ w, cut w s) white_space) with
      | Some (_, Some s') => trim_with cut fuel' s'
      | _ => s
      end
  end.

(** Each pass removes at least one byte, so the length is enough fuel. *)
Definition TrimSpace (s : string) : string :=
  let s := trim_with cut_prefix (String.length s) s in
  trim_with cut_suffix (String.length s) s.

(** The fold of the 26 ASCII letters: DNS folds these and nothing else. *)
Definition fold_byte (c : ascii) : ascii :=
  if is_upper c then byte_of (code c + 32) else c.

(** ** Lemmas *)

Lemma append_nil r : ("" +:+ r)%string = r.
Proof. done. Qed.

Lemma append_cons a p r : (String a p +:+ r)%string = String a (p +:+ r)%string.
Proof. done. Qed.

Lemma append_nil_r r : (r +:+ "")%string = r.
Proof. induction r as [|a r IH]; [done|]. by rewrite append_cons, IH. Qed.

Lemma append_assoc a b c : (a +:+ (b +:+ c))%string = ((a +:+ b) +:+ c)%string.
Proof. induction a as [|x a IH]; [done|]. by rewrite !append_cons, IH. Qed.

Lemma length_append a b :
  String.length (a +:+ b)%string = (String.length a + String.length b)%nat.
Proof. induction a as [|x a IH]; [done|]. rewrite append_cons. simpl. by rewrite IH. Qed.

Lemma cut_prefix_spec p s r : cut_prefix p s = Some r ↔ s = (p +:+ r)%string.
Proof.
  revert s. induction p as [|a p IH]; intros s.
  { rewrite append_nil. simpl. naive_solver. }
  rewrite append_cons. destruct s as [|b s]; simpl; [naive_solver|].
  destruct (Ascii.eqb_spec a b) as [->|Hne].
  - rewrite IH. naive_solver.
  - naive_solver.
Qed.

Lemma cut_suffix_spec q s r : cut_suffix q s = Some r ↔ s = (r +:+ q)%string.
Proof.
  revert r. induction s as [|c s IH]; intros r; cbn [cut_suffix].
  - destruct (String.eqb_spec "" q) as [<-|Hne].
    + rewrite append_nil_r. naive_solver.
    + split; [done|]. destruct r; [rewrite append_nil|rewrite append_cons]; naive_solver.
  - destruct (String.eqb_spec (String c s) q) as [<-|Hne].
    + split; [by intros [= <-]|]. intros H. destruct r as [|d r]; [done|]. exfalso.
      apply (f_equal String.length) in H. rewrite length_append in H. simpl in H. lia.
    + destruct r as [|d r]; [rewrite append_nil|rewrite append_cons].
      * split; [by destruct (cut_suffix q s)|congruence].
      * rewrite fmap_Some. setoid_rewrite IH. naive_solver.
Qed.

Lemma Split_nonempty sep s : Split sep s ≠ [].
Proof. destruct s; simpl; [done|]. destruct (Ascii.eqb _ _); [done|]. by destruct (Split sep s). Qed.

Lemma substring_all s : String.substring 0 (String.length s) s = s.
Proof. induction s as [|c s IH]; [done|]. cbn. by rewrite IH. Qed.

Lemma code_range c : 0 ≤ code c < 256.
Proof.
  unfold code. pose proof (N_ascii_bounded c). lia.
Qed.

Lemma byte_of_code c : byte_of (code c) = c.
Proof. unfold byte_of, code. rewrite N2Z.id. apply ascii_N_embedding. Qed.

Lemma code_byte_of z : 0 ≤ z < 256 → code (byte_of z) = z.
Proof. intros. unfold byte_of, code. rewrite N_ascii_embedding by lia. lia. Qed.

Lemma string_forallb_impl f g s :
  (∀ c, f c = true → g c = true) → string_forallb f s = true → string_forallb g s = true.
Proof.
  intros Hi. induction s as [|c s IH]; simpl; [done|]. intros H. bool_to_prop.
  by rewrite Hi, IH.
Qed.

Lemma string_forallb_app f s t :
  string_forallb f (s +:+ t)%string = string_forallb f s && string_forallb f t.
Proof. induction s as [|c s IH]; [done|]. rewrite append_cons. cbn. by rewrite IH, andb_assoc. Qed.

Lemma Split_at_sep sep a b :
  Split sep (a +:+ String sep b)%string = Split sep a ++ Split sep b.
Proof.
  induction a as [|c a IH]; [rewrite append_nil; cbn [Split]; by rewrite Ascii.eqb_refl|].
  rewrite append_cons. cbn [Split]. destruct (Ascii.eqb c sep); [by rewrite IH|].
  rewrite IH. pose proof (Split_nonempty sep a). by destruct (Split sep a).
Qed.

(** Splitting what was joined. *)
Lemma Split_app sep s t : string_forallb (λ c, negb (Ascii.eqb c sep)) s = true →
  Split sep (s +:+ String sep t)%string = s :: Split sep t.
Proof.
  induction s as [|c s IH]; intros Hs.
  - rewrite append_nil. cbn. by rewrite Ascii.eqb_refl.
  - cbn in Hs. apply andb_true_iff in Hs as [Hc Hs]. rewrite append_cons. cbn [Split].
    apply negb_true_iff in Hc. by rewrite Hc, IH.
Qed.

Lemma Split_none sep s : string_forallb (λ c, negb (Ascii.eqb c sep)) s = true → Split sep s = [s].
Proof.
  induction s as [|c s IH]; intros Hs; [done|]. cbn in Hs. apply andb_true_iff in Hs as [Hc Hs].
  cbn [Split]. apply negb_true_iff in Hc. by rewrite Hc, IH.
Qed.

Lemma Split_concat sep l : l ≠ [] →
  Forall (λ s, string_forallb (λ c, negb (Ascii.eqb c sep)) s = true) l →
  Split sep (String.concat (String sep "") l) = l.
Proof.
  induction l as [|s [|t l] IH]; intros Hne Hl; [done|..]; apply Forall_cons in Hl as [Hs Hl].
  - by apply Split_none.
  - change (String.concat (String sep "") (s :: t :: l)) with
      (s +:+ String sep (String.concat (String sep "") (t :: l)))%string.
    by rewrite Split_app, IH.
Qed.

Lemma IndexByte_none s b : string_forallb (λ c, negb (Ascii.eqb c b)) s = true → IndexByte s b = -1.
Proof.
  induction s as [|c s IH]; [done|]. cbn [string_forallb IndexByte]. intros [Hc%negb_true_iff Hs]%andb_true_iff.
  by rewrite Hc, IH.
Qed.
