(* ===== verification/GoBytes.v ===== *)
(** * Bytes and Go's [crypto/sha256], [crypto/sha1], [crypto/hmac], [encoding/base64]

    A [[]byte] is a [list Z] of values in [0, 256).  The hash functions are
    written out from FIPS 180-4 and RFC 2104, so that what the program computes
    with them can be evaluated; the theorems about the program use only that a
    digest has a fixed length. *)

From S2P Require Import Prelude GoStr.

Definition byte (z : Z) : Prop := 0 ≤ z < 256.

(** ** Bytes *)

Lemma byte_testbit z : byte z ↔ 0 ≤ z ∧ ∀ i, 8 ≤ i → Z.testbit z i = false.
Proof.
  unfold byte. split.
  - intros Hz. split; [lia|]. intros i Hi. apply Z.bits_above_log2; [lia|].
    destruct (decide (z = 0)) as [->|]; [simpl; lia|].
    apply Z.log2_lt_pow2; [lia|]. pose proof (Z.pow_le_mono_r 2 8 i). lia.
  - intros [Hz Hb]. split; [done|]. destruct (decide (z = 0)) as [->|]; [lia|].
    destruct (Z.lt_ge_cases z 256) as [|Hge]; [done|]. exfalso.
    assert (8 ≤ Z.log2 z) by (apply Z.log2_le_pow2; lia).
    pose proof (Z.bit_log2 z ltac:(lia)) as Ht. by rewrite Hb in Ht.
Qed.

Lemma byte_lxor a b : byte a → byte b → byte (Z.lxor a b).
Proof.
  rewrite !byte_testbit. intros [Ha Hab] [Hb Hbb]. split.
  - apply Z.lxor_nonneg. lia.
  - intros i Hi. by rewrite Z.lxor_spec, Hab, Hbb.
Qed.

Lemma byte_0 : byte 0.
Proof. unfold byte. lia. Qed.

Lemma byte_1 : byte 1.
Proof. unfold byte. lia. Qed.

#[export] Hint Resolve byte_lxor byte_0 byte_1 : verge.

(** The bytes of a Go string and back. *)
Definition bytes_of (s : string) : list Z := map code (String.list_ascii_of_string s).
Definition string_of (l : list Z) : string := String.string_of_list_ascii (map byte_of l).

(** [n] bytes of [v], the high one first: [binary.BigEndian]. *)
Fixpoint be_bytes (n : nat) (v : Z) : list Z :=
  match n with O => [] | S n' => be_bytes n' (v / 256) ++ [v mod 256] end.

Definition be_val (l : list Z) : Z := foldl (λ a b, a * 256 + b) 0 l.

(** ** SHA-2 and SHA-1 *)

Definition w32 (z : Z) : Z := z mod 2 ^ 32.
Definition rotr (n x : Z) : Z := Z.lor (Z.shiftr x n) (w32 (Z.shiftl x (32 - n))).
Definition rotl (n x : Z) : Z := rotr (32 - n) x.
Definition not32 (x : Z) : Z := Z.lxor x 0xffffffff.

(** The message, a one bit, zeros, and the length in bits: whole blocks. *)
Definition sha_pad (msg : list Z) : list Z :=
  let len := Z.of_nat (length msg) in
  msg ++ [128] ++ replicate (Z.to_nat ((55 - len) mod 64)) 0 ++ be_bytes 8 (len * 8).

Fixpoint chunks (fuel n : nat) (l : list Z) : list (list Z) :=
  match fuel, l with
  | O, _ | _, [] => []
  | S fuel', _ => take n l :: chunks fuel' n (drop n l)
  end.

Definition words (l : list Z) : list Z := map be_val (chunks (length l) 4 l).

(** The message schedule, the latest word first. *)
Definition schedule (next : list Z → Z) (n : nat) (block : list Z) : list Z :=
  reverse (Nat.iter n (λ w, next w :: w) (reverse (words block))).

(** The constants of SHA-256 as FIPS 180-4 derives them: the first 32 bits of
    the fractional parts of the cube roots of the first 64 primes, and of the
    square roots of the first 8. *)
Definition is_prime (n : Z) : bool :=
  (1 <? n) && forallb (λ d, negb (n mod Z.of_nat d =? 0)) (seq 2 (Z.to_nat (Z.sqrt n) - 1)).

Definition sha_primes : list Z := filter (λ z, is_prime z = true) (map Z.of_nat (seq 2 310)).

(** The largest root below [2 ^ n] whose cube is at most [x], bit by bit. *)
Fixpoint cube_root (n : nat) (x r : Z) : Z :=
  match n with
  | O => r
  | S n' => let r' := r + 2 ^ Z.of_nat n' in cube_root n' x (if r' * r' * r' <=? x then r' else r)
  end.

Definition sha256_K : list Z :=
  Eval vm_compute in map (λ p, w32 (cube_root 40 (p * 2 ^ 96) 0)) sha_primes.

Definition sha256_init : list Z :=
  Eval vm_compute in map (λ p, w32 (Z.sqrt (p * 2 ^ 64))) (take 8 sha_primes).

Definition sha256_next (w : list Z) : Z :=
  let x := w !!! 1%nat in let y := w !!! 14%nat in
  let s1 := Z.lxor (Z.lxor (rotr 17 x) (rotr 19 x)) (Z.shiftr x 10) in
  let s0 := Z.lxor (Z.lxor (rotr 7 y) (rotr 18 y)) (Z.shiftr y 3) in
  w32 (s1 + w !!! 6%nat + s0 + w !!! 15%nat).

Definition sha256_round (st : list Z) (kw : Z * Z) : list Z :=
  match st with
  | [a; b; c; d; e; f; g; h] =>
      let s1 := Z.lxor (Z.lxor (rotr 6 e) (rotr 11 e)) (rotr 25 e) in
      let ch := Z.lxor (Z.land e f) (Z.land (not32 e) g) in
      let t1 := w32 (h + s1 + ch + kw.1 + kw.2) in
      let s0 := Z.lxor (Z.lxor (rotr 2 a) (rotr 13 a)) (rotr 22 a) in
      let maj := Z.lxor (Z.lxor (Z.land a b) (Z.land a c)) (Z.land b c) in
      [w32 (t1 + w32 (s0 + maj)); a; b; c; w32 (d + t1); e; f; g]
  | _ => st
  end.

Definition sha256_block (st block : list Z) : list Z :=
  let st' := foldl sha256_round st (zip sha256_K (schedule sha256_next 48 block)) in
  zip_with (λ x y, w32 (x + y)) st st'.

(** [sha256.Sum256]. *)
Definition Sum256 (msg : list Z) : list Z :=
  let p := sha_pad msg in
  flat_map (be_bytes 4) (foldl sha256_block sha256_init (chunks (length p) 64 p)).

Definition sha1_init : list Z := [0x67452301; 0xefcdab89; 0x98badcfe; 0x10325476; 0xc3d2e1f0].

Definition sha1_next (w : list Z) : Z :=
  rotl 1 (Z.lxor (Z.lxor (w !!! 2%nat) (w !!! 7%nat)) (Z.lxor (w !!! 13%nat) (w !!! 15%nat))).

Definition sha1_round (st : list Z) (iw : nat * Z) : list Z :=
  match st with
  | [a; b; c; d; e] =>
      let '(f, k) :=
        if (iw.1 <? 20)%nat then (Z.lor (Z.land b c) (Z.land (not32 b) d), 0x5a827999)
        else if (iw.1 <? 40)%nat then (Z.lxor (Z.lxor b c) d, 0x6ed9eba1)
        else if (iw.1 <? 60)%nat
        then (Z.lor (Z.lor (Z.land b c) (Z.land b d)) (Z.land c d), 0x8f1bbcdc)
        else (Z.lxor (Z.lxor b c) d, 0xca62c1d6) in
      [w32 (rotl 5 a + f + e + k + iw.2); a; rotl 30 b; c; d]
  | _ => st
  end.

Definition sha1_block (st block : list Z) : list Z :=
  let st' := foldl sha1_round st (zip (seq 0 80) (schedule sha1_next 64 block)) in
  zip_with (λ x y, w32 (x + y)) st st'.

(** [sha1.Sum]. *)
Definition Sum1 (msg : list Z) : list Z :=
  let p := sha_pad msg in
  flat_map (be_bytes 4) (foldl sha1_block sha1_init (chunks (length p) 64 p)).

(** [hmac.New(h, key)], written to once: both hashes have blocks of 64 bytes. *)
Definition Hmac (h : list Z → list Z) (key msg : list Z) : list Z :=
  let key := if (64 <? length key)%nat then h key else key in
  let key := key ++ replicate (64 - length key) 0 in
  h (map (Z.lxor 0x5c) key ++ h (map (Z.lxor 0x36) key ++ msg)).

Example Sum256_abc : be_val (Sum256 (bytes_of "abc")) =
  0xba7816bf8f01cfea414140de5dae2223b00361a396177a9cb410ff61f20015ad.
Proof. vm_compute. reflexivity. Qed.

Example Sum1_abc : be_val (Sum1 (bytes_of "abc")) = 0xa9993e364706816aba3e25717850c26c9cd0d89d.
Proof. vm_compute. reflexivity. Qed.

Example Hmac_Jefe : be_val (Hmac Sum256 (bytes_of "Jefe") (bytes_of "what do ya want for nothing?")) =
  0x5bdcc146bf60754e6a042426089575c75a003f089d2739839dec58b964ec3843.
Proof. vm_compute. reflexivity. Qed.

(** ** Lengths *)

Lemma length_be_bytes n v : length (be_bytes n v) = n.
Proof.
  revert v. induction n as [|n IH]; intros v; [done|]. cbn [be_bytes].
  rewrite length_app, IH. cbn [length]. lia.
Qed.

Lemma be_bytes_byte n v : Forall byte (be_bytes n v).
Proof.
  revert v. induction n as [|n IH]; intros v; [constructor|]. cbn.
  apply Forall_app_2; [apply IH|]. constructor; [apply Z.mod_pos_bound; lia|constructor].
Qed.

Lemma be_val_app l k : be_val (l ++ k) = be_val l * 256 ^ Z.of_nat (length k) + be_val k.
Proof.
  unfold be_val. rewrite foldl_app. generalize (foldl (λ a b, a * 256 + b) 0 l).
  induction k as [|b k IH] using rev_ind; intros a; [simpl; lia|].
  rewrite !foldl_app, length_app. cbn [foldl length].
  rewrite (IH a), Nat.add_1_r, Nat2Z.inj_succ, Z.pow_succ_r by lia. lia.
Qed.

Lemma be_val_be_bytes n v : 0 ≤ v < 256 ^ Z.of_nat n → be_val (be_bytes n v) = v.
Proof.
  revert v. induction n as [|n IH]; intros v Hv; [unfold be_val; cbn in *; lia|].
  cbn [be_bytes]. rewrite be_val_app, IH.
  - cbn. pose proof (Z.div_mod v 256). lia.
  - rewrite Nat2Z.inj_succ, Z.pow_succ_r in Hv by lia.
    split; [apply Z.div_pos; lia|]. apply Z.div_lt_upper_bound; lia.
Qed.

Lemma be_val_range l : Forall byte l → 0 ≤ be_val l < 256 ^ Z.of_nat (length l).
Proof.
  induction l as [|b l IH] using rev_ind; intros Hl; [cbn; lia|].
  apply Forall_app in Hl as [Hl Hb]. inv Hb. specialize (IH Hl). rewrite be_val_app, length_app.
  cbn [length]. change (be_val [b]) with (0 * 256 + b). change (256 ^ Z.of_nat 1) with 256.
  rewrite Nat.add_1_r, Nat2Z.inj_succ, Z.pow_succ_r by lia. unfold byte in *. lia.
Qed.

Lemma length_words_digest (block : list Z → list Z → list Z) st bs n :
  (∀ st b, length st = n → length (block st b) = n) → length st = n →
  length (flat_map (be_bytes 4) (foldl block st bs)) = (4 * n)%nat.
Proof.
  intros Hb Hst. assert (Hl : length (foldl block st bs) = n).
  { revert st Hst. induction bs as [|b bs IH]; intros st Hst; [done|]. apply IH. by apply Hb. }
  rewrite <- Hl. generalize (foldl block st bs). intros l. induction l as [|x l IH]; [done|].
  cbn [flat_map]. rewrite length_app, IH, length_be_bytes. cbn [length]. lia.
Qed.

Lemma length_Sum256 msg : length (Sum256 msg) = 32%nat.
Proof.
  unfold Sum256. cbv zeta. apply (length_words_digest _ _ _ 8); [|done].
  intros st b Hst. unfold sha256_block. rewrite length_zip_with, Hst.
  assert (Hr : length (foldl sha256_round st (zip sha256_K (schedule sha256_next 48 b))) = 8%nat).
  { apply (foldl_inv (λ s, length s = 8%nat)); [done|]. intros s x _ Hs. unfold sha256_round.
    do 8 (destruct s as [|? s]; [done|]). by destruct s. }
  by rewrite Hr.
Qed.

Lemma length_Sum1 msg : length (Sum1 msg) = 20%nat.
Proof.
  unfold Sum1. cbv zeta. apply (length_words_digest _ _ _ 5); [|done].
  intros st b Hst. unfold sha1_block. rewrite length_zip_with, Hst.
  assert (Hr : length (foldl sha1_round st (zip (seq 0 80) (schedule sha1_next 64 b))) = 5%nat).
  { apply (foldl_inv (λ s, length s = 5%nat)); [done|]. intros s x _ Hs. unfold sha1_round.
    do 5 (destruct s as [|? s]; [done|]). destruct s; [|done].
    by destruct (if (x.1 <? 20)%nat then _ else _). }
  by rewrite Hr.
Qed.

Lemma Sum256_byte msg : Forall byte (Sum256 msg).
Proof.
  unfold Sum256. cbv zeta. generalize (foldl sha256_block sha256_init (chunks (length (sha_pad msg)) 64 (sha_pad msg))).
  intros l. induction l as [|x l IH]; [constructor|]. cbn [flat_map].
  apply Forall_app_2; [apply be_bytes_byte|apply IH].
Qed.

Lemma Sum1_byte msg : Forall byte (Sum1 msg).
Proof.
  unfold Sum1. cbv zeta. generalize (foldl sha1_block sha1_init (chunks (length (sha_pad msg)) 64 (sha_pad msg))).
  intros l. induction l as [|x l IH]; [constructor|]. cbn [flat_map].
  apply Forall_app_2; [apply be_bytes_byte|apply IH].
Qed.

#[global] Opaque Sum256 Sum1.
