(* ===== verification/NetIP.v ===== *)
(** * Go's [net/netip]: addresses and prefixes

    An address is the invalid zero value, a 32-bit IPv4 address, or a 128-bit
    IPv6 address with a zone.  An IPv4-mapped IPv6 address is an IPv6 address
    until [Unmap]. *)

From S2P Require Import Prelude.

Inductive Addr :=
  | AddrInvalid
  | Addr4 (v : Z)
  | Addr6 (v : Z) (zone : string).

#[export] Instance Addr_eq : EqDecision Addr.
Proof. solve_decision. Defined.

#[export] Instance Addr_countable : Countable Addr.
Proof.
  refine (inj_countable'
    (λ a, match a with
          | AddrInvalid => inl tt
          | Addr4 v => inr (inl v)
          | Addr6 v z => inr (inr (v, z))
          end)
    (λ c : unit + (Z + Z * string),
       match c with
       | inl _ => AddrInvalid
       | inr (inl v) => Addr4 v
       | inr (inr (v, z)) => Addr6 v z
       end) _).
  by intros [].
Defined.

Definition Addr_IsValid (a : Addr) : bool :=
  match a with AddrInvalid => false | _ => true end.

Definition BitLen (a : Addr) : Z :=
  match a with AddrInvalid => 0 | Addr4 _ => 32 | Addr6 _ _ => 128 end.

(** [::ffff:0:0/96], the IPv4-mapped range. *)
Definition Is4In6 (a : Addr) : bool :=
  match a with Addr6 v _ => Z.shiftr v 32 =? 65535 | _ => false end.

Definition Unmap (a : Addr) : Addr :=
  match a with
  | Addr6 v z => if Is4In6 (Addr6 v z) then Addr4 (Z.land v (2 ^ 32 - 1)) else a
  | _ => a
  end.

Definition hasZone (a : Addr) : bool :=
  match a with Addr6 _ z => negb (String.eqb z "") | _ => false end.

Definition withoutZone (a : Addr) : Addr :=
  match a with Addr6 v _ => Addr6 v "" | _ => a end.

(** [Addr.Compare]: the bit length, then the bits, then the zone. *)
Definition Addr_Less (a b : Addr) : bool :=
  match a, b with
  | Addr4 v, Addr4 w => v <? w
  | Addr6 v z, Addr6 w y => (v <? w) || ((v =? w) && str_less z y)
  | _, _ => BitLen a <? BitLen b
  end.

(** The address after this one, the invalid address after the last. *)
Definition Addr_Next (a : Addr) : Addr :=
  match a with
  | AddrInvalid => AddrInvalid
  | Addr4 v => if v + 1 =? 2 ^ 32 then AddrInvalid else Addr4 (v + 1)
  | Addr6 v z => if v + 1 =? 2 ^ 128 then AddrInvalid else Addr6 (v + 1) z
  end.

(** A prefix; the zero [Prefix{}] has [Bits() = -1]. *)
Record Prefix := mkPrefix { p_ip : Addr; p_bits : Z }.

#[export] Instance Prefix_eq : EqDecision Prefix.
Proof. solve_decision. Defined.

#[export] Instance Prefix_countable : Countable Prefix.
Proof.
  refine (inj_countable' (λ p, (p_ip p, p_bits p)) (λ c, mkPrefix c.1 c.2) _). by intros [].
Defined.

Definition PrefixZero : Prefix := mkPrefix AddrInvalid (-1).

Definition Prefix_IsValid (p : Prefix) : bool := 0 <=? p_bits p.

Definition PrefixFrom (ip : Addr) (bits : Z) : Prefix :=
  mkPrefix (withoutZone ip)
    (if Addr_IsValid ip && (0 <=? bits) && (bits <=? BitLen ip) then bits else -1).

(** The top [n] of [w] bits. *)
Definition mask_bits (w n : Z) : Z := Z.shiftl (Z.ones n) (w - n).

Definition Contains (p : Prefix) (ip : Addr) : bool :=
  if negb (Prefix_IsValid p) || hasZone ip then false
  else
    match p_ip p, ip with
    | Addr4 v, Addr4 w => Z.shiftr (Z.lxor w v) (32 - p_bits p) =? 0
    | Addr6 v _, Addr6 w _ => Z.land (Z.lxor w v) (mask_bits 128 (p_bits p)) =? 0
    | _, _ => false
    end.

(** [Prefix.Masked]: the host bits cleared. *)
Definition Masked (p : Prefix) : Prefix :=
  if negb (Prefix_IsValid p) then PrefixZero
  else
    match p_ip p with
    | AddrInvalid => PrefixZero
    | Addr4 v => PrefixFrom (Addr4 (Z.land v (mask_bits 32 (p_bits p)))) (p_bits p)
    | Addr6 v _ => PrefixFrom (Addr6 (Z.land v (mask_bits 128 (p_bits p))) "") (p_bits p)
    end.

(** The addresses and prefixes Go's constructors can build. *)
Definition Addr_wf (a : Addr) : Prop :=
  match a with
  | AddrInvalid => True
  | Addr4 v => 0 ≤ v < 2 ^ 32
  | Addr6 v _ => 0 ≤ v < 2 ^ 128
  end.

Definition Prefix_wf (p : Prefix) : Prop :=
  Addr_wf (p_ip p) ∧ -1 ≤ p_bits p ≤ BitLen (p_ip p) ∧ hasZone (p_ip p) = false ∧
  (p_ip p = AddrInvalid → p_bits p = -1).

(** The width and bits of a valid address. *)
Definition addr_bits (a : Addr) : Z :=
  match a with AddrInvalid => 0 | Addr4 v => v | Addr6 v _ => v end.

(** ** Lemmas *)

Lemma Unmap_wf a : Addr_wf a → Addr_wf (Unmap a).
Proof.
  destruct a as [|v|v z]; cbn [Unmap]; [tauto|tauto|]. intros Hv.
  destruct (Is4In6 (Addr6 v z)); [|exact Hv]. cbn [Addr_wf].
  change (2 ^ 32 - 1) with (Z.ones 32). rewrite Z.land_ones by lia. apply Z.mod_pos_bound. lia.
Qed.

Lemma Unmap_idem a : Unmap (Unmap a) = Unmap a.
Proof.
  destruct a as [|v|v z]; [done|done|]. cbn [Unmap].
  destruct (Is4In6 (Addr6 v z)) eqn:E; cbn [Unmap]; [done|]. by rewrite E.
Qed.

#[export] Hint Resolve Unmap_wf : verge.
#[export] Hint Rewrite Unmap_idem : verge.

Lemma shiftr_lxor_0 a b n :
  0 ≤ n → Z.shiftr (Z.lxor a b) n = 0 ↔ a / 2 ^ n = b / 2 ^ n.
Proof.
  intros Hn. rewrite Z.shiftr_lxor, Z.lxor_eq_0_iff, !Z.shiftr_div_pow2 by lia. done.
Qed.

Lemma land_mask_0 x w n :
  0 ≤ n ≤ w → 0 ≤ x < 2 ^ w → Z.land x (mask_bits w n) = 0 ↔ Z.shiftr x (w - n) = 0.
Proof.
  intros Hn Hx. unfold mask_bits. split; intros H.
  - apply Z.bits_inj'. intros i Hi. rewrite Z.bits_0, Z.shiftr_spec by done.
    destruct (Z.lt_ge_cases i n) as [Hin|Hin].
    + apply (f_equal (λ z, Z.testbit z (i + (w - n)))) in H.
      rewrite Z.land_spec, Z.shiftl_spec, Z.bits_0 in H by lia.
      rewrite Z.ones_spec_low in H by lia. by rewrite andb_true_r in H.
    + destruct (decide (x = 0)) as [->|]; [apply Z.bits_0|]. apply Z.bits_above_log2; [lia|].
      apply Z.log2_lt_pow2; [lia|]. eapply Z.lt_le_trans; [apply Hx|]. apply Z.pow_le_mono_r; lia.
  - apply Z.bits_inj'. intros i Hi. rewrite Z.bits_0, Z.land_spec, Z.shiftl_spec by done.
    destruct (Z.lt_ge_cases i (w - n)) as [Hin|Hin].
    + rewrite (Z.testbit_neg_r _ (i - (w - n))) by lia. apply andb_false_r.
    + apply (f_equal (λ z, Z.testbit z (i - (w - n)))) in H.
      rewrite Z.shiftr_spec, Z.bits_0 in H by lia.
      replace (i - (w - n) + (w - n)) with i in H by lia. by rewrite H.
Qed.

Lemma log2_lt_width x w : 0 ≤ x < 2 ^ w → 0 < w → Z.log2 x < w.
Proof.
  intros Hx Hw. destruct (decide (x = 0)) as [->|]; [exact Hw|]. apply Z.log2_lt_pow2; lia.
Qed.

Lemma lxor_range a b w : 0 < w → 0 ≤ a < 2 ^ w → 0 ≤ b < 2 ^ w → 0 ≤ Z.lxor a b < 2 ^ w.
Proof.
  intros Hw Ha Hb. assert (0 ≤ Z.lxor a b) by (apply Z.lxor_nonneg; lia). split; [lia|].
  destruct (decide (Z.lxor a b = 0)) as [->|]; [apply Z.pow_pos_nonneg; lia|].
  apply Z.log2_lt_pow2; [lia|]. eapply Z.le_lt_trans; [apply Z.log2_lxor; lia|].
  apply Z.max_lub_lt; by apply log2_lt_width.
Qed.

(** [Contains] compares the prefix-length bits of two addresses of one family. *)
Lemma Contains_spec p ip :
  Prefix_wf p → Addr_wf ip →
  Contains p ip = true ↔
    0 ≤ p_bits p ∧ hasZone ip = false ∧ BitLen ip = BitLen (p_ip p) ∧
    addr_bits ip / 2 ^ (BitLen ip - p_bits p) = addr_bits (p_ip p) / 2 ^ (BitLen ip - p_bits p).
Proof.
  intros (Hip & Hb & _ & Hinv) Hwf. unfold Contains, Prefix_IsValid.
  destruct (Z.leb_spec 0 (p_bits p)) as [Hp|Hp]; simpl; [|naive_solver lia].
  destruct (hasZone ip); simpl; [naive_solver|].
  destruct (p_ip p) as [|v|v z] eqn:Ep, ip as [|w|w y]; simpl in *; try naive_solver lia.
  - rewrite Z.eqb_eq, shiftr_lxor_0 by lia. naive_solver.
  - rewrite Z.eqb_eq, land_mask_0, shiftr_lxor_0; [naive_solver|lia|lia|apply lxor_range; lia].
Qed.

(** ** The addresses of a prefix *)

(** The address with bits [v] in the family of [p]. *)
Definition addr_in_family (p : Prefix) (v : Z) : Addr :=
  match p_ip p with
  | AddrInvalid => AddrInvalid
  | Addr4 _ => Addr4 v
  | Addr6 _ _ => Addr6 v ""
  end.

Lemma land_mask_bits x w n :
  0 ≤ n ≤ w → 0 ≤ x < 2 ^ w → Z.land x (mask_bits w n) = x / 2 ^ (w - n) * 2 ^ (w - n).
Proof.
  intros Hn Hx. rewrite <- Z.shiftr_div_pow2, <- Z.shiftl_mul_pow2 by lia. unfold mask_bits.
  apply Z.bits_inj'. intros i Hi. rewrite Z.land_spec, !Z.shiftl_spec by done.
  destruct (Z.lt_ge_cases i (w - n)) as [H|H].
  - rewrite !(Z.testbit_neg_r _ (i - (w - n))) by lia. apply andb_false_r.
  - rewrite Z.shiftr_spec by lia. replace (i - (w - n) + (w - n)) with i by lia.
    destruct (Z.lt_ge_cases i w) as [Hw|Hw].
    + rewrite Z.ones_spec_low by lia. apply andb_true_r.
    + rewrite Z.ones_spec_high by lia. rewrite andb_false_r. symmetry.
      destruct (decide (x = 0)) as [->|]; [apply Z.bits_0|]. apply Z.bits_above_log2; [lia|].
      apply Z.log2_lt_pow2; [lia|]. eapply Z.lt_le_trans; [apply Hx|]. apply Z.pow_le_mono_r; lia.
Qed.

(** A valid well-formed prefix: its width, length and host bits. *)
Definition Prefix_valid (p : Prefix) : Prop := Prefix_wf p ∧ 0 ≤ p_bits p.

Definition host_bits (p : Prefix) : Z := BitLen (p_ip p) - p_bits p.

(** The first address of the prefix. *)
Definition prefix_base (p : Prefix) : Z :=
  addr_bits (p_ip p) / 2 ^ host_bits p * 2 ^ host_bits p.

Lemma Prefix_valid_range p :
  Prefix_valid p → 0 ≤ addr_bits (p_ip p) < 2 ^ BitLen (p_ip p) ∧ 0 ≤ host_bits p ∧
    p_ip p ≠ AddrInvalid.
Proof.
  intros [(Hip & Hb & _ & Hi) Hp]. unfold host_bits.
  destruct (p_ip p) as [|v|v z]; cbn [Addr_wf addr_bits BitLen] in *.
  - assert (p_bits p = -1) by (by apply Hi). lia.
  - split; [exact Hip|split; [lia|discriminate]].
  - split; [exact Hip|split; [lia|discriminate]].
Qed.

Lemma prefix_base_range p :
  Prefix_valid p → 0 ≤ prefix_base p ∧ prefix_base p + 2 ^ host_bits p ≤ 2 ^ BitLen (p_ip p).
Proof.
  intros Hv. destruct (Prefix_valid_range p Hv) as (Hr & Hh & _).
  unfold prefix_base. set (h := host_bits p) in *. set (v := addr_bits (p_ip p)) in *.
  assert (H2 : 0 < 2 ^ h) by (apply Z.pow_pos_nonneg; lia).
  assert (0 ≤ v / 2 ^ h) by (apply Z.div_pos; lia). split; [nia|].
  destruct Hv as [(_ & Hb & _) Hp].
  assert (Hsplit : 2 ^ BitLen (p_ip p) = 2 ^ p_bits p * 2 ^ h).
  { rewrite <- Z.pow_add_r by (unfold h, host_bits; lia). f_equal. unfold h, host_bits. lia. }
  rewrite Hsplit in *.
  assert (v / 2 ^ h < 2 ^ p_bits p) by (apply Z.div_lt_upper_bound; lia). nia.
Qed.

Lemma Masked_spec p :
  Prefix_valid p → Masked p = mkPrefix (addr_in_family p (prefix_base p)) (p_bits p).
Proof.
  intros Hv. destruct (Prefix_valid_range p Hv) as (Hr & Hh & Hne). destruct Hv as [Hwf Hp].
  unfold Masked, Prefix_IsValid, addr_in_family, prefix_base, host_bits, PrefixFrom in *.
  rewrite (proj2 (Z.leb_le _ _)) by done. cbn [negb].
  destruct Hwf as (_ & Hb & _). destruct (p_ip p) as [|v|v z]; [done| |];
    cbn [addr_bits BitLen Addr_IsValid withoutZone andb] in *;
    rewrite land_mask_bits by lia;
    rewrite !(proj2 (Z.leb_le _ _)) by lia; reflexivity.
Qed.

Lemma Masked_valid p : Prefix_valid p → Prefix_valid (Masked p).
Proof.
  intros Hv. rewrite Masked_spec by done. pose proof (prefix_base_range p Hv) as Hb.
  destruct (Prefix_valid_range p Hv) as (_ & Hh & Hne). destruct Hv as [(Hip & Hl & Hz & Hi) Hp].
  assert (0 < 2 ^ host_bits p) by (apply Z.pow_pos_nonneg; lia).
  unfold Prefix_valid, Prefix_wf, addr_in_family. cbn [p_ip p_bits].
  destruct (p_ip p) as [|v|v z]; [done| |]; cbn [Addr_wf BitLen hasZone] in *;
    repeat split; (lia || discriminate).
Qed.

Lemma Contains_masked p ip :
  Prefix_valid p → Addr_wf ip → Contains (Masked p) ip = Contains p ip.
Proof.
  intros Hv Hip. apply eq_bool_prop_intro. rewrite !Is_true_true.
  rewrite !Contains_spec by (done || apply Masked_valid, Hv || apply Hv).
  rewrite Masked_spec by done. cbn [p_ip p_bits].
  assert (BitLen (addr_in_family p (prefix_base p)) = BitLen (p_ip p)) as ->
    by (unfold addr_in_family; by destruct (p_ip p)).
  destruct (Prefix_valid_range p Hv) as (_ & Hh & Hne).
  assert (addr_bits (addr_in_family p (prefix_base p)) = prefix_base p) as ->
    by (unfold addr_in_family; by destruct (p_ip p)).
  assert (BitLen ip = BitLen (p_ip p) →
    prefix_base p / 2 ^ (BitLen ip - p_bits p) = addr_bits (p_ip p) / 2 ^ (BitLen ip - p_bits p))
    as Hd.
  { intros ->. unfold prefix_base, host_bits in *. rewrite Z.div_mul; [done|].
    apply Z.pow_nonzero; lia. }
  split; intros (? & ? & Hl & Hq); (split; [done|]; split; [done|]; split; [done|]);
    rewrite Hq, Hd by done; done.
Qed.

(** Membership as an interval of the family's addresses. *)
Lemma Contains_interval p ip :
  Prefix_valid p → Addr_wf ip →
  Contains p ip = true ↔
    hasZone ip = false ∧ BitLen ip = BitLen (p_ip p) ∧
    prefix_base p ≤ addr_bits ip < prefix_base p + 2 ^ host_bits p.
Proof.
  intros Hv Hip. rewrite Contains_spec by (done || apply Hv).
  destruct (Prefix_valid_range p Hv) as (Hr & Hh & Hne).
  assert (H2 : 0 < 2 ^ host_bits p) by (apply Z.pow_pos_nonneg; lia).
  assert (Heq : addr_bits ip / 2 ^ host_bits p = addr_bits (p_ip p) / 2 ^ host_bits p ↔
    prefix_base p ≤ addr_bits ip < prefix_base p + 2 ^ host_bits p).
  { unfold prefix_base. split.
    - intros <-. pose proof (Z.mul_div_le (addr_bits ip) _ H2).
      pose proof (Z.mul_succ_div_gt (addr_bits ip) _ H2). lia.
    - intros ?. symmetry.
      apply Z.div_unique with (addr_bits ip - addr_bits (p_ip p) / 2 ^ host_bits p * 2 ^ host_bits p);
        lia. }
  rewrite <- Heq. unfold host_bits. destruct Hv as [_ ?]. split.
  - intros (_ & ? & Hl & Hq). rewrite Hl in Hq. tauto.
  - intros (? & Hl & Hq). rewrite Hl. tauto.
Qed.

(** A prefix checked by evaluation. *)
Definition Prefix_check (p : Prefix) : bool :=
  (0 <=? p_bits p) && (p_bits p <=? BitLen (p_ip p)) &&
  match p_ip p with
  | AddrInvalid => false
  | Addr4 v => (0 <=? v) && (v <? 2 ^ 32)
  | Addr6 v z => (0 <=? v) && (v <? 2 ^ 128) && String.eqb z ""
  end.

Lemma Prefix_check_valid p : Prefix_check p = true → Prefix_valid p.
Proof.
  unfold Prefix_check, Prefix_valid, Prefix_wf. destruct (p_ip p) as [|v|v z];
    cbn [BitLen Addr_wf hasZone]; intros H; bool_to_prop; [done| |].
  - repeat split; (lia || discriminate).
  - repeat split; try (lia || discriminate). apply negb_false_iff. assumption.
Qed.

(** A slice of prefixes, the zero prefix included, checked by evaluation. *)
Lemma Prefix_check_wf_list l :
  forallb (λ p, Prefix_check p || bool_decide (p = PrefixZero)) l = true → Forall Prefix_wf l.
Proof.
  rewrite forallb_bool, Forall_forall. intros Hc p Hp.
  specialize (Hc p Hp). apply orb_true_iff in Hc as [Hc|Hc].
  - by apply Prefix_check_valid.
  - apply bool_decide_eq_true in Hc as ->. repeat split; done || lia.
Qed.

(** [Addr.Less] is a strict total order. *)
#[export] Instance Addr_Less_weak : StrictWeak Addr_Less.
Proof.
  split.
  - intros [|v|v z] [|w|w y]; cbn; try done; try (intros; bool_to_prop; lia).
    intros H. apply orb_true_iff in H as [H|H]; bool_to_prop; apply orb_false_iff.
    + split; [apply Z.ltb_ge; lia|]. apply andb_false_iff. left. apply Z.eqb_neq. lia.
    + split; [apply Z.ltb_ge; lia|]. apply andb_false_iff. right. by apply sw_asym.
  - intros [|u|u x] [|v|v y] [|w|w z]; cbn; try done; try (intros; bool_to_prop; lia).
    intros H1 H2. apply orb_false_iff in H1 as [H1 H1'], H2 as [H2 H2']. bool_to_prop.
    apply orb_false_iff. split; [apply Z.ltb_ge; lia|]. apply andb_false_iff.
    destruct (Z.eqb_spec w u); [right|by left].
    destruct H1' as [?|H1']; bool_to_prop; [lia|].
    destruct H2' as [?|H2']; bool_to_prop; [lia|]. by eapply sw_trans.
Qed.

Lemma Addr_Less_total a b : Addr_Less a b = false → Addr_Less b a = false → a = b.
Proof.
  destruct a as [|v|v z], b as [|w|w y]; cbn; try done.
  - intros. bool_to_prop. f_equal. lia.
  - intros H1 H2. apply orb_false_iff in H1 as [H1 H1'], H2 as [H2 H2']. bool_to_prop.
    assert (v = w) by lia. subst w. f_equal.
    destruct H1' as [?|H1'], H2' as [?|H2']; bool_to_prop; try lia. by apply str_less_total.
Qed.
