(* ===== verification/NetParse.v ===== *)
(** * The text of addresses: Go's [netip.ParseAddr], [ParsePrefix] and [String]

    The standard library's parser and printer, as the program uses them: errors
    are [None].  An IPv6 address is parsed and printed as eight 16-bit groups. *)

From S2P Require Import Prelude GoStr NetIP.

(** ** Digits *)

Definition digit_val (c : ascii) : option Z :=
  if is_digit c then Some (code c - 48) else None.

Definition hex_val (c : ascii) : option Z :=
  if is_digit c then Some (code c - 48)
  else if (97 <=? code c) && (code c <=? 102) then Some (code c - 87)
  else if (65 <=? code c) && (code c <=? 70) then Some (code c - 55)
  else None.

Definition digit_char (d : Z) : ascii := byte_of (if d <? 10 then d + 48 else d + 87).

(** The digits of [n] in a base, without leading zeros; [fuel] bounds their number. *)
Fixpoint digits_of (base : Z) (fuel : nat) (n : Z) : string :=
  match fuel with
  | O => ""
  | S fuel' =>
      if n <? base then String (digit_char n) ""
      else (digits_of base fuel' (n / base) +:+ String (digit_char (n mod base)) "")%string
  end.

(** [strconv.Itoa] of a natural number of at most 20 digits. *)
Definition itoa (n : Z) : string := digits_of 10 20 n.

(** ** IPv4 *)

(** [parseIPv4Fields]: [val] and [digLen] are the octet being read, [prevDot]
    that the byte before was a dot or the start. *)
Fixpoint parse_v4_fields (s : string) (fields : list Z) (val digLen : Z) (prevDot : bool)
    : option (list Z) :=
  match s with
  | "" => if (length fields <? 3)%nat then None else Some (fields ++ [val])
  | String c s' =>
      match digit_val c with
      | Some d =>
          if (digLen =? 1) && (val =? 0) then None
          else
            let val := val * 10 + d in
            if 255 <? val then None else parse_v4_fields s' fields val (digLen + 1) false
      | None =>
          if Ascii.eqb c "." then
            if prevDot || String.eqb s' "" then None
            else if (length fields =? 3)%nat then None
            else parse_v4_fields s' (fields ++ [val]) 0 0 true
          else None
      end
  end.

Definition parse_v4 (s : string) : option (list Z) := parse_v4_fields s [] 0 0 true.

Definition v4_of (octets : list Z) : Z := foldl (λ acc o, acc * 256 + o) 0 octets.

(** ** IPv6 *)

(** The hexadecimal digits at the front: their value, their number, the rest. *)
Fixpoint hex_group (s : string) (acc off : Z) : option (Z * Z * string) :=
  match s with
  | "" => Some (acc, off, "")
  | String c s' =>
      match hex_val c with
      | None => Some (acc, off, s)
      | Some d =>
          let acc := acc * 16 + d in
          if (3 <? off) || (65535 <? acc) then None else hex_group s' acc (off + 1)
      end
  end.

(** The loop over groups: the groups read, the place of the ellipsis.  Each
    iteration reads a group, and there is room for eight. *)
Fixpoint parse_v6_groups (fuel : nat) (s : string) (gs : list Z) (ellipsis : option nat)
    : option (list Z * option nat) :=
  match fuel with
  | O => if String.eqb s "" then Some (gs, ellipsis) else None
  | S fuel' =>
      if (8 <=? length gs)%nat then (if String.eqb s "" then Some (gs, ellipsis) else None)
      else
        match hex_group s 0 0 with
        | None => None
        | Some (acc, off, rest) =>
            if off =? 0 then None
            else
              match rest with
              | "" => Some (gs ++ [acc], ellipsis)
              | String "." _ =>
                  if bool_decide (ellipsis = None) && negb (length gs =? 6)%nat then None
                  else if (6 <? length gs)%nat then None
                  else
                    match parse_v4 s with
                    | Some [a; b; c; d] => Some (gs ++ [a * 256 + b; c * 256 + d], ellipsis)
                    | _ => None
                    end
              | String ":" "" => None
              | String ":" (String ":" rest') =>
                  if bool_decide (is_Some ellipsis) then None
                  else
                    let ellipsis := Some (length (gs ++ [acc])) in
                    if String.eqb rest' "" then Some (gs ++ [acc], ellipsis)
                    else parse_v6_groups fuel' rest' (gs ++ [acc]) ellipsis
              | String ":" rest' => parse_v6_groups fuel' rest' (gs ++ [acc]) ellipsis
              | _ => None
              end
        end
  end.

Definition expand_ellipsis (r : list Z * option nat) : option (list Z) :=
  let '(gs, ellipsis) := r in
  match ellipsis with
  | None => if (length gs =? 8)%nat then Some gs else None
  | Some k =>
      if (length gs =? 8)%nat then None
      else Some (take k gs ++ replicate (8 - length gs) 0 ++ drop k gs)
  end.

Definition v6_of (groups : list Z) : Z := foldl (λ acc g, acc * 65536 + g) 0 groups.

Definition parse_v6 (s : string) : option Addr :=
  let i := IndexByte s "%" in
  let zone := if i <? 0 then "" else slice_from s (i + 1) in
  let body := if i <? 0 then s else slice_to s i in
  if (0 <=? i) && String.eqb zone "" then None
  else
    match body with
    | String ":" (String ":" "") => Some (Addr6 0 zone)
    | String ":" (String ":" rest) =>
        gs ← parse_v6_groups 8 rest [] (Some O) ≫= expand_ellipsis; Some (Addr6 (v6_of gs) zone)
    | _ =>
        gs ← parse_v6_groups 8 body [] None ≫= expand_ellipsis; Some (Addr6 (v6_of gs) zone)
    end.

(** [netip.ParseAddr]: the first dot, colon or percent sign picks the syntax. *)
Fixpoint addr_syntax (s : string) : option ascii :=
  match s with
  | "" => None
  | String c s' =>
      if Ascii.eqb c "." || Ascii.eqb c ":" || Ascii.eqb c "%" then Some c else addr_syntax s'
  end.

Definition ParseAddr (s : string) : option Addr :=
  match addr_syntax s with
  | Some "."%char => octets ← parse_v4 s; Some (Addr4 (v4_of octets))
  | Some ":"%char => parse_v6 s
  | _ => None
  end.

(** [strconv.Atoi] of an unsigned decimal; [None] is its error. *)
Fixpoint atoi_digits (s : string) (acc : Z) : option Z :=
  match s with
  | "" => Some acc
  | String c s' => d ← digit_val c; atoi_digits s' (acc * 10 + d)
  end.

Definition ParsePrefix (s : string) : option Prefix :=
  let i := LastIndexByte s "/" in
  if i <? 0 then None
  else
    ip ← ParseAddr (slice_to s i);
    if hasZone ip then None
    else
      let bitsStr := slice_from s (i + 1) in
      match bitsStr with
      | "" => None
      | String c rest =>
          if negb (String.eqb rest "") && (Ascii.eqb c "0") then None
          else
            bits ← atoi_digits bitsStr 0;
            if BitLen ip <? bits then None else Some (PrefixFrom ip bits)
      end.

(** ** Printing *)

Definition octets_of (v : Z) : list Z :=
  [v / 2 ^ 24 mod 256; v / 2 ^ 16 mod 256; v / 2 ^ 8 mod 256; v mod 256].

Definition string_v4 (v : Z) : string := String.concat "." (map itoa (octets_of v)).

Definition groups_of (v : Z) : list Z :=
  map (λ i, v / 2 ^ (16 * (7 - i)) mod 65536) (seqZ 0 8).

Fixpoint zero_run (gs : list Z) : nat :=
  match gs with 0 :: gs' => S (zero_run gs') | _ => O end.

(** The first longest run of at least two zero groups: start and end. *)
Definition zero_step (gs : list Z) (best : nat * nat) (i : nat) : nat * nat :=
  let l := zero_run (drop i gs) in
  if (2 <=? l)%nat && (best.2 - best.1 <? l)%nat then (i, (i + l)%nat) else best.

Definition longest_zeros (gs : list Z) : nat * nat := foldl (zero_step gs) (8, 8)%nat (seq 0 8).

Definition hex (n : Z) : string := digits_of 16 4 n.

Definition string_v6 (v : Z) : string :=
  let gs := groups_of v in
  let '(zs, ze) := longest_zeros gs in
  if (8 <=? zs)%nat then String.concat ":" (map hex gs)
  else (String.concat ":" (map hex (take zs gs)) +:+ "::" +:+
        String.concat ":" (map hex (drop ze gs)))%string.

Definition zone_suffix (z : string) : string :=
  if String.eqb z "" then "" else ("%" +:+ z)%string.

Definition Addr_String (a : Addr) : string :=
  match a with
  | AddrInvalid => "invalid IP"
  | Addr4 v => string_v4 v
  | Addr6 v z =>
      if Is4In6 a then ("::ffff:" +:+ string_v4 (Z.land v (2 ^ 32 - 1)) +:+ zone_suffix z)%string
      else (string_v6 v +:+ zone_suffix z)%string
  end.

Definition Prefix_String (p : Prefix) : string :=
  if negb (Prefix_IsValid p) then "invalid Prefix"
  else (Addr_String (p_ip p) +:+ "/" +:+ itoa (p_bits p))%string.

(** ** Concrete texts *)

Example ParseAddr_texts :
  ParseAddr "192.0.2.1" = Some (Addr4 3221225985) ∧
  ParseAddr "192.0.2.01" = None ∧ ParseAddr "192.0.2" = None ∧ ParseAddr "1..2.3" = None ∧
  ParseAddr "::1" = Some (Addr6 1 "") ∧ ParseAddr "::" = Some (Addr6 0 "") ∧
  ParseAddr "::ffff:10.0.0.1" = Some (Addr6 281470849515521 "") ∧
  ParseAddr "fe80::1%eth0" = Some (Addr6 (65152 * 2 ^ 112 + 1) "eth0") ∧
  ParseAddr "1:2:3:4:5:6:7:8" = Some (Addr6 (v6_of [1; 2; 3; 4; 5; 6; 7; 8]) "") ∧
  ParseAddr "1:2:3:4:5:6:7::" = Some (Addr6 (v6_of [1; 2; 3; 4; 5; 6; 7; 0]) "") ∧
  ParseAddr "1::2::3" = None ∧ ParseAddr "1:2:3:4:5:6:7:8:9" = None ∧
  ParseAddr "12345::" = None ∧ ParseAddr "example.com" = None ∧ ParseAddr "" = None.
Proof. vm_compute. done. Qed.

Example Addr_String_texts :
  option_map Addr_String (ParseAddr "2001:db8:0:0:1:0:0:1") = Some "2001:db8::1:0:0:1"%string ∧
  option_map Addr_String (ParseAddr "::FFFF:10.0.0.1") = Some "::ffff:10.0.0.1"%string ∧
  option_map Addr_String (ParseAddr "0:0:0:0:0:0:0:0%z") = Some "::%z"%string ∧
  option_map Addr_String (ParseAddr "203.0.113.255") = Some "203.0.113.255"%string ∧
  option_map Prefix_String (ParsePrefix "10.0.0.1/8") = Some "10.0.0.1/8"%string ∧
  ParsePrefix "10.0.0.0/33" = None ∧ ParsePrefix "10.0.0.0/08" = None ∧
  ParsePrefix "fe80::1%a/64" = None ∧ ParsePrefix "10.0.0.0" = None.
Proof. vm_compute. done. Qed.
