(* ===== verification/Seed.v ===== *)
(** * Declared seeds: names and address scopes ([internal/seed])

    The validation of a declared domain, CIDR and exclusion, the cap on an
    address scope, and the enumeration of a scope.  The public-suffix list is
    third-party code: [EffectiveTLDPlusOne] is a parameter. *)

From S2P Require Import Prelude GoStr NetIP.

(** ** Domains *)

Inductive DomainError :=
  | DomainRequired
  | WildcardError (Input Subtree : string)
  | ULabelError (Input : string)
  | NotBareDomain (Input : string)
  | NotRegistrable (Input : string)
  | DeclareRegistrable (reg d : string).

Definition FoldASCII (s : string) : string := string_map fold_byte s.

Definition hasHighBit (s : string) : bool := string_existsb (λ c, 128 <=? code c) s.

(** Ranging over runes, any byte from [0x80] up makes a rune outside the set. *)
Definition ldh_byte (c : ascii) : bool :=
  is_lower c || is_digit c || (code c =? 45) || (code c =? 46).

Definition isLDH (d : string) : bool := string_forallb ldh_byte d.

Section NormalizeDomain.
(** [publicsuffix.EffectiveTLDPlusOne]; [None] is its error. *)
Variable EffectiveTLDPlusOne : string → option string.

Definition NormalizeDomain (input : string) : DomainError + string :=
  let d := TrimSuffix (FoldASCII (TrimSpace input)) "." in
  if String.eqb d "" then inl DomainRequired
  else if String.eqb d "*" || HasPrefix d "*." then
    let sub := TrimPrefix d "*." in
    let sub := if negb (isLDH sub) then "" else sub in
    inl (WildcardError input sub)
  else if hasHighBit d then inl (ULabelError input)
  else if negb (isLDH d) then inl (NotBareDomain input)
  else
    match EffectiveTLDPlusOne d with
    | None => inl (NotRegistrable input)
    | Some reg => if negb (String.eqb reg d) then inl (DeclareRegistrable reg d) else inr reg
    end.
End NormalizeDomain.

(** ** Address scopes *)

Definition DefaultAddressCap : Z := 1024.

(** A [big.Int], so no width applies. *)
Definition AddressCount (p : Prefix) : Z := Z.shiftl 1 (BitLen (p_ip p) - p_bits p).

Definition WithinCap (p : Prefix) (maxAddrs : Z) : bool := AddressCount p <=? maxAddrs.

(** [bits.Len(uint(x))] of a positive [int]. *)
Definition bits_Len (x : Z) : Z := if x =? 0 then 0 else Z.log2 x + 1.

Definition LargestPrefixLen (maxAddrs familyBits : Z) : Z :=
  if maxAddrs <? 1 then familyBits
  else
    let hostBits := bits_Len maxAddrs - 1 in
    let hostBits := if familyBits <? hostBits then familyBits else hostBits in
    familyBits - hostBits.

(** The loop of [EnumerateAddresses] and the addresses it yields, to a consumer
    that never stops it; one that stops takes a prefix of them. *)
Fixpoint enumerate_from (fuel : nat) (p : Prefix) (a : Addr) : list Addr :=
  match fuel with
  | O => []
  | S fuel' =>
      if Addr_IsValid a && Contains p a then a :: enumerate_from fuel' p (Addr_Next a) else []
  end.

(** One step past the last address ends the walk: that much fuel is enough. *)
Definition enumerate_fuel (p : Prefix) : nat := S (Z.to_nat (AddressCount p)).

Definition EnumerateAddresses (p : Prefix) : list Addr :=
  let p := Masked p in
  if negb (Prefix_IsValid p) then [] else enumerate_from (enumerate_fuel p) p (p_ip p).

Definition maxEnumCapHint : Z := Z.shiftl 1 16.

Definition EnumCapHint (p : Prefix) : Z :=
  let c := AddressCount p in
  if (c <? minInt64) || (maxInt64 <? c) then 0
  else if c <=? 0 then 0
  else if maxEnumCapHint <? c then maxEnumCapHint
  else c.

(** ** Exclusions *)

Inductive ExclusionError :=
  | NameRequired
  | NotBareName (Input : string)
  | NotFullyQualified (Input : string)
  | InvalidName (Input : string).

Definition validLabel (l : string) : bool :=
  let n := String.length l in
  if (n =? 0)%nat || (63 <? n)%nat then false
  else if HasPrefix l "-" || HasSuffix l "-" then false
  else string_forallb (λ c, is_lower c || is_digit c || (code c =? 45)) l.

(** ** Folding and the LDH alphabet *)

Lemma fold_byte_idem c : fold_byte (fold_byte c) = fold_byte c.
Proof.
  unfold fold_byte at 2 3. destruct (is_upper c) eqn:E; [|unfold fold_byte; by rewrite E].
  unfold fold_byte, is_upper in *. bool_to_prop. pose proof (code_range c).
  rewrite code_byte_of by lia. rewrite (proj2 (Z.leb_gt _ 90)) by lia. by rewrite andb_false_r.
Qed.

Lemma string_map_idem f s : (∀ c, f (f c) = f c) → string_map f (string_map f s) = string_map f s.
Proof. intros Hf. induction s as [|c s IH]; simpl; [done|]. by rewrite Hf, IH. Qed.

Lemma string_map_id f s : string_forallb (λ c, Ascii.eqb (f c) c) s = true → string_map f s = s.
Proof.
  induction s as [|c s IH]; simpl; [done|]. intros H. bool_to_prop.
  apply Ascii.eqb_eq in H. by rewrite H, IH.
Qed.

Lemma ldh_byte_folded c : ldh_byte c = true → Ascii.eqb (fold_byte c) c = true.
Proof.
  intros H. apply Ascii.eqb_eq. unfold fold_byte, ldh_byte, is_upper, is_lower, is_digit in *.
  destruct ((65 <=? code c) && (code c <=? 90)) eqn:E; [|done]. bool_to_prop. exfalso.
  repeat (destruct H as [H|H]; [|]); bool_to_prop; lia.
Qed.

Lemma FoldASCII_LDH d : isLDH d = true → FoldASCII d = d.
Proof. intros H. apply string_map_id. by eapply string_forallb_impl; [apply ldh_byte_folded|]. Qed.

(** ** Enumeration *)

Lemma AddressCount_pow p :
  Prefix_wf p → 0 ≤ p_bits p → AddressCount p = 2 ^ (BitLen (p_ip p) - p_bits p).
Proof. intros (_ & Hb & _) ?. unfold AddressCount. rewrite Z.shiftl_mul_pow2 by lia. lia. Qed.

(** [WithinCap] and [LargestPrefixLen] draw one line: a scope is within the cap
    exactly when its prefix is at least as long as the longest the cap admits. *)
Lemma pow2_le_log2 k m : 0 ≤ k → 1 ≤ m → 2 ^ k ≤ m ↔ k ≤ Z.log2 m.
Proof.
  intros Hk Hm. split; intros H.
  - rewrite <- (Z.log2_pow2 k) by done. by apply Z.log2_le_mono.
  - etrans; [apply (Z.pow_le_mono_r 2 k (Z.log2 m)); lia|]. apply Z.log2_spec. lia.
Qed.

(** The cap refuses at declaration exactly what the Settings control calls
    too wide: a valid prefix is [WithinCap] if and only if its length is at least
    [LargestPrefixLen] of the cap, for both families and any positive cap. *)
Theorem WithinCap_LargestPrefixLen p cap :
  Prefix_wf p → 0 ≤ p_bits p → 1 ≤ cap →
  WithinCap p cap = true ↔ LargestPrefixLen cap (BitLen (p_ip p)) ≤ p_bits p.
Proof.
  intros Hwf Hp Hc. unfold WithinCap, LargestPrefixLen, bits_Len.
  rewrite AddressCount_pow, Z.leb_le by done. destruct Hwf as (_ & Hb & _).
  rewrite pow2_le_log2 by lia. pose proof (Z.log2_nonneg cap).
  split_ifs; lia.
Qed.

Lemma WithinCap_LargestPrefixLen_witness :
  let p := mkPrefix (Addr4 3405803776) 24 in
  WithinCap p 1024 = true ↔ LargestPrefixLen 1024 (BitLen (p_ip p)) ≤ p_bits p.
Proof.
  apply (WithinCap_LargestPrefixLen (mkPrefix (Addr4 3405803776) 24) 1024).
  - repeat split; discriminate || reflexivity.
  - discriminate.
  - discriminate.
Defined.

Lemma addr_in_family_spec p w :
  p_ip p ≠ AddrInvalid → 0 ≤ w < 2 ^ BitLen (p_ip p) →
  let a := addr_in_family p w in
  Addr_wf a ∧ Addr_IsValid a = true ∧ hasZone a = false ∧ BitLen a = BitLen (p_ip p) ∧
  addr_bits a = w ∧
  Addr_Next a = if w + 1 =? 2 ^ BitLen (p_ip p) then AddrInvalid else addr_in_family p (w + 1).
Proof.
  intros Hne Hw. unfold addr_in_family. destruct (p_ip p); [done| |];
    cbn [Addr_wf Addr_IsValid hasZone BitLen addr_bits Addr_Next negb String.eqb] in *; tauto.
Qed.

Lemma enumerate_from_invalid fuel p : enumerate_from fuel p AddrInvalid = [].
Proof. by destruct fuel. Qed.

Lemma enumerate_from_spec p m fuel w :
  Prefix_valid p →
  prefix_base p ≤ w → w + Z.of_nat (S m) = prefix_base p + 2 ^ host_bits p → (S m < fuel)%nat →
  enumerate_from fuel p (addr_in_family p w) = map (addr_in_family p) (seqZ w (Z.of_nat (S m))).
Proof.
  intros Hv. pose proof (prefix_base_range p Hv) as [Hb0 Hb1].
  destruct (Prefix_valid_range p Hv) as (_ & Hh & Hne).
  revert fuel w. induction m as [|m IH]; intros fuel w Hw Hm Hf;
    (destruct fuel as [|fuel]; [lia|]); rewrite seqZ_cons by lia; cbn [enumerate_from map];
    (destruct (addr_in_family_spec p w) as (Hwf & -> & Hz & Hl & Hbits & ->); [done|lia|]);
    rewrite (proj2 (Contains_interval p _ Hv Hwf)) by (rewrite Hbits; repeat split; done || lia);
    cbn [andb]; f_equal.
  - replace (seqZ (Z.succ w) (Z.pred (Z.of_nat 1))) with (@nil Z) by done. cbn [map].
    destruct (Z.eqb_spec (w + 1) (2 ^ BitLen (p_ip p))) as [E|E]; [apply enumerate_from_invalid|].
    destruct fuel as [|fuel]; [done|]. cbn [enumerate_from].
    destruct (addr_in_family_spec p (w + 1)) as (Hwf' & _ & _ & _ & Hbits' & _); [done|lia|].
    destruct (Contains p (addr_in_family p (w + 1))) eqn:Ec; [|by rewrite andb_false_r].
    apply Contains_interval in Ec; [|done..]. rewrite Hbits' in Ec. lia.
  - rewrite (proj2 (Z.eqb_neq _ _)) by lia. rewrite IH by lia.
    by replace (Z.pred (Z.of_nat (S (S m)))) with (Z.of_nat (S m)) by lia.
Qed.

Lemma EnumerateAddresses_seq p :
  Prefix_valid p →
  EnumerateAddresses p = map (addr_in_family p) (seqZ (prefix_base p) (2 ^ host_bits p)).
Proof.
  intros Hv. pose proof (Masked_valid p Hv) as Hvm. pose proof (prefix_base_range p Hv) as [Hb0 _].
  destruct (Prefix_valid_range p Hv) as (_ & Hh & Hne).
  assert (H2 : 0 < 2 ^ host_bits p) by (apply Z.pow_pos_nonneg; lia).
  unfold EnumerateAddresses, Prefix_IsValid. rewrite (proj2 (Z.leb_le _ _)) by apply Hvm. cbn [negb].
  assert (Hhm : host_bits (Masked p) = host_bits p).
  { rewrite Masked_spec by done. unfold host_bits, addr_in_family. cbn [p_ip p_bits].
    by destruct (p_ip p). }
  assert (Hbm : prefix_base (Masked p) = prefix_base p).
  { unfold prefix_base at 1. rewrite Hhm, Masked_spec by done. cbn [p_ip].
    assert (addr_bits (addr_in_family p (prefix_base p)) = prefix_base p) as ->
      by (unfold addr_in_family; by destruct (p_ip p)).
    unfold prefix_base. by rewrite Z.div_mul by lia. }
  assert (Hfm : addr_in_family (Masked p) = addr_in_family p).
  { rewrite Masked_spec by done. unfold addr_in_family at 1. cbn [p_ip].
    unfold addr_in_family. by destruct (p_ip p). }
  assert (Hip : p_ip (Masked p) = addr_in_family (Masked p) (prefix_base (Masked p)))
    by (rewrite Hfm, Hbm, Masked_spec by done; done).
  rewrite Hip. unfold enumerate_fuel. rewrite AddressCount_pow by apply Hvm.
  fold (host_bits (Masked p)).
  replace (2 ^ host_bits p) with (Z.of_nat (S (Z.to_nat (2 ^ host_bits (Masked p) - 1))))
    by (rewrite Hhm; lia).
  rewrite <- Hbm, <- Hfm. apply enumerate_from_spec; [done|lia|rewrite Hhm; lia|lia].
Qed.

Lemma elem_of_EnumerateAddresses p a :
  Prefix_valid p → a ∈ EnumerateAddresses p ↔ Addr_wf a ∧ Contains p a = true.
Proof.
  intros Hv. rewrite EnumerateAddresses_seq by done.
  pose proof (prefix_base_range p Hv) as [Hb0 Hb1].
  destruct (Prefix_valid_range p Hv) as (_ & Hh & Hne).
  rewrite list_elem_of_fmap. setoid_rewrite elem_of_seqZ. split.
  - intros (w & -> & Hw).
    destruct (addr_in_family_spec p w) as (Hwf & _ & Hz & Hl & Hbits & _); [done|lia|].
    split; [exact Hwf|]. apply Contains_interval; [exact Hv|exact Hwf|].
    split; [exact Hz|split; [exact Hl|]]. rewrite Hbits. exact Hw.
  - intros (Ha & Hc). apply Contains_interval in Hc as (Hz & Hl & Hw); [|done..].
    exists (addr_bits a). split; [|lia].
    unfold addr_in_family. destruct a as [|v|v z], (p_ip p); cbn [BitLen] in Hl; try lia; try done.
    cbn [hasZone] in Hz. apply negb_false_iff, String.eqb_eq in Hz. by subst.
Qed.

(** A scope enumerates whole: the walk of a valid prefix yields, in address
    order and without repetition, exactly the zoneless addresses the prefix
    contains, and as many of them as [AddressCount] prices it at. *)
Theorem EnumerateAddresses_whole p :
  Prefix_valid p →
  (∀ a, Addr_wf a → a ∈ EnumerateAddresses p ↔ Contains p a = true) ∧
  NoDup (EnumerateAddresses p) ∧
  StronglySorted (λ a b, addr_bits a < addr_bits b) (EnumerateAddresses p) ∧
  Z.of_nat (length (EnumerateAddresses p)) = AddressCount p.
Proof.
  intros Hv. rewrite EnumerateAddresses_seq by done.
  pose proof (prefix_base_range p Hv) as [Hb0 Hb1].
  destruct (Prefix_valid_range p Hv) as (_ & Hh & Hne).
  assert (H2 : 0 < 2 ^ host_bits p) by (apply Z.pow_pos_nonneg; lia).
  assert (Hbits : ∀ w, addr_bits (addr_in_family p w) = w)
    by (intros w; unfold addr_in_family; by destruct (p_ip p)).
  split; [|split; [|split]].
  - intros a Ha. rewrite <- EnumerateAddresses_seq, elem_of_EnumerateAddresses by done. tauto.
  - apply NoDup_fmap_2_strong; [|apply NoDup_seqZ]. intros x y _ _ Heq.
    by rewrite <- (Hbits x), <- (Hbits y), Heq.
  - generalize (prefix_base p) as w. intros w. unfold seqZ. 
    generalize (Z.to_nat (2 ^ host_bits p)) as n. intros n. rewrite map_map.
    assert (∀ k, StronglySorted (λ a b, addr_bits a < addr_bits b)
      (map (λ i, addr_in_family p (Z.of_nat i + w)) (seq k n))) as Hs; [|apply Hs].
    induction n as [|n IH]; intros k; simpl; [constructor|]. constructor; [apply IH|].
    rewrite Forall_forall. intros a (i & -> & Hi)%list_elem_of_fmap. rewrite !Hbits.
    apply elem_of_seq in Hi. lia.
  - rewrite length_map, length_seqZ, AddressCount_pow by apply Hv. unfold host_bits in *. lia.
Qed.

Lemma EnumerateAddresses_whole_witness :
  let p := mkPrefix (Addr4 3405803781) 30 in
  NoDup (EnumerateAddresses p) ∧ Z.of_nat (length (EnumerateAddresses p)) = AddressCount p.
Proof.
  destruct (EnumerateAddresses_whole (mkPrefix (Addr4 3405803781) 30)) as (_ & H1 & _ & H2).
  - repeat split; discriminate || reflexivity.
  - split; [exact H1|exact H2].
Defined.
