(* ===== verification/Drift.v ===== *)
(** * The drift engine: timelines of spans ([internal/drift])

    Models [drift.go], [fold.go], [transition.go], [delta.go] and
    [withdrawal.go].  A Go [map[string]string] is a [gmap]; an expression that
    can panic (the slice index of [Vector.Equal]) has type [option], [None]
    being the panic, and every caller threads it. *)

From S2P Require Import Prelude GoTime.

(** ** Data *)

Record TimelineKey := mkKey {
  SubjectKind : string;
  SubjectKey : string;
  Facet : string;
  Discriminator : string;
  Vantage : string;
  Source : string
}.

Record Component := mkComponent { Leaf : string; Version : string }.

Abbreviation Vector := (list Component).

#[export] Instance TimelineKey_eq : EqDecision TimelineKey.
Proof. solve_decision. Defined.
#[export] Instance Component_eq : EqDecision Component.
Proof. solve_decision. Defined.

(** [ClosureReason] is a Go string type: any string, three of them valid. *)
Definition ReasonMeasuredAbsent : string := "measured-absent".
Definition ReasonUncited : string := "uncited".
Definition ReasonDescoped : string := "descoped".

Definition ClosureReason_Valid (r : string) : bool :=
  bool_decide (r = ReasonMeasuredAbsent) || bool_decide (r = ReasonUncited) ||
  bool_decide (r = ReasonDescoped).

Record Span := mkSpan {
  sp_Key : TimelineKey;
  sp_Value : string;
  sp_IsGap : bool;
  sp_Vector : Vector;
  sp_OpenedAt : Z;
  sp_ClosedAt : Z;
  sp_Reason : string
}.

Record Reading := mkReading {
  rd_Value : string;
  rd_IsGap : bool;
  rd_Vector : Vector;
  rd_ObservedAt : Z
}.

Definition Span_Open (s : Span) : bool := IsZero (sp_ClosedAt s).

(** ** Vectors *)

(** The [byLeaf] map: a later component overwrites an earlier one. *)
Definition byLeaf (cs : Vector) : gmap string string :=
  foldl (λ m c, <[Leaf c := Version c]> m) ∅ cs.

Definition NewVector (components : Vector) : Vector :=
  sort_stable (less_by Leaf)
    (map (λ lv, mkComponent lv.1 lv.2) (map_to_list (byLeaf components))).

(** [for i := range a { if a[i] != b[i] { return false } }; return true] *)
Fixpoint index_equal (a b : Vector) : option bool :=
  match a, b with
  | [], _ => Some true
  | _ :: _, [] => None
  | x :: a', y :: b' => if decide (x = y) then index_equal a' b' else Some false
  end.

Definition Vector_Equal (v o : Vector) : option bool :=
  if negb (length v =? length o)%nat then Some false
  else index_equal (NewVector v) (NewVector o).

(** Reading a missing key of a Go map yields the zero value. *)
Definition map_get (m : gmap string string) (k : string) : string := default "" (m !! k).

Definition moved_from (xs ys : gmap string string) : list string :=
  map fst (filter (λ kv, map_get ys kv.1 ≠ kv.2) (map_to_list xs)).

Definition MovedLeaves (before after : Vector) : list string :=
  let bv := byLeaf before in
  let av := byLeaf after in
  sorted_keys (list_to_set (moved_from av bv) ∪ list_to_set (moved_from bv av)).

(** ** Folding readings into spans *)

Definition spanFromReading (key : TimelineKey) (r : Reading) : Span :=
  mkSpan key (rd_Value r) (rd_IsGap r) (NewVector (rd_Vector r)) (rd_ObservedAt r) zeroTime "".

Definition sameSpan (open : Span) (r : Reading) : option bool :=
  if negb (bool_decide (sp_IsGap open = rd_IsGap r)) then Some false
  else if negb (bool_decide (sp_Value open = rd_Value r)) then Some false
  else Vector_Equal (sp_Vector open) (NewVector (rd_Vector r)).

Definition with_ClosedAt (s : Span) (t : Z) : Span :=
  mkSpan (sp_Key s) (sp_Value s) (sp_IsGap s) (sp_Vector s) (sp_OpenedAt s) t (sp_Reason s).

Definition with_Reason (s : Span) (r : string) : Span :=
  mkSpan (sp_Key s) (sp_Value s) (sp_IsGap s) (sp_Vector s) (sp_OpenedAt s) (sp_ClosedAt s) r.

Definition reading_less (a b : Reading) : bool := Before (rd_ObservedAt a) (rd_ObservedAt b).

Fixpoint fold_loop (key : TimelineKey) (spans : list Span) (open : Span) (rs : list Reading)
    : option (list Span) :=
  match rs with
  | [] => Some (spans ++ [open])
  | r :: rs' =>
      same ← sameSpan open r;
      if (same : bool) then fold_loop key spans open rs'
      else fold_loop key (spans ++ [with_ClosedAt open (rd_ObservedAt r)])
             (spanFromReading key r) rs'
  end.

Definition Fold (key : TimelineKey) (readings : list Reading) : option (list Span) :=
  match sort_stable reading_less readings with
  | [] => Some []
  | r :: rs => fold_loop key [] (spanFromReading key r) rs
  end.

Definition zeroKey : TimelineKey := mkKey "" "" "" "" "" "".
Definition zeroSpan : Span := mkSpan zeroKey "" false [] zeroTime zeroTime "".

Definition FoldStep (open : option Span) (key : TimelineKey) (r : Reading)
    : option (Z * Span * bool) :=
  match open with
  | None => Some (zeroTime, spanFromReading key r, true)
  | Some o =>
      same ← sameSpan o r;
      if (same : bool) then Some (zeroTime, zeroSpan, false)
      else Some (rd_ObservedAt r, spanFromReading key r, true)
  end.

(** ** Breaks and transitions *)

Record Break := mkBreak {
  br_Before : Span;
  br_After : Span;
  br_MovedLeaves : list string
}.

Fixpoint Breaks_from (before : Span) (spans : list Span) : option (list Break) :=
  match spans with
  | [] => Some []
  | after :: spans' =>
      eq ← Vector_Equal (sp_Vector before) (sp_Vector after);
      rest ← Breaks_from after spans';
      if (eq : bool) then Some rest
      else Some (mkBreak before after (MovedLeaves (sp_Vector before) (sp_Vector after)) :: rest)
  end.

Definition Breaks (spans : list Span) : option (list Break) :=
  match spans with [] => Some [] | s :: spans' => Breaks_from s spans' end.

Definition Comparable (a b : Span) : option bool := Vector_Equal (sp_Vector a) (sp_Vector b).

Inductive Kind := KindNone | KindAppeared | KindReturned | KindRevealed.

#[export] Instance Kind_eq : EqDecision Kind.
Proof. solve_decision. Defined.

Definition MembershipReturn (priorClosure : option Span) (witnessBroke : bool) : Kind :=
  match priorClosure with
  | None => KindAppeared
  | Some p =>
      if bool_decide (sp_Reason p = ReasonDescoped) then KindAppeared
      else if witnessBroke then KindAppeared
      else KindReturned
  end.

Definition ReEntryKind (priorClosure : option Span) (witnessBroke apertureWidened : bool) : Kind :=
  match priorClosure with
  | Some p =>
      if apertureWidened && bool_decide (sp_Reason p = ReasonDescoped) then KindRevealed
      else MembershipReturn priorClosure witnessBroke
  | None => MembershipReturn priorClosure witnessBroke
  end.

Definition OpeningKind (apertureWidened : bool) : Kind :=
  if apertureWidened then KindRevealed else KindNone.

(** ** Populations at an instant *)

Record Delta := mkDelta { Current : Z; Previous : Z }.

Definition Delta_Change (d : Delta) : Z := Current d - Previous d.

Definition openAt (s : Span) (t : Z) : bool :=
  if After (sp_OpenedAt s) t then false
  else IsZero (sp_ClosedAt s) || After (sp_ClosedAt s) t.

Definition OpenAt (spans : list Span) (t : Z) : list Span := filter (λ s, openAt s t) spans.

Definition CurrentlyOpen (spans : list Span) : list Span := filter (λ s, Span_Open s) spans.

Definition CountDelta (all : list Span) (prevBatchAt : Z) (count : list Span → Z) : Delta :=
  mkDelta (count (CurrentlyOpen all)) (count (OpenAt all prevBatchAt)).

Definition CountSpans (open : list Span) : Z := Z.of_nat (length open).

Definition DistinctSubjects (open : list Span) : Z :=
  Z.of_nat (size (foldl (λ seen s, {[(SubjectKind (sp_Key s), SubjectKey (sp_Key s))]} ∪ seen)
                    (∅ : gset (string * string)) open)).

(** ** Withdrawal *)

Definition CloseWithdrawal (open : list Span) (at_ : Z) (reason : string) : list Span :=
  map (λ s, if negb (Span_Open s) then s else with_Reason (with_ClosedAt s at_) reason) open.

(** ** Vectors: normal form and comparison *)

Definition components_of (m : gmap string string) : Vector :=
  sort_stable (less_by Leaf) (map (λ lv, mkComponent lv.1 lv.2) (map_to_list m)).

(** A vector [NewVector] can return. *)
Definition normal (v : Vector) : Prop := NewVector v = v.

Lemma byLeaf_fold m cs :
  foldl (λ m c, <[Leaf c := Version c]> m) m cs = byLeaf cs ∪ m.
Proof.
  unfold byLeaf. revert m. induction cs as [|c cs IH]; intros m; simpl; [by rewrite map_empty_union|].
  rewrite IH, (IH (<[_:=_]> ∅)). rewrite <- (map_union_assoc _ _ m). f_equal.
  by rewrite <- insert_union_l, map_empty_union.
Qed.

Lemma byLeaf_cons c cs : byLeaf (c :: cs) = byLeaf cs ∪ {[Leaf c := Version c]}.
Proof. unfold byLeaf at 1. simpl. by rewrite byLeaf_fold, insert_empty. Qed.

(** Where leaves do not repeat, the vector is its map. *)
Lemma byLeaf_elem cs l v :
  NoDup (map Leaf cs) → byLeaf cs !! l = Some v ↔ mkComponent l v ∈ cs.
Proof.
  revert l v. induction cs as [|[l' v'] cs IH]; simpl; intros l v Hnd.
  { unfold byLeaf. simpl. rewrite lookup_empty. split; [done|]. intros H; inv H. }
  inv Hnd. rewrite byLeaf_cons, elem_of_cons. simpl. rewrite lookup_union_Some_raw, IH by done.
  split.
  - intros [?|[_ ?]]; [by right|]. left. by simplify_map_eq.
  - intros [?|?]; [|by left]. simplify_eq. right. split; [|by simplify_map_eq].
    apply eq_None_not_Some. intros [w Hw]. apply IH in Hw; [|done].
    apply H1. change l' with (Leaf (mkComponent l' w)). by apply (list_elem_of_fmap_2 Leaf).
Qed.

Lemma components_map_leaf (m : gmap string string) :
  NoDup (map Leaf (map (λ lv, mkComponent lv.1 lv.2) (map_to_list m))).
Proof. rewrite map_map. apply NoDup_fst_map_to_list. Qed.

Lemma NoDup_leaf_inj (cs : Vector) x y :
  NoDup (map Leaf cs) → x ∈ cs → y ∈ cs → Leaf x = Leaf y → x = y.
Proof.
  intros Hnd Hx Hy Hl. destruct x as [l v], y as [l' v']. simpl in *. subst l'.
  apply byLeaf_elem in Hx, Hy; try done. by simplify_eq.
Qed.

Lemma NewVector_components cs : NewVector cs = components_of (byLeaf cs).
Proof. done. Qed.

Lemma components_of_NoDup m : NoDup (map Leaf (components_of m)).
Proof.
  unfold components_of. rewrite sort_stable_Permutation. apply components_map_leaf.
Qed.

Lemma byLeaf_components_of m : byLeaf (components_of m) = m.
Proof.
  apply map_eq. intros l. apply option_eq. intros v.
  rewrite byLeaf_elem by apply components_of_NoDup.
  unfold components_of. rewrite sort_stable_elem, list_elem_of_fmap.
  split.
  - intros ([l' v'] & Heq & Hin). simpl in *. simplify_eq. by apply elem_of_map_to_list.
  - intros. exists (l, v). by rewrite elem_of_map_to_list.
Qed.

Lemma byLeaf_NewVector cs : byLeaf (NewVector cs) = byLeaf cs.
Proof. apply byLeaf_components_of. Qed.

Lemma NewVector_normal cs : normal (NewVector cs).
Proof. unfold normal. rewrite NewVector_components at 1. by rewrite byLeaf_NewVector. Qed.

#[export] Hint Resolve NewVector_normal : verge.

Lemma NewVector_eq_iff v o : NewVector v = NewVector o ↔ byLeaf v = byLeaf o.
Proof.
  split.
  - intros H. by rewrite <- (byLeaf_NewVector v), <- (byLeaf_NewVector o), H.
  - intros H. by rewrite !NewVector_components, H.
Qed.

Lemma index_equal_refl a : index_equal a a = Some true.
Proof. induction a; simpl; [done|]. by rewrite decide_True. Qed.

Lemma index_equal_true a b : index_equal a b = Some true ↔ a `prefix_of` b.
Proof.
  revert b. induction a as [|x a IH]; intros [|y b]; simpl.
  - split; [|done]. intros _. apply prefix_nil.
  - split; [|done]. intros _. apply prefix_nil.
  - split; [done|]. by intros ?%prefix_nil_not.
  - destruct (decide (x = y)) as [->|Hne].
    + rewrite IH. split; [apply prefix_cons|apply prefix_cons_inv_2].
    + split; [done|]. by intros ?%prefix_cons_inv_1.
Qed.

Lemma index_equal_panic a b : panics (index_equal a b) ↔ b `prefix_of` a ∧ a ≠ b.
Proof.
  revert b. induction a as [|x a IH]; intros [|y b]; simpl.
  - naive_solver.
  - split; [done|]. by intros [?%prefix_nil_not _].
  - split; [|done]. intros _. split; [apply prefix_nil|done].
  - destruct (decide (x = y)) as [->|Hne].
    + rewrite IH. split.
      * intros [? ?]. split; [by apply prefix_cons|congruence].
      * intros [?%prefix_cons_inv_2 ?]. split; [done|congruence].
    + split; [done|]. intros [H _]. apply prefix_cons_inv_1 in H. congruence.
Qed.

Lemma index_equal_same_length a b :
  length a = length b → index_equal a b = Some (bool_decide (a = b)).
Proof.
  revert b. induction a as [|x a IH]; intros [|y b] Hl; simpl in *; try done.
  rewrite IH by lia. destruct (decide (x = y)) as [->|Hne].
  - f_equal. apply bool_decide_ext. split; congruence.
  - rewrite bool_decide_false; [done|]. congruence.
Qed.

(** [Vector.Equal] on the vectors the engine keeps never panics and is equality. *)
Lemma Vector_Equal_normal v o :
  normal v → normal o → Vector_Equal v o = Some (bool_decide (v = o)).
Proof.
  unfold Vector_Equal. intros -> ->. destruct (Nat.eqb_spec (length v) (length o)) as [Hl|Hl]; simpl.
  - by apply index_equal_same_length.
  - rewrite bool_decide_false; [done|]. by intros ->.
Qed.

Lemma moved_from_elem xs ys l :
  l ∈ moved_from xs ys ↔ ∃ v, xs !! l = Some v ∧ map_get ys l ≠ v.
Proof.
  unfold moved_from. rewrite list_elem_of_fmap. split.
  - intros ([l' v] & -> & Hin). apply list_elem_of_filter in Hin as [? ?%elem_of_map_to_list].
    simpl in *. eauto.
  - intros (v & ? & ?). exists (l, v). split; [done|]. apply list_elem_of_filter.
    by rewrite elem_of_map_to_list.
Qed.

Lemma elem_of_MovedLeaves before after l :
  l ∈ MovedLeaves before after ↔ map_get (byLeaf before) l ≠ map_get (byLeaf after) l.
Proof.
  unfold MovedLeaves. rewrite elem_of_sorted_keys, elem_of_union, !elem_of_list_to_set.
  rewrite !moved_from_elem. unfold map_get. split.
  - intros [(v & -> & ?)|(v & -> & ?)]; simpl; congruence.
  - destruct (byLeaf before !! l) as [u|], (byLeaf after !! l) as [w|]; simpl; intros; try congruence.
    + left. exists w. done.
    + right. exists u. split; [done|]. congruence.
    + left. exists w. split; [done|]. congruence.
Qed.

(** ** Folding: the batch fold, the incremental fold, and the timeline they build *)

(** What a span records of the world, and what a reading says of it. *)
Definition sp_content (s : Span) : string * bool * Vector :=
  (sp_Value s, sp_IsGap s, sp_Vector s).
Definition rd_content (r : Reading) : string * bool * Vector :=
  (rd_Value r, rd_IsGap r, NewVector (rd_Vector r)).

(** One incremental step on a timeline: the closed spans and the open one.  The
    caller of [FoldStep] closes the open span at [closeAt] and opens [opened]. *)
Definition fold_step_timeline (key : TimelineKey) (st : list Span * option Span) (r : Reading)
    : option (list Span * option Span) :=
  '(closeAt, opened, changed) ← FoldStep st.2 key r;
  if (changed : bool) then
    Some (st.1 ++ option_list ((λ o, with_ClosedAt o closeAt) <$> st.2), Some opened)
  else Some st.

Definition fold_steps (key : TimelineKey) (rs : list Reading) (st : list Span * option Span)
    : option (list Span * option Span) :=
  foldl (λ acc r, acc ≫= λ st, fold_step_timeline key st r) (Some st) rs.

Definition timeline_spans (st : list Span * option Span) : list Span := st.1 ++ option_list st.2.

(** The content in force at [t]: that of the last reading at or before [t]. *)
Definition in_force (rs : list Reading) (t : Z) : option (string * bool * Vector) :=
  rd_content <$> last (filter (λ r, rd_ObservedAt r <=? t) rs).

(** A timeline as the engine stores it: contiguous spans, none repeating its
    predecessor, the last one open and no other. *)
Fixpoint chained (s : Span) (l : list Span) : Prop :=
  match l with
  | [] => Span_Open s = true
  | s' :: l' =>
      sp_ClosedAt s = sp_OpenedAt s' ∧ sp_OpenedAt s ≤ sp_OpenedAt s' ∧
      sp_content s ≠ sp_content s' ∧ sp_Key s = sp_Key s' ∧ Span_Open s = false ∧ chained s' l'
  end.

Lemma sorted_reading_le r rs :
  Forall (not_after reading_less r) rs → Forall (λ x, rd_ObservedAt r ≤ rd_ObservedAt x) rs.
Proof.
  rewrite !Forall_forall. intros H x Hx. apply H in Hx.
  unfold not_after, reading_less, Before in Hx. by bool_to_prop.
Qed.

Section FoldProofs.
Variable key : TimelineKey.

(** The loop of [Fold] as a total function, comparing contents directly. *)
Fixpoint fold_total (open : Span) (rs : list Reading) : list Span :=
  match rs with
  | [] => [open]
  | r :: rs' =>
      if decide (sp_content open = rd_content r) then fold_total open rs'
      else with_ClosedAt open (rd_ObservedAt r) :: fold_total (spanFromReading key r) rs'
  end.

Lemma sp_content_spanFromReading r : sp_content (spanFromReading key r) = rd_content r.
Proof. done. Qed.

Lemma sameSpan_content open r :
  normal (sp_Vector open) → sameSpan open r = Some (bool_decide (sp_content open = rd_content r)).
Proof.
  intros Hn. unfold sameSpan, sp_content, rd_content.
  case_bool_decide as Hg; simpl; [|rewrite bool_decide_false; [done|congruence]].
  case_bool_decide as Hv; simpl; [|rewrite bool_decide_false; [done|congruence]].
  rewrite Vector_Equal_normal by auto with verge. f_equal. apply bool_decide_ext.
  rewrite Hg, Hv. split; congruence.
Qed.

Lemma fold_loop_total spans open rs :
  normal (sp_Vector open) → fold_loop key spans open rs = Some (spans ++ fold_total open rs).
Proof.
  revert spans open. induction rs as [|r rs IH]; intros spans open Hn; simpl; [done|].
  rewrite sameSpan_content by done. simpl. case_bool_decide; [rewrite decide_True by done; eauto|].
  rewrite decide_False by done. rewrite IH by apply NewVector_normal.
  by rewrite <- (assoc_L (++)).
Qed.

Lemma fold_steps_app rs closed open :
  normal (sp_Vector open) →
  timeline_spans <$> fold_steps key rs (closed, Some open) = Some (closed ++ fold_total open rs).
Proof.
  revert closed open. induction rs as [|r rs IH]; intros closed open Hn; [done|].
  unfold fold_steps. simpl. unfold fold_step_timeline at 2. simpl.
  rewrite sameSpan_content by done. simpl. case_bool_decide; simpl.
  - rewrite decide_True by done. by apply IH.
  - rewrite decide_False by done. etrans; [apply IH, NewVector_normal|].
    simpl. by rewrite <- (assoc_L (++)).
Qed.

Lemma fold_total_chained open rs :
  Forall (λ r, 0 < rd_ObservedAt r) rs →
  StronglySorted (not_after reading_less) rs →
  Forall (λ r, sp_OpenedAt open ≤ rd_ObservedAt r) rs →
  sp_ClosedAt open = zeroTime → sp_Key open = key →
  ∃ s l, fold_total open rs = s :: l ∧ sp_OpenedAt s = sp_OpenedAt open ∧
         sp_content s = sp_content open ∧ sp_Key s = key ∧ chained s l.
Proof.
  revert open. induction rs as [|r rs IH]; intros open Hpos Hsort Hle Hc Hk; simpl.
  { exists open, []. simpl. unfold Span_Open. by rewrite Hc. }
  inv Hpos. inv Hsort. inv Hle. case_decide as Heq; [by apply IH|].
  destruct (IH (spanFromReading key r)) as (s & l & -> & Ho & Hcs & Hks & Hch); [by try apply sorted_reading_le..|].
  simpl in Ho. rewrite sp_content_spanFromReading in Hcs.
  eexists _, _. split; [done|]. simpl. repeat split; try done.
  - lia.
  - change (sp_content open ≠ sp_content s). congruence.
  - congruence.
  - unfold Span_Open, IsZero, zeroTime. simpl. apply Z.eqb_neq. lia.
Qed.

Lemma fold_total_OpenAt open rs t :
  Forall (λ r, 0 < rd_ObservedAt r) rs →
  StronglySorted (not_after reading_less) rs →
  Forall (λ r, sp_OpenedAt open ≤ rd_ObservedAt r) rs →
  sp_ClosedAt open = zeroTime →
  map sp_content (OpenAt (fold_total open rs) t) =
    if sp_OpenedAt open <=? t then [default (sp_content open) (in_force rs t)] else [].
Proof.
  revert open. induction rs as [|r rs IH]; intros open Hpos Hsort Hle Hc; simpl.
  { unfold OpenAt. rewrite filter_cons, filter_nil. unfold openAt, After. rewrite Hc. simpl.
    destruct (Z.leb_spec (sp_OpenedAt open) t), (Z.ltb_spec t (sp_OpenedAt open)); done || lia. }
  inv Hpos. inv Hsort. inv Hle.
  assert (Hrle := sorted_reading_le _ _ H4).
  assert (Hforce : in_force (r :: rs) t =
    if rd_ObservedAt r <=? t then Some (default (rd_content r) (in_force rs t)) else None).
  { unfold in_force. rewrite filter_cons. destruct (Z.leb_spec (rd_ObservedAt r) t) as [Hrt|Hrt]; simpl.
    - rewrite last_cons. by destruct (last _).
    - rewrite filter_none; [done|]. intros x Hx ?%Is_true_true%Z.leb_le.
      rewrite Forall_forall in Hrle. apply Hrle in Hx. lia. }
  rewrite Hforce. case_decide as Heq.
  - rewrite IH by done. rewrite Heq.
    destruct (Z.leb_spec (rd_ObservedAt r) t) as [Hrt|Hrt]; simpl; [done|].
    unfold in_force. rewrite filter_none; [done|]. intros x Hx ?%Is_true_true%Z.leb_le.
    rewrite Forall_forall in Hrle. apply Hrle in Hx. lia.
  - unfold OpenAt. rewrite filter_cons.
    assert (Hopen : openAt (with_ClosedAt open (rd_ObservedAt r)) t =
      (sp_OpenedAt open <=? t) && (t <? rd_ObservedAt r)).
    { unfold openAt, After, IsZero, zeroTime. simpl.
      destruct (Z.ltb_spec t (sp_OpenedAt open)), (Z.leb_spec (sp_OpenedAt open) t),
        (Z.eqb_spec (rd_ObservedAt r) 0); simpl; done || lia. }
    rewrite Hopen. fold (OpenAt (fold_total (spanFromReading key r) rs) t).
    destruct (Z.leb_spec (sp_OpenedAt open) t), (Z.ltb_spec t (rd_ObservedAt r)),
      (Z.leb_spec (rd_ObservedAt r) t); simpl; try lia;
      rewrite ?IH by done; simpl;
      destruct (Z.leb_spec (rd_ObservedAt r) t); done || lia.
Qed.
End FoldProofs.

Lemma sort_readings_Forall (P : Reading → Prop) rs :
  Forall P rs → Forall P (sort_stable reading_less rs).
Proof. apply Forall_permutation. symmetry. apply sort_stable_Permutation. Qed.

#[export] Instance reading_less_weak : StrictWeak reading_less.
Proof. apply (Zltb_weak rd_ObservedAt). Qed.

(** The sorted readings split as [Fold] and the incremental fold consume them. *)
Lemma Fold_total_eq key rs :
  Fold key rs = Some (match sort_stable reading_less rs with
                      | [] => []
                      | r :: rs' => fold_total key (spanFromReading key r) rs'
                      end).
Proof.
  unfold Fold. destruct (sort_stable _ _) as [|r rs']; [done|].
  by rewrite fold_loop_total by apply NewVector_normal.
Qed.

Lemma fold_total_normal key open rs :
  normal (sp_Vector open) → Forall (λ s, normal (sp_Vector s)) (fold_total key open rs).
Proof.
  revert open. induction rs as [|r rs IH]; intros open Hn; simpl; [by repeat constructor|].
  case_decide; [by apply IH|]. constructor; [done|]. apply IH, NewVector_normal.
Qed.

(** Ingest is a fold: applying [FoldStep] reading by reading, closing the
    open span where it says so and opening the span it returns, builds exactly
    the spans [Fold] computes from the whole batch; neither ever panics. *)
Theorem Fold_is_incremental key rs :
  ∃ spans, Fold key rs = Some spans ∧
    timeline_spans <$> fold_steps key (sort_stable reading_less rs) ([], None) = Some spans.
Proof.
  rewrite Fold_total_eq. eexists. split; [done|].
  destruct (sort_stable _ _) as [|r rs']; [done|].
  apply (fold_steps_app key rs' [] (spanFromReading key r)). apply NewVector_normal.
Qed.

(** [C12] The timeline [Fold] builds answers every point-in-time read: at any
    instant [t] the spans open at [t] are exactly one span carrying the content
    of the last reading at or before [t], or none before the first reading.  The
    spans are contiguous, no span repeats its predecessor, and only the last is
    open. *)
Theorem Fold_timeline_correct key rs :
  Forall (λ r, 0 < rd_ObservedAt r) rs →
  ∃ spans, Fold key rs = Some spans ∧
    (∀ t, map sp_content (OpenAt spans t) =
          option_list (in_force (sort_stable reading_less rs) t)) ∧
    match spans with [] => rs = [] | s :: l => chained s l end.
Proof.
  intros Hpos. rewrite Fold_total_eq. eexists. split; [done|].
  pose proof (sort_stable_Sorted reading_less rs) as Hs.
  pose proof (sort_readings_Forall _ _ Hpos) as Hp.
  pose proof (sort_stable_Permutation reading_less rs) as Hperm.
  destruct (sort_stable _ _) as [|r rs'].
  { split; [done|]. by apply Permutation_nil_l in Hperm. }
  inv Hs. inv Hp. pose proof (sorted_reading_le _ _ H2) as Hle. split.
  - intros t. rewrite fold_total_OpenAt by done. simpl. unfold in_force at 2.
    rewrite filter_cons. destruct (Z.leb_spec (rd_ObservedAt r) t); simpl.
    + rewrite last_cons. unfold in_force. by destruct (last _).
    + rewrite filter_none; [done|]. intros x Hx ?%Is_true_true%Z.leb_le.
      rewrite Forall_forall in Hle. apply Hle in Hx. lia.
  - destruct (fold_total_chained key (spanFromReading key r) rs')
      as (s & l & -> & _ & _ & _ & Hch); done.
Qed.

Definition sample_key : TimelineKey := mkKey "name" "a.example" "resolution" "" "v1" "resolver".
Definition sample_readings : list Reading :=
  [ mkReading "A" false [mkComponent "walk" "v1"] 30;
    mkReading "A" false [mkComponent "walk" "v1"] 10;
    mkReading "B" false [mkComponent "walk" "v2"] 20 ].

Lemma Fold_timeline_correct_witness :
  Forall (λ r, 0 < rd_ObservedAt r) sample_readings ∧
  ∃ spans, Fold sample_key sample_readings = Some spans ∧
    (∀ t, map sp_content (OpenAt spans t) =
          option_list (in_force (sort_stable reading_less sample_readings) t)) ∧
    match spans with [] => sample_readings = [] | s :: l => chained s l end.
Proof.
  assert (H : Forall (λ r, 0 < rd_ObservedAt r) sample_readings) by (repeat constructor).
  split; [exact H|exact (Fold_timeline_correct sample_key sample_readings H)].
Defined.

(** The panics of [Vector.Equal], exactly: two vectors of one length whose
    normal forms differ by the second running out first.  On vectors as
    [NewVector] returns them it never panics and decides equality, which is
    equality of the leaf-to-version maps. *)
Theorem Vector_Equal_panic_free_on_normal v o :
  (panics (Vector_Equal v o) ↔
     length v = length o ∧ NewVector o `prefix_of` NewVector v ∧ byLeaf v ≠ byLeaf o) ∧
  Vector_Equal (NewVector v) (NewVector o) = Some (bool_decide (byLeaf v = byLeaf o)).
Proof.
  split.
  - unfold Vector_Equal. destruct (Nat.eqb_spec (length v) (length o)) as [Hl|Hl]; simpl.
    + rewrite index_equal_panic, NewVector_eq_iff. naive_solver.
    + naive_solver.
  - rewrite Vector_Equal_normal by auto with verge. f_equal.
    apply bool_decide_ext, NewVector_eq_iff.
Qed.

(** A vector every one of whose leaves names a version. *)
Definition versioned (v : Vector) : Prop := ∀ l w, byLeaf v !! l = Some w → w ≠ "".

Lemma MovedLeaves_nonempty v o :
  normal v → normal o → versioned v → versioned o → v ≠ o → MovedLeaves v o ≠ [].
Proof.
  intros Hv Ho Vv Vo Hne Hnil. apply Hne. rewrite <- Hv, <- Ho, NewVector_eq_iff.
  apply map_eq. intros l. destruct (decide (byLeaf v !! l = byLeaf o !! l)) as [|Hd]; [done|].
  assert (l ∈ MovedLeaves v o) as Hin; [|rewrite Hnil in Hin; inv Hin].
  apply elem_of_MovedLeaves. unfold map_get.
  destruct (byLeaf v !! l) eqn:E1, (byLeaf o !! l) eqn:E2; simpl; try congruence.
  - by eapply Vv.
  - intros Heq. by eapply Vo.
Qed.

Lemma Breaks_from_spec before spans :
  Forall (λ s, normal (sp_Vector s)) (before :: spans) →
  ∃ bs, Breaks_from before spans = Some bs ∧
    map (λ b, (br_Before b, br_After b)) bs =
      filter (λ p, sp_Vector p.1 ≠ sp_Vector p.2) (zip (before :: spans) spans) ∧
    Forall (λ b, br_MovedLeaves b =
      MovedLeaves (sp_Vector (br_Before b)) (sp_Vector (br_After b))) bs.
Proof.
  revert before. induction spans as [|s spans IH]; intros before Hn; simpl; [by exists []|].
  inv Hn. destruct (IH s) as (bs & -> & Hb & Hm); [done|]. inv H2.
  rewrite Vector_Equal_normal by done. simpl. rewrite filter_cons. simpl.
  case_bool_decide as Heq.
  - exists bs. rewrite decide_False by congruence. done.
  - eexists. split; [done|]. rewrite decide_True by done. simpl. rewrite Hb.
    split; [done|]. by constructor.
Qed.

(** The Breaks of a folded timeline are exactly the adjacent spans whose
    derivation vectors differ, and each names the leaves that moved: at least
    one of them wherever every leaf carries a version. *)
Theorem Breaks_of_Fold key rs :
  ∃ spans bs, Fold key rs = Some spans ∧ Breaks spans = Some bs ∧
    map (λ b, (br_Before b, br_After b)) bs =
      filter (λ p, sp_Vector p.1 ≠ sp_Vector p.2) (zip spans (tail spans)) ∧
    (∀ b, b ∈ bs →
       (∀ l, l ∈ br_MovedLeaves b ↔
          map_get (byLeaf (sp_Vector (br_Before b))) l ≠
          map_get (byLeaf (sp_Vector (br_After b))) l) ∧
       (versioned (sp_Vector (br_Before b)) → versioned (sp_Vector (br_After b)) →
          br_MovedLeaves b ≠ [])).
Proof.
  rewrite Fold_total_eq. set (spans := match sort_stable reading_less rs with [] => _ | _ => _ end).
  assert (Hn : Forall (λ s, normal (sp_Vector s)) spans).
  { unfold spans. destruct (sort_stable _ _); [constructor|]. apply fold_total_normal, NewVector_normal. }
  clearbody spans. destruct spans as [|s spans]; [by exists [], []; repeat split; set_solver|].
  destruct (Breaks_from_spec s spans Hn) as (bs & Hb & Hp & Hm).
  exists (s :: spans), bs. split; [done|]. split; [done|]. split; [done|].
  intros b Hin. rewrite Forall_forall in Hm. rewrite (Hm _ Hin). split; [apply elem_of_MovedLeaves|].
  assert ((br_Before b, br_After b) ∈ map (λ b, (br_Before b, br_After b)) bs) as Hz
    by (apply list_elem_of_fmap; eauto).
  rewrite Hp in Hz. apply list_elem_of_filter in Hz as [Hne Hz]. simpl in Hne.
  apply elem_of_zip_l in Hz as Hz1. apply elem_of_zip_r in Hz as Hz2.
  rewrite Forall_forall in Hn. intros. apply MovedLeaves_nonempty; try done; apply Hn; [done|by right].
Qed.

(** When a subject re-enters, [ReEntryKind] says [returned] exactly when it
    left on a ground other than a narrowed scope and no relied-upon witness
    broke, and [revealed] exactly when a narrowed scope was widened again. *)
Theorem ReEntryKind_spec prior broke widened :
  (ReEntryKind prior broke widened = KindReturned ↔
     ∃ p, prior = Some p ∧ sp_Reason p ≠ ReasonDescoped ∧ broke = false) ∧
  (ReEntryKind prior broke widened = KindRevealed ↔
     ∃ p, prior = Some p ∧ sp_Reason p = ReasonDescoped ∧ widened = true) ∧
  ReEntryKind prior broke widened ≠ KindNone.
Proof.
  unfold ReEntryKind, MembershipReturn.
  destruct prior as [p|], widened, broke; simpl; repeat case_bool_decide; naive_solver.
Qed.

(** ** Counting the spans two instants apart *)

(** [CountDelta] nets the batch: the change in the span count since [t] is
    the open spans that opened after [t] less the closed spans that were open at
    [t], so a batch that closes one span and opens another counts no change. *)
Theorem CountDelta_nets_out all t :
  Delta_Change (CountDelta all t CountSpans) =
    count_if (λ s, Span_Open s && After (sp_OpenedAt s) t) all -
    count_if (λ s, negb (Span_Open s) && openAt s t) all.
Proof.
  unfold Delta_Change, CountDelta, CountSpans, CurrentlyOpen, OpenAt. simpl.
  change (count_if (λ s, Span_Open s) all - count_if (λ s, openAt s t) all =
    count_if (λ s, Span_Open s && After (sp_OpenedAt s) t) all -
    count_if (λ s, negb (Span_Open s) && openAt s t) all).
  induction all as [|s all IH]; [done|]. rewrite !count_if_cons. unfold openAt, Span_Open in *.
  destruct (IsZero (sp_ClosedAt s)) eqn:E1, (After (sp_OpenedAt s) t) eqn:E2,
    (After (sp_ClosedAt s) t); simpl; lia.
Qed.

(** Withdrawing a subject closes every open span once: after it nothing is
    open, a span already closed keeps its instant and its ground, values and
    opening instants stay, and withdrawing again changes nothing. *)
Theorem CloseWithdrawal_spec spans t reason :
  t ≠ zeroTime →
  let out := CloseWithdrawal spans t reason in
  CurrentlyOpen out = [] ∧
  (∀ i s, spans !! i = Some s → Span_Open s = false → out !! i = Some s) ∧
  (∀ i s, spans !! i = Some s → Span_Open s = true →
     ∃ s', out !! i = Some s' ∧ sp_ClosedAt s' = t ∧ sp_Reason s' = reason ∧
       sp_content s' = sp_content s ∧ sp_Key s' = sp_Key s ∧ sp_OpenedAt s' = sp_OpenedAt s) ∧
  (∀ t' reason', CloseWithdrawal out t' reason' = out).
Proof.
  intros Ht out.
  assert (Hclosed : ∀ s, s ∈ out → Span_Open s = false).
  { intros s (s0 & -> & _)%list_elem_of_fmap. destruct (Span_Open s0) eqn:E; simpl; [|done].
    unfold Span_Open, IsZero. simpl. by apply Z.eqb_neq. }
  repeat split.
  - apply filter_none. intros s Hs ?%Is_true_true. apply Hclosed in Hs. congruence.
  - intros i s Hi Ho. unfold out, CloseWithdrawal. rewrite list_lookup_fmap, Hi. simpl. by rewrite Ho.
  - intros i s Hi Ho. unfold out, CloseWithdrawal. rewrite list_lookup_fmap, Hi. simpl. rewrite Ho.
    simpl. by eexists.
  - intros t' reason'. unfold CloseWithdrawal at 1. rewrite <- (map_id out) at 2.
    apply map_ext_in. intros s Hs. rewrite Hclosed; [done|]. by apply list_elem_of_In.
Qed.

Lemma CloseWithdrawal_spec_witness :
  let spans := [spanFromReading sample_key (mkReading "A" false [] 10)] in
  CurrentlyOpen (CloseWithdrawal spans 20 ReasonUncited) = [].
Proof.
  simpl. destruct (CloseWithdrawal_spec [spanFromReading sample_key (mkReading "A" false [] 10)]
    20 ReasonUncited) as [H _]; [discriminate|exact H].
Defined.
