(* ===== verification/Trend.v ===== *)
(** * Trend series over the estate's history ([internal/drift/trend.go])

    Buckets, discovery, signal and withdrawal series, and the heat ramp.
    Durations and the ramp's arithmetic are at 64 bits; the counters, bounded by
    the length of the slice they count, are plain integers. *)

From S2P Require Import Prelude GoTime.

(** ** Buckets *)

Definition windowStart (now bucket buckets : Z) : Z :=
  TimeAdd now (wrap64 (- bucket) *64 buckets).

Definition bucketIndex (at_ start bucket buckets : Z) : option (Z * bool) :=
  if Before at_ start then Some (0, false)
  else
    idx ← go_div64 (TimeSub at_ start) bucket;
    if (idx <? 0) || (buckets <=? idx) then Some (0, false) else Some (idx, true).

(** ** Signals *)

Record Raise := mkRaise { ra_At : Z; ra_Elevated : bool }.

Record SignalPoint := mkSignalPoint {
  sg_Start : Z; sg_Count : Z; sg_Elevated : Z; sg_Standing : Z; sg_StandingElevated : Z
}.

Definition raise_point (elevated : bool) (p : SignalPoint) : SignalPoint :=
  mkSignalPoint (sg_Start p) (sg_Count p + 1)
    (if elevated then sg_Elevated p + 1 else sg_Elevated p)
    (sg_Standing p) (sg_StandingElevated p).

Definition stand_point (elevated : bool) (p : SignalPoint) : SignalPoint :=
  mkSignalPoint (sg_Start p) (sg_Count p) (sg_Elevated p) (sg_Standing p + 1)
    (if elevated then sg_StandingElevated p + 1 else sg_StandingElevated p).

Definition signal_step (start bucket buckets : Z) (points : list SignalPoint) (rs : Raise)
    : option (list SignalPoint) :=
  '(idx, ok) ← bucketIndex (ra_At rs) start bucket buckets;
  points ← (if (ok : bool) then index_alter (raise_point (ra_Elevated rs)) idx points
            else Some points);
  Some (imap (λ i p,
    let bucketEnd := TimeAdd start (bucket *64 (Z.of_nat i + 1)) in
    if Before (ra_At rs) bucketEnd then stand_point (ra_Elevated rs) p else p) points).

Definition SignalsOverTime (raises : list Raise) (now bucket buckets : Z)
    : option (list SignalPoint) :=
  let start := windowStart now bucket buckets in
  points ← make_slice buckets (mkSignalPoint zeroTime 0 0 0 0);
  let points := imap (λ i p, mkSignalPoint (TimeAdd start (bucket *64 Z.of_nat i))
    (sg_Count p) (sg_Elevated p) (sg_Standing p) (sg_StandingElevated p)) points in
  for_range (signal_step start bucket buckets) raises points.

(** ** The heat ramp *)

Definition heatSteps : Z := 4.

Definition heat_max (counts : list Z) : Z :=
  foldl (λ m c, if m <? c then c else m) 1 counts.

Definition heat_level (mx c : Z) : Z :=
  if c <=? 0 then 0
  else
    let level := (c *64 heatSteps +64 mx -64 1) /64 mx in
    let level := if level <? 1 then 1 else level in
    if heatSteps <? level then heatSteps else level.

(** [max] starts at 1 and only grows, so the division never panics. *)
Definition HeatLevels (counts : list Z) : list Z := map (heat_level (heat_max counts)) counts.

(** ** Withdrawals *)

Record Withdrawal := mkWithdrawal { wd_Appeared : Z; wd_Withdrawn : Z }.

Definition Withdrawal_Duration (w : Withdrawal) : Z * bool :=
  if IsZero (wd_Appeared w) || IsZero (wd_Withdrawn w) ||
     negb (After (wd_Withdrawn w) (wd_Appeared w))
  then (0, false) else (TimeSub (wd_Withdrawn w) (wd_Appeared w), true).

Definition mean_step (acc : Z * Z) (w : Withdrawal) : Z * Z :=
  let '(d, ok) := Withdrawal_Duration w in
  if (ok : bool) then (acc.1 +64 d, acc.2 + 1) else acc.

Definition MeanTimeToWithdrawal (ws : list Withdrawal) : option (Z * bool) :=
  let '(total, n) := foldl mean_step (0, 0) ws in
  if n =? 0 then Some (0, false)
  else mean ← go_div64 total n; Some (mean, true).

Record WithdrawalPoint := mkWithdrawalPoint {
  wp_Start : Z; wp_Mean : Z; wp_Count : Z; wp_HasMean : bool
}.

Definition withdrawal_step (start bucket buckets : Z) (st : list Z * list WithdrawalPoint)
    (w : Withdrawal) : option (list Z * list WithdrawalPoint) :=
  let '(d, ok) := Withdrawal_Duration w in
  if negb ok then Some st
  else
    '(idx, inw) ← bucketIndex (wd_Withdrawn w) start bucket buckets;
    if negb inw then Some st
    else
      totals ← index_alter (λ x, x +64 d) idx st.1;
      points ← index_alter (λ p, mkWithdrawalPoint (wp_Start p) (wp_Mean p) (wp_Count p + 1)
                                   (wp_HasMean p)) idx st.2;
      Some (totals, points).

Definition mean_point (total : Z) (p : WithdrawalPoint) : option WithdrawalPoint :=
  if 0 <? wp_Count p then
    mean ← go_div64 total (wp_Count p);
    Some (mkWithdrawalPoint (wp_Start p) mean (wp_Count p) true)
  else Some p.

Definition WithdrawalSeries (ws : list Withdrawal) (now bucket buckets : Z)
    : option (list WithdrawalPoint) :=
  let start := windowStart now bucket buckets in
  points ← make_slice buckets (mkWithdrawalPoint zeroTime 0 0 false);
  totals ← make_slice buckets 0;
  let points := imap (λ i p, mkWithdrawalPoint (TimeAdd start (bucket *64 Z.of_nat i))
    (wp_Mean p) (wp_Count p) (wp_HasMean p)) points in
  '(totals, points) ← for_range (withdrawal_step start bucket buckets) ws (totals, points);
  mapM (λ tp, mean_point tp.1 tp.2) (zip totals points).

(** ** Discovery *)

Record Appearance := mkAppearance { ap_At : Z; ap_Service : bool }.

Record DiscoveryPoint := mkDiscoveryPoint { dp_Start : Z; dp_Count : Z }.

Definition discovery_step (start bucket buckets : Z) (points : list DiscoveryPoint)
    (a : Appearance) : option (list DiscoveryPoint) :=
  '(idx, ok) ← bucketIndex (ap_At a) start bucket buckets;
  if (ok : bool) then index_alter (λ p, mkDiscoveryPoint (dp_Start p) (dp_Count p + 1)) idx points
  else Some points.

Definition DiscoverySeries (apps : list Appearance) (now bucket buckets : Z)
    : option (list DiscoveryPoint) :=
  let start := windowStart now bucket buckets in
  points ← make_slice buckets (mkDiscoveryPoint zeroTime 0);
  let points := imap (λ i p, mkDiscoveryPoint (TimeAdd start (bucket *64 Z.of_nat i))
    (dp_Count p)) points in
  for_range (discovery_step start bucket buckets) apps points.

Record DiscoveryTotals := mkTotals { dt_Total : Z; dt_Names : Z; dt_Services : Z }.

Definition totals_step (start end_ : Z) (t : DiscoveryTotals) (a : Appearance)
    : DiscoveryTotals :=
  if Before (ap_At a) start || negb (Before (ap_At a) end_) then t
  else mkTotals (dt_Total t + 1)
    (if ap_Service a then dt_Names t else dt_Names t + 1)
    (if ap_Service a then dt_Services t + 1 else dt_Services t).

Definition DiscoveryCount (apps : list Appearance) (start end_ : Z) : DiscoveryTotals :=
  foldl (totals_step start end_) (mkTotals 0 0 0) apps.

(** ** The buckets tile the window *)

(** The windows the callers ask for: a positive bucket, and a window a
    [Duration] can hold. *)
Definition window_ok (bucket buckets : Z) : Prop :=
  0 < bucket ∧ 0 ≤ buckets ∧ bucket * buckets ≤ maxInt64.

Lemma window_mul bucket buckets i :
  window_ok bucket buckets → 0 ≤ i ≤ buckets → bucket *64 i = bucket * i.
Proof.
  intros (? & ? & ?) ?. apply wrap64_id. unfold in_int64, minInt64, maxInt64 in *. nia.
Qed.

Lemma windowStart_eq now bucket buckets :
  window_ok bucket buckets → windowStart now bucket buckets = now - bucket * buckets.
Proof.
  intros (? & ? & ?). unfold windowStart, TimeAdd.
  destruct (decide (buckets = 0)) as [->|].
  { rewrite Z.mul_0_r. change (wrap64 0) with 0. lia. }
  rewrite (wrap64_id (- bucket)) by (unfold in_int64, minInt64, maxInt64 in *; nia).
  rewrite wrap64_id by (unfold in_int64, minInt64, maxInt64 in *; nia). lia.
Qed.

Lemma bucketIndex_spec at_ now bucket buckets :
  window_ok bucket buckets →
  let start := now - bucket * buckets in
  bucketIndex at_ start bucket buckets =
    Some (if (start <=? at_) && (at_ <? now) then ((at_ - start) / bucket, true) else (0, false)).
Proof.
  intros (Hb & Hn & Hm) start. unfold bucketIndex, Before.
  destruct (Z.ltb_spec at_ start) as [Hlt|Hge].
  { rewrite (proj2 (Z.leb_gt _ _)) by lia. done. }
  rewrite (proj2 (Z.leb_le _ _)) by lia. unfold go_div64.
  rewrite (proj2 (Z.eqb_neq _ _)) by lia. simpl.
  pose proof (TimeSub_in at_ start) as Hin. pose proof (TimeSub_nonneg at_ start Hge) as Hnn.
  rewrite Z.quot_div_nonneg by lia.
  assert (Hq : 0 ≤ TimeSub at_ start / bucket ≤ TimeSub at_ start).
  { split; [apply Z.div_pos; lia|]. apply Z.div_le_upper_bound; nia. }
  rewrite wrap64_id by (unfold in_int64, minInt64, maxInt64 in *; lia).
  rewrite (proj2 (Z.ltb_ge _ 0)) by lia. simpl.
  destruct (Z.ltb_spec at_ now) as [Hnow|Hnow].
  - rewrite TimeSub_exact in * by (unfold in_int64, minInt64, maxInt64 in *; lia).
    rewrite (proj2 (Z.leb_gt _ _)); [done|]. apply Z.div_lt_upper_bound; lia.
  - rewrite (proj2 (Z.leb_le _ _)); [done|]. apply Z.div_le_lower_bound; [lia|].
    unfold TimeSub. split_ifs; unfold minInt64 in *; lia.
Qed.

(** The index of an instant of the window names the bucket it falls in. *)
Lemma bucket_of_instant at_ start bucket i :
  0 < bucket → start ≤ at_ →
  (at_ - start) / bucket = i ↔ start + bucket * i ≤ at_ < start + bucket * (i + 1).
Proof.
  intros Hb Hs. split.
  - intros <-. pose proof (Z.mul_div_le (at_ - start) bucket Hb).
    pose proof (Z.mul_succ_div_gt (at_ - start) bucket Hb). lia.
  - intros [? ?]. symmetry. apply Z.div_unique with (at_ - start - bucket * i); lia.
Qed.

Definition in_bucket (start bucket : Z) (i : nat) (t : Z) : bool :=
  (start + bucket * Z.of_nat i <=? t) && (t <? start + bucket * (Z.of_nat i + 1)).

(** Where [bucketIndex] accepts an instant, the bucket it names is the only one
    holding it; where it refuses, none does. *)
Lemma bucketIndex_in_bucket at_ now bucket buckets :
  window_ok bucket buckets →
  let start := now - bucket * buckets in
  ∃ idx ok, bucketIndex at_ start bucket buckets = Some (idx, ok) ∧
    (ok = true → 0 ≤ idx < buckets) ∧
    ∀ i, Z.of_nat i < buckets →
      in_bucket start bucket i at_ = ok && bool_decide (Z.of_nat i = idx).
Proof.
  intros Hw start. pose proof (bucketIndex_spec at_ now bucket buckets Hw) as Hidx.
  cbv zeta in Hidx. fold start in Hidx. rewrite Hidx. clear Hidx. destruct Hw as (Hb & Hn & Hm).
  destruct ((start <=? at_) && (at_ <? now)) eqn:E.
  - bool_to_prop. eexists _, _. split; [done|]. split.
    + intros _. split; [apply Z.div_pos; lia|apply Z.div_lt_upper_bound; lia].
    + intros i Hi. simpl. unfold in_bucket. apply eq_bool_prop_intro.
      rewrite !Is_true_true, andb_true_iff, Z.leb_le, Z.ltb_lt, bool_decide_eq_true.
      rewrite <- (bucket_of_instant at_ start bucket (Z.of_nat i)) by lia. split; congruence.
  - eexists _, _. split; [done|]. split; [done|]. intros i Hi. simpl. unfold in_bucket.
    destruct (Z.leb_spec (start + bucket * Z.of_nat i) at_), 
      (Z.ltb_spec at_ (start + bucket * (Z.of_nat i + 1))); try done. exfalso.
    apply andb_false_iff in E as [E|E]; bool_to_prop; nia.
Qed.

(** ** One loop iteration updates each bucket on its own *)

Section Window.
Variables (now bucket buckets : Z).
Hypothesis Hw : window_ok bucket buckets.
#[local] Notation start := (now - bucket * buckets).

Lemma bucket_update {P} (f : P → P) (pts : list P) at_ :
  length pts = Z.to_nat buckets →
  ('(idx, ok) ← bucketIndex at_ start bucket buckets;
   if (ok : bool) then index_alter f idx pts else Some pts) =
  Some (imap (λ i p, if in_bucket start bucket i at_ then f p else p) pts).
Proof.
  intros Hl. destruct (bucketIndex_in_bucket at_ now bucket buckets Hw)
    as (idx & ok & -> & Hr & Hi). simpl. destruct ok.
  - rewrite index_alter_imap by (specialize (Hr eq_refl); lia). f_equal.
    apply list_eq. intros i. rewrite !list_lookup_imap. destruct (pts !! i) eqn:E; simpl; [|done].
    apply lookup_lt_Some in E. rewrite Hi by (destruct Hw; lia). simpl.
    by destruct (decide (Z.of_nat i = idx)); [rewrite bool_decide_true|rewrite bool_decide_false].
  - f_equal. apply list_eq. intros i. rewrite !list_lookup_imap.
    destruct (pts !! i) eqn:E; simpl; [|done]. apply lookup_lt_Some in E.
    by rewrite Hi by (destruct Hw; lia).
Qed.

Lemma make_points {P} (zero : P) : make_slice buckets zero = Some (replicate (Z.to_nat buckets) zero).
Proof. unfold make_slice. destruct Hw as (_ & ? & _). by rewrite (proj2 (Z.ltb_ge _ _)) by lia. Qed.

Lemma start_point i :
  Z.of_nat i < buckets → TimeAdd start (bucket *64 Z.of_nat i) = start + bucket * Z.of_nat i.
Proof. intros. unfold TimeAdd. rewrite (window_mul _ buckets) by (done || lia). done. Qed.

(** Every instant of the window lies in one bucket, and no other instant in any. *)
Lemma sum_in_bucket t n :
  sumZ (map (λ i, if in_bucket start bucket i t then 1 else 0) (seq 0 n)) =
  if (start <=? t) && (t <? start + bucket * Z.of_nat n) then 1 else 0.
Proof.
  destruct Hw as (Hb & _ & _). induction n as [|n IH].
  - simpl. destruct (Z.leb_spec start t), (Z.ltb_spec t (start + bucket * Z.of_nat 0)); simpl; lia.
  - rewrite seq_S, map_app, sumZ_app, IH. simpl. unfold in_bucket.
    destruct (Z.leb_spec start t), (Z.ltb_spec t (start + bucket * Z.of_nat n)),
      (Z.leb_spec (start + bucket * Z.of_nat n) t),
      (Z.ltb_spec t (start + bucket * (Z.of_nat n + 1))),
      (Z.ltb_spec t (start + bucket * Z.of_nat (S n))); simpl; nia.
Qed.

Lemma sum_bucket_counts {A} (at_ : A → Z) (items : list A) :
  sumZ (map (λ i, count_if (λ a, in_bucket start bucket i (at_ a)) items)
    (seq 0 (Z.to_nat buckets))) =
  count_if (λ a, (start <=? at_ a) && (at_ a <? now)) items.
Proof.
  induction items as [|a items IH].
  - rewrite count_if_nil. rewrite <- (sumZ_map_zero (seq 0 (Z.to_nat buckets))). done.
  - rewrite count_if_cons, <- IH.
    replace (if (start <=? at_ a) && (at_ a <? now) then 1 else 0)
      with (sumZ (map (λ i, if in_bucket start bucket i (at_ a) then 1 else 0)
              (seq 0 (Z.to_nat buckets)))).
    + rewrite <- sumZ_map_add. f_equal. apply map_ext. intros i. by rewrite count_if_cons.
    + rewrite sum_in_bucket. destruct Hw as (_ & ? & _). rewrite Z2Nat.id by lia.
      by replace (start + bucket * buckets) with now by lia.
Qed.
End Window.

Lemma fold_count {A P} (test : A → bool) (f : P → P) (get : P → Z) (items : list A) p :
  (∀ p, get (f p) = get p + 1) →
  get (foldl (λ p a, if test a then f p else p) p items) = get p + count_if test items.
Proof.
  intros Hf. revert p. induction items as [|a items IH]; intros p; simpl.
  - rewrite count_if_nil. lia.
  - rewrite IH, count_if_cons. destruct (test a); rewrite ?Hf; lia.
Qed.

Lemma fold_keep {A P B} (test : A → bool) (f : P → P) (get : P → B) (items : list A) p :
  (∀ p, get (f p) = get p) →
  get (foldl (λ p a, if test a then f p else p) p items) = get p.
Proof.
  intros Hf. revert p. induction items as [|a items IH]; intros p; simpl; [done|].
  rewrite IH. by destruct (test a).
Qed.

Lemma DiscoveryCount_total apps start end_ :
  let t := DiscoveryCount apps start end_ in
  dt_Total t = count_if (λ a, (start <=? ap_At a) && (ap_At a <? end_)) apps ∧
  dt_Total t = dt_Names t + dt_Services t.
Proof.
  unfold DiscoveryCount.
  assert (H : ∀ t0, dt_Total t0 = dt_Names t0 + dt_Services t0 →
    let t := foldl (totals_step start end_) t0 apps in
    dt_Total t = dt_Total t0 + count_if (λ a, (start <=? ap_At a) && (ap_At a <? end_)) apps ∧
    dt_Total t = dt_Names t + dt_Services t).
  { induction apps as [|a apps IH]; intros t0 H0; simpl.
    - rewrite count_if_nil. lia.
    - rewrite count_if_cons. destruct (IH (totals_step start end_ t0 a)) as [H1 H2].
      + unfold totals_step, Before. destruct (Z.ltb_spec (ap_At a) start),
          (Z.ltb_spec (ap_At a) end_), (ap_Service a); simpl; lia.
      + split; [|done]. rewrite H1. unfold totals_step, Before.
        destruct (Z.ltb_spec (ap_At a) start), (Z.ltb_spec (ap_At a) end_),
          (Z.leb_spec start (ap_At a)); simpl; lia. }
  destruct (H (mkTotals 0 0 0)) as [H1 H2]; [done|]. simpl in H1. split; [lia|done].
Qed.

(** The discovery series is the window's history and nothing else: it never
    panics, bucket [i] starts at its instant and counts exactly the appearances
    within it, and the buckets sum to the [DiscoveryCount] total of the same
    half-open window, which its names and services partition. *)
Theorem DiscoverySeries_sums_to_count apps now bucket buckets :
  window_ok bucket buckets →
  let start := windowStart now bucket buckets in
  ∃ points, DiscoverySeries apps now bucket buckets = Some points ∧
    length points = Z.to_nat buckets ∧
    (∀ i p, points !! i = Some p →
       dp_Start p = start + bucket * Z.of_nat i ∧
       dp_Count p = count_if (λ a, in_bucket start bucket i (ap_At a)) apps) ∧
    sumZ (map dp_Count points) = dt_Total (DiscoveryCount apps start now) ∧
    dt_Total (DiscoveryCount apps start now) =
      dt_Names (DiscoveryCount apps start now) + dt_Services (DiscoveryCount apps start now).
Proof.
  intros Hw. unfold DiscoverySeries. rewrite windowStart_eq by done.
  set (start := now - bucket * buckets). rewrite (make_points bucket buckets Hw). simpl.
  set (pts := imap _ _).
  assert (Hlen : length pts = Z.to_nat buckets).
  { unfold pts. by rewrite length_imap, length_replicate. }
  rewrite (for_range_total (λ ps, length ps = Z.to_nat buckets) _
    (λ ps a, imap (λ i p, if in_bucket start bucket i (ap_At a)
       then mkDiscoveryPoint (dp_Start p) (dp_Count p + 1) else p) ps)); [|done|].
  2: { intros ps a _ Hl. split; [by apply (bucket_update now)|by rewrite length_imap]. }
  rewrite foldl_imap. eexists. split; [done|].
  assert (Hpt : ∀ i p, imap (λ i p, foldl (λ p a, if in_bucket start bucket i (ap_At a)
       then mkDiscoveryPoint (dp_Start p) (dp_Count p + 1) else p) p apps) pts !! i = Some p →
     dp_Start p = start + bucket * Z.of_nat i ∧
     dp_Count p = count_if (λ a, in_bucket start bucket i (ap_At a)) apps).
  { intros i p. rewrite list_lookup_imap. destruct (pts !! i) as [p0|] eqn:Ep; simpl; [|done].
    intros [= <-]. pose proof (lookup_lt_Some _ _ _ Ep) as Hlt.
    unfold pts in Ep. rewrite list_lookup_imap in Ep.
    rewrite lookup_replicate_2 in Ep by lia. simpl in Ep. simplify_eq.
    rewrite (fold_keep _ _ dp_Start), (fold_count _ _ dp_Count) by done. simpl.
    split; [|lia]. apply (start_point now bucket buckets Hw). destruct Hw; lia. }
  split; [by rewrite length_imap|]. split; [done|].
  pose proof (DiscoveryCount_total apps start now) as [Ht Hns]. split; [|done].
  pose proof (sum_bucket_counts now bucket buckets Hw ap_At apps) as Hs. fold start in Hs.
  rewrite Ht, <- Hs.
  f_equal. apply list_eq. intros i. rewrite !list_lookup_fmap.
  destruct (decide (i < Z.to_nat buckets)%nat) as [Hi|Hi].
  - rewrite lookup_seq_lt by done. simpl.
    destruct (lookup_lt_is_Some_2 (imap (λ i p, foldl (λ p a, if in_bucket start bucket i (ap_At a)
       then mkDiscoveryPoint (dp_Start p) (dp_Count p + 1) else p) p apps) pts) i) as [p Hp];
      [by rewrite length_imap, Hlen|].
    rewrite Hp. simpl. f_equal. by apply Hpt.
  - rewrite lookup_seq_ge by lia. rewrite lookup_ge_None_2; [done|]. rewrite length_imap. lia.
Qed.

Lemma DiscoverySeries_sums_to_count_witness :
  let apps := [mkAppearance 1005 true; mkAppearance 1015 false; mkAppearance 2000 true] in
  ∃ points, DiscoverySeries apps 1020 10 2 = Some points ∧
    sumZ (map dp_Count points) = dt_Total (DiscoveryCount apps (windowStart 1020 10 2) 1020).
Proof.
  destruct (DiscoverySeries_sums_to_count
    [mkAppearance 1005 true; mkAppearance 1015 false; mkAppearance 2000 true] 1020 10 2)
    as (points & H1 & _ & _ & H2 & _).
  - split; [reflexivity|split; [discriminate|discriminate]].
  - exists points. split; [exact H1|exact H2].
Defined.

(** ** The signal series *)

Definition signal_point_step (start bucket : Z) (rs : Raise) (i : nat) (p : SignalPoint)
    : SignalPoint :=
  let p := if in_bucket start bucket i (ra_At rs) then raise_point (ra_Elevated rs) p else p in
  if Before (ra_At rs) (start + bucket * (Z.of_nat i + 1)) then stand_point (ra_Elevated rs) p else p.

Lemma signal_step_imap now bucket buckets pts rs :
  window_ok bucket buckets → length pts = Z.to_nat buckets →
  signal_step (now - bucket * buckets) bucket buckets pts rs =
    Some (imap (signal_point_step (now - bucket * buckets) bucket rs) pts).
Proof.
  intros Hw Hl. pose proof (bucket_update now bucket buckets Hw
    (raise_point (ra_Elevated rs)) pts (ra_At rs) Hl) as Hb.
  unfold signal_step. destruct (bucketIndex _ _ _ _) as [[idx ok]|]; simpl in *; [|done].
  rewrite Hb. simpl. f_equal. apply list_eq. intros i. rewrite !list_lookup_imap.
  destruct (pts !! i) as [p|] eqn:Ep; simpl; [|done]. apply lookup_lt_Some in Ep.
  rewrite (window_mul _ buckets) by (done || (destruct Hw; lia)). done.
Qed.

Lemma fold_signal_point start bucket i raises p :
  let q := foldl (λ p rs, signal_point_step start bucket rs i p) p raises in
  sg_Start q = sg_Start p ∧
  sg_Count q = sg_Count p + count_if (λ r, in_bucket start bucket i (ra_At r)) raises ∧
  sg_Elevated q = sg_Elevated p +
    count_if (λ r, in_bucket start bucket i (ra_At r) && ra_Elevated r) raises ∧
  sg_Standing q = sg_Standing p +
    count_if (λ r, ra_At r <? start + bucket * (Z.of_nat i + 1)) raises ∧
  sg_StandingElevated q = sg_StandingElevated p +
    count_if (λ r, (ra_At r <? start + bucket * (Z.of_nat i + 1)) && ra_Elevated r) raises.
Proof.
  revert p. induction raises as [|r raises IH]; intros p; simpl.
  { rewrite !count_if_nil. repeat split; lia. }
  destruct (IH (signal_point_step start bucket r i p)) as (-> & -> & -> & -> & ->).
  rewrite !count_if_cons. unfold signal_point_step, Before, raise_point, stand_point.
  destruct (in_bucket start bucket i (ra_At r)), (ra_At r <? start + bucket * (Z.of_nat i + 1)),
    (ra_Elevated r); simpl; repeat split; lia.
Qed.

(** The signal series reads the same buckets as discovery: it never panics,
    bucket [i] counts the raises within it, and its standing level counts every
    raise before the bucket's end, a raise from before the window included. *)
Theorem SignalsOverTime_spec raises now bucket buckets :
  window_ok bucket buckets →
  let start := windowStart now bucket buckets in
  ∃ points, SignalsOverTime raises now bucket buckets = Some points ∧
    length points = Z.to_nat buckets ∧
    ∀ i p, points !! i = Some p →
      sg_Start p = start + bucket * Z.of_nat i ∧
      sg_Count p = count_if (λ r, in_bucket start bucket i (ra_At r)) raises ∧
      sg_Elevated p = count_if (λ r, in_bucket start bucket i (ra_At r) && ra_Elevated r) raises ∧
      sg_Standing p = count_if (λ r, ra_At r <? start + bucket * (Z.of_nat i + 1)) raises ∧
      sg_StandingElevated p =
        count_if (λ r, (ra_At r <? start + bucket * (Z.of_nat i + 1)) && ra_Elevated r) raises.
Proof.
  intros Hw. unfold SignalsOverTime. rewrite windowStart_eq by done.
  rewrite (make_points bucket buckets Hw). simpl. set (pts := imap _ _).
  assert (Hlen : length pts = Z.to_nat buckets).
  { unfold pts. by rewrite length_imap, length_replicate. }
  rewrite (for_range_total (λ ps, length ps = Z.to_nat buckets) _
    (λ ps r, imap (signal_point_step (now - bucket * buckets) bucket r) ps)); [|done|].
  2: { intros ps r _ Hl. split; [by apply signal_step_imap|by rewrite length_imap]. }
  rewrite foldl_imap. eexists. split; [done|]. split; [by rewrite length_imap|].
  intros i p. rewrite list_lookup_imap. destruct (pts !! i) as [p0|] eqn:Ep; simpl; [|done].
  intros [= <-]. pose proof (lookup_lt_Some _ _ _ Ep) as Hlt.
  unfold pts in Ep. rewrite list_lookup_imap, lookup_replicate_2 in Ep by lia.
  simpl in Ep. simplify_eq.
  destruct (fold_signal_point (now - bucket * buckets) bucket i raises
    (mkSignalPoint (TimeAdd (now - bucket * buckets) (bucket *64 Z.of_nat i)) 0 0 0 0))
    as (-> & -> & -> & -> & ->). simpl.
  split; [|repeat split; lia]. apply (start_point now bucket buckets Hw). destruct Hw; lia.
Qed.

Lemma SignalsOverTime_spec_witness :
  ∃ points, SignalsOverTime [mkRaise 5 true; mkRaise 1015 false] 1020 10 2 = Some points ∧
    length points = 2%nat.
Proof.
  destruct (SignalsOverTime_spec [mkRaise 5 true; mkRaise 1015 false] 1020 10 2)
    as (points & H1 & H2 & _).
  - split; [reflexivity|split; [discriminate|discriminate]].
  - exists points. split; [exact H1|exact H2].
Defined.

(** ** The heat ramp *)

Lemma heat_max_ge counts : 1 ≤ heat_max counts ∧ ∀ c, c ∈ counts → c ≤ heat_max counts.
Proof.
  unfold heat_max.
  assert (H : ∀ m, m ≤ foldl (λ m c, if m <? c then c else m) m counts ∧
    ∀ c, c ∈ counts → c ≤ foldl (λ m c, if m <? c then c else m) m counts).
  { induction counts as [|x counts IH]; intros m; simpl.
    - split; [lia|]. intros c Hc. inv Hc.
    - destruct (IH (if m <? x then x else m)) as [H1 H2]. destruct (Z.ltb_spec m x).
      + split; [lia|]. intros c [->|Hc]%elem_of_cons; [lia|by apply H2].
      + split; [lia|]. intros c [->|Hc]%elem_of_cons; [lia|by apply H2]. }
  apply (H 1).
Qed.

Lemma heat_max_attained counts : heat_max counts = 1 ∨ heat_max counts ∈ counts.
Proof.
  unfold heat_max. generalize 1 as m. induction counts as [|x counts IH]; intros m; simpl; [by left|].
  destruct (IH (if m <? x then x else m)) as [->|H].
  - destruct (m <? x); [right; left|by left].
  - right. by right.
Qed.

Lemma heat_level_exact mx c :
  0 < c ≤ mx → mx ≤ maxInt64 / 8 → heat_level mx c = (c * 4 + mx - 1) / mx.
Proof.
  intros Hc Hm. unfold heat_level, heatSteps. unfold maxInt64 in Hm.
  assert (Hm' : mx ≤ 1152921504606846975) by (etrans; [exact Hm|done]).
  rewrite (proj2 (Z.leb_gt _ _)) by lia. cbv zeta.
  rewrite (wrap64_id (c * 4)) by (unfold in_int64, minInt64, maxInt64; lia).
  rewrite (wrap64_id (c * 4 + mx)) by (unfold in_int64, minInt64, maxInt64; lia).
  rewrite (wrap64_id (c * 4 + mx - 1)) by (unfold in_int64, minInt64, maxInt64; lia).
  rewrite Z.quot_div_nonneg by lia.
  assert (1 ≤ (c * 4 + mx - 1) / mx) by (apply Z.div_le_lower_bound; lia).
  assert ((c * 4 + mx - 1) / mx < 5) by (apply Z.div_lt_upper_bound; lia).
  rewrite wrap64_id by (unfold in_int64, minInt64, maxInt64; lia).
  destruct (Z.ltb_spec ((c * 4 + mx - 1) / mx) 1); [lia|]. by rewrite (proj2 (Z.ltb_ge _ _)) by lia.
Qed.

(** The heat ramp: every level is in [0..4], whatever the counts (wrapping
    arithmetic included), and is [0] exactly for a day with nothing; below
    2{^60} the level is the quartile of the busiest day, so a busier day is never
    drawn cooler and the busiest one is [4]. *)
Theorem HeatLevels_ramp counts :
  length (HeatLevels counts) = length counts ∧
  (∀ i c l, counts !! i = Some c → HeatLevels counts !! i = Some l →
     0 ≤ l ≤ 4 ∧ (l = 0 ↔ c ≤ 0)) ∧
  (heat_max counts ≤ maxInt64 / 8 →
     (∀ i j c d l m, counts !! i = Some c → counts !! j = Some d → c ≤ d →
        HeatLevels counts !! i = Some l → HeatLevels counts !! j = Some m → l ≤ m) ∧
     (∀ i c, counts !! i = Some c → 0 < c → c = heat_max counts →
        HeatLevels counts !! i = Some 4)).
Proof.
  destruct (heat_max_ge counts) as [H1 Hge].
  assert (Hb : ∀ c, 0 ≤ heat_level (heat_max counts) c ≤ 4 ∧
    (heat_level (heat_max counts) c = 0 ↔ c ≤ 0)).
  { intros c. unfold heat_level, heatSteps. split_ifs; lia. }
  unfold HeatLevels. split; [by rewrite length_map|]. split.
  { intros i c l Hi Hl. rewrite list_lookup_fmap, Hi in Hl. simpl in Hl. simplify_eq. apply Hb. }
  intros Hm. split.
  - intros i j c d l m Hi Hj Hcd Hl Hm'. rewrite list_lookup_fmap in Hl, Hm'.
    rewrite Hi in Hl. rewrite Hj in Hm'. simpl in *. simplify_eq.
    destruct (Z.le_gt_cases c 0) as [Hc|Hc].
    { destruct (Hb c) as [_ [_ Hz]]. rewrite Hz by done. apply Hb. }
    assert (d ≤ heat_max counts) by (by eapply Hge, list_elem_of_lookup_2).
    rewrite !heat_level_exact by lia. apply Z.div_le_mono; lia.
  - intros i c Hi Hc Heq. rewrite list_lookup_fmap, Hi. simpl. f_equal.
    rewrite heat_level_exact by lia. rewrite <- Heq.
    symmetry. apply Z.div_unique with (c - 1); lia.
Qed.

(** ** Withdrawals *)

Definition usable (w : Withdrawal) : bool := (Withdrawal_Duration w).2.
Definition duration (w : Withdrawal) : Z := (Withdrawal_Duration w).1.

(** The exact total of the usable durations of a selection of withdrawals. *)
Definition total_duration (sel : Withdrawal → bool) (ws : list Withdrawal) : Z :=
  sumZ (map duration (filter (λ w, usable w && sel w) ws)).

Lemma Withdrawal_Duration_spec w :
  (usable w = true ↔
     wd_Appeared w ≠ zeroTime ∧ wd_Withdrawn w ≠ zeroTime ∧ wd_Appeared w < wd_Withdrawn w) ∧
  0 ≤ duration w ∧ (usable w = true → 0 < duration w).
Proof.
  unfold usable, duration, Withdrawal_Duration, IsZero, After, zeroTime, TimeSub, minInt64, maxInt64.
  destruct (Z.eqb_spec (wd_Appeared w) 0), (Z.eqb_spec (wd_Withdrawn w) 0),
    (Z.ltb_spec (wd_Appeared w) (wd_Withdrawn w)); simpl; split_ifs; naive_solver lia.
Qed.

Lemma total_duration_cons sel w ws :
  total_duration sel (w :: ws) =
    (if usable w && sel w then duration w else 0) + total_duration sel ws.
Proof. unfold total_duration. rewrite filter_cons. destruct (usable w && sel w); done. Qed.

Lemma total_duration_nonneg sel ws : 0 ≤ total_duration sel ws.
Proof.
  induction ws as [|w ws IH]; [done|]. rewrite total_duration_cons.
  destruct (Withdrawal_Duration_spec w) as (_ & ? & _). destruct (_ && _); lia.
Qed.

Lemma mean_fold ws t n :
  0 ≤ t → t + total_duration (λ _, true) ws ≤ maxInt64 →
  foldl mean_step (t, n) ws = (t + total_duration (λ _, true) ws, n + count_if usable ws).
Proof.
  revert t n. induction ws as [|w ws IH]; intros t n Ht Hs; simpl.
  { rewrite count_if_nil. unfold total_duration. simpl. f_equal; lia. }
  rewrite total_duration_cons in Hs. rewrite total_duration_cons, count_if_cons.
  pose proof (total_duration_nonneg (λ _, true) ws).
  destruct (Withdrawal_Duration_spec w) as (_ & Hd & _).
  unfold mean_step, usable, duration in *. destruct (Withdrawal_Duration w) as [d [|]]; simpl in *.
  - rewrite wrap64_id by (unfold in_int64, minInt64, maxInt64 in *; lia).
    rewrite IH by lia. f_equal; lia.
  - rewrite IH by lia. done.
Qed.

(** The mean time to withdrawal never panics; it is reported exactly where a
    usable interval exists, and where the durations fit a [Duration] it is their
    truncated mean: [n] usable intervals totalling [T] give [m] with
    [n * m <= T < n * (m + 1)]. *)
Theorem MeanTimeToWithdrawal_spec ws :
  total_duration (λ _, true) ws ≤ maxInt64 →
  ∃ m ok, MeanTimeToWithdrawal ws = Some (m, ok) ∧
    (ok = true ↔ ∃ w, w ∈ ws ∧ usable w = true) ∧
    (ok = true →
       count_if usable ws * m ≤ total_duration (λ _, true) ws < count_if usable ws * (m + 1)).
Proof.
  intros Hs. unfold MeanTimeToWithdrawal. rewrite mean_fold by lia. rewrite !Z.add_0_l.
  pose proof (count_if_bounds usable ws) as [Hc _].
  pose proof (total_duration_nonneg (λ _, true) ws) as Ht.
  assert (Hex : 0 < count_if usable ws ↔ ∃ w, w ∈ ws ∧ usable w = true).
  { clear. induction ws as [|w ws IH].
    - rewrite count_if_nil. split; [lia|]. intros (w & Hw & _). inv Hw.
    - rewrite count_if_cons. pose proof (count_if_bounds usable ws). destruct (usable w) eqn:E.
      + split; [|lia]. intros _. exists w. split; [left|done].
      + rewrite Z.add_0_l, IH. split.
        * intros (v & ? & ?). exists v. split; [by right|done].
        * intros (v & [->|?]%elem_of_cons & ?); [congruence|by exists v]. }
  destruct (Z.eqb_spec (count_if usable ws) 0) as [E|E].
  - eexists _, _. split; [done|]. split; [|done]. rewrite <- Hex. split; [done|lia].
  - unfold go_div64. rewrite (proj2 (Z.eqb_neq _ _)) by done. simpl.
    eexists _, _. split; [done|]. split; [rewrite <- Hex; lia|]. intros _.
    rewrite Z.quot_div_nonneg by lia.
    pose proof (Z.mul_div_le (total_duration (λ _, true) ws) (count_if usable ws)).
    pose proof (Z.mul_succ_div_gt (total_duration (λ _, true) ws) (count_if usable ws)).
    rewrite wrap64_id; [lia|]. unfold in_int64, minInt64. split.
    + pose proof (Z.div_pos (total_duration (λ _, true) ws) (count_if usable ws)). lia.
    + etrans; [apply Z.div_le_upper_bound with (q := total_duration (λ _, true) ws); nia|done].
Qed.

Lemma MeanTimeToWithdrawal_spec_witness :
  ∃ m ok, MeanTimeToWithdrawal [mkWithdrawal 10 30; mkWithdrawal 5 0] = Some (m, ok) ∧
    (ok = true ↔ ∃ w, w ∈ [mkWithdrawal 10 30; mkWithdrawal 5 0] ∧ usable w = true).
Proof.
  destruct (MeanTimeToWithdrawal_spec [mkWithdrawal 10 30; mkWithdrawal 5 0]) as (m & ok & H1 & H2 & _).
  - discriminate.
  - exists m, ok. split; [exact H1|exact H2].
Defined.
