(* ===== verification/Retention.v ===== *)
(** * Retention ([internal/retention])

    Models [retention.go], [observation.go], [transcript.go] and [panel.go]:
    cutoffs, floors, the row-level retention rule, the three sweeps over the
    stores they are given, and the panel's floors, clamps, projection and dial.
    The stores are parameters: computations over a world, [None] being an error.
    The tickers of [Run] and the log are not modelled. *)

From S2P Require Import Prelude GoTime.

Definition FloorCadences : Z := 2.
Definition SecondsPerDay : Z := 86400.

(** ** Cutoffs *)

Definition BelowFloor (multiple : Z) : bool := (0 <? multiple) && (multiple <? FloorCadences).

(** [(cutoff, bounded)]. *)
Definition Cutoff (now multiple slowestCadenceSeconds : Z) : Z * bool :=
  if (multiple <=? 0) || (slowestCadenceSeconds <=? 0) then (zeroTime, false)
  else
    let window := (multiple *64 slowestCadenceSeconds) *64 Second in
    (TimeAdd now (wrap64 (- window)), true).

Definition TranscriptFloorDays : Z := 1.

Definition TranscriptWindowDays (dialDays : Z) : Z * bool :=
  if dialDays <=? 0 then (0, false)
  else if dialDays <? TranscriptFloorDays then (TranscriptFloorDays, true)
  else (dialDays, true).

Definition TranscriptCutoff (now dialDays : Z) : Z * bool :=
  let '(days, bounded) := TranscriptWindowDays dialDays in
  if negb bounded then (zeroTime, false)
  else
    let window := (days *64 SecondsPerDay) *64 Second in
    (TimeAdd now (wrap64 (- window)), true).

(** ** Observations *)

Definition ObservationBoundSeconds (tightest : Z) : Z * bool :=
  if tightest <=? 0 then (0, false) else (FloorCadences *64 tightest, true).

Definition ObservationFloorDays (tightest : Z) : Z * bool :=
  let '(bound, ok) := ObservationBoundSeconds tightest in
  if negb ok then (0, false)
  else ((bound +64 SecondsPerDay -64 1) /64 SecondsPerDay, true).

Definition BelowObservationFloor (dialDays tightest : Z) : bool :=
  let '(floor, ok) := ObservationFloorDays tightest in
  if negb ok then false else (0 <? dialDays) && (dialDays <? floor).

Inductive Tier := Live | Evidential.

#[export] Instance Tier_eq : EqDecision Tier.
Proof. solve_decision. Defined.

Definition TierOf (ageSeconds boundSeconds : Z) (hasBound : bool) : Tier :=
  if hasBound && (ageSeconds <=? boundSeconds) then Live else Evidential.

Definition RetainObservation (ageSeconds boundSeconds dialSeconds : Z) (hasBound withdrawn : bool)
    : bool :=
  if withdrawn then if dialSeconds <=? 0 then true else ageSeconds <=? dialSeconds
  else if negb hasBound then true
  else if ageSeconds <=? boundSeconds then true
  else if dialSeconds <=? 0 then true
  else ageSeconds <=? dialSeconds.

Record AgedObservation := mkAged {
  ao_ID : Z; ao_AgeSeconds : Z; ao_BoundSeconds : Z; ao_HasBound : bool
}.

Definition LiveOnly (rows : list AgedObservation) : list AgedObservation :=
  filter (λ r, TierOf (ao_AgeSeconds r) (ao_BoundSeconds r) (ao_HasBound r) = Live) rows.

(** ** The sweeps *)

Record RetentionSettings := mkSettings {
  ObservationCurrencyDays : Z; DispatchCadenceMultiple : Z; TranscriptCurrencyDays : Z
}.

Section Sweeps.
Context {W : Type} (now : Z).
Context (GetRetentionSettings : St W (option RetentionSettings))
  (SlowestEnabledScanCadenceSeconds : St W (option Z))
  (ListDispatchesAPendingReleaseMayRead : Z → St W (option (list Z)))
  (DeleteExpiredDispatches : Z → list Z → St W (option Z))
  (DeleteExpiredObservations : Z → Z → Z → St W (option Z))
  (DeleteExpiredTranscripts : Z → St W (option Z)).

(** [Retirer.Sweep]. *)
Definition Retirer_Sweep : St W (option Z) :=
  r ← GetRetentionSettings;
  match r with
  | None => mret None
  | Some settings =>
      c ← SlowestEnabledScanCadenceSeconds;
      match c with
      | None => mret None
      | Some cadence =>
          let '(cutoff, bounded) := Cutoff now (DispatchCadenceMultiple settings) cadence in
          if negb bounded then mret (Some 0)
          else
            l ← ListDispatchesAPendingReleaseMayRead cutoff;
            match l with
            | None => mret None
            | Some stillRead => DeleteExpiredDispatches cutoff stillRead
            end
      end
  end.

(** [ObservationRetirer.Sweep]. *)
Definition ObservationRetirer_Sweep : St W (option Z) :=
  r ← GetRetentionSettings;
  match r with
  | None => mret None
  | Some settings =>
      let dialSeconds := ObservationCurrencyDays settings *64 SecondsPerDay in
      if dialSeconds <=? 0 then mret (Some 0)
      else DeleteExpiredObservations dialSeconds FloorCadences now
  end.

(** [TranscriptRetirer.Sweep]. *)
Definition TranscriptRetirer_Sweep : St W (option Z) :=
  r ← GetRetentionSettings;
  match r with
  | None => mret None
  | Some settings =>
      let '(cutoff, bounded) := TranscriptCutoff now (TranscriptCurrencyDays settings) in
      if negb bounded then mret (Some 0) else DeleteExpiredTranscripts cutoff
  end.
End Sweeps.

(** ** The panel *)

Record ScanCadence := mkCadence { sc_Kind : string; sc_CadenceSeconds : Z; sc_Covers : bool }.

Record FloorExpression := mkFloor { fe_Multiple : Z; fe_ScanKind : string; fe_CadenceSeconds : Z }.

Definition Floor_Bounded (f : FloorExpression) : bool :=
  negb (String.eqb (fe_ScanKind f) "") && (0 <? fe_CadenceSeconds f) && (0 <? fe_Multiple f).

Definition Floor_Seconds (f : FloorExpression) : Z :=
  if negb (Floor_Bounded f) then 0 else fe_Multiple f *64 fe_CadenceSeconds f.

Definition Floor_Days (f : FloorExpression) : Z :=
  if negb (Floor_Bounded f) then 0
  else (Floor_Seconds f +64 SecondsPerDay -64 1) /64 SecondsPerDay.

Definition pick_step (tighter : Z → Z → bool) (best s : ScanCadence) : ScanCadence :=
  if sc_CadenceSeconds s <=? 0 then best
  else if (sc_CadenceSeconds best =? 0) || tighter (sc_CadenceSeconds s) (sc_CadenceSeconds best) ||
          ((sc_CadenceSeconds s =? sc_CadenceSeconds best) && str_less (sc_Kind s) (sc_Kind best))
  then s else best.

Definition pickScan (scans : list ScanCadence) (tighter : Z → Z → bool) : FloorExpression :=
  let best := foldl (pick_step tighter) (mkCadence "" 0 false) scans in
  if sc_CadenceSeconds best =? 0 then mkFloor FloorCadences "" 0
  else mkFloor FloorCadences (sc_Kind best) (sc_CadenceSeconds best).

Definition ObservationFloor (scans : list ScanCadence) : FloorExpression :=
  pickScan (filter (λ s, sc_Covers s = true) scans) Z.ltb.

Definition DispatchFloor (scans : list ScanCadence) : FloorExpression :=
  pickScan scans (λ a b, b <? a).

Record PairFloor := mkPair { pf_Facet : string; pf_Source : string; pf_Floor : FloorExpression; pf_Rows : Z }.

Definition pair_less (a b : PairFloor) : bool :=
  if negb (Bool.eqb (Floor_Bounded (pf_Floor a)) (Floor_Bounded (pf_Floor b)))
  then Floor_Bounded (pf_Floor a)
  else if negb (Floor_Seconds (pf_Floor a) =? Floor_Seconds (pf_Floor b))
  then Floor_Seconds (pf_Floor a) <? Floor_Seconds (pf_Floor b)
  else if negb (String.eqb (pf_Facet a) (pf_Facet b)) then str_less (pf_Facet a) (pf_Facet b)
  else str_less (pf_Source a) (pf_Source b).

Definition SortPairFloors (pairs : list PairFloor) : list PairFloor := sort_stable pair_less pairs.

(** *** Clamps *)

Inductive ClampKind := ClampBatch | ClampBreak | ClampRetention.

#[export] Instance ClampKind_eq : EqDecision ClampKind.
Proof. solve_decision. Defined.

Definition kind_rank (k : ClampKind) : Z :=
  match k with ClampBatch => 0 | ClampBreak => 1 | ClampRetention => 2 end.

Record Clamp := mkClamp {
  cl_Kind : ClampKind; cl_Label : string; cl_Leaf : string; cl_At : Z; cl_Bounded : bool
}.

Record ClampRow := mkRow { row_Clamp : Clamp; row_Binding : bool; row_Inert : bool }.

Definition clamp_less (a b : Clamp) : bool :=
  if negb (Bool.eqb (cl_Bounded a) (cl_Bounded b)) then cl_Bounded a
  else if negb (TimeEqual (cl_At a) (cl_At b)) then After (cl_At a) (cl_At b)
  else kind_rank (cl_Kind a) <? kind_rank (cl_Kind b).

Definition is_retention (r : ClampRow) : bool := bool_decide (cl_Kind (row_Clamp r) = ClampRetention).

(** The first row of a test, [-1] when there is none. *)
Definition first_index {A} (P : A → bool) (l : list A) : Z :=
  match list_find (λ x, P x = true) l with Some (i, _) => Z.of_nat i | None => -1 end.

Definition mark_inert (tightest : Z) (i : nat) (r : ClampRow) : ClampRow :=
  if negb (is_retention r) then r
  else if negb (cl_Bounded (row_Clamp r)) || (tightest =? -1) || (Z.of_nat i <? tightest)
  then mkRow (row_Clamp r) (row_Binding r) true else r.

Definition OrderClamps (clamps : list Clamp) : list ClampRow :=
  let rows := sort_stable (λ a b, clamp_less (row_Clamp a) (row_Clamp b))
                (map (λ c, mkRow c false false) clamps) in
  let tightest := first_index (λ r, negb (is_retention r) && cl_Bounded (row_Clamp r)) rows in
  let rows := imap (mark_inert tightest) rows in
  let binding := first_index (λ r, negb (row_Inert r) && cl_Bounded (row_Clamp r)) rows in
  imap (λ i r, if Z.of_nat i =? binding then mkRow (row_Clamp r) true (row_Inert r) else r) rows.

(** *** Projection and dial *)

Definition BytesPerObservation : Z := 142.

Record Projection := mkProjection {
  RowsHeld : Z; BytesHeld : Z; HasDenominator : bool; RowsPerYear : Z; BytesPerYear : Z
}.

Definition Project (rowsHeld declaredAddresses rowsPerAddressPerYear : Z) : Projection :=
  let p := mkProjection rowsHeld (rowsHeld *64 BytesPerObservation) false 0 0 in
  if (declaredAddresses <=? 0) || (rowsPerAddressPerYear <=? 0) then p
  else if maxInt64 /64 rowsPerAddressPerYear <? declaredAddresses then p
  else
    let rows := declaredAddresses *64 rowsPerAddressPerYear in
    if maxInt64 /64 BytesPerObservation <? rows then p
    else mkProjection rowsHeld (rowsHeld *64 BytesPerObservation) true rows
           (rows *64 BytesPerObservation).

Definition DialStops (floor : Z) (ladder : list Z) : list Z :=
  let floor := if floor <? 1 then 1 else floor in
  floor :: filter (λ v, floor < v) ladder.

Definition ClampToFloor (value floor : Z) : Z :=
  if (value <=? 0) || (floor <=? 0) then value else if value <? floor then floor else value.

(** *** Derivation vectors *)

Record DerivationComponent := mkDerivation { dc_Leaf : string; dc_Version : string }.

Section Vectors.
(** [json.Unmarshal] into the component slice; [None] is its error. *)
Variable json_components : string → option (list DerivationComponent).

Definition decodeVector (raw : string) : option (gmap string string) :=
  if String.eqb raw "" then Some ∅
  else comps ← json_components raw; Some (foldl (λ m c, <[dc_Leaf c := dc_Version c]> m) ∅ comps).

(** The two ranges over maps end in a sort of distinct leaves. *)
Definition moved_leaves (prev cur : gmap string string) : list string :=
  sort_strings
    (map fst (filter (λ kv, prev !! kv.1 ≠ Some kv.2) (map_to_list cur)) ++
     map fst (filter (λ kv, cur !! kv.1 = None) (map_to_list prev))).

(** A [nil] slice on an undecodable vector. *)
Definition MovedLeaves (previous current : string) : list string :=
  match decodeVector previous, decodeVector current with
  | Some prev, Some cur => moved_leaves prev cur
  | _, _ => []
  end.
End Vectors.

(** ** Windows *)

Lemma wrap64_over z : 2 ^ 63 ≤ z < 2 ^ 64 + 2 ^ 63 → wrap64 z = z - 2 ^ 64.
Proof.
  intros Hz. unfold wrap64. rewrite <- (Z.mod_unique (z + 2 ^ 63) (2 ^ 64) 1 (z + 2 ^ 63 - 2 ^ 64)); lia.
Qed.

(** A transcript window is exact for as long as a duration can hold it, and
    no longer.  A dial of up to 106751 days cuts off exactly that long ago and
    zero or less is unbounded; from 106752 days the window wraps negative, and
    the cutoff is after now: every transcript is then expired. *)
Theorem TranscriptCutoff_horizon now days :
  (days ≤ 0 → (TranscriptCutoff now days).2 = false) ∧
  (1 ≤ days ≤ 106751 → TranscriptCutoff now days = (now - days * (24 * Hour), true)) ∧
  (106752 ≤ days ≤ 213503 →
     (TranscriptCutoff now days).2 = true ∧ now < (TranscriptCutoff now days).1).
Proof.
  unfold TranscriptCutoff, TranscriptWindowDays, TranscriptFloorDays, TimeAdd, SecondsPerDay.
  assert (Hs : Second = 1000000000) by done. assert (Hh : Hour = 3600000000000) by done.
  rewrite Hs, Hh. split_and!; intros Hd.
  - by rewrite (proj2 (Z.leb_le _ _)) by lia.
  - rewrite (proj2 (Z.leb_gt _ _)), (proj2 (Z.ltb_ge _ _)) by lia. cbn [negb].
    assert (Hi : ∀ z, - 2 ^ 63 < z < 2 ^ 63 → wrap64 z = z)
      by (intros; apply wrap64_id; unfold in_int64, minInt64, maxInt64; lia).
    rewrite (Hi (days * 86400)), (Hi (days * 86400 * 1000000000)), Hi by lia. f_equal. lia.
  - rewrite (proj2 (Z.leb_gt _ _)), (proj2 (Z.ltb_ge _ _)) by lia. cbn [negb fst snd].
    split; [done|]. rewrite (wrap64_id (days * 86400)) by (unfold in_int64, minInt64, maxInt64; lia).
    rewrite (wrap64_over (days * 86400 * 1000000000)) by lia. rewrite wrap64_id by (unfold in_int64, minInt64, maxInt64; lia). lia.
Qed.

(** A dial of zero keeps everything.  When the settings are read, each of the
    three sweeps with its dial at zero or below retires nothing and reaches no
    further call of its store than the ones that read; a store that fails to read
    them stops the sweep at once. *)
Theorem Sweep_unbounded_retires_nothing {W} now get slowest list_read del_d del_o del_t
    (w : W) :
  match get w with
  | (None, w') =>
      Retirer_Sweep now get slowest list_read del_d w = (None, w') ∧
      ObservationRetirer_Sweep now get del_o w = (None, w') ∧
      TranscriptRetirer_Sweep now get del_t w = (None, w')
  | (Some settings, w') =>
      (DispatchCadenceMultiple settings ≤ 0 →
         Retirer_Sweep now get slowest list_read del_d w =
           let '(c, w'') := slowest w' in ((λ _, 0) <$> c, w'')) ∧
      (in_int64 (ObservationCurrencyDays settings * SecondsPerDay) →
       ObservationCurrencyDays settings ≤ 0 →
         ObservationRetirer_Sweep now get del_o w = (Some 0, w')) ∧
      (TranscriptCurrencyDays settings ≤ 0 →
         TranscriptRetirer_Sweep now get del_t w = (Some 0, w'))
  end.
Proof.
  unfold Retirer_Sweep, ObservationRetirer_Sweep, TranscriptRetirer_Sweep.
  unfold mbind, St_bind, mret, St_ret. destruct (get w) as [[settings|] w']; [|done].
  split_and!.
  - intros Hd. destruct (slowest w') as [[c|] w'']; [|done]. unfold Cutoff.
    by rewrite (proj2 (Z.leb_le _ _)) by lia.
  - intros Hi Hd. rewrite wrap64_id by done.
    by rewrite (proj2 (Z.leb_le _ _)) by (unfold SecondsPerDay; lia).
  - intros Hd. unfold TranscriptCutoff, TranscriptWindowDays.
    by rewrite (proj2 (Z.leb_le _ _)) by lia.
Qed.

(** ** The observation dial *)

(** The floor is where the dial starts to bite.  Over a covering cadence [t]
    and a positive dial of [d] days, a row under the tightest bound is kept by
    its bound alone while the dial is below the floor, and by the dial alone
    from the floor on; and whatever the dial, a live row that is not withdrawn
    is never discarded. *)
Theorem ObservationFloor_is_where_the_dial_bites t d age :
  0 < t ≤ 2 ^ 60 → 0 < d ≤ 2 ^ 46 →
  let dial := d * SecondsPerDay in
  RetainObservation age (2 * t) dial true false =
    (if BelowObservationFloor d t then age <=? 2 * t else age <=? dial) ∧
  (∀ bound hasBound dial', TierOf age bound hasBound = Live →
     RetainObservation age bound dial' hasBound false = true).
Proof.
  intros Ht Hd dial. split.
  - unfold BelowObservationFloor, ObservationFloorDays, ObservationBoundSeconds, FloorCadences.
    rewrite (proj2 (Z.leb_gt t 0)) by lia. cbn [negb].
    assert (HS : SecondsPerDay = 86400) by done. subst dial. rewrite HS in *.
    assert (Hi : ∀ z, 0 ≤ z ≤ 2 ^ 62 → wrap64 z = z)
      by (intros; apply wrap64_id; unfold in_int64, minInt64, maxInt64; lia).
    rewrite (Hi (2 * t)), (Hi (2 * t + 86400)), (Hi (2 * t + 86400 - 1)) by lia.
    rewrite Z.quot_div_nonneg by lia.
    pose proof (Z.mul_div_le (2 * t + 86400 - 1) 86400 ltac:(lia)).
    pose proof (Z.mul_succ_div_gt (2 * t + 86400 - 1) 86400 ltac:(lia)).
    set (f := (2 * t + 86400 - 1) / 86400) in *. rewrite Hi by lia.
    unfold RetainObservation. cbn [negb]. rewrite (proj2 (Z.leb_gt (d * 86400) 0)) by lia.
    rewrite (proj2 (Z.ltb_lt 0 d)) by lia. cbn [andb].
    destruct (Z.ltb_spec d f), (Z.leb_spec age (2 * t)), (Z.leb_spec age (d * 86400)); (done || nia).
  - intros bound hasBound dial'. unfold TierOf, RetainObservation.
    destruct hasBound; cbn [andb negb]; [|done]. by destruct (age <=? bound).
Qed.

Lemma ObservationFloor_is_where_the_dial_bites_witness :
  RetainObservation 100000 (2 * 86400) (1 * SecondsPerDay) true false = (100000 <=? 2 * 86400) ∧
  RetainObservation 200000 (2 * 86400) (2 * SecondsPerDay) true false = (200000 <=? 2 * 86400).
Proof.
  split.
  - refine (eq_trans (proj1 (ObservationFloor_is_where_the_dial_bites 86400 1 100000 _ _)) _);
      [split; [reflexivity|discriminate]|split; [reflexivity|discriminate]|reflexivity].
  - refine (eq_trans (proj1 (ObservationFloor_is_where_the_dial_bites 86400 2 200000 _ _)) _);
      [split; [reflexivity|discriminate]|split; [reflexivity|discriminate]|reflexivity].
Defined.

(** ** The clamps *)

#[export] Instance clamp_less_weak : StrictWeak clamp_less.
Proof.
  unfold clamp_less, TimeEqual, After. split.
  - intros x y. destruct (cl_Bounded x), (cl_Bounded y); cbn [Bool.eqb negb]; try done;
      destruct (Z.eqb_spec (cl_At x) (cl_At y)), (Z.eqb_spec (cl_At y) (cl_At x));
      cbn [negb]; rewrite ?Z.ltb_lt, ?Z.ltb_ge; lia.
  - intros x y z. destruct (cl_Bounded x), (cl_Bounded y), (cl_Bounded z);
      cbn [Bool.eqb negb]; try done;
      destruct (Z.eqb_spec (cl_At y) (cl_At x)), (Z.eqb_spec (cl_At z) (cl_At y)),
        (Z.eqb_spec (cl_At z) (cl_At x)); cbn [negb]; rewrite ?Z.ltb_ge; lia.
Qed.

(** A bounded clamp that is not a retention dial. *)
Definition structural (c : Clamp) : bool :=
  negb (bool_decide (cl_Kind c = ClampRetention)) && cl_Bounded c.

Lemma sort_stable_map {A B} (less : A → A → bool) (f : A → B) (g : B → A) l :
  (∀ x, g (f x) = x) →
  sort_stable (λ a b, less (g a) (g b)) (map f l) = map f (sort_stable less l).
Proof.
  intros Hgf. induction l as [|x l IH]; [done|]. cbn [map sort_stable foldr].
  change (foldr _ [] (map f l)) with (sort_stable (λ a b, less (g a) (g b)) (map f l)).
  rewrite IH. change (foldr _ [] l) with (sort_stable less l).
  generalize (sort_stable less l). intros k. induction k as [|y k IHk]; [done|].
  cbn [map insert_sorted]. rewrite !Hgf. destruct (less y x); [|done]. by rewrite IHk.
Qed.

(** The first hit of a test, or nothing hit and [-1]. *)
Lemma first_index_cases {A} (P : A → bool) l :
  (first_index P l = -1 ∧ ∀ j y, l !! j = Some y → P y = false) ∨
  (∃ i x, first_index P l = Z.of_nat i ∧ l !! i = Some x ∧ P x = true ∧
     ∀ j y, l !! j = Some y → (j < i)%nat → P y = false).
Proof.
  unfold first_index. destruct (list_find _ l) as [[i x]|] eqn:E.
  - apply list_find_Some in E as (Hx & HP & Hn). right. exists i, x.
    split_and!; [done..|]. intros j y Hj Hlt. by apply not_true_is_false, (Hn j).
  - apply list_find_None in E. left. split; [done|]. intros j y Hj.
    by apply not_true_is_false, (Forall_lookup_1 _ _ _ _ E Hj).
Qed.

(** Two tests agree on where they first hit when they agree up to the first hit
    of one of them. *)
Lemma first_index_eq {A B} (P : A → bool) (Q : B → bool) l k :
  length l = length k →
  (∀ i x y, l !! i = Some x → k !! i = Some y →
     (first_index P l = -1 ∨ Z.of_nat i ≤ first_index P l) → Q y = P x) →
  first_index Q k = first_index P l.
Proof.
  intros Hlen Hag.
  destruct (first_index_cases P l) as [[Hp Hpn]|(i & x & Hp & Hx & HPx & Hpn)],
    (first_index_cases Q k) as [[Hq Hqn]|(j & y & Hq & Hy & HQy & Hqn)]; rewrite Hp in *.
  - done.
  - destruct (lookup_lt_is_Some_2 l j) as [x Hx]; [apply lookup_lt_Some in Hy; lia|].
    rewrite (Hag j x y) in HQy by auto. by rewrite (Hpn j x) in HQy.
  - destruct (lookup_lt_is_Some_2 k i) as [y Hy]; [apply lookup_lt_Some in Hx; lia|].
    rewrite <- (Hag i x y), (Hqn i y) in HPx by (done || lia). done.
  - rewrite Hq. f_equal. destruct (decide (i = j)) as [|Hne]; [done|].
    destruct (decide (i < j)%nat).
    + destruct (lookup_lt_is_Some_2 k i) as [z Hz]; [apply lookup_lt_Some in Hx; lia|].
      rewrite <- (Hag i x z), (Hqn i z) in HPx by (done || lia). done.
    + destruct (lookup_lt_is_Some_2 l j) as [z Hz]; [apply lookup_lt_Some in Hy; lia|].
      rewrite (Hag j z y), (Hpn j z) in HQy by (done || lia). done.
Qed.

(** The rows in closed form: the row that binds is the first structural one. *)
Lemma OrderClamps_eq clamps :
  let cs := sort_stable clamp_less clamps in
  let t := first_index structural cs in
  OrderClamps clamps =
    imap (λ i c, mkRow c (Z.of_nat i =? t)
      (bool_decide (cl_Kind c = ClampRetention) &&
       (negb (cl_Bounded c) || (t =? -1) || (Z.of_nat i <? t)))) cs.
Proof.
  intros cs t. unfold OrderClamps.
  rewrite (sort_stable_map clamp_less (λ c, mkRow c false false) row_Clamp) by done. fold cs.
  set (rows := map _ cs).
  assert (Hrows : ∀ i r, rows !! i = Some r → ∃ c, cs !! i = Some c ∧ r = mkRow c false false).
  { intros i r. unfold rows. rewrite list_lookup_fmap. destruct (cs !! i); naive_solver. }
  assert (Ht : first_index (λ r, negb (is_retention r) && cl_Bounded (row_Clamp r)) rows = t).
  { apply first_index_eq; [unfold rows; by rewrite length_map|].
    intros i x y Hx (c & Hc & ->)%Hrows _. by simplify_eq. }
  rewrite Ht.
  assert (Hmark : imap (mark_inert t) rows = imap (λ i c, mkRow c false
      (bool_decide (cl_Kind c = ClampRetention) &&
       (negb (cl_Bounded c) || (t =? -1) || (Z.of_nat i <? t)))) cs).
  { apply list_eq. intros i. unfold rows. rewrite !list_lookup_imap, list_lookup_fmap.
    destruct (cs !! i) as [c|]; [|done]. cbn. f_equal. unfold mark_inert, is_retention. cbn.
    destruct (bool_decide _); cbn; [|done].
    by destruct (negb (cl_Bounded c) || (t =? -1) || (Z.of_nat i <? t)). }
  rewrite Hmark.
  assert (Hb : first_index (λ r, negb (row_Inert r) && cl_Bounded (row_Clamp r))
      (imap (λ i c, mkRow c false (bool_decide (cl_Kind c = ClampRetention) &&
        (negb (cl_Bounded c) || (t =? -1) || (Z.of_nat i <? t)))) cs) = t).
  { apply first_index_eq; [by rewrite length_imap|].
    change (first_index structural cs) with t.
    intros i x y Hx. rewrite list_lookup_imap, Hx. cbn. intros [= <-] Hi. cbn.
    unfold structural. destruct (bool_decide_reflect (cl_Kind x = ClampRetention)) as [Hk|]; cbn;
      [|done]. destruct (cl_Bounded x); cbn; [|done].
    destruct (Z.eqb_spec t (-1)) as [|Hne]; [done|]. destruct (Z.ltb_spec (Z.of_nat i) t); [done|].
    exfalso. pose proof (first_index_cases structural cs) as Hf.
    change (first_index structural cs) with t in Hf.
    destruct Hf as [[Hx1 _]|(j & z & Hj & Hz & Hs & _)]; [done|]. assert (j = i) as -> by lia. rewrite Hx in Hz. simplify_eq.
    unfold structural in Hs. by rewrite Hk, bool_decide_true in Hs by done. }
  rewrite Hb. apply list_eq. intros i. rewrite !list_lookup_imap.
  destruct (cs !! i); cbn; [|done]. by destruct (Z.of_nat i =? t).
Qed.

(** Retention is never the tighter clamp.  The rows are the clamps, tightest
    first; exactly the first bounded clamp that is not a retention dial binds;
    and a row is inert exactly when it is a retention dial that is unbounded or
    that no binding row precedes. *)
Theorem OrderClamps_spec clamps :
  let rows := OrderClamps clamps in
  map row_Clamp rows ≡ₚ clamps ∧
  StronglySorted (not_after clamp_less) (map row_Clamp rows) ∧
  ∀ i r, rows !! i = Some r →
    (row_Binding r = true ↔
       structural (row_Clamp r) = true ∧
       ∀ j r', rows !! j = Some r' → (j < i)%nat → structural (row_Clamp r') = false) ∧
    (row_Inert r = true ↔
       cl_Kind (row_Clamp r) = ClampRetention ∧
       (cl_Bounded (row_Clamp r) = true →
        ∀ j r', rows !! j = Some r' → (j < i)%nat → row_Binding r' = false)).
Proof.
  intros rows. unfold rows. rewrite OrderClamps_eq.
  set (cs := sort_stable clamp_less clamps). set (t := first_index structural cs).
  assert (Hmap : ∀ f g, map row_Clamp (imap (λ i c, mkRow c (f i c) (g i c)) cs) = cs).
  { intros f g. apply list_eq. intros i. rewrite list_lookup_fmap, list_lookup_imap.
    by destruct (cs !! i). }
  rewrite Hmap. split; [by apply sort_stable_Permutation|].
  split; [exact (sort_stable_Sorted clamp_less clamps)|]. intros i r Hi.
  rewrite list_lookup_imap_Some in Hi. destruct Hi as (c & Hc & ->). cbn.
  destruct (first_index_cases structural cs) as [[Ht Hn]|(k & x & Ht & Hx & Hs & Hn)];
    change (first_index structural cs) with t in Ht.
  - rewrite Ht, (proj2 (Z.eqb_neq _ _)) by lia. split.
    + rewrite (Hn i c Hc). naive_solver.
    + rewrite Z.eqb_refl, orb_true_r. cbn. rewrite andb_true_r, bool_decide_eq_true.
      split; [|by intros []]. intros Hk. split; [done|]. intros _ j r'.
      rewrite list_lookup_imap_Some. intros (c' & _ & ->) _. cbn. apply Z.eqb_neq. lia.
  - rewrite Ht. split.
    + rewrite Z.eqb_eq. split.
      * intros ->%Nat2Z.inj. simplify_eq. split; [done|]. intros j r'.
        rewrite list_lookup_imap_Some. intros (c' & Hc' & ->) Hlt. by apply (Hn j).
      * intros [Hsc Hb]. f_equal. destruct (Nat.lt_trichotomy i k) as [Hlt|[?|Hlt]]; [|done|].
        -- by rewrite (Hn i c Hc Hlt) in Hsc.
        -- ospecialize (Hb k (mkRow x _ _) _ Hlt); [|cbn in Hb; congruence].
           rewrite list_lookup_imap_Some. by exists x.
    + rewrite (proj2 (Z.eqb_neq _ _)) by lia. rewrite orb_false_r, andb_true_iff, orb_true_iff,
        bool_decide_eq_true, negb_true_iff, Z.ltb_lt. split; intros [Hk H]; (split; [done|]).
      * intros Hbd j r'. rewrite list_lookup_imap_Some. intros (c' & _ & ->) Hlt. cbn.
        apply Z.eqb_neq. destruct H; [congruence|lia].
      * destruct (cl_Bounded c); [|by left]. right. destruct (decide (i < k)%nat); [lia|].
        assert (Hki : (k < i)%nat).
        { assert (k ≠ i); [|lia]. intros <-. simplify_eq. unfold structural in Hs.
          by rewrite Hk, bool_decide_true in Hs by done. }
        ospecialize (H eq_refl k (mkRow x _ _) _ Hki);
          [rewrite list_lookup_imap_Some; by exists x|]. cbn in H. by rewrite Z.eqb_refl in H.
Qed.

(** ** The projection *)

(** A projection is exact or withheld.  For any 64-bit inputs the yearly
    figures are shown exactly when both factors are positive and the bytes of a
    year fit in 64 bits, and they are then the exact products. *)
Theorem Project_exact held addrs rate :
  in_int64 addrs → in_int64 rate →
  let p := Project held addrs rate in
  (HasDenominator p = true ↔ 0 < addrs ∧ 0 < rate ∧ addrs * rate * 142 ≤ maxInt64) ∧
  (HasDenominator p = true →
     RowsPerYear p = addrs * rate ∧ BytesPerYear p = addrs * rate * 142) ∧
  (HasDenominator p = false → RowsPerYear p = 0 ∧ BytesPerYear p = 0).
Proof.
  intros Ha Hr p. subst p. unfold Project, BytesPerObservation.
  unfold in_int64, minInt64 in Ha, Hr. set (M := maxInt64) in *.
  assert (HM : M = 9223372036854775807) by done.
  destruct (Z.leb_spec addrs 0) as [Ha0|Ha0]; cbn [orb]; [cbn; lia|].
  destruct (Z.leb_spec rate 0) as [Hr0|Hr0]; cbn [orb]; [cbn; lia|].
  assert (Hq : ∀ d, 0 < d → wrap64 (M ÷ d) = M / d).
  { intros d Hd. rewrite Z.quot_div_nonneg by lia. apply wrap64_id.
    unfold in_int64, minInt64. fold M. pose proof (Z.div_pos M d). pose proof (Z.div_le_upper_bound M d M). nia. }
  rewrite !Hq by lia.
  pose proof (Z.mul_div_le M rate Hr0). pose proof (Z.mul_succ_div_gt M rate Hr0).
  pose proof (Z.mul_div_le M 142 ltac:(lia)). pose proof (Z.mul_succ_div_gt M 142 ltac:(lia)).
  destruct (Z.ltb_spec (M / rate) addrs) as [Hx|Hx]; [cbn; nia|].
  assert (addrs * rate ≤ M) by nia.
  rewrite (wrap64_id (addrs * rate)) by (unfold in_int64, minInt64; fold M; nia).
  destruct (Z.ltb_spec (M / 142) (addrs * rate)) as [Hy|Hy]; [cbn; lia|].
  rewrite (wrap64_id (addrs * rate * 142)) by (unfold in_int64, minInt64; fold M; lia).
  cbn [HasDenominator RowsPerYear BytesPerYear]. split; [|split; [done|discriminate]].
  split; [|done]. intros _. lia.
Qed.

Lemma Project_exact_witness :
  let p := Project 10 1024 365 in HasDenominator p = true ∧ BytesPerYear p = 1024 * 365 * 142.
Proof.
  intros p. destruct (Project_exact 10 1024 365) as (_ & H & _).
  - split; discriminate.
  - split; discriminate.
  - split; [reflexivity|]. apply H. reflexivity.
Defined.
