(* ===== verification/Custody.v ===== *)
(** * Custody: what the estate may probe ([internal/custody])

    Models [custody.go], [veto.go], [gate.go], [reachability.go],
    [candidates.go], [census.go], [scopecensus.go] and [fanout.go]: derivation
    of custody from declared scopes and zone extensions, the special-purpose
    registries, the shared-edge veto over the extension limb, and the gate that
    reads them.  The public-suffix list is a parameter. *)

From S2P Require Import Prelude GoStr NetIP Seed.

(** ** Zones and labels *)

Definition asciiLower (s : string) : string := string_map fold_byte s.

Definition dot : ascii := ".".

(** A [nil] slice and an empty one are not told apart by [LabelSuffix]. *)
Definition labels (name : string) : list string :=
  let trimmed := TrimSuffix name "." in
  if String.eqb trimmed "" then [] else Split dot (asciiLower trimmed).

(** The loop over [zl], its index [off + i] stepping through [cl]. *)
Fixpoint labels_from (cl zl : list string) : bool :=
  match zl, cl with
  | [], _ => true
  | z :: zl', c :: cl' => String.eqb c z && labels_from cl' zl'
  | _ :: _, [] => false
  end.

Definition LabelSuffix (candidate zone : string) : bool :=
  let cl := labels candidate in
  let zl := labels zone in
  if (length zl =? 0)%nat || (length cl <? length zl)%nat then false
  else labels_from (drop (length cl - length zl) cl) zl.

Definition WithinAnyZone (name : string) (zones : list string) : bool :=
  existsb (LabelSuffix name) zones.

(** ** The special-purpose registries *)

Record spBlock := mkBlock { sb_prefix : Prefix; sb_fires : bool }.

(** [netip.MustParsePrefix] of the table's literals. *)
Definition cidr4 (a b c d bits : Z) : Prefix :=
  mkPrefix (Addr4 (((a * 256 + b) * 256 + c) * 256 + d)) bits.
Definition cidr6 (groups : list Z) (bits : Z) : Prefix :=
  mkPrefix (Addr6 (foldl (λ acc g, acc * 65536 + g) 0 (take 8 (groups ++ replicate 8 0))) "") bits.
Definition cidr6_low (last bits : Z) : Prefix := mkPrefix (Addr6 last "") bits.

Definition specialPurpose : list spBlock := [
  mkBlock (cidr4 0 0 0 0 8) true;
  mkBlock (cidr4 0 0 0 0 32) true;
  mkBlock (cidr4 10 0 0 0 8) true;
  mkBlock (cidr4 100 64 0 0 10) true;
  mkBlock (cidr4 127 0 0 0 8) true;
  mkBlock (cidr4 169 254 0 0 16) true;
  mkBlock (cidr4 172 16 0 0 12) true;
  mkBlock (cidr4 192 0 0 0 24) true;
  mkBlock (cidr4 192 0 0 0 29) true;
  mkBlock (cidr4 192 0 0 8 32) true;
  mkBlock (cidr4 192 0 0 9 32) false;
  mkBlock (cidr4 192 0 0 10 32) false;
  mkBlock (cidr4 192 0 0 170 32) true;
  mkBlock (cidr4 192 0 0 171 32) true;
  mkBlock (cidr4 192 0 2 0 24) true;
  mkBlock (cidr4 192 31 196 0 24) false;
  mkBlock (cidr4 192 52 193 0 24) false;
  mkBlock (cidr4 192 88 99 0 24) false;
  mkBlock (cidr4 192 88 99 2 32) true;
  mkBlock (cidr4 192 168 0 0 16) true;
  mkBlock (cidr4 192 175 48 0 24) false;
  mkBlock (cidr4 198 18 0 0 15) true;
  mkBlock (cidr4 198 51 100 0 24) true;
  mkBlock (cidr4 203 0 113 0 24) true;
  mkBlock (cidr4 240 0 0 0 4) true;
  mkBlock (cidr4 255 255 255 255 32) true;
  mkBlock (cidr6_low 0x1 128) true;
  mkBlock (cidr6_low 0x0 128) true;
  mkBlock (cidr6_low 0xffff00000000 96) true;
  mkBlock (cidr6 [0x64; 0xff9b] 96) false;
  mkBlock (cidr6 [0x64; 0xff9b; 0x1] 48) true;
  mkBlock (cidr6 [0x100] 64) true;
  mkBlock (cidr6 [0x100; 0; 0; 0x1] 64) true;
  mkBlock (cidr6 [0x2001] 23) true;
  mkBlock (cidr6 [0x2001] 32) false;
  mkBlock (cidr6 [0x2001; 0x1; 0; 0; 0; 0; 0; 0x1] 128) false;
  mkBlock (cidr6 [0x2001; 0x1; 0; 0; 0; 0; 0; 0x2] 128) false;
  mkBlock (cidr6 [0x2001; 0x1; 0; 0; 0; 0; 0; 0x3] 128) false;
  mkBlock (cidr6 [0x2001; 0x2] 48) true;
  mkBlock (cidr6 [0x2001; 0x3] 32) false;
  mkBlock (cidr6 [0x2001; 0x4; 0x112] 48) false;
  mkBlock (cidr6 [0x2001; 0x10] 28) false;
  mkBlock (cidr6 [0x2001; 0x20] 28) false;
  mkBlock (cidr6 [0x2001; 0x30] 28) false;
  mkBlock (cidr6 [0x2001; 0xdb8] 32) true;
  mkBlock (cidr6 [0x2002] 16) false;
  mkBlock (cidr6 [0x2620; 0x4f; 0x8000] 48) false;
  mkBlock (cidr6 [0x3fff] 20) true;
  mkBlock (cidr6 [0x5f00] 16) true;
  mkBlock (cidr6 [0xfc00] 7) true;
  mkBlock (cidr6 [0xfe80] 10) true ].

(** One iteration over the table: a strictly longer containing block wins. *)
Definition longest_step (addr : Addr) (st : Z * bool) (b : spBlock) : Z * bool :=
  if Contains (sb_prefix b) addr && (st.1 <? p_bits (sb_prefix b))
  then (p_bits (sb_prefix b), sb_fires b) else st.

Definition IsNonGloballyReachable (addr : Addr) : bool :=
  let addr := Unmap addr in
  (foldl (longest_step addr) (-1, false) specialPurpose).2.

Definition IsGloballyReachable (addr : Addr) : bool := negb (IsNonGloballyReachable addr).

(** ** Shared edges: the fan-out of a certificate's names *)

Definition SharedEdgeThreshold : Z := 100.

Definition numericTopLabel (name : string) : bool :=
  let i := LastIndexByte name dot in
  let top := if 0 <=? i then slice_from name (i + 1) else name in
  if String.eqb top "" then false else string_forallb is_digit top.

Definition isLDHDomain (name : string) : bool :=
  string_forallb (λ c, is_lower c || is_digit c || (code c =? 45) || (code c =? 46)) name.

Section FanOut.
(** [publicsuffix.EffectiveTLDPlusOne]; [None] is its error. *)
Variable EffectiveTLDPlusOne : string → option string.

Definition registrableDomain (san : string) : option string :=
  let name := asciiLower (TrimSpace san) in
  let name := TrimPrefix name "*." in
  let name := TrimSuffix name "." in
  if String.eqb name "" then None
  else if negb (isLDHDomain name) then None
  else if numericTopLabel name then None
  else EffectiveTLDPlusOne name.

Definition registrableSet (sans : list string) : gset string :=
  foldl (λ seen san,
    match registrableDomain san with None => seen | Some reg => {[ reg ]} ∪ seen end) ∅ sans.

Definition RegistrableDomains (sans : list string) : list string :=
  sorted_keys (registrableSet sans).

Definition FanOut (sans : list string) : Z := Z.of_nat (size (registrableSet sans)).

Definition SharedEdge (sans : list string) : bool := SharedEdgeThreshold <=? FanOut sans.
End FanOut.

(** ** The shared-edge measurement *)

Record EdgeFanout := mkFanout {
  ef_Enabled : bool;
  ef_BatchCompleted : bool;
  ef_ExtensionErrored : bool;
  ef_Shared : gmap Addr bool;
  ef_Partial : bool
}.

Definition EdgeFanoutZero : EdgeFanout := mkFanout false false false ∅ false.

Definition inForce (f : EdgeFanout) : bool := ef_Enabled f && negb (ef_ExtensionErrored f).

Definition admits (f : EdgeFanout) (addr : Addr) : bool :=
  if negb (inForce f) then true
  else match ef_Shared f !! addr with None => false | Some shared => negb shared end.

Definition set_errored (f : EdgeFanout) (b : bool) : EdgeFanout :=
  mkFanout (ef_Enabled f) (ef_BatchCompleted f) b (ef_Shared f) (ef_Partial f).

Definition overExtension (f : EdgeFanout) (candidates : list Addr) : EdgeFanout :=
  let f := set_errored f false in
  if negb (ef_Enabled f) || negb (ef_BatchCompleted f) || (length candidates =? 0)%nat then f
  else if existsb (λ a, bool_decide (is_Some (ef_Shared f !! a))) candidates then f
  else set_errored f true.

(** ** The estate *)

Inductive Custody := Operator | ThirdParty.

Record Resolution := mkResolution { Owner : string; Address : Addr }.

#[export] Instance Resolution_eq : EqDecision Resolution.
Proof. solve_decision. Defined.
#[export] Instance Resolution_countable : Countable Resolution.
Proof.
  refine (inj_countable' (λ r, (Owner r, Address r)) (λ c, mkResolution c.1 c.2) _). by intros [].
Defined.

Record Estate := mkEstate {
  AddressScopes : list Prefix;
  ExtendedZones : list string;
  Resolutions : list Resolution;
  edgeFanout : EdgeFanout;
  addressExclusions : list Prefix
}.

Definition WithAddressExclusions (e : Estate) (prefixes : list Prefix) : Estate :=
  mkEstate (AddressScopes e) (ExtendedZones e) (Resolutions e) (edgeFanout e) prefixes.

Definition AddressExcluded (e : Estate) (addr : Addr) : bool :=
  let addr := Unmap addr in existsb (λ p, Contains p addr) (addressExclusions e).

Definition coveringAddressScope (e : Estate) (addr : Addr) : Prefix * bool :=
  if AddressExcluded e addr then (PrefixZero, false)
  else match list_find (λ p, Contains p addr) (AddressScopes e) with
       | Some (_, p) => (p, true)
       | None => (PrefixZero, false)
       end.

Definition coveredByAddressScope (e : Estate) (addr : Addr) : bool :=
  (coveringAddressScope e addr).2.

Definition CoversAddressScope (e : Estate) (addr : Addr) : bool :=
  coveredByAddressScope e (Unmap addr).

Definition withinExtendedZone (e : Estate) (name : string) : bool :=
  WithinAnyZone name (ExtendedZones e).

Definition extensionReaches (e : Estate) (addr : Addr) : bool :=
  if IsNonGloballyReachable addr then false
  else existsb (λ r, bool_decide (Unmap (Address r) = addr) && withinExtendedZone e (Owner r))
         (Resolutions e).

Definition coveredByExtension (e : Estate) (addr : Addr) : bool :=
  extensionReaches e addr && admits (edgeFanout e) addr.

Definition Derive (e : Estate) (addr : Addr) : Custody :=
  let addr := Unmap addr in
  if coveredByAddressScope e addr then Operator
  else if coveredByExtension e addr then Operator
  else ThirdParty.

(** ** The gate *)

Inductive VantageClass := ClassInternet | ClassInternal | ClassUnverified.

#[export] Instance Custody_eq : EqDecision Custody.
Proof. solve_decision. Defined.
#[export] Instance VantageClass_eq : EqDecision VantageClass.
Proof. solve_decision. Defined.

Definition IsInternet (c : VantageClass) : bool := bool_decide (c = ClassInternet).

Definition ProbeRealm (e : Estate) (addr : Addr) (vc : VantageClass) : Prefix * bool :=
  let addr := Unmap addr in
  if negb (bool_decide (Derive e addr = Operator)) then (PrefixZero, false)
  else if IsNonGloballyReachable addr then
    let '(scope, covered) := coveringAddressScope e addr in
    if negb covered then (PrefixZero, false)
    else if IsInternet vc then (PrefixZero, false)
    else (scope, true)
  else (PrefixZero, true).

Definition MayProbe (e : Estate) (addr : Addr) (vc : VantageClass) : bool :=
  (ProbeRealm e addr vc).2.

(** A [Realm] is its slice of scopes. *)
Record Realm := mkRealm { scopes : list Prefix }.

Definition Realm_With (r : Realm) (scope : Prefix) : Realm :=
  if negb (Prefix_IsValid scope) then r
  else
    let scope := Masked scope in
    if existsb (λ p, bool_decide (p = scope)) (scopes r) then r
    else mkRealm (scopes r ++ [scope]).

Definition Realm_Contains (r : Realm) (addr : Addr) : bool :=
  let addr := Unmap addr in existsb (λ p, Contains p addr) (scopes r).

(** ** Citations, candidates and the measured population *)

Definition citation_step (e : Estate) (st : gset Resolution * list Resolution) (r : Resolution)
    : gset Resolution * list Resolution :=
  let '(seen, out) := st in
  let r := mkResolution (Owner r) (Unmap (Address r)) in
  if bool_decide (r ∈ seen) then st
  else if IsNonGloballyReachable (Address r) || negb (withinExtendedZone e (Owner r)) then st
  else ({[ r ]} ∪ seen, out ++ [r]).

Definition ExtensionCitations (e : Estate) : list Resolution :=
  (foldl (citation_step e) (∅, []) (Resolutions e)).2.

Definition candidate_step (st : gset Addr * list Addr) (r : Resolution) : gset Addr * list Addr :=
  let '(admitted, out) := st in
  if bool_decide (Address r ∈ admitted) then st
  else ({[ Address r ]} ∪ admitted, out ++ [Address r]).

Definition ExtensionCandidates (e : Estate) : list Addr :=
  (foldl candidate_step (∅, []) (ExtensionCitations e)).2.

(** The addresses the sequence yields to a consumer that never stops it. *)
Definition EdgeFanoutPopulation (e : Estate) : list Addr :=
  let candidates := ExtensionCandidates e in
  let seen : gset Addr := list_to_set candidates in
  candidates ++
  flat_map (λ p,
    flat_map (λ a,
      let a := Unmap a in
      if bool_decide (a ∈ seen) then []
      else if IsNonGloballyReachable a then []
      else if AddressExcluded e a then []
      else [a]) (EnumerateAddresses p)) (AddressScopes e).

Definition WithEdgeFanout (e : Estate) (f : EdgeFanout) : Estate :=
  mkEstate (AddressScopes e) (ExtendedZones e) (Resolutions e)
    (overExtension f (ExtensionCandidates e)) (addressExclusions e).

(** ** The censuses *)

Inductive ExtensionState := ExtensionDeclined | ExtensionPending.

Record ExtensionCensusEntry := mkExtEntry {
  ec_Name : string;
  ec_Address : Addr;
  ec_State : ExtensionState;
  ec_Scope : Prefix
}.

Definition census_step (e : Estate)
    (st : gset (string * Addr) * list ExtensionCensusEntry) (r : Resolution)
    : gset (string * Addr) * list ExtensionCensusEntry :=
  let '(seen, out) := st in
  let addr := Unmap (Address r) in
  if IsNonGloballyReachable addr || negb (withinExtendedZone e (Owner r)) then st
  else
    let reading := ef_Shared (edgeFanout e) !! addr in
    if bool_decide (reading = Some false) then st
    else if bool_decide ((Owner r, addr) ∈ seen) then st
    else
      let state := match reading with Some _ => ExtensionDeclined | None => ExtensionPending end in
      ({[ (Owner r, addr) ]} ∪ seen,
       out ++ [mkExtEntry (Owner r) addr state (coveringAddressScope e addr).1]).

Definition ExtensionCensus (e : Estate) : list ExtensionCensusEntry :=
  if negb (inForce (edgeFanout e)) then []
  else (foldl (census_step e) (∅, []) (Resolutions e)).2.

Record AddressScopeCensusEntry := mkScopeEntry { Scope : Prefix; SharedEdges : Z }.

(** The distinct declared scopes, in declaration order, each counted from zero. *)
Definition scope_step (st : gmap Prefix Z * list Prefix) (p : Prefix) : gmap Prefix Z * list Prefix :=
  let '(counts, scopes) := st in
  match counts !! p with Some _ => st | None => (<[p := 0]> counts, scopes ++ [p]) end.

Definition edge_step (e : Estate) (scopes : list Prefix) (counts : gmap Prefix Z)
    (kv : Addr * bool) : gmap Prefix Z :=
  let '(addr, shared) := kv in
  if negb shared then counts
  else if AddressExcluded e addr then counts
  else foldl (λ c p, if Contains p addr then <[p := default 0 (c !! p) + 1]> c else c) counts scopes.

(** Go ranges over [Shared] in an order it does not fix: [walk] is that order. *)
Definition AddressScopeCensus (e : Estate) (walk : list (Addr * bool))
    : list AddressScopeCensusEntry :=
  if negb (ef_Enabled (edgeFanout e)) || ef_Partial (edgeFanout e) then []
  else
    let '(counts, scopes) := foldl scope_step (∅, []) (AddressScopes e) in
    let counts := foldl (edge_step e scopes) counts walk in
    omap (λ p, let n := default 0 (counts !! p) in
               if n =? 0 then None else Some (mkScopeEntry p n)) scopes.

(** ** Labels *)

Lemma string_map_empty f s : String.eqb (string_map f s) "" = String.eqb s "".
Proof. by destruct s. Qed.

Lemma labels_folded name :
  let n := asciiLower (TrimSuffix name ".") in
  labels name = if String.eqb n "" then [] else Split dot n.
Proof. intros n. unfold labels, n, asciiLower. by rewrite string_map_empty. Qed.

Lemma Split_join (sep : ascii) s : String.concat (String sep "") (Split sep s) = s.
Proof.
  induction s as [|c s IH]; [done|]. cbn [Split]. pose proof (Split_nonempty sep s).
  destruct (Ascii.eqb_spec c sep) as [->|Hne].
  - destruct (Split sep s) as [|w ws] eqn:E; [done|].
    change (String.concat (String sep "") ("" :: w :: ws))
      with ("" +:+ String sep "" +:+ String.concat (String sep "") (w :: ws))%string.
    by rewrite IH.
  - destruct (Split sep s) as [|w [|w' ws]]; [done| |].
    + cbn [String.concat] in IH |- *. by rewrite IH.
    + rewrite <- IH. reflexivity.
Qed.

Lemma Split_append (sep : ascii) a b :
  Split sep (a +:+ String sep "" +:+ b)%string = Split sep a ++ Split sep b.
Proof.
  induction a as [|c a IH].
  - rewrite append_nil, append_cons, append_nil. cbn [Split]. by rewrite Ascii.eqb_refl.
  - rewrite append_cons. cbn [Split]. rewrite IH. destruct (Ascii.eqb c sep); [done|].
    pose proof (Split_nonempty sep a). by destruct (Split sep a).
Qed.

Lemma concat_app sep k l :
  k ≠ [] → l ≠ [] →
  String.concat sep (k ++ l) = (String.concat sep k +:+ sep +:+ String.concat sep l)%string.
Proof.
  intros Hk Hl. induction k as [|x [|y k] IH]; [done| |].
  - by destruct l.
  - change (String.concat sep ((x :: y :: k) ++ l))
      with (x +:+ sep +:+ String.concat sep ((y :: k) ++ l))%string.
    change (String.concat sep (x :: y :: k)) with (x +:+ sep +:+ String.concat sep (y :: k))%string.
    rewrite IH by done. by rewrite !append_assoc.
Qed.

Lemma labels_from_eq cl zl :
  length cl = length zl → labels_from cl zl = true ↔ cl = zl.
Proof.
  revert cl. induction zl as [|z zl IH]; intros [|c cl] Hl; simpl in *; try done.
  rewrite andb_true_iff, String.eqb_eq, IH by lia. naive_solver.
Qed.

Lemma LabelSuffix_suffix candidate zone :
  LabelSuffix candidate zone = true ↔ labels zone ≠ [] ∧ labels zone `suffix_of` labels candidate.
Proof.
  unfold LabelSuffix. generalize (labels candidate) as cl, (labels zone) as zl. intros cl zl.
  destruct (Nat.eqb_spec (length zl) 0) as [H0|H0]; simpl.
  { apply nil_length_inv in H0 as ->. naive_solver. }
  destruct (Nat.ltb_spec (length cl) (length zl)) as [Hlt|Hge].
  { split; [done|]. intros [_ Hs%suffix_length]. lia. }
  rewrite labels_from_eq by (rewrite length_drop; lia). split.
  - intros Hd. split; [by intros ->|]. exists (take (length cl - length zl) cl).
    rewrite <- Hd at 2. by rewrite take_drop.
  - intros [_ [k ->]]. rewrite length_app.
    by replace (length k + length zl - length zl)%nat with (length k) by lia; rewrite drop_app_length.
Qed.

(** A name is inside a zone label by label: with case folded and the root
    dot dropped, exactly when it is the zone itself or ends in a dot and the
    zone.  The root zone contains nothing, and [evilexample.com] is not inside
    [example.com]. *)
Theorem LabelSuffix_spec candidate zone :
  let c := asciiLower (TrimSuffix candidate ".") in
  let z := asciiLower (TrimSuffix zone ".") in
  LabelSuffix candidate zone = true ↔
    z ≠ ""%string ∧ (c = z ∨ ∃ p, c = (p +:+ "." +:+ z)%string).
Proof.
  intros c z. rewrite LabelSuffix_suffix, !labels_folded. fold c z.
  destruct (String.eqb_spec z "") as [->|Hz]; [naive_solver|]. pose proof (Split_nonempty dot z).
  split.
  - intros [_ [k Hk]]. split; [done|]. destruct (String.eqb_spec c "") as [Hc|Hc].
    { destruct k; simpl in Hk; [by rewrite <- Hk in *|done]. }
    apply (f_equal (String.concat ".")) in Hk. rewrite Split_join in Hk.
    destruct k as [|x k]; [left|right].
    + rewrite Hk. apply Split_join.
    + exists (String.concat "." (x :: k)). rewrite Hk, concat_app by done.
      by rewrite Split_join.
  - intros [_ Hc]. split; [done|]. destruct Hc as [->|[p Hp]].
    + by destruct (String.eqb_spec z "").
    + destruct (String.eqb_spec c "") as [Hc|Hc].
      { exfalso. rewrite Hc in Hp. by destruct p. }
      exists (Split dot p). rewrite Hp. apply (Split_append dot).
Qed.

Lemma WithinAnyZone_spec name zones :
  WithinAnyZone name zones = true ↔ ∃ z, z ∈ zones ∧ LabelSuffix name z = true.
Proof. apply existsb_bool. Qed.

(** ** The longest matching block *)

Lemma longest_match (addr : Addr) table st :
  let r := foldl (longest_step addr) st table in
  st.1 ≤ r.1 ∧
  (∀ b, b ∈ table → Contains (sb_prefix b) addr = true → p_bits (sb_prefix b) ≤ r.1) ∧
  (r = st ∨ ∃ b, b ∈ table ∧ Contains (sb_prefix b) addr = true ∧
     r = (p_bits (sb_prefix b), sb_fires b)).
Proof.
  revert st. induction table as [|b table IH]; intros st r.
  { split; [subst r; simpl; lia|]. split; [set_solver|by left]. }
  subst r. simpl. destruct (IH (longest_step addr st b)) as (Hge & Hall & Hw).
  set (r := foldl (longest_step addr) (longest_step addr st b) table) in *.
  assert (Hs : (Contains (sb_prefix b) addr = true ∧ longest_step addr st b =
    (p_bits (sb_prefix b), sb_fires b) ∧ st.1 < p_bits (sb_prefix b)) ∨ longest_step addr st b = st ∧
    (Contains (sb_prefix b) addr = true → p_bits (sb_prefix b) ≤ st.1)).
  { unfold longest_step. destruct (Contains (sb_prefix b) addr), (Z.ltb_spec st.1 (p_bits (sb_prefix b)));
      simpl; tauto || (right; split; [done|lia || done]). }
  destruct Hs as [(Hc & Hb & Hlt)|[Hb Hle]]; rewrite Hb in *; simpl in *.
  - split; [lia|]. split.
    + intros b' [-> | Hb']%elem_of_cons Hc'; [lia|auto].
    + right. destruct Hw as [-> | (b' & Hb' & Hc' & ->)]; [exists b|exists b']; split; try done;
        [by left|by right].
  - split; [lia|]. split.
    + intros b' [-> | Hb']%elem_of_cons Hc'; [specialize (Hle Hc'); lia|auto].
    + destruct Hw as [Hw | (b' & Hb' & Hc' & Hr)]; [by left|right]. exists b'. split; [by right|done].
Qed.

(** Two rows that hold one address and have one length are one row. *)
Definition block_key (b : spBlock) : Z * Z * Z :=
  let p := sb_prefix b in
  (BitLen (p_ip p), p_bits p, addr_bits (p_ip p) / 2 ^ (BitLen (p_ip p) - p_bits p)).

Lemma specialPurpose_valid : Forall (λ b, Prefix_valid (sb_prefix b)) specialPurpose.
Proof.
  rewrite Forall_forall. intros b Hb. apply Prefix_check_valid. revert b Hb.
  apply (forallb_bool (λ b, Prefix_check (sb_prefix b))). vm_compute. reflexivity.
Qed.

Lemma specialPurpose_keys : NoDup (map block_key specialPurpose).
Proof. apply (bool_decide_unpack _). vm_compute. exact I. Qed.

Lemma same_block addr b c :
  Addr_wf addr → b ∈ specialPurpose → c ∈ specialPurpose →
  Contains (sb_prefix b) addr = true → Contains (sb_prefix c) addr = true →
  p_bits (sb_prefix b) = p_bits (sb_prefix c) → b = c.
Proof.
  intros Hwf Hb Hc Hcb Hcc Hbits. pose proof specialPurpose_valid as Hv.
  rewrite Forall_forall in Hv. pose proof (Hv _ Hb) as [Hvb _]. pose proof (Hv _ Hc) as [Hvc _].
  apply Contains_spec in Hcb as (_ & _ & Hlb & Hdb); [|done..].
  apply Contains_spec in Hcc as (_ & _ & Hlc & Hdc); [|done..].
  eapply NoDup_map_inj; [apply specialPurpose_keys|done|done|].
  unfold block_key. rewrite <- Hlb, <- Hlc, <- Hdb, Hbits, <- Hdc. done.
Qed.

(** The registries are read by longest match: the row of the greatest
    length among those that contain the address decides, a firing row and an
    exempting one alike, and an address no row contains is globally reachable.
    An IPv4-mapped address is read as the IPv4 address it maps. *)
Theorem IsNonGloballyReachable_longest addr :
  Addr_wf addr →
  let a := Unmap addr in
  let holds b := b ∈ specialPurpose ∧ Contains (sb_prefix b) a = true in
  (∀ b, holds b → (∀ c, holds c → p_bits (sb_prefix c) ≤ p_bits (sb_prefix b)) →
     IsNonGloballyReachable addr = sb_fires b) ∧
  ((∀ b, ¬ holds b) → IsNonGloballyReachable addr = false) ∧
  IsNonGloballyReachable a = IsNonGloballyReachable addr.
Proof.
  intros Hwf a holds. unfold IsNonGloballyReachable. subst a. rewrite Unmap_idem.
  destruct (longest_match (Unmap addr) specialPurpose (-1, false)) as (Hge & Hall & Hw).
  set (r := foldl _ _ _) in *. split; [|split; [|done]].
  - intros b [Hb Hc] Hmax. destruct Hw as [Hr|(b' & Hb' & Hc' & Hr)].
    + specialize (Hall b Hb Hc). rewrite Hr in Hall. pose proof specialPurpose_valid as Hv.
      rewrite Forall_forall in Hv. destruct (Hv b Hb) as [_ ?]. simpl in *. lia.
    + rewrite Hr. simpl. f_equal. apply (same_block (Unmap addr)); auto with verge.
      specialize (Hall b Hb Hc). specialize (Hmax b' (conj Hb' Hc')). rewrite Hr in Hall. simpl in *. lia.
  - intros Hn. destruct Hw as [-> |(b' & Hb' & Hc' & _)]; [done|]. by destruct (Hn b').
Qed.

(** 192.0.0.9 is exempt inside the firing 192.0.0.0/24 and 192.0.0.0/29. *)
Lemma IsNonGloballyReachable_longest_witness :
  IsNonGloballyReachable (Addr4 3221225481) = false ∧
  IsNonGloballyReachable (Addr6 (65535 * 2 ^ 32 + 167772161) "") = true.
Proof.
  split; [|reflexivity].
  refine (proj1 (IsNonGloballyReachable_longest (Addr4 3221225481) _)
            (mkBlock (cidr4 192 0 0 9 32) false) _ _).
  - split; [discriminate|reflexivity].
  - split; [do 10 right; left|reflexivity].
  - intros c [Hc Hin]. revert Hin.
    repeat (apply elem_of_cons in Hc as [->|Hc];
      [intros Hin; first [discriminate Hin|discriminate]|]).
    by apply not_elem_of_nil in Hc.
Defined.

(** ** The two limbs *)

(** A declared scope holds the address and no exclusion does. *)
Definition declared (e : Estate) (a : Addr) : Prop :=
  (∃ p, p ∈ AddressScopes e ∧ Contains p a = true) ∧
  (∀ q, q ∈ addressExclusions e → Contains q a = false).

(** A direct address record of a name in an extended zone resolves to it. *)
Definition cited (e : Estate) (name : string) (a : Addr) : Prop :=
  (∃ r, r ∈ Resolutions e ∧ Owner r = name ∧ Unmap (Address r) = a) ∧
  (∃ z, z ∈ ExtendedZones e ∧ LabelSuffix name z = true) ∧
  IsNonGloballyReachable a = false.

Lemma existsb_false {A} (P : A → bool) l :
  existsb P l = false ↔ ∀ x, x ∈ l → P x = false.
Proof.
  rewrite <- not_true_iff_false, existsb_bool. setoid_rewrite <- not_true_iff_false. naive_solver.
Qed.

Lemma AddressExcluded_false e a :
  AddressExcluded e a = false ↔ ∀ q, q ∈ addressExclusions e → Contains q (Unmap a) = false.
Proof. apply existsb_false. Qed.

Lemma coveringAddressScope_spec e a :
  Unmap a = a →
  (declared e a ∧ ∃ p, coveringAddressScope e a = (p, true) ∧ p ∈ AddressScopes e ∧
     Contains p a = true) ∨
  (¬ declared e a ∧ coveringAddressScope e a = (PrefixZero, false)).
Proof.
  intros Hu. pose proof (AddressExcluded_false e a) as Hx. rewrite Hu in Hx.
  unfold coveringAddressScope, declared. rewrite <- Hx.
  destruct (AddressExcluded e a) eqn:Ex; [naive_solver|].
  destruct (list_find _ (AddressScopes e)) as [[i p]|] eqn:Ef.
  - left. apply list_find_Some in Ef as (Hi & Hp & _). apply Is_true_true in Hp.
    apply list_elem_of_lookup_2 in Hi. split; [naive_solver|]. eauto.
  - right. apply list_find_None in Ef. rewrite Forall_forall in Ef.
    split; [|done]. intros [(p & Hp & Hc) _]. apply (Ef p Hp). by apply Is_true_true.
Qed.

Lemma coveredByAddressScope_spec e a :
  Unmap a = a → coveredByAddressScope e a = true ↔ declared e a.
Proof.
  intros Hu. unfold coveredByAddressScope.
  destruct (coveringAddressScope_spec e a Hu) as [(Hd & p & -> & _)|[Hd ->]]; naive_solver.
Qed.

Lemma extensionReaches_spec e a :
  extensionReaches e a = true ↔ ∃ name, cited e name a.
Proof.
  unfold extensionReaches, cited. destruct (IsNonGloballyReachable a); [naive_solver|].
  rewrite existsb_bool. split.
  - intros (r & Hr & [Ha Hz]%andb_true_iff). apply bool_decide_eq_true in Ha.
    apply WithinAnyZone_spec in Hz. eauto 10.
  - intros (n & (r & Hr & <- & Ha) & Hz & _). exists r. split; [done|].
    apply andb_true_iff. split; [by apply bool_decide_eq_true|by apply WithinAnyZone_spec].
Qed.

Lemma Derive_spec e a :
  let a' := Unmap a in
  Derive e a = Operator ↔
    declared e a' ∨ (∃ name, cited e name a') ∧ admits (edgeFanout e) a' = true.
Proof.
  intros a'. unfold Derive. fold a'. assert (Hu : Unmap a' = a') by apply Unmap_idem.
  rewrite <- (coveredByAddressScope_spec e a' Hu), <- extensionReaches_spec.
  unfold coveredByExtension.
  destruct (coveredByAddressScope e a'), (extensionReaches e a'), (admits (edgeFanout e) a');
    naive_solver.
Qed.

Lemma Derive_Unmap e a : Derive e (Unmap a) = Derive e a.
Proof. unfold Derive. by rewrite Unmap_idem. Qed.

Lemma MayProbe_spec e addr vc :
  let a := Unmap addr in
  MayProbe e addr vc = true ↔
    if IsNonGloballyReachable a then declared e a ∧ vc ≠ ClassInternet
    else declared e a ∨ (∃ name, cited e name a) ∧ admits (edgeFanout e) a = true.
Proof.
  intros a. assert (Hu : Unmap a = a) by apply Unmap_idem.
  pose proof (Derive_spec e a) as HD. cbv zeta in HD. rewrite Hu in HD.
  unfold MayProbe, ProbeRealm. fold a. destruct (IsNonGloballyReachable a) eqn:Ei.
  - assert (Hc : ∀ name, ¬ cited e name a) by (intros n (_ & _ & Hi); congruence).
    unfold IsInternet.
    destruct (coveringAddressScope_spec e a Hu) as [(Hd & p & -> & _)|[Hd ->]];
      repeat case_bool_decide; simpl; naive_solver.
  - rewrite <- HD. case_bool_decide; simpl; naive_solver.
Qed.

(** [C1] The probe gate.  A globally reachable address may be probed from any
    vantage when it is declared, or when a name in an extended zone resolves to
    it directly and the shared-edge veto admits it; no realm is then named.  A
    non-globally-reachable address may be probed only when it is declared and
    the vantage is not an internet one, and the realm returned is a declared
    scope that holds it.  Nothing else is ever probed. *)
Theorem ProbeRealm_gate e addr vc :
  let a := Unmap addr in
  if IsNonGloballyReachable a
  then (∀ p, ProbeRealm e addr vc = (p, true) →
          p ∈ AddressScopes e ∧ Contains p a = true) ∧
       (MayProbe e addr vc = true ↔ declared e a ∧ vc ≠ ClassInternet)
  else (ProbeRealm e addr vc).1 = PrefixZero ∧
       (MayProbe e addr vc = true ↔
          declared e a ∨ (∃ name, cited e name a) ∧ admits (edgeFanout e) a = true).
Proof.
  intros a. pose proof (MayProbe_spec e addr vc) as HM. cbv zeta in HM. fold a in HM.
  assert (Hu : Unmap a = a) by apply Unmap_idem.
  destruct (IsNonGloballyReachable a) eqn:Ei; (split; [|exact HM]); unfold ProbeRealm; fold a;
    rewrite Ei; destruct (bool_decide (Derive e a = Operator)); simpl; try done.
  destruct (coveringAddressScope_spec e a Hu) as [(_ & p & -> & Hp & Hcp)|[_ ->]]; simpl; [|done].
  destruct (IsInternet vc); naive_solver.
Qed.

(** ** The veto *)

Lemma admits_declared e f a :
  declared (WithEdgeFanout e f) a ↔ declared e a.
Proof. done. Qed.

Lemma existsb_measured f l :
  existsb (λ a, bool_decide (is_Some (ef_Shared f !! a))) l = true ↔
    ∃ a, a ∈ l ∧ is_Some (ef_Shared f !! a).
Proof. rewrite existsb_bool. by setoid_rewrite bool_decide_eq_true. Qed.

Lemma admits_overExtension f cs a :
  admits (overExtension f cs) a = true ↔
    ef_Enabled f = false ∨
    (ef_BatchCompleted f = true ∧ cs ≠ [] ∧ ∀ c, c ∈ cs → ef_Shared f !! c = None) ∨
    ef_Shared f !! a = Some false.
Proof.
  unfold overExtension, admits, inForce. destruct f as [en bc er sh pa]. cbn.
  destruct en; cbn; [|naive_solver].
  assert (Hsh : (match sh !! a with Some s => negb s | None => false end) = true ↔
    sh !! a = Some false) by (destruct (sh !! a) as [[]|]; naive_solver).
  destruct bc; cbn; [|naive_solver].
  destruct (Nat.eqb_spec (length cs) 0) as [H0|H0]; cbn.
  { apply nil_length_inv in H0. naive_solver. }
  assert (cs ≠ []) by (by intros ->).
  destruct (existsb _ cs) eqn:Ex; cbn.
  - apply existsb_bool in Ex as (c & Hc & Hm%bool_decide_eq_true). rewrite Hsh.
    split; [by right; right|]. intros [?|[(_ & _ & Hn)|?]]; [done| |done].
    rewrite (Hn c Hc) in Hm. by destruct Hm.
  - split; [|done]. intros _. right; left. split; [done|split; [done|]].
    intros c Hc. apply eq_None_not_Some. intros Hs.
    rewrite existsb_false in Ex. specialize (Ex c Hc). by apply bool_decide_eq_false in Ex.
Qed.

(** [C2] The measurement narrows the extension limb and nothing else.  Under a
    reading [f], an address is admitted exactly when it is measured and not
    shared, except where the Scan is off or a completed batch measured none of
    the candidates (an errored limb): those reach.  What the measurement refuses
    was never more than what the unmeasured estate reaches, and a declared
    address is probed whatever the measurement says. *)
Theorem WithEdgeFanout_narrows_extension e f addr vc :
  let a := Unmap addr in
  let e' := WithEdgeFanout e f in
  (declared e a → MayProbe e' addr vc = negb (IsNonGloballyReachable a && IsInternet vc)) ∧
  (MayProbe e' addr vc = true → MayProbe (WithEdgeFanout e EdgeFanoutZero) addr vc = true) ∧
  (admits (edgeFanout e') a = true ↔
     ef_Enabled f = false ∨
     (ef_BatchCompleted f = true ∧ ExtensionCandidates e ≠ [] ∧
      ∀ c, c ∈ ExtensionCandidates e → ef_Shared f !! c = None) ∨
     ef_Shared f !! a = Some false).
Proof.
  intros a e'. split; [|split; [|apply admits_overExtension]].
  - intros Hd. apply eq_bool_prop_intro. rewrite !Is_true_true, MayProbe_spec. fold a.
    unfold IsInternet. destruct (IsNonGloballyReachable a); [|by split; [|left]].
    case_bool_decide; simpl; naive_solver.
  - rewrite !MayProbe_spec. fold a. destruct (IsNonGloballyReachable a); [tauto|].
    intros [Hd|[Hc _]]; [by left|right]. split; [exact Hc|].
    apply admits_overExtension. by left.
Qed.

(** ** Candidates and the population *)

Definition citation_of (e : Estate) (r : Resolution) : option (Resolution * Resolution) :=
  let r := mkResolution (Owner r) (Unmap (Address r)) in
  if IsNonGloballyReachable (Address r) || negb (withinExtendedZone e (Owner r)) then None
  else Some (r, r).

Lemma ExtensionCitations_dedup e :
  ExtensionCitations e = (dedup (citation_of e) (Resolutions e)).2.
Proof.
  unfold ExtensionCitations, dedup. f_equal. apply foldl_ext. intros [seen out] r _.
  unfold citation_step, dedup_step, citation_of. cbn.
  destruct (IsNonGloballyReachable _ || _), (bool_decide _); done.
Qed.

Lemma elem_of_ExtensionCitations e r :
  r ∈ ExtensionCitations e ↔ cited e (Owner r) (Address r).
Proof.
  rewrite ExtensionCitations_dedup, (dedup_elem _ id).
  - unfold citation_of, cited, withinExtendedZone. setoid_rewrite <- WithinAnyZone_spec. split.
    + intros (x & Hx & Hf).
      destruct (IsNonGloballyReachable _ || _) eqn:E in Hf; simplify_eq/=. bool_to_prop.
      split; [|done]. by exists x.
    + intros ((x & Hx & Ho & Ha) & Hz & Hi). exists x. split; [done|].
      rewrite Ho, Ha. cbn. rewrite Hi, Hz. cbn. by destruct r.
  - unfold citation_of. intros x k b. destruct (_ || _); [done|]. by intros [= <- <-].
  - unfold citation_of. intros x y k b c. destruct (_ || _), (_ || _); [done..|].
    intros [= <- <-] [= Ho Ha <-]. by rewrite Ho, Ha.
Qed.

Lemma ExtensionCandidates_dedup e :
  ExtensionCandidates e =
    (dedup (λ r, Some (Address r, Address r)) (ExtensionCitations e)).2.
Proof. unfold ExtensionCandidates, dedup. f_equal. apply foldl_ext. by intros [seen out] r _. Qed.

Lemma elem_of_ExtensionCandidates e a :
  a ∈ ExtensionCandidates e ↔ ∃ name, cited e name a.
Proof.
  rewrite ExtensionCandidates_dedup, elem_of_dedup_by.
  setoid_rewrite elem_of_ExtensionCitations. split.
  - intros (r & Hr & <-). by exists (Owner r).
  - intros (n & Hn). by exists (mkResolution n a).
Qed.

Lemma cited_unmapped e name a : cited e name a → Unmap a = a.
Proof. intros [(r & _ & _ & <-) _]. apply Unmap_idem. Qed.

(** A scope whose addresses are their own [Unmap]: no IPv4-mapped range. *)
Definition scope_unmapped (p : Prefix) : Prop :=
  Prefix_valid p ∧ ∀ a, Addr_wf a → Contains p a = true → Unmap a = a.

Lemma elem_of_EdgeFanoutPopulation e a :
  a ∈ EdgeFanoutPopulation e ↔
    (∃ name, cited e name a) ∨
    (IsNonGloballyReachable a = false ∧ AddressExcluded e a = false ∧
     ∃ p b, p ∈ AddressScopes e ∧ b ∈ EnumerateAddresses p ∧ Unmap b = a).
Proof.
  unfold EdgeFanoutPopulation. rewrite elem_of_app, elem_of_ExtensionCandidates.
  rewrite list_elem_of_In, in_flat_map. setoid_rewrite in_flat_map.
  setoid_rewrite <- list_elem_of_In. split.
  - intros [?|(p & Hp & b & Hb & Hin)]; [by left|right]. revert Hin.
    case_bool_decide; [set_solver|]. destruct (IsNonGloballyReachable _) eqn:Ei; [set_solver|].
    destruct (AddressExcluded _ _) eqn:Ex; [set_solver|]. rewrite list_elem_of_singleton.
    intros ->. split; [done|split; [done|]]. eauto.
  - intros [?|(Hi & Hx & p & b & Hp & Hb & <-)]; [by left|].
    destruct (decide (Unmap b ∈ ExtensionCandidates e)) as [Hc|Hc].
    + left. by apply elem_of_ExtensionCandidates.
    + right. exists p. split; [done|]. exists b. split; [done|].
      rewrite bool_decide_false by set_solver. rewrite Hi, Hx. by left.
Qed.

Lemma scope_unmapped_v4 p v : Prefix_valid p → p_ip p = Addr4 v → scope_unmapped p.
Proof.
  intros Hv Hp. split; [done|]. intros a Ha Hc.
  apply Contains_spec in Hc as (_ & _ & Hl & _); [|apply Hv|done].
  rewrite Hp in Hl. destruct a; cbn [BitLen] in Hl; done || lia.
Qed.

(** [C3] The measured population is the gate's own reach.  Where no declared
    scope meets the IPv4-mapped range, the addresses the fan-out Scan is asked
    to handshake are exactly the globally reachable ones the gate admits before
    any measurement, from every vantage class. *)
Theorem EdgeFanoutPopulation_is_the_gate e vc a :
  Forall scope_unmapped (AddressScopes e) → Addr_wf a →
  a ∈ EdgeFanoutPopulation e ↔
    Unmap a = a ∧ IsNonGloballyReachable a = false ∧
    MayProbe (WithEdgeFanout e EdgeFanoutZero) a vc = true.
Proof.
  intros Hs Ha. rewrite Forall_forall in Hs.
  rewrite elem_of_EdgeFanoutPopulation, MayProbe_spec. cbv zeta. split.
  - intros [[n Hc]|(Hi & Hx & p & b & Hp & Hb & Hba)].
    + pose proof (cited_unmapped e n a Hc) as Hu. rewrite Hu. pose proof Hc as (_ & _ & Hi).
      rewrite Hi. split; [done|split; [done|]]. right. split; [by exists n|done].
    + destruct (Hs p Hp) as [Hv Hun]. apply elem_of_EnumerateAddresses in Hb as [Hbw Hbc]; [|done].
      assert (a = b) by (by rewrite <- Hba, (Hun b Hbw Hbc)). subst b.
      rewrite Hba, Hi. split; [done|split; [done|left]]. split; [by exists p|].
      rewrite AddressExcluded_false, Hba in Hx. exact Hx.
  - intros (Hu & Hi & Hm). rewrite Hu, Hi in Hm. destruct Hm as [[(p & Hp & Hc) Hx]|[[n Hn] _]].
    + right. split; [done|]. split; [by rewrite AddressExcluded_false, Hu|].
      exists p, a. split; [done|split; [|done]]. apply elem_of_EnumerateAddresses; [by apply Hs|done].
    + left. by exists n.
Qed.

Lemma EdgeFanoutPopulation_is_the_gate_witness :
  let e := mkEstate [mkPrefix (Addr4 3324575744) 30] ["example.com"%string]
             [mkResolution "www.Example.com." (Addr4 134744072)] EdgeFanoutZero
             [mkPrefix (Addr4 3324575745) 32] in
  Addr4 134744072 ∈ EdgeFanoutPopulation e ∧ Addr4 3324575744 ∈ EdgeFanoutPopulation e.
Proof.
  intros e.
  assert (Hs : Forall scope_unmapped (AddressScopes e)).
  { apply Forall_singleton, (scope_unmapped_v4 _ 3324575744); [|reflexivity].
    apply Prefix_check_valid. reflexivity. }
  split.
  - apply (EdgeFanoutPopulation_is_the_gate e ClassInternet (Addr4 134744072) Hs);
      [split; [discriminate|reflexivity]|vm_compute; auto].
  - apply (EdgeFanoutPopulation_is_the_gate e ClassInternet (Addr4 3324575744) Hs);
      [split; [discriminate|reflexivity]|vm_compute; auto].
Defined.

(** A declared scope over the IPv4-mapped range is enumerated and each address
    unmapped, though the gate, which unmaps before it tests a scope, refuses
    every one of them. *)
Lemma mapped_scope_measured_not_probed :
  let e := mkEstate [mkPrefix (Addr6 (65535 * 2 ^ 32 + 3324575744) "") 127] [] [] EdgeFanoutZero [] in
  EdgeFanoutPopulation e = [Addr4 3324575744; Addr4 3324575745] ∧
  Derive e (Addr4 3324575744) = ThirdParty ∧
  MayProbe e (Addr4 3324575744) ClassInternet = false.
Proof. vm_compute. done. Qed.

(** ** The censuses *)

Definition census_of (e : Estate) (r : Resolution)
    : option ((string * Addr) * ExtensionCensusEntry) :=
  let addr := Unmap (Address r) in
  if IsNonGloballyReachable addr || negb (withinExtendedZone e (Owner r)) then None
  else
    let reading := ef_Shared (edgeFanout e) !! addr in
    if bool_decide (reading = Some false) then None
    else Some ((Owner r, addr),
      mkExtEntry (Owner r) addr
        (match reading with Some _ => ExtensionDeclined | None => ExtensionPending end)
        (coveringAddressScope e addr).1).

Definition census_key (en : ExtensionCensusEntry) : string * Addr := (ec_Name en, ec_Address en).

Lemma ExtensionCensus_dedup e :
  (foldl (census_step e) (∅, []) (Resolutions e)) = dedup (census_of e) (Resolutions e).
Proof.
  unfold dedup. apply foldl_ext. intros [seen out] r _. unfold census_step, dedup_step, census_of.
  cbn. destruct (IsNonGloballyReachable _ || _); [done|]. by destruct (bool_decide (_ = Some false)).
Qed.

Lemma census_of_key e r k en : census_of e r = Some (k, en) → census_key en = k.
Proof.
  unfold census_of. destruct (_ || _); [done|]. destruct (bool_decide _); [done|].
  by intros [= <- <-].
Qed.

Lemma census_of_det e r r' k en en' :
  census_of e r = Some (k, en) → census_of e r' = Some (k, en') → en = en'.
Proof.
  unfold census_of. destruct (_ || _); [done|]. destruct (bool_decide _); [done|].
  destruct (_ || _); [done|]. destruct (bool_decide _); [done|].
  intros [= <- <-] [= Ho Ha <-]. by rewrite Ho, Ha.
Qed.

(** The held extensions are listed, all and only: while the veto is in
    force the census has one row for each name and address the extension claims
    and the gate refuses, pending where nothing is measured and declined where
    the edge is shared, beside the declared scope that reaches it anyway; out of
    force it is empty. *)
Theorem ExtensionCensus_lists_the_held e :
  (inForce (edgeFanout e) = false → ExtensionCensus e = []) ∧
  (inForce (edgeFanout e) = true → ∀ en,
     en ∈ ExtensionCensus e ↔
       cited e (ec_Name en) (ec_Address en) ∧
       admits (edgeFanout e) (ec_Address en) = false ∧
       ec_State en = (if decide (is_Some (ef_Shared (edgeFanout e) !! ec_Address en))
                      then ExtensionDeclined else ExtensionPending) ∧
       ec_Scope en = (coveringAddressScope e (ec_Address en)).1) ∧
  NoDup (map census_key (ExtensionCensus e)).
Proof.
  unfold ExtensionCensus. split; [by intros ->|]. split.
  - intros Hf en. rewrite Hf. cbn [negb]. rewrite ExtensionCensus_dedup.
    rewrite (dedup_elem _ census_key); [|apply census_of_key|apply census_of_det].
    unfold admits, census_of, cited, withinExtendedZone. rewrite Hf.
    setoid_rewrite <- WithinAnyZone_spec. cbn [negb].
    split.
    + intros (r & Hr & He).
      destruct (IsNonGloballyReachable (Unmap (Address r))) eqn:Ei; [done|].
      destruct (WithinAnyZone (Owner r) (ExtendedZones e)) eqn:Ez; [|done]. cbn in He.
      destruct (ef_Shared (edgeFanout e) !! Unmap (Address r)) as [[]|] eqn:Es; simpl in He;
        try done; apply Some_inj, pair_equal_spec in He as [_ <-]; cbn; rewrite Es, Ez;
        (split; [split; [by exists r|done]|]); (split; [done|split; [|done]]).
      * rewrite decide_True; [done|by eexists].
      * rewrite decide_False; [done|]. by intros [? ?].
    + intros (((r & Hr & Ho & Ha) & Hz & Hi) & Had & Hst & Hsc). exists r. split; [done|].
      rewrite Ho, Ha, Hz, Hi. cbn. unfold census_key. destruct en as [n a st sc]. simpl in *.
      destruct (ef_Shared (edgeFanout e) !! a) as [[]|] eqn:Es; simpl in *; subst; try done.
  - destruct (inForce _); cbn [negb]; [|constructor]. rewrite ExtensionCensus_dedup.
    apply dedup_NoDup, census_of_key.
Qed.

(** *** The scope census *)

Lemma scope_step_dedup l :
  let r := foldl scope_step (∅, []) l in
  let d := dedup (λ p : Prefix, Some (p, p)) l in
  r.2 = d.2 ∧ dom r.1 = d.1 ∧ ∀ p n, r.1 !! p = Some n → n = 0.
Proof.
  induction l as [|p l IH] using rev_ind; [cbn; set_solver|]. cbv zeta in *.
  rewrite dedup_snoc, foldl_app. cbn. destruct (foldl scope_step (∅, []) l) as [counts sc].
  destruct IH as (H2 & Hd & H0). unfold dedup_step, scope_step. cbn in *.
  destruct (counts !! p) as [n|] eqn:E.
  - rewrite bool_decide_true by (rewrite <- Hd; by apply elem_of_dom_2 in E). done.
  - rewrite bool_decide_false by (rewrite <- Hd; by apply not_elem_of_dom). cbn.
    split; [by rewrite H2|]. split; [rewrite dom_insert_L; set_solver|].
    intros q n. rewrite lookup_insert_Some. naive_solver.
Qed.

(** What one measured address adds to one scope. *)
Definition counted (e : Estate) (p : Prefix) (kv : Addr * bool) : bool :=
  kv.2 && negb (AddressExcluded e kv.1) && Contains p kv.1.

Lemma edge_step_counts e scopes counts kv p :
  NoDup scopes → p ∈ scopes →
  default 0 (edge_step e scopes counts kv !! p) =
    default 0 (counts !! p) + (if counted e p kv then 1 else 0).
Proof.
  intros Hnd Hp. destruct kv as [a sh]. unfold edge_step, counted. cbn.
  destruct sh; cbn; [|lia]. destruct (AddressExcluded e a); cbn; [lia|].
  assert (Hout : ∀ l c, p ∉ l → default 0 (foldl (λ (c : gmap Prefix Z) q, if Contains q a
      then <[q := default 0 (c !! q) + 1]> c else c) c l !! p) = default 0 (c !! p)).
  { induction l as [|q l IH]; intros c Hq; [done|]. cbn. rewrite IH by set_solver.
    destruct (Contains q a); [|done]. rewrite lookup_insert_ne; [done|set_solver]. }
  revert counts. induction Hnd as [|q l Hq Hnd IH]; intros counts; [set_solver|].
  cbn. apply elem_of_cons in Hp as [->|Hp].
  - rewrite Hout by done. destruct (Contains q a); [|lia]. by rewrite lookup_insert_eq.
  - rewrite IH by done. destruct (Contains q a); [|lia].
    rewrite lookup_insert_ne; [done|]. by intros ->.
Qed.

Lemma edge_steps_count e scopes walk counts p :
  NoDup scopes → p ∈ scopes →
  default 0 (foldl (edge_step e scopes) counts walk !! p) =
    default 0 (counts !! p) + count_if (counted e p) walk.
Proof.
  intros Hnd Hp. revert counts. induction walk as [|kv walk IH]; intros counts.
  { rewrite count_if_nil. cbn [foldl]. lia. }
  cbn [foldl]. rewrite IH, edge_step_counts, count_if_cons by done. lia.
Qed.

Lemma count_if_perm {A} (P : A → bool) l k : l ≡ₚ k → count_if P l = count_if P k.
Proof. intros Hp. unfold count_if. by rewrite Hp. Qed.

Lemma AddressScopeCensus_eq e walk :
  AddressScopeCensus e walk =
    if negb (ef_Enabled (edgeFanout e)) || ef_Partial (edgeFanout e) then []
    else omap (λ p, let n := count_if (counted e p) walk in
                    if n =? 0 then None else Some (mkScopeEntry p n))
           (dedup (λ p : Prefix, Some (p, p)) (AddressScopes e)).2.
Proof.
  unfold AddressScopeCensus. destruct (_ || _); [done|].
  pose proof (scope_step_dedup (AddressScopes e)) as Hs. cbv zeta in Hs.
  destruct (foldl scope_step (∅, []) (AddressScopes e)) as [counts sc].
  destruct Hs as (Hsc & Hd & H0). cbn in *.
  assert (Hnd : NoDup sc).
  { rewrite Hsc. apply (NoDup_dedup_by id). }
  rewrite <- Hsc. clear Hsc Hd.
  assert (Hin : ∀ p, p ∈ sc → default 0 (foldl (edge_step e sc) counts walk !! p) =
    count_if (counted e p) walk).
  { intros p Hp. rewrite edge_steps_count by done.
    destruct (counts !! p) as [n|] eqn:E; [|done]. by rewrite (H0 _ _ E). }
  clear Hnd H0. revert Hin. generalize (foldl (edge_step e sc) counts walk) as m. intros m Hin.
  induction sc as [|p sc IH]; [done|]. cbn. rewrite Hin by (by left).
  rewrite IH; [done|]. intros q Hq. apply Hin. by right.
Qed.

Lemma count_if_map_size (P : Addr * bool → bool) (m : gmap Addr bool) :
  count_if P (map_to_list m) = Z.of_nat (size (filter (λ kv, P kv = true) m)).
Proof.
  unfold count_if. f_equal. rewrite map_filter_alt, map_size_list_to_map.
  - f_equal. apply list_filter_iff. intros x. apply Is_true_true.
  - apply (sublist_NoDup _ (map_to_list m).*1); [apply NoDup_fst_map_to_list|].
    apply fmap_sublist, sublist_filter.
Qed.

(** The scope census counts what was measured, whatever order Go walks its
    map in: one row for each distinct declared scope holding a shared address
    that no exclusion takes out, with the number of those addresses, overlapping
    scopes each counting it; a Scan that is off or a partial read counts nothing. *)
Theorem AddressScopeCensus_counts e walk :
  walk ≡ₚ map_to_list (ef_Shared (edgeFanout e)) →
  AddressScopeCensus e walk =
    AddressScopeCensus e (map_to_list (ef_Shared (edgeFanout e))) ∧
  NoDup (map Scope (AddressScopeCensus e walk)) ∧
  ∀ p n,
    mkScopeEntry p n ∈ AddressScopeCensus e walk ↔
      ef_Enabled (edgeFanout e) = true ∧ ef_Partial (edgeFanout e) = false ∧
      p ∈ AddressScopes e ∧ n ≠ 0 ∧
      n = Z.of_nat (size (filter (λ kv : Addr * bool,
            (kv.2 && negb (AddressExcluded e kv.1) && Contains p kv.1) = true)
            (ef_Shared (edgeFanout e)))).
Proof.
  intros Hw. rewrite !AddressScopeCensus_eq.
  destruct (ef_Enabled (edgeFanout e)), (ef_Partial (edgeFanout e)); cbn [negb orb];
    try (split; [done|split; [constructor|set_solver]]).
  set (d := (dedup _ _).2). split; [|split].
  - apply list_omap_ext, Forall2_same_length_lookup_2; [done|].
    intros i p q Hp Hq. simplify_eq. by rewrite (count_if_perm _ _ _ Hw).
  - apply (sublist_NoDup _ d).
    + apply (NoDup_dedup_by id).
    + clearbody d. induction d as [|p d IH]; [done|]. cbn [omap list_omap].
      destruct (_ =? 0); [by apply sublist_cons|]. by apply sublist_skip.
  - intros p n. rewrite list_elem_of_omap, <- (count_if_map_size (counted e p)).
    rewrite <- (count_if_perm _ _ _ Hw). split.
    + intros (q & Hq & Hn). destruct (Z.eqb_spec (count_if (counted e q) walk) 0); [done|].
      simplify_eq. split_and!; try done.
      by apply (elem_of_dedup_by id) in Hq as (r & Hr & <-).
    + intros (_ & _ & Hp & H0 & ->). exists p. split.
      * apply (elem_of_dedup_by id). by exists p.
      * by rewrite (proj2 (Z.eqb_neq _ _) H0).
Qed.

Lemma AddressScopeCensus_counts_witness :
  let f := mkFanout true true false
    (list_to_map [(Addr4 3324575744, true); (Addr4 3324575745, false); (Addr4 3324575746, true)]) false in
  let e := mkEstate [mkPrefix (Addr4 3324575744) 24; mkPrefix (Addr4 3324575744) 24]
             [] [] f [mkPrefix (Addr4 3324575746) 32] in
  mkScopeEntry (mkPrefix (Addr4 3324575744) 24) 1 ∈
    AddressScopeCensus e (rev (map_to_list (ef_Shared f))).
Proof.
  intros f e.
  assert (Hp : rev (map_to_list (ef_Shared f)) ≡ₚ map_to_list (ef_Shared (edgeFanout e)))
    by (symmetry; apply Permutation_rev).
  apply (AddressScopeCensus_counts e _ Hp). split_and!; try (vm_compute; done). by left.
Defined.

(** ** Realms *)

Lemma Contains_invalid p a : Prefix_IsValid p = false → Contains p a = false.
Proof. intros Hv. unfold Contains. by rewrite Hv. Qed.

Lemma Prefix_wf_valid p : Prefix_wf p → Prefix_IsValid p = true → Prefix_valid p.
Proof. intros Hwf Hv. split; [done|]. unfold Prefix_IsValid in Hv. by bool_to_prop. Qed.

Lemma Realm_With_Contains r s a :
  Prefix_wf s → Addr_wf a →
  Realm_Contains (Realm_With r s) a = Realm_Contains r a || Contains s (Unmap a).
Proof.
  intros Hs Ha. unfold Realm_With. destruct (Prefix_IsValid s) eqn:Ev; simpl;
    [|by rewrite Contains_invalid, orb_false_r].
  pose proof (Contains_masked s (Unmap a) (Prefix_wf_valid s Hs Ev) (Unmap_wf a Ha)) as Hm.
  rewrite <- Hm. unfold Realm_Contains. destruct (existsb _ (scopes r)) eqn:Ex; cbn [scopes].
  - apply existsb_bool in Ex as (p & Hp & Heq%bool_decide_eq_true). subst p.
    destruct (Contains (Masked s) (Unmap a)) eqn:Ec; [|by rewrite orb_false_r].
    rewrite orb_true_r. apply existsb_bool. eauto.
  - rewrite existsb_app. simpl. by rewrite orb_false_r.
Qed.

Lemma Realm_With_NoDup r s : NoDup (scopes r) → NoDup (scopes (Realm_With r s)).
Proof.
  intros Hr. unfold Realm_With. destruct (negb _); [done|].
  destruct (existsb _ (scopes r)) eqn:Ex; [done|]. simpl. apply NoDup_app.
  split; [done|split; [|apply NoDup_singleton]]. intros p Hp ->%list_elem_of_singleton.
  rewrite existsb_false in Ex. specialize (Ex _ Hp). by apply bool_decide_eq_false in Ex.
Qed.

(** A realm holds exactly what its scopes hold: adding scopes one by one,
    whatever their host bits, repeats or invalid members, gives a realm that
    contains an address exactly when one of them contains it unmapped, and that
    lists each masked scope once. *)
Theorem Realm_With_union l a :
  Forall Prefix_wf l → Addr_wf a →
  let r := foldl Realm_With (mkRealm []) l in
  Realm_Contains r a = existsb (λ p, Contains p (Unmap a)) l ∧ NoDup (scopes r) ∧
  (∀ p, p ∈ scopes r → ∃ s, s ∈ l ∧ p = Masked s ∧ Prefix_valid s).
Proof.
  intros Hl Ha. induction l as [|s l IH] using rev_ind; [split_and!; [done|constructor|set_solver]|].
  apply Forall_app in Hl as [Hl [Hs _]%Forall_cons]. cbv zeta in *. rewrite foldl_app. cbn [foldl].
  destruct (IH Hl) as (Hc & Hnd & Hin). split; [|split].
  - rewrite Realm_With_Contains, Hc, existsb_app by done. simpl. by rewrite orb_false_r.
  - by apply Realm_With_NoDup.
  - set (r := foldl Realm_With (mkRealm []) l) in *. unfold Realm_With.
    assert (Hold : ∀ p, p ∈ scopes r → ∃ s0, s0 ∈ l ++ [s] ∧ p = Masked s0 ∧ Prefix_valid s0).
    { intros p Hp. destruct (Hin p Hp) as (s0 & ? & ?). exists s0. set_solver. }
    destruct (Prefix_IsValid s) eqn:Ev; simpl; [|exact Hold].
    destruct (existsb _ (scopes r)); [exact Hold|]. cbn [scopes].
    intros p [?| ->%list_elem_of_singleton]%elem_of_app; [auto|].
    exists s. split; [set_solver|]. split; [done|by apply Prefix_wf_valid].
Qed.

Lemma Realm_With_union_witness :
  let l := [mkPrefix (Addr4 167772161) 8; mkPrefix (Addr4 167772160) 8; PrefixZero] in
  Realm_Contains (foldl Realm_With (mkRealm []) l) (Addr6 (65535 * 2 ^ 32 + 167772169) "") = true.
Proof.
  intros l. assert (Hl : Forall Prefix_wf l).
  { apply (Prefix_check_wf_list l). reflexivity. }
  assert (Ha : Addr_wf (Addr6 (65535 * 2 ^ 32 + 167772169) "")) by (split; [discriminate|reflexivity]).
  destruct (Realm_With_union l _ Hl Ha) as [-> _]. reflexivity.
Defined.

(** ** The fan-out *)

Lemma elem_of_registrableSet psl sans d :
  d ∈ registrableSet psl sans ↔ ∃ san, san ∈ sans ∧ registrableDomain psl san = Some d.
Proof.
  unfold registrableSet. induction sans as [|san sans IH] using rev_ind; [set_solver|].
  rewrite foldl_app. cbn [foldl]. setoid_rewrite elem_of_app. setoid_rewrite list_elem_of_singleton.
  destruct (registrableDomain psl san) as [reg|] eqn:E.
  - rewrite elem_of_union, elem_of_singleton, IH. naive_solver.
  - rewrite IH. naive_solver.
Qed.

(** The fan-out is a count of distinct registrable domains: the domains are
    listed in order, each once, all and only those some name of the certificate
    reduces to; their number is the count the veto tests against the threshold;
    and neither repetition nor order of the names moves any of it. *)
Theorem FanOut_counts_domains psl sans :
  let ds := RegistrableDomains psl sans in
  (∀ d, d ∈ ds ↔ ∃ san, san ∈ sans ∧ registrableDomain psl san = Some d) ∧
  NoDup ds ∧ StronglySorted (λ a b, str_less b a = false) ds ∧
  FanOut psl sans = Z.of_nat (length ds) ∧
  (SharedEdge psl sans = true ↔ 100 ≤ Z.of_nat (length ds)) ∧
  (∀ sans', (∀ s, s ∈ sans ↔ s ∈ sans') → RegistrableDomains psl sans' = ds).
Proof.
  intros ds. assert (Hlen : FanOut psl sans = Z.of_nat (length ds)).
  { subst ds. unfold FanOut, RegistrableDomains, sorted_keys, sort_strings.
    rewrite sort_stable_length. done. }
  split; [|split; [|split; [|split; [exact Hlen|split]]]].
  - intros d. subst ds. unfold RegistrableDomains. rewrite elem_of_sorted_keys.
    apply elem_of_registrableSet.
  - apply NoDup_sorted_keys.
  - apply (sort_stable_Sorted str_less).
  - unfold SharedEdge, SharedEdgeThreshold. rewrite Hlen. apply Z.leb_le.
  - intros sans' Hss. subst ds. unfold RegistrableDomains. f_equal. apply set_eq. intros d.
    rewrite !elem_of_registrableSet. by setoid_rewrite Hss.
Qed.
