(* ===== verification/ResolutionWalk.v ===== *)
(** * The resolution walk ([internal/measure/resolutionwalk])

    Models [leaf.go]: the query budget of one exchange, the declared path's
    retries, the outcome decided over the query types, and the walk of the
    delegation.  The peer is the code's [Peer] interface, a parameter: a
    computation over a world it may change.  Building and parsing DNS packets
    ([netpeer.go]) is on the other side of that interface. *)

From S2P Require Import Prelude GoStr NetIP NetParse.

(** ** Messages *)

Inductive Path := PathDeclared | PathWalk.
Inductive Transport := UDP | TCP.

#[export] Instance Path_eq : EqDecision Path.
Proof. solve_decision. Defined.
#[export] Instance Transport_eq : EqDecision Transport.
Proof. solve_decision. Defined.

(** [Rcode] and [Qtype] are Go string types. *)
Definition NOERROR : string := "NOERROR".
Definition NXDOMAIN : string := "NXDOMAIN".
Definition FORMERR : string := "FORMERR".
Definition REFUSED : string := "REFUSED".
Definition SERVFAIL : string := "SERVFAIL".

Definition QtypeA : string := "A".
Definition QtypeAAAA : string := "AAAA".
Definition QtypeCNAME : string := "CNAME".
Definition QtypeNS : string := "NS".
Definition QtypeSOA : string := "SOA".
Definition QtypeMX : string := "MX".
Definition QtypeTXT : string := "TXT".

Record RR := mkRR { rr_Name : string; rr_Type : string; rr_Data : string }.

Record Query := mkQuery {
  q_Path : Path;
  q_Server : string;
  q_Name : string;
  q_Qtype : string;
  q_Transport : Transport;
  q_EDNS : bool;
  q_Cookie : bool
}.

Record Msg := mkMsg {
  m_Reached : bool;
  m_Rcode : string;
  m_Truncated : bool;
  m_Unreachable : bool;
  m_Answer : list RR
}.

(** [Msg{}]. *)
Definition MsgZero : Msg := mkMsg false "" false false [].

Record TransportPolicy := mkTransport {
  UDPAttempts : Z;
  TCPAttempts : Z;
  FallbackOnTC : bool;
  EDNSlessRetry : bool
}.

Record Offers := mkOffers { Qtypes : list string; o_Cookie : bool; o_Transport : TransportPolicy }.

Definition DefaultOffers : Offers :=
  mkOffers [QtypeA; QtypeAAAA; QtypeCNAME; QtypeNS; QtypeSOA; QtypeMX; QtypeTXT] true
    (mkTransport 2 1 true true).

(** ** Names and address sets *)

Definition asciiLower (s : string) : string := string_map fold_byte s.

Definition CanonicalName (name : string) : string := asciiLower (TrimSuffix name ".").

(** [addrSet]: the [seen] map, nil and empty alike. *)
Abbreviation addrSet := (gmap Addr string).

Definition addrSet_add (s : addrSet) (text owner : string) : addrSet :=
  match ParseAddr text with
  | None => s
  | Some addr =>
      let addr := Unmap addr in
      match s !! addr with Some _ => s | None => <[addr := CanonicalName owner]> s end
  end.

Definition addrSet_sorted (s : addrSet) : list string :=
  map Addr_String (sort_stable Addr_Less (map fst (map_to_list s))).

Definition addrSet_owners (s : addrSet) : gmap string string :=
  list_to_map (map (λ kv, (Addr_String kv.1, kv.2)) (map_to_list s)).

Definition rr_less (a b : RR) : bool :=
  if negb (String.eqb (rr_Type a) (rr_Type b)) then str_less (rr_Type a) (rr_Type b)
  else str_less (rr_Data a) (rr_Data b).

Definition normaliseRR (rr : RR) : RR :=
  let data :=
    if String.eqb (rr_Type rr) QtypeA || String.eqb (rr_Type rr) QtypeAAAA then
      match ParseAddr (rr_Data rr) with
      | Some addr => Addr_String (Unmap addr)
      | None => rr_Data rr
      end
    else if String.eqb (rr_Type rr) QtypeCNAME || String.eqb (rr_Type rr) QtypeNS then
      CanonicalName (rr_Data rr)
    else rr_Data rr in
  mkRR (CanonicalName (rr_Name rr)) (rr_Type rr) data.

(** A [nil] slice for an empty input.  [sort.Slice] is stable up to twelve
    elements; of more, records equal in type and data, which differ in their name
    alone, may come out in another order than here. *)
Definition normaliseRRs (rrs : list RR) : list RR := sort_stable rr_less (map normaliseRR rrs).

(** ** Resolution *)

Inductive Outcome := OutcomeResolved | OutcomeNoData | OutcomeNameError | OutcomeGap.

#[export] Instance Outcome_eq : EqDecision Outcome.
Proof. solve_decision. Defined.

Record Resolution := mkResolution {
  rs_Outcome : Outcome;
  rs_Addresses : list string;
  rs_Owners : gmap string string
}.

Record NSStatus := mkNS { ns_Server : string; ns_Serves : bool }.
Record Delegation := mkDelegation { dl_Lame : bool; dl_Gap : bool; dl_Nameservers : list NSStatus }.
Definition DelegationZero : Delegation := mkDelegation false false [].

Record DNSRecord := mkRecord { rec_Qtype : string; rec_RRs : list RR }.

(** The zero [Resolution] of an unreachable result has the empty outcome: [None]. *)
Record Result := mkResult {
  res_Name : string;
  res_Resolution : option Resolution;
  res_Delegation : Delegation;
  res_Records : list DNSRecord;
  res_Unreachable : bool
}.

Definition decideResolution (addrs : addrSet) (nxAll anyNoError anyReached sawCNAME : bool)
    : Resolution :=
  if (0 <? Z.of_nat (size addrs)) then
    mkResolution OutcomeResolved (addrSet_sorted addrs) (addrSet_owners addrs)
  else if negb anyReached then mkResolution OutcomeGap [] ∅
  else if nxAll then
    if sawCNAME then mkResolution OutcomeNoData [] ∅ else mkResolution OutcomeNameError [] ∅
  else if anyNoError then mkResolution OutcomeNoData [] ∅
  else mkResolution OutcomeGap [] ∅.

Section Peer.
Context {W : Type} (peer : Query → St W Msg).

(** The loop of [Exchange]: ask until a reply is not [Unreachable]. *)
Fixpoint attempt (n : nat) (q : Query) (last : Msg) : St W Msg :=
  match n with
  | O => mret last
  | S n' =>
      msg ← peer q;
      if negb (m_Unreachable msg) then mret msg else attempt n' q msg
  end.

Definition with_TCP (q : Query) : Query :=
  mkQuery (q_Path q) (q_Server q) (q_Name q) (q_Qtype q) TCP (q_EDNS q) (q_Cookie q).

Definition attempts_of (offers : Offers) (q : Query) : Z :=
  let n := match q_Transport q with
           | TCP => TCPAttempts (o_Transport offers)
           | UDP => UDPAttempts (o_Transport offers)
           end in
  if n <? 1 then 1 else n.

(** The recursive call is over TCP and does not recurse: two levels are enough. *)
Fixpoint exchange_levels (fuel : nat) (offers : Offers) (q : Query) : St W Msg :=
  match fuel with
  | O => mret MsgZero
  | S fuel' =>
      msg ← attempt (Z.to_nat (attempts_of offers q)) q MsgZero;
      if negb (m_Unreachable msg) then mret msg
      else if bool_decide (q_Transport q = TCP) || (TCPAttempts (o_Transport offers) <? 1)
      then mret msg
      else exchange_levels fuel' offers (with_TCP q)
  end.

Definition Exchange (offers : Offers) (q : Query) : St W Msg := exchange_levels 2 offers q.

(** [(msg, ok, unreachable)]. *)
Definition exchangeDeclared (offers : Offers) (name qt : string) : St W (Msg * bool * bool) :=
  let q := mkQuery PathDeclared "" name qt UDP true (o_Cookie offers) in
  msg ← Exchange offers q;
  if m_Unreachable msg then mret (MsgZero, false, true)
  else
    let retry := m_Reached msg && String.eqb (m_Rcode msg) FORMERR && q_EDNS q &&
                 EDNSlessRetry (o_Transport offers) in
    let q' := if retry then mkQuery PathDeclared "" name qt UDP false (o_Cookie offers) else q in
    msg ← (if retry then Exchange offers q' else mret msg);
    if retry && m_Unreachable msg then mret (MsgZero, false, true)
    else
      let over_tcp := m_Reached msg && m_Truncated msg && FallbackOnTC (o_Transport offers) &&
                      (0 <? TCPAttempts (o_Transport offers)) in
      msg ← (if over_tcp then Exchange offers (with_TCP q') else mret msg);
      if over_tcp && m_Unreachable msg then mret (MsgZero, false, true)
      else if over_tcp && m_Truncated msg then mret (MsgZero, false, false)
      else if negb (m_Reached msg) then mret (MsgZero, false, false)
      else if String.eqb (m_Rcode msg) SERVFAIL && (length (m_Answer msg) =? 0)%nat
      then mret (MsgZero, false, false)
      else mret (msg, true, false).

(** The state of the walk's loop over its nameservers. *)
Record walk_state := mkWalk {
  wk_statuses : list NSStatus; wk_anyReached : bool; wk_anyServes : bool; wk_allRefused : bool
}.

Definition walk_step (st : walk_state) (rr : RR) (ns : Msg) : walk_state :=
  let serves := m_Reached ns && negb (String.eqb (m_Rcode ns) REFUSED) &&
                negb (String.eqb (m_Rcode ns) SERVFAIL) in
  mkWalk (wk_statuses st ++ [mkNS (rr_Data rr) serves])
    (wk_anyReached st || m_Reached ns)
    (wk_anyServes st || (m_Reached ns && serves))
    (wk_allRefused st && negb (m_Reached ns && serves)).

Definition ask_nameserver (offers : Offers) (name : string) (rr : RR) : St W Msg :=
  Exchange offers (mkQuery PathWalk (rr_Data rr) name QtypeSOA UDP true (o_Cookie offers)).

Definition walk_verdict (st : walk_state) : Delegation :=
  let statuses := sort_stable (less_by ns_Server) (wk_statuses st) in
  if (length statuses =? 0)%nat then DelegationZero
  else if negb (wk_anyReached st) then mkDelegation false true statuses
  else if wk_allRefused st && negb (wk_anyServes st) then mkDelegation true false statuses
  else mkDelegation false false statuses.

Definition walk (offers : Offers) (name : string) : St W Delegation :=
  msg ← Exchange offers (mkQuery PathWalk "" name QtypeNS UDP true (o_Cookie offers));
  if (length (m_Answer msg) =? 0)%nat && negb (m_Reached msg) then mret DelegationZero
  else
    st ← for_each (λ st rr, ns ← ask_nameserver offers name rr; mret (walk_step st rr ns))
           (filter (λ rr, String.eqb (rr_Type rr) QtypeNS) (m_Answer msg))
           (mkWalk [] false false true);
    mret (walk_verdict st).

(** The state of [Resolve]'s loop over the query types. *)
Record resolve_state := mkResolve {
  rv_records : list DNSRecord; rv_addrs : addrSet;
  rv_nxAll : bool; rv_anyReached : bool; rv_anyNoError : bool; rv_sawCNAME : bool
}.

Definition answer_step (st : addrSet * bool) (rr : RR) : addrSet * bool :=
  if String.eqb (rr_Type rr) QtypeA || String.eqb (rr_Type rr) QtypeAAAA
  then (addrSet_add st.1 (rr_Data rr) (rr_Name rr), st.2)
  else if String.eqb (rr_Type rr) QtypeCNAME then (st.1, true) else st.

Definition resolve_step (st : resolve_state) (qt : string) (msg : Msg) (ok : bool)
    : resolve_state :=
  let records := rv_records st ++ [mkRecord qt (normaliseRRs (m_Answer msg))] in
  if negb ok then
    mkResolve records (rv_addrs st) (rv_nxAll st) (rv_anyReached st) (rv_anyNoError st)
      (rv_sawCNAME st)
  else
    let '(addrs, sawCNAME) := foldl answer_step (rv_addrs st, rv_sawCNAME st) (m_Answer msg) in
    mkResolve records addrs
      (rv_nxAll st && negb (negb (String.eqb (m_Rcode msg) NXDOMAIN))) true
      (rv_anyNoError st || String.eqb (m_Rcode msg) NOERROR) sawCNAME.

Fixpoint resolve_loop (offers : Offers) (key : string) (qts : list string) (st : resolve_state)
    : St W (bool * resolve_state) :=
  match qts with
  | [] => mret (false, st)
  | qt :: qts' =>
      r ← exchangeDeclared offers key qt;
      let '(msg, ok, unreachable) := r in
      if unreachable : bool then mret (true, st)
      else resolve_loop offers key qts' (resolve_step st qt msg ok)
  end.

Definition Resolve (offers : Offers) (name : string) : St W Result :=
  let key := CanonicalName name in
  r ← resolve_loop offers key (Qtypes offers) (mkResolve [] ∅ true false false false);
  let '(unreachable, st) := r in
  if unreachable : bool then
    mret (mkResult key None DelegationZero (rv_records st) true)
  else
    let resolution := decideResolution (rv_addrs st) (rv_nxAll st) (rv_anyNoError st)
      (rv_anyReached st) (rv_sawCNAME st) in
    delegation ← walk offers key;
    mret (mkResult key (Some resolution) delegation (rv_records st) false).
End Peer.

(** ** The query budget *)

(** A peer beside the list of the queries it was sent. *)
Definition logged {W} (peer : Query → St W Msg) : Query → St (list Query * W) Msg :=
  λ q tw, let '(m, w') := peer q tw.2 in (m, (tw.1 ++ [q], w')).

Lemma attempt_spec {W} (peer : Query → St W Msg) n q last tr w :
  (0 < n)%nat →
  let '(m, (tr', _)) := attempt (logged peer) n q last (tr, w) in
  ∃ k, tr' = tr ++ replicate k q ∧ (1 ≤ k ≤ n)%nat ∧ (m_Unreachable m = true → k = n).
Proof.
  revert last tr w. induction n as [|n IH]; intros last tr w Hn; [lia|].
  cbn [attempt]. unfold mbind, St_bind, logged at 1. cbn. destruct (peer q w) as [m w'].
  destruct (m_Unreachable m) eqn:E; cbn.
  - destruct n as [|n].
    + cbn. exists 1%nat. split; [done|]. split; [lia|done].
    + specialize (IH m (tr ++ [q]) w' ltac:(lia)).
      destruct (attempt (logged peer) (S n) q m (tr ++ [q], w')) as [m' [tr' w'']].
      destruct IH as (k & -> & Hk & Hu). exists (S k). rewrite <- app_assoc.
      split; [done|]. split; [lia|]. intros Hm. by rewrite Hu.
  - exists 1%nat. split; [done|]. split; [lia|]. intros Hm. by rewrite E in Hm.
Qed.

Lemma attempts_of_pos offers q : 1 ≤ attempts_of offers q.
Proof. unfold attempts_of. destruct (Z.ltb_spec (match q_Transport q with UDP => UDPAttempts (o_Transport offers) | TCP => TCPAttempts (o_Transport offers) end) 1); lia. Qed.

(** What one exchange may have sent when it reports [m]: [k] copies of the query
    over its own transport, then [j] over TCP. *)
Definition within_budget (offers : Offers) (q : Query) (m : Msg) (sent : list Query) : Prop :=
  let tcp := Z.max 0 (TCPAttempts (o_Transport offers)) in
  ∃ k j : nat,
    sent = replicate k q ++ replicate j (with_TCP q) ∧
    1 ≤ Z.of_nat k ≤ attempts_of offers q ∧ Z.of_nat j ≤ tcp ∧
    ((0 < j)%nat → Z.of_nat k = attempts_of offers q ∧ q_Transport q = UDP) ∧
    (m_Unreachable m = true →
       Z.of_nat k = attempts_of offers q ∧ (q_Transport q = UDP → Z.of_nat j = tcp)).

Lemma exchange_last {W} (peer : Query → St W Msg) fuel offers q tr w :
  q_Transport q = TCP ∨ TCPAttempts (o_Transport offers) < 1 →
  let '(m, (tr', _)) := exchange_levels (logged peer) (S fuel) offers q (tr, w) in
  ∃ sent, tr' = tr ++ sent ∧ within_budget offers q m sent.
Proof.
  intros Hl. cbn [exchange_levels]. unfold mbind, St_bind. pose proof (attempts_of_pos offers q).
  pose proof (attempt_spec peer (Z.to_nat (attempts_of offers q)) q MsgZero tr w ltac:(lia)) as H1.
  destruct (attempt _ _ q MsgZero (tr, w)) as [m [tr1 w1]]. destruct H1 as (k & -> & Hk & Hu).
  assert (bool_decide (q_Transport q = TCP) || (TCPAttempts (o_Transport offers) <? 1) = true) as ->.
  { apply orb_true_iff. rewrite bool_decide_eq_true, Z.ltb_lt. exact Hl. }
  assert (Hb : within_budget offers q m (replicate k q)).
  { exists k, 0%nat. rewrite app_nil_r. split_and!; [done|lia|lia|lia|lia|].
    intros Hm. rewrite (Hu Hm). split; [lia|]. intros Hq. destruct Hl; [congruence|lia]. }
  destruct (negb (m_Unreachable m)); by eexists.
Qed.

(** One exchange keeps its declared budget, in order: it sends the query
    over its own transport between once and the attempts that transport
    declares, then, only when every one of those came back unreachable, over
    TCP within TCP's own attempts; it never sends anything else, and it reports
    unreachable only with both budgets spent. *)
Theorem Exchange_budget {W} (peer : Query → St W Msg) offers q tr w :
  let '(m, (tr', _)) := Exchange (logged peer) offers q (tr, w) in
  ∃ sent, tr' = tr ++ sent ∧ within_budget offers q m sent.
Proof.
  unfold Exchange.
  destruct (decide (q_Transport q = TCP ∨ TCPAttempts (o_Transport offers) < 1)) as [Hl|Hl];
    [by apply exchange_last|].
  assert (Hu0 : q_Transport q = UDP) by (destruct (q_Transport q); tauto).
  pose proof (attempts_of_pos offers q). pose proof (λ tr w, exchange_last peer 0 offers (with_TCP q)
    tr w (or_introl eq_refl)) as Htcp.
  remember 1%nat as fuel eqn:Hfuel. cbn [exchange_levels]. unfold mbind, St_bind.
  pose proof (attempt_spec peer (Z.to_nat (attempts_of offers q)) q MsgZero tr w ltac:(lia)) as H1.
  destruct (attempt _ _ q MsgZero (tr, w)) as [m [tr1 w1]]. destruct H1 as (k & -> & Hk & Hu).
  assert (bool_decide (q_Transport q = TCP) || (TCPAttempts (o_Transport offers) <? 1) = false) as ->.
  { apply not_true_iff_false. rewrite orb_true_iff, bool_decide_eq_true, Z.ltb_lt. tauto. }
  destruct (m_Unreachable m) eqn:Em; cbn [negb].
  - subst fuel. specialize (Htcp (tr ++ replicate k q) w1).
    destruct (exchange_levels _ 1 offers (with_TCP q) _) as [m2 [tr2 w2]].
    destruct Htcp as (sent & -> & j & z & -> & Hj & Hz & Hz0 & Hm2).
    exists (replicate k q ++ replicate j (with_TCP q)). specialize (Hu eq_refl).
    assert (z = 0%nat) as ->.
    { destruct z; [done|]. destruct Hz0 as [_ Hz0]; [lia|]. done. }
    assert (Ha : attempts_of offers (with_TCP q) = TCPAttempts (o_Transport offers)).
    { unfold attempts_of. cbn. by rewrite (proj2 (Z.ltb_ge _ _)) by lia. }
    rewrite app_nil_r, app_assoc. split; [done|]. exists k, j. rewrite Ha in *.
    split_and!; [done|lia|lia|lia| |].
    + intros _. split; [lia|done].
    + intros Hm. destruct (Hm2 Hm). split; lia.
  - exists (replicate k q). split; [done|]. exists k, 0%nat. rewrite app_nil_r, Em.
    split_and!; done || lia.
Qed.

(** ** The outcome of a name *)

(** The declared path's replies, query type by query type, until one says the
    resolver itself is unreachable: the type, the reply, whether it counts. *)
Fixpoint declared_replies {W} (peer : Query → St W Msg) (offers : Offers) (key : string)
    (qts : list string) : St W (option (list (string * (Msg * bool)))) :=
  match qts with
  | [] => mret (Some [])
  | qt :: qts' =>
      r ← exchangeDeclared peer offers key qt;
      let '(msg, ok, unreachable) := r in
      if unreachable : bool then mret None
      else rs ← declared_replies peer offers key qts'; mret (cons (qt, (msg, ok)) <$> rs)
  end.

Lemma resolve_loop_replies {W} (peer : Query → St W Msg) offers key qts st w :
  let '(r, w') := declared_replies peer offers key qts w in
  let '(u, st', w'') := resolve_loop peer offers key qts st w in
  w'' = w' ∧
  match r with
  | None => u = true
  | Some rs => u = false ∧ map fst rs = qts ∧
      st' = foldl (λ st r, resolve_step st r.1 r.2.1 r.2.2) st rs
  end.
Proof.
  revert st w. induction qts as [|qt qts IH]; intros st w; [done|].
  cbn [declared_replies resolve_loop]. unfold mbind, St_bind.
  destruct (exchangeDeclared peer offers key qt w) as [[[msg ok] un] w1].
  destruct un; [done|]. specialize (IH (resolve_step st qt msg ok) w1).
  destruct (declared_replies peer offers key qts w1) as [rs w2].
  destruct (resolve_loop peer offers key qts _ w1) as [[u st'] w3].
  destruct rs as [rs|]; cbn; naive_solver.
Qed.

(** The replies that count, and the records they carry. *)
Definition counted (rs : list (string * (Msg * bool))) : list Msg :=
  map (λ r, r.2.1) (filter (λ r : string * (Msg * bool), r.2.2 = true) rs).

Definition answers (rs : list (string * (Msg * bool))) : list RR := flat_map m_Answer (counted rs).

Definition is_address (rr : RR) : bool :=
  String.eqb (rr_Type rr) QtypeA || String.eqb (rr_Type rr) QtypeAAAA.

(** The address a record gives, if it gives one. *)
Definition address_of (rr : RR) : option Addr :=
  if is_address rr then option_map Unmap (ParseAddr (rr_Data rr)) else None.

Lemma dom_addrSet_add s text owner :
  dom (addrSet_add s text owner) =
    dom s ∪ match option_map Unmap (ParseAddr text) with None => ∅ | Some a => {[ a ]} end.
Proof.
  unfold addrSet_add. destruct (ParseAddr text) as [a|]; simpl; [|set_solver].
  destruct (s !! Unmap a) as [o|] eqn:E; [|rewrite dom_insert_L; set_solver].
  apply elem_of_dom_2 in E. set_solver.
Qed.

Lemma answer_fold rrs st :
  let r := foldl answer_step st rrs in
  (∀ a, a ∈ dom r.1 ↔ a ∈ dom st.1 ∨ ∃ rr, rr ∈ rrs ∧ address_of rr = Some a) ∧
  r.2 = st.2 || existsb (λ rr, negb (is_address rr) && String.eqb (rr_Type rr) QtypeCNAME) rrs.
Proof.
  induction rrs as [|rr rrs IH] using rev_ind; [cbn; rewrite orb_false_r; set_solver|].
  cbv zeta in *. rewrite foldl_app. cbn [foldl]. rewrite existsb_app. destruct IH as [Ha Hc].
  set (r := foldl answer_step st rrs) in *. setoid_rewrite elem_of_app.
  setoid_rewrite list_elem_of_singleton.
  assert (Hor : ∀ a, (∃ rr0, (rr0 ∈ rrs ∨ rr0 = rr) ∧ address_of rr0 = Some a) ↔
    (∃ rr0, rr0 ∈ rrs ∧ address_of rr0 = Some a) ∨ address_of rr = Some a).
  { intros a. split; [intros (x & [Hx| ->] & He)|intros [(x & Hx & He)|He]]; eauto. }
  setoid_rewrite Hor. clear Hor. unfold answer_step, address_of at 2.
  fold (is_address rr). cbn [existsb].
  destruct (is_address rr) eqn:Ei; cbn [fst snd negb andb orb].
  - rewrite dom_addrSet_add, Hc, orb_false_r. split; [|done]. intros a.
    rewrite elem_of_union, Ha. destruct (option_map _ _); set_solver.
  - destruct (String.eqb (rr_Type rr) QtypeCNAME); cbn [fst snd orb];
      rewrite ?Hc, ?orb_true_r, ?orb_false_r;
      (split; [|done]); intros a; rewrite Ha; naive_solver.
Qed.

Lemma resolve_fold rs :
  let st := foldl (λ st r, resolve_step st r.1 r.2.1 r.2.2)
              (mkResolve [] ∅ true false false false) rs in
  (∀ a, a ∈ dom (rv_addrs st) ↔ ∃ rr, rr ∈ answers rs ∧ address_of rr = Some a) ∧
  rv_nxAll st = forallb (λ m, String.eqb (m_Rcode m) NXDOMAIN) (counted rs) ∧
  rv_anyReached st = negb (length (counted rs) =? 0)%nat ∧
  rv_anyNoError st = existsb (λ m, String.eqb (m_Rcode m) NOERROR) (counted rs) ∧
  rv_sawCNAME st =
    existsb (λ rr, negb (is_address rr) && String.eqb (rr_Type rr) QtypeCNAME) (answers rs) ∧
  rv_records st = map (λ r, mkRecord r.1 (normaliseRRs (m_Answer r.2.1))) rs.
Proof.
  induction rs as [|[qt [msg ok]] rs IH] using rev_ind; [cbn; set_solver|].
  cbv zeta in *. rewrite foldl_app. cbn [foldl fst snd].
  set (st := foldl _ _ rs) in *. destruct IH as (Ha & Hx & Hr & Hn & Hc & Hrec).
  unfold answers, counted, resolve_step. rewrite !filter_app, !map_app, Hrec.
  destruct ok; cbn [negb].
  - rewrite filter_cons_True by done. rewrite filter_nil. cbn [map fst snd].
    rewrite flat_map_app, forallb_app, !existsb_app, length_app. cbn [flat_map]. rewrite app_nil_r.
    pose proof (answer_fold (m_Answer msg) (rv_addrs st, rv_sawCNAME st)) as [Haf Hcf].
    destruct (foldl answer_step _ _) as [addrs saw]. cbn [fst snd] in *.
    cbn [rv_addrs rv_nxAll rv_anyReached rv_anyNoError rv_sawCNAME rv_records forallb existsb length].
    fold (counted rs). fold (answers rs).
    rewrite Hcf, Hc, Hx, Hn, negb_involutive, andb_true_r, orb_false_r, Nat.add_1_r.
    split_and!; try done. intros a. rewrite Haf, Ha. setoid_rewrite elem_of_app. naive_solver.
  - rewrite filter_cons_False by done. rewrite filter_nil. cbn [map fst snd]. rewrite !app_nil_r.
    cbn. split_and!; try done.
Qed.

Lemma elem_of_addrs (s : addrSet) a :
  a ∈ sort_stable Addr_Less (map fst (map_to_list s)) ↔ a ∈ dom s.
Proof.
  rewrite sort_stable_elem, list_elem_of_fmap, elem_of_dom. split.
  - intros ([a' o] & -> & Hin%elem_of_map_to_list). by eexists.
  - intros [o Ho]. exists (a, o). by rewrite elem_of_map_to_list.
Qed.

Lemma size_pos (s : addrSet) : (0 <? Z.of_nat (size s)) = true ↔ ∃ a, a ∈ dom s.
Proof.
  rewrite Z.ltb_lt. destruct (decide (s = ∅)) as [->|Hne].
  - rewrite map_size_empty. set_solver by lia.
  - split.
    + intros _. apply set_choose_L. by rewrite dom_empty_iff_L.
    + intros _. assert (size s ≠ 0%nat) by (by apply map_size_non_empty_iff). lia.
Qed.

Lemma existsb_CNAME rrs :
  existsb (λ rr, negb (is_address rr) && String.eqb (rr_Type rr) QtypeCNAME) rrs = true ↔
    ∃ rr, rr ∈ rrs ∧ rr_Type rr = QtypeCNAME.
Proof.
  rewrite existsb_bool. apply exist_proper. intros rr. apply and_iff_compat_l.
  rewrite andb_true_iff, String.eqb_eq. split; [by intros [_ ?]|]. intros H. split; [|done].
  unfold is_address. by rewrite H.
Qed.

(** The three outcomes of a name, over the replies that count. *)
Definition outcome_spec (ms : list Msg) (found : Prop) (cname : Prop) (o : Outcome) : Prop :=
  let all_nx := ∀ m, m ∈ ms → m_Rcode m = NXDOMAIN in
  (o = OutcomeResolved ↔ found) ∧
  (o = OutcomeNameError ↔ ¬ found ∧ ms ≠ [] ∧ all_nx ∧ ¬ cname) ∧
  (o = OutcomeNoData ↔ ¬ found ∧ ms ≠ [] ∧
     ((all_nx ∧ cname) ∨ (∃ m, m ∈ ms ∧ m_Rcode m = NOERROR))).

#[export] Instance outcome_spec_proper ms : Proper (iff ==> iff ==> eq ==> iff) (outcome_spec ms).
Proof. intros f f' Hf c c' Hc o o' <-. unfold outcome_spec. by rewrite Hf, Hc. Qed.

Lemma decideResolution_spec s ms cname saw :
  saw = true ↔ cname →
  let r := decideResolution s (forallb (λ m, String.eqb (m_Rcode m) NXDOMAIN) ms)
    (existsb (λ m, String.eqb (m_Rcode m) NOERROR) ms) (negb (length ms =? 0)%nat) saw in
  outcome_spec ms (∃ a, a ∈ dom s) cname (rs_Outcome r) ∧
  rs_Addresses r = addrSet_sorted s.
Proof.
  intros Hsaw r. subst r. unfold decideResolution, outcome_spec. rewrite <- Hsaw, <- size_pos.
  assert (Hnx : forallb (λ m, String.eqb (m_Rcode m) NXDOMAIN) ms = true ↔
    ∀ m, m ∈ ms → m_Rcode m = NXDOMAIN)
    by (rewrite forallb_bool; by setoid_rewrite String.eqb_eq).
  assert (Hne : existsb (λ m, String.eqb (m_Rcode m) NOERROR) ms = true ↔
    ∃ m, m ∈ ms ∧ m_Rcode m = NOERROR)
    by (rewrite existsb_bool; by setoid_rewrite String.eqb_eq).
  rewrite <- Hnx, <- Hne.
  destruct (0 <? Z.of_nat (size s)) eqn:Es; cbn; [naive_solver|].
  assert (s = ∅) as ->.
  { apply map_size_empty_inv. apply Z.ltb_ge in Es. lia. }
  split; [|by repeat case_match].
  assert (Hex : ms ≠ [] → forallb (λ m, String.eqb (m_Rcode m) NXDOMAIN) ms = true →
    existsb (λ m, String.eqb (m_Rcode m) NOERROR) ms = true → False).
  { intros _ Hall (x & Hx & Hxe)%Hne. rewrite Hnx in Hall. specialize (Hall x Hx). rewrite Hall in Hxe. discriminate. }
  clear Hnx Hne Hsaw Es. revert Hex. generalize (forallb (λ m, String.eqb (m_Rcode m) NXDOMAIN) ms) as nx.
  generalize (existsb (λ m, String.eqb (m_Rcode m) NOERROR) ms) as ne. intros ne nx Hex.
  destruct ms as [|m ms]; cbn; [intuition discriminate|]. specialize (Hex ltac:(discriminate)).
  destruct nx, ne, saw; cbn; try (by destruct Hex); intuition discriminate.
Qed.

(** [C26] A name's outcome is decided by the replies that count, and by them
    alone.  An unreachable resolver decides nothing and is not walked for.
    Otherwise there is one record set for each query type asked; the name is
    resolved exactly when some counted record parses as an address, and its
    addresses are those, unmapped, each once and in address order; it is a name
    error only when at least one reply counted, every one of them said so and
    none carried an alias; an unanswered name is a gap, never an absence. *)
Theorem Resolve_decides {W} (peer : Query → St W Msg) offers name w :
  let key := CanonicalName name in
  let '(replies, w1) := declared_replies peer offers key (Qtypes offers) w in
  let '(res, w2) := Resolve peer offers name w in
  res_Name res = key ∧
  match replies with
  | None => res_Unreachable res = true ∧ res_Resolution res = None ∧ w2 = w1
  | Some rs =>
      res_Unreachable res = false ∧ map rec_Qtype (res_Records res) = Qtypes offers ∧
      ∃ r addrs, res_Resolution res = Some r ∧
        outcome_spec (counted rs) (∃ a, a ∈ addrs)
          (∃ rr, rr ∈ answers rs ∧ rr_Type rr = QtypeCNAME) (rs_Outcome r) ∧
        rs_Addresses r = map Addr_String addrs ∧
        NoDup addrs ∧ StronglySorted (not_after Addr_Less) addrs ∧
        (∀ a, a ∈ addrs ↔ ∃ rr, rr ∈ answers rs ∧ address_of rr = Some a)
  end.
Proof.
  intros key. unfold Resolve. fold key.
  set (st0 := mkResolve [] ∅ true false false false).
  pose proof (resolve_loop_replies peer offers key (Qtypes offers) st0 w) as Hl.
  destruct (declared_replies peer offers key (Qtypes offers) w) as [replies w1].
  unfold mbind, St_bind. destruct (resolve_loop _ _ _ _ st0 w) as [[u st] w2].
  destruct Hl as [-> Hl]. destruct replies as [rs|]; [|by subst u].
  destruct Hl as (-> & Hq & ->). destruct (resolve_fold rs) as (Ha & Hx & Hr & Hn & Hc & Hrec).
  fold st0 in Ha, Hx, Hr, Hn, Hc, Hrec. set (st := foldl _ st0 rs) in *.
  destruct (walk peer offers key w1) as [dl w3]. cbn.
  split; [done|split; [done|]]. split.
  { rewrite Hrec, map_map. cbn. exact Hq. }
  rewrite Hx, Hr, Hn, Hc.
  destruct (decideResolution_spec (rv_addrs st) (counted rs)
    (∃ rr, rr ∈ answers rs ∧ rr_Type rr = QtypeCNAME) _ (existsb_CNAME (answers rs))) as [Ho Had].
  eexists _, (sort_stable Addr_Less (map fst (map_to_list (rv_addrs st)))).
  split; [done|]. split.
  { setoid_rewrite elem_of_addrs. exact Ho. }
  split; [exact Had|]. split; [|split].
  - apply sort_stable_NoDup. apply NoDup_fst_map_to_list.
  - apply sort_stable_Sorted. apply _.
  - intros a. rewrite elem_of_addrs. apply Ha.
Qed.

(** ** The delegation *)


(** ** The delegation *)

Definition serves (m : Msg) : bool :=
  m_Reached m && negb (String.eqb (m_Rcode m) REFUSED) && negb (String.eqb (m_Rcode m) SERVFAIL).

Lemma walk_fold rms :
  let st := foldl (λ st rm, walk_step st rm.1 rm.2) (mkWalk [] false false true) rms in
  wk_statuses st = map (λ rm, mkNS (rr_Data rm.1) (serves rm.2)) rms ∧
  wk_anyReached st = existsb (λ rm, m_Reached rm.2) rms ∧
  wk_anyServes st = existsb (λ rm, serves rm.2) rms ∧
  wk_allRefused st = negb (wk_anyServes st).
Proof.
  induction rms as [|[rr m] rms IH] using rev_ind; [done|]. cbv zeta in *.
  rewrite foldl_app. cbn [foldl fst snd]. set (st := foldl _ _ rms) in *.
  destruct IH as (Hs & Hr & Hv & Ha). rewrite map_app, !existsb_app. cbn.
  assert (m_Reached m && serves m = serves m) as Hm
    by (unfold serves; by destruct (m_Reached m)).
  unfold serves in Hm. rewrite Hs, Hr, Hv, Ha, Hv, Hm, !orb_false_r, negb_orb. fold (serves m). done.
Qed.

Lemma existsb_zip {A B} (f : B → bool) (l : list A) (k : list B) :
  length k = length l → existsb (λ ab, f ab.2) (zip l k) = existsb f k.
Proof.
  revert k. induction l as [|a l IH]; intros [|b k]; simpl; try done. intros H.
  by rewrite IH by lia.
Qed.

Lemma ask_each_length {W A B} (ask : A → St W B) items w :
  length (ask_each ask items w).1 = length items.
Proof.
  revert w. induction items as [|x items IH]; intros w; [done|]. cbn [ask_each].
  unfold mbind, St_bind. destruct (ask x w) as [b w1]. specialize (IH w1).
  destruct (ask_each ask items w1). cbn in *. by rewrite IH.
Qed.

(** A delegation is lame only on affirmative evidence: with the
    nameservers the parent lists asked one by one, the listing is in server
    order with each one's own verdict, lame means at least one of them was
    reached and none serves, and when all were silent the walk reports a gap,
    never a value. *)
Theorem walk_verdict_of_servers {W} (peer : Query → St W Msg) offers name w :
  let ns_query := mkQuery PathWalk "" name QtypeNS UDP true (o_Cookie offers) in
  let '(msg, w1) := Exchange peer offers ns_query w in
  let nss := filter (λ rr, String.eqb (rr_Type rr) QtypeNS) (m_Answer msg) in
  let '(ms, w2) := ask_each (ask_nameserver peer offers name) nss w1 in
  let '(d, w3) := walk peer offers name w in
  w3 = w2 ∧
  dl_Nameservers d ≡ₚ map (λ rm, mkNS (rr_Data rm.1) (serves rm.2)) (zip nss ms) ∧
  StronglySorted (not_after (less_by ns_Server)) (dl_Nameservers d) ∧
  (dl_Gap d = true ↔ ms ≠ [] ∧ ∀ m, m ∈ ms → m_Reached m = false) ∧
  (dl_Lame d = true ↔ (∃ m, m ∈ ms ∧ m_Reached m = true) ∧ ∀ m, m ∈ ms → serves m = false).
Proof.
  intros ns_query. unfold walk, mbind, St_bind. fold ns_query.
  destruct (Exchange peer offers ns_query w) as [msg w1].
  set (nss := filter _ (m_Answer msg)).
  pose proof (ask_each_length (ask_nameserver peer offers name) nss w1) as Hlen.
  pose proof (for_each_ask (ask_nameserver peer offers name) (λ st rr m, walk_step st rr m)
    nss (mkWalk [] false false true) w1) as Hfe.
  unfold mbind, St_bind in Hfe.
  destruct (ask_each (ask_nameserver peer offers name) nss w1) as [ms w2] eqn:Ea. cbn [fst] in Hlen.
  destruct ((length (m_Answer msg) =? 0)%nat && negb (m_Reached msg)) eqn:E0.
  - apply andb_true_iff in E0 as [E0%Nat.eqb_eq%nil_length_inv _].
    assert (nss = []) as Hn by (unfold nss; by rewrite E0). rewrite Hn in *. cbn in Ea.
    injection Ea as <- <-. cbn. split_and!; [done|constructor|constructor|naive_solver|].
    split; [done|]. intros [(m & Hm & _) _]. set_solver.
  - rewrite Hfe. destruct (walk_fold (zip nss ms)) as (Hs & Hr & Hv & Hrf).
    set (st := foldl _ _ (zip nss ms)) in *. cbn [mret St_ret].
    rewrite existsb_zip in Hr, Hv by done. unfold walk_verdict. rewrite Hrf, andb_diag.
    rewrite sort_stable_length, Hs, length_map, length_zip, Hlen, Nat.min_id.
    assert (Hnone : ∀ f : Msg → bool, existsb f ms = false ↔ ∀ m, m ∈ ms → f m = false).
    { intros f. rewrite <- not_true_iff_false, existsb_bool.
      setoid_rewrite <- not_true_iff_false. naive_solver. }
    destruct (Nat.eqb_spec (length nss) 0) as [Hz|Hz].
    { assert (ms = []) as -> by (apply nil_length_inv; lia). rewrite zip_with_nil_r. cbn.
      split_and!; [done|constructor|constructor|naive_solver|].
      split; [done|]. intros [(m & Hm & _) _]. set_solver. }
    assert (Hms : ms ≠ []) by (intros ->; simpl in Hlen; lia).
    assert (Hsort : ∀ b1 b2, let d := mkDelegation b1 b2 (sort_stable (less_by ns_Server)
        (map (λ rm, mkNS (rr_Data rm.1) (serves rm.2)) (zip nss ms))) in
      dl_Nameservers d ≡ₚ map (λ rm, mkNS (rr_Data rm.1) (serves rm.2)) (zip nss ms) ∧
      StronglySorted (not_after (less_by ns_Server)) (dl_Nameservers d)).
    { intros. split; [apply sort_stable_Permutation|apply sort_stable_Sorted; apply _]. }
    cbv zeta in Hsort. destruct (wk_anyReached st) eqn:Er; cbn [negb].
    + symmetry in Hr. apply existsb_bool in Hr as (m0 & Hm0 & Hr0).
      destruct (wk_anyServes st) eqn:Ev; cbn [negb];
        (split; [done|]); (split; [apply Hsort|]); (split; [apply (Hsort false false)|]); cbn.
      * symmetry in Hv. apply existsb_bool in Hv as (m1 & Hm1 & Hs1). split; (split; [done|]).
        -- intros [_ Hall]. by rewrite (Hall m0 Hm0) in Hr0.
        -- intros [_ Hall]. by rewrite (Hall m1 Hm1) in Hs1.
      * symmetry in Hv. rewrite Hnone in Hv. split.
        -- split; [done|]. intros [_ Hall]. by rewrite (Hall m0 Hm0) in Hr0.
        -- split; [|done]. intros _. split; [by exists m0|exact Hv].
    + symmetry in Hr. rewrite Hnone in Hr.
      split; [done|]. split; [apply Hsort|]. split; [apply (Hsort false false)|]. cbn. split; [done|].
      split; [done|]. intros [(m & Hm & Hrm) _]. by rewrite (Hr m Hm) in Hrm.
Qed.
