(* ===== verification/Wildcard.v ===== *)
(** * Wildcard discrimination ([internal/measure/wildcarddiscrim])

    Models [leaf.go], [population.go], [run.go] and [emit.go]: the parents to
    probe, the control queries, the signature of each answer component, the
    verdict on a candidate, and what is emitted.  The labels are the code's
    [LabelGen], a parameter, and the peer is the resolution walk's. *)

From S2P Require Import Prelude GoStr NetIP NetParse Custody ResolutionWalk.

(** ** Signatures *)

Inductive Signature := NoSynthesis | Determinate | Indeterminate.
Inductive Verdict := VerdictShadowed | VerdictNotShadowed | VerdictGap.

#[export] Instance Verdict_eq : EqDecision Verdict.
Proof. solve_decision. Defined.

#[export] Instance Signature_eq : EqDecision Signature.
Proof. solve_decision. Defined.

(** [compKey]: the query type asked and the record type answered. *)
Abbreviation compKey := (string * string)%type.

Record component := mkComponent { co_Sig : Signature; co_RRSet : list string }.

Record controlAnswers := mkControl {
  perLabel : list (gmap string (list RR));
  complete : bool
}.

Definition canonOne (rr : RR) : string :=
  if String.eqb (rr_Type rr) QtypeA || String.eqb (rr_Type rr) QtypeAAAA then
    match ParseAddr (rr_Data rr) with
    | Some addr => Addr_String (Unmap addr)
    | None => rr_Data rr
    end
  else if String.eqb (rr_Type rr) QtypeCNAME || String.eqb (rr_Type rr) QtypeNS then
    CanonicalName (rr_Data rr)
  else rr_Data rr.

Definition canonRDATA (rrs : list RR) : list string := sorted_keys (list_to_set (map canonOne rrs)).

Definition rdataSet (rrs : list RR) (answered : string) : list string :=
  canonRDATA (filter (λ rr, rr_Type rr = answered) rrs).

Definition equalSet (a b : list string) : bool := bool_decide (a = b).

Definition nonEmpty {A} (l : list A) : bool := negb (length l =? 0)%nat.

(** [sets[0]] is in range: some set is non-empty. *)
Definition signatureOf (sets : list (list string)) : component :=
  if negb (existsb nonEmpty sets) then mkComponent NoSynthesis []
  else
    match sets with
    | [] => mkComponent NoSynthesis []
    | first :: rest =>
        if negb (forallb (equalSet first) rest) then mkComponent Indeterminate []
        else if (length first =? 0)%nat then mkComponent Indeterminate []
        else mkComponent Determinate first
    end.

(** The keys of every record of every label. *)
Definition control_keys (ca : controlAnswers) : gset compKey :=
  list_to_set (flat_map (λ ans : gmap string (list RR),
    flat_map (λ kv, map (λ rr, (kv.1, rr_Type rr)) kv.2) (map_to_list ans)) (perLabel ca)).

Definition control_sets (ca : controlAnswers) (k : compKey) : list (list string) :=
  map (λ ans : gmap string (list RR), rdataSet (default [] (ans !! k.1)) k.2) (perLabel ca).

Definition components (ca : controlAnswers) : gmap compKey component :=
  set_to_map (λ k, (k, signatureOf (control_sets ca k))) (control_keys ca).

Definition wildcardMeasured (ca : controlAnswers) : bool :=
  existsb (λ ans : gmap string (list RR), existsb (λ kv, nonEmpty kv.2) (map_to_list ans))
    (perLabel ca).

(** [check] at one key not seen before. *)
Definition check (candidate : gmap compKey (list string)) (comps : gmap compKey component)
    (k : compKey) : bool :=
  let cand := default [] (candidate !! k) in
  match comps !! k with
  | None => nonEmpty cand
  | Some c =>
      match co_Sig c with
      | NoSynthesis => nonEmpty cand
      | Determinate => negb (equalSet cand (co_RRSet c))
      | Indeterminate => false
      end
  end.

(** A loop of checks that returns at the first difference: the keys seen so far
    are skipped.  [inl] is the early return of [true]. *)
Fixpoint check_loop (f : compKey → bool) (ks : list compKey) (seen : gset compKey)
    : unit + gset compKey :=
  match ks with
  | [] => inr seen
  | k :: ks' =>
      if bool_decide (k ∈ seen) then check_loop f ks' seen
      else if f k then inl tt else check_loop f ks' ({[ k ]} ∪ seen)
  end.

(** Go ranges over the two maps in orders it does not fix; the answer is an
    existential over their keys. *)
Definition differsAtDeterminate (candidate : gmap compKey (list string))
    (comps : gmap compKey component) : bool :=
  match check_loop (check candidate comps) (map fst (map_to_list candidate)) ∅ with
  | inl _ => true
  | inr seen =>
      match check_loop (check candidate comps)
              (map fst (filter (λ kc, co_Sig kc.2 = Determinate) (map_to_list comps))) seen with
      | inl _ => true
      | inr _ => false
      end
  end.

Definition Discriminate (candidate : gmap compKey (list string)) (ctrl : controlAnswers) : Verdict :=
  if negb (complete ctrl) then VerdictGap
  else if negb (wildcardMeasured ctrl) then VerdictNotShadowed
  else if differsAtDeterminate candidate (components ctrl) then VerdictNotShadowed
  else VerdictShadowed.

(** The records of a walk grouped by component, then made canonical. *)
Definition group_step (m : gmap compKey (list RR)) (krr : compKey * RR) : gmap compKey (list RR) :=
  <[krr.1 := default [] (m !! krr.1) ++ [krr.2]]> m.

Definition candidateComponents (rec : list DNSRecord) : gmap compKey (list string) :=
  canonRDATA <$> foldl group_step ∅
    (flat_map (λ r, map (λ rr, ((rec_Qtype r, rr_Type rr), rr)) (rec_RRs r)) rec).

(** ** Control population *)

Definition parent (name : string) : option string :=
  let i := IndexByte name "." in
  if (i <? 0) || (i =? Z.of_nat (String.length name) - 1) then None
  else Some (slice_from name (i + 1)).

Definition population_of (seeds : list string) (name : string) : option string :=
  let key := CanonicalName name in
  if HasPrefix key "*." || String.eqb key "*" then None
  else p ← parent key; if negb (WithinAnyZone p seeds) then None else Some p.

Definition ControlPopulation (names seedScopes : list string) : list string :=
  let seeds := map CanonicalName seedScopes in
  sorted_keys (list_to_set (omap (population_of seeds) names)).

(** ** The run *)

Section Run.
Context {W : Type} (peer : Query → St W Msg).

Definition probe_query (offers : Offers) (name qt : string) : Query :=
  mkQuery PathDeclared "" name qt UDP true (o_Cookie offers).

(** The state of one label's loop: its answers, how many asked, how many reached. *)
Definition probe_step (st : gmap string (list RR) * Z * Z) (qt : string) (msg : Msg)
    : gmap string (list RR) * Z * Z :=
  let '(ans, asked, reached) := st in
  (if nonEmpty (m_Answer msg) then <[qt := m_Answer msg]> ans else ans,
   asked + 1, if m_Reached msg then reached + 1 else reached).

Definition probeControl (offers : Offers) (parentName : string) (labels : list string)
    : St W controlAnswers :=
  r ← for_each (λ st label,
    let '(per, asked, reached) := st in
    let name := CanonicalName (label +:+ "." +:+ parentName)%string in
    r ← for_each (λ st qt, msg ← Exchange peer offers (probe_query offers name qt);
                           mret (probe_step st qt msg))
          (Qtypes offers) (∅, asked, reached);
    let '(ans, asked, reached) := r in
    mret (per ++ [ans], asked, reached)) labels ([], 0, 0);
  let '(per, asked, reached) := r in
  mret (mkControl per ((0 <? asked) && (reached =? asked))).

Definition decide_verdict (res : Result) (popSet : list string)
    (ctrlByParent : gmap string controlAnswers) : Verdict :=
  match parent (res_Name res) with
  | None => VerdictNotShadowed
  | Some p =>
      if negb (bool_decide (p ∈ popSet)) then VerdictNotShadowed
      else Discriminate (candidateComponents (res_Records res))
             (default (mkControl [] false) (ctrlByParent !! p))
  end.

(** An observation with its data kept structured: the value, not its JSON. *)
Record resolutionValue := mkResolutionValue { rvl_Outcome : string; rvl_Addresses : list string }.
Record dnsRecordValue := mkRecordValue {
  dv_Outcome : string; dv_RRs : list RR; dv_Delegation : option Delegation
}.
Inductive ObservationData := DataResolution (v : resolutionValue) | DataRecord (v : dnsRecordValue).
Record Observation := mkObservation {
  ob_Batch : string; ob_Facet : string; ob_Subject : string; ob_Discriminator : string;
  ob_Vantage : string; ob_Data : ObservationData
}.

Definition outcome_text (o : Outcome) : string :=
  match o with
  | OutcomeResolved => "Resolved"
  | OutcomeNoData => "NoData"
  | OutcomeNameError => "NameError"
  | OutcomeGap => "Gap"
  end.

Definition resolutionFor (res : Result) (verdict : Verdict) : resolutionValue :=
  match verdict with
  | VerdictShadowed => mkResolutionValue "Shadowed" []
  | VerdictGap => mkResolutionValue "Gap" []
  | VerdictNotShadowed =>
      match res_Resolution res with
      | None => mkResolutionValue "" []
      | Some r => mkResolutionValue (outcome_text (rs_Outcome r)) (rs_Addresses r)
      end
  end.

Definition dnsRecordFor (res : Result) (rec : DNSRecord) (verdict : Verdict) : dnsRecordValue :=
  match verdict with
  | VerdictShadowed => mkRecordValue "Shadowed" [] None
  | VerdictGap => mkRecordValue "Gap" [] None
  | VerdictNotShadowed =>
      mkRecordValue "" (rec_RRs rec)
        (if String.eqb (rec_Qtype rec) QtypeNS then Some (res_Delegation res) else None)
  end.

Definition Emit (batch vantage : string) (res : Result) (verdict : Verdict) : list Observation :=
  mkObservation batch "resolution" (res_Name res) "" vantage
    (DataResolution (resolutionFor res verdict)) ::
  map (λ rec, mkObservation batch "dns-record" (res_Name res) (rec_Qtype rec) vantage
         (DataRecord (dnsRecordFor res rec verdict))) (res_Records res).

(** [RunWithPeer] up to the writer: the observations it would write. *)
Definition RunWithPeer (batch vantage : string) (names seedScopes : list string)
    (offers : Offers) (labels : list string) : St W (list Observation) :=
  let pop := ControlPopulation names seedScopes in
  ctrls ← for_each (λ m p, ca ← probeControl offers p labels; mret (<[p := ca]> m)) pop
            (∅ : gmap string controlAnswers);
  for_each (λ out name,
    res ← Resolve peer offers name;
    mret (out ++ Emit batch vantage res (decide_verdict res pop ctrls))) names [].
End Run.

(** ** What the controls agree on *)

Lemma nonEmpty_spec {A} (l : list A) : nonEmpty l = true ↔ l ≠ [].
Proof. destruct l; cbn; naive_solver. Qed.

Lemma canonRDATA_nil rrs : canonRDATA rrs = [] ↔ rrs = [].
Proof.
  split; [|by intros ->]. destruct rrs as [|rr rrs]; [done|]. intros H. exfalso.
  assert (canonOne rr ∈ canonRDATA (rr :: rrs)) as Hin; [|rewrite H in Hin; set_solver].
  unfold canonRDATA. rewrite elem_of_sorted_keys. set_solver.
Qed.

Lemma control_keys_spec ca k :
  k ∈ control_keys ca ↔ ∃ s, s ∈ control_sets ca k ∧ s ≠ [].
Proof.
  unfold control_keys, control_sets. rewrite elem_of_list_to_set, list_elem_of_In, in_flat_map.
  setoid_rewrite in_flat_map. setoid_rewrite <- list_elem_of_In.
  setoid_rewrite list_elem_of_fmap. unfold rdataSet. split.
  - intros (ans & Hans & [a rrs] & Hkv & rr & -> & Hrr). cbn in *.
    eexists. split; [by exists ans|]. cbn. apply elem_of_map_to_list in Hkv. rewrite Hkv. cbn.
    rewrite canonRDATA_nil. intros H. assert (rr ∈ filter (λ r, rr_Type r = rr_Type rr) rrs) as Hin
      by (by apply list_elem_of_filter). rewrite H in Hin. set_solver.
  - intros (s & (ans & -> & Hans) & Hne). rewrite canonRDATA_nil in Hne.
    destruct (filter _ _) as [|rr l] eqn:E; [done|].
    assert (rr ∈ rr :: l) as Hin by (by left). rewrite <- E in Hin.
    apply list_elem_of_filter in Hin as [Ht Hin]. exists ans. split; [done|].
    destruct (ans !! k.1) as [rrs|] eqn:El; [|cbn in Hin; set_solver].
    exists (k.1, rrs). split; [by apply elem_of_map_to_list|]. exists rr. cbn in *.
    rewrite Ht. by destruct k.
Qed.

Lemma lookup_components ca k :
  components ca !! k =
    if decide (k ∈ control_keys ca) then Some (signatureOf (control_sets ca k)) else None.
Proof.
  unfold components. case_decide as Hk.
  - apply lookup_set_to_map; [naive_solver|]. by exists k.
  - apply eq_None_not_Some. intros [c Hc]. apply lookup_set_to_map in Hc as (k' & Hk' & [= <- _]);
      naive_solver.
Qed.

(** Every control agrees on the record set of a component. *)
Definition agree (ca : controlAnswers) (k : compKey) (s : list string) : Prop :=
  control_sets ca k ≠ [] ∧ ∀ s', s' ∈ control_sets ca k → s' = s.

Lemma signatureOf_spec sets :
  match co_Sig (signatureOf sets) with
  | NoSynthesis => ∀ s, s ∈ sets → s = []
  | Determinate => co_RRSet (signatureOf sets) ≠ [] ∧ sets ≠ [] ∧
                   ∀ s, s ∈ sets → s = co_RRSet (signatureOf sets)
  | Indeterminate => ∃ s t, s ∈ sets ∧ t ∈ sets ∧ s ≠ t
  end.
Proof.
  unfold signatureOf. destruct (existsb nonEmpty sets) eqn:Ee; cbn [negb].
  - apply existsb_bool in Ee as (x & Hx & Hne%nonEmpty_spec).
    destruct sets as [|first rest]; [set_solver|].
    destruct (forallb (equalSet first) rest) eqn:Ef; cbn [negb].
    + assert (Hall : ∀ s, s ∈ first :: rest → s = first).
      { intros s [->|Hs]%elem_of_cons; [done|]. rewrite forallb_bool in Ef.
        specialize (Ef s Hs). by apply bool_decide_eq_true in Ef. }
      destruct first as [|y first]; cbn; [by rewrite (Hall x Hx) in Hne|].
      split; [done|]. split; [done|]. exact Hall.
    + cbn. apply not_true_iff_false in Ef. rewrite forallb_bool in Ef.
      destruct (decide (Forall (λ s, equalSet first s = true) rest)) as [Hf|Hf].
      { exfalso. apply Ef. by apply Forall_forall. }
      apply not_Forall_Exists in Hf; [|intros ?; apply _].
      apply Exists_exists in Hf as (s & Hs & Hne'). exists first, s. split; [by left|].
      split; [by right|]. intros ->. apply Hne'. by apply bool_decide_eq_true.
  - cbn. intros s Hs. destruct s as [|y s]; [done|]. exfalso.
    rewrite <- not_true_iff_false, existsb_bool in Ee. apply Ee. by exists (y :: s).
Qed.

Lemma check_spec cand ca k :
  perLabel ca ≠ [] →
  check cand (components ca) k = true ↔ ∃ s, agree ca k s ∧ default [] (cand !! k) ≠ s.
Proof.
  intros Hne. assert (Hs0 : control_sets ca k ≠ []) by (unfold control_sets; by destruct (perLabel ca)).
  unfold check, agree. set (c := default [] (cand !! k)). rewrite lookup_components. case_decide as Hk.
  - apply control_keys_spec in Hk as (x & Hx & Hxn).
    pose proof (signatureOf_spec (control_sets ca k)) as Hs.
    destruct (co_Sig (signatureOf _)).
    + by destruct (Hxn (Hs x Hx)).
    + destruct Hs as (Hn & _ & Hall). set (S := co_RRSet _) in *. unfold equalSet.
      rewrite negb_true_iff, bool_decide_eq_false. split; [|].
      * intros Hc. exists S. naive_solver.
      * intros (s & [_ Hall'] & Hc). by rewrite <- (Hall x Hx), (Hall' x Hx).
    + destruct Hs as (s & t & Hs & Ht & Hst). split; [done|].
      intros (u & [_ Hu] & _). by rewrite (Hu s Hs), (Hu t Ht) in Hst.
  - rewrite nonEmpty_spec. assert (Hall : ∀ s, s ∈ control_sets ca k → s = []).
    { intros s Hs. destruct s as [|y s]; [done|]. destruct Hk. apply control_keys_spec. by exists (y :: s). }
    split; [by exists []|]. intros (s & [_ Hs] & Hc).
    destruct (control_sets ca k) as [|x l]; [done|].
    by rewrite <- (Hs x), (Hall x) in Hc by (by left).
Qed.

Lemma check_loop_spec f ks seen :
  match check_loop f ks seen with
  | inl _ => ∃ k, k ∈ ks ∧ f k = true
  | inr seen' => (∀ k, k ∈ seen → f k = false) → ∀ k, k ∈ ks ∨ k ∈ seen' → f k = false
  end.
Proof.
  revert seen. induction ks as [|k ks IH]; intros seen; cbn; [naive_solver set_solver|].
  case_bool_decide as Hk.
  - specialize (IH seen). destruct (check_loop f ks seen); [naive_solver set_solver|].
    intros Hs j [[->|Hj]%elem_of_cons|Hj]; [by apply Hs|by apply IH; [|left]|by apply IH; [|right]].
  - destruct (f k) eqn:Ek; [exists k; split; [by left|done]|].
    specialize (IH ({[k]} ∪ seen)). destruct (check_loop f ks _); [naive_solver set_solver|].
    intros Hs. assert (∀ j, j ∈ {[k]} ∪ seen → f j = false) as Hs'.
    { intros j [->%elem_of_singleton|Hj]%elem_of_union; [done|by apply Hs]. }
    intros j [[->|Hj]%elem_of_cons|Hj]; [done|by apply IH; [|left]|by apply IH; [|right]].
Qed.

Lemma differs_spec cand comps :
  differsAtDeterminate cand comps = true ↔ ∃ k, check cand comps k = true.
Proof.
  unfold differsAtDeterminate. set (f := check cand comps).
  pose proof (check_loop_spec f (map fst (map_to_list cand)) ∅) as H1.
  destruct (check_loop f _ ∅) as [[]|seen]; [split; [|done]; intros _; naive_solver|].
  specialize (H1 ltac:(set_solver)).
  set (ks2 := map fst (filter _ (map_to_list comps))).
  pose proof (check_loop_spec f ks2 seen) as H2.
  destruct (check_loop f ks2 seen) as [[]|seen']; [split; [|done]; intros _; naive_solver|].
  specialize (H2 (λ k Hk, H1 k (or_intror Hk))). split; [done|]. intros (k & Hk). exfalso.
  destruct (cand !! k) as [c|] eqn:Ec.
  - rewrite H1 in Hk; [done|]. left. apply list_elem_of_fmap. exists (k, c).
    by rewrite elem_of_map_to_list.
  - destruct (comps !! k) as [co|] eqn:Eco.
    + unfold f, check in Hk. rewrite Ec, Eco in Hk. cbn in Hk.
      destruct (co_Sig co) eqn:Es; try done. fold (check cand comps k) in Hk.
      assert (f k = false) as Hf; [|unfold f, check in Hf; rewrite Ec, Eco, Es in Hf; cbn in Hf;
        by rewrite Hf in Hk].
      apply H2. left. apply list_elem_of_fmap. exists (k, co). split; [done|].
      apply list_elem_of_filter. by rewrite elem_of_map_to_list.
    + unfold f, check in Hk. by rewrite Ec, Eco in Hk.
Qed.

Lemma wildcardMeasured_spec ca :
  wildcardMeasured ca = true ↔ ∃ ans qt rrs, ans ∈ perLabel ca ∧ ans !! qt = Some rrs ∧ rrs ≠ [].
Proof.
  unfold wildcardMeasured. rewrite existsb_bool. setoid_rewrite existsb_bool.
  setoid_rewrite nonEmpty_spec. split.
  - intros (ans & Ha & [qt rrs] & Hkv%elem_of_map_to_list & Hn). eauto 10.
  - intros (ans & qt & rrs & Ha & Hl & Hn). exists ans. split; [done|]. exists (qt, rrs).
    by rewrite elem_of_map_to_list.
Qed.

(** [C28] A verdict of shadowed is an agreement.  An incomplete control set is a
    gap.  A complete one that carried no record licenses every name beneath it.
    Otherwise a name is let through exactly when it differs from the controls at
    some component on which all of them agree (agreeing on no record
    included), and it is shadowed when it matches them at every such component;
    where the controls disagree with each other nothing is concluded.  The order
    in which Go walks its maps does not matter. *)
Theorem Discriminate_spec cand ctrl :
  let synthesised := ∃ ans qt rrs, ans ∈ perLabel ctrl ∧ ans !! qt = Some rrs ∧ rrs ≠ [] in
  let differs := ∃ k s, agree ctrl k s ∧ default [] (cand !! k) ≠ s in
  (Discriminate cand ctrl = VerdictGap ↔ complete ctrl = false) ∧
  (Discriminate cand ctrl = VerdictNotShadowed ↔
     complete ctrl = true ∧ (¬ synthesised ∨ differs)) ∧
  (Discriminate cand ctrl = VerdictShadowed ↔
     complete ctrl = true ∧ synthesised ∧
     ∀ k s, agree ctrl k s → default [] (cand !! k) = s).
Proof.
  intros synth differs. unfold Discriminate.
  pose proof (wildcardMeasured_spec ctrl) as Hw. fold synth in Hw.
  destruct (complete ctrl); cbn [negb]; [|naive_solver].
  destruct (wildcardMeasured ctrl) eqn:Ew; cbn [negb].
  - assert (Hs : synth) by (by apply Hw). clear Hw.
    assert (Hne : perLabel ctrl ≠ []) by (destruct Hs as (ans & _ & _ & Hin & _); by intros Hn; rewrite Hn in Hin; set_solver).
    assert (Hd : differsAtDeterminate cand (components ctrl) = true ↔ differs).
    { rewrite differs_spec. setoid_rewrite (check_spec cand ctrl _ Hne). done. }
    assert (Hall : (∀ k s, agree ctrl k s → default [] (cand !! k) = s) ↔ ¬ differs).
    { split; [intros Ha (k & s & Hag & Hn); by apply Hn, Ha|]. intros Hn k s Hag.
      destruct (decide (default [] (cand !! k) = s)); [done|]. destruct Hn. by exists k, s. }
    rewrite Hall, <- Hd. destruct (differsAtDeterminate _ _); intuition discriminate.
  - assert (¬ synth) by (rewrite <- Hw; done). intuition discriminate.
Qed.

(** ** The population *)

(** The part of a name after its first label. *)
Lemma IndexByte_split s b :
  match IndexByte s b with
  | i => if i <? 0 then string_existsb (Ascii.eqb b) s = false
         else ∃ p, s = (p +:+ String b (slice_from s (i + 1)))%string ∧
              i = Z.of_nat (String.length p) ∧ string_existsb (Ascii.eqb b) p = false
  end.
Proof.
  cbv zeta. induction s as [|c s IH]; [done|]. cbn [IndexByte].
  destruct (Ascii.eqb_spec c b) as [->|Hne].
  - cbn. exists ""%string. rewrite append_nil. split; [|done]. f_equal.
    unfold slice_from. cbn [String.length]. change (Z.to_nat (0 + 1)) with 1%nat.
    cbn [String.substring Nat.sub]. by rewrite Nat.sub_0_r, substring_all.
  - destruct (Z.ltb_spec (IndexByte s b) 0) as [Hl|Hl].
    + cbn. rewrite IH. rewrite orb_false_r. apply Ascii.eqb_neq. by intros ->.
    + rewrite (proj2 (Z.ltb_ge _ _)) by lia. destruct IH as (p & Hs & Hp & Hx).
      exists (String c p). rewrite append_cons. cbn [String.length string_existsb].
      split; [|split; [lia|]].
      * rewrite Hs at 1. f_equal. f_equal. f_equal. unfold slice_from. cbn [String.length].
        replace (Z.to_nat (IndexByte s b + 1 + 1)) with (S (Z.to_nat (IndexByte s b + 1))) by lia.
        cbn. done.
      * rewrite Hx, orb_false_r. apply Ascii.eqb_neq. by intros ->.
Qed.

Lemma split_at_first_unique b l q l' q' :
  (l +:+ String b q)%string = (l' +:+ String b q')%string →
  string_existsb (Ascii.eqb b) l = false → string_existsb (Ascii.eqb b) l' = false → q = q'.
Proof.
  revert l'. induction l as [|c l IH]; intros [|d l']; rewrite ?append_nil, ?append_cons;
    cbn [string_existsb]; intros He Hx Hx'.
  - congruence.
  - injection He as <- _. by rewrite Ascii.eqb_refl in Hx'.
  - injection He as <- _. by rewrite Ascii.eqb_refl in Hx.
  - apply orb_false_iff in Hx as [_ Hx], Hx' as [_ Hx']. injection He as _ He. by apply (IH l').
Qed.

Lemma existsb_append f a b :
  string_existsb f (a +:+ b)%string = string_existsb f a || string_existsb f b.
Proof. induction a as [|c a IH]; [done|]. rewrite append_cons. cbn. by rewrite IH, orb_assoc. Qed.

Lemma parent_spec name p :
  parent name = Some p ↔
    p ≠ ""%string ∧ ∃ l, name = (l +:+ "." +:+ p)%string ∧ string_existsb (Ascii.eqb ".") l = false.
Proof.
  unfold parent. pose proof (IndexByte_split name ".") as Hs. cbv zeta in Hs.
  destruct (Z.ltb_spec (IndexByte name ".") 0) as [Hl|Hl]; cbn [orb].
  - split; [done|]. intros (_ & l & -> & _).
    rewrite existsb_append, append_cons in Hs. cbn in Hs. by rewrite orb_true_r in Hs.
  - destruct Hs as (l & Hn & Hi & Hx). set (q := slice_from name _) in *.
    assert (Hlen : Z.of_nat (String.length name) - 1 = Z.of_nat (String.length l + String.length q)).
    { rewrite Hn, length_append. cbn [String.length]. lia. }
    rewrite Hlen, Hi. destruct (Z.eqb_spec (Z.of_nat (String.length l))
      (Z.of_nat (String.length l + String.length q))) as [E|E].
    + assert (q = ""%string) as Hq by (destruct q; [done|cbn in E; lia]).
      split; [done|]. intros (Hp & l' & Hn' & Hx'). rewrite Hn, append_cons, append_nil in Hn'.
      by rewrite <- (split_at_first_unique _ _ _ _ _ Hn' Hx Hx'), Hq in Hp.
    + split.
      * intros [= <-]. split; [intros ->; cbn in E; lia|]. by exists l.
      * intros (Hp & l' & Hn' & Hx'). rewrite Hn, append_cons, append_nil in Hn'.
        by rewrite (split_at_first_unique _ _ _ _ _ Hn' Hx Hx').
Qed.

(** The control population is the parents of the names asked about, all and
    only those inside a declared seed: each is what follows the first label of
    some name that is not a wildcard, it is listed once and in order. *)
Theorem ControlPopulation_spec names seeds :
  let pop := ControlPopulation names seeds in
  NoDup pop ∧ StronglySorted (not_after str_less) pop ∧
  ∀ p, p ∈ pop ↔
    (∃ s, s ∈ seeds ∧ LabelSuffix p (CanonicalName s) = true) ∧ p ≠ ""%string ∧
    ∃ n l, n ∈ names ∧ CanonicalName n = (l +:+ "." +:+ p)%string ∧ l ≠ "*"%string ∧
      string_existsb (Ascii.eqb ".") l = false.
Proof.
  intros pop. split; [apply NoDup_sorted_keys|]. split; [apply (sort_stable_Sorted str_less)|].
  intros p. subst pop. unfold ControlPopulation. rewrite elem_of_sorted_keys, elem_of_list_to_set.
  rewrite list_elem_of_omap. unfold population_of.
  assert (Hz : WithinAnyZone p (map CanonicalName seeds) = true ↔
    ∃ s, s ∈ seeds ∧ LabelSuffix p (CanonicalName s) = true).
  { rewrite WithinAnyZone_spec. setoid_rewrite list_elem_of_fmap. naive_solver. }
  rewrite <- Hz. clear Hz. split.
  - intros (n & Hn & Hp). destruct (HasPrefix (CanonicalName n) "*.") eqn:Ew; [done|].
    destruct (String.eqb (CanonicalName n) "*"); [done|]. cbn in Hp.
    destruct (parent (CanonicalName n)) as [q|] eqn:Eq; [|done]. cbn in Hp.
    destruct (WithinAnyZone q _) eqn:Ez; [|done]. cbn in Hp. injection Hp as ->.
    apply parent_spec in Eq as (Hne & l & Hl & Hx). split; [done|]. split; [done|].
    exists n, l. split_and!; try done. intros ->. rewrite Hl in Ew. unfold HasPrefix in Ew.
    apply bool_decide_eq_false in Ew. apply Ew. exists p. by apply cut_prefix_spec.
  - intros (Hz & Hne & n & l & Hn & Hl & Hw & Hx). exists n. split; [done|].
    assert (HasPrefix (CanonicalName n) "*." = false) as ->.
    { unfold HasPrefix. apply bool_decide_eq_false. intros [r Hr%cut_prefix_spec].
      rewrite Hl in Hr. destruct l as [|c [|d l]].
      - discriminate Hr.
      - injection Hr as Hc _. by rewrite Hc in Hw.
      - injection Hr as _ Hd _. rewrite Hd in Hx. cbn in Hx. by rewrite orb_true_r in Hx. }
    assert (String.eqb (CanonicalName n) "*" = false) as ->.
    { apply String.eqb_neq. rewrite Hl. by destruct l as [|c [|d l]]. }
    cbn. assert (parent (CanonicalName n) = Some p) as -> by (apply parent_spec; eauto).
    cbn. by rewrite Hz.
Qed.

(** A resolver that answers nothing: the walk alone refuses the batch, and this
    run, which does not read [Unreachable], emits an observation whose outcome is
    the empty string. *)
Lemma unreachable_resolver_emits_empty_outcome :
  let peer : Query → St unit Msg := λ _ w, (mkMsg false "" false true [], w) in
  (RunWithPeer peer "b" "v" ["example.com"%string] [] DefaultOffers ["x"%string] tt).1 =
    [mkObservation "b" "resolution" "example.com" "" "v"
       (DataResolution (mkResolutionValue "" []))].
Proof. vm_compute. done. Qed.
