(* ===== verification/Estate.v ===== *)
(** * Membership of the estate ([internal/estate])

    Models [membership.go], [withdrawal.go] and [address.go]: the composed
    resolution of a name, the cross-class withdrawal, and who is in the estate.
    Outcomes and class labels are stored strings. *)

From S2P Require Import Prelude Drift Wildcard.

Definition OutcomeResolved : string := "Resolved".
Definition OutcomeNoData : string := "NoData".
Definition OutcomeNameError : string := "NameError".
Definition OutcomeLame : string := "Lame".
Definition OutcomeShadowed : string := "Shadowed".
Definition OutcomeGap : string := "Gap".

Record FinalResolution := mkFinal { fr_Outcome : string; fr_Addresses : list string }.

Definition Compose (rwOutcome : string) (rwAddresses : list string) (verdict : Verdict)
    : FinalResolution :=
  match verdict with
  | VerdictShadowed => mkFinal OutcomeShadowed []
  | VerdictGap => mkFinal OutcomeGap []
  | VerdictNotShadowed => mkFinal rwOutcome rwAddresses
  end.

Record Observation := mkObservation {
  o_Name : string;
  o_Vantage : string;
  o_Class : string;
  o_Resolution : FinalResolution
}.

(** ** Withdrawal *)

Record ClassWitness := mkWitness { cw_Class : string; cw_Outcomes : list string }.
Record classedOutcome := mkClassed { co_class : string; co_outcome : string }.

Definition suppresses (outcome : string) : bool :=
  String.eqb outcome OutcomeNameError || String.eqb outcome OutcomeShadowed.

Definition WithdrawnCrossClass (classes : list ClassWitness) : bool :=
  if (length classes =? 0)%nat then false
  else forallb (λ c, negb (length (cw_Outcomes c) =? 0)%nat && forallb suppresses (cw_Outcomes c))
         classes.

Definition undecided (outcome : string) : bool :=
  String.eqb outcome OutcomeShadowed || String.eqb outcome OutcomeGap ||
  String.eqb outcome OutcomeLame.

Definition DecidedAbsentCrossClass (classes : list ClassWitness) : bool :=
  if negb (WithdrawnCrossClass classes) then false
  else forallb (λ c, forallb (λ o, negb (undecided o)) (cw_Outcomes c)) classes.

Definition witness_step (st : gmap string (list string) * list string) (co : classedOutcome)
    : gmap string (list string) * list string :=
  let '(byClass, order) := st in
  (<[co_class co := default [] (byClass !! co_class co) ++ [co_outcome co]]> byClass,
   match byClass !! co_class co with
   | None => order ++ [co_class co]
   | Some _ => order
   end).

Definition witnessesByClass (outcomes : list classedOutcome) : list ClassWitness :=
  let '(byClass, order) := foldl witness_step (∅, []) outcomes in
  map (λ cls, mkWitness cls (default [] (byClass !! cls))) (sort_strings order).

(** ** Membership *)

Record Estate := mkEstate { Names : list string; Addresses : list string }.

Record observed := mkObserved {
  sawName : gset string;
  perName : gmap string (list classedOutcome);
  citedAddrs : gset string
}.

Definition observe_step (st : observed) (o : Observation) : observed :=
  let name := o_Name o in
  mkObserved ({[ name ]} ∪ sawName st)
    (<[name := default [] (perName st !! name) ++
               [mkClassed (o_Class o) (fr_Outcome (o_Resolution o))]]> (perName st))
    (if String.eqb (fr_Outcome (o_Resolution o)) OutcomeResolved
     then foldl (λ s a, {[ a ]} ∪ s) (citedAddrs st) (fr_Addresses (o_Resolution o))
     else citedAddrs st).

Definition name_witnesses (st : observed) (name : string) : list ClassWitness :=
  witnessesByClass (default [] (perName st !! name)).

Definition Membership (latest : list Observation)
    (seedCoveredNames seedCoveredAddresses : list string) : Estate :=
  let st := foldl observe_step (mkObserved ∅ ∅ ∅) latest in
  let present : gset string :=
    filter (λ name, WithdrawnCrossClass (name_witnesses st name) = false) (sawName st) in
  let present :=
    foldl (λ s name, if DecidedAbsentCrossClass (name_witnesses st name) then s else {[ name ]} ∪ s)
      present seedCoveredNames in
  let cited := foldl (λ s a, {[ a ]} ∪ s) (citedAddrs st) seedCoveredAddresses in
  mkEstate (sorted_keys present) (sorted_keys cited).

(** ** Addresses *)

Definition AddressPresent (cited seedCovered : bool) : bool := cited || seedCovered.

(** The reason and whether the address left. *)
Definition AddressClosure (cited seedCovered seedDescoped : bool) : string * bool :=
  if AddressPresent cited seedCovered then (""%string, false)
  else if seedDescoped then (ReasonDescoped, true)
  else (ReasonUncited, true).

(** ** The witnesses of a name *)

Lemma witness_fold outcomes :
  let '(byClass, order) := foldl witness_step (∅, []) outcomes in
  NoDup order ∧ (∀ c, c ∈ order ↔ is_Some (byClass !! c)) ∧
  (∀ c l, byClass !! c = Some l → l ≠ []) ∧
  (∀ c o, o ∈ default [] (byClass !! c) ↔ mkClassed c o ∈ outcomes).
Proof.
  induction outcomes as [|[cls out] outcomes IH] using rev_ind.
  { cbn. split_and!; [constructor|..]; intros c.
    - rewrite lookup_empty. split; [set_solver|by intros [? ?]].
    - intros l. by rewrite lookup_empty.
    - intros o. rewrite lookup_empty. set_solver. }
  rewrite foldl_app. cbn [foldl]. destruct (foldl witness_step (∅, []) outcomes) as [m order].
  destruct IH as (Hnd & Hin & Hne & Ho). cbn [witness_step co_class co_outcome].
  split_and!.
  - destruct (m !! cls) eqn:E; [done|]. apply NoDup_app. split; [done|].
    split; [|apply NoDup_singleton]. intros c Hc ->%list_elem_of_singleton.
    apply Hin in Hc as [? ?]. congruence.
  - intros c. destruct (decide (c = cls)) as [->|Hc].
    + rewrite lookup_insert_eq. split; [by eexists|]. intros _.
      destruct (m !! cls) eqn:E; [apply Hin; by eexists|set_solver].
    + rewrite lookup_insert_ne by done. rewrite <- Hin.
      destruct (m !! cls); [done|]. set_solver.
  - intros c l. rewrite lookup_insert_Some. intros [[-> <-]|[_ Hl]]; [|by eapply Hne].
    by destruct (default [] (m !! c)).
  - intros c o. rewrite elem_of_app, list_elem_of_singleton, <- Ho.
    destruct (decide (c = cls)) as [->|Hc].
    + rewrite lookup_insert_eq. cbn. rewrite elem_of_app, list_elem_of_singleton. naive_solver.
    + rewrite lookup_insert_ne by done. naive_solver.
Qed.

Lemma elem_of_witnesses outcomes w :
  w ∈ witnessesByClass outcomes →
  cw_Outcomes w ≠ [] ∧ ∀ o, o ∈ cw_Outcomes w → mkClassed (cw_Class w) o ∈ outcomes.
Proof.
  unfold witnessesByClass. pose proof (witness_fold outcomes) as Hf.
  destruct (foldl witness_step (∅, []) outcomes) as [m order]. destruct Hf as (_ & Hin & Hne & Ho).
  intros (c & -> & Hc)%list_elem_of_fmap. unfold sort_strings in Hc. rewrite sort_stable_elem in Hc.
  apply Hin in Hc as [l Hl]. cbn. split; [rewrite Hl; by eapply Hne|]. intros o. apply Ho.
Qed.

Lemma witnesses_cover outcomes c o :
  mkClassed c o ∈ outcomes → ∃ w, w ∈ witnessesByClass outcomes ∧ o ∈ cw_Outcomes w.
Proof.
  unfold witnessesByClass. pose proof (witness_fold outcomes) as Hf.
  destruct (foldl witness_step (∅, []) outcomes) as [m order]. destruct Hf as (_ & Hin & _ & Ho).
  intros Hc. apply Ho in Hc. exists (mkWitness c (default [] (m !! c))). split; [|exact Hc].
  apply list_elem_of_fmap. exists c. split; [done|]. unfold sort_strings.
  rewrite sort_stable_elem. apply Hin. destruct (m !! c); [by eexists|set_solver].
Qed.

(** A test every outcome of every class passes is one every outcome passes. *)
Lemma witnesses_all (P : string → bool) outcomes :
  forallb (λ w, forallb P (cw_Outcomes w)) (witnessesByClass outcomes) = true ↔
    ∀ co, co ∈ outcomes → P (co_outcome co) = true.
Proof.
  rewrite forallb_bool. setoid_rewrite forallb_bool. split.
  - intros Ha [c o] Hco. destruct (witnesses_cover _ _ _ Hco) as (w & Hw & Ho). by apply (Ha w).
  - intros Ha w Hw o Ho. apply elem_of_witnesses in Hw as [_ Hw]. by apply (Ha _ (Hw o Ho)).
Qed.

Lemma witnesses_nil outcomes : witnessesByClass outcomes = [] ↔ outcomes = [].
Proof.
  split; [|by intros ->]. destruct outcomes as [|[c o] outcomes]; [done|]. intros H.
  destruct (witnesses_cover ((mkClassed c o) :: outcomes) c o) as (w & Hw & _); [by left|].
  rewrite H in Hw. set_solver.
Qed.

Lemma Withdrawn_witnesses outcomes :
  WithdrawnCrossClass (witnessesByClass outcomes) = true ↔
    outcomes ≠ [] ∧ ∀ co, co ∈ outcomes → suppresses (co_outcome co) = true.
Proof.
  unfold WithdrawnCrossClass. destruct (Nat.eqb_spec (length (witnessesByClass outcomes)) 0) as [H|H].
  - apply nil_length_inv, witnesses_nil in H. naive_solver.
  - rewrite <- witnesses_all. assert (outcomes ≠ []) by (intros ->; done).
    rewrite !forallb_bool. split.
    + intros Ha. split; [done|]. intros w Hw. specialize (Ha w Hw). by apply andb_true_iff in Ha as [_ ?].
    + intros [_ Ha] w Hw. rewrite (Ha w Hw), andb_true_r.
      apply elem_of_witnesses in Hw as [Hne _]. by destruct (cw_Outcomes w).
Qed.

Lemma Decided_witnesses outcomes :
  DecidedAbsentCrossClass (witnessesByClass outcomes) = true ↔
    outcomes ≠ [] ∧ ∀ co, co ∈ outcomes → co_outcome co = OutcomeNameError.
Proof.
  unfold DecidedAbsentCrossClass. pose proof (Withdrawn_witnesses outcomes) as Hw.
  assert (Hd : ∀ o, suppresses o = true ∧ negb (undecided o) = true ↔ o = OutcomeNameError).
  { intros o. unfold suppresses, undecided. split.
    - intros [[Hs|Hs]%orb_true_iff Hu]; apply String.eqb_eq in Hs; [done|].
      rewrite Hs in Hu. discriminate Hu.
    - intros ->. done. }
  setoid_rewrite <- Hd. destruct (WithdrawnCrossClass _) eqn:E; cbn [negb].
  - rewrite (witnesses_all (λ o, negb (undecided o))). naive_solver.
  - split; [done|]. intros [Hne Ha]. exfalso.
    assert (false = true); [|done]. apply Hw. split; [done|]. intros co Hco. by apply Ha.
Qed.

(** ** Membership *)

Lemma foldl_insert (l : list string) (s : gset string) a :
  a ∈ foldl (λ s a, {[ a ]} ∪ s) s l ↔ a ∈ s ∨ a ∈ l.
Proof. revert s. induction l as [|b l IH]; intros s; cbn; [set_solver|]. rewrite IH. set_solver. Qed.

Lemma observe_fold latest :
  let st := foldl observe_step (mkObserved ∅ ∅ ∅) latest in
  (∀ n, n ∈ sawName st ↔ ∃ o, o ∈ latest ∧ o_Name o = n) ∧
  (∀ n co, co ∈ default [] (perName st !! n) ↔
     ∃ o, o ∈ latest ∧ o_Name o = n ∧ co = mkClassed (o_Class o) (fr_Outcome (o_Resolution o))) ∧
  (∀ a, a ∈ citedAddrs st ↔
     ∃ o, o ∈ latest ∧ fr_Outcome (o_Resolution o) = OutcomeResolved ∧
          a ∈ fr_Addresses (o_Resolution o)).
Proof.
  induction latest as [|x latest IH] using rev_ind.
  { cbn. split_and!; intros n; [set_solver| |set_solver]. intros co. rewrite lookup_empty. set_solver. }
  cbv zeta in *. rewrite foldl_app. cbn [foldl]. set (st := foldl _ _ latest) in *.
  destruct IH as (Hs & Hp & Hc). unfold observe_step. cbn [sawName perName citedAddrs].
  assert (Hor : ∀ P : Observation → Prop, (∃ o, o ∈ latest ++ [x] ∧ P o) ↔
    (∃ o, o ∈ latest ∧ P o) ∨ P x).
  { intros P. setoid_rewrite elem_of_app. setoid_rewrite list_elem_of_singleton. split.
    - intros (o & [Ho| ->] & HP); eauto.
    - intros [(o & Ho & HP)|HP]; eauto. }
  setoid_rewrite Hor. clear Hor. split_and!.
  - intros n. rewrite elem_of_union, elem_of_singleton, Hs. split; (intros [?|?]; [right|left]; auto).
  - intros n co. rewrite <- Hp. destruct (decide (o_Name x = n)) as [<-|Hn].
    + rewrite lookup_insert_eq. cbn. rewrite elem_of_app, list_elem_of_singleton. tauto.
    + rewrite lookup_insert_ne by done. tauto.
  - intros a. destruct (String.eqb_spec (fr_Outcome (o_Resolution x)) OutcomeResolved) as [E|E].
    + rewrite foldl_insert, Hc. tauto.
    + rewrite Hc. tauto.
Qed.

Lemma foldl_seeds (f : string → bool) l (s : gset string) n :
  n ∈ foldl (λ s x, if f x then s else {[ x ]} ∪ s) s l ↔ n ∈ s ∨ (n ∈ l ∧ f n = false).
Proof.
  revert s. induction l as [|x l IH]; intros s; cbn; [set_solver|]. rewrite IH, elem_of_cons.
  assert (Hx : n = x → f n = f x) by (by intros ->).
  destruct (f x) eqn:E; [|rewrite elem_of_union, elem_of_singleton];
    split; intuition congruence.
Qed.

(** Membership withdraws on unanimous measurement alone.  A name is in the
    estate when some vantage, of any class, got an outcome that is neither a name
    error nor shadowed; a declared name stays in until it has been asked about and
    every answer, in every class, was a name error.  An address is in when a
    resolved outcome cites it or a seed declares it.  Both lists are sorted and
    without repetition, and neither the order of the observations nor their
    classes matter. *)
Theorem Membership_spec latest seedNames seedAddrs :
  let e := Membership latest seedNames seedAddrs in
  let outcome o := fr_Outcome (o_Resolution o) in
  (∀ n, n ∈ Names e ↔
     (∃ o, o ∈ latest ∧ o_Name o = n ∧
           outcome o ≠ OutcomeNameError ∧ outcome o ≠ OutcomeShadowed) ∨
     (n ∈ seedNames ∧ ¬ ((∃ o, o ∈ latest ∧ o_Name o = n) ∧
                         ∀ o, o ∈ latest → o_Name o = n → outcome o = OutcomeNameError))) ∧
  (∀ a, a ∈ Addresses e ↔
     (∃ o, o ∈ latest ∧ outcome o = OutcomeResolved ∧ a ∈ fr_Addresses (o_Resolution o)) ∨
     a ∈ seedAddrs) ∧
  NoDup (Names e) ∧ NoDup (Addresses e) ∧
  StronglySorted (not_after str_less) (Names e) ∧ StronglySorted (not_after str_less) (Addresses e).
Proof.
  intros e outcome. destruct (observe_fold latest) as (Hs & Hp & Hc).
  subst e. unfold Membership. set (st := foldl observe_step _ latest) in *. cbn [Names Addresses].
  split_and!; try apply NoDup_sorted_keys; try apply (sort_stable_Sorted str_less).
  2: { intros a. by rewrite elem_of_sorted_keys, foldl_insert, Hc. }
  intros n. rewrite elem_of_sorted_keys, foldl_seeds, elem_of_filter, Hs.
  unfold name_witnesses. set (cos := default [] (perName st !! n)).
  assert (Hne : cos ≠ [] ↔ ∃ o, o ∈ latest ∧ o_Name o = n).
  { split.
    - intros Hcos. destruct cos as [|co cos'] eqn:E; [done|].
      destruct (proj1 (Hp n co)) as (o & Ho & Hn & _); [fold cos; rewrite E; by left|]. eauto.
    - intros (o & Ho & Hn) Hnil. assert (Hin := proj2 (Hp n _) (ex_intro _ o (conj Ho (conj Hn eq_refl)))).
      fold cos in Hin. rewrite Hnil in Hin. set_solver. }
  assert (Hall : ∀ P : string → Prop, (∀ co, co ∈ cos → P (co_outcome co)) ↔
    ∀ o, o ∈ latest → o_Name o = n → P (outcome o)).
  { intros P. unfold cos. setoid_rewrite Hp. split; [intros Ha o Ho Hn|intros Ha co (o & Ho & Hn & ->)].
    - apply (Ha (mkClassed (o_Class o) (outcome o))). by exists o.
    - by apply Ha. }
  rewrite <- !not_true_iff_false, Withdrawn_witnesses, Decided_witnesses, Hne.
  rewrite (Hall (λ o, suppresses o = true)), (Hall (λ o, o = OutcomeNameError)).
  assert (Hsup : ∀ o, suppresses o = false ↔ o ≠ OutcomeNameError ∧ o ≠ OutcomeShadowed).
  { intros o. unfold suppresses. by rewrite orb_false_iff, !String.eqb_neq. }
  apply or_iff_compat_r. split.
  - intros [Hnot (o & Ho & Hn)].
    destruct (existsb (λ o, bool_decide (o_Name o = n) && negb (suppresses (outcome o))) latest) eqn:Ex.
    + apply existsb_bool in Ex as (o' & Ho' & [Hn'%bool_decide_eq_true Hs'%negb_true_iff]%andb_true_iff).
      exists o'. by rewrite <- Hsup.
    + exfalso. apply Hnot. split; [eauto|]. intros o' Ho' Hn'. apply not_false_iff_true. intros Hf.
      apply not_true_iff_false in Ex. apply Ex. apply existsb_bool. exists o'. split; [done|].
      by rewrite Hf, bool_decide_true.
  - intros (o & Ho & Hn & Hno). split; [|eauto]. intros [_ Ha]. apply Hsup in Hno.
    by rewrite (Ha o Ho Hn) in Hno.
Qed.
