(* ===== verification/Exposure.v ===== *)
(** * Exposure ([internal/exposure], [internal/vantageclass])

    Models [exposure.go]: the composition of a reach leg, the two-by-two
    projection, the flagship move, the screen's board and census; and the
    vantage class derived from presented addresses ([vantageclass.go]).  Reach
    values and outcomes are stored strings. *)

From S2P Require Import Prelude NetIP NetParse Custody.

Definition Reached : string := "reached".
Definition NotReached : string := "not-reached".

(** [(value, ok)]; the loop returns at the first reached outcome. *)
Fixpoint compose_from (decided : bool) (outcomes : list string) : string * bool :=
  match outcomes with
  | [] => if decided then (NotReached, true) else (""%string, false)
  | o :: rest =>
      if String.eqb o Reached then (Reached, true)
      else compose_from (decided || String.eqb o NotReached) rest
  end.

Definition ComposeReach (outcomes : list string) : string * bool := compose_from false outcomes.

Inductive LegStatus := LegValued | LegNeverConfigured | LegGap.

#[export] Instance LegStatus_eq : EqDecision LegStatus.
Proof. solve_decision. Defined.

Record Leg := mkLeg { Status : LegStatus; Value : string }.

Definition Leg_Valued (l : Leg) : bool := bool_decide (Status l = LegValued).

Inductive ExposureValue := Exposed | EdgeOnly | Firewalled | Unreachable.

#[export] Instance ExposureValue_eq : EqDecision ExposureValue.
Proof. solve_decision. Defined.

(** [None] is the code's [ok = false]. *)
Definition Project (internet internal : Leg) : option ExposureValue :=
  if negb (Leg_Valued internet) || negb (Leg_Valued internal) then None
  else if String.eqb (Value internet) Reached && String.eqb (Value internal) Reached
  then Some Exposed
  else if String.eqb (Value internet) Reached && String.eqb (Value internal) NotReached
  then Some EdgeOnly
  else if String.eqb (Value internet) NotReached && String.eqb (Value internal) Reached
  then Some Firewalled
  else Some Unreachable.

Definition Flagship (before after : string) : bool :=
  String.eqb before NotReached && String.eqb after Reached.

Definition VerifyClass (presented : list Addr) (covered : Addr → bool) : VantageClass :=
  if (length presented =? 0)%nat then ClassUnverified
  else if existsb (λ a, negb (covered (Unmap a))) presented then ClassInternet
  else ClassInternal.

(** [vantageclass.PresentedAddrs] and [vantageclass.Derive]. *)
Definition PresentedAddrs (dialled egress : string) : list Addr :=
  omap (λ s, if String.eqb s "" then None else option_map Unmap (ParseAddr s)) [dialled; egress].

Definition DeriveClass (dialled egress : string) (covered : Addr → bool) : VantageClass :=
  VerifyClass (PresentedAddrs dialled egress) covered.

(** ** The screen *)

Record ServiceInput := mkService {
  Service : string;
  Internet : Leg;
  Internal : Leg;
  Broken : bool;
  InternetBefore : string;
  InternetBeforeSet : bool
}.

Inductive OneLeggedReason := NeverLooked | StoppedLooking.

Record OneLeggedRow := mkOneLegged {
  ol_Service : string; ol_Class : string; ol_Value : string; ol_Reason : OneLeggedReason
}.

Record Board := mkBoard {
  bd_Exposed : list string;
  bd_EdgeOnly : list string;
  bd_Firewalled : list string;
  bd_Unreachable : list string
}.

Definition Board_Total (b : Board) : Z :=
  Z.of_nat (length (bd_Exposed b) + length (bd_EdgeOnly b) + length (bd_Firewalled b) +
            length (bd_Unreachable b)).

Definition Board_add (b : Board) (v : ExposureValue) (service : string) : Board :=
  match v with
  | Exposed => mkBoard (bd_Exposed b ++ [service]) (bd_EdgeOnly b) (bd_Firewalled b) (bd_Unreachable b)
  | EdgeOnly => mkBoard (bd_Exposed b) (bd_EdgeOnly b ++ [service]) (bd_Firewalled b) (bd_Unreachable b)
  | Firewalled => mkBoard (bd_Exposed b) (bd_EdgeOnly b) (bd_Firewalled b ++ [service]) (bd_Unreachable b)
  | Unreachable => mkBoard (bd_Exposed b) (bd_EdgeOnly b) (bd_Firewalled b) (bd_Unreachable b ++ [service])
  end.

Record Screen := mkScreen {
  InternetPresent : bool;
  InternalPresent : bool;
  Constructible : bool;
  NoServices : bool;
  sc_Board : Board;
  OneLegged : list OneLeggedRow;
  sc_Broken : list string;
  WhatMoved : list string
}.

Definition reasonFor (absent : LegStatus) : OneLeggedReason :=
  if bool_decide (absent = LegGap) then StoppedLooking else NeverLooked.

Definition oneLegged (svc : ServiceInput) : option OneLeggedRow :=
  if Leg_Valued (Internet svc) && negb (Leg_Valued (Internal svc)) then
    Some (mkOneLegged (Service svc) "internet" (Value (Internet svc)) (reasonFor (Status (Internal svc))))
  else if Leg_Valued (Internal svc) && negb (Leg_Valued (Internet svc)) then
    Some (mkOneLegged (Service svc) "internal" (Value (Internal svc)) (reasonFor (Status (Internet svc))))
  else None.

Definition moved (svc : ServiceInput) : bool :=
  Leg_Valued (Internet svc) && InternetBeforeSet svc &&
  Flagship (InternetBefore svc) (Value (Internet svc)).

(** The four lists the loop of [Build] grows. *)
Record build_state := mkBuild {
  bs_Board : Board; bs_OneLegged : list OneLeggedRow; bs_Broken : list string;
  bs_WhatMoved : list string
}.

Definition build_step (st : build_state) (svc : ServiceInput) : build_state :=
  let what := if moved svc then bs_WhatMoved st ++ [Service svc] else bs_WhatMoved st in
  if Broken svc then mkBuild (bs_Board st) (bs_OneLegged st) (bs_Broken st ++ [Service svc]) what
  else
    match Project (Internet svc) (Internal svc) with
    | Some ev => mkBuild (Board_add (bs_Board st) ev (Service svc)) (bs_OneLegged st) (bs_Broken st) what
    | None =>
        match oneLegged svc with
        | Some row => mkBuild (bs_Board st) (bs_OneLegged st ++ [row]) (bs_Broken st) what
        | None => mkBuild (bs_Board st) (bs_OneLegged st) (bs_Broken st) what
        end
    end.

Definition BoardZero : Board := mkBoard [] [] [] [].

Definition Build (services : list ServiceInput) (internetPresent internalPresent : bool) : Screen :=
  let c := internetPresent && internalPresent in
  if (length services =? 0)%nat then
    mkScreen internetPresent internalPresent c true BoardZero [] [] []
  else
    let st := foldl build_step (mkBuild BoardZero [] [] []) services in
    let b := bs_Board st in
    mkScreen internetPresent internalPresent c false
      (mkBoard (sort_strings (bd_Exposed b)) (sort_strings (bd_EdgeOnly b))
         (sort_strings (bd_Firewalled b)) (sort_strings (bd_Unreachable b)))
      (sort_stable (less_by ol_Service) (bs_OneLegged st))
      (sort_strings (bs_Broken st)) (sort_strings (bs_WhatMoved st)).

(** ** The census *)

Record Census := mkCensus {
  cn_Exposed : Z; cn_EdgeOnly : Z; cn_Firewalled : Z; cn_Unreachable : Z; cn_OneLegged : Z
}.

Definition CensusZero : Census := mkCensus 0 0 0 0 0.

Definition Census_Count (c : Census) (internet internal : Leg) : Census :=
  let '(mkCensus e g f u o) := c in
  match Project internet internal with
  | None => mkCensus e g f u (o +64 1)
  | Some Exposed => mkCensus (e +64 1) g f u o
  | Some EdgeOnly => mkCensus e (g +64 1) f u o
  | Some Firewalled => mkCensus e g (f +64 1) u o
  | Some Unreachable => mkCensus e g f (u +64 1) o
  end.

Definition Census_Total (c : Census) : Z :=
  cn_Exposed c +64 cn_EdgeOnly c +64 cn_Firewalled c +64 cn_Unreachable c +64 cn_OneLegged c.

(** ** Where a service lands *)

Definition cell (b : Board) (v : ExposureValue) : list string :=
  match v with
  | Exposed => bd_Exposed b
  | EdgeOnly => bd_EdgeOnly b
  | Firewalled => bd_Firewalled b
  | Unreachable => bd_Unreachable b
  end.

Lemma cell_add b v w s :
  cell (Board_add b v s) w = cell b w ++ (if decide (v = w) then [s] else []).
Proof. by destruct v, w; cbn; rewrite ?app_nil_r. Qed.

(** The services of a cell. *)
Definition projects_to (v : ExposureValue) (svc : ServiceInput) : bool :=
  negb (Broken svc) && bool_decide (Project (Internet svc) (Internal svc) = Some v).

Definition row_of (svc : ServiceInput) : option OneLeggedRow :=
  if Broken svc then None else oneLegged svc.

Lemma Project_oneLegged svc v :
  Project (Internet svc) (Internal svc) = Some v → oneLegged svc = None.
Proof.
  unfold Project, oneLegged.
  by destruct (Leg_Valued (Internet svc)), (Leg_Valued (Internal svc)).
Qed.

Lemma build_fold services :
  let st := foldl build_step (mkBuild BoardZero [] [] []) services in
  (∀ v, cell (bs_Board st) v = map Service (filter (λ s, projects_to v s) services)) ∧
  bs_OneLegged st = omap row_of services ∧
  bs_Broken st = map Service (filter (λ s, Broken s) services) ∧
  bs_WhatMoved st = map Service (filter (λ s, moved s) services).
Proof.
  induction services as [|svc services IH] using rev_ind; [split_and!; by try intros []|].
  cbv zeta in *. rewrite foldl_app. cbn [foldl]. set (st := foldl _ _ services) in *.
  destruct IH as (Hc & Ho & Hb & Hm). rewrite omap_app. setoid_rewrite filter_app.
  setoid_rewrite map_app. cbn [omap list_omap].
  assert (Hw : (if moved svc then bs_WhatMoved st ++ [Service svc] else bs_WhatMoved st) =
    map Service (filter (λ s, moved s) services) ++ map Service (filter (λ s, moved s) [svc])).
  { rewrite Hm, filter_cons. by destruct (moved svc); cbn; rewrite ?app_nil_r. }
  unfold build_step. rewrite Hw. unfold row_of at 2.
  assert (Hp : ∀ v, filter (λ s, projects_to v s) [svc] =
    if projects_to v svc then [svc] else []).
  { intros v. rewrite filter_cons, filter_nil. by destruct (projects_to v svc). }
  assert (Hbr : filter (λ s, Broken s) [svc] = if Broken svc then [svc] else []).
  { rewrite filter_cons, filter_nil. by destruct (Broken svc). }
  setoid_rewrite Hp. rewrite Hbr. unfold projects_to.
  destruct (Broken svc); cbn [negb andb].
  - cbn. rewrite Hb, Ho, !app_nil_r. split_and!; try done. intros v. by rewrite app_nil_r.
  - destruct (Project (Internet svc) (Internal svc)) as [ev|] eqn:Ep; cbn [bs_Board bs_OneLegged bs_Broken bs_WhatMoved].
    + rewrite (Project_oneLegged svc ev Ep). cbn. rewrite Hb, Ho, !app_nil_r.
      split_and!; try done. intros v. rewrite cell_add, Hc. f_equal.
      destruct (decide (ev = v)) as [->|Hn]; [by rewrite bool_decide_true|].
      by rewrite bool_decide_false by congruence.
    + destruct (oneLegged svc); cbn; rewrite Hb, Ho, ?app_nil_r;
        (split_and!; try done); intros v; by rewrite app_nil_r, Hc.
Qed.

(** The board is a census.  The screen shows each service once for where it
    stands and nowhere else: a broken one under broken, a two-legged one in the
    one cell its legs project to, a one-legged one in the one-legged list, and
    one with no valued leg nowhere; together they count every service.  What
    moved lists the services whose internet leg turned from not reached to
    reached, whichever list they stand in.  Every list is sorted. *)
Theorem Build_partitions services ip tp :
  let s := Build services ip tp in
  (∀ v, cell (sc_Board s) v ≡ₚ map Service (filter (λ x, projects_to v x) services)) ∧
  OneLegged s ≡ₚ omap row_of services ∧
  sc_Broken s ≡ₚ map Service (filter (λ x, Broken x) services) ∧
  WhatMoved s ≡ₚ map Service (filter (λ x, moved x) services) ∧
  Board_Total (sc_Board s) + Z.of_nat (length (OneLegged s)) + Z.of_nat (length (sc_Broken s)) +
    count_if (λ x, negb (Broken x) && negb (Leg_Valued (Internet x)) && negb (Leg_Valued (Internal x)))
      services = Z.of_nat (length services) ∧
  (∀ v, StronglySorted (not_after str_less) (cell (sc_Board s) v)) ∧
  StronglySorted (not_after (less_by ol_Service)) (OneLegged s) ∧
  StronglySorted (not_after str_less) (WhatMoved s).
Proof.
  intros s.
  assert (Hs : (∀ v, cell (sc_Board s) v = sort_strings (map Service (filter (λ x, projects_to v x) services))) ∧
    OneLegged s = sort_stable (less_by ol_Service) (omap row_of services) ∧
    sc_Broken s = sort_strings (map Service (filter (λ x, Broken x) services)) ∧
    WhatMoved s = sort_strings (map Service (filter (λ x, moved x) services))).
  { subst s. unfold Build. destruct services as [|svc services]; [split_and!; by try intros []|].
    cbn [length Nat.eqb]. destruct (build_fold (svc :: services)) as (Hc & Ho & Hb & Hm).
    cbn [sc_Board OneLegged sc_Broken WhatMoved]. rewrite Ho, Hb, Hm. split_and!; try done.
    intros v. rewrite <- Hc. by destruct v. }
  destruct Hs as (Hc & Ho & Hb & Hm). rewrite Ho, Hb, Hm. setoid_rewrite Hc.
  unfold sort_strings in *.
  split_and!; try (intros; apply sort_stable_Permutation);
    try (intros; apply sort_stable_Sorted; apply _).
  rewrite !sort_stable_length, length_map.
  assert (HT : Board_Total (sc_Board s) = Z.of_nat (length (cell (sc_Board s) Exposed) +
    length (cell (sc_Board s) EdgeOnly) + length (cell (sc_Board s) Firewalled) +
    length (cell (sc_Board s) Unreachable))) by done.
  rewrite HT, !Hc, !sort_stable_length, !length_map. clear.
  assert (Hcount : ∀ P : ServiceInput → bool,
    Z.of_nat (length (filter (λ x, P x) services)) = count_if P services) by done.
  rewrite !Nat2Z.inj_add, (Hcount Broken), !(Hcount (projects_to _)). clear Hcount.
  induction services as [|svc services IH]; [done|].
  rewrite !count_if_cons. cbn [omap list_omap length]. rewrite Nat2Z.inj_succ, <- IH. clear IH.
  generalize (omap row_of services) as o, (count_if Broken services) as nb,
    (count_if (projects_to Exposed) services) as n1,
    (count_if (projects_to EdgeOnly) services) as n2,
    (count_if (projects_to Firewalled) services) as n3,
    (count_if (projects_to Unreachable) services) as n4. intros o nb n1 n2 n3 n4.
  unfold row_of, projects_to, oneLegged, Project.
  destruct (Broken svc), (Leg_Valued (Internet svc)), (Leg_Valued (Internal svc)); cbn [length negb andb orb];
    try lia; repeat (destruct (String.eqb _ _)); cbn;
    repeat (case_bool_decide; try congruence); lia.
Qed.
