(* ===== verification/Signal.v ===== *)
(** * Signals: named rules over the estate ([internal/signal])

    Models [signal.go], [rules.go], [endpoint.go], [service.go],
    [severity.go], [corpus.go] and [address.go]: the rules over names,
    endpoints and services, their censuses, severities and subject kinds.  A
    rule is a record of the operations of the code's rule interfaces.
    [url.Parse] and [strings.ToLower] are parameters; the zone-file reader
    ([zone.go]) is [ZoneFile]'s. *)

From S2P Require Import Prelude GoTime GoStr NetIP NetParse Custody.

(** ** Rules and censuses *)

Inductive Outcome := OutsideDomain | Fired | NotFired | NotEvaluable.

#[export] Instance Outcome_eq : EqDecision Outcome.
Proof. solve_decision. Defined.

Record Version := mkVersion { v_Rule : string; v_Composes : list string }.

Definition Version_String (v : Version) : string :=
  foldl (λ out c, out +:+ "|" +:+ c)%string ("rule@" +:+ v_Rule v)%string (v_Composes v).

Inductive Severity := SevCritical | SevHigh | SevMedium | SevLow | SevInfo.

#[export] Instance Severity_eq : EqDecision Severity.
Proof. solve_decision. Defined.

Definition SevOrder : list Severity := [SevCritical; SevHigh; SevMedium; SevLow; SevInfo].

(** The position in the order; every severity of the type has one. *)
Definition Severity_Rank (s : Severity) : Z :=
  match list_find (λ sv, sv = s) SevOrder with
  | Some (i, _) => Z.of_nat i
  | None => Z.of_nat (length SevOrder)
  end.

(** The interfaces [Rule], [EndpointRule] and [ServiceRule]. *)
Record Rule (F : Type) := mkRule {
  r_Name : string; r_Version : Version; r_Severity : Severity; r_Eval : F → Outcome
}.
Arguments mkRule {F}.
Arguments r_Name {F}.
Arguments r_Version {F}.
Arguments r_Severity {F}.
Arguments r_Eval {F}.

(** A [Member] is its subject. *)
Record Census := mkCensus {
  cs_Rule : string; cs_Version : Version;
  cs_Fired : list string; cs_NotFired : list string; cs_NotEvaluable : list string
}.

Definition InDomain (c : Census) : Z :=
  Z.of_nat (length (cs_Fired c) + length (cs_NotFired c) + length (cs_NotEvaluable c)).

Definition Census_Empty (c : Census) : bool := InDomain c =? 0.

(** The loop of the three [Evaluate] functions over one subject type. *)
Section Evaluate.
Context {F : Type} (subject : F → string).

Definition evaluate_step (r : Rule F) (c : Census) (f : F) : Census :=
  match r_Eval r f with
  | Fired => mkCensus (cs_Rule c) (cs_Version c) (cs_Fired c ++ [subject f]) (cs_NotFired c)
               (cs_NotEvaluable c)
  | NotFired => mkCensus (cs_Rule c) (cs_Version c) (cs_Fired c) (cs_NotFired c ++ [subject f])
                  (cs_NotEvaluable c)
  | NotEvaluable => mkCensus (cs_Rule c) (cs_Version c) (cs_Fired c) (cs_NotFired c)
                      (cs_NotEvaluable c ++ [subject f])
  | OutsideDomain => c
  end.

Definition evaluate (r : Rule F) (population : list F) : Census :=
  let c := foldl (evaluate_step r) (mkCensus (r_Name r) (r_Version r) [] [] []) population in
  mkCensus (cs_Rule c) (cs_Version c) (sort_strings (cs_Fired c)) (sort_strings (cs_NotFired c))
    (sort_strings (cs_NotEvaluable c)).
End Evaluate.

(** ** Names *)

Definition Resolved : string := "Resolved".
Definition NoData : string := "NoData".
Definition NameError : string := "NameError".
Definition Lame : string := "Lame".
Definition Shadowed : string := "Shadowed".
Definition Gap : string := "Gap".
Definition ResolutionNotEvaluable : string := "NotEvaluable".

Record NameFacts := mkNameFacts {
  nf_Name : string;
  nf_InEstate : bool;
  nf_Resolution : string;
  nf_Addresses : list string;
  nf_CNAMETarget : string;
  nf_TargetResolution : string;
  nf_ZoneDeclared : bool;
  nf_InDeclaredZone : bool;
  nf_BeneathDelegation : bool;
  nf_HasInternetVantage : bool;
  nf_InternetResolution : string;
  nf_InternetAddresses : list string
}.

Definition one_of (s : string) (l : list string) : bool := existsb (String.eqb s) l.

Definition rwVersion : string := "resolution-walk/v1".
Definition wdVersion : string := "wildcard-discrimination/v2".
Definition coVersion : string := "connect-outcome/v4".
Definition CertVersion : string := "tls-handshake/v5".
Definition hxVersion : string := "http-exchange/v5".

Definition leafVersions : list string := sort_strings [rwVersion; wdVersion].

Definition hasAnswer (outcome : string) : bool := one_of outcome [Resolved; Shadowed].

(** *** Special-purpose addresses *)

(** The block list of [address.go], row for row. *)
Definition specialPurposeTable : list spBlock := [
  mkBlock (cidr4 0 0 0 0 8) true;
  mkBlock (cidr4 0 0 0 0 32) true;
  mkBlock (cidr4 10 0 0 0 8) true;
  mkBlock (cidr4 100 64 0 0 10) true;
  mkBlock (cidr4 127 0 0 0 8) true;
  mkBlock (cidr4 169 254 0 0 16) true;
  mkBlock (cidr4 172 16 0 0 12) true;
  mkBlock (cidr4 192 0 0 0 24) true;
  mkBlock (cidr4 192 0 0 0 29) true;
  mkBlock (cidr4 192 0 0 8 32) true;
  mkBlock (cidr4 192 0 0 9 32) false;
  mkBlock (cidr4 192 0 0 10 32) false;
  mkBlock (cidr4 192 0 0 170 32) true;
  mkBlock (cidr4 192 0 0 171 32) true;
  mkBlock (cidr4 192 0 2 0 24) true;
  mkBlock (cidr4 192 31 196 0 24) false;
  mkBlock (cidr4 192 52 193 0 24) false;
  mkBlock (cidr4 192 88 99 0 24) false;
  mkBlock (cidr4 192 88 99 2 32) true;
  mkBlock (cidr4 192 168 0 0 16) true;
  mkBlock (cidr4 192 175 48 0 24) false;
  mkBlock (cidr4 198 18 0 0 15) true;
  mkBlock (cidr4 198 51 100 0 24) true;
  mkBlock (cidr4 203 0 113 0 24) true;
  mkBlock (cidr4 240 0 0 0 4) true;
  mkBlock (cidr4 255 255 255 255 32) true;
  mkBlock (cidr6_low 0x1 128) true;
  mkBlock (cidr6_low 0x0 128) true;
  mkBlock (cidr6_low 0xffff00000000 96) true;
  mkBlock (cidr6 [0x64; 0xff9b] 96) false;
  mkBlock (cidr6 [0x64; 0xff9b; 0x1] 48) true;
  mkBlock (cidr6 [0x100] 64) true;
  mkBlock (cidr6 [0x100; 0; 0; 0x1] 64) true;
  mkBlock (cidr6 [0x2001] 23) true;
  mkBlock (cidr6 [0x2001] 32) false;
  mkBlock (cidr6 [0x2001; 0x1; 0; 0; 0; 0; 0; 0x1] 128) false;
  mkBlock (cidr6 [0x2001; 0x1; 0; 0; 0; 0; 0; 0x2] 128) false;
  mkBlock (cidr6 [0x2001; 0x1; 0; 0; 0; 0; 0; 0x3] 128) false;
  mkBlock (cidr6 [0x2001; 0x2] 48) true;
  mkBlock (cidr6 [0x2001; 0x3] 32) false;
  mkBlock (cidr6 [0x2001; 0x4; 0x112] 48) false;
  mkBlock (cidr6 [0x2001; 0x10] 28) false;
  mkBlock (cidr6 [0x2001; 0x20] 28) false;
  mkBlock (cidr6 [0x2001; 0x30] 28) false;
  mkBlock (cidr6 [0x2001; 0xdb8] 32) true;
  mkBlock (cidr6 [0x2002] 16) false;
  mkBlock (cidr6 [0x2620; 0x4f; 0x8000] 48) false;
  mkBlock (cidr6 [0x3fff] 20) true;
  mkBlock (cidr6 [0x5f00] 16) true;
  mkBlock (cidr6 [0xfc00] 7) true;
  mkBlock (cidr6 [0xfe80] 10) true ].

Definition best_step (addr : Addr) (best : option spBlock) (b : spBlock) : option spBlock :=
  if negb (Contains (sb_prefix b) addr) then best
  else
    match best with
    | None => Some b
    | Some c => if p_bits (sb_prefix c) <? p_bits (sb_prefix b) then Some b else best
    end.

Definition specialPurposeFires (addr : Addr) : bool :=
  if negb (Addr_IsValid addr) then false
  else
    match foldl (best_step addr) None specialPurposeTable with
    | None => false
    | Some b => sb_fires b
    end.

Definition anyNonGloballyReachable (addrs : list string) : bool :=
  existsb (λ a, match ParseAddr a with
                | None => false
                | Some addr => specialPurposeFires (Unmap addr)
                end) addrs.

(** *** The rules *)

Definition lameDelegation : Rule NameFacts :=
  mkRule "lame-delegation" (mkVersion "v1" leafVersions) SevMedium (λ f,
    if negb (nf_InEstate f) then OutsideDomain
    else if String.eqb (nf_Resolution f) Lame then Fired
    else if one_of (nf_Resolution f) [Shadowed; Gap; ResolutionNotEvaluable] then NotEvaluable
    else NotFired).

Definition cnameTargetNameError : Rule NameFacts :=
  mkRule "cname-target-name-error" (mkVersion "v1" leafVersions) SevHigh (λ f,
    if String.eqb (nf_CNAMETarget f) "" then OutsideDomain
    else if one_of (nf_Resolution f) [Shadowed; ResolutionNotEvaluable] then NotEvaluable
    else if String.eqb (nf_TargetResolution f) NameError then Fired
    else if one_of (nf_TargetResolution f) [""%string; Gap; Shadowed; ResolutionNotEvaluable]
    then NotEvaluable
    else NotFired).

Definition zoneDeclaredNameReturnsNameError : Rule NameFacts :=
  mkRule "zone-declared-name-returns-name-error" (mkVersion "v1" leafVersions) SevMedium (λ f,
    if negb (nf_ZoneDeclared f) then OutsideDomain
    else if String.eqb (nf_Resolution f) NameError then Fired
    else if one_of (nf_Resolution f) [Lame; Shadowed; Gap; ResolutionNotEvaluable]
    then NotEvaluable
    else NotFired).

Definition resolvedNameAbsentFromZone : Rule NameFacts :=
  mkRule "resolved-name-absent-from-zone" (mkVersion "v2" leafVersions) SevLow (λ f,
    if negb (nf_InDeclaredZone f) then OutsideDomain
    else if String.eqb (nf_Resolution f) Resolved then
      if nf_BeneathDelegation f then NotEvaluable
      else if nf_ZoneDeclared f then NotFired
      else Fired
    else if one_of (nf_Resolution f) [Shadowed; ResolutionNotEvaluable] then NotEvaluable
    else OutsideDomain).

Definition nonGloballyReachableFromInternet : Rule NameFacts :=
  mkRule "non-globally-reachable-address-resolved-from-internet" (mkVersion "v2" leafVersions)
    SevMedium (λ f,
    if negb (nf_HasInternetVantage f) then NotEvaluable
    else if negb (hasAnswer (nf_InternetResolution f)) then OutsideDomain
    else if String.eqb (nf_InternetResolution f) Shadowed then NotEvaluable
    else if anyNonGloballyReachable (nf_InternetAddresses f) then Fired
    else NotFired).

Definition All : list (Rule NameFacts) := [
  lameDelegation;
  cnameTargetNameError;
  zoneDeclaredNameReturnsNameError;
  resolvedNameAbsentFromZone;
  nonGloballyReachableFromInternet ].

Definition Evaluate (r : Rule NameFacts) (estate : list NameFacts) : Census :=
  evaluate nf_Name r estate.

Definition EvaluateAll (estate : list NameFacts) : list Census :=
  map (λ r, Evaluate r estate) All.

(** ** Endpoints *)

Definition CertPresented : string := "presented".
Definition CertTLSRefused : string := "tls-refused".
Definition CertNoTLS : string := "no-tls".

Record CertClock := mkClock { cc_NotBefore : Z; cc_NotAfter : Z; cc_ObservedAt : Z; cc_EvaluatedAt : Z }.

Record CertDetails := mkDetails {
  cd_Clock : option CertClock;
  cd_SelfSigned : option bool;
  cd_WeakKeyOrSignature : option bool;
  cd_SANMatchesName : option bool
}.

Record EndpointFacts := mkEndpoint {
  ef_Subject : string;
  ef_HasName : bool;
  ef_CertMeasured : bool;
  ef_CertOutcome : string;
  ef_CertDetails : option CertDetails;
  ef_HTTPResponded : bool;
  ef_HTTPStatus : Z;
  ef_RedirectLocation : string;
  ef_RedirectHostInEstate : bool
}.

Definition certVersion : Version := mkVersion "v1" [CertVersion].

Definition certHorizonVersion : string := "cert-horizon/v1".
Definition weakKeyFloorVersion : string := "weak-key-floor/v1".

(** [(N, ok)]. *)
Definition CertHorizon (notBefore notAfter : Z) : Z * bool :=
  let validity := TimeSub notAfter notBefore in
  if validity <=? 0 then (0, false)
  else if validity <=? 10 * 24 * Hour then (validity /64 2, true)
  else (validity /64 3, true).

Definition presentedCert (f : EndpointFacts) : bool :=
  ef_CertMeasured f && String.eqb (ef_CertOutcome f) CertPresented.

Definition clockRule (name : string) (sev : Severity) (read : CertClock → Z → bool)
    : Rule EndpointFacts :=
  mkRule name (mkVersion "v2" (sort_strings [CertVersion; certHorizonVersion])) sev (λ f,
    if negb (presentedCert f) then OutsideDomain
    else
      match ef_CertDetails f with
      | None => NotEvaluable
      | Some d =>
          match cd_Clock d with
          | None => NotEvaluable
          | Some c =>
              let '(horizon, ok) := CertHorizon (cc_NotBefore c) (cc_NotAfter c) in
              if negb ok || (horizon <? TimeSub (cc_EvaluatedAt c) (cc_ObservedAt c))
              then NotEvaluable
              else if read c horizon then Fired else NotFired
          end
      end).

Definition certDetailRule (name : string) (v : Version) (sev : Severity)
    (pick : CertDetails → option bool) : Rule EndpointFacts :=
  mkRule name v sev (λ f,
    if negb (presentedCert f) then OutsideDomain
    else
      match ef_CertDetails f with
      | None => NotEvaluable
      | Some d =>
          match pick d with
          | None => NotEvaluable
          | Some true => Fired
          | Some false => NotFired
          end
      end).

Definition certificateExpired : Rule EndpointFacts :=
  clockRule "certificate-expired" SevCritical (λ c _, negb (After (cc_NotAfter c) (cc_EvaluatedAt c))).

Definition certificateNotYetValid : Rule EndpointFacts :=
  clockRule "certificate-not-yet-valid" SevHigh (λ c _, After (cc_NotBefore c) (cc_EvaluatedAt c)).

Definition certificateExpiring : Rule EndpointFacts :=
  clockRule "certificate-expiring" SevMedium (λ c horizon,
    After (cc_NotAfter c) (cc_EvaluatedAt c) &&
    negb (After (cc_NotAfter c) (TimeAdd (cc_EvaluatedAt c) horizon))).

Definition certificateSelfSigned : Rule EndpointFacts :=
  certDetailRule "certificate-self-signed" certVersion SevMedium cd_SelfSigned.

Definition certificateWeakKeyOrSignature : Rule EndpointFacts :=
  certDetailRule "certificate-weak-key-or-signature"
    (mkVersion "v1" (sort_strings [CertVersion; weakKeyFloorVersion])) SevHigh cd_WeakKeyOrSignature.

Definition certificateHostnameSANMismatch : Rule EndpointFacts :=
  mkRule "certificate-hostname-san-mismatch" certVersion SevHigh (λ f,
    if negb (presentedCert f) || negb (ef_HasName f) then OutsideDomain
    else
      match ef_CertDetails f ≫= cd_SANMatchesName with
      | None => NotEvaluable
      | Some false => Fired
      | Some true => NotFired
      end).

Definition plaintextHTTPNoHTTPS : Rule EndpointFacts :=
  mkRule "plaintext-http-no-https" (mkVersion "v1" (sort_strings [hxVersion; CertVersion]))
    SevMedium (λ f,
    if negb (ef_HTTPResponded f) then OutsideDomain
    else if negb (ef_CertMeasured f) then NotEvaluable
    else if String.eqb (ef_CertOutcome f) CertNoTLS then Fired
    else NotFired).

Definition is3xxWithLocation (f : EndpointFacts) : bool :=
  ef_HTTPResponded f && (300 <=? ef_HTTPStatus f) && (ef_HTTPStatus f <=? 399) &&
  negb (String.eqb (ef_RedirectLocation f) "").

Definition unauthenticatedRequestAnswered : Rule EndpointFacts :=
  mkRule "unauthenticated-request-answered" (mkVersion "v1" [hxVersion]) SevHigh (λ f,
    if negb (ef_HTTPResponded f) then OutsideDomain
    else
      let answered := (200 <=? ef_HTTPStatus f) && (ef_HTTPStatus f <=? 299) in
      let challenged := (ef_HTTPStatus f =? 401) || (ef_HTTPStatus f =? 403) in
      if negb answered && negb challenged then OutsideDomain
      else if answered then Fired else NotFired).

Section Redirects.
(** [url.Parse], as the scheme and [Hostname()] of the URL, and
    [strings.ToLower] over Unicode. *)
Variable url_Parse : string → option (string * string).
Variable ToLower : string → string.

Definition RedirectTarget (location : string) : string * string :=
  match url_Parse (TrimSpace location) with
  | None => (""%string, ""%string)
  | Some (scheme, host) => (ToLower scheme, ToLower host)
  end.

Definition redirectDoesNotUpgradeToTLS : Rule EndpointFacts :=
  mkRule "redirect-does-not-upgrade-to-tls" (mkVersion "v1" [hxVersion]) SevLow (λ f,
    if negb (is3xxWithLocation f) then OutsideDomain
    else if negb (String.eqb (RedirectTarget (ef_RedirectLocation f)).1 "https") then Fired
    else NotFired).

Definition redirectToHostOutsideEstate : Rule EndpointFacts :=
  mkRule "redirect-to-host-outside-estate"
    (mkVersion "v1" (sort_strings (hxVersion :: leafVersions))) SevMedium (λ f,
    if negb (is3xxWithLocation f) then OutsideDomain
    else if String.eqb (RedirectTarget (ef_RedirectLocation f)).2 "" then NotFired
    else if ef_RedirectHostInEstate f then NotFired
    else Fired).

Definition AllEndpointRules : list (Rule EndpointFacts) := [
  certificateExpired;
  certificateNotYetValid;
  certificateExpiring;
  certificateSelfSigned;
  certificateWeakKeyOrSignature;
  certificateHostnameSANMismatch;
  plaintextHTTPNoHTTPS;
  redirectDoesNotUpgradeToTLS;
  redirectToHostOutsideEstate;
  unauthenticatedRequestAnswered ].
End Redirects.

Definition EvaluateEndpoint (r : Rule EndpointFacts) (endpoints : list EndpointFacts) : Census :=
  evaluate ef_Subject r endpoints.

(** ** Services *)

Definition Reached : string := "reached".

Record ServiceFacts := mkServiceFacts {
  sf_Subject : string;
  sf_OnSensitiveList : bool;
  sf_HasInternetReach : bool;
  sf_InternetReach : string;
  sf_TLSHandshakeCompleted : bool;
  sf_TLSVersionsReadable : bool;
  sf_TLS10Accepted : bool
}.

Definition tls10Accepted : Rule ServiceFacts :=
  mkRule "tls-1.0-accepted" (mkVersion "v1" ["tls-acceptance/v1"%string]) SevMedium (λ f,
    if negb (sf_TLSHandshakeCompleted f) then OutsideDomain
    else if negb (sf_TLSVersionsReadable f) then NotEvaluable
    else if sf_TLS10Accepted f then Fired
    else NotFired).

Definition sensitivePortReachedFromInternet : Rule ServiceFacts :=
  mkRule "sensitive-port-reached-from-internet" (mkVersion "v2" [coVersion]) SevCritical (λ f,
    if negb (sf_OnSensitiveList f) then OutsideDomain
    else if negb (sf_HasInternetReach f) then NotEvaluable
    else if String.eqb (sf_InternetReach f) Reached then Fired
    else NotFired).

Definition AllServiceRules : list (Rule ServiceFacts) :=
  [tls10Accepted; sensitivePortReachedFromInternet].

Definition EvaluateService (r : Rule ServiceFacts) (services : list ServiceFacts) : Census :=
  evaluate sf_Subject r services.

(** ** The corpus *)

Record Corpus := mkCorpus {
  co_Names : list NameFacts; co_Services : list ServiceFacts; co_Endpoints : list EndpointFacts
}.

Section Corpus.
Variable url_Parse : string → option (string * string).
Variable ToLower : string → string.

Definition EvaluateCorpus (c : Corpus) : list Census :=
  map (λ r, Evaluate r (co_Names c)) All ++
  map (λ r, EvaluateEndpoint r (co_Endpoints c)) (AllEndpointRules url_Parse ToLower) ++
  map (λ r, EvaluateService r (co_Services c)) AllServiceRules.

Definition AllRuleNames : list string :=
  map r_Name All ++ map r_Name (AllEndpointRules url_Parse ToLower) ++ map r_Name AllServiceRules.

Definition find_rule {F} (name : string) (rules : list (Rule F)) : option (Rule F) :=
  snd <$> list_find (λ r, r_Name r = name) rules.

(** [(severity, known)]. *)
Definition SeverityFor (name : string) : Severity * bool :=
  match find_rule name All with
  | Some r => (r_Severity r, true)
  | None =>
      match find_rule name (AllEndpointRules url_Parse ToLower) with
      | Some r => (r_Severity r, true)
      | None =>
          match find_rule name AllServiceRules with
          | Some r => (r_Severity r, true)
          | None => (SevInfo, false)
          end
      end
  end.

Definition SubjectKindFor (name : string) : string :=
  match find_rule name All with
  | Some _ => "name"
  | None =>
      match find_rule name (AllEndpointRules url_Parse ToLower) with
      | Some _ => "endpoint"
      | None => match find_rule name AllServiceRules with Some _ => "service" | None => "" end
      end
  end.
End Corpus.

(** ** Censuses *)

Lemma evaluate_fold {F} (subject : F → string) (r : Rule F) population :
  let sel o := map subject (filter (λ f, r_Eval r f = o) population) in
  foldl (evaluate_step subject r) (mkCensus (r_Name r) (r_Version r) [] [] []) population =
    mkCensus (r_Name r) (r_Version r) (sel Fired) (sel NotFired) (sel NotEvaluable).
Proof.
  cbv zeta. induction population as [|f population IH] using rev_ind; [done|].
  rewrite foldl_app, IH. cbn [foldl]. unfold evaluate_step.
  rewrite !filter_app, !map_app, !filter_cons, !filter_nil. cbn [cs_Rule cs_Version cs_Fired cs_NotFired cs_NotEvaluable].
  destruct (r_Eval r f); repeat (case_decide; try congruence); cbn; by rewrite ?app_nil_r.
Qed.

(** A census is a partition of the rule's domain, and a function of the set
    of facts.  Each of the three columns holds, in subject order, exactly the
    subjects of that outcome; the subjects outside the domain are in none; the
    columns and those outside count the whole population; and the order in which
    the population is read does not show. *)
Theorem evaluate_partitions {F} (subject : F → string) (r : Rule F) population :
  let c := evaluate subject r population in
  let sel o := map subject (filter (λ f, r_Eval r f = o) population) in
  cs_Fired c ≡ₚ sel Fired ∧ cs_NotFired c ≡ₚ sel NotFired ∧ cs_NotEvaluable c ≡ₚ sel NotEvaluable ∧
  StronglySorted (not_after str_less) (cs_Fired c) ∧
  StronglySorted (not_after str_less) (cs_NotFired c) ∧
  StronglySorted (not_after str_less) (cs_NotEvaluable c) ∧
  InDomain c + Z.of_nat (length (sel OutsideDomain)) = Z.of_nat (length population) ∧
  ∀ population', population' ≡ₚ population → evaluate subject r population' = c.
Proof.
  intros c sel. subst c sel. unfold evaluate. rewrite evaluate_fold.
  cbn [cs_Rule cs_Version cs_Fired cs_NotFired cs_NotEvaluable].
  split_and!; try apply sort_stable_Permutation; try apply sort_stable_Sorted, _.
  - unfold InDomain, sort_strings. cbn [cs_Fired cs_NotFired cs_NotEvaluable].
    rewrite !sort_stable_length, !length_map.
    induction population as [|f population IH]; [done|].
    rewrite !filter_cons. cbn [length]. destruct (r_Eval r f);
      repeat (case_decide; try congruence); cbn [length]; lia.
  - intros population' Hp. rewrite evaluate_fold. cbn [cs_Rule cs_Version cs_Fired cs_NotFired cs_NotEvaluable].
    f_equal; apply sort_strings_perm; by rewrite Hp.
Qed.

(** ** The rule tables *)

(** Every rule is found under its own name.  The seventeen names of the
    guard are distinct, and looking one up gives that rule's own severity and
    the kind of the subjects it reads, however redirect URLs parse. *)
Theorem rule_tables_agree url_Parse ToLower :
  NoDup (AllRuleNames url_Parse ToLower) ∧
  length (AllRuleNames url_Parse ToLower) = 17%nat ∧
  Forall (λ r, SeverityFor url_Parse ToLower (r_Name r) = (r_Severity r, true) ∧
               SubjectKindFor url_Parse ToLower (r_Name r) = "name"%string) All ∧
  Forall (λ r, SeverityFor url_Parse ToLower (r_Name r) = (r_Severity r, true) ∧
               SubjectKindFor url_Parse ToLower (r_Name r) = "endpoint"%string)
    (AllEndpointRules url_Parse ToLower) ∧
  Forall (λ r, SeverityFor url_Parse ToLower (r_Name r) = (r_Severity r, true) ∧
               SubjectKindFor url_Parse ToLower (r_Name r) = "service"%string) AllServiceRules.
Proof.
  split; [|split; [done|]].
  - apply (bool_decide_unpack _). vm_compute. exact I.
  - split_and!; repeat constructor.
Qed.

(** ** Certificate clocks *)

Lemma CertHorizon_spec nb na N ok :
  CertHorizon nb na = (N, ok) →
  (ok = true ↔ nb < na) ∧ (ok = true → 0 ≤ N ∧ 2 * N ≤ na - nb).
Proof.
  unfold CertHorizon. pose proof (TimeSub_in na nb) as Hin. unfold in_int64, minInt64, maxInt64 in Hin.
  set (v := TimeSub na nb) in *.
  assert (Hv : (0 < v ↔ nb < na) ∧ (0 < v → v ≤ na - nb))
    by (unfold v, TimeSub, minInt64, maxInt64; split_ifs; lia).
  destruct Hv as [Hv1 Hv2]. assert (Hw : ∀ d, 2 ≤ d → 0 < v → wrap64 (v ÷ d) = v / d).
  { intros d Hd Hp. rewrite Z.quot_div_nonneg by lia. apply wrap64_id.
    unfold in_int64, minInt64, maxInt64. pose proof (Z.div_pos v d). pose proof (Z.div_le_upper_bound v d v). nia. }
  split_ifs; intros [= <- <-]; (split; [split; [intros; try done; lia|intros; try done; lia]|]);
    try done; intros _; rewrite Hw by lia.
  - pose proof (Z.div_pos v 2). pose proof (Z.mul_div_le v 2). lia.
  - pose proof (Z.div_pos v 3). pose proof (Z.mul_div_le v 3). lia.
Qed.

(** The three clock rules read one clock.  Over a presented certificate they
    speak together or not at all: none is evaluable without a clock, with a
    validity that is not positive, or over an observation older than the
    horizon.  When they speak, exactly one thing is said: not yet valid before
    the start, expired from the end on, expiring in the last horizon before the
    end, and otherwise none fires; no two ever fire together. *)
Theorem clock_rules_exclusive f c :
  presentedCert f = true → ef_CertDetails f ≫= cd_Clock = Some c →
  let fires r := r_Eval r f = Fired in
  let nb := cc_NotBefore c in let na := cc_NotAfter c in let now := cc_EvaluatedAt c in
  let '(N, ok) := CertHorizon nb na in
  if negb ok || (N <? TimeSub now (cc_ObservedAt c)) then
    r_Eval certificateExpired f = NotEvaluable ∧ r_Eval certificateNotYetValid f = NotEvaluable ∧
    r_Eval certificateExpiring f = NotEvaluable
  else
    0 ≤ N ∧ 2 * N ≤ na - nb ∧
    (fires certificateNotYetValid ↔ now < nb) ∧
    (fires certificateExpired ↔ na ≤ now) ∧
    (fires certificateExpiring ↔ na - N ≤ now < na) ∧
    ¬ (fires certificateNotYetValid ∧ fires certificateExpired) ∧
    ¬ (fires certificateNotYetValid ∧ fires certificateExpiring) ∧
    ¬ (fires certificateExpired ∧ fires certificateExpiring) ∧
    Forall (λ r, r_Eval r f = Fired ∨ r_Eval r f = NotFired)
      [certificateExpired; certificateNotYetValid; certificateExpiring].
Proof.
  intros Hp Hc fires nb na now. subst fires. cbv beta.
  destruct (CertHorizon nb na) as [N ok] eqn:E.
  assert (Heval : ∀ name sev read, r_Eval (clockRule name sev read) f =
    if negb ok || (N <? TimeSub now (cc_ObservedAt c)) then NotEvaluable
    else if read c N then Fired else NotFired).
  { intros. unfold clockRule. cbn [r_Eval]. rewrite Hp. destruct (ef_CertDetails f); [|done].
    cbn in Hc. rewrite Hc. fold nb na now. by rewrite E. }
  unfold certificateExpired, certificateNotYetValid, certificateExpiring. rewrite !Heval.
  apply CertHorizon_spec in E as [Hok HN].
  destruct (negb ok || _) eqn:Eo; [done|]. apply orb_false_iff in Eo as [Eo _].
  apply negb_false_iff in Eo. destruct (HN Eo) as [HN0 HN1]. apply Hok in Eo.
  unfold After, TimeAdd. fold nb na now.
  assert (Hif : ∀ b : bool, (if b then Fired else NotFired) = Fired ↔ b = true) by (by intros []).
  assert (Hor : ∀ b : bool, (if b then Fired else NotFired) = Fired ∨
    (if b then Fired else NotFired) = NotFired) by (intros []; tauto).
  rewrite !Hif, andb_true_iff, !negb_true_iff, !Z.ltb_lt, !Z.ltb_ge.
  split_and!; try lia. repeat (apply Forall_cons_2; [rewrite Heval; apply Hor|]). apply Forall_nil_2.
Qed.

Lemma clock_rules_exclusive_witness :
  let day := 24 * Hour in
  let f := mkEndpoint "www@192.0.2.1:443/tcp" true true "presented"
    (Some (mkDetails (Some (mkClock 0 (90 * day) (60 * day) (61 * day))) None None None))
    false 0 "" false in
  r_Eval certificateExpiring f = Fired ∧ r_Eval certificateExpired f ≠ Fired.
Proof.
  intros day f.
  pose proof (clock_rules_exclusive f (mkClock 0 (90 * day) (60 * day) (61 * day)) eq_refl eq_refl) as H.
  cbv zeta in H. cbn [cc_NotBefore cc_NotAfter cc_EvaluatedAt cc_ObservedAt] in H.
  replace (CertHorizon 0 (90 * day)) with (30 * day, true) in H by reflexivity.
  replace (negb true || (30 * day <? TimeSub (61 * day) (60 * day))) with false in H by reflexivity.
  destruct H as (_ & _ & _ & _ & Hx & _ & _ & Hn & _).
  assert (He : r_Eval certificateExpiring f = Fired)
    by (apply Hx; split; [discriminate|reflexivity]).
  split; [exact He|]. intros Hf. apply Hn. split; [exact Hf|exact He].
Defined.

(** ** The two registries *)

Lemma best_step_longest addr table best n b :
  (best = None ∧ n = -1 ∧ b = false) ∨
    (∃ c, best = Some c ∧ n = p_bits (sb_prefix c) ∧ b = sb_fires c) →
  (∀ c, c ∈ table → 0 ≤ p_bits (sb_prefix c)) →
  (match foldl (best_step addr) best table with None => false | Some c => sb_fires c end) =
    (foldl (longest_step addr) (n, b) table).2.
Proof.
  revert best n b. induction table as [|c table IH]; intros best n b Hst Hv.
  { cbn. by destruct Hst as [(-> & _ & ->)|(c & -> & _ & ->)]. }
  cbn [foldl]. unfold best_step at 2, longest_step at 2. cbn [fst].
  assert (Hc : 0 ≤ p_bits (sb_prefix c)) by (apply Hv; by left).
  assert (Hv' : ∀ x, x ∈ table → 0 ≤ p_bits (sb_prefix x)) by (intros x Hx; apply Hv; by right).
  destruct (Contains (sb_prefix c) addr); cbn [negb andb]; [|by apply IH].
  destruct Hst as [(-> & -> & ->)|(d & -> & -> & ->)].
  - rewrite (proj2 (Z.ltb_lt _ _)) by lia. apply IH; [right; by exists c|done].
  - destruct (p_bits (sb_prefix d) <? p_bits (sb_prefix c)); apply IH; eauto.
Qed.

(** The signal's registry is the gate's registry: over every address, valid
    or not, the address rule fires exactly where custody calls it non-globally
    reachable, although each package holds its own table and its own search. *)
Theorem specialPurposeFires_is_custodys addr :
  specialPurposeFires (Unmap addr) = IsNonGloballyReachable addr.
Proof.
  unfold specialPurposeFires, IsNonGloballyReachable.
  destruct (Addr_IsValid (Unmap addr)) eqn:Ev; cbn [negb].
  - change specialPurpose with specialPurposeTable. apply best_step_longest; [by left|].
    intros c Hc. pose proof specialPurpose_valid as Hv. rewrite Forall_forall in Hv.
    by apply (Hv c Hc).
  - destruct addr as [|v|v z]; [|done|]; [vm_compute; done|]. cbn [Unmap] in Ev.
    by destruct (Is4In6 _).
Qed.
