(* ===== verification/QRField.v ===== *)
(** * QR symbols: the field and the error correction ([internal/qr/qr.go])

    The exponent and logarithm tables of GF(256), its product, the Reed-Solomon
    generator and the remainder.  Bytes are [Z] in [0, 256); the tables are built
    by the loops of [init].  Every index is in range for bytes: a sum of two
    logarithms is at most 508 and the tables have 512 and 256 entries, so the
    total lookup stands for Go's. *)

From S2P Require Import Prelude GoBytes.

(** ** The tables *)

Definition gf_init_step (st : list Z * list Z * Z) (i : Z) : list Z * list Z * Z :=
  let '(ex, lg, x) := st in
  let ex := <[Z.to_nat i := Z.land x 255]> ex in
  let lg := <[Z.to_nat (Z.land x 255) := Z.land i 255]> lg in
  let x := Z.shiftl x 1 in
  (ex, lg, if Z.land x 0x100 =? 0 then x else Z.lxor x 0x11d).

Definition gf_wrap_step (ex : list Z) (i : Z) : list Z :=
  <[Z.to_nat i := ex !!! Z.to_nat (i - 255)]> ex.

(** [init]. *)
Definition gf_init : list Z * list Z :=
  let '(ex, lg, _) := foldl gf_init_step (replicate 512 0, replicate 256 0, 1) (seqZ 0 255) in
  (foldl gf_wrap_step ex (seqZ 255 257), lg).

Definition gfExp : list Z := gf_init.1.
Definition gfLog : list Z := gf_init.2.

Definition gfMul (a b : Z) : Z :=
  if (a =? 0) || (b =? 0) then 0
  else gfExp !!! Z.to_nat (gfLog !!! Z.to_nat a + gfLog !!! Z.to_nat b).

(** ** Reed-Solomon *)

Definition xor_at (i : nat) (v : Z) (l : list Z) : list Z := alter (λ c, Z.lxor c v) i l.

Definition gen_inner (g : list Z) (i : nat) (next : list Z) (j : nat) : list Z :=
  xor_at (S j) (gfMul (g !!! j) (gfExp !!! i)) (xor_at j (g !!! j) next).

Definition gen_step (g : list Z) (i : nat) : list Z :=
  foldl (gen_inner g i) (replicate (length g + 1) 0) (seq 0 (length g)).

Definition rsGenerator (n : nat) : list Z := foldl gen_step [1] (seq 0 n).

Definition rem_step (gen res : list Z) (i : nat) : list Z :=
  let coef := res !!! i in
  if coef =? 0 then res
  else foldl (λ res j, xor_at (i + j) (gfMul (gen !!! j) coef) res) res (seq 0 (length gen)).

Definition rsRemainder (data gen : list Z) : list Z :=
  let n := (length gen - 1)%nat in
  drop (length data) (foldl (rem_step gen) (data ++ replicate n 0) (seq 0 (length data))).

Definition rsEncode (data : list Z) (n : nat) : list Z := rsRemainder data (rsGenerator n).

(** ** Polynomials over two elements, modulo 0x11d *)

(** Multiplication by [x]. *)
Definition xtime (a : Z) : Z :=
  let x := Z.shiftl a 1 in if Z.land x 0x100 =? 0 then x else Z.lxor x 0x11d.

(** The product of two polynomials: a shifted copy of [a] for each bit of [b]. *)
Definition poly_mul (a b : Z) : Z :=
  foldr (λ i acc, Z.lxor (if Z.testbit b (Z.of_nat i) then Nat.iter i xtime a else 0) acc) 0
    (seq 0 8).

(** The value at [r] of the polynomial whose coefficients are [l], highest first. *)
Definition eval (l : list Z) (r : Z) : Z := foldl (λ acc c, Z.lxor (gfMul acc r) c) 0 l.

(** The powers of a field element. *)
Definition gfPow (r : Z) (k : nat) : Z := Nat.iter k (λ x, gfMul x r) 1.

(** ** Multiplication by [x] *)

Lemma xtime_eq a : byte a →
  xtime a = Z.lxor (Z.shiftl a 1) (if Z.testbit a 7 then 0x11d else 0).
Proof.
  intros Ha%byte_testbit. unfold xtime.
  assert (Hl : Z.land (Z.shiftl a 1) 256 = if Z.testbit a 7 then 256 else 0).
  { apply Z.bits_inj'. intros i Hi. rewrite Z.land_spec, Z.shiftl_spec by done.
    change 256 with (2 ^ 8). rewrite Z.pow2_bits_eqb by lia.
    destruct (Z.eqb_spec 8 i) as [<-|Hne].
    - change (8 - 1) with 7. by destruct (Z.testbit a 7).
    - rewrite andb_false_r. destruct (Z.testbit a 7); [|by rewrite Z.bits_0].
      change 256 with (2 ^ 8). by rewrite Z.pow2_bits_false. }
  rewrite Hl. destruct (Z.testbit a 7); [done|]. by rewrite Z.lxor_0_r.
Qed.

Lemma xtime_byte a : byte a → byte (xtime a).
Proof.
  intros Ha. rewrite xtime_eq by done. apply byte_testbit in Ha as [Ha0 Ha].
  apply byte_testbit. split.
  - apply Z.lxor_nonneg. rewrite Z.shiftl_nonneg. destruct (Z.testbit a 7); lia.
  - intros i Hi. rewrite Z.lxor_spec, Z.shiftl_spec by lia.
    destruct (decide (i = 8)) as [->|Hne].
    + change (8 - 1) with 7. by destruct (Z.testbit a 7).
    + rewrite Ha by lia. destruct (Z.testbit a 7); [|by rewrite Z.bits_0].
      apply Z.bits_above_log2; [lia|]. change (Z.log2 285) with 8. lia.
Qed.

Lemma xtime_lxor a b : byte a → byte b → xtime (Z.lxor a b) = Z.lxor (xtime a) (xtime b).
Proof.
  intros Ha Hb. rewrite !xtime_eq by auto with verge. rewrite Z.lxor_spec, Z.shiftl_lxor.
  apply Z.bits_inj'. intros i Hi. rewrite !Z.lxor_spec.
  destruct (Z.testbit a 7), (Z.testbit b 7); cbn [xorb]; rewrite ?Z.bits_0;
    by destruct (Z.testbit (Z.shiftl a 1) i), (Z.testbit (Z.shiftl b 1) i), (Z.testbit 285 i).
Qed.

Lemma iter_xtime_byte k a : byte a → byte (Nat.iter k xtime a).
Proof. intros Ha. induction k; simpl; auto using xtime_byte. Qed.

Lemma iter_xtime_lxor k a b : byte a → byte b →
  Nat.iter k xtime (Z.lxor a b) = Z.lxor (Nat.iter k xtime a) (Nat.iter k xtime b).
Proof.
  intros Ha Hb. induction k as [|k IH]; [done|]. simpl.
  by rewrite IH, xtime_lxor by auto using iter_xtime_byte.
Qed.

Lemma iter_xtime_0 k : Nat.iter k xtime 0 = 0.
Proof. induction k as [|k IH]; [done|]. simpl. by rewrite IH. Qed.

(** ** The tables are the powers of two *)

Lemma exp_table :
  forallb (λ i, (gfExp !!! S i =? xtime (gfExp !!! i)) && negb (gfExp !!! i =? 0) &&
                (gfExp !!! i <? 256) && (0 <=? gfExp !!! i)) (seq 0 510) = true.
Proof. vm_compute. reflexivity. Qed.

Lemma log_table :
  forallb (λ a, let l := gfLog !!! a in
                (0 <=? l) && (l <? 255) && (gfExp !!! Z.to_nat l =? Z.of_nat a)) (seq 1 255) = true.
Proof. vm_compute. reflexivity. Qed.

Lemma exp_255 : gfExp !!! 255%nat = 1.
Proof. vm_compute. reflexivity. Qed.

Lemma exp_0 : gfExp !!! 0%nat = 1.
Proof. vm_compute. reflexivity. Qed.

#[global] Opaque gfExp gfLog.

Lemma exp_S i : (i < 510)%nat → gfExp !!! S i = xtime (gfExp !!! i).
Proof.
  intros Hi. pose proof exp_table as H. rewrite forallb_forall in H.
  specialize (H i). rewrite in_seq in H. ospecialize (H _); [lia|].
  rewrite !andb_true_iff, Z.eqb_eq in H. destruct H as [[[H _] _] _]. exact H.
Qed.

Lemma exp_byte i : (i < 510)%nat → byte (gfExp !!! i) ∧ gfExp !!! i ≠ 0.
Proof.
  intros Hi. pose proof exp_table as H. rewrite forallb_forall in H.
  specialize (H i). rewrite in_seq in H. ospecialize (H _); [lia|].
  rewrite !andb_true_iff, negb_true_iff, Z.eqb_neq, Z.ltb_lt, Z.leb_le in H.
  destruct H as [[[_ H1] H2] H3]. exact (conj (conj H3 H2) H1).
Qed.

Lemma log_spec a : byte a → a ≠ 0 →
  0 ≤ gfLog !!! Z.to_nat a < 255 ∧ gfExp !!! Z.to_nat (gfLog !!! Z.to_nat a) = a.
Proof.
  intros Ha Hne. pose proof log_table as H. rewrite forallb_forall in H.
  specialize (H (Z.to_nat a)). rewrite in_seq in H. unfold byte in Ha. ospecialize (H _); [lia|].
  cbv zeta in H. rewrite !andb_true_iff, Z.eqb_eq, Z.ltb_lt, Z.leb_le, Z2Nat.id in H by lia.
  destruct H as [[H1 H2] H3]. exact (conj (conj H1 H2) H3).
Qed.

Lemma exp_distinct :
  forallb (λ i, gfLog !!! Z.to_nat (gfExp !!! i) =? Z.of_nat i) (seq 0 255) = true.
Proof. vm_compute. reflexivity. Qed.

Lemma exp_inj i j : (i < 255)%nat → (j < 255)%nat → gfExp !!! i = gfExp !!! j → i = j.
Proof.
  assert (H : ∀ k, (k < 255)%nat → gfLog !!! Z.to_nat (gfExp !!! k) = Z.of_nat k).
  { intros k Hk. pose proof exp_distinct as H. rewrite forallb_forall in H.
    specialize (H k). rewrite in_seq, Z.eqb_eq in H. apply H. lia. }
  intros Hi Hj E. apply H in Hi, Hj. rewrite E in Hi. rewrite Hi in Hj. lia.
Qed.

Lemma exp_add i k : (i + k ≤ 510)%nat → gfExp !!! (i + k)%nat = Nat.iter k xtime (gfExp !!! i).
Proof.
  induction k as [|k IH]; intros Hk; [by rewrite Nat.add_0_r|].
  rewrite Nat.add_succ_r, exp_S by lia. simpl. by rewrite IH by lia.
Qed.

(** ** The field *)

(** A product by a nonzero [b] shifts [log b] times. *)
Lemma gfMul_iter a b : byte a → byte b → b ≠ 0 →
  gfMul a b = Nat.iter (Z.to_nat (gfLog !!! Z.to_nat b)) xtime a.
Proof.
  intros Ha Hb Hne. unfold gfMul. rewrite (proj2 (Z.eqb_neq b 0)) by done. rewrite orb_false_r.
  destruct (Z.eqb_spec a 0) as [->|Hna]; [by rewrite iter_xtime_0|].
  destruct (log_spec a), (log_spec b); [done..|].
  rewrite Z2Nat.inj_add by lia. rewrite exp_add by lia. by f_equal.
Qed.

Lemma gfMul_0_r a : gfMul a 0 = 0.
Proof. unfold gfMul. by rewrite orb_true_r. Qed.

Lemma gfMul_comm a b : gfMul a b = gfMul b a.
Proof. unfold gfMul. rewrite orb_comm. destruct (_ || _); [done|]. by rewrite Z.add_comm. Qed.

Lemma gfMul_0_l b : gfMul 0 b = 0.
Proof. by rewrite gfMul_comm, gfMul_0_r. Qed.

Lemma gfMul_byte a b : byte a → byte b → byte (gfMul a b).
Proof.
  intros Ha Hb. destruct (decide (b = 0)) as [->|]; [rewrite gfMul_0_r; apply byte_0|].
  rewrite gfMul_iter by done. by apply iter_xtime_byte.
Qed.

#[export] Hint Resolve gfMul_byte : verge.

Lemma gfMul_lxor_l a b c : byte a → byte b → byte c →
  gfMul (Z.lxor a b) c = Z.lxor (gfMul a c) (gfMul b c).
Proof.
  intros Ha Hb Hc. destruct (decide (c = 0)) as [->|]; [by rewrite !gfMul_0_r|].
  rewrite !gfMul_iter by auto with verge. by apply iter_xtime_lxor.
Qed.

Lemma gfMul_lxor_r a b c : byte a → byte b → byte c →
  gfMul c (Z.lxor a b) = Z.lxor (gfMul c a) (gfMul c b).
Proof. intros. rewrite !(gfMul_comm c). by apply gfMul_lxor_l. Qed.

Lemma gfMul_xtime_l a b : byte a → byte b → gfMul (xtime a) b = xtime (gfMul a b).
Proof.
  intros Ha Hb. destruct (decide (b = 0)) as [->|]; [by rewrite !gfMul_0_r|].
  rewrite !gfMul_iter by auto using xtime_byte. by rewrite <- Nat.iter_succ_r, Nat.iter_succ.
Qed.

Lemma gfMul_xtime_r a b : byte a → byte b → gfMul a (xtime b) = xtime (gfMul a b).
Proof. intros. rewrite !(gfMul_comm a). by apply gfMul_xtime_l. Qed.

Lemma gfMul_iter_r k a b : byte a → byte b →
  gfMul a (Nat.iter k xtime b) = Nat.iter k xtime (gfMul a b).
Proof.
  intros Ha Hb. induction k as [|k IH]; [done|]. simpl.
  by rewrite gfMul_xtime_r, IH by auto using iter_xtime_byte.
Qed.

Lemma gfMul_assoc a b c : byte a → byte b → byte c →
  gfMul a (gfMul b c) = gfMul (gfMul a b) c.
Proof.
  intros Ha Hb Hc. destruct (decide (c = 0)) as [->|]; [by rewrite !gfMul_0_r|].
  rewrite (gfMul_iter b c), (gfMul_iter (gfMul a b) c) by auto with verge.
  by apply gfMul_iter_r.
Qed.

Lemma gfMul_1_r a : byte a → gfMul a 1 = a.
Proof.
  intros Ha. rewrite gfMul_iter by (done || apply byte_1). by replace (gfLog !!! _) with 0.
Qed.

(** A byte is the sum of the shifts of one that its bits pick. *)
Lemma byte_bits b : byte b →
  b = foldr (λ i acc, Z.lxor (if Z.testbit b (Z.of_nat i) then Nat.iter i xtime 1 else 0) acc) 0
        (seq 0 8).
Proof.
  intros Hb. apply byte_testbit in Hb as [_ Hb]. cbn [seq foldr].
  change (Nat.iter 0 xtime 1) with (2 ^ Z.of_nat 0). change (Nat.iter 1 xtime 1) with (2 ^ Z.of_nat 1).
  change (Nat.iter 2 xtime 1) with (2 ^ Z.of_nat 2). change (Nat.iter 3 xtime 1) with (2 ^ Z.of_nat 3).
  change (Nat.iter 4 xtime 1) with (2 ^ Z.of_nat 4). change (Nat.iter 5 xtime 1) with (2 ^ Z.of_nat 5).
  change (Nat.iter 6 xtime 1) with (2 ^ Z.of_nat 6). change (Nat.iter 7 xtime 1) with (2 ^ Z.of_nat 7).
  apply Z.bits_inj'. intros i Hi. rewrite !Z.lxor_spec, Z.bits_0.
  assert (Hbit : ∀ k : nat, Z.testbit (if Z.testbit b (Z.of_nat k) then 2 ^ Z.of_nat k else 0) i =
                   Z.testbit b i && (Z.of_nat k =? i)).
  { intros k. destruct (Z.testbit b (Z.of_nat k)) eqn:E.
    - rewrite Z.pow2_bits_eqb by lia. destruct (Z.eqb_spec (Z.of_nat k) i) as [<-|].
      + by rewrite E.
      + by rewrite andb_false_r.
    - rewrite Z.bits_0. destruct (Z.eqb_spec (Z.of_nat k) i) as [<-|]; [by rewrite E|].
      by rewrite andb_false_r. }
  rewrite (Hbit 0%nat), (Hbit 1%nat), (Hbit 2%nat), (Hbit 3%nat), (Hbit 4%nat), (Hbit 5%nat),
    (Hbit 6%nat), (Hbit 7%nat).
  destruct (Z.lt_ge_cases i 8) as [Hlt|Hge]; [|by rewrite Hb by done].
  assert (Hc : i = 0 ∨ i = 1 ∨ i = 2 ∨ i = 3 ∨ i = 4 ∨ i = 5 ∨ i = 6 ∨ i = 7) by lia.
  destruct (Z.testbit b i); [|done].
  by destruct Hc as [->|[->|[->|[->|[->|[->|[->| ->]]]]]]].
Qed.

Lemma poly_mul_sum a b l : byte a →
  gfMul a (foldr (λ i acc, Z.lxor (if Z.testbit b (Z.of_nat i) then Nat.iter i xtime 1 else 0) acc) 0 l)
  = foldr (λ i acc, Z.lxor (if Z.testbit b (Z.of_nat i) then Nat.iter i xtime a else 0) acc) 0 l.
Proof.
  intros Ha. induction l as [|i l IH]; [apply gfMul_0_r|]. cbn [foldr].
  rewrite gfMul_lxor_r.
  - rewrite IH. f_equal. destruct (Z.testbit b _); [|apply gfMul_0_r].
    rewrite gfMul_iter_r by (done || apply byte_1). by rewrite gfMul_1_r.
  - destruct (Z.testbit b _); [apply iter_xtime_byte, byte_1|apply byte_0].
  - clear. induction l as [|j l IH]; [apply byte_0|]. cbn [foldr]. apply byte_lxor; [|done].
    destruct (Z.testbit b _); [apply iter_xtime_byte, byte_1|apply byte_0].
  - done.
Qed.

(** The table product is the field product.  On bytes, [gfMul] is the
    product of polynomials over two elements modulo 0x11d; it is closed,
    commutative, associative, distributes over exclusive or, has unit one, and
    every byte but zero has an inverse. *)
Theorem gfMul_is_field_product a b c :
  byte a → byte b → byte c →
  gfMul a b = poly_mul a b ∧ byte (gfMul a b) ∧ gfMul a b = gfMul b a ∧
  gfMul a (gfMul b c) = gfMul (gfMul a b) c ∧
  gfMul (Z.lxor a b) c = Z.lxor (gfMul a c) (gfMul b c) ∧ gfMul a 1 = a ∧
  (a ≠ 0 → ∃ a', byte a' ∧ gfMul a a' = 1).
Proof.
  intros Ha Hb Hc. split_and!.
  - rewrite (byte_bits b) at 1 by done. by apply poly_mul_sum.
  - by apply gfMul_byte.
  - apply gfMul_comm.
  - by apply gfMul_assoc.
  - by apply gfMul_lxor_l.
  - by apply gfMul_1_r.
  - intros Hne. destruct (log_spec a Ha Hne) as [Hl He].
    set (k := Z.to_nat (gfLog !!! Z.to_nat a)) in *.
    exists (gfExp !!! (255 - k)%nat). assert (Hk : (k < 255)%nat) by lia.
    destruct (exp_byte (255 - k)) as [Hby Hn0]; [lia|]. split; [exact Hby|].
    rewrite gfMul_comm, gfMul_iter by assumption. fold k.
    rewrite <- exp_add by lia. replace (255 - k + k)%nat with 255%nat by lia. apply exp_255.
Qed.

Lemma gfMul_is_field_product_witness :
  gfMul 0x53 0xCA = poly_mul 0x53 0xCA ∧ gfMul 2 (gfMul 3 5) = gfMul (gfMul 2 3) 5.
Proof.
  split.
  - refine (proj1 (gfMul_is_field_product 0x53 0xCA 1 _ _ _)); split; (discriminate || reflexivity).
  - refine (proj1 (proj2 (proj2 (proj2 (gfMul_is_field_product 2 3 5 _ _ _)))));
      split; (discriminate || reflexivity).
Defined.

(** ** Evaluation *)

#[global] Opaque gfMul.

Lemma bytes_snoc l c : Forall byte (l ++ [c]) → Forall byte l ∧ byte c.
Proof. rewrite Forall_app. intros [Hl Hc]. split; [done|]. by inv Hc. Qed.

Lemma eval_snoc l c r : eval (l ++ [c]) r = Z.lxor (gfMul (eval l r) r) c.
Proof. unfold eval. by rewrite foldl_app. Qed.

Lemma eval_byte l r : Forall byte l → byte r → byte (eval l r).
Proof.
  intros Hl Hr. induction l as [|c l IH] using rev_ind; [apply byte_0|].
  apply bytes_snoc in Hl as [Hl Hc]. rewrite eval_snoc. auto with verge.
Qed.

Lemma gfPow_byte r k : byte r → byte (gfPow r k).
Proof. intros Hr. induction k as [|k IH]; [apply byte_1|]. simpl. by apply gfMul_byte. Qed.

Lemma gfPow_S r k : gfPow r (S k) = gfMul (gfPow r k) r.
Proof. done. Qed.

#[export] Hint Resolve eval_byte gfPow_byte : verge.

Lemma length_xor_at i v l : length (xor_at i v l) = length l.
Proof. apply length_alter. Qed.

Lemma xor_at_byte i v l : byte v → Forall byte l → Forall byte (xor_at i v l).
Proof. intros Hv Hl. apply Forall_alter; [done|]. intros x _ Hx. auto with verge. Qed.

#[export] Hint Resolve xor_at_byte : verge.

Lemma lookup_total_byte l i : Forall byte l → byte (l !!! i).
Proof.
  intros Hl. rewrite list_lookup_total_alt. destruct (l !! i) eqn:E; simpl.
  - by eapply Forall_lookup_1.
  - unfold byte. vm_compute. by split.
Qed.

#[export] Hint Resolve lookup_total_byte : verge.

Lemma lxor_swap a b c : Z.lxor (Z.lxor a b) c = Z.lxor (Z.lxor a c) b.
Proof. by rewrite !Z.lxor_assoc, (Z.lxor_comm b c). Qed.

(** Adding [v] to one coefficient adds [v] times a power. *)
Lemma eval_xor_at l i v r : Forall byte l → byte v → byte r → (i < length l)%nat →
  eval (xor_at i v l) r = Z.lxor (eval l r) (gfMul v (gfPow r (length l - 1 - i))).
Proof.
  intros Hl Hv Hr. induction l as [|c l IH] using rev_ind; intros Hi; [simpl in Hi; lia|].
  apply bytes_snoc in Hl as [Hl Hc]. rewrite length_app in *. simpl in Hi.
  unfold xor_at. destruct (decide (i < length l)%nat).
  - rewrite alter_app_l by done. fold (xor_at i v l). rewrite !eval_snoc, IH by done.
    replace (length l + length [c] - 1 - i)%nat with (S (length l - 1 - i)) by (simpl; lia).
    rewrite gfPow_S, gfMul_assoc, gfMul_lxor_l by auto with verge. apply lxor_swap.
  - assert (i = length l + 0)%nat as -> by (simpl in *; lia). rewrite alter_app_r. simpl.
    rewrite !eval_snoc. replace (length l + 1 - 1 - (length l + 0))%nat with 0%nat by lia.
    change (gfPow r 0) with 1. rewrite gfMul_1_r by done. by rewrite Z.lxor_assoc.
Qed.

Lemma eval_zeros n r : eval (replicate n 0) r = 0.
Proof.
  induction n as [|n IH]; [done|]. rewrite replicate_S_end, eval_snoc, IH. by rewrite gfMul_0_l.
Qed.

Lemma eval_leading_zeros n l r : eval (replicate n 0 ++ l) r = eval l r.
Proof. unfold eval. rewrite foldl_app. fold (eval (replicate n 0) r). by rewrite eval_zeros. Qed.

(** A loop over the indices of [gen] reads [gen] in order. *)
Lemma foldl_index_snoc {S} (f : S → nat → Z → S) g c s :
  foldl (λ s j, f s j ((g ++ [c]) !!! j)) s (seq 0 (length (g ++ [c]))) =
  f (foldl (λ s j, f s j (g !!! j)) s (seq 0 (length g))) (length g) c.
Proof.
  rewrite length_app. cbn [length]. rewrite Nat.add_1_r, seq_S, foldl_app. cbn [foldl].
  rewrite Nat.add_0_l, list_lookup_total_middle by done. f_equal.
  apply foldl_ext. intros s' j Hj%elem_of_seq. by rewrite lookup_total_app_l by lia.
Qed.

(** ** The generator *)

Lemma gen_loop_eval g a next r :
  Forall byte g → Forall byte next → byte a → byte r → (length g < length next)%nat →
  let next' := foldl (λ nx j, xor_at (S j) (gfMul (g !!! j) a) (xor_at j (g !!! j) nx)) next
                 (seq 0 (length g)) in
  Forall byte next' ∧ length next' = length next ∧
  eval next' r =
    Z.lxor (eval next r)
      (gfMul (gfMul (eval g r) (gfPow r (length next - 1 - length g))) (Z.lxor r a)).
Proof.
  intros Hg Hn Ha Hr. induction g as [|c g IH] using rev_ind; intros Hlen.
  { cbn [length seq foldl]. change (eval [] r) with 0.
    by rewrite !gfMul_0_l, Z.lxor_0_r. }
  apply bytes_snoc in Hg as [Hg Hc]. rewrite length_app in Hlen. cbn [length] in Hlen.
  destruct IH as (IHb & IHl & IHe); [done|lia|].
  rewrite (foldl_index_snoc (λ nx j c, xor_at (S j) (gfMul c a) (xor_at j c nx))).
  set (nx := foldl _ next _) in *. cbv zeta. split; [auto with verge|].
  split; [by rewrite !length_xor_at|].
  rewrite !eval_xor_at, !length_xor_at, IHe, IHl, eval_snoc, length_app
    by (rewrite ?length_xor_at; auto with verge; lia). cbn [length].
  set (K := (length next - 1 - (length g + 1))%nat).
  replace (length next - 1 - length g)%nat with (S K) by lia.
  replace (length next - 1 - S (length g))%nat with K by lia.
  assert (HK : byte (gfPow r K)) by auto with verge.
  assert (He : byte (eval g r)) by auto with verge. rewrite gfPow_S.
  generalize dependent (gfPow r K). intros p Hp. generalize dependent (eval g r). intros e IHe He.
  rewrite !gfMul_lxor_l, !gfMul_lxor_r by auto with verge.
  rewrite !gfMul_assoc by auto with verge.
  rewrite (gfMul_comm c a), <- !(gfMul_assoc e), <- !(gfMul_assoc c) by auto with verge.
  assert (Hac : gfMul (gfMul a c) p = gfMul c (gfMul p a)).
  { by rewrite (gfMul_comm a), <- gfMul_assoc, (gfMul_comm a) by done. }
  by rewrite Hac, (gfMul_comm r p), !Z.lxor_assoc.
Qed.

Lemma gen_step_spec g i r : Forall byte g → byte r → (i < 510)%nat →
  Forall byte (gen_step g i) ∧ length (gen_step g i) = S (length g) ∧
  eval (gen_step g i) r = gfMul (eval g r) (Z.lxor r (gfExp !!! i)).
Proof.
  intros Hg Hr Hi. destruct (exp_byte i Hi) as [He _].
  destruct (gen_loop_eval g (gfExp !!! i) (replicate (length g + 1) 0) r) as (Hb & Hl & Hv);
    rewrite ?length_replicate; [done|by apply Forall_replicate, byte_0|done..|lia|].
  unfold gen_step, gen_inner. rewrite length_replicate in Hl, Hv.
  split; [exact Hb|]. split; [rewrite Hl; lia|]. rewrite Hv, eval_zeros, Z.lxor_0_l.
  replace (length g + 1 - 1 - length g)%nat with 0%nat by lia. change (gfPow r 0) with 1.
  by rewrite gfMul_1_r by auto with verge.
Qed.

(** The generator is monic. *)
Lemma gen_step_head g i c : g !! 0%nat = Some c → gen_step g i !! 0%nat = Some c.
Proof.
  intros Hg. destruct g as [|c' g]; [done|]. simpl in Hg. injection Hg as ->.
  unfold gen_step. cbn [length seq foldl]. apply foldl_inv.
  - unfold gen_inner, xor_at. rewrite list_lookup_alter_ne by lia.
    by rewrite list_lookup_alter_eq, Nat.add_1_r.
  - intros s j Hj%elem_of_seq Hs. unfold gen_inner, xor_at.
    by rewrite !list_lookup_alter_ne by lia.
Qed.

Lemma rsGenerator_spec n : (n ≤ 510)%nat →
  Forall byte (rsGenerator n) ∧ length (rsGenerator n) = S n ∧ rsGenerator n !! 0%nat = Some 1 ∧
  ∀ i, (i < n)%nat → eval (rsGenerator n) (gfExp !!! i) = 0.
Proof.
  induction n as [|n IH]; intros Hn.
  { cbn. split_and!; [|done..|lia]. constructor; [apply byte_1|done]. }
  destruct IH as (Hb & Hl & Hh & Hr); [lia|].
  unfold rsGenerator. rewrite seq_S, foldl_app. fold (rsGenerator n). cbn [foldl]. rewrite Nat.add_0_l.
  split_and!.
  - by apply (gen_step_spec _ n 0); [|apply byte_0|lia].
  - rewrite (proj1 (proj2 (gen_step_spec _ n 0 Hb byte_0 ltac:(lia)))). by rewrite Hl.
  - by apply gen_step_head.
  - intros i Hi. destruct (exp_byte i) as [He _]; [lia|].
    rewrite (proj2 (proj2 (gen_step_spec _ n _ Hb He ltac:(lia)))).
    destruct (decide (i = n)) as [->|]; [by rewrite Z.lxor_nilpotent, gfMul_0_r|].
    by rewrite Hr, gfMul_0_l by lia.
Qed.

(** ** The remainder *)

Lemma rem_loop_eval gen coef i res r :
  Forall byte gen → Forall byte res → byte coef → byte r → (i + length gen ≤ length res)%nat →
  let res' := foldl (λ res j, xor_at (i + j) (gfMul (gen !!! j) coef) res) res (seq 0 (length gen)) in
  Forall byte res' ∧ length res' = length res ∧
  eval res' r =
    Z.lxor (eval res r)
      (gfMul (gfMul (eval gen r) (gfPow r (length res - i - length gen))) coef).
Proof.
  intros Hg Hn Ha Hr. induction gen as [|c g IH] using rev_ind; intros Hlen.
  { cbn [length seq foldl]. change (eval [] r) with 0.
    by rewrite !gfMul_0_l, Z.lxor_0_r. }
  apply bytes_snoc in Hg as [Hg Hc]. rewrite length_app in Hlen. cbn [length] in Hlen.
  destruct IH as (IHb & IHl & IHe); [done|lia|].
  rewrite (foldl_index_snoc (λ res j c, xor_at (i + j) (gfMul c coef) res)).
  set (nx := foldl _ res _) in *. cbv zeta. split; [auto with verge|].
  split; [by rewrite !length_xor_at|].
  rewrite eval_xor_at, IHe, IHl, eval_snoc, length_app by (auto with verge; lia). cbn [length].
  set (K := (length res - i - (length g + 1))%nat).
  replace (length res - i - length g)%nat with (S K) by lia.
  replace (length res - 1 - (i + length g))%nat with K by lia.
  assert (HK : byte (gfPow r K)) by auto with verge.
  assert (He : byte (eval g r)) by auto with verge. rewrite gfPow_S.
  generalize dependent (gfPow r K). intros p Hp. generalize dependent (eval g r). intros e IHe He.
  assert (E1 : gfMul e (gfMul p r) = gfMul (gfMul e r) p)
    by (rewrite (gfMul_comm p), gfMul_assoc by assumption; reflexivity).
  assert (E2 : gfMul (gfMul c coef) p = gfMul (gfMul c p) coef)
    by (rewrite <- !(gfMul_assoc c), (gfMul_comm p) by assumption; reflexivity).
  rewrite !gfMul_lxor_l, Z.lxor_assoc, E1, E2 by auto with verge. reflexivity.
Qed.

(** Coefficients before the window are untouched; the first one is cleared. *)
Lemma rem_step_clears gen res i :
  gen !! 0%nat = Some 1 → Forall byte res → (i < length res)%nat →
  (∀ k, (k < i)%nat → rem_step gen res i !! k = res !! k) ∧ rem_step gen res i !! i = Some 0.
Proof.
  intros Hg Hb Hi. destruct (lookup_lt_is_Some_2 res i Hi) as [c Hc]. unfold rem_step.
  rewrite (list_lookup_total_correct _ _ _ Hc).
  destruct (Z.eqb_spec c 0) as [->|Hne]; [done|].
  destruct gen as [|g0 gen]; [done|]. simpl in Hg. injection Hg as ->.
  cbn [length seq foldl]. rewrite Nat.add_0_r. change ((1 :: gen) !!! 0%nat) with 1.
  assert (Hbc : byte c) by (eapply Forall_lookup_1; eassumption).
  rewrite gfMul_comm, gfMul_1_r by exact Hbc. split.
  - intros k Hk. apply foldl_inv; [by apply list_lookup_alter_ne; lia|].
    intros s j Hj%elem_of_seq Hs. unfold xor_at. by rewrite list_lookup_alter_ne by lia.
  - apply foldl_inv.
    + unfold xor_at. rewrite list_lookup_alter_eq, Hc. cbn [fmap option_fmap option_map].
      by rewrite Z.lxor_nilpotent.
    + intros s j Hj%elem_of_seq Hs. unfold xor_at. by rewrite list_lookup_alter_ne by lia.
Qed.

Lemma rem_loop_spec data gen k :
  Forall byte data → Forall byte gen → gen !! 0%nat = Some 1 → (k ≤ length data)%nat →
  let n := (length gen - 1)%nat in
  let res := foldl (rem_step gen) (data ++ replicate n 0) (seq 0 k) in
  Forall byte res ∧ length res = (length data + n)%nat ∧ (∀ j, (j < k)%nat → res !! j = Some 0) ∧
  ∀ r, byte r → eval gen r = 0 → eval res r = eval (data ++ replicate n 0) r.
Proof.
  intros Hd Hg Hh Hk n. assert (Hgl : (0 < length gen)%nat) by (by eapply lookup_lt_Some).
  induction k as [|k IH].
  { cbn [seq foldl]. cbv zeta. split_and!; [|by rewrite length_app, length_replicate|lia|done].
    apply Forall_app. split; [done|]. apply Forall_replicate, byte_0. }
  cbv zeta in *. rewrite seq_S, foldl_app. cbn [foldl]. rewrite Nat.add_0_l.
  destruct IH as (Hb & Hl & Hz & He); [lia|]. set (res := foldl _ _ (seq 0 k)) in *.
  destruct (rem_step_clears gen res k) as [Hkeep Hclear]; [done..|lia|].
  assert (Hcoef : byte (res !!! k)) by auto with verge.
  assert (Hstep : ∀ r, byte r → Forall byte (rem_step gen res k) ∧
    length (rem_step gen res k) = length res ∧
    (eval gen r = 0 → eval (rem_step gen res k) r = eval res r)).
  { intros r Hr. unfold rem_step. destruct (res !!! k =? 0); [done|].
    destruct (rem_loop_eval gen (res !!! k) k res r) as (H1 & H2 & H3); [done..|lia|].
    split; [exact H1|]. split; [exact H2|]. intros Hroot.
    by rewrite H3, Hroot, !gfMul_0_l, Z.lxor_0_r. }
  destruct (Hstep 0 byte_0) as (H1 & H2 & _). split; [exact H1|]. split; [by rewrite H2|]. split.
  - intros j Hj. destruct (decide (j = k)) as [->|]; [done|]. rewrite Hkeep by lia. apply Hz. lia.
  - intros r Hr Hroot. rewrite (proj2 (proj2 (Hstep r Hr))) by done. by apply He.
Qed.

Lemma eval_pad data e r : Forall byte data → Forall byte e → byte r →
  eval (data ++ e) r = Z.lxor (eval (data ++ replicate (length e) 0) r) (eval e r).
Proof.
  intros Hd He Hr. induction e as [|c e IH] using rev_ind.
  { cbn [length replicate]. by rewrite app_nil_r, Z.lxor_0_r. }
  apply bytes_snoc in He as [He Hc]. rewrite length_app. cbn [length].
  rewrite Nat.add_1_r, replicate_S_end, !app_assoc, !eval_snoc, IH, Z.lxor_0_r by done.
  rewrite gfMul_lxor_l, Z.lxor_assoc; [reflexivity| |auto with verge|done].
  apply eval_byte; [|done]. apply Forall_app. split; [done|]. apply Forall_replicate, byte_0.
Qed.

Lemma rsRemainder_codeword data n :
  Forall byte data → (n ≤ 255)%nat →
  let ecc := rsRemainder data (rsGenerator n) in
  length ecc = n ∧ Forall byte ecc ∧
  NoDup (map (λ i, gfExp !!! i) (seq 0 n)) ∧
  ∀ i, (i < n)%nat → eval (data ++ ecc) (gfExp !!! i) = 0.
Proof.
  intros Hd Hn ecc. destruct (rsGenerator_spec n) as (Hb & Hl & Hh & Hr); [lia|].
  unfold ecc, rsRemainder.
  destruct (rem_loop_spec data (rsGenerator n) (length data) Hd Hb Hh) as (Hrb & Hrl & Hrz & Hre); [done|].
  rewrite Hl in *. cbn [Nat.sub] in *. rewrite Nat.sub_0_r in *. set (res := foldl _ _ _) in *.
  split_and!.
  - rewrite length_drop. lia.
  - by apply Forall_drop.
  - apply NoDup_fmap_2_strong; [|apply NoDup_seq]. intros i j Hi%elem_of_seq Hj%elem_of_seq.
    apply exp_inj; lia.
  - intros i Hi. destruct (exp_byte i) as [He _]; [lia|]. specialize (Hre _ He (Hr i Hi)).
    assert (Hres : res = replicate (length data) 0 ++ drop (length data) res).
    { rewrite <- (take_drop (length data) res) at 1. f_equal. symmetry.
      apply replicate_as_Forall. split; [rewrite length_take; lia|].
      apply Forall_lookup. intros k z. rewrite lookup_take_Some. intros [Hk Hlt].
      rewrite Hrz in Hk by done. by injection Hk. }
    assert (Hecc : length (drop (length data) res) = n) by (rewrite length_drop; lia).
    rewrite Hres, eval_leading_zeros in Hre.
    rewrite eval_pad, Hecc, Hre by (auto using Forall_drop with verge).
    apply Z.lxor_nilpotent.
Qed.

(** A block with its error correction is a Reed-Solomon codeword.  For up to
    255 check bytes, [rsEncode] returns that many bytes, and the data followed by
    them is a polynomial that vanishes at each of the first [n] powers of two,
    which are distinct. *)
Theorem rsEncode_codeword data n :
  Forall byte data → (n ≤ 255)%nat →
  let ecc := rsEncode data n in
  length ecc = n ∧ Forall byte ecc ∧
  NoDup (map (λ i, gfExp !!! i) (seq 0 n)) ∧
  ∀ i, (i < n)%nat → eval (data ++ ecc) (gfExp !!! i) = 0.
Proof. apply rsRemainder_codeword. Qed.

Lemma rsEncode_codeword_witness :
  length (rsEncode [1; 2; 3] 10) = 10%nat ∧
  eval ([1; 2; 3] ++ rsEncode [1; 2; 3] 10) (gfExp !!! 4%nat) = 0.
Proof.
  destruct (rsEncode_codeword [1; 2; 3] 10) as (H1 & _ & _ & H2).
  - repeat constructor; discriminate.
  - lia.
  - split; [exact H1|]. apply H2. lia.
Defined.

Example rsEncode_hello :
  rsEncode [32; 91; 11; 120; 209; 114; 220; 77; 67; 64; 236; 17; 236; 17; 236; 17] 10 =
    [196; 35; 39; 119; 235; 215; 231; 226; 93; 23].
Proof. vm_compute. reflexivity. Qed.
