(* ===== verification/QRBits.v ===== *)
(** * QR symbols: the codewords ([internal/qr/qr.go])

    The version table, the bit buffer, the choice of a version, the data
    codewords and their interleaving.  Counts of codewords are [nat]; bytes and
    lengths in bits are [Z].  The fields of a version fit the symbol, so no slice
    expression is out of range once [chooseVersion] accepts a length. *)

From S2P Require Import Prelude GoBytes QRField.

(** ** Versions *)

Record ecBlocks := mkEC {
  totalDataCW : nat; ecPerBlock : nat;
  group1Blocks : nat; group1DataCW : nat; group2Blocks : nat; group2DataCW : nat;
  alignments : list Z
}.

Definition versions_table : list ecBlocks := [
  mkEC 16 10 1 16 0 0 [];
  mkEC 28 16 1 28 0 0 [6; 18];
  mkEC 44 26 1 44 0 0 [6; 22];
  mkEC 64 18 2 32 0 0 [6; 26];
  mkEC 86 24 2 43 0 0 [6; 30];
  mkEC 108 16 4 27 0 0 [6; 34];
  mkEC 124 18 4 31 0 0 [6; 22; 38];
  mkEC 154 22 2 38 2 39 [6; 24; 42];
  mkEC 182 22 3 36 2 37 [6; 26; 46];
  mkEC 216 26 4 43 1 44 [6; 28; 50]
].

(** The map from 1 to 10. *)
Definition versionsM (v : Z) : option ecBlocks :=
  if v <? 1 then None else versions_table !! Z.to_nat (v - 1).

Definition maxVersion : Z := 10.

(** ** The bit buffer *)

Record bitBuffer := mkBits { bb_bytes : list Z; bb_nbits : Z }.

Definition append_bit (val : Z) (b : bitBuffer) (i : Z) : bitBuffer :=
  let bs := if bb_nbits b mod 8 =? 0 then bb_bytes b ++ [0] else bb_bytes b in
  let bs := if Z.land (Z.shiftr val i) 1 =? 1
            then alter (λ c, Z.lor c (Z.shiftl 1 (7 - bb_nbits b mod 8)))
                   (Z.to_nat (bb_nbits b / 8)) bs
            else bs in
  mkBits bs (bb_nbits b + 1).

(** [append]: the high bit first. *)
Definition bb_append (b : bitBuffer) (val : Z) (n : nat) : bitBuffer :=
  foldl (append_bit val) b (map Z.of_nat (reverse (seq 0 n))).

Definition countBits (version : Z) : nat := if 10 <=? version then 16 else 8.

Definition fits (dataLen v : Z) : bool :=
  match versionsM v with
  | Some blocks =>
      4 + Z.of_nat (countBits v) + dataLen * 8 <=? Z.of_nat (totalDataCW blocks) * 8
  | None => false
  end.

Definition chooseVersion (dataLen : Z) : option (Z * ecBlocks) :=
  match list_find (λ v, fits dataLen v = true) (seqZ 1 maxVersion) with
  | Some (_, v) => ec ← versionsM v; Some (v, ec)
  | None => None
  end.

(** ** Data codewords *)

Definition encodeData (data : list Z) (version : Z) (ec : ecBlocks) : list Z :=
  let bb := bb_append (mkBits [] 0) 4 4 in
  let bb := bb_append bb (Z.of_nat (length data)) (countBits version) in
  let bb := foldl (λ bb d, bb_append bb d 8) bb data in
  let term := Z.of_nat (totalDataCW ec) * 8 - bb_nbits bb in
  let bb := if 0 <? term then bb_append bb 0 (Z.to_nat (if 4 <? term then 4 else term)) else bb in
  let pad := bb_nbits bb mod 8 in
  let bb := if negb (pad =? 0) then bb_append bb 0 (Z.to_nat (8 - pad)) else bb in
  bb_bytes bb ++
    map (λ i, if Nat.even i then 0xEC else 0x11) (seq 0 (totalDataCW ec - length (bb_bytes bb))).

(** ** Interleaving *)

Record block := mkBlk { blk_data : list Z; blk_ecc : list Z }.

(** [take]: [(blocks, pos)]. *)
Definition take_blocks (dataCW gen : list Z) (count size : nat) (st : list block * nat)
    : list block * nat :=
  foldl (λ st (_ : nat),
    let '(blocks, pos) := st in
    let d := take size (drop pos dataCW) in
    (blocks ++ [mkBlk d (rsRemainder d gen)], pos + size)%nat) st (seq 0 count).

Definition blocks_of (dataCW : list Z) (ec : ecBlocks) : list block :=
  let gen := rsGenerator (ecPerBlock ec) in
  let st := take_blocks dataCW gen (group1Blocks ec) (group1DataCW ec) ([], 0%nat) in
  (take_blocks dataCW gen (group2Blocks ec) (group2DataCW ec) st).1.

Definition interleave (dataCW : list Z) (ec : ecBlocks) : list Z :=
  let blocks := blocks_of dataCW ec in
  let maxData := if (group1DataCW ec <? group2DataCW ec)%nat then group2DataCW ec
                 else group1DataCW ec in
  flat_map (λ i, flat_map (λ b, if (i <? length (blk_data b))%nat then [blk_data b !!! i] else [])
                   blocks) (seq 0 maxData) ++
  flat_map (λ i, map (λ b, blk_ecc b !!! i) blocks) (seq 0 (ecPerBlock ec)).

(** ** Reading codewords back *)

#[local] Ltac Zify.zify_post_hook ::= Z.to_euclidean_division_equations.

Definition byte_bits (c : Z) : list bool := map (Z.testbit c) [7; 6; 5; 4; 3; 2; 1; 0].
Definition bits_of (l : list Z) : list bool := flat_map byte_bits l.

(** The number written by a list of bits, high bit first. *)
Definition bits_val (l : list bool) : Z := foldl (λ a b, 2 * a + Z.b2z b) 0 l.

Definition val_bits (v : Z) (n : nat) : list bool :=
  map (λ i, Z.testbit v (Z.of_nat i)) (reverse (seq 0 n)).

Fixpoint read_bytes (n : nat) (bits : list bool) : list Z :=
  match n with
  | O => []
  | S n' => bits_val (take 8 bits) :: read_bytes n' (drop 8 bits)
  end.

(** A reader's view of the data codewords: the mode, the count, the bytes. *)
Definition readData (version : Z) (cws : list Z) : option (list Z) :=
  let bits := bits_of cws in
  if negb (bits_val (take 4 bits) =? 4) then None
  else
    let bits := drop 4 bits in
    let n := bits_val (take (countBits version) bits) in
    Some (read_bytes (Z.to_nat n) (drop (countBits version) bits)).

Lemma length_byte_bits c : length (byte_bits c) = 8%nat.
Proof. done. Qed.

Lemma length_bits_of l : length (bits_of l) = (8 * length l)%nat.
Proof.
  induction l as [|c l IH]; [done|]. cbn [bits_of flat_map length].
  rewrite length_app, length_byte_bits. fold (bits_of l). lia.
Qed.

Lemma bits_of_app l k : bits_of (l ++ k) = bits_of l ++ bits_of k.
Proof. apply flat_map_app. Qed.

Lemma val_bits_S v n : val_bits v (S n) = Z.testbit v (Z.of_nat n) :: val_bits v n.
Proof. unfold val_bits. by rewrite seq_S, reverse_app. Qed.

Lemma length_val_bits v n : length (val_bits v n) = n.
Proof. unfold val_bits. by rewrite length_map, length_reverse, length_seq. Qed.

Lemma foldl_bits_acc l a :
  foldl (λ a b, 2 * a + Z.b2z b) a l = a * 2 ^ Z.of_nat (length l) + bits_val l.
Proof.
  unfold bits_val. revert a. induction l as [|b l IH]; intros a; [simpl; lia|].
  cbn [foldl length]. rewrite IH, (IH (2 * 0 + _)), Nat2Z.inj_succ, Z.pow_succ_r by lia. lia.
Qed.

Lemma bits_val_val_bits v n : 0 ≤ v → bits_val (val_bits v n) = v mod 2 ^ Z.of_nat n.
Proof.
  intros Hv. induction n as [|n IH]; [by rewrite Z.mod_1_r|].
  rewrite val_bits_S. unfold bits_val. cbn [foldl]. rewrite foldl_bits_acc, IH, length_val_bits.
  rewrite Nat2Z.inj_succ, Z.pow_succ_r by lia.
  rewrite (Z.mul_comm 2 (2 ^ _)), Z.rem_mul_r by lia.
  rewrite <- Z.testbit_spec' by lia. lia.
Qed.

Lemma bits_val_byte c : byte c → bits_val (byte_bits c) = c.
Proof.
  intros Hc. change (byte_bits c) with (val_bits c 8). unfold byte in Hc.
  rewrite bits_val_val_bits by lia. by rewrite Z.mod_small by lia.
Qed.

Lemma read_bytes_bits_of n l rest : length l = n → Forall byte l →
  read_bytes n (bits_of l ++ rest) = l.
Proof.
  revert n. induction l as [|c l IH]; intros n <- Hl; [done|].
  apply Forall_cons in Hl as [Hc Hl]. cbn [length read_bytes bits_of flat_map].
  fold (bits_of l). rewrite <- app_assoc, take_app_length', drop_app_length' by done.
  by rewrite bits_val_byte, IH.
Qed.

(** The buffer holds the bits [l], and fewer than eight zeros after them. *)
Definition holds (b : bitBuffer) (l : list bool) : Prop :=
  Forall byte (bb_bytes b) ∧ bb_nbits b = Z.of_nat (length l) ∧
  ∃ z, (z < 8)%nat ∧ bits_of (bb_bytes b) = l ++ replicate z false.

Lemma byte_bits_set c r : (r < 8)%nat →
  byte_bits (Z.lor c (Z.shiftl 1 (7 - Z.of_nat r))) = <[r := true]> (byte_bits c).
Proof.
  intros Hr. rewrite Z.shiftl_1_l.
  assert (Hb : ∀ k, Z.testbit (Z.lor c (2 ^ (7 - Z.of_nat r))) k =
                    Z.testbit c k || (7 - Z.of_nat r =? k)).
  { intros k. by rewrite Z.lor_spec, Z.pow2_bits_eqb by lia. }
  unfold byte_bits. cbn [map]. rewrite !Hb.
  do 8 (destruct r as [|r]; [cbn; by rewrite ?orb_false_r, ?orb_true_r|]). lia.
Qed.

Lemma byte_lor_bit c r : byte c → (r < 8)%nat → byte (Z.lor c (Z.shiftl 1 (7 - Z.of_nat r))).
Proof.
  rewrite !byte_testbit. intros [Hc Hb] Hr. split.
  - apply Z.lor_nonneg. split; [done|]. apply Z.shiftl_nonneg. lia.
  - intros i Hi. rewrite Z.lor_spec, Hb, Z.shiftl_1_l by done. apply Z.pow2_bits_false. lia.
Qed.

Lemma append_bit_holds v b l i : 0 ≤ i → holds b l →
  holds (append_bit v b i) (l ++ [Z.testbit v i]).
Proof.
  intros Hi (Hb & Hn & z & Hz & Hl).
  set (bs := if bb_nbits b mod 8 =? 0 then bb_bytes b ++ [0] else bb_bytes b).
  assert (Hlen : (8 * length (bb_bytes b) = length l + z)%nat).
  { apply (f_equal length) in Hl. by rewrite length_bits_of, length_app, length_replicate in Hl. }
  assert (Hbs : Forall byte bs ∧ ∃ z', (z' < 8)%nat ∧ bits_of bs = l ++ replicate (S z') false).
  { unfold bs. destruct (Z.eqb_spec (bb_nbits b mod 8) 0) as [H0|H0].
    - assert (z = 0%nat) as -> by lia. split; [apply Forall_app_2; [done|repeat constructor; unfold byte; lia]|].
      exists 7%nat. split; [lia|]. rewrite bits_of_app, Hl. cbn [replicate]. by rewrite app_nil_r.
    - split; [done|]. destruct z as [|z']; [lia|]. exists z'. split; [lia|done]. }
  destruct Hbs as (Hbs & z' & Hz' & Hbits).
  assert (Hnz : bs ≠ []).
  { intros E. rewrite E in Hbits. apply (f_equal length) in Hbits.
    rewrite length_app, length_replicate in Hbits. simpl in Hbits. lia. }
  destruct (exists_last Hnz) as (init & c & E). rewrite E in *.
  apply bytes_snoc in Hbs as [Hinit Hc].
  assert (Hq : length l = (8 * length init + (7 - z'))%nat).
  { apply (f_equal length) in Hbits. rewrite length_bits_of, !length_app, length_replicate in Hbits.
    cbn [length] in Hbits. lia. }
  assert (Hbit : (Z.land (Z.shiftr v i) 1 =? 1) = Z.testbit v i).
  { change 1 with (Z.ones 1) at 1. rewrite Z.land_ones, Z.pow_1_r, <- Z.bit0_mod by lia.
    rewrite Z.shiftr_spec, Z.add_0_l by lia. by destruct (Z.testbit v i). }
  unfold holds, append_bit. cbn [bb_bytes bb_nbits]. fold bs. rewrite Hbit, E, Hn.
  replace (Z.of_nat (length l) mod 8) with (Z.of_nat (7 - z')) by lia.
  replace (Z.to_nat (Z.of_nat (length l) / 8)) with (length init + 0)%nat by lia.
  rewrite alter_app_r. split_and!.
  - destruct (Z.testbit v i); apply Forall_app_2; [done| |done|];
      (apply Forall_cons; split; [|done]); [|done]. apply byte_lor_bit; (done || lia).
  - rewrite length_app. cbn [length]. lia.
  - exists z'. split; [done|]. rewrite <- app_assoc. cbn [app].
    rewrite bits_of_app in Hbits. cbn [bits_of flat_map] in Hbits. rewrite app_nil_r in Hbits.
    destruct (Z.testbit v i); rewrite bits_of_app; cbn [alter list_alter bits_of flat_map];
      rewrite app_nil_r; [|by rewrite Hbits].
    rewrite byte_bits_set by lia.
    transitivity (<[length l := true]> (bits_of init ++ byte_bits c)).
    + rewrite Hq. replace (8 * length init)%nat with (length (bits_of init)) by apply length_bits_of.
      by rewrite insert_app_r.
    + rewrite Hbits. replace (length l) with (length l + 0)%nat at 1 by lia. by rewrite insert_app_r.
Qed.

Lemma bb_append_holds b l v n : holds b l → holds (bb_append b v n) (l ++ val_bits v n).
Proof.
  unfold bb_append, val_bits. generalize (reverse (seq 0 n)). intros ks.
  revert b l. induction ks as [|k ks IH]; intros b l Hb; [by rewrite app_nil_r|].
  cbn [map foldl]. rewrite cons_middle, app_assoc. apply IH, append_bit_holds; [lia|done].
Qed.

Lemma data_loop_holds data b l :
  holds b l → holds (foldl (λ bb d, bb_append bb d 8) b data) (l ++ bits_of data).
Proof.
  revert b l. induction data as [|d data IH]; intros b l Hb; [by rewrite app_nil_r|].
  cbn [foldl bits_of flat_map]. fold (bits_of data). rewrite app_assoc. apply IH.
  exact (bb_append_holds b l d 8 Hb).
Qed.

Lemma holds_length b l : holds b l →
  bb_nbits b = Z.of_nat (length l) ∧
  ∃ z, (z < 8)%nat ∧ (8 * length (bb_bytes b) = length l + z)%nat.
Proof.
  intros (_ & Hn & z & Hz & Hl). split; [done|]. exists z. split; [done|].
  apply (f_equal length) in Hl. by rewrite length_bits_of, length_app, length_replicate in Hl.
Qed.

Definition header (version : Z) (data : list Z) : list bool :=
  val_bits 4 4 ++ val_bits (Z.of_nat (length data)) (countBits version) ++ bits_of data.

Lemma encodeData_spec data version ec :
  4 + Z.of_nat (countBits version) + Z.of_nat (length data) * 8 ≤ Z.of_nat (totalDataCW ec) * 8 →
  length (encodeData data version ec) = totalDataCW ec ∧
  Forall byte (encodeData data version ec) ∧
  ∃ rest, bits_of (encodeData data version ec) = header version data ++ rest.
Proof.
  intros Hfit. unfold encodeData.
  set (b3 := foldl _ _ data). assert (H3 : holds b3 (header version data)).
  { unfold b3, header. rewrite app_assoc. apply data_loop_holds, bb_append_holds.
    apply (bb_append_holds _ []). repeat split; [constructor|]. exists 0%nat. split; [lia|done]. }
  assert (Hlen3 : Z.of_nat (length (header version data)) ≤ Z.of_nat (totalDataCW ec) * 8).
  { unfold header. rewrite !length_app, !length_val_bits, length_bits_of. lia. }
  destruct (holds_length _ _ H3) as [Hn3 _]. cbv zeta.
  set (term := _ - bb_nbits b3). set (b4 := if 0 <? term then _ else b3).
  assert (H4 : ∃ r, holds b4 (header version data ++ r) ∧
    Z.of_nat (length (header version data ++ r)) ≤ Z.of_nat (totalDataCW ec) * 8).
  { unfold b4. destruct (Z.ltb_spec 0 term).
    - eexists. split; [by apply bb_append_holds|]. rewrite length_app, length_val_bits.
      destruct (Z.ltb_spec 4 term); lia.
    - exists []. rewrite app_nil_r. by split. }
  destruct H4 as (r4 & H4 & Hlen4). destruct (holds_length _ _ H4) as [Hn4 _].
  set (b5 := if negb (bb_nbits b4 mod 8 =? 0) then _ else b4).
  assert (H5 : ∃ r, holds b5 (header version data ++ r) ∧
    Z.of_nat (length (header version data ++ r)) mod 8 = 0 ∧
    Z.of_nat (length (header version data ++ r)) ≤ Z.of_nat (totalDataCW ec) * 8).
  { unfold b5. destruct (Z.eqb_spec (bb_nbits b4 mod 8) 0) as [H0|H0]; cbn [negb].
    - exists r4. split; [done|]. split; [lia|done].
    - eexists. rewrite app_assoc. split; [by apply bb_append_holds|].
      rewrite length_app, length_val_bits. lia. }
  destruct H5 as (r5 & H5 & Hal & Hlen5). destruct (holds_length _ _ H5) as (_ & z & Hz & Hl5).
  destruct H5 as (Hb5 & _ & z' & Hz' & Hbits). split_and!.
  - rewrite length_app, length_map, length_seq. lia.
  - apply Forall_app_2; [done|]. apply Forall_map, Forall_true. intros i. unfold byte.
    destruct (Nat.even i); cbn; lia.
  - rewrite bits_of_app, Hbits, <- !app_assoc. by eexists.
Qed.

Lemma versionsM_bounds v ec : versionsM v = Some ec →
  1 ≤ v ≤ 10 ∧ (totalDataCW ec ≤ 216)%nat.
Proof.
  unfold versionsM. destruct (Z.ltb_spec v 1) as [|Hv]; [done|]. intros Hl.
  pose proof (lookup_lt_Some _ _ _ Hl) as Hlt. cbn [length versions_table] in Hlt.
  split; [lia|]. assert (Hall : Forall (λ ec, totalDataCW ec ≤ 216)%nat versions_table)
    by (repeat constructor).
  exact (Forall_lookup_1 _ _ _ _ Hall Hl).
Qed.

Lemma readData_encodeData data version ec :
  versionsM version = Some ec → Forall byte data →
  fits (Z.of_nat (length data)) version = true →
  readData version (encodeData data version ec) = Some data.
Proof.
  intros Hv Hd Hf. unfold fits in Hf. rewrite Hv in Hf. apply Z.leb_le in Hf.
  destruct (versionsM_bounds _ _ Hv) as [_ Ht].
  destruct (encodeData_spec data version ec Hf) as (_ & _ & rest & Hbits).
  unfold readData. rewrite Hbits. unfold header. rewrite <- !app_assoc.
  rewrite (take_app_length' (val_bits 4 4)), (drop_app_length' (val_bits 4 4)) by done.
  change (bits_val (val_bits 4 4) =? 4) with true. cbn [negb].
  rewrite take_app_length', drop_app_length' by (by rewrite length_val_bits).
  rewrite bits_val_val_bits by lia. rewrite Z.mod_small.
  - rewrite Nat2Z.id. by rewrite read_bytes_bits_of.
  - assert (2 ^ 8 ≤ 2 ^ Z.of_nat (countBits version)).
    { apply Z.pow_le_mono_r; [lia|]. unfold countBits. destruct (10 <=? version); lia. }
    lia.
Qed.

(** ** Undoing the interleaving *)

Definition block_sizes (ec : ecBlocks) : list nat :=
  replicate (group1Blocks ec) (group1DataCW ec) ++ replicate (group2Blocks ec) (group2DataCW ec).

Definition maxDataCW (ec : ecBlocks) : nat :=
  if (group1DataCW ec <? group2DataCW ec)%nat then group2DataCW ec else group1DataCW ec.

Fixpoint cut {A} (sizes : list nat) (l : list A) : list (list A) :=
  match sizes with [] => [] | s :: sizes' => take s l :: cut sizes' (drop s l) end.

Definition weave {A} (m : nat) (bs : list (list A)) : list A :=
  flat_map (λ i, omap (λ b, b !! i) bs) (seq 0 m).

(** Where each data codeword of a symbol stood before the interleaving. *)
Definition order (ec : ecBlocks) : list nat :=
  weave (maxDataCW ec) (cut (block_sizes ec) (seq 0 (totalDataCW ec))).

(** A reader's view of the interleaving: each codeword goes back to its place. *)
Definition deinterleave (ec : ecBlocks) (stream : list Z) : list Z :=
  foldl (λ acc pc, <[pc.1 := pc.2]> acc) (replicate (totalDataCW ec) 0) (zip (order ec) stream).

Lemma take_blocks_data dataCW gen count size blocks pos :
  let st := take_blocks dataCW gen count size (blocks, pos) in
  st.1 = blocks ++ map (λ d, mkBlk d (rsRemainder d gen))
                     (cut (replicate count size) (drop pos dataCW)) ∧
  st.2 = (pos + count * size)%nat.
Proof.
  unfold take_blocks. generalize 0%nat. revert blocks pos.
  induction count as [|count IH]; intros blocks pos k; cbn [seq foldl replicate cut map].
  { rewrite app_nil_r. simpl. split; [done|lia]. }
  destruct (IH (blocks ++ [mkBlk (take size (drop pos dataCW)) (rsRemainder (take size (drop pos dataCW)) gen)])
              (pos + size)%nat (S k)) as [-> ->].
  rewrite <- app_assoc, drop_drop. split; [done|]. lia.
Qed.

Lemma cut_app {A} s1 s2 (l : list A) : cut (s1 ++ s2) l = cut s1 l ++ cut s2 (drop (sum_list s1) l).
Proof.
  revert l. induction s1 as [|s s1 IH]; intros l; [done|]. cbn [cut app sum_list].
  by rewrite IH, drop_drop.
Qed.

Lemma blocks_of_eq dataCW ec :
  blocks_of dataCW ec =
    map (λ d, mkBlk d (rsRemainder d (rsGenerator (ecPerBlock ec)))) (cut (block_sizes ec) dataCW).
Proof.
  unfold blocks_of, block_sizes. set (gen := rsGenerator _).
  destruct (take_blocks_data dataCW gen (group1Blocks ec) (group1DataCW ec) [] 0) as [H1 H2].
  destruct (take_blocks _ _ _ _ _) as [blocks pos]. cbn [fst snd] in H1, H2. subst.
  rewrite (proj1 (take_blocks_data _ _ _ _ _ _)). rewrite cut_app, map_app, drop_0. do 3 f_equal.
  f_equal. rewrite Nat.add_0_l. generalize (group1DataCW ec). intros s.
  induction (group1Blocks ec) as [|k IH]; [done|]. cbn. by rewrite <- IH.
Qed.

Lemma weave_blocks m bs :
  flat_map (λ i, flat_map (λ b, if (i <? length b)%nat then [b !!! i] else []) bs) (seq 0 m) =
  weave m (bs : list (list Z)).
Proof.
  unfold weave. apply flat_map_ext. intros i. induction bs as [|b bs IH]; [done|].
  cbn [flat_map]. rewrite IH. change (omap ?f (b :: bs)) with
    (match f b with Some y => y :: omap f bs | None => omap f bs end). destruct (Nat.ltb_spec i (length b)) as [Hlt|Hge].
  - destruct (lookup_lt_is_Some_2 b i Hlt) as [c Hc].
    by rewrite Hc, (list_lookup_total_correct _ _ _ Hc).
  - by rewrite lookup_ge_None_2.
Qed.

Lemma cut_map {A B} (f : A → B) sizes l : cut sizes (map f l) = map (map f) (cut sizes l).
Proof.
  revert l. induction sizes as [|s sizes IH]; intros l; [done|]. cbn [cut map].
  by rewrite <- IH, <- !fmap_take, <- !fmap_drop.
Qed.

Lemma weave_map {A B} (f : A → B) m bs : weave m (map (map f) bs) = map f (weave m bs).
Proof.
  unfold weave. rewrite !flat_map_concat_map, concat_map, map_map. f_equal. apply map_ext.
  intros i. induction bs as [|b bs IH]; [done|]. cbn. rewrite IH, list_lookup_fmap.
  by destruct (b !! i).
Qed.

(** Codewords of a symbol, error correction included. *)
Definition totalCW (ec : ecBlocks) : nat :=
  totalDataCW ec + ecPerBlock ec * (group1Blocks ec + group2Blocks ec).

(** The order of each of the ten versions visits every data codeword. *)
Lemma order_table :
  forallb (λ ec, (length (order ec) =? totalDataCW ec)%nat && (ecPerBlock ec <=? 255)%nat &&
    forallb (λ p, existsb (Nat.eqb p) (order ec)) (seq 0 (totalDataCW ec)) &&
    forallb (λ p, (p <? totalDataCW ec)%nat) (order ec)) versions_table = true.
Proof. vm_compute. reflexivity. Qed.

Lemma versionsM_elem v ec : versionsM v = Some ec → ec ∈ versions_table.
Proof.
  unfold versionsM. destruct (v <? 1); [done|]. intros H. by eapply list_elem_of_lookup_2.
Qed.

Lemma order_spec v ec : versionsM v = Some ec →
  length (order ec) = totalDataCW ec ∧ (ecPerBlock ec ≤ 255)%nat ∧
  ∀ p, p ∈ order ec ↔ (p < totalDataCW ec)%nat.
Proof.
  intros Hv%versionsM_elem. pose proof order_table as H. rewrite forallb_bool in H.
  specialize (H ec Hv). rewrite !andb_true_iff, Nat.eqb_eq, Nat.leb_le, !forallb_bool in H.
  destruct H as [[[H1 H2] H3] H4]. split; [exact H1|]. split; [exact H2|]. intros p. split.
  - intros Hp. by apply Nat.ltb_lt, H4.
  - intros Hp. ospecialize (H3 p _); [apply elem_of_seq; lia|].
    apply existsb_bool in H3 as (q & Hq & E%Nat.eqb_eq). by subst.
Qed.

(** The data part of a symbol's codewords, reordered. *)
Lemma interleave_eq dataCW v ec : versionsM v = Some ec → length dataCW = totalDataCW ec →
  interleave dataCW ec =
    map (λ p, dataCW !!! p) (order ec) ++
    flat_map (λ i, map (λ b, blk_ecc b !!! i) (blocks_of dataCW ec)) (seq 0 (ecPerBlock ec)).
Proof.
  intros Hv Hlen. unfold interleave. f_equal. fold (maxDataCW ec).
  rewrite blocks_of_eq. unfold order.
  transitivity (weave (maxDataCW ec) (cut (block_sizes ec) dataCW)).
  - rewrite <- weave_blocks. apply flat_map_ext. intros i.
    rewrite flat_map_concat_map, map_map, <- flat_map_concat_map. done.
  - rewrite <- weave_map, <- cut_map. do 2 f_equal. rewrite <- Hlen. clear.
    apply list_eq. intros i. rewrite list_lookup_fmap.
    destruct (decide (i < length dataCW)%nat) as [Hi|Hi].
    + rewrite lookup_seq_lt by done. cbn. destruct (lookup_lt_is_Some_2 _ _ Hi) as [c Hc].
      by rewrite Hc, (list_lookup_total_correct _ _ _ Hc).
    + rewrite lookup_ge_None_2 by lia. by rewrite lookup_seq_ge by lia.
Qed.

Lemma length_blocks_of dataCW ec :
  length (blocks_of dataCW ec) = (group1Blocks ec + group2Blocks ec)%nat.
Proof.
  rewrite blocks_of_eq, length_map. unfold block_sizes.
  transitivity (length (replicate (group1Blocks ec) (group1DataCW ec) ++
                        replicate (group2Blocks ec) (group2DataCW ec))).
  - generalize (replicate (group1Blocks ec) (group1DataCW ec) ++
                replicate (group2Blocks ec) (group2DataCW ec)). intros sizes. revert dataCW.
    induction sizes as [|s sizes IH]; intros l; [done|]. cbn. by rewrite IH.
  - by rewrite length_app, !length_replicate.
Qed.

Lemma length_flat_map_const {A B} (f : A → list B) l n :
  (∀ x, x ∈ l → length (f x) = n) → length (flat_map f l) = (length l * n)%nat.
Proof.
  induction l as [|x l IH]; intros Hf; [done|]. cbn [flat_map length].
  rewrite length_app, (Hf x), IH; [lia| |left].
  intros y Hy. apply Hf. by right.
Qed.

Lemma cut_bytes sizes l : Forall byte l → Forall (Forall byte) (cut sizes l).
Proof.
  revert l. induction sizes as [|s sizes IH]; intros l Hl; [constructor|]. cbn [cut].
  constructor; [by apply Forall_take|]. by apply IH, Forall_drop.
Qed.

Lemma interleave_spec dataCW v ec :
  versionsM v = Some ec → length dataCW = totalDataCW ec → Forall byte dataCW →
  length (interleave dataCW ec) = totalCW ec ∧ Forall byte (interleave dataCW ec).
Proof.
  intros Hv Hlen Hb. destruct (order_spec _ _ Hv) as (Hol & He & _).
  rewrite (interleave_eq _ _ _ Hv Hlen). split.
  - rewrite length_app, length_map, Hol.
    rewrite (length_flat_map_const _ _ (group1Blocks ec + group2Blocks ec)), length_seq;
      [done|]. intros i _. by rewrite length_map, length_blocks_of.
  - apply Forall_app_2; [apply Forall_map, Forall_true; auto with verge|].
    rewrite Forall_forall. intros c. rewrite list_elem_of_In, in_flat_map.
    intros (i & _ & Hc). rewrite in_map_iff in Hc. destruct Hc as (b & <- & Hbl).
    rewrite blocks_of_eq in Hbl. apply in_map_iff in Hbl as (d & <- & Hd). cbn.
    apply lookup_total_byte. apply rsRemainder_codeword; [|done].
    apply list_elem_of_In in Hd. pose proof (cut_bytes (block_sizes ec) _ Hb) as Hcut.
    rewrite Forall_forall in Hcut. by apply Hcut.
Qed.

Lemma deinterleave_interleave dataCW v ec :
  versionsM v = Some ec → length dataCW = totalDataCW ec →
  deinterleave ec (interleave dataCW ec) = dataCW.
Proof.
  intros Hv Hlen. rewrite (interleave_eq _ _ _ Hv Hlen). unfold deinterleave.
  destruct (order_spec _ _ Hv) as (_ & _ & Hel).
  assert (Hzip : ∀ (l : list nat) (rest acc : list Z), foldl (λ acc pc, <[pc.1 := pc.2]> acc) acc
      (zip l (map (λ p, dataCW !!! p) l ++ rest)) =
    foldl (λ acc p, <[p := dataCW !!! p]> acc) acc l).
  { intros l rest. induction l as [|p l IH]; intros acc; [done|]. cbn. by rewrite IH. }
  rewrite Hzip. clear Hzip.
  assert (Hlook : ∀ (l : list nat) (acc : list Z) k, (k < length acc)%nat →
    foldl (λ acc p, <[p := dataCW !!! p]> acc) acc l !! k =
      if decide (k ∈ l) then Some (dataCW !!! k) else acc !! k).
  { induction l as [|p l IH]; intros acc k Hk; [done|]. cbn [foldl].
    rewrite IH by (by rewrite length_insert).
    destruct (decide (k = p)) as [->|Hne].
    - rewrite (decide_True (P := p ∈ p :: l)) by left. destruct (decide (p ∈ l)); [done|].
      by apply list_lookup_insert_eq.
    - rewrite list_lookup_insert_ne by done.
      destruct (decide (k ∈ l)); [by rewrite decide_True by (by right)|].
      by rewrite decide_False by (rewrite elem_of_cons; tauto). }
  apply list_eq. intros k. destruct (decide (k < totalDataCW ec)%nat) as [Hk|Hk].
  - rewrite Hlook by (by rewrite length_replicate).
    rewrite decide_True by (by apply Hel). destruct (lookup_lt_is_Some_2 dataCW k) as [c Hc]; [lia|].
    by rewrite Hc, (list_lookup_total_correct _ _ _ Hc).
  - rewrite !lookup_ge_None_2; [done|lia|]. apply foldl_inv; [rewrite length_replicate; lia|].
    intros s p _ Hs. by rewrite length_insert.
Qed.
