(* ===== verification/QRMatrix.v ===== *)
(** * QR symbols: the matrix, the masks and the encoder ([internal/qr/qr.go])

    A matrix is its size, its modules and the map of function modules; coordinates
    are [Z].  [grid_get] and [grid_set] are [m.module[y][x]]: the code bounds
    every coordinate by the size, so the value outside a grid is not reached.
    Loops over fixed ranges are folds over [seqZ]; the zigzag of [placeData] is
    the list of the coordinates it visits.  Also the SVG text, up to
    [html.EscapeString] of the standard library, written out. *)

From S2P Require Import Prelude GoStr GoBytes NetParse QRField QRBits.

Record Matrix := mkMatrix { Size : Z; module : list (list bool); isFn : list (list bool) }.

Definition grid_get (g : list (list bool)) (x y : Z) : bool :=
  default false (row ← g !! Z.to_nat y; row !! Z.to_nat x).

Definition grid_set (g : list (list bool)) (x y : Z) (b : bool) : list (list bool) :=
  alter (λ row, <[Z.to_nat x := b]> row) (Z.to_nat y) g.

Definition Dark (m : Matrix) (x y : Z) : bool := grid_get (module m) x y.

Definition newMatrix (version : Z) : Matrix :=
  let size := version * 4 + 17 in
  let g := replicate (Z.to_nat size) (replicate (Z.to_nat size) false) in
  mkMatrix size g g.

Definition set (m : Matrix) (x y : Z) (dark fn : bool) : Matrix :=
  if (x <? 0) || (y <? 0) || (Size m <=? x) || (Size m <=? y) then m
  else mkMatrix (Size m) (grid_set (module m) x y dark)
         (if fn then grid_set (isFn m) x y true else isFn m).

(** [bit(v, i)]. *)
Definition bit (v i : Z) : bool := Z.land (Z.shiftr v i) 1 =? 1.

(** [for x := lo; x <= hi; x++]. *)
Definition range (lo hi : Z) : list Z := seqZ lo (hi - lo + 1).

(** ** Function patterns *)

Definition drawFinder (m : Matrix) (cx cy : Z) : Matrix :=
  foldl (λ m dy, foldl (λ m dx,
    let x := cx + dx in let y := cy + dy in
    if (x <? 0) || (y <? 0) || (Size m <=? x) || (Size m <=? y) then m
    else
      let ax := Z.abs dx in let ay := Z.abs dy in
      let d := if ax <? ay then ay else ax in
      set m x y (negb (d =? 2) && negb (d =? 4)) true) m (range (-4) 4)) m (range (-4) 4).

Definition drawAlignment (m : Matrix) (cx cy : Z) : Matrix :=
  foldl (λ m dy, foldl (λ m dx,
    let ax := Z.abs dx in let ay := Z.abs dy in
    let d := if ax <? ay then ay else ax in
    set m (cx + dx) (cy + dy) (negb (d =? 1)) true) m (range (-2) 2)) m (range (-2) 2).

Definition reserveFormat (m : Matrix) : Matrix :=
  let m := foldl (λ m i,
    let m := if negb (i =? 6) then set m 8 i false true else m in
    if negb (i =? 6) then set m i 8 false true else m) m (range 0 8) in
  let m := foldl (λ m i, set m (Size m - 1 - i) 8 false true) m (range 0 7) in
  foldl (λ m i, set m 8 (Size m - 1 - i) false true) m (range 0 6).

Definition reserveVersion (m : Matrix) : Matrix :=
  foldl (λ m i,
    let a := Size m - 11 + i mod 3 in
    let b := i / 3 in
    set (set m b a false true) a b false true) m (range 0 17).

Definition drawFunctionPatterns (m : Matrix) (version : Z) (ec : ecBlocks) : Matrix :=
  let m := foldl (λ m i,
    let dark := i mod 2 =? 0 in set (set m 6 i dark true) i 6 dark true) m (range 0 (Size m - 1)) in
  let m := drawFinder m 3 3 in
  let m := drawFinder m (Size m - 4) 3 in
  let m := drawFinder m 3 (Size m - 4) in
  let last := Z.of_nat (length (alignments ec)) - 1 in
  let m := foldl (λ m iar,
    foldl (λ m jac,
      let i := Z.of_nat iar.1 in let j := Z.of_nat jac.1 in
      if ((i =? 0) && (j =? 0)) || ((i =? 0) && (j =? last)) || ((i =? last) && (j =? 0)) then m
      else drawAlignment m jac.2 iar.2) m (imap pair (alignments ec)))
    m (imap pair (alignments ec)) in
  let m := reserveFormat m in
  let m := if 7 <=? version then reserveVersion m else m in
  set m 8 (Size m - 8) true true.

(** ** Data *)

(** The values of [right]; the track of column 6 is stepped over. *)
Fixpoint rights (fuel : nat) (right : Z) : list Z :=
  match fuel with
  | O => []
  | S fuel' =>
      if right <? 1 then []
      else
        let right := if right =? 6 then 5 else right in
        right :: rights fuel' (right - 2)
  end.

Definition zigzag (size : Z) : list (Z * Z) :=
  flat_map (λ right,
    flat_map (λ vert,
      map (λ j,
        let x := right - j in
        let upward := Z.land (right + 1) 2 =? 0 in
        (x, if upward then size - 1 - vert else vert)) (range 0 1)) (range 0 (size - 1)))
    (rights (Z.to_nat size) (size - 1)).

Definition place_step (fn : list (list bool)) (codewords : list Z) (st : list (list bool) * Z)
    (xy : Z * Z) : list (list bool) * Z :=
  let '(g, i) := st in
  let total := Z.of_nat (length codewords) * 8 in
  if grid_get fn xy.1 xy.2 || (total <=? i) then (g, i)
  else (grid_set g xy.1 xy.2
          (bit (codewords !!! Z.to_nat (Z.shiftr i 3)) (7 - Z.land i 7)), i + 1).

Definition placeData (m : Matrix) (codewords : list Z) : Matrix :=
  mkMatrix (Size m)
    (foldl (place_step (isFn m) codewords) (module m, 0) (zigzag (Size m))).1 (isFn m).

(** ** Masks, format and version *)

Definition maskCondition (mask x y : Z) : bool :=
  match mask with
  | 0 => (x + y) mod 2 =? 0
  | 1 => y mod 2 =? 0
  | 2 => x mod 3 =? 0
  | 3 => (x + y) mod 3 =? 0
  | 4 => (y / 2 + x / 3) mod 2 =? 0
  | 5 => (x * y) mod 2 + (x * y) mod 3 =? 0
  | 6 => ((x * y) mod 2 + (x * y) mod 3) mod 2 =? 0
  | 7 => ((x + y) mod 2 + (x * y) mod 3) mod 2 =? 0
  | _ => false
  end.

Definition applyMask (m : Matrix) (mask : Z) : Matrix :=
  mkMatrix (Size m)
    (imap (λ y row, imap (λ x b,
       let x := Z.of_nat x in let y := Z.of_nat y in
       if negb (grid_get (isFn m) x y) && maskCondition mask x y then negb b else b) row) (module m))
    (isFn m).

Definition wrap32 (z : Z) : Z := z mod 2 ^ 32.

Definition formatBits (mask : Z) : Z :=
  let data := wrap32 mask in
  let rem := foldl (λ rem _,
    Z.lxor (wrap32 (Z.shiftl rem 1)) (wrap32 (Z.shiftr rem 9 * 0x537))) data (range 0 9) in
  Z.lxor (Z.lor (wrap32 (Z.shiftl data 10)) rem) 0x5412.

Definition versionBits (version : Z) : Z :=
  let rem := foldl (λ rem _,
    Z.lxor (wrap32 (Z.shiftl rem 1)) (wrap32 (Z.shiftr rem 11 * 0x1f25)))
    (wrap32 version) (range 0 11) in
  Z.lor (wrap32 (Z.shiftl (wrap32 version) 12)) rem.

Definition drawFormat (m : Matrix) (mask : Z) : Matrix :=
  let f := formatBits mask in
  let m := foldl (λ m i, set m 8 i (bit f i) true) m (range 0 5) in
  let m := set m 8 7 (bit f 6) true in
  let m := set m 8 8 (bit f 7) true in
  let m := set m 7 8 (bit f 8) true in
  let m := foldl (λ m i, set m (14 - i) 8 (bit f i) true) m (range 9 14) in
  let m := foldl (λ m i, set m (Size m - 1 - i) 8 (bit f i) true) m (range 0 7) in
  foldl (λ m i, set m 8 (Size m - 15 + i) (bit f i) true) m (range 8 14).

Definition drawVersion (m : Matrix) (version : Z) : Matrix :=
  if version <? 7 then m
  else
    let v := versionBits version in
    foldl (λ m i,
      let b := bit v i in
      let a := Size m - 11 + i mod 3 in
      let c := i / 3 in
      set (set m c a b true) a c b true) m (range 0 17).

(** ** The penalty *)

Definition run_end (score run : Z) : Z := if 5 <=? run then score + (3 + (run - 5)) else score.

Definition run_step (st : Z * bool * Z) (c : bool) : Z * bool * Z :=
  let '(score, runColor, run) := st in
  if Bool.eqb c runColor then (score, runColor, run + 1) else (run_end score run, c, 1).

(** One row or column of the first rule. *)
Definition line_penalty (score : Z) (line : list bool) : Z :=
  match line with
  | [] => score
  | c :: rest => let '(score, _, run) := foldl run_step (score, c, 1) rest in run_end score run
  end.

Definition finderRun : list bool :=
  [true; false; true; true; true; false; true; false; false; false; false].

Definition matchFinderRun (m : Matrix) (x y : Z) (horizontal : bool) : bool :=
  let v i := if horizontal then Dark m (x + i) y else Dark m x (y + i) in
  let forward := forallb (λ i, Bool.eqb (v i) (finderRun !!! Z.to_nat i)) (range 0 10) in
  let backward := forallb (λ i, Bool.eqb (v i) (finderRun !!! Z.to_nat (10 - i))) (range 0 10) in
  forward || backward.

Definition penalty (m : Matrix) : Z :=
  let size := Size m in
  let score := foldl (λ s y, line_penalty s (map (λ x, Dark m x y) (range 0 (size - 1)))) 0
                 (range 0 (size - 1)) in
  let score := foldl (λ s x, line_penalty s (map (λ y, Dark m x y) (range 0 (size - 1)))) score
                 (range 0 (size - 1)) in
  let score := foldl (λ s y, foldl (λ s x,
    let c := Dark m x y in
    if Bool.eqb c (Dark m (x + 1) y) && Bool.eqb c (Dark m x (y + 1)) &&
       Bool.eqb c (Dark m (x + 1) (y + 1)) then s + 3 else s) s (range 0 (size - 2)))
    score (range 0 (size - 2)) in
  let score := foldl (λ s y, foldl (λ s x, if matchFinderRun m x y true then s + 40 else s) s
    (range 0 (size - 11))) score (range 0 (size - 1)) in
  let score := foldl (λ s x, foldl (λ s y, if matchFinderRun m x y false then s + 40 else s) s
    (range 0 (size - 11))) score (range 0 (size - 1)) in
  let dark := foldl (λ d y, foldl (λ d x, if Dark m x y then d + 1 else d) d
    (range 0 (size - 1))) 0 (range 0 (size - 1)) in
  let total := size * size in
  let k := (Z.abs (dark * 20 - total * 10) + total - 1) ÷ total in
  score + (k - 1) * 10.

(** ** The encoder *)

Definition mask_step (st : Matrix * Z * Z) (mask : Z) : Matrix * Z * Z :=
  let '(m, bestMask, bestScore) := st in
  let m := applyMask m mask in
  let m := drawFormat m mask in
  let s := penalty m in
  let '(bestScore, bestMask) :=
    if (bestScore <? 0) || (s <? bestScore) then (s, mask) else (bestScore, bestMask) in
  (applyMask m mask, bestMask, bestScore).

(** [None] is [ErrTooLong]. *)
Definition Encode (data : list Z) : option Matrix :=
  match chooseVersion (Z.of_nat (length data)) with
  | None => None
  | Some (version, ec) =>
      let codewords := interleave (encodeData data version ec) ec in
      let m := newMatrix version in
      let m := drawFunctionPatterns m version ec in
      let m := drawVersion m version in
      let m := placeData m codewords in
      let '(m, bestMask, _) := foldl mask_step (m, 0, -1) (range 0 7) in
      Some (drawFormat (applyMask m bestMask) bestMask)
  end.

(** ** SVG *)

(** The length of a dark run, [run] modules of it counted. *)
Fixpoint run_length (fuel : nat) (m : Matrix) (y x run : Z) : Z :=
  match fuel with
  | O => run
  | S fuel' =>
      if (x + run <? Size m) && Dark m (x + run) y then run_length fuel' m y x (run + 1) else run
  end.

(** The runs of a row: where each starts and how long it is. *)
Fixpoint dark_runs (fuel : nat) (m : Matrix) (y x : Z) : list (Z * Z) :=
  match fuel with
  | O => []
  | S fuel' =>
      if Size m <=? x then []
      else if negb (Dark m x y) then dark_runs fuel' m y (x + 1)
      else
        let run := run_length (Z.to_nat (Size m)) m y x 1 in
        (x, run) :: dark_runs fuel' m y (x + run)
  end.

Definition row_runs (m : Matrix) (y : Z) : list (Z * Z) :=
  dark_runs (S (Z.to_nat (Size m))) m y 0.

Definition quiet : Z := 4.

Definition run_path (y : Z) (r : Z * Z) : string :=
  ("M" +:+ itoa (r.1 + quiet) +:+ " " +:+ itoa (y + quiet) +:+ "h" +:+ itoa r.2 +:+
   "v1h-" +:+ itoa r.2 +:+ "z")%string.

Definition concat_all (l : list string) : string := foldr String.append "" l.

(** [html.EscapeString]. *)
Definition EscapeString (s : string) : string :=
  concat_all (map (λ c,
    let z := code c in
    if z =? 38 then "&amp;" else if z =? 39 then "&#39;" else if z =? 60 then "&lt;"
    else if z =? 62 then "&gt;" else if z =? 34 then "&#34;" else String c "")
    (String.list_ascii_of_string s)).

(** An attribute with its quotes. *)
Definition attr (name value : string) : string :=
  let q := bytes [34] in (name +:+ "=" +:+ q +:+ value +:+ q)%string.

Definition SVG (data : list Z) (altText : string) : option string :=
  m ← Encode data;
  let dim := itoa (Size m + 2 * quiet) in
  let path := concat_all (flat_map (λ y, map (run_path y) (row_runs m y)) (range 0 (Size m - 1))) in
  Some ("<svg " +:+ attr "xmlns" "http://www.w3.org/2000/svg" +:+ " " +:+
        attr "viewBox" ("0 0 " +:+ dim +:+ " " +:+ dim) +:+ " " +:+
        attr "width" "100%" +:+ " " +:+ attr "height" "100%" +:+ " " +:+
        attr "shape-rendering" "crispEdges" +:+ " " +:+ attr "role" "img" +:+ " " +:+
        attr "aria-label" (EscapeString altText) +:+ ">" +:+
        "<rect " +:+ attr "width" dim +:+ " " +:+ attr "height" dim +:+ " " +:+
        attr "fill" "#ffffff" +:+ "/>" +:+
        "<path " +:+ attr "fill" "#000000" +:+ " " +:+ attr "d" path +:+ "/>" +:+ "</svg>")%string.

(** ** A reader *)

(** The symbol of a version before any data. *)
Definition template (v : Z) (ec : ecBlocks) : Matrix :=
  drawVersion (drawFunctionPatterns (newMatrix v) v ec) v.

(** The modules that carry data, in the order the standard reads them. *)
Definition data_coords (v : Z) (ec : ecBlocks) : list (Z * Z) :=
  let fn := isFn (template v ec) in
  filter (λ xy, grid_get fn xy.1 xy.2 = false) (zigzag (v * 4 + 17)).

(** The first copy of the format, bit 0 first. *)
Definition format_coords : list (Z * Z) :=
  map (λ i, (8, i)) (range 0 5) ++ [(8, 7); (8, 8); (7, 8)] ++ map (λ i, (14 - i, 8)) (range 9 14).

Definition readMask (m : Matrix) : Z :=
  let f := bits_val (reverse (map (λ xy, Dark m xy.1 xy.2) format_coords)) in
  Z.land (Z.shiftr (Z.lxor f 0x5412) 10) 7.

Definition readSymbol (m : Matrix) : option (list Z) :=
  let v := (Size m - 17) / 4 in
  ec ← versionsM v;
  let mask := readMask m in
  let bits := map (λ xy, xorb (Dark m xy.1 xy.2) (maskCondition mask xy.1 xy.2))
                (take (8 * totalCW ec) (data_coords v ec)) in
  readData v (deinterleave ec (read_bytes (totalCW ec) bits)).

(** ** Grids *)

Definition grid_wf (s : Z) (g : list (list bool)) : Prop :=
  length g = Z.to_nat s ∧ Forall (λ row, length row = Z.to_nat s) g.

Definition inside (s : Z) (xy : Z * Z) : Prop := 0 ≤ xy.1 < s ∧ 0 ≤ xy.2 < s.

Lemma grid_set_wf s g x y b : grid_wf s g → grid_wf s (grid_set g x y b).
Proof.
  intros [Hl Hr]. split; [by unfold grid_set; rewrite length_alter|].
  apply Forall_alter; [done|]. intros row _ Hrow. by rewrite length_insert.
Qed.

Lemma grid_get_set s g xy b xy' : grid_wf s g → inside s xy → inside s xy' →
  grid_get (grid_set g xy.1 xy.2 b) xy'.1 xy'.2 =
    if decide (xy = xy') then b else grid_get g xy'.1 xy'.2.
Proof.
  destruct xy as [x y], xy' as [x' y']. intros [Hl Hr] [Hx Hy] [Hx' Hy']. cbn [fst snd] in *.
  unfold grid_get, grid_set. destruct (decide (y = y')) as [<-|Hne].
  - rewrite list_lookup_alter_eq. destruct (lookup_lt_is_Some_2 g (Z.to_nat y)) as [row Hrow]; [lia|].
    rewrite Hrow. cbn. pose proof (Forall_lookup_1 _ _ _ _ Hr Hrow) as Hlen. cbv beta in Hlen.
    destruct (decide (x = x')) as [<-|Hnx].
    + rewrite decide_True by done. by rewrite list_lookup_insert_eq by lia.
    + rewrite decide_False by congruence. by rewrite list_lookup_insert_ne by lia.
  - rewrite decide_False by congruence. by rewrite list_lookup_alter_ne by lia.
Qed.

(** Writing distinct cells: each is then read back, and no other changes. *)
Definition write (g : list (list bool)) (c : Z * Z * bool) : list (list bool) :=
  grid_set g c.1.1 c.1.2 c.2.

Lemma write_wf s g c : grid_wf s g → grid_wf s (write g c).
Proof. apply grid_set_wf. Qed.

Lemma writes_wf s cells g : grid_wf s g → grid_wf s (foldl write g cells).
Proof. intros Hg. apply foldl_inv; [done|]. intros g' c _ Hg'. by apply write_wf. Qed.

Lemma writes_other s cells g xy : grid_wf s g → Forall (λ c, inside s c.1) cells → inside s xy →
  xy ∉ map fst cells → grid_get (foldl write g cells) xy.1 xy.2 = grid_get g xy.1 xy.2.
Proof.
  revert g. induction cells as [|c cells IH]; intros g Hg Hc Hxy Hn; [done|].
  apply Forall_cons in Hc as [Hc Hcs]. cbn [map] in Hn. apply not_elem_of_cons in Hn as [Hne Hn].
  cbn [foldl]. rewrite IH by (auto using write_wf). unfold write.
  rewrite (grid_get_set s) by done. by rewrite decide_False.
Qed.

Lemma writes_read s cells g : grid_wf s g → Forall (λ c, inside s c.1) cells →
  NoDup (map fst cells) →
  map (λ xy, grid_get (foldl write g cells) xy.1 xy.2) (map fst cells) = map snd cells.
Proof.
  revert g. induction cells as [|c cells IH]; intros g Hg Hc Hnd; [done|].
  apply Forall_cons in Hc as [Hc Hcs]. cbn [map] in *. apply NoDup_cons in Hnd as [Hn Hnd].
  cbn [foldl map]. f_equal; [|by apply IH; [apply write_wf|..]].
  rewrite (writes_other s) by (auto using write_wf). unfold write.
  rewrite (grid_get_set s) by done. by rewrite decide_True.
Qed.

(** ** Placing the data *)

Lemma bit_testbit v i : 0 ≤ i → bit v i = Z.testbit v i.
Proof.
  intros Hi. unfold bit. change 1 with (Z.ones 1) at 1.
  rewrite Z.land_ones, Z.pow_1_r, <- Z.bit0_mod, Z.shiftr_spec by lia.
  rewrite Z.add_0_l. by destruct (Z.testbit v i).
Qed.

Lemma bits_of_lookup l q r : (q < length l)%nat → (r < 8)%nat →
  bits_of l !! (8 * q + r)%nat = Some (Z.testbit (l !!! q) (7 - Z.of_nat r)).
Proof.
  revert q. induction l as [|c l IH]; intros q Hq Hr; [simpl in Hq; lia|].
  cbn [bits_of flat_map]. fold (bits_of l). destruct q as [|q].
  - rewrite lookup_app_l by (simpl; lia). cbn [lookup_total list_lookup_total].
    do 8 (destruct r as [|r]; [done|]). lia.
  - rewrite lookup_app_r by (simpl; lia). rewrite length_byte_bits.
    replace (8 * S q + r - 8)%nat with (8 * q + r)%nat by lia. cbn [length] in Hq.
    apply IH; lia.
Qed.

Lemma place_writes fn cws g i cs : 0 ≤ i →
  (foldl (place_step fn cws) (g, i) cs).1 =
    foldl write g (zip (filter (λ xy, grid_get fn xy.1 xy.2 = false) cs)
                     (drop (Z.to_nat i) (bits_of cws))).
Proof.
  revert g i. induction cs as [|xy cs IH]; intros g i Hi; [done|]. cbn [foldl].
  unfold place_step at 2. rewrite filter_cons.
  destruct (grid_get fn xy.1 xy.2) eqn:Hfn; cbn [orb].
  { rewrite decide_False by done. by apply IH. }
  rewrite decide_True by done.
  destruct (Z.leb_spec (Z.of_nat (length cws) * 8) i) as [Hge|Hlt].
  { rewrite IH by done. rewrite !drop_ge by (rewrite length_bits_of; lia).
    by rewrite !zip_with_nil_r. }
  rewrite IH by lia.
  assert (Hb : bits_of cws !! Z.to_nat i =
    Some (bit (cws !!! Z.to_nat (Z.shiftr i 3)) (7 - Z.land i 7))).
  { change 7 with (Z.ones 3) at 2. rewrite Z.land_ones, Z.shiftr_div_pow2 by lia.
    change (2 ^ 3) with 8. pose proof (Z.div_mod i 8). pose proof (Z.mod_pos_bound i 8).
    pose proof (Z.div_pos i 8). rewrite bit_testbit by lia.
    replace (Z.to_nat i) with (8 * Z.to_nat (i / 8) + Z.to_nat (i mod 8))%nat by lia.
    rewrite bits_of_lookup by lia. do 2 f_equal. lia. }
  rewrite (drop_S _ _ _ Hb). replace (Z.to_nat (i + 1)) with (S (Z.to_nat i)) by lia. done.
Qed.

(** ** Masks *)

Lemma applyMask_wf s m k : grid_wf s (module m) → grid_wf s (module (applyMask m k)).
Proof.
  intros [Hl Hr]. split; cbn; [by rewrite length_imap|].
  rewrite Forall_lookup in *. intros y row. rewrite list_lookup_imap_Some.
  intros (row' & Hrow & ->). rewrite length_imap. by eapply Hr.
Qed.

Lemma applyMask_Dark s m k xy : grid_wf s (module m) → inside s xy →
  Dark (applyMask m k) xy.1 xy.2 =
    xorb (Dark m xy.1 xy.2) (negb (grid_get (isFn m) xy.1 xy.2) && maskCondition k xy.1 xy.2).
Proof.
  destruct xy as [x y]. intros [Hl Hr] [Hx Hy]. cbn [fst snd] in *.
  unfold Dark, grid_get at 1 2. cbn [module applyMask]. rewrite list_lookup_imap.
  destruct (lookup_lt_is_Some_2 (module m) (Z.to_nat y)) as [row Hrow]; [lia|].
  pose proof (Forall_lookup_1 _ _ _ _ Hr Hrow) as Hlen. cbv beta in Hlen.
  rewrite Hrow. cbn. rewrite list_lookup_imap.
  destruct (lookup_lt_is_Some_2 row (Z.to_nat x)) as [b Hb]; [lia|].
  rewrite Hb. cbn. rewrite !Z2Nat.id by lia.
  by destruct (negb _ && _), b.
Qed.

(** ** The format *)

Definition format_cells (s f : Z) : list (Z * Z * bool) :=
  zip format_coords (map (bit f) (range 0 14)) ++
  map (λ i, (s - 1 - i, 8, bit f i)) (range 0 7) ++
  map (λ i, (8, s - 15 + i, bit f i)) (range 8 14).

Lemma set_inside m x y d fn : inside (Size m) (x, y) →
  set m x y d fn = mkMatrix (Size m) (grid_set (module m) x y d)
                     (if fn then grid_set (isFn m) x y true else isFn m).
Proof.
  intros [Hx Hy]. cbn in Hx, Hy. unfold set.
  rewrite (proj2 (Z.ltb_ge _ _)), (proj2 (Z.ltb_ge _ _)), (proj2 (Z.leb_gt _ _)),
    (proj2 (Z.leb_gt _ _)) by lia. done.
Qed.

Lemma Size_set m x y d fn : Size (set m x y d fn) = Size m.
Proof. unfold set. by destruct (_ || _). Qed.

(** A run of [set]s is a run of writes, in both grids. *)
Lemma sets_writes (cells : list (Z * Z * bool)) m : Forall (λ c, inside (Size m) c.1) cells →
  foldl (λ m c, set m c.1.1 c.1.2 c.2 true) m cells =
    mkMatrix (Size m) (foldl write (module m) cells)
      (foldl write (isFn m) (map (λ c, (c.1, true)) cells)).
Proof.
  revert m. induction cells as [|c cells IH]; intros m Hc; [by destruct m|].
  apply Forall_cons in Hc as [Hc Hcs]. cbn [foldl map]. destruct c as [[x y] d]. cbn [fst snd] in *.
  rewrite IH by (by rewrite Size_set). by rewrite set_inside.
Qed.

Lemma foldl_set_size {A} (f : Matrix → A → Matrix) (c : A → Z * Z * bool) s l m :
  Size m = s → (∀ m x, Size m = s → f m x = set m (c x).1.1 (c x).1.2 (c x).2 true) →
  foldl f m l = foldl (λ m c, set m c.1.1 c.1.2 c.2 true) m (map c l).
Proof.
  intros Hs Hf. revert m Hs. induction l as [|x l IH]; intros m Hs; [done|]. cbn [foldl map].
  rewrite Hf by done. apply IH. by rewrite Size_set.
Qed.

Lemma foldl_set_Size (cells : list (Z * Z * bool)) m :
  Size (foldl (λ m c, set m c.1.1 c.1.2 c.2 true) m cells) = Size m.
Proof. apply foldl_inv; [done|]. intros m' c _ <-. apply Size_set. Qed.

#[local] Opaque set.

Lemma drawFormat_cells m k :
  drawFormat m k =
    foldl (λ m c, set m c.1.1 c.1.2 c.2 true) m (format_cells (Size m) (formatBits k)).
Proof.
  unfold drawFormat, format_cells. generalize (bit (formatBits k)). intros b.
  rewrite !foldl_app. set (m1 := foldl _ m (zip _ _)).
  assert (H1 : Size m1 = Size m) by apply foldl_set_Size.
  match goal with |- foldl _ (foldl _ ?m0 _) _ = _ => assert (E : m0 = m1) by reflexivity end.
  rewrite E. set (m2 := foldl _ m1 (map _ _)).
  assert (H2 : Size m2 = Size m) by (unfold m2; by rewrite foldl_set_Size).
  rewrite (foldl_set_size _ (λ i, (Size m - 1 - i, 8, b i)) (Size m) (range 0 7))
    by (by intros; simplify_eq/=; congruence).
  fold m2. apply (foldl_set_size _ _ (Size m)); [done|]. intros m' x ->. done.
Qed.

(** ** The ten versions, evaluated *)

Definition rows_wf (s : Z) (g : list (list bool)) : bool :=
  (length g =? Z.to_nat s)%nat && forallb (λ row, (length row =? Z.to_nat s)%nat) g.

Definition version_ok (v : Z) (ec : ecBlocks) : bool :=
  let s := v * 4 + 17 in
  let t := template v ec in
  (Size t =? s) && rows_wf s (module t) && rows_wf s (isFn t) &&
  (8 * totalCW ec <=? length (data_coords v ec))%nat.

Definition insideb (s : Z) (xy : Z * Z) : bool :=
  (0 <=? xy.1) && (xy.1 <? s) && (0 <=? xy.2) && (xy.2 <? s).

Definition formats_ok (v : Z) (ec : ecBlocks) : bool :=
  let s := v * 4 + 17 in
  let t := template v ec in
  let cs := map fst (format_cells s 0) in
  forallb (λ xy, insideb s xy && grid_get (isFn t) xy.1 xy.2) cs && bool_decide (NoDup cs).

Definition rights_ok (v : Z) : bool :=
  let s := v * 4 + 17 in
  let rs := rights (Z.to_nat s) (s - 1) in
  forallb (λ r, (1 <=? r) && (r <? s)) rs && bool_decide (NoDup rs) &&
  forallb (λ r, forallb (λ r', (r =? r') || (2 <=? Z.abs (r - r'))) rs) rs.

Definition versions_list : list (Z * ecBlocks) := imap (λ i ec, (Z.of_nat i + 1, ec)) versions_table.

Lemma version_table : forallb (λ p, version_ok p.1 p.2) versions_list = true.
Proof. vm_compute. reflexivity. Qed.

Lemma format_table : forallb (λ p, formats_ok p.1 p.2) versions_list = true.
Proof. vm_compute. reflexivity. Qed.

Lemma rights_table : forallb (λ p, rights_ok p.1) versions_list = true.
Proof. vm_compute. reflexivity. Qed.

Lemma capacity_table :
  forallb (λ p, Z.of_nat (totalDataCW p.2) * 8 - 4 - Z.of_nat (countBits p.1) <=? 1711)
    versions_list = true.
Proof. vm_compute. reflexivity. Qed.

Lemma mask_table :
  forallb (λ k, Z.land (Z.shiftr (Z.lxor
    (bits_val (reverse (map (bit (formatBits k)) (range 0 14)))) 0x5412) 10) 7 =? k) (range 0 7) = true.
Proof. vm_compute. reflexivity. Qed.

Lemma versions_list_elem v ec : versionsM v = Some ec → (v, ec) ∈ versions_list.
Proof.
  intros Hv. destruct (versionsM_bounds _ _ Hv) as [Hb _]. unfold versionsM in Hv.
  rewrite (proj2 (Z.ltb_ge v 1)) in Hv by lia. unfold versions_list.
  apply list_elem_of_lookup. exists (Z.to_nat (v - 1)). rewrite list_lookup_imap, Hv. cbn.
  do 2 f_equal. lia.
Qed.

Lemma rows_wf_spec s g : rows_wf s g = true → grid_wf s g.
Proof.
  unfold rows_wf, grid_wf. rewrite andb_true_iff, forallb_bool, Nat.eqb_eq, Forall_forall.
  intros [Hl Hr]. split; [done|]. intros row Hrow. by apply Nat.eqb_eq, Hr.
Qed.

Lemma template_spec v ec : versionsM v = Some ec →
  let s := v * 4 + 17 in let t := template v ec in
  Size t = s ∧ grid_wf s (module t) ∧ grid_wf s (isFn t) ∧
  (8 * totalCW ec ≤ length (data_coords v ec))%nat.
Proof.
  intros Hv%versions_list_elem s t. pose proof version_table as H. rewrite forallb_bool in H.
  specialize (H _ Hv). cbn [fst snd] in H. unfold version_ok in H.
  rewrite !andb_true_iff, Z.eqb_eq, Nat.leb_le in H. destruct H as [[[H1 H2] H3] H4].
  split_and!; [exact H1|exact (rows_wf_spec _ _ H2)|exact (rows_wf_spec _ _ H3)|exact H4].
Qed.

Lemma insideb_spec s xy : insideb s xy = true ↔ inside s xy.
Proof. unfold insideb, inside. rewrite !andb_true_iff, !Z.leb_le, !Z.ltb_lt. lia. Qed.

Lemma format_coords_fst s f : map fst (format_cells s f) = map fst (format_cells s 0).
Proof. reflexivity. Qed.

Lemma format_spec v ec f : versionsM v = Some ec →
  let s := v * 4 + 17 in let cs := map fst (format_cells s f) in
  NoDup cs ∧
  ∀ xy, xy ∈ cs → inside s xy ∧ grid_get (isFn (template v ec)) xy.1 xy.2 = true.
Proof.
  intros Hv%versions_list_elem s cs. unfold cs. rewrite format_coords_fst.
  pose proof format_table as H. rewrite forallb_bool in H.
  specialize (H _ Hv). cbn [fst snd] in H. unfold formats_ok in H. cbv zeta in H.
  rewrite andb_true_iff, forallb_bool, bool_decide_eq_true in H. destruct H as [H1 H2].
  split; [exact H2|]. intros xy Hxy. specialize (H1 _ Hxy).
  rewrite andb_true_iff, insideb_spec in H1. exact H1.
Qed.

Lemma rights_spec v ec : versionsM v = Some ec →
  let s := v * 4 + 17 in let rs := rights (Z.to_nat s) (s - 1) in
  NoDup rs ∧ (∀ r, r ∈ rs → 1 ≤ r < s) ∧
  ∀ r r', r ∈ rs → r' ∈ rs → r = r' ∨ 2 ≤ Z.abs (r - r').
Proof.
  intros Hv%versions_list_elem s rs. pose proof rights_table as H. rewrite forallb_bool in H.
  specialize (H _ Hv). cbn [fst] in H. unfold rights_ok in H. cbv zeta in H. fold s rs in H.
  rewrite !andb_true_iff, !forallb_bool, bool_decide_eq_true in H. destruct H as [[H1 H2] H3].
  split_and!; [exact H2| |].
  - intros r Hr. specialize (H1 _ Hr). bool_to_prop. lia.
  - intros r r' Hr Hr'. specialize (H3 _ Hr). rewrite forallb_bool in H3. specialize (H3 _ Hr').
    rewrite orb_true_iff, Z.eqb_eq, Z.leb_le in H3. exact H3.
Qed.

(** ** The zigzag *)

Lemma flat_map_bind {A B} (f : A → list B) l : flat_map f l = l ≫= f.
Proof. induction l as [|x l IH]; [done|]. cbn. by rewrite IH. Qed.

Lemma elem_of_range x lo hi : x ∈ range lo hi ↔ lo ≤ x ≤ hi.
Proof. unfold range. rewrite elem_of_seqZ. lia. Qed.

Lemma NoDup_range lo hi : NoDup (range lo hi).
Proof. apply NoDup_seqZ. Qed.

Lemma elem_of_zigzag s xy :
  xy ∈ zigzag s → ∃ r, r ∈ rights (Z.to_nat s) (s - 1) ∧ (xy.1 = r ∨ xy.1 = r - 1) ∧ 0 ≤ xy.2 < s.
Proof.
  unfold zigzag. rewrite flat_map_bind, list_elem_of_bind. intros (r & Hxy & Hr).
  rewrite flat_map_bind, list_elem_of_bind in Hxy. destruct Hxy as (vert & Hxy & Hv).
  apply list_elem_of_fmap in Hxy as (j & -> & Hj). apply elem_of_range in Hv, Hj. cbn [fst snd].
  exists r. split; [done|]. split; [lia|]. destruct (_ =? 0); lia.
Qed.

Lemma zigzag_NoDup v ec : versionsM v = Some ec → NoDup (zigzag (v * 4 + 17)).
Proof.
  intros Hv. destruct (rights_spec _ _ Hv) as (Hnd & Hin & Hgap). set (s := v * 4 + 17) in *.
  unfold zigzag. rewrite flat_map_bind. apply NoDup_bind; [| |done].
  - intros r1 r2 xy H1 H2 Hxy1 Hxy2. rewrite flat_map_bind, list_elem_of_bind in Hxy1, Hxy2.
    destruct Hxy1 as (v1 & (j1 & -> & Hj1)%list_elem_of_fmap & _).
    destruct Hxy2 as (v2 & (j2 & E & Hj2)%list_elem_of_fmap & _).
    apply elem_of_range in Hj1, Hj2. injection E as E _. destruct (Hgap r1 r2) as [|]; [done..|]. lia.
  - intros r Hr. rewrite flat_map_bind. apply NoDup_bind; [| |apply NoDup_range].
    + intros v1 v2 xy H1 H2 Hxy1 Hxy2.
      apply list_elem_of_fmap in Hxy1 as (j1 & -> & _). apply list_elem_of_fmap in Hxy2 as (j2 & E & _).
      injection E as _ E. destruct (_ =? 0); lia.
    + intros vert _. apply NoDup_fmap_2_strong; [|apply NoDup_range].
      intros j1 j2 _ _ E. injection E as E. lia.
Qed.

Lemma data_coords_spec v ec : versionsM v = Some ec →
  NoDup (data_coords v ec) ∧
  ∀ xy, xy ∈ data_coords v ec →
    inside (v * 4 + 17) xy ∧ grid_get (isFn (template v ec)) xy.1 xy.2 = false.
Proof.
  intros Hv. destruct (rights_spec _ _ Hv) as (_ & Hin & _). unfold data_coords. cbv zeta. split.
  - apply NoDup_filter. by eapply zigzag_NoDup.
  - intros xy. rewrite list_elem_of_filter. intros [Hfn Hxy]. split; [|done].
    apply elem_of_zigzag in Hxy as (r & Hr & Hx & Hy). specialize (Hin _ Hr). unfold inside. lia.
Qed.

(** ** What every step of the encoder keeps *)

Section Kept.
Context (v : Z) (ec : ecBlocks) (Hv : versionsM v = Some ec).
Let s := v * 4 + 17.

(** The function patterns stand as the template draws them. *)
Definition patterned (m : Matrix) : Prop :=
  ∀ xy, inside s xy → grid_get (isFn (template v ec)) xy.1 xy.2 = true →
    xy ∉ map fst (format_cells s 0) → Dark m xy.1 xy.2 = Dark (template v ec) xy.1 xy.2.

(** [m] is a symbol of the version whose data modules hold [D]. *)
Definition carries (D : Z * Z → bool) (m : Matrix) : Prop :=
  Size m = s ∧ grid_wf s (module m) ∧ grid_wf s (isFn m) ∧
  (∀ xy, inside s xy → grid_get (isFn m) xy.1 xy.2 = grid_get (isFn (template v ec)) xy.1 xy.2) ∧
  patterned m ∧
  ∀ xy, xy ∈ data_coords v ec → Dark m xy.1 xy.2 = D xy.

Lemma applyMask_carries D m k : carries D m →
  carries (λ xy, xorb (D xy) (maskCondition k xy.1 xy.2)) (applyMask m k).
Proof.
  intros (Hs & Hm & Hf & Hfn & Hpat & HD).
  split_and!; [done|by apply applyMask_wf|done|done| |].
  { intros xy Hxy Htrue Hnf. rewrite (applyMask_Dark s), Hfn, Htrue by done. cbn.
    rewrite xorb_false_r. by apply Hpat. }
  intros xy Hxy. destruct (data_coords_spec _ _ Hv) as [_ Hin]. destruct (Hin _ Hxy) as [Hi Hnf].
  rewrite (applyMask_Dark s) by done. by rewrite Hfn, Hnf, HD by done.
Qed.

Lemma format_cells_inside f : Forall (λ c, inside s c.1) (format_cells s f).
Proof.
  destruct (format_spec v ec f Hv) as [_ Hin]. rewrite Forall_forall. intros c Hc.
  apply Hin. by apply list_elem_of_fmap_2.
Qed.

Lemma drawFormat_eq m k : Size m = s →
  drawFormat m k = mkMatrix s (foldl write (module m) (format_cells s (formatBits k)))
    (foldl write (isFn m) (map (λ c, (c.1, true)) (format_cells s (formatBits k)))).
Proof.
  intros Hs. rewrite drawFormat_cells, sets_writes; rewrite Hs; [done|].
  apply format_cells_inside.
Qed.

Lemma drawFormat_carries D m k : carries D m → carries D (drawFormat m k).
Proof.
  intros (Hs & Hm & Hf & Hfn & Hpat & HD). rewrite drawFormat_eq by done.
  destruct (format_spec v ec (formatBits k) Hv) as [Hnd Hin].
  pose proof (format_cells_inside (formatBits k)) as Hcells. fold s in Hin.
  split_and!; [done|by apply writes_wf|by apply writes_wf| | |]; cbn [isFn module].
  - intros xy Hxy.
    set (cells := map (λ c, (c.1, true)) (format_cells s (formatBits k))).
    assert (Hfst : map fst cells = map fst (format_cells s (formatBits k))).
    { unfold cells. by rewrite map_map. }
    assert (Hall : Forall (λ c, inside s c.1) cells).
    { unfold cells. apply Forall_map. exact Hcells. }
    destruct (decide (xy ∈ map fst cells)) as [Hel|Hnel].
    + rewrite (proj2 (Hin xy ltac:(by rewrite <- Hfst))).
      pose proof (writes_read s cells (isFn m) Hf Hall ltac:(by rewrite Hfst)) as Hr.
      apply list_elem_of_lookup in Hel as (i & Hi).
      apply (f_equal (λ l, l !! i)) in Hr. rewrite list_lookup_fmap, Hi in Hr. cbn in Hr.
      symmetry in Hr. apply list_lookup_fmap_Some in Hr as (c & Hget & Hc).
      unfold cells in Hc. apply list_lookup_fmap_Some in Hc as (c' & -> & _). exact Hget.
    + rewrite (writes_other s) by done. by apply Hfn.
  - intros xy Hxy Htrue Hnf. unfold Dark at 1. cbn [module].
    rewrite (writes_other s); [by apply Hpat|done..|by rewrite format_coords_fst].
  - intros xy Hxy. destruct (data_coords_spec _ _ Hv) as [_ Hdc]. destruct (Hdc _ Hxy) as [Hi Hnf].
    unfold Dark. cbn [module]. rewrite (writes_other s); [by apply HD|done..|].
    intros Hel. apply Hin in Hel as [_ Hel]. congruence.
Qed.

Lemma drawFormat_readMask D m k : carries D m → k ∈ range 0 7 → readMask (drawFormat m k) = k.
Proof.
  intros (Hs & Hm & _) Hk. rewrite drawFormat_eq by done. unfold readMask.
  destruct (format_spec v ec (formatBits k) Hv) as [Hnd _].
  pose proof (writes_read s _ _ Hm (format_cells_inside (formatBits k)) Hnd) as Hr.
  set (g := foldl write _ _) in *. unfold format_cells in Hr. rewrite !map_app in Hr.
  apply (f_equal (take 15)) in Hr. rewrite !take_app_length' in Hr by reflexivity.
  change (map fst (zip format_coords (map (bit (formatBits k)) (range 0 14)))) with format_coords in Hr.
  change (map snd (zip format_coords (map (bit (formatBits k)) (range 0 14))))
    with (map (bit (formatBits k)) (range 0 14)) in Hr.
  unfold Dark. cbn [module]. rewrite Hr.
  pose proof mask_table as H. rewrite forallb_bool in H. specialize (H _ Hk).
  by rewrite Z.eqb_eq in H.
Qed.

Lemma mask_loop_carries D m : carries D m →
  let st := foldl mask_step (m, 0, -1) (range 0 7) in carries D st.1.1 ∧ st.1.2 ∈ range 0 7.
Proof.
  intros Hm. apply (foldl_inv (λ st, carries D st.1.1 ∧ st.1.2 ∈ range 0 7)).
  { split; [done|]. apply elem_of_range. cbn. lia. }
  intros [[m' best] score] k Hk [Hc Hb]. cbn [fst snd] in *. unfold mask_step.
  pose proof (applyMask_carries _ _ k (drawFormat_carries _ _ k (applyMask_carries _ _ k Hc))) as H.
  assert (HD : carries D (applyMask (drawFormat (applyMask m' k) k) k)).
  { destruct H as (H1 & H2 & H3 & H4 & H5 & H6). split_and!; [done..|].
    intros xy Hxy. rewrite H6 by done. by rewrite xorb_assoc, xorb_nilpotent, xorb_false_r. }
  by destruct ((score <? 0) || _).
Qed.
End Kept.

Lemma elem_of_take_in {A} (x : A) n l : x ∈ take n l → x ∈ l.
Proof. intros Hx. rewrite <- (take_drop n l), elem_of_app. by left. Qed.

Lemma placeData_carries v ec cws : versionsM v = Some ec → length cws = totalCW ec →
  let p := placeData (template v ec) cws in
  carries v ec (λ xy, Dark p xy.1 xy.2) p ∧
  map (λ xy, Dark p xy.1 xy.2) (take (8 * totalCW ec) (data_coords v ec)) = bits_of cws.
Proof.
  intros Hv Hlen p. destruct (template_spec _ _ Hv) as (Hs & Hm & Hf & Hcap).
  destruct (data_coords_spec _ _ Hv) as [Hnd Hin].
  assert (Hp : module p = foldl write (module (template v ec)) (zip (data_coords v ec) (bits_of cws))).
  { unfold p, placeData. cbn [module]. rewrite place_writes by done. by rewrite Hs. }
  assert (Hbl : length (bits_of cws) = (8 * totalCW ec)%nat) by (by rewrite length_bits_of, Hlen).
  assert (Hfst : map fst (zip (data_coords v ec) (bits_of cws)) =
                 take (8 * totalCW ec) (data_coords v ec)).
  { rewrite <- Hbl. clear. revert cws. generalize (data_coords v ec). intros dcs cws.
    generalize (bits_of cws). induction dcs as [|d dcs IH]; intros bits; [by destruct bits|].
    destruct bits as [|b bits]; [done|]. cbn. by rewrite IH. }
  assert (Hsnd : map snd (zip (data_coords v ec) (bits_of cws)) = bits_of cws).
  { apply snd_zip. lia. }
  assert (Hins : Forall (λ c, inside (v * 4 + 17) c.1) (zip (data_coords v ec) (bits_of cws))).
  { rewrite Forall_forall. intros c Hc. apply Hin. apply (elem_of_take_in _ (8 * totalCW ec)).
    rewrite <- Hfst. by apply list_elem_of_fmap_2. }
  split.
  - split_and!; [done| |done|done| |done]; [rewrite Hp; by apply writes_wf|].
    intros xy Hxy Htrue _. unfold Dark at 1. rewrite Hp, (writes_other (v * 4 + 17)); [done..| |done|].
    + exact Hins.
    + rewrite Hfst. intros Hel%elem_of_take_in%Hin. destruct Hel as [_ Hel]. congruence.
  - unfold Dark. rewrite Hp, <- Hfst. rewrite (writes_read (v * 4 + 17)); [done|done| |].
    + exact Hins.
    + rewrite Hfst. exact (sublist_NoDup _ _ Hnd (sublist_take _ _)).
Qed.

Lemma chooseVersion_spec n :
  match chooseVersion n with
  | Some (v, ec) => versionsM v = Some ec ∧ fits n v = true ∧ ∀ v', 1 ≤ v' < v → fits n v' = false
  | None => ∀ v, 1 ≤ v ≤ 10 → fits n v = false
  end.
Proof.
  unfold chooseVersion. destruct (list_find _ _) as [[i v]|] eqn:E.
  - apply list_find_Some in E as (Hi & Hf & Hmin). apply lookup_seqZ in Hi as [-> Hi].
    unfold fits in Hf. destruct (versionsM _) as [ec|] eqn:Hv; [|done]. cbn. split; [done|].
    split; [unfold fits; by rewrite Hv|]. intros v' Hv'. apply not_true_is_false.
    apply (Hmin (Z.to_nat (v' - 1)) v'); [|lia]. apply lookup_seqZ. lia.
  - apply list_find_None in E. rewrite Forall_forall in E. intros v Hv.
    apply not_true_is_false, E, elem_of_seqZ. unfold maxVersion. lia.
Qed.

(** [C31] A symbol reads back as its payload.  For any bytes, [Encode] fails
    exactly above 213 of them; otherwise it uses the smallest version that holds
    them, and a reader that takes the version from the size and the mask from the
    format, unmasks the data modules, walks the zigzag, undoes the interleaving and
    parses the byte-mode header recovers the payload.  Every module that is neither
    data nor format is as the version's function patterns draw it. *)
Theorem Encode_roundtrip data :
  Forall byte data →
  match Encode data with
  | Some m =>
      (length data ≤ 213)%nat ∧ readSymbol m = Some data ∧
      ∃ v ec, versionsM v = Some ec ∧ Size m = v * 4 + 17 ∧ patterned v ec m ∧
        ∀ v', 1 ≤ v' ≤ 10 → fits (Z.of_nat (length data)) v' = true → v ≤ v'
  | None => (213 < length data)%nat
  end.
Proof.
  intros Hd. unfold Encode. pose proof (chooseVersion_spec (Z.of_nat (length data))) as Hc.
  destruct (chooseVersion _) as [[v ec]|].
  2: { specialize (Hc 10 ltac:(lia)). unfold fits in Hc.
    change (versionsM 10) with (versions_table !! 9%nat) in Hc.
    cbn [versions_table lookup list_lookup totalDataCW] in Hc.
    change (countBits 10) with 16%nat in Hc. apply Z.leb_gt in Hc. lia. }
  destruct Hc as (Hv & Hfit & Hmin). destruct (versionsM_bounds _ _ Hv) as [Hb Ht].
  pose proof Hfit as Hfit'. unfold fits in Hfit'. rewrite Hv in Hfit'. apply Z.leb_le in Hfit'.
  destruct (encodeData_spec data v ec Hfit') as (Hcl & Hcb & _).
  set (dcw := encodeData data v ec) in *.
  destruct (interleave_spec dcw v ec Hv Hcl Hcb) as [Hil Hib].
  destruct (placeData_carries v ec (interleave dcw ec) Hv Hil) as [Hp Hbits].
  change (drawVersion (drawFunctionPatterns (newMatrix v) v ec) v) with (template v ec).
  set (p := placeData (template v ec) (interleave dcw ec)) in *. cbv zeta.
  pose proof (mask_loop_carries v ec Hv _ _ Hp) as Hl.
  destruct (foldl mask_step (p, 0, -1) (range 0 7)) as [[m best] score].
  cbn [fst snd] in Hl. destruct Hl as [Hm Hk].
  pose proof (applyMask_carries v ec Hv _ _ best Hm) as Hma.
  pose proof (drawFormat_readMask v ec Hv _ _ best Hma Hk) as Hmask.
  apply (drawFormat_carries v ec Hv _ _ best) in Hma.
  destruct Hma as (Hs & _ & _ & _ & Hpat & HD). set (M := drawFormat _ best) in *.
  split_and!.
  - pose proof capacity_table as Hcap. rewrite forallb_bool in Hcap.
    specialize (Hcap _ (versions_list_elem _ _ Hv)). apply Z.leb_le in Hcap.
    cbn [fst snd] in Hcap. lia.
  - unfold readSymbol. rewrite Hs. replace ((v * 4 + 17 - 17) / 4) with v by (rewrite Z.add_simpl_r, Z.div_mul; lia).
    rewrite Hv. cbn [mbind option_bind]. cbv zeta. rewrite Hmask.
    rewrite (map_ext_in _ (λ xy, Dark p xy.1 xy.2)).
    + rewrite Hbits. rewrite <- (app_nil_r (bits_of _)), read_bytes_bits_of by done.
      rewrite (deinterleave_interleave _ v) by done. by apply readData_encodeData.
    + intros xy Hxy%list_elem_of_In. rewrite HD.
      * by rewrite xorb_assoc, xorb_nilpotent, xorb_false_r.
      * by eapply elem_of_take_in.
  - exists v, ec. split_and!; [done..|]. intros v' Hv' Hf'.
    destruct (Z.le_gt_cases v v'); [done|]. rewrite Hmin in Hf' by lia. done.
Qed.

Example format_words :
  map formatBits (range 0 7) =
    [0x5412; 0x5125; 0x5e7c; 0x5b4b;
     0x45f9; 0x40ce; 0x4f97; 0x4aa0].
Proof. vm_compute. reflexivity. Qed.

Example version_words : map versionBits (range 7 10) = [0x07C94; 0x085BC; 0x09A99; 0x0A4D3].
Proof. vm_compute. reflexivity. Qed.

Lemma Encode_roundtrip_witness :
  ∃ m, Encode [111; 116; 112] = Some m ∧ readSymbol m = Some [111; 116; 112].
Proof.
  pose proof (Encode_roundtrip [111; 116; 112] ltac:(repeat constructor; discriminate)) as H.
  destruct (Encode [111; 116; 112]) as [m|].
  - exists m. split; [reflexivity|exact (proj1 (proj2 H))].
  - cbn in H. lia.
Defined.

(** ** The drawing *)

Lemma run_length_spec fuel m y x run :
  Size m - (x + run) ≤ Z.of_nat fuel → 1 ≤ run → x + run ≤ Size m →
  (∀ k, x ≤ k < x + run → Dark m k y = true) →
  let n := run_length fuel m y x run in
  run ≤ n ∧ x + n ≤ Size m ∧ (∀ k, x ≤ k < x + n → Dark m k y = true) ∧
  (x + n < Size m → Dark m (x + n) y = false).
Proof.
  revert run. induction fuel as [|fuel IH]; intros run Hf Hr Hs Hd; cbn [run_length].
  { cbv zeta. split_and!; [lia|lia|done|lia]. }
  destruct (Z.ltb_spec (x + run) (Size m)) as [Hlt|Hge]; cbn [andb].
  2: { cbv zeta. split_and!; [lia|lia|done|lia]. }
  destruct (Dark m (x + run) y) eqn:E.
  - destruct (IH (run + 1)) as (H1 & H2 & H3 & H4); [lia..| |].
    { intros k Hk. destruct (decide (k = x + run)) as [->|]; [done|]. apply Hd. lia. }
    cbv zeta. split_and!; [lia|done..].
  - cbv zeta. split_and!; [lia|lia|done|done].
Qed.

Lemma dark_runs_spec fuel m y x :
  Size m - x < Z.of_nat fuel → 0 ≤ x → 0 ≤ Size m →
  let runs := dark_runs fuel m y x in
  (∀ k, x ≤ k < Size m → Dark m k y = true ↔ ∃ r, r ∈ runs ∧ r.1 ≤ k < r.1 + r.2) ∧
  (∀ r, r ∈ runs → x ≤ r.1 ∧ 1 ≤ r.2 ∧ r.1 + r.2 ≤ Size m ∧ Dark m r.1 y = true) ∧
  ∀ i r r', runs !! i = Some r → runs !! S i = Some r' → r.1 + r.2 < r'.1.
Proof.
  revert x. induction fuel as [|fuel IH]; intros x Hf Hx Hs; cbn [dark_runs].
  { cbv zeta. split_and!; [lia|set_solver|done]. }
  destruct (Z.leb_spec (Size m) x) as [Hge|Hlt].
  { cbv zeta. split_and!; [lia|set_solver|done]. }
  destruct (Dark m x y) eqn:E; cbn [negb].
  - set (run := run_length _ m y x 1).
    destruct (run_length_spec (Z.to_nat (Size m)) m y x 1) as (Hr1 & Hr2 & Hr3 & Hr4); [lia..| |].
    { intros k Hk. by replace k with x by lia. }
    fold run in Hr1, Hr2, Hr3, Hr4.
    destruct (IH (x + run)) as (H1 & H2 & H3); [lia..|]. cbv zeta in *. split_and!.
    + intros k Hk. setoid_rewrite elem_of_cons. destruct (Z.lt_ge_cases k (x + run)) as [Hin|Hout].
      * split; [|intros _; apply Hr3; lia]. intros _. exists (x, run). split; [by left|]. cbn. lia.
      * rewrite H1 by lia. split; [intros (r & Hr & ?); exists r; auto|].
        intros (r & [->|Hr] & Hk'); [cbn in Hk'; lia|]. by exists r.
    + intros r [->|Hr]%elem_of_cons; [cbn; split_and!; (lia || done)|].
      destruct (H2 _ Hr) as (? & ? & ? & ?). split_and!; [lia..|done].
    + intros [|i] r r' Hi Hi'; cbn [lookup list_lookup] in Hi, Hi'; [|by eapply H3].
      injection Hi as <-. cbn [fst snd].
      assert (Hel : r' ∈ dark_runs fuel m y (x + run)) by (by eapply list_elem_of_lookup_2).
      destruct (H2 _ Hel) as (Hle & ? & ? & Hd). destruct (decide (r'.1 = x + run)) as [Heq|]; [|lia].
      rewrite Heq, Hr4 in Hd by lia. done.
  - destruct (IH (x + 1)) as (H1 & H2 & H3); [lia..|]. cbv zeta in *. split_and!; [| |done].
    + intros k Hk. destruct (decide (k = x)) as [->|]; [|apply H1; lia]. rewrite E. split; [done|].
      intros (r & Hr & Hk'). destruct (H2 _ Hr). lia.
    + intros r Hr. destruct (H2 _ Hr) as (? & ? & ? & ?). split_and!; [lia..|done].
Qed.

(** The drawing shows the dark modules and nothing else.  In each row, the
    rectangles that [SVG] draws cover a module exactly when it is dark; they are
    inside the symbol, not empty, and a light module separates each from the next. *)
Theorem row_runs_draw_dark m y :
  0 ≤ Size m →
  let runs := row_runs m y in
  (∀ x, 0 ≤ x < Size m →
     Dark m x y = true ↔ ∃ r, r ∈ runs ∧ r.1 ≤ x < r.1 + r.2) ∧
  (∀ r, r ∈ runs → 0 ≤ r.1 ∧ 1 ≤ r.2 ∧ r.1 + r.2 ≤ Size m) ∧
  ∀ i r r', runs !! i = Some r → runs !! S i = Some r' → r.1 + r.2 < r'.1.
Proof.
  intros Hs runs. destruct (dark_runs_spec (S (Z.to_nat (Size m))) m y 0) as (H1 & H2 & H3); [lia..|].
  fold runs in H1, H2, H3. split_and!; [done| |done]. intros r Hr. specialize (H2 r Hr). lia.
Qed.

Lemma row_runs_draw_dark_witness :
  let m := mkMatrix 3 [[true; true; false]; [false; false; false]; [true; false; true]] [] in
  row_runs m 2 = [(0, 1); (2, 1)] ∧ ∃ r, r ∈ row_runs m 2 ∧ r.1 ≤ 2 < r.1 + r.2.
Proof.
  intros m. split; [reflexivity|]. apply (proj1 (row_runs_draw_dark m 2 ltac:(cbn; lia))).
  - cbn. lia.
  - reflexivity.
Defined.
