(* ===== verification/GoConv.v ===== *)
(** * Text conversions: [strconv.ParseInt], [fmt]'s padded decimals, [encoding/base64]

    The standard library as the program uses it, with the round trips of the
    three: a number printed and read back, and bytes encoded and decoded. *)

From S2P Require Import Prelude GoStr GoBytes NetParse.

(** ** Decimal numbers *)

(** [strconv.ParseInt(s, 10, 64)]; [None] is its error. *)
Definition ParseInt (s : string) : option Z :=
  let '(neg, ds) :=
    match s with
    | String c s' =>
        if Ascii.eqb c "-" then (true, s') else if Ascii.eqb c "+" then (false, s') else (false, s)
    | "" => (false, s)
    end in
  if String.eqb ds "" then None
  else
    n ← atoi_digits ds 0;
    if (neg : bool) then if 2 ^ 63 <? n then None else Some (- n)
    else if 2 ^ 63 <=? n then None else Some n.

(** [strconv.Itoa] and [%d] of any 64-bit integer. *)
Definition FormatInt (n : Z) : string := if n <? 0 then String "-" (itoa (- n)) else itoa n.

Fixpoint zeros (n : nat) (s : string) : string :=
  match n with O => s | S n' => String "0" (zeros n' s) end.

(** [%0wd]: zeros after the sign, to a width of [w] bytes. *)
Definition pad_int (w : nat) (n : Z) : string :=
  if n <? 0 then String "-" (zeros (w - 1 - String.length (itoa (- n))) (itoa (- n)))
  else zeros (w - String.length (itoa n)) (itoa n).

(** ** Hexadecimal and escapes *)

(** [hex.EncodeToString]: two digits a byte. *)
Definition hex_byte (b : Z) : string := String (digit_char (b / 16)) (String (digit_char (b mod 16)) "").
Definition hex_EncodeToString (l : list Z) : string := String.concat "" (map hex_byte l).

(** [url.QueryEscape]. *)
Definition hex_upper (d : Z) : ascii := byte_of (if d <? 10 then d + 48 else d + 55).

Fixpoint QueryEscape (s : string) : string :=
  match s with
  | "" => ""
  | String c s' =>
      if is_upper c || is_lower c || is_digit c ||
         bool_decide (c ∈ ["-"; "_"; "."; "~"]%char)
      then String c (QueryEscape s')
      else if Ascii.eqb c " " then String "+" (QueryEscape s')
      else String "%" (String (hex_upper (code c / 16)) (String (hex_upper (code c mod 16)) (QueryEscape s')))
  end.

(** ** [base64.StdEncoding] *)

Definition b64_char (v : Z) : ascii :=
  byte_of (if v <? 26 then v + 65 else if v <? 52 then v + 71 else if v <? 62 then v - 4
           else if v =? 62 then 43 else 47).

Definition b64_val (c : ascii) : option Z :=
  if is_upper c then Some (code c - 65)
  else if is_lower c then Some (code c - 71)
  else if is_digit c then Some (code c + 4)
  else if code c =? 43 then Some 62
  else if code c =? 47 then Some 63
  else None.

(** [EncodeToString]. *)
Fixpoint EncodeToString (l : list Z) : string :=
  match l with
  | [] => ""
  | [a] => String (b64_char (a / 4)) (String (b64_char (a mod 4 * 16)) "==")
  | [a; b] =>
      String (b64_char (a / 4)) (String (b64_char (a mod 4 * 16 + b / 16))
        (String (b64_char (b mod 16 * 4)) "="))
  | a :: b :: c :: l' =>
      String (b64_char (a / 4)) (String (b64_char (a mod 4 * 16 + b / 16))
        (String (b64_char (b mod 16 * 4 + c / 64)) (String (b64_char (c mod 64)) (EncodeToString l'))))
  end.

(** The decoder passes over line ends wherever they stand. *)
Fixpoint drop_newlines (s : string) : string :=
  match s with
  | "" => ""
  | String c s' =>
      if (code c =? 10) || (code c =? 13) then drop_newlines s' else String c (drop_newlines s')
  end.

(** Four characters a time; padding ends the text, and the bits it covers are
    not looked at. *)
Fixpoint b64_quanta (s : string) : option (list Z) :=
  match s with
  | "" => Some []
  | String c1 (String c2 (String c3 (String c4 s'))) =>
      v1 ← b64_val c1;
      v2 ← b64_val c2;
      if Ascii.eqb c3 "=" then
        if Ascii.eqb c4 "=" && String.eqb s' "" then Some [v1 * 4 + v2 / 16] else None
      else
        v3 ← b64_val c3;
        if Ascii.eqb c4 "=" then
          if String.eqb s' "" then Some [v1 * 4 + v2 / 16; v2 mod 16 * 16 + v3 / 4] else None
        else
          v4 ← b64_val c4;
          rest ← b64_quanta s';
          Some (v1 * 4 + v2 / 16 :: v2 mod 16 * 16 + v3 / 4 :: v3 mod 4 * 64 + v4 :: rest)
  | _ => None
  end.

(** [DecodeString]; [None] is its error. *)
Definition DecodeString (s : string) : option (list Z) := b64_quanta (drop_newlines s).

(** ** Lemmas: base64 *)

#[local] Ltac Zify.zify_post_hook ::= Z.to_euclidean_division_equations.

Ltac six v Hv :=
  unfold b64_char;
  destruct (Z.ltb_spec v 26); [|destruct (Z.ltb_spec v 52); [|destruct (Z.ltb_spec v 62);
    [|destruct (Z.eqb_spec v 62)]]].

Lemma b64_char_cases v (P : ascii → Prop) : 0 ≤ v < 64 →
  (∀ z, (z = v + 65 ∧ v < 26 ∨ z = v + 71 ∧ 26 ≤ v < 52 ∨ z = v - 4 ∧ 52 ≤ v < 62 ∨
         z = 43 ∧ v = 62 ∨ z = 47 ∧ v = 63) → P (byte_of z)) → P (b64_char v).
Proof. intros Hv HP. six v Hv; apply HP; lia. Qed.

Lemma b64_val_char v : 0 ≤ v < 64 → b64_val (b64_char v) = Some v.
Proof.
  intros Hv. apply b64_char_cases; [done|]. intros z Hz.
  unfold b64_val, is_upper, is_lower, is_digit. rewrite code_byte_of by lia.
  repeat match goal with |- context [(?a <=? ?b)] => destruct (Z.leb_spec a b) end;
    repeat match goal with |- context [(?a =? ?b)] => destruct (Z.eqb_spec a b) end;
    cbn [andb]; first [f_equal; lia|lia].
Qed.

Lemma b64_char_code v : 0 ≤ v < 64 →
  let c := code (b64_char v) in c ≠ 10 ∧ c ≠ 13 ∧ c ≠ 61 ∧ c ≠ 32 ∧ 32 < c < 128.
Proof. intros Hv. apply b64_char_cases; [done|]. intros z Hz. cbv zeta. rewrite code_byte_of by lia. lia. Qed.

Lemma b64_char_neq v : 0 ≤ v < 64 → Ascii.eqb (b64_char v) "=" = false.
Proof.
  intros Hv. apply Ascii.eqb_neq. intros Heq. pose proof (b64_char_code v Hv) as (_ & _ & Hne & _).
  rewrite Heq in Hne. done.
Qed.

Lemma drop_newlines_char v s : 0 ≤ v < 64 →
  drop_newlines (String (b64_char v) s) = String (b64_char v) (drop_newlines s).
Proof.
  intros Hv. cbn [drop_newlines]. pose proof (b64_char_code v Hv) as (H1 & H2 & _).
  by rewrite (proj2 (Z.eqb_neq _ _) H1), (proj2 (Z.eqb_neq _ _) H2).
Qed.

(** Lists in steps of three. *)
Lemma list_ind3 {A} (P : list A → Prop) :
  P [] → (∀ a, P [a]) → (∀ a b, P [a; b]) → (∀ a b c l, P l → P (a :: b :: c :: l)) → ∀ l, P l.
Proof. intros H0 H1 H2 H3. fix go 1. intros [|a [|b [|c l]]]; [done|apply H1|apply H2|apply H3, go]. Qed.

Lemma DecodeString_EncodeToString l : Forall byte l → DecodeString (EncodeToString l) = Some l.
Proof.
  unfold DecodeString, byte. induction l as [|a|a b|a b c l IH] using list_ind3; intros Hl; [done|..];
    repeat match goal with H : Forall _ (_ :: _) |- _ => inv H end; cbn [EncodeToString];
    rewrite !drop_newlines_char by lia; cbn [b64_quanta]; rewrite !b64_val_char by lia;
    cbn [mbind option_bind]; rewrite ?b64_char_neq, ?b64_val_char by lia; cbn [mbind option_bind].
  - cbn. do 2 f_equal. lia.
  - cbn. repeat f_equal; lia.
  - rewrite IH by done. cbn [mbind option_bind]. repeat f_equal; lia.
Qed.

Lemma EncodeToString_inj l k : Forall byte l → Forall byte k →
  EncodeToString l = EncodeToString k → l = k.
Proof.
  intros Hl Hk Heq. apply (f_equal DecodeString) in Heq.
  rewrite !DecodeString_EncodeToString in Heq by done. by injection Heq.
Qed.

Example DecodeString_ex : EncodeToString [77; 97; 110; 255] = "TWFu/w==" ∧
  DecodeString "TW Fu" = None ∧ DecodeString "/w=" = None ∧ DecodeString "/x==" = Some [255].
Proof. vm_compute. auto. Qed.

(** Bytes, by evaluation. *)
Lemma bytes_ok l : forallb (λ z, (0 <=? z) && (z <? 256)) l = true → Forall byte l.
Proof.
  rewrite forallb_forall, Forall_forall. setoid_rewrite list_elem_of_In. intros Hl z Hz.
  apply Hl, andb_true_iff in Hz as [?%Z.leb_le ?%Z.ltb_lt]. done.
Qed.

(** ** Lemmas: decimals *)

(** A text of decimal digits and the number it spells. *)
Inductive decimal : string → Z → Prop :=
  | decimal_one d : 0 ≤ d < 10 → decimal (String (digit_char d) "") d
  | decimal_more s n d : decimal s n → 0 ≤ d < 10 →
      decimal (s +:+ String (digit_char d) "")%string (n * 10 + d).

Lemma digit_char_code d : 0 ≤ d < 10 → code (digit_char d) = d + 48.
Proof.
  intros Hd. unfold digit_char. rewrite (proj2 (Z.ltb_lt _ _)) by lia. apply code_byte_of. lia.
Qed.

Lemma digit_val_char d : 0 ≤ d < 10 → digit_val (digit_char d) = Some d.
Proof.
  intros Hd. unfold digit_val, is_digit. rewrite digit_char_code by done.
  rewrite !(proj2 (Z.leb_le _ _)) by lia. cbn [andb]. f_equal. lia.
Qed.

Lemma atoi_digits_app s t a :
  atoi_digits (s +:+ t)%string a = atoi_digits s a ≫= atoi_digits t.
Proof.
  revert a. induction s as [|c s IH]; intros a; [done|]. rewrite append_cons. cbn [atoi_digits].
  destruct (digit_val c); [apply IH|done].
Qed.

Lemma decimal_atoi s n : decimal s n → ∀ a, atoi_digits s a = Some (a * 10 ^ Z.of_nat (String.length s) + n).
Proof.
  induction 1 as [d Hd|s n d _ IH Hd]; intros a.
  - cbn [atoi_digits]. rewrite digit_val_char by done. reflexivity.
  - rewrite atoi_digits_app, IH, length_append. cbn [mbind option_bind atoi_digits String.length].
    rewrite digit_val_char by done. cbn [mbind option_bind].
    rewrite Nat2Z.inj_add, Z.pow_add_r by lia. change (10 ^ Z.of_nat 1) with 10. f_equal. lia.
Qed.

Lemma decimal_nonneg s n : decimal s n → 0 ≤ n.
Proof. induction 1; lia. Qed.

Lemma decimal_zeros k s n : decimal s n → decimal (zeros k s) n.
Proof.
  intros Hs. induction k as [|k IH]; [done|]. cbn [zeros]. revert IH. generalize (zeros k s).
  clear Hs. intros t Ht. induction Ht as [d Hd|t n d _ IH Hd].
  - apply (decimal_more "0" 0 d); [|done]. exact (decimal_one 0 ltac:(lia)).
  - rewrite <- append_cons. by apply decimal_more.
Qed.

Lemma digits_of_step base k n :
  digits_of base (S k) n =
    if n <? base then String (digit_char n) ""
    else (digits_of base k (n / base) +:+ String (digit_char (n mod base)) "")%string.
Proof. done. Qed.

Lemma decimal_digits k n : 0 ≤ n < 10 ^ Z.of_nat (S k) → decimal (digits_of 10 (S k) n) n.
Proof.
  revert n. induction k as [|k IH]; intros n Hn; rewrite Nat2Z.inj_succ, Z.pow_succ_r in Hn by lia;
    rewrite digits_of_step; (destruct (Z.ltb_spec n 10); [apply decimal_one; lia|]).
  - change (10 ^ Z.of_nat 0) with 1 in Hn. lia.
  - assert (Hd := decimal_more _ _ (n mod 10) (IH (n / 10) ltac:(lia)) ltac:(lia)).
    replace (n / 10 * 10 + n mod 10) with n in Hd by lia. exact Hd.
Qed.

Lemma decimal_itoa n : 0 ≤ n < 10 ^ 20 → decimal (itoa n) n.
Proof. apply (decimal_digits 19). Qed.

Lemma decimal_pad w n : 0 ≤ n < 10 ^ 20 → decimal (pad_int w n) n.
Proof.
  intros Hn. unfold pad_int. rewrite (proj2 (Z.ltb_ge _ _)) by lia.
  by apply decimal_zeros, decimal_itoa.
Qed.

(** A decimal is digits alone, and not empty. *)
Lemma decimal_forallb s n : decimal s n → string_forallb is_digit s = true ∧ s ≠ "".
Proof.
  assert (Hd : ∀ d, 0 ≤ d < 10 → string_forallb is_digit (String (digit_char d) "") = true).
  { intros d Hd. cbn [string_forallb]. unfold is_digit. rewrite digit_char_code by done.
    rewrite !(proj2 (Z.leb_le _ _)) by lia. done. }
  induction 1 as [d H|s n d _ [IH Hne] H].
  - by rewrite Hd.
  - split; [by rewrite string_forallb_app, IH, Hd|by destruct s].
Qed.

Lemma ParseInt_decimal s n : decimal s n → n < 2 ^ 63 → ParseInt s = Some n.
Proof.
  intros Hs Hn. destruct (decimal_forallb s n Hs) as [Hds Hne]. pose proof (decimal_nonneg s n Hs).
  pose proof (decimal_atoi s n Hs 0) as Ha. unfold ParseInt.
  destruct s as [|c s]; [done|]. cbn in Hds. apply andb_true_iff in Hds as [Hc _].
  unfold is_digit in Hc. apply andb_true_iff in Hc as [Hc _]. apply Z.leb_le in Hc.
  rewrite !(proj2 (Ascii.eqb_neq _ _)) by (intros ->; by vm_compute in Hc).
  rewrite (proj2 (String.eqb_neq _ _)) by done. rewrite Ha. cbn [mbind option_bind].
  rewrite (proj2 (Z.leb_gt _ _)) by lia. reflexivity.
Qed.

Lemma ParseInt_FormatInt n : in_int64 n → ParseInt (FormatInt n) = Some n.
Proof.
  unfold in_int64, minInt64, maxInt64. intros Hn. unfold FormatInt. destruct (Z.ltb_spec n 0).
  - assert (Hd := decimal_itoa (- n) ltac:(lia)). destruct (decimal_forallb _ _ Hd) as [_ Hne].
    unfold ParseInt. rewrite (proj2 (Ascii.eqb_eq _ _)) by done.
    rewrite (proj2 (String.eqb_neq _ _)) by done. rewrite (decimal_atoi _ _ Hd). cbn [mbind option_bind].
    rewrite (proj2 (Z.ltb_ge _ _)) by lia. f_equal. lia.
  - apply ParseInt_decimal; [apply decimal_itoa; lia|lia].
Qed.

(** ** Lemmas: text without white space *)

Definition printable (c : ascii) : bool := (32 <? code c) && (code c <? 128).

Lemma white_space_not_printable w : w ∈ white_space → string_forallb printable w = false.
Proof.
  intros Hw. assert (Hall : forallb (λ w, negb (string_forallb printable w)) white_space = true)
    by (vm_compute; reflexivity).
  rewrite forallb_forall in Hall. apply negb_true_iff, Hall. by apply list_elem_of_In.
Qed.

Lemma trim_with_printable cut fuel s :
  (∀ w r, cut w s = Some r → string_forallb printable w = true) → trim_with cut fuel s = s.
Proof.
  intros Hc. destruct fuel as [|fuel]; [done|]. cbn [trim_with].
  destruct (list_find is_Some _) as [[i o]|] eqn:Hf; [|done]. exfalso.
  apply list_find_Some in Hf as (Ho & [r ->] & _). rewrite list_lookup_fmap in Ho.
  destruct (white_space !! i) as [w|] eqn:Hw; [|done]. cbn in Ho. injection Ho as Ho.
  apply Hc in Ho. apply list_elem_of_lookup_2, white_space_not_printable in Hw. congruence.
Qed.

Lemma TrimSpace_printable s : string_forallb printable s = true → TrimSpace s = s.
Proof.
  intros Hs. unfold TrimSpace. rewrite (trim_with_printable cut_prefix).
  - apply trim_with_printable. intros w r Hr. apply cut_suffix_spec in Hr. subst s.
    rewrite string_forallb_app in Hs. by apply andb_true_iff in Hs as [? ?].
  - intros w r Hr. apply cut_prefix_spec in Hr. subst s.
    rewrite string_forallb_app in Hs. by apply andb_true_iff in Hs as [? ?].
Qed.

Lemma EncodeToString_printable l : Forall byte l → string_forallb printable (EncodeToString l) = true.
Proof.
  assert (Hc : ∀ v s, 0 ≤ v < 64 → string_forallb printable s = true →
      string_forallb printable (String (b64_char v) s) = true).
  { intros v s Hv Hs. cbn [string_forallb]. rewrite Hs, andb_true_r. unfold printable.
    pose proof (b64_char_code v Hv) as (_ & _ & _ & _ & H1 & H2).
    by rewrite (proj2 (Z.ltb_lt _ _) H1), (proj2 (Z.ltb_lt _ _) H2). }
  unfold byte. induction l as [|a|a b|a b c l IH] using list_ind3; intros Hl; [done|..];
    repeat match goal with H : Forall _ (_ :: _) |- _ => inv H end; cbn [EncodeToString];
    repeat (apply Hc; [lia|]); auto.
Qed.

Lemma decimal_printable s n : decimal s n → string_forallb printable s = true.
Proof.
  intros Hs%decimal_forallb. destruct Hs as [Hs _]. revert Hs.
  induction s as [|c s IH]; [done|]. cbn [string_forallb]. rewrite !andb_true_iff.
  unfold is_digit, printable. rewrite !andb_true_iff, !Z.leb_le, !Z.ltb_lt. intros [? ?]. split; [lia|auto].
Qed.
