(* ===== verification/CTMerkle.v ===== *)
(** * Certificate transparency: Merkle inclusion ([internal/scan/ctverify.go])

    Leaf and node hashes and the check of an audit path against a root, with the tree of RFC 6962 as its specification:
    [mth] is the tree hash of section 2.1 and [audit_path] the path of 2.1.1. *)

From S2P Require Import Prelude GoStr GoBytes.

(** ** Hashes *)

Definition leafHash (merkleTreeLeaf : list Z) : list Z := Sum256 (0 :: merkleTreeLeaf).
Definition nodeHash (left right : list Z) : list Z := Sum256 (1 :: left ++ right).

(** ** The check of an audit path *)

(** [bits.Len64] and [bits.OnesCount64]. *)
Definition Len64 (z : Z) : Z := if z =? 0 then 0 else Z.log2 z + 1.
Definition OnesCount64 (z : Z) : Z := count_if (λ i, Z.testbit z i) (seqZ 0 64).

Definition inner_step (index : Z) (path : list (list Z)) (h : list Z) (i : nat) : list Z :=
  if Z.land (Z.shiftr index (Z.of_nat i)) 1 =? 0 then nodeHash h (path !!! i)
  else nodeHash (path !!! i) h.

Definition border_step (path : list (list Z)) (h : list Z) (i : nat) : list Z :=
  nodeHash (path !!! i) h.

Definition rootFromInclusionProof (leaf : list Z) (index size : Z) (auditPath : list (list Z))
    : option (list Z) :=
  if (index <? 0) || (size <? 0) || (size <=? index) then None
  else
    let inner := Len64 (Z.lxor index (size - 1)) in
    let border := OnesCount64 (Z.shiftr index inner) in
    if negb (Z.of_nat (length auditPath) =? inner + border) then None
    else
      let h := foldl (inner_step index auditPath) leaf (seq 0 (Z.to_nat inner)) in
      Some (foldl (border_step auditPath) h (seq (Z.to_nat inner) (Z.to_nat border))).

Definition bytesEqual (a b : list Z) : bool := bool_decide (a = b).

Definition VerifyInclusion (leaf : list Z) (index size : Z) (auditPath : list (list Z))
    (root : list Z) : bool :=
  match rootFromInclusionProof leaf index size auditPath with
  | None => false
  | Some computed => bytesEqual computed root
  end.

(** ** The tree of RFC 6962 *)

(** The largest power of two smaller than [n], for [n] at least two. *)
Definition split_at (n : nat) : nat := 2 ^ Nat.log2 (n - 1).

(** The tree hash of a list of leaf hashes that is not empty. *)
Fixpoint mth_fuel (fuel : nat) (D : list (list Z)) : list Z :=
  match fuel with
  | O => []
  | S fuel' =>
      if (length D <=? 1)%nat then default [] (head D)
      else
        let k := split_at (length D) in
        nodeHash (mth_fuel fuel' (take k D)) (mth_fuel fuel' (drop k D))
  end.

Definition mth (D : list (list Z)) : list Z := mth_fuel (length D) D.

Fixpoint path_fuel (fuel m : nat) (D : list (list Z)) : list (list Z) :=
  match fuel with
  | O => []
  | S fuel' =>
      if (length D <=? 1)%nat then []
      else
        let k := split_at (length D) in
        if (m <? k)%nat then path_fuel fuel' m (take k D) ++ [mth (drop k D)]
        else path_fuel fuel' (m - k) (drop k D) ++ [mth (take k D)]
  end.

(** The audit path of leaf [m], its sibling first. *)
Definition audit_path (m : nat) (D : list (list Z)) : list (list Z) := path_fuel (length D) m D.

(** What is hashed for the nodes of the tree, and by a check of a path. *)
Fixpoint tree_inputs (fuel : nat) (D : list (list Z)) : list (list Z) :=
  match fuel with
  | O => []
  | S fuel' =>
      if (length D <=? 1)%nat then []
      else
        let k := split_at (length D) in
        (1 :: mth (take k D) ++ mth (drop k D)) ::
        tree_inputs fuel' (take k D) ++ tree_inputs fuel' (drop k D)
  end.

(** The sides of the audit path: true where the sibling stands on the left. *)
Definition sides (m n : Z) : list bool :=
  let inner := Len64 (Z.lxor m (n - 1)) in
  map (λ i, Z.testbit m (Z.of_nat i)) (seq 0 (Z.to_nat inner)) ++
  replicate (Z.to_nat (OnesCount64 (Z.shiftr m inner))) true.

Definition side_step (h : list Z) (dp : bool * list Z) : list Z :=
  if dp.1 then nodeHash dp.2 h else nodeHash h dp.2.

Fixpoint check_inputs (h : list Z) (dps : list (bool * list Z)) : list (list Z) :=
  match dps with
  | [] => []
  | dp :: dps' =>
      (1 :: if dp.1 then dp.2 ++ h else h ++ dp.2) :: check_inputs (side_step h dp) dps'
  end.

(** ** Bit counting *)

Lemma count_if_range b : 0 ≤ b ≤ 64 → count_if (λ i, i <? b) (seqZ 0 64) = b.
Proof.
  intros Hb. unfold count_if. replace 64 with (b + (64 - b)) by lia.
  rewrite seqZ_app, filter_app by lia. rewrite filter_all, filter_none.
  - rewrite length_app, length_seqZ. simpl. lia.
  - intros i. rewrite elem_of_seqZ, Is_true_true, Z.ltb_lt. lia.
  - intros i. rewrite elem_of_seqZ, Is_true_true, Z.ltb_lt. lia.
Qed.

Lemma count_if_ext {A} (P Q : A → bool) l :
  (∀ x, x ∈ l → P x = Q x) → count_if P l = count_if Q l.
Proof.
  intros Hpq. induction l as [|x l IH]; [done|]. rewrite !count_if_cons, IH, (Hpq x); [done|by left|].
  intros y Hy. apply Hpq. by right.
Qed.

Lemma count_if_or {A} (P Q : A → bool) l :
  (∀ x, P x = true → Q x = false) →
  count_if (λ x, P x || Q x) l = count_if P l + count_if Q l.
Proof.
  intros Hpq. induction l as [|x l IH]; [done|]. rewrite !count_if_cons, IH.
  specialize (Hpq x). destruct (P x), (Q x); cbn; naive_solver lia.
Qed.

Lemma OnesCount64_ones z b : 0 ≤ b ≤ 64 →
  (∀ i, 0 ≤ i < 64 → Z.testbit z i = (i <? b)) → OnesCount64 z = b.
Proof.
  intros Hb Hz. unfold OnesCount64. rewrite (count_if_ext _ (λ i, i <? b)).
  - by apply count_if_range.
  - intros i Hi%elem_of_seqZ. apply Hz. lia.
Qed.

Lemma OnesCount64_0 : OnesCount64 0 = 0.
Proof. apply OnesCount64_ones; [lia|]. intros i Hi. rewrite Z.bits_0. symmetry. apply Z.ltb_ge. lia. Qed.

Lemma OnesCount64_set z z' k : 0 ≤ k < 64 → Z.testbit z' k = false →
  (∀ i, Z.testbit z i = Z.testbit z' i || (i =? k)) → OnesCount64 z = OnesCount64 z' + 1.
Proof.
  intros Hk Hz' Hz. unfold OnesCount64.
  rewrite (count_if_ext _ (λ i, Z.testbit z' i || (i =? k))) by (intros; apply Hz).
  rewrite count_if_or.
  - f_equal. assert (H1 := count_if_range k ltac:(lia)).
    assert (H2 := count_if_range (k + 1) ltac:(lia)).
    rewrite (count_if_ext _ (λ i, (i <? k) || (i =? k))) in H2.
    + rewrite count_if_or in H2; [lia|]. intros i. rewrite Z.ltb_lt, Z.eqb_neq. lia.
    + intros i _. destruct (Z.ltb_spec i (k + 1)), (Z.ltb_spec i k), (Z.eqb_spec i k); lia || done.
  - intros i Hi. apply Z.eqb_neq. intros ->. congruence.
Qed.

Lemma testbit_above z k i : 0 ≤ z < 2 ^ k → k ≤ i → Z.testbit z i = false.
Proof.
  intros Hz Hi. destruct (decide (z = 0)) as [->|]; [apply Z.bits_0|].
  assert (0 ≤ k) by (destruct (Z.lt_ge_cases k 0); [rewrite Z.pow_neg_r in Hz by lia; lia|done]).
  apply Z.bits_above_log2; [lia|]. assert (Z.log2 z < k) by (apply Z.log2_lt_pow2; lia). lia.
Qed.

Lemma lt_pow2_bits z k : 0 ≤ z → 0 ≤ k → (∀ i, k ≤ i → Z.testbit z i = false) → z < 2 ^ k.
Proof.
  intros Hz Hk Hb. destruct (Z.lt_ge_cases z (2 ^ k)) as [|Hge]; [done|]. exfalso.
  pose proof (Z.pow_pos_nonneg 2 k ltac:(lia) Hk).
  assert (k ≤ Z.log2 z) by (apply Z.log2_le_pow2; lia).
  pose proof (Z.bit_log2 z ltac:(lia)) as Ht. by rewrite Hb in Ht.
Qed.

Lemma lxor_bound a b k : 0 ≤ k → 0 ≤ a < 2 ^ k → 0 ≤ b < 2 ^ k → 0 ≤ Z.lxor a b < 2 ^ k.
Proof.
  intros Hk Ha Hb. assert (0 ≤ Z.lxor a b) by (apply Z.lxor_nonneg; lia).
  split; [done|]. apply lt_pow2_bits; [done..|]. intros i Hi.
  by rewrite Z.lxor_spec, (testbit_above a k), (testbit_above b k).
Qed.

Lemma Len64_spec z : 0 ≤ z →
  0 ≤ Len64 z ∧ z < 2 ^ Len64 z ∧ ∀ k, 0 ≤ k → z < 2 ^ k → Len64 z ≤ k.
Proof.
  intros Hz. unfold Len64. destruct (Z.eqb_spec z 0) as [->|Hne]; [split_and!; [lia..|]; lia|].
  pose proof (Z.log2_nonneg z). split_and!; [lia|apply Z.log2_spec; lia|].
  intros k Hk Hlt. enough (Z.log2 z < k) by lia. apply Z.log2_lt_pow2; lia.
Qed.

Lemma Len64_bit z k : 0 ≤ k → 0 ≤ z < 2 ^ (k + 1) → Z.testbit z k = true → Len64 z = k + 1.
Proof.
  intros Hk Hz Hb. destruct (Len64_spec z) as (H1 & H2 & H3); [lia|].
  assert (Len64 z ≤ k + 1) by (apply H3; lia).
  destruct (decide (Len64 z ≤ k)) as [Hle|]; [|lia]. by rewrite (testbit_above z (Len64 z)) in Hb by lia.
Qed.

(** ** The sides of a path *)

Lemma sides_perfect m j : 0 ≤ m < 2 ^ Z.of_nat j → (j ≤ 63)%nat →
  sides m (2 ^ Z.of_nat j) = map (λ i, Z.testbit m (Z.of_nat i)) (seq 0 j).
Proof.
  intros Hm Hj. unfold sides. set (z := Z.lxor m (2 ^ Z.of_nat j - 1)).
  assert (Hz : 0 ≤ z < 2 ^ Z.of_nat j) by (apply lxor_bound; lia).
  destruct (Len64_spec z) as (H1 & H2 & H3); [lia|].
  assert (Hle : Len64 z ≤ Z.of_nat j) by (apply H3; lia).
  set (L := Len64 z) in *.
  assert (Hones : ∀ i, L ≤ i < Z.of_nat j → Z.testbit m i = true).
  { intros i Hi. assert (Hzi : Z.testbit z i = false) by (apply (testbit_above z L); lia).
    unfold z in Hzi. rewrite Z.lxor_spec in Hzi.
    replace (2 ^ Z.of_nat j - 1) with (Z.ones (Z.of_nat j)) in Hzi by (rewrite Z.ones_equiv; lia).
    rewrite Z.ones_spec_low in Hzi by lia. by destruct (Z.testbit m i). }
  rewrite (OnesCount64_ones _ (Z.of_nat j - L)); [|lia|].
  - replace j with (Z.to_nat L + Z.to_nat (Z.of_nat j - L))%nat at 2 by lia.
    rewrite seq_app, map_app. f_equal. apply replicate_as_Forall.
    rewrite length_map, length_seq. split; [done|]. apply Forall_map, Forall_forall.
    intros i Hi%elem_of_seq. cbn. symmetry. apply Hones. lia.
  - intros i Hi. rewrite Z.shiftr_spec by lia. destruct (Z.ltb_spec i (Z.of_nat j - L)).
    + apply Hones. lia.
    + apply (testbit_above m (Z.of_nat j)); lia.
Qed.

(** A leaf of the left subtree: the path of the perfect subtree, then the right
    sibling. *)
Lemma sides_left m n j : 0 ≤ m < 2 ^ Z.of_nat j → (j < 63)%nat →
  2 ^ Z.of_nat j < n ≤ 2 ^ (Z.of_nat j + 1) →
  sides m n = sides m (2 ^ Z.of_nat j) ++ [false].
Proof.
  intros Hm Hj Hn. rewrite sides_perfect by lia. unfold sides.
  rewrite (Z.pow_add_r 2 (Z.of_nat j) 1) in Hn by lia.
  assert (Hz : Len64 (Z.lxor m (n - 1)) = Z.of_nat j + 1).
  { apply Len64_bit; [lia| |].
    - apply lxor_bound; [lia| |]; rewrite Z.pow_add_r by lia; lia.
    - rewrite Z.lxor_spec, (testbit_above m (Z.of_nat j)) by lia.
      replace (n - 1) with (2 ^ Z.of_nat j + (n - 1 - 2 ^ Z.of_nat j)) by lia.
      rewrite Z.add_nocarry_lxor.
      + rewrite Z.lxor_spec, Z.pow2_bits_true, (testbit_above _ (Z.of_nat j)) by lia. done.
      + apply Z.bits_inj'. intros i Hi. rewrite Z.land_spec, Z.bits_0, Z.pow2_bits_eqb by lia.
        destruct (Z.eqb_spec (Z.of_nat j) i) as [<-|]; [|done]. by rewrite (testbit_above _ (Z.of_nat j)) by lia. }
  rewrite Hz. replace (Z.shiftr m (Z.of_nat j + 1)) with 0.
  - rewrite OnesCount64_0, app_nil_r. replace (Z.to_nat (Z.of_nat j + 1)) with (S j) by lia.
    rewrite seq_S, map_app. cbn. by rewrite (testbit_above m (Z.of_nat j)) by lia.
  - symmetry. rewrite Z.shiftr_div_pow2 by lia. apply Z.div_small.
    rewrite Z.pow_add_r by lia. lia.
Qed.

Lemma testbit_pow_add m j i : 0 ≤ m < 2 ^ j → 0 ≤ j →
  Z.testbit (2 ^ j + m) i = Z.testbit m i || (i =? j).
Proof.
  intros Hm Hj. destruct (Z.lt_ge_cases i 0) as [Hi|Hi].
  { rewrite !Z.testbit_neg_r by done. symmetry. cbn. apply Z.eqb_neq. lia. }
  assert (Hland : Z.land (2 ^ j) m = 0).
  { apply Z.bits_inj'. intros k Hk. rewrite Z.land_spec, Z.bits_0, Z.pow2_bits_eqb by lia.
    destruct (Z.eqb_spec j k) as [<-|]; [|done]. by rewrite (testbit_above m j) by lia. }
  rewrite Z.add_nocarry_lxor by done. rewrite Z.lxor_spec, Z.pow2_bits_eqb, (Z.eqb_sym j) by lia.
  destruct (Z.eqb_spec i j) as [->|]; [by rewrite (testbit_above m j) by lia|].
  by rewrite xorb_false_l, orb_false_r.
Qed.

(** A leaf of the right subtree: its path there, then the left sibling. *)
Lemma sides_right m n j : (j < 63)%nat → 0 ≤ m < n → n ≤ 2 ^ Z.of_nat j →
  sides (2 ^ Z.of_nat j + m) (2 ^ Z.of_nat j + n) = sides m n ++ [true].
Proof.
  intros Hj Hm Hn. unfold sides. set (J := Z.of_nat j) in *.
  assert (Hx : Z.lxor (2 ^ J + m) (2 ^ J + n - 1) = Z.lxor m (n - 1)).
  { apply Z.bits_inj'. intros i Hi. replace (2 ^ J + n - 1) with (2 ^ J + (n - 1)) by lia.
    rewrite !Z.lxor_spec, !testbit_pow_add by lia.
    destruct (Z.eqb_spec i J) as [->|]; [|by rewrite !orb_false_r].
    by rewrite !(testbit_above _ J) by lia. }
  rewrite Hx. set (z := Z.lxor m (n - 1)).
  assert (Hz : 0 ≤ z < 2 ^ J) by (apply lxor_bound; lia).
  destruct (Len64_spec z) as (H1 & H2 & H3); [lia|].
  assert (Hle : Len64 z ≤ J) by (apply H3; lia). set (L := Len64 z) in *.
  rewrite (OnesCount64_set (Z.shiftr (2 ^ J + m) L) (Z.shiftr m L) (J - L)); [|lia| |].
  - rewrite Z2Nat.inj_add by (unfold OnesCount64, count_if; lia).
    change (Z.to_nat 1) with 1%nat. rewrite Nat.add_1_r, replicate_S_end, app_assoc. do 2 f_equal.
    apply map_ext_in. intros i Hi%in_seq. rewrite testbit_pow_add by lia.
    rewrite (proj2 (Z.eqb_neq _ _)) by lia. by rewrite orb_false_r.
  - rewrite Z.shiftr_spec by lia. apply (testbit_above m J); lia.
  - intros i. destruct (Z.lt_ge_cases i 0) as [Hi|Hi].
    { rewrite !Z.testbit_neg_r by done. symmetry. apply Z.eqb_neq. lia. }
    rewrite !Z.shiftr_spec, testbit_pow_add by lia.
    f_equal. destruct (Z.eqb_spec (i + L) J), (Z.eqb_spec i (J - L)); lia || done.
Qed.

(** ** The check as a walk along the sides *)

Lemma foldl_index_zip {S A} (f : S → nat → A → S) `{Inhabited A} (p pre post : list A) s :
  foldl (λ s i, f s i ((pre ++ p ++ post) !!! i)) s (seq (length pre) (length p)) =
  foldl (λ s ix, f s ix.1 ix.2) s (zip (seq (length pre) (length p)) p).
Proof.
  revert pre s. induction p as [|x p IH]; intros pre s; [done|]. cbn [length seq zip zip_with foldl].
  cbn [app].
  rewrite list_lookup_total_middle by done. specialize (IH (pre ++ [x])).
  rewrite length_app, Nat.add_1_r in IH. rewrite <- IH. apply foldl_ext. intros s' i _.
  by rewrite <- app_assoc.
Qed.

Lemma foldl_zip_map {A B C S} (g : A → B) (f : S → B * C → S) la lc s :
  foldl f s (zip (map g la) lc) = foldl (λ s ac, f s (g ac.1, ac.2)) s (zip la lc).
Proof. revert lc s. induction la as [|a la IH]; intros [|c lc] s; [done..|]. apply IH. Qed.

Lemma root_sides leaf m n path : 0 ≤ m < n → n < 2 ^ 63 →
  rootFromInclusionProof leaf m n path =
    if decide (length path = length (sides m n))
    then Some (foldl side_step leaf (zip (sides m n) path)) else None.
Proof.
  intros Hm Hn. unfold rootFromInclusionProof.
  rewrite (proj2 (Z.ltb_ge _ _)), (proj2 (Z.ltb_ge _ _)), (proj2 (Z.leb_gt _ _)) by lia.
  cbn [orb]. unfold sides. set (L := Len64 _). set (b := OnesCount64 _).
  assert (HL : 0 ≤ L) by (apply Len64_spec, Z.lxor_nonneg; lia).
  assert (Hb : 0 ≤ b) by (unfold b, OnesCount64, count_if; lia).
  rewrite length_app, length_map, length_seq, length_replicate.
  destruct (Z.eqb_spec (Z.of_nat (length path)) (L + b)) as [He|Hne]; cbn [negb];
    [rewrite decide_True by lia|by rewrite decide_False by lia].
  f_equal. set (p1 := take (Z.to_nat L) path). set (p2 := drop (Z.to_nat L) path).
  assert (Hp : path = p1 ++ p2) by (symmetry; apply take_drop).
  assert (H1 : length p1 = Z.to_nat L) by (unfold p1; rewrite length_take; lia).
  assert (H2 : length p2 = Z.to_nat b) by (unfold p2; rewrite length_drop; lia).
  rewrite Hp, zip_with_app by (by rewrite length_map, length_seq).
  rewrite foldl_app, <- H1, <- H2.
  transitivity (foldl (λ s ix, nodeHash ix.2 s)
    (foldl side_step leaf (zip (map (λ i, Z.testbit m (Z.of_nat i)) (seq 0 (length p1))) p1))
    (zip (seq (length p1) (length p2)) p2)).
  - rewrite <- (foldl_index_zip (λ s _ x, nodeHash x s) p2 p1 []), app_nil_r. f_equal.
    rewrite foldl_zip_map. etransitivity.
    2: { apply (foldl_index_zip (λ s i x, side_step s (Z.testbit m (Z.of_nat i), x)) p1 [] p2). }
    apply foldl_ext. intros s i Hi%elem_of_seq. unfold inner_step, side_step. cbn [fst snd app].
    assert (Hbit : (Z.land (Z.shiftr m (Z.of_nat i)) 1 =? 0) = negb (Z.testbit m (Z.of_nat i))).
    { change 1 with (Z.ones 1). rewrite Z.land_ones, Z.pow_1_r, <- Z.bit0_mod, Z.shiftr_spec by lia.
      rewrite Z.add_0_l. by destruct (Z.testbit m _). }
    rewrite Hbit. by destruct (Z.testbit m _).
  - generalize (foldl side_step leaf (zip (map (λ i, Z.testbit m (Z.of_nat i)) (seq 0 (length p1))) p1)).
    clear. generalize (length p1). induction p2 as [|x p2 IH]; intros k s; [done|]. apply (IH (S k)).
Qed.

(** ** Trees *)

Lemma split_at_bounds n : (2 ≤ n)%nat →
  ∃ j, split_at n = (2 ^ j)%nat ∧ (2 ^ j < n ≤ 2 ^ S j)%nat.
Proof.
  intros Hn. exists (Nat.log2 (n - 1)). split; [done|].
  pose proof (Nat.log2_spec (n - 1) ltac:(lia)). lia.
Qed.

Lemma split_at_lengths (D : list (list Z)) : (2 ≤ length D)%nat →
  (0 < length (take (split_at (length D)) D) < length D)%nat ∧
  (0 < length (drop (split_at (length D)) D) < length D)%nat.
Proof.
  intros HD. destruct (split_at_bounds (length D) HD) as (j & Hk & Hb).
  pose proof (Nat.pow_nonzero 2 j ltac:(lia)). rewrite length_take, length_drop. lia.
Qed.

(** Fuel: any two amounts that are large enough agree. *)
#[local] Ltac fuel_agree :=
  let f := fresh "f" in let IH := fresh "IH" in let g := fresh "g" in
  let HD := fresh "HD" in
  intros f; induction f as [|f IH]; intros [|g]; intros;
  [repeat match goal with D : list (list Z) |- _ => destruct D; [|simpl in *; lia] end; reflexivity..|];
  cbn [mth_fuel path_fuel tree_inputs]; case Nat.leb_spec; intros HD; [reflexivity|];
  pose proof (split_at_lengths _ HD); repeat (rewrite (IH g) by lia); reflexivity.

Lemma mth_fuel_agree f g D : (length D ≤ f)%nat → (length D ≤ g)%nat → mth_fuel f D = mth_fuel g D.
Proof. revert f g D. fuel_agree. Qed.

Lemma path_fuel_agree f g m D :
  (length D ≤ f)%nat → (length D ≤ g)%nat → path_fuel f m D = path_fuel g m D.
Proof. revert f g m D. fuel_agree. Qed.

Lemma tree_inputs_agree f g D :
  (length D ≤ f)%nat → (length D ≤ g)%nat → tree_inputs f D = tree_inputs g D.
Proof. revert f g D. fuel_agree. Qed.

Lemma mth_node D : (2 ≤ length D)%nat →
  mth D = nodeHash (mth (take (split_at (length D)) D)) (mth (drop (split_at (length D)) D)).
Proof.
  intros HD. pose proof (split_at_lengths D HD). unfold mth at 1.
  rewrite (mth_fuel_agree _ (S (length D))) by lia. cbn [mth_fuel].
  rewrite (proj2 (Nat.leb_gt _ _)) by lia. f_equal; apply mth_fuel_agree; lia.
Qed.

Lemma audit_path_node m D : (2 ≤ length D)%nat →
  let k := split_at (length D) in
  audit_path m D =
    if (m <? k)%nat then audit_path m (take k D) ++ [mth (drop k D)]
    else audit_path (m - k) (drop k D) ++ [mth (take k D)].
Proof.
  intros HD. pose proof (split_at_lengths D HD). cbv zeta. unfold audit_path at 1.
  rewrite (path_fuel_agree _ (S (length D))) by lia. cbn [path_fuel].
  rewrite (proj2 (Nat.leb_gt _ _)) by lia. destruct (m <? _)%nat; f_equal; apply path_fuel_agree; lia.
Qed.

Lemma tree_inputs_node D : (2 ≤ length D)%nat →
  let k := split_at (length D) in
  tree_inputs (length D) D =
    (1 :: mth (take k D) ++ mth (drop k D)) ::
    tree_inputs (length (take k D)) (take k D) ++ tree_inputs (length (drop k D)) (drop k D).
Proof.
  intros HD. pose proof (split_at_lengths D HD). cbv zeta.
  rewrite (tree_inputs_agree _ (S (length D))) by lia. cbn [tree_inputs].
  rewrite (proj2 (Nat.leb_gt _ _)) by lia. do 2 f_equal; apply tree_inputs_agree; lia.
Qed.

Lemma mth_single x : mth [x] = x.
Proof. done. Qed.

(** Induction along the split of the tree. *)
Lemma tree_ind (P : list (list Z) → Prop) :
  (∀ x, P [x]) →
  (∀ D, (2 ≤ length D)%nat → P (take (split_at (length D)) D) → P (drop (split_at (length D)) D) → P D) →
  ∀ D, D ≠ [] → P D.
Proof.
  intros H1 H2 D. remember (length D) as n eqn:Hn. revert D Hn.
  induction n as [n IH] using lt_wf_ind. intros D -> HD.
  destruct D as [|x [|y D]]; [done|apply H1|]. set (E := x :: y :: D) in *.
  assert (HE : (2 ≤ length E)%nat) by (simpl; lia). pose proof (split_at_lengths E HE) as [Ht Hd].
  apply H2; [done|..].
  - apply (IH _ (proj2 Ht)); [done|]. intros Heq. rewrite Heq in Ht. simpl in Ht. lia.
  - apply (IH _ (proj2 Hd)); [done|]. intros Heq. rewrite Heq in Hd. simpl in Hd. lia.
Qed.

(** The last side of a path says in which half of the tree the leaf is. *)
Lemma sides_node (D : list (list Z)) m : (2 ≤ length D)%nat → Z.of_nat (length D) < 2 ^ 63 → (m < length D)%nat →
  let k := split_at (length D) in
  sides (Z.of_nat m) (Z.of_nat (length D)) =
    if (m <? k)%nat then sides (Z.of_nat m) (Z.of_nat (length (take k D))) ++ [false]
    else sides (Z.of_nat (m - k)) (Z.of_nat (length (drop k D))) ++ [true].
Proof.
  intros HD Hb Hm. cbv zeta.
  destruct (split_at_bounds (length D) HD) as (j & Hk & Hj).
  rewrite length_drop, length_take_le by lia. rewrite Hk.
  assert (HK : Z.of_nat (2 ^ j) = 2 ^ Z.of_nat j) by (rewrite Nat2Z.inj_pow; done).
  assert (HJ : 2 ^ (Z.of_nat j + 1) = 2 * 2 ^ Z.of_nat j) by (rewrite Z.pow_add_r by lia; lia).
  assert (Hj63 : (j < 63)%nat).
  { enough (Z.of_nat j < 63) by lia. apply (Z.pow_lt_mono_r_iff 2); lia. }
  rewrite Nat.pow_succ_r' in Hj. destruct (Nat.ltb_spec m (2 ^ j)) as [Hlt|Hge].
  - rewrite HK. apply sides_left; lia.
  - rewrite <- (sides_right _ _ j) by lia. f_equal; lia.
Qed.

Lemma lookup_halves {A} k m (D : list A) x : D !! m = Some x →
  if (m <? k)%nat then take k D !! m = Some x else drop k D !! (m - k)%nat = Some x.
Proof.
  intros Hx. destruct (Nat.ltb_spec m k).
  - by rewrite lookup_take_lt.
  - rewrite lookup_drop. by replace (k + (m - k))%nat with m by lia.
Qed.

(** The path of a leaf is as long as its list of sides, and walking it up from
    the leaf gives the root. *)
Lemma audit_path_walk D : D ≠ [] → Z.of_nat (length D) < 2 ^ 63 → ∀ m x, D !! m = Some x →
  let ds := sides (Z.of_nat m) (Z.of_nat (length D)) in
  length (audit_path m D) = length ds ∧ foldl side_step x (zip ds (audit_path m D)) = mth D.
Proof.
  intros HD. pattern D. apply tree_ind; [| |exact HD]; clear D HD; cbv zeta.
  - intros y _ [|m] x Hx; [|discriminate Hx]. cbn in Hx. injection Hx as ->. split; reflexivity.
  - intros D HD IHl IHr Hb m x Hx. assert (Hm := lookup_lt_Some _ _ _ Hx).
    rewrite (audit_path_node m D HD), (mth_node D HD), (sides_node D m HD Hb Hm).
    pose proof (split_at_lengths D HD) as [Ht Hd].
    apply (lookup_halves (split_at (length D))) in Hx. destruct (m <? _)%nat.
    + destruct (IHl ltac:(lia) _ _ Hx) as [Hlen Hwalk].
      rewrite !length_app, zip_with_app, foldl_app, Hwalk, Hlen by done. by split.
    + destruct (IHr ltac:(lia) _ _ Hx) as [Hlen Hwalk].
      rewrite !length_app, zip_with_app, foldl_app, Hwalk, Hlen by done. by split.
Qed.

Definition digest (h : list Z) : Prop := length h = 32%nat.

Lemma mth_digest D : D ≠ [] → Forall digest D → digest (mth D).
Proof.
  intros HD. pattern D. apply tree_ind; [| |exact HD]; clear D HD.
  - intros x Hx. inv Hx. done.
  - intros D HD _ _ _. rewrite mth_node by done. apply length_Sum256.
Qed.

Lemma walk_digest dps h : digest h → digest (foldl side_step h dps).
Proof.
  intros Hh. apply foldl_inv; [done|]. intros s dp _ _. unfold side_step, nodeHash.
  destruct dp.1; apply length_Sum256.
Qed.

Lemma check_inputs_app h l1 l2 :
  check_inputs h (l1 ++ l2) = check_inputs h l1 ++ check_inputs (foldl side_step h l1) l2.
Proof. revert h. induction l1 as [|dp l1 IH]; intros h; [done|]. cbn. by rewrite IH. Qed.

(** Two inputs of one hash function that differ and hash alike, the first from
    a list the checker hashed, the second from one the log hashed. *)
Definition collides (xs ys : list (list Z)) : Prop :=
  ∃ x y, x ∈ xs ∧ y ∈ ys ∧ x ≠ y ∧ Sum256 x = Sum256 y.

Lemma collides_mono xs xs' ys ys' : xs ⊆ xs' → ys ⊆ ys' → collides xs ys → collides xs' ys'.
Proof. intros Hx Hy (x & y & ? & ? & ? & ?). exists x, y. auto. Qed.

(** One node: either both children agree or the two inputs collide. *)
Lemma node_agree a b c d : digest a → digest c → nodeHash a b = nodeHash c d →
  (a = c ∧ b = d) ∨ ((1 :: a ++ b) ≠ (1 :: c ++ d) ∧ Sum256 (1 :: a ++ b) = Sum256 (1 :: c ++ d)).
Proof.
  intros Ha Hc Heq. destruct (decide (a ++ b = c ++ d)) as [Hab|Hne].
  - left. apply app_inj_1; [by rewrite Ha, Hc|done].
  - right. split; [congruence|exact Heq].
Qed.

Lemma last_side_binds (b : bool) h s D : (2 ≤ length D)%nat → Forall digest D →
  digest h → digest s →
  let k := split_at (length D) in
  side_step h (b, s) = nodeHash (mth (take k D)) (mth (drop k D)) →
  h = mth (if b then drop k D else take k D) ∨
  collides (check_inputs h [(b, s)]) (tree_inputs (length D) D).
Proof.
  intros HD HF Hh Hs k Heq. pose proof (split_at_lengths D HD) as [Ht Hd].
  rewrite (tree_inputs_node D HD). cbn [check_inputs fst snd]. fold k in Ht, Hd |- *.
  assert (Htd : digest (mth (take k D))).
  { apply mth_digest; [|by apply Forall_take]. intros He. rewrite He in Ht. simpl in Ht. lia. }
  unfold side_step in Heq. cbn [fst snd] in Heq.
  destruct b; apply node_agree in Heq as [[-> ->]|[Hne Hc]]; try done; auto; right;
    eexists _, _; (split_and!; [by left|by left|exact Hne|exact Hc]).
Qed.

Lemma walk_binds D : D ≠ [] → Forall digest D → Z.of_nat (length D) < 2 ^ 63 →
  ∀ m x leaf path, D !! m = Some x → digest leaf → Forall digest path →
  let ds := sides (Z.of_nat m) (Z.of_nat (length D)) in
  length path = length ds → foldl side_step leaf (zip ds path) = mth D →
  leaf = x ∨ collides (check_inputs leaf (zip ds path)) (tree_inputs (length D) D).
Proof.
  intros HD. pattern D. apply tree_ind; [| |exact HD]; clear D HD.
  - intros y Hy _ [|m] x leaf path Hx Hl Hp; [|discriminate Hx]. cbn in Hx. injection Hx as ->.
    destruct path; [|intros ds Hlen; discriminate Hlen]. intros ds _ Hw. left. exact Hw.
  - intros D HD IHl IHr HF Hb m x leaf path Hx Hl Hp. assert (Hm := lookup_lt_Some _ _ _ Hx).
    pose proof (split_at_lengths D HD) as [Ht Hd].
    rewrite (mth_node D HD), (sides_node D m HD Hb Hm). intros ds Hlen. subst ds. revert Hlen.
    apply (lookup_halves (split_at (length D))) in Hx.
    pose proof (Forall_take _ (split_at (length D)) _ HF) as HFl.
    pose proof (Forall_drop _ (split_at (length D)) _ HF) as HFr.
    destruct path as [|s p _] using rev_ind.
    { destruct (m <? _)%nat; rewrite length_app; simpl; lia. }
    apply Forall_app in Hp as [Hp Hs]. inv Hs.
    destruct (m <? _)%nat; rewrite !length_app, Nat.add_cancel_r; intros Hlen;
      rewrite zip_with_app, foldl_app, check_inputs_app by done; intros Hw;
      (destruct (last_side_binds _ _ _ _ HD HF (walk_digest _ _ Hl) ltac:(done) Hw) as [Heq|Hcol];
        [|right; revert Hcol; apply collides_mono; [intros ?; rewrite elem_of_app; by right|done]]).
    + destruct (IHl HFl ltac:(lia) _ _ _ _ Hx Hl Hp Hlen Heq) as [?|Hcol]; [by left|right].
      revert Hcol. rewrite (tree_inputs_node D HD).
      apply collides_mono; intros ?; rewrite ?elem_of_cons, !elem_of_app; auto.
    + destruct (IHr HFr ltac:(lia) _ _ _ _ Hx Hl Hp Hlen Heq) as [?|Hcol]; [by left|right].
      revert Hcol. rewrite (tree_inputs_node D HD).
      apply collides_mono; intros ?; rewrite ?elem_of_cons, !elem_of_app; auto.
Qed.

(** * The contract of the check *)

(** [C35] Completeness. For every list of leaf hashes shorter than 2^63 and every
    position of it, the check accepts the audit path of RFC 6962 for that leaf
    against the tree hash of the list: an honest log is always believed. *)
Theorem VerifyInclusion_complete D m x :
  D !! m = Some x → Z.of_nat (length D) < 2 ^ 63 →
  VerifyInclusion x (Z.of_nat m) (Z.of_nat (length D)) (audit_path m D) (mth D) = true.
Proof.
  intros Hx Hb. assert (Hm := lookup_lt_Some _ _ _ Hx).
  assert (HD : D ≠ []) by (intros ->; done).
  destruct (audit_path_walk D HD Hb m x Hx) as [Hlen Hwalk].
  unfold VerifyInclusion. rewrite root_sides by lia. rewrite decide_True by done.
  rewrite Hwalk. by apply bool_decide_eq_true.
Qed.

(** [C34] Soundness. When the check accepts a 32-byte leaf at a position of a tree
    whose root is the tree hash of [D], the leaf is the one of [D] at that
    position, or the check and the tree hashed two different inputs to one
    SHA-256 digest, and both inputs are among those the two computations hashed. *)
Theorem VerifyInclusion_sound D m x leaf path :
  D !! m = Some x → Z.of_nat (length D) < 2 ^ 63 →
  Forall digest D → digest leaf → Forall digest path →
  VerifyInclusion leaf (Z.of_nat m) (Z.of_nat (length D)) path (mth D) = true →
  leaf = x ∨
  collides (check_inputs leaf (zip (sides (Z.of_nat m) (Z.of_nat (length D))) path))
           (tree_inputs (length D) D).
Proof.
  intros Hx Hb HF Hl Hp. assert (Hm := lookup_lt_Some _ _ _ Hx).
  unfold VerifyInclusion. rewrite root_sides by lia.
  destruct (decide _) as [Hlen|]; [|done]. intros Heq%bool_decide_eq_true.
  apply walk_binds; try done. by intros ->.
Qed.

Definition three_leaves : list (list Z) := map leafHash [[1]; [2]; [3]].

Lemma VerifyInclusion_complete_witness :
  VerifyInclusion (leafHash [3]) 2 3 (audit_path 2 three_leaves) (mth three_leaves) = true.
Proof. exact (VerifyInclusion_complete three_leaves 2 (leafHash [3]) eq_refl eq_refl). Defined.

Lemma VerifyInclusion_sound_witness :
  leafHash [3] = leafHash [3] ∨
  collides (check_inputs (leafHash [3]) (zip (sides 2 3) (audit_path 2 three_leaves)))
           (tree_inputs 3 three_leaves).
Proof.
  apply (VerifyInclusion_sound three_leaves 2 (leafHash [3]) (leafHash [3]) (audit_path 2 three_leaves)).
  - reflexivity.
  - reflexivity.
  - repeat constructor; apply length_Sum256.
  - apply length_Sum256.
  - repeat constructor; apply length_Sum256.
  - vm_compute. reflexivity.
Defined.
