(* ===== verification/CTFormat.v ===== *)
(** * Certificate transparency: the formats ([internal/scan/ctverify.go], [cttail.go])

    The signed timestamps of a certificate, the leaves of a static-ct data tile,
    the hash tiles, the checkpoint and the tile paths, each reader against the
    writer of its standard.  [x/crypto/cryptobyte] is a third-party package: the
    class [CryptoByte] has the operations the code calls and [CryptoByteLaws]
    their documented behaviour. *)

From S2P Require Import Prelude GoStr GoBytes NetParse GoConv CTMerkle.

(** ** [cryptobyte] *)

Class CryptoByte := {
  ReadUint8 : list Z → option (Z * list Z);
  ReadBytes : nat → list Z → option (list Z * list Z);
  ReadUint16LengthPrefixed : list Z → option (list Z * list Z);
  AddLengthPrefixed : nat → list Z → option (list Z)
}.

(** A big-endian field of [n] bytes. *)
Definition field_value (n : nat) (b : list Z) : option (Z * list Z) :=
  if (n <=? length b)%nat then Some (be_val (take n b), drop n b) else None.

Class CryptoByteLaws `{!CryptoByte} : Prop := {
  ReadUint8_spec b : ReadUint8 b = field_value 1 b;
  ReadBytes_spec n b :
    ReadBytes n b = if (n <=? length b)%nat then Some (take n b, drop n b) else None;
  ReadUint16_spec b :
    ReadUint16LengthPrefixed b =
      '(n, b') ← field_value 2 b;
      if Z.of_nat (length b') <? n then None else Some (take (Z.to_nat n) b', drop (Z.to_nat n) b');
  AddLengthPrefixed_spec n l :
    AddLengthPrefixed n l =
      if Z.of_nat (length l) <? 256 ^ Z.of_nat n
      then Some (be_bytes n (Z.of_nat (length l)) ++ l) else None
}.

(** ** Errors as values *)

#[export] Instance sum_bind {E} : MBind (sum E) :=
  λ _ _ f x, match x with inl e => inl e | inr a => f a end.

(** [fmt.Errorf("...: %w", err)]. *)
Definition wrap_err {E E' A} (f : E → E') (x : E + A) : E' + A :=
  match x with inl e => inl (f e) | inr a => inr a end.

Inductive FrameError :=
  | TruncatedPrefix
  | ZeroLength
  | Overruns (n len : Z).

Inductive LeafError :=
  | TruncatedHeader
  | X509SignedEntry (e : FrameError)
  | TruncatedIssuerKeyHash
  | PrecertTBSCertificate (e : FrameError)
  | UnsupportedEntryTypeError (EntryType : Z)
  | BadExtensions (e : FrameError)
  | BadPreCertificate (e : FrameError)
  | BadChain (e : FrameError).

(** ** The structures a log signs *)

Definition ctLeafVersionV1 : Z := 0.
Definition ctLeafTypeTimestamp : Z := 0.
Definition ctEntryX509 : Z := 0.
Definition ctEntryPrecert : Z := 1.

(** [BytesOrPanic]: a field that does not fit its prefix is a panic. *)
Definition LeafHashX509 `{!CryptoByte} (leafDER sctExtensions : list Z) (timestamp : Z)
    : option (list Z) :=
  der ← AddLengthPrefixed 3 leafDER;
  ext ← AddLengthPrefixed 2 sctExtensions;
  Some (leafHash ([ctLeafVersionV1; ctLeafTypeTimestamp] ++ be_bytes 8 timestamp ++
                  be_bytes 2 ctEntryX509 ++ der ++ ext)).

Definition LeafHashPrecert `{!CryptoByte} (issuerKeyHash precertTBS sctExtensions : list Z)
    (timestamp : Z) : option (list Z) :=
  tbs ← AddLengthPrefixed 3 precertTBS;
  ext ← AddLengthPrefixed 2 sctExtensions;
  Some (leafHash ([ctLeafVersionV1; ctLeafTypeTimestamp] ++ be_bytes 8 timestamp ++
                  be_bytes 2 ctEntryPrecert ++ issuerKeyHash ++ tbs ++ ext)).

(** ** Length-prefixed values *)

Definition ctASN1CertLen : nat := 3.
Definition ctLeafHeader : nat := 1 + 1 + 8 + 2.
Definition ctIssuerKeyHash : nat := 32.

Definition readOpaque24 (b : list Z) : FrameError + list Z :=
  if (length b <? ctASN1CertLen)%nat then inl TruncatedPrefix
  else
    let n := Z.lor (Z.lor (Z.shiftl (b !!! 0%nat) 16) (Z.shiftl (b !!! 1%nat) 8)) (b !!! 2%nat) in
    if n =? 0 then inl ZeroLength
    else if Z.of_nat (length b) <? Z.of_nat ctASN1CertLen + n
    then inl (Overruns n (Z.of_nat (length b) - Z.of_nat ctASN1CertLen))
    else inr (take (Z.to_nat n) (drop ctASN1CertLen b)).

Definition takeOpaque24 (b : list Z) : FrameError + (list Z * list Z) :=
  v ← readOpaque24 b;
  inr (v, drop (ctASN1CertLen + length v) b).

Definition takeOpaque16 (b : list Z) : FrameError + (list Z * list Z) :=
  if (length b <? 2)%nat then inl TruncatedPrefix
  else
    let n := Z.lor (Z.shiftl (b !!! 0%nat) 8) (b !!! 1%nat) in
    if Z.of_nat (length b) <? 2 + n then inl (Overruns n (Z.of_nat (length b) - 2))
    else inr (take (Z.to_nat n) (drop 2 b), drop (Z.to_nat (2 + n)) b).

(** [binary.BigEndian.Uint16]. *)
Definition Uint16 (b : list Z) : Z := Z.lor (b !!! 1%nat) (Z.shiftl (b !!! 0%nat) 8).

(** ** The leaves of a data tile *)

Definition timestampLen : nat := 8.
Definition entryTypeLen : nat := 2.

(** What follows the header: the entry, the extensions, the pre-certificate of a
    precert entry, the chain. *)
Definition parse_entry (entryType : Z) (b : list Z) : LeafError + (list Z * list Z) :=
  '(der, b) ← (if entryType =? ctEntryX509 then wrap_err X509SignedEntry (takeOpaque24 b)
     else if entryType =? ctEntryPrecert then
       if (length b <? ctIssuerKeyHash)%nat then inl TruncatedIssuerKeyHash
       else
         '(_, after) ← wrap_err PrecertTBSCertificate (takeOpaque24 (drop ctIssuerKeyHash b));
         inr ([], after)
     else inl (UnsupportedEntryTypeError entryType));
  '(_, b) ← wrap_err BadExtensions (takeOpaque16 b);
  '(der, b) ← (if entryType =? ctEntryPrecert then wrap_err BadPreCertificate (takeOpaque24 b)
               else inr (der, b));
  '(_, afterChain) ← wrap_err BadChain (takeOpaque16 b);
  inr (der, afterChain).

Definition parseTileLeaf (b : list Z) : LeafError + (list Z * list Z) :=
  if (length b <? timestampLen + entryTypeLen)%nat then inl TruncatedHeader
  else
    let entryType := Uint16 (take entryTypeLen (drop timestampLen b)) in
    parse_entry entryType (drop (timestampLen + entryTypeLen) b).

(** The loop of [ParseDataTile]: the error has the index of its leaf. *)
Fixpoint parse_leaves (fuel : nat) (out : list (list Z)) (b : list Z)
    : (nat * LeafError) + list (list Z) :=
  match fuel, b with
  | _, [] => inr out
  | O, _ => inr out
  | S fuel', _ =>
      '(der, rest) ← wrap_err (pair (length out)) (parseTileLeaf b);
      parse_leaves fuel' (out ++ [der]) rest
  end.

(** Each leaf takes at least its header, so the length is enough fuel. *)
Definition ParseDataTile (body : list Z) : (nat * LeafError) + list (list Z) :=
  parse_leaves (length body) [] body.

(** ** The hash tile *)

Definition CTTileWidth : Z := 256.

(** [None] is the error: a length that is not whole hashes. *)
Definition ParseHashTile (body : list Z) : option (list (list Z)) :=
  if negb (Z.of_nat (length body) mod 32 =? 0) then None
  else
    let n := (length body / 32)%nat in
    Some (map (λ i, take 32 (drop (i * 32) body)) (seq 0 n)).

(** [(matches, present)]; the hash tiles of the code have at most 256 hashes. *)
Definition LeafHashInTile (leafHash : list Z) (index : Z) (tileHashes : list (list Z))
    : option (bool * bool) :=
  let slot := Z.rem index CTTileWidth in
  if Z.of_nat (length tileHashes) <=? slot then Some (false, false)
  else h ← index_slice tileHashes slot; Some (bytesEqual leafHash h, true).

(** ** Tile paths *)

(** The loop over [index /= 1000]: an index of 64 bits has at most seven
    segments. *)
Fixpoint path_segments (fuel : nat) (index : Z) (segs : list string) : list string :=
  match fuel with
  | O => segs
  | S fuel' =>
      if 0 <? index
      then path_segments fuel' (index ÷ 1000) (pad_int 3 (Z.rem index 1000) :: segs)
      else segs
  end.

Definition DataTilePath (index : Z) : string :=
  let segs := path_segments 7 (index ÷ 1000) [pad_int 3 (Z.rem index 1000)] in
  String.concat "/" (imap (λ i s, if (i <? length segs - 1)%nat then ("x" +:+ s)%string else s) segs).

Definition HashTilePath (index : Z) : string := ("0/" +:+ DataTilePath (index ÷ CTTileWidth))%string.

(** ** The checkpoint *)

Inductive CheckpointError :=
  | CheckpointLines (n : nat)
  | CheckpointSize (line : string)
  | CheckpointNegative (size : Z)
  | CheckpointRootBase64
  | CheckpointRootLength (n : nat).

Record CTSignedTreeHead := mkSTH { TreeSize : Z; Raw : string }.

Definition newline : ascii := byte_of 10.

Definition ParseCheckpoint (body : string) : CheckpointError + CTSignedTreeHead :=
  let lines := Split newline body in
  if (length lines <? 3)%nat then inl (CheckpointLines (length lines))
  else
    match ParseInt (TrimSpace (lines !!! 1%nat)) with
    | None => inl (CheckpointSize (lines !!! 1%nat))
    | Some size => if size <? 0 then inl (CheckpointNegative size) else inr (mkSTH size body)
    end.

Definition CheckpointRoot (body : string) : CheckpointError + list Z :=
  let lines := Split newline body in
  if (length lines <? 3)%nat then inl (CheckpointLines (length lines))
  else
    match DecodeString (TrimSpace (lines !!! 2%nat)) with
    | None => inl CheckpointRootBase64
    | Some root =>
        if negb (length root =? 32)%nat then inl (CheckpointRootLength (length root)) else inr root
    end.

(** * The writers of the standard *)

(** [opaque<..2^(8k)-1>] of RFC 5246: a length of [k] bytes, then the value. *)
Definition opaque (k : nat) (v : list Z) : list Z := be_bytes k (Z.of_nat (length v)) ++ v.

Definition fits (k : nat) (v : list Z) : Prop := Z.of_nat (length v) < 256 ^ Z.of_nat k.

Inductive TileEntry :=
  | X509Entry (cert : list Z)
  | PrecertEntry (issuerKeyHash tbs preCert : list Z).

Record TileLeaf := mkTileLeaf {
  tl_timestamp : list Z;
  tl_entry : TileEntry;
  tl_extensions : list Z;
  tl_chain : list Z
}.

(** [TileLeaf] of static-ct-api. *)
Definition leaf_bytes (l : TileLeaf) : list Z :=
  tl_timestamp l ++
  match tl_entry l with
  | X509Entry cert => be_bytes 2 ctEntryX509 ++ opaque 3 cert ++ opaque 2 (tl_extensions l)
  | PrecertEntry ikh tbs pre =>
      be_bytes 2 ctEntryPrecert ++ ikh ++ opaque 3 tbs ++ opaque 2 (tl_extensions l) ++ opaque 3 pre
  end ++ opaque 2 (tl_chain l).

Definition leaf_der (l : TileLeaf) : list Z :=
  match tl_entry l with X509Entry cert => cert | PrecertEntry _ _ pre => pre end.

Definition filled (k : nat) (v : list Z) : Prop := v ≠ [] ∧ fits k v.

Definition wf_leaf (l : TileLeaf) : Prop :=
  length (tl_timestamp l) = 8%nat ∧
  match tl_entry l with
  | X509Entry cert => filled 3 cert
  | PrecertEntry ikh tbs pre => length ikh = 32%nat ∧ filled 3 tbs ∧ filled 3 pre
  end ∧ fits 2 (tl_extensions l) ∧ fits 2 (tl_chain l).

(** A reader against a writer: it reads back what was written and leaves the
    rest, and it accepts nothing else. *)
Class Reader {A V E} (wf : A → Prop) (write : A → list Z) (value : A → V)
    (read : list Z → E + (V * list Z)) : Prop := {
  read_write a rest : wf a → read (write a ++ rest) = inr (value a, rest);
  read_inv b v rest : Forall byte b → read b = inr (v, rest) →
    ∃ a, wf a ∧ value a = v ∧ b = write a ++ rest
}.

(** ** Bytes *)

Lemma lor_shiftl a b k : 0 ≤ k → 0 ≤ b < 2 ^ k → Z.lor (Z.shiftl a k) b = a * 2 ^ k + b.
Proof.
  intros Hk Hb. rewrite <- Z.shiftl_mul_pow2, <- Z.add_lor_land by lia.
  enough (Z.land (Z.shiftl a k) b = 0) as -> by lia. apply Z.bits_inj'. intros i Hi.
  rewrite Z.land_spec, Z.bits_0. destruct (Z.lt_ge_cases i k).
  - by rewrite Z.shiftl_spec_low by lia.
  - rewrite (testbit_above b k i) by lia. apply andb_false_r.
Qed.

Lemma be_bytes_be_val l : Forall byte l → be_bytes (length l) (be_val l) = l.
Proof.
  induction l as [|b l IH] using rev_ind; intros Hl; [done|].
  apply Forall_app in Hl as [Hl Hb]. inv Hb. rewrite length_app, Nat.add_1_r. cbn [be_bytes].
  rewrite be_val_app. change (be_val [b]) with (0 * 256 + b). change (256 ^ Z.of_nat 1) with 256.
  unfold byte in *. replace (0 * 256 + b) with b by lia.
  change (length [b]) with 1%nat. change (256 ^ Z.of_nat 1) with 256.
  rewrite Z.div_add_l, (Z.div_small b), Z.add_0_r, IH by (done || lia).
  rewrite Z.add_comm, Z_mod_plus_full, Z.mod_small by lia. done.
Qed.

Lemma be16_val a b : byte a → byte b → Z.lor (Z.shiftl a 8) b = be_val [a; b].
Proof. unfold byte. intros. rewrite lor_shiftl by lia. cbn. lia. Qed.

Lemma be24_val a b c : byte a → byte b → byte c →
  Z.lor (Z.lor (Z.shiftl a 16) (Z.shiftl b 8)) c = be_val [a; b; c].
Proof.
  unfold byte. intros. rewrite <- Z.lor_assoc, (lor_shiftl b), lor_shiftl by lia.
  cbn. change (2 ^ 16) with (256 * 256). change (2 ^ 8) with 256. lia.
Qed.

Lemma Uint16_val a b : byte a → byte b → Uint16 [a; b] = be_val [a; b].
Proof. intros Ha Hb. unfold Uint16. cbn. rewrite Z.lor_comm. by apply be16_val. Qed.

Lemma length_opaque k v : length (opaque k v) = (k + length v)%nat.
Proof. unfold opaque. by rewrite length_app, length_be_bytes. Qed.

(** The prefix of a written value is its length. *)
Lemma opaque_inv k b : Forall byte b → (k ≤ length b)%nat →
  let n := be_val (take k b) in
  n ≤ Z.of_nat (length b - k) →
  let v := take (Z.to_nat n) (drop k b) in
  Z.of_nat (length v) = n ∧ fits k v ∧ b = opaque k v ++ drop (k + Z.to_nat n) b.
Proof.
  intros Hb Hk n Hn v. assert (Ht : Forall byte (take k b)) by by apply Forall_take.
  pose proof (be_val_range _ Ht) as Hr. rewrite length_take_le in Hr by done. fold n in Hr.
  assert (Hv : Z.of_nat (length v) = n) by (unfold v; rewrite length_take, length_drop; lia).
  split; [done|]. split; [unfold fits; lia|]. unfold opaque. rewrite Hv.
  pose proof (be_bytes_be_val _ Ht) as He. rewrite length_take_le in He by done. fold n in He.
  rewrite He, <- app_assoc. unfold v. rewrite <- (drop_drop b), take_drop.
  by rewrite take_drop.
Qed.

(** ** The two opaque readers *)

Lemma takeOpaque24_eq b : (3 ≤ length b)%nat → Forall byte (take 3 b) →
  takeOpaque24 b =
    let n := be_val (take 3 b) in
    if n =? 0 then inl ZeroLength
    else if Z.of_nat (length b - 3) <? n then inl (Overruns n (Z.of_nat (length b - 3)))
    else inr (take (Z.to_nat n) (drop 3 b), drop (3 + Z.to_nat n) b).
Proof.
  destruct b as [|x [|y [|z b]]]; try (simpl; lia). intros _ Hb. cbn [take] in Hb |- *.
  unfold takeOpaque24, readOpaque24, ctASN1CertLen. cbn [length Nat.ltb Nat.leb lookup_total list_lookup_total].
  pose proof (be_val_range _ Hb) as Hr.
  do 3 (apply Forall_cons in Hb as [? Hb]). rewrite be24_val by done. cbv zeta.
  set (n := be_val _) in *. destruct (Z.eqb_spec n 0); [done|]. cbn [Nat.sub].
  replace (Z.of_nat (S (S (S (length b)))) <? Z.of_nat 3 + n) with (Z.of_nat (length b - 0) <? n)
    by (destruct (Z.ltb_spec (Z.of_nat (length b - 0)) n),
                 (Z.ltb_spec (Z.of_nat (S (S (S (length b))))) (Z.of_nat 3 + n)); lia || done).
  destruct (Z.ltb_spec (Z.of_nat (length b - 0)) n); cbn [mbind sum_bind].
  - do 2 f_equal. lia.
  - rewrite length_take_le by (cbn [drop length]; rewrite drop_0; lia). done.
Qed.

Lemma takeOpaque16_eq b : (2 ≤ length b)%nat → Forall byte (take 2 b) →
  takeOpaque16 b =
    let n := be_val (take 2 b) in
    if Z.of_nat (length b - 2) <? n then inl (Overruns n (Z.of_nat (length b - 2)))
    else inr (take (Z.to_nat n) (drop 2 b), drop (2 + Z.to_nat n) b).
Proof.
  destruct b as [|x [|y b]]; try (simpl; lia). intros _ Hb. cbn [take] in Hb |- *.
  unfold takeOpaque16. cbn [length Nat.ltb Nat.leb lookup_total list_lookup_total].
  pose proof (be_val_range _ Hb) as Hr.
  do 2 (apply Forall_cons in Hb as [? Hb]). rewrite be16_val by done. cbv zeta.
  set (n := be_val _) in *. cbn [Nat.sub].
  replace (Z.of_nat (S (S (length b))) <? 2 + n) with (Z.of_nat (length b - 0) <? n)
    by (destruct (Z.ltb_spec (Z.of_nat (length b - 0)) n),
                 (Z.ltb_spec (Z.of_nat (S (S (length b)))) (2 + n)); lia || done).
  destruct (Z.ltb_spec (Z.of_nat (length b - 0)) n).
  - do 2 f_equal. lia.
  - by replace (Z.to_nat (2 + n)) with (2 + Z.to_nat n)%nat by lia.
Qed.

(** A written value at the front: its prefix, its bytes and the rest. *)
Lemma opaque_front k v rest : fits k v →
  let b := opaque k v ++ rest in
  let n := be_val (take k b) in
  (k ≤ length b)%nat ∧ Forall byte (take k b) ∧ n = Z.of_nat (length v) ∧
  (length b - k = length v + length rest)%nat ∧
  take (Z.to_nat n) (drop k b) = v ∧ drop (k + Z.to_nat n) b = rest.
Proof.
  intros Hf. cbv zeta. unfold opaque, fits in *. rewrite <- !app_assoc.
  set (h := be_bytes k (Z.of_nat (length v))).
  assert (Hh : length h = k) by apply length_be_bytes.
  assert (Ht : take k (h ++ v ++ rest) = h) by (by rewrite <- Hh, take_app_length).
  assert (Hv : be_val h = Z.of_nat (length v)) by (apply be_val_be_bytes; lia).
  rewrite Ht, Hv, Nat2Z.id.
  assert (Hd : drop k (h ++ v ++ rest) = v ++ rest) by (by rewrite <- Hh, drop_app_length).
  rewrite <- drop_drop, Hd, take_app_length, drop_app_length, !length_app, Hh.
  split_and!; [lia|apply be_bytes_byte|done|lia|done|done].
Qed.

#[export] Instance Reader_opaque24 : Reader (filled 3) (opaque 3) id takeOpaque24.
Proof.
  split.
  - intros v rest [Hne Hf]. destruct (opaque_front 3 v rest Hf) as (H1 & H2 & Hn & Hl & Ht & Hd).
    rewrite takeOpaque24_eq by done. cbv zeta. rewrite Ht, Hd, Hn, Hl.
    rewrite (proj2 (Z.eqb_neq _ _)), (proj2 (Z.ltb_ge _ _)); [done|lia|].
    destruct v; [done|simpl; lia].
  - intros b v rest Hb Hr. destruct (le_lt_dec 3 (length b)) as [Hl|Hl].
    + rewrite takeOpaque24_eq in Hr by (done || by apply Forall_take). cbv zeta in Hr.
      destruct (Z.eqb_spec (be_val (take 3 b)) 0); [done|].
      destruct (Z.ltb_spec (Z.of_nat (length b - 3)) (be_val (take 3 b))); [done|].
      injection Hr as <- <-. destruct (opaque_inv 3 b Hb Hl) as (Hlen & Hf & Heq); [lia|].
      eexists. split; [|split; [reflexivity|exact Heq]]. split; [|exact Hf].
      intros Hnil. rewrite Hnil in Hlen. simpl in Hlen. lia.
    + unfold takeOpaque24, readOpaque24, ctASN1CertLen in Hr.
      rewrite (proj2 (Nat.ltb_lt _ _)) in Hr by lia. done.
Qed.

#[export] Instance Reader_opaque16 : Reader (fits 2) (opaque 2) id takeOpaque16.
Proof.
  split.
  - intros v rest Hf. destruct (opaque_front 2 v rest Hf) as (H1 & H2 & Hn & Hl & Ht & Hd).
    rewrite takeOpaque16_eq by done. cbv zeta. rewrite Ht, Hd, Hn, Hl.
    rewrite (proj2 (Z.ltb_ge _ _)) by lia. done.
  - intros b v rest Hb Hr. destruct (le_lt_dec 2 (length b)) as [Hl|Hl].
    + rewrite takeOpaque16_eq in Hr by (done || by apply Forall_take). cbv zeta in Hr.
      destruct (Z.ltb_spec (Z.of_nat (length b - 2)) (be_val (take 2 b))); [done|].
      injection Hr as <- <-. destruct (opaque_inv 2 b Hb Hl) as (Hlen & Hf & Heq); [lia|].
      eexists. split; [exact Hf|split; [reflexivity|exact Heq]].
    + unfold takeOpaque16 in Hr. rewrite (proj2 (Nat.ltb_lt _ _)) in Hr by lia. done.
Qed.

(** ** A leaf *)

Lemma wrap_err_inr {E E' A} (f : E → E') (x : E + A) a : wrap_err f x = inr a ↔ x = inr a.
Proof. destruct x; naive_solver. Qed.

Lemma parse_entry_x509 b : parse_entry ctEntryX509 b =
  '(der, b) ← wrap_err X509SignedEntry (takeOpaque24 b);
  '(_, b) ← wrap_err BadExtensions (takeOpaque16 b);
  '(_, b) ← wrap_err BadChain (takeOpaque16 b);
  inr (der, b).
Proof. reflexivity. Qed.

Lemma parse_entry_precert b : parse_entry ctEntryPrecert b =
  if (length b <? 32)%nat then inl TruncatedIssuerKeyHash
  else
    '(_, b) ← wrap_err PrecertTBSCertificate (takeOpaque24 (drop 32 b));
    '(_, b) ← wrap_err BadExtensions (takeOpaque16 b);
    '(der, b) ← wrap_err BadPreCertificate (takeOpaque24 b);
    '(_, b) ← wrap_err BadChain (takeOpaque16 b);
    inr (der, b).
Proof.
  unfold parse_entry. cbn [Z.eqb ctEntryPrecert ctEntryX509]. unfold ctIssuerKeyHash.
  destruct (_ <? _)%nat; [done|]. by destruct (takeOpaque24 _) as [|[]].
Qed.

Lemma parse_entry_other t b : t ≠ ctEntryX509 → t ≠ ctEntryPrecert →
  parse_entry t b = inl (UnsupportedEntryTypeError t).
Proof. intros H1 H2. unfold parse_entry. by rewrite !(proj2 (Z.eqb_neq _ _)). Qed.

(** The header and the type of an entry. *)
Lemma parseTileLeaf_header ts t b : length ts = 8%nat → 0 ≤ t < 2 ^ 16 →
  parseTileLeaf (ts ++ be_bytes 2 t ++ b) = parse_entry t b.
Proof.
  intros Hts Ht. unfold parseTileLeaf, timestampLen, entryTypeLen.
  pose proof (length_be_bytes 2 t) as Hl. pose proof (be_bytes_byte 2 t) as Hb.
  pose proof (be_val_be_bytes 2 t Ht) as Hv. set (h := be_bytes 2 t) in *.
  rewrite (proj2 (Nat.ltb_ge _ _)) by (rewrite !length_app; lia).
  assert (Hd : drop 8 (ts ++ h ++ b) = h ++ b) by (by rewrite <- Hts, drop_app_length).
  rewrite <- drop_drop, Hd, <- Hl, take_app_length, drop_app_length.
  destruct h as [|x [|y []]]; try done. apply Forall_cons in Hb as [? Hb]. apply Forall_cons in Hb as [? _].
  by rewrite Uint16_val, Hv.
Qed.

Lemma parseTileLeaf_inv b r : Forall byte b → parseTileLeaf b = inr r →
  ∃ ts t b', length ts = 8%nat ∧ 0 ≤ t < 2 ^ 16 ∧ b = ts ++ be_bytes 2 t ++ b' ∧
    parse_entry t b' = inr r ∧ Forall byte b'.
Proof.
  intros Hb Hr. destruct (le_lt_dec 10 (length b)) as [Hl|Hl].
  - assert (Ht : Forall byte (take 2 (drop 8 b))) by by apply Forall_take, Forall_drop.
    assert (Hl2 : length (take 2 (drop 8 b)) = 2%nat) by (rewrite length_take, length_drop; lia).
    pose proof (be_val_range _ Ht) as Hrg. pose proof (be_bytes_be_val _ Ht) as He.
    rewrite Hl2 in Hrg, He.
    assert (Heq : b = take 8 b ++ be_bytes 2 (be_val (take 2 (drop 8 b))) ++ drop 2 (drop 8 b)).
    { by rewrite He, !take_drop. }
    exists (take 8 b), (be_val (take 2 (drop 8 b))), (drop 2 (drop 8 b)).
    split_and!; [rewrite length_take; lia|lia..|exact Heq| |by apply Forall_drop, Forall_drop].
    rewrite Heq in Hr. rewrite parseTileLeaf_header in Hr; [exact Hr|rewrite length_take; lia|exact Hrg].
  - unfold parseTileLeaf, timestampLen, entryTypeLen in Hr.
    rewrite (proj2 (Nat.ltb_lt _ _)) in Hr by lia. done.
Qed.

Lemma sum_bind_inr {E A B} (x : E + A) (f : A → E + B) r :
  x ≫= f = inr r ↔ ∃ a, x = inr a ∧ f a = inr r.
Proof. destruct x; cbn; naive_solver. Qed.

(** A written value read inside a computation, and a computation that
    returned taken apart at its first reader. *)
Ltac read_back :=
  repeat (rewrite <- ?app_assoc;
    first [rewrite (read_write (read := takeOpaque24)) by done
          |rewrite (read_write (read := takeOpaque16)) by done];
    cbn [wrap_err mbind sum_bind id]).

Ltac read_inv H :=
  let v := fresh "v" in let b := fresh "b" in let Hr := fresh "Hr" in
  apply sum_bind_inr in H as ([v b] & Hr & H); apply wrap_err_inr in Hr; cbn beta iota in H;
  let a := fresh "a" in let Hwf := fresh "Hwf" in
  apply read_inv in Hr as (a & Hwf & <- & ->); [|assumption];
  match goal with Hb : Forall byte (_ ++ _) |- _ => apply Forall_app in Hb as [_ Hb] end;
  cbn [id] in *.

#[export] Instance Reader_leaf : Reader wf_leaf leaf_bytes leaf_der parseTileLeaf.
Proof.
  split.
  - intros [ts e ext chain] rest (Hts & He & Hx & Hc). unfold leaf_bytes, leaf_der.
    cbn [tl_timestamp tl_entry tl_extensions tl_chain] in *. destruct e as [cert|ikh tbs pre]; rewrite <- !app_assoc, parseTileLeaf_header by done.
    + rewrite parse_entry_x509. by read_back.
    + destruct He as (Hi & Ht & Hp). rewrite parse_entry_precert.
      rewrite (proj2 (Nat.ltb_ge _ _)) by (rewrite length_app; lia).
      rewrite <- Hi, drop_app_length. by read_back.
  - intros b v rest Hb Hr.
    destruct (parseTileLeaf_inv b _ Hb Hr) as (ts & t & b' & Hts & Ht & -> & Hp & Hb').
    destruct (decide (t = ctEntryX509)) as [->|H1]; [|destruct (decide (t = ctEntryPrecert)) as [->|H2]].
    + rewrite parse_entry_x509 in Hp. clear Hb Hr. read_inv Hp. read_inv Hp. read_inv Hp.
      injection Hp as <- <-. exists (mkTileLeaf ts (X509Entry a) a0 a1).
      unfold leaf_bytes, wf_leaf, leaf_der; cbn [tl_timestamp tl_entry tl_extensions tl_chain]. split_and!; try done. by rewrite <- !app_assoc.
    + rewrite parse_entry_precert in Hp. clear Hb Hr.
      destruct (Nat.ltb_spec (length b') 32); [done|].
      assert (Hd : Forall byte (drop 32 b')) by by apply Forall_drop.
      remember (drop 32 b') as b2 eqn:Eb2.
      assert (Hb2 : b' = take 32 b' ++ b2) by (by rewrite Eb2, take_drop).
      clear Eb2. rewrite Hb2. clear Hb'. assert (Hl : length (take 32 b') = 32%nat) by (rewrite length_take; lia).
      revert Hl. generalize (take 32 b'). intros ikh Hl. clear Hb2 H H1.
      read_inv Hp. read_inv Hp. read_inv Hp. read_inv Hp.
      injection Hp as <- <-. exists (mkTileLeaf ts (PrecertEntry ikh a a1) a0 a2).
      unfold leaf_bytes, wf_leaf, leaf_der; cbn [tl_timestamp tl_entry tl_extensions tl_chain]. split_and!; try done. by rewrite <- !app_assoc.
    + rewrite parse_entry_other in Hp by done. done.
Qed.

(** ** A tile *)

Lemma leaf_bytes_header l : wf_leaf l → (10 ≤ length (leaf_bytes l))%nat.
Proof.
  intros (Hts & _). unfold leaf_bytes. rewrite !length_app, Hts.
  destruct (tl_entry l); rewrite !length_app, length_be_bytes; lia.
Qed.

Lemma parse_leaves_write leaves rest : Forall wf_leaf leaves → ∀ fuel out,
  (length (flat_map leaf_bytes leaves ++ rest) ≤ fuel)%nat →
  ∃ fuel', (length rest ≤ fuel')%nat ∧
    parse_leaves fuel out (flat_map leaf_bytes leaves ++ rest) =
    parse_leaves fuel' (out ++ map leaf_der leaves) rest.
Proof.
  induction 1 as [|l leaves Hl _ IH]; intros fuel out Hf.
  - exists fuel. by rewrite app_nil_r.
  - cbn [flat_map] in Hf |- *. rewrite <- app_assoc in Hf |- *.
    pose proof (leaf_bytes_header l Hl). rewrite length_app in Hf.
    destruct fuel as [|fuel]; [lia|].
    destruct (IH fuel (out ++ [leaf_der l])) as (fuel' & Hf' & Heq); [lia|].
    exists fuel'. split; [done|]. cbn [map]. rewrite <- (app_assoc out [_]) in Heq. cbn [app] in Heq.
    rewrite <- Heq. pose proof (read_write (read := parseTileLeaf) l
      (flat_map leaf_bytes leaves ++ rest) Hl) as Hr.
    destruct (leaf_bytes l) as [|x bs]; [simpl in *; lia|]. cbn [app] in Hr |- *.
    cbn [parse_leaves]. rewrite Hr. done.
Qed.

Lemma parse_leaves_inv fuel out body ders : Forall byte body → (length body ≤ fuel)%nat →
  parse_leaves fuel out body = inr ders →
  ∃ leaves, Forall wf_leaf leaves ∧ body = flat_map leaf_bytes leaves ∧ ders = out ++ map leaf_der leaves.
Proof.
  revert out body. induction fuel as [|fuel IH]; intros out body Hb Hf Hp.
  { destruct body; [|simpl in Hf; lia]. exists []. cbn in Hp |- *. rewrite app_nil_r. naive_solver. }
  destruct body as [|x body].
  { exists []. cbn in Hp |- *. rewrite app_nil_r. naive_solver. }
  cbn [parse_leaves] in Hp. set (b := x :: body) in *.
  apply sum_bind_inr in Hp as ([der rest] & Hr & Hp). apply wrap_err_inr in Hr. cbn beta iota in Hp.
  apply read_inv in Hr as (l & Hl & <- & Heq); [|done]. rewrite Heq in Hb, Hf |- *.
  apply Forall_app in Hb as [_ Hb]. pose proof (leaf_bytes_header l Hl). rewrite length_app in Hf.
  apply IH in Hp as (leaves & Hls & -> & ->); [|done|lia].
  exists (l :: leaves). split_and!; [by constructor|done|]. cbn [map]. by rewrite <- app_assoc.
Qed.

(** A data tile reads exactly as static-ct-api frames it: the reader returns
    certificates iff the tile is a sequence of well-formed leaves, and then they
    are the leaves' certificates in order (the final certificate of an X.509
    entry, the pre-certificate of a precert entry).  A leaf of another type ends
    the reading with that type and the leaf's index, whatever follows it. *)
Theorem ParseDataTile_spec body ders leaves ts t rest :
  Forall byte body → Forall wf_leaf leaves → length ts = 8%nat → 0 ≤ t < 2 ^ 16 →
  t ≠ ctEntryX509 → t ≠ ctEntryPrecert →
  (ParseDataTile body = inr ders ↔
     ∃ leaves, Forall wf_leaf leaves ∧ body = flat_map leaf_bytes leaves ∧
       ders = map leaf_der leaves) ∧
  ParseDataTile (flat_map leaf_bytes leaves ++ ts ++ be_bytes 2 t ++ rest) =
    inl (length leaves, UnsupportedEntryTypeError t).
Proof.
  intros Hb Hls Hts Ht H1 H2. split; [split|].
  - intros Hp. by apply (parse_leaves_inv (length body) [] body ders) in Hp.
  - intros (ls & Hl & -> & ->). unfold ParseDataTile.
    destruct (parse_leaves_write ls [] Hl (length (flat_map leaf_bytes ls)) []) as (f & _ & Heq);
      [by rewrite app_nil_r|].
    rewrite app_nil_r in Heq. rewrite Heq. by destruct f.
  - unfold ParseDataTile. set (b := ts ++ be_bytes 2 t ++ rest).
    destruct (parse_leaves_write leaves b Hls (length (flat_map leaf_bytes leaves ++ b)) [] ltac:(lia))
      as (f & Hf & Heq). rewrite Heq. pose proof (parseTileLeaf_header ts t rest Hts Ht) as Hh.
    fold b in Hh. rewrite parse_entry_other in Hh by done.
    assert (Hlen : (8 ≤ length b)%nat) by (unfold b; rewrite length_app; lia).
    destruct f as [|f]; [lia|]. destruct b as [|x b]; [simpl in Hlen; lia|].
    cbn [parse_leaves]. rewrite Hh. cbn. by rewrite length_map.
Qed.

Definition sample_leaf : TileLeaf := mkTileLeaf (replicate 8 1) (X509Entry [48; 3]) [] [7].

Lemma ParseDataTile_spec_witness :
  (ParseDataTile [] = inr [] ↔
     ∃ leaves, Forall wf_leaf leaves ∧ [] = flat_map leaf_bytes leaves ∧ [] = map leaf_der leaves) ∧
  ParseDataTile (leaf_bytes sample_leaf ++ replicate 8 0 ++ [1; 44; 9]) =
    inl (1%nat, UnsupportedEntryTypeError 300).
Proof.
  apply (ParseDataTile_spec [] [] [sample_leaf] (replicate 8 0) 300 [9]).
  - constructor.
  - repeat constructor; vm_compute; congruence.
  - reflexivity.
  - lia.
  - discriminate.
  - discriminate.
Defined.

(** ** Tile paths *)

Fixpoint base1000 (fuel : nat) (n : Z) (acc : list Z) : list Z :=
  match fuel with
  | O => acc
  | S fuel' => if 0 <? n then base1000 fuel' (n / 1000) (n mod 1000 :: acc) else acc
  end.

Definition base1000_value (vs : list Z) : Z := foldl (λ a v, a * 1000 + v) 0 vs.

(** The index a path names. *)
Definition segment_value (s : string) : option Z := atoi_digits (TrimPrefix s "x") 0.

Definition path_index (p : string) : option Z :=
  base1000_value <$> mapM segment_value (Split "/" p).

Lemma path_segments_base fuel n vs : 0 ≤ n →
  path_segments fuel n (map (pad_int 3) vs) = map (pad_int 3) (base1000 fuel n vs).
Proof.
  revert n vs. induction fuel as [|fuel IH]; intros n vs Hn; [done|]. cbn [path_segments base1000].
  destruct (0 <? n); [|done]. rewrite Z.quot_div_nonneg, Z.rem_mod_nonneg by lia.
  apply (IH (n / 1000) (n mod 1000 :: vs)). apply Z.div_pos; lia.
Qed.

Lemma base1000_value_spec fuel n vs : 0 ≤ n < 1000 ^ Z.of_nat fuel →
  base1000_value (base1000 fuel n vs) = foldl (λ a v, a * 1000 + v) n vs.
Proof.
  revert n vs. induction fuel as [|fuel IH]; intros n vs Hn.
  { change (1000 ^ Z.of_nat 0) with 1 in Hn. replace n with 0 by lia. done. }
  rewrite Nat2Z.inj_succ, Z.pow_succ_r in Hn by lia. cbn [base1000].
  destruct (Z.ltb_spec 0 n) as [Hp|Hz]; [|replace n with 0 by lia; done].
  rewrite IH.
  - cbn [foldl]. f_equal. pose proof (Z.div_mod n 1000). lia.
  - split; [apply Z.div_pos; lia|]. apply Z.div_lt_upper_bound; lia.
Qed.

Lemma base1000_range fuel n vs : Forall (λ v, 0 ≤ v < 1000) vs →
  Forall (λ v, 0 ≤ v < 1000) (base1000 fuel n vs).
Proof.
  revert n vs. induction fuel as [|fuel IH]; intros n vs Hv; [done|]. cbn [base1000].
  destruct (0 <? n); [|done]. apply IH. constructor; [|done]. apply Z.mod_pos_bound. lia.
Qed.

Lemma base1000_nonempty fuel n vs : vs ≠ [] → base1000 fuel n vs ≠ [].
Proof.
  revert n vs. induction fuel as [|fuel IH]; intros n vs Hv; [done|]. cbn [base1000].
  destruct (0 <? n); [|done]. by apply IH.
Qed.

Lemma pad_int_digits v : 0 ≤ v < 1000 →
  string_forallb is_digit (pad_int 3 v) = true ∧ String.length (pad_int 3 v) = 3%nat ∧
  atoi_digits (pad_int 3 v) 0 = Some v.
Proof.
  intros Hv. assert (Hd := decimal_pad 3 v ltac:(lia)). destruct (decimal_forallb _ _ Hd) as [Hf _].
  pose proof (decimal_atoi _ _ Hd 0) as Ha. split_and!; [done| |by rewrite Ha].
  assert (Hall : forallb (λ v, String.length (pad_int 3 (Z.of_nat v)) =? 3)%nat (seq 0 1000) = true)
    by (vm_compute; reflexivity).
  rewrite forallb_forall in Hall. specialize (Hall (Z.to_nat v)).
  rewrite Z2Nat.id in Hall by lia. apply Nat.eqb_eq, Hall, in_seq. lia.
Qed.

Lemma segment_value_digits s v : string_forallb is_digit s = true → atoi_digits s 0 = Some v →
  segment_value s = Some v ∧ segment_value ("x" +:+ s)%string = Some v.
Proof.
  intros Hs Hv. unfold segment_value, TrimPrefix. split.
  - destruct s as [|c s]; [done|]. cbn in Hs. apply andb_true_iff in Hs as [Hc _].
    cbn [cut_prefix]. rewrite (proj2 (Ascii.eqb_neq _ _)); [done|]. intros <-. by vm_compute in Hc.
  - change (cut_prefix "x" ("x" +:+ s)) with (Some s). done.
Qed.

Definition decorate (segs : list string) : list string :=
  imap (λ i s, if (i <? length segs - 1)%nat then ("x" +:+ s)%string else s) segs.

Lemma decorate_Forall2 vs : Forall (λ v, 0 ≤ v < 1000) vs →
  Forall2 (λ s v, (s = pad_int 3 v ∨ s = ("x" +:+ pad_int 3 v)%string) ∧ 0 ≤ v < 1000)
    (decorate (map (pad_int 3) vs)) vs.
Proof.
  intros Hvs. apply Forall2_same_length_lookup_2.
  { unfold decorate. by rewrite length_imap, length_map. }
  intros i s v Hs Hv. unfold decorate in Hs. rewrite list_lookup_imap, list_lookup_fmap, Hv in Hs.
  cbn in Hs. injection Hs as <-. split; [case_match; auto|].
  by apply (proj1 (Forall_lookup _ _) Hvs i v).
Qed.

Lemma segment_ok s v : (s = pad_int 3 v ∨ s = ("x" +:+ pad_int 3 v)%string) → 0 ≤ v < 1000 →
  segment_value s = Some v ∧ string_forallb (λ c, negb (Ascii.eqb c "/")) s = true ∧
  (String.length s ≤ 4)%nat.
Proof.
  intros Hs Hv. destruct (pad_int_digits v Hv) as (Hd & Hl & Ha).
  destruct (segment_value_digits _ _ Hd Ha) as [H1 H2].
  assert (Hf : string_forallb (λ c, negb (Ascii.eqb c "/")) (pad_int 3 v) = true).
  { revert Hd. apply string_forallb_impl. intros c Hc. apply negb_true_iff, Ascii.eqb_neq.
    intros ->. by vm_compute in Hc. }
  destruct Hs as [->| ->]; (split_and!; [done| |]).
  - done.
  - lia.
  - exact Hf.
  - rewrite length_append, Hl. simpl. lia.
Qed.

(** A tile's path names it: over every 64-bit index that is not negative,
    the base-1000 segments of the path read back as the index, so that two tiles
    never share a path, and no segment is longer than four bytes, so that a
    directory has at most a thousand entries of each kind. *)
Theorem DataTilePath_names_its_tile i : 0 ≤ i < 2 ^ 63 →
  path_index (DataTilePath i) = Some i ∧
  Forall (λ s, (String.length s ≤ 4)%nat) (Split "/" (DataTilePath i)).
Proof.
  intros Hi. assert (Hd : 0 ≤ i / 1000 < 1000 ^ Z.of_nat 7).
  { split; [apply Z.div_pos; lia|]. apply Z.div_lt_upper_bound; lia. }
  assert (Hm : 0 ≤ i mod 1000 < 1000) by (apply Z.mod_pos_bound; lia).
  set (vs := base1000 7 (i / 1000) [i mod 1000]).
  assert (Hvs : Forall (λ v, 0 ≤ v < 1000) vs) by (apply base1000_range; constructor; [exact Hm|constructor]).
  assert (Hp : DataTilePath i = String.concat "/" (decorate (map (pad_int 3) vs))).
  { unfold DataTilePath. rewrite Z.quot_div_nonneg, Z.rem_mod_nonneg by lia.
    change [pad_int 3 (i mod 1000)] with (map (pad_int 3) [i mod 1000]).
    by rewrite path_segments_base by lia. }
  pose proof (decorate_Forall2 vs Hvs) as HF.
  assert (Hsplit : Split "/" (DataTilePath i) = decorate (map (pad_int 3) vs)).
  { rewrite Hp. apply Split_concat.
    - intros Hnil. rewrite Hnil in HF. apply Forall2_nil_inv_l in HF.
      revert HF. apply base1000_nonempty. done.
    - eapply Forall2_Forall_l; [exact HF|]. eapply Forall_impl; [exact Hvs|].
      intros v _ s [Hs Hv]. by apply (segment_ok s v). }
  unfold path_index. rewrite Hsplit. split.
  - rewrite (mapM_Some_2 _ _ vs).
    + cbn [fmap option_fmap option_map]. f_equal. unfold vs. rewrite base1000_value_spec by done.
      cbn [foldl]. pose proof (Z.div_mod i 1000). lia.
    + eapply Forall2_impl; [exact HF|]. intros s v [Hs Hv]. by apply (segment_ok s v).
  - eapply Forall2_Forall_l; [exact HF|]. eapply Forall_impl; [exact Hvs|].
    intros v _ s [Hs Hv]. by apply (segment_ok s v).
Qed.

Lemma DataTilePath_names_its_tile_witness :
  path_index (DataTilePath 1234067) = Some 1234067 ∧
  Forall (λ s, (String.length s ≤ 4)%nat) (Split "/" "x001/x234/067").
Proof. apply (DataTilePath_names_its_tile 1234067). lia. Defined.

(** ** The checkpoint *)

Definition no_newline (s : string) : Prop :=
  string_forallb (λ c, negb (Ascii.eqb c newline)) s = true.

Lemma printable_no_newline s : string_forallb printable s = true → no_newline s.
Proof.
  apply string_forallb_impl. intros c Hc. apply negb_true_iff, Ascii.eqb_neq. intros ->.
  by vm_compute in Hc.
Qed.

(** The note of a log: its origin, the size, the root, and what follows. *)
Definition checkpoint_text (origin : string) (size : Z) (root : list Z) (tail : string) : string :=
  (origin +:+ String newline (FormatInt size +:+ String newline
    (EncodeToString root +:+ String newline tail)))%string.

(** A checkpoint reads back: the size and the root written in a log's signed
    note, for every size of a 63-bit tree and every 32-byte root, and the raw
    bytes the log signed are kept. *)
Theorem checkpoint_roundtrip origin size root tail :
  no_newline origin → 0 ≤ size < 2 ^ 63 → Forall byte root → length root = 32%nat →
  let body := checkpoint_text origin size root tail in
  ParseCheckpoint body = inr (mkSTH size body) ∧ CheckpointRoot body = inr root.
Proof.
  intros Ho Hs Hr Hl body.
  assert (Hd : decimal (FormatInt size) size).
  { unfold FormatInt. rewrite (proj2 (Z.ltb_ge _ _)) by lia. apply decimal_itoa. lia. }
  pose proof (decimal_printable _ _ Hd) as Hp. pose proof (EncodeToString_printable root Hr) as Hpr.
  assert (Hsp : Split newline body =
    origin :: FormatInt size :: EncodeToString root :: Split newline tail).
  { unfold body, checkpoint_text. rewrite Split_app by done.
    rewrite Split_app by by apply printable_no_newline.
    by rewrite Split_app by by apply printable_no_newline. }
  unfold ParseCheckpoint, CheckpointRoot. rewrite Hsp. cbn [length Nat.ltb Nat.leb].
  cbn [lookup_total list_lookup_total]. rewrite !TrimSpace_printable by done.
  rewrite (ParseInt_decimal _ size) by (done || lia). rewrite DecodeString_EncodeToString by done.
  rewrite (proj2 (Z.ltb_ge _ _)) by lia. rewrite Hl. done.
Qed.

Lemma checkpoint_roundtrip_witness :
  let body := checkpoint_text "log.example" 77 (replicate 32 9) "sig" in
  ParseCheckpoint body = inr (mkSTH 77 body) ∧ CheckpointRoot body = inr (replicate 32 9).
Proof.
  apply checkpoint_roundtrip.
  - reflexivity.
  - lia.
  - apply Forall_replicate. unfold byte. lia.
  - reflexivity.
Defined.
