(* ===== verification/CTVerify.v ===== *)
(** * Certificate transparency: the point check ([internal/scan/ctverify.go],
    [internal/queue/ctverify.go])

    The signed timestamps of a certificate, the structure each log signed for it,
    and the verdict on whether it is logged.  The network is a parameter: what a
    log answers, and whether the instance-wide throttle grants a slot, are
    functions of a world [W].  [encoding/json] ([CTJson]), [crypto/x509],
    [x/crypto/ocsp] and [cryptobyte]'s ASN.1 readers ([ASN1]) are parameters. *)

From S2P Require Import Prelude GoStr GoBytes NetParse GoConv CTMerkle CTFormat.

(** ** Signed certificate timestamps *)

Record SCT := mkSCT { Version : Z; LogID : list Z; Timestamp : Z; Extensions : list Z }.

Inductive SCTError :=
  | SCTVersion | SCTLogID | SCTTimestamp | SCTExtensions | SCTSignature
  | SCTTrailing (n : nat)
  | SCTUnsupported (version : Z).

Definition ctSCTVersionV1 : Z := 0.
Definition ctExtLeafIndex : Z := 0.

(** A reader that failed, as an error. *)
Definition need {E A} (e : E) (o : option A) : E + A :=
  match o with None => inl e | Some a => inr a end.

(** [binary.BigEndian.Uint64]. *)
Definition Uint64 (b : list Z) : Z := be_val b.

Section Parse.
Context `{!CryptoByte}.

Definition ParseSCT (b : list Z) : SCTError + SCT :=
  '(version, s) ← need SCTVersion (ReadUint8 b);
  '(logID, s) ← need SCTLogID (ReadBytes 32 s);
  '(ts, s) ← need SCTTimestamp (ReadBytes 8 s);
  '(ext, s) ← need SCTExtensions (ReadUint16LengthPrefixed s);
  '(_, s) ← need SCTSignature (ReadBytes 2 s);
  '(_, s) ← need SCTSignature (ReadUint16LengthPrefixed s);
  if negb (length s =? 0)%nat then inl (SCTTrailing (length s))
  else if negb (version =? ctSCTVersionV1) then inl (SCTUnsupported version)
  else inr (mkSCT version logID (Uint64 ts) ext).

(** The loop of [SCTLeafIndex]; each extension takes three bytes at least. *)
Fixpoint leaf_index_in (fuel : nat) (s : list Z) : option Z :=
  match fuel, s with
  | O, _ | _, [] => None
  | S fuel', _ =>
      '(extType, s) ← ReadUint8 s;
      '(data, s) ← ReadUint16LengthPrefixed s;
      if extType =? ctExtLeafIndex then
        if negb (length data =? 5)%nat then None
        else Some (foldl (λ idx bb, Z.lor (Z.shiftl idx 8) bb) 0 data)
      else leaf_index_in fuel' s
  end.

Definition SCTLeafIndex (extensions : list Z) : option Z :=
  leaf_index_in (length extensions) extensions.

Fixpoint sct_elements (fuel : nat) (l : list Z) (out : list (list Z)) : option (list (list Z)) :=
  match fuel, l with
  | _, [] => Some out
  | O, _ => Some out
  | S fuel', _ =>
      '(one, l) ← ReadUint16LengthPrefixed l;
      sct_elements fuel' l (out ++ [one])
  end.

(** What follows the list is not looked at. *)
Definition parseSCTList (b : list Z) : option (list (list Z)) :=
  '(list, _) ← ReadUint16LengthPrefixed b;
  sct_elements (length list) list [].
End Parse.

(** ** ASN.1 *)

Definition oid := list Z.
#[export] Instance oid_eq : EqDecision oid := _.

Class ASN1 := {
  ReadASN1 : Z → list Z → option (list Z * list Z);
  ReadASN1Element : Z → list Z → option (list Z * list Z);
  ReadAnyASN1Element : list Z → option (list Z * Z * list Z);
  ReadASN1ObjectIdentifier : list Z → option (oid * list Z);
  AddASN1 : Z → list Z → option (list Z)
}.

Definition oidSCTList : oid := [1; 3; 6; 1; 4; 1; 11129; 2; 4; 2].
Definition SEQUENCE : Z := 0x30.
Definition OCTET_STRING : Z := 0x04.
(** [Tag(3).Constructed().ContextSpecific()]. *)
Definition extTag : Z := 0xa3.

(** What the code reads of [x509.Certificate] and [ocsp.Response]. *)
Record Certificate := mkCert {
  cert_Extensions : list (oid * list Z);
  RawTBSCertificate : list Z;
  DNSNames : list string;
  CommonName : string
}.

Section Certificates.
Context `{!CryptoByte, !ASN1}.
(** [x509.ParseCertificate] and [ocsp.ParseResponse]; [None] is their error. *)
Variable ParseCertificate : list Z → option Certificate.
Variable ParseResponse : list Z → option (list (oid * list Z)).

(** The first extension that is the list of timestamps. *)
Definition sct_extension (exts : list (oid * list Z)) : option (list Z) :=
  snd ∘ snd <$> list_find (λ e, e.1 = oidSCTList) exts.

(** [None] is an error; [Some []] a certificate without the extension. *)
Definition EmbeddedSCTs (leafDER : list Z) : option (list (list Z)) :=
  cert ← ParseCertificate leafDER;
  match sct_extension (cert_Extensions cert) with
  | None => Some []
  | Some value => '(inner, _) ← ReadASN1 OCTET_STRING value; parseSCTList inner
  end.

(** Every failure narrows the set; none is an error. *)
Definition OCSPSCTs (ocspResponse : list Z) : list (list Z) :=
  if (length ocspResponse =? 0)%nat then []
  else
    match ParseResponse ocspResponse with
    | None => []
    | Some exts =>
        match sct_extension exts with
        | None => []
        | Some value => default [] ('(inner, _) ← ReadASN1 OCTET_STRING value; parseSCTList inner)
        end
    end.

Definition extensionIsSCTList (extElem : list Z) : option bool :=
  '(body, _) ← ReadASN1 SEQUENCE extElem;
  '(id, _) ← ReadASN1ObjectIdentifier body;
  Some (bool_decide (id = oidSCTList)).

(** The extensions but for the list of timestamps; an element is at least two
    bytes long. *)
Fixpoint kept_extensions (fuel : nat) (seq out : list Z) : option (list Z) :=
  match fuel, seq with
  | _, [] => Some out
  | O, _ => Some out
  | S fuel', _ =>
      '(extElem, seq) ← ReadASN1Element SEQUENCE seq;
      drop ← extensionIsSCTList extElem;
      kept_extensions fuel' seq (if (drop : bool) then out else out ++ extElem)
  end.

Definition rewriteExtensions (element : list Z) : option (list Z) :=
  '(explicit, _) ← ReadASN1 extTag element;
  '(seq, _) ← ReadASN1 SEQUENCE explicit;
  kept ← kept_extensions (length seq) seq [];
  inner ← AddASN1 SEQUENCE kept;
  AddASN1 extTag inner.

Fixpoint precert_fields (fuel : nat) (tbs out : list Z) : option (list Z) :=
  match fuel, tbs with
  | _, [] => Some out
  | O, _ => Some out
  | S fuel', _ =>
      '(elem, tag, tbs) ← ReadAnyASN1Element tbs;
      if tag =? extTag then rewritten ← rewriteExtensions elem; precert_fields fuel' tbs (out ++ rewritten)
      else precert_fields fuel' tbs (out ++ elem)
  end.

Definition PrecertTBS (leafDER : list Z) : option (list Z) :=
  cert ← ParseCertificate leafDER;
  '(tbs, _) ← ReadASN1 SEQUENCE (RawTBSCertificate cert);
  fields ← precert_fields (length tbs) tbs [];
  AddASN1 SEQUENCE fields.
End Certificates.

Definition IssuerKeyHash (issuerSPKI : list Z) : list Z := Sum256 issuerSPKI.

(** ** Logs *)

Record CTLog := mkLog { log_LogID : string; log_URL : string; log_Description : string; log_Tiled : bool }.

Record temporalInterval := mkInterval { StartInclusive : Z; EndExclusive : Z }.

(** [logListEntry] and [tiledLogListEntry], which differ in the name of the URL's
    field: of [state] the code reads whether a key is present. *)
Record logEntry := mkEntry {
  le_Description : string; le_LogID : string; le_URL : string;
  le_State : gset string; le_TemporalInterval : option temporalInterval
}.

Record operator := mkOperator { Logs : list logEntry; TiledLogs : list logEntry }.

Definition logList := list operator.

Definition log_of (tiled : bool) (e : logEntry) : CTLog :=
  mkLog (le_LogID e) (le_URL e) (le_Description e) tiled.

Definition named (e : logEntry) : bool :=
  negb (String.eqb (le_LogID e) "" || String.eqb (le_URL e) "").

Definition AllLogs (ll : logList) : list CTLog :=
  flat_map (λ op,
    map (log_of false) (filter named (Logs op)) ++
    map (log_of true) (filter named (TiledLogs op))) ll.

Definition FindLogByLogID (logs : list CTLog) (logID : list Z) : option CTLog :=
  let want := EncodeToString logID in
  snd <$> list_find (λ lg, log_LogID lg = want) logs.

(** ** What a log answers *)

(** [json.Unmarshal] of the bodies: the fields the code reads, [None] an error. *)
Class CTJson := {
  json_tree_size : list Z → option Z;
  json_root_hash : list Z → option string;
  json_proof : list Z → option (Z * list string);
  json_entries : list Z → option (list (string * string))
}.

Definition ParseSTH `{!CTJson} (body : list Z) : option CTSignedTreeHead :=
  size ← json_tree_size body;
  if size <? 0 then None else Some (mkSTH size (string_of body)).

Definition hash_of (text : string) : option (list Z) :=
  h ← DecodeString text;
  if negb (length h =? 32)%nat then None else Some h.

Definition STHRoot `{!CTJson} (body : list Z) : option (list Z) :=
  text ← json_root_hash body; hash_of text.

Definition ParseProofByHash `{!CTJson} (body : list Z) : option (Z * list (list Z)) :=
  '(index, audit) ← json_proof body;
  if index <? 0 then None
  else path ← mapM hash_of audit; Some (index, path).

(** ** The check *)

Inductive logCheck := checkErrored | checkNotFound | checkIncluded.
#[export] Instance logCheck_eq : EqDecision logCheck.
Proof. solve_decision. Defined.

Inductive VerifyOutcome := VerifyUnverifiable | VerifyLogged | VerifyNotLogged.
Record VerifyResult := mkResult { Outcome : VerifyOutcome; Reason : string }.

Definition ensureTrailingSlash (u : string) : string :=
  if HasSuffix u "/" then u else (u +:+ "/")%string.

Section Check.
Context {W : Type}.
(** [reserveCTSlot], true when the slot came, and the fetcher: a status and a
    body, or an error. *)
Variable reserve : St W bool.
Variable fetch : string → St W (option (Z * list Z)).
Context `{!CryptoByte, !ASN1, !CTJson}.
Variable ParseCertificate : list Z → option Certificate.
Variable ParseResponse : list Z → option (list (oid * list Z)).

(** A fetch behind a throttle slot; [None] is a refusal of either. *)
Definition slot_fetch (url : string) : St W (option (Z * list Z)) :=
  granted ← reserve;
  if (granted : bool) then fetch url else mret None.

Definition checkRFC (lg : CTLog) (leafHash : list Z) : St W logCheck :=
  let base := ensureTrailingSlash (log_URL lg) in
  r ← slot_fetch (base +:+ "ct/v1/get-sth")%string;
  match r with
  | None => mret checkErrored
  | Some (status, body) =>
      if negb (status =? 200) then mret checkErrored
      else
        match ParseSTH body, STHRoot body with
        | Some sth, Some root =>
            let hash := QueryEscape (EncodeToString leafHash) in
            r ← slot_fetch (base +:+ "ct/v1/get-proof-by-hash?hash=" +:+ hash +:+
                            "&tree_size=" +:+ FormatInt (TreeSize sth))%string;
            mret match r with
            | None => checkErrored
            | Some (status, body) =>
                if (status =? 400) || (status =? 404) then checkNotFound
                else if negb (status =? 200) then checkErrored
                else
                  match ParseProofByHash body with
                  | None => checkErrored
                  | Some (index, auditPath) =>
                      if VerifyInclusion leafHash index (TreeSize sth) auditPath root
                      then checkIncluded else checkErrored
                  end
            end
        | _, _ => mret checkErrored
        end
  end.

(** The tile of an index at a tree size: its URL has the width of a short head
    tile. *)
Definition hash_tile_url (base : string) (index size : Z) : string :=
  let tileBase := (index ÷ CTTileWidth) * CTTileWidth in
  let width := if size <? tileBase + CTTileWidth then size - tileBase else CTTileWidth in
  let url := (base +:+ "tile/" +:+ HashTilePath index)%string in
  if width <? CTTileWidth then (url +:+ ".p/" +:+ FormatInt width)%string else url.

(** A slot out of the tile's range is a panic, as a leaf too long for its prefix is:
    [None]. *)
Definition checkTiled (lg : CTLog) (leafHash : list Z) (sct : SCT) : St W (option logCheck) :=
  let base := ensureTrailingSlash (log_URL lg) in
  match SCTLeafIndex (Extensions sct) with
  | None => mret (Some checkErrored)
  | Some index =>
      r ← slot_fetch (base +:+ "checkpoint")%string;
      match r with
      | None => mret (Some checkErrored)
      | Some (status, body) =>
          if negb (status =? 200) then mret (Some checkErrored)
          else
            match ParseCheckpoint (string_of body) with
            | inl _ => mret (Some checkErrored)
            | inr sth =>
                if TreeSize sth <=? index then mret (Some checkErrored)
                else
                  r ← slot_fetch (hash_tile_url base index (TreeSize sth));
                  mret match r with
                  | None => Some checkErrored
                  | Some (status, tileBody) =>
                      if negb (status =? 200) then Some checkErrored
                      else
                        match ParseHashTile tileBody with
                        | None => Some checkErrored
                        | Some hashes =>
                            '(matches, present) ← LeafHashInTile leafHash index hashes;
                            Some (if negb present then checkErrored
                                  else if (matches : bool) then checkIncluded else checkNotFound)
                        end
                  end
            end
      end
  end.

Definition checkOneLog (lg : CTLog) (leafHash : list Z) (sct : SCT) : St W (option logCheck) :=
  if log_Tiled lg then checkTiled lg leafHash sct
  else c ← checkRFC lg leafHash; mret (Some c).

(** ** The verdict *)

Record taggedSCT := mkTagged { raw : list Z; precert : bool }.

(** [wire.DecodeSCTCapture]'s fields. *)
Record SCTCapture := mkCapture { TLSExt : list (list Z); OCSP : list Z }.

Definition presented (leafDER : list Z) (capture : SCTCapture) : list taggedSCT :=
  map (λ e, mkTagged e true) (default [] (EmbeddedSCTs ParseCertificate leafDER)) ++
  map (λ e, mkTagged e false) (TLSExt capture) ++
  map (λ e, mkTagged e false) (OCSPSCTs ParseResponse (OCSP capture)).

(** The variables of the loop: the cached TBS, then the three flags. *)
Record verifyState := mkVerify {
  vs_precertTBS : option (option (list Z));
  vs_usable : bool; vs_notFound : bool; vs_errored : bool
}.

(** The leaf hash one timestamp signs: [None] skips it, [Some (_, None)] is the
    panic of a builder.  The TBS is computed once. *)
Definition leaf_hash_of (logs : list CTLog) (leafDER issuerSPKI : list Z) (st : verifyState)
    (tagged : taggedSCT) : verifyState * option (SCT * CTLog * option (list Z)) :=
  match ParseSCT (raw tagged) with
  | inl _ => (st, None)
  | inr sct =>
      match FindLogByLogID logs (LogID sct) with
      | None => (st, None)
      | Some lg =>
          if precert tagged then
            if (length issuerSPKI =? 0)%nat then (st, None)
            else
              let tbs := default (PrecertTBS ParseCertificate leafDER) (vs_precertTBS st) in
              let st := mkVerify (Some tbs) (vs_usable st) (vs_notFound st) (vs_errored st) in
              match tbs with
              | None => (st, None)
              | Some tbs =>
                  (st, Some (sct, lg, LeafHashPrecert (IssuerKeyHash issuerSPKI) tbs
                                        (Extensions sct) (Timestamp sct)))
              end
          else (st, Some (sct, lg, LeafHashX509 leafDER (Extensions sct) (Timestamp sct)))
      end
  end.

Definition note_check (st : verifyState) (c : logCheck) : verifyState :=
  mkVerify (vs_precertTBS st) true
    (vs_notFound st || bool_decide (c = checkNotFound))
    (vs_errored st || bool_decide (c = checkErrored)).

(** The loop over the timestamps, which an inclusion ends. *)
Fixpoint verify_loop (logs : list CTLog) (leafDER issuerSPKI : list Z) (scts : list taggedSCT)
    (st : verifyState) : St W (option (verifyState + VerifyResult)) :=
  match scts with
  | [] => mret (Some (inl st))
  | tagged :: scts' =>
      match leaf_hash_of logs leafDER issuerSPKI st tagged with
      | (st, None) => verify_loop logs leafDER issuerSPKI scts' st
      | (st, Some (_, _, None)) => mret None
      | (st, Some (sct, lg, Some h)) =>
          c ← checkOneLog lg h sct;
          match c with
          | None => mret None
          | Some checkIncluded => mret (Some (inr (mkResult VerifyLogged "logged in CT")))
          | Some c => verify_loop logs leafDER issuerSPKI scts' (note_check st c)
          end
      end
  end.

Definition final_verdict (st : verifyState) : VerifyResult :=
  if vs_errored st then mkResult VerifyUnverifiable "CT log unreachable"
  else if vs_notFound st then mkResult VerifyNotLogged "not logged in CT"
  else if negb (vs_usable st) then mkResult VerifyUnverifiable "no usable SCT"
  else mkResult VerifyUnverifiable "no CT log matched".

Definition verifyMaterial (logs : list CTLog) (leafDER : list Z) (capture : SCTCapture)
    (issuerSPKI : list Z) : St W (option VerifyResult) :=
  let scts := presented leafDER capture in
  if (length scts =? 0)%nat then mret (Some (mkResult VerifyUnverifiable "no SCTs presented"))
  else
    r ← verify_loop logs leafDER issuerSPKI scts (mkVerify None false false false);
    mret match r with
         | None => None
         | Some (inl st) => Some (final_verdict st)
         | Some (inr res) => Some res
         end.
End Check.

(** * Properties *)

(** ** Timestamps *)

Lemma need_inr {E A} (e : E) (o : option A) a : need e o = inr a ↔ o = Some a.
Proof. destruct o; naive_solver. Qed.

(** The field of RFC 6962's [SignedCertificateTimestamp], written. *)
Definition sct_bytes (s : SCT) (alg sig : list Z) : list Z :=
  [Version s] ++ LogID s ++ be_bytes 8 (Timestamp s) ++ opaque 2 (Extensions s) ++ alg ++ opaque 2 sig.

Definition wf_sct (s : SCT) : Prop :=
  Version s = 0 ∧ length (LogID s) = 32%nat ∧ 0 ≤ Timestamp s < 2 ^ 64 ∧ fits 2 (Extensions s).

Section Laws.
Context `{!CryptoByte, !CryptoByteLaws}.

Lemma ReadUint8_cons x b : ReadUint8 (x :: b) = Some (x, b).
Proof. rewrite ReadUint8_spec. unfold field_value. cbn. by rewrite drop_0. Qed.

Lemma ReadBytes_app n (a b : list Z) : length a = n → ReadBytes n (a ++ b) = Some (a, b).
Proof.
  intros <-. rewrite ReadBytes_spec, (proj2 (Nat.leb_le _ _)) by (rewrite length_app; lia).
  by rewrite take_app_length, drop_app_length.
Qed.

Lemma ReadBytes_inv n b v rest : ReadBytes n b = Some (v, rest) → b = v ++ rest ∧ length v = n.
Proof.
  rewrite ReadBytes_spec. destruct (Nat.leb_spec n (length b)); [|done]. intros [= <- <-].
  by rewrite take_drop, length_take_le.
Qed.

Lemma ReadUint16_opaque v rest : fits 2 v →
  ReadUint16LengthPrefixed (opaque 2 v ++ rest) = Some (v, rest).
Proof.
  intros Hf. destruct (opaque_front 2 v rest Hf) as (H1 & _ & Hn & Hl & Ht & Hd).
  rewrite ReadUint16_spec. unfold field_value. rewrite (proj2 (Nat.leb_le _ _)) by done.
  cbn [mbind option_bind]. rewrite length_drop, Hl, (proj2 (Z.ltb_ge _ _)) by lia.
  by rewrite Ht, drop_drop, Hd.
Qed.

Lemma ReadUint16_inv b v rest : Forall byte b → ReadUint16LengthPrefixed b = Some (v, rest) →
  fits 2 v ∧ b = opaque 2 v ++ rest.
Proof.
  intros Hb. rewrite ReadUint16_spec. unfold field_value.
  destruct (Nat.leb_spec 2 (length b)) as [Hl|]; [|done]. cbn [mbind option_bind].
  rewrite length_drop. destruct (Z.ltb_spec (Z.of_nat (length b - 2)) (be_val (take 2 b))) as [|Hn]; [done|].
  intros [= <- <-]. rewrite drop_drop. destruct (opaque_inv 2 b Hb Hl Hn) as (_ & Hf & Heq). done.
Qed.

(** A timestamp is read exactly as RFC 6962 frames it: the reader returns one
    iff the bytes are a version-0 structure with a 32-byte log id, an 8-byte
    timestamp, an extensions field, two algorithm bytes and a signature, and
    nothing after; and then it is the one that was written. *)
Theorem ParseSCT_spec b sct : Forall byte b →
  ParseSCT b = inr sct ↔
  wf_sct sct ∧ ∃ alg sig, length alg = 2%nat ∧ fits 2 sig ∧ b = sct_bytes sct alg sig.
Proof.
  intros Hb. unfold ParseSCT. split.
  - intros Hp.
    apply sum_bind_inr in Hp as ([version s1] & H1%need_inr & Hp); cbn beta iota in Hp.
    apply sum_bind_inr in Hp as ([logID s2] & H2%need_inr & Hp); cbn beta iota in Hp.
    apply sum_bind_inr in Hp as ([ts s3] & H3%need_inr & Hp); cbn beta iota in Hp.
    apply sum_bind_inr in Hp as ([ext s4] & H4%need_inr & Hp); cbn beta iota in Hp.
    apply sum_bind_inr in Hp as ([alg s5] & H5%need_inr & Hp); cbn beta iota in Hp.
    apply sum_bind_inr in Hp as ([sig s6] & H6%need_inr & Hp); cbn beta iota in Hp.
    destruct b as [|x b]; [by rewrite ReadUint8_spec in H1|]. rewrite ReadUint8_cons in H1.
    injection H1 as -> ->. apply Forall_cons in Hb as [Hx Hb].
    apply ReadBytes_inv in H2 as [-> Hl2]. apply Forall_app in Hb as [Hb2 Hb].
    apply ReadBytes_inv in H3 as [-> Hl3]. apply Forall_app in Hb as [Hb3 Hb].
    apply ReadUint16_inv in H4 as [Hf4 ->]; [|done]. apply Forall_app in Hb as [_ Hb].
    apply ReadBytes_inv in H5 as [-> Hl5]. apply Forall_app in Hb as [_ Hb].
    apply ReadUint16_inv in H6 as [Hf6 ->]; [|done].
    destruct s6 as [|]; [|done]. cbn [length Nat.eqb negb] in Hp.
    destruct (Z.eqb_spec version ctSCTVersionV1) as [->|]; [|done]. cbn [negb] in Hp. injection Hp as <-.
    pose proof (be_val_range ts Hb3) as Hr. rewrite Hl3 in Hr.
    split; [done|]. exists alg, sig. split_and!; [done..|].
    unfold sct_bytes, Uint64; cbn [Version LogID Timestamp Extensions].
    pose proof (be_bytes_be_val ts Hb3) as Hv. rewrite Hl3 in Hv. by rewrite Hv, app_nil_r.
  - intros ((Hv & Hl & Ht & Hx) & alg & sig & Ha & Hs & ->). unfold sct_bytes.
    destruct sct as [version logID ts ext]; cbn [Version LogID Timestamp Extensions] in *. subst version.
    cbn [app]. rewrite ReadUint8_cons. cbn [need mbind sum_bind].
    rewrite ReadBytes_app by done. cbn [need mbind sum_bind].
    rewrite ReadBytes_app by apply length_be_bytes. cbn [need mbind sum_bind].
    rewrite ReadUint16_opaque by done. cbn [need mbind sum_bind].
    rewrite ReadBytes_app by done. cbn [need mbind sum_bind].
    rewrite <- (app_nil_r (opaque 2 sig)), ReadUint16_opaque by done. cbn [need mbind sum_bind].
    unfold Uint64. by rewrite be_val_be_bytes.
Qed.

(** ** The leaf index of a tiled log *)

Lemma shift_bytes_val l a : Forall byte l →
  foldl (λ idx bb, Z.lor (Z.shiftl idx 8) bb) a l = foldl (λ idx bb, idx * 256 + bb) a l.
Proof.
  intros Hl. revert a. induction Hl as [|b l Hb _ IH]; intros a; [done|]. cbn [foldl].
  unfold byte in Hb. rewrite lor_shiftl by lia. apply IH.
Qed.

Lemma leaf_index_in_range fuel s idx : Forall byte s →
  leaf_index_in fuel s = Some idx → 0 ≤ idx < 2 ^ 40.
Proof.
  revert s. induction fuel as [|fuel IH]; intros s Hs; [by destruct s|].
  destruct s as [|x s]; [done|]. cbn [leaf_index_in]. rewrite ReadUint8_cons. cbn [mbind option_bind].
  apply Forall_cons in Hs as [_ Hs].
  destruct (ReadUint16LengthPrefixed s) as [[data s']|] eqn:Hr; [|done]. cbn [mbind option_bind].
  apply ReadUint16_inv in Hr as [_ ->]; [|done]. apply Forall_app in Hs as [Hd Hs].
  unfold opaque in Hd. apply Forall_app in Hd as [_ Hd].
  destruct (x =? ctExtLeafIndex); [|by apply IH].
  destruct (Nat.eqb_spec (length data) 5) as [Hl|]; [|done]. cbn [negb]. intros [= <-].
  rewrite shift_bytes_val by done. pose proof (be_val_range data Hd) as Hr. rewrite Hl in Hr. exact Hr.
Qed.

Lemma SCTLeafIndex_range ext idx : Forall byte ext →
  SCTLeafIndex ext = Some idx → 0 ≤ idx < 2 ^ 40.
Proof. apply leaf_index_in_range. Qed.

(** An extensions field, written. *)
Definition extensions_bytes (exts : list (Z * list Z)) : list Z :=
  flat_map (λ e, e.1 :: opaque 2 e.2) exts.

Lemma leaf_index_write exts fuel :
  Forall (λ e, fits 2 e.2 ∧ Forall byte e.2) exts → (length (extensions_bytes exts) ≤ fuel)%nat →
  leaf_index_in fuel (extensions_bytes exts) =
    '(_, e) ← list_find (λ e, e.1 = ctExtLeafIndex) exts;
    if (length e.2 =? 5)%nat then Some (be_val e.2) else None.
Proof.
  intros Hf. revert fuel. induction Hf as [|[t d] exts [Hd Hb] _ IH]; intros fuel Hl; [by destruct fuel|].
  cbn [extensions_bytes flat_map fst snd] in Hl |- *.
  fold (extensions_bytes exts) in Hl |- *. cbn [app] in Hl |- *.
  destruct fuel as [|fuel]; [simpl in Hl; lia|]. cbn [leaf_index_in].
  rewrite ReadUint8_cons. cbn [mbind option_bind]. rewrite ReadUint16_opaque by done.
  cbn [mbind option_bind list_find fst snd].
  destruct (Z.eqb_spec t ctExtLeafIndex) as [->|Hne].
  - rewrite decide_True by done. cbn [mbind option_bind snd].
    destruct (Nat.eqb_spec (length d) 5) as [H5|]; [|done]. cbn [negb]. f_equal.
    exact (shift_bytes_val d 0 Hb).
  - rewrite decide_False by done. rewrite IH; [|simpl in Hl; rewrite length_app in Hl; lia].
    by destruct (list_find _ exts) as [[]|].
Qed.
End Laws.

(** ** The verdict of the point check *)

Section Verdict.
Context {W : Type} (reserve : St W bool) (fetch : string → St W (option (Z * list Z))).
Context `{!CryptoByte, !ASN1, !CTJson}.
Context (ParseCertificate : list Z → option Certificate).
Context (ParseResponse : list Z → option (list (oid * list Z))).
Context (logs : list CTLog) (leafDER issuerSPKI : list Z).

(** What the check asks: for each usable timestamp its log and leaf hash, in the
    order presented, with no state. *)
Definition claim_of (tagged : taggedSCT) : option (SCT * CTLog * option (list Z)) :=
  (leaf_hash_of ParseCertificate logs leafDER issuerSPKI (mkVerify None false false false) tagged).2.

(** The answers, up to the first inclusion; [None] is a panic. *)
Fixpoint ask_logs (claims : list (SCT * CTLog * option (list Z))) : St W (option (list logCheck)) :=
  match claims with
  | [] => mret (Some [])
  | (sct, lg, Some h) :: claims' =>
      c ← checkOneLog reserve fetch lg h sct;
      match c with
      | None => mret None
      | Some checkIncluded => mret (Some [checkIncluded])
      | Some c => cs ← ask_logs claims'; mret (cons c <$> cs)
      end
  | _ => mret None
  end.

Definition verdict (replies : list logCheck) : VerifyResult :=
  if bool_decide (checkIncluded ∈ replies) then mkResult VerifyLogged "logged in CT"
  else if bool_decide (checkErrored ∈ replies) then mkResult VerifyUnverifiable "CT log unreachable"
  else if bool_decide (checkNotFound ∈ replies) then mkResult VerifyNotLogged "not logged in CT"
  else mkResult VerifyUnverifiable "no usable SCT".

(** The cached TBS is never a wrong one. *)
Definition cache_ok (st : verifyState) : Prop :=
  ∀ tbs, vs_precertTBS st = Some tbs → tbs = PrecertTBS ParseCertificate leafDER.

Lemma leaf_hash_of_claim st tagged : cache_ok st →
  let r := leaf_hash_of ParseCertificate logs leafDER issuerSPKI st tagged in
  r.2 = claim_of tagged ∧ cache_ok r.1 ∧ vs_usable r.1 = vs_usable st ∧
  vs_notFound r.1 = vs_notFound st ∧ vs_errored r.1 = vs_errored st.
Proof.
  intros Hc. unfold claim_of, leaf_hash_of. destruct (ParseSCT _) as [|sct]; [done|].
  destruct (FindLogByLogID _ _); [|done]. destruct (precert tagged); [|done].
  destruct (_ =? _)%nat; [done|]. cbn [vs_precertTBS default from_option].
  assert (Hd : default (PrecertTBS ParseCertificate leafDER) (vs_precertTBS st) =
               PrecertTBS ParseCertificate leafDER).
  { destruct (vs_precertTBS st) as [tbs|] eqn:Ht; [by apply Hc|done]. }
  rewrite Hd. assert (Hok : cache_ok (mkVerify (Some (PrecertTBS ParseCertificate leafDER))
    (vs_usable st) (vs_notFound st) (vs_errored st))) by (by intros tbs [= <-]).
  by destruct (PrecertTBS _ _).
Qed.

Definition loop_result (st : verifyState) (replies : option (list logCheck))
    : option (verifyState + VerifyResult) → Prop := λ r,
  match replies, r with
  | None, None => True
  | Some cs, Some (inr res) => checkIncluded ∈ cs ∧ res = mkResult VerifyLogged "logged in CT"
  | Some cs, Some (inl st') =>
      checkIncluded ∉ cs ∧
      vs_usable st' = vs_usable st || negb (length cs =? 0)%nat ∧
      vs_notFound st' = vs_notFound st || bool_decide (checkNotFound ∈ cs) ∧
      vs_errored st' = vs_errored st || bool_decide (checkErrored ∈ cs)
  | _, _ => False
  end.

Lemma in_cons_bool (x c : logCheck) cs :
  bool_decide (x ∈ c :: cs) = bool_decide (c = x) || bool_decide (x ∈ cs).
Proof.
  rewrite <- bool_decide_or. apply bool_decide_ext. rewrite elem_of_cons. naive_solver.
Qed.

Lemma verify_loop_asks scts st w : cache_ok st →
  let (replies, w') := ask_logs (omap claim_of scts) w in
  let (r, w'') := verify_loop reserve fetch ParseCertificate logs leafDER issuerSPKI scts st w in
  w' = w'' ∧ loop_result st replies r.
Proof.
  revert st w. induction scts as [|t scts IH]; intros st w Hc.
  { cbn. split; [done|]. rewrite !orb_false_r. split_and!; try done. set_solver. }
  destruct (leaf_hash_of_claim st t Hc) as (Hr & Hc' & Hu & Hn & He).
  cbn [verify_loop omap list_omap]. rewrite <- Hr.
  destruct (leaf_hash_of _ _ _ _ st t) as [st' [[[sct lg] [h|]]|]]; cbn [fst snd] in *.
  - cbn [ask_logs]. unfold mbind, St_bind, mret, St_ret.
    destruct (checkOneLog reserve fetch lg h sct w) as [[c|] w1]; [|done].
    assert (Hnote : c ≠ checkIncluded →
      let (replies, w') := (cs ← ask_logs (omap claim_of scts); mret (cons c <$> cs)) w1 in
      let (r, w'') := verify_loop reserve fetch ParseCertificate logs leafDER issuerSPKI scts
                        (note_check st' c) w1 in
      w' = w'' ∧ loop_result st replies r).
    { intros Hne. unfold mbind, St_bind, mret, St_ret. specialize (IH (note_check st' c) w1 Hc').
      destruct (ask_logs _ w1) as [[cs|] w2], (verify_loop _ _ _ _ _ _ _ _ w1) as [[[st2|res]|] w3];
        destruct IH as [-> Hl]; split; try done; cbn in Hl |- *.
      - destruct Hl as (E1 & E2 & E3 & E4). rewrite E2, E3, E4, Hn, He.
        rewrite !in_cons_bool, !orb_assoc. split_and!; [set_solver|by rewrite orb_true_r|done|done].
      - destruct Hl as [Hl ->]. set_solver. }
    destruct c; cbn in Hnote |- *.
    + apply Hnote. done.
    + apply Hnote. done.
    + split; [done|]. set_solver.
  - done.
  - specialize (IH st' w Hc'). unfold loop_result in *. by rewrite Hu, Hn, He in IH.
Qed.

Lemma ask_logs_shape claims w replies w' : ask_logs claims w = (Some replies, w') →
  (checkIncluded ∉ replies ∧ length replies = length claims) ∨
  (∃ cs, replies = cs ++ [checkIncluded] ∧ checkIncluded ∉ cs ∧ (length replies ≤ length claims)%nat).
Proof.
  revert w replies. induction claims as [|[[sct lg] [h|]] claims IH]; intros w replies Ha.
  - cbn in Ha. injection Ha as <- <-. left. split; [set_solver|done].
  - cbn [ask_logs] in Ha. unfold mbind, St_bind, mret, St_ret in Ha.
    destruct (checkOneLog reserve fetch lg h sct w) as [[c|] w1]; [|done].
    destruct (decide (c = checkIncluded)) as [->|Hne].
    + injection Ha as <- <-. right. exists []. split_and!; [done|set_solver|simpl; lia].
    + assert (Hs : (let '(a, w2) := ask_logs claims w1 in (cons c <$> a, w2)) = (Some replies, w'))
        by (by destruct c).
      destruct (ask_logs claims w1) as [[cs|] w2] eqn:He; [|done]. injection Hs as <- ->.
      destruct (IH _ _ He) as [[Hn Hl]|(cs' & -> & Hn & Hl)].
      * left. rewrite elem_of_cons. split; [naive_solver|simpl; lia].
      * right. exists (c :: cs'). rewrite elem_of_cons. split_and!; [done|naive_solver|simpl in *; lia].
  - done.
Qed.

(** The point check's verdict.  It asks the logs of the usable timestamps in
    the order presented and stops at the first inclusion; it panics only where a
    leaf hash or a slot comparison does; and the verdict is a function of the
    answers.  "Logged" is said on an inclusion; "not logged" only when every
    usable log answered and every answer was that it has no such leaf: an
    unreachable log, a bad proof or an unparsable body is doubt, never absence.
    The last reason of the code ("no CT log matched") is never given. *)
Theorem verifyMaterial_verdict capture w : presented ParseCertificate ParseResponse leafDER capture ≠ [] →
  let scts := presented ParseCertificate ParseResponse leafDER capture in
  let claims := omap claim_of scts in
  let (replies, w') := ask_logs claims w in
  verifyMaterial reserve fetch ParseCertificate ParseResponse logs leafDER capture issuerSPKI w =
    (verdict <$> replies, w') ∧
  ∀ cs, replies = Some cs →
    (Outcome (verdict cs) = VerifyLogged ↔ checkIncluded ∈ cs) ∧
    (Outcome (verdict cs) = VerifyNotLogged ↔
       cs ≠ [] ∧ length cs = length claims ∧ ∀ c, c ∈ cs → c = checkNotFound).
Proof.
  intros Hne. cbv zeta. set (scts := presented _ _ _ _) in *.
  pose proof (verify_loop_asks scts (mkVerify None false false false) w) as Hl.
  destruct (ask_logs _ w) as [replies w1] eqn:Ha. split.
  - unfold verifyMaterial. fold scts. destruct scts as [|t scts]; [done|]. cbn [length Nat.eqb].
    unfold mbind, St_bind, mret, St_ret.
    destruct (verify_loop _ _ _ _ _ _ _ _ w) as [r w2]. destruct Hl as [<- Hl]; [done|].
    destruct replies as [cs|], r as [[st|res]|]; try done; unfold loop_result, verdict in *; cbn [fmap option_fmap option_map].
    + destruct Hl as (H2 & H3 & H4 & H5). rewrite (bool_decide_eq_false_2 _ H2).
      unfold final_verdict. rewrite H3, H4, H5. cbn [vs_errored vs_notFound vs_usable orb].
      destruct (bool_decide_reflect (checkErrored ∈ cs)), (bool_decide_reflect (checkNotFound ∈ cs)); try done.
      destruct cs as [|[] cs]; [done|set_solver..].
    + destruct Hl as [H2 ->]. by rewrite (bool_decide_eq_true_2 _ H2).
  - intros cs ->. unfold verdict.
    destruct (bool_decide_reflect (checkIncluded ∈ cs)) as [Hi|Hi]; cbn.
    { split; [done|]. split; [done|]. intros (_ & _ & Hall). by apply Hall in Hi. }
    destruct (bool_decide_reflect (checkErrored ∈ cs)) as [Hr|Hr]; cbn.
    { split; [done|]. split; [done|]. intros (_ & _ & Hall). by apply Hall in Hr. }
    destruct (bool_decide_reflect (checkNotFound ∈ cs)) as [Hn|Hn]; cbn.
    + split; [done|]. split; [|done]. intros _.
      destruct (ask_logs_shape _ _ _ _ Ha) as [[_ Hlen]|(cs' & -> & _)]; [|set_solver].
      split_and!; [by intros ->; apply elem_of_nil in Hn|done|]. intros [] Hc; done.
    + split; [done|]. split; [done|]. intros (Hcs & _ & Hall). destruct cs as [|c cs]; [done|].
      destruct Hn. rewrite (Hall c) by (by left). by left.
Qed.
End Verdict.

(** ** The TBS a pre-certificate was signed over *)

(** The encoding the readers and the builder share: [der tag content], for a
    content that fits ([der_ok]), and the encoding of an object identifier. *)
Class ASN1Laws `{!ASN1} (der : Z → list Z → list Z) (der_ok : list Z → Prop) (oid_bytes : oid → list Z)
    : Prop := {
  der_length t c : (2 + length c ≤ length (der t c))%nat;
  ReadAny_der t c rest : der_ok c → ReadAnyASN1Element (der t c ++ rest) = Some (der t c, t, rest);
  ReadASN1_der t c rest : der_ok c → ReadASN1 t (der t c ++ rest) = Some (c, rest);
  ReadASN1Element_der t c rest : der_ok c → ReadASN1Element t (der t c ++ rest) = Some (der t c, rest);
  ReadOID_bytes id rest : ReadASN1ObjectIdentifier (oid_bytes id ++ rest) = Some (id, rest);
  AddASN1_der t c : der_ok c → AddASN1 t c = Some (der t c)
}.

Section Precert.
Context `{!ASN1} der der_ok oid_bytes `{!ASN1Laws der der_ok oid_bytes}.
Context (ParseCertificate : list Z → option Certificate).

(** A field of the TBS: one the code copies, or the extensions. *)
Inductive tbs_field :=
  | Field (tag : Z) (content : list Z)
  | Exts (exts : list (oid * list Z)).

Definition ext_content (e : oid * list Z) : list Z := oid_bytes e.1 ++ e.2.
Definition exts_content (exts : list (oid * list Z)) : list Z :=
  flat_map (λ e, der SEQUENCE (ext_content e)) exts.
Definition field_bytes (f : tbs_field) : list Z :=
  match f with
  | Field t c => der t c
  | Exts exts => der extTag (der SEQUENCE (exts_content exts))
  end.
Definition tbs_content (fields : list tbs_field) : list Z := flat_map field_bytes fields.

Definition without_scts (f : tbs_field) : tbs_field :=
  match f with Field _ _ => f | Exts exts => Exts (filter (λ e, e.1 ≠ oidSCTList) exts) end.

(** The contents fit, before and after. *)
Definition exts_ok (exts : list (oid * list Z)) : Prop :=
  der_ok (exts_content exts) ∧ der_ok (der SEQUENCE (exts_content exts)).

Definition field_ok (f : tbs_field) : Prop :=
  match f with
  | Field t c => t ≠ extTag ∧ der_ok c
  | Exts exts =>
      Forall (λ e, der_ok (ext_content e)) exts ∧ exts_ok exts ∧
      exts_ok (filter (λ e, e.1 ≠ oidSCTList) exts)
  end.

Lemma ReadASN1_alone t c : der_ok c → ReadASN1 t (der t c) = Some (c, []).
Proof. intros Hc. rewrite <- (app_nil_r (der t c)). by apply ReadASN1_der. Qed.

Lemma der_cons t c rest : ∃ x l, der t c ++ rest = x :: l ∧ (length rest ≤ length l)%nat.
Proof.
  pose proof (der_length t c) as Hl. destruct (der t c) as [|x l]; [simpl in Hl; lia|].
  exists x, (l ++ rest). split; [done|]. rewrite length_app. lia.
Qed.

Lemma extensionIsSCTList_der id v : der_ok (ext_content (id, v)) →
  extensionIsSCTList (der SEQUENCE (ext_content (id, v))) = Some (bool_decide (id = oidSCTList)).
Proof.
  intros He. unfold extensionIsSCTList. rewrite ReadASN1_alone by done. cbn [mbind option_bind].
  unfold ext_content. cbn [fst snd]. by rewrite ReadOID_bytes.
Qed.

Lemma kept_extensions_filter exts : Forall (λ e, der_ok (ext_content e)) exts → ∀ fuel out,
  (length (exts_content exts) ≤ fuel)%nat →
  kept_extensions fuel (exts_content exts) out =
    Some (out ++ exts_content (filter (λ e, e.1 ≠ oidSCTList) exts)).
Proof.
  induction 1 as [|[id v] exts He _ IH]; intros fuel out Hf.
  { by destruct fuel; cbn; rewrite app_nil_r. }
  cbn [exts_content flat_map] in Hf |- *. fold (exts_content exts) in Hf |- *.
  pose proof (der_length SEQUENCE (ext_content (id, v))) as Hd. rewrite length_app in Hf.
  destruct fuel as [|fuel]; [lia|].
  destruct (der_cons SEQUENCE (ext_content (id, v)) (exts_content exts)) as (x & l & Hx & _).
  cbn [kept_extensions]. rewrite Hx, <- Hx. rewrite ReadASN1Element_der by done.
  cbn [mbind option_bind]. rewrite extensionIsSCTList_der by done. cbn [mbind option_bind].
  rewrite IH by lia. rewrite filter_cons. cbn [fst].
  destruct (decide (id = oidSCTList)) as [Heq|Hne].
  - by rewrite bool_decide_eq_true_2, decide_False by naive_solver.
  - rewrite bool_decide_eq_false_2, decide_True by done. cbn [exts_content flat_map]. by rewrite <- app_assoc.
Qed.

Lemma rewriteExtensions_filter exts : field_ok (Exts exts) →
  rewriteExtensions (field_bytes (Exts exts)) = Some (field_bytes (without_scts (Exts exts))).
Proof.
  intros (He & (H1 & H2) & H3 & H4). unfold rewriteExtensions, field_bytes.
  rewrite ReadASN1_alone by done. cbn [mbind option_bind].
  rewrite ReadASN1_alone by done. cbn [mbind option_bind].
  rewrite kept_extensions_filter by done. cbn [mbind option_bind app].
  rewrite !AddASN1_der by done. cbn [mbind option_bind]. by rewrite AddASN1_der.
Qed.

Lemma precert_fields_filter fields : Forall field_ok fields → ∀ fuel out,
  (length (tbs_content fields) ≤ fuel)%nat →
  precert_fields fuel (tbs_content fields) out = Some (out ++ tbs_content (map without_scts fields)).
Proof.
  induction 1 as [|f fields Hf _ IH]; intros fuel out Hl.
  { by destruct fuel; cbn; rewrite app_nil_r. }
  cbn [tbs_content flat_map map] in Hl |- *. fold (tbs_content fields) in Hl |- *.
  fold (tbs_content (map without_scts fields)).
  assert (Hd : ∃ t c, field_bytes f = der t c ∧ der_ok c ∧
    (if t =? extTag then rewriteExtensions (field_bytes f) else Some (field_bytes f)) =
      Some (field_bytes (without_scts f))).
  { destruct f as [t c|exts].
    - exists t, c. destruct Hf as [Hne Hc]. by rewrite (proj2 (Z.eqb_neq _ _)).
    - exists extTag, (der SEQUENCE (exts_content exts)). rewrite Z.eqb_refl.
      split_and!; [done|by destruct Hf as (_ & [] & _)|by apply rewriteExtensions_filter]. }
  destruct Hd as (t & c & Hb & Hc & Hr).
  pose proof (der_length t c) as Hlen. rewrite <- Hb in Hlen. rewrite length_app in Hl.
  destruct fuel as [|fuel]; [lia|].
  destruct (der_cons t c (tbs_content fields)) as (x & l & Hx & _). rewrite <- Hb in Hx.
  cbn [precert_fields]. rewrite Hx, <- Hx. rewrite Hb at 1. rewrite ReadAny_der by done.
  cbn [mbind option_bind]. rewrite <- Hb.
  destruct (t =? extTag).
  - rewrite Hr. cbn [mbind option_bind]. rewrite IH by lia. by rewrite app_assoc.
  - injection Hr as Hr. rewrite IH by lia. by rewrite <- Hr, app_assoc.
Qed.

(** The TBS of the pre-certificate is the certificate's with the list of
    timestamps taken out of its extensions and nothing else changed: every other
    field and every other extension is kept, in order, and re-encoded around it. *)
Theorem PrecertTBS_removes_the_SCT_list leafDER cert fields :
  ParseCertificate leafDER = Some cert →
  RawTBSCertificate cert = der SEQUENCE (tbs_content fields) →
  Forall field_ok fields → der_ok (tbs_content fields) →
  der_ok (tbs_content (map without_scts fields)) →
  PrecertTBS ParseCertificate leafDER =
    Some (der SEQUENCE (tbs_content (map without_scts fields))).
Proof.
  intros Hp Hraw Hf H1 H2. unfold PrecertTBS. rewrite Hp. cbn [mbind option_bind]. rewrite Hraw.
  rewrite ReadASN1_alone by done. cbn [mbind option_bind].
  rewrite precert_fields_filter by done. cbn [mbind option_bind app]. by apply AddASN1_der.
Qed.
End Precert.

(** ** Concrete instances, for the witnesses *)

(** [cryptobyte] on byte lists. *)
Definition cryptobyte_on_lists : CryptoByte := {|
  ReadUint8 := field_value 1;
  ReadBytes n b := if (n <=? length b)%nat then Some (take n b, drop n b) else None;
  ReadUint16LengthPrefixed b :=
    '(n, b') ← field_value 2 b;
    if Z.of_nat (length b') <? n then None else Some (take (Z.to_nat n) b', drop (Z.to_nat n) b');
  AddLengthPrefixed n l :=
    if Z.of_nat (length l) <? 256 ^ Z.of_nat n then Some (be_bytes n (Z.of_nat (length l)) ++ l) else None
|}.

Lemma cryptobyte_on_lists_laws : @CryptoByteLaws cryptobyte_on_lists.
Proof. by split. Qed.

(** DER with contents of one length byte, and identifiers as a count and arcs. *)
Definition short_der (t : Z) (c : list Z) : list Z := t :: Z.of_nat (length c) :: c.

Definition short_read (b : list Z) : option (list Z * Z * list Z) :=
  match b with
  | t :: n :: b' =>
      if Z.of_nat (length b') <? n then None
      else Some (take (Z.to_nat n) b', t, drop (Z.to_nat n) b')
  | _ => None
  end.

Definition short_asn1 : ASN1 := {|
  ReadASN1 t b := '(c, t', rest) ← short_read b; if t =? t' then Some (c, rest) else None;
  ReadASN1Element t b :=
    '(c, t', rest) ← short_read b; if t =? t' then Some (short_der t c, rest) else None;
  ReadAnyASN1Element b := '(c, t, rest) ← short_read b; Some (short_der t c, t, rest);
  ReadASN1ObjectIdentifier b :=
    match b with n :: b' => Some (take (Z.to_nat n) b', drop (Z.to_nat n) b') | [] => None end;
  AddASN1 t c := Some (short_der t c)
|}.

Definition short_oid (id : oid) : list Z := Z.of_nat (length id) :: id.

Lemma short_read_der t c rest : short_read (short_der t c ++ rest) = Some (c, t, rest).
Proof.
  unfold short_der, short_read. cbn [app]. rewrite Nat2Z.id, take_app_length, drop_app_length.
  by rewrite (proj2 (Z.ltb_ge _ _)) by (rewrite length_app; lia).
Qed.

Lemma short_asn1_laws : @ASN1Laws short_asn1 short_der (λ _, True) short_oid.
Proof.
  split; intros; cbn [ReadASN1 ReadASN1Element ReadAnyASN1Element ReadASN1ObjectIdentifier AddASN1 short_asn1];
    rewrite ?short_read_der; cbn [mbind option_bind]; rewrite ?Z.eqb_refl; try done.
  unfold short_oid. cbn [app]. by rewrite Nat2Z.id, take_app_length, drop_app_length.
Qed.

Definition sample_fields : list tbs_field :=
  [Field 2 [1; 7]; Exts [([2; 5; 29; 17], [5]); (oidSCTList, [9; 9]); ([2; 5; 29; 15], [6])]].

Definition sample_cert (_ : list Z) : option Certificate :=
  Some (mkCert [] (short_der SEQUENCE (tbs_content short_der short_oid sample_fields)) [] "").

Lemma PrecertTBS_removes_the_SCT_list_witness :
  @PrecertTBS short_asn1 sample_cert [0] =
    Some (short_der SEQUENCE (tbs_content short_der short_oid
      [Field 2 [1; 7]; Exts [([2; 5; 29; 17], [5]); ([2; 5; 29; 15], [6])]])).
Proof.
  apply (@PrecertTBS_removes_the_SCT_list short_asn1 short_der (λ _, True) short_oid short_asn1_laws
           sample_cert [0] (mkCert [] (short_der SEQUENCE (tbs_content short_der short_oid sample_fields)) [] "")
           sample_fields).
  - reflexivity.
  - reflexivity.
  - repeat constructor; discriminate.
  - exact I.
  - exact I.
Defined.

Definition sample_sct : SCT := mkSCT 0 (replicate 32 7) 1000 [].
Definition sample_sct_bytes : list Z := sct_bytes sample_sct [4; 3] [1; 2].

Lemma ParseSCT_spec_witness :
  @ParseSCT cryptobyte_on_lists sample_sct_bytes = inr sample_sct ↔
  wf_sct sample_sct ∧ ∃ alg sig, length alg = 2%nat ∧ fits 2 sig ∧ sample_sct_bytes = sct_bytes sample_sct alg sig.
Proof.
  apply (@ParseSCT_spec cryptobyte_on_lists cryptobyte_on_lists_laws).
  apply bytes_ok. reflexivity.
Defined.

(** A log that serves a tree head and has no proof for the leaf. *)
Definition sample_log : CTLog := mkLog (EncodeToString (replicate 32 7)) "https://log/" "log" false.
Definition sample_json : CTJson := {|
  json_tree_size _ := Some 5;
  json_root_hash _ := Some (EncodeToString (replicate 32 0));
  json_proof _ := None;
  json_entries _ := None
|}.
Definition sample_fetch (url : string) : St nat (option (Z * list Z)) :=
  λ n, (Some (if HasSuffix url "get-sth" then 200 else 404, []), S n).
Definition sample_reserve : St nat bool := λ n, (true, n).
Definition sample_capture : SCTCapture := mkCapture [sample_sct_bytes] [].

Lemma verifyMaterial_verdict_witness :
  let claims := omap (@claim_of cryptobyte_on_lists short_asn1 sample_cert [sample_log] [1] [])
    (@presented cryptobyte_on_lists short_asn1 sample_cert (λ _, None) [1] sample_capture) in
  let (replies, w') := @ask_logs nat sample_reserve sample_fetch cryptobyte_on_lists sample_json claims 0%nat in
  @verifyMaterial nat sample_reserve sample_fetch cryptobyte_on_lists short_asn1 sample_json sample_cert
    (λ _, None) [sample_log] [1] sample_capture [] 0%nat = (verdict <$> replies, w') ∧
  ∀ cs, replies = Some cs →
    (Outcome (verdict cs) = VerifyLogged ↔ checkIncluded ∈ cs) ∧
    (Outcome (verdict cs) = VerifyNotLogged ↔
       cs ≠ [] ∧ length cs = length claims ∧ ∀ c, c ∈ cs → c = checkNotFound).
Proof.
  apply (@verifyMaterial_verdict nat sample_reserve sample_fetch cryptobyte_on_lists short_asn1 sample_json
    sample_cert (λ _, None) [sample_log] [1] [] sample_capture 0%nat).
  vm_compute. discriminate.
Defined.

Example verifyMaterial_not_logged :
  @verifyMaterial nat sample_reserve sample_fetch cryptobyte_on_lists short_asn1 sample_json sample_cert
    (λ _, None) [sample_log] [1] sample_capture [] 0%nat =
  (Some (mkResult VerifyNotLogged "not logged in CT"), 2%nat).
Proof. vm_compute. reflexivity. Qed.
