(* ===== verification/CTTail.v ===== *)
(** * Certificate transparency: the drift tail ([internal/scan/cttail.go], [crtsh.go],
    [ctsource.go], [internal/queue/cttail.go])

    Which logs are followed, which names a certificate may admit and for which
    seed, and the poll of one log: forward from a durable cursor, in windows,
    failing whole.  The network and whether a database call succeeds are functions
    of a world [W]; the tables the poll reads and writes are a [store]. *)

From S2P Require Import Prelude GoTime GoStr GoBytes NetParse GoConv ResolutionWalk CTMerkle CTFormat CTVerify.

(** ** The logs *)

Definition nextShardHorizon : Z := 366 * 24 * Hour.

Definition laterEnd (newest : Z) (ti : option temporalInterval) : Z :=
  match ti with
  | None => newest
  | Some ti => if negb (After (EndExclusive ti) newest) then newest else EndExclusive ti
  end.

Definition tailReadableState (state : gset string) : bool :=
  bool_decide ("usable" ∈ state) || bool_decide ("readonly" ∈ state).

Definition tailCoversNow (ti : option temporalInterval) (now : Z) : bool :=
  match ti with
  | None => true
  | Some ti => After (EndExclusive ti) now && Before (StartInclusive ti) (TimeAdd now nextShardHorizon)
  end.

Definition tail_selects (now : Z) (e : logEntry) : bool :=
  tailReadableState (le_State e) && tailCoversNow (le_TemporalInterval e) now && named e.

Definition selectTailLogs (ll : logList) (now : Z) : list CTLog :=
  sort_stable (less_by log_LogID)
    (flat_map (λ op,
       map (log_of false) (filter (tail_selects now) (Logs op)) ++
       map (log_of true) (filter (tail_selects now) (TiledLogs op))) ll).

Record CTLogListSnapshot := mkSnapshot { Entries : Z; Selectable : Z; NewestEnd : Z }.

Definition CTLogListSnapshotAt (ll : logList) (now : Z) : CTLogListSnapshot :=
  let entries := flat_map (λ op, Logs op ++ TiledLogs op) ll in
  mkSnapshot (Z.of_nat (length entries)) (Z.of_nat (length (selectTailLogs ll now)))
    (foldl (λ n e, laterEnd n (le_TemporalInterval e)) zeroTime entries).

Record CTTailJob := mkTailJob { tj_ScanID : Z; tj_Log : CTLog }.
Definition BuildCTTailJobs (scanID : Z) (logs : list CTLog) : list CTTailJob := map (mkTailJob scanID) logs.

(** ** Names *)

Record CTSeed := mkSeed { SeedID : Z; Domain : string }.

Definition MaxAdmittedNames : Z := 100000.

Definition normaliseName (s : string) : string := CanonicalName (TrimSpace s).

Definition withinScope (name domain : string) : bool :=
  if String.eqb domain "" then false
  else String.eqb name domain || HasSuffix name ("." +:+ domain)%string.

Definition has_asterisk (s : string) : bool := string_existsb (λ c, Ascii.eqb c "*") s.

Definition covering_step (name : string) (best : Z * Z) (s : CTSeed) : Z * Z :=
  let d := normaliseName (Domain s) in
  if negb (withinScope name d) then best
  else if best.2 <? Z.of_nat (String.length d) then (SeedID s, Z.of_nat (String.length d)) else best.

Definition coveringSeed (name : string) (seeds : list CTSeed) : option Z :=
  let '(bestID, bestLen) := foldl (covering_step name) (0, -1) seeds in
  if 0 <=? bestLen then Some bestID else None.

Record CTAdmission := mkAdmission { Name : string; adm_SeedID : Z }.

(** One pass of the loop; a full list passes the rest by. *)
Definition admit_step (seeds : list CTSeed) (st : gset string * list CTAdmission) (raw : string)
    : gset string * list CTAdmission :=
  if MaxAdmittedNames <=? Z.of_nat (length st.2) then st
  else
    let n := normaliseName raw in
    if String.eqb n "" then st
    else if has_asterisk n then st
    else if bool_decide (n ∈ st.1) then st
    else
      match coveringSeed n seeds with
      | None => st
      | Some id => ({[ n ]} ∪ st.1, st.2 ++ [mkAdmission n id])
      end.

Definition AdmitCTNames (sans : list string) (seeds : list CTSeed) : list CTAdmission :=
  sort_stable (less_by Name) (foldl (admit_step seeds) (∅, []) sans).2.

(** [CTAdmitter], whose scope is one domain. *)
Record CTAdmitter := mkAdmitter { ad_domain : string; ad_seen : gset string; ad_out : list string }.

Definition NewCTAdmitter (domain : string) : CTAdmitter := mkAdmitter (normaliseName domain) ∅ [].

Definition Full (a : CTAdmitter) : bool := MaxAdmittedNames <=? Z.of_nat (length (ad_out a)).

Definition add_step (a : CTAdmitter) (raw : string) : CTAdmitter :=
  if Full a then a
  else
    let n := normaliseName raw in
    if String.eqb n "" then a
    else if has_asterisk n then a
    else if negb (withinScope n (ad_domain a)) then a
    else if bool_decide (n ∈ ad_seen a) then a
    else mkAdmitter (ad_domain a) ({[ n ]} ∪ ad_seen a) (ad_out a ++ [n]).

Definition Add (a : CTAdmitter) (candidates : list string) : CTAdmitter := foldl add_step a candidates.
Definition Names (a : CTAdmitter) : list string := sort_strings (ad_out a).

Record CrtshRow := mkRow { row_CommonName : string; row_NameValue : string }.

Definition crtshCandidates (rows : list CrtshRow) : list string :=
  flat_map (λ r, Split newline (row_NameValue r) ++ [row_CommonName r]) rows.

Definition AdmittedNames (rows : list CrtshRow) (domain : string) : list string :=
  Names (Add (NewCTAdmitter domain) (crtshCandidates rows)).

(** ** Entries *)

Record CTLogEntry := mkLogEntry { LeafInput : list Z; ExtraData : list Z }.

Definition ParseLogEntries `{!CTJson} (body : list Z) : option (list CTLogEntry) :=
  entries ← json_entries body;
  mapM (λ e, leaf ← DecodeString e.1; extra ← DecodeString e.2; Some (mkLogEntry leaf extra)) entries.

Inductive SANsError :=
  | LeafTooShort (n : nat) | LeafVersion (v : Z) | LeafType (t : Z)
  | BadX509Leaf (e : FrameError) | BadPrecertExtra (e : FrameError) | BadCertificate.

Section Certificates.
Variable ParseCertificate : list Z → option Certificate.

Definition CertSANs (der : list Z) : SANsError + list string :=
  match ParseCertificate der with
  | None => inl BadCertificate
  | Some cert =>
      inr (DNSNames cert ++ if String.eqb (CommonName cert) "" then [] else [CommonName cert])
  end.

Definition LeafSANs (leafInput extraData : list Z) : SANsError + list string :=
  if (length leafInput <? ctLeafHeader)%nat then inl (LeafTooShort (length leafInput))
  else if negb (leafInput !!! 0%nat =? ctLeafVersionV1) then inl (LeafVersion (leafInput !!! 0%nat))
  else if negb (leafInput !!! 1%nat =? ctLeafTypeTimestamp) then inl (LeafType (leafInput !!! 1%nat))
  else
    let entryType := Uint16 (take 2 (drop 10 leafInput)) in
    if entryType =? ctEntryX509 then
      der ← wrap_err BadX509Leaf (readOpaque24 (drop ctLeafHeader leafInput)); CertSANs der
    else if entryType =? ctEntryPrecert then
      der ← wrap_err BadPrecertExtra (readOpaque24 extraData); CertSANs der
    else inr [].

(** An entry that cannot be read gives no name and never fails the poll. *)
Definition entry_names (e : CTLogEntry) : list string :=
  match LeafSANs (LeafInput e) (ExtraData e) with inl _ => [] | inr names => names end.

Definition der_names (der : list Z) : list string :=
  match CertSANs der with inl _ => [] | inr names => names end.
End Certificates.

(** ** The window *)

Definition ctTailBatch : Z := 256.
Definition maxEntriesPerPoll : Z := 16384.

Definition ctTailShrunk (hasCursor : bool) (cursor treeSize : Z) : bool :=
  hasCursor && (treeSize <? cursor).

Definition ctTailWindow (hasCursor : bool) (cursor treeSize : Z) : Z * Z :=
  if negb hasCursor then (treeSize, treeSize)
  else
    let e := if cursor +64 maxEntriesPerPoll <? treeSize then cursor +64 maxEntriesPerPoll else treeSize in
    (cursor, e).

Definition getEntriesURL (base : string) (start e : Z) : string :=
  (base +:+ "ct/v1/get-entries?start=" +:+ FormatInt start +:+ "&end=" +:+ FormatInt e)%string.

Definition dataTileURL (base : string) (tileIdx width : Z) : string :=
  let p := DataTilePath tileIdx in
  if width <? CTTileWidth then (base +:+ "tile/data/" +:+ p +:+ ".p/" +:+ FormatInt width)%string
  else (base +:+ "tile/data/" +:+ p)%string.

(** ** A poll of one log *)

(** How a poll ends: the causes that retry or dead-letter the job, an error that
    does neither, and the new cursor with the names read. *)
Inductive Cause :=
  | HTTPCause (endpoint : string) (status : option Z)
  | BadBody (endpoint : string)
  | ShrunkBelow (size cursor : Z)
  | UnsupportedTile (EntryType : Z).

Inductive Poll :=
  | Polled (head : string) (reached : Z) (sans : list string)
  | Retry (cause : Cause)
  | DeadLetter (cause : Cause)
  | PollError
  | OutOfFuel.

Section Poll.
Context {W : Type}.
(** [reserveCTTailSlot]: the lease renewed and a slot granted. *)
Variable reserve : St W bool.
Variable fetch : string → St W (option (Z * list Z)).
Context `{!CTJson}.
Variable ParseCertificate : list Z → option Certificate.

(** A body with status 200, or the cause of its absence. *)
Definition body_or_cause (endpoint : string) (r : option (Z * list Z)) : Cause + list Z :=
  match r with
  | None => inl (HTTPCause endpoint None)
  | Some (status, body) => if negb (status =? 200) then inl (HTTPCause endpoint (Some status)) else inr body
  end.

(** The loop of [completeCTTailRFC] over [get-entries]. *)
Fixpoint rfc_loop (fuel : nat) (base head : string) (e reached : Z) (sans : list string) : St W Poll :=
  if negb (reached <? e) then mret (Polled head reached sans)
  else
    match fuel with
    | O => mret OutOfFuel
    | S fuel' =>
        let reqEnd := reached +64 ctTailBatch -64 1 in
        let reqEnd := if e -64 1 <? reqEnd then e -64 1 else reqEnd in
        granted ← reserve;
        if negb granted then mret PollError
        else
          r ← fetch (getEntriesURL base reached reqEnd);
          match body_or_cause "get-entries" r with
          | inl cause => mret (Retry cause)
          | inr body =>
              match ParseLogEntries body with
              | None => mret (Retry (BadBody "get-entries"))
              | Some [] => mret (Polled head reached sans)
              | Some entries =>
                  rfc_loop fuel' base head e (reached +64 Z.of_nat (length entries))
                    (sans ++ flat_map (entry_names ParseCertificate) entries)
              end
          end
    end.

(** The loop of [completeCTTailTiled] over data tiles. *)
Fixpoint tiled_loop (fuel : nat) (base head : string) (size e reached : Z) (sans : list string) : St W Poll :=
  if negb (reached <? e) then mret (Polled head reached sans)
  else
    match fuel with
    | O => mret OutOfFuel
    | S fuel' =>
        let tileIdx := reached ÷ CTTileWidth in
        let tileBase := tileIdx * CTTileWidth in
        let width := if size <? tileBase +64 CTTileWidth then size - tileBase else CTTileWidth in
        granted ← reserve;
        if negb granted then mret PollError
        else
          r ← fetch (dataTileURL base tileIdx width);
          match body_or_cause "tile/data" r with
          | inl cause => mret (Retry cause)
          | inr body =>
              match ParseDataTile body with
              | inl (_, UnsupportedEntryTypeError t) => mret (DeadLetter (UnsupportedTile t))
              | inl _ => mret (Retry (BadBody "tile/data"))
              | inr ders =>
                  let offset := reached - tileBase in
                  if Z.of_nat (length ders) <=? offset then mret (Polled head reached sans)
                  else
                    let limit := Z.of_nat (length ders) in
                    let limit := if e <? tileBase +64 limit then e - tileBase else limit in
                    tiled_loop fuel' base head size e (tileBase +64 limit)
                      (sans ++ flat_map (der_names ParseCertificate)
                                 (take (Z.to_nat (limit - offset)) (drop (Z.to_nat offset) ders)))
              end
          end
    end.

(** The entries of a window: each pass reads one at least. *)
Definition window_fuel (start e : Z) : nat := Z.to_nat (e - start).

(** The poll after the cursor was read: the head, the shrink check, the window. *)
Definition poll (lg : CTLog) (cursor : option Z) : St W Poll :=
  let base := ensureTrailingSlash (log_URL lg) in
  let endpoint := if log_Tiled lg then "checkpoint" else "get-sth" in
  granted ← reserve;
  if negb granted then mret PollError
  else
    r ← fetch (base +:+ if log_Tiled lg then "checkpoint" else "ct/v1/get-sth")%string;
    match body_or_cause endpoint r with
    | inl cause => mret (Retry cause)
    | inr body =>
        match (if log_Tiled lg then match ParseCheckpoint (string_of body) with inl _ => None | inr sth => Some sth end
               else ParseSTH body) with
        | None => mret (Retry (BadBody endpoint))
        | Some sth =>
            let hasCursor := bool_decide (is_Some cursor) in
            if ctTailShrunk hasCursor (default 0 cursor) (TreeSize sth)
            then mret (Retry (ShrunkBelow (TreeSize sth) (default 0 cursor)))
            else
              let '(start, e) := ctTailWindow hasCursor (default 0 cursor) (TreeSize sth) in
              if log_Tiled lg
              then tiled_loop (window_fuel start e) base (Raw sth) (TreeSize sth) e start []
              else rfc_loop (window_fuel start e) base (Raw sth) e start []
        end
    end.
End Poll.

(** ** The tables a poll reads and writes *)

Record admitted_row := mkAdmittedRow { ar_Name : string; ar_Source : string; ar_SeedID : Z; ar_Batch : Z }.
Record cursor_row := mkCursorRow { cr_TreeSize : Z; cr_SignedHead : string }.

Record store := mkStore {
  st_seeds : list CTSeed;
  st_admitted : list admitted_row;
  st_cursors : gmap string cursor_row;
  st_batches : Z
}.

Definition CTTailSource : string := "ct-tail".

(** [INSERT ... ON CONFLICT (log_id) DO UPDATE ... WHERE EXCLUDED.tree_size >=
    ct_log_cursor.tree_size]. *)
Definition AdvanceCTLogCursor (logID : string) (c : cursor_row) (m : gmap string cursor_row)
    : gmap string cursor_row :=
  match m !! logID with
  | None => <[logID := c]> m
  | Some old => if cr_TreeSize old <=? cr_TreeSize c then <[logID := c]> m else m
  end.

Definition knownNameSet (st : store) : gset string :=
  list_to_set (map Domain (st_seeds st)) ∪ list_to_set (map ar_Name (st_admitted st)).

Definition admit_row (batchID : Z) (a : CTAdmission) : admitted_row :=
  mkAdmittedRow (Name a) CTTailSource (adm_SeedID a) batchID.

(** The transaction: the set of known names is read first; the result has the
    number of admissions it already held. *)
Definition admitCTTail (lg : CTLog) (head : string) (reached : Z) (admissions : list CTAdmission)
    (st : store) : store * Z :=
  let known := knownNameSet st in
  let batchID := st_batches st + 1 in
  let drift := count_if (λ a, bool_decide (Name a ∈ known)) admissions in
  (mkStore (st_seeds st) (st_admitted st ++ map (admit_row batchID) admissions)
     (AdvanceCTLogCursor (log_LogID lg) (mkCursorRow reached head) (st_cursors st)) batchID,
   drift).

Definition exhaustedRetries (attempt maxAttempts : Z) : bool := maxAttempts <=? attempt.

(** How a job ends. *)
Inductive JobEnd :=
  | Completed (admitted drift : Z)
  | Retried (cause : Cause)
  | DeadLettered (cause : Cause)
  | Errored.

Section Complete.
Context {W : Type}.
Variable reserve : St W bool.
Variable fetch : string → St W (option (Z * list Z)).
(** Whether a database call, or a whole transaction, succeeds. *)
Variable db_ok : St W bool.
Context `{!CTJson}.
Variable ParseCertificate : list Z → option Certificate.

Definition retryOrDeadLetterCT (attempt maxAttempts : Z) (cause : Cause) : JobEnd :=
  if exhaustedRetries attempt maxAttempts then DeadLettered cause else Retried cause.

Definition completeCTTail (attempt maxAttempts : Z) (lg : CTLog) (st : store) : St W (store * JobEnd) :=
  up ← db_ok;
  if negb up then mret (st, Errored)
  else
    p ← poll reserve fetch ParseCertificate lg (cr_TreeSize <$> st_cursors st !! log_LogID lg);
    match p with
    | Retry cause => mret (st, retryOrDeadLetterCT attempt maxAttempts cause)
    | DeadLetter cause => mret (st, DeadLettered cause)
    | PollError | OutOfFuel => mret (st, Errored)
    | Polled head reached sans =>
        up ← db_ok;
        if negb up then mret (st, Errored)
        else
          let admissions := AdmitCTNames sans (st_seeds st) in
          up ← db_ok;
          if negb up then mret (st, Errored)
          else
            let '(st', drift) := admitCTTail lg head reached admissions st in
            mret (st', Completed (Z.of_nat (length admissions)) drift)
    end.
End Complete.

(** * Admission *)

(** The most specific seed, the first of those that tie. *)
Definition covers (name : string) (s : CTSeed) : Prop := withinScope name (normaliseName (Domain s)) = true.
Definition specificity (s : CTSeed) : nat := String.length (normaliseName (Domain s)).

Definition best_seed (name : string) (seeds : list CTSeed) (s : CTSeed) : Prop :=
  ∃ i, seeds !! i = Some s ∧ covers name s ∧
    (∀ j t, seeds !! j = Some t → covers name t →
      (specificity t ≤ specificity s)%nat ∧ ((j < i)%nat → (specificity t < specificity s)%nat)).

Lemma lookup_snoc_cases {A} (l : list A) x i y : (l ++ [x]) !! i = Some y →
  l !! i = Some y ∨ (i = length l ∧ y = x).
Proof.
  intros Hi. destruct (decide (i < length l)%nat).
  - left. by rewrite lookup_app_l in Hi.
  - right. rewrite lookup_app_r in Hi by lia. destruct (i - length l)%nat eqn:He; [|done].
    cbn in Hi. split; [lia|congruence].
Qed.

Lemma covering_fold name seeds :
  let best := foldl (covering_step name) (0, -1) seeds in
  (best = (0, -1) ∧ ∀ s, s ∈ seeds → ¬ covers name s) ∨
  (∃ s, best_seed name seeds s ∧ best = (SeedID s, Z.of_nat (specificity s))).
Proof.
  induction seeds as [|s seeds IH] using rev_ind.
  { left. split; [done|]. intros s Hs. by apply elem_of_nil in Hs. }
  cbv zeta in IH |- *. rewrite foldl_app. cbn [foldl].
  destruct (foldl (covering_step name) (0, -1) seeds) as [id len]. unfold covering_step. fold (specificity s).
  destruct (withinScope name (normaliseName (Domain s))) eqn:Hw; cbn [negb snd].
  - assert (Hlast : (seeds ++ [s]) !! length seeds = Some s) by apply list_lookup_middle, eq_refl.
    destruct IH as [[[= -> ->] Hno]|(b & (i & Hi & Hb & Hmax) & [= -> ->])].
    + rewrite (proj2 (Z.ltb_lt _ _)) by lia. right. exists s. split; [|done].
      exists (length seeds). split_and!; [done|done|]. intros j t Hj Ht.
      apply lookup_snoc_cases in Hj as [Hj|[-> ->]]; [|split; lia].
      destruct (Hno t); [by eapply list_elem_of_lookup_2|done].
    + assert (Hil := lookup_lt_Some _ _ _ Hi).
      destruct (Z.ltb_spec (Z.of_nat (specificity b)) (Z.of_nat (specificity s))).
      * right. exists s. split; [|done]. exists (length seeds). split_and!; [done|done|].
        intros j t Hj Ht. apply lookup_snoc_cases in Hj as [Hj|[-> ->]]; [|split; lia].
        destruct (Hmax j t Hj Ht). lia.
      * right. exists b. split; [|done]. exists i. split_and!; [by rewrite lookup_app_l|done|].
        intros j t Hj Ht. apply lookup_snoc_cases in Hj as [Hj|[-> ->]]; [by apply (Hmax j)|].
        split; [lia|]. lia.
  - destruct IH as [[Hb Hno]|(b & (i & Hi & Hb & Hmax) & Hbest)].
    + left. split; [done|]. intros t Ht. apply elem_of_app in Ht as [Ht|Ht]; [by apply Hno|].
      apply list_elem_of_singleton in Ht as ->. unfold covers. congruence.
    + right. exists b. split; [|done]. assert (Hil := lookup_lt_Some _ _ _ Hi).
      exists i. split_and!; [by rewrite lookup_app_l|done|]. intros j t Hj Ht.
      apply lookup_snoc_cases in Hj as [Hj|[-> ->]]; [by apply (Hmax j)|]. unfold covers in Ht. congruence.
Qed.

Lemma coveringSeed_spec name seeds id :
  coveringSeed name seeds = Some id ↔ ∃ s, best_seed name seeds s ∧ SeedID s = id.
Proof.
  unfold coveringSeed. pose proof (covering_fold name seeds) as Hc. cbv zeta in Hc.
  destruct (foldl _ _ _) as [bid len]. destruct Hc as [[[= -> ->] Hno]|(s & Hs & [= -> ->])].
  - cbn. split; [done|]. intros (s & (i & Hi & Hs & _) & _). destruct (Hno s); [|done].
    by eapply list_elem_of_lookup_2.
  - rewrite (proj2 (Z.leb_le _ _)) by lia. split.
    + intros [= <-]. by exists s.
    + intros (t & (i & Hi & Ht & Hmax) & <-). destruct Hs as (j & Hj & Hs & Hmax').
      destruct (Hmax j s Hj Hs) as [H1 H2], (Hmax' i t Hi Ht) as [H3 H4].
      destruct (Nat.lt_trichotomy i j) as [Hij|[->|Hij]]; [lia|congruence|lia].
Qed.

(** What one raw name admits. *)
Definition admission_of (seeds : list CTSeed) (raw : string) : option (string * CTAdmission) :=
  let n := normaliseName raw in
  if String.eqb n "" || has_asterisk n then None
  else id ← coveringSeed n seeds; Some (n, mkAdmission n id).

Lemma admit_step_dedup seeds st raw : Z.of_nat (length st.2) < MaxAdmittedNames →
  admit_step seeds st raw = dedup_step (admission_of seeds) st raw.
Proof.
  intros Hl. unfold admit_step, dedup_step, admission_of. rewrite (proj2 (Z.leb_gt _ _)) by done.
  destruct (String.eqb _ _); [done|]. cbn [orb]. destruct (has_asterisk _); [done|].
  destruct (coveringSeed _ _) as [id|]; cbn [mbind option_bind]; [done|]. by case_bool_decide.
Qed.

Definition cap : nat := Z.to_nat MaxAdmittedNames.

Lemma cap_Z : Z.of_nat cap = MaxAdmittedNames.
Proof. unfold cap, MaxAdmittedNames. apply Z2Nat.id. discriminate. Qed.

#[local] Opaque cap.

Lemma admitted_is_capped seeds sans :
  (foldl (admit_step seeds) (∅, []) sans).2 = take cap (dedup (admission_of seeds) sans).2.
Proof.
  pose proof cap_Z as Hc. generalize dependent cap. intros c Hc.
  enough (Hinv : let st := foldl (admit_step seeds) (∅, []) sans in
    let d := dedup (admission_of seeds) sans in
    st.2 = take c d.2 ∧ ((length d.2 < c)%nat → st = d)) by apply Hinv.
  induction sans as [|raw sans IH] using rev_ind; cbv zeta in *; [by destruct c|].
  rewrite foldl_app, dedup_snoc. cbn [foldl]. set (st := foldl _ _ _) in *.
  set (d := dedup (admission_of seeds) sans) in *. destruct IH as [H2 Heq].
  destruct (decide (length d.2 < c)%nat) as [Hlt|Hge].
  - rewrite (Heq Hlt). rewrite admit_step_dedup by lia.
    assert (Hl : (length (dedup_step (admission_of seeds) d raw).2 ≤ S (length d.2))%nat).
    { unfold dedup_step. destruct (admission_of seeds raw) as [[k b]|]; [|lia].
      case_bool_decide; [lia|]. cbn. rewrite length_app. simpl. lia. }
    split; [by rewrite take_ge by lia|done].
  - assert (Hst : length st.2 = c) by (rewrite H2, length_take; lia).
    unfold admit_step. rewrite (proj2 (Z.leb_le _ _)) by lia.
    assert (Hpre : ∃ k, (dedup_step (admission_of seeds) d raw).2 = d.2 ++ k).
    { unfold dedup_step. destruct (admission_of seeds raw) as [[k b]|]; [|exists []; by rewrite app_nil_r].
      case_bool_decide; [exists []; by rewrite app_nil_r|by exists [b]]. }
    destruct Hpre as [k Hk]. rewrite Hk, take_app_le by lia. split; [done|].
    rewrite length_app. lia.
Qed.

Definition admissible (seeds : list CTSeed) (raw : string) (a : CTAdmission) : Prop :=
  Name a = normaliseName raw ∧ Name a ≠ "" ∧ has_asterisk (Name a) = false ∧
  ∃ s, best_seed (Name a) seeds s ∧ SeedID s = adm_SeedID a.

Lemma admission_of_spec seeds raw n a :
  admission_of seeds raw = Some (n, a) ↔ n = Name a ∧ admissible seeds raw a.
Proof.
  unfold admission_of, admissible. destruct (String.eqb_spec (normaliseName raw) "") as [He|He].
  { cbn [orb]. split; [done|]. intros (_ & Hn & Hne & _). congruence. }
  destruct (has_asterisk (normaliseName raw)) eqn:Hs; cbn [orb].
  { split; [done|]. intros (_ & Hn & _ & Ha & _). congruence. }
  destruct (coveringSeed (normaliseName raw) seeds) as [id|] eqn:Hc; cbn [mbind option_bind].
  - pose proof (proj1 (coveringSeed_spec _ _ _) Hc) as Hb. split.
    + intros [= <- <-]. cbn. split_and!; done.
    + intros (-> & Hn & _ & _ & Hb'). destruct a as [n' id']. cbn in *. subst n'.
      apply coveringSeed_spec in Hb'. congruence.
  - split; [done|]. intros (_ & Hn & _ & _ & Hb). rewrite Hn in Hb. apply coveringSeed_spec in Hb. congruence.
Qed.

Lemma NoDup_take_prefix {A} n (l : list A) : NoDup l → NoDup (take n l).
Proof. intros Hl. rewrite <- (take_drop n l) in Hl. by apply NoDup_app in Hl as [? _]. Qed.

Lemma admission_dedup_key seeds x k b : admission_of seeds x = Some (k, b) → Name b = k.
Proof. by intros [-> _]%admission_of_spec. Qed.

Lemma admission_dedup_det seeds x y k b c :
  admission_of seeds x = Some (k, b) → admission_of seeds y = Some (k, c) → b = c.
Proof.
  unfold admission_of. intros Hx Hy.
  destruct (_ || _); [done|]. destruct (coveringSeed _ _) as [i|] eqn:Hi; [|done]. injection Hx as Hk <-.
  destruct (_ || _); [done|]. destruct (coveringSeed (normaliseName y) _) as [j|] eqn:Hj; [|done].
  injection Hy as Hk' <-. rewrite <- Hk in Hk'. rewrite Hk' in Hj |- *. rewrite Hi in Hj. by injection Hj as ->.
Qed.

Lemma dedup_admission_elem seeds sans a :
  a ∈ (dedup (admission_of seeds) sans).2 ↔ ∃ raw, raw ∈ sans ∧ admissible seeds raw a.
Proof.
  rewrite (dedup_elem _ Name); [|apply admission_dedup_key|apply admission_dedup_det].
  split; intros (raw & Hr & Ha); exists raw; (split; [exact Hr|]).
  - apply admission_of_spec in Ha as [_ Ha]. exact Ha.
  - apply (proj2 (admission_of_spec _ _ _ _)). split; [reflexivity|exact Ha].
Qed.

(** Below the cap nothing is left out. *)
Lemma AdmitCTNames_complete sans seeds raw a :
  Z.of_nat (length (AdmitCTNames sans seeds)) < MaxAdmittedNames →
  raw ∈ sans → admissible seeds raw a → a ∈ AdmitCTNames sans seeds.
Proof.
  unfold AdmitCTNames. rewrite admitted_is_capped, sort_stable_length, length_take.
  pose proof cap_Z as Hcap. intros Hl Hraw Ha. apply sort_stable_elem. rewrite take_ge by lia.
  apply dedup_admission_elem. exists raw. split; [exact Hraw|exact Ha].
Qed.

(** No more admissions than raw names. *)
Lemma AdmitCTNames_length sans seeds : (length (AdmitCTNames sans seeds) ≤ length sans)%nat.
Proof.
  unfold AdmitCTNames. rewrite admitted_is_capped, sort_stable_length, length_take.
  etransitivity; [apply Nat.le_min_r|].
  induction sans as [|x sans IH] using rev_ind; [done|]. rewrite dedup_snoc, length_app.
  unfold dedup_step. destruct (admission_of seeds x) as [[k b]|]; cbn; [|lia].
  case_bool_decide; cbn; [lia|]. rewrite length_app. simpl. lia.
Qed.

(** What a poll's certificates admit.  The admissions are sorted, name each
    name once and number at most 100,000; every one is a name some certificate
    carried, trimmed and folded, with no asterisk, inside a declared seed, and it
    cites the most specific seed that covers it (the first declared of those that
    tie); and below the cap every admissible name is there. *)
Theorem AdmitCTNames_spec sans seeds :
  let out := AdmitCTNames sans seeds in
  NoDup (map Name out) ∧ StronglySorted (not_after (less_by Name)) out ∧
  Z.of_nat (length out) ≤ MaxAdmittedNames ∧
  (∀ a, a ∈ out → ∃ raw, raw ∈ sans ∧ admissible seeds raw a) ∧
  (Z.of_nat (length out) < MaxAdmittedNames → ∀ raw a, raw ∈ sans → admissible seeds raw a → a ∈ out).
Proof.
  intros out. pose proof cap_Z as Hcap.
  assert (Hcapped := admitted_is_capped seeds sans).
  assert (Hperm := sort_stable_Permutation (less_by Name) (take cap (dedup (admission_of seeds) sans).2)).
  split_and!.
  - unfold out, AdmitCTNames. rewrite Hcapped, Hperm.
    change (map Name (take cap _)) with (fmap Name (take cap (dedup (admission_of seeds) sans).2)).
    rewrite fmap_take. apply NoDup_take_prefix.
    apply (dedup_NoDup _ Name), admission_dedup_key.
  - apply (sort_stable_Sorted _).
  - unfold out, AdmitCTNames. rewrite Hcapped, sort_stable_length, length_take. lia.
  - intros a Ha. unfold out, AdmitCTNames in Ha. rewrite Hcapped, sort_stable_elem in Ha.
    apply elem_of_take in Ha as (i & Hi & _). apply dedup_admission_elem. by eapply list_elem_of_lookup_2.
  - intros Hl raw a. exact (AdmitCTNames_complete sans seeds raw a Hl).
Qed.

(** ** One filter, two readers *)

Lemma insert_sorted_map {A} (key : A → string) x l :
  map key (insert_sorted (less_by key) x l) = insert_sorted str_less (key x) (map key l).
Proof.
  induction l as [|y l IH]; [done|]. cbn [insert_sorted map]. unfold less_by at 1.
  destruct (str_less (key y) (key x)); [|done]. cbn [map]. by rewrite IH.
Qed.

Lemma sort_by_map {A} (key : A → string) l :
  map key (sort_stable (less_by key) l) = sort_strings (map key l).
Proof.
  unfold sort_strings, sort_stable. induction l as [|x l IH]; [done|]. cbn [foldr map].
  by rewrite insert_sorted_map, IH.
Qed.

Lemma coveringSeed_one n s :
  coveringSeed n [s] = if withinScope n (normaliseName (Domain s)) then Some (SeedID s) else None.
Proof.
  unfold coveringSeed. cbn [foldl]. unfold covering_step. destruct (withinScope _ _); cbn [negb]; [|done].
  cbn [snd]. rewrite (proj2 (Z.ltb_lt _ _)), (proj2 (Z.leb_le _ _)) by lia. done.
Qed.

(** The tail and the bulk source admit alike: over the same candidates, the
    names the tail admits against one seed are the names the crt.sh admitter keeps
    for that seed's domain, in the same order, the cap included. *)
Theorem tail_and_bulk_admit_alike s rows :
  map Name (AdmitCTNames (crtshCandidates rows) [s]) = AdmittedNames rows (Domain s).
Proof.
  unfold AdmitCTNames, AdmittedNames, Names, Add. rewrite sort_by_map. f_equal.
  enough (Hinv : ∀ l, let st := foldl (admit_step [s]) (∅, []) l in
    let a := foldl add_step (NewCTAdmitter (Domain s)) l in
    ad_domain a = normaliseName (Domain s) ∧ ad_seen a = st.1 ∧ ad_out a = map Name st.2) by (symmetry; apply Hinv).
  induction l as [|raw l IH] using rev_ind; cbv zeta in *; [done|]. rewrite !foldl_app. cbn [foldl].
  set (st := foldl _ _ l) in *. set (a := foldl _ _ l) in *. destruct IH as (Hd & Hs & Ho).
  unfold admit_step, add_step, Full. rewrite Hd, Hs, Ho, length_map, coveringSeed_one.
  destruct (_ <=? _); [done|]. destruct (String.eqb _ _); [done|]. destruct (has_asterisk _); [done|].
  destruct (withinScope _ _), (bool_decide _); cbn [negb]; try done.
  cbn [ad_domain ad_seen ad_out fst snd]. split_and!; [done|done|]. by rewrite map_app.
Qed.

(** * The poll *)

Section Polls.
Context {W : Type} (reserve : St W bool) (fetch : string → St W (option (Z * list Z))).
Context `{!CTJson} (ParseCertificate : list Z → option Certificate).
Implicit Types w : W.

(** Sizes at which no sum of the poll leaves 64 bits. *)
Definition size_bound : Z := 2 ^ 62.

Lemma sum64 a b : 0 ≤ a ≤ size_bound + 16384 → 0 ≤ b ≤ 2 ^ 61 → a +64 b = a + b.
Proof. unfold size_bound. intros. apply wrap64_id. unfold in_int64, minInt64, maxInt64. lia. Qed.

Definition poll_ends (head : string) (start e : Z) (exact : bool) (p : Poll) : Prop :=
  match p with
  | Polled h reached _ => h = head ∧ start ≤ reached ∧ (exact = true → reached ≤ e)
  | OutOfFuel => False
  | _ => True
  end.

(** The loops end within their fuel whatever the log answers; the tiled one never
    passes the end of its window. *)
Lemma rfc_loop_ends fuel base head e reached sans w :
  0 ≤ reached ≤ size_bound → e ≤ size_bound → e - reached ≤ Z.of_nat fuel →
  (∀ url w body status w' entries, fetch url w = (Some (status, body), w') →
     ParseLogEntries body = Some entries → Z.of_nat (length entries) ≤ 2 ^ 61) →
  poll_ends head reached e false (rfc_loop reserve fetch ParseCertificate fuel base head e reached sans w).1.
Proof.
  intros Hr He Hf Hsz. revert reached sans w Hr Hf.
  induction fuel as [|fuel IH]; intros reached sans w Hr Hf; cbn [rfc_loop];
    (destruct (Z.ltb_spec reached e) as [Hlt|]; cbn [negb]; [|cbn; split; [done|lia]]); [lia|].
  unfold mbind, St_bind, mret, St_ret. destruct (reserve w) as [[] w1]; cbn [negb]; [|done].
  set (url := getEntriesURL _ _ _). destruct (fetch url w1) as [[[status body]|] w2] eqn:Hfe; [|done].
  unfold body_or_cause. destruct (status =? 200); cbn [negb]; [|done].
  destruct (ParseLogEntries body) as [[|x entries]|] eqn:Hp; [cbn; split; [done|lia]| |done].
  pose proof (Hsz _ _ _ _ _ _ Hfe Hp) as Hlen.
  rewrite sum64 by lia. set (n := Z.of_nat (length (x :: entries))) in *.
  assert (Hn : 1 ≤ n) by (unfold n; simpl; lia).
  destruct (decide (reached + n ≤ size_bound)) as [Hle|Hgt].
  - specialize (IH (reached + n) (sans ++ flat_map (entry_names ParseCertificate) (x :: entries)) w2
      ltac:(lia) ltac:(lia)).
    destruct (rfc_loop _ _ _ _ _ _ _ _ _ _) as [[] w3]; cbn in *; try done. destruct IH as (-> & ? & ?). split; [done|lia].
  - assert (Hend : ∀ f, rfc_loop reserve fetch ParseCertificate f base head e (reached + n)
      (sans ++ flat_map (entry_names ParseCertificate) (x :: entries)) w2 =
      (Polled head (reached + n) (sans ++ flat_map (entry_names ParseCertificate) (x :: entries)), w2)).
    { intros f. destruct f; cbn [rfc_loop]; by rewrite (proj2 (Z.ltb_ge _ _)) by lia. }
    rewrite Hend. cbn. split; [done|lia].
Qed.

Lemma tiled_loop_ends fuel base head size e reached sans w :
  0 ≤ reached → reached ≤ e → e ≤ size_bound → e - reached ≤ Z.of_nat fuel →
  (∀ url w body status w' ders, fetch url w = (Some (status, body), w') →
     ParseDataTile body = inr ders → Z.of_nat (length ders) ≤ 2 ^ 61) →
  poll_ends head reached e true
    (tiled_loop reserve fetch ParseCertificate fuel base head size e reached sans w).1.
Proof.
  intros Hr He Hs Hf Hsz. revert reached sans w Hr He Hf.
  induction fuel as [|fuel IH]; intros reached sans w Hr He Hf; cbn [tiled_loop];
    (destruct (Z.ltb_spec reached e) as [Hlt|]; cbn [negb]; [|cbn; split; [done|lia]]); [lia|].
  unfold mbind, St_bind, mret, St_ret. destruct (reserve w) as [[] w1]; cbn [negb]; [|done].
  set (url := dataTileURL _ _ _). destruct (fetch url w1) as [[[status body]|] w2] eqn:Hfe; [|done].
  unfold body_or_cause. destruct (status =? 200); cbn [negb]; [|done].
  destruct (ParseDataTile body) as [[k []]|ders] eqn:Hp; try done.
  pose proof (Hsz _ _ _ _ _ _ Hfe Hp) as Hlen.
  rewrite Z.quot_div_nonneg by (unfold CTTileWidth; lia).
  set (tb := reached / CTTileWidth * CTTileWidth).
  assert (Htb : tb ≤ reached < tb + 256).
  { unfold tb, CTTileWidth. pose proof (Z.div_mod reached 256). pose proof (Z.mod_pos_bound reached 256). lia. }
  assert (Htb0 : 0 ≤ tb) by (unfold tb, CTTileWidth; pose proof (Z.div_pos reached 256); lia).
  destruct (Z.leb_spec (Z.of_nat (length ders)) (reached - tb)); [cbn; split; [done|lia]|].
  rewrite !(sum64 tb (Z.of_nat (length ders))) by lia.
  set (limit := if e <? _ then _ else _).
  assert (Hlim : reached - tb < limit ∧ tb + limit ≤ e ∧ limit ≤ 2 ^ 61).
  { unfold limit. destruct (Z.ltb_spec e (tb + Z.of_nat (length ders))); lia. }
  rewrite sum64 by lia.
  specialize (IH (tb + limit) (sans ++ flat_map (der_names ParseCertificate)
    (take (Z.to_nat (limit - (reached - tb))) (drop (Z.to_nat (reached - tb)) ders))) w2 ltac:(lia) ltac:(lia) ltac:(lia)).
  destruct (tiled_loop _ _ _ _ _ _ _ _ _ _ _) as [[] w3]; cbn in *; try done. destruct IH as (-> & ? & ?). split; [done|lia].
Qed.

(** ** A log that serves its entries *)

(** [N] has the names of each entry of the log, in order. *)
Definition granted : Prop := ∀ w, ∃ w', reserve w = (true, w').

Definition serves_head (lg : CTLog) (N : list (list string)) : Prop :=
  let base := ensureTrailingSlash (log_URL lg) in
  ∀ w, ∃ body w' sth, TreeSize sth = Z.of_nat (length N) ∧
    if log_Tiled lg
    then fetch (base +:+ "checkpoint")%string w = (Some (200, body), w') ∧
         ParseCheckpoint (string_of body) = inr sth
    else fetch (base +:+ "ct/v1/get-sth")%string w = (Some (200, body), w') ∧ ParseSTH body = Some sth.

(** RFC 6962: a range inside the tree gives a non-empty prefix of its entries. *)
Definition serves_ranges (lg : CTLog) (N : list (list string)) : Prop :=
  ∀ a b w, 0 ≤ a ≤ b → b < Z.of_nat (length N) →
    ∃ body w' entries n, fetch (getEntriesURL (ensureTrailingSlash (log_URL lg)) a b) w = (Some (200, body), w') ∧
      ParseLogEntries body = Some entries ∧ 0 < n ≤ b - a + 1 ∧
      map (entry_names ParseCertificate) entries = take (Z.to_nat n) (drop (Z.to_nat a) N).

(** static-ct-api: a data tile has all of its entries below the tree size. *)
Definition serves_tiles (lg : CTLog) (N : list (list string)) : Prop :=
  ∀ idx w, 0 ≤ idx → let tb := idx * 256 in tb < Z.of_nat (length N) →
    let width := Z.min 256 (Z.of_nat (length N) - tb) in
    ∃ body w' ders, fetch (dataTileURL (ensureTrailingSlash (log_URL lg)) idx width) w = (Some (200, body), w') ∧
      ParseDataTile body = inr ders ∧
      map (der_names ParseCertificate) ders = take (Z.to_nat width) (drop (Z.to_nat tb) N).

Definition honest (lg : CTLog) (N : list (list string)) : Prop :=
  granted ∧ serves_head lg N ∧ if log_Tiled lg then serves_tiles lg N else serves_ranges lg N.

(** The entries from one index up to another. *)
Definition between (a b : Z) (N : list (list string)) : list string :=
  concat (take (Z.to_nat (b - a)) (drop (Z.to_nat a) N)).

Lemma between_empty a N : between a a N = [].
Proof. unfold between. by rewrite Z.sub_diag, take_0. Qed.

Lemma between_split a b c N : 0 ≤ a ≤ b → b ≤ c →
  between a c N = between a b N ++ between b c N.
Proof.
  intros Hab Hbc. unfold between. rewrite <- concat_app. f_equal.
  replace (Z.to_nat (c - a)) with (Z.to_nat (b - a) + Z.to_nat (c - b))%nat by lia.
  replace (Z.to_nat b) with (Z.to_nat a + Z.to_nat (b - a))%nat by lia.
  rewrite <- (drop_drop N), take_take_drop. done.
Qed.

Lemma flat_map_concat {A B} (f : A → list B) l : flat_map f l = concat (map f l).
Proof. induction l as [|x l IH]; [done|]. cbn. by rewrite IH. Qed.

Lemma rfc_loop_honest lg N fuel head e reached sans w :
  granted → serves_ranges lg N → Z.of_nat (length N) ≤ size_bound →
  0 ≤ reached ≤ e → e ≤ Z.of_nat (length N) → e - reached ≤ Z.of_nat fuel →
  ∃ w', rfc_loop reserve fetch ParseCertificate fuel (ensureTrailingSlash (log_URL lg)) head e reached sans w =
    (Polled head e (sans ++ between reached e N), w').
Proof.
  intros Hg Hs Hb. revert reached sans w. induction fuel as [|fuel IH]; intros reached sans w Hr He Hf;
    cbn [rfc_loop]; (destruct (Z.ltb_spec reached e) as [Hlt|Hge]; cbn [negb];
    [|replace reached with e by lia; rewrite between_empty, app_nil_r; by exists w]); [lia|].
  unfold mbind, St_bind, mret, St_ret. destruct (Hg w) as [w1 ->]. cbn [negb].
  unfold size_bound in Hb. rewrite (sum64 reached) by (unfold size_bound, ctTailBatch; lia).
  assert (Hsub : ∀ z, 0 < z ≤ 2 ^ 62 + 256 → z -64 1 = z - 1).
  { intros z Hz. apply wrap64_id. unfold in_int64, minInt64, maxInt64. lia. }
  rewrite !Hsub by (unfold ctTailBatch; lia).
  set (b := if _ <? _ then _ else _).
  assert (Hbb : reached ≤ b < e ∧ b < reached + 256).
  { unfold b, ctTailBatch. destruct (Z.ltb_spec (e - 1) (reached + 256 - 1)); lia. }
  destruct (Hs reached b w1) as (body & w2 & entries & n & -> & Hp & Hn & Hmap); [lia|lia|].
  change (body_or_cause _ (Some (200, body))) with (inr body : Cause + list Z). cbn iota. rewrite Hp.
  assert (Hlen : length entries = Z.to_nat n).
  { rewrite <- (length_map (entry_names ParseCertificate)), Hmap, length_take, length_drop. lia. }
  destruct entries as [|x entries]; [simpl in Hlen; lia|]. set (l := x :: entries) in *.
  assert (Hnz : Z.of_nat (length l) = n) by lia. rewrite Hnz, sum64 by (unfold size_bound; lia).
  destruct (IH (reached + n) (sans ++ flat_map (entry_names ParseCertificate) l) w2) as [w3 ->]; [lia..|].
  exists w3. do 2 f_equal. rewrite flat_map_concat, Hmap, (between_split reached (reached + n) e) by lia.
  rewrite <- app_assoc. do 2 f_equal. unfold between. by replace (reached + n - reached) with n by lia.
Qed.

Lemma tiled_loop_honest lg N fuel head e reached sans w :
  granted → serves_tiles lg N → Z.of_nat (length N) ≤ size_bound →
  0 ≤ reached ≤ e → e ≤ Z.of_nat (length N) → e - reached ≤ Z.of_nat fuel →
  ∃ w', tiled_loop reserve fetch ParseCertificate fuel (ensureTrailingSlash (log_URL lg)) head
      (Z.of_nat (length N)) e reached sans w =
    (Polled head e (sans ++ between reached e N), w').
Proof.
  intros Hg Hs Hb. revert reached sans w. induction fuel as [|fuel IH]; intros reached sans w Hr He Hf;
    cbn [tiled_loop]; (destruct (Z.ltb_spec reached e) as [Hlt|Hge]; cbn [negb];
    [|replace reached with e by lia; rewrite between_empty, app_nil_r; by exists w]); [lia|].
  unfold mbind, St_bind, mret, St_ret. destruct (Hg w) as [w1 ->]. cbn [negb].
  rewrite Z.quot_div_nonneg by (unfold CTTileWidth; lia). unfold CTTileWidth.
  set (idx := reached / 256). set (tb := idx * 256).
  assert (Htb : 0 ≤ idx ∧ tb ≤ reached < tb + 256).
  { unfold tb, idx. pose proof (Z.div_mod reached 256). pose proof (Z.mod_pos_bound reached 256).
    pose proof (Z.div_pos reached 256). lia. }
  unfold size_bound in Hb. rewrite (sum64 tb 256) by (unfold size_bound; lia).
  set (S := Z.of_nat (length N)) in *.
  assert (Hw : (if S <? tb + 256 then S - tb else 256) = Z.min 256 (S - tb)).
  { destruct (Z.ltb_spec S (tb + 256)); lia. }
  rewrite Hw. destruct (Hs idx w1) as (body & w2 & ders & Hfe & Hp & Hmap); [lia|fold tb S; lia|].
  fold tb S in Hfe, Hmap. rewrite Hfe.
  change (body_or_cause _ (Some (200, body))) with (inr body : Cause + list Z). cbn iota. rewrite Hp.
  assert (Hlen : length ders = Z.to_nat (Z.min 256 (S - tb))).
  { rewrite <- (length_map (der_names ParseCertificate)), Hmap, length_take, length_drop. lia. }
  rewrite (proj2 (Z.leb_gt _ _)) by lia. rewrite !(sum64 tb (Z.of_nat _)) by (unfold size_bound; lia).
  set (limit := if e <? _ then _ else _).
  assert (Hlim : tb + limit = Z.min e (tb + Z.of_nat (length ders))).
  { unfold limit. destruct (Z.ltb_spec e (tb + Z.of_nat (length ders))); lia. }
  rewrite sum64 by (unfold size_bound; lia). set (r' := tb + limit) in *.
  destruct (IH r' (sans ++ flat_map (der_names ParseCertificate)
    (take (Z.to_nat (limit - (reached - tb))) (drop (Z.to_nat (reached - tb)) ders))) w2) as [w3 ->]; [lia..|].
  exists w3. do 2 f_equal. rewrite (between_split reached r' e), <- app_assoc by lia. do 2 f_equal.
  rewrite flat_map_concat. unfold between. f_equal.
  rewrite <- firstn_map, <- skipn_map, Hmap, skipn_firstn_comm, take_take, drop_drop.
  f_equal; [lia|]. f_equal. lia.
Qed.

(** The window of a cursor below the head. *)
Lemma ctTailWindow_spec c S : 0 ≤ c ≤ S → S ≤ size_bound →
  ctTailWindow true c S = (c, Z.min S (c + maxEntriesPerPoll)).
Proof.
  intros Hc HS. unfold ctTailWindow, maxEntriesPerPoll. cbn [negb].
  rewrite sum64 by (unfold size_bound in *; lia). f_equal. destruct (Z.ltb_spec (c + 16384) S); lia.
Qed.

Lemma poll_honest_forward lg N c w : honest lg N → Z.of_nat (length N) ≤ size_bound →
  0 ≤ c ≤ Z.of_nat (length N) →
  ∃ head w', poll reserve fetch ParseCertificate lg (Some c) w =
    (let e := Z.min (Z.of_nat (length N)) (c + maxEntriesPerPoll) in Polled head e (between c e N), w').
Proof.
  intros (Hg & Hh & Hs) HN Hc. unfold poll, mbind, St_bind, mret, St_ret.
  destruct (Hg w) as [w1 ->]. cbn [negb].
  destruct (Hh w1) as (body & w2 & sth & Hsize & Hhead). unfold serves_head in Hhead.
  set (e := Z.min (Z.of_nat (length N)) (c + maxEntriesPerPoll)).
  assert (Hfe : fetch (ensureTrailingSlash (log_URL lg) +:+
      (if log_Tiled lg then "checkpoint" else "ct/v1/get-sth"))%string w1 = (Some (200, body), w2))
    by (by destruct (log_Tiled lg), Hhead).
  rewrite Hfe. change (body_or_cause _ (Some (200, body))) with (inr body : Cause + list Z). cbn iota.
  assert (Hparse : (if log_Tiled lg
      then match ParseCheckpoint (string_of body) with inl _ => None | inr sth => Some sth end
      else ParseSTH body) = Some sth).
  { destruct (log_Tiled lg), Hhead as [_ Hp]; [by rewrite Hp|done]. }
  rewrite Hparse. rewrite bool_decide_eq_true_2 by eauto. cbn [default from_option id]. rewrite Hsize.
  unfold ctTailShrunk. rewrite (proj2 (Z.ltb_ge _ _)) by lia. cbn [andb].
  rewrite ctTailWindow_spec by lia. fold e.
  assert (He : c ≤ e ≤ Z.of_nat (length N)) by (unfold e, maxEntriesPerPoll; lia).
  destruct (log_Tiled lg).
  - destruct (tiled_loop_honest lg N (window_fuel c e) (Raw sth) e c [] w2) as [w3 ->];
      [done|done|lia..|unfold window_fuel; lia|]. by exists (Raw sth), w3.
  - destruct (rfc_loop_honest lg N (window_fuel c e) (Raw sth) e c [] w2) as [w3 ->];
      [done|done|lia..|unfold window_fuel; lia|]. by exists (Raw sth), w3.
Qed.

(** [C37] Every poll of a cursor at most 2^62 - 16384 ends, whatever the log
    answers: within the fuel of its window, in an error, a retry, a dead letter or
    a new cursor, which is not behind the old one; and the cursor of a tiled poll
    is never past the size in the head that is stored with it.  Without a stored
    cursor the same holds of any head.  (Beyond the bound the sums of a window wrap:
    [last_tile_wraps] below.)  An answer holds at most 2^61 entries. *)
Theorem poll_ends_forward lg cursor w :
  (∀ c, cursor = Some c → 0 ≤ c ≤ size_bound - 16384) →
  (∀ url w body status w' entries, fetch url w = (Some (status, body), w') →
     ParseLogEntries body = Some entries → Z.of_nat (length entries) ≤ 2 ^ 61) →
  (∀ url w body status w' ders, fetch url w = (Some (status, body), w') →
     ParseDataTile body = inr ders → Z.of_nat (length ders) ≤ 2 ^ 61) →
  match (poll reserve fetch ParseCertificate lg cursor w).1 with
  | Polled head reached _ =>
      default 0 cursor ≤ reached ∧
      (log_Tiled lg = true → ∀ sth, ParseCheckpoint head = inr sth → reached ≤ TreeSize sth)
  | OutOfFuel => False
  | _ => True
  end.
Proof.
  intros Hc He Ht. unfold poll, mbind, St_bind, mret, St_ret.
  destruct (reserve w) as [[] w1]; cbn [negb]; [|done].
  destruct (fetch _ w1) as [[[status body]|] w2]; [|done].
  unfold body_or_cause. destruct (status =? 200); cbn [negb]; [|done].
  set (parsed := if log_Tiled lg then _ else _). destruct parsed as [sth|] eqn:Hp; [|done].
  assert (Hnn : 0 ≤ TreeSize sth ∧
    (log_Tiled lg = true → ParseCheckpoint (Raw sth) = inr sth)).
  { unfold parsed in Hp. destruct (log_Tiled lg).
    - destruct (ParseCheckpoint (string_of body)) as [|sth'] eqn:Hck; [done|]. injection Hp as ->.
      pose proof Hck as Hck'. unfold ParseCheckpoint in Hck. destruct (_ <? _)%nat; [done|].
      destruct (ParseInt _) as [size|]; [|done]. destruct (Z.ltb_spec size 0); [done|].
      injection Hck as <-. done.
    - unfold ParseSTH in Hp. destruct (json_tree_size body) as [size|]; [|done]. cbn in Hp.
      destruct (Z.ltb_spec size 0); [done|]. by injection Hp as <-. }
  clear parsed Hp. destruct Hnn as [Hnn Hck].
  destruct cursor as [c|].
  - rewrite bool_decide_eq_true_2 by eauto. cbn [default from_option id].
    specialize (Hc c eq_refl). unfold ctTailShrunk. cbn [andb].
    destruct (Z.ltb_spec (TreeSize sth) c); [done|].
    unfold ctTailWindow, maxEntriesPerPoll. cbn [negb]. unfold size_bound in Hc.
    rewrite sum64 by (unfold size_bound; lia).
    set (e := if _ <? _ then _ else _).
    assert (Hee : c ≤ e ≤ TreeSize sth ∧ e ≤ c + 16384).
    { unfold e. destruct (Z.ltb_spec (c + 16384) (TreeSize sth)); lia. }
    destruct (log_Tiled lg).
    + pose proof (tiled_loop_ends (window_fuel c e) (ensureTrailingSlash (log_URL lg)) (Raw sth)
        (TreeSize sth) e c [] w2) as Hl. unfold window_fuel, size_bound in *.
      specialize (Hl ltac:(lia) ltac:(lia) ltac:(lia) ltac:(lia) Ht).
      destruct (tiled_loop _ _ _ _ _ _ _ _ _ _ _) as [[h r sans| | | |] w3]; cbn in *; try done.
      destruct Hl as (-> & ? & Hre). split; [done|]. intros _ sth' Hsth'.
      specialize (Hck eq_refl). rewrite Hck in Hsth'. injection Hsth' as <-. specialize (Hre eq_refl). lia.
    + pose proof (rfc_loop_ends (window_fuel c e) (ensureTrailingSlash (log_URL lg)) (Raw sth)
        e c [] w2) as Hl. unfold window_fuel, size_bound in *.
      specialize (Hl ltac:(lia) ltac:(lia) ltac:(lia) He).
      destruct (rfc_loop _ _ _ _ _ _ _ _ _ _) as [[h r sans| | | |] w3]; cbn in *; try done.
      destruct Hl as (-> & ? & _). done.
  - rewrite bool_decide_eq_false_2 by (by intros [? ?]). unfold ctTailShrunk, ctTailWindow.
    cbn [andb negb default from_option]. unfold window_fuel. rewrite Z.sub_diag.
    destruct (log_Tiled lg); change (Z.to_nat 0) with 0%nat; cbn [tiled_loop rfc_loop]; rewrite Z.ltb_irrefl; cbn [negb fst];
      (split; [done|]); [|done].
    intros _ sth' Hsth'. rewrite (Hck eq_refl) in Hsth'. injection Hsth' as <-. lia.
Qed.
End Polls.

(** * The cursor *)

Lemma AdvanceCTLogCursor_monotone id c m k old : m !! k = Some old →
  ∃ new, AdvanceCTLogCursor id c m !! k = Some new ∧ cr_TreeSize old ≤ cr_TreeSize new ∧
    (k ≠ id → new = old).
Proof.
  intros Hk. unfold AdvanceCTLogCursor. destruct (decide (k = id)) as [->|Hne].
  - rewrite Hk. destruct (Z.leb_spec (cr_TreeSize old) (cr_TreeSize c)).
    + exists c. by rewrite lookup_insert_eq.
    + exists old. by rewrite Hk.
  - exists old. destruct (m !! id) as [o|]; [destruct (_ <=? _)|]; rewrite ?lookup_insert_ne by done; done.
Qed.

Section Runs.
Context {W : Type} (reserve : St W bool) (fetch : string → St W (option (Z * list Z))) (db_ok : St W bool).
Context `{!CTJson} (ParseCertificate : list Z → option Certificate).
Context (attempt maxAttempts : Z).
Implicit Types w : W.

#[local] Notation complete := (completeCTTail reserve fetch db_ok ParseCertificate attempt maxAttempts).

(** A poll is all or nothing.  Unless it completes, no table changes: a failed
    poll moves no cursor and admits no name.  When it completes, it appends one row
    per admission under a new batch and nothing else to the admitted names, it
    counts as drift exactly the admissions known before it began, no log's cursor
    goes back, and no other log's cursor moves. *)
Theorem completeCTTail_all_or_nothing lg st w :
  let '((st', how), _) := complete lg st w in
  match how with
  | Completed n drift =>
      ∃ admissions, Z.of_nat (length admissions) = n ∧
        st_admitted st' = st_admitted st ++ map (admit_row (st_batches st')) admissions ∧
        st_batches st' = st_batches st + 1 ∧ st_seeds st' = st_seeds st ∧
        drift = count_if (λ a, bool_decide (Name a ∈ knownNameSet st)) admissions ∧
        is_Some (st_cursors st' !! log_LogID lg) ∧
        (∀ k old, st_cursors st !! k = Some old →
           ∃ new, st_cursors st' !! k = Some new ∧ cr_TreeSize old ≤ cr_TreeSize new ∧
             (k ≠ log_LogID lg → new = old))
  | _ => st' = st
  end.
Proof.
  unfold completeCTTail, mbind, St_bind, mret, St_ret.
  destruct (db_ok w) as [[] w1]; cbn [negb]; [|done].
  destruct (poll _ _ _ _ _ w1) as [[head reached sans|cause|cause| |] w2]; try done.
  - destruct (db_ok w2) as [[] w3]; cbn [negb]; [|done]. destruct (db_ok w3) as [[] w4]; cbn [negb]; [|done].
    cbn. eexists. split_and!; try done.
    + unfold AdvanceCTLogCursor. destruct (st_cursors st !! log_LogID lg) as [o|] eqn:Ho;
        [destruct (_ <=? _)|]; rewrite ?lookup_insert_eq, ?Ho; eauto.
    + intros k old Hk. by apply AdvanceCTLogCursor_monotone.
  - unfold retryOrDeadLetterCT. by destruct (exhaustedRetries _ _).
Qed.

(** The poll of one log, run over and over. *)
Fixpoint tail_runs (k : nat) (lg : CTLog) (st : store) : St W store :=
  match k with
  | O => mret st
  | S k' => r ← complete lg st; tail_runs k' lg r.1
  end.

(** A step on an honest log. *)
Lemma complete_honest lg N st c w : (∀ w, ∃ w', db_ok w = (true, w')) →
  honest reserve fetch ParseCertificate lg N → Z.of_nat (length N) ≤ size_bound →
  cr_TreeSize <$> st_cursors st !! log_LogID lg = Some c → 0 ≤ c ≤ Z.of_nat (length N) →
  let e := Z.min (Z.of_nat (length N)) (c + maxEntriesPerPoll) in
  let admissions := AdmitCTNames (between c e N) (st_seeds st) in
  ∃ st' how w', complete lg st w = (st', how, w') ∧ st_seeds st' = st_seeds st ∧
    cr_TreeSize <$> st_cursors st' !! log_LogID lg = Some e ∧
    st_admitted st' = st_admitted st ++ map (admit_row (st_batches st')) admissions.
Proof.
  intros Hdb Hh HN Hc Hle e admissions. unfold completeCTTail, mbind, St_bind, mret, St_ret.
  destruct (Hdb w) as [w1 ->]. cbn [negb]. rewrite Hc.
  destruct (poll_honest_forward reserve fetch ParseCertificate lg N c w1 Hh HN Hle) as (head & w2 & Hp).
  rewrite Hp. cbv zeta. fold e. destruct (Hdb w2) as [w3 ->]. cbn [negb]. destruct (Hdb w3) as [w4 ->]. cbn [negb].
  cbn. eexists _, _, _. split; [reflexivity|]. cbn. split_and!; [done| |done].
  apply fmap_Some in Hc as (old & Hold & ->). unfold AdvanceCTLogCursor. rewrite Hold. cbn [cr_TreeSize].
  rewrite (proj2 (Z.leb_le _ _)) by (unfold e, maxEntriesPerPoll; lia). by rewrite lookup_insert_eq.
Qed.

(** [C36] The tail catches up.  On a log that serves what it signed (get-entries or
    data tiles), with slots granted and a database that answers, run after run
    moves the cursor forward by whole windows until it stands at the tree size and
    no further, and takes back no row; and where moreover no window carries 100,000
    names, every admissible name logged between the two cursors has a row, citing
    its most specific seed. *)
Theorem tail_catches_up lg N st c k w : (∀ w, ∃ w', db_ok w = (true, w')) →
  honest reserve fetch ParseCertificate lg N → Z.of_nat (length N) ≤ size_bound →
  cr_TreeSize <$> st_cursors st !! log_LogID lg = Some c → 0 ≤ c ≤ Z.of_nat (length N) →
  ∃ st' w', tail_runs k lg st w = (st', w') ∧
    let e := Z.min (Z.of_nat (length N)) (c + Z.of_nat k * maxEntriesPerPoll) in
    cr_TreeSize <$> st_cursors st' !! log_LogID lg = Some e ∧
    (∀ row, row ∈ st_admitted st → row ∈ st_admitted st') ∧
    ((∀ a b, 0 ≤ a ≤ b → b - a ≤ maxEntriesPerPoll → Z.of_nat (length (between a b N)) < MaxAdmittedNames) →
     ∀ raw a, raw ∈ between c e N → admissible (st_seeds st) raw a →
       ∃ row, row ∈ st_admitted st' ∧ ar_Name row = Name a ∧ ar_SeedID row = adm_SeedID a).
Proof.
  intros Hdb Hh HN. revert st c w. induction k as [|k IH]; intros st c w Hc Hle.
  { exists st, w. split; [done|]. cbv zeta. replace (Z.min _ _) with c by lia. do 2 (split; [done|]).
    intros _ raw a Hraw. rewrite between_empty in Hraw. by apply elem_of_nil in Hraw. }
  cbn [tail_runs]. unfold mbind, St_bind.
  destruct (complete_honest lg N st c w Hdb Hh HN Hc Hle) as (st1 & how & w1 & -> & Hsd & Hc1 & Hadm).
  set (e1 := Z.min (Z.of_nat (length N)) (c + maxEntriesPerPoll)) in *. cbn [fst].
  assert (He1 : c ≤ e1 ≤ Z.of_nat (length N)) by (unfold e1, maxEntriesPerPoll; lia).
  destruct (IH st1 e1 w1 Hc1 ltac:(lia)) as (st' & w' & -> & Hc' & Hkeep & Hrows).
  replace (Z.min (Z.of_nat (length N)) (c + Z.of_nat (S k) * maxEntriesPerPoll))
    with (Z.min (Z.of_nat (length N)) (e1 + Z.of_nat k * maxEntriesPerPoll))
    by (unfold e1, maxEntriesPerPoll; lia).
  set (e := Z.min _ (e1 + _)) in *. exists st', w'. split; [done|]. cbv zeta. split; [done|]. split.
  { intros row Hrow. apply Hkeep. rewrite Hadm. apply elem_of_app. by left. }
  intros Hcap raw a Hraw Ha. assert (He : e1 ≤ e) by (unfold e, maxEntriesPerPoll; lia).
  rewrite (between_split c e1 e) in Hraw by lia. apply elem_of_app in Hraw as [Hraw|Hraw].
  - exists (admit_row (st_batches st1) a). split; [|done]. apply Hkeep. rewrite Hadm. apply elem_of_app. right.
    apply list_elem_of_fmap_2, (AdmitCTNames_complete _ _ raw); [|exact Hraw|exact Ha].
    pose proof (AdmitCTNames_length (between c e1 N) (st_seeds st)).
    pose proof (Hcap c e1 ltac:(lia) ltac:(unfold e1; lia)). lia.
  - rewrite Hsd in Hrows. exact (Hrows Hcap raw a Hraw Ha).
Qed.
End Runs.

(** ** A log of one entry, for the witnesses *)

Definition one_entry : list Z := [0; 0] ++ replicate 8 0 ++ [0; 0] ++ [0; 0; 1; 48].
Definition one_json : CTJson := {|
  json_tree_size _ := Some 1;
  json_root_hash _ := None;
  json_proof _ := None;
  json_entries _ := Some [(EncodeToString one_entry, "")]
|}.
Definition one_cert (_ : list Z) : option Certificate := Some (mkCert [] [] ["WWW.Example.com."] "").
Definition one_reserve : St unit bool := λ w, (true, w).
Definition one_fetch (_ : string) : St unit (option (Z * list Z)) := λ w, (Some (200, []), w).
Definition one_log : CTLog := mkLog "id" "https://log" "" false.
Definition one_N : list (list string) := [["WWW.Example.com."]].
Definition one_store : store :=
  mkStore [mkSeed 4 "example.com"] [] {["id" := mkCursorRow 0 ""]} 0.

Lemma one_honest : @honest unit one_reserve one_fetch one_json one_cert one_log one_N.
Proof.
  split; [intros w; by exists w|]. split.
  - intros w. exists [], w, (mkSTH 1 ""). split; [done|]. split; reflexivity.
  - intros a b w Ha Hb. change (Z.of_nat (length one_N)) with 1 in Hb.
    assert (a = 0) as -> by lia. assert (b = 0) as -> by lia.
    exists [], w, [mkLogEntry one_entry []], 1. split_and!; [reflexivity|reflexivity|lia|lia|reflexivity].
Qed.

Lemma poll_ends_forward_witness :
  match (@poll unit one_reserve one_fetch one_json one_cert one_log (Some 0) tt).1 with
  | Polled head reached _ =>
      0 ≤ reached ∧ (false = true → ∀ sth, ParseCheckpoint head = inr sth → reached ≤ TreeSize sth)
  | OutOfFuel => False
  | _ => True
  end.
Proof.
  apply (@poll_ends_forward unit one_reserve one_fetch one_json one_cert one_log (Some 0) tt).
  - intros c [= <-]. unfold size_bound. lia.
  - intros url w body status w' entries Hf Hp. injection Hf as <- <- _.
    assert (He : ParseLogEntries (H := one_json) [] = Some [mkLogEntry one_entry []]) by reflexivity.
    rewrite He in Hp. injection Hp as <-. cbn. lia.
  - intros url w body status w' ders Hf Hp. injection Hf as <- <- _. injection Hp as <-. cbn. lia.
Defined.

Lemma tail_catches_up_witness :
  ∃ st' w', @tail_runs unit one_reserve one_fetch (λ w, (true, w)) one_json one_cert 1 5 1 one_log one_store tt
      = (st', w') ∧
    cr_TreeSize <$> st_cursors st' !! "id" = Some 1 ∧
    (∀ row, row ∈ [] → row ∈ st_admitted st') ∧
    ((∀ a b, 0 ≤ a ≤ b → b - a ≤ maxEntriesPerPoll → Z.of_nat (length (between a b one_N)) < MaxAdmittedNames) →
     ∀ raw a, raw ∈ between 0 1 one_N → admissible [mkSeed 4 "example.com"] raw a →
       ∃ row, row ∈ st_admitted st' ∧ ar_Name row = Name a ∧ ar_SeedID row = adm_SeedID a).
Proof.
  apply (@tail_catches_up unit one_reserve one_fetch (λ w, (true, w)) one_json one_cert 1 5 one_log one_N
           one_store 0 1 tt).
  - intros w. by exists w.
  - apply one_honest.
  - unfold size_bound. cbn. lia.
  - reflexivity.
  - cbn. lia.
Defined.

Example one_run :
  (@completeCTTail unit one_reserve one_fetch (λ w, (true, w)) one_json one_cert 1 5 one_log one_store tt).1.2 =
  Completed 1 0.
Proof. vm_compute. reflexivity. Qed.

(** A log that answers with more entries than it was asked for takes the cursor
    past its own tree size: the next poll reads the same head as a tree that
    shrank. *)
Definition two_json : CTJson := {|
  json_tree_size _ := Some 1;
  json_root_hash _ := None;
  json_proof _ := None;
  json_entries _ := Some [(EncodeToString one_entry, ""); (EncodeToString one_entry, "")]
|}.

Example overfull_answer_stalls_the_tail :
  let run st := (@completeCTTail unit one_reserve one_fetch (λ w, (true, w)) two_json one_cert 1 5 one_log st tt).1 in
  cr_TreeSize <$> st_cursors (run one_store).1 !! "id" = Some 2 ∧
  (run (run one_store).1).2 = Retried (ShrunkBelow 1 2).
Proof. vm_compute. done. Qed.

(** A log that signs the largest size there is and serves tiles of any index: the
    window of the last tile is one tile long, but the sum after it wraps to a
    negative position and the loop asks on, for as much as it is given. *)
Definition full_tile : list Z := concat (replicate 256 (replicate 12 0 ++ [1] ++ replicate 5 0)).
Definition tile_fetch (_ : string) : St nat (option (Z * list Z)) := λ n, (Some (200, full_tile), S n).

Example last_tile_wraps :
  let size := 2 ^ 63 - 1 in
  ctTailWindow true (size - 16384) size = (size - 16384, size) ∧
  @tiled_loop nat (λ n, (true, n)) tile_fetch (λ _, None) 6 "https://log/" "" size size (2 ^ 63 - 256) [] 0%nat = (OutOfFuel, 6%nat).
Proof. split; vm_compute; reflexivity. Qed.
