(* ===== verification/GoCalendar.v ===== *)
(** * The calendar of Go's [time] package

    [Year], [Month], [Day], [Weekday] and [Date] in UTC: the proleptic Gregorian
    calendar, counted in days since Go's zero instant (1 January of year 1, a
    Monday).  The computation by eras of 400 years is checked against the
    calendar's own rules: the date of the next day is the next date. *)

From S2P Require Import Prelude GoTime.

Definition Day : Z := 24 * Hour.
Definition day_of (t : Z) : Z := t / Day.

Record date := mkDate { Year : Z; Month : Z; DayOfMonth : Z }.
#[export] Instance date_eq : EqDecision date.
Proof. solve_decision. Defined.

(** Years begin on 1 March: [yoe], [doy] and [mp] count from there within an era. *)
Definition civil_of_doe (doe : Z) : date :=
  let yoe := (doe - doe / 1460 + doe / 36524 - doe / 146096) / 365 in
  let doy := doe - (365 * yoe + yoe / 4 - yoe / 100) in
  let mp := (5 * doy + 2) / 153 in
  let m := if mp <? 10 then mp + 3 else mp - 9 in
  mkDate (yoe + if m <=? 2 then 1 else 0) m (doy - (153 * mp + 2) / 5 + 1).

Definition civil (D : Z) : date :=
  let z := D + 306 in
  let c := civil_of_doe (z mod 146097) in
  mkDate (Year c + 400 * (z / 146097)) (Month c) (DayOfMonth c).

Definition doe_of_civil (yoe m d : Z) : Z :=
  yoe * 365 + yoe / 4 - yoe / 100 + ((153 * ((m + 9) mod 12) + 2) / 5 + d - 1).

(** The day of a date. *)
Definition days_of (c : date) : Z :=
  let y := Year c - if Month c <=? 2 then 1 else 0 in
  y / 400 * 146097 + doe_of_civil (y mod 400) (Month c) (DayOfMonth c) - 306.

(** Sunday is 0. *)
Definition Weekday (D : Z) : Z := (D + 1) mod 7.

(** [time.Date(year, month, day, hour, minute, 0, 0, time.UTC)]. *)
Definition DateUTC (c : date) (hh mm : Z) : Z := days_of c * Day + hh * Hour + mm * Minute.

(** ** The rules of the calendar *)

Definition leap (y : Z) : bool := (y mod 4 =? 0) && (negb (y mod 100 =? 0) || (y mod 400 =? 0)).

Definition month_length (y m : Z) : Z :=
  if m =? 2 then if leap y then 29 else 28
  else if existsb (Z.eqb m) [4; 6; 9; 11] then 30 else 31.

Definition next_date (c : date) : date :=
  if DayOfMonth c <? month_length (Year c) (Month c)
  then mkDate (Year c) (Month c) (DayOfMonth c + 1)
  else if Month c <? 12 then mkDate (Year c) (Month c + 1) 1
  else mkDate (Year c + 1) 1 1.

Definition valid_date (c : date) : bool :=
  (1 <=? Month c) && (Month c <=? 12) && (1 <=? DayOfMonth c) &&
  (DayOfMonth c <=? month_length (Year c) (Month c)).

(** What holds of each day of an era. *)
Definition era_ok (doe : Z) : bool :=
  let c := civil_of_doe doe in
  let y := Year c - if Month c <=? 2 then 1 else 0 in
  (0 <=? y) && (y <? 400) && (doe_of_civil y (Month c) (DayOfMonth c) =? doe) && valid_date c &&
  bool_decide (next_date c =
    if doe + 1 <? 146097 then civil_of_doe (doe + 1)
    else mkDate (Year (civil_of_doe 0) + 400) (Month (civil_of_doe 0)) (DayOfMonth (civil_of_doe 0))).

(** The first day of a year of the era, and what [civil_of_doe] divides by a year. *)
Definition year_start (y : Z) : Z := 365 * y + y / 4 - y / 100 + y / 400.
Definition year_days (doe : Z) : Z := doe - doe / 1460 + doe / 36524 - doe / 146096.

(** Month and day of a day of the year that begins in March, with the years to add. *)
Definition month_day (doy : Z) : Z * Z * Z :=
  let mp := (5 * doy + 2) / 153 in
  let m := if mp <? 10 then mp + 3 else mp - 9 in
  (if m <=? 2 then 1 else 0, m, doy - (153 * mp + 2) / 5 + 1).

Definition month_length_in (l : bool) (m : Z) : Z :=
  if m =? 2 then if l then 29 else 28 else if existsb (Z.eqb m) [4; 6; 9; 11] then 30 else 31.

Definition next_month_day (l : bool) (c : Z * Z * Z) : Z * Z * Z :=
  let '(b, m, d) := c in
  if d <? month_length_in l m then (b, m, d + 1) else if m <? 12 then (b, m + 1, 1) else (b + 1, 1, 1).

Definition year_length (l : bool) : Z := if l then 366 else 365.

(** The years of one era and the days of one year, by evaluation. *)
Definition year_ok (y : Z) : bool :=
  (year_days (year_start y) / 365 =? y) && (year_days (year_start (y + 1) - 1) / 365 =? y) &&
  (year_start (y + 1) =? year_start y + year_length (leap (y + 1))) &&
  (if y <? 399 then year_start (y + 1) <? 146097 else year_start (y + 1) =? 146097).

Definition doy_ok (l : bool) (doy : Z) : bool :=
  let '(b, m, d) := month_day doy in
  (1 <=? m) && (m <=? 12) && (1 <=? d) && (d <=? month_length_in l m) &&
  ((153 * ((m + 9) mod 12) + 2) / 5 + d - 1 =? doy) &&
  bool_decide (next_month_day l (b, m, d) =
    if doy + 1 <? year_length l then month_day (doy + 1) else let '(b', m', d') := month_day 0 in (b' + 1, m', d')).

Lemma years_checked : forallb year_ok (seqZ 0 400) = true.
Proof. vm_compute. reflexivity. Qed.

Lemma days_checked l : forallb (doy_ok l) (seqZ 0 (year_length l)) = true.
Proof. destruct l; vm_compute; reflexivity. Qed.

Lemma checked_below (P : Z → bool) hi n : forallb P (seqZ 0 hi) = true → 0 ≤ n < hi → P n = true.
Proof. rewrite forallb_forall. intros Hall Hn. apply Hall, list_elem_of_In, elem_of_seqZ. lia. Qed.

Lemma year_days_step d : 0 ≤ d → year_days d ≤ year_days (d + 1).
Proof.
  intros Hd. unfold year_days.
  pose proof (Z.div_mod d 1460 ltac:(lia)). pose proof (Z.mod_pos_bound d 1460 ltac:(lia)).
  pose proof (Z.div_mod (d + 1) 1460 ltac:(lia)). pose proof (Z.mod_pos_bound (d + 1) 1460 ltac:(lia)).
  pose proof (Z.div_mod d 36524 ltac:(lia)). pose proof (Z.mod_pos_bound d 36524 ltac:(lia)).
  pose proof (Z.div_mod (d + 1) 36524 ltac:(lia)). pose proof (Z.mod_pos_bound (d + 1) 36524 ltac:(lia)).
  assert (∀ x, x / 146096 = x / 36524 / 4) as E by (intros x; by rewrite Z.div_div by lia).
  rewrite !E. set (q := d / 36524) in *. set (q' := (d + 1) / 36524) in *.
  pose proof (Z.div_mod q 4 ltac:(lia)). pose proof (Z.mod_pos_bound q 4 ltac:(lia)).
  pose proof (Z.div_mod q' 4 ltac:(lia)). pose proof (Z.mod_pos_bound q' 4 ltac:(lia)).
  assert (q' = q ∨ q' = q + 1) as [Eq|Eq] by lia; rewrite Eq in *; lia.
Qed.

Lemma year_days_mono a b : 0 ≤ a → a ≤ b → year_days a ≤ year_days b.
Proof.
  intros Ha Hab. replace b with (a + (b - a)) by lia. assert (0 ≤ b - a) as Hn by lia. revert Hn. generalize (b - a).
  apply natlike_ind; [by rewrite Z.add_0_r|]. intros n Hn IH. rewrite Z.add_succ_r, <- Z.add_1_r.
  pose proof (year_days_step (a + n)). lia.
Qed.

(** Each day of the era lies in one year of it. *)
Lemma year_of_day doe : 0 ≤ doe < 146097 → ∃ y, 0 ≤ y < 400 ∧ year_start y ≤ doe < year_start (y + 1).
Proof.
  intros Hdoe. assert (∀ n : nat, doe < year_start (Z.of_nat n) → ∃ y, 0 ≤ y < Z.of_nat n ∧ year_start y ≤ doe < year_start (y + 1)) as H.
  { induction n as [|n IH]; intros Hn; [change (year_start (Z.of_nat 0)) with 0 in Hn; lia|].
    destruct (decide (doe < year_start (Z.of_nat n))) as [Hl|Hg].
    - destruct (IH Hl) as (y & Hy & Hd). exists y. split; [lia|done].
    - exists (Z.of_nat n). replace (Z.of_nat n + 1) with (Z.of_nat (S n)) by lia. split; lia. }
  destruct (H (Z.to_nat 400)) as (y & Hy & Hd); [change (year_start (Z.of_nat (Z.to_nat 400))) with 146097; lia|]. exists y. split; [lia|done].
Qed.

Lemma yoe_of_day doe y : 0 ≤ y < 400 → year_start y ≤ doe < year_start (y + 1) → year_days doe / 365 = y.
Proof.
  intros Hy Hd. pose proof (checked_below _ 400 y years_checked Hy) as Hok. unfold year_ok in Hok. bool_to_prop.
  assert (0 ≤ year_start y) as Hpos.
  { unfold year_start. pose proof (Z.div_mod y 4 ltac:(lia)). pose proof (Z.mod_pos_bound y 4 ltac:(lia)).
    pose proof (Z.div_mod y 100 ltac:(lia)). pose proof (Z.mod_pos_bound y 100 ltac:(lia)). rewrite (Z.div_small y 400) by lia. lia. }
  pose proof (year_days_mono (year_start y) doe ltac:(lia) ltac:(lia)) as HM1.
  pose proof (year_days_mono doe (year_start (y + 1) - 1) ltac:(lia) ltac:(lia)) as HM2.
  apply (Z.div_le_mono _ _ 365) in HM1, HM2; lia.
Qed.

(** The date of a day of a year of the era. *)
Definition date_in (y : Z) (c : Z * Z * Z) : date := let '(b, m, d) := c in mkDate (y + b) m d.

Lemma civil_of_day doe y : 0 ≤ y < 400 → year_start y ≤ doe < year_start (y + 1) →
  civil_of_doe doe = date_in y (month_day (doe - year_start y)).
Proof.
  intros Hy Hd. pose proof (yoe_of_day doe y Hy Hd) as E. unfold year_days in E. unfold civil_of_doe. rewrite E.
  unfold year_start. rewrite (Z.div_small y 400), Z.add_0_r by lia. done.
Qed.

Lemma month_length_year y b m : (m ≤ 2 → b = 1) → month_length (y + b) m = month_length_in (leap (y + 1)) m.
Proof. intros Hb. unfold month_length, month_length_in. destruct (Z.eqb_spec m 2) as [->|]; [|done]. by rewrite Hb. Qed.

Lemma next_date_in y c : (let '(b, m, d) := c in m ≤ 2 → b = 1) →
  next_date (date_in y c) = date_in y (next_month_day (leap (y + 1)) c).
Proof.
  destruct c as [[b m] d]. intros Hb. unfold next_date, date_in, next_month_day. cbn [Year Month DayOfMonth].
  rewrite (month_length_year y b m Hb). destruct (_ <? _); [done|]. destruct (_ <? _); [done|]. f_equal. lia.
Qed.

Lemma month_day_years doy : let '(b, m, d) := month_day doy in b = if m <=? 2 then 1 else 0.
Proof. done. Qed.

(** What a day of the era is. *)
Lemma era_ok_all doe : 0 ≤ doe < 146097 → era_ok doe = true.
Proof.
  intros Hdoe. destruct (year_of_day doe Hdoe) as (y & Hy & Hd).
  pose proof (checked_below _ 400 y years_checked Hy) as Hyear. unfold year_ok in Hyear.
  apply andb_true_iff in Hyear as [Hyear Hend]. bool_to_prop.
  set (l := leap (y + 1)) in *. set (doy := doe - year_start y).
  pose proof (checked_below _ _ doy (days_checked l) ltac:(lia)) as Hday. unfold doy_ok in Hday.
  unfold era_ok. rewrite (civil_of_day doe y Hy Hd). fold doy.
  pose proof (month_day_years doy) as Hb. destruct (month_day doy) as [[b m] d] eqn:Emd. cbn [date_in Year Month DayOfMonth].
  rewrite <- Hb. replace (y + b - b) with y by lia.
  assert (m ≤ 2 → b = 1) as Hbm by (intros Hm; rewrite Hb; by rewrite (proj2 (Z.leb_le _ _) Hm)).
  repeat match type of Hday with _ && _ = true => let H := fresh "Hc" in apply andb_true_iff in Hday as [Hday H] end.
  apply bool_decide_eq_true in Hc. fold l in Hc. bool_to_prop.
  repeat (apply andb_true_iff; split).
  - apply Z.leb_le. cbn [Month DayOfMonth]. lia.
  - apply Z.ltb_lt. lia.
  - apply Z.eqb_eq. unfold doe_of_civil. assert (year_start y = y * 365 + y / 4 - y / 100) as Es.
    { unfold year_start. rewrite (Z.div_small y 400) by lia. lia. }
    rewrite Es in *. lia.
  - apply Z.leb_le. cbn [Month DayOfMonth]. lia.
  - apply Z.leb_le. cbn [Month DayOfMonth]. lia.
  - apply Z.leb_le. cbn [Month DayOfMonth]. lia.
  - apply Z.leb_le. cbn [Year Month DayOfMonth]. rewrite month_length_year by done. fold l. lia.
  - apply bool_decide_eq_true. change (mkDate (y + b) m d) with (date_in y (b, m, d)). rewrite next_date_in by done. fold l. rewrite Hc.
    destruct (Z.ltb_spec (doy + 1) (year_length l)) as [Hl|Hl].
    + rewrite (proj2 (Z.ltb_lt _ _)) by (destruct (_ <? 399) in Hend; bool_to_prop; lia).
      rewrite (civil_of_day (doe + 1) y) by lia. do 2 f_equal. unfold doy. lia.
    + assert (doe + 1 = year_start (y + 1)) as Enext by lia. change (month_day 0) with (0, 3, 1). cbn [date_in].
      destruct (Z.ltb_spec y 399) as [Hy'|Hy'].
      * rewrite (proj2 (Z.ltb_lt _ _)) by (bool_to_prop; lia).
        assert (0 ≤ y + 1 < 400) as Hy1 by lia. pose proof (checked_below _ 400 (y + 1) years_checked Hy1) as Hyear1. unfold year_ok in Hyear1.
        rewrite (civil_of_day (doe + 1) (y + 1) Hy1); [|apply andb_true_iff in Hyear1 as [Hyear1 _]; bool_to_prop; assert (0 < year_length (leap (y + 1 + 1))) by (unfold year_length; destruct (leap (y + 1 + 1)); lia); lia].
        rewrite Enext, Z.sub_diag. change (month_day 0) with (0, 3, 1). cbn [date_in]. f_equal. lia.
      * bool_to_prop. assert (y = 399) as -> by lia. rewrite (proj2 (Z.ltb_ge _ _)) by lia. done.
Qed.

Lemma leap_400 y k : leap (y + 400 * k) = leap y.
Proof.
  unfold leap. replace (y + 400 * k) with (y + 100 * k * 4) at 1 by lia.
  replace (y + 400 * k) with (y + 4 * k * 100) at 1 by lia.
  replace (y + 400 * k) with (y + k * 400) by lia. by rewrite !Z_mod_plus_full.
Qed.

Lemma month_length_400 y k m : month_length (y + 400 * k) m = month_length y m.
Proof. unfold month_length. by rewrite leap_400. Qed.

Lemma next_date_400 c k :
  next_date (mkDate (Year c + 400 * k) (Month c) (DayOfMonth c)) =
  mkDate (Year (next_date c) + 400 * k) (Month (next_date c)) (DayOfMonth (next_date c)).
Proof.
  unfold next_date. cbn [Year Month DayOfMonth]. rewrite month_length_400.
  destruct (_ <? _); [done|]. destruct (_ <? _); cbn [Year Month DayOfMonth]; f_equal; lia.
Qed.

Lemma civil_eq D : let z := D + 306 in
  era_ok (z mod 146097) = true.
Proof. intros z. apply era_ok_all, Z.mod_pos_bound. lia. Qed.

(** A day's date is that day's: [Date] undoes [Year], [Month] and [Day]. *)
Lemma days_of_civil D : days_of (civil D) = D.
Proof.
  pose proof (civil_eq D) as Hok. cbv zeta in Hok. unfold era_ok in Hok.
  unfold days_of, civil. cbn [Year Month DayOfMonth]. set (z := D + 306) in *.
  set (c := civil_of_doe (z mod 146097)) in *. set (b := if Month c <=? 2 then 1 else 0) in *.
  bool_to_prop. replace (Year c + 400 * (z / 146097) - b) with (Year c - b + z / 146097 * 400) by lia.
  rewrite Z.div_add, Z.div_small, Z_mod_plus_full, Z.mod_small by lia.
  pose proof (Z.div_mod z 146097). lia.
Qed.

Lemma civil_valid D : valid_date (civil D) = true.
Proof.
  pose proof (civil_eq D) as Hok. cbv zeta in Hok. unfold era_ok in Hok.
  apply andb_true_iff in Hok as [Hok _]. apply andb_true_iff in Hok as [_ Hv].
  unfold valid_date, civil in *. cbn [Year Month DayOfMonth]. by rewrite month_length_400.
Qed.

(** The date of the next day is the next date. *)
Lemma civil_next D : civil (D + 1) = next_date (civil D).
Proof.
  pose proof (civil_eq D) as Hok. cbv zeta in Hok. unfold era_ok in Hok.
  apply andb_true_iff in Hok as [_ Hn]. apply bool_decide_eq_true in Hn.
  unfold civil. replace (D + 1 + 306) with (D + 306 + 1) by lia. set (z := D + 306) in *.
  rewrite next_date_400, Hn. pose proof (Z.mod_pos_bound z 146097 ltac:(lia)) as Hb.
  pose proof (Z.div_mod z 146097 ltac:(lia)) as Hz.
  destruct (Z.ltb_spec (z mod 146097 + 1) 146097).
  - assert (Hm : (z + 1) mod 146097 = z mod 146097 + 1).
    { symmetry. apply (Z.mod_unique_pos _ _ (z / 146097)); lia. }
    assert (Hd : (z + 1) / 146097 = z / 146097).
    { symmetry. apply (Z.div_unique_pos _ _ _ (z mod 146097 + 1)); lia. }
    by rewrite Hm, Hd.
  - assert (Hm : (z + 1) mod 146097 = 0).
    { symmetry. apply (Z.mod_unique_pos _ _ (z / 146097 + 1)); lia. }
    assert (Hd : (z + 1) / 146097 = z / 146097 + 1).
    { symmetry. apply (Z.div_unique_pos _ _ _ 0); lia. }
    rewrite Hm, Hd. cbn [Year Month DayOfMonth]. f_equal. lia.
Qed.

Lemma civil_zero : civil 0 = mkDate 1 1 1.
Proof. vm_compute. reflexivity. Qed.

Lemma Weekday_range D : 0 ≤ Weekday D < 7.
Proof. apply Z.mod_pos_bound. lia. Qed.

Example civil_epoch : civil (62135596800 / 86400) = mkDate 1970 1 1 ∧ Weekday (62135596800 / 86400) = 4.
Proof. vm_compute. done. Qed.
