(* ===== verification/GoRFC3339.v ===== *)
(** * [time.Parse] and [Format] with the layout [time.RFC3339]

    The general parser of Go's [time] package, for the one layout the program
    reads and writes, with the round trip. *)

From S2P Require Import Prelude GoTime GoStr NetParse GoConv GoCalendar.

(** ** Formatting an instant in UTC *)

(** [appendInt]: the sign does not count in the width. *)
Definition append_int (w : nat) (n : Z) : string :=
  let digits := itoa (Z.abs n) in
  let padded := zeros (w - String.length digits) digits in
  if n <? 0 then String "-" padded else padded.

Definition time_Format_RFC3339 (t : Z) : string :=
  let c := civil (day_of t) in
  let s := t mod Day / Second in
  (append_int 4 (Year c) +:+ "-" +:+ append_int 2 (Month c) +:+ "-" +:+ append_int 2 (DayOfMonth c) +:+ "T" +:+
   append_int 2 (s / 3600) +:+ ":" +:+ append_int 2 (s / 60 mod 60) +:+ ":" +:+ append_int 2 (s mod 60) +:+ "Z")%string.

(** ** Parsing *)

(** One or two digits, two when [fixed]. *)
Definition getnum (fixed : bool) (s : string) : option (Z * string) :=
  match s with
  | "" => None
  | String c s' =>
      d ← digit_val c;
      match s' with
      | String e s'' =>
          match digit_val e with
          | Some d' => Some (d * 10 + d', s'')
          | None => if fixed then None else Some (d, s')
          end
      | "" => if fixed then None else Some (d, "")
      end
  end.

(** A number in [lo, hi). *)
Definition getnum_in (fixed : bool) (lo hi : Z) (s : string) : option (Z * string) :=
  '(n, s) ← getnum fixed s;
  if (n <? lo) || (hi <=? n) then None else Some (n, s).

Definition skip (c : ascii) (s : string) : option string :=
  match s with String d s' => if Ascii.eqb c d then Some s' else None | "" => None end.

Definition get_year (s : string) : option (Z * string) :=
  match s with
  | String a (String b (String c (String d s'))) =>
      y ← atoi_digits (String a (String b (String c (String d "")))) 0; Some (y, s')
  | _ => None
  end.

Fixpoint span_digits (s : string) : string * string :=
  match s with
  | String c s' => if is_digit c then let '(ds, r) := span_digits s' in (String c ds, r) else ("", s)
  | "" => ("", "")
  end.

(** A fraction after the seconds, in nanoseconds; digits past the ninth are dropped. *)
Definition get_fraction (s : string) : option (Z * string) :=
  match s with
  | String p ((String c _) as s') =>
      if (Ascii.eqb p "." || Ascii.eqb p ",") && is_digit c then
        let '(ds, r) := span_digits s' in
        let ds := slice_to ds 9 in
        ns ← atoi_digits ds 0;
        Some (ns * 10 ^ (9 - Z.of_nat (String.length ds)), r)
      else Some (0, s)
  | _ => Some (0, s)
  end.

(** The offset of the zone, in seconds. *)
Definition get_zone (s : string) : option (Z * string) :=
  match s with
  | String "Z" s' => Some (0, s')
  | String sign s' =>
      '(hr, s) ← getnum true s';
      s ← skip ":" s;
      '(mm, s) ← getnum true s;
      if (24 <? hr) || (60 <? mm) then None
      else
        let off := (hr * 60 + mm) * 60 in
        if Ascii.eqb sign "+" then Some (off, s)
        else if Ascii.eqb sign "-" then Some (- off, s)
        else None
  | "" => None
  end.

(** The instant, or [None] for an error. *)
Definition time_Parse_RFC3339 (s : string) : option Z :=
  '(year, s) ← get_year s;
  s ← skip "-" s;
  '(month, s) ← getnum_in true 1 13 s;
  s ← skip "-" s;
  '(day, s) ← getnum true s;
  s ← skip "T" s;
  '(hour, s) ← getnum_in false 0 24 s;
  s ← skip ":" s;
  '(min, s) ← getnum_in true 0 60 s;
  s ← skip ":" s;
  '(sec, s) ← getnum_in true 0 60 s;
  '(nsec, s) ← get_fraction s;
  '(offset, s) ← get_zone s;
  if negb (String.eqb s "") then None
  else if (day <? 1) || (month_length year month <? day) then None
  else Some (TimeAdd (DateUTC (mkDate year month day) hour min + sec * Second + nsec) (- offset * Second)).

(** ** The round trip *)

Definition two (n : Z) : string := String (digit_char (n / 10)) (String (digit_char (n mod 10)) "").

(** A statement about few numbers, by evaluation. *)
Lemma below_ok (P : Z → bool) hi : forallb P (seqZ 0 hi) = true → ∀ n, 0 ≤ n < hi → P n = true.
Proof. rewrite forallb_forall. intros Hall n Hn. apply Hall, list_elem_of_In, elem_of_seqZ. lia. Qed.

Lemma append_int_2 n : 0 ≤ n < 100 → append_int 2 n = two n.
Proof.
  intros Hn. apply String.eqb_eq, (below_ok (λ n, String.eqb (append_int 2 n) (two n)) 100); [|done].
  vm_compute. reflexivity.
Qed.

Lemma append_int_4 n : 0 ≤ n < 10000 → append_int 4 n = (two (n / 100) +:+ two (n mod 100))%string.
Proof.
  intros Hn. unfold append_int, itoa, two. rewrite Z.abs_eq, (proj2 (Z.ltb_ge n 0)) by lia.
  assert (n / 100 / 10 = n / 10 / 10 / 10 ∧ (n / 100) mod 10 = (n / 10 / 10) mod 10 ∧
          n mod 100 / 10 = (n / 10) mod 10 ∧ n mod 100 mod 10 = n mod 10) as (-> & -> & -> & ->)
    by (Z.to_euclidean_division_equations; lia).
  rewrite digits_of_step. destruct (Z.ltb_spec n 10) as [H1|H1].
  { rewrite !(Z.mod_small _ 10), (Z.div_small n 10) by (lia || (Z.to_euclidean_division_equations; lia)). done. }
  rewrite digits_of_step. destruct (Z.ltb_spec (n / 10) 10) as [H2|H2].
  { rewrite (Z.mod_small (n / 10) 10), (Z.div_small (n / 10) 10) by (split; [apply Z.div_pos; lia|done]). done. }
  rewrite digits_of_step. destruct (Z.ltb_spec (n / 10 / 10) 10) as [H3|H3].
  { rewrite (Z.mod_small (n / 10 / 10) 10), (Z.div_small (n / 10 / 10) 10) by (split; [do 2 (apply Z.div_pos; [|done]); lia|done]). done. }
  rewrite digits_of_step. rewrite (proj2 (Z.ltb_lt (n / 10 / 10 / 10) 10)) by (Z.to_euclidean_division_equations; lia). done.
Qed.

Lemma digit_vals k : 0 ≤ k < 100 →
  digit_val (digit_char (k / 10)) = Some (k / 10) ∧ digit_val (digit_char (k mod 10)) = Some (k mod 10).
Proof.
  intros Hk. split; apply digit_val_char; [|apply Z.mod_pos_bound; lia].
  split; [apply Z.div_pos|apply Z.div_lt_upper_bound]; lia.
Qed.

Lemma getnum_two fixed n s : 0 ≤ n < 100 → getnum fixed (two n +:+ s)%string = Some (n, s).
Proof.
  intros Hn. unfold two. rewrite !append_cons, append_nil. cbn [getnum].
  destruct (digit_vals n Hn) as [-> ->].
  cbn [mbind option_bind]. pose proof (Z.div_mod n 10 ltac:(done)). do 2 f_equal. lia.
Qed.

Lemma getnum_in_two fixed lo hi n s :
  0 ≤ n < 100 → lo ≤ n < hi → getnum_in fixed lo hi (two n +:+ s)%string = Some (n, s).
Proof.
  intros Hn Hr. unfold getnum_in. rewrite getnum_two by done. cbn [mbind option_bind].
  rewrite (proj2 (Z.ltb_ge _ _)), (proj2 (Z.leb_gt _ _)) by lia. done.
Qed.

Lemma get_year_4 n s : 0 ≤ n < 10000 → get_year (append_int 4 n +:+ s)%string = Some (n, s).
Proof.
  intros Hn. rewrite append_int_4 by done. unfold two. rewrite !append_cons, append_nil. cbn [get_year atoi_digits].
  assert (0 ≤ n / 100 < 100) by (split; [apply Z.div_pos|apply Z.div_lt_upper_bound]; lia).
  pose proof (Z.mod_pos_bound n 100 ltac:(lia)).
  destruct (digit_vals _ H) as [E1 E2], (digit_vals _ H0) as [E3 E4].
  rewrite !append_cons, append_nil. do 4 (rewrite ?E1, ?E2, ?E3, ?E4; cbn [mbind option_bind]).
  pose proof (Z.div_mod (n / 100) 10 ltac:(done)). pose proof (Z.div_mod (n mod 100) 10 ltac:(done)). pose proof (Z.div_mod n 100 ltac:(done)).
  do 2 f_equal. lia.
Qed.

Lemma skip_same c s : skip c (String c "" +:+ s)%string = Some s.
Proof. unfold skip. rewrite append_cons, append_nil. by rewrite Ascii.eqb_refl. Qed.

Lemma two_cons n s : (two n +:+ s)%string = String (digit_char (n / 10)) (String (digit_char (n mod 10)) s).
Proof. reflexivity. Qed.

(** What is printed reads back, to the second, for the years of four digits. *)
Lemma Parse_Format_RFC3339 t :
  0 ≤ Year (civil (day_of t)) ≤ 9999 → time_Parse_RFC3339 (time_Format_RFC3339 t) = Some (t - t mod Second).
Proof.
  intros Hy. pose proof (civil_valid (day_of t)) as Hv. unfold valid_date in Hv. bool_to_prop.
  pose proof (days_of_civil (day_of t)) as Hdays. unfold time_Format_RFC3339. set (c := civil (day_of t)) in *.
  assert (Hm : month_length (Year c) (Month c) ≤ 31).
  { unfold month_length. repeat case_match; lia. }
  set (s := t mod Day / Second).
  assert (Hs : 0 ≤ s < 86400).
  { unfold s. pose proof (Z.mod_pos_bound t Day ltac:(done)). split; [apply Z.div_pos; [lia|done]|].
    apply Z.div_lt_upper_bound; [done|]. change (Second * 86400) with Day. lia. }
  assert (0 ≤ s / 3600 < 24) by (split; [apply Z.div_pos|apply Z.div_lt_upper_bound]; lia).
  pose proof (Z.mod_pos_bound (s / 60) 60 ltac:(lia)). pose proof (Z.mod_pos_bound s 60 ltac:(lia)).
  unfold time_Parse_RFC3339. rewrite get_year_4 by lia. cbn [mbind option_bind String.append].
  rewrite !append_int_2 by lia.
  repeat (first [rewrite skip_same|rewrite getnum_in_two by lia|rewrite getnum_two by lia]; cbn [mbind option_bind]).
  cbn [get_fraction get_zone mbind option_bind]. cbn [String.eqb negb].
  rewrite (proj2 (Z.ltb_ge _ _)), (proj2 (Z.ltb_ge _ _)) by lia. cbn [orb]. f_equal.
  unfold TimeAdd, DateUTC. change (mkDate (Year c) (Month c) (DayOfMonth c)) with (mkDate (Year c) (Month c) (DayOfMonth c)).
  replace (mkDate (Year c) (Month c) (DayOfMonth c)) with c by (by destruct c). rewrite Hdays.
  assert (Hsec : s / 3600 * 3600 + s / 60 mod 60 * 60 + s mod 60 = s).
  { replace (s / 3600) with (s / 60 / 60) by (rewrite Z.div_div by lia; done).
    pose proof (Z.div_mod s 60 ltac:(done)). pose proof (Z.div_mod (s / 60) 60 ltac:(done)). lia. }
  assert (Ht : t - t mod Second = day_of t * Day + s * Second).
  { unfold s, day_of. pose proof (Z.div_mod t Day ltac:(done)) as E1.
    pose proof (Z.div_mod (t mod Day) Second ltac:(done)) as E2.
    assert (E3 : t mod Day mod Second = t mod Second).
    { rewrite <- Znumtheory.Zmod_div_mod; [done|done|done|]. exists 86400. reflexivity. }
    lia. }
  rewrite Ht. rewrite <- Hsec at 4. unfold Hour, Minute. lia.
Qed.
