(* ===== verification/Cron.v ===== *)
(** * Report cadences: cron fields, firing instants, the dispatcher ([internal/report])

    [cadence.go]: a cadence is a preset or a cron expression; its latest firing at
    or before now is the tick the dispatcher keys on.  [dispatcher.go]: one poll of
    the schedules over the table of deliveries.  [strings.ToLower] and
    [strings.Fields] fold and split by Unicode: they are parameters. *)

From S2P Require Import Prelude GoTime GoStr NetParse GoConv GoCalendar.

(** ** Text *)

(** [strings.Contains]. *)
Fixpoint str_contains (s sub : string) : bool :=
  HasPrefix s sub || match s with "" => false | String _ s' => str_contains s' sub end.

Definition Atoi : string → option Z := ParseInt.

(** [1 << uint(n)] in 64 bits: a count below zero or above 63 shifts the bit out. *)
Definition bit64 (n : Z) : Z := if (0 <=? n) && (n <? 64) then 2 ^ n else 0.

Definition has_bit (mask n : Z) : bool := negb (Z.land mask (bit64 n) =? 0).

(** ** Fields *)

Fixpoint range_loop (fuel : nat) (v hi m : Z) : Z :=
  match fuel with
  | O => m
  | S fuel' => if v <=? hi then range_loop fuel' (v + 1) hi (Z.lor m (bit64 v)) else m
  end.

Definition rangeMask (lo hi : Z) : Z := range_loop (Z.to_nat (hi - lo + 1)) lo hi 0.

(** [(lo, hi, step)]; [None] is an error. *)
Definition parsePart (part : string) (min max : Z) : option (Z * Z * Z) :=
  let slash := IndexByte part "/" in
  body_step ← (if 0 <=? slash then
      step ← Atoi (slice_from part (slash + 1));
      if step <=? 0 then None else Some (slice_to part slash, step)
    else Some (part, 1));
  let body := body_step.1 in let step := body_step.2 in
  '(lo, hi) ← (if String.eqb body "*" then Some (min, max)
    else if 0 <=? IndexByte body "-" then
      let dash := IndexByte body "-" in
      lo ← Atoi (slice_to body dash);
      hi ← Atoi (slice_from body (dash + 1));
      Some (lo, hi)
    else
      lo ← Atoi body;
      Some (lo, if 0 <=? IndexByte part "/" then max else lo));
  if (lo <? min) || (max <? hi) || (hi <? lo) then None else Some (lo, hi, step).

(** The loop [for v := lo; v <= hi; v += step], whose sum wraps at 64 bits.
    [None] is fuel spent. *)
Fixpoint part_loop (fuel : nat) (norm : Z → Z) (v hi step mask : Z) : option Z :=
  if hi <? v then Some mask
  else
    match fuel with
    | O => None
    | S fuel' => part_loop fuel' norm (v +64 step) hi step (Z.lor mask (bit64 (norm v)))
    end.

(** Steps that do not wrap take one pass per value; those that do go down by an
    even number every two passes. *)
Definition part_fuel : nat := 256.

Definition part_step (norm : Z → Z) (min max : Z) (mask : Z) (part : string) : option Z :=
  '(lo, hi, step) ← parsePart part min max;
  part_loop part_fuel norm lo hi step mask.

(** [(mask, restricted)]. *)
Definition parseField (field : string) (min max : Z) (norm : Z → Z) : option (Z * bool) :=
  if String.eqb field "*" then Some (rangeMask min max, false)
  else
    mask ← for_range (part_step norm min max) (Split "," field) 0;
    Some (mask, true).

Definition normalizeDOW (n : Z) : Z := if n =? 7 then 0 else n.

Record cronSpec := mkSpec {
  s_min : Z; s_hour : Z; s_dom : Z; s_month : Z; s_dow : Z;
  domRestricted : bool; dowRestricted : bool
}.

(** ** Firing instants *)

Definition dayMatches (s : cronSpec) (D : Z) : bool :=
  let c := civil D in
  if negb (has_bit (s_month s) (Month c)) then false
  else
    let domHit := has_bit (s_dom s) (DayOfMonth c) in
    let dowHit := has_bit (s_dow s) (Weekday D) in
    if domRestricted s && dowRestricted s then domHit || dowHit
    else if domRestricted s then domHit
    else if dowRestricted s then dowHit
    else true.

(** The minute of a day, counted down from [m]. *)
Fixpoint minute_loop (s : cronSpec) (m : nat) : option Z :=
  let z := Z.of_nat m in
  if has_bit (s_hour s) (z / 60) && has_bit (s_min s) (z mod 60) then Some z
  else match m with O => None | S m' => minute_loop s m' end.

(** The day [d] days before that of [now], a whole minute, then the ones before. *)
Fixpoint day_loop (s : cronSpec) (now : Z) (n : nat) (d : Z) : option Z :=
  match n with
  | O => None
  | S n' =>
      let D := day_of now - d in
      let maxMin := if d =? 0 then now mod Day / Minute else 24 * 60 - 1 in
      match (if dayMatches s D then minute_loop s (Z.to_nat maxMin) else None) with
      | Some m => Some (DateUTC (civil D) (m / 60) (m mod 60))
      | None => day_loop s now n' (d + 1)
      end
  end.

Definition prevFire (s : cronSpec) (now : Z) : option Z :=
  let now := now - now mod Minute in
  day_loop s now 401 0.

(** ** Cadences *)

Definition digits2 (s : string) : option (Z * string) :=
  match s with
  | String a (String b r) =>
      match digit_val a, digit_val b with Some x, Some y => Some (x * 10 + y, r) | _, _ => None end
  | _ => None
  end.

Definition digits1 (s : string) : option (Z * string) :=
  match s with String a r => x ← digit_val a; Some (x, r) | "" => None end.

(** [(\d{1,2}):(\d{2})] at the front. *)
Definition clock_here (s : string) : option (Z * Z) :=
  let after r := match r with
                 | String c r' => if Ascii.eqb c ":" then fst <$> digits2 r' else None
                 | "" => None
                 end in
  let try (o : option (Z * string)) := '(h, r) ← o; n ← after r; Some (h, n) in
  match try (digits2 s) with Some x => Some x | None => try (digits1 s) end.

(** The leftmost match. *)
Fixpoint find_first {A} (here : string → option A) (s : string) : option A :=
  match here s with
  | Some x => Some x
  | None => match s with "" => None | String _ s' => find_first here s' end
  end.

(** [(hh, mm)]; [None] when the cadence has no clock. *)
Definition parseClock (c : string) : option (Z * Z) :=
  '(h, n) ← find_first clock_here c;
  if (23 <? h) || (59 <? n) then None else Some (h, n).

(** [(\d{1,2})(?:st|nd|rd|th)] at the front. *)
Definition ordinal_here (s : string) : option Z :=
  let suffix r := existsb (HasPrefix r) ["st"; "nd"; "rd"; "th"] in
  let try (o : option (Z * string)) := '(n, r) ← o; if suffix r then Some n else None in
  match try (digits2 s) with Some x => Some x | None => try (digits1 s) end.

Definition weekdays : list (string * Z) :=
  [("sun", 0); ("mon", 1); ("tue", 2); ("wed", 3); ("thu", 4); ("fri", 5); ("sat", 6)].

Section Cadence.
(** [strings.ToLower] and [strings.Fields], and the order in which Go ranges over
    the map of weekdays. *)
Variable ToLower : string → string.
Variable Fields : string → list string.
Variable order : list (string * Z).

Definition CadenceWindow (cadence : string) : Z :=
  let c := ToLower cadence in
  if str_contains c "6h" then 6 * Hour
  else if str_contains c "daily" then 24 * Hour
  else if str_contains c "monthly" then 30 * 24 * Hour
  else 7 * 24 * Hour.

Definition sp (a b : string) : string := (a +:+ " " +:+ b)%string.

Definition presetToCron (cadence : string) : option string :=
  let c := ToLower (TrimSpace cadence) in
  let '(hh, mm) := default (0, 0) (parseClock c) in
  if str_contains c "6h" then Some "0 */6 * * *"
  else if str_contains c "daily" then Some (sp (itoa mm) (sp (itoa hh) "* * *"))
  else if str_contains c "weekly" then
    let dow := default 1 (snd ∘ snd <$> list_find (λ nd, Is_true (str_contains c nd.1)) order) in
    Some (sp (itoa mm) (sp (itoa hh) (sp "* *" (itoa dow))))
  else if str_contains c "monthly" then
    let dom := match find_first ordinal_here c with
               | Some n => if (1 <=? n) && (n <=? 31) then n else 1
               | None => 1
               end in
    Some (sp (itoa mm) (sp (itoa hh) (sp (itoa dom) "* *")))
  else None.

Definition parseCron (expr : string) : option cronSpec :=
  match Fields (TrimSpace expr) with
  | [f0; f1; f2; f3; f4] =>
      '(mi, _) ← parseField f0 0 59 id;
      '(ho, _) ← parseField f1 0 23 id;
      '(dom, domR) ← parseField f2 1 31 id;
      '(mo, _) ← parseField f3 1 12 id;
      '(dow, dowR) ← parseField f4 0 7 normalizeDOW;
      Some (mkSpec mi ho dom mo dow domR dowR)
  | _ => None
  end.

(** Nil is [true]. *)
Definition ValidateCron (expr : string) : bool := bool_decide (is_Some (parseCron expr)).

Definition cadenceSpec (cadence : string) : option cronSpec :=
  match presetToCron cadence with
  | Some cron => parseCron cron
  | None => parseCron (TrimSpace cadence)
  end.

Definition DispatchTick (now : Z) (cadence : string) : option Z :=
  spec ← cadenceSpec cadence; prevFire spec now.
End Cadence.

(** ** The dispatcher *)

Record ReportSchedule := mkSchedule { sc_ID : Z; sc_Cadence : string; sc_ChannelID : option Z }.

Record ReportDelivery := mkDelivery {
  rd_ID : Z; rd_ScheduleID : Z; rd_PeriodStart : Z; rd_PeriodEnd : Z; rd_No : Z;
  rd_ScheduledTick : option Z
}.

Record report_store := mkReports {
  rs_schedules : list ReportSchedule;
  rs_deliveries : list ReportDelivery;
  rs_notifications : list (Z * Z)
}.

(** [SELECT COALESCE(MAX(delivery_no), 0) + 1 ... WHERE schedule_id = $1]. *)
Definition NextReportDeliveryNo (st : report_store) (id : Z) : Z :=
  foldr Z.max 0 (map rd_No (filter (λ d, rd_ScheduleID d = id) (rs_deliveries st))) + 1.

(** [INSERT ... ON CONFLICT (schedule_id, scheduled_tick) DO NOTHING RETURNING]:
    [None] when the tick has a row; [newID] is the sequence's. *)
Definition TryInsertScheduledDelivery (st : report_store) (newID : Z) (sc : ReportSchedule)
    (tick window no : Z) : option ReportDelivery :=
  if existsb (λ d, (rd_ScheduleID d =? sc_ID sc) && bool_decide (rd_ScheduledTick d = Some tick))
       (rs_deliveries st)
  then None
  else Some (mkDelivery newID (sc_ID sc) (TimeAdd tick (- window)) tick no (Some tick)).

(** The transaction of [dispatchOne], when it commits. *)
Definition dispatchOne (st : report_store) (newID : Z) (sc : ReportSchedule) (tick window : Z)
    : report_store :=
  let no := NextReportDeliveryNo st (sc_ID sc) in
  match TryInsertScheduledDelivery st newID sc tick window no with
  | None => st
  | Some d =>
      mkReports (rs_schedules st) (rs_deliveries st ++ [d])
        (rs_notifications st ++ match sc_ChannelID sc with Some ch => [(rd_ID d, ch)] | None => [] end)
  end.

Section Dispatcher.
Context {W : Type}.
(** The clock, the order in which Go ranges over the map of weekdays at this call,
    the sequence of delivery ids, and whether a transaction commits. *)
Variable clock : St W Z.
Variable ranges : St W (list (string * Z)).
Variable next_id : St W Z.
Variable commits : St W bool.
Variable ToLower : string → string.
Variable Fields : string → list string.

Definition dispatch_step (st : report_store) (sc : ReportSchedule) : St W report_store :=
  now ← clock;
  order ← ranges;
  match DispatchTick ToLower Fields order now (sc_Cadence sc) with
  | None => mret st
  | Some tick =>
      newID ← next_id;
      ok ← commits;
      mret (if (ok : bool) then dispatchOne st newID sc tick (CadenceWindow ToLower (sc_Cadence sc)) else st)
  end.

(** The list of schedules is read once; [None] from the database is an empty poll. *)
Definition dispatchDue (st : report_store) : St W report_store :=
  for_each dispatch_step (rs_schedules st) st.
End Dispatcher.

(** * Properties *)

(** ** Bits *)

Lemma bit64_pow n : 0 ≤ n < 64 → bit64 n = 2 ^ n.
Proof. intros. unfold bit64. by rewrite (proj2 (Z.leb_le _ _)), (proj2 (Z.ltb_lt _ _)) by lia. Qed.

Lemma bit64_testbit n i : 0 ≤ i < 64 → Z.testbit (bit64 n) i = (n =? i).
Proof.
  intros Hi. unfold bit64. destruct (Z.leb_spec 0 n), (Z.ltb_spec n 64); cbn [andb];
    rewrite ?Z.pow2_bits_eqb by lia; [done|..]; rewrite Z.bits_0; symmetry; apply Z.eqb_neq; lia.
Qed.

Lemma has_bit_testbit m i : 0 ≤ i < 64 → has_bit m i = Z.testbit m i.
Proof.
  intros Hi. unfold has_bit. rewrite bit64_pow by done.
  destruct (Z.testbit m i) eqn:Ht.
  - apply negb_true_iff, Z.eqb_neq. intros Hz. apply (f_equal (λ z, Z.testbit z i)) in Hz.
    by rewrite Z.land_spec, Ht, Z.pow2_bits_true, Z.bits_0 in Hz by lia.
  - apply negb_false_iff, Z.eqb_eq, Z.bits_inj'. intros k Hk. rewrite Z.land_spec, Z.bits_0.
    rewrite Z.pow2_bits_eqb by lia. destruct (Z.eqb_spec i k) as [<-|]; [by rewrite Ht|apply andb_false_r].
Qed.

Lemma rangeMask_bits lo hi i : 0 ≤ lo → 0 ≤ i < 64 →
  Z.testbit (rangeMask lo hi) i = (lo <=? i) && (i <=? hi).
Proof.
  intros Hlo Hi. unfold rangeMask.
  enough (H : ∀ fuel v m, Z.of_nat fuel = Z.max 0 (hi - v + 1) →
    Z.testbit (range_loop fuel v hi m) i = Z.testbit m i || ((v <=? i) && (i <=? hi))).
  { rewrite H by lia. by rewrite Z.bits_0. }
  induction fuel as [|fuel IH]; intros v m Hf; cbn [range_loop].
  - destruct (Z.leb_spec v i), (Z.leb_spec i hi); cbn; rewrite ?orb_false_r; done || lia.
  - rewrite (proj2 (Z.leb_le _ _)) by lia. rewrite IH by lia. rewrite Z.lor_spec, bit64_testbit by done.
    rewrite <- orb_assoc. f_equal.
    destruct (Z.eqb_spec v i), (Z.leb_spec v i), (Z.leb_spec (v + 1) i), (Z.leb_spec i hi); cbn; done || lia.
Qed.

(** ** Fields *)

(** The largest step whose sum with a value does not wrap. *)
Definition step_bound : Z := 2 ^ 63 - 60.

Lemma part_loop_bits norm hi step : 0 < step ≤ step_bound → hi ≤ 59 → ∀ fuel v mask, 0 ≤ v →
  Z.max 0 (hi - v + 1) ≤ Z.of_nat fuel →
  ∃ mask', part_loop fuel norm v hi step mask = Some mask' ∧
    ∀ i, 0 ≤ i < 64 → Z.testbit mask' i = true ↔
      Z.testbit mask i = true ∨ ∃ k, 0 ≤ k ∧ v + k * step ≤ hi ∧ norm (v + k * step) = i.
Proof.
  intros Hs Hhi. induction fuel as [|fuel IH]; intros v mask Hv Hf; cbn [part_loop];
    (destruct (Z.ltb_spec hi v) as [Hlt|Hge];
      [exists mask; split; [done|]; intros i Hi; split; [by left|]; intros [?|(k & ? & ? & ?)]; [done|nia]|]); [lia|].
  unfold step_bound in Hs. rewrite wrap64_id by (unfold in_int64, minInt64, maxInt64; lia).
  destruct (IH (v + step) (Z.lor mask (bit64 (norm v)))) as (mask' & -> & Hm); [lia|lia|].
  exists mask'. split; [done|]. intros i Hi. rewrite Hm by done. rewrite Z.lor_spec, orb_true_iff, bit64_testbit, Z.eqb_eq by done.
  split.
  - intros [[?|Hn]|(k & Hk & Hle & Hn)]; [by left|right; exists 0|right; exists (k + 1)].
    + by rewrite Z.mul_0_l, Z.add_0_r.
    + replace (v + (k + 1) * step) with (v + step + k * step) by lia. split; [lia|done].
  - intros [?|(k & Hk & Hle & Hn)]; [by left; left|]. destruct (decide (k = 0)) as [->|].
    + left; right. by rewrite Z.mul_0_l, Z.add_0_r in Hn.
    + right. exists (k - 1). replace (v + step + (k - 1) * step) with (v + k * step) by lia. split; [lia|done].
Qed.

(** A step so large that the sum wraps still ends the loop. *)
Lemma part_loop_wraps norm hi step : step_bound < step ≤ maxInt64 → hi ≤ 59 → ∀ fuel v mask, -60 ≤ v ≤ 59 →
  2 * (v + 61) ≤ Z.of_nat fuel → is_Some (part_loop fuel norm v hi step mask).
Proof.
  intros Hs Hhi. unfold step_bound, maxInt64 in Hs.
  set (j := 2 ^ 63 - step). assert (Hj : 1 ≤ j ≤ 59) by (unfold j; lia).
  intros fuel. induction fuel as [fuel IH] using lt_wf_ind. intros v mask Hv Hf.
  destruct fuel as [|[|fuel]]; [lia|lia|]. cbn [part_loop].
  destruct (Z.ltb_spec hi v); [eauto|].
  destruct (Z.lt_ge_cases v j) as [Hvj|Hvj].
  - rewrite (wrap64_id (v + step)) by (unfold in_int64, minInt64, maxInt64, j in *; lia).
    rewrite (proj2 (Z.ltb_lt hi (v + step))) by (unfold j in *; lia). eauto.
  - assert (Hw : v +64 step = v - j - 2 ^ 63).
    { unfold wrap64. replace (v + step + 2 ^ 63) with (v - j + 1 * 2 ^ 64) by (unfold j; lia).
      rewrite Z_mod_plus_full, Z.mod_small by lia. lia. }
    rewrite Hw. rewrite (proj2 (Z.ltb_ge hi (v - j - 2 ^ 63))) by (unfold j in *; lia).
    rewrite (wrap64_id (v - j - 2 ^ 63 + step)) by (unfold in_int64, minInt64, maxInt64, j in *; lia).
    replace (v - j - 2 ^ 63 + step) with (v - 2 * j) by (unfold j; lia).
    apply IH; [lia|lia|lia].
Qed.

(** What a part denotes. *)
Definition part_denotes (min max : Z) (norm : Z → Z) (part : string) (i : Z) : Prop :=
  ∃ lo hi step v, parsePart part min max = Some (lo, hi, step) ∧ lo ≤ v ≤ hi ∧
    (v - lo) mod step = 0 ∧ norm v = i.

(** A part in range, with a step that does not wrap. *)
Definition part_ok (min max : Z) (part : string) : Prop :=
  ∃ lo hi step, parsePart part min max = Some (lo, hi, step) ∧ step ≤ step_bound.

Lemma atoi_nonneg s a n : 0 ≤ a → atoi_digits s a = Some n → 0 ≤ n.
Proof.
  revert a. induction s as [|c s IH]; intros a Ha; cbn [atoi_digits]; [intros [= <-]; done|].
  intros (d & Hd & Hn)%bind_Some. revert Hn. apply IH. unfold digit_val, is_digit in Hd.
  destruct (Z.leb_spec 48 (code c)), (Z.leb_spec (code c) 57); cbn in Hd; try done. injection Hd as <-. lia.
Qed.

Lemma Atoi_int64 s n : Atoi s = Some n → n ≤ maxInt64.
Proof.
  unfold Atoi, ParseInt, maxInt64. destruct (match s with "" => _ | _ => _ end) as [neg ds].
  destruct (String.eqb ds ""); [done|]. intros (m & Hm & Hn)%bind_Some.
  apply atoi_nonneg in Hm; [|done]. destruct neg.
  - destruct (2 ^ 63 <? m); [done|]. injection Hn as <-. lia.
  - destruct (Z.leb_spec (2 ^ 63) m); [done|]. injection Hn as <-. lia.
Qed.

Lemma parsePart_range part min max lo hi step : parsePart part min max = Some (lo, hi, step) →
  min ≤ lo ∧ hi ≤ max ∧ lo ≤ hi ∧ 0 < step ≤ maxInt64.
Proof.
  unfold parsePart. intros Hp.
  apply bind_Some in Hp as ([body st] & Hbs & Hp). cbn [fst snd] in Hp.
  apply bind_Some in Hp as ([lo' hi'] & Hlh & Hp).
  destruct (_ || _) eqn:Hor in Hp; [done|]. injection Hp as -> -> ->. bool_to_prop.
  split_and!; [lia..| |].
  - destruct (0 <=? IndexByte part "/"); [|by injection Hbs as _ <-].
    apply bind_Some in Hbs as (s & Hs & Hbs). destruct (Z.leb_spec s 0); [done|]. injection Hbs as _ <-. lia.
  - destruct (0 <=? IndexByte part "/"); [|injection Hbs as _ <-; unfold maxInt64; lia].
    apply bind_Some in Hbs as (s & Hs & Hbs). destruct (Z.leb_spec s 0); [done|]. injection Hbs as _ <-.
    by eapply Atoi_int64.
Qed.

Lemma part_step_spec norm min max mask part : 0 ≤ min → max ≤ 59 →
  match part_step norm min max mask part with
  | None => parsePart part min max = None
  | Some mask' => is_Some (parsePart part min max) ∧
      (part_ok min max part → ∀ i, 0 ≤ i < 64 →
        Z.testbit mask' i = true ↔ Z.testbit mask i = true ∨ part_denotes min max norm part i)
  end.
Proof.
  intros Hmin Hmax. unfold part_step, part_denotes, part_ok.
  destruct (parsePart part min max) as [[[lo hi] step]|] eqn:Hp; [|done]. cbn [mbind option_bind].
  destruct (parsePart_range _ _ _ _ _ _ Hp) as (H1 & H2 & H3 & H4).
  destruct (Z.le_gt_cases step step_bound) as [Hs|Hs].
  - destruct (part_loop_bits norm hi step ltac:(lia) ltac:(lia) part_fuel lo mask) as (mask' & -> & Hm);
      [lia|unfold part_fuel; lia|].
    split; [eauto|]. intros _ i Hi. rewrite Hm by done. apply or_iff_compat_l. split.
    + intros (k & Hk & Hle & Hn). exists lo, hi, step, (lo + k * step).
      split_and!; [done|nia|done| |done]. replace (lo + k * step - lo) with (k * step) by lia.
      apply Z.mod_mul. lia.
    + intros (lo' & hi' & step' & v & [= <- <- <-] & Hv & Hd & Hn).
      exists ((v - lo) / step). pose proof (Z.div_mod (v - lo) step ltac:(lia)) as Hdm. rewrite Hd in Hdm.
      replace (lo + (v - lo) / step * step) with v by lia.
      split_and!; [apply Z.div_pos; lia|lia|done].
  - destruct (part_loop_wraps norm hi step ltac:(lia) ltac:(lia) part_fuel lo mask) as [mask' ->];
      [lia|unfold part_fuel; lia|].
    split; [eauto|]. intros (lo' & hi' & step' & [= <- <- <-] & Hle). lia.
Qed.

Lemma parse_parts norm min max parts mask : 0 ≤ min → max ≤ 59 →
  match for_range (part_step norm min max) parts mask with
  | None => ∃ part, part ∈ parts ∧ parsePart part min max = None
  | Some mask' => (∀ part, part ∈ parts → is_Some (parsePart part min max)) ∧
      ((∀ part, part ∈ parts → part_ok min max part) → ∀ i, 0 ≤ i < 64 →
        Z.testbit mask' i = true ↔
          Z.testbit mask i = true ∨ ∃ part, part ∈ parts ∧ part_denotes min max norm part i)
  end.
Proof.
  intros Hmin Hmax. revert mask. induction parts as [|p parts IH]; intros mask.
  - cbn. split; [intros p Hp; by apply elem_of_nil in Hp|]. intros _ i Hi. split; [by left|].
    intros [?|(p & Hp & _)]; [done|by apply elem_of_nil in Hp].
  - rewrite for_range_cons. pose proof (part_step_spec norm min max mask p Hmin Hmax) as Hp.
    destruct (part_step norm min max mask p) as [m|]; cbn [mbind option_bind]; [|exists p; split; [by left|done]].
    destruct Hp as [Hs Hm]. specialize (IH m). destruct (for_range _ parts m) as [m'|].
    + destruct IH as [Hall Hbits]. split.
      * intros q [->|Hq]%elem_of_cons; [done|by apply Hall].
      * intros Hok i Hi. rewrite Hbits by (done || (intros q Hq; apply Hok; by right)).
        rewrite Hm by (done || (apply Hok; by left)). setoid_rewrite elem_of_cons. split.
        -- intros [[?|?]|(q & ? & ?)]; [by left|right; exists p; auto|right; exists q; auto].
        -- intros [?|(q & [->|Hq] & Hd)]; [by left; left|by left; right|right; by exists q].
    + destruct IH as (q & Hq & Hn). exists q. split; [by right|done].
Qed.

(** The fields of a cron expression.  A star is every value of the field and
    restricts nothing; any other field is refused iff one of its comma-separated
    parts is, and otherwise its mask has exactly the bits of the values its parts
    denote: [a], [a-b], [*/n], [a-b/n] and [a/n], counted from the part's own
    start and with 7 folded onto 0 for weekdays.  The parser always returns.  The
    masks are stated for steps up to 2^63 - 60; larger ones wrap the loop counter. *)
Theorem parseField_spec field min max norm : 0 ≤ min → max ≤ 59 →
  match parseField field min max norm with
  | None => field ≠ "*" ∧ ∃ part, part ∈ Split "," field ∧ parsePart part min max = None
  | Some (mask, restricted) =>
      restricted = negb (bool_decide (field = "*")) ∧
      (field = "*" → ∀ i, 0 ≤ i < 64 → has_bit mask i = true ↔ min ≤ i ≤ max) ∧
      (field ≠ "*" → (∀ part, part ∈ Split "," field → is_Some (parsePart part min max)) ∧
         ((∀ part, part ∈ Split "," field → part_ok min max part) → ∀ i, 0 ≤ i < 64 →
            has_bit mask i = true ↔ ∃ part, part ∈ Split "," field ∧ part_denotes min max norm part i))
  end.
Proof.
  intros Hmin Hmax. unfold parseField. destruct (String.eqb_spec field "*") as [->|Hne].
  - rewrite bool_decide_eq_true_2 by done. split_and!; [done| |done]. intros _ i Hi.
    rewrite has_bit_testbit, rangeMask_bits by lia. rewrite andb_true_iff. lia.
  - pose proof (parse_parts norm min max (Split "," field) 0 Hmin Hmax) as Hp.
    destruct (for_range _ _ 0) as [mask|]; cbn [mbind option_bind]; [|done].
    rewrite bool_decide_eq_false_2 by done. destruct Hp as [Hall Hbits].
    split_and!; [done|done|]. intros _. split; [done|]. intros Hok i Hi.
    rewrite has_bit_testbit, Hbits by done. rewrite Z.bits_0. naive_solver.
Qed.

Lemma parseField_spec_witness :
  match parseField "1-7/3,0" 0 7 normalizeDOW with
  | None => "1-7/3,0" ≠ "*" ∧ ∃ part, part ∈ Split "," "1-7/3,0" ∧ parsePart part 0 7 = None
  | Some (mask, restricted) =>
      restricted = negb (bool_decide ("1-7/3,0" = "*")) ∧
      ("1-7/3,0" = "*" → ∀ i, 0 ≤ i < 64 → has_bit mask i = true ↔ 0 ≤ i ≤ 7) ∧
      ("1-7/3,0" ≠ "*" → (∀ part, part ∈ Split "," "1-7/3,0" → is_Some (parsePart part 0 7)) ∧
         ((∀ part, part ∈ Split "," "1-7/3,0" → part_ok 0 7 part) → ∀ i, 0 ≤ i < 64 →
            has_bit mask i = true ↔
            ∃ part, part ∈ Split "," "1-7/3,0" ∧ part_denotes 0 7 normalizeDOW part i))
  end.
Proof. apply (parseField_spec "1-7/3,0" 0 7 normalizeDOW); lia. Defined.

Example parseField_values :
  parseField "1-7/3,0" 0 7 normalizeDOW = Some (2 ^ 0 + 2 ^ 1 + 2 ^ 4, true) ∧
  parseField "*/20" 0 59 id = Some (2 ^ 0 + 2 ^ 20 + 2 ^ 40, true) ∧
  parseField "5-2" 0 59 id = None ∧ parseField "" 0 59 id = None.
Proof. vm_compute. done. Qed.

(** A step near 2^63 wraps the counter and sets the bits of values below its
    start: the fifth minute alone was asked for. *)
Example huge_step_sets_lower_bits :
  parseField "5/9223372036854775807" 0 59 id = Some (2 ^ 1 + 2 ^ 3 + 2 ^ 5, true).
Proof. vm_compute. done. Qed.

(** ** Firing instants *)

Definition minute_hit (s : cronSpec) (z : Z) : bool :=
  has_bit (s_hour s) (z / 60) && has_bit (s_min s) (z mod 60).

Definition minute_of (t : Z) : Z := t mod Day / Minute.

(** A whole minute the spec names. *)
Definition fires (s : cronSpec) (t : Z) : Prop :=
  t mod Minute = 0 ∧ dayMatches s (day_of t) = true ∧ minute_hit s (minute_of t) = true.

Lemma minute_loop_spec s m :
  match minute_loop s m with
  | Some z => 0 ≤ z ≤ Z.of_nat m ∧ minute_hit s z = true ∧
      ∀ z', 0 ≤ z' ≤ Z.of_nat m → minute_hit s z' = true → z' ≤ z
  | None => ∀ z', 0 ≤ z' ≤ Z.of_nat m → minute_hit s z' = false
  end.
Proof.
  induction m as [|m IH]; cbn [minute_loop];
    match goal with |- context [has_bit (s_hour s) (?z / 60) && _] => fold (minute_hit s z) end.
  - destruct (minute_hit s (Z.of_nat 0)) eqn:E.
    + split_and!; [lia|lia|done|]. intros z' Hz _. lia.
    + intros z' Hz. by replace z' with (Z.of_nat 0) by lia.
  - destruct (minute_hit s (Z.of_nat (S m))) eqn:E.
    + split_and!; [lia|lia|done|]. intros z' Hz _. lia.
    + destruct (minute_loop s m) as [z|].
      * destruct IH as (H1 & H2 & H3). split_and!; [lia|lia|done|]. intros z' Hz Hh.
        destruct (decide (z' = Z.of_nat (S m))) as [->|]; [congruence|]. apply H3; [lia|done].
      * intros z' Hz. destruct (decide (z' = Z.of_nat (S m))) as [->|]; [done|]. apply IH. lia.
Qed.

(** An instant is its day and its minute. *)
Lemma DateUTC_at D z : 0 ≤ z < 1440 → DateUTC (civil D) (z / 60) (z mod 60) = D * Day + z * Minute.
Proof.
  intros Hz. unfold DateUTC. rewrite days_of_civil. unfold Hour.
  pose proof (Z.div_mod z 60 ltac:(lia)). nia.
Qed.

Lemma at_day D z : 0 ≤ z < 1440 →
  let t := D * Day + z * Minute in day_of t = D ∧ minute_of t = z ∧ t mod Minute = 0.
Proof.
  intros Hz t. unfold day_of, minute_of, t.
  assert (HD : Day = 1440 * Minute) by reflexivity. assert (HM : 0 < Minute) by reflexivity.
  rewrite HD. assert (Hb : 0 ≤ z * Minute < 1440 * Minute) by nia.
  rewrite Z.div_add_l, (Z.div_small (z * Minute)) by lia.
  rewrite Z.add_comm at 1. split; [lia|]. split.
  - rewrite (Z.add_comm (D * _)), Z_mod_plus_full, Z.mod_small by lia. apply Z.div_mul. lia.
  - replace (D * (1440 * Minute) + z * Minute) with ((D * 1440 + z) * Minute) by lia. apply Z.mod_mul. lia.
Qed.

Lemma split_instant t : t mod Minute = 0 →
  t = day_of t * Day + minute_of t * Minute ∧ 0 ≤ minute_of t < 1440.
Proof.
  intros Hm. unfold day_of, minute_of.
  assert (HD : Day = 1440 * Minute) by reflexivity. assert (HM : 0 < Minute) by reflexivity.
  pose proof (Z.div_mod t Day ltac:(lia)) as H1. pose proof (Z.mod_pos_bound t Day ltac:(lia)) as H2.
  assert (Hdd : (t mod Day) mod Minute = 0).
  { rewrite HD, Z.mul_comm, Z.rem_mul_r by lia. rewrite Hm, Z.add_0_l, Z.mul_comm. apply Z.mod_mul. lia. }
  pose proof (Z.div_mod (t mod Day) Minute ltac:(lia)) as H3.
  split; [lia|]. split; [apply Z.div_pos; lia|]. apply Z.div_lt_upper_bound; lia.
Qed.

Definition latest_between (s : cronSpec) (now first last : Z) (r : option Z) : Prop :=
  match r with
  | Some t => fires s t ∧ t ≤ now ∧ first ≤ day_of t ≤ last ∧
      ∀ t', fires s t' → t' ≤ now → day_of t' ≤ last → t' ≤ t
  | None => ∀ t', fires s t' → t' ≤ now → day_of t' ≤ last → day_of t' < first
  end.

Lemma day_loop_spec s now n d : now mod Minute = 0 → 0 ≤ d →
  latest_between s now (day_of now - d - Z.of_nat n + 1) (day_of now - d) (day_loop s now n d).
Proof.
  intros Hnow. assert (HM : 0 < Minute) by reflexivity. assert (HD : Day = 1440 * Minute) by reflexivity.
  destruct (split_instant now Hnow) as [Heq Hmin].
  revert d. induction n as [|n IH]; intros d Hd; cbn [day_loop]; [intros t' _ _ ?; lia|].
  set (D := day_of now - d). set (maxMin := if d =? 0 then _ else _).
  assert (Hmm : 0 ≤ maxMin < 1440 ∧ ∀ z, 0 ≤ z < 1440 → D * Day + z * Minute ≤ now ↔ z ≤ maxMin).
  { unfold maxMin. fold (minute_of now). destruct (Z.eqb_spec d 0) as [->|].
    - split; [done|]. intros z Hz. unfold D. rewrite Z.sub_0_r. nia.
    - split; [lia|]. intros z Hz. unfold D. split; [lia|]. intros _. nia. }
  destruct Hmm as [Hr Hz].
  pose proof (minute_loop_spec s (Z.to_nat maxMin)) as Hml. rewrite Z2Nat.id in Hml by lia.
  assert (Hday : ∀ t', fires s t' → t' ≤ now → day_of t' = D →
    dayMatches s D = true ∧ minute_hit s (minute_of t') = true ∧ 0 ≤ minute_of t' ≤ maxMin ∧
    t' = D * Day + minute_of t' * Minute).
  { intros t' (Hm & Hdm & Hh) Hle HtD. destruct (split_instant t' Hm) as [Ht' Hz']. rewrite HtD in *.
    split_and!; try done; [lia|]. apply (Hz (minute_of t') Hz'). lia. }
  set (r := if dayMatches s D then minute_loop s (Z.to_nat maxMin) else None).
  assert (Hrn : r = None → ∀ t', fires s t' → t' ≤ now → day_of t' ≠ D).
  { intros Hnone t' Hf Hle HtD. destruct (Hday t' Hf Hle HtD) as (Hdm & Hh & Hb & _).
    unfold r in Hnone. rewrite Hdm in Hnone. rewrite Hnone in Hml. rewrite Hml in Hh by lia. done. }
  destruct r as [z|] eqn:Er.
  - unfold r in Er. destruct (dayMatches s D) eqn:Hdm; [|done]. rewrite Er in Hml.
    destruct Hml as (Hz0 & Hhit & Hmax). rewrite DateUTC_at by lia.
    destruct (at_day D z ltac:(lia)) as (E1 & E2 & E3).
    split; [unfold fires; by rewrite E1, E2|]. split; [apply Hz; lia|]. rewrite E1. split; [lia|].
    intros t' Hf Hle Hlast. destruct (decide (day_of t' = D)) as [HtD|HtD].
    + destruct (Hday t' Hf Hle HtD) as (_ & Hh & Hb & ->). specialize (Hmax _ Hb Hh). nia.
    + destruct (split_instant t' (proj1 Hf)) as [Ht' Hb].
      assert (day_of t' * Day ≤ (D - 1) * Day) by (apply Z.mul_le_mono_nonneg_r; lia).
      assert (minute_of t' * Minute ≤ 1439 * Minute) by (apply Z.mul_le_mono_nonneg_r; lia).
      assert (0 ≤ z * Minute) by (apply Z.mul_nonneg_nonneg; lia). lia.
  - specialize (IH (d + 1) ltac:(lia)).
    replace (day_of now - (d + 1) - Z.of_nat n + 1) with (day_of now - d - Z.of_nat (S n) + 1) in IH by lia.
    replace (day_of now - (d + 1)) with (D - 1) in IH by (unfold D; lia).
    specialize (Hrn eq_refl). unfold latest_between in *. destruct (day_loop s now n (d + 1)) as [t|].
    + destruct IH as (H1 & H2 & H3 & H4). split_and!; [done|done|lia|lia|].
      intros t' Hf Hle Hlast. apply H4; [done|done|]. specialize (Hrn t' Hf Hle). lia.
    + intros t' Hf Hle Hlast. apply IH; [done|done|]. specialize (Hrn t' Hf Hle). lia.
Qed.

(** The latest firing at or before now, among the last 401 days. *)
Lemma prevFire_spec s now :
  latest_between s now (day_of now - 400) (day_of now) (prevFire s now).
Proof.
  unfold prevFire. set (n0 := now - now mod Minute).
  assert (HM : 0 < Minute) by reflexivity. assert (HD : Day = 1440 * Minute) by reflexivity.
  pose proof (Z.mod_pos_bound now Minute HM) as Hb. pose proof (Z.div_mod now Minute ltac:(lia)) as Hdm.
  assert (H0 : n0 mod Minute = 0).
  { unfold n0. replace (now - now mod Minute) with (now / Minute * Minute) by lia. apply Z.mod_mul. lia. }
  assert (Hday : day_of n0 = day_of now).
  { unfold day_of. rewrite HD, Z.mul_comm, <- !Z.div_div by lia. f_equal.
    unfold n0. replace (now - now mod Minute) with (now / Minute * Minute) by lia. apply Z.div_mul. lia. }
  assert (Hle : ∀ t', fires s t' → t' ≤ now ↔ t' ≤ n0).
  { intros t' (Hm & _). split; [|lia]. intros Ht. pose proof (Z.div_mod t' Minute ltac:(lia)). 
    assert (t' / Minute ≤ now / Minute) by (apply Z.div_le_mono; lia). unfold n0. nia. }
  pose proof (day_loop_spec s n0 401 0 H0 ltac:(lia)) as Hs. rewrite Hday in Hs.
  replace (day_of now - 0 - Z.of_nat 401 + 1) with (day_of now - 400) in Hs by lia.
  rewrite Z.sub_0_r in Hs. unfold latest_between in *. destruct (day_loop s n0 401 0) as [t|].
  - destruct Hs as (H1 & H2 & H3 & H4). split_and!; [done|by apply Hle|lia|lia|].
    intros t' Hf Ht Hl. apply H4; [done|by apply Hle|done].
  - intros t' Hf Ht Hl. apply Hs; [done|by apply Hle|done].
Qed.

Lemma day_of_mono t u : t ≤ u → day_of t ≤ day_of u.
Proof. intros. unfold day_of. apply Z.div_le_mono; [reflexivity|done]. Qed.

(** The tick of a cadence.  An uninterpretable cadence has none; any other has
    as its tick the latest whole minute, at or before now and among the 400 days
    before today and today, that its cron fields name, and none iff no minute of
    those days is named.  The tick is stable: until the next firing, and while the
    last one is within 400 days, every later poll resolves to the same tick. *)
Theorem DispatchTick_latest ToLower Fields order now cadence :
  match cadenceSpec ToLower Fields order cadence with
  | None => DispatchTick ToLower Fields order now cadence = None
  | Some s =>
      let tick := DispatchTick ToLower Fields order now cadence in
      latest_between s now (day_of now - 400) (day_of now) tick ∧
      ∀ later t, tick = Some t → now ≤ later → day_of later ≤ day_of t + 400 →
        (∀ t', fires s t' → t' ≤ later → t' ≤ now) →
        DispatchTick ToLower Fields order later cadence = Some t
  end.
Proof.
  unfold DispatchTick. destruct (cadenceSpec _ _ _ _) as [s|]; [|done]. cbn [mbind option_bind].
  pose proof (prevFire_spec s now) as Hn. split; [done|]. intros later t Ht Hle Hd Hno.
  rewrite Ht in Hn. destruct Hn as (Hf & Htn & Hdt & Hmax). pose proof (prevFire_spec s later) as Hl.
  pose proof (day_of_mono t later ltac:(lia)). destruct (prevFire s later) as [t2|].
  - destruct Hl as (Hf2 & Ht2 & _ & Hmax2). f_equal.
    assert (t2 ≤ now) by by apply Hno.
    assert (t2 ≤ t) by (apply Hmax; [done|done|by apply day_of_mono]).
    assert (t ≤ t2) by (apply Hmax2; [done|lia|done]). lia.
  - exfalso. specialize (Hl t Hf ltac:(lia) ltac:(lia)). lia.
Qed.

(** Four hundred days do not cover a date that comes every four years: a cron that
    names 29 February is accepted and, most of the time, has no tick. *)
Definition space_fields (s : string) : list string := Split " " s.

Example leap_day_cron_has_no_tick :
  ValidateCron space_fields "0 0 29 2 *" = true ∧
  DispatchTick id space_fields weekdays (DateUTC (mkDate 2024 2 29) 8 0) "0 0 29 2 *" =
    Some (DateUTC (mkDate 2024 2 29) 0 0) ∧
  DispatchTick id space_fields weekdays (DateUTC (mkDate 2026 7 1) 8 0) "0 0 29 2 *" = None.
Proof. vm_compute. done. Qed.

(** A preset that names two weekdays fires on whichever the map yields first. *)
Example two_weekdays_depend_on_the_map :
  let now := DateUTC (mkDate 2026 7 1) 12 0 in
  DispatchTick id space_fields weekdays now "weekly mon fri 08:30" =
    Some (DateUTC (mkDate 2026 6 29) 8 30) ∧
  DispatchTick id space_fields (reverse weekdays) now "weekly mon fri 08:30" =
    Some (DateUTC (mkDate 2026 6 26) 8 30).
Proof. vm_compute. done. Qed.

(** ** The dispatcher *)

Definition tick_key (d : ReportDelivery) : option (Z * Z) := pair (rd_ScheduleID d) <$> rd_ScheduledTick d.
Definition no_key (d : ReportDelivery) : Z * Z := (rd_ScheduleID d, rd_No d).

(** One delivery a tick of a schedule, and delivery numbers of a schedule that are
    positive and distinct. *)
Definition reports_ok (st : report_store) : Prop :=
  NoDup (omap tick_key (rs_deliveries st)) ∧ NoDup (map no_key (rs_deliveries st)) ∧
  Forall (λ d, 0 < rd_No d) (rs_deliveries st).

Lemma foldr_max_ge l x : x ∈ l → x ≤ foldr Z.max 0 l.
Proof. induction l as [|y l IH]; [by intros ?%elem_of_nil|]. intros [->|Hx]%elem_of_cons; cbn; [lia|]. specialize (IH Hx). lia. Qed.

Lemma foldr_max_nonneg l : 0 ≤ foldr Z.max 0 l.
Proof. induction l; cbn; lia. Qed.

Lemma NextReportDeliveryNo_fresh st id d : d ∈ rs_deliveries st → rd_ScheduleID d = id →
  rd_No d < NextReportDeliveryNo st id.
Proof.
  intros Hd Hid. unfold NextReportDeliveryNo.
  enough (rd_No d ≤ foldr Z.max 0 (map rd_No (filter (λ d, rd_ScheduleID d = id) (rs_deliveries st)))) by lia.
  apply foldr_max_ge, list_elem_of_fmap_2. by apply list_elem_of_filter.
Qed.

Definition fresh_tick (st : report_store) (id tick : Z) : Prop :=
  (id, tick) ∉ omap tick_key (rs_deliveries st).

Lemma TryInsert_spec st newID sc tick window no :
  match TryInsertScheduledDelivery st newID sc tick window no with
  | Some d => d = mkDelivery newID (sc_ID sc) (TimeAdd tick (- window)) tick no (Some tick) ∧
      fresh_tick st (sc_ID sc) tick
  | None => (sc_ID sc, tick) ∈ omap tick_key (rs_deliveries st)
  end.
Proof.
  unfold TryInsertScheduledDelivery, fresh_tick.
  assert (Hk : ∀ d, tick_key d = Some (sc_ID sc, tick) ↔
    (rd_ScheduleID d =? sc_ID sc) && bool_decide (rd_ScheduledTick d = Some tick) = true).
  { intros d. unfold tick_key. rewrite andb_true_iff, Z.eqb_eq, bool_decide_eq_true.
    destruct (rd_ScheduledTick d) as [t|]; cbn; split.
    - by intros [= -> ->].
    - by intros [-> [= ->]].
    - done.
    - by intros [_ ?]. }
  destruct (existsb _ _) eqn:E.
  - apply existsb_bool in E as (d & Hd & Hb). apply list_elem_of_omap. exists d. split; [done|]. by apply Hk.
  - split; [done|]. rewrite list_elem_of_omap. intros (d & Hd & Hb). apply Hk in Hb.
    assert (existsb (λ d, (rd_ScheduleID d =? sc_ID sc) && bool_decide (rd_ScheduledTick d = Some tick))
      (rs_deliveries st) = true) by (apply existsb_bool; eauto). congruence.
Qed.

Lemma dispatchOne_ok st newID sc tick window : reports_ok st → reports_ok (dispatchOne st newID sc tick window).
Proof.
  intros (H1 & H2 & H3). unfold dispatchOne.
  pose proof (TryInsert_spec st newID sc tick window (NextReportDeliveryNo st (sc_ID sc))) as Ht.
  destruct (TryInsertScheduledDelivery _ _ _ _ _ _) as [d|]; [|done]. destruct Ht as [-> Hf].
  split_and!; cbn [rs_deliveries].
  - rewrite omap_app. cbn. apply NoDup_app. split; [done|]. split; [|apply NoDup_singleton].
    intros k Hk Hs. apply list_elem_of_singleton in Hs as ->. by apply Hf.
  - rewrite map_app. apply NoDup_app. split; [done|]. split; [|apply NoDup_singleton].
    intros k Hk Hs. cbn in Hs. apply list_elem_of_singleton in Hs as ->.
    apply list_elem_of_fmap in Hk as (d & Hd & Hin). unfold no_key in Hd. cbn in Hd. injection Hd as Hid Hno.
    pose proof (NextReportDeliveryNo_fresh st (sc_ID sc) d Hin (eq_sym Hid)). lia.
  - apply Forall_app. split; [done|]. constructor; [|constructor]. cbn. unfold NextReportDeliveryNo.
    pose proof (foldr_max_nonneg (map rd_No (filter (λ d, rd_ScheduleID d = sc_ID sc) (rs_deliveries st)))). lia.
Qed.

Section DispatchProperties.
Context {W : Type} (clock : St W Z) (ranges : St W (list (string * Z))) (next_id : St W Z) (commits : St W bool).
Context (ToLower : string → string) (Fields : string → list string).

#[local] Notation step := (dispatch_step clock ranges next_id commits ToLower Fields).
#[local] Notation due := (dispatchDue clock ranges next_id commits ToLower Fields).

(** What the world gives a poll for one schedule: its tick by the clock and the
    order of that call, the id of a new row, and whether the transaction commits. *)
Definition draw (sc : ReportSchedule) : St W (option (Z * Z * bool)) :=
  now ← clock;
  order ← ranges;
  match DispatchTick ToLower Fields order now (sc_Cadence sc) with
  | None => mret None
  | Some tick => newID ← next_id; ok ← commits; mret (Some (tick, newID, ok))
  end.

Definition keys_of (st : report_store) : list (Z * Z) := omap tick_key (rs_deliveries st).

(** A new row of a schedule: drawn and committed, at a tick without a row. *)
Definition made (zs : list (ReportSchedule * option (Z * Z * bool))) (st : report_store) (sd : ReportSchedule * ReportDelivery) : Prop :=
  ∃ tick newID, (sd.1, Some (tick, newID, true)) ∈ zs ∧ (sc_ID sd.1, tick) ∉ keys_of st ∧
    sd.2 = mkDelivery newID (sc_ID sd.1) (TimeAdd tick (- CadenceWindow ToLower (sc_Cadence sd.1))) tick (rd_No sd.2) (Some tick).

Definition notices (sd : ReportSchedule * ReportDelivery) : list (Z * Z) :=
  match sc_ChannelID sd.1 with Some ch => [(rd_ID sd.2, ch)] | None => [] end.

(** What a poll over some schedules did to the tables. *)
Definition polled (zs : list (ReportSchedule * option (Z * Z * bool))) (st st' : report_store) : Prop :=
  (reports_ok st → reports_ok st') ∧ rs_schedules st' = rs_schedules st ∧
  (∃ new, Forall (made zs st) new ∧
    rs_deliveries st' = rs_deliveries st ++ map snd new ∧
    rs_notifications st' = rs_notifications st ++ flat_map notices new) ∧
  ∀ sc tick newID, (sc, Some (tick, newID, true)) ∈ zs → (sc_ID sc, tick) ∈ keys_of st'.

Lemma polled_refl zs st : (∀ sc tick newID, (sc, Some (tick, newID, true)) ∈ zs → (sc_ID sc, tick) ∈ keys_of st) → polled zs st st.
Proof. intros H. split_and!; [done|done| |done]. exists []. cbn. by rewrite !app_nil_r. Qed.

Lemma keys_grow st st' (new : list (ReportSchedule * ReportDelivery)) : rs_deliveries st' = rs_deliveries st ++ map snd new → ∀ k, k ∈ keys_of st → k ∈ keys_of st'.
Proof. unfold keys_of. intros -> k Hk. rewrite omap_app, elem_of_app. by left. Qed.

Lemma polled_trans z zs st1 st2 st3 : polled [z] st1 st2 → polled zs st2 st3 → polled (z :: zs) st1 st3.
Proof.
  intros (H1 & H2 & (n1 & Hn1 & Hd1 & Hc1) & K1) (H3 & H4 & (n2 & Hn2 & Hd2 & Hc2) & K2).
  split; [auto|]. split; [congruence|]. split.
  - exists (n1 ++ n2). rewrite map_app, flat_map_app, Hd2, Hc2, Hd1, Hc1.
    split_and!; [|by rewrite app_assoc|by rewrite app_assoc]. apply Forall_app. split.
    + eapply Forall_impl; [exact Hn1|]. intros sd (tick & newID & Hin & Hm). exists tick, newID.
      apply list_elem_of_singleton in Hin. split; [rewrite Hin; by left|done].
    + eapply Forall_impl; [exact Hn2|]. intros sd (tick & newID & Hin & Hno & Hm). exists tick, newID. split; [by right|].
      split; [|done]. intros Hk. apply Hno. by eapply keys_grow.
  - intros sc tick newID [Hin|Hin]%elem_of_cons; [|by eapply K2].
    eapply keys_grow; [exact Hd2|]. apply (K1 sc tick newID). rewrite Hin. by left.
Qed.

Lemma dispatch_step_polled st sc w :
  let '(z, w') := draw sc w in polled [(sc, z)] st (step st sc w).1 ∧ (step st sc w).2 = w'.
Proof.
  unfold dispatch_step, draw, mbind, St_bind, mret, St_ret. destruct (clock w) as [now w0], (ranges w0) as [order w1].
  assert (∀ z, (∀ tick newID, z ≠ Some (tick, newID, true)) → polled [(sc, z)] st st) as Hnone.
  { intros z Hz. apply polled_refl. intros sc' tick newID [= _ E]%list_elem_of_singleton. by destruct (Hz tick newID). }
  destruct (DispatchTick ToLower Fields order now (sc_Cadence sc)) as [tick|]; [|split; [by apply Hnone|done]].
  destruct (next_id w1) as [newID w2], (commits w2) as [[] w3]; (split; [|done]); [|by apply Hnone]. cbn [fst].
  split; [apply dispatchOne_ok|]. unfold dispatchOne. set (window := CadenceWindow ToLower (sc_Cadence sc)).
  pose proof (TryInsert_spec st newID sc tick window (NextReportDeliveryNo st (sc_ID sc))) as Hi.
  destruct (TryInsertScheduledDelivery _ _ _ _ _ _) as [d|].
  - destruct Hi as [-> Hno]. split; [done|]. split.
    + eexists [(sc, _)]. split; [|split; [reflexivity|cbn; by rewrite app_nil_r]].
      constructor; [|constructor]. exists tick, newID. split; [by left|done].
    + intros sc' tick' newID' [= -> -> _]%list_elem_of_singleton. unfold keys_of. cbn [rs_deliveries].
      rewrite omap_app, elem_of_app. right. by left.
  - apply polled_refl. by intros sc' tick' newID' [= -> -> _]%list_elem_of_singleton.
Qed.

Lemma dispatch_items_polled items st w :
  let '(zs, w') := ask_each draw items w in
  polled (zip items zs) st (for_each step items st w).1 ∧ (for_each step items st w).2 = w'.
Proof.
  revert st w. induction items as [|sc items IH]; intros st w.
  { cbn. split; [|done]. apply polled_refl. by intros ? ? ? ?%not_elem_of_nil. }
  cbn [for_each ask_each]. unfold mbind, St_bind, mret, St_ret. pose proof (dispatch_step_polled st sc w) as H1.
  destruct (draw sc w) as [z w1], (step st sc w) as [st1 w1']. cbn [fst snd] in H1. destruct H1 as [H1 ->].
  specialize (IH st1 w1). destruct (ask_each draw items w1) as [zs w2]. destruct IH as [IH1 IH2]. split; [|done]. by eapply polled_trans.
Qed.

(** [C38] A firing makes one delivery.  A poll asks, for each schedule of the list,
    for its tick (by the clock and by the order in which Go ranges over the
    weekdays at that call) and whether its transaction commits.  After it every
    tick that committed has its row; the rows it added are each for a schedule, at
    such a tick that had none, for the period the cadence covers up to the tick,
    with one notice iff the schedule has a channel; nothing else is added and
    nothing changed.  The tables keep one delivery a tick of a schedule, and
    numbers positive and distinct within a schedule; and a poll at which every
    tick that commits has its delivery changes nothing. *)
Theorem dispatchDue_once_per_tick st w : reports_ok st →
  let '(zs, w') := ask_each draw (rs_schedules st) w in
  let st' := (due st w).1 in
  (due st w).2 = w' ∧ reports_ok st' ∧ rs_schedules st' = rs_schedules st ∧
  (∀ sc tick newID, (sc, Some (tick, newID, true)) ∈ zip (rs_schedules st) zs → (sc_ID sc, tick) ∈ keys_of st') ∧
  (∃ new, Forall (made (zip (rs_schedules st) zs) st) new ∧
    rs_deliveries st' = rs_deliveries st ++ map snd new ∧
    rs_notifications st' = rs_notifications st ++ flat_map notices new) ∧
  ((∀ sc tick newID, (sc, Some (tick, newID, true)) ∈ zip (rs_schedules st) zs → (sc_ID sc, tick) ∈ keys_of st) → st' = st).
Proof.
  intros Hok. pose proof (dispatch_items_polled (rs_schedules st) st w) as Hp. unfold dispatchDue.
  destruct (ask_each draw (rs_schedules st) w) as [zs w']. destruct Hp as [(H1 & H2 & Hnew & H4) Hw].
  cbv zeta. split_and!; [done|by apply H1|done|done|done|]. intros Hall. destruct Hnew as (new & Hn & Hd & Hc).
  assert (new = []) as ->.
  { destruct new as [|sd new]; [done|]. apply Forall_cons in Hn as [(tick & newID & Hin & Hno & _) _]. by destruct Hno; eapply Hall. }
  cbn in Hd, Hc. rewrite !app_nil_r in *. destruct (for_each _ _ _ _).1, st. cbn in *. congruence.
Qed.
End DispatchProperties.

Definition sample_reports : report_store := mkReports [mkSchedule 3 "daily 06:00" (Some 8)] [] [].
Definition noon : Z := DateUTC (mkDate 2026 7 1) 12 0.
(** The order of the weekdays turns over from call to call. *)
Definition sample_ranges (w : Z) : list (string * Z) * Z := (if Z.even w then weekdays else reverse weekdays, w + 1).

#[local] Notation sample_due := (dispatchDue (λ w : Z, (noon, w)) sample_ranges (λ w, (w, w + 1)) (λ w, (true, w)) id space_fields).

Lemma dispatchDue_once_per_tick_witness :
  let st := sample_reports in
  let six := DateUTC (mkDate 2026 7 1) 6 0 in
  reports_ok (sample_due st 1).1 ∧ (3, six) ∈ keys_of (sample_due st 1).1.
Proof.
  intros st six.
  assert (reports_ok st) as Hok by (repeat split; constructor).
  pose proof (dispatchDue_once_per_tick (λ w : Z, (noon, w)) sample_ranges (λ w, (w, w + 1)) (λ w, (true, w)) id space_fields st 1 Hok) as H.
  assert (ask_each (draw (λ w : Z, (noon, w)) sample_ranges (λ w, (w, w + 1)) (λ w, (true, w)) id space_fields) (rs_schedules st) 1 =
    ([Some (six, 2, true)], 3)) as E by (vm_compute; reflexivity).
  rewrite E in H. destruct H as (_ & H1 & _ & H2 & _). split; [exact H1|].
  apply (H2 (mkSchedule 3 "daily 06:00" (Some 8)) six 2). by left.
Defined.

Example one_delivery :
  let six := DateUTC (mkDate 2026 7 1) 6 0 in
  let st := mkReports [mkSchedule 3 "daily 06:00" (Some 8)]
              [mkDelivery 2 3 (six - Day) six 1 (Some six)] [(2, 8)] in
  (sample_due sample_reports 1).1 = st ∧ (sample_due st 3).1 = st.
Proof. vm_compute. done. Qed.

(** Two polls a minute apart take the weekdays of one preset in two orders, and
    its one firing makes two deliveries. *)
Example two_polls_cut_two_deliveries :
  let st := mkReports [mkSchedule 3 "weekly mon fri 08:30" None] [] [] in
  let once := sample_due st 0 in
  length (rs_deliveries once.1) = 1%nat ∧ length (rs_deliveries (sample_due once.1 3).1) = 2%nat.
Proof. vm_compute. done. Qed.
