(* ===== verification/Release.v ===== *)
(** * The check for a newer release ([internal/release])

    [fetcher.go] asks the feed for the latest release; [release.go] compares its
    version with the one that runs and records the answer in the one row of
    [instance_config].  The HTTP client is a computation over a world and
    [encoding/json] a parameter. *)

From S2P Require Import Prelude GoStr GoConv.

(** ** Versions *)

(** [s[:i]] at the first of the two marks, if there is one. *)
Fixpoint before_mark (p : string) : string :=
  match p with
  | "" => ""
  | String c p' => if Ascii.eqb c "-" || Ascii.eqb c "+" then "" else String c (before_mark p')
  end.

(** The numbers up to the first part that is none; [Atoi] is [ParseInt] in 64 bits. *)
Fixpoint version_parts (parts : list string) : list Z :=
  match parts with
  | [] => []
  | p :: parts' => match ParseInt (before_mark p) with Some n => n :: version_parts parts' | None => [] end
  end.

Definition parseVersion (s : string) : option (list Z) :=
  let s := TrimPrefix (TrimSpace s) "v" in
  if String.eqb s "" then None
  else match version_parts (Split "." s) with [] => None | out => Some out end.

(** The number at a position; what is missing counts as zero. *)
Definition part (v : list Z) (i : nat) : Z := default 0 (v !! i).

(** The loop over the positions of the longer one. *)
Fixpoint newer_from (fuel i : nat) (lv rv : list Z) : bool :=
  match fuel with
  | O => false
  | S fuel' =>
      let l := part lv i in let r := part rv i in
      if negb (l =? r) then r <? l else newer_from fuel' (S i) lv rv
  end.

Definition isNewer (latest running : string) : bool :=
  match parseVersion latest with
  | None => false
  | Some lv => match parseVersion running with None => false | Some rv => newer_from (length lv `max` length rv) 0 lv rv end
  end.

(** ** The feed *)

Record Feed := mkFeed { fd_Version : string; fd_Notes : string }.

Definition maxFeedBytes : nat := 1048576.

Definition trimVersionPrefix (tag : string) : string :=
  match cut_prefix "v" tag with
  | Some (String c rest) => if is_digit c then String c rest else tag
  | _ => tag
  end.

(** A response: its status and the bytes of its body. *)
Record response := mkResponse { rp_Status : Z; rp_Body : list Z }.

(** The first value a decoder reads: the tag and the body of the release. *)
Class FeedJSON := DecodeFeed : list Z → option (string * string).

Section Latest.
Context {W : Type} {J : FeedJSON}.

(** The client follows no redirect, so one request gives one response or fails. *)
Context (do_request : St W (option response)).

Definition feed_of (resp : response) : option Feed :=
  if negb (rp_Status resp =? 200) then None
  else
    '(tag, body) ← DecodeFeed (take maxFeedBytes (rp_Body resp));
    if String.eqb tag "" then None else Some (mkFeed (trimVersionPrefix tag) body).

Definition Latest : St W (option Feed) :=
  resp ← do_request; mret (resp ≫= feed_of).
End Latest.

(** ** The check ([release.go], [db/instance_config.sql.go]) *)

(** What the row holds of the release. *)
Record instance_config := mkConfig {
  ic_UpdateCheckEnabled : bool;
  ic_ReleaseState : option string;
  ic_ReleaseLatestVersion : option string;
  ic_ReleaseLatestNotes : option string;
  ic_ReleaseCheckedAt : option Z
}.

Definition SetReleaseCache (state version notes : option string) (now : Z) (c : instance_config) : instance_config :=
  mkConfig (ic_UpdateCheckEnabled c) state version notes (Some now).

Definition release_params (feed : Feed) (running : string) : option string * option string * option string :=
  if isNewer (fd_Version feed) running then (Some "newer", Some (fd_Version feed), Some (fd_Notes feed))
  else (Some "current", None, None).

Section Check.
Context {W : Type} (latest : St W (option Feed)) (running : string).

(** [readable] and [writable] say whether the two statements succeed. *)
Definition Check_release (readable writable : bool) (now : Z) (c : instance_config) : St W instance_config :=
  if negb readable then mret c
  else if negb (ic_UpdateCheckEnabled c) then mret c
  else
    feed ← latest;
    match feed with
    | None => mret c
    | Some feed =>
        let '(state, version, notes) := release_params feed running in
        mret (if (writable : bool) then SetReleaseCache state version notes now c else c)
    end.
End Check.

(** ** Lemmas *)

(** [v] is above [w] at the first position where they differ. *)
Definition after (v w : list Z) : Prop := ∃ i, part w i < part v i ∧ ∀ j, (j < i)%nat → part v j = part w j.

Lemma newer_from_spec fuel i v w :
  newer_from fuel i v w = true ↔
  ∃ j, (i ≤ j < i + fuel)%nat ∧ part w j < part v j ∧ ∀ k, (i ≤ k < j)%nat → part v k = part w k.
Proof.
  revert i. induction fuel as [|fuel IH]; intros i; cbn [newer_from]; [split; [done|intros (j & ? & _); lia]|].
  destruct (Z.eqb_spec (part v i) (part w i)) as [E|E]; cbn [negb].
  - rewrite IH. split; intros (j & Hj & Hlt & Hk); exists j.
    + split_and!; [lia..|]. intros k Hik. destruct (decide (k = i)) as [->|]; [done|apply Hk; lia].
    + split_and!; [|lia|done|intros k ?; apply Hk; lia]. destruct (decide (j = i)) as [->|]; lia.
  - rewrite Z.ltb_lt. split.
    + intros Hlt. exists i. split_and!; [lia..|]. intros k ?. lia.
    + intros (j & Hj & Hlt & Hk). destruct (decide (j = i)) as [->|]; [done|]. exfalso. apply E, Hk. lia.
Qed.

Lemma part_past v i : (length v ≤ i)%nat → part v i = 0.
Proof. intros H. unfold part. by rewrite lookup_ge_None_2. Qed.

(** A version is newer exactly when both texts have a leading number and the
    latest is above at the first number where they differ. *)
Lemma isNewer_spec latest running :
  isNewer latest running = true ↔
  ∃ v w, parseVersion latest = Some v ∧ parseVersion running = Some w ∧ after v w.
Proof.
  unfold isNewer. destruct (parseVersion latest) as [v|]; [|split; [done|by intros (? & ? & ? & _)]].
  destruct (parseVersion running) as [w|]; [|split; [done|by intros (? & ? & _ & ? & _)]].
  rewrite newer_from_spec. split.
  - intros (j & _ & Hlt & Hk). exists v, w. split_and!; [done..|]. exists j. split; [done|]. intros k ?. apply Hk. lia.
  - intros (v' & w' & [= <-] & [= <-] & j & Hlt & Hk). exists j. split_and!; [lia| |done|intros k ?; apply Hk; lia].
    destruct (decide (j < length v `max` length w)%nat); [done|]. rewrite !part_past in Hlt by lia. lia.
Qed.

(** The order of versions is strict, and two versions neither of which is newer
    are the same but for zeros at the end. *)
Lemma after_irrefl v : ¬ after v v.
Proof. intros (i & ? & _). lia. Qed.

Lemma after_trans u v w : after u v → after v w → after u w.
Proof.
  intros (i & Hi & Ei) (j & Hj & Ej). exists (i `min` j)%nat. split.
  - destruct (lt_eq_lt_dec i j) as [[H|<-]|H].
    + rewrite Nat.min_l by lia. rewrite <- Ej by done. done.
    + rewrite Nat.min_id. lia.
    + rewrite Nat.min_r by lia. rewrite Ei by done. done.
  - intros k Hk. rewrite Ei, Ej by lia. done.
Qed.

Lemma after_total v w : ¬ after v w → ¬ after w v → ∀ i, part v i = part w i.
Proof.
  intros H1 H2 i. induction i as [i IH] using (well_founded_induction lt_wf).
  destruct (Z.lt_trichotomy (part v i) (part w i)) as [H|[H|H]]; [|done|].
  - exfalso. apply H2. exists i. split; [done|]. intros j ?. symmetry. by apply IH.
  - exfalso. apply H1. by exists i.
Qed.

Lemma isNewer_asym a b : isNewer a b = true → isNewer b a = false.
Proof.
  intros (v & w & Ha & Hb & H1)%isNewer_spec. destruct (isNewer b a) eqn:E; [|done].
  apply isNewer_spec in E as (w' & v' & Hb' & Ha' & H2). simplify_eq. exfalso. by eapply after_irrefl, after_trans.
Qed.

(** The check asks nothing of the network when it is switched off, and changes
    the row only on an answer: the state says whether that release is newer than
    the one that runs, and an older verdict never stays beside it. *)
Theorem release_check {W} (latest : St W (option Feed)) running readable writable now c w :
  let '(c', w') := Check_release latest running readable writable now c w in
  (readable && ic_UpdateCheckEnabled c = false → c' = c ∧ w' = w) ∧
  (readable && ic_UpdateCheckEnabled c = true → w' = (latest w).2 ∧
     match (latest w).1 with
     | None => c' = c
     | Some feed =>
         if (writable : bool) then
           ic_UpdateCheckEnabled c' = true ∧ ic_ReleaseCheckedAt c' = Some now ∧
           ic_ReleaseLatestVersion c' = (if isNewer (fd_Version feed) running then Some (fd_Version feed) else None) ∧
           ic_ReleaseLatestNotes c' = (if isNewer (fd_Version feed) running then Some (fd_Notes feed) else None) ∧
           (ic_ReleaseState c' = Some "newer" ↔ isNewer (fd_Version feed) running = true) ∧
           (ic_ReleaseState c' = Some "current" ↔ isNewer (fd_Version feed) running = false)
         else c' = c
     end).
Proof.
  unfold Check_release. destruct readable; cbn [negb andb]; [|done]. destruct (ic_UpdateCheckEnabled c) eqn:E; cbn [negb]; [|done].
  unfold mbind, St_bind. destruct (latest w) as [[feed|] w'] eqn:El; cbn [fst snd]; [|done].
  unfold release_params. destruct (isNewer _ running) eqn:En; cbn; destruct writable; cbn; split; try done; intros _; (split; [done|]); by split_and!.
Qed.

Example versions_ex :
  isNewer "v1.10.0" "1.9.9" = true ∧ isNewer "1.2" "1.2.0" = false ∧ isNewer "1.2.1-rc1" "v1.2.0+build" = true ∧
  isNewer "2.0.0" "dev" = false ∧ isNewer "1.2.0" "1.2.0-rc1" = false ∧ trimVersionPrefix "v0.2.0" = "0.2.0" ∧
  trimVersionPrefix "verge-1.2.0" = "verge-1.2.0".
Proof. vm_compute. auto 10. Qed.
