(* ===== verification/GoEnc.v ===== *)
(** * [encoding/base64.RawURLEncoding], [encoding/base32] without padding, [strings.Cut]

    The unpadded encodings that session tokens and one-time password secrets are
    written in.  Neither decoder is strict: the bits the last characters have to
    spare are not looked at. *)

From S2P Require Import Prelude GoStr GoBytes GoConv.

(** [strings.Cut(s, sep)] for a separator of one byte. *)
Fixpoint Cut (sep : ascii) (s : string) : option (string * string) :=
  match s with
  | "" => None
  | String c s' =>
      if Ascii.eqb c sep then Some ("", s')
      else '(a, b) ← Cut sep s'; Some (String c a, b)
  end.

(** ** RawURLEncoding *)

Definition url_char (v : Z) : ascii :=
  if v <? 62 then b64_char v else byte_of (if v =? 62 then 45 else 95).

Definition url_val (c : ascii) : option Z :=
  if code c =? 45 then Some 62
  else if code c =? 95 then Some 63
  else if (code c =? 43) || (code c =? 47) then None
  else b64_val c.

Fixpoint RawURLEncode (l : list Z) : string :=
  match l with
  | [] => ""
  | [a] => String (url_char (a / 4)) (String (url_char (a mod 4 * 16)) "")
  | [a; b] =>
      String (url_char (a / 4)) (String (url_char (a mod 4 * 16 + b / 16))
        (String (url_char (b mod 16 * 4)) ""))
  | a :: b :: c :: l' =>
      String (url_char (a / 4)) (String (url_char (a mod 4 * 16 + b / 16))
        (String (url_char (b mod 16 * 4 + c / 64)) (String (url_char (c mod 64)) (RawURLEncode l'))))
  end.

Fixpoint url_quanta (s : string) : option (list Z) :=
  match s with
  | "" => Some []
  | String c1 (String c2 "") =>
      v1 ← url_val c1; v2 ← url_val c2; Some [v1 * 4 + v2 / 16]
  | String c1 (String c2 (String c3 "")) =>
      v1 ← url_val c1; v2 ← url_val c2; v3 ← url_val c3;
      Some [v1 * 4 + v2 / 16; v2 mod 16 * 16 + v3 / 4]
  | String c1 (String c2 (String c3 (String c4 s'))) =>
      v1 ← url_val c1; v2 ← url_val c2; v3 ← url_val c3; v4 ← url_val c4;
      rest ← url_quanta s';
      Some (v1 * 4 + v2 / 16 :: v2 mod 16 * 16 + v3 / 4 :: v3 mod 4 * 64 + v4 :: rest)
  | _ => None
  end.

Definition RawURLDecode (s : string) : option (list Z) := url_quanta (drop_newlines s).

(** ** Base32 *)

Definition b32_char (v : Z) : ascii := byte_of (if v <? 26 then v + 65 else v + 24).

Definition b32_val (c : ascii) : option Z :=
  if is_upper c then Some (code c - 65)
  else if (50 <=? code c) && (code c <=? 55) then Some (code c - 24)
  else None.

(** Five bits a character, the most significant first, the last character
    filled up with zeros. *)
Fixpoint b32_chars (fuel : nat) (l : list Z) : string :=
  match fuel, l with
  | O, _ | _, [] => ""
  | S fuel', _ =>
      let q := take 5 l in
      let v := be_val (q ++ replicate (5 - length q) 0) in
      let n := ((length q * 8 + 4) / 5)%nat in
      foldr (λ i s, String (b32_char (v / 2 ^ (35 - 5 * Z.of_nat i) mod 32)) s)
        (b32_chars fuel' (drop 5 l)) (seq 0 n)
  end.

Definition B32Encode (l : list Z) : string := b32_chars (length l) l.

(** The last quantum may be short; one, three or six characters of it are passed
    over, as the switch of the decoder has no case for them. *)
Fixpoint b32_quanta (fuel : nat) (s : list ascii) : option (list Z) :=
  match fuel, s with
  | O, _ | _, [] => Some []
  | S fuel', _ =>
      let q := take 8 s in
      vs ← mapM b32_val q;
      let v := foldl (λ a d, a * 32 + d) 0 (vs ++ replicate (8 - length vs) 0) in
      let n := match length vs with
               | 8 => 5 | 7 => 4 | 5 => 3 | 4 => 2 | 2 => 1 | _ => 0
               end%nat in
      rest ← b32_quanta fuel' (drop 8 s);
      Some (take n (be_bytes 5 v) ++ rest)
  end.

Definition B32Decode (s : string) : option (list Z) :=
  let l := String.list_ascii_of_string (drop_newlines s) in b32_quanta (length l) l.

(** [strings.ToUpper] as far as a base32 decoder can tell: outside ASCII only a
    dotless i and a long s have an upper case in ASCII, and what else is not in
    ASCII is refused in either case. *)
Fixpoint ToUpper (s : string) : string :=
  match s with
  | "" => ""
  | String c (String d s' as t) =>
      if is_lower c then String (byte_of (code c - 32)) (ToUpper t)
      else if (code c =? 196) && (code d =? 177) then String "I" (ToUpper s')
      else if (code c =? 197) && (code d =? 191) then String "S" (ToUpper s')
      else String c (ToUpper t)
  | String c "" => String (if is_lower c then byte_of (code c - 32) else c) ""
  end.

(** RFC 4648, section 10. *)
Example B32_vectors :
  map B32Encode (map bytes_of ["f"; "fo"; "foo"; "foob"; "fooba"; "foobar"]) =
    ["MY"; "MZXQ"; "MZXW6"; "MZXW6YQ"; "MZXW6YTB"; "MZXW6YTBOI"] ∧
  map B32Decode ["MY"; "MZXW6YTBOI"; "MZX"; "M1"; "mY"] =
    [Some (bytes_of "f"); Some (bytes_of "foobar"); Some []; None; None].
Proof. vm_compute. auto. Qed.

(** ** Lemmas *)

Lemma Cut_spec sep s a b : Cut sep s = Some (a, b) ↔
  s = (a +:+ String sep b)%string ∧ sep ∉ String.list_ascii_of_string a.
Proof.
  revert a b. induction s as [|c s IH]; intros a b; cbn [Cut].
  - split; [done|]. intros [H _]. by destruct a.
  - destruct (Ascii.eqb_spec c sep) as [->|Hne].
    + split.
      * intros [= <- <-]. split; [done|]. cbn. apply not_elem_of_nil.
      * intros [H Hn]. destruct a as [|x a]; [by injection H as ->|]. injection H as -> ->.
        exfalso. apply Hn. cbn. left.
    + destruct (Cut sep s) as [[a' b']|] eqn:Hc; cbn.
      * destruct (proj1 (IH a' b') eq_refl) as [Hs Hn]. split.
        -- intros [= <- <-]. split; [by rewrite append_cons, Hs|]. cbn.
           intros [->|?]%elem_of_cons; [done|done].
        -- intros [H Hn2]. destruct a as [|x a]; [by injection H as ->|].
           injection H as <- H. cbn in Hn2. apply not_elem_of_cons in Hn2 as [_ Hn2].
           assert (Some (a', b') = Some (a, b)) as [= -> ->] by (by apply IH). done.
      * split; [done|]. intros [H Hn2]. destruct a as [|x a]; [by injection H as ->|].
        injection H as <- H. cbn in Hn2. apply not_elem_of_cons in Hn2 as [_ Hn2].
        assert (None = Some (a, b)) by (by apply IH). done.
Qed.

Lemma url_char_code v : 0 ≤ v < 64 →
  let c := code (url_char v) in c ≠ 10 ∧ c ≠ 13 ∧ c ≠ 46 ∧ 32 < c < 128.
Proof.
  intros Hv. unfold url_char. destruct (Z.ltb_spec v 62).
  - apply b64_char_cases; [done|]. intros z Hz. cbv zeta. rewrite code_byte_of by lia. lia.
  - cbv zeta. destruct (v =? 62); rewrite code_byte_of by lia; lia.
Qed.

Lemma url_val_char v : 0 ≤ v < 64 → url_val (url_char v) = Some v.
Proof.
  intros Hv. unfold url_char. destruct (Z.ltb_spec v 62).
  - unfold url_val. rewrite b64_val_char by done.
    assert (Hc : code (b64_char v) ≠ 45 ∧ code (b64_char v) ≠ 95 ∧ code (b64_char v) ≠ 43 ∧ code (b64_char v) ≠ 47).
    { apply (b64_char_cases v (λ c, code c ≠ 45 ∧ code c ≠ 95 ∧ code c ≠ 43 ∧ code c ≠ 47)); [done|].
      intros z Hz. rewrite code_byte_of by lia. lia. }
    destruct Hc as (H1 & H2 & H3 & H4).
    by rewrite !(proj2 (Z.eqb_neq _ _)) by done.
  - assert (v = 62 ∨ v = 63) as [->| ->] by lia; vm_compute; done.
Qed.

Lemma drop_newlines_url v s : 0 ≤ v < 64 →
  drop_newlines (String (url_char v) s) = String (url_char v) (drop_newlines s).
Proof.
  intros Hv. cbn [drop_newlines]. pose proof (url_char_code v Hv) as (H1 & H2 & _).
  by rewrite (proj2 (Z.eqb_neq _ _) H1), (proj2 (Z.eqb_neq _ _) H2).
Qed.

#[local] Ltac Zify.zify_post_hook ::= Z.to_euclidean_division_equations.

Lemma RawURLDecode_Encode l : Forall byte l → RawURLDecode (RawURLEncode l) = Some l.
Proof.
  unfold RawURLDecode, byte. induction l as [|a|a b|a b c l IH] using list_ind3; intros Hl; [done|..];
    repeat match goal with H : Forall _ (_ :: _) |- _ => inv H end; cbn [RawURLEncode];
    rewrite !drop_newlines_url by lia; cbn [url_quanta drop_newlines].
  - rewrite !url_val_char by lia. cbn. do 2 f_equal. lia.
  - rewrite !url_val_char by lia. cbn. repeat f_equal; lia.
  - assert (Hd : url_quanta (drop_newlines (RawURLEncode l)) = Some l) by (by apply IH).
    rewrite !url_val_char, Hd by lia. cbn [mbind option_bind]. repeat f_equal; lia.
Qed.

Lemma RawURLEncode_inj l k : Forall byte l → Forall byte k →
  RawURLEncode l = RawURLEncode k → l = k.
Proof.
  intros Hl Hk Heq. apply (f_equal RawURLDecode) in Heq.
  rewrite !RawURLDecode_Encode in Heq by done. by injection Heq.
Qed.

(** A token's parts hold no dot. *)
Lemma RawURLEncode_no_dot l : Forall byte l →
  "."%char ∉ String.list_ascii_of_string (RawURLEncode l).
Proof.
  assert (Hd : ∀ v, 0 ≤ v < 64 → "."%char ≠ url_char v).
  { intros v Hv Heq. pose proof (url_char_code v Hv) as (_ & _ & Hne & _). by rewrite <- Heq in Hne. }
  unfold byte. induction l as [|a|a b|a b c l IH] using list_ind3; intros Hl;
    repeat match goal with H : Forall _ (_ :: _) |- _ => inv H end;
    cbn [RawURLEncode String.list_ascii_of_string]; rewrite ?not_elem_of_cons;
    repeat split; try (apply Hd; lia); try apply not_elem_of_nil.
  by apply IH.
Qed.
