(* ===== verification/Auth.v ===== *)
(** * The identity primitives of the web listener

    [internal/auth]: the session key file, signed session cookies, signed tokens
    of a domain, one-time passwords, and the sealing of their secrets; with
    [internal/secretseal], which seals an operator's credentials the same way.
    [bcrypt], HKDF and the AEAD are not in the repository: parameters. *)

From S2P Require Import Prelude GoTime GoStr GoBytes GoConv GoEnc.

(** ** session.go and signed.go *)

Definition KindSession : string := "session".
Definition KindPending : string := "totp".

Record Session := mkSession {
  AccountID : Z;
  Kind : string;
  ExpiresAt : Z;
  Token : string
}.

(** [encoding/json] on a [Session]. *)
Class SessionJSON := {
  Marshal : Session → option (list Z);
  Unmarshal : list Z → option Session
}.

Class SessionJSONLaws `{!SessionJSON} : Prop := {
  Marshal_byte s p : Marshal s = Some p → Forall byte p;
  Unmarshal_Marshal s p : Marshal s = Some p → Unmarshal p = Some s
}.

(** [hmac.New(sha256.New, key)]. *)
Definition tag (key : list Z) (msg : string) : string :=
  RawURLEncode (Hmac Sum256 key (bytes_of msg)).

(** [hmac.Equal] and [subtle.ConstantTimeCompare]: equal bytes. *)
Definition ConstantTimeCompare (a b : string) : bool := String.eqb a b.

Section Sessions.
Context `{!SessionJSON}.

Definition SignSession (key : list Z) (s : Session) : option string :=
  payload ← Marshal s;
  let b64 := RawURLEncode payload in
  Some (b64 +:+ "." +:+ tag key b64)%string.

(** [None] is [ErrInvalidSession], whichever check failed. *)
Definition VerifySession (key : list Z) (token want : string) (now : Z) : option Session :=
  '(b64, mac) ← Cut "." token;
  if negb (ConstantTimeCompare mac (tag key b64)) then None
  else
    payload ← RawURLDecode b64;
    s ← Unmarshal payload;
    if negb (String.eqb (Kind s) want) || negb (Before now (ExpiresAt s)) then None else Some s.
End Sessions.

Definition domain_msg (domain b64 : string) : string := (domain +:+ "." +:+ b64)%string.

Definition Sign (key : list Z) (domain : string) (payload : list Z) : string :=
  let b64 := RawURLEncode payload in
  (b64 +:+ "." +:+ tag key (domain_msg domain b64))%string.

Definition Verify (key : list Z) (domain token : string) : option (list Z) :=
  '(b64, mac) ← Cut "." token;
  if negb (ConstantTimeCompare mac (tag key (domain_msg domain b64))) then None
  else RawURLDecode b64.

(** ** token.go *)

Definition setupTokenBytes : Z := 32.

(** [rand.Read]: [None] is its error, [Some buf] what it filled. *)
Definition NewSetupToken (rand : option (list Z)) : option string := RawURLEncode <$> rand.

Definition TokensEqual (a b : string) : bool :=
  if String.eqb a "" || String.eqb b "" then false else ConstantTimeCompare a b.

(** ** key.go *)

Definition keyLen : nat := 32.

(** The state directory: what reading the key file gives. *)
Inductive key_file :=
  | NotExist
  | Unreadable
  | Holds (key : list Z).

(** What the operating system answers: [os.MkdirAll], [rand.Read] and
    [os.WriteFile]; a write that fails leaves some file. *)
Record key_os := mkKeyOS {
  ko_Mkdir : bool;
  ko_Rand : option (list Z);
  ko_Write : option key_file
}.

Definition create_key (os : key_os) (file : key_file) : option (list Z) * key_file :=
  if negb (ko_Mkdir os) then (None, file)
  else
    match ko_Rand os with
    | None => (None, file)
    | Some key =>
        match ko_Write os with
        | Some torn => (None, torn)
        | None => (Some key, Holds key)
        end
    end.

(** The key, or [None] for an error, and the file it leaves. *)
Definition LoadOrCreateKey (os : key_os) (file : key_file) : option (list Z) * key_file :=
  match file with
  | Holds key => if negb (length key =? keyLen)%nat then (None, file) else (Some key, file)
  | Unreadable => (None, file)
  | NotExist => create_key os file
  end.

Definition RotateKey (os : key_os) (file : key_file) : option (list Z) * key_file :=
  create_key os file.

(** ** totp.go *)

Definition totpDigits : nat := 6.
Definition totpPeriod : Z := 30 * Second.
Definition totpSecretBytes : Z := 20.
Definition totpMod : Z := Nat.iter totpDigits (λ m, wrapu32 (m * 10)) 1.

Definition NewTOTPSecret (rand : option (list Z)) : option string := B32Encode <$> rand.

Definition stepFor (t : Z) : Z := wrap64 (Unix t mod 2 ^ 64 / (totpPeriod / Second)).

Definition decodeSecret (secret : string) : option (list Z) := B32Decode (ToUpper (TrimSpace secret)).

(** The dynamic truncation of RFC 4226, section 5.3. *)
Definition truncate (sum : list Z) : Z :=
  let at_ i := sum !!! Z.to_nat i in
  let offset := Z.land (at_ (Z.of_nat (length sum) - 1)) 0x0f in
  Z.lor (Z.lor (Z.lor (Z.shiftl (Z.land (at_ offset) 0x7f) 24) (Z.shiftl (at_ (offset + 1)) 16))
    (Z.shiftl (at_ (offset + 2)) 8)) (at_ (offset + 3)).

Definition codeFromKey (key : list Z) (t : Z) : string :=
  let counter := stepFor t mod 2 ^ 64 in
  let sum := Hmac Sum1 key (be_bytes 8 counter) in
  pad_int totpDigits (truncate sum mod totpMod).

Definition TOTPCode (secret : string) (t : Z) : option string :=
  key ← decodeSecret secret; Some (codeFromKey key t).

Fixpoint skew_loop (key : list Z) (code : string) (t : Z) (skews : list Z) : option Z :=
  match skews with
  | [] => None
  | skew :: skews' =>
      let at_ := TimeAdd t skew in
      if ConstantTimeCompare (codeFromKey key at_) code then Some (stepFor at_)
      else skew_loop key code t skews'
  end.

(** [Some step] for [(step, true)], [None] for [(0, false)]. *)
Definition VerifyTOTPStep (secret code : string) (t : Z) : option Z :=
  key ← decodeSecret secret;
  skew_loop key (TrimSpace code) t [- totpPeriod; 0; totpPeriod].

Definition VerifyTOTP (secret code : string) (t : Z) : bool :=
  bool_decide (is_Some (VerifyTOTPStep secret code t)).

(** ** totpsecret.go and secretseal.go *)

(** [chacha20poly1305.NewX] and [hkdf.New] over SHA-256 with no salt. *)
Class AEAD := {
  NewX : list Z → bool;
  NonceSize : nat;
  KeySize : nat;
  AEAD_Seal : list Z → list Z → list Z → list Z;
  AEAD_Open : list Z → list Z → list Z → option (list Z);
  HKDF : list Z → string → nat → option (list Z)
}.

(** A key it takes opens what it sealed under the same nonce. *)
Class AEADLaws `{!AEAD} : Prop := {
  Open_Seal key nonce p : NewX key = true → length nonce = NonceSize → Forall byte p →
    AEAD_Open key nonce (AEAD_Seal key nonce p) = Some p;
  Seal_byte key nonce p : Forall byte (AEAD_Seal key nonce p)
}.

Definition totpAEADLabel : string := "totp-secret-aead".

Section Sealing.
Context {A : AEAD}.

Definition DeriveTOTPKey (sessionKey : list Z) : option (list Z) :=
  HKDF sessionKey totpAEADLabel KeySize.

(** The nonce is drawn by [rand.Read]; [None] is its error. *)
Definition EncryptTOTPSecret (rand : option (list Z)) (key : list Z) (secret : string) : option string :=
  if String.eqb secret "" then Some ""
  else if negb (NewX key) then None
  else
    nonce ← rand;
    Some (EncodeToString (nonce ++ AEAD_Seal key nonce (bytes_of secret))).

Definition DecryptTOTPSecret (key : list Z) (stored : string) : option string :=
  if String.eqb stored "" then Some ""
  else
    raw ← DecodeString stored;
    if negb (NewX key) then None
    else if (length raw <? NonceSize)%nat then None
    else
      plain ← AEAD_Open key (take NonceSize raw) (drop NonceSize raw);
      Some (bytes plain).

Definition DeriveKey (parent : list Z) (label : string) : option (list Z) :=
  if (length parent =? 0)%nat then None
  else if String.eqb label "" then None
  else HKDF parent label KeySize.

Definition Seal (rand : option (list Z)) (key : list Z) (secret : string) : option string :=
  if String.eqb secret "" then Some ""
  else if negb (NewX key) then None
  else
    nonce ← rand;
    Some (EncodeToString (nonce ++ AEAD_Seal key nonce (bytes_of secret))).

Definition Open (key : list Z) (stored : string) : option string :=
  if String.eqb stored "" then Some ""
  else
    raw ← DecodeString stored;
    if negb (NewX key) then None
    else if (length raw <? NonceSize)%nat then None
    else
      plain ← AEAD_Open key (take NonceSize raw) (drop NonceSize raw);
      Some (bytes plain).

(** A [pgtype.Text]: [None] is a null.  The outer option is the error. *)
Definition SealText (rand : option (list Z)) (key : list Z) (raw : string) : option (option string) :=
  if String.eqb (TrimSpace raw) "" then Some None
  else sealed ← Seal rand key raw; Some (Some sealed).

Definition OpenText (key : list Z) (stored : option string) : option (list Z) :=
  match stored with
  | None => Some []
  | Some s => plain ← Open key s; Some (bytes_of plain)
  end.
End Sealing.

(** ** Properties: tokens *)

Lemma Hmac_byte key msg : Forall byte (Hmac Sum256 key msg).
Proof. apply Sum256_byte. Qed.

Lemma tag_no_dot key msg : "."%char ∉ String.list_ascii_of_string (tag key msg).
Proof. apply RawURLEncode_no_dot, Hmac_byte. Qed.

(** A token is its two parts around a dot. *)
Lemma Cut_token l mac : Forall byte l →
  Cut "." (RawURLEncode l +:+ "." +:+ mac)%string = Some (RawURLEncode l, mac).
Proof. intros Hl. apply Cut_spec. split; [done|by apply RawURLEncode_no_dot]. Qed.

Lemma tag_inj key m n : tag key m = tag key n →
  Hmac Sum256 key (bytes_of m) = Hmac Sum256 key (bytes_of n).
Proof. apply RawURLEncode_inj; apply Hmac_byte. Qed.

(** A token is accepted exactly when it is a payload and the tag of that
    payload under the key around a dot, the payload is a session of the wanted
    kind, and the deadline has not come: so no pending cookie passes as a
    session, and nothing is accepted that does not carry the tag. *)
Theorem VerifySession_spec `{!SessionJSON} key token want now s :
  VerifySession key token want now = Some s ↔
  ∃ b64 payload, token = (b64 +:+ "." +:+ tag key b64)%string ∧
    "."%char ∉ String.list_ascii_of_string b64 ∧
    RawURLDecode b64 = Some payload ∧ Unmarshal payload = Some s ∧
    Kind s = want ∧ now < ExpiresAt s.
Proof.
  unfold VerifySession, ConstantTimeCompare, Before. split.
  - intros ([b64 mac] & Hc & Hr)%bind_Some.
    destruct (String.eqb_spec mac (tag key b64)) as [->|]; [|done]. cbn [negb] in Hr.
    apply bind_Some in Hr as (payload & Hp & Hr). apply bind_Some in Hr as (s' & Hu & Hr).
    destruct (String.eqb_spec (Kind s') want), (Z.ltb_spec now (ExpiresAt s')); try done.
    injection Hr as <-. apply Cut_spec in Hc as [-> Hn]. exists b64, payload. eauto 10.
  - intros (b64 & payload & -> & Hn & Hp & Hu & <- & Hlt).
    assert (Hc : Cut "." (b64 +:+ "." +:+ tag key b64)%string = Some (b64, tag key b64))
      by (apply Cut_spec; done).
    rewrite Hc. cbn [mbind option_bind]. rewrite String.eqb_refl. cbn [negb].
    rewrite Hp. cbn [mbind option_bind]. rewrite Hu. cbn [mbind option_bind].
    by rewrite String.eqb_refl, (proj2 (Z.ltb_lt _ _) Hlt).
Qed.

(** A session signed under a key verifies under that key and no kind but
    its own, to the instant of its deadline. *)
Theorem VerifySession_SignSession `{!SessionJSON, !SessionJSONLaws} key s token want now :
  SignSession key s = Some token →
  VerifySession key token want now =
    if bool_decide (Kind s = want) && (now <? ExpiresAt s) then Some s else None.
Proof.
  intros (payload & Hm & [= <-])%bind_Some. unfold VerifySession, ConstantTimeCompare, Before.
  pose proof (Marshal_byte s payload Hm) as Hb. rewrite Cut_token by done.
  cbn [mbind option_bind]. rewrite String.eqb_refl. cbn [negb].
  rewrite RawURLDecode_Encode by done. cbn [mbind option_bind].
  rewrite (Unmarshal_Marshal s payload Hm). cbn [mbind option_bind].
  destruct (String.eqb_spec (Kind s) want);
    [rewrite bool_decide_true by done|rewrite bool_decide_false by done]; by destruct (now <? ExpiresAt s).
Qed.

(** Two different messages with one tag under a key. *)
Definition tag_collision (key : list Z) : Prop :=
  ∃ m n : string, m ≠ n ∧ Hmac Sum256 key (bytes_of m) = Hmac Sum256 key (bytes_of n).

Lemma Verify_spec key domain token payload :
  Verify key domain token = Some payload ↔
  ∃ b64, token = (b64 +:+ "." +:+ tag key (domain_msg domain b64))%string ∧
    "."%char ∉ String.list_ascii_of_string b64 ∧ RawURLDecode b64 = Some payload.
Proof.
  unfold Verify, ConstantTimeCompare. split.
  - intros ([b64 mac] & Hc & Hr)%bind_Some.
    destruct (String.eqb_spec mac (tag key (domain_msg domain b64))) as [->|]; [|done].
    apply Cut_spec in Hc as [-> Hn]. by exists b64.
  - intros (b64 & -> & Hn & Hp).
    assert (Hc : Cut "." (b64 +:+ "." +:+ tag key (domain_msg domain b64))%string =
      Some (b64, tag key (domain_msg domain b64))) by (apply Cut_spec; done).
    rewrite Hc. cbn [mbind option_bind]. by rewrite String.eqb_refl.
Qed.

(** A token splits at its first dot in one way. *)
Lemma token_parts b64 b64' m m' :
  (b64 +:+ "." +:+ m)%string = (b64' +:+ "." +:+ m')%string →
  "."%char ∉ String.list_ascii_of_string b64 → "."%char ∉ String.list_ascii_of_string b64' →
  b64 = b64' ∧ m = m'.
Proof.
  intros Heq Hn Hn'.
  assert (H1 : Cut "." (b64 +:+ "." +:+ m)%string = Some (b64, m)) by (apply Cut_spec; done).
  assert (H2 : Cut "." (b64' +:+ "." +:+ m')%string = Some (b64', m')) by (apply Cut_spec; done).
  rewrite Heq, H2 in H1. by injection H1 as -> ->.
Qed.

Lemma string_app_inj_r a b c : (a +:+ c = b +:+ c)%string → a = b.
Proof.
  revert b. induction a as [|x a IH]; intros [|y b] Heq; [done|..].
  - apply (f_equal String.length) in Heq. rewrite !length_append in Heq. cbn in Heq. lia.
  - apply (f_equal String.length) in Heq. rewrite !length_append in Heq. cbn in Heq. lia.
  - injection Heq as -> Heq. by rewrite (IH b).
Qed.

(** A token verifies under one domain alone, and no signed token is a
    session cookie: a token that passes twice shows two messages with one HMAC
    under the instance's key. *)
Theorem tokens_are_separate `{!SessionJSON} key token :
  (∀ d d' p p', Verify key d token = Some p → Verify key d' token = Some p' → d ≠ d' → tag_collision key) ∧
  (∀ d p want now s, Verify key d token = Some p → VerifySession key token want now = Some s →
     tag_collision key).
Proof.
  split.
  - intros d d' p p' (b & Ht & Hn & _)%Verify_spec (b' & Ht' & Hn' & _)%Verify_spec Hne.
    rewrite Ht in Ht'. destruct (token_parts _ _ _ _ Ht' Hn Hn') as [<- Htag].
    exists (domain_msg d b), (domain_msg d' b). split; [|by apply tag_inj].
    intros Heq. unfold domain_msg in Heq. by apply string_app_inj_r in Heq.
  - intros d p want now s (b & Ht & Hn & _)%Verify_spec Hs.
    apply bind_Some in Hs as ([b' mac] & Hc & Hr). apply Cut_spec in Hc as [Ht' Hn'].
    unfold ConstantTimeCompare in Hr.
    destruct (String.eqb_spec mac (tag key b')) as [->|]; [|done]. clear Hr. rewrite Ht in Ht'.
    destruct (token_parts b b' _ _ Ht' Hn Hn') as [<- Htag].
    exists (domain_msg d b), b. split; [|by apply tag_inj].
    intros Heq. apply (f_equal String.length) in Heq. unfold domain_msg in Heq.
    rewrite !length_append in Heq. cbn in Heq. lia.
Qed.

Lemma Verify_Sign key domain payload : Forall byte payload →
  Verify key domain (Sign key domain payload) = Some payload.
Proof.
  intros Hb. apply Verify_spec. exists (RawURLEncode payload). split; [done|].
  split; [by apply RawURLEncode_no_dot|by apply RawURLDecode_Encode].
Qed.

Lemma TokensEqual_spec a b : TokensEqual a b = true ↔ a = b ∧ a ≠ "".
Proof.
  unfold TokensEqual, ConstantTimeCompare.
  destruct (String.eqb_spec a ""), (String.eqb_spec b ""), (String.eqb_spec a b); cbn; naive_solver.
Qed.

(** ** The key file *)

(** A key that is handed out is the one on disk, so the next start loads
    the same key and no session lapses; a file that holds anything is never
    written over by a load, and a key of another length or a file that cannot be
    read is an error, never a fresh key. *)
Theorem LoadOrCreateKey_stable os file key file' :
  (∀ buf, ko_Rand os = Some buf → length buf = keyLen) →
  LoadOrCreateKey os file = (Some key, file') →
  file' = Holds key ∧ length key = keyLen ∧ (file ≠ NotExist → file' = file) ∧
  ∀ os', LoadOrCreateKey os' file' = (Some key, file').
Proof.
  intros Hr Hl. assert (H : file' = Holds key ∧ length key = keyLen ∧ (file ≠ NotExist → file' = file)).
  { destruct file as [| |k]; cbn in Hl.
    - unfold create_key in Hl. destruct (ko_Mkdir os); [|done]. cbn [negb] in Hl.
      destruct (ko_Rand os) as [buf|]; [|done]. destruct (ko_Write os); [done|].
      injection Hl as <- <-. repeat split; [by apply Hr|done].
    - done.
    - destruct (Nat.eqb_spec (length k) keyLen); [|done]. cbn in Hl. by injection Hl as <- <-. }
  destruct H as (-> & Hk & Hf). repeat split; [done|done|]. intros os'. cbn.
  by rewrite (proj2 (Nat.eqb_eq _ _) Hk).
Qed.

Lemma LoadOrCreateKey_stable_witness :
  let os := mkKeyOS true (Some (replicate 32 7)) None in
  Holds (replicate 32 7) = Holds (replicate 32 7) ∧ length (replicate 32 7) = keyLen ∧
  (NotExist ≠ NotExist → Holds (replicate 32 7) = NotExist) ∧
  ∀ os', LoadOrCreateKey os' (Holds (replicate 32 7)) = (Some (replicate 32 7), Holds (replicate 32 7)).
Proof.
  intros os. apply (LoadOrCreateKey_stable os NotExist (replicate 32 7) (Holds (replicate 32 7))).
  - by intros buf [= <-].
  - reflexivity.
Defined.

(** ** One-time passwords *)

(** The code of a step: the HOTP value of RFC 4226. *)
Definition hotp (key : list Z) (n : Z) : string :=
  pad_int totpDigits (truncate (Hmac Sum1 key (be_bytes 8 n)) mod totpMod).

Lemma totpMod_eq : totpMod = 1000000.
Proof. reflexivity. Qed.

Lemma stepFor_eq t : 0 ≤ Unix t < 2 ^ 63 → stepFor t = Unix t / 30.
Proof.
  intros Hu. unfold stepFor. change (totpPeriod / Second) with 30.
  rewrite Z.mod_small by lia. apply wrap64_id. unfold in_int64, minInt64, maxInt64.
  pose proof (Z.div_pos (Unix t) 30). pose proof (Z.div_le_upper_bound (Unix t) 30 (2 ^ 63 - 1)). lia.
Qed.

Lemma codeFromKey_hotp key t : 0 ≤ Unix t < 2 ^ 63 → codeFromKey key t = hotp key (Unix t / 30).
Proof.
  intros Hu. unfold codeFromKey, hotp. rewrite stepFor_eq by done. rewrite (Z.mod_small (Unix t / 30)); [reflexivity|].
  pose proof (Z.div_pos (Unix t) 30). pose proof (Z.div_le_upper_bound (Unix t) 30 (2 ^ 63)). lia.
Qed.

Lemma Unix_skew t k : Unix (TimeAdd t (k * Second)) = Unix t + k.
Proof. unfold Unix, TimeAdd, Second. rewrite Z.div_add by lia. lia. Qed.

(** A code is taken for the step before, the current one or the one after,
    and the earliest of these whose code it is gets reported; a secret that is
    no base32 takes no code. *)
Theorem VerifyTOTPStep_spec secret code t :
  30 ≤ Unix t < 2 ^ 62 →
  VerifyTOTPStep secret code t =
    key ← decodeSecret secret;
    let n := Unix t / 30 in
    head (filter (λ m, hotp key m = TrimSpace code) [n - 1; n; n + 1]).
Proof.
  intros Ht. unfold VerifyTOTPStep. destruct (decodeSecret secret) as [key|]; [|done].
  cbn [mbind option_bind]. cbv zeta.
  assert (Hs : ∀ k, -30 ≤ k ≤ 30 → stepFor (TimeAdd t (k * Second)) = (Unix t + k) / 30 ∧
    codeFromKey key (TimeAdd t (k * Second)) = hotp key ((Unix t + k) / 30)).
  { intros k Hk. rewrite <- Unix_skew. split; [apply stepFor_eq|apply codeFromKey_hotp]; rewrite Unix_skew; lia. }
  assert (H1 : (Unix t + -30) / 30 = Unix t / 30 - 1).
  { replace (Unix t + -30) with (Unix t + -1 * 30) by lia. rewrite Z.div_add; lia. }
  assert (H2 : (Unix t + 30) / 30 = Unix t / 30 + 1).
  { replace (Unix t + 30) with (Unix t + 1 * 30) by lia. rewrite Z.div_add; lia. }
  cbn [skew_loop]. unfold ConstantTimeCompare.
  change (- totpPeriod) with (-30 * Second). change totpPeriod with (30 * Second).
  replace (TimeAdd t 0) with (TimeAdd t (0 * Second)) by (unfold TimeAdd; lia).
  rewrite (proj1 (Hs (-30) ltac:(lia))), (proj2 (Hs (-30) ltac:(lia))), (proj1 (Hs 30 ltac:(lia))),
    (proj2 (Hs 30 ltac:(lia))), (proj1 (Hs 0 ltac:(lia))), (proj2 (Hs 0 ltac:(lia))), H1, H2, Z.add_0_r.
  rewrite !filter_cons, filter_nil.
  destruct (String.eqb_spec (hotp key (Unix t / 30 - 1)) (TrimSpace code)),
    (String.eqb_spec (hotp key (Unix t / 30)) (TrimSpace code)),
    (String.eqb_spec (hotp key (Unix t / 30 + 1)) (TrimSpace code));
    repeat case_decide; done.
Qed.

Lemma VerifyTOTPStep_spec_witness :
  let secret := "GEZDGNBVGY3TQOJQGEZDGNBVGY3TQOJQ"%string in
  VerifyTOTPStep secret " 081804 " (TimeUnix 1111111139) =
    (key ← decodeSecret secret;
     let n := Unix (TimeUnix 1111111139) / 30 in
     head (filter (λ m, hotp key m = TrimSpace " 081804 ") [n - 1; n; n + 1])).
Proof.
  cbv zeta. apply (VerifyTOTPStep_spec _ " 081804 " (TimeUnix 1111111139)).
  rewrite Unix_TimeUnix. lia.
Defined.

(** The vectors of RFC 6238, appendix B, to six digits. *)
Example TOTP_vectors :
  map (λ u, TOTPCode "gezdgnbvgy3tqojqgezdgnbvgy3tqojq" (TimeUnix u))
      [59; 1111111109; 1111111111; 1234567890; 2000000000] =
    map Some ["287082"; "081804"; "050471"; "005924"; "279037"]%string.
Proof. vm_compute. reflexivity. Qed.

(** A code is six digits. *)
Lemma hotp_digits key n : ∃ v, 0 ≤ v < 1000000 ∧ hotp key n = pad_int 6 v ∧ decimal (hotp key n) v.
Proof.
  unfold hotp. rewrite totpMod_eq.
  assert (Hv : 0 ≤ truncate (Hmac Sum1 key (be_bytes 8 n)) mod 1000000 < 1000000)
    by (apply Z.mod_pos_bound; lia).
  eexists. split; [exact Hv|]. split; [done|]. apply decimal_pad. lia.
Qed.

(** ** Sealed secrets *)

Lemma bytes_bytes_of s : bytes (bytes_of s) = s.
Proof.
  unfold bytes, bytes_of. induction s as [|c s IH]; [done|]. cbn. f_equal; [apply byte_of_code|done].
Qed.

Lemma bytes_of_byte s : Forall byte (bytes_of s).
Proof.
  unfold bytes_of. induction s as [|c s IH]; cbn; [constructor|]. constructor; [apply code_range|done].
Qed.

Lemma EncodeToString_nonempty l : l ≠ [] → EncodeToString l ≠ "".
Proof. destruct l as [|a [|b [|c l]]]; done. Qed.

Section SealingLaws.
Context {A : AEAD} {AL : AEADLaws}.

(** What opens under the key, whichever of the two packages sealed it. *)
Lemma seal_open key nonce secret :
  NewX key = true → length nonce = NonceSize → nonce ≠ [] → Forall byte nonce → secret ≠ "" →
  let stored := EncodeToString (nonce ++ AEAD_Seal key nonce (bytes_of secret)) in
  stored ≠ "" ∧ DecryptTOTPSecret key stored = Some secret ∧ Open key stored = Some secret.
Proof.
  intros Hk Hn Hne Hb Hs stored. assert (H : stored ≠ "").
  { apply EncodeToString_nonempty. by destruct nonce. }
  split; [done|].
  assert (Hd : DecryptTOTPSecret key stored = Some secret).
  { unfold DecryptTOTPSecret. rewrite (proj2 (String.eqb_neq _ _) H). unfold stored.
    rewrite DecodeString_EncodeToString by (apply Forall_app_2; [done|apply Seal_byte]).
    cbn [mbind option_bind]. rewrite Hk. cbn [negb].
    rewrite (proj2 (Nat.ltb_ge _ _)) by (rewrite length_app; lia).
    rewrite <- Hn, take_app_length, drop_app_length, Open_Seal by (done || apply bytes_of_byte).
    cbn [mbind option_bind]. by rewrite bytes_bytes_of. }
  split; exact Hd.
Qed.

(** A secret that was sealed opens to itself under the same key, an empty
    one stays empty, and what cannot be sealed is never stored in clear. *)
Theorem Decrypt_Encrypt rand key secret stored :
  (0 < NonceSize)%nat →
  (∀ nonce, rand = Some nonce → length nonce = NonceSize ∧ Forall byte nonce) →
  EncryptTOTPSecret rand key secret = Some stored ∨ Seal rand key secret = Some stored →
  DecryptTOTPSecret key stored = Some secret ∧ Open key stored = Some secret ∧
  (stored = "" ↔ secret = "").
Proof.
  intros Hz Hr Hs. assert (H : EncryptTOTPSecret rand key secret = Some stored) by (by destruct Hs).
  clear Hs. unfold EncryptTOTPSecret in H. destruct (String.eqb_spec secret "") as [->|Hne].
  - by injection H as <-.
  - destruct (NewX key) eqn:Hk; [|done]. cbn [negb] in H.
    apply bind_Some in H as (nonce & Hn & He). injection He as <-. destruct (Hr nonce Hn) as [Hl Hb].
    destruct (seal_open key nonce secret) as (H1 & H2 & H3); try done.
    destruct nonce; [cbn in Hl; lia|done].
Qed.

(** Opening fails closed: a value that is no base64, is shorter than a nonce or
    does not authenticate yields nothing. *)
Lemma Open_fails_closed key stored secret :
  stored ≠ "" → Open key stored = Some secret →
  ∃ raw plain, DecodeString stored = Some raw ∧ NewX key = true ∧ (NonceSize ≤ length raw)%nat ∧
    AEAD_Open key (take NonceSize raw) (drop NonceSize raw) = Some plain ∧ secret = bytes plain.
Proof.
  intros Hne H. unfold Open in H. rewrite (proj2 (String.eqb_neq _ _) Hne) in H.
  apply bind_Some in H as (raw & Hd & Hr). destruct (NewX key); [|done]. cbn [negb] in Hr.
  destruct (Nat.ltb_spec (length raw) NonceSize); [done|].
  apply bind_Some in Hr as (plain & Hp & He). injection He as <-. by exists raw, plain.
Qed.

Lemma OpenText_SealText rand key raw stored :
  (0 < NonceSize)%nat →
  (∀ nonce, rand = Some nonce → length nonce = NonceSize ∧ Forall byte nonce) →
  SealText rand key raw = Some stored →
  OpenText key stored = Some (if String.eqb (TrimSpace raw) "" then [] else bytes_of raw).
Proof.
  intros Hz Hr H. unfold SealText in H. destruct (String.eqb (TrimSpace raw) "") eqn:Ht;
    [by injection H as <-|].
  apply bind_Some in H as (sealed & Hs & [= <-]). unfold OpenText. unfold Seal in Hs.
  destruct (String.eqb_spec raw "") as [->|Hne]; [by vm_compute in Ht|].
  destruct (NewX key) eqn:Hk; [|done]. cbn [negb] in Hs.
  apply bind_Some in Hs as (nonce & Hn & [= <-]). destruct (Hr nonce Hn) as [Hl Hb].
  destruct (seal_open key nonce raw) as (H1 & H2 & H3); try done.
  { destruct nonce; [cbn in Hl; lia|done]. }
  by rewrite H3.
Qed.
End SealingLaws.

(** A sealing to try the laws on: the nonce is one byte, and so is the tag. *)
Definition toy_seal (key nonce p : list Z) : list Z :=
  map (λ z, (z + 1) mod 256) p ++ [42].

Definition toy_open (key nonce c : list Z) : option (list Z) :=
  if bool_decide (last c = Some 42) then Some (map (λ z, (z + 255) mod 256) (take (length c - 1) c))
  else None.

#[export] Instance toy_AEAD : AEAD :=
  Build_AEAD (λ k, negb (length k =? 0)%nat) 1 32 toy_seal toy_open (λ _ _ n, Some (replicate n 0)).

#[export] Instance toy_AEADLaws : AEADLaws.
Proof.
  split.
  - intros key nonce p _ _ Hp. cbn. unfold toy_open, toy_seal.
    rewrite last_snoc, bool_decide_true, length_app by done. cbn [length].
    rewrite Nat.add_sub, take_app_length, map_map. f_equal.
    induction Hp as [|z p Hz _ IH]; [done|]. cbn. rewrite IH. f_equal.
    rewrite Z.add_mod_idemp_l by lia. replace (z + 1 + 255) with (z + 1 * 256) by lia.
    rewrite Z_mod_plus_full. by apply Z.mod_small.
  - intros key nonce p. cbn. unfold toy_seal. apply Forall_app_2; [|by repeat constructor].
    apply Forall_forall. intros z (y & -> & _)%list_elem_of_fmap. apply Z.mod_pos_bound. lia.
Qed.

Lemma Decrypt_Encrypt_witness :
  DecryptTOTPSecret [1] "CUJDKg==" = Some "AB"%string ∧ Open [1] "CUJDKg==" = Some "AB"%string ∧
  ("CUJDKg==" = "" ↔ "AB" = "")%string.
Proof.
  apply (Decrypt_Encrypt (Some [9]) [1] "AB" "CUJDKg==").
  - cbn. lia.
  - intros nonce [= <-]. split; [reflexivity|by repeat constructor].
  - left. vm_compute. reflexivity.
Defined.

(** ** Witnesses for the tokens *)

(** One session, and its text. *)
Definition one_session : Session := mkSession 7 KindSession 5000 "tok".

#[export] Instance one_json : SessionJSON :=
  Build_SessionJSON
    (λ s, if bool_decide (AccountID s = 7 ∧ Kind s = KindSession ∧ ExpiresAt s = 5000 ∧ Token s = "tok"%string)
          then Some [123; 125] else None)
    (λ p, if bool_decide (p = [123; 125]) then Some one_session else None).

#[export] Instance one_jsonLaws : SessionJSONLaws.
Proof.
  split; intros s p; cbn; case_bool_decide as H; intros [= <-].
  - by repeat constructor.
  - rewrite bool_decide_true by done. destruct s; cbn in H. by destruct H as (-> & -> & -> & ->).
Qed.

Lemma VerifySession_SignSession_witness :
  let b64 := RawURLEncode [123; 125] in
  VerifySession [1; 2; 3] (b64 +:+ "." +:+ tag [1; 2; 3] b64)%string KindPending 4999 =
    if bool_decide (Kind one_session = KindPending) && (4999 <? ExpiresAt one_session)
    then Some one_session else None.
Proof.
  cbv zeta. apply (VerifySession_SignSession [1; 2; 3] one_session). unfold SignSession.
  assert (Hm : Marshal one_session = Some [123; 125]) by (vm_compute; reflexivity).
  rewrite Hm. cbn [mbind option_bind]. reflexivity.
Defined.
