(* ===== verification/Limiter.v ===== *)
(** * The login limiter

    [cmd/web/ratelimit.go]: failures counted per key, a lock whose span doubles
    with every failure past the fifth, and a ceiling on how long the lock of an
    account is honoured.  The mutex makes each call one step; what the handlers
    do between the call that asks and the call that counts is up to them. *)

From S2P Require Import Prelude GoTime GoStr.

Definition acctKeyPrefix : string := "acct:".

Record limiterEntry := mkEntry {
  failures : Z;
  lastFailure : Z;
  lockedUntil : Z;
  firstLockedAt : Z
}.

(** The fields of a [loginLimiter] that never change. *)
Record limiterConfig := mkLimiter {
  maxFailures : Z;
  window : Z;
  baseLockout : Z;
  maxLockout : Z;
  acctPrefix : string;
  acctLockCeiling : Z
}.

Definition newLoginLimiter : limiterConfig :=
  mkLimiter 5 (5 * Minute) (5 * Minute) Hour acctKeyPrefix (15 * Minute).

Abbreviation entries := (gmap string limiterEntry).

Section Limiter.
Variable l : limiterConfig.

(** Whether one key is locked: the body of the loop of [locked]. *)
Definition entry_locked (now : Z) (k : string) (o : option limiterEntry) : bool :=
  match o with
  | None => false
  | Some e =>
      if negb (Before now (lockedUntil e)) then false
      else if (0 <? acctLockCeiling l) && negb (String.eqb (acctPrefix l) "") &&
              HasPrefix k (acctPrefix l) && negb (IsZero (firstLockedAt e)) &&
              negb (Before now (TimeAdd (firstLockedAt e) (acctLockCeiling l)))
      then false
      else true
  end.

Definition key_locked (now : Z) (m : entries) (k : string) : bool := entry_locked now k (m !! k).

Definition locked (now : Z) (m : entries) (keys : list string) : bool :=
  existsb (key_locked now m) keys.

(** The loop from [maxFailures] to [failures]; it leaves as soon as the span
    reaches the maximum. *)
Fixpoint double_loop (n : nat) (d : Z) : Z :=
  match n with
  | O => if maxLockout l <? d then maxLockout l else d
  | S n' =>
      let d := d *64 2 in
      if maxLockout l <=? d then maxLockout l else double_loop n' d
  end.

Definition lockoutFor (failures : Z) : Z :=
  double_loop (Z.to_nat (failures - maxFailures l)) (baseLockout l).

(** What a failure makes of the entry of one key. *)
Definition fail_entry (now : Z) (old : option limiterEntry) : limiterEntry * bool :=
  let e := default (mkEntry 0 zeroTime zeroTime zeroTime) old in
  let idle := negb (Before now (lockedUntil e)) && negb (IsZero (lastFailure e)) &&
              (window l <? TimeSub now (lastFailure e)) in
  let n := (if idle then 0 else failures e) +64 1 in
  let first := if idle then zeroTime else firstLockedAt e in
  if maxFailures l <=? n then
    (mkEntry n now (TimeAdd now (lockoutFor n)) (if IsZero first then now else first), true)
  else (mkEntry n now (lockedUntil e) first, false).

Definition fail_step (now : Z) (st : entries * bool) (k : string) : entries * bool :=
  let '(e, b) := fail_entry now (st.1 !! k) in
  (<[k := e]> st.1, if b then true else st.2).

Definition fail (now : Z) (m : entries) (keys : list string) : entries * bool :=
  foldl (fail_step now) (m, false) keys.

Definition reset (m : entries) (keys : list string) : entries :=
  foldl (λ m k, delete k m) m keys.
End Limiter.

(** ** What the calls do to a key *)

Section Keys.
Context (l : limiterConfig).

Lemma fail_lookup_ne now keys m b k : k ∉ keys →
  (foldl (fail_step l now) (m, b) keys).1 !! k = m !! k.
Proof.
  revert m b. induction keys as [|k' keys IH]; intros m b Hk; [done|].
  apply not_elem_of_cons in Hk as [Hne Hk]. cbn [foldl]. unfold fail_step at 2. cbn [fst].
  destruct (fail_entry l now (m !! k')) as [e b']. rewrite IH by done. by rewrite lookup_insert_ne.
Qed.

(** Each of several different keys counts the failure on its own. *)
Lemma fail_lookup now keys m b k : NoDup keys → k ∈ keys →
  (foldl (fail_step l now) (m, b) keys).1 !! k = Some (fail_entry l now (m !! k)).1.
Proof.
  revert m b. induction keys as [|k' keys IH]; intros m b Hnd Hk; [by apply not_elem_of_nil in Hk|].
  apply NoDup_cons in Hnd as [Hn Hnd]. cbn [foldl]. unfold fail_step at 2. cbn [fst].
  destruct (fail_entry l now (m !! k')) as [e b'] eqn:He. apply elem_of_cons in Hk as [->|Hk].
  - rewrite fail_lookup_ne by done. by rewrite lookup_insert_eq, He.
  - rewrite IH by done. rewrite lookup_insert_ne; [done|]. by intros ->.
Qed.

Lemma fail_flag now keys m b : NoDup keys →
  (foldl (fail_step l now) (m, b) keys).2 =
    b || existsb (λ k, (fail_entry l now (m !! k)).2) keys.
Proof.
  revert m b. induction keys as [|k' keys IH]; intros m b Hnd; [by rewrite orb_false_r|].
  apply NoDup_cons in Hnd as [Hn Hnd]. cbn [foldl existsb]. unfold fail_step at 2. cbn [fst snd].
  destruct (fail_entry l now (m !! k')) as [e b'] eqn:He. rewrite IH by done. cbn [snd].
  assert (Heq : existsb (λ k, (fail_entry l now (<[k':=e]> m !! k)).2) keys =
                existsb (λ k, (fail_entry l now (m !! k)).2) keys).
  { apply eq_true_iff_eq. rewrite !existsb_bool.
    split; intros (k & Hk & H); exists k; (split; [done|]); rewrite lookup_insert_ne in * by (by intros ->); done. }
  rewrite Heq. by destruct b, b'.
Qed.

Lemma reset_lookup keys m k : reset m keys !! k = if bool_decide (k ∈ keys) then None else m !! k.
Proof.
  unfold reset. revert m. induction keys as [|k' keys IH]; intros m; cbn [foldl].
  - by rewrite bool_decide_false by apply not_elem_of_nil.
  - rewrite IH. destruct (decide (k = k')) as [->|Hne].
    + rewrite lookup_delete_eq, (bool_decide_true (k' ∈ k' :: keys)) by left. by case_bool_decide.
    + rewrite lookup_delete_ne by done.
      by rewrite (bool_decide_ext (k ∈ k' :: keys) (k ∈ keys)) by (rewrite elem_of_cons; naive_solver).
Qed.
End Keys.

(** ** The span of a lock *)

Lemma double_loop_min l n d :
  0 < d ≤ maxLockout l → maxLockout l < 2 ^ 62 →
  double_loop l n d = Z.min (d * 2 ^ Z.of_nat n) (maxLockout l).
Proof.
  intros Hd Hm. revert d Hd. induction n as [|n IH]; intros d Hd.
  - cbn [double_loop]. change (2 ^ Z.of_nat 0) with 1. split_ifs; lia.
  - cbn [double_loop]. cbv zeta. rewrite wrap64_id by (unfold in_int64, minInt64, maxInt64; lia).
    rewrite Nat2Z.inj_succ, Z.pow_succ_r by lia.
    destruct (Z.leb_spec (maxLockout l) (d * 2)).
    + pose proof (Z.pow_pos_nonneg 2 (Z.of_nat n)). nia.
    + rewrite IH by lia. f_equal. lia.
Qed.

(** The span of a lock is the base doubled for every failure past the
    threshold, up to the maximum. *)
Theorem lockoutFor_spec n :
  lockoutFor newLoginLimiter n = Z.min (5 * Minute * 2 ^ Z.max 0 (n - 5)) Hour.
Proof.
  unfold lockoutFor. rewrite double_loop_min.
  - cbn [baseLockout maxLockout maxFailures newLoginLimiter].
    destruct (Z.le_gt_cases n 5).
    + rewrite Z.max_l by lia. by replace (Z.to_nat (n - 5)) with 0%nat by lia.
    + rewrite Z.max_r, Z2Nat.id by lia. done.
  - cbn. unfold Hour, Minute, Second. lia.
  - cbn. unfold Hour, Minute, Second. lia.
Qed.

(** ** Clients that wait for their answer *)

(** A client that fails [keys] at [t2] was let through at [t1], and nothing
    happened to the limiter in between; or somebody's keys are reset. *)
Inductive seq_step : Z * entries → Z * entries → Prop :=
  | seq_fail c m keys t1 t2 :
      c ≤ t1 ≤ t2 → NoDup keys → locked newLoginLimiter t1 m keys = false →
      seq_step (c, m) (t2, (fail newLoginLimiter t2 m keys).1)
  | seq_reset c m keys t : c ≤ t → seq_step (c, m) (t, reset m keys).

(** A limiter as [newLoginLimiter] leaves it, and what becomes of it. *)
Definition sequential (c : Z) (m : entries) : Prop := ∃ c0, 0 < c0 ∧ rtc seq_step (c0, ∅) (c, m).

(** Up to four failures lock nothing; the fifth locks for five minutes; a sixth
    is counted only if it comes at the very instant the lock ends. *)
Definition entry_ok (c : Z) (e : limiterEntry) : Prop :=
  0 < lastFailure e ≤ c ∧
  ((1 ≤ failures e ≤ 4 ∧ lockedUntil e ≤ lastFailure e ∧ firstLockedAt e = 0) ∨
   (failures e = 5 ∧ lockedUntil e = lastFailure e + 5 * Minute ∧ firstLockedAt e = lastFailure e) ∨
   (failures e = 6 ∧ lockedUntil e = lastFailure e + 10 * Minute ∧
    firstLockedAt e = lastFailure e - 5 * Minute ∧ 0 < firstLockedAt e)).

Lemma entry_ok_mono c c' e : entry_ok c e → c ≤ c' → entry_ok c' e.
Proof. unfold entry_ok. intuition lia. Qed.

(** While it stands so, the ceiling releases nothing. *)
Lemma entry_ok_locked c e t k : entry_ok c e →
  entry_locked newLoginLimiter t k (Some e) = Before t (lockedUntil e).
Proof.
  intros [Hl He]. unfold entry_locked, Before, IsZero, TimeAdd, zeroTime.
  cbn [acctLockCeiling newLoginLimiter].
  destruct (Z.ltb_spec t (lockedUntil e)); [|done]. cbn [negb].
  destruct He as [(?&?&->)|[(?&?&?)|(?&?&?&?)]].
  - by rewrite andb_false_r.
  - rewrite (proj2 (Z.ltb_lt t _)); [by rewrite andb_false_r|]. unfold Minute, Second in *. lia.
  - rewrite (proj2 (Z.ltb_lt t _)); [by rewrite andb_false_r|]. unfold Minute, Second in *. lia.
Qed.

Lemma window_idle_true t u : 5 * Minute < t - u → (5 * Minute <? TimeSub t u) = true.
Proof.
  intros H. unfold TimeSub, minInt64, maxInt64, Minute, Second in *.
  split_ifs; apply Z.ltb_lt; lia.
Qed.

Lemma window_idle_false t u : 0 ≤ t - u ≤ 5 * Minute → (5 * Minute <? TimeSub t u) = false.
Proof.
  intros H. unfold TimeSub, minInt64, maxInt64, Minute, Second in *.
  split_ifs; apply Z.ltb_ge; lia.
Qed.

Lemma lockoutFor_5_6 : lockoutFor newLoginLimiter 5 = 5 * Minute ∧ lockoutFor newLoginLimiter 6 = 10 * Minute.
Proof. by rewrite !lockoutFor_spec. Qed.

(** The first failure of a key, or the first after it was idle. *)
Lemma fail_entry_fresh t o : 0 < t →
  match o with
  | None => True
  | Some e => lockedUntil e ≤ t ∧ 0 < lastFailure e ∧ 5 * Minute < t - lastFailure e
  end →
  ∃ u, (fail_entry newLoginLimiter t o).1 = mkEntry 1 t u 0 ∧ u ≤ t.
Proof.
  intros Ht Ho. unfold fail_entry, IsZero, Before, zeroTime. destruct o as [e|]; cbn [default from_option id].
  - destruct Ho as (Hu & Hl & Hg). rewrite (proj2 (Z.ltb_ge _ _)) by done.
    rewrite (proj2 (Z.eqb_neq (lastFailure e) 0)) by lia.
    cbn [window newLoginLimiter]. rewrite window_idle_true by done. cbn. by exists (lockedUntil e).
  - cbn [lockedUntil]. rewrite (proj2 (Z.ltb_ge t 0)) by lia. cbn. exists 0. split; [done|lia].
Qed.

(** One more failure of a key that is not idle. *)
Lemma fail_entry_next t e : 0 < t → lockedUntil e ≤ t → 0 < lastFailure e →
  0 ≤ t - lastFailure e ≤ 5 * Minute → 0 ≤ failures e < 100 →
  (fail_entry newLoginLimiter t (Some e)).1 =
    if 5 <=? failures e + 1 then
      mkEntry (failures e + 1) t (t + lockoutFor newLoginLimiter (failures e + 1))
        (if firstLockedAt e =? 0 then t else firstLockedAt e)
    else mkEntry (failures e + 1) t (lockedUntil e) (firstLockedAt e).
Proof.
  intros Ht Hu Hl Hg Hf. unfold fail_entry, IsZero, Before, TimeAdd, zeroTime.
  cbn [default from_option id]. rewrite (proj2 (Z.ltb_ge t _)) by done.
  rewrite (proj2 (Z.eqb_neq (lastFailure e) 0)) by lia.
  cbn [window newLoginLimiter maxFailures]. rewrite window_idle_false by done. cbn [andb negb].
  rewrite wrap64_id by (unfold in_int64, minInt64, maxInt64; lia).
  by destruct (5 <=? failures e + 1).
Qed.

(** A failure of a client that waited, seen from one of its keys. *)
Lemma fail_entry_ok c t1 t2 k o :
  0 < c → c ≤ t1 ≤ t2 → (∀ e, o = Some e → entry_ok c e) →
  entry_locked newLoginLimiter t1 k o = false →
  let e' := (fail_entry newLoginLimiter t2 o).1 in
  entry_ok t2 e' ∧ lastFailure e' = t2 ∧
  ∀ e, o = Some e → failures e' = failures e + 1 ∧ failures e ≤ 4 ∨ lastFailure e + 5 * Minute ≤ t2.
Proof.
  intros Hc Ht Ho Hlock e'. subst e'.
  assert (Hfresh : ∀ u, u ≤ t2 → entry_ok t2 (mkEntry 1 t2 u 0)).
  { intros u Hu. split; cbn; [lia|]. left. lia. }
  destruct o as [e|].
  2:{ destruct (fail_entry_fresh t2 None) as (u & -> & Hu); [lia|done|]. split; [by apply Hfresh|done]. }
  specialize (Ho e eq_refl). rewrite (entry_ok_locked c) in Hlock by done.
  unfold Before in Hlock. apply Z.ltb_ge in Hlock. destruct Ho as [Hl He].
  destruct (Z.le_gt_cases (t2 - lastFailure e) (5 * Minute)) as [Hg|Hg].
  2:{ destruct (fail_entry_fresh t2 (Some e)) as (u & -> & Hu); [lia|lia|]. split; [by apply Hfresh|].
      split; [done|]. intros ? [= <-]. right. lia. }
  assert (Hle : 0 ≤ t2 - lastFailure e ≤ 5 * Minute).
  { destruct He as [(?&?&?)|[(?&?&?)|(?&?&?&?)]]; unfold Minute, Second in *; lia. }
  assert (Hf : 0 ≤ failures e < 100) by (destruct He as [(?&?&?)|[(?&?&?)|(?&?&?&?)]]; lia).
  rewrite fail_entry_next by lia. destruct lockoutFor_5_6 as [H5 H6].
  destruct He as [(Hn&Hu&Hz)|[(Hn&Hu&Hz)|(Hn&Hu&Hz&?)]].
  - rewrite Hz. destruct (Z.leb_spec 5 (failures e + 1)).
    + replace (failures e) with 4 by lia. change (4 + 1) with 5. rewrite H5. cbn [Z.eqb]. split.
      * split; cbn; [lia|]. right. left. lia.
      * split; [done|]. intros ? [= <-]. left. cbn. lia.
    + split; [split; cbn; [lia|]; left; lia|]. split; [done|]. intros ? [= <-]. left. cbn. lia.
  - rewrite Hn. change (5 + 1) with 6. rewrite H6. cbn [Z.leb Z.compare Pos.compare Pos.compare_cont].
    rewrite (proj2 (Z.eqb_neq (firstLockedAt e) 0)) by lia. split.
    + split; cbn; [lia|]. right. right. unfold Minute, Second in *. lia.
    + split; [done|]. intros ? [= <-]. right. lia.
  - unfold Minute, Second in *. lia.
Qed.

Definition entries_ok (c : Z) (m : entries) : Prop := map_Forall (λ _, entry_ok c) m.

Lemma seq_step_ok s s' : seq_step s s' → 0 < s.1 → entries_ok s.1 s.2 → 0 < s'.1 ∧ entries_ok s'.1 s'.2.
Proof.
  intros [c m keys t1 t2 Ht Hnd Hlock|c m keys t Ht] Hc Hok; cbn [fst snd] in *; (split; [lia|]).
  - intros k e Hk. unfold fail in Hk. destruct (decide (k ∈ keys)) as [Hin|Hnin].
    + rewrite fail_lookup in Hk by done. injection Hk as <-.
      apply (fail_entry_ok c t1 t2 k); try done.
      * intros e He. exact (Hok k e He).
      * destruct (entry_locked newLoginLimiter t1 k (m !! k)) eqn:Hl; [|done].
        assert (locked newLoginLimiter t1 m keys = true); [|congruence].
        apply existsb_bool. by exists k.
    + rewrite fail_lookup_ne in Hk by done. eapply entry_ok_mono; [exact (Hok k e Hk)|lia].
  - intros k e Hk. rewrite reset_lookup in Hk. case_bool_decide; [done|].
    eapply entry_ok_mono; [exact (Hok k e Hk)|lia].
Qed.

Lemma sequential_ok c m : sequential c m → 0 < c ∧ entries_ok c m.
Proof.
  intros (c0 & Hc0 & Hr). remember (c0, ∅ : entries) as s eqn:Hs. remember (c, m) as s' eqn:Hs'.
  assert (H : 0 < s'.1 ∧ entries_ok s'.1 s'.2); [|by subst s'].
  assert (H0 : 0 < s.1 ∧ entries_ok s.1 s.2) by (subst s; split; [done|apply map_Forall_empty]).
  clear Hs Hs' Hc0. induction Hr as [s|s1 s2 s3 H1 _ IH]; [done|].
  apply IH. destruct H0. by eapply seq_step_ok.
Qed.

(** However often they fail, clients that wait for each answer never lock a
    key for more than ten minutes after its last failure, never count past six,
    and the ceiling on account locks never releases anything: the lock of five
    minutes is as long as the window after which a key counts as idle, so the
    doubling starts over each time. *)
Theorem sequential_lock_never_escalates c m k e :
  sequential c m → m !! k = Some e →
  1 ≤ failures e ≤ 6 ∧ lockedUntil e ≤ lastFailure e + 10 * Minute ∧
  ∀ t, key_locked newLoginLimiter t m k = Before t (lockedUntil e).
Proof.
  intros Hs Hk. destruct (sequential_ok c m Hs) as [_ Hok]. specialize (Hok k e Hk). split; [|split].
  - destruct Hok as [_ [(?&?&?)|[(?&?&?)|(?&?&?&?)]]]; lia.
  - destruct Hok as [_ [(?&?&?)|[(?&?&?)|(?&?&?&?)]]]; unfold Minute, Second in *; lia.
  - intros t. unfold key_locked. rewrite Hk. by apply (entry_ok_locked c).
Qed.

(** ** The rate of guesses *)

(** Failures of one key after one another, each let through at its first
    instant and counted at its second, with no reset in between. *)
Fixpoint guesses (k : string) (c : Z) (o : option limiterEntry) (ts : list (Z * Z)) : Prop :=
  match ts with
  | [] => True
  | (t1, t2) :: ts' =>
      c ≤ t1 ≤ t2 ∧ entry_locked newLoginLimiter t1 k o = false ∧
      guesses k t2 (Some (fail_entry newLoginLimiter t2 o).1) ts'
  end.

(** [n] more failures within five minutes of the last one count on to five. *)
Lemma guesses_count k ts c e :
  0 < c → entry_ok c e → guesses k c (Some e) ts →
  (∀ t1 t2, last ts = Some (t1, t2) → t2 < lastFailure e + 5 * Minute) →
  failures e ≤ 5 → failures e + Z.of_nat (length ts) ≤ 5.
Proof.
  revert c e. induction ts as [|[t1 t2] ts IH]; intros c e Hc He Hg Hlast Hf; [cbn; lia|].
  destruct Hg as (Ht & Hlock & Hg).
  destruct (fail_entry_ok c t1 t2 k (Some e) Hc Ht) as (He' & Hl' & Hcase);
    [by intros ? [= <-]|done|].
  assert (Hmono : ∀ ts c o t1' t2', guesses k c o ts → last ts = Some (t1', t2') → c ≤ t2').
  { clear. induction ts as [|[a b] ts IH]; intros c o t1' t2' Hg Hl; [done|].
    destruct Hg as (Hab & _ & Hg). destruct ts as [|x ts]; [injection Hl as -> ->; lia|].
    specialize (IH _ _ _ _ Hg Hl). lia. }
  assert (Ht2 : t2 < lastFailure e + 5 * Minute).
  { destruct ts as [|x ts]; [by apply (Hlast t1)|].
    destruct (last (x :: ts)) as [[u1 u2]|] eqn:Hl; [|by apply last_None in Hl].
    pose proof (Hmono _ _ _ _ _ Hg Hl). pose proof (Hlast u1 u2 Hl). lia. }
  destruct (Hcase e eq_refl) as [[Hn H4]|?]; [|lia].
  cbn [length]. specialize (IH t2 _ ltac:(lia) He' Hg). rewrite Hl' in IH.
  assert (failures (fail_entry newLoginLimiter t2 (Some e)).1 + Z.of_nat (length ts) ≤ 5); [|lia].
  apply IH; [|lia]. intros u1 u2 Hl. assert (lastFailure e ≤ t2) by (destruct He; lia).
  specialize (Hlast u1 u2). rewrite last_cons, Hl in Hlast. specialize (Hlast eq_refl). lia.
Qed.

(** Six failures of one key in a row take at least five minutes, whoever
    sends them, as long as nothing resets the key: at most five guesses in five
    minutes per account and per source. *)
Theorem six_failures_take_five_minutes c m k t1 t2 ts u1 u2 :
  sequential c m → guesses k c (m !! k) ((t1, t2) :: ts) →
  (5 ≤ length ts)%nat → last ts = Some (u1, u2) →
  t2 + 5 * Minute ≤ u2.
Proof.
  intros Hs (Ht & Hlock & Hg) Hlen Hlast. destruct (sequential_ok c m Hs) as [Hc Hok].
  destruct (fail_entry_ok c t1 t2 k (m !! k) Hc Ht) as (He' & Hl' & _); [|done|].
  { intros e He. exact (Hok k e He). }
  destruct (Z.le_gt_cases (t2 + 5 * Minute) u2) as [|Hlt]; [done|exfalso].
  set (e := (fail_entry newLoginLimiter t2 (m !! k)).1) in *.
  assert (1 ≤ failures e) by (destruct He' as [_ [(?&?&?)|[(?&?&?)|(?&?&?&?)]]]; lia).
  destruct (Z.le_gt_cases (failures e) 5) as [H5|H6].
  - pose proof (guesses_count k ts t2 e ltac:(lia) He' Hg) as Hb.
    assert (failures e + Z.of_nat (length ts) ≤ 5); [|lia]. apply Hb; [|done].
    intros v1 v2 Hv. rewrite Hlast in Hv. injection Hv as <- <-. lia.
  - assert (Hb : failures e = 6 ∧ lockedUntil e = t2 + 10 * Minute)
      by (destruct He' as [_ [(?&?&?)|[(?&?&?)|(?&?&?&?)]]]; lia).
    destruct ts as [|[v1 v2] ts]; [cbn in Hlen; lia|]. destruct Hg as (Hv & Hlock' & Hg').
    rewrite (entry_ok_locked t2) in Hlock' by done. unfold Before in Hlock'. apply Z.ltb_ge in Hlock'.
    assert (v2 ≤ u2).
    { clear - Hg' Hlast. revert v1 v2 Hg' Hlast. generalize (Some e). induction ts as [|[a b] ts IH]; intros o v1 v2 Hg Hl.
      - injection Hl as <- <-. lia.
      - destruct Hg as (Hab & _ & Hg). specialize (IH _ a b Hg Hl). lia. }
    unfold Minute, Second in *. lia.
Qed.

(** Five failures of one key, a minute apart. *)
Definition five_failures : list (Z * Z) :=
  map (λ i, (i * Minute, i * Minute)) [2; 3; 4; 5].

Lemma sequential_start : sequential 1 ∅.
Proof. exists 1. split; [done|constructor]. Qed.

Lemma sequential_one : sequential Minute (fail newLoginLimiter Minute ∅ ["ip:192.0.2.1"%string]).1.
Proof.
  exists 1. split; [done|]. eapply rtc_l; [|constructor]. apply (seq_fail 1 ∅ _ Minute Minute).
  - unfold Minute, Second. lia.
  - apply NoDup_singleton.
  - reflexivity.
Qed.

Lemma sequential_lock_never_escalates_witness :
  let m := (fail newLoginLimiter Minute ∅ ["ip:192.0.2.1"%string]).1 in
  let e := mkEntry 1 Minute 0 0 in
  1 ≤ failures e ≤ 6 ∧ lockedUntil e ≤ lastFailure e + 10 * Minute ∧
  ∀ t, key_locked newLoginLimiter t m "ip:192.0.2.1" = Before t (lockedUntil e).
Proof.
  cbv zeta. apply (sequential_lock_never_escalates Minute).
  - exact sequential_one.
  - vm_compute. reflexivity.
Defined.

Lemma six_failures_take_five_minutes_witness : 1 * Minute + 5 * Minute ≤ 10 * Minute.
Proof.
  apply (six_failures_take_five_minutes 1 ∅ "ip:192.0.2.1" (1 * Minute) (1 * Minute)
           (five_failures ++ [(10 * Minute, 10 * Minute)]) (10 * Minute) (10 * Minute)).
  - exact sequential_start.
  - vm_compute. repeat split; discriminate.
  - cbn. lia.
  - reflexivity.
Defined.

(** Requests in flight at once were all let through before any was counted:
    nine of them lock their keys for an hour, and this is where the ceiling
    comes in: fifteen minutes on the account's key releases it, not the
    address's. *)
Example concurrent_failures_escalate :
  let keys := ["acct:ada"; "ip:192.0.2.1"]%string in
  let m := Nat.iter 9 (λ m, (fail newLoginLimiter Hour m keys).1) ∅ in
  map (λ t, map (key_locked newLoginLimiter (Hour + t) m) keys)
    [14 * Minute; 15 * Minute; 59 * Minute; Hour] =
  [[true; true]; [false; true]; [false; true]; [false; false]].
Proof. vm_compute. reflexivity. Qed.
