(* ===== verification/ClientIP.v ===== *)
(** * The client address behind trusted proxies

    [cmd/web/clientip.go]: the address that keys the login limiter is the
    connection's peer, or, when the operator has named that peer as a proxy, the
    first hop from the right of [X-Forwarded-For] that is not such a proxy. *)

From S2P Require Import Prelude GoStr NetIP NetParse.

(** [net.SplitHostPort], as far as its host: [None] is its error. *)
Definition SplitHostPort (hostport : string) : option string :=
  let i := LastIndexByte hostport ":" in
  if i <? 0 then None
  else
    let n := Z.of_nat (String.length hostport) in
    let finish (host : string) (j k : Z) :=
      if 0 <=? IndexByte (slice_from hostport j) "[" then None
      else if 0 <=? IndexByte (slice_from hostport k) "]" then None
      else Some host in
    if HasPrefix hostport "[" then
      let e := IndexByte hostport "]" in
      if e <? 0 then None
      else if negb (e + 1 =? i) then None
      else finish (slice_to (slice_from hostport 1) (e - 1)) 1 (e + 1)
    else
      let host := slice_to hostport i in
      if 0 <=? IndexByte host ":" then None else finish host 0 0.

(** The networks of [trustedProxies]. *)
Definition trustedProxies : Type := list Prefix.

(** One part of the operator's list: nothing for a blank one, [None] for an
    error. *)
Definition parse_proxy (part : string) : option (list Prefix) :=
  let part := TrimSpace part in
  if String.eqb part "" then Some []
  else if 0 <=? IndexByte part "/" then
    p ← ParsePrefix part; Some [Masked p]
  else
    a ← ParseAddr part; Some [PrefixFrom a (BitLen a)].

Definition parseTrustedProxies (spec : string) : option trustedProxies :=
  nets ← mapM parse_proxy (Split "," spec); Some (concat nets).

Definition trusts (tp : trustedProxies) (addr : Addr) : bool :=
  existsb (λ n, Contains n (Unmap addr)) tp.

(** The entries of the header, over all its values. *)
Definition xff_entries (values : list string) : list string :=
  flat_map (λ v, filter (λ p, p ≠ "") (map TrimSpace (Split "," v))) values.

(** The walk from the right; [None] when every hop is a trusted proxy. *)
Fixpoint walk_hops (tp : trustedProxies) (rev_entries : list string) : option string :=
  match rev_entries with
  | [] => None
  | e :: rest =>
      match ParseAddr e with
      | None => Some e
      | Some a => if trusts tp a then walk_hops tp rest else Some (Addr_String (Unmap a))
      end
  end.

Definition peer_host (remoteAddr : string) : string := default remoteAddr (SplitHostPort remoteAddr).

Definition clientIP (tp : trustedProxies) (remoteAddr : string) (values : list string) : string :=
  let host := peer_host remoteAddr in
  match ParseAddr host with
  | None => host
  | Some peer =>
      if (length tp =? 0)%nat || negb (trusts tp peer) then host
      else default host (walk_hops tp (reverse (xff_entries values)))
  end.

Definition loginIPKey (tp : trustedProxies) (remoteAddr : string) (values : list string) : string :=
  ("ip:" +:+ clientIP tp remoteAddr values)%string.

Example SplitHostPort_ex :
  map SplitHostPort ["192.0.2.1:80"; "[2001:db8::1]:443"; "[fe80::1%eth0]:1"; "2001:db8::1"; "host"; ":80"; "[::1]x:1"]
  = [Some "192.0.2.1"; Some "2001:db8::1"; Some "fe80::1%eth0"; None; None; Some ""; None]%string.
Proof. vm_compute. reflexivity. Qed.

(** ** Properties *)

Lemma xff_entries_app vs ws : xff_entries (vs ++ ws) = xff_entries vs ++ xff_entries ws.
Proof. unfold xff_entries. induction vs as [|v vs IH]; [done|]. cbn. by rewrite IH, app_assoc. Qed.

Lemma xff_entries_value v w ws :
  xff_entries ((v +:+ String "," w)%string :: ws) = xff_entries [v] ++ xff_entries (w :: ws).
Proof.
  unfold xff_entries. cbn [flat_map]. by rewrite Split_at_sep, map_app, filter_app, app_nil_r, app_assoc.
Qed.

Lemma walk_hops_app tp es fs h : walk_hops tp es = Some h → walk_hops tp (es ++ fs) = Some h.
Proof.
  induction es as [|e es IH]; [done|]. cbn. destruct (ParseAddr e); [|done].
  destruct (trusts tp a); [apply IH|done].
Qed.

(** A hop the operator has not vouched for. *)
Definition unvouched (tp : trustedProxies) (e : string) : bool :=
  match ParseAddr e with None => true | Some a => negb (trusts tp a) end.

Lemma walk_hops_spec tp es :
  walk_hops tp es =
    e ← head (filter (λ e, unvouched tp e = true) es);
    Some match ParseAddr e with None => e | Some a => Addr_String (Unmap a) end.
Proof.
  induction es as [|e es IH]; [done|]. rewrite filter_cons. cbn [walk_hops].
  destruct (decide (unvouched tp e = true)) as [Hu|Hu]; unfold unvouched in Hu;
    destruct (ParseAddr e) as [a|] eqn:Ha; try done; cbn [head mbind option_bind]; rewrite ?Ha.
  - by destruct (trusts tp a).
  - done.
  - by destruct (trusts tp a).
Qed.

(** The peer is a proxy the operator named. *)
Definition vouched_peer (tp : trustedProxies) (remoteAddr : string) : bool :=
  match ParseAddr (peer_host remoteAddr) with
  | None => false
  | Some peer => negb (length tp =? 0)%nat && trusts tp peer
  end.

Lemma clientIP_eq tp remoteAddr values :
  clientIP tp remoteAddr values =
    if vouched_peer tp remoteAddr
    then default (peer_host remoteAddr) (walk_hops tp (reverse (xff_entries values)))
    else peer_host remoteAddr.
Proof.
  unfold clientIP, vouched_peer. destruct (ParseAddr (peer_host remoteAddr)) as [peer|]; [|done].
  by destruct (length tp =? 0)%nat, (trusts tp peer).
Qed.

(** Which hop is taken: the last of the header that nobody vouched for. *)
Lemma clientIP_last_unvouched tp remoteAddr values :
  vouched_peer tp remoteAddr = true →
  clientIP tp remoteAddr values =
    match last (filter (λ e, unvouched tp e = true) (xff_entries values)) with
    | None => peer_host remoteAddr
    | Some e => match ParseAddr e with None => e | Some a => Addr_String (Unmap a) end
    end.
Proof.
  intros Hv. rewrite clientIP_eq, Hv, walk_hops_spec, filter_reverse, head_reverse.
  by destruct (last _).
Qed.

(** The key of the limiter is not the client's to choose: when the peer is
    no proxy the operator named, the header is not read; when it is, whatever a
    client wrote to the left of what its proxies appended, in the same value of
    the header or in values before it, changes nothing, as long as one hop they
    appended is not itself a proxy. *)
Theorem clientIP_not_forgeable tp remoteAddr forged v w ws :
  vouched_peer tp remoteAddr = false ∨ (∃ e, e ∈ xff_entries (w :: ws) ∧ unvouched tp e = true) →
  clientIP tp remoteAddr (forged ++ (v +:+ String "," w)%string :: ws) =
  clientIP tp remoteAddr (w :: ws).
Proof.
  rewrite !clientIP_eq. intros [->|(e & He & Hu)]; [done|].
  destruct (vouched_peer tp remoteAddr); [|done].
  rewrite xff_entries_app, xff_entries_value, app_assoc, reverse_app.
  assert (Hw : is_Some (walk_hops tp (reverse (xff_entries (w :: ws))))).
  { rewrite walk_hops_spec, filter_reverse, head_reverse.
    destruct (last _) as [x|] eqn:Hl; [by eexists|]. apply last_None in Hl.
    assert (Hin : e ∈ filter (λ e, unvouched tp e = true) (xff_entries (w :: ws)))
      by (by apply list_elem_of_filter).
    rewrite Hl in Hin. by apply not_elem_of_nil in Hin. }
  destruct Hw as [h Hh]. by rewrite (walk_hops_app _ _ _ _ Hh), Hh.
Qed.

(** One proxy, a client that forges, and the hop the proxy saw. *)
Lemma clientIP_not_forgeable_witness :
  clientIP [mkPrefix (Addr4 167772160) 8] "10.0.0.1:443" (["10.9.9.9"%string] ++ ["1.2.3.4, 10.0.0.7,203.0.113.9, 10.0.0.2"%string]) =
  clientIP [mkPrefix (Addr4 167772160) 8] "10.0.0.1:443" ["203.0.113.9, 10.0.0.2"%string].
Proof.
  apply (clientIP_not_forgeable [mkPrefix (Addr4 167772160) 8] "10.0.0.1:443" ["10.9.9.9"%string]
           "1.2.3.4, 10.0.0.7" "203.0.113.9, 10.0.0.2" []).
  right. exists "203.0.113.9"%string. split; [|vm_compute; reflexivity].
  apply list_elem_of_In. vm_compute. auto.
Defined.

Example clientIP_ex :
  let tp := default [] (parseTrustedProxies " 10.0.0.0/8 ,, ::1") in
  map (clientIP tp "10.0.0.1:443") [["203.0.113.9, 10.0.0.2"]; ["::ffff:203.0.113.9"]; ["junk, 10.0.0.2"]; []] =
    ["203.0.113.9"; "203.0.113.9"; "junk"; "10.0.0.1"]%string ∧
  clientIP tp "192.0.2.7:443" ["203.0.113.9"] = "192.0.2.7"%string ∧
  parseTrustedProxies "10.0.0.0/33" = None.
Proof. vm_compute. auto. Qed.


(** The operator's entries are not unmapped, the addresses compared with them
    are: a proxy named by its mapped form is named for nothing. *)
Example mapped_proxy_trusts_nothing :
  let tp := default [] (parseTrustedProxies "::ffff:10.0.0.1, ::ffff:10.0.0.0/104") in
  length tp = 2%nat ∧
  map (λ s, trusts tp <$> ParseAddr s) ["10.0.0.1"; "::ffff:10.0.0.1"]%string = [Some false; Some false].
Proof. vm_compute. auto. Qed.
