(* ===== verification/Login.v ===== *)
(** * Signing in

    The pre-authentication handlers of [cmd/web/auth.go]: the password step, the
    second factor, recovery codes, the request for a reset, the setup of the
    first account, and sessions: how one is issued, recognised and revoked.  The
    tables are lists of rows in the order of their ids; what the store answers
    when it fails is an input of the request.  A handler reads its clock at [t1]
    when it asks the limiter and at [t2] from then on: the password and code
    checks in between take their time. *)

From S2P Require Import Prelude GoTime GoStr GoBytes GoConv GoEnc NetIP NetParse Auth Limiter ClientIP.

(** ** The state *)

Record Account := mkAccount {
  ac_ID : Z;
  Username : string;
  Role : string;
  PasswordHash : string;
  TotpSecret : option string;
  TotpEnabled : bool;
  TotpLastStep : option Z
}.

Record recovery_row := mkRecovery {
  rc_ID : Z;
  rc_AccountID : Z;
  CodeHash : string;
  UsedAt : option Z
}.

Record session_row := mkSessionRow {
  sn_ID : Z;
  sn_AccountID : Z;
  TokenHash : string;
  LastSeenAt : Z;
  sn_ExpiresAt : Z;
  RevokedAt : option Z
}.

Record server := mkServer {
  sv_limiter : entries;
  sv_accounts : list Account;
  sv_recovery : list recovery_row;
  sv_sessions : list session_row;
  sv_nextID : Z
}.

(** What never changes while the server runs. *)
Record config := mkConfig {
  cf_key : list Z;
  cf_totpKey : list Z;
  cf_devMode : bool;
  cf_sessionTTL : Z;
  cf_pendingTTL : Z;
  cf_setupToken : string;
  cf_proxies : trustedProxies
}.

(** The form and headers a handler reads, what goes wrong on the way, and what
    other requests do to the recovery codes between the two queries of
    [redeemRecoveryCode]. *)
Record request := mkRequest {
  rq_username : string;
  rq_password : string;
  rq_code : string;
  rq_token : string;
  rq_session : option string;
  rq_pending : option string;
  rq_remoteAddr : string;
  rq_xff : list string;
  rq_rand : option (list Z);
  rq_faults : string → bool;
  rq_codes_meanwhile : list recovery_row → list recovery_row
}.

Inductive body :=
  | Redirect (url : string)
  | Page (name error : string)
  | ServerError.

(** The cookies set ([Some]) and cleared ([None]). *)
Record response := mkResponse {
  rs_body : body;
  rs_cookies : list (string * option string)
}.

Definition set_limiter (m : entries) (s : server) : server :=
  mkServer m (sv_accounts s) (sv_recovery s) (sv_sessions s) (sv_nextID s).
Definition set_accounts (a : list Account) (s : server) : server :=
  mkServer (sv_limiter s) a (sv_recovery s) (sv_sessions s) (sv_nextID s).
Definition set_recovery (r : list recovery_row) (s : server) : server :=
  mkServer (sv_limiter s) (sv_accounts s) r (sv_sessions s) (sv_nextID s).
Definition set_sessions (n : list session_row) (s : server) : server :=
  mkServer (sv_limiter s) (sv_accounts s) (sv_recovery s) n (sv_nextID s).

(** ** The queries *)

Definition GetAccountByUsername (s : server) (name : string) : option Account :=
  List.find (λ a, String.eqb (Username a) name) (sv_accounts s).
Definition GetAccountByID (s : server) (id : Z) : option Account :=
  List.find (λ a, ac_ID a =? id) (sv_accounts s).

(** [WHERE id = $1 AND (totp_last_step IS NULL OR totp_last_step < $2)]. *)
Definition step_is_new (a : Account) (id step : Z) : bool :=
  (ac_ID a =? id) && match TotpLastStep a with None => true | Some old => old <? step end.

Definition with_step (step : Z) (a : Account) : Account :=
  mkAccount (ac_ID a) (Username a) (Role a) (PasswordHash a) (TotpSecret a) (TotpEnabled a) (Some step).

(** The rows affected, and the table. *)
Definition SetTOTPLastStep (s : server) (id step : Z) : Z * server :=
  (count_if (λ a, step_is_new a id step) (sv_accounts s),
   set_accounts (map (λ a, if step_is_new a id step then with_step step a else a) (sv_accounts s)) s).

Definition ListUnusedRecoveryCodeHashes (s : server) (id : Z) : list recovery_row :=
  filter (λ r, rc_AccountID r = id ∧ UsedAt r = None) (sv_recovery s).

Definition ConsumeRecoveryCode (s : server) (id now : Z) : server :=
  set_recovery (map (λ r, if rc_ID r =? id then mkRecovery (rc_ID r) (rc_AccountID r) (CodeHash r) (Some now) else r)
    (sv_recovery s)) s.

(** [None] when the hash is taken: the column is unique. *)
Definition CreateSession (s : server) (account : Z) (hash : string) (now expires : Z) : option server :=
  if existsb (λ r, String.eqb (TokenHash r) hash) (sv_sessions s) then None
  else Some (mkServer (sv_limiter s) (sv_accounts s) (sv_recovery s)
               (sv_sessions s ++ [mkSessionRow (sv_nextID s) account hash now expires None]) (sv_nextID s + 1)).

Definition GetSessionByTokenHash (s : server) (hash : string) (now : Z) : option session_row :=
  List.find (λ r, String.eqb (TokenHash r) hash && bool_decide (RevokedAt r = None) && (now <? sn_ExpiresAt r))
    (sv_sessions s).

Definition RevokeSession (s : server) (id account now : Z) : server :=
  set_sessions (map (λ r, if (sn_ID r =? id) && (sn_AccountID r =? account) && bool_decide (RevokedAt r = None)
    then mkSessionRow (sn_ID r) (sn_AccountID r) (TokenHash r) (LastSeenAt r) (sn_ExpiresAt r) (Some now) else r)
    (sv_sessions s)) s.

Definition TouchSession (s : server) (id now : Z) : server :=
  set_sessions (map (λ r, if sn_ID r =? id
    then mkSessionRow (sn_ID r) (sn_AccountID r) (TokenHash r) now (sn_ExpiresAt r) (RevokedAt r) else r)
    (sv_sessions s)) s.

(** ** Small parts *)

Definition sessionCookie : string := "verge_session".
Definition pendingCookie : string := "verge_totp_pending".
Definition lockoutMessage : string := "Too many attempts. Try again in a few minutes.".
Definition devFixtureTOTPCode : string := "482913".
Definition roleAdmin : string := "admin".

(** [hex.EncodeToString]. *)
Definition hex_string (l : list Z) : string :=
  foldr (λ b s, String (digit_char (b / 16)) (String (digit_char (b mod 16)) s)) ""%string l.

Definition hashToken (plaintext : string) : string := hex_string (Sum256 (bytes_of plaintext)).

Definition newOpaqueToken (rand : option (list Z)) : option (string * string) :=
  b ← rand; let plaintext := RawURLEncode b in Some (plaintext, hashToken plaintext).

Definition reply (b : body) : response := mkResponse b [].

Definition clearCookie (name : string) (r : response) : response :=
  mkResponse (rs_body r) ((name, None) :: rs_cookies r).

Section Handlers.
Context {J : SessionJSON} {AE : AEAD}.
(** [bcrypt.CompareHashAndPassword] gives no error; [strings.ToLower];
    [bcrypt.GenerateFromPassword]. *)
Variable CheckPassword : string → string → bool.
Variable ToLower : string → string.
Variable HashPassword : string → option string.
Variable cf : config.

Definition loginAccountKey (username : string) : string := (acctKeyPrefix +:+ ToLower username)%string.

Definition login_keys (username : string) (rq : request) : list string :=
  [loginAccountKey username; loginIPKey (cf_proxies cf) (rq_remoteAddr rq) (rq_xff rq)].

Definition limiter_locked (t : Z) (keys : list string) (s : server) : bool :=
  locked newLoginLimiter t (sv_limiter s) keys.
Definition limiter_fail (t : Z) (keys : list string) (s : server) : server * bool :=
  let '(m, b) := fail newLoginLimiter t (sv_limiter s) keys in (set_limiter m s, b).
Definition limiter_reset (keys : list string) (s : server) : server :=
  set_limiter (reset (sv_limiter s) keys) s.

(** The cookie, or [None] once [serverError] is written. *)
Definition setSignedCookie (name kind : string) (id : Z) (sessionToken : string) (ttl now : Z)
    : option (string * option string) :=
  token ← SignSession (cf_key cf) (mkSession id kind (TimeAdd now ttl) sessionToken);
  Some (name, Some token).

Definition completeLogin (now : Z) (id : Z) (rq : request) (s : server) : response * server :=
  match newOpaqueToken (rq_rand rq) with
  | None => (reply ServerError, s)
  | Some (plaintext, hash) =>
      match (if rq_faults rq "CreateSession" then None
             else CreateSession s id hash now (TimeAdd now (cf_sessionTTL cf))) with
      | None => (reply ServerError, s)
      | Some s' =>
          match setSignedCookie sessionCookie KindSession id plaintext (cf_sessionTTL cf) now with
          | None => (reply ServerError, s')
          | Some c => (mkResponse (Redirect "/") [c], s')
          end
      end
  end.

Definition login_page (error : string) : response := reply (Page "login" error).
Definition totp_page (error : string) : response := reply (Page "totp" error).

(** The part of [loginSubmit] after the limiter let the request through. *)
Definition loginSubmit_checked (t2 : Z) (rq : request) (s : server) : response * server :=
  let username := TrimSpace (rq_username rq) in
  let keys := login_keys username rq in
  let wrong := (login_page "Invalid username or password.", (limiter_fail t2 keys s).1) in
  match (if rq_faults rq "GetAccountByUsername" then None else GetAccountByUsername s username) with
  | None => wrong
  | Some acct =>
      if negb (CheckPassword (PasswordHash acct) (rq_password rq)) then wrong
      else
        let s := limiter_reset keys s in
        if TotpEnabled acct then
          match setSignedCookie pendingCookie KindPending (ac_ID acct) "" (cf_pendingTTL cf) t2 with
          | None => (reply ServerError, s)
          | Some c => (mkResponse (Page "totp" "") [c], s)
          end
        else completeLogin t2 (ac_ID acct) rq s
  end.

Definition loginSubmit (t1 t2 : Z) (rq : request) (s : server) : response * server :=
  if limiter_locked t1 (login_keys (TrimSpace (rq_username rq)) rq) s
  then (login_page lockoutMessage, s)
  else loginSubmit_checked t2 rq s.

Definition normalizeRecoveryCode (code : string) : string := ToLower (TrimSpace code).

(** The row a presented code matches: what [redeemRecoveryCode] reads. *)
Definition match_recovery (rq : request) (s : server) (account : Z) (presented : string) : option recovery_row :=
  let presented := normalizeRecoveryCode presented in
  if String.eqb presented "" then None
  else if rq_faults rq "ListUnusedRecoveryCodeHashes" then None
  else List.find (λ r, CheckPassword (CodeHash r) presented) (ListUnusedRecoveryCodeHashes s account).

Definition redeemRecoveryCode (now : Z) (rq : request) (account : Z) (presented : string) (s : server)
    : bool * server :=
  match match_recovery rq s account presented with
  | None => (false, s)
  | Some row =>
      let s := set_recovery (rq_codes_meanwhile rq (sv_recovery s)) s in
      if rq_faults rq "ConsumeRecoveryCode" then (false, s)
      else (true, ConsumeRecoveryCode s (rc_ID row) now)
  end.

(** The account a pending cookie leads to, as [loginTOTP] insists on it. *)
Definition pending_account (t1 : Z) (rq : request) (s : server) : option (Account * string) :=
  cookie ← rq_pending rq;
  sess ← VerifySession (cf_key cf) cookie KindPending t1;
  acct ← (if rq_faults rq "GetAccountByID" then None else GetAccountByID s (AccountID sess));
  if negb (TotpEnabled acct) then None
  else stored ← TotpSecret acct; Some (acct, stored).

(** Whether the code is the account's and its step is new: [None] once
    [serverError] is written. *)
Definition check_totp (t2 : Z) (rq : request) (acct : Account) (secret : string) (s : server)
    : option (bool * server) :=
  match VerifyTOTPStep secret (rq_code rq) t2 with
  | None => Some (false, s)
  | Some step =>
      if rq_faults rq "SetTOTPLastStep" then None
      else
        let '(n, s) := SetTOTPLastStep s (ac_ID acct) step in
        Some (n =? 1, s)
  end.

(** The end of [loginTOTP]: the login is completed. *)
Definition totp_grant (t2 : Z) (keys : list string) (acct : Account) (rq : request) (s : server)
    : response * server :=
  let '(r, s) := completeLogin t2 (ac_ID acct) rq (limiter_reset keys s) in
  (clearCookie pendingCookie r, s).

(** What follows the check of the code: the recovery codes, the count. *)
Definition totp_decide (t2 : Z) (keys : list string) (acct : Account) (rq : request) (totpOK : bool) (s : server)
    : response * server :=
  let '(redeemed, s) :=
    if totpOK then (false, s) else redeemRecoveryCode t2 rq (ac_ID acct) (rq_code rq) s in
  if totpOK || redeemed then totp_grant t2 keys acct rq s
  else
    let '(s, nowLocked) := limiter_fail t2 keys s in
    if nowLocked then (clearCookie pendingCookie (totp_page lockoutMessage), s)
    else (totp_page "Incorrect code.", s).

Definition loginTOTP (t1 t2 : Z) (rq : request) (s : server) : response * server :=
  match pending_account t1 rq s with
  | None => (reply (Redirect "/login"), s)
  | Some (acct, stored) =>
      let keys := login_keys (Username acct) rq in
      if limiter_locked t1 keys s then (clearCookie pendingCookie (totp_page lockoutMessage), s)
      else if cf_devMode cf && String.eqb (rq_code rq) devFixtureTOTPCode then totp_grant t2 keys acct rq s
      else
        match DecryptTOTPSecret (cf_totpKey cf) stored with
        | None => (reply ServerError, s)
        | Some secret =>
            match check_totp t2 rq acct secret s with
            | None => (reply ServerError, s)
            | Some (totpOK, s) => totp_decide t2 keys acct rq totpOK s
            end
        end
  end.

(** [forgotSubmit], to the point where the store is asked for the account: the
    limiter is all of its state that is modelled. *)
Definition forgot_limit (t1 t2 : Z) (rq : request) (s : server) : bool * server :=
  let keys := login_keys (TrimSpace (rq_username rq)) rq in
  if limiter_locked t1 keys s then (false, s)
  else (true, (limiter_fail t2 keys s).1).

(** ** Sessions *)

(** The row a session cookie stands for. *)
Definition session_of (now : Z) (rq : request) (s : server) : option session_row :=
  cookie ← rq_session rq;
  sess ← VerifySession (cf_key cf) cookie KindSession now;
  if rq_faults rq "GetSessionByTokenHash" then None
  else GetSessionByTokenHash s (hashToken (Token sess)) now.

Definition currentAccount (now : Z) (rq : request) (s : server) : option Account * server :=
  match session_of now rq s with
  | None => (None, s)
  | Some row =>
      match (if rq_faults rq "GetAccountByID" then None else GetAccountByID s (sn_AccountID row)) with
      | None => (None, s)
      | Some acct =>
          (Some acct,
           if (Minute <? TimeSub now (LastSeenAt row)) && negb (rq_faults rq "TouchSession")
           then TouchSession s (sn_ID row) now else s)
      end
  end.

Definition currentSessionID (now : Z) (rq : request) (s : server) : option Z :=
  sn_ID <$> session_of now rq s.

Definition revokeCurrentSession (now : Z) (rq : request) (s : server) : server :=
  match session_of now rq s with
  | None => s
  | Some row =>
      if rq_faults rq "RevokeSession" then s else RevokeSession s (sn_ID row) (sn_AccountID row) now
  end.

Definition logout (now : Z) (rq : request) (s : server) : response * server :=
  (clearCookie sessionCookie (reply (Redirect "/login")), revokeCurrentSession now rq s).

(** [requireLogin]: the handler runs for the account, or not at all. *)
Definition requireLogin (h : Account → server → response * server) (now : Z) (rq : request) (s : server)
    : response * server :=
  match currentAccount now rq s with
  | (Some acct, s) => h acct s
  | (None, s) => (reply (Redirect "/login"), s)
  end.

Definition forbidden : response := reply (Page "forbidden" "").

Definition requireAdmin (h : Account → server → response * server) : Z → request → server → response * server :=
  requireLogin (λ acct s, if negb (String.eqb (Role acct) roleAdmin) then (forbidden, s) else h acct s).

(** ** Setup *)

Definition setupClosed (rq : request) (s : server) : bool :=
  if String.eqb (cf_setupToken cf) "" then true
  else if rq_faults rq "CountAccounts" then true
  else negb (length (sv_accounts s) =? 0)%nat.

Definition validateCredentials (username password : string) : string :=
  if String.eqb username "" then "Username is required."
  else if (64 <? String.length username)%nat then "Username must be 64 characters or fewer."
  else if (String.length password <? 12)%nat then "Password must be at least 12 characters."
  else if (72 <? String.length password)%nat then "Password must be 72 characters or fewer."
  else "".

(** [createAccountRow]: the error's text, or the account. *)
Definition createAccountRow (rq : request) (username role password : string) (s : server)
    : (string + Account) * server :=
  match HashPassword password with
  | None => (inl "Could not create the account."%string, s)
  | Some hash =>
      if rq_faults rq "CreateAccount" then (inl "Could not create the account."%string, s)
      else if existsb (λ a, String.eqb (Username a) username) (sv_accounts s)
      then (inl "That username is already taken."%string, s)
      else
        let a := mkAccount (sv_nextID s) username role hash None false None in
        (inr a, mkServer (sv_limiter s) (sv_accounts s ++ [a]) (sv_recovery s) (sv_sessions s) (sv_nextID s + 1))
  end.

(** One call at a time: [setupMu]. *)
Definition setupSubmit (rq : request) (s : server) : response * server :=
  if setupClosed rq s then (reply (Redirect "/login"), s)
  else
    let username := TrimSpace (rq_username rq) in
    if negb (TokensEqual (rq_token rq) (cf_setupToken cf)) then (reply (Page "setup" "Invalid setup token."), s)
    else
      let msg := validateCredentials username (rq_password rq) in
      if negb (String.eqb msg "") then (reply (Page "setup" msg), s)
      else
        match createAccountRow rq username roleAdmin (rq_password rq) s with
        | (inl err, s) => (reply (Page "setup" err), s)
        | (inr _, s) => (reply (Redirect "/login"), s)
        end.
End Handlers.

(** ** Sign-in requests in any order *)

Inductive op :=
  | OpLogin (t1 t2 : Z) (rq : request)
  | OpTOTP (t1 t2 : Z) (rq : request)
  | OpForgot (t1 t2 : Z) (rq : request)
  | OpCurrent (now : Z) (rq : request)
  | OpLogout (now : Z) (rq : request).

Section Runs.
Context {J : SessionJSON} {AE : AEAD}.
Variable CheckPassword : string → string → bool.
Variable ToLower : string → string.
Variable cf : config.

Definition run_op (o : op) (s : server) : server :=
  match o with
  | OpLogin t1 t2 rq => (loginSubmit CheckPassword ToLower cf t1 t2 rq s).2
  | OpTOTP t1 t2 rq => (loginTOTP CheckPassword ToLower cf t1 t2 rq s).2
  | OpForgot t1 t2 rq => (forgot_limit ToLower cf t1 t2 rq s).2
  | OpCurrent now rq => (currentAccount cf now rq s).2
  | OpLogout now rq => (logout cf now rq s).2
  end.

(** The account and the step of a code that the second factor takes. *)
Definition accepted (o : op) (s : server) : option (Z * Z) :=
  match o with
  | OpTOTP t1 t2 rq =>
      '(acct, stored) ← pending_account cf t1 rq s;
      if limiter_locked t1 (login_keys ToLower cf (Username acct) rq) s then None
      else if cf_devMode cf && String.eqb (rq_code rq) devFixtureTOTPCode then None
      else
        secret ← DecryptTOTPSecret (cf_totpKey cf) stored;
        step ← VerifyTOTPStep secret (rq_code rq) t2;
        '(ok, _) ← check_totp t2 rq acct secret s;
        if ok : bool then Some (ac_ID acct, step) else None
  | _ => None
  end.

(** The codes taken over a run, in order. *)
Fixpoint accepted_steps (ops : list op) (s : server) : list (Z * Z) :=
  match ops with
  | [] => []
  | o :: ops' => option_list (accepted o s) ++ accepted_steps ops' (run_op o s)
  end.

(** Every row of the account has recorded a step at least this. *)
Definition recorded (id step : Z) (s : server) : Prop :=
  Forall (λ a, ac_ID a = id → ∃ old, TotpLastStep a = Some old ∧ step ≤ old) (sv_accounts s).

Lemma limiter_fail_fields t keys s :
  sv_accounts (limiter_fail t keys s).1 = sv_accounts s ∧
  sv_recovery (limiter_fail t keys s).1 = sv_recovery s.
Proof. unfold limiter_fail. by destruct (fail _ _ _ _). Qed.

Lemma CreateSession_fields s id hash now ex s' :
  CreateSession s id hash now ex = Some s' →
  sv_accounts s' = sv_accounts s ∧ sv_recovery s' = sv_recovery s ∧ sv_limiter s' = sv_limiter s.
Proof. unfold CreateSession. destruct (existsb _ _); [done|]. by intros [= <-]. Qed.

Lemma completeLogin_fields now id rq s :
  sv_accounts (completeLogin cf now id rq s).2 = sv_accounts s ∧
  sv_recovery (completeLogin cf now id rq s).2 = sv_recovery s ∧
  sv_limiter (completeLogin cf now id rq s).2 = sv_limiter s.
Proof.
  unfold completeLogin. destruct (newOpaqueToken _) as [[p h]|]; [|done].
  destruct (rq_faults rq _); [done|]. destruct (CreateSession _ _ _ _ _) as [s'|] eqn:Hc; [|done].
  apply CreateSession_fields in Hc. by destruct (setSignedCookie _ _ _ _ _ _ _).
Qed.

Lemma redeem_fields t rq id code s :
  sv_accounts (redeemRecoveryCode CheckPassword ToLower t rq id code s).2 = sv_accounts s.
Proof. unfold redeemRecoveryCode. destruct (match_recovery _ _ _ _ _ _); [|done]. by destruct (rq_faults rq _). Qed.

Lemma loginSubmit_accounts t1 t2 rq s :
  sv_accounts (loginSubmit CheckPassword ToLower cf t1 t2 rq s).2 = sv_accounts s.
Proof.
  unfold loginSubmit. destruct (limiter_locked _ _ _); [done|]. unfold loginSubmit_checked. cbv zeta.
  destruct (if rq_faults rq _ then _ else _) as [a|]; [|apply limiter_fail_fields].
  destruct (CheckPassword _ _); [|apply limiter_fail_fields]. cbn [negb].
  destruct (TotpEnabled a).
  - by destruct (setSignedCookie _ _ _ _ _ _ _).
  - destruct (completeLogin_fields t2 (ac_ID a) rq
      (limiter_reset (login_keys ToLower cf (TrimSpace (rq_username rq)) rq) s)) as [-> _]. done.
Qed.

Lemma totp_grant_fields t2 keys acct rq s :
  sv_accounts (totp_grant cf t2 keys acct rq s).2 = sv_accounts s ∧
  sv_recovery (totp_grant cf t2 keys acct rq s).2 = sv_recovery s.
Proof.
  unfold totp_grant. pose proof (completeLogin_fields t2 (ac_ID acct) rq (limiter_reset keys s)) as (H1 & H2 & _).
  destruct (completeLogin _ _ _ _ _) as [r s2]. exact (conj H1 H2).
Qed.

Lemma totp_decide_accounts t2 keys acct rq ok s :
  sv_accounts (totp_decide CheckPassword ToLower cf t2 keys acct rq ok s).2 = sv_accounts s.
Proof.
  unfold totp_decide. destruct ok; [cbn [orb]; apply totp_grant_fields|].
  pose proof (redeem_fields t2 rq (ac_ID acct) (rq_code rq) s) as Hr.
  destruct (redeemRecoveryCode _ _ _ _ _ _) as [b s2]. cbn [snd] in Hr. cbn [orb].
  destruct b; [by rewrite (proj1 (totp_grant_fields _ _ _ _ _))|].
  pose proof (limiter_fail_fields t2 keys s2) as [Hf _]. destruct (limiter_fail t2 keys s2) as [s3 nl].
  cbn [fst] in Hf. by destruct nl; cbn [snd]; rewrite Hf.
Qed.

(** The table after the second factor: a step is recorded, or nothing moves. *)
Lemma loginTOTP_accounts t1 t2 rq s :
  sv_accounts (loginTOTP CheckPassword ToLower cf t1 t2 rq s).2 = sv_accounts s ∨
  ∃ id step, sv_accounts (loginTOTP CheckPassword ToLower cf t1 t2 rq s).2 =
    sv_accounts (SetTOTPLastStep s id step).2.
Proof.
  unfold loginTOTP. destruct (pending_account _ _ _ _) as [[acct stored]|]; [|by left]. cbv zeta.
  destruct (limiter_locked _ _ _); [by left|]. destruct (_ && _); [left; apply totp_grant_fields|].
  destruct (DecryptTOTPSecret _ _) as [secret|]; [|by left].
  unfold check_totp. destruct (VerifyTOTPStep _ _ _) as [step|]; [|left; apply totp_decide_accounts].
  destruct (rq_faults rq _); [by left|]. right. exists (ac_ID acct), step.
  destruct (SetTOTPLastStep s (ac_ID acct) step) as [n s1]. apply totp_decide_accounts.
Qed.

Lemma recorded_set id step id' step' s : recorded id step s → recorded id step (SetTOTPLastStep s id' step').2.
Proof.
  unfold recorded, SetTOTPLastStep. cbn [snd sv_accounts set_accounts]. intros H. apply Forall_fmap.
  eapply Forall_impl; [exact H|]. intros a Ha. cbn. unfold step_is_new.
  destruct (Z.eqb_spec (ac_ID a) id') as [Hid|]; [|exact Ha]. cbn [andb].
  intros Hid2. destruct (Ha ltac:(by destruct (match TotpLastStep a with None => true | Some old => old <? step' end)))
    as (old & Ho & Hle). rewrite Ho in *. destruct (Z.ltb_spec old step').
  - exists step'. split; [done|lia].
  - by exists old.
Qed.

(** What is recorded stays recorded. *)
Lemma recorded_run id step o s : recorded id step s → recorded id step (run_op o s).
Proof.
  intros H. assert (Heq : ∀ s', sv_accounts s' = sv_accounts s → recorded id step s').
  { intros s' Hs. unfold recorded. by rewrite Hs. }
  destruct o as [t1 t2 rq|t1 t2 rq|t1 t2 rq|now rq|now rq]; cbn [run_op].
  - apply Heq, loginSubmit_accounts.
  - destruct (loginTOTP_accounts t1 t2 rq s) as [He|(id' & step' & He)]; [by apply Heq|].
    unfold recorded. rewrite He. by apply recorded_set.
  - apply Heq. unfold forgot_limit. destruct (limiter_locked _ _ _); [done|apply limiter_fail_fields].
  - apply Heq. unfold currentAccount. destruct (session_of _ _ _ _); [|done].
    destruct (if rq_faults rq _ then _ else _); [|done]. by destruct (_ && _).
  - apply Heq. unfold logout, revokeCurrentSession. destruct (session_of _ _ _ _); [|done].
    by destruct (rq_faults rq _).
Qed.

Lemma recorded_by_set id step s : recorded id step (SetTOTPLastStep s id step).2.
Proof.
  unfold recorded, SetTOTPLastStep. cbn [snd sv_accounts set_accounts]. apply Forall_fmap.
  apply Forall_forall. intros a _. cbn. unfold step_is_new.
  destruct (Z.eqb_spec (ac_ID a) id) as [Hid|Hid]; cbn [andb]; [|done].
  destruct (TotpLastStep a) as [old|] eqn:Ho.
  - destruct (Z.ltb_spec old step); intros _; [by exists step|by exists old].
  - intros _. by exists step.
Qed.

(** A code is taken for a step that was not recorded, and it is recorded. *)
Lemma accepted_inv o s id step : accepted o s = Some (id, step) →
  recorded id step (run_op o s) ∧ ∀ step', recorded id step' s → step' < step.
Proof.
  destruct o as [| t1 t2 rq | | |]; try done. cbn [accepted run_op]. unfold loginTOTP.
  intros H. destruct (pending_account cf t1 rq s) as [[acct stored]|]; [|done]. cbn [mbind option_bind] in H.
  cbv zeta. destruct (limiter_locked _ _ _); [done|]. destruct (_ && _); [done|].
  destruct (DecryptTOTPSecret _ _) as [secret|]; [|done]. cbn [mbind option_bind] in H.
  unfold check_totp in *. destruct (VerifyTOTPStep _ _ _) as [st|]; [|done]. cbn [mbind option_bind] in H.
  destruct (rq_faults rq _); [done|].
  pose proof (recorded_by_set (ac_ID acct) st s) as Hrec.
  assert (Hcount : (SetTOTPLastStep s (ac_ID acct) st).1 = count_if (λ a, step_is_new a (ac_ID acct) st) (sv_accounts s))
    by done.
  destruct (SetTOTPLastStep s (ac_ID acct) st) as [n s1]. cbn [fst snd] in *. cbn [mbind option_bind] in H.
  destruct (Z.eqb_spec n 1) as [Hn|]; [|done]. injection H as <- <-. split.
  - unfold recorded. by rewrite totp_decide_accounts.
  - intros step' Hr. rewrite Hn in Hcount.
    assert (Hex : ∃ a, a ∈ sv_accounts s ∧ step_is_new a (ac_ID acct) st = true).
    { apply count_if_pos. lia. }
    destruct Hex as (a & Ha & Hnew). unfold step_is_new in Hnew. apply andb_true_iff in Hnew as [Hid Hlt].
    apply Z.eqb_eq in Hid. unfold recorded in Hr. rewrite Forall_forall in Hr.
    destruct (Hr a Ha Hid) as (old & Ho & Hle). rewrite Ho in Hlt. apply Z.ltb_lt in Hlt. lia.
Qed.

Lemma accepted_after id step ops s id' step' :
  recorded id step s → (id', step') ∈ accepted_steps ops s → id' = id → step < step'.
Proof.
  intros Hr Hin ->. revert s Hr Hin. induction ops as [|o ops IH]; intros s Hr Hin.
  - by apply not_elem_of_nil in Hin.
  - cbn [accepted_steps] in Hin. apply elem_of_app in Hin as [Hin|Hin].
    + destruct (accepted o s) as [[i st]|] eqn:Ha; cbn in Hin; [|by apply not_elem_of_nil in Hin].
      apply list_elem_of_singleton in Hin as [= <- <-].
      destruct (accepted_inv o s id step' Ha) as [_ Hlt]. by apply Hlt.
    + apply (IH (run_op o s)); [by apply recorded_run|done].
Qed.

(** [C32] The second factor takes no code twice: over any run of sign-in
    requests, the steps taken for an account grow, whatever is replayed and
    whoever else signs in in between. *)
Theorem totp_code_never_taken_twice ops s :
  StronglySorted (λ a b, a.1 = b.1 → a.2 < b.2) (accepted_steps ops s).
Proof.
  revert s. induction ops as [|o ops IH]; intros s; [constructor|]. cbn [accepted_steps].
  destruct (accepted o s) as [[id step]|] eqn:Ha; [|apply IH]. cbn. constructor; [apply IH|].
  apply Forall_forall. intros [id' step'] Hin. cbn. intros Heq.
  apply (accepted_after id step ops (run_op o s) id' step'); [|done|done].
  by destruct (accepted_inv o s id step Ha).
Qed.

(** ** The count of failures *)

(** A key on which fewer than five failures are counted and no lock stands. *)
Definition key_free (n : Z) (o : option limiterEntry) : Prop :=
  match o with None => True | Some e => 0 ≤ failures e ≤ n ∧ lockedUntil e = 0 end.

Lemma key_free_fail n t o : 0 ≤ n < 4 → 0 ≤ t → key_free n o →
  let r := fail_entry newLoginLimiter t o in key_free (n + 1) (Some r.1) ∧ r.2 = false.
Proof.
  intros Hn Ht Ho. unfold fail_entry.
  set (e := default _ o). assert (He : 0 ≤ failures e ≤ n ∧ lockedUntil e = 0).
  { subst e. destruct o as [e|]; [done|]. cbn. split; [lia|done]. }
  clearbody e. clear Ho. cbv zeta. set (idle := _ && _ && _). clearbody idle.
  assert (Hf : 0 ≤ (if idle then 0 else failures e) ≤ n) by (destruct idle; lia).
  generalize dependent (if idle then 0 else failures e). intros f Hf.
  rewrite wrap64_id by (unfold in_int64, minInt64, maxInt64; lia). cbn [maxFailures newLoginLimiter].
  rewrite (proj2 (Z.leb_gt 5 _)) by lia. cbn. split; [lia|done].
Qed.

Lemma key_free_unlocked n t k o : 0 ≤ t → key_free n o → entry_locked newLoginLimiter t k o = false.
Proof.
  intros Ht Ho. destruct o as [e|]; [|done]. destruct Ho as [_ Hu]. unfold entry_locked, Before.
  by rewrite Hu, (proj2 (Z.ltb_ge t 0)).
Qed.

Definition keys_free (n : Z) (keys : list string) (s : server) : Prop :=
  Forall (λ k, key_free n (sv_limiter s !! k)) keys.

Lemma keys_free_unlocked n t keys s : 0 ≤ t → keys_free n keys s → limiter_locked t keys s = false.
Proof.
  intros Ht Hk. unfold limiter_locked, locked. apply not_true_iff_false. rewrite existsb_bool.
  intros (k & Hin & Hl). unfold keys_free in Hk. rewrite Forall_forall in Hk.
  unfold key_locked in Hl. by rewrite (key_free_unlocked n) in Hl by auto.
Qed.

Lemma keys_free_fail n t keys s : 0 ≤ n < 4 → 0 ≤ t → NoDup keys → keys_free n keys s →
  (limiter_fail t keys s).2 = false ∧ keys_free (n + 1) keys (limiter_fail t keys s).1 ∧
  ∃ m, (limiter_fail t keys s).1 = set_limiter m s.
Proof.
  intros Hn Ht Hnd Hk. unfold limiter_fail, fail.
  pose proof (fail_flag newLoginLimiter t keys (sv_limiter s) false Hnd) as Hflag.
  pose proof (λ k, fail_lookup newLoginLimiter t keys (sv_limiter s) false k Hnd) as Hlook.
  destruct (foldl _ _ _) as [m b]. cbn [fst snd] in *. unfold keys_free in *. rewrite Forall_forall in Hk. split.
  - rewrite Hflag. apply not_true_iff_false. cbn [orb]. rewrite existsb_bool. intros (k & Hin & Hb).
    destruct (key_free_fail n t (sv_limiter s !! k) Hn Ht (Hk k Hin)) as [_ Hf]. congruence.
  - split; [|by exists m]. apply Forall_forall. intros k Hin. cbn [sv_limiter set_limiter].
    rewrite Hlook by done. by apply key_free_fail; [| |apply Hk].
Qed.

Lemma keys_free_reset keys s : keys_free 0 keys (limiter_reset keys s).
Proof.
  unfold keys_free, limiter_reset. cbn [sv_limiter set_limiter]. apply Forall_forall. intros k Hk.
  by rewrite reset_lookup, bool_decide_true.
Qed.

Lemma keys_free_mono n n' keys s : n ≤ n' → keys_free n keys s → keys_free n' keys s.
Proof.
  intros Hn Hk. eapply Forall_impl; [exact Hk|]. intros k. cbn. destruct (sv_limiter s !! k); cbn; [lia|done].
Qed.

(** A request with a wrong code: the pending cookie leads to the account, and
    neither its secret nor its recovery codes know the code. *)
Definition wrong_code (acct : Account) (stored secret : string) (keys : list string) (t : Z) (rq : request)
    (s : server) : Prop :=
  0 ≤ t ∧ pending_account cf t rq s = Some (acct, stored) ∧ login_keys ToLower cf (Username acct) rq = keys ∧
  (cf_devMode cf && String.eqb (rq_code rq) devFixtureTOTPCode) = false ∧
  VerifyTOTPStep secret (rq_code rq) t = None ∧
  match_recovery CheckPassword ToLower rq s (ac_ID acct) (rq_code rq) = None.

(** A request with the right password. *)
Definition right_password (acct : Account) (keys : list string) (t : Z) (rq : request) (s : server) : Prop :=
  0 ≤ t ∧ rq_faults rq "GetAccountByUsername" = false ∧
  GetAccountByUsername s (TrimSpace (rq_username rq)) = Some acct ∧
  CheckPassword (PasswordHash acct) (rq_password rq) = true ∧ TotpEnabled acct = true ∧
  login_keys ToLower cf (TrimSpace (rq_username rq)) rq = keys.

Fixpoint guess_run (gs : list (Z * request)) (s : server) : list response * server :=
  match gs with
  | [] => ([], s)
  | (t, rq) :: gs' =>
      let '(r, s) := loginTOTP CheckPassword ToLower cf t t rq s in
      let '(rs, s) := guess_run gs' s in (r :: rs, s)
  end.

(** The answers to the codes of rounds that each begin with the password. *)
Fixpoint attack (rounds : list (Z * request * list (Z * request))) (s : server) : list response * server :=
  match rounds with
  | [] => ([], s)
  | (t, rq, gs) :: rounds' =>
      let s := (loginSubmit CheckPassword ToLower cf t t rq s).2 in
      let '(rs, s) := guess_run gs s in
      let '(rs', s) := attack rounds' s in (rs ++ rs', s)
  end.

Section Attack.
Context (acct : Account) (stored secret : string) (keys : list string).
Context (Hsecret : DecryptTOTPSecret (cf_totpKey cf) stored = Some secret) (Hkeys : NoDup keys).

Lemma wrong_code_counts n t rq s : 0 ≤ n < 4 → keys_free n keys s →
  wrong_code acct stored secret keys t rq s →
  ∃ m, loginTOTP CheckPassword ToLower cf t t rq s = (totp_page "Incorrect code.", set_limiter m s) ∧
    keys_free (n + 1) keys (set_limiter m s).
Proof.
  intros Hn Hfree (Ht & Hp & Hk & Hdev & Hcode & Hrec). unfold loginTOTP. rewrite Hp. cbv zeta. rewrite Hk.
  rewrite (keys_free_unlocked n) by done. rewrite Hdev, Hsecret. unfold check_totp. rewrite Hcode.
  unfold totp_decide, redeemRecoveryCode. rewrite Hrec. cbn [orb].
  destruct (keys_free_fail n t keys s Hn Ht Hkeys Hfree) as (Hb & Hf & m & Hm). exists m.
  destruct (limiter_fail t keys s) as [s1 b]. cbn [fst snd] in *. subst b s1. done.
Qed.

Lemma guess_run_counts n gs s :
  0 ≤ n → n + Z.of_nat (length gs) ≤ 4 → keys_free n keys s →
  Forall (λ g, wrong_code acct stored secret keys g.1 g.2 s) gs →
  ∃ m, guess_run gs s = (replicate (length gs) (totp_page "Incorrect code."), set_limiter m s) ∧
    keys_free 4 keys (set_limiter m s).
Proof.
  revert n s. induction gs as [|[t rq] gs IH]; intros n s Hn Hl Hfree Hgs; cbn [length] in Hl.
  - exists (sv_limiter s). split; [by destruct s|]. apply (keys_free_mono n); [lia|]. by destruct s.
  - inv Hgs. destruct (wrong_code_counts n t rq s) as (m & Hr & Hf); [lia|done|done|].
    cbn [guess_run]. rewrite Hr.
    destruct (IH (n + 1) (set_limiter m s)) as (m' & Hr' & Hf'); [lia|lia|done|done|].
    rewrite Hr'. by exists m'.
Qed.

Lemma right_password_resets t rq s : keys_free 4 keys s → right_password acct keys t rq s →
  ∃ m, (loginSubmit CheckPassword ToLower cf t t rq s).2 = set_limiter m s ∧ keys_free 0 keys (set_limiter m s).
Proof.
  intros Hfree (Ht & Hf & Ha & Hc & He & Hk). unfold loginSubmit. rewrite Hk, (keys_free_unlocked 4) by done.
  unfold loginSubmit_checked. rewrite Hf, Ha, Hc, He, Hk. cbn [negb].
  exists (reset (sv_limiter s) keys). split; [by destruct (setSignedCookie _ _ _ _ _ _ _)|].
  exact (keys_free_reset keys s).
Qed.

(** Whoever knows the password guesses second factors without limit: a
    right password resets the count, so in rounds of the password and four codes
    every code is looked at, and neither the account nor the address is ever
    locked. *)
Theorem right_password_lifts_the_limit rounds s :
  keys_free 4 keys s →
  Forall (λ r, right_password acct keys r.1.1 r.1.2 s ∧ (length r.2 ≤ 4)%nat ∧
               Forall (λ g, wrong_code acct stored secret keys g.1 g.2 s) r.2) rounds →
  (attack rounds s).1 =
    replicate (sum_list (map (λ r, length r.2) rounds)) (totp_page "Incorrect code.") ∧
  ∀ t, 0 ≤ t → limiter_locked t keys (attack rounds s).2 = false.
Proof.
  revert s. induction rounds as [|[[t rq] gs] rounds IH]; intros s Hfree Hrs.
  - split; [done|]. intros u Hu. by apply (keys_free_unlocked 4).
  - inv Hrs. destruct H1 as (Hpw & Hlen & Hgs). cbn [fst snd] in *.
    destruct (right_password_resets t rq s Hfree Hpw) as (m & Hs & Hf0).
    cbn [attack]. cbv zeta. rewrite Hs.
    destruct (guess_run_counts 0 gs (set_limiter m s)) as (m' & Hr & Hf4); [lia|lia|done|done|].
    rewrite Hr. destruct (IH (set_limiter m' s) Hf4) as [Hall Hlock]; [done|].
    change (set_limiter m' (set_limiter m s)) with (set_limiter m' s).
    destruct (attack rounds (set_limiter m' s)) as [rs s']. cbn [fst snd] in *. split; [|done].
    cbn. by rewrite Hall, <- replicate_add.
Qed.
End Attack.

(** ** Sessions *)

Lemma find_Some_iff {A} (P : A → bool) l x : List.find P l = Some x → x ∈ l ∧ P x = true.
Proof. intros H. apply find_some in H as [Hin HP]. split; [by apply list_elem_of_In|done]. Qed.

Lemma find_unique {A} (P : A → bool) l x :
  x ∈ l → P x = true → (∀ y, y ∈ l → P y = true → y = x) → List.find P l = Some x.
Proof.
  intros Hx HP Hu. destruct (List.find P l) as [y|] eqn:Hf.
  - apply find_Some_iff in Hf as [Hy HPy]. by rewrite (Hu y Hy HPy).
  - apply list_elem_of_In in Hx. by rewrite (find_none _ _ Hf x Hx) in HP.
Qed.

(** The rows of a table with no hash twice. *)
Definition hashes_unique (s : server) : Prop := NoDup (map TokenHash (sv_sessions s)).

Lemma same_row s r r' : hashes_unique s → r ∈ sv_sessions s → r' ∈ sv_sessions s →
  TokenHash r = TokenHash r' → r = r'.
Proof.
  unfold hashes_unique. intros Hn Hr Hr' Heq.
  apply list_elem_of_lookup in Hr as [i Hi], Hr' as [j Hj].
  assert (i = j) as ->; [|congruence].
  eapply (NoDup_lookup _ i j (TokenHash r) Hn); rewrite list_lookup_fmap, ?Hi, ?Hj; cbn; congruence.
Qed.

(** A session outlives neither its deadline nor its row, so the cookie it goes
    by verifies at any earlier instant too. *)
Lemma VerifySession_earlier key token want now now' s :
  now ≤ now' → VerifySession key token want now' = Some s → VerifySession key token want now = Some s.
Proof.
  unfold VerifySession, Before. destruct (Cut "." token) as [[b mac]|]; [|done]. cbn [mbind option_bind].
  destruct (ConstantTimeCompare _ _); [|done]. cbn [negb]. destruct (RawURLDecode b) as [p|]; [|done].
  cbn [mbind option_bind]. destruct (Unmarshal p) as [s'|]; [|done]. cbn [mbind option_bind].
  destruct (String.eqb (Kind s') want); [|done]. cbn [negb orb].
  destruct (Z.ltb_spec now' (ExpiresAt s')); [|done]. intros Hle [= <-].
  by rewrite (proj2 (Z.ltb_lt now _)) by lia.
Qed.

(** Signing out ends the session for good: a request with the same cookie
    finds no session at any later time, wherever the cookie was copied to. *)
Theorem logout_ends_the_session now now' rq rq' s :
  hashes_unique s → now ≤ now' → rq_session rq' = rq_session rq →
  rq_faults rq "GetSessionByTokenHash" = false → rq_faults rq "RevokeSession" = false →
  session_of cf now' rq' (logout cf now rq s).2 = None.
Proof.
  intros Hu Hle Hc Hf1 Hf2. unfold logout. cbn [snd]. unfold session_of at 1. rewrite Hc.
  destruct (rq_session rq) as [cookie|] eqn:Hcookie; [|done]. cbn [mbind option_bind].
  destruct (VerifySession (cf_key cf) cookie KindSession now') as [sess|] eqn:Hv; [|done].
  cbn [mbind option_bind]. destruct (rq_faults rq' _); [done|].
  pose proof (VerifySession_earlier _ _ _ _ _ _ Hle Hv) as Hv0.
  unfold revokeCurrentSession, session_of. rewrite Hcookie. cbn [mbind option_bind]. rewrite Hv0.
  cbn [mbind option_bind]. rewrite Hf1, Hf2.
  destruct (GetSessionByTokenHash s (hashToken (Token sess)) now) as [row|] eqn:Hg.
  - destruct (GetSessionByTokenHash _ _ now') as [r'|] eqn:Hg'; [exfalso|done].
    apply find_Some_iff in Hg as [Hrow Hm], Hg' as [Hr' Hm']. revert Hm Hm'.
    rewrite !andb_true_iff, !String.eqb_eq. intros [[Hh Hn] _] [[Hh' Hn'] _].
    unfold RevokeSession in Hr'. cbn [sv_sessions set_sessions] in Hr'.
    apply list_elem_of_fmap in Hr' as (r0 & -> & Hr0).
    destruct ((sn_ID r0 =? sn_ID row) && (sn_AccountID r0 =? sn_AccountID row) &&
              bool_decide (RevokedAt r0 = None)) eqn:Hhit.
    + cbn [RevokedAt] in Hn'. by rewrite bool_decide_false in Hn'.
    + assert (r0 = row) as -> by (apply (same_row s); [done..|congruence]).
      by rewrite !Z.eqb_refl, Hn in Hhit.
  - destruct (GetSessionByTokenHash _ _ now') as [r'|] eqn:Hg'; [exfalso|done].
    apply find_Some_iff in Hg' as [Hr' Hm']. unfold GetSessionByTokenHash in Hg.
    pose proof (find_none _ _ Hg r' (proj1 (list_elem_of_In _ _) Hr')) as Hno. cbn beta in Hno.
    revert Hm'. rewrite !andb_true_iff. intros [Hm1 Hlt]. apply Z.ltb_lt in Hlt.
    rewrite (proj2 (andb_true_iff _ _) Hm1), (proj2 (Z.ltb_lt now _)) in Hno by lia. done.
Qed.

Lemma CreateSession_row s id hash now ex s' : CreateSession s id hash now ex = Some s' →
  (∀ r, r ∈ sv_sessions s → TokenHash r ≠ hash) ∧
  sv_sessions s' = sv_sessions s ++ [mkSessionRow (sv_nextID s) id hash now ex None] ∧
  sv_accounts s' = sv_accounts s.
Proof.
  unfold CreateSession. destruct (existsb _ _) eqn:He; [done|]. intros [= <-]. split; [|done].
  intros r Hr Hh. apply not_true_iff_false in He. apply He, existsb_bool. exists r.
  split; [done|by apply String.eqb_eq].
Qed.

Lemma CreateSession_unique s id hash now ex s' :
  hashes_unique s → CreateSession s id hash now ex = Some s' → hashes_unique s'.
Proof.
  intros Hu Hc. destruct (CreateSession_row _ _ _ _ _ _ Hc) as (Hno & Hs & _).
  unfold hashes_unique. rewrite Hs, map_app. apply NoDup_app. split; [done|]. split.
  - intros h Hh Hin. cbn in Hin. apply list_elem_of_singleton in Hin as ->.
    apply list_elem_of_fmap in Hh as (r & Heq & Hr). by apply (Hno r).
  - apply NoDup_singleton.
Qed.

(** A login that completes hands out a cookie that is recognised as its
    account until its deadline and not from then on. *)
Theorem completeLogin_is_recognised `{!SessionJSONLaws} now id rq s tok acct now' rq' :
  (∃ url, rs_body (completeLogin cf now id rq s).1 = Redirect url ∧
          rs_cookies (completeLogin cf now id rq s).1 = [(sessionCookie, Some tok)]) →
  GetAccountByID s id = Some acct →
  now ≤ now' → rq_session rq' = Some tok →
  rq_faults rq' "GetSessionByTokenHash" = false → rq_faults rq' "GetAccountByID" = false →
  (currentAccount cf now' rq' (completeLogin cf now id rq s).2).1 =
    if now' <? TimeAdd now (cf_sessionTTL cf) then Some acct else None.
Proof.
  intros (url & Hb & Hck) Hacct Hle Hq Hf1 Hf2. unfold completeLogin in *.
  destruct (newOpaqueToken _) as [[p h]|] eqn:Hp; [|done]. destruct (rq_faults rq _); [done|].
  destruct (CreateSession _ _ _ _ _) as [s'|] eqn:Hc; [|done].
  destruct (setSignedCookie _ _ _ _ _ _ _) as [c|] eqn:Hset; [|done].
  cbn [fst snd rs_cookies] in *. injection Hck as ->.
  unfold setSignedCookie in Hset. apply bind_Some in Hset as (token & Hsign & [= ->]).
  unfold currentAccount, session_of. rewrite Hq. cbn [mbind option_bind].
  rewrite (VerifySession_SignSession _ _ _ KindSession now' Hsign). cbn [Kind ExpiresAt].
  rewrite bool_decide_true by done. cbn [andb].
  destruct (Z.ltb_spec now' (TimeAdd now (cf_sessionTTL cf))) as [Hlt|]; [|done].
  cbn [mbind option_bind]. rewrite Hf1. cbn [Token].
  destruct (CreateSession_row _ _ _ _ _ _ Hc) as (Hno & Hs & Ha).
  assert (Hh : h = hashToken p).
  { unfold newOpaqueToken in Hp. apply bind_Some in Hp as (b & _ & [= <- <-]). done. }
  unfold GetSessionByTokenHash. rewrite Hs.
  rewrite (find_unique _ _ (mkSessionRow (sv_nextID s) id h now (TimeAdd now (cf_sessionTTL cf)) None)).
  - cbn [sn_AccountID]. rewrite Hf2. unfold GetAccountByID in *. by rewrite Ha, Hacct.
  - apply elem_of_app. right. left.
  - cbn. rewrite Hh, String.eqb_refl. by rewrite (proj2 (Z.ltb_lt _ _) Hlt).
  - intros y Hy Hm. apply elem_of_app in Hy as [Hy|Hy]; [|by apply list_elem_of_singleton in Hy].
    exfalso. apply andb_true_iff in Hm as [Hm _]. apply andb_true_iff in Hm as [Hm _].
    apply String.eqb_eq in Hm. apply (Hno y Hy). congruence.
Qed.

(** ** What the second factor insists on *)

Lemma completeLogin_cookies now id rq s c :
  c ∈ rs_cookies (completeLogin cf now id rq s).1 → c.1 = sessionCookie.
Proof.
  unfold completeLogin. destruct (newOpaqueToken _) as [[p h]|]; [|intros []%not_elem_of_nil].
  destruct (if rq_faults rq _ then _ else _); [|intros []%not_elem_of_nil].
  destruct (setSignedCookie _ _ _ _ _ _ _) as [c'|] eqn:Hs; [|intros []%not_elem_of_nil].
  apply bind_Some in Hs as (tok & _ & [= <-]). by intros ->%list_elem_of_singleton.
Qed.







End Runs.

(** ** Setup *)

(** Setting up makes one account, an administrator, and only where there was
    none and the caller showed the token of the first boot. *)
Lemma setupSubmit_spec HashPassword cf rq s :
  sv_accounts (setupSubmit HashPassword cf rq s).2 = sv_accounts s ∨
  ∃ a, sv_accounts s = [] ∧ sv_accounts (setupSubmit HashPassword cf rq s).2 = [a] ∧ Role a = roleAdmin ∧
    rq_token rq = cf_setupToken cf ∧ cf_setupToken cf ≠ "" ∧
    HashPassword (rq_password rq) = Some (PasswordHash a) ∧ (12 ≤ String.length (rq_password rq) ≤ 72)%nat.
Proof.
  unfold setupSubmit, setupClosed. destruct (String.eqb_spec (cf_setupToken cf) ""); [by left|].
  destruct (rq_faults rq _); [by left|].
  destruct (Nat.eqb_spec (length (sv_accounts s)) 0) as [Hn%nil_length_inv|]; [|by left]. cbn [negb].
  destruct (TokensEqual _ _) eqn:Ht; [|by left]. cbn [negb]. apply TokensEqual_spec in Ht as [Ht _].
  unfold validateCredentials.
  destruct (String.eqb (TrimSpace (rq_username rq)) ""); [by left|].
  destruct (64 <? String.length (TrimSpace (rq_username rq)))%nat; [by left|].
  destruct (Nat.ltb_spec (String.length (rq_password rq)) 12); [by left|].
  destruct (Nat.ltb_spec 72 (String.length (rq_password rq))); [by left|].
  cbn [String.eqb negb]. unfold createAccountRow. destruct (HashPassword _) as [h|] eqn:Hh; [|by left].
  destruct (rq_faults rq _); [by left|]. rewrite Hn. cbn [existsb]. right.
  eexists. split; [done|]. cbn. repeat split; done || lia.
Qed.

(** ** A server to try it on

    Passwords and recovery codes are their own hashes, and sessions are known by
    their place in a table. *)

#[export] Instance Session_eq : EqDecision Session.
Proof. solve_decision. Defined.

Definition table_json (known : list Session) : SessionJSON :=
  Build_SessionJSON
    (λ s, '(i, _) ← list_find (λ k, k = s) (take 256 known); Some [Z.of_nat i])
    (λ p, match p with [i] => known !! Z.to_nat i | _ => None end).

Lemma table_jsonLaws known : @SessionJSONLaws (table_json known).
Proof.
  split; intros s p; cbn; intros ([i k] & Hf & [= <-])%bind_Some;
    apply list_find_Some in Hf as (Hi & -> & _); apply lookup_take_Some in Hi as [Hi Hlt].
  - constructor; [unfold byte; lia|constructor].
  - by rewrite Nat2Z.id.
Qed.

Definition demo_t : Z := TimeUnix 1700000000.
Definition demo_pending : Session := mkSession 7 KindPending (demo_t + 5 * Minute) "".
Definition demo_session : Session := mkSession 7 KindSession (demo_t + 12 * Hour) "BQ".
#[export] Instance demo_json : SessionJSON := table_json [demo_pending; demo_session].
#[export] Instance demo_jsonLaws : @SessionJSONLaws demo_json := table_jsonLaws _.

Definition demo_cf : config := mkConfig [1; 2; 3] [1] false (12 * Hour) (5 * Minute) "" [].
Definition demo_secret : string := "GEZDGNBVGY3TQOJQ".
Definition demo_stored : string := default "" (EncryptTOTPSecret (Some [9]) [1] demo_secret).
Definition demo_acct : Account :=
  mkAccount 7 "ada" roleAdmin "correct horse" (Some demo_stored) true None.
Definition demo_server : server :=
  mkServer ∅ [demo_acct] [mkRecovery 1 7 "abcd-efgh" None] [] 1.

Definition demo_request (password code : string) (session pending : option string) : request :=
  mkRequest "ada" password code "" session pending "192.0.2.1:4000" [] (Some [5]) (λ _, false) id.

Definition demo_grant : string := default "" (SignSession (cf_key demo_cf) demo_pending).
Definition demo_cookie : string := default "" (SignSession (cf_key demo_cf) demo_session).
Definition demo_keys : list string := ["acct:ada"; "ip:192.0.2.1"].

(** The password, then two codes, both wrong, on the grant it gave. *)
Definition demo_round (d : Z) : Z * request * list (Z * request) :=
  (demo_t + d, demo_request "correct horse" "" None None,
   map (λ code, (demo_t + d, demo_request "" code None (Some demo_grant)))
     ["000000"; "000001"]%string).

Definition demo_check : string → string → bool := String.eqb.
Definition demo_lower (s : string) : string := s.

(** Closed facts, one by one. *)
Ltac by_cases_vm :=
  repeat match goal with
  | |- _ ∧ _ => split
  | |- Forall _ (snd _) => cbn [snd]
  | |- Forall _ (_ :: _) => constructor
  | |- Forall _ [] => constructor
  end; cbn [fst snd];
  try (vm_compute; first [reflexivity|discriminate|exact I|lia]).

Lemma demo_opens : DecryptTOTPSecret (cf_totpKey demo_cf) demo_stored = Some demo_secret.
Proof. vm_compute. reflexivity. Qed.

Lemma demo_keys_differ : NoDup demo_keys.
Proof. apply (bool_decide_unpack _). vm_compute. exact I. Qed.

Lemma right_password_lifts_the_limit_witness :
  let rounds := map demo_round [0; Second] in
  (attack demo_check demo_lower demo_cf rounds demo_server).1 = replicate 4 (totp_page "Incorrect code.") ∧
  ∀ t, 0 ≤ t →
    limiter_locked t demo_keys (attack demo_check demo_lower demo_cf rounds demo_server).2 = false.
Proof.
  cbv zeta.
  apply (right_password_lifts_the_limit demo_check demo_lower demo_cf demo_acct demo_stored demo_secret
           demo_keys demo_opens demo_keys_differ (map demo_round [0; Second]) demo_server).
  - unfold keys_free, demo_keys. by_cases_vm.
  - unfold demo_round, right_password, wrong_code. cbn [map fst snd]. by_cases_vm.
Defined.



(** The server once the account's session is open. *)
Definition demo_signed_in : server :=
  (completeLogin demo_cf demo_t 7 (demo_request "" "" None None) demo_server).2.

Lemma demo_unique : hashes_unique demo_signed_in.
Proof. apply (bool_decide_unpack _). vm_compute. exact I. Qed.

Lemma logout_ends_the_session_witness :
  session_of demo_cf (demo_t + Hour) (demo_request "" "" (Some demo_cookie) None)
    (logout demo_cf (demo_t + Minute) (demo_request "" "" (Some demo_cookie) None) demo_signed_in).2 = None.
Proof.
  apply (logout_ends_the_session demo_cf (demo_t + Minute) (demo_t + Hour)).
  - exact demo_unique.
  - unfold Hour, Minute, Second. lia.
  - reflexivity.
  - reflexivity.
  - reflexivity.
Defined.

Lemma completeLogin_is_recognised_witness :
  (currentAccount demo_cf (demo_t + Hour) (demo_request "" "" (Some demo_cookie) None) demo_signed_in).1 =
    if demo_t + Hour <? TimeAdd demo_t (cf_sessionTTL demo_cf) then Some demo_acct else None.
Proof.
  apply (completeLogin_is_recognised demo_cf demo_t 7 (demo_request "" "" None None) demo_server demo_cookie).
  - exists "/"%string. split; vm_compute; reflexivity.
  - vm_compute. reflexivity.
  - unfold Hour, Minute, Second. lia.
  - reflexivity.
  - reflexivity.
  - reflexivity.
Defined.

(** Two requests that both list the unused codes before either uses one both
    redeem the same code: using it does not ask whether it is used already. *)
Example recovery_code_redeemed_twice :
  let lower := string_map fold_byte in
  let first := demo_request "" "ABCD-EFGH" None (Some demo_grant) in
  let second := mkRequest "ada" "" "ABCD-EFGH" "" None (Some demo_grant) "192.0.2.9:4000" [] (Some [6]) (λ _, false)
    (λ rows, sv_recovery (redeemRecoveryCode demo_check lower demo_t first 7 "ABCD-EFGH" (set_recovery rows demo_server)).2) in
  let '(ok1, _) := redeemRecoveryCode demo_check lower demo_t first 7 "ABCD-EFGH" demo_server in
  let '(ok2, s) := redeemRecoveryCode demo_check lower (demo_t + 1) second 7 "ABCD-EFGH" demo_server in
  (ok1, ok2, map UsedAt (sv_recovery s)) = (true, true, [Some (demo_t + 1)]) ∧
  (redeemRecoveryCode demo_check lower (demo_t + 2) first 7 "ABCD-EFGH" s).1 = false.
Proof. vm_compute. auto. Qed.
