(* ===== verification/SubjectScope.v ===== *)
(** * What a subject denotes and what covers it

    The shared tests of [queue/membership.go] and [queue/scopegate.go]: the
    address a subject key stands for, the seeds and exclusions that cover a
    subject, and the gate that drops what a prober reports outside the scope of
    its job.  [strings.ToLower] is a parameter, as in [Cron]. *)

From S2P Require Import Prelude GoStr NetIP NetParse.

Class UnicodeCase := strings_ToLower : string → string.

(** ** Rows of the declared inputs *)

Record seed_row := mkSeedRow {
  sd_Kind : string;
  sd_NameDomain : option string;
  sd_AddressCidr : option Prefix
}.

Record exclusion_row := mkExclusion {
  ex_Kind : string;
  ex_Name : option string;
  ex_AddressCidr : option Prefix
}.

Record membershipInputs := mkInputs {
  in_seeds : list seed_row;
  in_exclusions : list exclusion_row
}.

Definition subjectKindName : string := "name".
Definition subjectKindAddress : string := "address".
Definition subjectKindService : string := "service".
Definition subjectKindEndpoint : string := "endpoint".
Definition exclusionKindAddress : string := "address".

(** ** Subjects *)

(** The host of [host:port], without its brackets. *)
Definition serviceAddress (key : string) : string :=
  let i := LastIndexByte key ":" in
  if 0 <=? i then TrimSuffix (TrimPrefix (slice_to key i) "[") "]" else key.

Definition subjectAddress (subjectKind subjectKey : string) : option Addr :=
  if String.eqb subjectKind subjectKindAddress then ParseAddr subjectKey
  else if String.eqb subjectKind subjectKindService then ParseAddr (serviceAddress subjectKey)
  else if String.eqb subjectKind subjectKindEndpoint
  then ParseAddr (serviceAddress (slice_from subjectKey (LastIndexByte subjectKey "@" + 1)))
  else None.

(** ** Cover *)

Section Cover.
Context {U : UnicodeCase}.

Definition normalizeDomain (d : string) : string := TrimSuffix (strings_ToLower (TrimSpace d)) ".".

Definition nameWithinDomain (name domain : string) : bool :=
  let name := normalizeDomain name in
  let domain := normalizeDomain domain in
  if String.eqb domain "" then false
  else String.eqb name domain || HasSuffix name ("." +:+ domain)%string.

Definition nameSeedCovered (name : string) (seeds : list seed_row) : bool :=
  existsb (λ s, String.eqb (sd_Kind s) "name" &&
                match sd_NameDomain s with
                | None => false
                | Some d => nameWithinDomain (normalizeDomain name) d
                end) seeds.

(** Whether one exclusion covers a name. *)
Definition exclusion_covers (name : string) (e : exclusion_row) : bool :=
  match ex_Name e with
  | None => false
  | Some n =>
      if String.eqb (ex_Kind e) "name" then String.eqb name (normalizeDomain n)
      else if String.eqb (ex_Kind e) "subtree" then nameWithinDomain name n
      else false
  end.

Definition nameExcluded (name : string) (exclusions : list exclusion_row) : bool :=
  existsb (exclusion_covers (normalizeDomain name)) exclusions.

Definition ReasonDescoped_text : string := "descoped".

Definition coveringExclusionKey (name reason : string) (exclusions : list exclusion_row) : string :=
  if negb (String.eqb reason ReasonDescoped_text) then ""
  else
    match List.find (exclusion_covers (normalizeDomain name)) exclusions with
    | Some e => normalizeDomain (default "" (ex_Name e))
    | None => ""
    end.

Definition coveringAddressExclusion (addr : Addr) (exclusions : list exclusion_row) : option Prefix :=
  e ← List.find (λ e, String.eqb (ex_Kind e) exclusionKindAddress &&
                      match ex_AddressCidr e with None => false | Some p => Contains p addr end) exclusions;
  ex_AddressCidr e.

Definition addressSeedCovered (addr : Addr) (seeds : list seed_row) : bool :=
  existsb (λ s, String.eqb (sd_Kind s) "address" &&
                match sd_AddressCidr s with None => false | Some p => Contains p addr end) seeds.

Definition openedByAperture (subjectKind subjectKey : string) (inp : membershipInputs) : bool :=
  if String.eqb subjectKind subjectKindName
  then nameSeedCovered subjectKey (in_seeds inp) && negb (nameExcluded subjectKey (in_exclusions inp))
  else
    match subjectAddress subjectKind subjectKey with
    | None => false
    | Some addr => addressSeedCovered addr (in_seeds inp) &&
                   bool_decide (coveringAddressExclusion addr (in_exclusions inp) = None)
    end.
End Cover.

(** ** The gate on a prober's lines *)

(** [wire.Observation], as far as the fold reads it. *)
Record Observation := mkObs {
  ob_Kind : string;
  ob_Facet : string;
  ob_Subject : string;
  ob_Discriminator : string;
  ob_Address : string;
  ob_Data : string
}.

Definition FacetResolution : string := "resolution".
Definition FacetDNSRecord : string := "dns-record".
Definition FacetReachability : string := "reachability".
Definition FacetCertificate : string := "certificate".
Definition FacetHTTPIdentity : string := "http-identity".
Definition FacetTLSAcceptance : string := "tls-acceptance".
Definition EdgeFanoutKind : string := "edge-fanout".

(** [scopeShape], decoded: [encoding/json] reads it, [None] when it cannot. *)
Record scopeShape := mkScopeShape {
  sc_Names : list string;
  sc_Addresses : list string;
  sc_Services : list string;
  sc_Targets : list string
}.

(** [None] is Go's nil map: the scope does not denote that dimension. *)
Record authorizedScope := mkScope {
  as_addrs : option (gset string);
  as_names : option (gset string)
}.

Definition normAddr (s : string) : string :=
  match ParseAddr (TrimSpace s) with
  | Some a => Addr_String (Unmap a)
  | None => TrimSpace s
  end.

Definition nil_if_empty (s : gset string) : option (gset string) :=
  if bool_decide (s = ∅) then None else Some s.

Definition subjectAddrKey (subject : string) : string :=
  let i := IndexByte subject "@" in
  let key := if 0 <=? i then slice_from subject (i + 1) else subject in
  normAddr (serviceAddress key).

Section Gate.
Context {U : UnicodeCase}.

Definition parseAuthorizedScope (s : option scopeShape) : authorizedScope :=
  match s with
  | None => mkScope None None
  | Some s =>
      mkScope
        (nil_if_empty (list_to_set (map normAddr (sc_Addresses s ++ sc_Services s ++ sc_Targets s))))
        (nil_if_empty (list_to_set (map normalizeDomain (sc_Names s))))
  end.

(** A dimension the scope does not denote gates nothing. *)
Definition in_dimension (d : option (gset string)) (key : string) : bool :=
  match d with None => true | Some s => bool_decide (key ∈ s) end.

Definition admits (a : authorizedScope) (o : Observation) : bool :=
  let f := ob_Facet o in
  if String.eqb f FacetResolution || String.eqb f FacetDNSRecord
  then in_dimension (as_names a) (normalizeDomain (ob_Subject o))
  else if String.eqb f FacetReachability || String.eqb f FacetCertificate ||
          String.eqb f FacetHTTPIdentity || String.eqb f FacetTLSAcceptance
  then in_dimension (as_addrs a) (subjectAddrKey (ob_Subject o))
  else if String.eqb f "" then
    if negb (String.eqb (ob_Kind o) EdgeFanoutKind) then true
    else match as_addrs a with None => false | Some s => bool_decide (normAddr (ob_Address o) ∈ s) end
  else true.

Definition gate (a : authorizedScope) (obs : list Observation) : list Observation :=
  if bool_decide (as_addrs a = None) && bool_decide (as_names a = None) then obs
  else filter (λ o, admits a o = true) obs.
End Gate.

(** ** Properties *)

Section Properties.
Context {U : UnicodeCase}.

Lemma coveringAddressExclusion_spec addr es p :
  coveringAddressExclusion addr es = Some p →
  Contains p addr = true ∧ ∃ e, e ∈ es ∧ ex_Kind e = exclusionKindAddress ∧ ex_AddressCidr e = Some p.
Proof.
  unfold coveringAddressExclusion. intros (e & Hf & Hp)%bind_Some.
  apply find_some in Hf as [Hin Hc]. apply andb_true_iff in Hc as [Hk%String.eqb_eq Hc].
  rewrite Hp in Hc. split; [done|]. exists e. split; [by apply list_elem_of_In|done].
Qed.

(** The exclusion a departure is laid to is one that covers the name, and one
    is found exactly where the name counts as excluded. *)
Lemma coveringExclusionKey_spec name es :
  nameExcluded name es = true ↔
  ∃ e, List.find (exclusion_covers (normalizeDomain name)) es = Some e.
Proof.
  unfold nameExcluded. rewrite existsb_bool. split.
  - intros (e & Hin & Hc). destruct (List.find _ es) as [e'|] eqn:Hf; [by exists e'|].
    apply list_elem_of_In in Hin. by rewrite (find_none _ _ Hf e Hin) in Hc.
  - intros (e & Hf). apply find_some in Hf as [Hin Hc]. exists e. split; [by apply list_elem_of_In|done].
Qed.

Lemma list_to_set_empty (l : list string) : (list_to_set l : gset string) = ∅ → l = [].
Proof. destruct l as [|x l]; [done|]. intros H. assert (x ∈ (∅ : gset string)); [|set_solver]. rewrite <- H. cbn. set_solver. Qed.

Lemma in_dimension_spec (l : list string) (f : string → string) key :
  in_dimension (nil_if_empty (list_to_set (map f l))) key = true ↔ l = [] ∨ Exists (λ x, f x = key) l.
Proof.
  rewrite Exists_exists. unfold nil_if_empty. case_bool_decide as He; cbn.
  - apply list_to_set_empty, map_eq_nil in He. naive_solver.
  - rewrite bool_decide_eq_true, elem_of_list_to_set, list_elem_of_fmap. split; [intros (x & -> & Hx); right; eauto|].
    intros [->|(x & Hx & <-)]; [done|eauto].
Qed.

(** What the job asked for: a resolution line names one of the scope's names, a
    line about a service or an endpoint stands for one of its addresses, a line of
    the shared edges carries one. *)
Definition asked (s : scopeShape) (o : Observation) : Prop :=
  let addrs := sc_Addresses s ++ sc_Services s ++ sc_Targets s in
  (ob_Facet o ∈ [FacetResolution; FacetDNSRecord] →
     sc_Names s = [] ∨ Exists (λ n, normalizeDomain n = normalizeDomain (ob_Subject o)) (sc_Names s)) ∧
  (ob_Facet o ∈ [FacetReachability; FacetCertificate; FacetHTTPIdentity; FacetTLSAcceptance] →
     addrs = [] ∨ Exists (λ a, normAddr a = subjectAddrKey (ob_Subject o)) addrs) ∧
  (ob_Facet o = "" → ob_Kind o = EdgeFanoutKind →
     sc_Names s = [] ∧ addrs = [] ∨ Exists (λ a, normAddr a = normAddr (ob_Address o)) addrs).

#[export] Instance asked_dec s o : Decision (asked s o).
Proof. unfold asked. apply _. Defined.

Lemma admits_asked s o : sc_Names s ≠ [] ∨ sc_Addresses s ++ sc_Services s ++ sc_Targets s ≠ [] →
  admits (parseAuthorizedScope (Some s)) o = true ↔ asked s o.
Proof.
  intros Hsome. unfold admits, asked. cbn [as_addrs as_names parseAuthorizedScope]. set (addrs := sc_Addresses s ++ _) in *.
  destruct (String.eqb (ob_Facet o) FacetResolution || String.eqb (ob_Facet o) FacetDNSRecord) eqn:E1.
  { rewrite orb_true_iff, !String.eqb_eq in E1. rewrite in_dimension_spec. split.
    - intros H. split_and!; [done|intros Hf; exfalso; destruct E1 as [E1|E1]; rewrite E1 in Hf; by apply (bool_decide_eq_true_2 _) in Hf|].
      intros E2. rewrite E2 in E1. by destruct E1.
    - intros (H & _). apply H. rewrite !elem_of_cons. tauto. }
  assert (ob_Facet o ∉ [FacetResolution; FacetDNSRecord]) as N1.
  { rewrite orb_false_iff, !String.eqb_neq in E1. rewrite !elem_of_cons. intros [?|[?|?%not_elem_of_nil]]; tauto. }
  destruct (String.eqb (ob_Facet o) FacetReachability || _ || _ || _) eqn:E2.
  { rewrite !orb_true_iff, !String.eqb_eq in E2. rewrite in_dimension_spec. split.
    - intros H. split_and!; [done|done|]. intros E3. rewrite E3 in E2. naive_solver.
    - intros (_ & H & _). apply H. rewrite !elem_of_cons. tauto. }
  assert (ob_Facet o ∉ [FacetReachability; FacetCertificate; FacetHTTPIdentity; FacetTLSAcceptance]) as N2.
  { rewrite !orb_false_iff, !String.eqb_neq in E2. rewrite !elem_of_cons. intros [?|[?|[?|[?|?%not_elem_of_nil]]]]; tauto. }
  destruct (String.eqb_spec (ob_Facet o) "") as [E3|E3]; [|split; [|done]; intros _; split_and!; done].
  destruct (String.eqb_spec (ob_Kind o) EdgeFanoutKind) as [E4|E4]; cbn [negb]; [|split; [|done]; intros _; split_and!; done].
  assert ((match nil_if_empty (list_to_set (map normAddr addrs)) with None => false | Some s0 => bool_decide (normAddr (ob_Address o) ∈ s0) end) = true ↔
    Exists (λ a, normAddr a = normAddr (ob_Address o)) addrs) as ->.
  { rewrite Exists_exists. unfold nil_if_empty. case_bool_decide as He.
    - apply list_to_set_empty, map_eq_nil in He. rewrite He. split; [done|]. by intros (? & ?%not_elem_of_nil & _).
    - rewrite bool_decide_eq_true, elem_of_list_to_set, list_elem_of_fmap. naive_solver. }
  split; [by intros; split_and!; auto|]. intros (_ & _ & H). destruct (H E3 E4) as [[? ?]|?]; [|done]. by destruct Hsome.
Qed.

(** [C25] The gate keeps exactly the lines a job asked for, unchanged and in order:
    a resolution line whose subject is one of the scope's names, a line about a
    service or an endpoint whose address is one of the scope's, whatever either's
    spelling, and a line of the shared edges that carries such an address.  A scope
    without names gates no resolution line and one without addresses no line about
    a service or an endpoint, but a line of the shared edges passes a scope without
    addresses only if it has no names either; lines of any other facet pass; and a
    scope that cannot be read gates nothing. *)
Theorem gate_admits_only_the_scope scope obs :
  gate (parseAuthorizedScope scope) obs = match scope with None => obs | Some s => filter (asked s) obs end.
Proof.
  destruct scope as [s|]; [|done]. unfold gate.
  destruct (bool_decide (as_addrs (parseAuthorizedScope (Some s)) = None) && _) eqn:Hnil.
  - apply andb_true_iff in Hnil as [H1%bool_decide_eq_true H2%bool_decide_eq_true].
    cbn in H1, H2. unfold nil_if_empty in H1, H2. case_bool_decide as Ha; [|done]. case_bool_decide as Hn; [|done].
    apply list_to_set_empty, map_eq_nil in Ha, Hn.
    induction obs as [|o obs IH]; [done|]. rewrite filter_cons, decide_True, <- IH; [done|]. unfold asked. rewrite Ha, Hn. auto.
  - assert (sc_Names s ≠ [] ∨ sc_Addresses s ++ sc_Services s ++ sc_Targets s ≠ []) as Hsome.
    { apply andb_false_iff in Hnil. cbn in Hnil. unfold nil_if_empty in Hnil.
      destruct Hnil as [H|H]; apply bool_decide_eq_false in H; [right|left]; intros E; rewrite E in H; by apply H. }
    clear Hnil. induction obs as [|o obs IH]; [done|]. rewrite !filter_cons, IH. pose proof (admits_asked s o Hsome).
    repeat case_decide; tauto || done.
Qed.
End Properties.

(** ASCII case stands in for Unicode's in the examples. *)
#[export] Instance ascii_case : UnicodeCase := string_map fold_byte.

Definition demo_scope : scopeShape := mkScopeShape [] ["192.0.2.1"; " 2001:DB8::1 "] ["::ffff:192.0.2.9"] [].
Definition demo_line (subject : string) : Observation := mkObs "connect-outcome" FacetCertificate subject "" "" "{}".

Example gate_ex :
  let a := parseAuthorizedScope (Some demo_scope) in
  map (λ s, admits a (demo_line s))
    ["[2001:db8:0::1]:443"; "w@192.0.2.9:80"; "192.0.2.2:80"; "a@b@192.0.2.1:80"]%string =
    [true; true; false; false] ∧
  subjectAddress "endpoint" "a@b@192.0.2.1:80" = Some (Addr4 3221225985).
Proof. vm_compute. auto. Qed.
