(* ===== verification/NetText.v ===== *)
(** * The text of addresses, read back

    Printing an address and parsing the text gives the address again, for every
    address Go can build, and the same for an address with a port
    ([netip.AddrPort]), which this file adds. *)

From S2P Require Import Prelude GoStr NetIP NetParse GoConv.

(** ** Addresses with a port *)

Record AddrPort := mkAddrPort { ap_Addr : Addr; ap_Port : Z }.

#[export] Instance AddrPort_eq : EqDecision AddrPort.
Proof. solve_decision. Defined.

#[export] Instance AddrPort_countable : Countable AddrPort.
Proof.
  refine (inj_countable' (λ t, (ap_Addr t, ap_Port t)) (λ c, mkAddrPort c.1 c.2) _). by intros [].
Defined.

(** [strconv.ParseUint(s, 10, 16)]; [None] is its error. *)
Definition ParseUint16 (s : string) : option Z :=
  if String.eqb s "" then None
  else n ← atoi_digits s 0; if n <? 2 ^ 16 then Some n else None.

Definition AddrPort_String (t : AddrPort) : string :=
  match ap_Addr t with
  | AddrInvalid => "invalid AddrPort"
  | Addr4 v => (string_v4 v +:+ ":" +:+ itoa (ap_Port t))%string
  | a => ("[" +:+ Addr_String a +:+ "]:" +:+ itoa (ap_Port t))%string
  end.

(** [netip.ParseAddrPort]. *)
Definition ParseAddrPort (s : string) : option AddrPort :=
  let i := LastIndexByte s ":" in
  if i <? 0 then None
  else
    let ip := slice_to s i in
    let port := slice_from s (i + 1) in
    if String.eqb ip "" || String.eqb port "" then None
    else
      let bracketed := HasPrefix ip "[" in
      if bracketed && (negb (HasSuffix ip "]") || String.eqb ip "[") then None
      else
        let ip := if bracketed then TrimSuffix (TrimPrefix ip "[") "]" else ip in
        p ← ParseUint16 port;
        a ← ParseAddr ip;
        match a with
        | Addr4 _ => if bracketed then None else Some (mkAddrPort a p)
        | Addr6 _ _ => if bracketed then Some (mkAddrPort a p) else None
        | AddrInvalid => None
        end.

(** ** Digits *)

Definition chars (ds : list Z) : string := foldr (λ d s, String (digit_char d) s) "" ds.

Lemma chars_app ds es : chars (ds ++ es) = (chars ds +:+ chars es)%string.
Proof. induction ds as [|d ds IH]; [done|]. unfold chars in *. cbn [foldr app]. by rewrite append_cons, IH. Qed.

Lemma digits_chars base k n :
  2 ≤ base → 0 ≤ n < base ^ Z.of_nat (S k) →
  ∃ ds, digits_of base (S k) n = chars ds ∧ ds ≠ [] ∧ (length ds ≤ S k)%nat ∧
    Forall (λ d, 0 ≤ d < base) ds ∧ foldl (λ acc d, acc * base + d) 0 ds = n ∧
    (head ds = Some 0 → ds = [0]).
Proof.
  intros Hb. revert n. induction k as [|k IH]; intros n Hn;
    rewrite Nat2Z.inj_succ, Z.pow_succ_r in Hn by lia; rewrite digits_of_step; (destruct (Z.ltb_spec n base)).
  - exists [n]. split_and!; [done|done|done|by repeat constructor; lia|cbn; lia|by intros [= ->]].
  - change (base ^ Z.of_nat 0) with 1 in Hn. lia.
  - exists [n]. split_and!; [done|done|cbn; lia|by repeat constructor; lia|cbn; lia|by intros [= ->]].
  - assert (Hdm := Z.div_mod n base ltac:(lia)). assert (Hmod := Z.mod_pos_bound n base ltac:(lia)).
    assert (Hq : 1 ≤ n / base) by (apply Z.div_le_lower_bound; lia).
    assert (Hq' : n / base < base ^ Z.of_nat (S k)) by (apply Z.div_lt_upper_bound; lia).
    destruct (IH (n / base)) as (ds & -> & Hne & Hlen & Hds & Hv & Hz); [lia|].
    exists (ds ++ [n mod base]). split_and!.
    + by rewrite chars_app.
    + by destruct ds.
    + rewrite length_app. cbn. lia.
    + apply Forall_app. split; [done|]. constructor; [done|constructor].
    + rewrite foldl_app, Hv. cbn. lia.
    + destruct ds as [|d ds]; [done|]. cbn [head app]. intros Hh. specialize (Hz Hh).
      injection Hz as -> ->. cbn in Hv. lia.
Qed.

Lemma hex_digit_val d : 0 ≤ d < 16 → hex_val (digit_char d) = Some d.
Proof.
  intros Hd. assert (H : forallb (λ d, bool_decide (hex_val (digit_char d) = Some d)) (seqZ 0 16) = true)
    by (vm_compute; reflexivity).
  rewrite forallb_forall in H. specialize (H d). rewrite <- list_elem_of_In, elem_of_seqZ, bool_decide_eq_true in H.
  apply H. lia.
Qed.

(** *** Hexadecimal groups *)

Definition no_hex (t : string) : Prop := t = "" ∨ ∃ c t', t = String c t' ∧ hex_val c = None.

Lemma hex_group_chars ds t acc off :
  Forall (λ d, 0 ≤ d < 16) ds → 0 ≤ off → off + Z.of_nat (length ds) ≤ 4 → 0 ≤ acc < 16 ^ off → no_hex t →
  hex_group (chars ds +:+ t)%string acc off =
    Some (foldl (λ acc d, acc * 16 + d) acc ds, off + Z.of_nat (length ds), t).
Proof.
  intros Hds. revert acc off. induction Hds as [|d ds Hd _ IH]; intros acc off Ho Hl Ha Ht.
  - cbn [chars foldr foldl length]. rewrite append_nil, Z.add_0_r.
    destruct Ht as [->|(c & t' & -> & Hc)]; [done|]. cbn [hex_group]. by rewrite Hc.
  - cbn [chars foldr]. fold (chars ds). rewrite append_cons. cbn [hex_group length] in *. rewrite hex_digit_val by done.
    assert (Hp : 16 ^ (off + 1) = 16 * 16 ^ off) by (rewrite Z.pow_add_r by lia; lia).
    assert (Hm : 16 ^ (off + 1) ≤ 16 ^ 4) by (apply Z.pow_le_mono_r; lia). change (16 ^ 4) with 65536 in Hm.
    rewrite (proj2 (Z.ltb_ge 3 off)), (proj2 (Z.ltb_ge 65535 _)) by lia. cbn [orb].
    rewrite IH by (first [lia|done]). cbn [foldl]. do 2 f_equal. f_equal. lia.
Qed.

Lemma hex_chars g : 0 ≤ g < 65536 →
  ∃ ds, hex g = chars ds ∧ ds ≠ [] ∧ (length ds ≤ 4)%nat ∧ Forall (λ d, 0 ≤ d < 16) ds ∧
    foldl (λ acc d, acc * 16 + d) 0 ds = g.
Proof.
  intros Hg. destruct (digits_chars 16 3 g) as (ds & H1 & H2 & H3 & H4 & H5 & _); [lia| |by exists ds].
  change (16 ^ Z.of_nat 4) with 65536. lia.
Qed.

Lemma hex_group_hex g t : 0 ≤ g < 65536 → no_hex t →
  ∃ n, 0 < n ∧ hex_group (hex g +:+ t)%string 0 0 = Some (g, n, t).
Proof.
  intros Hg Ht. destruct (hex_chars g Hg) as (ds & -> & Hne & Hlen & Hds & Hv).
  exists (Z.of_nat (length ds)). split; [destruct ds; [done|cbn; lia]|].
  rewrite hex_group_chars by (first [done|lia]). by rewrite Hv.
Qed.

(** *** Octets *)

Lemma digits_of_more base k j n : 2 ≤ base → 0 ≤ n < base ^ Z.of_nat (S k) → (k ≤ j)%nat →
  digits_of base (S j) n = digits_of base (S k) n.
Proof.
  intros Hb. revert n j. induction k as [|k IH]; intros n j Hn Hj; rewrite !digits_of_step;
    rewrite Nat2Z.inj_succ, Z.pow_succ_r in Hn by lia; (destruct (Z.ltb_spec n base) as [|Hge]; [done|]).
  - change (base ^ Z.of_nat 0) with 1 in Hn. lia.
  - destruct j as [|j]; [lia|]. rewrite IH; [done| |lia].
    split; [apply Z.div_pos; lia|]. apply Z.div_lt_upper_bound; lia.
Qed.

Lemma itoa_chars o : 0 ≤ o < 256 →
  ∃ ds, itoa o = chars ds ∧ ds ≠ [] ∧ (length ds ≤ 3)%nat ∧ Forall (λ d, 0 ≤ d < 10) ds ∧
    foldl (λ acc d, acc * 10 + d) 0 ds = o ∧ (head ds = Some 0 → ds = [0]).
Proof.
  intros Ho. assert (Hr : 0 ≤ o < 10 ^ Z.of_nat 3) by (change (10 ^ Z.of_nat 3) with 1000; lia).
  destruct (digits_chars 10 2 o ltac:(lia) Hr) as (ds & H1 & H2 & H3 & H4 & H5 & H6).
  exists ds. split_and!; try done. rewrite <- H1. apply digits_of_more; [lia|done|lia].
Qed.

Lemma value_mono ds acc :
  Forall (λ d, 0 ≤ d < 10) ds → 0 ≤ acc → acc ≤ foldl (λ acc d, acc * 10 + d) acc ds.
Proof.
  intros Hds. revert acc. induction Hds as [|d ds Hd _ IH]; intros acc Ha; cbn [foldl]; [lia|].
  specialize (IH (acc * 10 + d) ltac:(lia)). lia.
Qed.

(** Digits after a leading one that is not zero. *)
Lemma parse_v4_digits ds t fields v l prev :
  Forall (λ d, 0 ≤ d < 10) ds → 0 < v → 0 < l → foldl (λ acc d, acc * 10 + d) v ds ≤ 255 →
  parse_v4_fields (chars ds +:+ t)%string fields v l prev =
    parse_v4_fields t fields (foldl (λ acc d, acc * 10 + d) v ds) (l + Z.of_nat (length ds))
      (if decide (ds = []) then prev else false).
Proof.
  intros Hds. revert v l prev. induction Hds as [|d ds Hd Hds IH]; intros v l prev Hv Hl Hle.
  - cbn [chars foldr foldl length]. by rewrite append_nil, Z.add_0_r, decide_True.
  - cbn [chars foldr foldl length] in *. fold (chars ds). rewrite append_cons. cbn [parse_v4_fields].
    rewrite digit_val_char by done. rewrite (proj2 (Z.eqb_neq v 0)), andb_false_r by lia.
    pose proof (value_mono ds (v * 10 + d) Hds ltac:(lia)).
    rewrite (proj2 (Z.ltb_ge 255 _)) by lia. rewrite IH by lia. rewrite (decide_False (P := d :: ds = [])) by done.
    replace (l + 1 + Z.of_nat (length ds)) with (l + Z.of_nat (S (length ds))) by lia. by destruct (decide (ds = [])).
Qed.

Lemma parse_v4_octet o t fields : 0 ≤ o < 256 →
  ∃ l, parse_v4_fields (itoa o +:+ t)%string fields 0 0 true = parse_v4_fields t fields o l false.
Proof.
  intros Ho. destruct (itoa_chars o Ho) as (ds & -> & Hne & _ & Hds & Hv & Hz).
  destruct ds as [|d ds]; [done|]. inv Hds. cbn [chars foldr foldl] in *. fold (chars ds). rewrite append_cons.
  cbn [parse_v4_fields]. rewrite digit_val_char by done. cbn [Z.eqb andb].
  rewrite (proj2 (Z.ltb_ge 255 _)) by (pose proof (value_mono ds (0 * 10 + d) H2 ltac:(lia)); lia).
  destruct (decide (d = 0)) as [->|Hd].
  - specialize (Hz eq_refl). injection Hz as ->. cbn [chars foldr foldl]. rewrite append_nil. by eexists.
  - rewrite parse_v4_digits by (first [done|lia]). eexists. by destruct (decide (ds = [])).
Qed.

Lemma string_v4_octets v :
  string_v4 v = (itoa (v / 2 ^ 24 mod 256) +:+ String "." (itoa (v / 2 ^ 16 mod 256) +:+
                 String "." (itoa (v / 2 ^ 8 mod 256) +:+ String "." (itoa (v mod 256) +:+ ""))))%string.
Proof. unfold string_v4, octets_of. cbn [map String.concat]. by rewrite append_nil_r. Qed.

Lemma parse_string_v4 v : parse_v4 (string_v4 v) = Some (octets_of v).
Proof.
  assert (Hm : ∀ x, 0 ≤ x mod 256 < 256) by (intros; apply Z.mod_pos_bound; lia).
  assert (Hne : ∀ o t, (itoa o +:+ t)%string ≠ "").
  { intros o t. assert (itoa o ≠ ""); [|by destruct (itoa o)]. unfold itoa. rewrite digits_of_step.
    destruct (o <? 10); [done|]. intros H. apply (f_equal String.length) in H. rewrite length_append in H. cbn in H. lia. }
  rewrite string_v4_octets. unfold parse_v4, octets_of.
  destruct (parse_v4_octet (v / 2 ^ 24 mod 256)
    (String "." (itoa (v / 2 ^ 16 mod 256) +:+ String "." (itoa (v / 2 ^ 8 mod 256) +:+
       String "." (itoa (v mod 256) +:+ ""))))%string [] (Hm _)) as [l ->].
  cbn [parse_v4_fields]. change (digit_val ".") with (@None Z). cbn iota.
  rewrite Ascii.eqb_refl, (proj2 (String.eqb_neq _ _)) by apply Hne. cbn [orb length Nat.eqb app].
  destruct (parse_v4_octet (v / 2 ^ 16 mod 256)
    (String "." (itoa (v / 2 ^ 8 mod 256) +:+ String "." (itoa (v mod 256) +:+ "")))%string
    [v / 2 ^ 24 mod 256] (Hm _)) as [l2 ->].
  cbn [parse_v4_fields]. change (digit_val ".") with (@None Z). cbn iota.
  rewrite Ascii.eqb_refl, (proj2 (String.eqb_neq _ _)) by apply Hne. cbn [orb length Nat.eqb app].
  destruct (parse_v4_octet (v / 2 ^ 8 mod 256) (String "." (itoa (v mod 256) +:+ ""))%string
    [v / 2 ^ 24 mod 256; v / 2 ^ 16 mod 256] (Hm _)) as [l3 ->].
  cbn [parse_v4_fields]. change (digit_val ".") with (@None Z). cbn iota.
  rewrite Ascii.eqb_refl, (proj2 (String.eqb_neq _ _)) by apply Hne. cbn [orb length Nat.eqb app].
  destruct (parse_v4_octet (v mod 256) "" [v / 2 ^ 24 mod 256; v / 2 ^ 16 mod 256; v / 2 ^ 8 mod 256] (Hm _)) as [l4 ->].
  done.
Qed.

Lemma v4_of_octets v : 0 ≤ v < 2 ^ 32 → v4_of (octets_of v) = v.
Proof.
  intros Hv. unfold v4_of, octets_of. cbn [foldl].
  pose proof (Z.div_mod v (2 ^ 8)). pose proof (Z.div_mod (v / 2 ^ 8) 256). pose proof (Z.div_mod (v / 2 ^ 16) 256).
  assert (E1 : v / 2 ^ 8 / 256 = v / 2 ^ 16) by (rewrite Z.div_div by lia; done).
  assert (E2 : v / 2 ^ 16 / 256 = v / 2 ^ 24) by (rewrite Z.div_div by lia; done).
  assert (E3 : v / 2 ^ 24 mod 256 = v / 2 ^ 24) by (apply Z.mod_small; split; [apply Z.div_pos; lia|apply Z.div_lt_upper_bound; lia]).
  change (2 ^ 8) with 256 in *. lia.
Qed.

(** ** IPv6 *)

Definition hex_digit (c : ascii) : bool := bool_decide (is_Some (hex_val c)).

Lemma hex_digit_ne c d : hex_digit c = true → hex_digit d = false → Ascii.eqb c d = false.
Proof. intros Hc Hd. apply Ascii.eqb_neq. intros ->. congruence. Qed.

Lemma chars_hex ds : Forall (λ d, 0 ≤ d < 16) ds → string_forallb hex_digit (chars ds) = true.
Proof.
  induction 1 as [|d ds Hd _ IH]; [done|]. cbn [chars foldr string_forallb]. fold (chars ds). rewrite IH.
  unfold hex_digit. by rewrite hex_digit_val.
Qed.

Lemma hex_hex g : 0 ≤ g < 65536 → string_forallb hex_digit (hex g) = true ∧ hex g ≠ "".
Proof.
  intros Hg. destruct (hex_chars g Hg) as (ds & -> & Hne & _ & Hds & _). split; [by apply chars_hex|].
  by destruct ds.
Qed.

Lemma itoa_hex o : 0 ≤ o < 256 → string_forallb hex_digit (itoa o) = true ∧ itoa o ≠ "".
Proof.
  intros Ho. destruct (itoa_chars o Ho) as (ds & -> & Hne & _ & Hds & _). split; [|by destruct ds].
  apply chars_hex. eapply Forall_impl; [exact Hds|]. intros d Hd. cbn in Hd. lia.
Qed.

Lemma no_hex_char c t : hex_val c = None → no_hex (String c t).
Proof. intros Hc. right. by exists c, t. Qed.

(** One group of the loop, by what follows it. *)
Lemma groups_end fuel g gs ell :
  0 ≤ g < 65536 → (length gs < 8)%nat →
  parse_v6_groups (S fuel) (hex g) gs ell = Some (gs ++ [g], ell).
Proof.
  intros Hg Hl. destruct (hex_group_hex g "" Hg) as (n & Hn & Hh); [by left|]. rewrite append_nil_r in Hh.
  cbn [parse_v6_groups]. rewrite (proj2 (Nat.leb_gt _ _)), Hh by lia. by rewrite (proj2 (Z.eqb_neq _ _)) by lia.
Qed.

Lemma groups_colon fuel g c s gs ell :
  0 ≤ g < 65536 → (length gs < 8)%nat → Ascii.eqb c ":" = false →
  parse_v6_groups (S fuel) (hex g +:+ String ":" (String c s))%string gs ell =
    parse_v6_groups fuel (String c s) (gs ++ [g]) ell.
Proof.
  intros Hg Hl Hc. destruct (hex_group_hex g (String ":" (String c s)) Hg) as (n & Hn & Hh); [by apply no_hex_char|].
  cbn [parse_v6_groups]. rewrite (proj2 (Nat.leb_gt _ _)), Hh by lia. rewrite (proj2 (Z.eqb_neq _ _)) by lia.
  clear Hh. destruct c as [[] [] [] [] [] [] [] []]; first [done|discriminate].
Qed.

Lemma groups_ellipsis fuel g r gs :
  0 ≤ g < 65536 → (length gs < 8)%nat →
  parse_v6_groups (S fuel) (hex g +:+ String ":" (String ":" r))%string gs None =
    if String.eqb r "" then Some (gs ++ [g], Some (length (gs ++ [g])))
    else parse_v6_groups fuel r (gs ++ [g]) (Some (length (gs ++ [g]))).
Proof.
  intros Hg Hl. destruct (hex_group_hex g (String ":" (String ":" r)) Hg) as (n & Hn & Hh); [by apply no_hex_char|].
  cbn [parse_v6_groups]. rewrite (proj2 (Nat.leb_gt _ _)), Hh by lia. rewrite (proj2 (Z.eqb_neq _ _)) by lia.
  done.
Qed.

Lemma groups_v4 fuel w gs e :
  (length gs ≤ 6)%nat →
  parse_v6_groups (S fuel) (string_v4 w) gs (Some e) =
    match octets_of w with [a; b; c; d] => Some (gs ++ [a * 256 + b; c * 256 + d], Some e) | _ => None end.
Proof.
  intros Hl. assert (Hm : 0 ≤ w / 2 ^ 24 mod 256 < 256) by (apply Z.mod_pos_bound; lia).
  pose proof (parse_string_v4 w) as Hp. rewrite string_v4_octets in *.
  destruct (itoa_chars _ Hm) as (ds & Hi & Hne & Hlen & Hds & _). rewrite Hi in *.
  cbn [parse_v6_groups]. rewrite (proj2 (Nat.leb_gt _ _)) by lia.
  assert (Hds' : Forall (λ d, 0 ≤ d < 16) ds) by (eapply Forall_impl; [exact Hds|]; intros d Hd; cbn in Hd; lia).
  rewrite hex_group_chars; [|done|lia|lia|cbn; lia|by apply no_hex_char].
  rewrite (proj2 (Z.eqb_neq _ _)) by (destruct ds; [done|cbn; lia]).
  rewrite bool_decide_false by done. cbn [andb].
  rewrite (proj2 (Nat.ltb_ge _ _)), Hp by lia. done.
Qed.

Definition join (l : list Z) : string := String.concat ":" (map hex l).

Lemma join_cons g l : l ≠ [] → join (g :: l) = (hex g +:+ String ":" (join l))%string.
Proof. by destruct l. Qed.

Lemma join_head g l : 0 ≤ g < 65536 → ∃ c s, join (g :: l) = String c s ∧ hex_digit c = true.
Proof.
  intros Hg. destruct (hex_hex g Hg) as [Hh Hne]. destruct (hex g) as [|c s] eqn:Hx; [done|].
  cbn in Hh. apply andb_true_iff in Hh as [Hc _]. unfold join. cbn [map String.concat]. rewrite Hx.
  destruct (map hex l); [by exists c, s|]. rewrite append_cons. by eexists _, _.
Qed.

Lemma groups_join l fuel gs ell :
  l ≠ [] → Forall (λ g, 0 ≤ g < 65536) l → (length l ≤ fuel)%nat → (length gs + length l ≤ 8)%nat →
  parse_v6_groups fuel (join l) gs ell = Some (gs ++ l, ell).
Proof.
  intros Hne Hl. revert fuel gs. induction Hl as [|g l Hg Hl IH]; intros fuel gs Hf Hlen; [done|].
  destruct fuel as [|fuel]; cbn [length] in *; [lia|]. destruct (decide (l = [])) as [->|Hl'].
  - apply groups_end; [done|lia].
  - rewrite join_cons by done. destruct l as [|g' l]; [done|].
    destruct (join_head g' l) as (c & s & Hj & Hc); [by inv Hl|]. rewrite Hj, groups_colon, <- Hj;
      [|done|lia|by apply hex_digit_ne]. rewrite IH; [by rewrite <- app_assoc|done|lia|rewrite length_app; cbn [length] in *; lia].
Qed.

Lemma groups_join_ellipsis l r fuel gs :
  l ≠ [] → Forall (λ g, 0 ≤ g < 65536) l → Forall (λ g, 0 ≤ g < 65536) r →
  (length l + length r ≤ fuel)%nat → (length gs + length l + length r ≤ 8)%nat →
  parse_v6_groups fuel (join l +:+ String ":" (String ":" (join r)))%string gs None =
    Some (gs ++ l ++ r, Some (length gs + length l)%nat).
Proof.
  intros Hne Hl Hr. revert fuel gs. induction Hl as [|g l Hg Hl IH]; intros fuel gs Hf Hlen; [done|].
  destruct fuel as [|fuel]; cbn [length] in *; [lia|]. destruct (decide (l = [])) as [->|Hl'].
  - change (join [g]) with (hex g). rewrite groups_ellipsis; [|done|lia]. rewrite length_app. cbn [length app].
    destruct r as [|g' r].
    + done.
    + destruct (join_head g' r) as (c & s & Hj & Hc); [by inv Hr|]. rewrite Hj. cbn [String.eqb]. rewrite <- Hj.
      rewrite groups_join; [by rewrite <- app_assoc|done|done|cbn [length] in *; lia|rewrite length_app; cbn [length] in *; lia].
  - rewrite join_cons by done. destruct l as [|g' l]; [done|].
    destruct (join_head g' l) as (c & s & Hj & Hc); [by inv Hl|].
    rewrite <- append_assoc, Hj, !append_cons, groups_colon; [|done|lia|by apply hex_digit_ne].
    rewrite <- append_cons, <- Hj. rewrite IH; [|done|lia|rewrite length_app; cbn [length] in *; lia].
    rewrite <- app_assoc, length_app. cbn [length app]. do 3 f_equal. lia.
Qed.

(** *** The longest run of zeros *)

Lemma zero_run_spec l : ∃ r, l = replicate (zero_run l) 0 ++ r.
Proof.
  induction l as [|g l [r IH]]; [by exists []|]. destruct g; cbn [zero_run].
  - exists r. cbn [replicate app]. by f_equal.
  - by exists (Z.pos p :: l).
  - by exists (Z.neg p :: l).
Qed.

(** A run of zeros with at least two groups, or none. *)
Definition zero_range (gs : list Z) (best : nat * nat) : Prop :=
  best = (8, 8)%nat ∨ ∃ k, best.2 = (best.1 + k)%nat ∧ (2 ≤ k)%nat ∧ (best.1 + k ≤ length gs)%nat ∧
    gs = take best.1 gs ++ replicate k 0 ++ drop best.2 gs.

Lemma longest_zeros_range gs : zero_range gs (longest_zeros gs).
Proof.
  unfold longest_zeros. generalize (seq 0 8). intros idx.
  assert (H : ∀ b, zero_range gs b → zero_range gs (foldl (zero_step gs) b idx)); [|by apply H; left].
  induction idx as [|i idx IH]; intros b Hb; [done|]. cbn [foldl]. apply IH.
  unfold zero_step. destruct (_ && _) eqn:Hc; [|done]. apply andb_true_iff in Hc as [Hc _].
  apply Nat.leb_le in Hc. destruct (zero_run_spec (drop i gs)) as [r Hr].
  set (k := zero_run (drop i gs)) in *. right. exists k. cbn [fst snd]. split; [done|]. split; [done|].
  assert (Hlen : (k ≤ length gs - i)%nat).
  { rewrite <- length_drop, Hr, length_app, length_replicate. lia. }
  split; [lia|]. rewrite <- drop_drop, Hr, drop_app_length' by by rewrite length_replicate.
  rewrite <- Hr. by rewrite take_drop.
Qed.

Lemma groups_of_length v : length (groups_of v) = 8%nat.
Proof. done. Qed.

Lemma groups_of_range v : Forall (λ g, 0 ≤ g < 65536) (groups_of v).
Proof. apply Forall_fmap, Forall_forall. intros i _. apply Z.mod_pos_bound. lia. Qed.

Lemma v6_of_groups v : 0 ≤ v < 2 ^ 128 → v6_of (groups_of v) = v.
Proof.
  intros Hv. unfold v6_of, groups_of. change (seqZ 0 8) with [0; 1; 2; 3; 4; 5; 6; 7]. cbn [map foldl].
  assert (Hs : ∀ k, 0 ≤ k → v / 2 ^ (16 * (k + 1)) * 65536 + v / 2 ^ (16 * k) mod 65536 = v / 2 ^ (16 * k)).
  { intros k Hk. assert (H1 : v / 2 ^ (16 * (k + 1)) = v / 2 ^ (16 * k) / 65536).
    { rewrite Z.div_div by lia. f_equal. change 65536 with (2 ^ 16). rewrite <- Z.pow_add_r by lia. f_equal. lia. }
    rewrite H1. pose proof (Z.div_mod (v / 2 ^ (16 * k)) 65536). lia. }
  assert (Ht : v / 2 ^ (16 * (7 - 0)) mod 65536 = v / 2 ^ (16 * 7)).
  { apply Z.mod_small. split; [apply Z.div_pos; lia|]. apply Z.div_lt_upper_bound; [lia|]. exact (proj2 Hv). }
  rewrite Ht, Z.mul_0_l, Z.add_0_l.
  change (7 - 1) with 6. change (7 - 2) with 5. change (7 - 3) with 4. change (7 - 4) with 3. change (7 - 5) with 2.
  change (7 - 6) with 1. change (7 - 7) with 0.
  assert (Hs' : ∀ j k, j = k + 1 → 0 ≤ k →
    v / 2 ^ (16 * j) * 65536 + v / 2 ^ (16 * k) mod 65536 = v / 2 ^ (16 * k)) by (intros ? k ->; apply Hs).
  rewrite (Hs' 7 6), (Hs' 6 5), (Hs' 5 4), (Hs' 4 3), (Hs' 3 2), (Hs' 2 1), (Hs' 1 0) by lia.
  by rewrite Z.mul_0_r, Z.div_1_r.
Qed.

(** *** The zone and the choice of syntax *)

Lemma IndexByte_app a s b :
  string_forallb (λ c, negb (Ascii.eqb c b)) a = true →
  IndexByte (a +:+ String b s)%string b = Z.of_nat (String.length a).
Proof.
  induction a as [|c a IH]; [by rewrite append_nil; cbn; rewrite Ascii.eqb_refl|].
  rewrite append_cons. cbn [string_forallb IndexByte String.length]. intros [Hc%negb_true_iff Ha]%andb_true_iff.
  rewrite Hc, IH, (proj2 (Z.ltb_ge _ _)) by (done || lia). lia.
Qed.

Lemma slice_to_app a s : slice_to (a +:+ s)%string (Z.of_nat (String.length a)) = a.
Proof.
  unfold slice_to. rewrite Nat2Z.id. induction a as [|c a IH]; [by rewrite append_nil; destruct s|].
  rewrite append_cons. cbn. by rewrite IH.
Qed.

Lemma slice_from_app a c s :
  slice_from (a +:+ String c s)%string (Z.of_nat (String.length a) + 1) = s.
Proof.
  unfold slice_from. replace (Z.to_nat _) with (S (String.length a)) by lia. rewrite length_append. cbn [String.length].
  replace (String.length a + S (String.length s) - S (String.length a))%nat with (String.length s) by lia.
  induction a as [|d a IH]; [by rewrite append_nil; cbn [String.length String.substring]; apply substring_all|].
  rewrite append_cons. cbn [String.length String.substring]. exact IH.
Qed.

Definition plain (c : ascii) : bool := hex_digit c || Ascii.eqb c ":" || Ascii.eqb c ".".

Lemma plain_no_percent s : string_forallb plain s = true → string_forallb (λ c, negb (Ascii.eqb c "%")) s = true.
Proof.
  apply string_forallb_impl. intros c Hc. apply negb_true_iff, Ascii.eqb_neq. intros ->. by vm_compute in Hc.
Qed.

Lemma addr_syntax_hex a c s :
  string_forallb hex_digit a = true → Ascii.eqb c "." || Ascii.eqb c ":" || Ascii.eqb c "%" = true →
  addr_syntax (a +:+ String c s)%string = Some c.
Proof.
  intros Ha Hc. induction a as [|d a IH]; [by rewrite append_nil; cbn; rewrite Hc|].
  rewrite append_cons. cbn [string_forallb addr_syntax] in *. apply andb_true_iff in Ha as [Hd Ha].
  rewrite !(hex_digit_ne d) by done. by apply IH.
Qed.

(** The text without its zone, read. *)
Definition v6_body (body zone : string) : option Addr :=
  match body with
  | String ":" (String ":" "") => Some (Addr6 0 zone)
  | String ":" (String ":" rest) =>
      gs ← parse_v6_groups 8 rest [] (Some O) ≫= expand_ellipsis; Some (Addr6 (v6_of gs) zone)
  | _ => gs ← parse_v6_groups 8 body [] None ≫= expand_ellipsis; Some (Addr6 (v6_of gs) zone)
  end.

Lemma parse_v6_zone body z :
  string_forallb plain body = true → parse_v6 (body +:+ zone_suffix z)%string = v6_body body z.
Proof.
  intros Hp%plain_no_percent. unfold parse_v6, zone_suffix. destruct (String.eqb_spec z "") as [->|Hz].
  - rewrite append_nil_r, IndexByte_none by done. done.
  - rewrite (append_cons "%" "" z), append_nil, IndexByte_app by done.
    rewrite slice_to_app, slice_from_app. rewrite (proj2 (Z.leb_le 0 _)), (proj2 (Z.ltb_ge _ 0)) by lia.
    rewrite (proj2 (String.eqb_neq z "")) by done. done.
Qed.

Lemma v6_body_hex c s z :
  Ascii.eqb c ":" = false →
  v6_body (String c s) z =
    gs ← parse_v6_groups 8 (String c s) [] None ≫= expand_ellipsis; Some (Addr6 (v6_of gs) z).
Proof. destruct c as [[] [] [] [] [] [] [] []]; first [done|discriminate]. Qed.

Lemma v6_body_groups l k r z :
  Forall (λ g, 0 ≤ g < 65536) l → Forall (λ g, 0 ≤ g < 65536) r → (2 ≤ k)%nat → (length l + k + length r = 8)%nat →
  v6_body (join l +:+ "::" +:+ join r)%string z = Some (Addr6 (v6_of (l ++ replicate k 0 ++ r)) z).
Proof.
  intros Hl Hr Hk Hlen. change ("::" +:+ join r)%string with (String ":" (String ":" (join r))).
  destruct l as [|g l].
  - change (join []) with "". rewrite append_nil. destruct r as [|g r].
    + cbn [length] in Hlen. replace k with 8%nat by lia. done.
    + destruct (join_head g r) as (c & s & Hj & Hc); [by inv Hr|]. rewrite Hj. cbn [v6_body]. rewrite <- Hj.
      rewrite groups_join; [|done|done|cbn [length] in *; lia|cbn [length] in *; lia].
      cbn [mbind option_bind expand_ellipsis app take drop]. rewrite (proj2 (Nat.eqb_neq _ _)) by (cbn [length] in *; lia).
      cbn [mbind option_bind]. do 4 f_equal. f_equal. cbn [length] in *. lia.
  - destruct (join_head g l) as (c & s & Hj & Hc); [by inv Hl|].
    pose proof (groups_join_ellipsis (g :: l) r 8 []) as Hg. rewrite Hj, append_cons in *.
    rewrite v6_body_hex by (by apply hex_digit_ne).
    rewrite Hg; [|done|done|done|cbn [length] in *; lia|cbn [length] in *; lia].
    cbn [mbind option_bind expand_ellipsis]. rewrite (proj2 (Nat.eqb_neq _ _)) by (rewrite !length_app; cbn [length] in *; lia).
    cbn [length Nat.add mbind option_bind]. do 2 f_equal. f_equal.
    change (S (length l)) with (length (g :: l)). rewrite app_nil_l, take_app_length, drop_app_length, length_app. do 3 f_equal. cbn [length] in *. lia.
Qed.

Lemma string_v6_body v z : 0 ≤ v < 2 ^ 128 → v6_body (string_v6 v) z = Some (Addr6 v z).
Proof.
  intros Hv. unfold string_v6. pose proof (groups_of_range v) as Hr. pose proof (groups_of_length v) as Hl.
  rewrite <- (v6_of_groups v) at 2 by done.
  destruct (longest_zeros_range (groups_of v)) as [Hz|(k & Hk & H2 & Hle & Hgs)].
  - rewrite Hz. cbn [Nat.leb]. destruct (groups_of v) as [|g l]; [done|].
    change (String.concat ":" (map hex (g :: l))) with (join (g :: l)).
    destruct (join_head g l) as (c & s & Hj & Hc); [by inv Hr|].
    rewrite Hj, v6_body_hex, <- Hj by (by apply hex_digit_ne).
    rewrite groups_join by (first [done|rewrite Hl; cbn [length]; lia]). rewrite app_nil_l.
    cbn [mbind option_bind expand_ellipsis]. by rewrite Hl.
  - destruct (longest_zeros (groups_of v)) as [zs ze]. cbn [fst snd] in *. subst ze.
    rewrite (proj2 (Nat.leb_gt 8 zs)) by lia. fold (join (take zs (groups_of v))) (join (drop (zs + k) (groups_of v))).
    rewrite (v6_body_groups _ k); [by rewrite <- Hgs|by apply Forall_take|by apply Forall_drop|done|].
    rewrite length_take, length_drop. lia.
Qed.

Lemma join_plain l : Forall (λ g, 0 ≤ g < 65536) l → string_forallb plain (join l) = true.
Proof.
  assert (Hg : ∀ g, 0 ≤ g < 65536 → string_forallb plain (hex g) = true).
  { intros g Hg. destruct (hex_hex g Hg) as [Hh _]. eapply string_forallb_impl; [|exact Hh].
    intros c Hc. unfold plain. by rewrite Hc. }
  induction 1 as [|g l Hg' Hl IH]; [done|]. destruct (decide (l = [])) as [->|Hne]; [by apply Hg|].
  rewrite join_cons, string_forallb_app by done. rewrite Hg by done. cbn [string_forallb andb]. exact IH.
Qed.

Lemma string_v6_plain v : string_forallb plain (string_v6 v) = true.
Proof.
  unfold string_v6. destruct (longest_zeros _) as [zs ze]. pose proof (groups_of_range v) as Hr.
  destruct (8 <=? zs)%nat; [by apply join_plain|].
  rewrite !string_forallb_app. fold (join (take zs (groups_of v))) (join (drop ze (groups_of v))).
  by rewrite !join_plain by (by (apply Forall_take || apply Forall_drop)).
Qed.

Lemma string_v4_plain v : string_forallb plain (string_v4 v) = true.
Proof.
  rewrite string_v4_octets.
  assert (H : ∀ x, string_forallb plain (itoa (x mod 256)) = true).
  { intros x. destruct (itoa_hex (x mod 256)) as [Hh _]; [apply Z.mod_pos_bound; lia|].
    eapply string_forallb_impl; [|exact Hh]. intros c Hc. unfold plain. by rewrite Hc. }
  do 3 (rewrite string_forallb_app, H; cbn [andb string_forallb];
        change (plain ".") with true; cbn [andb]). by rewrite string_forallb_app, H.
Qed.

Lemma mapped_body w z :
  0 ≤ w < 2 ^ 32 → v6_body ("::ffff:" +:+ string_v4 w)%string z = Some (Addr6 (65535 * 2 ^ 32 + w) z).
Proof.
  intros Hw. assert (Hne : ∃ c s, string_v4 w = String c s ∧ hex_digit c = true).
  { rewrite string_v4_octets. assert (Hm : 0 ≤ w / 2 ^ 24 mod 256 < 256) by (apply Z.mod_pos_bound; lia).
    destruct (itoa_hex _ Hm) as [Hh Hne]. destruct (itoa _) as [|c s]; [done|].
    cbn in Hh. apply andb_true_iff in Hh as [Hc _]. rewrite append_cons. by eexists _, _. }
  destruct Hne as (c & s & Hs & Hc).
  change ("::ffff:" +:+ string_v4 w)%string with (String ":" (String ":" ("ffff" +:+ String ":" (string_v4 w)))%string).
  change ("ffff" +:+ String ":" (string_v4 w))%string with (hex 65535 +:+ String ":" (string_v4 w))%string.
  assert (Hstep : parse_v6_groups 8 (hex 65535 +:+ String ":" (string_v4 w))%string [] (Some 0%nat) =
    parse_v6_groups 7 (string_v4 w) [65535] (Some 0%nat)).
  { rewrite Hs. apply groups_colon; [lia|cbn; lia|by apply hex_digit_ne]. }
  cbn [v6_body]. change (hex 65535) with "ffff" in *. cbn [String.append] in *.
  transitivity (gs ← parse_v6_groups 8 ("ffff" +:+ String ":" (string_v4 w))%string [] (Some O) ≫= expand_ellipsis;
    Some (Addr6 (v6_of gs) z)); [done|].
  rewrite Hstep, groups_v4 by (cbn; lia). unfold octets_of. cbn [mbind option_bind app length expand_ellipsis Nat.eqb Nat.sub take drop replicate].
  do 2 f_equal. unfold v6_of. cbn [foldl app].
  pose proof (v4_of_octets w Hw) as Ho. unfold v4_of, octets_of in Ho. cbn [foldl] in Ho. lia.
Qed.

Lemma shiftr_split v : 0 ≤ v → Z.shiftr v 32 = 65535 → v = 65535 * 2 ^ 32 + Z.land v (2 ^ 32 - 1).
Proof.
  intros Hv. rewrite Z.shiftr_div_pow2 by lia. change (2 ^ 32 - 1) with (Z.ones 32). rewrite Z.land_ones by lia.
  intros Hs. rewrite (Z.div_mod v (2 ^ 32)) at 1 by lia. lia.
Qed.

Lemma addr_syntax_v6 v t : addr_syntax (string_v6 v +:+ t)%string = Some ":"%char.
Proof.
  unfold string_v6. pose proof (groups_of_range v) as Hr. pose proof (groups_of_length v) as Hl.
  destruct (longest_zeros _) as [zs ze].
  fold (join (take zs (groups_of v))) (join (drop ze (groups_of v))) (join (groups_of v)).
  assert (Hcolon : ∀ l s, l ≠ [] → Forall (λ g, 0 ≤ g < 65536) l → (l = [] ∨ (2 <= length l)%nat ∨ ∃ s', s = String ":" s') →
    addr_syntax (join l +:+ s)%string = Some ":"%char).
  { intros [|g l] s Hne Hrl Hs; [done|]. inv Hrl. destruct (hex_hex g) as [Hh _]; [done|].
    destruct l as [|g' l].
    - destruct Hs as [?|[?|[s' ->]]]; [done|cbn in *; lia|]. by apply addr_syntax_hex.
    - rewrite join_cons, <- append_assoc, append_cons by done. by apply addr_syntax_hex. }
  destruct (8 <=? zs)%nat.
  - apply Hcolon; [by destruct (groups_of v)|done|]. right; left. lia.
  - rewrite <- append_assoc. destruct (take zs (groups_of v)) as [|g l] eqn:Ht; [done|].
    rewrite <- Ht. apply Hcolon; [by rewrite Ht|by apply Forall_take|]. right; right. by eexists.
Qed.

(** Printing and reading back. *)
Theorem ParseAddr_String a : Addr_wf a → a ≠ AddrInvalid → ParseAddr (Addr_String a) = Some a.
Proof.
  destruct a as [|v|v z]; intros Hwf Hne; [done|..].
  - cbn [Addr_String]. unfold ParseAddr.
    assert (Hs : addr_syntax (string_v4 v) = Some "."%char).
    { rewrite string_v4_octets. apply addr_syntax_hex; [|done]. apply itoa_hex, Z.mod_pos_bound. lia. }
    rewrite Hs, parse_string_v4. cbn [mbind option_bind]. by rewrite v4_of_octets.
  - unfold Addr_String. destruct (Is4In6 (Addr6 v z)) eqn:Hm.
    + cbn [Is4In6] in Hm. apply Z.eqb_eq in Hm.
      assert (Hw : 0 ≤ Z.land v (2 ^ 32 - 1) < 2 ^ 32).
      { change (2 ^ 32 - 1) with (Z.ones 32). rewrite Z.land_ones by lia. apply Z.mod_pos_bound. lia. }
      unfold ParseAddr. rewrite append_assoc.
      change (addr_syntax _) with (Some ":"%char). cbn iota. rewrite parse_v6_zone.
      * rewrite mapped_body by done. by rewrite <- shiftr_split by (cbn in Hwf; lia || done).
      * rewrite string_forallb_app, string_v4_plain. done.
    + unfold ParseAddr. rewrite addr_syntax_v6, parse_v6_zone by apply string_v6_plain. by apply string_v6_body.
Qed.

Lemma Addr_String_inj a b : Addr_wf a → a ≠ AddrInvalid → Addr_wf b → b ≠ AddrInvalid →
  Addr_String a = Addr_String b → a = b.
Proof.
  intros Ha Hna Hb Hnb He. pose proof (ParseAddr_String a Ha Hna) as H1. pose proof (ParseAddr_String b Hb Hnb) as H2.
  rewrite He in H1. congruence.
Qed.

(** ** An address with its port, read back *)

Lemma LastIndexByte_none s b : string_forallb (λ c, negb (Ascii.eqb c b)) s = true → LastIndexByte s b = -1.
Proof.
  induction s as [|c s IH]; [done|]. cbn [string_forallb LastIndexByte].
  intros [Hc%negb_true_iff Hs]%andb_true_iff. rewrite IH by done. by rewrite Hc.
Qed.

Lemma LastIndexByte_app a b t :
  string_forallb (λ c, negb (Ascii.eqb c b)) t = true →
  LastIndexByte (a +:+ String b t)%string b = Z.of_nat (String.length a).
Proof.
  intros Ht. induction a as [|c a IH].
  - rewrite append_nil. cbn [LastIndexByte]. rewrite LastIndexByte_none by done. by rewrite Ascii.eqb_refl.
  - rewrite append_cons. cbn [LastIndexByte String.length]. rewrite IH, (proj2 (Z.leb_le 0 _)) by lia. lia.
Qed.

Lemma itoa_digits n : 0 ≤ n < 10 ^ 20 → string_forallb is_digit (itoa n) = true ∧ itoa n ≠ "".
Proof. intros Hn. eapply decimal_forallb, decimal_itoa. done. Qed.

Lemma digits_without n b : 0 ≤ n < 10 ^ 20 → is_digit b = false →
  string_forallb (λ c, negb (Ascii.eqb c b)) (itoa n) = true.
Proof.
  intros Hn Hb. eapply string_forallb_impl; [|apply (itoa_digits n Hn)]. intros c Hc.
  apply negb_true_iff, Ascii.eqb_neq. intros ->. congruence.
Qed.

Lemma ParseUint16_itoa n : 0 ≤ n < 2 ^ 16 → ParseUint16 (itoa n) = Some n.
Proof.
  intros Hn. assert (Hd : decimal (itoa n) n) by (apply decimal_itoa; lia).
  destruct (decimal_forallb _ _ Hd) as [_ Hne]. unfold ParseUint16.
  rewrite (proj2 (String.eqb_neq _ _)), (decimal_atoi _ _ Hd) by done. cbn [mbind option_bind].
  rewrite Z.mul_0_l, Z.add_0_l. by rewrite (proj2 (Z.ltb_lt _ _)) by lia.
Qed.

Lemma HasPrefix_app p s : HasPrefix (p +:+ s)%string p = true.
Proof. apply bool_decide_eq_true. exists s. by apply cut_prefix_spec. Qed.

Lemma HasSuffix_app s q : HasSuffix (s +:+ q)%string q = true.
Proof. apply bool_decide_eq_true. exists s. by apply cut_suffix_spec. Qed.

Lemma TrimPrefix_app p s : TrimPrefix (p +:+ s)%string p = s.
Proof. unfold TrimPrefix. by rewrite (proj2 (cut_prefix_spec p _ s)). Qed.

Lemma TrimSuffix_app s q : TrimSuffix (s +:+ q)%string q = s.
Proof. unfold TrimSuffix. by rewrite (proj2 (cut_suffix_spec q _ s)). Qed.

(** The two parts of a printed address with its port. *)
Definition host_text (a : Addr) : string :=
  match a with Addr4 v => string_v4 v | _ => ("[" +:+ Addr_String a +:+ "]")%string end.

Lemma AddrPort_String_split t :
  ap_Addr t ≠ AddrInvalid →
  AddrPort_String t = (host_text (ap_Addr t) +:+ String ":" (itoa (ap_Port t)))%string.
Proof.
  destruct t as [[|v|v z] p]; intros Hne; [done|done|]. unfold AddrPort_String, host_text. cbn [ap_Addr ap_Port].
  by rewrite <- !append_assoc.
Qed.

Lemma host_text_unbracketed v : HasPrefix (string_v4 v) "[" = false ∧ string_v4 v ≠ "".
Proof.
  pose proof (string_v4_plain v) as Hp. assert (Hne : string_v4 v ≠ "").
  { rewrite string_v4_octets. intros H. apply (f_equal String.length) in H. rewrite length_append in H. cbn in H. lia. }
  split; [|done]. apply bool_decide_eq_false. intros [r Hr%cut_prefix_spec]. rewrite Hr in Hp. by vm_compute in Hp.
Qed.

Lemma ParseAddrPort_String t :
  Addr_wf (ap_Addr t) → ap_Addr t ≠ AddrInvalid → 0 ≤ ap_Port t < 2 ^ 16 →
  ParseAddrPort (AddrPort_String t) = Some t.
Proof.
  intros Hwf Hne Hp. rewrite AddrPort_String_split by done.
  assert (Hnc : string_forallb (λ c, negb (Ascii.eqb c ":")) (itoa (ap_Port t)) = true)
    by (apply digits_without; [lia|done]).
  unfold ParseAddrPort. rewrite LastIndexByte_app, slice_to_app, slice_from_app by done.
  rewrite (proj2 (Z.ltb_ge _ 0)) by lia.
  rewrite (proj2 (String.eqb_neq (itoa _) "")) by (apply itoa_digits; lia). rewrite ParseUint16_itoa by done.
  pose proof (ParseAddr_String _ Hwf Hne) as Hpa. destruct t as [a p]. cbn [ap_Addr ap_Port] in *.
  destruct a as [|v|v z]; [done|..].
  - cbn [host_text]. destruct (host_text_unbracketed v) as [Hb Hv]. cbn [Addr_String] in Hpa.
    rewrite (proj2 (String.eqb_neq _ _)), Hb by done. cbn [orb andb mbind option_bind]. by rewrite Hpa.
  - unfold host_text. set (s := Addr_String (Addr6 v z)) in *.
    change (String.eqb ("[" +:+ s +:+ "]") "") with false. change (String.eqb ("[" +:+ s +:+ "]") "[") with (String.eqb (s +:+ "]") "").
    rewrite HasPrefix_app, TrimPrefix_app, TrimSuffix_app, append_assoc, HasSuffix_app. cbn [negb orb andb].
    rewrite (proj2 (String.eqb_neq _ _)) by (by destruct s). cbn [mbind option_bind]. by rewrite Hpa.
Qed.

(** ** What is read is an address *)

Lemma v4_fields_range s fields val dl pd l :
  parse_v4_fields s fields val dl pd = Some l → Forall (λ o, 0 ≤ o < 256) fields → 0 ≤ val < 256 →
  (length fields ≤ 3)%nat → Forall (λ o, 0 ≤ o < 256) l ∧ length l = 4%nat.
Proof.
  revert fields val dl pd. induction s as [|c s IH]; intros fields val dl pd H Hf Hv Hlen; cbn [parse_v4_fields] in H.
  - destruct (Nat.ltb_spec (length fields) 3); [done|]. injection H as <-. split.
    + apply Forall_app. split; [done|]. constructor; [done|constructor].
    + rewrite length_app. cbn. lia.
  - destruct (digit_val c) as [d|] eqn:Hd.
    + destruct (_ && _); [done|]. destruct (Z.ltb_spec 255 (val * 10 + d)); [done|]. eapply IH; [exact H|done| |done].
      unfold digit_val, is_digit in Hd. destruct (_ && _) eqn:Hc; [|done]. injection Hd as <-. bool_to_prop. lia.
    + destruct (Ascii.eqb c "."); [|done]. destruct (_ || _); [done|].
      destruct (Nat.eqb_spec (length fields) 3); [done|]. eapply IH; [exact H| |lia|].
      * apply Forall_app. split; [done|]. constructor; [done|constructor].
      * rewrite length_app. cbn. lia.
Qed.

Lemma hex_val_range c d : hex_val c = Some d → 0 ≤ d < 16.
Proof.
  unfold hex_val, is_digit.
  destruct ((48 <=? code c) && _) eqn:H1; [intros H%(inj Some); bool_to_prop; lia|].
  destruct ((97 <=? code c) && _) eqn:H2; [intros H%(inj Some); bool_to_prop; lia|].
  destruct ((65 <=? code c) && _) eqn:H3; [intros H%(inj Some); bool_to_prop; lia|done].
Qed.

Lemma hex_group_range s acc off a n r :
  hex_group s acc off = Some (a, n, r) → 0 ≤ acc < 65536 → 0 ≤ a < 65536.
Proof.
  revert acc off. induction s as [|c s IH]; intros acc off H Ha; cbn [hex_group] in H; [by injection H as <- <- <-|].
  destruct (hex_val c) as [d|] eqn:Hd; [|by injection H as <- <- <-].
  apply hex_val_range in Hd. destruct ((3 <? off) || (65535 <? acc * 16 + d)) eqn:Hc; [done|].
  bool_to_prop. eapply IH; [exact H|lia].
Qed.

(** One pass of the loop either ends with a group or two more, or goes on with
    one more. *)
Lemma groups_range fuel s gs ell r e :
  parse_v6_groups fuel s gs ell = Some (r, e) → Forall (λ g, 0 ≤ g < 65536) gs → (length gs ≤ 8)%nat →
  Forall (λ g, 0 ≤ g < 65536) r ∧ (length r ≤ 8)%nat.
Proof.
  revert s gs ell. induction fuel as [|fuel IH]; intros s gs ell H Hg Hl; cbn [parse_v6_groups] in H.
  { destruct (String.eqb s ""); [|done]. by injection H as <- _. }
  destruct (Nat.leb_spec 8 (length gs)) as [H8|H8].
  { destruct (String.eqb s ""); [|done]. by injection H as <- _. }
  destruct (hex_group s 0 0) as [[[acc off] rest]|] eqn:Hh; [|done].
  destruct (off =? 0); [done|].
  assert (Ha : 0 ≤ acc < 65536) by (eapply hex_group_range; [exact Hh|lia]).
  assert (Hone : Forall (λ g, 0 ≤ g < 65536) (gs ++ [acc]) ∧ (length (gs ++ [acc]) ≤ 8)%nat).
  { split; [apply Forall_app; split; [done|]; constructor; [done|constructor]|rewrite length_app; cbn; lia]. }
  assert (Hv4 : match parse_v4 s with
                | Some [a; b; c; d] => Some (gs ++ [a * 256 + b; c * 256 + d], ell) | _ => None end = Some (r, e) →
    (length gs ≤ 6)%nat → Forall (λ g, 0 ≤ g < 65536) r ∧ (length r ≤ 8)%nat).
  { destruct (parse_v4 s) as [l|] eqn:Hp; [|done]. intros Hm H6.
    apply v4_fields_range in Hp as [Hr H4]; [|constructor|lia|cbn; lia].
    destruct l as [|a [|b [|c [|d [|]]]]]; try done. injection Hm as <- _. rewrite !Forall_cons in Hr.
    split; [|rewrite length_app; cbn; lia]. apply Forall_app. split; [done|]. constructor; [lia|constructor; [lia|constructor]]. }
  assert (Hrec : ∀ s' ell', parse_v6_groups fuel s' (gs ++ [acc]) ell' = Some (r, e) →
    Forall (λ g, 0 ≤ g < 65536) r ∧ (length r ≤ 8)%nat) by (intros ? ? Hr; eapply IH; [exact Hr|apply Hone..]).
  destruct rest as [|[[] [] [] [] [] [] [] []] rest]; try done; [by injection H as <- _|..].
  - destruct (bool_decide _ && _); [done|]. destruct (Nat.ltb_spec 6 (length gs)); [done|]. by apply Hv4.
  - destruct rest as [|[[] [] [] [] [] [] [] []] rest]; try done; try (by eapply Hrec).
    destruct (bool_decide _); [done|]. destruct (String.eqb rest ""); [by injection H as <- _|by eapply Hrec].
Qed.

Lemma v6_of_range gs acc k :
  Forall (λ g, 0 ≤ g < 65536) gs → 0 ≤ k → 0 ≤ acc < 65536 ^ k →
  0 ≤ foldl (λ acc g, acc * 65536 + g) acc gs < 65536 ^ (k + Z.of_nat (length gs)).
Proof.
  intros Hg. revert acc k. induction Hg as [|g gs Hg _ IH]; intros acc k Hk Ha; cbn [foldl length].
  - by rewrite Z.add_0_r.
  - replace (k + Z.of_nat (S (length gs))) with (k + 1 + Z.of_nat (length gs)) by lia.
    apply IH; [lia|]. rewrite Z.pow_add_r by lia. lia.
Qed.

Lemma expand_range r gs :
  expand_ellipsis r = Some gs → Forall (λ g, 0 ≤ g < 65536) r.1 → (length r.1 ≤ 8)%nat → 0 ≤ v6_of gs < 2 ^ 128.
Proof.
  destruct r as [l ell]. cbn [fst]. intros H Hl H8.
  assert (Hr : Forall (λ g, 0 ≤ g < 65536) gs ∧ length gs = 8%nat).
  { unfold expand_ellipsis in H. destruct ell as [k|]; destruct (Nat.eqb_spec (length l) 8); try done.
    - injection H as <-. split.
      + rewrite !Forall_app. split; [by apply Forall_take|]. split; [|by apply Forall_drop].
        apply Forall_forall. intros g Hg%elem_of_replicate. lia.
      + rewrite !length_app, length_replicate, length_take, length_drop. lia.
    - by injection H as <-. }
  destruct Hr as [Hr Hlen]. pose proof (v6_of_range gs 0 0 Hr) as Hv. rewrite Hlen in Hv.
  unfold v6_of. apply Hv; lia.
Qed.

Lemma ParseAddr_wf s a : ParseAddr s = Some a → Addr_wf a ∧ a ≠ AddrInvalid.
Proof.
  unfold ParseAddr. destruct (addr_syntax s) as [[[] [] [] [] [] [] [] []]|]; try done.
  - intros (l & Hp & [= <-])%bind_Some. split; [|done]. cbn.
    apply v4_fields_range in Hp as [Hr H4]; [|constructor|lia|cbn; lia].
    destruct l as [|x [|y [|z [|w [|]]]]]; try done. rewrite !Forall_cons in Hr. unfold v4_of. cbn [foldl]. lia.
  - assert (Hb : ∀ t g ell z x, (gs ← parse_v6_groups 8 t g ell ≫= expand_ellipsis; Some (Addr6 (v6_of gs) z)) = Some x →
      g = [] → Addr_wf x ∧ x ≠ AddrInvalid).
    { intros t g ell z x (gs & (r & Hg & He)%bind_Some & [= <-])%bind_Some ->. split; [|done]. cbn.
      destruct r as [r e]. apply groups_range in Hg as [Hr Hl]; [|constructor|cbn; lia]. by eapply expand_range. }
    unfold parse_v6. destruct (_ && _); [done|]. generalize (if IndexByte s "%" <? 0 then "" else slice_from s (IndexByte s "%" + 1)).
    generalize (if IndexByte s "%" <? 0 then s else slice_to s (IndexByte s "%")). intros body z.
    destruct body as [|[[] [] [] [] [] [] [] []] body]; try (by intros H; eapply Hb).
    destruct body as [|[[] [] [] [] [] [] [] []] body]; try (by intros H; eapply Hb).
    destruct body; [|by intros H; eapply Hb]. intros [= <-]. split; [cbn; lia|done].
Qed.

Lemma Unmap_valid a : a ≠ AddrInvalid → Unmap a ≠ AddrInvalid.
Proof. destruct a as [|v|v z]; [done|done|]. intros _. cbn [Unmap]. by destruct (Is4In6 (Addr6 v z)). Qed.

(** What [Unmap] makes of an address: well formed, valid, and not IPv4-mapped. *)
Definition plain_addr (a : Addr) : Prop := Addr_wf a ∧ a ≠ AddrInvalid ∧ Unmap a = a.

Lemma plain_addr_Unmap a : Addr_wf a → a ≠ AddrInvalid → plain_addr (Unmap a).
Proof. intros Hw Hn. split; [by apply Unmap_wf|]. split; [by apply Unmap_valid|apply Unmap_idem]. Qed.
