(* ===== verification/Message.v ===== *)
(** * Messages
    [internal/message]: what the operator was told.  A message has a cause, the
    class a channel routes on, the subject it fires at, and a headline; some carry
    a census.  The delivered report's lines ([pdf.go]) are here too, not their
    drawing.  [None] is a nil [*Message]. *)

From S2P Require Import Prelude GoTime GoStr NetParse GoConv GoCalendar NetText Signal.

(** ** Causes, classes, links *)

Definition CauseDrift : string := "drift".
Definition CauseAperture : string := "aperture".
Definition CauseDeclaredInput : string := "declared-input".
Definition CauseThreshold : string := "threshold".

Definition Cause_Valid (c : string) : bool :=
  bool_decide (c ∈ [CauseDrift; CauseAperture; CauseDeclaredInput; CauseThreshold]).

Definition ClassDrift : string := "drift".
Definition ClassCoverage : string := "coverage".
Definition ClassClock : string := "clock".

Definition ClassForCause (c : string) : string :=
  if String.eqb c CauseDrift then ClassDrift
  else if String.eqb c CauseAperture || String.eqb c CauseDeclaredInput then ClassCoverage
  else if String.eqb c CauseThreshold then ClassClock
  else "".

Definition LinkKindForCause (c : string) : string :=
  if String.eqb c CauseDrift || String.eqb c CauseThreshold then "object"
  else if String.eqb c CauseDeclaredInput then "source"
  else if String.eqb c CauseAperture then "seed"
  else "object".

(** ** Censuses *)

Definition KindFacet : string := "facet".
Definition KindRule : string := "rule".
Definition KindAddress : string := "address".
Definition KindService : string := "service".

Record CensusEntry := mkEntry { ce_Kind : string; ce_Key : string; ce_Detail : string }.
#[export] Instance CensusEntry_eq : EqDecision CensusEntry.
Proof. solve_decision. Defined.

(** [census.Entries]. *)
Definition Census := list CensusEntry.

Definition Label (e : CensusEntry) : string :=
  if String.eqb (ce_Detail e) "" then ce_Key e
  else (ce_Key e +:+ " (" +:+ ce_Detail e +:+ ")")%string.

Definition Rules (c : Census) : list CensusEntry := filter (λ e, ce_Kind e = KindRule) c.
Definition Facets (c : Census) : list CensusEntry := filter (λ e, ce_Kind e = KindFacet) c.
Definition Census_Len (c : Census) : Z := Z.of_nat (length c).

Definition entry_less (a b : CensusEntry) : bool :=
  if negb (String.eqb (ce_Kind a) (ce_Kind b)) then str_less (ce_Kind a) (ce_Kind b)
  else str_less (ce_Key a) (ce_Key b).

Definition NewCensus (entries : list CensusEntry) : Census := sort_stable entry_less entries.

(** ** Numbers in copy *)

Fixpoint group_loop (i len : Z) (s : string) : string :=
  match s with
  | "" => ""
  | String c s' =>
      if (0 <? i) && (Z.rem (len - i) 3 =? 0)
      then String "," (String c (group_loop (i + 1) len s'))
      else String c (group_loop (i + 1) len s')
  end.

Definition group (n : Z) : string :=
  let s := FormatInt n in
  if n <? 1000 then s else group_loop 0 (Z.of_nat (String.length s)) s.

Definition plural (n : Z) (one many : string) : string :=
  (group n +:+ " " +:+ (if (n =? 1)%Z then one else many))%string.

(** ** Clauses of a headline *)

Definition factorsClause (factors : list string) : string :=
  match factors with [] => "" | _ => (String.concat " + " factors +:+ " · ")%string end.

Definition kind_step (st : gmap string Z * list string) (e : CensusEntry) : gmap string Z * list string :=
  let '(counts, kinds) := st in
  let n := default 0 (counts !! ce_Kind e) in
  (<[ce_Kind e := n + 1]> counts, if n =? 0 then kinds ++ [ce_Kind e] else kinds).

Definition kind_counts (c : Census) : gmap string Z * list string := foldl kind_step (∅, []) c.

Definition kindCountFactors (c : Census) : list string :=
  let '(counts, kinds) := kind_counts c in
  map (λ k, plural (default 0 (counts !! k)) k (k +:+ "s")%string) kinds.

Definition rulesOpenedClause (c : Census) : string :=
  let rules := Rules c in
  match rules with
  | [] => ""
  | _ => (" · " +:+ plural (Census_Len rules) "rule" "rules" +:+ " opened at fired: " +:+
          String.concat ", " (map Label rules))%string
  end.

Definition EntryAppeared : string := "appeared".
Definition EntryReturned : string := "returned".
Definition EntryRevealed : string := "revealed".

Definition membershipCauseClause (entry rootKey : string) : string :=
  let verb := if String.eqb entry EntryAppeared then "entered the estate"%string
              else if String.eqb entry EntryReturned then "returned to the estate"
              else if String.eqb entry EntryRevealed then "came into view"
              else "entered the estate" in
  (rootKey +:+ " " +:+ verb)%string.

Definition censusGround (rootKind : string) (members : Z) : string :=
  if String.eqb rootKind "name" && (0 <? members) then "on an address it cites" else "beneath it".

Definition membershipCensusClause (rootKind : string) (c : Census) : string :=
  (" · " +:+ factorsClause (kindCountFactors c) +:+ plural (Census_Len c) "timeline" "timelines" +:+
   " opened " +:+ censusGround rootKind (Census_Len c))%string.

Definition membershipHeadline (entry rootKind rootKey : string) (c : Census) : string :=
  (membershipCauseClause entry rootKey +:+ membershipCensusClause rootKind c)%string.

(** ** Messages *)

Record CensusBasis := mkBasis { cb_RootKind : string; cb_RootKey : string; cb_RootValue : option string }.
Record CensusPending := mkPending { cp_AfterBatch : Z; cp_Basis : CensusBasis }.

Record Message := mkMessage {
  ms_Cause : string;
  ms_Class : string;
  ms_SubjectKind : string;
  ms_FiredAt : string;
  ms_Instant : Z;
  ms_Census : option Census;
  ms_CensusPending : option CensusPending;
  ms_Headline : string
}.

Definition CensusLen (m : Message) : Z := from_option Census_Len 0 (ms_Census m).
Definition LinkKind (m : Message) : string := LinkKindForCause (ms_Cause m).

Definition RootFires (subjectKind : string) : bool :=
  String.eqb subjectKind "name" || String.eqb subjectKind "address".

Definition membership_message (entry rootKind rootKey seedKey : string) (c : Census) (instant : Z)
    : Message :=
  let revealed := String.eqb entry EntryRevealed in
  let cause := if revealed then CauseAperture else CauseDrift in
  mkMessage cause (ClassForCause cause)
    (if revealed then "seed" else rootKind) (if revealed then seedKey else rootKey)
    instant (Some c) None (membershipHeadline entry rootKind rootKey c).

Definition Membership (entry rootKind rootKey seedKey : string) (c : Census) (instant : Z) : option Message :=
  if negb (RootFires rootKind) then None
  else Some (membership_message entry rootKind rootKey seedKey c instant).

Definition HeldMembership (entry rootKind rootKey seedKey : string) (pending : CensusPending) (instant : Z)
    : option Message :=
  m ← Membership entry rootKind rootKey seedKey (NewCensus []) instant;
  Some (mkMessage (ms_Cause m) (ms_Class m) (ms_SubjectKind m) (ms_FiredAt m) (ms_Instant m)
          None (Some pending) (membershipCauseClause entry rootKey)).

Definition ReleasedMembershipHeadline (causeClause rootKind : string) (c : Census) : string :=
  (causeClause +:+ membershipCensusClause rootKind c)%string.

Definition withdrawalHeadline (subjectKey : string) (timelines : Z) : string :=
  (subjectKey +:+ " withdrawn · measured absent · " +:+ plural timelines "timeline" "timelines" +:+
   " taken out of the estate")%string.

Definition Withdrawal (subjectKind subjectKey : string) (timelines instant : Z) : option Message :=
  if negb (RootFires subjectKind) then None
  else Some (mkMessage CauseDrift (ClassForCause CauseDrift) subjectKind subjectKey instant None None
               (withdrawalHeadline subjectKey timelines)).

Definition Threshold (subjectKind subjectKey headline : string) (instant : Z) : Message :=
  mkMessage CauseThreshold ClassClock subjectKind subjectKey instant None None headline.

Definition DeclaredInput (sourceKey headline : string) (instant : Z) : Message :=
  mkMessage CauseDeclaredInput ClassCoverage "source" sourceKey instant None None headline.

Definition signalEdgeHeadline (subjectKey rule : string) (moved : list string) : string :=
  (subjectKey +:+ " · " +:+ String.concat ", " moved +:+ " moved · " +:+ rule +:+ " now fired")%string.

Definition SignalEdge (subjectKind subjectKey rule : string) (moved : list string) (instant : Z) : Message :=
  mkMessage CauseDrift (ClassForCause CauseDrift) subjectKind subjectKey instant None None
    (signalEdgeHeadline subjectKey rule moved).

Definition facetMoveHeadline (subjectKey : string) (facets : list string) (c : Census) : string :=
  (subjectKey +:+ " · " +:+ String.concat ", " facets +:+ " moved" +:+ rulesOpenedClause c)%string.

Definition FacetMove (subjectKind subjectKey : string) (facets : list string) (c : Census) (instant : Z)
    : option Message :=
  if (length (Rules c) =? 0)%nat then None
  else Some (mkMessage CauseDrift ClassDrift subjectKind subjectKey instant (Some c) None
               (facetMoveHeadline subjectKey facets c)).

(** *** Reach *)

Definition ClassInternet : string := "internet".
Definition ClassInternal : string := "internal".
Definition NotReached : string := "not-reached".
Definition Reached : string := "reached".

Record ReachMove := mkReachMove {
  rm_ServiceKey : string;
  rm_Class : string;
  rm_From : string;
  rm_To : string;
  rm_Opened : bool
}.

Definition flagshipHeadline (serviceKey : string) (c : Census) : string :=
  (serviceKey +:+ " reached from the internet · " +:+ plural (Census_Len (Facets c)) "facet" "facets" +:+
   " opened beneath it" +:+ rulesOpenedClause c)%string.

Definition Flagship (m : ReachMove) (c : Census) (instant : Z) : option Message :=
  if negb (String.eqb (rm_Class m) ClassInternet) then None
  else if rm_Opened m then None
  else if negb (String.eqb (rm_From m) NotReached) || negb (String.eqb (rm_To m) Reached) then None
  else Some (mkMessage CauseDrift ClassDrift "service" (rm_ServiceKey m) instant (Some c) None
               (flagshipHeadline (rm_ServiceKey m) c)).

(** *** Moves within the estate *)

Definition rePointHeadline (nameKey : string) (c : Census) : string :=
  (nameKey +:+ " re-pointed within the estate · " +:+ factorsClause (kindCountFactors c) +:+
   plural (Census_Len c) "timeline" "timelines" +:+ " opened on an address it now cites")%string.

Definition RePoint (nameKey : string) (c : Census) (instant : Z) : option Message :=
  if Census_Len c =? 0 then None
  else Some (mkMessage CauseDrift (ClassForCause CauseDrift) "name" nameKey instant (Some c) None
               (rePointHeadline nameKey c)).

(** *** Narrowings: the receipt of an act and its message *)

Definition narrowingHeadline (scope removed : string) (subjects timelines : Z) : string :=
  (scope +:+ " narrowed · " +:+ removed +:+ " excluded · " +:+ plural subjects "subject" "subjects" +:+
   " withdrawn · " +:+ plural timelines "timeline" "timelines" +:+ " taken out of the estate")%string.

Definition seedWithdrawalHeadline (scope : string) (subjects timelines : Z) : string :=
  (scope +:+ " withdrawn · " +:+ plural subjects "subject" "subjects" +:+ " withdrawn · " +:+
   plural timelines "timeline" "timelines" +:+ " taken out of the estate")%string.

Definition narrowingLoss (removed : string) : string :=
  ("A listener answering inside " +:+ removed +:+
   " after this act is not seen, and no later message names it.")%string.

Record NarrowingReceipt := mkReceipt {
  nr_Scope : string;
  nr_Removed : string;
  nr_SubjectsWithdrawn : Z;
  nr_TimelinesRemoved : Z;
  nr_Fires : bool;
  nr_Headline : string;
  nr_Loss : string
}.

Definition PreviewNarrowing (scope removed : string) (subjects timelines : Z) : NarrowingReceipt :=
  let fires := 0 <? subjects in
  mkReceipt scope removed subjects timelines fires
    (if fires then narrowingHeadline scope removed subjects timelines else "")
    (if fires then narrowingLoss removed else "").

Definition PreviewSeedWithdrawal (scope : string) (subjects timelines : Z) : NarrowingReceipt :=
  let fires := 0 <? subjects in
  mkReceipt scope scope subjects timelines fires
    (if fires then seedWithdrawalHeadline scope subjects timelines else "")
    (if fires then narrowingLoss scope else "").

Definition Narrowing (r : NarrowingReceipt) (seedKey : string) (instant : Z) : option Message :=
  if negb (nr_Fires r) then None
  else Some (mkMessage CauseAperture ClassCoverage "seed" seedKey instant None None (nr_Headline r)).

(** *** Widenings *)

Record ExtensionGain := mkGain { eg_Address : string; eg_Names : list string }.

Definition extensionGainHeadline (scope : string) (c : Census) (covered : Z) : string :=
  (scope +:+ " custody extension gained " +:+ plural (Census_Len c) "address" "addresses" +:+ ": " +:+
   String.concat ", " (map Label c) +:+ " · " +:+ plural covered "address" "addresses" +:+ " covered")%string.

Definition ExtensionGained (scope : string) (gains : list ExtensionGain) (covered instant : Z) : option Message :=
  match gains with
  | [] => None
  | _ =>
      let c := NewCensus (map (λ g, mkEntry KindAddress (eg_Address g)
                                      (String.concat ", " (sort_strings (eg_Names g)))) gains) in
      Some (mkMessage CauseAperture (ClassForCause CauseAperture) "seed" scope instant (Some c) None
              (extensionGainHeadline scope c covered))
  end.

Definition scopeRevealedHeadline (scope : string) (c : Census) : string :=
  (scope +:+ " · declared address scope · " +:+ factorsClause (kindCountFactors c) +:+
   plural (Census_Len c) "timeline" "timelines" +:+ " opened on ground no name cites")%string.

Definition ScopeRevealed (scope : string) (c : Census) (instant : Z) : option Message :=
  if String.eqb scope "" || (Census_Len c =? 0) then None
  else Some (mkMessage CauseAperture (ClassForCause CauseAperture) "seed" scope instant (Some c) None
               (scopeRevealedHeadline scope c)).

Definition rebaselineHeadline (derivation : string) (moved : list string) (membershipLeaf : bool) : string :=
  let head := (derivation +:+ " derivation moved · " +:+
               plural (Z.of_nat (length moved)) "leaf" "leaves" +:+ " moved: " +:+
               String.concat ", " moved +:+ " · earlier values are not compared")%string in
  if negb membershipLeaf then head
  else (head +:+ " · a return reads appeared until a subject withdraws and returns under this vector")%string.

Definition Rebaseline (derivation : string) (moved : list string) (membershipLeaf : bool) (instant : Z)
    : option Message :=
  match moved with
  | [] => None
  | _ =>
      let c := NewCensus (map (λ leaf, mkEntry "leaf" leaf "") moved) in
      Some (mkMessage CauseAperture (ClassForCause CauseAperture) "derivation" derivation instant (Some c) None
              (rebaselineHeadline derivation moved membershipLeaf))
  end.

Definition KindVantageClass : string := "vantage-class".

(** [rune(class[0])] of a byte above 127 is no vowel. *)
Definition article (class : string) : string :=
  match class with
  | "" => "a"
  | String c _ => if bool_decide (c ∈ ["a"%char; "e"%char; "i"%char; "o"%char; "u"%char]) then "an" else "a"
  end.

Definition tally (c : Census) : gmap string Z :=
  foldl (λ m e, <[ce_Detail e := default 0 (m !! ce_Detail e) + 1]> m) ∅ c.

Definition exposureTally (c : Census) : string :=
  let byValue := tally c in
  String.concat ", "
    (map (λ v, (group (default 0 (byValue !! v)) +:+ " " +:+ v)%string) (sorted_keys (dom byValue))).

Definition vantageClassHeadline (class : string) (c : Census) : string :=
  let head := (article class +:+ " " +:+ class +:+ " vantage is now configured")%string in
  if Census_Len c =? 0 then (head +:+ " · no Exposure timeline opened")%string
  else (head +:+ " · " +:+ plural (Census_Len c) "Exposure timeline" "Exposure timelines" +:+ " opened · " +:+
        exposureTally c)%string.

Definition VantageClassWidened (class : string) (started : list CensusEntry) (instant : Z) : option Message :=
  if String.eqb class "" then None
  else
    let c := NewCensus started in
    Some (mkMessage CauseAperture (ClassForCause CauseAperture) KindVantageClass class instant (Some c) None
            (vantageClassHeadline class c)).

(** *** A gap that closes *)

Record GapClosure := mkGapClosure {
  gc_Kind : string;
  gc_Key : string;
  gc_Facet : string;
  gc_Before : string;
  gc_After : string;
  gc_Broke : bool
}.

Record gap_subject := mkGapSubject {
  gs_kind : string;
  gs_key : string;
  gs_pairs : list string;
  gs_noEarlierValue : bool;
  gs_broke : bool
}.

Definition gap_note (c : GapClosure) (s : gap_subject) : gap_subject :=
  if gc_Broke c then mkGapSubject (gs_kind s) (gs_key s) (gs_pairs s) (gs_noEarlierValue s) true
  else if String.eqb (gc_Before c) ""
  then mkGapSubject (gs_kind s) (gs_key s) (gs_pairs s) true (gs_broke s)
  else if negb (String.eqb (gc_Before c) (gc_After c))
  then mkGapSubject (gs_kind s) (gs_key s)
         (gs_pairs s ++ [(gc_Facet c +:+ " " +:+ gc_Before c +:+ " → " +:+ gc_After c)%string])
         (gs_noEarlierValue s) (gs_broke s)
  else s.

(** The map of Go holds the position of the subject in the list. *)
Fixpoint gap_step (subjects : list gap_subject) (c : GapClosure) : list gap_subject :=
  match subjects with
  | [] => [gap_note c (mkGapSubject (gc_Kind c) (gc_Key c) [] false false)]
  | s :: rest =>
      if String.eqb (gs_kind s) (gc_Kind c) && String.eqb (gs_key s) (gc_Key c)
      then gap_note c s :: rest
      else s :: gap_step rest c
  end.

Definition gap_subjects (closures : list GapClosure) : list gap_subject := foldl gap_step [] closures.

Definition gs_differs (s : gap_subject) : bool := negb (length (gs_pairs s) =? 0)%nat.

Definition gap_entry (s : gap_subject) : CensusEntry :=
  mkEntry (gs_kind s) (gs_key s)
    (if gs_differs s then String.concat "; " (sort_strings (gs_pairs s)) else "").

Definition rule_step (st : gset (string * string) * list CensusEntry) (r : CensusEntry)
    : gset (string * string) * list CensusEntry :=
  let '(seen, out) := st in
  if bool_decide ((ce_Key r, ce_Detail r) ∈ seen) then st
  else ({[ (ce_Key r, ce_Detail r) ]} ∪ seen, out ++ [r]).

Definition gapClosedHeadline (scope : string) (timelines subjects : Z) (differ : list string)
    (noEarlierValue broke : Z) (c : Census) : string :=
  (scope +:+ " · sight restored on " +:+ plural timelines "timeline" "timelines" +:+ " across " +:+
   plural subjects "subject" "subjects" +:+
   (match differ with
    | [] => " · none differs from the last value seen"
    | _ => (" · " +:+ plural (Z.of_nat (length differ)) "differs" "differ" +:+
            " from the last value seen: " +:+ String.concat ", " differ)%string
    end) +:+
   (if (0 <? noEarlierValue)%Z then (" · " +:+ plural noEarlierValue "has" "have" +:+ " no earlier value")%string
    else "") +:+
   (if (0 <? broke)%Z then (" · " +:+ plural broke "is" "are" +:+ " not compared across a derivation move")%string
    else "") +:+
   rulesOpenedClause c)%string.

(** How many subjects differ, have no earlier value, and are not compared. *)
Definition gap_differ (ss : list gap_subject) : list string :=
  sort_strings (map (λ s, Label (gap_entry s)) (filter (λ s, gs_differs s = true) ss)).
Definition gap_broke (ss : list gap_subject) : Z :=
  count_if (λ s, negb (gs_differs s) && gs_broke s) ss.
Definition gap_noEarlier (ss : list gap_subject) : Z :=
  count_if (λ s, negb (gs_differs s) && negb (gs_broke s) && gs_noEarlierValue s) ss.

Definition GapClosed (scope scopeKind : string) (closures : list GapClosure) (rules : list CensusEntry)
    (instant : Z) : option Message :=
  match closures with
  | [] => None
  | _ =>
      let ss := gap_subjects closures in
      let c := NewCensus (map gap_entry ss ++ (foldl rule_step (∅, []) rules).2) in
      Some (mkMessage CauseAperture (ClassForCause CauseAperture) scopeKind scope instant (Some c) None
              (gapClosedHeadline scope (Z.of_nat (length closures)) (Z.of_nat (length ss)) (gap_differ ss)
                 (gap_noEarlier ss) (gap_broke ss) c))
  end.

(** *** A clock's edge *)

(** [t.UTC().Format("2006-01-02")]. *)
Definition clockDate (t : Z) : string :=
  let c := civil (day_of t) in
  (pad_int 4 (Year c) +:+ "-" +:+ pad_int 2 (Month c) +:+ "-" +:+ pad_int 2 (DayOfMonth c))%string.

(** [time.Duration.Round] for a positive unit. *)
Definition Round (d m : Z) : Z :=
  let r := Z.rem d m in
  if d <? 0 then
    if - r + - r <? m then d - r
    else if d -64 m -64 r <? d then d -64 m -64 r else minInt64
  else if r + r <? m then d - r
  else if d <? d +64 m -64 r then d +64 m -64 r else maxInt64.

Definition horizonLabel (d : Z) : string :=
  if Z.rem d (24 * Hour) =? 0 then (FormatInt (d ÷ (24 * Hour)) +:+ "-day")%string
  else (FormatInt (Round d Hour ÷ Hour) +:+ "-hour")%string.

Definition clockEdgeHeadline (subjectKey rule : string) (notBefore notAfter : Z) : string :=
  let head := (subjectKey +:+ " · no measurement moved · " +:+ rule +:+ " now fired")%string in
  if String.eqb rule "certificate-expired"
  then (head +:+ " · not_after " +:+ clockDate notAfter +:+ " has passed")%string
  else if String.eqb rule "certificate-expiring" then
    let '(horizon, ok) := CertHorizon notBefore notAfter in
    if negb ok then head
    else (head +:+ " · not_after " +:+ clockDate notAfter +:+ " is inside the " +:+ horizonLabel horizon +:+
          " horizon")%string
  else if String.eqb rule "certificate-not-yet-valid"
  then (head +:+ " · not_before " +:+ clockDate notBefore +:+ " has not arrived")%string
  else head.

Definition ClockEdge (subjectKind subjectKey rule : string) (notBefore notAfter instant : Z) : Message :=
  Threshold subjectKind subjectKey (clockEdgeHeadline subjectKey rule notBefore notAfter) instant.

(** ** The delivered report *)

Record ArtifactStat := mkStat {
  as_Label : string; as_Value : string; as_Delta : string; as_DeltaTone : string; as_Caption : string
}.
Record ArtifactChange := mkArtChange { ac_Change : string; ac_Subject : string; ac_Detail : string }.
Record ArtifactSeverityCount := mkSevCount { av_Level : string; av_Count : Z }.
Record ArtifactSignal := mkArtSignal {
  ai_Severity : string; ai_Signal : string; ai_Asset : string; ai_Raised : string
}.

Record Artifact := mkArtifact {
  ar_Title : string;
  ar_Org : string;
  ar_PeriodStart : string;
  ar_PeriodEnd : string;
  ar_DeliveryNo : Z;
  ar_GeneratedAt : string;
  ar_Version : string;
  ar_Format : string;
  ar_Stats : list ArtifactStat;
  ar_SeverityCounts : list ArtifactSeverityCount;
  ar_Signals : list ArtifactSignal;
  ar_Withdrawn : list ArtifactChange;
  ar_Delivered : string;
  ar_ChannelHost : string
}.

Definition nilp {A} (l : list A) : bool := (length l =? 0)%nat.

Definition Artifact_Empty (a : Artifact) : bool :=
  nilp (ar_Stats a) && nilp (ar_SeverityCounts a) && nilp (ar_Signals a) && nilp (ar_Withdrawn a).

Definition artifactSevLevels : list string := ["critical"; "high"; "medium"; "low"; "info"].

Definition normSev (level : string) : string :=
  match List.find (λ l, String.eqb l level) artifactSevLevels with Some l => l | None => "info" end.

(** The levels are ASCII. *)
Definition upper_byte (c : ascii) : ascii := if is_lower c then byte_of (code c - 32) else c.

Definition sevTitle (level : string) : string :=
  match normSev level with
  | "" => ""
  | String c rest => String (upper_byte c) rest
  end.

Definition artifactProvenance (a : Artifact) : string :=
  String.concat " · "
    ((if String.eqb (ar_GeneratedAt a) "" then [] else [("generated " +:+ ar_GeneratedAt a)%string]) ++
     (if String.eqb (ar_Version a) "" then [] else [ar_Version a])).

Definition artifactReceipt (a : Artifact) : string :=
  if String.eqb (ar_Delivered a) "" then "not delivered"
  else
    ("delivered " +:+ ar_Delivered a +:+
     (if String.eqb (ar_ChannelHost a) "" then "" else " · " +:+ ar_ChannelHost a))%string.

Definition changeFamily (change : string) : string :=
  if bool_decide (change ∈ ["appeared"; "returned"; "revealed"]%string) then "gain"
  else if bool_decide (change ∈ ["withdrawn"; "descoped"]%string) then "loss"
  else "change".

Definition orDash (s : string) : string := if String.eqb (TrimSpace s) "" then "—" else s.

Definition artifactPeriod (a : Artifact) : string :=
  let line :=
    if negb (String.eqb (ar_PeriodStart a) "") && negb (String.eqb (ar_PeriodEnd a) "")
    then (ar_PeriodStart a +:+ " → " +:+ ar_PeriodEnd a)%string
    else if negb (String.eqb (ar_PeriodEnd a) "") then ar_PeriodEnd a
    else "" in
  if 0 <? ar_DeliveryNo a
  then (line +:+ (if String.eqb line "" then "" else " · ") +:+ "delivery #" +:+ FormatInt (ar_DeliveryNo a))%string
  else line.

Definition deltaDir (delta : string) : string :=
  let d := TrimSpace delta in
  if HasPrefix d "+" then "up"
  else if HasPrefix d "-" || HasPrefix d "−" then "down"
  else "".

Inductive artifactPDFItem :=
  | roleTitle (text : string)
  | roleMeta (text : string)
  | roleTag (text : string)
  | roleEyebrow (text : string)
  | roleStatValue (text delta deltaTone : string)
  | roleCaption (text : string)
  | roleSeverityBar (level : string) (count : Z)
  | roleSignal (signal : ArtifactSignal)
  | roleChange (change : ArtifactChange)
  | roleNote (text : string)
  | roleEmptyHead (text : string)
  | roleEmptyBody (text : string).

Definition artifactSeverityTitle : string := "Open signals by severity".
Definition artifactSignalsTitle : string := "New this week".
Definition artifactWithdrawnTitle : string := "Withdrawn by the world".
Definition artifactWithdrawnEmpty : string := "The world withdrew nothing in this period.".
Definition artifactEmptyEyebrow : string := "Nothing delivered".
Definition artifactEmptyHeadline : string := "No report has been delivered yet".
Definition artifactEmptyBody : string :=
  "A delivered report is rendered here once report scheduling lands and a schedule runs. Until then there is no delivery to view.".

Definition artifactChangeItems (title : string) (changes : list ArtifactChange) (emptyNote : string)
    : list artifactPDFItem :=
  roleEyebrow title :: (if nilp changes then [roleNote emptyNote] else map roleChange changes).

Definition stat_items (s : ArtifactStat) : list artifactPDFItem :=
  [roleEyebrow (as_Label s); roleStatValue (orDash (as_Value s)) (as_Delta s) (as_DeltaTone s)] ++
  (if String.eqb (as_Caption s) "" then [] else [roleCaption (as_Caption s)]).

Definition artifactPDFItems (a : Artifact) : list artifactPDFItem :=
  [roleTitle (orDash (ar_Org a))] ++
  (let prov := artifactProvenance a in if String.eqb prov "" then [] else [roleMeta prov]) ++
  (if String.eqb (ar_Format a) "" then [] else [roleTag (ar_Format a)]) ++
  (if Artifact_Empty a
   then [roleEyebrow artifactEmptyEyebrow; roleEmptyHead artifactEmptyHeadline; roleEmptyBody artifactEmptyBody]
   else
     flat_map stat_items (ar_Stats a) ++
     (if nilp (ar_SeverityCounts a) then []
      else roleEyebrow artifactSeverityTitle ::
           map (λ c, roleSeverityBar (normSev (av_Level c)) (av_Count c)) (ar_SeverityCounts a)) ++
     (if nilp (ar_Signals a) then [] else roleEyebrow artifactSignalsTitle :: map roleSignal (ar_Signals a)) ++
     artifactChangeItems artifactWithdrawnTitle (ar_Withdrawn a) artifactWithdrawnEmpty) ++
  [roleMeta (artifactReceipt a)].

Definition and_then (s : string) : string := if String.eqb s "" then "" else (" " +:+ s)%string.

Definition item_line (it : artifactPDFItem) : string :=
  match it with
  | roleChange c => (ac_Change c +:+ " " +:+ ac_Subject c +:+ and_then (ac_Detail c))%string
  | roleStatValue text delta _ => (text +:+ and_then delta)%string
  | roleSeverityBar _ count => FormatInt count
  | roleSignal s => (ai_Signal s +:+ and_then (ai_Asset s) +:+ and_then (ai_Raised s))%string
  | roleTitle t | roleMeta t | roleTag t | roleEyebrow t | roleCaption t | roleNote t | roleEmptyHead t
  | roleEmptyBody t => t
  end.

Definition artifactPDFStrings (a : Artifact) : list string := map item_line (artifactPDFItems a).

(** The colour an item's mark is drawn in. *)
Definition pdfSevColor (level : string) : Z * Z * Z :=
  let l := normSev level in
  if String.eqb l "critical" then (191, 54, 49)
  else if String.eqb l "high" then (160, 68, 0)
  else if String.eqb l "medium" then (141, 86, 0)
  else if String.eqb l "low" then (0, 114, 139)
  else (83, 101, 121).

Definition pdfDeltaColor (tone : string) : Z * Z * Z :=
  if String.eqb tone "good" then (5, 119, 59)
  else if String.eqb tone "bad" then (172, 49, 44)
  else (121, 116, 109).

Definition pdfChangeColor (change : string) : Z * Z * Z :=
  let f := changeFamily change in
  if String.eqb f "gain" then (111, 79, 161)
  else if String.eqb f "loss" then (86, 100, 122)
  else (149, 64, 116).

(** ** Properties *)

(** *** Grouped numbers *)

#[local] Ltac Zify.zify_post_hook ::= Z.to_euclidean_division_equations.

Lemma group_loop_app i len a b :
  group_loop i len (a +:+ b)%string =
  (group_loop i len a +:+ group_loop (i + Z.of_nat (String.length a)) len b)%string.
Proof.
  revert i. induction a as [|c a IH]; intros i; [by rewrite Z.add_0_r|].
  rewrite append_cons. cbn [group_loop String.length].
  rewrite IH. replace (i + 1 + Z.of_nat (String.length a)) with (i + Z.of_nat (S (String.length a))) by lia.
  by destruct (_ && _); rewrite !append_cons.
Qed.

Lemma group_loop_shift i len s :
  i + Z.of_nat (String.length s) ≤ len → group_loop i (len + 3) s = group_loop i len s.
Proof.
  revert i. induction s as [|c s IH]; intros i Hi; [done|]. cbn [String.length] in Hi. cbn [group_loop].
  rewrite IH by lia. rewrite !Z.rem_mod_nonneg by lia.
  replace (len + 3 - i) with (len - i + 1 * 3) by lia. by rewrite Z.mod_add.
Qed.

Lemma group_loop_short i len s :
  0 ≤ i → i + Z.of_nat (String.length s) ≤ len → len ≤ 3 → group_loop i len s = s.
Proof.
  revert i. induction s as [|c s IH]; intros i H0 Hi H3; [done|]. cbn [String.length] in Hi. cbn [group_loop].
  rewrite IH by lia. destruct (Z.ltb_spec 0 i); cbn [andb]; [|done].
  rewrite (proj2 (Z.eqb_neq _ _)); [done|]. rewrite Z.rem_mod_nonneg by lia. rewrite Z.mod_small by lia. lia.
Qed.

(** The last three digits. *)
Definition three_digits (n : Z) : string :=
  String (digit_char (n / 100 mod 10)) (String (digit_char (n / 10 mod 10)) (String (digit_char (n mod 10)) "")).

Lemma below_thousand (P : Z → bool) n :
  forallb (λ k, P (Z.of_nat k)) (seq 0 1000) = true → 0 ≤ n < 1000 → P n = true.
Proof.
  intros Hall Hn. rewrite forallb_forall in Hall. rewrite <- (Z2Nat.id n) by lia.
  apply Hall. apply in_seq. lia.
Qed.

Lemma pad_three n : 0 ≤ n < 1000 → pad_int 3 n = three_digits n.
Proof. intros Hn. apply String.eqb_eq. by apply (below_thousand (λ n, String.eqb (pad_int 3 n) (three_digits n))); [vm_compute|]. Qed.

Lemma itoa_short n : 0 ≤ n < 1000 → (String.length (itoa n) ≤ 3)%nat.
Proof. intros Hn. apply Nat.leb_le. by apply (below_thousand (λ n, (String.length (itoa n) <=? 3)%nat)); [vm_compute|]. Qed.

Lemma itoa_step n :
  10 ≤ n < 10 ^ 20 → itoa n = (itoa (n / 10) +:+ String (digit_char (n mod 10)) "")%string.
Proof.
  intros Hn. unfold itoa. rewrite (digits_of_step 10 19), (proj2 (Z.ltb_ge _ _)) by lia.
  rewrite (digits_of_more 10 18 19); [done|lia| |lia].
  assert (10 ^ 20 = 10 * 10 ^ Z.of_nat 19) as H20 by reflexivity. rewrite H20 in Hn.
  clear H20. revert Hn. generalize (10 ^ Z.of_nat 19). intros P Hn.
  split; [apply Z.div_pos; lia|apply Z.div_lt_upper_bound; lia].
Qed.

Lemma itoa_thousands n :
  1000 ≤ n < 10 ^ 20 → itoa n = (itoa (n / 1000) +:+ three_digits (n mod 1000))%string.
Proof.
  intros Hn. rewrite itoa_step by lia. rewrite (itoa_step (n / 10)) by lia. rewrite (itoa_step (n / 10 / 10)) by lia.
  rewrite <- !append_assoc. unfold three_digits. cbn [String.append].
  replace (n / 10 / 10 / 10) with (n / 1000) by lia.
  replace (n mod 1000 / 100 mod 10) with (n / 10 / 10 mod 10) by lia.
  replace (n mod 1000 / 10 mod 10) with (n / 10 mod 10) by lia.
  by replace (n mod 1000 mod 10) with (n mod 10) by lia.
Qed.

Lemma group_loop_last l n :
  0 < l → group_loop l (l + 3) (three_digits n) = ("," +:+ three_digits n)%string.
Proof.
  intros Hl. unfold three_digits. cbn [group_loop].
  rewrite (proj2 (Z.ltb_lt 0 l)), (proj2 (Z.ltb_lt 0 (l + 1))), (proj2 (Z.ltb_lt 0 (l + 1 + 1))) by lia.
  replace (l + 3 - l) with 3 by lia. replace (l + 3 - (l + 1)) with 2 by lia.
  by replace (l + 3 - (l + 1 + 1)) with 1 by lia.
Qed.

(** A count in the copy of a message is its decimal with a comma before every
    third digit from the right: below a thousand the decimal itself, above it the
    thousands, grouped, a comma and the last three digits. *)
Theorem group_thousands n :
  n < 10 ^ 20 →
  (n < 1000 → group n = FormatInt n) ∧
  (1000 ≤ n → group n = (group (n / 1000) +:+ "," +:+ pad_int 3 (n mod 1000))%string).
Proof.
  intros Hn. split; intros Hk; unfold group; [by rewrite (proj2 (Z.ltb_lt _ _))|].
  rewrite (proj2 (Z.ltb_ge _ _)) by done. unfold FormatInt. rewrite !(proj2 (Z.ltb_ge _ 0)) by lia.
  rewrite itoa_thousands by lia. set (a := itoa (n / 1000)). rewrite pad_three by lia.
  rewrite length_append. cbn [three_digits String.length]. set (l := Z.of_nat (String.length a)).
  replace (Z.of_nat (String.length a + 3)) with (l + 3) by lia.
  rewrite group_loop_app, group_loop_shift by lia. fold l.
  assert (0 < l). { subst l a. destruct (itoa (n / 1000)) eqn:E; [|cbn; lia].
    by destruct (decimal_forallb _ _ (decimal_itoa (n / 1000) ltac:(lia))) as [_ []]. }
  rewrite Z.add_0_l, group_loop_last by done. destruct (Z.ltb_spec (n / 1000) 1000) as [Hs|Hs]; [|done].
  rewrite group_loop_short; [done|lia|lia|]. pose proof (itoa_short (n / 1000) ltac:(lia)). subst l a. lia.
Qed.

Example group_ex :
  map group [0; 999; 1000; 1234567; -12345] = ["0"; "999"; "1,000"; "1,234,567"; "-12345"]%string ∧
  plural 1 "leaf" "leaves" = "1 leaf"%string ∧ plural 2500 "leaf" "leaves" = "2,500 leaves"%string.
Proof. vm_compute. auto. Qed.

(** *** Counting by key *)

#[export] Instance entry_less_weak : StrictWeak entry_less.
Proof.
  unfold entry_less. split.
  - intros x y. rewrite (String.eqb_sym (ce_Kind y)). destruct (String.eqb_spec (ce_Kind x) (ce_Kind y)); apply sw_asym.
  - intros x y z.
    destruct (String.eqb_spec (ce_Kind y) (ce_Kind x)) as [E1|N1], (String.eqb_spec (ce_Kind z) (ce_Kind y)) as [E2|N2];
      cbn [negb]; intros H1 H2.
    + rewrite (proj2 (String.eqb_eq _ _)) by congruence. cbn [negb]. by eapply sw_trans.
    + rewrite (proj2 (String.eqb_neq _ _)) by congruence. cbn [negb]. by rewrite <- E1.
    + rewrite (proj2 (String.eqb_neq _ _)) by congruence. cbn [negb]. by rewrite E2.
    + destruct (String.eqb_spec (ce_Kind z) (ce_Kind x)) as [E3|N3]; cbn [negb]; [|by eapply sw_trans].
      exfalso. apply N1. rewrite E3 in H2. by apply str_less_total.
Qed.

(** The kinds of a census in the order met, each with the number of its entries. *)
Lemma kind_counts_spec c :
  NoDup (kind_counts c).2 ∧
  (∀ k, k ∈ (kind_counts c).2 ↔ 0 < default 0 ((kind_counts c).1 !! k)) ∧
  (∀ k, default 0 ((kind_counts c).1 !! k) = count_if (λ e, String.eqb (ce_Kind e) k) c).
Proof.
  induction c as [|e c IH] using rev_ind; [split_and!; [apply NoDup_nil_2|by intros k; split; [intros []%not_elem_of_nil|]|done]|].
  unfold kind_counts in *. rewrite foldl_app. cbn [foldl].
  destruct (foldl kind_step (∅, []) c) as [m ks]. cbn [fst snd] in IH. destruct IH as (Hn & Hk & Hc).
  unfold kind_step. set (n := default 0 (m !! ce_Kind e)).
  assert (0 ≤ n). { subst n. rewrite Hc. pose proof (count_if_bounds (λ e0, String.eqb (ce_Kind e0) (ce_Kind e)) c). lia. }
  cbn [fst snd]. split_and!.
  - destruct (Z.eqb_spec n 0) as [H0|H0]; [|done]. apply NoDup_app. split; [done|].
    split; [|apply NoDup_singleton]. intros x Hx ->%list_elem_of_singleton. apply Hk in Hx. subst n. lia.
  - intros k. destruct (decide (k = ce_Kind e)) as [->|Hne].
    + rewrite lookup_insert_eq. cbn. split; [lia|]. intros _. destruct (Z.eqb_spec n 0); [set_solver|].
      apply Hk. subst n. lia.
    + rewrite lookup_insert_ne by done. rewrite <- Hk. destruct (Z.eqb_spec n 0); set_solver.
  - intros k. rewrite count_if_app, count_if_cons, count_if_nil, <- Hc.
    destruct (String.eqb_spec (ce_Kind e) k) as [<-|Hne]; [rewrite lookup_insert_eq; cbn; subst n; lia|].
    rewrite lookup_insert_ne by done. cbn. lia.
Qed.

(** The factors a headline states multiply out to nothing and add up to its
    count: each kind is named once, with the number of the census's entries of
    that kind, and the numbers sum to the census's length. *)
Theorem kindCountFactors_add_up c :
  ∃ ks, NoDup ks ∧ (∀ k, k ∈ ks ↔ ∃ e, e ∈ c ∧ ce_Kind e = k) ∧
    kindCountFactors c =
      map (λ k, plural (count_if (λ e, String.eqb (ce_Kind e) k) c) k (k +:+ "s")%string) ks ∧
    sumZ (map (λ k, count_if (λ e, String.eqb (ce_Kind e) k) c) ks) = Census_Len c.
Proof.
  pose proof (kind_counts_spec c) as (Hn & Hk & Hc). unfold kindCountFactors.
  destruct (kind_counts c) as [m ks]. cbn [fst snd] in *. exists ks.
  assert (Hin : ∀ k, k ∈ ks ↔ ∃ e, e ∈ c ∧ ce_Kind e = k).
  { intros k. rewrite Hk, Hc, count_if_pos. by setoid_rewrite String.eqb_eq. }
  split_and!; [done|done| |].
  - apply map_ext. intros k. by rewrite Hc.
  - apply sum_of_counts; [done|]. intros e He. apply Hin. by exists e.
Qed.

(** *** Routing *)

(** Everything the package builds. *)
Inductive built : Message → Prop :=
  | built_membership entry kind key seed c at_ m : Membership entry kind key seed c at_ = Some m → built m
  | built_held entry kind key seed p at_ m : HeldMembership entry kind key seed p at_ = Some m → built m
  | built_withdrawal kind key n at_ m : Withdrawal kind key n at_ = Some m → built m
  | built_threshold kind key h at_ : built (Threshold kind key h at_)
  | built_declared key h at_ : built (DeclaredInput key h at_)
  | built_edge kind key rule moved at_ : built (SignalEdge kind key rule moved at_)
  | built_facet kind key facets c at_ m : FacetMove kind key facets c at_ = Some m → built m
  | built_flagship mv c at_ m : Flagship mv c at_ = Some m → built m
  | built_repoint key c at_ m : RePoint key c at_ = Some m → built m
  | built_narrowing r key at_ m : Narrowing r key at_ = Some m → built m
  | built_gain scope gains n at_ m : ExtensionGained scope gains n at_ = Some m → built m
  | built_scope scope c at_ m : ScopeRevealed scope c at_ = Some m → built m
  | built_rebaseline d moved leaf at_ m : Rebaseline d moved leaf at_ = Some m → built m
  | built_widened class started at_ m : VantageClassWidened class started at_ = Some m → built m
  | built_gap scope kind cs rules at_ m : GapClosed scope kind cs rules at_ = Some m → built m
  | built_clock kind key rule nb na at_ : built (ClockEdge kind key rule nb na at_).

(** What a stored message owes. *)
Definition message_ok (m : Message) : Prop :=
  Cause_Valid (ms_Cause m) = true ∧ ms_Class m = ClassForCause (ms_Cause m) ∧
  (is_Some (ms_CensusPending m) → ms_Census m = None).

(** Every message is routed by what caused it: whichever firing builds it, its
    cause is one of the four, its class is the one of the cause, so a channel
    never sees coverage as drift, and a held message carries no census. *)
Theorem messages_route_by_cause m : built m → message_ok m.
Proof.
  assert (Hcase : ∀ (b : bool) (x y : option Message), (if b then x else y) = Some m →
    (x = Some m ∨ y = Some m)) by (intros []; auto).
  destruct 1 as [? ? ? ? ? ? ? E|? ? ? ? ? ? ? E|? ? ? ? ? E|? ? ? ?|? ? ?|? ? ? ? ?|? ? ? ? ? ? E|? ? ? ? E
                |? ? ? ? E|? ? ? ? E|? ? ? ? ? E|? ? ? ? E|? ? ? ? ? E|? ? ? ? E|? ? ? ? ? ? E|? ? ? ? ? ?];
    try (by split_and!; [| |intros []]).
  - unfold Membership, membership_message in E. destruct (RootFires _); [|done]. injection E as <-.
    unfold message_ok. cbn. by destruct (String.eqb entry EntryRevealed); split_and!; try intros [].
  - unfold HeldMembership, Membership, membership_message in E. destruct (RootFires _); [|done].
    cbn in E. injection E as <-. unfold message_ok. cbn. by destruct (String.eqb entry EntryRevealed).
  - unfold Withdrawal in E. destruct (RootFires _); [|done]. injection E as <-. by split_and!.
  - unfold FacetMove in E. destruct (_ =? _)%nat; [done|]. injection E as <-. by split_and!; [| |intros []].
  - unfold Flagship in E. repeat (apply Hcase in E as [E|E]; [done|]). injection E as <-. by split_and!; [| |intros []].
  - unfold RePoint in E. destruct (_ =? _); [done|]. injection E as <-. by split_and!; [| |intros []].
  - unfold Narrowing in E. destruct (negb _); [done|]. injection E as <-. by split_and!.
  - unfold ExtensionGained in E. destruct gains; [done|]. injection E as <-. by split_and!; [| |intros []].
  - unfold ScopeRevealed in E. destruct (_ || _); [done|]. injection E as <-. by split_and!; [| |intros []].
  - unfold Rebaseline in E. destruct moved; [done|]. injection E as <-. by split_and!; [| |intros []].
  - unfold VantageClassWidened in E. destruct (String.eqb _ _); [done|]. injection E as <-. by split_and!; [| |intros []].
  - unfold GapClosed in E. destruct cs; [done|]. injection E as <-. by split_and!; [| |intros []].
Qed.

(** *** Holding a census *)

(** A message held for its census and completed at its release is the message
    that would have been written at once: it is held for exactly the roots that
    fire, with the same cause, class, subject and instant, and the clause appended
    at the release makes the headline whole, to the byte. *)
Theorem held_then_released entry kind key seed c pending at_ :
  match Membership entry kind key seed c at_, HeldMembership entry kind key seed pending at_ with
  | Some m, Some h =>
      ms_CensusPending h = Some pending ∧ ms_Census h = None ∧
      m = mkMessage (ms_Cause h) (ms_Class h) (ms_SubjectKind h) (ms_FiredAt h) (ms_Instant h) (Some c) None
            (ReleasedMembershipHeadline (ms_Headline h) kind c)
  | None, None => RootFires kind = false
  | _, _ => False
  end.
Proof.
  unfold HeldMembership, Membership. destruct (RootFires kind); [|done]. cbn [negb mbind option_bind].
  by split_and!.
Qed.

(** *** A gap that closes *)

Definition closure_id (c : GapClosure) : string * string := (gc_Kind c, gc_Key c).

(** The pair a closure contributes: a value before, another after, compared. *)
Definition moved_pair (c : GapClosure) : option string :=
  if gc_Broke c || String.eqb (gc_Before c) "" || String.eqb (gc_Before c) (gc_After c) then None
  else Some (gc_Facet c +:+ " " +:+ gc_Before c +:+ " → " +:+ gc_After c)%string.

(** What all the closures say of one subject. *)
Definition gap_of (cs : list GapClosure) (id : string * string) : gap_subject :=
  let l := filter (λ c, closure_id c = id) cs in
  mkGapSubject id.1 id.2 (omap moved_pair l)
    (existsb (λ c, negb (gc_Broke c) && String.eqb (gc_Before c) "") l) (existsb gc_Broke l).

Lemma gap_of_same cs c : gap_of (cs ++ [c]) (closure_id c) = gap_note c (gap_of cs (closure_id c)).
Proof.
  unfold gap_of. rewrite filter_app, filter_cons, decide_True, filter_nil, omap_app, !existsb_snoc by done.
  unfold gap_note, moved_pair. cbn [omap list_omap gs_kind gs_key gs_pairs gs_noEarlierValue gs_broke].
  destruct (gc_Broke c); cbn [orb negb andb]; [by rewrite app_nil_r, orb_true_r, orb_false_r|].
  destruct (String.eqb (gc_Before c) ""); cbn [orb]; [by rewrite app_nil_r, orb_true_r, orb_false_r|].
  destruct (String.eqb (gc_Before c) (gc_After c)); cbn [negb]; by rewrite ?app_nil_r, !orb_false_r.
Qed.

Lemma gap_of_other cs c id : id ≠ closure_id c → gap_of (cs ++ [c]) id = gap_of cs id.
Proof.
  intros Hne. unfold gap_of. rewrite filter_app, filter_cons, decide_False, filter_nil, app_nil_r; [done|].
  congruence.
Qed.

Lemma gap_step_map cs c ids :
  NoDup ids →
  (closure_id c ∉ ids → filter (λ c', closure_id c' = closure_id c) cs = []) →
  gap_step (map (gap_of cs) ids) c =
    map (gap_of (cs ++ [c])) (if decide (closure_id c ∈ ids) then ids else ids ++ [closure_id c]).
Proof.
  intros Hn Hnew. induction ids as [|id ids IH].
  - rewrite decide_False by apply not_elem_of_nil. cbn [map gap_step app]. rewrite gap_of_same.
    unfold gap_of at 1. by rewrite Hnew by apply not_elem_of_nil.
  - apply NoDup_cons in Hn as [Hid Hn]. cbn [map gap_step gs_kind gs_key gap_of].
    destruct (decide (id = closure_id c)) as [->|Hne].
    + rewrite decide_True by left. cbn [closure_id fst snd]. rewrite !String.eqb_refl. cbn [andb map].
      rewrite gap_of_same. f_equal. apply map_ext_in. intros j Hj%list_elem_of_In. symmetry.
      apply gap_of_other. intros ->. done.
    + assert (Hb : String.eqb id.1 (gc_Kind c) && String.eqb id.2 (gc_Key c) = false).
      { apply not_true_iff_false. intros [H1%String.eqb_eq H2%String.eqb_eq]%andb_true_iff. apply Hne.
        destruct id. by cbn in *; subst. }
      rewrite Hb. rewrite IH; [|done|intros Hin; apply Hnew; by rewrite not_elem_of_cons].
      rewrite (decide_ext (closure_id c ∈ id :: ids) (closure_id c ∈ ids)).
      2: { rewrite elem_of_cons. split; [intros [?|?]; [congruence|done]|by right]. }
      by case_decide; cbn [map app]; rewrite gap_of_other.
Qed.

Lemma gap_subjects_map cs :
  ∃ ids, NoDup ids ∧ (∀ id, id ∈ ids ↔ ∃ c, c ∈ cs ∧ closure_id c = id) ∧
    gap_subjects cs = map (gap_of cs) ids.
Proof.
  induction cs as [|c cs IH] using rev_ind.
  - exists []. split_and!; [apply NoDup_nil_2| |done]. intros id. split; [by intros []%not_elem_of_nil|].
    by intros (c & []%not_elem_of_nil & _).
  - destruct IH as (ids & Hn & Hin & Hs).
    exists (if decide (closure_id c ∈ ids) then ids else ids ++ [closure_id c]). split_and!.
    + case_decide as Hd; [done|]. apply NoDup_app. split_and!; [done| |apply NoDup_singleton].
      by intros x Hx ->%list_elem_of_singleton.
    + intros id. setoid_rewrite elem_of_app. setoid_rewrite list_elem_of_singleton.
      transitivity (id ∈ ids ∨ id = closure_id c).
      { case_decide as Hd; [|set_solver]. split; [by left|]. by intros [?| ->]. }
      rewrite Hin. split; [intros [(c' & ? & ?)| ->]|intros (c' & [?| ->] & ?)]; eauto.
    + unfold gap_subjects in *. rewrite foldl_app, Hs. cbn [foldl]. apply gap_step_map; [done|].
      intros Hnew. apply filter_none. intros c' Hc' Heq. apply Hnew. apply Hin. eauto.
Qed.

(** Nothing moved: every value seen before is the value seen now. *)
Definition unmoved (s : gap_subject) : bool := negb (gs_differs s) && negb (gs_broke s) && negb (gs_noEarlierValue s).

(** The message of a closing gap accounts for every subject once: each subject
    of a closure stands once in the census with what all its closures say of it,
    and the subjects that differ, those with no earlier value, those not compared
    and those that did not move add up to the subjects stated. *)
Theorem GapClosed_accounts_for_every_subject cs :
  let ss := gap_subjects cs in
  (∃ ids, NoDup ids ∧ (∀ id, id ∈ ids ↔ ∃ c, c ∈ cs ∧ closure_id c = id) ∧ ss = map (gap_of cs) ids) ∧
  Z.of_nat (length (gap_differ ss)) + gap_noEarlier ss + gap_broke ss + count_if unmoved ss
    = Z.of_nat (length ss).
Proof.
  intros ss. split; [apply gap_subjects_map|]. unfold gap_differ, gap_noEarlier, gap_broke.
  unfold sort_strings. rewrite sort_stable_length, length_map.
  assert (Hall : Z.of_nat (length ss) = count_if (λ _, true) ss).
  { unfold count_if. by rewrite filter_all by done. }
  assert (Hd : Z.of_nat (length (filter (λ s, gs_differs s = true) ss)) = count_if (λ x, true && gs_differs x) ss).
  { unfold count_if. do 2 f_equal. apply list_filter_iff. intros x. cbn. by rewrite Is_true_true. }
  rewrite Hall, Hd, (count_if_split (λ _, true) gs_differs).
  rewrite (count_if_split (λ x, true && negb (gs_differs x)) gs_broke).
  rewrite (count_if_split (λ x, true && negb (gs_differs x) && negb (gs_broke x)) gs_noEarlierValue).
  cbn [andb]. unfold unmoved. lia.
Qed.

Definition demo_closures : list GapClosure :=
  [mkGapClosure "name" "a.example" "resolution" "1" "2" false;
   mkGapClosure "name" "b.example" "resolution" "" "3" false;
   mkGapClosure "name" "a.example" "dns-record" "x" "x" false;
   mkGapClosure "service" "192.0.2.1:443" "reachability" "r" "n" true].

Example GapClosed_ex :
  ms_Headline <$> GapClosed "example" "seed" demo_closures [mkEntry KindRule "open-port" "22"] 5 =
  Some ("example · sight restored on 4 timelines across 3 subjects · 1 differs from the last value seen: " +:+
        "a.example (resolution 1 → 2) · 1 has no earlier value · 1 is not compared across a derivation move" +:+
        " · 1 rule opened at fired: open-port (22)")%string.
Proof. vm_compute. reflexivity. Qed.

Example clock_ex :
  clockEdgeHeadline "w@192.0.2.1:443" "certificate-expiring" (TimeUnix 1767225600) (TimeUnix 1775001600) =
  "w@192.0.2.1:443 · no measurement moved · certificate-expiring now fired · not_after 2026-04-01 is inside the 30-day horizon"%string ∧
  horizonLabel (36 * Hour + 30 * Minute) = "37-hour"%string.
Proof. vm_compute. auto. Qed.
