(* ===== verification/SpanStore.v ===== *)
(** * The fold over the store

    [queue/spanfold.go], [reentry.go], [availability.go] and the reads of
    [gapclose.go] that the fold makes: completed batches folded into the table of
    spans, one observation at a time.  The table is a list of rows in the order
    of their ids.  An error of the database abandons the transaction and is not
    modelled; [None] is a panic. *)

From S2P Require Import Prelude GoTime GoStr NetIP Message Drift Estate SubjectScope.

(** ** Values *)

(** [encoding/json] on a facet's value and on the columns that hold one:
    [json_render b] is [Marshal] of what [Unmarshal] reads from [b]; the members
    read are empty when the value has none; [jsonb] is how the column of type
    [jsonb] gives a value back. *)
Class JSONData := {
  json_render : string → option string;
  jsonb : string → string;
  json_outcome : string → string;
  json_cause : string → string
}.

(** A rendering renders to itself, [null] is one, and the column changes the
    text of a value at most, not what it renders to. *)
Class JSONDataLaws `{!JSONData} : Prop := {
  render_null : json_render "null" = Some "null"%string;
  render_idem b c : json_render b = Some c → json_render c = Some c;
  render_nonempty b c : json_render b = Some c → c ≠ "";
  render_jsonb b c : json_render b = Some c → json_render (jsonb b) = Some c ∧ jsonb b ≠ ""
}.

Definition canonicalJSON `{!JSONData} (b : string) : string :=
  if String.eqb b "" then "null" else default b (json_render b).

(** ** Facets *)

Definition subjectKindFor (facet : string) : string :=
  if String.eqb facet FacetReachability || String.eqb facet FacetTLSAcceptance then "service"
  else if String.eqb facet FacetCertificate || String.eqb facet FacetHTTPIdentity then "endpoint"
  else "name".

Definition SourceFor (facet : string) : string :=
  if String.eqb facet FacetReachability || String.eqb facet FacetCertificate ||
     String.eqb facet FacetHTTPIdentity || String.eqb facet FacetTLSAcceptance
  then "prober" else "resolver".

Definition facetVector (facet : string) : Vector :=
  if String.eqb facet FacetReachability then
    NewVector [mkComponent "connect-outcome" "connect-outcome/v4";
               mkComponent "blanket-discrimination" "blanket-discrimination/v1"]
  else if String.eqb facet FacetCertificate then NewVector [mkComponent "tls-handshake" "tls-handshake/v5"]
  else if String.eqb facet FacetHTTPIdentity then NewVector [mkComponent "http-exchange" "http-exchange/v5"]
  else if String.eqb facet FacetTLSAcceptance then NewVector [mkComponent "tls-acceptance" "tls-acceptance/v1"]
  else NewVector [mkComponent "resolution-walk" "resolution-walk/v1";
                  mkComponent "wildcard-discrimination" "wildcard-discrimination/v2"].

Definition GapOutcome : string := "gap".
Definition outageGapCause : string := "vantage-unavailable".

Section Values.
Context `{!JSONData}.

Definition isGapValue (facet data : string) : bool :=
  if String.eqb facet FacetResolution then String.eqb (json_outcome data) OutcomeGap
  else if String.eqb facet FacetReachability then String.eqb (json_outcome data) GapOutcome
  else false.

Definition isOutageGap (open : option Span) : bool :=
  match open with
  | None => false
  | Some o => sp_IsGap o && String.eqb (json_cause (sp_Value o)) outageGapCause
  end.
End Values.

(** ** The availability of a vantage *)

Inductive availabilityAction := availabilityUnchanged | availabilityAvailable | availabilityUnavailable.

Definition resolutionwalkKind : string := "resolution-walk".
Definition outcomeCompleted : string := "completed".
Definition outcomeDeadLettered : string := "dead-lettered".
Definition availabilityUnavailableValue : string := "unavailable".

Definition availabilityAfterOutcome (vantageValid : bool) (kind outcome : string) : availabilityAction :=
  if negb vantageValid || negb (String.eqb kind resolutionwalkKind) then availabilityUnchanged
  else if String.eqb outcome outcomeCompleted then availabilityAvailable
  else if String.eqb outcome outcomeDeadLettered then availabilityUnavailable
  else availabilityUnchanged.

Definition recoveredFacets (kind : string) : list string :=
  if String.eqb kind resolutionwalkKind then [FacetResolution; FacetDNSRecord] else [].

Definition outageSurvives (kind : string) : bool :=
  match availabilityAfterOutcome true kind outcomeCompleted with
  | availabilityAvailable => false
  | _ => true
  end.

(** [v] is the vantage's column, null as empty. *)
Definition availabilityForFold (vantageID : option Z) (kind : string) (column : string) : string :=
  if bool_decide (vantageID = None) || negb (outageSurvives kind) then "" else column.

Definition outageStands (availability kind : string) : bool :=
  String.eqb availability availabilityUnavailableValue && outageSurvives kind.

(** ** The table of spans *)

Record span_row := mkRow {
  sr_ID : Z;
  sr_SubjectKind : string;
  sr_SubjectKey : string;
  sr_Facet : string;
  sr_Discriminator : string;
  sr_VantageID : option Z;
  sr_Source : string;
  sr_Value : string;
  sr_IsGap : bool;
  sr_Derivation : Vector;
  sr_OpenedAt : Z;
  sr_ClosedAt : option Z;
  sr_Reason : string;
  sr_OpenedBatch : Z;
  sr_ClosedBatch : option Z;
  sr_Aperture : bool
}.

(** What tells one timeline from another. *)
Record timeline := mkTimeline {
  tl_Subject : string;
  tl_Facet : string;
  tl_Discriminator : string;
  tl_VantageID : option Z;
  tl_Source : string
}.

#[export] Instance timeline_eq : EqDecision timeline.
Proof. solve_decision. Defined.

Definition row_timeline (r : span_row) : timeline :=
  mkTimeline (sr_SubjectKey r) (sr_Facet r) (sr_Discriminator r) (sr_VantageID r) (sr_Source r).

Definition row_open (r : span_row) : bool := bool_decide (sr_ClosedAt r = None).

Record spans := mkSpans { st_rows : list span_row; st_next : Z }.

Definition GetOpenSpan (t : timeline) (s : spans) : option span_row :=
  List.find (λ r, row_open r && bool_decide (row_timeline r = t)) (st_rows s).

Definition close_row (at_ : Z) (reason : string) (batch id : Z) (r : span_row) : span_row :=
  if (sr_ID r =? id) && row_open r then
    mkRow (sr_ID r) (sr_SubjectKind r) (sr_SubjectKey r) (sr_Facet r) (sr_Discriminator r) (sr_VantageID r)
      (sr_Source r) (sr_Value r) (sr_IsGap r) (sr_Derivation r) (sr_OpenedAt r) (Some at_) reason
      (sr_OpenedBatch r) (Some batch) (sr_Aperture r)
  else r.

Definition CloseSpan (at_ : Z) (reason : string) (batch id : Z) (s : spans) : spans :=
  mkSpans (map (close_row at_ reason batch id) (st_rows s)) (st_next s).

Definition OpenSpan (mk : Z → span_row) (s : spans) : spans :=
  mkSpans (st_rows s ++ [mk (st_next s)]) (st_next s + 1).

(** The order of the query is by timeline and time; the reads of it below do not
    depend on the order. *)
Definition ListSpansForSubject (kind key : string) (s : spans) : list span_row :=
  filter (λ r, sr_SubjectKind r = kind ∧ sr_SubjectKey r = key) (st_rows s).

(** ** Reads of a subject's history *)

(** The later of two rows by the instant and then the id. *)
Definition later_row (at_ : span_row → Z) (best : option span_row) (r : span_row) : option span_row :=
  match best with
  | None => Some r
  | Some b => if After (at_ r) (at_ b) || (TimeEqual (at_ r) (at_ b) && (sr_ID b <? sr_ID r)) then Some r else best
  end.

Definition closed_at (r : span_row) : Z := default zeroTime (sr_ClosedAt r).

Definition latest_row (at_ : span_row → Z) (rows : list span_row) : option span_row :=
  foldl (later_row at_) None rows.

Definition sameTimeline (a b : span_row) : bool :=
  String.eqb (sr_Facet a) (sr_Facet b) && String.eqb (sr_Discriminator a) (sr_Discriminator b) &&
  bool_decide (sr_VantageID a = sr_VantageID b) && String.eqb (sr_Source a) (sr_Source b).

Definition timelinePredecessor (rows : list span_row) (w : span_row) : option span_row :=
  latest_row sr_OpenedAt
    (filter (λ p, sr_ID p ≠ sr_ID w ∧ row_open p = false ∧ sameTimeline p w = true ∧
                  (After (sr_OpenedAt p) (sr_OpenedAt w) ||
                   (TimeEqual (sr_OpenedAt p) (sr_OpenedAt w) && (sr_ID w <? sr_ID p))) = false) rows).

(** [vectorFromJSON] of the column. *)
Definition row_vector (r : span_row) : Vector := NewVector (sr_Derivation r).

(** The panic of [Vector.Equal] is carried through the loop. *)
Fixpoint witness_loop (rows ws : list span_row) (broke : bool) : option bool :=
  match ws with
  | [] => Some broke
  | w :: ws' =>
      if negb (String.eqb (sr_Facet w) FacetResolution) || negb (row_open w) then witness_loop rows ws' broke
      else
        match timelinePredecessor rows w with
        | None => witness_loop rows ws' broke
        | Some pred =>
            eq ← Vector_Equal (row_vector pred) (row_vector w);
            witness_loop rows ws' (broke || negb eq)
        end
  end.

Definition reEntryInputs (rows : list span_row) : option (option Span * bool) :=
  let latest := latest_row closed_at
    (filter (λ r, sr_Facet r = FacetResolution ∧ row_open r = false) rows) in
  let prior :=
    r ← latest;
    if ClosureReason_Valid (sr_Reason r)
    then Some (mkSpan zeroKey (sr_Value r) (sr_IsGap r) (row_vector r) (sr_OpenedAt r) (closed_at r) (sr_Reason r))
    else None in
  broke ← witness_loop rows rows false;
  Some (prior, broke).

(** The pair across a gap: the last closed value of the timeline and whether a
    break lies between. *)
Definition lastValueBeforeGap `{!JSONData} (rows : list span_row) (t : timeline) (vector : Vector)
    : option (option string * bool) :=
  match latest_row closed_at
          (filter (λ r, sr_IsGap r = false ∧ row_open r = false ∧ sr_Facet r = tl_Facet t ∧
                        sr_Discriminator r = tl_Discriminator t ∧ sr_Source r = tl_Source t ∧
                        sr_VantageID r = tl_VantageID t) rows) with
  | None => Some (None, false)
  | Some latest =>
      eq ← Vector_Equal (row_vector latest) vector;
      if negb eq then Some (None, true) else Some (Some (canonicalJSON (sr_Value latest)), false)
  end.

(** ** The fold *)

(** What a fold reports of a timeline it moved. *)
Record spanChange := mkChange {
  ch_Kind : string;
  ch_Timeline : timeline;
  ch_Opened : bool;
  ch_Aperture : bool;
  ch_Value : string;
  ch_Previous : string;
  ch_IsGap : bool;
  ch_PrevIsGap : bool;
  ch_BeforeGap : option string;
  ch_BrokeAcrossGap : bool;
  ch_Vector : Vector;
  ch_PrevVector : Vector;
  ch_PriorClosure : option Span;
  ch_WitnessBroke : bool
}.

Definition obs_timeline (vid : option Z) (o : Observation) : timeline :=
  mkTimeline (ob_Subject o) (ob_Facet o) (ob_Discriminator o) vid (SourceFor (ob_Facet o)).

Definition timeline_key (t : timeline) : TimelineKey :=
  mkKey (subjectKindFor (tl_Facet t)) (tl_Subject t) (tl_Facet t) (tl_Discriminator t) "" (tl_Source t).

Section FoldDefs.
Context {U : UnicodeCase} `{!JSONData}.

Definition obs_reading (at_ : Z) (o : Observation) : Reading :=
  mkReading (canonicalJSON (ob_Data o)) (isGapValue (ob_Facet o) (ob_Data o)) (facetVector (ob_Facet o)) at_.

(** The open row as the fold reads it. *)
Definition row_as_open (r : span_row) : Span :=
  mkSpan zeroKey (canonicalJSON (sr_Value r)) (sr_IsGap r) (row_vector r) zeroTime zeroTime "".

(** The two writes of a change: the open span closed, unless the instant is the
    zero one, and the new span opened. *)
Definition write_change (batch : Z) (t : timeline) (at_ closeAt : Z) (opened : Span) (aperture : bool)
    (row : option span_row) (s : spans) : spans :=
  let s := match row with
           | Some r => if negb (IsZero closeAt) then CloseSpan closeAt "" batch (sr_ID r) s else s
           | None => s
           end in
  OpenSpan (λ id, mkRow id (subjectKindFor (tl_Facet t)) (tl_Subject t) (tl_Facet t) (tl_Discriminator t)
                    (tl_VantageID t) (tl_Source t) (jsonb (sp_Value opened)) (sp_IsGap opened)
                    (sp_Vector opened) at_ None "" batch None aperture) s.

(** The change a fold reports, with the reads of the history it needs. *)
Definition report_change (t : timeline) (open : option Span) (opened : Span) (aperture : bool) (s : spans)
    : option spanChange :=
  let kind := subjectKindFor (tl_Facet t) in
  let history := ListSpansForSubject kind (tl_Subject t) s in
  let prevGap := from_option sp_IsGap false open in
  '(before, brokeGap) ←
    (if prevGap && negb (sp_IsGap opened) then lastValueBeforeGap history t (sp_Vector opened)
     else Some (None, false));
  '(prior, broke) ←
    (if bool_decide (open = None) && String.eqb (tl_Facet t) FacetResolution && RootFires kind
     then reEntryInputs history else Some (None, false));
  Some (mkChange kind t (bool_decide (open = None)) aperture (sp_Value opened)
          (from_option sp_Value "" open) (sp_IsGap opened) prevGap before brokeGap (sp_Vector opened)
          (from_option sp_Vector [] open) prior broke).

Definition foldOne (batch : Z) (vid : option Z) (at_ : Z) (inp : membershipInputs) (outage : bool)
    (o : Observation) (st : spans * list spanChange) : option (spans * list spanChange) :=
  let t := obs_timeline vid o in
  let row := GetOpenSpan t st.1 in
  let open := row_as_open <$> row in
  if outage && isOutageGap open then Some st
  else
    '(closeAt, opened, changed) ← FoldStep open (timeline_key t) (obs_reading at_ o);
    if negb changed then Some st
    else
      let aperture := bool_decide (open = None) &&
                      openedByAperture (subjectKindFor (ob_Facet o)) (ob_Subject o) inp in
      let s := write_change batch t at_ closeAt opened aperture row st.1 in
      c ← report_change t open opened aperture s;
      Some (s, st.2 ++ [c]).

(** The observations of one batch; a line with no facet is not stored. *)
Fixpoint foldObservationsIntoSpans (batch : Z) (vid : option Z) (at_ : Z) (inp : membershipInputs)
    (outage : bool) (obs : list Observation) (st : spans * list spanChange) : option (spans * list spanChange) :=
  match obs with
  | [] => Some st
  | o :: obs' =>
      if String.eqb (ob_Facet o) "" then foldObservationsIntoSpans batch vid at_ inp outage obs' st
      else st' ← foldOne batch vid at_ inp outage o st;
           foldObservationsIntoSpans batch vid at_ inp outage obs' st'
  end.
End FoldDefs.

(** The messages a re-entry gives rise to. *)

Definition membershipEntry (root : spanChange) : string :=
  let kind := match ch_PriorClosure root with
              | Some _ => ReEntryKind (ch_PriorClosure root) (ch_WitnessBroke root) (ch_Aperture root)
              | None => OpeningKind (ch_Aperture root)
              end in
  match kind with
  | KindReturned => EntryReturned
  | KindRevealed => EntryRevealed
  | _ => EntryAppeared
  end.

(** ** Properties *)

Section Table.

(** The rows of a timeline: any number closed, then at most one open, with no
    reason yet. *)
Definition shape (t : timeline) (rows cl : list span_row) (op : option span_row) : Prop :=
  filter (λ r, row_timeline r = t) rows = cl ++ option_list op ∧
  Forall (λ r, row_open r = false) cl ∧
  ∀ r, op = Some r → row_open r = true ∧ sr_Reason r = "".

(** Ids are handed out once. *)
Definition ids_ok (s : spans) : Prop :=
  NoDup (map sr_ID (st_rows s)) ∧ Forall (λ r, sr_ID r < st_next s) (st_rows s).

Lemma find_filter {A} (P : A → bool) (l : list A) : List.find P l = head (filter (λ x, P x = true) l).
Proof.
  induction l as [|x l IH]; [done|]. rewrite filter_cons. cbn [List.find].
  destruct (P x) eqn:Hx; [by rewrite decide_True|]. by rewrite decide_False.
Qed.

Lemma filter_filter_bool {A} (P : A → bool) (Q : A → Prop) `{∀ x, Decision (Q x)} (l : list A) :
  filter (λ x, P x && bool_decide (Q x) = true) l = filter (λ x, P x = true) (filter Q l).
Proof.
  induction l as [|x l IH]; [done|]. rewrite !filter_cons.
  destruct (decide (Q x)) as [HQ|HQ].
  - rewrite (bool_decide_true (Q x)), andb_true_r, filter_cons by done. destruct (P x); repeat case_decide; try done; by f_equal.
  - rewrite (bool_decide_false (Q x)), andb_false_r by done. repeat case_decide; done.
Qed.

Lemma GetOpenSpan_shape t s cl op : shape t (st_rows s) cl op → GetOpenSpan t s = op.
Proof.
  intros (Hf & Hc & Ho). unfold GetOpenSpan. rewrite find_filter.
  rewrite (filter_filter_bool row_open (λ r, row_timeline r = t)), Hf, filter_app.
  rewrite (filter_none _ cl).
  2: { intros x Hx Hopen. rewrite Forall_forall in Hc. by rewrite (Hc x Hx) in Hopen. }
  destruct op as [r|]; [|done]. cbn. rewrite decide_True; [done|]. by apply Ho.
Qed.

Lemma close_row_timeline at_ reason b id r : row_timeline (close_row at_ reason b id r) = row_timeline r.
Proof. unfold close_row. by destruct (_ && _). Qed.

Lemma close_row_id at_ reason b id r : sr_ID (close_row at_ reason b id r) = sr_ID r.
Proof. unfold close_row. by destruct (_ && _). Qed.

Lemma filter_close t at_ reason b id rows :
  filter (λ r, row_timeline r = t) (map (close_row at_ reason b id) rows) =
  map (close_row at_ reason b id) (filter (λ r, row_timeline r = t) rows).
Proof.
  induction rows as [|r rows IH]; [done|]. cbn [map]. rewrite !filter_cons, close_row_timeline.
  case_decide; cbn [map]; by rewrite IH.
Qed.

Lemma close_row_closed at_ reason b id r : row_open r = false → close_row at_ reason b id r = r.
Proof. unfold close_row. intros ->. by rewrite andb_false_r. Qed.

Lemma close_row_other at_ reason b id r : sr_ID r ≠ id → close_row at_ reason b id r = r.
Proof. unfold close_row. intros Hne. by rewrite (proj2 (Z.eqb_neq _ _) Hne). Qed.

Lemma map_id_on {A} (f : A → A) l : (∀ x, x ∈ l → f x = x) → map f l = l.
Proof.
  induction l as [|x l IH]; intros H; [done|]. cbn. rewrite H by left. f_equal. apply IH.
  intros y Hy. apply H. by right.
Qed.

Lemma same_id_same_row s r r' : ids_ok s → r ∈ st_rows s → r' ∈ st_rows s → sr_ID r = sr_ID r' → r = r'.
Proof. intros [Hn _]. by apply NoDup_map_inj. Qed.
End Table.

Section Fold.
Context {U : UnicodeCase} {J : JSONData} {JL : JSONDataLaws}.

(** The rows of a timeline as the spans they stand for. *)
Definition row_span (r : span_row) : Span :=
  mkSpan (timeline_key (row_timeline r)) (canonicalJSON (sr_Value r)) (sr_IsGap r) (row_vector r)
    (sr_OpenedAt r) (default zeroTime (sr_ClosedAt r)) (sr_Reason r).

(** The store holds a timeline's spans, the closed ones and the open one. *)
Definition holds (t : timeline) (s : spans) (ss : list Span * option Span) : Prop :=
  ∃ cl op, shape t (st_rows s) cl op ∧ map row_span cl = ss.1 ∧ row_span <$> op = ss.2.

Definition new_row (batch : Z) (t : timeline) (at_ : Z) (opened : Span) (aperture : bool) (id : Z) : span_row :=
  mkRow id (subjectKindFor (tl_Facet t)) (tl_Subject t) (tl_Facet t) (tl_Discriminator t)
    (tl_VantageID t) (tl_Source t) (jsonb (sp_Value opened)) (sp_IsGap opened)
    (sp_Vector opened) at_ None "" batch None aperture.

Lemma row_timeline_new batch t at_ opened aperture id :
  row_timeline (new_row batch t at_ opened aperture id) = t.
Proof. by destruct t. Qed.

(** Closing the open row of a timeline touches no row but that one. *)
Lemma CloseSpan_rows closeAt batch t s cl r t' :
  ids_ok s → shape t (st_rows s) cl (Some r) →
  filter (λ x, row_timeline x = t') (st_rows (CloseSpan closeAt "" batch (sr_ID r) s)) =
    if decide (t' = t) then cl ++ [close_row closeAt "" batch (sr_ID r) r]
    else filter (λ x, row_timeline x = t') (st_rows s).
Proof.
  intros Hids (Hf & Hc & Ho). cbn [st_rows CloseSpan]. rewrite filter_close.
  assert (Hr : r ∈ filter (λ x, row_timeline x = t) (st_rows s)) by (rewrite Hf; apply elem_of_app; right; left).
  apply list_elem_of_filter in Hr as [Htr Hr]. case_decide as Ht.
  - subst t'. rewrite Hf, map_app. cbn. f_equal. apply map_id_on. intros x Hx.
    rewrite Forall_forall in Hc. by apply close_row_closed, Hc.
  - apply map_id_on. intros x Hx. apply list_elem_of_filter in Hx as [Htx Hx]. apply close_row_other.
    intros Heq. apply Ht. rewrite <- Htx, <- Htr. f_equal. by apply (same_id_same_row s).
Qed.

Lemma CloseSpan_ids closeAt reason batch id s : ids_ok s → ids_ok (CloseSpan closeAt reason batch id s).
Proof.
  intros [Hn Hlt]. unfold ids_ok. cbn [st_rows st_next CloseSpan]. split.
  - rewrite map_map. erewrite map_ext; [exact Hn|]. apply close_row_id.
  - apply Forall_fmap. eapply Forall_impl; [exact Hlt|]. intros r Hr. cbn. by rewrite close_row_id.
Qed.

Lemma OpenSpan_ids mk s : (∀ id, sr_ID (mk id) = id) → ids_ok s → ids_ok (OpenSpan mk s).
Proof.
  intros Hmk [Hn Hlt]. unfold ids_ok. cbn [st_rows st_next OpenSpan]. split.
  - rewrite map_app. apply NoDup_app. split; [done|]. split; [|apply NoDup_singleton].
    intros x (r & -> & Hr)%list_elem_of_fmap Hin. cbn in Hin. apply list_elem_of_singleton in Hin.
    rewrite Hmk in Hin. rewrite Forall_forall in Hlt. specialize (Hlt r Hr). lia.
  - apply Forall_app_2.
    + eapply Forall_impl; [exact Hlt|]. cbn. intros; lia.
    + constructor; [rewrite Hmk; lia|constructor].
Qed.

(** The writes of a change, seen from every timeline. *)
Lemma write_change_rows batch t at_ closeAt opened aperture op s cl t' :
  ids_ok s → shape t (st_rows s) cl op → (∀ r, op = Some r → closeAt ≠ zeroTime) →
  let s' := write_change batch t at_ closeAt opened aperture op s in
  ids_ok s' ∧
  filter (λ x, row_timeline x = t') (st_rows s') =
    if decide (t' = t)
    then cl ++ option_list ((λ r, close_row closeAt "" batch (sr_ID r) r) <$> op) ++
         [new_row batch t at_ opened aperture (st_next s)]
    else filter (λ x, row_timeline x = t') (st_rows s).
Proof.
  intros Hids Hsh Hz s'.
  set (s1 := match op with
             | Some r => if negb (IsZero closeAt) then CloseSpan closeAt "" batch (sr_ID r) s else s
             | None => s end).
  assert (Hs' : s' = OpenSpan (new_row batch t at_ opened aperture) s1) by done.
  assert (H1 : ids_ok s1 ∧ st_next s1 = st_next s ∧ filter (λ x, row_timeline x = t') (st_rows s1) =
    if decide (t' = t) then cl ++ option_list ((λ r, close_row closeAt "" batch (sr_ID r) r) <$> op)
    else filter (λ x, row_timeline x = t') (st_rows s)).
  { subst s1. destruct op as [r|].
    - unfold IsZero. rewrite (proj2 (Z.eqb_neq _ _) (Hz r eq_refl)). cbn [negb]. split; [by apply CloseSpan_ids|].
      split; [done|]. by rewrite (CloseSpan_rows closeAt batch t s cl r t').
    - split; [done|]. split; [done|]. case_decide as Ht; [|done]. subst t'. by destruct Hsh as (-> & _). }
  destruct H1 as (Hids1 & Hnext & Hrows). rewrite Hs'. split; [by apply OpenSpan_ids|].
  cbn [st_rows OpenSpan]. rewrite filter_app, Hrows, filter_cons, filter_nil, row_timeline_new, Hnext.
  destruct (decide (t' = t)) as [->|Hne].
  - by rewrite decide_True, <- app_assoc.
  - rewrite decide_False by (by intros ->). by rewrite app_nil_r.
Qed.

(** What the column of a stored value renders to. *)
Definition valid_data (data : string) : Prop := data = "" ∨ is_Some (json_render data).

Lemma canonical_stored data : valid_data data → canonicalJSON (jsonb (canonicalJSON data)) = canonicalJSON data.
Proof.
  intros Hd. assert (H : json_render (canonicalJSON data) = Some (canonicalJSON data)).
  { unfold canonicalJSON. destruct (String.eqb_spec data ""); [apply render_null|].
    destruct Hd as [|[c Hc]]; [done|]. rewrite Hc. by apply (render_idem data). }
  destruct (render_jsonb _ _ H) as [H1 H2]. unfold canonicalJSON at 1.
  by rewrite (proj2 (String.eqb_neq _ _) H2), H1.
Qed.

(** The open span the fold compares with holds what the row stands for. *)
Lemma FoldStep_content open open' key r :
  (sp_content <$> open) = (sp_content <$> open') → FoldStep open key r = FoldStep open' key r.
Proof.
  destruct open as [o|], open' as [o'|]; try done. cbn. intros [= H1 H2 H3].
  unfold FoldStep, sameSpan. by rewrite H1, H2, H3.
Qed.

Lemma FoldStep_cases open key r : (∀ o, open = Some o → normal (sp_Vector o)) →
  FoldStep open key r =
    Some (if bool_decide (sp_content <$> open = Some (rd_content r)) then (zeroTime, zeroSpan, false)
          else (if bool_decide (open = None) then zeroTime else rd_ObservedAt r, spanFromReading key r, true)).
Proof.
  intros Hn. destruct open as [o|]; cbn; [|done]. rewrite sameSpan_content by (by apply Hn).
  cbn [mbind option_bind]. destruct (decide (sp_content o = rd_content r)) as [->|Hne].
  - by rewrite (bool_decide_true (Some (rd_content r) = Some (rd_content r))), (bool_decide_true (rd_content r = rd_content r)).
  - rewrite (bool_decide_false (sp_content o = rd_content r)) by done.
    rewrite (bool_decide_false (Some (sp_content o) = Some (rd_content r))) by (by intros Heq%(inj Some)).
    done.
Qed.

Lemma row_vector_normal r : normal (row_vector r).
Proof. apply NewVector_normal. Qed.

(** The reads of the history never panic: their vectors are canonical. *)
Lemma witness_loop_total rows ws b : is_Some (witness_loop rows ws b).
Proof.
  revert b. induction ws as [|w ws IH]; intros b; cbn [witness_loop]; [done|].
  destruct (_ || _); [apply IH|]. destruct (timelinePredecessor rows w); [|apply IH].
  rewrite Vector_Equal_normal by apply row_vector_normal. cbn [mbind option_bind]. apply IH.
Qed.

Lemma report_change_total t open opened aperture s : normal (sp_Vector opened) →
  is_Some (report_change t open opened aperture s).
Proof.
  intros Hn. unfold report_change.
  set (history := ListSpansForSubject _ _ _).
  assert (H1 : is_Some (if from_option sp_IsGap false open && negb (sp_IsGap opened)
    then lastValueBeforeGap history t (sp_Vector opened) else Some (None, false))).
  { destruct (_ && _); [|done]. unfold lastValueBeforeGap. destruct (latest_row _ _); [|done].
    rewrite Vector_Equal_normal by (apply row_vector_normal || done). cbn [mbind option_bind].
    destruct (negb _); by eexists. }
  assert (H2 : is_Some (if bool_decide (open = None) && String.eqb (tl_Facet t) FacetResolution &&
    RootFires (subjectKindFor (tl_Facet t)) then reEntryInputs history else Some (None, false))).
  { destruct (bool_decide _ && _ && _); [|by eexists]. unfold reEntryInputs.
    destruct (witness_loop_total history history false) as [b ->]. by eexists. }
  destruct H1 as [[a b] ->], H2 as [[c d] ->]. by eexists.
Qed.

Lemma row_span_content r : sp_content (row_span r) = sp_content (row_as_open r).
Proof. done. Qed.

Lemma row_span_closed closeAt batch r : row_open r = true → sr_Reason r = "" →
  row_span (close_row closeAt "" batch (sr_ID r) r) = with_ClosedAt (row_span r) closeAt.
Proof. intros Ho Hr. unfold close_row. rewrite Z.eqb_refl, Ho. cbn [andb]. unfold row_span, with_ClosedAt. cbn. by rewrite Hr. Qed.

Lemma row_span_new batch vid at_ o aperture id : valid_data (ob_Data o) →
  let t := obs_timeline vid o in
  row_span (new_row batch t at_ (spanFromReading (timeline_key t) (obs_reading at_ o)) aperture id) =
  spanFromReading (timeline_key t) (obs_reading at_ o).
Proof.
  intros Hd t. unfold row_span. rewrite row_timeline_new. cbn. rewrite canonical_stored by done.
  unfold row_vector. cbn. by rewrite (NewVector_normal _).
Qed.

Lemma row_span_normal (op : option span_row) x : row_span <$> op = Some x → normal (sp_Vector x).
Proof. destruct op as [r|]; [|done]. intros [= <-]. apply row_vector_normal. Qed.

(** One observation takes one step on its timeline and none on any other. *)
Lemma foldOne_step batch vid at_ inp o s ch :
  0 < at_ → valid_data (ob_Data o) → ids_ok s → (∀ t, ∃ ss, holds t s ss) →
  ∃ s' ch', foldOne batch vid at_ inp false o (s, ch) = Some (s', ch') ∧ ids_ok s' ∧
    ∀ t ss, holds t s ss → ∃ ss', holds t s' ss' ∧
      (if decide (t = obs_timeline vid o) then fold_step_timeline (timeline_key t) ss (obs_reading at_ o)
       else Some ss) = Some ss'.
Proof.
  intros Hat Hd Hids Hall. set (t0 := obs_timeline vid o).
  destruct (Hall t0) as (ss0 & cl & op & Hsh & Hcl & Hop). unfold foldOne. cbn [fst snd]. fold t0. cbv zeta.
  rewrite (GetOpenSpan_shape t0 s cl op Hsh). cbn [andb].
  rewrite (FoldStep_content (row_as_open <$> op) (row_span <$> op)) by (by destruct op).
  assert (Hfs : ∀ ss, holds t0 s ss → ss = (map row_span cl, row_span <$> op)).
  { intros [s1 s2] (cl' & op' & Hsh' & H1 & H2). cbn in *.
    assert (op' = op) as -> by (rewrite <- (GetOpenSpan_shape t0 s cl' op' Hsh'); by apply (GetOpenSpan_shape t0 s cl)).
    destruct Hsh as (Hf & _), Hsh' as (Hf' & _). rewrite Hf in Hf'. apply app_inv_tail in Hf'. by subst. }
  rewrite FoldStep_cases by apply row_span_normal. cbn [mbind option_bind].
  destruct (decide (sp_content <$> (row_span <$> op) = Some (rd_content (obs_reading at_ o)))) as [Hsame|Hdiff].
  - rewrite bool_decide_true by done. cbn [negb]. exists s, ch. split; [done|]. split; [done|].
    intros t ss Hh. exists ss. split; [done|]. case_decide as Ht; [|done]. subst t.
    rewrite (Hfs ss Hh). unfold fold_step_timeline. cbn [snd].
    rewrite FoldStep_cases by apply row_span_normal. by rewrite bool_decide_true.
  - rewrite bool_decide_false by done. cbn [negb].
    set (opened := spanFromReading _ _). set (closeAt := if bool_decide (row_span <$> op = None) then _ else _).
    set (ap := _ && _). set (s' := write_change _ _ _ _ _ _ _ _).
    destruct (report_change_total t0 (row_as_open <$> op) opened ap s' (NewVector_normal _)) as [c Hc].
    rewrite Hc. cbn [mbind option_bind]. exists s', (ch ++ [c]). split; [done|].
    assert (Hz : ∀ r, op = Some r → closeAt ≠ zeroTime).
    { intros r ->. subst closeAt. cbn. unfold zeroTime. lia. }
    split; [by apply (write_change_rows batch t0 at_ closeAt opened ap op s cl t0)|].
    intros t ss Hh. destruct (write_change_rows batch t0 at_ closeAt opened ap op s cl t Hids Hsh Hz) as [_ Hrows].
    fold s' in Hrows. destruct (decide (t = t0)) as [->|Hne].
    + rewrite (Hfs ss Hh). unfold fold_step_timeline. cbn [fst snd].
      rewrite FoldStep_cases by apply row_span_normal.
      rewrite bool_decide_false by done. cbn [mbind option_bind]. eexists. split; [|reflexivity].
      exists (cl ++ option_list ((λ r, close_row closeAt "" batch (sr_ID r) r) <$> op)),
        (Some (new_row batch t0 at_ opened ap (st_next s))).
      destruct Hsh as (_ & Hclosed & Hopen). split; [|split].
      * split; [by rewrite Hrows, <- app_assoc|]. split; [|by intros r [= <-]].
        apply Forall_app_2; [done|]. destruct op as [r|]; cbn; constructor; [|constructor].
        unfold close_row. by rewrite Z.eqb_refl, (proj1 (Hopen r eq_refl)).
      * rewrite map_app. cbn [fst]. f_equal. destruct op as [r|]; [|done]. cbn.
        by rewrite row_span_closed by (by apply Hopen).
      * cbn. f_equal. by apply row_span_new.
    + exists ss. split; [|done]. destruct Hh as (cl' & op' & (Hf & Hshape) & H1 & H2).
      exists cl', op'. split; [|done]. split; [by rewrite Hrows|done].
Qed.

(** While an outage stands only the open spans that say so are left alone. *)
Lemma foldOne_outage batch vid at_ inp o st :
  foldOne batch vid at_ inp true o st =
    if isOutageGap (row_as_open <$> GetOpenSpan (obs_timeline vid o) st.1) then Some st
    else foldOne batch vid at_ inp false o st.
Proof. unfold foldOne. cbv zeta. cbn [andb]. by destruct (isOutageGap _). Qed.

(** A step under an outage that stands, or under none. *)
Definition outage_step (key : TimelineKey) (outage : bool) (ss : list Span * option Span) (r : Reading)
    : option (list Span * option Span) :=
  if outage && isOutageGap ss.2 then Some ss else fold_step_timeline key ss r.

Fixpoint outage_steps (key : TimelineKey) (l : list (bool * Reading)) (ss : list Span * option Span)
    : option (list Span * option Span) :=
  match l with [] => Some ss | (b, r) :: l' => outage_step key b ss r ≫= outage_steps key l' end.

Lemma outage_steps_app key l l' ss : outage_steps key (l ++ l') ss = outage_steps key l ss ≫= outage_steps key l'.
Proof.
  revert ss. induction l as [|[b r] l IH]; intros ss; [done|]. cbn [app outage_steps].
  destruct (outage_step key b ss r); cbn [mbind option_bind]; [apply IH|done].
Qed.

Lemma foldOne_step_any batch vid at_ inp outage o s ch :
  0 < at_ → valid_data (ob_Data o) → ids_ok s → (∀ t, ∃ ss, holds t s ss) →
  ∃ s' ch', foldOne batch vid at_ inp outage o (s, ch) = Some (s', ch') ∧ ids_ok s' ∧
    ∀ t ss, holds t s ss → ∃ ss', holds t s' ss' ∧
      (if decide (t = obs_timeline vid o) then outage_step (timeline_key t) outage ss (obs_reading at_ o)
       else Some ss) = Some ss'.
Proof.
  intros Hat Hd Hids Hall. destruct (foldOne_step batch vid at_ inp o s ch Hat Hd Hids Hall) as (s1 & ch1 & He & Hids1 & Hst).
  destruct outage; [|by exists s1, ch1]. rewrite foldOne_outage. cbn [fst]. set (t0 := obs_timeline vid o).
  assert (Hop : ∀ ss, holds t0 s ss → isOutageGap (row_as_open <$> GetOpenSpan t0 s) = isOutageGap ss.2).
  { intros ss (cl & op & Hsh & _ & H2). rewrite (GetOpenSpan_shape t0 s cl op Hsh), <- H2. by destruct op. }
  destruct (isOutageGap (row_as_open <$> GetOpenSpan t0 s)) eqn:Eg.
  - exists s, ch. split; [done|]. split; [done|]. intros t ss Hh. exists ss. split; [done|]. case_decide as Ht; [|done]. subst t.
    unfold outage_step. by rewrite <- (Hop ss Hh).
  - exists s1, ch1. split; [done|]. split; [done|]. intros t ss Hh. destruct (Hst t ss Hh) as (ss' & Hh' & Hs). exists ss'. split; [done|].
    fold t0 in Hs. case_decide as Ht; [|done]. subst t. unfold outage_step. by rewrite <- (Hop ss Hh).
Qed.

(** A completed batch as the fold takes it in. *)
Record batch := mkBatch {
  bt_ID : Z;
  bt_VantageID : option Z;
  bt_ObservedAt : Z;
  bt_Inputs : membershipInputs;
  bt_Outage : bool;
  bt_Obs : list Observation
}.

Definition fold_batch (b : batch) (s : spans) : option spans :=
  fst <$> foldObservationsIntoSpans (bt_ID b) (bt_VantageID b) (bt_ObservedAt b) (bt_Inputs b) (bt_Outage b)
    (bt_Obs b) (s, []).

Fixpoint ingest (bs : list batch) (s : spans) : option spans :=
  match bs with
  | [] => Some s
  | b :: bs' => s' ← fold_batch b s; ingest bs' s'
  end.

(** What a batch, and a run of batches, says of a timeline. *)
Definition batch_readings (t : timeline) (b : batch) : list Reading :=
  map (obs_reading (bt_ObservedAt b))
    (filter (λ o, ob_Facet o ≠ "" ∧ obs_timeline (bt_VantageID b) o = t) (bt_Obs b)).

Definition readings_of (t : timeline) (bs : list batch) : list Reading := flat_map (batch_readings t) bs.

(** The same, each reading with whether an outage stood over its batch. *)
Definition said_of (t : timeline) (bs : list batch) : list (bool * Reading) :=
  flat_map (λ b, map (pair (bt_Outage b)) (batch_readings t b)) bs.

(** A reading that says the vantage was out. *)
Definition outage_reading (r : Reading) : bool := rd_IsGap r && String.eqb (json_cause (rd_Value r)) outageGapCause.

(** The readings that are heard: while an outage stands, none after one that says
    so; [last] is the last one heard. *)
Fixpoint heard (last : option Reading) (l : list (bool * Reading)) : list Reading :=
  match l with
  | [] => []
  | (outage, r) :: l' => if outage && from_option outage_reading false last then heard last l' else r :: heard (Some r) l'
  end.

(** With no outage every reading is. *)
Lemma heard_all last rs : heard last (map (pair false) rs) = rs.
Proof. revert last. induction rs as [|r rs IH]; intros last; [done|]. cbn. by rewrite IH. Qed.

Lemma heard_sublist l : ∀ last, heard last l `sublist_of` map snd l.
Proof.
  induction l as [|[b r] l IH]; intros last; cbn [heard map snd]; [done|].
  destruct (_ && _); [by apply sublist_cons|by apply sublist_skip].
Qed.

Lemma said_readings t bs : map snd (said_of t bs) = readings_of t bs.
Proof.
  unfold said_of, readings_of. induction bs as [|b bs IH]; [done|]. cbn [flat_map]. rewrite map_app, IH, map_map. cbn. by rewrite map_id.
Qed.

Definition emptySpans : spans := mkSpans [] 1.

Lemma fold_steps_cons key r rs st :
  fold_steps key (r :: rs) st = fold_step_timeline key st r ≫= fold_steps key rs.
Proof.
  unfold fold_steps at 1. cbn [foldl mbind option_bind].
  destruct (fold_step_timeline key st r) as [st'|]; cbn [mbind option_bind]; [done|].
  clear. induction rs as [|r' rs IH]; [done|]. cbn [foldl mbind option_bind]. exact IH.
Qed.

Lemma fold_steps_concat key rs rs' st :
  fold_steps key (rs ++ rs') st = fold_steps key rs st ≫= fold_steps key rs'.
Proof.
  revert st. induction rs as [|r rs IH]; intros st; [done|]. cbn [app]. rewrite !fold_steps_cons.
  destruct (fold_step_timeline key st r); cbn [mbind option_bind]; [apply IH|done].
Qed.

Lemma fold_step_last key ss r ss' :
  (∀ x, ss.2 = Some x → normal (sp_Vector x)) → fold_step_timeline key ss r = Some ss' →
  sp_content <$> ss'.2 = Some (rd_content r) ∧ ∀ x, ss'.2 = Some x → normal (sp_Vector x).
Proof.
  intros Hn. unfold fold_step_timeline. rewrite FoldStep_cases by done. case_bool_decide as E; cbn [mbind option_bind]; intros [= <-]; [done|].
  cbn [snd]. split; [done|]. intros x [= <-]. apply NewVector_normal.
Qed.

(** The steps under outages are those of the readings heard. *)
Lemma outage_steps_heard key l : ∀ ss last,
  (∀ x, ss.2 = Some x → normal (sp_Vector x)) → sp_content <$> ss.2 = rd_content <$> last →
  outage_steps key l ss = fold_steps key (heard last l) ss.
Proof.
  induction l as [|[b r] l IH]; intros ss last Hn Hc; [done|]. cbn [outage_steps heard]. unfold outage_step.
  assert (isOutageGap ss.2 = from_option outage_reading false last) as ->.
  { destruct (ss.2) as [o|], last as [x|]; try done. cbn in Hc |- *. unfold sp_content, rd_content in Hc. injection Hc as H1 H2 _.
    unfold outage_reading. by rewrite H1, H2. }
  destruct (b && _); cbn [mbind option_bind]; [by apply IH|]. rewrite fold_steps_cons.
  destruct (fold_step_timeline key ss r) as [ss'|] eqn:E; cbn [mbind option_bind]; [|done].
  destruct (fold_step_last key ss r ss' Hn E). by apply IH.
Qed.

Lemma obs_step batch vid at_ inp outage obs s ch :
  0 < at_ → Forall (λ o, valid_data (ob_Data o)) obs → ids_ok s → (∀ t, ∃ ss, holds t s ss) →
  ∃ s' ch', foldObservationsIntoSpans batch vid at_ inp outage obs (s, ch) = Some (s', ch') ∧ ids_ok s' ∧
    ∀ t ss, holds t s ss → ∃ ss', holds t s' ss' ∧
      outage_steps (timeline_key t)
        (map (pair outage) (map (obs_reading at_) (filter (λ o, ob_Facet o ≠ "" ∧ obs_timeline vid o = t) obs))) ss = Some ss'.
Proof.
  intros Hat Hobs. revert s ch. induction Hobs as [|o obs Hd _ IH]; intros s ch Hids Hall.
  - exists s, ch. split; [done|]. split; [done|]. intros t ss Hh. by exists ss.
  - cbn [foldObservationsIntoSpans]. destruct (String.eqb_spec (ob_Facet o) "") as [Hf|Hf].
    + destruct (IH s ch Hids Hall) as (s' & ch' & He & Hids' & Hst). exists s', ch'. split; [done|].
      split; [done|]. intros t ss Hh. destruct (Hst t ss Hh) as (ss' & Hh' & Hfs). exists ss'. split; [done|].
      rewrite filter_cons, decide_False; [done|]. by intros [].
    + destruct (foldOne_step_any batch vid at_ inp outage o s ch Hat Hd Hids Hall) as (s1 & ch1 & He1 & Hids1 & Hst1).
      rewrite He1. cbn [mbind option_bind].
      assert (Hall1 : ∀ t, ∃ ss, holds t s1 ss).
      { intros t. destruct (Hall t) as [ss Hh]. destruct (Hst1 t ss Hh) as (ss' & Hh' & _). by exists ss'. }
      destruct (IH s1 ch1 Hids1 Hall1) as (s' & ch' & He & Hids' & Hst). exists s', ch'. split; [done|].
      split; [done|]. intros t ss Hh. destruct (Hst1 t ss Hh) as (ss1 & Hh1 & Hstep).
      destruct (Hst t ss1 Hh1) as (ss' & Hh' & Hfs). exists ss'. split; [done|].
      rewrite filter_cons. destruct (decide (t = obs_timeline vid o)) as [->|Hne].
      * rewrite decide_True by done. cbn [map outage_steps]. rewrite Hstep. exact Hfs.
      * rewrite decide_False by (intros [_ Heq]; by apply Hne). injection Hstep as ->. exact Hfs.
Qed.

Lemma ingest_step bs s :
  Forall (λ b, 0 < bt_ObservedAt b ∧ Forall (λ o, valid_data (ob_Data o)) (bt_Obs b)) bs →
  ids_ok s → (∀ t, ∃ ss, holds t s ss) →
  ∃ s', ingest bs s = Some s' ∧ ∀ t ss, holds t s ss → ∃ ss', holds t s' ss' ∧
    outage_steps (timeline_key t) (said_of t bs) ss = Some ss'.
Proof.
  intros Hbs. revert s. induction Hbs as [|b bs (Hat & Hobs) _ IH]; intros s Hids Hall.
  - exists s. split; [done|]. intros t ss Hh. by exists ss.
  - cbn [ingest]. unfold fold_batch.
    destruct (obs_step (bt_ID b) (bt_VantageID b) (bt_ObservedAt b) (bt_Inputs b) (bt_Outage b) (bt_Obs b) s [] Hat Hobs Hids Hall)
      as (s1 & ch1 & He1 & Hids1 & Hst1).
    rewrite He1. cbn [fmap option_fmap option_map fst mbind option_bind].
    assert (Hall1 : ∀ t, ∃ ss, holds t s1 ss).
    { intros t. destruct (Hall t) as [ss Hh]. destruct (Hst1 t ss Hh) as (ss' & Hh' & _). by exists ss'. }
    destruct (IH s1 Hids1 Hall1) as (s' & He & Hst). exists s'. split; [done|].
    intros t ss Hh. destruct (Hst1 t ss Hh) as (ss1 & Hh1 & Hfs1).
    destruct (Hst t ss1 Hh1) as (ss' & Hh' & Hfs). exists ss'. split; [done|].
    unfold said_of. cbn [flat_map]. rewrite outage_steps_app.
    change (outage_steps (timeline_key t) (map (pair (bt_Outage b)) (batch_readings t b)) ss = Some ss1) in Hfs1.
    rewrite Hfs1. exact Hfs.
Qed.

Lemma readings_sorted t bs :
  StronglySorted (λ a b, bt_ObservedAt a ≤ bt_ObservedAt b) bs →
  StronglySorted (not_after reading_less) (readings_of t bs).
Proof.
  assert (Hin : ∀ b r, r ∈ batch_readings t b → rd_ObservedAt r = bt_ObservedAt b).
  { intros b r (o & -> & _)%list_elem_of_fmap. done. }
  induction 1 as [|b bs Hs IH Hb]; [constructor|]. unfold readings_of. cbn [flat_map].
  assert (Happ : ∀ l, (∀ r, r ∈ l → rd_ObservedAt r = bt_ObservedAt b) →
    StronglySorted (not_after reading_less) (l ++ readings_of t bs)).
  { induction l as [|r l IHl]; intros Hl; [exact IH|]. cbn. constructor.
    - apply IHl. intros x Hx. apply Hl. by right.
    - apply Forall_forall. intros x Hx. unfold not_after, reading_less, Before. apply Z.ltb_ge.
      rewrite (Hl r) by left. apply elem_of_app in Hx as [Hx|Hx]; [rewrite (Hl x) by (by right); lia|].
      unfold readings_of in Hx. apply list_elem_of_In, in_flat_map in Hx as (b' & Hb' & Hx).
      apply list_elem_of_In in Hx, Hb'. rewrite (Hin b' x Hx). rewrite Forall_forall in Hb. by apply Hb. }
  apply Happ, Hin.
Qed.

Lemma sorted_sublist {A} (R : A → A → Prop) l k : k `sublist_of` l → StronglySorted R l → StronglySorted R k.
Proof.
  induction 1 as [|x l k Hs IH|x l k Hs IH]; [done|..]; intros [Hl Hx]%StronglySorted_inv; [|auto].
  constructor; [auto|]. rewrite Forall_forall in *. intros y Hy. apply Hx. by eapply elem_of_submseteq, sublist_submseteq.
Qed.

(** [C13] Ingest refines the fold: after any run of completed batches, in the
    order they were observed, whose data are valid JSON, the rows the store holds
    for a timeline are, in order, exactly the spans [Fold] computes from what was
    heard of that timeline, whatever else the batches said: every reading, but
    that under an outage of the vantage nothing is heard after a reading that
    says so.  And the fold of the lines never panics.  What a batch's transaction
    writes beside the spans of its lines is not of this statement. *)
Theorem ingest_refines_Fold bs :
  StronglySorted (λ a b, bt_ObservedAt a ≤ bt_ObservedAt b) bs →
  Forall (λ b, 0 < bt_ObservedAt b ∧ Forall (λ o, valid_data (ob_Data o)) (bt_Obs b)) bs →
  ∃ s, ingest bs emptySpans = Some s ∧
    ∀ t, Fold (timeline_key t) (heard None (said_of t bs)) =
      Some (map row_span (filter (λ r, row_timeline r = t) (st_rows s))).
Proof.
  intros Hsort Hbs. destruct (ingest_step bs emptySpans Hbs) as (s & He & Hst).
  { split; constructor. }
  { intros t. exists ([], None), [], None. split; [|done]. split; [done|]. split; [constructor|done]. }
  exists s. split; [done|]. intros t.
  destruct (Hst t ([], None)) as (ss & (cl & op & Hsh & H1 & H2) & Hfs).
  { exists [], None. split; [|done]. split; [done|]. split; [constructor|done]. }
  destruct Hsh as (Hf & _). rewrite Hf, map_app, H1.
  assert (Htl : map row_span (option_list op) = option_list ss.2) by (rewrite <- H2; by destruct op).
  rewrite Htl. assert (Hso : StronglySorted (not_after reading_less) (heard None (said_of t bs))).
  { eapply sorted_sublist; [apply heard_sublist|]. rewrite said_readings. by apply readings_sorted. }
  rewrite (outage_steps_heard _ _ _ None) in Hfs by done. rewrite Fold_total_eq, (sort_stable_Sorted_id _ _ Hso).
  destruct (heard None (said_of t bs)) as [|r rs]; [injection Hfs as <-; done|].
  pose proof (fold_steps_app (timeline_key t) rs [] (spanFromReading (timeline_key t) r) (NewVector_normal _)) as Hinc.
  assert (H0 : fold_step_timeline (timeline_key t) ([], None) r =
    Some ([], Some (spanFromReading (timeline_key t) r))) by done.
  rewrite fold_steps_cons, H0 in Hfs. cbn [mbind option_bind] in Hfs.
  rewrite Hfs in Hinc. cbn [fmap option_fmap option_map] in Hinc. injection Hinc as Hinc.
  unfold timeline_spans in Hinc. by rewrite Hinc.
Qed.
End Fold.

(** ** The reads of a history *)

(** The order by instant and then id. *)
Definition row_before (at_ : span_row → Z) (a b : span_row) : Prop :=
  at_ a < at_ b ∨ at_ a = at_ b ∧ sr_ID a ≤ sr_ID b.

Lemma later_row_spec at_ best r :
  ∃ b, later_row at_ best r = Some b ∧ (b = r ∨ best = Some b) ∧ row_before at_ r b ∧
    ∀ x, best = Some x → row_before at_ x b.
Proof.
  unfold later_row, After, TimeEqual, row_before. destruct best as [x|].
  - destruct (Z.ltb_spec (at_ x) (at_ r)); cbn [orb].
    { exists r. split; [done|]. split; [by left|]. split; [lia|]. intros ? [= <-]. lia. }
    destruct (Z.eqb_spec (at_ r) (at_ x)), (Z.ltb_spec (sr_ID x) (sr_ID r)); cbn [andb];
      [exists r|exists x..]; (split; [done|]); (split; [first [by left|by right]|]);
      (split; [lia|]); intros ? [= <-]; lia.
  - exists r. split; [done|]. split; [by left|]. split; [lia|done].
Qed.

(** [latest_row] picks the last of the rows in that order. *)
Lemma latest_row_spec at_ rows :
  match latest_row at_ rows with
  | None => rows = []
  | Some b => b ∈ rows ∧ ∀ x, x ∈ rows → row_before at_ x b
  end.
Proof.
  unfold latest_row. assert (H : ∀ best, match foldl (later_row at_) best rows with
    | None => rows = [] ∧ best = None
    | Some b => (b ∈ rows ∨ best = Some b) ∧ (∀ x, x ∈ rows → row_before at_ x b) ∧
                ∀ x, best = Some x → row_before at_ x b
    end).
  { induction rows as [|r rows IH]; intros best; cbn [foldl].
    - destruct best as [b|]; [|done]. split; [by right|]. split; [by intros x Hx%not_elem_of_nil|].
      intros ? [= <-]. right. lia.
    - destruct (later_row_spec at_ best r) as (b & Hb & Hin & Hr & Hbest). specialize (IH (later_row at_ best r)).
      rewrite Hb in *. destruct (foldl _ _ _) as [c|]; [|by destruct IH].
      destruct IH as (Hc & Hall & Hprev). specialize (Hprev b eq_refl).
      assert (Htr : ∀ x, row_before at_ x b → row_before at_ x c) by (unfold row_before in *; intros; lia).
      split.
      + destruct Hc as [Hc|[= ->]]; [by left; right|]. destruct Hin as [->|]; [by left; left|by right].
      + split; [|by intros x Hx; apply Htr, Hbest]. intros x [->|Hx]%elem_of_cons; [by apply Htr|by apply Hall]. }
  specialize (H None). destruct (foldl _ _ _); [|by destruct H]. destruct H as ([Hb|] & Hall & _); [done|done].
Qed.

(** A re-entry is judged by the subject's last closure: the prior span is
    the resolution row closed last, by the instant and then the id, and it counts
    only if that closure was a departure, with a reason of the estate; a closure
    by the fold itself, which has none, hides every departure before it. *)
Theorem reEntryInputs_prior `{!JSONData} rows prior broke :
  reEntryInputs rows = Some (prior, broke) →
  match prior with
  | Some p => ∃ r, r ∈ rows ∧ sr_Facet r = FacetResolution ∧ row_open r = false ∧
      ClosureReason_Valid (sr_Reason r) = true ∧ sp_Value p = sr_Value r ∧ sp_Reason p = sr_Reason r ∧
      ∀ x, x ∈ rows → sr_Facet x = FacetResolution → row_open x = false → row_before closed_at x r
  | None => ∀ r, r ∈ rows → sr_Facet r = FacetResolution → row_open r = false →
      (∀ x, x ∈ rows → sr_Facet x = FacetResolution → row_open x = false → row_before closed_at x r ) →
      NoDup (map sr_ID rows) → ClosureReason_Valid (sr_Reason r) = false
  end.
Proof.
  unfold reEntryInputs. intros (b & _ & [= <- <-])%bind_Some.
  set (F := λ r, sr_Facet r = FacetResolution ∧ row_open r = false).
  pose proof (latest_row_spec closed_at (filter F rows)) as Hl.
  destruct (latest_row closed_at (filter F rows)) as [r|]; cbn [mbind option_bind].
  - destruct Hl as [[[Hf Ho] Hin]%list_elem_of_filter Hall].
    destruct (ClosureReason_Valid (sr_Reason r)) eqn:Hv.
    + exists r. repeat split; try done. intros x Hx Hfx Hox. apply Hall, list_elem_of_filter. done.
    + intros r' Hin' Hf' Ho' Hlast Hnd.
      assert (Hrr : row_before closed_at r' r) by (apply Hall, list_elem_of_filter; done).
      specialize (Hlast r Hin Hf Ho). assert (Hid : sr_ID r = sr_ID r') by (unfold row_before in *; lia).
      assert (r = r') as <-; [|done].
      apply list_elem_of_lookup in Hin as [i Hi], Hin' as [j Hj].
      assert (i = j) as ->; [|congruence].
      eapply (NoDup_lookup _ i j (sr_ID r) Hnd); rewrite list_lookup_fmap, ?Hi, ?Hj; cbn; congruence.
  - intros r Hin Hf Ho _ _. exfalso. assert (r ∈ filter F rows) by (by apply list_elem_of_filter).
    rewrite Hl in *. by eapply not_elem_of_nil.
Qed.

(** ** An outage *)

(** A batch that could clear an outage folds through it, and no other batch does. *)
Lemma outageStands_spec availability kind :
  outageStands availability kind = true ↔ availability = availabilityUnavailableValue ∧ kind ≠ resolutionwalkKind.
Proof.
  unfold outageStands, outageSurvives, availabilityAfterOutcome. cbn [negb orb].
  destruct (String.eqb_spec availability availabilityUnavailableValue), (String.eqb_spec kind resolutionwalkKind);
    cbn; naive_solver.
Qed.

(** ** A store to try it on *)

(** Values that are their own rendering; a value names its outcome and cause. *)
#[export] Instance plain_json : JSONData :=
  Build_JSONData (λ b, if String.eqb b "" then None else Some b) (λ b, b) (λ b, b) (λ b, b).

#[export] Instance plain_jsonLaws : JSONDataLaws.
Proof.
  split; cbn; [done|..]; intros b c; destruct (String.eqb_spec b ""); try done; intros [= <-];
    by rewrite ?(proj2 (String.eqb_neq _ _)).
Qed.

Definition demo_obs (subject value : string) : Observation :=
  mkObs "resolution-walk" FacetResolution subject "" "" value.

Definition demo_batches : list batch :=
  [ mkBatch 1 (Some 1) 10 (mkInputs [] []) false [demo_obs "a.example" "192.0.2.1"; demo_obs "b.example" "192.0.2.9"];
    mkBatch 2 (Some 2) 20 (mkInputs [] []) false [demo_obs "a.example" "192.0.2.2"];
    mkBatch 3 (Some 1) 30 (mkInputs [] []) true [demo_obs "a.example" "192.0.2.1"; demo_obs "b.example" "Gap"] ].

Lemma ingest_refines_Fold_witness :
  ∃ s, ingest demo_batches emptySpans = Some s ∧
    ∀ t, Fold (timeline_key t) (heard None (said_of t demo_batches)) =
      Some (map row_span (filter (λ r, row_timeline r = t) (st_rows s))).
Proof.
  apply (ingest_refines_Fold demo_batches).
  - repeat constructor; cbn; lia.
  - repeat match goal with
    | |- Forall _ _ => constructor
    | |- _ ∧ _ => split
    | |- valid_data _ => right; eexists; reflexivity
    end; cbn; first [lia|reflexivity].
Defined.

Example demo_rows :
  (λ s, map (λ r, (sr_ID r, sr_SubjectKey r, sr_VantageID r, sr_Value r, sr_ClosedAt r)) (st_rows s)) <$>
    ingest demo_batches emptySpans =
  Some [(1, "a.example", Some 1, "192.0.2.1", None); (2, "b.example", Some 1, "192.0.2.9", Some 30);
        (3, "a.example", Some 2, "192.0.2.2", None); (4, "b.example", Some 1, "Gap", None)]%string.
Proof. vm_compute. reflexivity. Qed.
