(* ===== verification/VergeCore.v ===== *)
(** * The port list [verge-core] ([internal/vergecore])

    The daily hot tier's ports: the frequency half, which the operator edits, and
    the sensitive half, which ships with a release.  [shipped] is the text of
    [verge-core.tsv], which the program embeds. *)

From S2P Require Import Prelude GoStr NetParse NetText.

Definition TCP : string := "tcp".
Definition UDP : string := "udp".
Definition Frequency : string := "frequency".
Definition Sensitive : string := "sensitive".

Record Pair := mkPair { Port : Z; Transport : string }.

#[export] Instance Pair_eq : EqDecision Pair.
Proof. solve_decision. Defined.

#[export] Instance Pair_countable : Countable Pair.
Proof.
  refine (inj_countable' (λ p, (Port p, Transport p)) (λ t, mkPair t.1 t.2) _). by intros [].
Defined.

Definition Pair_String (p : Pair) : string := (itoa (Port p) +:+ "/" +:+ Transport p)%string.

Definition Pair_less (p o : Pair) : bool :=
  if negb (Port p =? Port o) then Port p <? Port o else str_less (Transport p) (Transport o).

(** Sets, as the maps to the empty struct are. *)
Record List := mkList { frequency : gset Pair; sensitive : gset Pair }.

(** ** Reading the list *)

(** Why a line is refused, and its number from 1. *)
Inductive ParseError :=
  | ErrFields (line : Z) (got : Z)
  | ErrPort (line : Z) (field : string)
  | ErrTransport (line : Z) (field : string)
  | ErrHalf (line : Z) (field : string).

Definition tab : ascii := byte_of 9.
Definition newline : ascii := byte_of 10.

(** The body of the loop on line [n + 1]. *)
Definition parse_line (l : List) (n : Z) (raw : string) : ParseError + List :=
  let line := TrimSpace raw in
  if String.eqb line "" || HasPrefix line "#" then inr l
  else
    match Split tab line with
    | [f0; f1; f2] =>
        match ParseUint16 (TrimSpace f0) with
        | None => inl (ErrPort (n + 1) f0)
        | Some port =>
            if port =? 0 then inl (ErrPort (n + 1) f0)
            else
              let tr := TrimSpace f1 in
              if negb (String.eqb tr TCP) && negb (String.eqb tr UDP) then inl (ErrTransport (n + 1) f1)
              else
                let pair := mkPair port tr in
                let half := TrimSpace f2 in
                if String.eqb half Frequency then inr (mkList ({[ pair ]} ∪ frequency l) (sensitive l))
                else if String.eqb half Sensitive then inr (mkList (frequency l) ({[ pair ]} ∪ sensitive l))
                else inl (ErrHalf (n + 1) f2)
        end
    | fields => inl (ErrFields (n + 1) (Z.of_nat (length fields)))
    end.

Fixpoint parse_lines (l : List) (n : Z) (lines : list string) : ParseError + List :=
  match lines with
  | [] => inr l
  | raw :: lines' =>
      match parse_line l n raw with
      | inl e => inl e
      | inr l' => parse_lines l' (n + 1) lines'
      end
  end.

Definition Parse (body : string) : ParseError + List :=
  parse_lines (mkList ∅ ∅) 0 (Split newline body).

Definition shipped : string := "# verge-core - the daily hot-tier port set (v1 spec 3.5, ADR-0009).
# A union: frequency-set (cup) sensitive-list. Fields: port<TAB>transport<TAB>half.
# The frequency half is operator-editable (via the UI, TCP only); the sensitive
# half is authored by the project and ships in the release - moving one moves a
# version and Breaks the estate, so it is never operator-editable (3.5).
# Frequency half: docs/research/safe-active-probing.md 2.1 top-100 less 2.3's
# deletions, plus 2.3's supplement, less 161/tcp and 623/tcp (ADR-0009): 123 TCP.
# Sensitive half: docs/research/sensitive-ports.md 3 as amended: 38 pairs
# (ADR-0067). golden_test.go holds each half to its section; edit the note first.
# Composed: 136 pairs (131 TCP, 5 UDP). Only TCP pairs are probed by default;
# UDP is off (connect-outcome cannot decide an honest UDP value - ADR-0083).
7	tcp	frequency
9	tcp	frequency
13	tcp	frequency
21	tcp	frequency
22	tcp	frequency
23	tcp	frequency
25	tcp	frequency
26	tcp	frequency
37	tcp	frequency
53	tcp	frequency
79	tcp	frequency
80	tcp	frequency
81	tcp	frequency
88	tcp	frequency
106	tcp	frequency
110	tcp	frequency
111	tcp	frequency
113	tcp	frequency
119	tcp	frequency
135	tcp	frequency
139	tcp	frequency
143	tcp	frequency
144	tcp	frequency
179	tcp	frequency
199	tcp	frequency
389	tcp	frequency
427	tcp	frequency
443	tcp	frequency
444	tcp	frequency
445	tcp	frequency
465	tcp	frequency
513	tcp	frequency
514	tcp	frequency
515	tcp	frequency
543	tcp	frequency
544	tcp	frequency
548	tcp	frequency
554	tcp	frequency
587	tcp	frequency
631	tcp	frequency
646	tcp	frequency
873	tcp	frequency
990	tcp	frequency
993	tcp	frequency
995	tcp	frequency
1110	tcp	frequency
1433	tcp	frequency
1521	tcp	frequency
1720	tcp	frequency
1723	tcp	frequency
1883	tcp	frequency
1900	tcp	frequency
2000	tcp	frequency
2001	tcp	frequency
2049	tcp	frequency
2121	tcp	frequency
2181	tcp	frequency
2375	tcp	frequency
2376	tcp	frequency
2379	tcp	frequency
2380	tcp	frequency
3000	tcp	frequency
3001	tcp	frequency
3128	tcp	frequency
3306	tcp	frequency
3389	tcp	frequency
4000	tcp	frequency
4899	tcp	frequency
5000	tcp	frequency
5060	tcp	frequency
5357	tcp	frequency
5432	tcp	frequency
5601	tcp	frequency
5631	tcp	frequency
5666	tcp	frequency
5672	tcp	frequency
5800	tcp	frequency
5900	tcp	frequency
5901	tcp	frequency
5902	tcp	frequency
5903	tcp	frequency
5904	tcp	frequency
5905	tcp	frequency
5984	tcp	frequency
5985	tcp	frequency
5986	tcp	frequency
6000	tcp	frequency
6001	tcp	frequency
6379	tcp	frequency
6443	tcp	frequency
7001	tcp	frequency
7070	tcp	frequency
8000	tcp	frequency
8006	tcp	frequency
8008	tcp	frequency
8009	tcp	frequency
8069	tcp	frequency
8080	tcp	frequency
8081	tcp	frequency
8086	tcp	frequency
8090	tcp	frequency
8161	tcp	frequency
8443	tcp	frequency
8500	tcp	frequency
8834	tcp	frequency
8888	tcp	frequency
9000	tcp	frequency
9042	tcp	frequency
9090	tcp	frequency
9100	tcp	frequency
9200	tcp	frequency
9300	tcp	frequency
9443	tcp	frequency
9999	tcp	frequency
10000	tcp	frequency
10250	tcp	frequency
10255	tcp	frequency
11211	tcp	frequency
15672	tcp	frequency
27017	tcp	frequency
27018	tcp	frequency
32768	tcp	frequency
61616	tcp	frequency
21	tcp	sensitive
23	tcp	sensitive
69	udp	sensitive
137	udp	sensitive
138	udp	sensitive
139	tcp	sensitive
445	tcp	sensitive
512	tcp	sensitive
513	tcp	sensitive
514	tcp	sensitive
623	udp	sensitive
873	tcp	sensitive
2049	tcp	sensitive
2181	tcp	sensitive
2375	tcp	sensitive
2376	tcp	sensitive
2379	tcp	sensitive
2380	tcp	sensitive
3306	tcp	sensitive
4369	tcp	sensitive
5432	tcp	sensitive
5900	tcp	sensitive
5984	tcp	sensitive
6000	tcp	sensitive
6379	tcp	sensitive
9042	tcp	sensitive
10248	tcp	sensitive
10249	tcp	sensitive
10250	tcp	sensitive
10255	tcp	sensitive
10257	tcp	sensitive
10259	tcp	sensitive
11211	tcp	sensitive
11211	udp	sensitive
25672	tcp	sensitive
27017	tcp	sensitive
27018	tcp	sensitive
27019	tcp	sensitive
".

(** [mustParse] panics on an error: [None]. *)
Definition mustParse (body : string) : option List :=
  match Parse body with inl _ => None | inr l => Some l end.

(** The program starts with [mustParse shipped]; a copy of it is the same value. *)
Definition Default : option List := mustParse shipped.

(** ** Reads *)

Definition sortedSet (set : gset Pair) : list Pair := sort_stable Pair_less (elements set).

Definition IsSensitive (l : List) (p : Pair) : bool := bool_decide (p ∈ sensitive l).
Definition IsFrequency (l : List) (p : Pair) : bool := bool_decide (p ∈ frequency l).

Definition Union (l : List) : list Pair :=
  sortedSet (frequency l ∪ sensitive l).

Definition with_transport (tr : string) (l : List) : gset Pair :=
  foldl (λ out p, if String.eqb (Transport p) tr then {[ p ]} ∪ out else out) ∅ (Union l).

Definition TCPProbed (l : List) : list Pair := sortedSet (with_transport TCP l).
Definition UDPRecorded (l : List) : list Pair := sortedSet (with_transport UDP l).
Definition FrequencyPairs (l : List) : list Pair := sortedSet (frequency l).
Definition SensitivePairs (l : List) : list Pair := sortedSet (sensitive l).

Record Counts := mkCounts {
  n_Frequency : Z;
  n_Sensitive : Z;
  n_Union : Z;
  n_TCP : Z;
  n_UDP : Z
}.

Definition Count (l : List) : Counts :=
  let u := Union l in
  mkCounts (Z.of_nat (size (frequency l))) (Z.of_nat (size (sensitive l))) (Z.of_nat (length u))
    (count_if (λ p, String.eqb (Transport p) TCP) u)
    (count_if (λ p, negb (String.eqb (Transport p) TCP)) u).

(** ** Edits *)

Record FrequencyEdit := mkEdit { ed_Port : Z; ed_Action : string }.

Definition ActionAdd : string := "add".
Definition ActionRemove : string := "remove".

Definition edit_step (c : List) (e : FrequencyEdit) : List :=
  if ed_Port e =? 0 then c
  else
    let p := mkPair (ed_Port e) TCP in
    if String.eqb (ed_Action e) ActionAdd then mkList ({[ p ]} ∪ frequency c) (sensitive c)
    else if String.eqb (ed_Action e) ActionRemove then mkList (frequency c ∖ {[ p ]}) (sensitive c)
    else c.

Definition WithFrequencyEdits (l : List) (edits : list FrequencyEdit) : List := foldl edit_step l edits.

(** ** Properties *)

#[export] Instance Pair_less_weak : StrictWeak Pair_less.
Proof.
  split; unfold Pair_less.
  - intros x y. destruct (Z.eqb_spec (Port x) (Port y)) as [->|Hne]; cbn [negb].
    + rewrite Z.eqb_refl. apply sw_asym.
    + rewrite (proj2 (Z.eqb_neq (Port y) (Port x))) by done. cbn [negb]. intros. bool_to_prop.
      apply Z.ltb_ge. lia.
  - intros x y z. destruct (Z.eqb_spec (Port y) (Port x)), (Z.eqb_spec (Port z) (Port y)),
      (Z.eqb_spec (Port z) (Port x)); cbn [negb]; intros; bool_to_prop; try lia; try (apply Z.ltb_ge; lia).
    by eapply sw_trans.
Qed.

Lemma Pair_less_total x y : Pair_less x y = false → Pair_less y x = false → x = y.
Proof.
  unfold Pair_less. destruct x as [p s], y as [q t]. cbn [Port Transport].
  destruct (Z.eqb_spec p q) as [->|Hne]; cbn [negb].
  - rewrite Z.eqb_refl. cbn [negb]. intros. f_equal. by apply str_less_total.
  - rewrite (proj2 (Z.eqb_neq q p)) by done. cbn [negb]. intros. bool_to_prop. lia.
Qed.

(** The rendering of a set of pairs lists each pair once, and no order in which
    Go may range over the map shows. *)
Lemma sortedSet_order set l :
  NoDup l → (∀ p, p ∈ l ↔ p ∈ set) → sort_stable Pair_less l = sortedSet set.
Proof.
  intros Hnd Hl. apply sort_stable_proper_perm; [apply _| |].
  - intros. by apply Pair_less_total.
  - apply NoDup_Permutation; [done|apply NoDup_elements|]. intros p. by rewrite elem_of_elements.
Qed.

Lemma elem_of_sortedSet set p : p ∈ sortedSet set ↔ p ∈ set.
Proof. unfold sortedSet. by rewrite sort_stable_elem, elem_of_elements. Qed.

Lemma NoDup_sortedSet set : NoDup (sortedSet set).
Proof. apply sort_stable_NoDup, NoDup_elements. Qed.

Lemma elem_of_Union l p : p ∈ Union l ↔ p ∈ frequency l ∨ p ∈ sensitive l.
Proof. unfold Union. rewrite elem_of_sortedSet. set_solver. Qed.

Lemma elem_of_with_transport tr l p :
  p ∈ with_transport tr l ↔ Transport p = tr ∧ (p ∈ frequency l ∨ p ∈ sensitive l).
Proof.
  unfold with_transport. rewrite <- elem_of_Union.
  assert (H : ∀ ps (out : gset Pair), p ∈ foldl (λ out p, if String.eqb (Transport p) tr then {[ p ]} ∪ out else out) out ps ↔
    p ∈ out ∨ Transport p = tr ∧ p ∈ ps).
  { induction ps as [|q ps IH]; intros out; cbn [foldl]; [set_solver|]. rewrite IH.
    destruct (String.eqb_spec (Transport q) tr); set_solver. }
  rewrite H. set_solver.
Qed.

Lemma elem_of_TCPProbed l p :
  p ∈ TCPProbed l ↔ Transport p = TCP ∧ (p ∈ frequency l ∨ p ∈ sensitive l).
Proof. unfold TCPProbed. by rewrite elem_of_sortedSet, elem_of_with_transport. Qed.

Lemma elem_of_UDPRecorded l p :
  p ∈ UDPRecorded l ↔ Transport p = UDP ∧ (p ∈ frequency l ∨ p ∈ sensitive l).
Proof. unfold UDPRecorded. by rewrite elem_of_sortedSet, elem_of_with_transport. Qed.

(** The tallies add up. *)
Lemma Count_adds_up l :
  let c := Count l in
  n_TCP c + n_UDP c = n_Union c ∧
  n_Union c + Z.of_nat (size (frequency l ∩ sensitive l)) = n_Frequency c + n_Sensitive c.
Proof.
  cbn. split.
  - generalize (Union l). intros u. induction u as [|p u IH]; [done|].
    rewrite !count_if_cons. cbn [length]. destruct (String.eqb (Transport p) TCP); cbn [negb]; lia.
  - unfold Union, sortedSet. rewrite sort_stable_length.
    change (length (elements ?X)) with (size X).
    pose proof (size_union_alt (frequency l) (sensitive l)) as H1.
    assert (H2 : size (sensitive l) = (size (sensitive l ∖ frequency l) + size (frequency l ∩ sensitive l))%nat).
    { rewrite <- size_union by set_solver. f_equal. apply leibniz_equiv. intros p.
      destruct (decide (p ∈ frequency l)); set_solver. }
    lia.
Qed.

(** *** Edits *)

(** An edit that names [p] and does something. *)
Definition edits_pair (p : Pair) (e : FrequencyEdit) : Prop :=
  ed_Port e ≠ 0 ∧ p = mkPair (ed_Port e) TCP ∧ ed_Action e ∈ [ActionAdd; ActionRemove].

#[export] Instance edits_pair_dec p e : Decision (edits_pair p e).
Proof. solve_decision. Defined.

Lemma edit_step_spec c e p :
  sensitive (edit_step c e) = sensitive c ∧
  (p ∈ frequency (edit_step c e) ↔
   if decide (edits_pair p e) then ed_Action e = ActionAdd else p ∈ frequency c).
Proof.
  unfold edit_step, edits_pair. destruct (Z.eqb_spec (ed_Port e) 0) as [H0|H0].
  { split; [done|]. rewrite decide_False; [done|]. by intros []. }
  destruct (String.eqb_spec (ed_Action e) ActionAdd) as [Ha|Ha];
    [|destruct (String.eqb_spec (ed_Action e) ActionRemove) as [Hr|Hr]]; (split; [done|]); cbn [frequency];
    case_decide as Hd.
  - set_solver.
  - rewrite elem_of_union, elem_of_singleton. split; [|by right]. intros [Hp|?]; [|done].
    destruct Hd. split_and!; [done|done|]. rewrite Ha. set_solver.
  - rewrite elem_of_difference, elem_of_singleton. destruct Hd as (_ & Hp & _). naive_solver.
  - rewrite elem_of_difference, elem_of_singleton. split; [by intros []|]. intros ?. split; [done|].
    intros Hp. destruct Hd. split_and!; [done|done|]. rewrite Hr. set_solver.
  - destruct Hd as (_ & _ & Hd). rewrite !elem_of_cons in Hd. destruct Hd as [?|[?|[]%not_elem_of_nil]]; done.
  - done.
Qed.

(** The operator edits only what is theirs: no edit moves a pair of the
    sensitive half, so every sensitive TCP port is probed whatever the edits; a
    pair of the frequency half is in or out as the last edit that names it says,
    and as it shipped where none does. *)
Theorem WithFrequencyEdits_spec l edits p :
  let l' := WithFrequencyEdits l edits in
  sensitive l' = sensitive l ∧
  (p ∈ sensitive l → Transport p = TCP → p ∈ TCPProbed l') ∧
  (p ∈ frequency l' ↔
   match last (filter (edits_pair p) edits) with
   | Some e => ed_Action e = ActionAdd
   | None => p ∈ frequency l
   end).
Proof.
  cbn zeta. assert (Hs : sensitive (WithFrequencyEdits l edits) = sensitive l).
  { unfold WithFrequencyEdits. induction edits as [|e edits IH] using rev_ind; [done|].
    rewrite foldl_app. cbn [foldl]. by rewrite (proj1 (edit_step_spec _ e p)). }
  split; [done|]. split.
  { intros Hp Ht. apply elem_of_TCPProbed. split; [done|]. right. by rewrite Hs. }
  clear Hs. unfold WithFrequencyEdits. induction edits as [|e edits IH] using rev_ind; [done|].
  rewrite foldl_app. cbn [foldl]. rewrite (proj2 (edit_step_spec _ e p)).
  rewrite filter_app, filter_cons, filter_nil. case_decide; [by rewrite last_snoc|by rewrite app_nil_r].
Qed.

(** *** Reading *)

(** What a line says, in itself: nothing, a pair of a half, or an error. *)
Definition line_says (n : Z) (raw : string) : ParseError + option (Pair * bool) :=
  match parse_line (mkList ∅ ∅) n raw with
  | inl e => inl e
  | inr l => inr (match elements (frequency l), elements (sensitive l) with
                  | p :: _, _ => Some (p, false)
                  | [], p :: _ => Some (p, true)
                  | [], [] => None
                  end)
  end.

Definition add_said (l : List) (s : option (Pair * bool)) : List :=
  match s with
  | None => l
  | Some (p, false) => mkList ({[ p ]} ∪ frequency l) (sensitive l)
  | Some (p, true) => mkList (frequency l) ({[ p ]} ∪ sensitive l)
  end.

Lemma parse_line_says l n raw :
  parse_line l n raw = match line_says n raw with inl e => inl e | inr s => inr (add_said l s) end.
Proof.
  destruct l as [fr se]. unfold line_says, parse_line. destruct (_ || _); [done|].
  destruct (Split tab (TrimSpace raw)) as [|f0 [|f1 [|f2 [|]]]]; try done.
  destruct (ParseUint16 _) as [port|]; [|done]. destruct (port =? 0); [done|].
  destruct (negb _ && _); [done|]. cbn [frequency sensitive].
  destruct (String.eqb (TrimSpace f2) Frequency); [|destruct (String.eqb (TrimSpace f2) Sensitive); [|done]];
    cbn [frequency sensitive]; rewrite ?elements_empty, union_empty_r_L, elements_singleton; done.
Qed.

Lemma parse_lines_spec l n lines :
  match parse_lines l n lines with
  | inl e => ∃ i raw, lines !! i = Some raw ∧ line_says (n + Z.of_nat i) raw = inl e ∧
      ∀ j raw', (j < i)%nat → lines !! j = Some raw' → ∃ s, line_says (n + Z.of_nat j) raw' = inr s
  | inr l' => ∃ said, length said = length lines ∧
      (∀ i raw, lines !! i = Some raw → ∃ s, said !! i = Some s ∧ line_says (n + Z.of_nat i) raw = inr s) ∧
      l' = foldl add_said l said
  end.
Proof.
  revert l n. induction lines as [|raw lines IH]; intros l n; cbn [parse_lines].
  { exists []. split_and!; [done| |done]. intros i r. by rewrite lookup_nil. }
  rewrite parse_line_says. destruct (line_says n raw) as [e|s] eqn:Hs.
  { exists 0%nat, raw. rewrite Z.add_0_r. split_and!; [done|done|]. intros j r Hj. lia. }
  specialize (IH (add_said l s) (n + 1)). destruct (parse_lines (add_said l s) (n + 1) lines) as [e|l'].
  - destruct IH as (i & r & Hi & He & Hlt). exists (S i), r. split; [done|]. split.
    { rewrite <- He. f_equal. lia. }
    intros [|j] r' Hj Hr.
    + injection Hr as <-. exists s. by rewrite Z.add_0_r.
    + destruct (Hlt j r' ltac:(lia) Hr) as [s' Hs']. exists s'. rewrite <- Hs'. f_equal. lia.
  - destruct IH as (said & Hlen & Hall & ->). exists (s :: said). split; [cbn; lia|]. split; [|done].
    intros [|i] r Hr.
    + injection Hr as <-. exists s. by rewrite Z.add_0_r.
    + destruct (Hall i r Hr) as (s' & Hs' & He). exists s'. split; [done|]. rewrite <- He. f_equal. lia.
Qed.

(** A text is refused with the first line that is not understood, and is
    otherwise the pairs its lines say. *)
Theorem Parse_spec body :
  match Parse body with
  | inl e => ∃ i raw, Split newline body !! i = Some raw ∧ line_says (Z.of_nat i) raw = inl e ∧
      ∀ j raw', (j < i)%nat → Split newline body !! j = Some raw' → ∃ s, line_says (Z.of_nat j) raw' = inr s
  | inr l => ∀ p,
      (p ∈ frequency l ↔ ∃ i raw, Split newline body !! i = Some raw ∧
                          line_says (Z.of_nat i) raw = inr (Some (p, false))) ∧
      (p ∈ sensitive l ↔ ∃ i raw, Split newline body !! i = Some raw ∧
                          line_says (Z.of_nat i) raw = inr (Some (p, true)))
  end.
Proof.
  unfold Parse. pose proof (parse_lines_spec (mkList ∅ ∅) 0 (Split newline body)) as H.
  destruct (parse_lines _ _ _) as [e|l]; [exact H|]. destruct H as (said & Hlen & Hall & ->).
  assert (Hs : ∀ p l said, (p ∈ frequency (foldl add_said l said) ↔ p ∈ frequency l ∨ Some (p, false) ∈ said) ∧
    (p ∈ sensitive (foldl add_said l said) ↔ p ∈ sensitive l ∨ Some (p, true) ∈ said)).
  { clear. intros p l said. revert l. induction said as [|s said IH]; intros l; cbn [foldl]; [set_solver|].
    destruct (IH (add_said l s)) as [-> ->].
    destruct s as [[q [|]]|]; cbn [add_said frequency sensitive]; set_solver. }
  assert (Hin : ∀ x, x ∈ said ↔ ∃ i raw, Split newline body !! i = Some raw ∧ line_says (Z.of_nat i) raw = inr x).
  { intros x. split.
    - intros [i Hi]%list_elem_of_lookup. assert (Hlt : (i < length said)%nat) by (by apply lookup_lt_Some in Hi).
      rewrite Hlen in Hlt. apply lookup_lt_is_Some_2 in Hlt as [raw Hraw]. exists i, raw. split; [done|].
      destruct (Hall i raw Hraw) as (s & Hs' & He). rewrite Hi in Hs'. by injection Hs' as <-.
    - intros (i & raw & Hraw & He). destruct (Hall i raw Hraw) as (s & Hs' & He'). rewrite Z.add_0_l in He'.
      rewrite He in He'. injection He' as <-. by eapply list_elem_of_lookup_2. }
  intros p. destruct (Hs p (mkList ∅ ∅) said) as [-> ->]. cbn [frequency sensitive].
  rewrite !Hin. set_solver.
Qed.

(** The list that ships is understood: 123 frequency pairs, 38 sensitive ones,
    136 together, of which 131 are probed and 5 recorded; every frequency pair
    is TCP, so every one can be edited. *)
Theorem Default_counts :
  Count <$> Default = Some (mkCounts 123 38 136 131 5) ∧
  (λ l, forallb (λ p, String.eqb (Transport p) TCP) (FrequencyPairs l)) <$> Default = Some true.
Proof. vm_compute. auto. Qed.

Example edits_ex :
  (λ l, let l' := WithFrequencyEdits l [mkEdit 9999 "add"; mkEdit 7 "remove"; mkEdit 7 "add"; mkEdit 22 "remove";
                                        mkEdit 0 "add"; mkEdit 3306 "remove"] in
        (IsFrequency l' (mkPair 9999 TCP), IsFrequency l' (mkPair 7 TCP), IsFrequency l' (mkPair 22 TCP),
         bool_decide (mkPair 3306 TCP ∈ TCPProbed l'))) <$> Default = Some (true, true, false, true).
Proof. vm_compute. reflexivity. Qed.

Example parse_errors :
  Parse ("22" +:+ String tab "tcp") = inl (ErrFields 1 2) ∧
  Parse (String newline ("0" +:+ String tab ("tcp" +:+ String tab "frequency"))) = inl (ErrPort 2 "0") ∧
  Parse ("65536" +:+ String tab ("tcp" +:+ String tab "frequency")) = inl (ErrPort 1 "65536").
Proof. vm_compute. auto. Qed.
