(* ===== verification/SignalFacts.v ===== *)
(** * Signal facts

    [internal/signalfacts]: what the rules of [Signal] read, out of the values a
    subject's facets hold.  [json.Unmarshal] into the three value types and the
    Unicode half of [strings.EqualFold] are parameters. *)

From S2P Require Import Prelude GoTime GoStr NetIP NetParse NetText GoRFC3339 Signal VergeCore.

(** ** Keys *)

(** [(name, service)]. *)
Definition SplitEndpointName (key : string) : string * string :=
  let at_ := IndexByte key "@" in
  if 0 <=? at_ then (slice_to key at_, slice_from key (at_ + 1)) else ("", key).

(** [(pair, address)]; [None] is [ok] false. *)
Definition ParseServicePair (key : string) : option (Pair * string) :=
  let slash := LastIndexByte key "/" in
  if slash <? 0 then None
  else
    ap ← ParseAddrPort (slice_to key slash);
    Some (mkPair (ap_Port ap) (slice_from key (slash + 1)), Addr_String (ap_Addr ap)).

(** ** Values *)

Record ChainCert := mkChainCert {
  lc_Subject : string;
  lc_Issuer : string;
  lc_SelfSignatureVerifies : option bool;
  lc_KeyAlg : string;
  lc_KeyBits : Z;
  lc_KeyParamN : Z;
  lc_SigDigest : string
}.

Record CertificateValue := mkCertValue {
  cv_Outcome : string;
  cv_Chain : list string;
  cv_NotAfter : string;
  cv_NotBefore : string;
  cv_SANDNS : list string;
  cv_SANIP : list string;
  cv_ChainCerts : list ChainCert
}.

Record HTTPIdentityValue := mkHTTPValue {
  hv_Outcome : string;
  hv_Status : Z;
  hv_Server : string;
  hv_Title : string;
  hv_WWWAuthenticate : string;
  hv_RedirectLocation : string
}.

Record TLSVersion := mkTLSVersion { tv_Version : string; tv_Ciphers : list string }.
Record TLSAcceptanceValue := mkTLSValue { ta_Outcome : string; ta_Versions : list TLSVersion }.

(** What [json.Unmarshal] leaves in a zero value, its error ignored. *)
Class FactsJSON := {
  DecodeCertificate : string → CertificateValue;
  DecodeHTTPIdentity : string → HTTPIdentityValue;
  DecodeTLSAcceptance : string → TLSAcceptanceValue
}.

(** [strings.EqualFold] from the first byte that is not ASCII on. *)
Class UnicodeFold := unicode_EqualFold : string → string → bool.

(** Text [encoding/json] gives back as it was. *)
Definition json_text (s : string) : bool := string_forallb (λ c, (32 <=? code c) && (code c <? 127)) s.

(** ** Names in certificates *)

Definition is_ascii (c : ascii) : bool := code c <? 128.

Fixpoint EqualFold {F : UnicodeFold} (s t : string) : bool :=
  match s, t with
  | String c s', String d t' =>
      if negb (is_ascii c && is_ascii d) then unicode_EqualFold s t
      else Ascii.eqb (fold_byte c) (fold_byte d) && EqualFold s' t'
  | "", "" => true
  | _, _ => false
  end.

Definition dnsLabels (name : string) : list string :=
  let labels := Split "." name in
  let labels := match last labels with Some "" => take (length labels - 1) labels | _ => labels end in
  match labels with [""] => [] | _ => labels end.

(** [strings.Count(l, "*")]. *)
Fixpoint count_stars (s : string) : Z :=
  match s with "" => 0 | String c s' => (if Ascii.eqb c "*" then 1 else 0) + count_stars s' end.

Section SAN.
Context {F : UnicodeFold}.

Definition labelsEqualFold (a b : list string) : bool :=
  if negb (length a =? length b)%nat then false
  else forallb (λ p, EqualFold p.1 p.2) (zip a b).

Definition sanEntryMatches (entry : string) (nameLabels : list string) : bool :=
  match dnsLabels entry with
  | [] => false
  | l0 :: entryLabels =>
      let stars := sumZ (map count_stars (l0 :: entryLabels)) in
      if stars =? 0 then labelsEqualFold (l0 :: entryLabels) nameLabels
      else if negb (stars =? 1) || negb (String.eqb l0 "*") then false
      else if negb (length (l0 :: entryLabels) =? length nameLabels)%nat then false
      else
        match nameLabels with
        | [] => false
        | n0 :: nameRest => if String.eqb n0 "" then false else labelsEqualFold entryLabels nameRest
        end
  end.

Definition SANMatchesName (sanDNS : list string) (name : string) : bool :=
  let nameLabels := dnsLabels name in
  if (length nameLabels =? 0)%nat then false
  else existsb (λ entry, sanEntryMatches entry nameLabels) sanDNS.
End SAN.

(** ** Weak links *)

Definition SelfSignedOf (subject issuer : string) (selfSigVerifies : bool) : bool :=
  String.eqb subject issuer && selfSigVerifies.

Definition weak_step (weak : bool) (c : ChainCert) : bool :=
  let weak :=
    if String.eqb (lc_KeyAlg c) "RSA" then if lc_KeyBits c <? 2048 then true else weak
    else if String.eqb (lc_KeyAlg c) "ECDSA" then if lc_KeyBits c <? 224 then true else weak
    else if String.eqb (lc_KeyAlg c) "DSA" then
      if (lc_KeyBits c <? 2048) || (lc_KeyParamN c <? 224) then true else weak
    else weak in
  let selfSig := match lc_SelfSignatureVerifies c with Some b => b | None => false end in
  if negb (SelfSignedOf (lc_Subject c) (lc_Issuer c) selfSig) then
    if String.eqb (lc_SigDigest c) "MD5" || String.eqb (lc_SigDigest c) "SHA-1" then true else weak
  else weak.

Definition WeakKeyOrSignature (chain : list ChainCert) : bool := foldl weak_step false chain.

(** ** Facts *)

Section Facts.
Context {F : UnicodeFold} {J : FactsJSON}.

Definition CertDetailsFromValue (v : CertificateValue) (observedAt now : Z) (serverName : string)
    : option CertDetails :=
  if negb (String.eqb (cv_Outcome v) CertPresented) then None
  else
    let clock :=
      nb ← time_Parse_RFC3339 (cv_NotBefore v);
      na ← time_Parse_RFC3339 (cv_NotAfter v);
      Some (mkClock nb na observedAt now) in
    match cv_ChainCerts v with
    | [] => Some (mkDetails clock None None None)
    | c0 :: _ =>
        let san := if String.eqb serverName "" then None else Some (SANMatchesName (cv_SANDNS v) serverName) in
        let weak := Some (WeakKeyOrSignature (cv_ChainCerts v)) in
        let selfSigned := ss ← lc_SelfSignatureVerifies c0; Some (SelfSignedOf (lc_Subject c0) (lc_Issuer c0) ss) in
        Some (mkDetails clock selfSigned weak san)
    end.

Record ServiceEvidence := mkServiceEvidence {
  se_HasInternetReach : bool;
  se_InternetReach : string;
  se_TLSAcceptance : option string
}.

Definition Enumerated : string := "enumerated".
Definition TLS10 : string := "1.0".

Definition ServiceFactsFrom (subject : string) (ev : ServiceEvidence) (vc : VergeCore.List) : ServiceFacts :=
  let sensitive :=
    match ParseServicePair subject with
    | Some (p, _) => String.eqb (Transport p) TCP && IsSensitive vc p
    | None => false
    end in
  let tls := match se_TLSAcceptance ev with
             | Some raw => let tls := DecodeTLSAcceptance raw in
                           if String.eqb (ta_Outcome tls) Enumerated then Some tls else None
             | None => None
             end in
  mkServiceFacts subject sensitive (se_HasInternetReach ev) (se_InternetReach ev)
    (bool_decide (is_Some tls))
    (match tls with Some v => negb (length (ta_Versions v) =? 0)%nat | None => false end)
    (match tls with Some v => existsb (λ ver, String.eqb (tv_Version ver) TLS10) (ta_Versions v) | None => false end).

Record EndpointEvidence := mkEndpointEvidence {
  ee_Certificate : option string;
  ee_CertObservedAt : Z;
  ee_HTTPIdentity : option string
}.

Definition OutcomeResponded : string := "responded".

Variable url_Parse : string → option (string * string).
Variable ToLower : string → string.

(** [inEstate] may be nil. *)
Definition EndpointFactsFrom (subject : string) (ev : EndpointEvidence) (now : Z)
    (inEstate : option (string → bool)) : EndpointFacts :=
  let '(name, _) := SplitEndpointName subject in
  let cv := DecodeCertificate <$> ee_Certificate ev in
  let id := DecodeHTTPIdentity <$> ee_HTTPIdentity ev in
  let responded := match id with Some v => String.eqb (hv_Outcome v) OutcomeResponded | None => false end in
  let status := match id with Some v => hv_Status v | None => 0 end in
  let location := match id with Some v => hv_RedirectLocation v | None => "" end in
  mkEndpoint subject (negb (String.eqb name ""))
    (bool_decide (is_Some cv))
    (match cv with Some v => cv_Outcome v | None => "" end)
    (v ← cv; CertDetailsFromValue v (ee_CertObservedAt ev) now name)
    responded status location
    (match inEstate with
     | Some f =>
         if responded && (300 <=? status) && (status <=? 399) && negb (String.eqb location "")
         then f (RedirectTarget url_Parse ToLower location).2 else false
     | None => false
     end).
End Facts.

(** ** Properties *)

(** *** Labels *)

Section SANs.
Context {F : UnicodeFold}.

Lemma count_stars_nonneg s : 0 ≤ count_stars s.
Proof. induction s as [|c s IH]; cbn; [lia|]. destruct (Ascii.eqb c "*"); lia. Qed.

Definition starless (l : string) : Prop := count_stars l = 0.
#[export] Instance starless_dec l : Decision (starless l).
Proof. unfold starless. apply _. Defined.

Lemma stars_none ls : sumZ (map count_stars ls) = 0 ↔ Forall starless ls.
Proof.
  assert (Hn : ∀ l, 0 ≤ sumZ (map count_stars l)).
  { induction l as [|s l IH]; cbn; [lia|]. pose proof (count_stars_nonneg s). unfold sumZ in IH. lia. }
  induction ls as [|s ls IH]; [by split|]. rewrite Forall_cons, <- IH. unfold sumZ, starless in *. cbn [map foldr].
  pose proof (count_stars_nonneg s). pose proof (Hn ls). lia.
Qed.

Definition same_labels (a b : list string) : Prop := Forall2 (λ x y, EqualFold x y = true) a b.

Lemma labelsEqualFold_spec a b : labelsEqualFold a b = true ↔ same_labels a b.
Proof.
  unfold labelsEqualFold, same_labels. revert b. induction a as [|x a IH]; intros [|y b]; cbn.
  - split; [constructor|done].
  - split; [done|]. by intros []%Forall2_nil_cons_inv.
  - split; [done|]. by intros []%Forall2_cons_nil_inv.
  - specialize (IH b). rewrite Forall2_cons. destruct (Nat.eqb_spec (length a) (length b)); cbn [negb] in *.
    + by rewrite andb_true_iff, IH.
    + split; [done|]. intros [_ H]. apply IH in H. done.
Qed.

(** How an entry covers a name, label by label. *)
Inductive covers : list string → list string → Prop :=
  | covers_literal e n : e ≠ [] → Forall starless e → same_labels e n → covers e n
  | covers_wildcard e n0 n : Forall starless e → n0 ≠ "" → same_labels e n → covers ("*" :: e) (n0 :: n).

Lemma sanEntryMatches_spec entry n : sanEntryMatches entry n = true ↔ covers (dnsLabels entry) n.
Proof.
  unfold sanEntryMatches. destruct (dnsLabels entry) as [|l0 e].
  { split; [done|]. intros H. inversion H; subst; done. }
  assert (Hsum : sumZ (map count_stars (l0 :: e)) = count_stars l0 + sumZ (map count_stars e)) by done.
  destruct (Z.eqb_spec (sumZ (map count_stars (l0 :: e))) 0) as [H0|H0].
  - rewrite labelsEqualFold_spec. apply stars_none in H0. split; [by constructor|]. intros H; inversion H; subst; [done|].
    apply Forall_cons in H0 as [Hs _]. done.
  - destruct (Z.eqb_spec (sumZ (map count_stars (l0 :: e))) 1) as [H1|H1]; cbn [negb orb].
    2:{ split; [done|]. intros H; inversion H as [? ? _ Hst|? ? ? Hst]; subst.
        - by apply stars_none in Hst.
        - exfalso. apply H1. rewrite Hsum, (proj2 (stars_none e) Hst). done. }
    destruct (String.eqb_spec l0 "*") as [->|Hl]; cbn [negb].
    2:{ split; [done|]. intros H; inversion H as [? ? _ Hst|]; subst; [|done]. by apply stars_none in Hst. }
    assert (Hst : Forall starless e) by (apply stars_none; change (count_stars "*") with 1 in Hsum; lia).
    destruct n as [|n0 n]; cbn [length].
    { split; [done|]. intros H; inversion H as [? ? _ _ Hf|]; subst. by apply Forall2_cons_nil_inv in Hf. }
    assert (Hno : ¬ Forall starless ("*" :: e)) by (intros [? _]%Forall_cons; done).
    destruct (Nat.eqb_spec (S (length e)) (S (length n))) as [Hlen|Hlen]; cbn [negb].
    2:{ split; [done|]. intros H; inversion H as [|? ? ? _ _ Hf]; subst; [done|]. apply Forall2_length in Hf; congruence. }
    destruct (String.eqb_spec n0 "") as [->|Hn0].
    { split; [done|]. intros H; inversion H; subst; done. }
    rewrite labelsEqualFold_spec. split; [by constructor|]. intros H; inversion H; subst; done.
Qed.

(** A name is covered by a certificate exactly when it has labels and one of the
    entries covers them: a literal entry label for label whatever the case of its
    letters, a wildcard entry with its star as the whole first label, standing for
    one label that is not empty and for no more.  A star anywhere else covers
    nothing. *)
Theorem SANMatchesName_spec sans name :
  SANMatchesName sans name = true ↔
  dnsLabels name ≠ [] ∧ ∃ entry, entry ∈ sans ∧ covers (dnsLabels entry) (dnsLabels name).
Proof.
  unfold SANMatchesName. destruct (Nat.eqb_spec (length (dnsLabels name)) 0) as [H|H].
  - apply nil_length_inv in H. rewrite H. naive_solver.
  - rewrite existsb_exists. setoid_rewrite sanEntryMatches_spec. setoid_rewrite list_elem_of_In.
    split; [intros (e & ? & ?); split; [by intros E; rewrite E in H|by exists e]|naive_solver].
Qed.
End SANs.

(** *** Weak links *)

Definition weak_key (c : ChainCert) : Prop :=
  (lc_KeyAlg c = "RSA" ∧ lc_KeyBits c < 2048) ∨ (lc_KeyAlg c = "ECDSA" ∧ lc_KeyBits c < 224) ∨
  (lc_KeyAlg c = "DSA" ∧ (lc_KeyBits c < 2048 ∨ lc_KeyParamN c < 224)).

Definition weak_signature (c : ChainCert) : Prop :=
  (lc_SigDigest c = "MD5" ∨ lc_SigDigest c = "SHA-1") ∧
  ¬ (lc_Subject c = lc_Issuer c ∧ lc_SelfSignatureVerifies c = Some true).

Definition short_key (c : ChainCert) : bool :=
  if String.eqb (lc_KeyAlg c) "RSA" then lc_KeyBits c <? 2048
  else if String.eqb (lc_KeyAlg c) "ECDSA" then lc_KeyBits c <? 224
  else if String.eqb (lc_KeyAlg c) "DSA" then (lc_KeyBits c <? 2048) || (lc_KeyParamN c <? 224) else false.

Definition old_digest (c : ChainCert) : bool :=
  negb (SelfSignedOf (lc_Subject c) (lc_Issuer c) (match lc_SelfSignatureVerifies c with Some b => b | None => false end)) &&
  (String.eqb (lc_SigDigest c) "MD5" || String.eqb (lc_SigDigest c) "SHA-1").

Lemma weak_step_orb w c : weak_step w c = w || short_key c || old_digest c.
Proof.
  unfold weak_step, short_key, old_digest.
  destruct w, (String.eqb (lc_KeyAlg c) "RSA"), (String.eqb (lc_KeyAlg c) "ECDSA"), (String.eqb (lc_KeyAlg c) "DSA"),
    (SelfSignedOf _ _ _), (String.eqb (lc_SigDigest c) "MD5"), (String.eqb (lc_SigDigest c) "SHA-1");
    cbn [orb andb negb]; rewrite ?orb_true_r, ?orb_false_r; try done;
    repeat match goal with |- context [?x <? ?y] => destruct (x <? y) end; done.
Qed.

Lemma short_key_spec c : short_key c = true ↔ weak_key c.
Proof.
  unfold short_key, weak_key. rewrite <- !Z.ltb_lt.
  destruct (String.eqb_spec (lc_KeyAlg c) "RSA") as [->|]; [naive_solver|].
  destruct (String.eqb_spec (lc_KeyAlg c) "ECDSA") as [->|]; [naive_solver|].
  destruct (String.eqb_spec (lc_KeyAlg c) "DSA") as [->|]; [rewrite orb_true_iff|]; naive_solver.
Qed.

Lemma old_digest_spec c : old_digest c = true ↔ weak_signature c.
Proof.
  unfold old_digest, weak_signature, SelfSignedOf.
  rewrite andb_true_iff, negb_true_iff, orb_true_iff, !String.eqb_eq, andb_false_iff, String.eqb_neq.
  destruct (lc_SelfSignatureVerifies c) as [[]|]; destruct (decide (lc_Subject c = lc_Issuer c)); intuition congruence.
Qed.

Lemma weak_step_spec w c : weak_step w c = true ↔ w = true ∨ weak_key c ∨ weak_signature c.
Proof. rewrite weak_step_orb, !orb_true_iff, short_key_spec, old_digest_spec. tauto. Qed.

(** A chain is called weak exactly when a link of it has a short key of one of the
    three algorithms that are read, or a signature by MD5 or SHA-1 that is not the
    link's own: so the order of the links says nothing. *)
Theorem WeakKeyOrSignature_spec chain :
  WeakKeyOrSignature chain = true ↔ ∃ c, c ∈ chain ∧ (weak_key c ∨ weak_signature c).
Proof.
  unfold WeakKeyOrSignature. assert (H : ∀ w, foldl weak_step w chain = true ↔
    w = true ∨ ∃ c, c ∈ chain ∧ (weak_key c ∨ weak_signature c)).
  { induction chain as [|c chain IH]; intros w; cbn [foldl].
    - split; [by left|]. intros [?|(c & []%not_elem_of_nil & _)]; done.
    - rewrite IH, weak_step_spec. setoid_rewrite elem_of_cons. split.
      + intros [[?|?]|(d & ? & ?)]; [by left|right; exists c; auto|right; exists d; auto].
      + intros [?|(d & [->|?] & ?)]; [by left; left|by left; right|right; by exists d]. }
  rewrite H. naive_solver.
Qed.

(** *** Instances *)

(** A value of a countable type as text, a character a bit. *)
Fixpoint bits_text (p : positive) : string :=
  match p with xH => "" | xO p => String "0" (bits_text p) | xI p => String "1" (bits_text p) end.

Fixpoint text_bits (s : string) : positive :=
  match s with "" => xH | String c s => if Ascii.eqb c "1" then xI (text_bits s) else xO (text_bits s) end.

Lemma text_bits_text p : text_bits (bits_text p) = p.
Proof. by induction p as [p IH|p IH|]; cbn; rewrite ?IH. Qed.

(** ASCII folds alone. *)
#[export] Instance no_fold : UnicodeFold := String.eqb.

Example SAN_ex :
  map (SANMatchesName ["*.example.com"; "b*d.example.com"; "EXAMPLE.org."])
    ["a.example.com"; "a.b.example.com"; "example.com"; "bad.example.com"; "example.ORG"; ""] =
  [true; false; false; true; true; false].
Proof. vm_compute. reflexivity. Qed.
