(* ===== verification/ZoneFile.v ===== *)
(** * Declared zone files ([signal/zone.go], [scan/zone.go], [queue/zone.go])

    An operator supplies the zone file of a domain.  Two readers take it apart:
    [RestateZone] makes one observation of each record set, stamped with the
    instant of the supply, and [DeclaredNames] and [DelegatedSubzones] give the
    signals the names the file owns and the cuts it delegates.  [json.Marshal]
    and [strings.ToUpper] and [strings.EqualFold] beyond ASCII are parameters. *)

From S2P Require Import Prelude GoTime GoStr GoConv NetText Seed ResolutionWalk SignalFacts.

(** ** Text *)

(** The bytes of the white space a string begins with, if it does. *)
Definition space_width (s : string) : option nat :=
  String.length <$> List.find (λ w, HasPrefix s w) white_space.

(** [skip] bytes of a white space are still to be passed; [cur] is the field so far. *)
Fixpoint fields_from (s : string) (skip : nat) (cur : string) : list string :=
  match s with
  | "" => if String.eqb cur "" then [] else [cur]
  | String c s' =>
      match skip with
      | S k => fields_from s' k cur
      | O =>
          match space_width s with
          | Some w => (if String.eqb cur "" then [] else [cur]) ++ fields_from s' (w - 1) ""
          | None => fields_from s' 0 (cur +:+ String c "")
          end
      end
  end.

(** [strings.Fields]. *)
Definition Fields (s : string) : list string := fields_from s 0 "".

(** [strings.ToUpper] of text that is not ASCII. *)
Class UnicodeUpper := unicode_ToUpper : string → string.

Definition upper_byte (c : ascii) : ascii := if is_lower c then byte_of (code c - 32) else c.

Definition ToUpper {U : UnicodeUpper} (s : string) : string :=
  if string_forallb is_ascii s then string_map upper_byte s else unicode_ToUpper s.

(** [strings.Count(s, b)] for one byte. *)
Fixpoint count_byte (b : ascii) (s : string) : Z :=
  match s with "" => 0 | String c s' => (if Ascii.eqb c b then 1 else 0) + count_byte b s' end.

Definition CR : ascii := byte_of 13.
Definition LF : ascii := byte_of 10.
Definition TAB : ascii := byte_of 9.

(** [strings.ReplaceAll(s, "\r\n", "\n")]. *)
Fixpoint unix_lines (s : string) : string :=
  match s with
  | "" => ""
  | String a s' =>
      match s' with
      | String b r => if Ascii.eqb a CR && Ascii.eqb b LF then String LF (unix_lines r) else String a (unix_lines s')
      | "" => String a ""
      end
  end.

(** [strings.ReplaceAll(s, string(b), " ")]. *)
Definition blank_byte (b : ascii) (s : string) : string := string_map (λ c, if Ascii.eqb c b then " "%char else c) s.

Definition stripComment (line : string) : string :=
  let i := IndexByte line ";" in
  if 0 <=? i then slice_to line i else line.

Definition begins_blank (line : string) : bool :=
  match line with String c _ => Ascii.eqb c " " || Ascii.eqb c TAB | "" => false end.

(** A high-bit octet typed in a text form has two readings. *)
Definition highBit (name : string) : bool := string_existsb (λ c, 128 <=? code c) name.

Definition leftmostWildcard (name : string) : bool := String.eqb name "*" || HasPrefix name "*.".

(** ** The reader of the signals ([signal/zone.go]) *)

Section Signals.
Context {U : UnicodeUpper} {F : UnicodeFold}.

Definition qualify (token origin : string) : string :=
  if String.eqb token "@" then origin
  else if HasSuffix token "." then CanonicalName token
  else if String.eqb origin "" then CanonicalName token
  else CanonicalName (token +:+ "." +:+ origin).

Definition isClass (tok : string) : bool := bool_decide (ToUpper tok ∈ ["IN"; "CH"; "HS"; "CS"]).

Definition leading_digit (tok : string) : bool := match tok with String c _ => is_digit c | "" => false end.

Fixpoint rrType (rest : list string) : string :=
  match rest with
  | [] => ""
  | tok :: rest' => if leading_digit tok || isClass tok then rrType rest' else ToUpper tok
  end.

Record walk_state := mkWalk { wk_cur : string; wk_lastOwner : string; wk_visits : list (string * list string) }.

Definition walk_line (st : walk_state) (raw : string) : walk_state :=
  let line := stripComment raw in
  if String.eqb (TrimSpace line) "" then st
  else
    let trimmed := TrimSpace line in
    if HasPrefix trimmed "$" then
      match Fields trimmed with
      | d :: o :: _ => if EqualFold d "$ORIGIN" then mkWalk (qualify o (wk_cur st)) (wk_lastOwner st) (wk_visits st) else st
      | _ => st
      end
    else
      let visit last owner rest :=
        mkWalk (wk_cur st) last
          (if String.eqb owner "" || leftmostWildcard owner || highBit owner then wk_visits st
           else wk_visits st ++ [(owner, rest)]) in
      if begins_blank line then visit (wk_lastOwner st) (wk_lastOwner st) (Fields line)
      else
        match Fields line with
        | [] => st
        | f :: rest => let owner := qualify f (wk_cur st) in visit owner owner rest
        end.

Definition walkOwners (content origin : string) : list (string * list string) :=
  wk_visits (foldl walk_line (mkWalk (CanonicalName (TrimSuffix origin ".")) "" []) (Split LF content)).

Definition DeclaredNames (content origin : string) : gset string :=
  list_to_set (map fst (walkOwners content origin)).

Definition DelegatedSubzones (content origin : string) : gset string :=
  let apex := CanonicalName origin in
  list_to_set (map fst (filter (λ v, v.1 ≠ apex ∧ rrType v.2 = "NS") (walkOwners content origin))).
End Signals.

(** ** The reader of the zone Scan ([scan/zone.go]) *)

Definition ZoneSource : string := "zone".

Record ZoneFile := mkZoneFile { zf_SeedID : Z; zf_Domain : string; zf_SuppliedAt : Z; zf_Content : string }.

Record ZoneAging := mkAging { za_Supplied : bool; za_Stale : bool; za_Days : Z }.

Definition ZoneAgingAt (suppliedAt now interval : Z) : ZoneAging :=
  if IsZero suppliedAt then mkAging false false 0
  else if interval <=? 0 then mkAging true false 0
  else
    let day := 24 * Hour in
    let gapAt := TimeAdd suppliedAt interval in
    if negb (Before now gapAt) then mkAging true true (TimeSub now gapAt ÷ day)
    else mkAging true false ((TimeSub gapAt now +64 day -64 Nanosecond) ÷ day).

Record ZoneJob := mkZoneJob { zj_ScanID : Z; zj_SeedID : Z; zj_Domain : string; zj_SuppliedAt : Z; zj_Content : string }.

Definition BuildZoneJobs (scanID : Z) (files : list ZoneFile) : list ZoneJob :=
  map (λ f, mkZoneJob scanID (zf_SeedID f) (zf_Domain f) (zf_SuppliedAt f) (zf_Content f)) files.

Definition fqdn (name : string) : string :=
  let name := FoldASCII (TrimSpace name) in
  if String.eqb name "" then "" else if HasSuffix name "." then name else name +:+ ".".

Definition trimDot (name : string) : string := TrimSuffix name ".".

Definition resolveName (origin raw : string) : string :=
  let raw := TrimSpace raw in
  if String.eqb raw "@" then trimDot origin
  else if HasSuffix raw "." then trimDot (FoldASCII raw)
  else if String.eqb origin "" then FoldASCII raw
  else trimDot (FoldASCII raw +:+ "." +:+ origin).

Definition subjectOwner (name : string) : bool := negb (leftmostWildcard name) && negb (highBit name).

Definition ttl_unit (c : ascii) : bool :=
  bool_decide (c ∈ ["s"; "m"; "h"; "d"; "w"; "S"; "M"; "H"; "D"; "W"]%char).

(** Digits, and a unit at the end. *)
Fixpoint ttl_from (f : string) (digits : bool) : bool :=
  match f with
  | "" => digits
  | String c f' =>
      if is_digit c then ttl_from f' true
      else if String.eqb f' "" && ttl_unit c then ttl_from f' digits else false
  end.

Definition isTTL (f : string) : bool := ttl_from f false.

Definition recordClasses : list string := ["IN"; "CH"; "HS"; "CS"].

Definition knownTypes : list string :=
  ["A"; "AAAA"; "CNAME"; "MX"; "NS"; "TXT"; "SOA"; "PTR"; "SRV"; "CAA"; "DNAME"; "NAPTR"; "SPF"; "TLSA"; "SSHFP"; "DS"].

Record zoneParser := mkParser { zp_origin : string; zp_lastOwner : string }.

Record parsedRecord := mkParsed { pr_name : string; pr_qtype : string; pr_rdata : string }.

Inductive parseResult := parseNone | parseSkipped | parseRecord (r : parsedRecord).

Section Scan.
Context {U : UnicodeUpper}.

Fixpoint drop_class_ttl (fields : list string) : list string :=
  match fields with
  | [] => []
  | f :: fields' => if bool_decide (ToUpper f ∈ recordClasses) || isTTL f then drop_class_ttl fields' else fields
  end.

(** What follows the owner of a record. *)
Definition parse_rest (owner : string) (fields : list string) : parseResult :=
  match drop_class_ttl fields with
  | t :: r :: rest =>
      let qtype := ToUpper t in
      let rdata := TrimSpace (String.concat " " (r :: rest)) in
      if negb (bool_decide (qtype ∈ knownTypes)) then parseSkipped
      else if String.eqb rdata "" then parseSkipped
      else parseRecord (mkParsed owner qtype rdata)
  | _ => parseSkipped
  end.

Definition parse (p : zoneParser) (line : string) : zoneParser * parseResult :=
  let line := stripComment line in
  if String.eqb (TrimSpace line) "" then (p, parseNone)
  else
    let trimmed := TrimSpace line in
    if HasPrefix trimmed "$ORIGIN" then
      match Fields trimmed with
      | _ :: o :: _ => (mkParser (fqdn o) (zp_lastOwner p), parseNone)
      | _ => (p, parseNone)
      end
    else if HasPrefix trimmed "$" then (p, parseNone)
    else
      match Fields line with
      | [] => (p, parseNone)
      | f :: rest =>
          let of_owner owner fields :=
            (mkParser (zp_origin p) owner, if subjectOwner owner then parse_rest owner fields else parseSkipped) in
          if begins_blank line then
            if String.eqb (zp_lastOwner p) "" then (p, parseSkipped) else of_owner (zp_lastOwner p) (f :: rest)
          else of_owner (resolveName (zp_origin p) f) rest
      end.
End Scan.

(** The text gathered so far, and how deep in parentheses it ends. *)
Record line_state := mkLines { ls_out : list string; ls_buf : string; ls_depth : Z }.

Definition flush (st : line_state) : line_state :=
  mkLines (ls_out st ++ [blank_byte ")" (blank_byte "(" (ls_buf st))]) "" (ls_depth st).

Definition logical_step (st : line_state) (line : string) : line_state :=
  let noComment := stripComment line in
  let depth := Z.max 0 (ls_depth st + (count_byte "(" noComment - count_byte ")" noComment)) in
  let buf := if String.eqb (ls_buf st) "" then line else ls_buf st +:+ " " +:+ TrimSpace line in
  let st := mkLines (ls_out st) buf depth in
  if depth =? 0 then flush st else st.

Definition logicalLines (content : string) : list string :=
  let st := foldl logical_step (mkLines [] "" 0) (Split LF (unix_lines content)) in
  ls_out (if String.eqb (ls_buf st) "" then st else flush st).

(** [json.Marshal(zoneValue{RRs: rrs})], which no list of strings makes fail. *)
Class ZoneJSON := MarshalRRs : list string → string.

Record ZoneRecord := mkZoneRecord { zr_Name : string; zr_Qtype : string; zr_Data : string; zr_ObservedAt : Z }.

Record zoneRRset := mkRRset { rs_name : string; rs_qtype : string; rs_rrs : list string }.

(** The sets by key, and the keys in the order they were met. *)
Record rrset_state := mkRRsets { rr_sets : gmap string zoneRRset; rr_order : list string }.

Definition rrset_key (name qtype : string) : string := name +:+ String (byte_of 0) qtype.

Definition add_record (st : rrset_state) (rec : parsedRecord) : rrset_state :=
  let key := rrset_key (pr_name rec) (pr_qtype rec) in
  match rr_sets st !! key with
  | Some set => mkRRsets (<[key := mkRRset (rs_name set) (rs_qtype set) (rs_rrs set ++ [pr_rdata rec])]> (rr_sets st)) (rr_order st)
  | None => mkRRsets (<[key := mkRRset (pr_name rec) (pr_qtype rec) [pr_rdata rec]]> (rr_sets st)) (rr_order st ++ [key])
  end.

Section Restate.
Context {U : UnicodeUpper} {J : ZoneJSON}.

Definition restate_step (st : zoneParser * rrset_state * list string) (line : string) : zoneParser * rrset_state * list string :=
  let '(p, sets, skipped) := st in
  let '(p, res) := parse p line in
  match res with
  | parseSkipped => (p, sets, skipped ++ [TrimSpace line])
  | parseRecord rec => (p, add_record sets rec, skipped)
  | parseNone => (p, sets, skipped)
  end.

Definition RestateZone (zf : ZoneFile) : list ZoneRecord * list string :=
  let '(_, sets, skipped) :=
    foldl restate_step (mkParser (fqdn (zf_Domain zf)) "", mkRRsets ∅ [], []) (logicalLines (zf_Content zf)) in
  (omap (λ key, set ← rr_sets sets !! key;
     Some (mkZoneRecord (rs_name set) (rs_qtype set) (MarshalRRs (rs_rrs set)) (zf_SuppliedAt zf))) (rr_order sets),
   skipped).

(** [db.InsertObservationParams]. *)
Record observation_params := mkObservationParams {
  op_BatchID : Z; op_Facet : string; op_SubjectKind : string; op_SubjectKey : string; op_Discriminator : string;
  op_VantageID : option Z; op_Source : string; op_Value : string; op_ObservedAt : Z
}.

Definition toZoneObservationParams (batchID : Z) (recs : list ZoneRecord) : list observation_params :=
  map (λ r, mkObservationParams batchID "dns-record" "name" (zr_Name r) (zr_Qtype r) None ZoneSource (zr_Data r) (zr_ObservedAt r)) recs.
End Restate.

(** ** The files a dispatch reads ([db/zone.sql.go], [queue/zone.go]) *)

Record zone_row := mkZoneRow { zt_ID : Z; zt_SeedID : Z; zt_SuppliedAt : Z; zt_Content : string }.
Record name_seed := mkNameSeed { ns_ID : Z; ns_Kind : string; ns_Domain : string }.

(** [ORDER BY seed_id, supplied_at DESC, id DESC]. *)
Definition zone_row_less (a b : zone_row) : bool :=
  (zt_SeedID a <? zt_SeedID b) ||
  ((zt_SeedID a =? zt_SeedID b) &&
   ((zt_SuppliedAt b <? zt_SuppliedAt a) || ((zt_SuppliedAt a =? zt_SuppliedAt b) && (zt_ID b <? zt_ID a)))).

Definition seed_of (seeds : list name_seed) (id : Z) : option name_seed :=
  List.find (λ s, (ns_ID s =? id) && String.eqb (ns_Kind s) "name") seeds.

(** [DISTINCT ON (seed_id)] keeps the first row of each seed. *)
Definition LatestZoneFilesForDispatch (seeds : list name_seed) (rows : list zone_row) : list (zone_row * name_seed) :=
  (dedup (λ r, s ← seed_of seeds (zt_SeedID r); Some (zt_SeedID r, (r, s))) (sort_stable zone_row_less rows)).2.

Definition zoneFiles (seeds : list name_seed) (rows : list zone_row) : list ZoneFile :=
  map (λ '(r, s), mkZoneFile (zt_SeedID r) (ns_Domain s) (zt_SuppliedAt r) (zt_Content r)) (LatestZoneFilesForDispatch seeds rows).

(** ** Fields, lines and white space *)

(** A byte of a field: visible, and neither a comment nor a parenthesis. *)
Definition field_byte (c : ascii) : bool :=
  printable c && negb (Ascii.eqb c ";") && negb (Ascii.eqb c "(") && negb (Ascii.eqb c ")").

Definition field (s : string) : Prop := s ≠ "" ∧ string_forallb field_byte s = true.

#[export] Instance field_dec s : Decision (field s).
Proof. unfold field. apply _. Defined.

Lemma white_first w c r : w ∈ white_space → w = String c r → printable c = false.
Proof.
  intros Hw ->. assert (forallb (λ w, match w with String c _ => negb (printable c) | "" => true end) white_space = true) as H
    by (vm_compute; reflexivity).
  rewrite forallb_bool in H. apply H in Hw. by apply negb_true_iff.
Qed.

Lemma white_nonempty w : w ∈ white_space → w ≠ "".
Proof.
  intros Hw ->. assert (forallb (λ w, negb (String.eqb w "")) white_space = true) as H by (vm_compute; reflexivity).
  rewrite forallb_bool in H. by apply H in Hw.
Qed.

(** No white space ends in a visible byte. *)
Lemma white_last w c r : w ∈ white_space → w = (r +:+ String c "")%string → printable c = false.
Proof.
  intros Hw ->. destruct (printable c) eqn:E; [|done].
  assert (forallb (λ w, match cut_suffix (String c "") w with Some _ => negb (printable c) | None => true end) white_space = true) as H.
  { destruct c as [[] [] [] [] [] [] [] []]; try (vm_compute in E; discriminate); vm_compute; reflexivity. }
  rewrite forallb_bool in H. apply H in Hw. by rewrite (proj2 (cut_suffix_spec _ _ r) eq_refl), E in Hw.
Qed.

Lemma space_width_printable c s : printable c = true → space_width (String c s) = None.
Proof.
  intros Hc. unfold space_width. destruct (List.find _ _) as [w|] eqn:E; [|done].
  apply find_some in E as [Hw%list_elem_of_In Hp]. unfold HasPrefix in Hp. apply bool_decide_eq_true in Hp as [r Hr].
  apply cut_prefix_spec in Hr. destruct w as [|d w]; [by apply white_nonempty in Hw|].
  rewrite append_cons in Hr. injection Hr as <- _. by rewrite (white_first _ c w Hw eq_refl) in Hc.
Qed.

Lemma space_width_space s : space_width (String " " s) = Some 1%nat.
Proof. reflexivity. Qed.

Lemma field_byte_printable c : field_byte c = true → printable c = true.
Proof. unfold field_byte. by intros [[[? _]%andb_true_iff _]%andb_true_iff _]%andb_true_iff. Qed.

Lemma fields_from_word t s cur : string_forallb printable t = true →
  fields_from (t +:+ s) 0 cur = fields_from s 0 (cur +:+ t).
Proof.
  revert cur. induction t as [|c t IH]; intros cur Ht; [by rewrite append_nil, append_nil_r|].
  cbn in Ht. apply andb_true_iff in Ht as [Hc Ht]. rewrite append_cons. cbn [fields_from].
  rewrite (space_width_printable c) by done. rewrite IH by done. by rewrite <- append_assoc.
Qed.

Lemma field_nonempty t : field t → String.eqb t "" = false ∧ string_forallb printable t = true.
Proof.
  intros [Hne Ht]. split; [by apply String.eqb_neq|]. eapply string_forallb_impl, Ht. apply field_byte_printable.
Qed.

Lemma Fields_concat toks : Forall field toks → Fields (String.concat " " toks) = toks.
Proof.
  unfold Fields. induction toks as [|t [|u toks] IH]; intros Htoks; [done|..];
    apply Forall_cons in Htoks as [[Hne Ht]%field_nonempty Hrest].
  - cbn [String.concat]. rewrite <- (append_nil_r t) at 1. rewrite fields_from_word by done. rewrite append_nil. cbn [fields_from]. by rewrite Hne.
  - change (String.concat " " (t :: u :: toks)) with (t +:+ String " " (String.concat " " (u :: toks)))%string.
    rewrite fields_from_word by done. rewrite append_nil. cbn [fields_from]. rewrite space_width_space, Hne.
    cbn [Nat.sub app]. by rewrite IH.
Qed.

Lemma string_last s : s = "" ∨ ∃ r c, s = (r +:+ String c "")%string.
Proof.
  induction s as [|a s [->|(r & c & ->)]]; [by left|right; by exists "", a|right; exists (String a r), c]. done.
Qed.

Lemma string_snoc_inj r r' c c' : (r +:+ String c "" = r' +:+ String c' "")%string → c = c'.
Proof.
  revert r'. induction r as [|a r IH]; intros [|a' r']; rewrite ?append_nil, ?append_cons; intros E.
  - by injection E.
  - destruct r'; discriminate.
  - destruct r; discriminate.
  - injection E as _ E. eauto.
Qed.

Lemma TrimSpace_ends s c r c' r' : s = String c r → printable c = true → s = (r' +:+ String c' "")%string → printable c' = true →
  TrimSpace s = s.
Proof.
  intros Hs Hc Hs' Hc'.
  assert (∀ (cut : string → string → option string) fuel, (∀ w, w ∈ white_space → cut w s = None) → trim_with cut fuel s = s) as Hid.
  { intros cut [|fuel] Hcut; [done|]. cbn [trim_with]. destruct (list_find is_Some _) as [[i o]|] eqn:Hf; [|done]. exfalso.
    apply list_find_Some in Hf as (Ho & [x ->] & _). rewrite list_lookup_fmap in Ho.
    destruct (white_space !! i) as [w|] eqn:Hw; [|done]. cbn in Ho. injection Ho as Ho.
    rewrite Hcut in Ho; [done|]. by eapply list_elem_of_lookup_2. }
  unfold TrimSpace. rewrite Hid; [apply Hid|].
  - intros w Hw. destruct (cut_suffix w s) as [x|] eqn:E; [|done]. apply cut_suffix_spec in E.
    destruct (string_last w) as [->|(w' & d & ->)]; [by apply white_nonempty in Hw|].
    assert (d = c') as ->. { apply (string_snoc_inj (x +:+ w')%string r'). by rewrite <- append_assoc, <- E. }
    by rewrite (white_last _ c' w' Hw eq_refl) in Hc'.
  - intros w Hw. destruct (cut_prefix w s) as [x|] eqn:E; [|done]. apply cut_prefix_spec in E.
    destruct w as [|d w]; [by apply white_nonempty in Hw|]. rewrite append_cons, Hs in E. injection E as <- _.
    by rewrite (white_first _ c w Hw eq_refl) in Hc.
Qed.

Lemma forallb_concat f sep l : string_forallb f sep = true → Forall (λ s, string_forallb f s = true) l →
  string_forallb f (String.concat sep l) = true.
Proof.
  intros Hsep. induction l as [|s [|t l] IH]; intros Hl; [done|..]; apply Forall_cons in Hl as [Hs Hl]; [done|].
  change (String.concat sep (s :: t :: l)) with (s +:+ sep +:+ String.concat sep (t :: l))%string.
  rewrite !string_forallb_app, Hs, Hsep. by apply IH.
Qed.

(** The line of visible fields, as its readers take it apart. *)
Section Line.
Context (toks : list string) (Htoks : Forall field toks) (Hne : toks ≠ []).

Definition line_byte (c : ascii) : bool := field_byte c || Ascii.eqb c " ".

Lemma line_bytes : string_forallb line_byte (String.concat " " toks) = true.
Proof.
  apply forallb_concat; [done|]. eapply Forall_impl; [apply Htoks|]. intros s [_ Hs].
  eapply string_forallb_impl, Hs. intros c Hc. unfold line_byte. by rewrite Hc.
Qed.

Lemma line_without b : line_byte b = false → string_forallb (λ c, negb (Ascii.eqb c b)) (String.concat " " toks) = true.
Proof.
  intros Hb. eapply string_forallb_impl, line_bytes. intros c Hc. apply negb_true_iff, Ascii.eqb_neq. intros ->. congruence.
Qed.

Lemma line_first : ∃ c r t, head toks = Some (String c t) ∧ String.concat " " toks = String c r ∧ printable c = true.
Proof.
  destruct toks as [|t l]; [done|]. apply Forall_cons in Htoks as [[Ht Hf] _]. destruct t as [|c t]; [done|].
  cbn in Hf. apply andb_true_iff in Hf as [Hc%field_byte_printable _]. destruct l; eauto 6.
Qed.

Lemma line_last : ∃ c r, String.concat " " toks = (r +:+ String c "")%string ∧ printable c = true.
Proof.
  revert Htoks Hne. clear. induction toks as [|t l IH]; intros Hall Hne; [done|]. apply Forall_cons in Hall as [[Ht Hf] Hl]. destruct l as [|u l].
  - destruct (string_last t) as [->|(r & c & ->)]; [done|]. exists c, r. split; [done|].
    rewrite string_forallb_app in Hf. apply andb_true_iff in Hf as [_ Hc]. cbn in Hc. rewrite andb_true_r in Hc.
    by apply field_byte_printable.
  - destruct (IH Hl ltac:(done)) as (c & r & E & Hc). exists c, (t +:+ " " +:+ r). split; [|done].
    change (String.concat " " (t :: u :: l)) with (t +:+ " " +:+ String.concat " " (u :: l))%string.
    by rewrite E, !append_assoc.
Qed.

Lemma line_trim : TrimSpace (String.concat " " toks) = String.concat " " toks.
Proof.
  destruct line_first as (c & r & _ & _ & E & Hc). destruct line_last as (c' & r' & E' & Hc').
  by eapply TrimSpace_ends.
Qed.

Lemma line_nonblank : String.eqb (String.concat " " toks) "" = false ∧ begins_blank (String.concat " " toks) = false.
Proof.
  destruct line_first as (c & r & _ & _ & E & Hc). rewrite E. split; [done|]. cbn [begins_blank].
  apply orb_false_iff; split; apply Ascii.eqb_neq; intros ->; vm_compute in Hc; discriminate.
Qed.

Lemma line_uncommented : stripComment (String.concat " " toks) = String.concat " " toks.
Proof. unfold stripComment. by rewrite IndexByte_none by by apply line_without. Qed.

Lemma line_undirected d t : head toks = Some t → HasPrefix t "$" = false → HasPrefix (String.concat " " toks) (String "$" d) = false.
Proof.
  destruct line_first as (c & r & u & E & -> & _). rewrite E. intros [= <-] H. unfold HasPrefix in *. cbn [cut_prefix] in *.
  by destruct (Ascii.eqb "$" c).
Qed.
End Line.

(** ** A zone written out *)

Record declared := mkDeclared { de_name : string; de_qtype : string; de_rdata : list string }.

(** The name is canonical and a subject, the type one the reader knows, and the
    data visible fields. *)
Definition declared_ok (d : declared) : Prop :=
  field (de_name d) ∧ FoldASCII (de_name d) = de_name d ∧ HasPrefix (de_name d) "$" = false ∧
  leftmostWildcard (de_name d) = false ∧ de_qtype d ∈ knownTypes ∧ Forall field (de_rdata d) ∧ de_rdata d ≠ [].

#[export] Instance declared_ok_dec d : Decision (declared_ok d).
Proof. unfold declared_ok. apply _. Defined.

Definition declared_fields (d : declared) : list string :=
  (de_name d +:+ ".") :: "IN" :: de_qtype d :: de_rdata d.

Definition zone_text (ds : list declared) : string :=
  foldr (λ d s, String.concat " " (declared_fields d) +:+ String LF s) "" ds.

Definition parsed_of (d : declared) : parsedRecord :=
  mkParsed (de_name d) (de_qtype d) (String.concat " " (de_rdata d)).

Lemma string_map_app f s t : string_map f (s +:+ t) = (string_map f s +:+ string_map f t)%string.
Proof. induction s as [|c s IH]; [done|]. rewrite append_cons. cbn [string_map]. by rewrite IH, append_cons. Qed.

Lemma declared_fields_ok d : declared_ok d → Forall field (declared_fields d).
Proof.
  intros ([Hn Hf] & _ & _ & _ & Ht & Hr & _). unfold declared_fields. rewrite !Forall_cons.
  split; [|split; [by split|split; [|done]]].
  - split; [by destruct (de_name d)|]. by rewrite string_forallb_app, Hf.
  - assert (forallb (λ t, bool_decide (field t)) knownTypes = true) as H by (vm_compute; reflexivity).
    rewrite forallb_bool in H. by apply H, bool_decide_eq_true in Ht.
Qed.

Lemma qtype_tokens {U : UnicodeUpper} d : declared_ok d →
  ToUpper (de_qtype d) = de_qtype d ∧ bool_decide (ToUpper (de_qtype d) ∈ recordClasses) || isTTL (de_qtype d) = false ∧
  leading_digit (de_qtype d) || isClass (de_qtype d) = false.
Proof.
  intros (_ & _ & _ & _ & Ht & _).
  assert (forallb (λ t, String.eqb (ToUpper t) t && negb (bool_decide (ToUpper t ∈ recordClasses) || isTTL t) &&
    negb (leading_digit t || isClass t)) knownTypes = true) as H by (vm_compute; reflexivity).
  rewrite forallb_bool in H. apply H in Ht. apply andb_true_iff in Ht as [[E%String.eqb_eq H1%negb_true_iff]%andb_true_iff H2%negb_true_iff].
  done.
Qed.

Lemma dotted_name d : declared_ok d →
  String.eqb (de_name d +:+ ".") "@" = false ∧ HasSuffix (de_name d +:+ ".") "." = true ∧
  TrimSpace (de_name d +:+ ".") = (de_name d +:+ ".")%string ∧ FoldASCII (de_name d +:+ ".") = (de_name d +:+ ".")%string ∧
  HasPrefix (de_name d +:+ ".") "$" = false ∧ highBit (de_name d) = false.
Proof.
  intros ([Hn Hf] & Hl & Hd & _). assert (string_forallb printable (de_name d) = true) as Hp
    by (eapply string_forallb_impl, Hf; apply field_byte_printable). split_and!.
  - destruct (de_name d) as [|a [|b n]]; [done| |]; apply String.eqb_neq; discriminate.
  - apply HasSuffix_app.
  - apply TrimSpace_printable. by rewrite string_forallb_app, Hp.
  - unfold FoldASCII in *. rewrite string_map_app, Hl. done.
  - destruct (de_name d) as [|c n]; [done|]. rewrite append_cons. unfold HasPrefix in *. cbn [cut_prefix] in *. by destruct (Ascii.eqb "$" c).
  - clear -Hp. unfold highBit. induction (de_name d) as [|c n IH]; [done|]. cbn in Hp |- *. apply andb_true_iff in Hp as [Hc Hp].
    rewrite IH by done. unfold printable in Hc. apply andb_true_iff in Hc as [_ Hc%Z.ltb_lt].
    rewrite orb_false_r. by apply Z.leb_gt.
Qed.

Lemma count_byte_none b s : string_forallb (λ c, negb (Ascii.eqb c b)) s = true → count_byte b s = 0.
Proof. induction s as [|c s IH]; [done|]. cbn. intros [->%negb_true_iff Hs]%andb_true_iff. by rewrite IH. Qed.

Lemma blank_byte_none b s : string_forallb (λ c, negb (Ascii.eqb c b)) s = true → blank_byte b s = s.
Proof.
  unfold blank_byte. induction s as [|c s IH]; [done|]. cbn. intros [->%negb_true_iff Hs]%andb_true_iff. by rewrite IH.
Qed.

(** *** One line, by each reader *)

Section OneLine.
Context {U : UnicodeUpper} {F : UnicodeFold} (d : declared) (Hd : declared_ok d).
Notation line := (String.concat " " (declared_fields d)).

Lemma line_parsed p : parse p line = (mkParser (zp_origin p) (de_name d), parseRecord (parsed_of d)).
Proof.
  pose proof (declared_fields_ok d Hd) as Hf. destruct (dotted_name d Hd) as (H1 & H2 & H3 & H4 & H5 & H6).
  destruct (qtype_tokens d Hd) as (Q1 & Q2 & _). destruct Hd as (_ & Hl & _ & Hw & Ht & Hr & Hne).
  destruct (line_nonblank _ Hf ltac:(done)) as [Hb Hi].
  unfold parse. rewrite line_uncommented, line_trim, Hb by done.
  rewrite !(line_undirected _ Hf ltac:(done) _ _ eq_refl H5), Hi, Fields_concat by done. cbn [declared_fields].
  assert (resolveName (zp_origin p) (de_name d +:+ ".") = de_name d) as ->.
  { unfold resolveName, trimDot. rewrite H3, H1, H2, H4. apply TrimSuffix_app. }
  unfold subjectOwner. rewrite Hw, H6. cbn [negb andb]. f_equal. unfold parse_rest. cbn [drop_class_ttl].
  change (bool_decide (ToUpper "IN" ∈ recordClasses) || isTTL "IN") with true. cbv iota. rewrite Q2.
  destruct (de_rdata d) as [|r rest] eqn:Er; [done|]. rewrite Q1, bool_decide_eq_true_2 by done. cbn [negb].
  rewrite line_trim by done. destruct (line_nonblank _ Hr ltac:(done)) as [-> _]. unfold parsed_of. by rewrite Er.
Qed.

Lemma line_walked st : walk_line st line = mkWalk (wk_cur st) (de_name d) (wk_visits st ++ [(de_name d, "IN" :: de_qtype d :: de_rdata d)]).
Proof.
  pose proof (declared_fields_ok d Hd) as Hf. destruct (dotted_name d Hd) as (H1 & H2 & H3 & H4 & H5 & H6).
  pose proof Hd as ([Hn _] & Hl & _ & Hw & _). destruct (line_nonblank _ Hf ltac:(done)) as [Hb Hi].
  unfold walk_line. rewrite line_uncommented, line_trim, Hb by done.
  rewrite (line_undirected _ Hf ltac:(done) _ _ eq_refl H5), Hi, Fields_concat by done. cbn [declared_fields].
  assert (qualify (de_name d +:+ ".") (wk_cur st) = de_name d) as ->.
  { unfold qualify, CanonicalName. rewrite H1, H2, TrimSuffix_app. exact Hl. }
  rewrite Hw, H6. by rewrite (proj2 (String.eqb_neq _ _) Hn).
Qed.

Lemma line_type : rrType ("IN" :: de_qtype d :: de_rdata d) = de_qtype d.
Proof.
  destruct (qtype_tokens d Hd) as (Q1 & _ & Q3). cbn [rrType].
  change (leading_digit "IN" || isClass "IN") with true. cbv iota. by rewrite Q3, Q1.
Qed.
End OneLine.

(** *** All lines *)

Lemma zone_text_split ds : Forall declared_ok ds →
  Split LF (zone_text ds) = map (λ d, String.concat " " (declared_fields d)) ds ++ [""] ∧
  unix_lines (zone_text ds) = zone_text ds.
Proof.
  induction 1 as [|d ds Hd _ [IH1 IH2]]; [done|]. pose proof (declared_fields_ok d Hd) as Hf. cbn [zone_text foldr map app]. fold (zone_text ds). split.
  - rewrite Split_app by by apply line_without. by f_equal.
  - generalize (line_without _ Hf CR eq_refl). generalize (String.concat " " (declared_fields d)). intros t.
    induction t as [|c t IHt]; intros Ht.
    + rewrite append_nil. rewrite <- IH2 at 2. by destruct (zone_text ds).
    + cbn in Ht. apply andb_true_iff in Ht as [Hc%negb_true_iff Ht]. rewrite append_cons. specialize (IHt Ht).
      destruct (t +:+ String LF (zone_text ds)) as [|b r]; [done|]. cbn [unix_lines].
      rewrite (Hc : Ascii.eqb c CR = false). cbn [andb]. by f_equal.
Qed.

Lemma logical_lines ds : Forall declared_ok ds →
  logicalLines (zone_text ds) = map (λ d, String.concat " " (declared_fields d)) ds ++ [""].
Proof.
  intros Hall. unfold logicalLines. destruct (zone_text_split ds Hall) as [Hs ->]. rewrite Hs.
  assert (∀ out, foldl logical_step (mkLines out "" 0) (map (λ d, String.concat " " (declared_fields d)) ds) =
    mkLines (out ++ map (λ d, String.concat " " (declared_fields d)) ds) "" 0) as Hloop.
  { clear Hs. induction Hall as [|d ds Hd _ IH]; intros out; [by rewrite app_nil_r|]. cbn [map foldl].
    pose proof (declared_fields_ok d Hd) as Hf.
    assert (logical_step (mkLines out "" 0) (String.concat " " (declared_fields d)) =
      mkLines (out ++ [String.concat " " (declared_fields d)]) "" 0) as ->; [|by rewrite IH, <- app_assoc].
    unfold logical_step. cbn [ls_buf ls_depth ls_out]. rewrite line_uncommented by done.
    rewrite !count_byte_none by by apply line_without. cbn [String.eqb]. unfold flush. cbn [ls_out ls_buf ls_depth].
    rewrite (blank_byte_none "(") by by apply line_without. by rewrite blank_byte_none by by apply line_without. }
  rewrite foldl_app, Hloop. reflexivity.
Qed.

(** *** The record sets *)

Definition rec_key (r : parsedRecord) : string * string := (pr_name r, pr_qtype r).

Definition set_of (recs : list parsedRecord) (k : string * string) : zoneRRset :=
  mkRRset k.1 k.2 (map pr_rdata (filter (λ r, rec_key r = k) recs)).

(** The sets of the records, each where its first record is. *)
Definition key_order (recs : list parsedRecord) : list (string * string) := (dedup (λ r, Some (rec_key r, rec_key r)) recs).2.

Lemma rrset_key_inj n q n' q' : q ∈ knownTypes → q' ∈ knownTypes → rrset_key n q = rrset_key n' q' → (n, q) = (n', q').
Proof.
  assert (∀ t, t ∈ knownTypes → string_forallb (λ c, negb (Ascii.eqb c (byte_of 0))) t = true) as Hnul.
  { intros t Ht. assert (forallb (string_forallb (λ c, negb (Ascii.eqb c (byte_of 0)))) knownTypes = true) as H by (vm_compute; reflexivity).
    rewrite forallb_bool in H. by apply H. }
  intros Hq%Hnul Hq'%Hnul. unfold rrset_key. revert n'. induction n as [|c n IH]; intros [|c' n']; rewrite ?append_nil, ?append_cons.
  - by intros [= ->].
  - intros [= <- ->]. rewrite string_forallb_app in Hq. cbn [string_forallb] in Hq. rewrite Ascii.eqb_refl in Hq.
    cbn [negb andb] in Hq. by rewrite andb_false_r in Hq.
  - intros [= -> <-]. rewrite string_forallb_app in Hq'. cbn [string_forallb] in Hq'. rewrite Ascii.eqb_refl in Hq'.
    cbn [negb andb] in Hq'. by rewrite andb_false_r in Hq'.
  - intros [= -> E]. by injection (IH n' E) as -> ->.
Qed.

Lemma key_order_snoc recs r :
  key_order (recs ++ [r]) = if decide (rec_key r ∈ key_order recs) then key_order recs else key_order recs ++ [rec_key r].
Proof.
  unfold key_order. rewrite dedup_snoc. unfold dedup_step. rewrite dedup_by_seen. case_decide as E.
  - by rewrite bool_decide_eq_true_2 by by apply elem_of_list_to_set.
  - rewrite bool_decide_eq_false_2; [done|]. by rewrite elem_of_list_to_set.
Qed.

Lemma set_of_snoc recs r k :
  set_of (recs ++ [r]) k = if decide (rec_key r = k) then mkRRset k.1 k.2 (rs_rrs (set_of recs k) ++ [pr_rdata r]) else set_of recs k.
Proof.
  unfold set_of. rewrite filter_app, map_app, filter_cons, filter_nil. case_decide; [done|]. by rewrite app_nil_r.
Qed.

Lemma add_records recs : Forall (λ r, pr_qtype r ∈ knownTypes) recs →
  let st := foldl add_record (mkRRsets ∅ []) recs in
  rr_order st = map (λ k, rrset_key k.1 k.2) (key_order recs) ∧
  ∀ k, k.2 ∈ knownTypes → rr_sets st !! rrset_key k.1 k.2 = if decide (k ∈ key_order recs) then Some (set_of recs k) else None.
Proof.
  induction recs as [|r recs IH] using rev_ind; intros Hall; [done|].
  apply Forall_app in Hall as [Hall [Hr _]%Forall_cons]. destruct (IH Hall) as [Ho Hs]. cbv zeta. rewrite foldl_app. cbn [foldl].
  set (st := foldl add_record _ recs) in *. clearbody st. pose proof (Hs (rec_key r) Hr) as Hr'. cbn [rec_key fst snd] in Hr'.
  assert (∀ k, k.2 ∈ knownTypes → rec_key r ≠ k → rrset_key (pr_name r) (pr_qtype r) ≠ rrset_key k.1 k.2) as Hother.
  { intros [n q] Hk Hne E. apply Hne. by apply (rrset_key_inj _ _ n q) in E. }
  rewrite key_order_snoc. unfold add_record. fold (rec_key r) in Hr'. rewrite Hr'.
  destruct (decide (rec_key r ∈ key_order recs)) as [Hin|Hin]; cbn [rr_order rr_sets]; (split; [|intros k Hk; rewrite ?set_of_snoc]).
  - done.
  - destruct (decide (rec_key r = k)) as [<-|Hne]; [|by rewrite lookup_insert_ne, Hs by auto].
    rewrite decide_True by done. by rewrite lookup_insert_eq.
  - by rewrite Ho, map_app.
  - destruct (decide (rec_key r = k)) as [<-|Hne].
    + rewrite decide_True by (apply elem_of_app; right; by left). rewrite lookup_insert_eq. f_equal. unfold set_of. cbn [rec_key fst snd]. do 2 f_equal.
      rewrite filter_none; [done|]. intros x Hx E. apply Hin, (elem_of_dedup_by rec_key). eauto.
    + rewrite lookup_insert_ne, Hs by auto. destruct (decide (k ∈ key_order recs)) as [Hk'|Hk'].
      * by rewrite decide_True by (apply elem_of_app; by left).
      * rewrite decide_False; [done|]. rewrite elem_of_app, list_elem_of_singleton. intuition congruence.
Qed.

Section Readers.
Context {U : UnicodeUpper} {F : UnicodeFold} {J : ZoneJSON}.

(** What each line of a text is read as. *)
Fixpoint readings (p : zoneParser) (lines : list string) : list (string * parseResult) :=
  match lines with
  | [] => []
  | l :: lines' => let '(p', res) := parse p l in (l, res) :: readings p' lines'
  end.

Definition read_records (rs : list (string * parseResult)) : list parsedRecord :=
  omap (λ r, match r.2 with parseRecord rec => Some rec | _ => None end) rs.

Definition read_skipped (rs : list (string * parseResult)) : list string :=
  omap (λ r, match r.2 with parseSkipped => Some (TrimSpace r.1) | _ => None end) rs.

Lemma restate_readings lines p sets skipped :
  (foldl restate_step (p, sets, skipped) lines).1.2 = foldl add_record sets (read_records (readings p lines)) ∧
  (foldl restate_step (p, sets, skipped) lines).2 = skipped ++ read_skipped (readings p lines).
Proof.
  revert p sets skipped. induction lines as [|l lines IH]; intros p sets skipped; [by rewrite app_nil_r|]. cbn [foldl readings].
  unfold restate_step at 2 4. destruct (parse p l) as [p' res]. destruct (IH p' sets skipped) as [IH1 IH2].
  destruct res as [| |rec]; cbn [read_records read_skipped omap list_omap fst snd].
  - by split.
  - split; [by apply IH|]. rewrite (proj2 (IH _ _ _)). by rewrite <- app_assoc.
  - by split; apply IH.
Qed.

Lemma parse_known p l rec : (parse p l).2 = parseRecord rec → pr_qtype rec ∈ knownTypes ∧ subjectOwner (pr_name rec) = true.
Proof.
  assert (∀ owner fields, parse_rest owner fields = parseRecord rec → pr_qtype rec ∈ knownTypes ∧ pr_name rec = owner) as Hrest.
  { intros owner fields. unfold parse_rest. destruct (drop_class_ttl fields) as [|t [|r rest]]; [done..|].
    destruct (bool_decide (ToUpper t ∈ knownTypes)) eqn:E; [|done]. cbn [negb]. destruct (String.eqb _ ""); [done|].
    intros [= <-]. split; [by apply bool_decide_eq_true in E|done]. }
  assert (∀ owner fields, (if subjectOwner owner then parse_rest owner fields else parseSkipped) = parseRecord rec →
    pr_qtype rec ∈ knownTypes ∧ subjectOwner (pr_name rec) = true) as Howner.
  { intros owner fields. destruct (subjectOwner owner) eqn:E; [|done]. intros [? ->]%Hrest. done. }
  unfold parse. cbv zeta. destruct (String.eqb (TrimSpace _) ""); [done|]. destruct (HasPrefix _ "$ORIGIN").
  { by destruct (Fields (TrimSpace _)) as [|? [|? ?]]. }
  destruct (HasPrefix _ "$"); [done|]. destruct (Fields _) as [|f rest]; [done|].
  destruct (begins_blank _); [destruct (String.eqb (zp_lastOwner p) ""); [done|]|]; cbn [snd]; apply Howner.
Qed.

(** The records of any file: one for each name and type that some line of it
    declares, in the order of the first such line, with the data of all such
    lines in theirs; and the lines that were dropped. *)
Lemma RestateZone_spec zf :
  let rs := readings (mkParser (fqdn (zf_Domain zf)) "") (logicalLines (zf_Content zf)) in
  let recs := read_records rs in
  RestateZone zf =
    (map (λ k, mkZoneRecord k.1 k.2 (MarshalRRs (map pr_rdata (filter (λ r, rec_key r = k) recs))) (zf_SuppliedAt zf)) (key_order recs),
     read_skipped rs).
Proof.
  intros rs recs. unfold RestateZone. destruct (restate_readings (logicalLines (zf_Content zf)) (mkParser (fqdn (zf_Domain zf)) "") (mkRRsets ∅ []) []) as [H1 H2].
  destruct (foldl restate_step _ _) as [[p sets] skipped]. cbn [fst snd app] in H1, H2. subst sets skipped. f_equal.
  assert (Forall (λ r, pr_qtype r ∈ knownTypes) recs) as Hk.
  { apply Forall_forall. intros r Hr. apply list_elem_of_omap in Hr as ([l res] & Hin & E). cbn [snd] in E. destruct res as [| |r']; [done..|].
    injection E as ->. subst rs. revert Hin. generalize (mkParser (fqdn (zf_Domain zf)) ""). induction (logicalLines (zf_Content zf)) as [|l' ls IH].
    - by intros q ?%elem_of_nil.
    - intros q. cbn [readings]. destruct (parse q l') as [q' res] eqn:Ep. intros [[= <- <-]|Hin]%elem_of_cons; [|by eapply IH].
      apply (parse_known q l r). by rewrite Ep. }
  destruct (add_records recs Hk) as [Ho Hs]. fold rs. fold recs. rewrite Ho.
  assert (∀ k, k ∈ key_order recs → k.2 ∈ knownTypes) as Hkey.
  { intros k (r & Hr & <-)%(elem_of_dedup_by rec_key). by rewrite Forall_forall in Hk; apply Hk. }
  assert (∀ l, (∀ k, k ∈ l → k ∈ key_order recs) → omap (λ key, set ← rr_sets (foldl add_record (mkRRsets ∅ []) recs) !! key;
     Some (mkZoneRecord (rs_name set) (rs_qtype set) (MarshalRRs (rs_rrs set)) (zf_SuppliedAt zf))) (map (λ k, rrset_key k.1 k.2) l) =
    map (λ k, mkZoneRecord k.1 k.2 (MarshalRRs (map pr_rdata (filter (λ r, rec_key r = k) recs))) (zf_SuppliedAt zf)) l) as Hmap; [|by apply Hmap].
  induction l as [|k l IH]; intros Hl; [done|]. cbn [map omap list_omap]. assert (k ∈ key_order recs) as Hin by (apply Hl; by left).
  rewrite Hs, decide_True by auto. cbn [mbind option_bind]. f_equal. apply IH. intros ??. apply Hl. by right.
Qed.
End Readers.

(** ** Both readers of one file *)

Section Agree.
Context {U : UnicodeUpper} {F : UnicodeFold} {J : ZoneJSON} (ds : list declared) (Hds : Forall declared_ok ds).

Lemma declared_readings p rest : readings p (map (λ d, String.concat " " (declared_fields d)) ds ++ rest) =
  map (λ d, (String.concat " " (declared_fields d), parseRecord (parsed_of d))) ds ++
  readings (mkParser (zp_origin p) (default (zp_lastOwner p) (de_name <$> last ds))) rest.
Proof.
  revert p. induction Hds as [|d l Hd Hl IH]; intros p; [by destruct p|]. cbn [map app readings]. rewrite line_parsed by done.
  f_equal. rewrite (IH Hl). cbn [zp_origin zp_lastOwner]. do 2 f_equal. rewrite last_cons. by destruct (last l).
Qed.

Lemma declared_walk st : foldl walk_line st (map (λ d, String.concat " " (declared_fields d)) ds) =
  mkWalk (wk_cur st) (default (wk_lastOwner st) (de_name <$> last ds))
    (wk_visits st ++ map (λ d, (de_name d, "IN" :: de_qtype d :: de_rdata d)) ds).
Proof.
  revert st. induction Hds as [|d l Hd Hl IH]; intros st; [by destruct st; rewrite app_nil_r|]. cbn [map foldl].
  rewrite line_walked, (IH Hl) by done. cbn [wk_cur wk_lastOwner wk_visits]. rewrite <- app_assoc. f_equal. rewrite last_cons. by destruct (last l).
Qed.

Lemma declared_visits origin :
  walkOwners (zone_text ds) origin = map (λ d, (de_name d, "IN" :: de_qtype d :: de_rdata d)) ds.
Proof.
  unfold walkOwners. rewrite (proj1 (zone_text_split ds Hds)), foldl_app, declared_walk. reflexivity.
Qed.

(** [C27] A zone written out reads back.  The zone is written one record to a line:
    an absolute owner in lower case that is no wildcard and begins with no dollar
    sign, the class IN, no TTL, a type of the Scan's list and at least one field of
    data, the fields of visible ASCII characters other than semicolons and
    parentheses.  Of such a text the Scan restates each name and type once, in the
    order of the text, with all its data in order, and drops no line; and the names
    the signals take as declared and delegated are those of the same records, the
    cuts being the names of its NS records that are not the apex. *)
Theorem zone_reads_back seed domain supplied :
  let set k := filter (λ d, (de_name d, de_qtype d) = k) ds in
  RestateZone (mkZoneFile seed domain supplied (zone_text ds)) =
    (map (λ k, mkZoneRecord k.1 k.2 (MarshalRRs (map (λ d, String.concat " " (de_rdata d)) (set k))) supplied)
       (dedup (λ d, Some ((de_name d, de_qtype d), (de_name d, de_qtype d))) ds).2, []) ∧
  (∀ n, n ∈ DeclaredNames (zone_text ds) domain ↔ ∃ d, d ∈ ds ∧ de_name d = n) ∧
  (∀ n, n ∈ DelegatedSubzones (zone_text ds) domain ↔
     n ≠ CanonicalName domain ∧ ∃ d, d ∈ ds ∧ de_name d = n ∧ de_qtype d = "NS").
Proof.
  intros set. split_and!.
  - rewrite RestateZone_spec. cbn [zf_Domain zf_Content zf_SuppliedAt]. rewrite logical_lines, declared_readings by done.
    set (tail := readings _ [""]). assert (read_records tail = [] ∧ read_skipped tail = []) as [T1 T2] by done. clearbody tail.
    assert (read_records (map (λ d, (String.concat " " (declared_fields d), parseRecord (parsed_of d))) ds ++ tail) = map parsed_of ds) as ->.
    { unfold read_records in *. rewrite omap_app, T1, app_nil_r. clear. induction ds as [|d l IH]; [done|]. cbn. by f_equal. }
    assert (read_skipped (map (λ d, (String.concat " " (declared_fields d), parseRecord (parsed_of d))) ds ++ tail) = []) as ->.
    { unfold read_skipped in *. rewrite omap_app, T2, app_nil_r. clear. induction ds as [|d l IH]; [done|]. cbn. done. }
    f_equal. assert (key_order (map parsed_of ds) = (dedup (λ d, Some ((de_name d, de_qtype d), (de_name d, de_qtype d))) ds).2) as ->.
    { unfold key_order, dedup. generalize (∅ : gset (string * string), @nil (string * string)). clear.
      induction ds as [|d l IH]; intros st; [done|]. cbn [map foldl]. by rewrite <- IH. }
    apply map_ext. intros k. do 2 f_equal. subst set. clear. cbv beta.
    induction ds as [|d l IH]; [done|]. cbn [map]. rewrite !filter_cons. unfold rec_key at 1. cbn [parsed_of pr_name pr_qtype].
    repeat case_decide; try done. cbn [map]. by f_equal.
  - intros n. unfold DeclaredNames. rewrite declared_visits, elem_of_list_to_set, map_map. cbn [fst]. rewrite list_elem_of_fmap.
    split; [intros (d & -> & ?)|intros (d & ? & <-)]; eauto.
  - intros n. unfold DelegatedSubzones. rewrite declared_visits, elem_of_list_to_set, list_elem_of_fmap.
    assert (∀ d, d ∈ ds → rrType ("IN" :: de_qtype d :: de_rdata d) = de_qtype d) as Hrr.
    { intros d Hd. apply line_type. by eapply Forall_forall. }
    setoid_rewrite list_elem_of_filter. setoid_rewrite list_elem_of_fmap. split.
    + intros ([n' r] & -> & [Ha Ht] & (d & [= -> ->] & Hd)).
      change (de_name d ≠ CanonicalName domain) in Ha. cbn [snd] in Ht. rewrite Hrr in Ht by done. eauto 6.
    + intros [Ha (d & Hd & <- & Ht)]. exists (de_name d, "IN" :: de_qtype d :: de_rdata d). cbn [fst snd].
      rewrite Hrr by done. eauto 6.
Qed.
End Agree.

(** A cut is a declared name, in any file. *)
Lemma DelegatedSubzones_declared {U : UnicodeUpper} {F : UnicodeFold} content origin :
  DelegatedSubzones content origin ⊆ DeclaredNames content origin.
Proof.
  intros n. unfold DelegatedSubzones, DeclaredNames. rewrite !elem_of_list_to_set, !list_elem_of_fmap.
  intros (v & -> & [_ Hv]%list_elem_of_filter). eauto.
Qed.

(** ** Ageing *)

(** A supplied file is stale from the end of its interval on, with the whole days
    it has been; a current one counts the days left upwards, so it never reads
    as having none. *)
Lemma ZoneAgingAt_spec suppliedAt now interval :
  0 < interval → suppliedAt ≠ zeroTime → in_int64 (suppliedAt + interval - now + 24 * Hour) → in_int64 (now - (suppliedAt + interval)) →
  let left := suppliedAt + interval - now in
  let a := ZoneAgingAt suppliedAt now interval in
  za_Supplied a = true ∧ (za_Stale a = true ↔ left ≤ 0) ∧
  (left ≤ 0 → za_Days a * (24 * Hour) ≤ - left < (za_Days a + 1) * (24 * Hour)) ∧
  (0 < left → 1 ≤ za_Days a ∧ (za_Days a - 1) * (24 * Hour) < left ≤ za_Days a * (24 * Hour)).
Proof.
  intros Hi Hz H1 H2 left a. subst a. unfold ZoneAgingAt, IsZero, TimeAdd, Before in *.
  rewrite (proj2 (Z.eqb_neq _ _) Hz), (proj2 (Z.leb_gt _ _) Hi). set (day := 24 * Hour) in *.
  assert (day = 86400000000000) as Eday by reflexivity. clearbody day.
  destruct (Z.ltb_spec now (suppliedAt + interval)) as [Hlt|Hge]; cbn [negb za_Supplied za_Stale za_Days].
  - unfold in_int64, minInt64, maxInt64 in *. rewrite TimeSub_exact by (unfold in_int64, minInt64, maxInt64; lia).
    rewrite (wrap64_id (_ + day)), wrap64_id by (unfold in_int64, minInt64, maxInt64, Nanosecond; lia). fold left.
    assert (0 < left) by lia. rewrite Z.quot_div_nonneg by (unfold Nanosecond; lia).
    pose proof (Z.div_mod (left + day - Nanosecond) day ltac:(lia)) as E. pose proof (Z.mod_pos_bound (left + day - Nanosecond) day ltac:(lia)).
    unfold Nanosecond in *. split_and!; [done|split; [done|lia]|lia|nia].
  - rewrite TimeSub_exact by done. rewrite Z.quot_div_nonneg by lia. replace (now - (suppliedAt + interval)) with (- left) by lia.
    pose proof (Z.div_mod (- left) day ltac:(lia)) as E. pose proof (Z.mod_pos_bound (- left) day ltac:(lia)).
    split_and!; [done|split; [lia|done]|nia|lia].
Qed.

(** ** The files of a dispatch *)

Definition zone_pick (seeds : list name_seed) (r : zone_row) : option (Z * (zone_row * name_seed)) :=
  s ← seed_of seeds (zt_SeedID r); Some (zt_SeedID r, (r, s)).

#[export] Instance zone_row_weak : StrictWeak zone_row_less.
Proof.
  split; unfold zone_row_less; intros x y *; rewrite <- ?not_true_iff_false, ?orb_true_iff, ?andb_true_iff, ?orb_true_iff, ?andb_true_iff,
    ?Z.ltb_lt, ?Z.eqb_eq; lia.
Qed.

(** The rows of a sorted table that [DISTINCT ON] keeps. *)
Lemma distinct_on seeds rows : StronglySorted (not_after zone_row_less) rows →
  let st := dedup (zone_pick seeds) rows in
  (∀ k, k ∈ st.1 ↔ k ∈ map (λ p, zt_SeedID p.1) st.2) ∧ NoDup (map (λ p, zt_SeedID p.1) st.2) ∧
  (∀ p, p ∈ st.2 → p.1 ∈ rows ∧ seed_of seeds (zt_SeedID p.1) = Some p.2) ∧
  (∀ p r, p ∈ st.2 → r ∈ rows → zt_SeedID r = zt_SeedID p.1 → zone_row_less r p.1 = false) ∧
  (∀ r, r ∈ rows → is_Some (seed_of seeds (zt_SeedID r)) → zt_SeedID r ∈ st.1).
Proof.
  induction rows as [|x rows IH] using rev_ind; intros Hsorted.
  { cbn. split_and!; [set_solver|constructor|by intros ? ?%elem_of_nil|by intros ? ? ?%elem_of_nil|by intros ? ?%elem_of_nil]. }
  apply StronglySorted_app in Hsorted as (Hx & Hs & _). destruct (IH Hs) as (I1 & I2 & I3 & I4 & I5). cbv zeta.
  rewrite dedup_snoc. set (st := dedup (zone_pick seeds) rows) in *. clearbody st. clear IH.
  assert (∀ p, p ∈ st.2 → zone_row_less x p.1 = false) as Hlast.
  { intros p Hp. apply (Hx p.1 x); [by apply I3|by left]. }
  unfold dedup_step. destruct (zone_pick seeds x) as [[k [r s]]|] eqn:E.
  - unfold zone_pick in E. apply bind_Some in E as (s' & Es & [= <- <- <-]). case_bool_decide as Hk.
    + split_and!; [done|done|..].
      * intros p Hp. destruct (I3 p Hp). split; [apply elem_of_app; by left|done].
      * intros p r Hp [Hr| ->%list_elem_of_singleton]%elem_of_app; auto.
      * intros r [Hr| ->%list_elem_of_singleton]%elem_of_app; auto.
    + cbn [fst snd]. rewrite map_app. cbn [map fst]. split_and!.
      * intros k. rewrite elem_of_union, elem_of_singleton, elem_of_app, list_elem_of_singleton, I1. tauto.
      * apply NoDup_app. split_and!; [done| |by apply NoDup_singleton]. intros k Hk' ->%list_elem_of_singleton. by apply Hk, I1.
      * intros p [Hp| ->%list_elem_of_singleton]%elem_of_app.
        -- destruct (I3 p Hp). split; [apply elem_of_app; by left|done].
        -- cbn. split; [apply elem_of_app; right; by left|done].
      * intros p r [Hp| ->%list_elem_of_singleton]%elem_of_app [Hr| ->%list_elem_of_singleton]%elem_of_app Eq; auto.
        -- exfalso. apply Hk. cbn in Eq. rewrite <- Eq. apply I5; [done|]. rewrite Eq. eauto.
        -- cbn. unfold zone_row_less. rewrite !Z.ltb_irrefl. by rewrite !andb_false_r.
      * intros r [Hr| ->%list_elem_of_singleton]%elem_of_app Hsome; set_solver.
  - assert (seed_of seeds (zt_SeedID x) = None) as Hnone. { unfold zone_pick in E. by destruct (seed_of _ _). }
    split_and!; [done|done|..].
    + intros p Hp. destruct (I3 p Hp). split; [apply elem_of_app; by left|done].
    + intros p r Hp [Hr| ->%list_elem_of_singleton]%elem_of_app; auto.
    + intros r [Hr| ->%list_elem_of_singleton]%elem_of_app Hsome; [auto|]. rewrite Hnone in Hsome. by destruct Hsome.
Qed.

(** Each name seed with a file gives one job, from the newest of its files. *)
Lemma zoneFiles_latest seeds rows :
  let files := LatestZoneFilesForDispatch seeds rows in
  NoDup (map (λ p, zt_SeedID p.1) files) ∧
  (∀ r s, (r, s) ∈ files → r ∈ rows ∧ seed_of seeds (zt_SeedID r) = Some s ∧
     ∀ r', r' ∈ rows → zt_SeedID r' = zt_SeedID r →
       zt_SuppliedAt r' < zt_SuppliedAt r ∨ (zt_SuppliedAt r' = zt_SuppliedAt r ∧ zt_ID r' ≤ zt_ID r)) ∧
  (∀ r, r ∈ rows → is_Some (seed_of seeds (zt_SeedID r)) → ∃ r' s, (r', s) ∈ files ∧ zt_SeedID r' = zt_SeedID r).
Proof.
  intros files. destruct (distinct_on seeds (sort_stable zone_row_less rows)) as (I1 & I2 & I3 & I4 & I5).
  { apply (sort_stable_Sorted zone_row_less). }
  subst files. unfold LatestZoneFilesForDispatch. fold (zone_pick seeds). split_and!.
  - done.
  - intros r s Hp. destruct (I3 _ Hp) as [Hr Hs]. rewrite sort_stable_elem in Hr. split_and!; [done|done|].
    intros r' Hr' Eq. rewrite <- (sort_stable_elem zone_row_less) in Hr'. pose proof (I4 _ _ Hp Hr' Eq) as H. cbn [fst] in H, Eq.
    unfold zone_row_less in H. rewrite Eq, Z.ltb_irrefl, Z.eqb_refl in H. cbn [orb andb] in H.
    apply orb_false_iff in H as [H1%Z.ltb_ge H2]. apply andb_false_iff in H2 as [H2%Z.eqb_neq|H2%Z.ltb_ge]; lia.
  - intros r Hr Hs. rewrite <- (sort_stable_elem zone_row_less) in Hr. apply (I5 _ Hr), I1 in Hs.
    apply list_elem_of_fmap in Hs as ([r' s] & -> & Hp). eauto.
Qed.

(** ** What the readers do with other texts *)

#[local] Instance demo_upper : UnicodeUpper := λ s, s.
#[local] Instance demo_fold : UnicodeFold := λ s t, String.eqb s t.
#[local] Instance demo_json : ZoneJSON := λ l, String.concat "|" l.

Definition lines (l : list string) : string := foldr (λ s t, s +:+ String LF t) "" l.

Definition restated (content : string) : list (string * string * string) :=
  map (λ r, (zr_Name r, zr_Qtype r, zr_Data r)) (RestateZone (mkZoneFile 1 "example.com" 5 content)).1.

(** A comment inside the parentheses ends the record: what follows it, on this
    line and the next ones, is lost. *)
Example comment_cuts_the_record :
  restated (lines ["@ IN SOA ns1.example.com. admin.example.com. ("; "  2026010101 ; serial"; "  7200       ; refresh"; "  3600 )"]) =
  [("example.com", "SOA", "ns1.example.com. admin.example.com. 2026010101")].
Proof. vm_compute. reflexivity. Qed.

(** The two readers put a relative [$ORIGIN] in two places, and only one of them
    reads the directive in lower case. *)
Example origins_differ :
  let relative := lines ["$ORIGIN dev"; "www IN A 192.0.2.1"] in
  let lower := lines ["$origin dev.example.com."; "www IN A 192.0.2.1"] in
  restated relative = [("www.dev", "A", "192.0.2.1")] ∧ elements (DeclaredNames relative "example.com") = ["www.dev.example.com"] ∧
  restated lower = [("www.example.com", "A", "192.0.2.1")] ∧ elements (DeclaredNames lower "example.com") = ["www.dev.example.com"].
Proof. vm_compute. auto. Qed.

(** A closing parenthesis at the start of a line is a name to the signals. *)
Example parenthesis_is_declared :
  elements (DeclaredNames (lines ["@ IN SOA ns1.example.com. admin.example.com. ( 1 2 3 4"; ") ; end"]) "example.com") =
  ["example.com"; ").example.com"].
Proof. vm_compute. reflexivity. Qed.

Definition demo_zone : list declared :=
  [mkDeclared "example.com" "NS" ["ns1.example.com."]; mkDeclared "www.example.com" "A" ["192.0.2.1"];
   mkDeclared "dev.example.com" "NS" ["ns1.dev.example.com."]; mkDeclared "example.com" "MX" ["10"; "mail.example.com."];
   mkDeclared "www.example.com" "A" ["192.0.2.2"]].

Lemma zone_reads_back_witness :
  (RestateZone (mkZoneFile 1 "example.com" 5 (zone_text demo_zone))).2 = [] ∧
  (∀ n, n ∈ DelegatedSubzones (zone_text demo_zone) "example.com" ↔
     n ≠ CanonicalName "example.com" ∧ ∃ d, d ∈ demo_zone ∧ de_name d = n ∧ de_qtype d = "NS").
Proof.
  destruct (zone_reads_back demo_zone ltac:(apply (bool_decide_eq_true_1 (Forall declared_ok demo_zone)); vm_compute; reflexivity) 1 "example.com" 5)
    as (H1 & _ & H3).
  split; [by rewrite H1|exact H3].
Defined.
