(* ===== verification/Proposer.v ===== *)
(** * Registry proposers ([internal/proposer])

    An organisation's name is put to the registries an operator enabled, and each
    answers with the address scopes it holds for that name.  [proposer.go]: the
    registry of sources, and a range of addresses as prefixes.  [arin.go]: the
    RDAP search and one fetch per holder.  [caida.go]: the holder's opaque ids
    and the delegated-stats file they key.  The HTTP client and the state of the
    request's context are computations over a world; [encoding/json] and Unicode
    case are parameters. *)

From S2P Require Import Prelude GoTime GoStr NetIP NetParse GoConv GoRFC3339 SubjectScope NetText SignalFacts ZoneFile.

(** ** A range of addresses ([proposer.go]) *)

Definition RecordRIRDelegation : string := "rir-delegation".
Definition RecordCompelledReassignment : string := "compelled-reassignment".
Definition SlugARIN : string := "arin".
Definition SlugAFRINIC : string := "afrinic".
Definition SlugAPNIC : string := "apnic-caida".

Record Candidate := mkCandidate { cd_SourceSlug : string; cd_RecordKind : string; cd_Scope : Prefix; cd_OrgName : string }.

(** [big.Int.TrailingZeroBits] of a positive number. *)
Fixpoint trailing_zeros (p : positive) : Z :=
  match p with xO p' => 1 + trailing_zeros p' | _ => 0 end.

Definition alignmentBlock (v bits : Z) : Z :=
  match v with Zpos p => 2 ^ trailing_zeros p | _ => 2 ^ bits end.

(** [BitLen() - 1] of a positive number is its binary logarithm. *)
Definition largestPow2AtMost (n bits : Z) : Z :=
  if n <=? 0 then 0 else 2 ^ Z.min (Z.log2 n) bits.

Definition addrAdd (addr : Addr) (delta : Z) : option Addr :=
  let v := addr_bits addr + delta in
  match addr with
  | Addr4 _ => if 2 ^ 32 <=? v then None else Some (Addr4 v)
  | _ => if 2 ^ 128 <=? v then None else Some (Addr6 v "")
  end.

(** The prefixes, and whether the range ended inside the address space; [None]
    when the fuel runs out. *)
Fixpoint range_loop (fuel : nat) (cur : Addr) (remaining : Z) : option (list Prefix * bool) :=
  match fuel with
  | O => None
  | S fuel' =>
      if remaining <=? 0 then Some ([], true)
      else
        let bits := BitLen cur in
        let size := Z.min (alignmentBlock (addr_bits cur) bits) (largestPow2AtMost remaining bits) in
        let p := PrefixFrom cur (bits - (Z.log2 size + 1) + 1) in
        if remaining - size =? 0 then Some ([p], true)
        else
          match addrAdd cur size with
          | None => Some ([p], false)
          | Some next => '(out, ok) ← range_loop fuel' next (remaining - size); Some (p :: out, ok : bool)
          end
  end.

(** A block doubles until the count's own bits bind, so two per bit are enough. *)
Definition range_fuel (bits : Z) : nat := Z.to_nat (2 * bits + 2).

(** [None] is the error, whatever was gathered before it. *)
Definition rangeToPrefixes (start : Addr) (count : Z) : option (list Prefix) :=
  if negb (Addr_IsValid start) || (count <=? 0) then None
  else '(out, ok) ← range_loop (range_fuel (BitLen start)) start count; if (ok : bool) then Some out else None.

(** [big.Int.SetString(value, 10)]: a sign and decimal digits, of any length. *)
Definition big_SetString (s : string) : option Z :=
  let '(neg, ds) :=
    match s with
    | String c s' => if Ascii.eqb c "-" then (true, s') else if Ascii.eqb c "+" then (false, s') else (false, s)
    | "" => (false, s)
    end in
  if String.eqb ds "" then None else n ← atoi_digits ds 0; Some (if (neg : bool) then - n else n).

Definition rowPrefixes (typ start value : string) : option (list Prefix) :=
  addr ← ParseAddr start;
  if String.eqb typ "ipv4" then count ← big_SetString value; if count <=? 0 then None else rangeToPrefixes addr count
  else if String.eqb typ "ipv6" then
    bits ← ParseInt value;
    if (bits <? 0) || (BitLen addr <? bits) then None else Some [Masked (PrefixFrom addr bits)]
  else None.

(** ** What the client answers *)

Definition str_len (s : string) : Z := Z.of_nat (String.length s).

(** A response: its status, the bytes of its body that arrive, and whether the
    reading fails after them. *)
Record httpResponse := mkHttpResponse { rs_Status : Z; rs_Body : string; rs_Fails : bool }.

(** [io.LimitReader]: the first [n] bytes. *)
Fixpoint limit (n : Z) (s : string) : string :=
  match s with "" => "" | String c s' => if n <=? 0 then "" else String c (limit (n - 1) s') end.

(** The kinds of failure the sources tell apart. *)
Inductive perr :=
  | ErrTransport | ErrBody | ErrStatus (code : Z) | ErrDecode | ErrInterrupted
  | ErrEnvelope | ErrReported | ErrShort | ErrEmptyPage | ErrPages | ErrMembers | ErrNoJoinKey | ErrTooLong.

#[export] Instance perr_eq : EqDecision perr.
Proof. solve_decision. Defined.

(** [url.PathEscape]. *)
Fixpoint PathEscape (s : string) : string :=
  match s with
  | "" => ""
  | String c s' =>
      if is_upper c || is_lower c || is_digit c || bool_decide (c ∈ ["-"; "_"; "."; "~"; "$"; "&"; "+"; ":"; "="; "@"]%char)
      then String c (PathEscape s')
      else String "%" (String (hex_upper (code c / 16)) (String (hex_upper (code c mod 16)) (PathEscape s')))
  end.

(** ** The RDAP search ([arin.go]) *)

Record arinCidr := mkArinCidr { ac_V4Prefix : string; ac_V6Prefix : string; ac_Length : Z }.

(** A holder: its handle, its card as it arrived, the ranges of its networks, and
    the targets of its links. *)
Record arinEntity := mkArinEntity {
  ae_Handle : string;
  ae_VCardArray : string;
  ae_Networks : list (list arinCidr);
  ae_Links : list string
}.

(** [json.Unmarshal] into the search, an entity, a list, a list of lists and a string. *)
Class ARINJSON := {
  decode_search : string → option (list arinEntity);
  decode_entity : string → option arinEntity;
  decode_list : string → option (list string);
  decode_lists : string → option (list (list string));
  decode_string : string → option string
}.

Definition classOrg : string := "org".
Definition classCustomer : string := "customer".
Definition classPOC : string := "poc".

(** The regular expression [^C\d+$]. *)
Definition customerHandle (h : string) : bool :=
  match h with
  | String c ds => Ascii.eqb c "C" && negb (String.eqb ds "") && string_forallb is_digit ds
  | "" => false
  end.

Definition link_class (href : string) : option string :=
  List.find (λ c, contains_text ("/rest/" +:+ c +:+ "/") href) [classCustomer; classOrg; classPOC].

Fixpoint links_class (links : list string) : option string :=
  match links with
  | [] => None
  | l :: links' => match link_class l with Some c => Some c | None => links_class links' end
  end.

Definition arinEntity_class (e : arinEntity) : string :=
  match links_class (ae_Links e) with
  | Some c => c
  | None => if customerHandle (ae_Handle e) then classCustomer else classOrg
  end.

Definition arinCidr_prefix (c : arinCidr) : option Prefix :=
  let addr := if String.eqb (ac_V4Prefix c) "" then ac_V6Prefix c else ac_V4Prefix c in
  if String.eqb addr "" then None else ParsePrefix (addr +:+ "/" +:+ FormatInt (ac_Length c)).

Definition maxARINBody : Z := 8388608.

Section ARIN.
Context {J : ARINJSON}.

(** The first property named [fn] whose value is text. *)
Fixpoint fn_of (props : list (list string)) : string :=
  match props with
  | [] => ""
  | p :: props' =>
      match p with
      | name :: _ :: _ :: val :: _ =>
          match decode_string name with
          | Some "fn" => match decode_string val with Some v => v | None => fn_of props' end
          | _ => fn_of props'
          end
      | _ => fn_of props'
      end
  end.

Definition fnFromVCard (raw : string) : string :=
  if String.eqb raw "" then ""
  else
    match decode_list raw with
    | Some (_ :: props :: _) => match decode_lists props with Some ps => fn_of ps | None => "" end
    | _ => ""
    end.

Definition holder_name (ent stub : arinEntity) : string :=
  let name := fnFromVCard (ae_VCardArray ent) in
  let name := if String.eqb name "" then fnFromVCard (ae_VCardArray stub) else name in
  if String.eqb name "" then ae_Handle stub else name.

(** The candidates of a holder that was fetched. *)
Definition holder_candidates (stub ent : arinEntity) : list Candidate :=
  let kind := if String.eqb (arinEntity_class stub) classCustomer then RecordCompelledReassignment else RecordRIRDelegation in
  flat_map (λ n, omap (λ c, p ← arinCidr_prefix c; Some (mkCandidate SlugARIN kind (Masked p) (holder_name ent stub))) n) (ae_Networks ent).

Context {W : Type} (Do : string → string → St W (option httpResponse)) (ctx_Err : St W bool).

Definition ARIN_get (u : string) : St W ((string * Z) + perr) :=
  resp ← Do "application/rdap+json" u;
  mret (match resp with
        | None => inr ErrTransport
        | Some r =>
            if rs_Fails r && (str_len (rs_Body r) <? maxARINBody) then inr ErrBody
            else inl (limit maxARINBody (rs_Body r), rs_Status r)
        end).

(** One holder of the search; [inr] is the walk cut short, with what was found. *)
Definition holder_step (base : string) (out : list Candidate + list Candidate) (stub : arinEntity) :
    St W (list Candidate + list Candidate) :=
  match out with
  | inr found => mret (inr found)
  | inl found =>
      over ← ctx_Err;
      if (over : bool) then mret (inr found)
      else if String.eqb (ae_Handle stub) "" then mret (inl found)
      else if String.eqb (arinEntity_class stub) classPOC then mret (inl found)
      else
        got ← ARIN_get (base +:+ "/entity/" +:+ PathEscape (ae_Handle stub));
        mret (match got with
              | inr _ => inl found
              | inl (body, status) =>
                  if negb (status =? 200) then inl found
                  else
                    match decode_entity body with
                    | Some ent => inl (found ++ holder_candidates stub ent)
                    | None => inl found
                    end
              end)
  end.

Definition ARIN_Propose (base orgName : string) : St W (list Candidate * option perr) :=
  got ← ARIN_get (base +:+ "/entities?fn=" +:+ QueryEscape orgName);
  match got with
  | inr e => mret ([], Some e)
  | inl (body, status) =>
      if status =? 404 then mret ([], None)
      else if negb (status =? 200) then mret ([], Some (ErrStatus status))
      else
        match decode_search body with
        | None => mret ([], Some ErrDecode)
        | Some stubs =>
            out ← for_each (holder_step base) stubs (inl []);
            mret (match out with inl found => (found, None) | inr found => (found, Some ErrInterrupted) end)
        end
  end.
End ARIN.

(** ** The search by name and the delegated file ([caida.go]) *)

Definition caidaSearchPageSize : Z := 5000.
Definition caidaSearchMaxPages : nat := 8.
Definition caidaSearchMaxBytes : Z := 67108864.
Definition caidaASNLegMaxLookups : Z := 32.

Record caidaSearchRow := mkCaidaRow {
  cr_OpaqueID : string;
  cr_OrgName : string;
  cr_Source : string;
  cr_ASN : string;
  cr_Date : string;
  cr_Members : list string
}.

(** A page of the search: what a key absent or null leaves is [None]. *)
Record caidaSearchPage := mkCaidaPage {
  cp_TotalCount : option Z;
  cp_HasNextPage : option bool;
  cp_Errors : string;
  cp_Data : option (list caidaSearchRow)
}.

(** The first JSON value of a body. *)
Class CAIDAJSON := decode_page : string → option caidaSearchPage.

Record CAIDA := mkCAIDA { ca_slug : string; ca_rir : string; ca_caidaBase : string; ca_delegatedBase : string }.

Definition row_snapshot (r : caidaSearchRow) : Z := default zeroTime (time_Parse_RFC3339 (cr_Date r)).

(** A page that [fetchPage] lets through. *)
Record page := mkPage { pg_total : Z; pg_next : bool; pg_rows : list caidaSearchRow }.

Definition page_of {J : CAIDAJSON} (r : httpResponse) : page + perr :=
  if negb (rs_Status r =? 200) then inr (ErrStatus (rs_Status r))
  else
    match decode_page (limit caidaSearchMaxBytes (rs_Body r)) with
    | None => inr ErrDecode
    | Some p =>
        match cp_TotalCount p, cp_HasNextPage p, cp_Data p with
        | Some total, Some next, Some rows =>
            let e := TrimSpace (cp_Errors p) in
            if negb (String.eqb e "") && negb (String.eqb e "null") then inr ErrReported
            else inl (mkPage total next rows)
        | _, _, _ => inr ErrEnvelope
        end
    end.

(** The holders found so far, and the snapshot each name is taken from. *)
Record orgs := mkOrgs { og_idOrg : gmap string string; og_idAt : gmap string Z }.

Definition row_id (rir : string) (row : caidaSearchRow) : string := TrimSuffix (cr_OpaqueID row) ("_" +:+ rir).

(** The closure [add]; the flag says that the row has a key. *)
Definition add_row (rir : string) (o : orgs) (row : caidaSearchRow) : orgs * bool :=
  let id := row_id rir row in
  if String.eqb id "" then (o, false)
  else
    let at_ := row_snapshot row in
    if match og_idAt o !! id with None => true | Some seen => After at_ seen end
    then (mkOrgs (<[id := cr_OrgName row]> (og_idOrg o)) (<[id := at_]> (og_idAt o)), true)
    else (o, true).

(** What the loop over the search's rows gathers. *)
Record gathered := mkGathered { ga_orgs : orgs; ga_named : Z; ga_keyed : gset string; ga_members : list string }.

Section CAIDA.
Context {J : CAIDAJSON} {U : UnicodeUpper} {L : UnicodeCase} {F : UnicodeFold}.

Definition row_matches (rir want : string) (row : caidaSearchRow) : bool :=
  EqualFold (cr_Source row) rir && contains_text want (strings_ToLower (cr_OrgName row)).

Definition gather_step (rir want : string) (g : gathered) (row : caidaSearchRow) : gathered :=
  if negb (row_matches rir want row) then g
  else
    let '(o, has_key) := add_row rir (ga_orgs g) row in
    if (has_key : bool) then mkGathered o (ga_named g + 1) ({[cr_ASN row]} ∪ ga_keyed g) (ga_members g)
    else mkGathered o (ga_named g + 1) (ga_keyed g)
           (foldl (λ ms asn, if bool_decide (asn ∈ ms) then ms else ms ++ [asn]) (ga_members g) (cr_Members row)).

Definition gather (rir want : string) (rows : list caidaSearchRow) : gathered :=
  foldl (gather_step rir want) (mkGathered (mkOrgs ∅ ∅) 0 ∅ []) rows.

Definition ga_pending (g : gathered) : list string := filter (λ asn, asn ∉ ga_keyed g) (ga_members g).

Context {W : Type} (Do : string → string → St W (option httpResponse)).

Definition fetchPage (u : string) : St W (page + perr) :=
  resp ← Do "application/json" u;
  mret (match resp with None => inr ErrTransport | Some r => page_of r end).

(** [url.Values.Encode] sorts by key. *)
Definition search_url (c : CAIDA) (orgName : string) (offset : Z) : string :=
  ca_caidaBase c +:+ "/search/?first=" +:+ FormatInt caidaSearchPageSize +:+ "&name=" +:+ QueryEscape orgName +:+
  (if 0 <? offset then "&offset=" +:+ FormatInt offset else "").

Definition searchPage (c : CAIDA) (orgName : string) (offset : Z) : St W (page + perr) := fetchPage (search_url c orgName offset).

Fixpoint search_pages (c : CAIDA) (orgName : string) (left : nat) (rows : list caidaSearchRow) : St W (list caidaSearchRow + perr) :=
  match left with
  | O => mret (inr ErrPages)
  | S left' =>
      p ← searchPage c orgName (Z.of_nat (length rows));
      match p with
      | inr e => mret (inr e)
      | inl p =>
          let rows := rows ++ pg_rows p in
          if pg_total p <=? Z.of_nat (length rows) then mret (inl rows)
          else if negb (pg_next p) then mret (inr ErrShort)
          else if bool_decide (pg_rows p = []) then mret (inr ErrEmptyPage)
          else search_pages c orgName left' rows
      end
  end.

Definition searchRows (c : CAIDA) (orgName : string) : St W (list caidaSearchRow + perr) := search_pages c orgName caidaSearchMaxPages [].

Definition asnRecords (c : CAIDA) (asn : string) : St W (list caidaSearchRow + perr) :=
  p ← fetchPage (ca_caidaBase c +:+ "/asns/" +:+ PathEscape asn);
  mret (match p with
        | inr e => inr e
        | inl p => if Z.of_nat (length (pg_rows p)) <? pg_total p then inr ErrShort else inl (pg_rows p)
        end).

Definition asn_step (c : CAIDA) (rir want : string) (o : orgs + perr) (asn : string) : St W (orgs + perr) :=
  match o with
  | inr e => mret (inr e)
  | inl o =>
      got ← asnRecords c asn;
      mret (match got with
            | inr e => inr e
            | inl rows => inl (foldl (λ o row, if row_matches rir want row then (add_row rir o row).1 else o) o rows)
            end)
  end.

Definition orgIDs (c : CAIDA) (orgName : string) : St W (gmap string string + perr) :=
  let rir := ToUpper (ca_rir c) in
  let want := strings_ToLower orgName in
  got ← searchRows c orgName;
  match got with
  | inr e => mret (inr e)
  | inl rows =>
      let g := gather rir want rows in
      if caidaASNLegMaxLookups <? Z.of_nat (length (ga_pending g)) then mret (inr ErrMembers)
      else
        o ← for_each (asn_step c rir want) (ga_pending g) (inl (ga_orgs g));
        mret (match o with
              | inr e => inr e
              | inl o => if bool_decide (og_idOrg o = ∅) && (0 <? ga_named g) then inr ErrNoJoinKey else inl (og_idOrg o)
              end)
  end.

Definition maxDelegatedBytes : Z := 33554432.
Definition maxLineBytes : Z := 1048576.

(** The lines a scanner yields, and whether it met one too long for its buffer. *)
Fixpoint scan_lines (lines : list string) : list string * bool :=
  match lines with
  | [] => ([], false)
  | l :: lines' => if maxLineBytes <=? str_len l then ([], true) else let '(out, long) := scan_lines lines' in (l :: out, long)
  end.

Definition line_candidates (c : CAIDA) (idOrg : gmap string string) (text : string) : list Candidate :=
  let line := TrimSpace text in
  if String.eqb line "" || HasPrefix line "#" then []
  else
    match Split "|" line with
    | _ :: _ :: typ :: start :: value :: _ :: _ :: opaque :: _ =>
        match idOrg !! opaque with
        | None => []
        | Some holder =>
            map (λ p, mkCandidate (ca_slug c) RecordRIRDelegation p holder) (default [] (rowPrefixes typ start value))
        end
    | _ => []
    end.

(** The candidates of the file, and what ended its reading early. *)
Definition delegated_candidates (c : CAIDA) (idOrg : gmap string string) (r : httpResponse) : list Candidate * option perr :=
  if negb (rs_Status r =? 200) then ([], Some (ErrStatus (rs_Status r)))
  else
    let '(lines, long) := scan_lines (Split LF (limit maxDelegatedBytes (rs_Body r))) in
    (flat_map (line_candidates c idOrg) lines,
     if (long : bool) then Some ErrTooLong
     else if rs_Fails r && (str_len (rs_Body r) <? maxDelegatedBytes) then Some ErrBody else None).

Definition delegations (c : CAIDA) (idOrg : gmap string string) : St W (list Candidate * option perr) :=
  resp ← Do "" (ca_delegatedBase c +:+ "/delegated-" +:+ ca_rir c +:+ "-extended-latest");
  mret (match resp with None => ([], Some ErrTransport) | Some r => delegated_candidates c idOrg r end).

Definition CAIDA_Propose (c : CAIDA) (orgName : string) : St W (list Candidate * option perr) :=
  got ← orgIDs c orgName;
  match got with
  | inr e => mret ([], Some e)
  | inl idOrg => if bool_decide (idOrg = ∅) then mret ([], None) else delegations c idOrg
  end.
End CAIDA.

(** ** The registry of sources ([proposer.go]) *)

Record Source (W : Type) := mkSource { so_Slug : string; so_Propose : string → St W (list Candidate * option perr) }.
Arguments mkSource {_} _ _.
Arguments so_Slug {_} _.
Arguments so_Propose {_} _ _.

Record Attempt := mkAttempt { at_SourceSlug : string; at_Err : option perr }.

Section Registry.
Context {W : Type}.

Definition source_step (orgName : string) (enabled : gmap string bool) (acc : list Candidate * list Attempt) (s : Source W) :
    St W (list Candidate * list Attempt) :=
  if negb (default false (enabled !! so_Slug s)) then mret acc
  else
    got ← so_Propose s orgName;
    let '(cands, err) := got in
    mret (acc.1 ++ match err with None => cands | Some _ => [] end, acc.2 ++ [mkAttempt (so_Slug s) err]).

(** The joined error is there when an attempt failed. *)
Definition Registry_Propose (sources : list (Source W)) (orgName : string) (enabled : gmap string bool) :
    St W (list Candidate * list Attempt * bool) :=
  acc ← for_each (source_step orgName enabled) sources ([], []);
  mret (acc.1, acc.2, existsb (λ a, bool_decide (is_Some (at_Err a))) acc.2).

Context {A : ARINJSON} {J : CAIDAJSON} {U : UnicodeUpper} {L : UnicodeCase} {F : UnicodeFold}.

Definition DefaultRegistry (Do : string → string → St W (option httpResponse)) (ctx_Err : St W bool) : list (Source W) :=
  [mkSource SlugARIN (ARIN_Propose Do ctx_Err "https://rdap.arin.net/registry");
   let afrinic := mkCAIDA SlugAFRINIC "afrinic" "https://api.data.caida.org/as2org/v1" "https://ftp.afrinic.net/stats/afrinic" in
   mkSource (ca_slug afrinic) (CAIDA_Propose Do afrinic);
   let apnic := mkCAIDA SlugAPNIC "apnic" "https://api.data.caida.org/as2org/v1" "https://ftp.apnic.net/stats/apnic" in
   mkSource (ca_slug apnic) (CAIDA_Propose Do apnic)].
End Registry.

(** ** Lemmas: blocks *)

Lemma trailing_zeros_spec p : 0 ≤ trailing_zeros p ∧ ∃ q, 0 ≤ q ∧ Zpos p = (2 * q + 1) * 2 ^ trailing_zeros p.
Proof.
  induction p as [p IH|p [H1 (q & H2 & H3)]|]; cbn [trailing_zeros].
  - split; [lia|]. exists (Zpos p). change (2 ^ 0) with 1. lia.
  - split; [lia|]. exists q. split; [done|]. rewrite Z.pow_add_r by lia. change (2 ^ 1) with 2. lia.
  - split; [lia|]. by exists 0.
Qed.

(** The largest power of two that divides an address, within the family. *)
Lemma alignmentBlock_spec v bits : 0 ≤ v < 2 ^ bits → 0 ≤ bits →
  ∃ k, 0 ≤ k ≤ bits ∧ alignmentBlock v bits = 2 ^ k ∧ (∃ q, v = q * 2 ^ k) ∧ (k < bits → v mod 2 ^ (k + 1) = 2 ^ k).
Proof.
  intros Hv Hb. destruct v as [|p|p]; [|cbn [alignmentBlock]|lia].
  - exists bits. split_and!; [lia..|done|by exists 0|lia].
  - destruct (trailing_zeros_spec p) as (H1 & q & H3 & H2). set (k := trailing_zeros p) in *. clearbody k.
    assert (0 < 2 ^ k) by (apply Z.pow_pos_nonneg; lia).
    exists k. assert (k < bits). { apply (Z.pow_lt_mono_r_iff 2); [lia..|]. nia. }
    split_and!; [lia..|done|by eexists|]. intros _. rewrite Z.pow_add_r by lia. change (2 ^ 1) with 2. symmetry.
    apply Z.mod_unique with q; [left; lia|]. rewrite H2. lia.
Qed.

Lemma addrAdd_spec a d : Addr_wf a → a ≠ AddrInvalid → 0 ≤ d →
  if 2 ^ BitLen a <=? addr_bits a + d then addrAdd a d = None
  else ∃ b, addrAdd a d = Some b ∧ Addr_wf b ∧ b ≠ AddrInvalid ∧ addr_bits b = addr_bits a + d ∧ BitLen b = BitLen a.
Proof.
  intros Hw Hne Hd. unfold addrAdd. destruct a as [|v|v z]; [done|..]; cbn [addr_bits BitLen Addr_wf] in *.
  - destruct (Z.leb_spec (2 ^ 32) (v + d)); [done|]. eexists. split; [done|]. cbn [addr_bits BitLen Addr_wf]. split_and!; (lia || done).
  - destruct (Z.leb_spec (2 ^ 128) (v + d)); [done|]. eexists. split; [done|]. cbn [addr_bits BitLen Addr_wf]. split_and!; (lia || done).
Qed.

(** The size of one block, as an exponent. *)
Lemma block_size v r bits : 0 ≤ v < 2 ^ bits → 0 ≤ bits → 0 < r →
  let size := Z.min (alignmentBlock v bits) (largestPow2AtMost r bits) in
  ∃ k, 0 ≤ k ≤ bits ∧ size = 2 ^ k ∧ (∃ q, v = q * 2 ^ k) ∧ size ≤ r ∧ v + size ≤ 2 ^ bits ∧
    (k < bits → v mod 2 ^ (k + 1) = 0 → r < 2 ^ (k + 1)).
Proof.
  intros Hv Hb Hr size. destruct (alignmentBlock_spec v bits Hv Hb) as (k & Hk & Ea & [q Eq] & Hodd).
  unfold size, largestPow2AtMost in *. rewrite (proj2 (Z.leb_gt _ _) Hr), Ea. clear size.
  pose proof (Z.log2_spec r Hr) as [L1 L2]. pose proof (Z.log2_nonneg r). set (j := Z.min (Z.log2 r) bits).
  assert (2 ^ j ≤ r). { etrans; [|exact L1]. apply Z.pow_le_mono_r; lia. }
  assert (∀ i, 0 ≤ i ≤ k → ∃ q, v = q * 2 ^ i) as Hdiv.
  { intros i Hi. exists (q * 2 ^ (k - i)). rewrite <- Z.mul_assoc, <- Z.pow_add_r by lia. by replace (k - i + i) with k by lia. }
  assert (∀ i, 0 ≤ i ≤ k → v + 2 ^ i ≤ 2 ^ bits) as Hin.
  { intros i Hi. destruct (Hdiv i Hi) as [q' ->]. assert (0 < 2 ^ i) by (apply Z.pow_pos_nonneg; lia).
    assert (2 ^ bits = 2 ^ (bits - i) * 2 ^ i) as Eb by (rewrite <- Z.pow_add_r by lia; f_equal; lia). rewrite Eb in *.
    assert (q' < 2 ^ (bits - i)) by (apply (Z.mul_lt_mono_pos_r (2 ^ i)); lia). rewrite <- Z.mul_succ_l. apply Z.mul_le_mono_nonneg_r; lia. }
  destruct (Z.le_ge_cases k j).
  - exists k. rewrite Z.min_l by (apply Z.pow_le_mono_r; lia). split_and!; [lia..|done|apply Hdiv; lia| |apply Hin; lia|].
    + etrans; [|done]. apply Z.pow_le_mono_r; lia.
    + intros Hkb Hm. rewrite Hodd in Hm by done. assert (0 < 2 ^ k) by (apply Z.pow_pos_nonneg; lia). lia.
  - exists j. rewrite Z.min_r by (apply Z.pow_le_mono_r; lia). split_and!; [lia..|done|apply Hdiv; lia|done|apply Hin; lia|].
    intros Hjb _. assert (j = Z.log2 r) as -> by lia. by rewrite <- Z.add_1_r in L2.
Qed.

(** ** The prefixes of a range *)

(** Prefixes side by side from [v] to [e], each the widest that is aligned there
    and fits in what is left. *)
Fixpoint tiles (bits v e : Z) (ps : list Prefix) : Prop :=
  match ps with
  | [] => v = e
  | p :: ps' =>
      Prefix_valid p ∧ BitLen (p_ip p) = bits ∧ addr_bits (p_ip p) = v ∧ v mod 2 ^ host_bits p = 0 ∧ v + 2 ^ host_bits p ≤ e ∧
      (0 < p_bits p → v mod 2 ^ (host_bits p + 1) = 0 → e < v + 2 ^ (host_bits p + 1)) ∧
      tiles bits (v + 2 ^ host_bits p) e ps'
  end.

(** The steps a range still takes: until the block is as wide as the count allows,
    its alignment grows; from then on the count's logarithm falls. *)
Definition steps_left (bits v r : Z) : Z :=
  if r <? alignmentBlock v bits then Z.log2 r + 1 else 2 * bits + 1 - Z.log2 (alignmentBlock v bits).

Lemma PrefixFrom_block cur k : Addr_wf cur → cur ≠ AddrInvalid → 0 ≤ k ≤ BitLen cur →
  let p := PrefixFrom cur (BitLen cur - (Z.log2 (2 ^ k) + 1) + 1) in
  Prefix_valid p ∧ BitLen (p_ip p) = BitLen cur ∧ addr_bits (p_ip p) = addr_bits cur ∧ host_bits p = k ∧ p_bits p = BitLen cur - k.
Proof.
  intros Hw Hne Hk p. unfold p. rewrite Z.log2_pow2 by lia. unfold PrefixFrom, Prefix_valid, Prefix_wf, host_bits.
  assert (0 < BitLen cur) by (destruct cur; [done|cbn; lia..]).
  replace (BitLen cur - (k + 1) + 1) with (BitLen cur - k) by lia.
  rewrite (proj2 (Z.leb_le 0 _)), (proj2 (Z.leb_le (BitLen cur - k) _)) by lia.
  destruct cur as [|v|v z]; [done|..]; cbn in *; split_and!; try done; try lia.
Qed.

(** No wider power of two divides the address. *)
Lemma alignmentBlock_max v bits i :
  0 ≤ v < 2 ^ bits → 0 ≤ i ≤ bits → (2 ^ i | v) → i ≤ Z.log2 (alignmentBlock v bits).
Proof.
  intros Hv Hi Hd. destruct (alignmentBlock_spec v bits Hv ltac:(lia)) as (k & Hk & -> & _ & Hodd). rewrite Z.log2_pow2 by lia.
  destruct (Z.le_gt_cases i k) as [|Hgt]; [done|exfalso].
  assert (0 < 2 ^ k) by (apply Z.pow_pos_nonneg; lia). specialize (Hodd ltac:(lia)).
  assert ((2 ^ (k + 1) | v)) as [q ->].
  { etrans; [|exact Hd]. exists (2 ^ (i - (k + 1))). rewrite <- Z.pow_add_r by lia. f_equal. lia. }
  rewrite Z.mod_mul in Hodd; [lia|]. apply Z.pow_nonzero; lia.
Qed.

(** Past a block as wide as the alignment the alignment is wider still. *)
Lemma alignmentBlock_next v bits k :
  0 ≤ v → 0 ≤ k ≤ bits → (2 ^ k | v) → v + 2 ^ k < 2 ^ bits →
  k ≤ Z.log2 (alignmentBlock (v + 2 ^ k) bits) ∧
  (alignmentBlock v bits = 2 ^ k → k + 1 ≤ Z.log2 (alignmentBlock (v + 2 ^ k) bits)).
Proof.
  intros Hv Hk Hd Hlt. assert (0 < 2 ^ k) by (apply Z.pow_pos_nonneg; lia). split.
  - apply alignmentBlock_max; [lia|lia|]. apply Z.divide_add_r; [done|by exists 1; rewrite Z.mul_1_l].
  - intros Ea. destruct (alignmentBlock_spec v bits) as (j & Hj & Ej & _ & Hodd); [lia..|].
    assert (j = k) as -> by (apply (Z.pow_inj_r 2); lia || congruence).
    assert (k < bits) as Hkb by (apply (Z.pow_lt_mono_r_iff 2); lia). specialize (Hodd Hkb).
    apply alignmentBlock_max; [lia..|]. apply Z.mod_divide; [apply Z.pow_nonzero; lia|].
    rewrite <- Zplus_mod_idemp_l, Hodd. replace (2 ^ k + 2 ^ k) with (1 * 2 ^ (k + 1)) by (rewrite Z.pow_add_r by lia; change (2 ^ 1) with 2; lia).
    apply Z.mod_mul. apply Z.pow_nonzero; lia.
Qed.

Lemma steps_left_falls v r bits :
  let size := Z.min (alignmentBlock v bits) (largestPow2AtMost r bits) in
  0 ≤ v < 2 ^ bits → 0 ≤ bits → 0 < r → v + size < 2 ^ bits → 0 < r - size →
  steps_left bits (v + size) (r - size) + 1 ≤ steps_left bits v r.
Proof.
  intros size Hv Hb Hr0 Hlt Hr. destruct (alignmentBlock_spec v bits) as (a & Ha & Ea & _); [lia..|].
  destruct (block_size v r bits) as (k & Hk & Es & [q Eq] & Hsr & _); [lia..|]. fold size in Es, Hsr.
  rewrite Es in *. assert (0 < 2 ^ k) by (apply Z.pow_pos_nonneg; lia).
  destruct (alignmentBlock_next v bits k) as [N1 N2]; [lia|lia|by exists q|lia|].
  destruct (alignmentBlock_spec (v + 2 ^ k) bits) as (a' & Ha' & Ea' & _); [lia..|].
  pose proof (Z.log2_spec r Hr0) as [L1 L2]. pose proof (Z.log2_spec _ Hr) as [M1 M2]. pose proof (Z.log2_nonneg r). pose proof (Z.log2_nonneg (r - 2 ^ k)).
  assert (2 ^ k = Z.min (2 ^ a) (2 ^ Z.min (Z.log2 r) bits)) as Ek.
  { rewrite <- Es, <- Ea. unfold size, largestPow2AtMost. by rewrite (proj2 (Z.leb_gt _ _) Hr0). }
  unfold steps_left. rewrite Ea, Ea' in *. rewrite Z.log2_pow2 in N1, N2 by lia. rewrite !Z.log2_pow2 by lia.
  destruct (Z.ltb_spec r (2 ^ a)) as [Hlta|Hge].
  - assert (Z.log2 r < a) by (apply (Z.pow_lt_mono_r_iff 2); lia). rewrite (Z.min_l (Z.log2 r)), Z.min_r in Ek by (lia || apply Z.pow_le_mono_r; lia).
    assert (k = Z.log2 r) as -> by (apply (Z.pow_inj_r 2); lia).
    assert (r - 2 ^ Z.log2 r < 2 ^ Z.log2 r) by (rewrite Z.pow_succ_r in L2 by lia; lia).
    assert (2 ^ Z.log2 r ≤ 2 ^ a') by (apply Z.pow_le_mono_r; lia). rewrite (proj2 (Z.ltb_lt _ _)) by lia.
    assert (Z.log2 (r - 2 ^ Z.log2 r) < Z.log2 r) by (apply (Z.pow_lt_mono_r_iff 2); lia). lia.
  - assert (a ≤ Z.log2 r).
    { apply Z.lt_succ_r. apply (Z.pow_lt_mono_r_iff 2); lia. }
    rewrite Z.min_l in Ek by (apply Z.pow_le_mono_r; lia). assert (k = a) as -> by (apply (Z.pow_inj_r 2); lia). specialize (N2 eq_refl).
    destruct (Z.ltb_spec (r - 2 ^ a) (2 ^ a')) as [Hlt'|Hge']; [|lia].
    assert (Z.log2 (r - 2 ^ a) < a') by (apply (Z.pow_lt_mono_r_iff 2); lia). lia.
Qed.

Lemma steps_left_fuel bits v r : 0 ≤ v < 2 ^ bits → 0 ≤ bits → 0 < r → 1 ≤ steps_left bits v r < Z.of_nat (range_fuel bits).
Proof.
  intros Hv Hb Hr. unfold steps_left, range_fuel. rewrite Z2Nat.id by lia.
  destruct (alignmentBlock_spec v bits Hv Hb) as (a & Ha & -> & _). rewrite Z.log2_pow2 by lia. pose proof (Z.log2_nonneg r).
  destruct (Z.ltb_spec r (2 ^ a)); [|lia]. assert (Z.log2 r < a); [|lia]. apply (Z.pow_lt_mono_r_iff 2); [lia..|]. pose proof (Z.log2_spec r Hr). lia.
Qed.

(** The loop ends within its fuel; a range inside the address space is tiled, one
    that leaves it is the error. *)
Lemma range_loop_spec fuel : ∀ cur r,
  Addr_wf cur → cur ≠ AddrInvalid → 0 < r → steps_left (BitLen cur) (addr_bits cur) r ≤ Z.of_nat fuel →
  ∃ ps, range_loop fuel cur r = Some (ps, addr_bits cur + r <=? 2 ^ BitLen cur) ∧
    (addr_bits cur + r ≤ 2 ^ BitLen cur → tiles (BitLen cur) (addr_bits cur) (addr_bits cur + r) ps).
Proof.
  induction fuel as [|fuel IH]; intros cur r Hw Hne Hr Hf;
    (assert (0 ≤ addr_bits cur < 2 ^ BitLen cur ∧ 0 ≤ BitLen cur) as [Hv Hb] by (destruct cur; cbn in *; lia));
    pose proof (steps_left_fuel (BitLen cur) (addr_bits cur) r Hv Hb Hr); [lia|].
  cbn [range_loop]. rewrite (proj2 (Z.leb_gt r 0)) by lia.
  destruct (block_size (addr_bits cur) r (BitLen cur)) as (k & Hk & Es & [q Eq] & Hsr & Hse & Hmax); [lia..|].
  pose proof (steps_left_falls (addr_bits cur) r (BitLen cur)) as Hfall. cbv zeta in Hfall. rewrite Es in *.
  destruct (PrefixFrom_block cur k Hw Hne Hk) as (P1 & P2 & P3 & P4 & P5). set (p := PrefixFrom cur _) in *.
  assert (addr_bits cur mod 2 ^ k = 0) as Hal by (rewrite Eq; apply Z.mod_mul, Z.pow_nonzero; lia).
  assert (∀ ps, tiles (BitLen cur) (addr_bits cur + 2 ^ k) (addr_bits cur + r) ps →
    tiles (BitLen cur) (addr_bits cur) (addr_bits cur + r) (p :: ps)) as Hcons.
  { intros ps Hps. cbn [tiles]. rewrite P4. split_and!; try done; [lia|]. intros Hp Hm. rewrite P5 in Hp. specialize (Hmax ltac:(lia) Hm). lia. }
  destruct (Z.eqb_spec (r - 2 ^ k) 0) as [E0|E0].
  { exists [p]. rewrite (proj2 (Z.leb_le _ _)) by lia. split; [done|]. intros _. apply Hcons. cbn. lia. }
  assert (0 < 2 ^ k) by (apply Z.pow_pos_nonneg; lia).
  pose proof (addrAdd_spec cur (2 ^ k) Hw Hne ltac:(lia)) as Hadd. destruct (Z.leb_spec (2 ^ BitLen cur) (addr_bits cur + 2 ^ k)).
  { rewrite Hadd. exists [p]. rewrite (proj2 (Z.leb_gt _ _)) by lia. split; [done|lia]. }
  destruct Hadd as (b & -> & Bw & Bne & Bv & Bl). destruct (IH b (r - 2 ^ k) Bw Bne) as (ps & -> & Hps); [lia| |].
  { rewrite Bv, Bl. specialize (Hfall ltac:(lia) Hb Hr ltac:(lia) ltac:(lia)). lia. }
  rewrite Bv, Bl in *. replace (addr_bits cur + 2 ^ k + (r - 2 ^ k)) with (addr_bits cur + r) in * by lia.
  exists (p :: ps). split; [done|]. intros Hle. by apply Hcons, Hps.
Qed.

Lemma rangeToPrefixes_cases start count : Addr_wf start → start ≠ AddrInvalid → 0 < count →
  ∃ ps, rangeToPrefixes start count = (if addr_bits start + count <=? 2 ^ BitLen start then Some ps else None) ∧
    (addr_bits start + count ≤ 2 ^ BitLen start → tiles (BitLen start) (addr_bits start) (addr_bits start + count) ps).
Proof.
  intros Hw Hne Hc. unfold rangeToPrefixes. assert (Addr_IsValid start = true) as -> by by destruct start.
  assert (0 ≤ addr_bits start < 2 ^ BitLen start ∧ 0 ≤ BitLen start) as [Hv Hb] by (destruct start; cbn in *; lia).
  rewrite (proj2 (Z.leb_gt count 0)) by lia.
  destruct (range_loop_spec (range_fuel (BitLen start)) start count Hw Hne Hc) as (ps & E & Ht).
  { pose proof (steps_left_fuel (BitLen start) (addr_bits start) count Hv Hb Hc). lia. }
  exists ps. split; [|done]. cbn [negb orb]. by rewrite E.
Qed.

Lemma rangeToPrefixes_tiles start count ps : Addr_wf start → start ≠ AddrInvalid → rangeToPrefixes start count = Some ps →
  0 < count ∧ tiles (BitLen start) (addr_bits start) (addr_bits start + count) ps.
Proof.
  intros Hw Hne E. destruct (Z.lt_ge_cases 0 count) as [Hc|Hc].
  2:{ unfold rangeToPrefixes in E. rewrite (proj2 (Z.leb_le count 0)), orb_true_r in E by lia. done. }
  destruct (rangeToPrefixes_cases start count Hw Hne Hc) as (ps' & E' & Ht). rewrite E' in E.
  destruct (Z.leb_spec (addr_bits start + count) (2 ^ BitLen start)); [|done]. injection E as <-. auto.
Qed.



(** The addresses of tiles, counted. *)
Lemma tiles_count bits ps : ∀ v e, tiles bits v e ps → sum_list_with (λ p, Z.to_nat (2 ^ host_bits p)) ps = Z.to_nat (e - v).
Proof.
  induction ps as [|p ps IH]; intros v e; cbn [tiles sum_list_with]; [intros ->; by rewrite Z.sub_diag|].
  intros (Hp & _ & _ & _ & Hle & _ & Ht). rewrite (IH _ _ Ht). assert (0 < 2 ^ host_bits p).
  { apply Z.pow_pos_nonneg; [lia|]. by destruct (Prefix_valid_range p Hp) as (_ & ? & _). }
  lia.
Qed.

(** An address is in one of the tiles exactly when it is in the range. *)
Lemma tiles_cover bits ps : ∀ v e, tiles bits v e ps → ∀ x, (∃ p, p ∈ ps ∧ addr_bits (p_ip p) ≤ x < addr_bits (p_ip p) + 2 ^ host_bits p) ↔ v ≤ x < e.
Proof.
  induction ps as [|p ps IH]; intros v e; cbn [tiles].
  - intros -> x. split; [intros (? & []%elem_of_nil & _)|lia].
  - intros (Hp & _ & Hv & _ & Hle & _ & Ht) x. assert (0 < 2 ^ host_bits p).
    { apply Z.pow_pos_nonneg; [lia|]. by destruct (Prefix_valid_range p Hp) as (_ & ? & _). }
    specialize (IH _ _ Ht x). assert (v + 2 ^ host_bits p ≤ e). { lia. } split.
    + intros (p' & [->|Hin]%elem_of_cons & Hx); [lia|]. assert (v + 2 ^ host_bits p ≤ x < e) by (apply IH; eauto). lia.
    + intros Hx. destruct (Z.lt_ge_cases x (v + 2 ^ host_bits p)).
      * exists p. split; [apply elem_of_cons; by left|lia].
      * destruct (proj2 IH) as (p' & ? & ?); [lia|]. exists p'. split; [apply elem_of_cons; by right|done].
Qed.

Example range_ex :
  rangeToPrefixes (Addr4 0xC0000200) 768 = Some [mkPrefix (Addr4 0xC0000200) 23; mkPrefix (Addr4 0xC0000400) 24].
Proof. vm_compute. reflexivity. Qed.

Example range_whole : rangeToPrefixes (Addr4 0) (2 ^ 32) = Some [mkPrefix (Addr4 0) 0] ∧ rangeToPrefixes (Addr4 1) (2 ^ 32) = None.
Proof. vm_compute. done. Qed.

(** ** The holders *)

Section Holders.
Context (rir : string).

Definition add_rows (rows : list caidaSearchRow) : orgs := foldl (λ o row, (add_row rir o row).1) (mkOrgs ∅ ∅) rows.

(** The row that names a holder: the first of its newest snapshot. *)
Definition names_holder (rows : list caidaSearchRow) (id : string) (row : caidaSearchRow) : Prop :=
  ∃ pre post, rows = pre ++ row :: post ∧ row_id rir row = id ∧
    (∀ r, r ∈ pre → row_id rir r = id → row_snapshot r < row_snapshot row) ∧
    (∀ r, r ∈ post → row_id rir r = id → row_snapshot r ≤ row_snapshot row).

Lemma add_rows_spec rows id :
  match og_idAt (add_rows rows) !! id with
  | None => og_idOrg (add_rows rows) !! id = None ∧ ∀ r, r ∈ rows → row_id rir r = id → id = ""
  | Some at_ => ∃ row, names_holder rows id row ∧ id ≠ "" ∧ at_ = row_snapshot row ∧ og_idOrg (add_rows rows) !! id = Some (cr_OrgName row)
  end.
Proof.
  unfold add_rows. induction rows as [|r rows IH] using rev_ind; [split; [done|by intros ? []%elem_of_nil]|].
  rewrite foldl_app. cbn [foldl]. set (o := foldl _ _ rows) in *. unfold add_row.
  assert (∀ x, id = "" ∨ row_id rir r ≠ id → (∀ r', r' ∈ rows → row_id rir r' = id → id = "") → x ∈ rows ++ [r] → row_id rir x = id → id = "") as Hnone.
  { intros x H1 H2 [Hin| ->%list_elem_of_singleton]%elem_of_app Hid; [by eapply H2|]. by destruct H1. }
  assert (∀ row, row_id rir r ≠ id ∨ row_snapshot r ≤ row_snapshot row → names_holder rows id row → names_holder (rows ++ [r]) id row) as Hold.
  { intros row Hr (pre & post & -> & E & Hpre & Hpost). exists pre, (post ++ [r]). split_and!; [by rewrite <- app_assoc|done|done|].
    intros x [Hx| ->%list_elem_of_singleton]%elem_of_app Ex; [by apply Hpost|]. by destruct Hr. }
  destruct (String.eqb_spec (row_id rir r) "") as [E0|E0].
  { cbn [fst]. destruct (og_idAt o !! id) as [at_|].
    - destruct IH as (row & Hn & Hid & IH). exists row. split; [|done]. apply Hold; [left; congruence|done].
    - destruct IH as [IH1 IH2]. split; [done|]. intros x. apply Hnone; [|done]. destruct (decide (id = "")); [by left|right; congruence]. }
  destruct (decide (row_id rir r = id)) as [Er|Er].
  - rewrite Er in *. destruct (og_idAt o !! id) as [seen|] eqn:Es.
    + destruct IH as (row & Hn & _ & -> & IH). unfold After. destruct (Z.ltb_spec (row_snapshot row) (row_snapshot r)) as [Hlt|Hge]; cbn [fst].
      * cbn [og_idAt og_idOrg]. rewrite !lookup_insert_eq. exists r. split_and!; try done. exists rows, []. split_and!; [done|done| |by intros ? []%elem_of_nil].
        destruct Hn as (pre & post & -> & En & Hpre & Hpost). intros x [Hx|[->|Hx]%elem_of_cons]%elem_of_app Ex; [|done|].
        -- specialize (Hpre _ Hx Ex). lia.
        -- specialize (Hpost _ Hx Ex). lia.
      * rewrite Es. exists row. split_and!; try done. apply Hold; [by right|done].
    + cbn [fst og_idAt og_idOrg]. rewrite !lookup_insert_eq. exists r. split_and!; try done. exists rows, [].
      split_and!; [done|done| |by intros ? []%elem_of_nil]. intros x Hx Ex. by rewrite (proj2 IH x Hx Ex) in E0.
  - assert (∀ o', o' = o ∨ o' = mkOrgs (<[row_id rir r := cr_OrgName r]> (og_idOrg o)) (<[row_id rir r := row_snapshot r]> (og_idAt o)) →
      og_idAt o' !! id = og_idAt o !! id ∧ og_idOrg o' !! id = og_idOrg o !! id) as Hsame.
    { intros o' [->| ->]; [done|]. cbn. by rewrite !lookup_insert_ne. }
    match goal with |- context [fst ?x] => destruct (Hsame (fst x)) as [-> ->]; [destruct (og_idAt o !! row_id rir r) as [s|]; [destruct (After _ s)|]; auto|] end.
    destruct (og_idAt o !! id) as [at_|].
    + destruct IH as (row & Hn & Hid & IH). exists row. split; [|done]. apply Hold; [by left|done].
    + destruct IH as [IH1 IH2]. split; [done|]. intros x. apply Hnone; [by right|done].
Qed.
End Holders.

(** ** What the sources ask *)

Section Asked.
Context {J : CAIDAJSON} {U : UnicodeUpper} {L : UnicodeCase} {F : UnicodeFold} {A : ARINJSON}.
Context {W : Type} (Do : string → string → St W (option httpResponse)) (ctx_Err : St W bool).

Definition DoLogged (accept u : string) : St (W * list string) (option httpResponse) := logged u (Do accept u).
Definition ctxLogged : St (W * list string) bool := λ '(w, l), let '(b, w') := ctx_Err w in (b, (w', l)).

Lemma yields_ctx Q : (∀ b, Q b []) → yields ctxLogged Q.
Proof. intros HQ w l. cbn. destruct (ctx_Err w) as [b w']. exists []. by rewrite app_nil_r. Qed.

Lemma fetchPage_asks u : yields (fetchPage DoLogged u) (λ _ d, d = [u]).
Proof.
  apply (yields_bind _ _ (λ _ d, d = [u])); [by apply yields_logged|]. intros r d ->. by apply yields_ret.
Qed.

(** The offset of each page is what the earlier ones gave. *)
Fixpoint page_urls (c : CAIDA) (orgName : string) (have : nat) (pages : list page) : list string :=
  match pages with
  | [] => []
  | p :: pages' => search_url c orgName (Z.of_nat have) :: page_urls c orgName (have + length (pg_rows p)) pages'
  end.

Lemma page_urls_snoc c orgName pages : ∀ have u p,
  page_urls c orgName have pages ++ [u] = page_urls c orgName have (pages ++ [p]) ↔
    u = search_url c orgName (Z.of_nat (have + length (flat_map pg_rows pages))).
Proof.
  induction pages as [|q pages IH]; intros have u p; cbn [page_urls app flat_map].
  - rewrite Nat.add_0_r. split; [by intros [= ->]|by intros ->].
  - rewrite length_app, Nat.add_assoc, <- IH. split; [by intros [= ->]|by intros ->].
Qed.

Lemma search_pages_asks c orgName left : ∀ pages,
  yields (search_pages DoLogged c orgName left (flat_map pg_rows pages)) (λ res d, ∃ more : list page,
    page_urls c orgName 0 pages ++ d = page_urls c orgName 0 (pages ++ more) ∧ (length more ≤ left)%nat ∧
    (∀ rows, res = inl rows → rows = flat_map pg_rows (pages ++ more) ∧
      ∃ p, last (pages ++ more) = Some p ∧ pg_total p ≤ Z.of_nat (length rows))).
Proof.
  induction left as [|left IH]; intros pages; cbn [search_pages].
  - apply yields_ret. exists []. by rewrite !app_nil_r.
  - unfold searchPage. eapply yields_bind; [apply fetchPage_asks|]. intros got d ->.
    destruct got as [p|e].
    2:{ apply yields_ret. exists [mkPage 0 false []]. rewrite app_nil_r. split_and!; [by apply page_urls_snoc|cbn; lia|done]. }
    assert (flat_map pg_rows pages ++ pg_rows p = flat_map pg_rows (pages ++ [p])) as Erows by (rewrite flat_map_app; cbn; by rewrite app_nil_r).
    assert (page_urls c orgName 0 pages ++ [search_url c orgName (Z.of_nat (length (flat_map pg_rows pages)))] = page_urls c orgName 0 (pages ++ [p])) as Eu
      by by apply page_urls_snoc.
    rewrite Erows. destruct (Z.leb_spec (pg_total p) (Z.of_nat (length (flat_map pg_rows (pages ++ [p]))))) as [Hle|Hgt].
    { apply yields_ret. exists [p]. rewrite app_nil_r. split_and!; [done|cbn; lia|]. intros rows [= <-]. split; [done|].
      exists p. by rewrite last_snoc. }
    destruct (negb _). { apply yields_ret. exists [p]. rewrite app_nil_r. split_and!; [done|cbn; lia|done]. }
    case_bool_decide. { apply yields_ret. exists [p]. rewrite app_nil_r. split_and!; [done|cbn; lia|done]. }
    eapply yields_mono; [apply IH|]. intros res d (more & E & Hlen & Hres). exists (p :: more).
    rewrite app_assoc, Eu, E. rewrite <- app_assoc in *. cbn [app] in *. split_and!; [done|cbn; lia|done].
Qed.

(** The search is read whole or not at all: each page is asked at the offset
    the earlier ones reach, at most eight are asked, and rows are returned only
    when they are as many as the last page counts. *)
Theorem searchRows_whole c orgName :
  yields (searchRows DoLogged c orgName) (λ res d, ∃ pages : list page,
    d = page_urls c orgName 0 pages ∧ (length pages ≤ caidaSearchMaxPages)%nat ∧
    (∀ rows, res = inl rows → rows = flat_map pg_rows pages ∧ ∃ p, last pages = Some p ∧ pg_total p ≤ Z.of_nat (length rows))).
Proof. eapply yields_mono; [apply (search_pages_asks c orgName _ [])|]. intros res d (more & ? & ? & ?). by exists more. Qed.

Lemma asn_steps_ask c rir want asns : ∀ o,
  yields (for_each (asn_step DoLogged c rir want) asns o) (λ _ d, (length d ≤ length asns)%nat).
Proof.
  induction asns as [|asn asns IH]; intros o; cbn [for_each]; [by apply yields_ret|].
  apply (yields_bind _ _ (λ _ d, (length d ≤ 1)%nat)).
  - destruct o as [o|e]; cbn [asn_step]; [|by apply yields_ret; cbn; lia].
    apply (yields_bind _ _ (λ _ d, (length d ≤ 1)%nat)); [|intros; apply yields_ret; by rewrite app_nil_r].
    unfold asnRecords. eapply yields_bind; [apply fetchPage_asks|]. intros got d ->. by apply yields_ret.
  - intros o' d Hd. eapply yields_mono; [apply IH|]. intros ? d' Hd'. rewrite length_app. cbn [length] in *. lia.
Qed.

Lemma page_urls_length c orgName pages : ∀ have, length (page_urls c orgName have pages) = length pages.
Proof. induction pages; intros have; cbn; [done|]. by rewrite IHpages. Qed.

Lemma orgIDs_asks c orgName : yields (orgIDs DoLogged c orgName) (λ _ d, (length d ≤ 40)%nat).
Proof.
  unfold orgIDs. eapply yields_bind; [apply searchRows_whole|]. intros got d (pages & -> & Hl & _). unfold caidaSearchMaxPages in Hl.
  destruct got as [rows|e]; [|apply yields_ret; rewrite app_nil_r, page_urls_length; lia].
  destruct (Z.ltb_spec caidaASNLegMaxLookups (Z.of_nat (length (ga_pending (gather (ToUpper (ca_rir c)) (strings_ToLower orgName) rows))))) as [|Hle].
  { apply yields_ret. rewrite app_nil_r, page_urls_length. lia. }
  unfold caidaASNLegMaxLookups in Hle. eapply yields_bind; [apply asn_steps_ask|]. intros o d' Hd'. cbv beta in Hd'.
  assert ((length (page_urls c orgName 0 pages ++ d') ≤ 40)%nat) by (rewrite length_app, page_urls_length; lia).
  apply yields_ret. by rewrite app_nil_r.
Qed.

(** One lookup asks at most 41 times: eight pages, thirty-two members, one file. *)
Theorem CAIDA_Propose_asks c orgName : yields (CAIDA_Propose DoLogged c orgName) (λ _ d, (length d ≤ 41)%nat).
Proof.
  unfold CAIDA_Propose. eapply yields_bind; [apply orgIDs_asks|]. intros got d Hd. cbv beta in Hd.
  assert (∀ d', (length d' ≤ 1)%nat → (length (d ++ d') ≤ 41)%nat) as Hone by (intros; rewrite length_app; lia).
  destruct got as [idOrg|e]; [|apply yields_ret, Hone; cbn; lia]. case_bool_decide; [apply yields_ret, Hone; cbn; lia|].
  unfold delegations. apply (yields_bind _ _ (λ _ d, (length d ≤ 1)%nat)); [by apply yields_logged|].
  intros r d' Hd'. apply yields_ret. rewrite app_nil_r. by apply Hone.
Qed.

(** ** The walk of the holders *)

Definition entity_url (base : string) (stub : arinEntity) : string := base +:+ "/entity/" +:+ PathEscape (ae_Handle stub).

(** The holders a walk fetches: those with a handle that are no point of contact. *)
Definition fetched (stubs : list arinEntity) : list arinEntity :=
  filter (λ e, ae_Handle e ≠ "" ∧ arinEntity_class e ≠ classPOC) stubs.

Lemma ARIN_get_asks u : yields (ARIN_get DoLogged u) (λ _ d, d = [u]).
Proof. apply (yields_bind _ _ (λ _ d, d = [u])); [by apply yields_logged|]. intros r d ->. by apply yields_ret. Qed.

(** Where a candidate of the walk comes from: a holder it fetched. *)
Definition from_holders (stubs : list arinEntity) (cd : Candidate) : Prop :=
  ∃ stub ent, stub ∈ fetched stubs ∧ cd ∈ holder_candidates stub ent.

Lemma holders_ask base stubs : ∀ out,
  yields (for_each (holder_step DoLogged ctxLogged base) stubs out) (λ res d,
    d `prefix_of` map (entity_url base) (fetched stubs) ∧
    (∀ found, res = inl found → ∃ o, out = inl o ∧ d = map (entity_url base) (fetched stubs)) ∧
    match out, res with
    | inl o, inl found | inl o, inr found => ∃ more, found = o ++ more ∧ Forall (from_holders stubs) more
    | inr o, inr found => found = o ∧ d = []
    | inr _, inl _ => False
    end).
Proof.
  assert (∀ stub stubs cd, from_holders stubs cd → from_holders (stub :: stubs) cd) as Hcons.
  { intros stub stubs' cd (s & ent & Hs & Hcd). exists s, ent. split; [|done]. unfold fetched in *. rewrite filter_cons. destruct (decide _); [by right|done]. }
  induction stubs as [|stub stubs IH]; intros out; cbn [for_each].
  - apply yields_ret. split_and!; [done|intros found ->; eauto|]. destruct out; [exists []; by rewrite app_nil_r|done].
  - unfold holder_step at 1. destruct out as [o|o].
    2:{ apply (yields_bind _ _ (λ a d, a = inr o ∧ d = [])); [by apply yields_ret|]. intros a d [-> ->].
        eapply yields_mono; [apply IH|]. intros res d (_ & H2 & H3). destruct res as [f|f]; [done|]. destruct H3 as [-> ->].
        split_and!; [by apply prefix_nil|done|done|done]. }
    apply (yields_bind _ _ (λ a d, match a with
      | inr f => f = o ∧ d = []
      | inl f => ∃ more, f = o ++ more ∧ Forall (from_holders [stub]) more ∧ d = map (entity_url base) (fetched [stub])
      end)).
    + apply (yields_bind _ _ (λ _ d, d = [])); [by apply yields_ctx|]. intros over d ->. cbn [app].
      destruct over; [by apply yields_ret|].
      assert (∀ s, (ae_Handle s ≠ "" ∧ arinEntity_class s ≠ classPOC) → fetched [s] = [s]) as Hyes.
      { intros s Hs. unfold fetched. rewrite filter_cons_True by done. by rewrite filter_nil. }
      assert (∀ s, ¬ (ae_Handle s ≠ "" ∧ arinEntity_class s ≠ classPOC) → fetched [s] = []) as Hno.
      { intros s Hs. unfold fetched. rewrite filter_cons_False by done. by rewrite filter_nil. }
      destruct (String.eqb_spec (ae_Handle stub) "") as [E1|E1].
      { apply yields_ret. exists []. rewrite Hno by tauto. by rewrite app_nil_r. }
      destruct (String.eqb_spec (arinEntity_class stub) classPOC) as [E2|E2].
      { apply yields_ret. exists []. rewrite Hno by tauto. by rewrite app_nil_r. }
      eapply yields_bind; [apply ARIN_get_asks|]. intros got d ->. apply yields_ret. rewrite Hyes by done.
      assert (∃ more, o = o ++ more ∧ Forall (from_holders [stub]) more ∧ [entity_url base stub] ++ [] = map (entity_url base) [stub]) as Hnil
        by (exists []; by rewrite app_nil_r).
      destruct got as [[body status]|e]; [|done]. destruct (negb _); [done|]. destruct (decode_entity body) as [ent|]; [|done].
      exists (holder_candidates stub ent). split_and!; [done| |done].
      apply Forall_forall. intros cd Hcd. exists stub, ent. split; [|done]. rewrite Hyes by done. by left.
    + intros a d Ha. eapply yields_mono; [apply IH|]. intros res d' (H1 & H2 & H3).
      assert (fetched (stub :: stubs) = fetched [stub] ++ fetched stubs) as -> by (unfold fetched; by rewrite <- filter_app). rewrite map_app.
      assert (∀ more, Forall (from_holders [stub]) more → Forall (from_holders (stub :: stubs)) more) as Hhead.
      { intros more Hm. eapply Forall_impl; [exact Hm|]. intros cd (s & ent & Hs & Hcd). exists s, ent. split; [|done].
        assert (fetched (stub :: stubs) = fetched [stub] ++ fetched stubs) as -> by (unfold fetched; by rewrite <- filter_app).
        apply elem_of_app. by left. }
      assert (∀ more, Forall (from_holders stubs) more → Forall (from_holders (stub :: stubs)) more) as Htail
        by (intros more Hm; eapply Forall_impl; [exact Hm|]; intros; by apply Hcons).
      destruct a as [f|f].
      * destruct Ha as (more & -> & Hm & ->). split_and!.
        -- by apply prefix_app.
        -- intros found ->. destruct (H2 found eq_refl) as (? & _ & ->). by exists o.
        -- destruct res as [f|f]; destruct H3 as (more' & -> & Hm'); exists (more ++ more'); (split; [by rewrite app_assoc|]);
             (apply Forall_app; split; [by apply Hhead|by apply Htail]).
      * destruct Ha as [-> ->]. destruct res as [g|g]; [done|]. destruct H3 as [-> ->]. split_and!; [by apply prefix_nil|done|].
        exists []. rewrite app_nil_r. by split.
Qed.

(** The walk of the holders.  The search is asked first and, when it names
    holders, each that has a handle and is no point of contact is asked once, in
    order; an answer without an error asked all of them, and every candidate is of
    a holder that was asked. *)
Theorem ARIN_Propose_walk base orgName :
  yields (ARIN_Propose DoLogged ctxLogged base orgName) (λ res d, ∃ stubs, let '(out, err) := res in
    (∃ asked, d = (base +:+ "/entities?fn=" +:+ QueryEscape orgName) :: asked ∧ asked `prefix_of` map (entity_url base) (fetched stubs) ∧
      (err = None → asked = map (entity_url base) (fetched stubs))) ∧
    Forall (from_holders stubs) out).
Proof.
  unfold ARIN_Propose. eapply yields_bind; [apply ARIN_get_asks|]. intros got d ->.
  assert (∀ (out : list Candidate) e, out = [] → yields (W := W) (mret (out, e)) (λ (res : list Candidate * option perr) d', ∃ stubs, let '(out, err) := res in
    (∃ asked, [base +:+ "/entities?fn=" +:+ QueryEscape orgName] ++ d' = (base +:+ "/entities?fn=" +:+ QueryEscape orgName) :: asked ∧
      asked `prefix_of` map (entity_url base) (fetched stubs) ∧ (err = None → asked = map (entity_url base) (fetched stubs))) ∧ Forall (from_holders stubs) out)) as Hnone.
  { intros out e ->. apply yields_ret. exists []. split; [by exists []|constructor]. }
  destruct got as [[body status]|e]; [|by apply Hnone]. destruct (status =? 404); [by apply Hnone|]. destruct (negb _); [by apply Hnone|].
  destruct (decode_search body) as [stubs|]; [|by apply Hnone].
  eapply yields_bind; [apply (holders_ask base stubs (inl []))|]. intros res d (H1 & H2 & H3). apply yields_ret. exists stubs.
  destruct res as [f|f]; destruct H3 as (more & -> & Hm); rewrite app_nil_r; (split; [exists d; split_and!; [done|done|]|done]); [|done].
  intros _. by destruct (H2 _ eq_refl) as (? & _ & ->).
Qed.
End Asked.

(** ** The delegated file *)

Lemma rowPrefixes_valid typ start value ps :
  rowPrefixes typ start value = Some ps → Forall (λ p, Prefix_valid p ∧ addr_bits (p_ip p) mod 2 ^ host_bits p = 0) ps.
Proof.
  unfold rowPrefixes. destruct (ParseAddr start) as [a|] eqn:Ea; [|done]. destruct (ParseAddr_wf _ _ Ea) as [Hw Hne].
  change (Some a ≫= ?f) with (f a). cbv beta.
  destruct (String.eqb typ "ipv4").
  - destruct (big_SetString value) as [count|]; [|done]. change (Some count ≫= ?f) with (f count). cbv beta. destruct (count <=? 0) eqn:Ec; [done|].
    intros E. assert (∀ v e, tiles (BitLen a) v e ps → Forall (λ p, Prefix_valid p ∧ addr_bits (p_ip p) mod 2 ^ host_bits p = 0) ps) as Hall.
    { clear. induction ps as [|p ps IH]; intros v e; cbn [tiles]; [constructor|]. intros (Hp & _ & Hv & Ha & _ & _ & Ht).
      constructor; [split; [done|by rewrite Hv]|by eapply IH]. }
    destruct (rangeToPrefixes_tiles a count ps Hw Hne E) as [_ Ht]. by eapply Hall.
  - destruct (String.eqb typ "ipv6"); [|done]. destruct (ParseInt value) as [bits|]; [|done]. change (Some bits ≫= ?f) with (f bits). cbv beta.
    destruct (Z.ltb_spec bits 0); [done|]. destruct (Z.ltb_spec (BitLen a) bits); [done|]. intros [= <-]. constructor; [|constructor].
    assert (Prefix_valid (PrefixFrom a bits)) as Hv.
    { unfold PrefixFrom, Prefix_valid, Prefix_wf. rewrite (proj2 (Z.leb_le 0 _)), (proj2 (Z.leb_le bits _)) by lia.
      destruct a; [done|..]; cbn in *; split_and!; try done; lia. }
    split; [by apply Masked_valid|]. rewrite Masked_spec by done. pose proof (prefix_base_range _ Hv).
    destruct (Prefix_valid_range _ Hv) as (_ & Hh & _). set (p := PrefixFrom a bits) in *. clearbody p.
    assert (∀ v, addr_bits (p_ip (mkPrefix (addr_in_family p v) (p_bits p))) = v ∧ host_bits (mkPrefix (addr_in_family p v) (p_bits p)) = host_bits p) as Hf.
    { intros v. unfold addr_in_family, host_bits. cbn. destruct Hv as [(Hw' & Hb & _ & Hi) Hp]. destruct (p_ip p); [|done..]. specialize (Hi eq_refl). lia. }
    destruct (Hf (prefix_base p)) as [-> ->]. unfold prefix_base. apply Z.mod_mul, Z.pow_nonzero; lia.
Qed.

(** A candidate of a delegated file is an aligned prefix, under the slug of the
    source, held by the name one of the ids has. *)
Lemma delegated_candidates_valid c idOrg r :
  Forall (λ cd, cd_SourceSlug cd = ca_slug c ∧ cd_RecordKind cd = RecordRIRDelegation ∧ Prefix_valid (cd_Scope cd) ∧
    addr_bits (p_ip (cd_Scope cd)) mod 2 ^ host_bits (cd_Scope cd) = 0 ∧ ∃ id, idOrg !! id = Some (cd_OrgName cd)) (delegated_candidates c idOrg r).1.
Proof.
  unfold delegated_candidates. destruct (negb _); [constructor|]. destruct (scan_lines _) as [lines long]. cbn [fst].
  apply Forall_forall. intros cd (line & _ & Hcd)%list_elem_of_In%in_flat_map. revert Hcd. rewrite <- list_elem_of_In. unfold line_candidates.
  destruct (_ || _); [by intros ?%elem_of_nil|]. destruct (Split "|" (TrimSpace line)) as [|? [|? [|typ [|start [|value [|? [|? [|opaque ?]]]]]]]]; try by intros ?%elem_of_nil.
  destruct (idOrg !! opaque) as [holder|] eqn:Eh; [|by intros ?%elem_of_nil]. intros (p & -> & Hp)%list_elem_of_fmap.
  destruct (rowPrefixes typ start value) as [ps|] eqn:Ep; [|by apply elem_of_nil in Hp]. cbn in *.
  pose proof (rowPrefixes_valid _ _ _ _ Ep) as Hv. rewrite Forall_forall in Hv. destruct (Hv p Hp). split_and!; try done. by exists opaque.
Qed.

(** ** The registry *)

Section Asking.
Context {W : Type} (sources : list (Source W)) (orgName : string) (enabled : gmap string bool).

Definition is_enabled (s : Source W) : bool := default false (enabled !! so_Slug s).

(** Each source the operator enabled is asked once, in order, and no other; the
    candidates are those of the sources that answered without an error, and every
    attempt is told. *)
Theorem Registry_Propose_spec w :
  Registry_Propose sources orgName enabled w =
    let '(answers, w') := ask_each (λ s, so_Propose s orgName) (filter (λ s, is_enabled s) sources) w in
    (concat (map (λ a, match a.2 with None => a.1 | Some _ => [] end) answers),
     zip_with (λ s a, mkAttempt (so_Slug s) a.2) (filter (λ s, is_enabled s) sources) answers,
     existsb (λ a, bool_decide (is_Some a.2)) answers, w').
Proof.
  assert (∀ srcs acc w, for_each (source_step orgName enabled) srcs acc w =
    let '(answers, w') := ask_each (λ s, so_Propose s orgName) (filter (λ s, is_enabled s) srcs) w in
    ((acc.1 ++ concat (map (λ a, match a.2 with None => a.1 | Some _ => [] end) answers),
      acc.2 ++ zip_with (λ s a, mkAttempt (so_Slug s) a.2) (filter (λ s, is_enabled s) srcs) answers), w')) as Hloop.
  { induction srcs as [|s srcs IH]; intros acc w0; cbn [for_each].
    - cbn. rewrite !app_nil_r. by destruct acc.
    - unfold mbind at 1, St_bind. unfold source_step at 1. fold (is_enabled s). rewrite filter_cons.
      destruct (is_enabled s) eqn:Es; cbn [negb].
      + rewrite decide_True by done. cbn [ask_each]. unfold mbind, St_bind, mret, St_ret. destruct (so_Propose s orgName w0) as [[cands err] w1].
        rewrite IH. destruct (ask_each _ _ w1) as [answers w2]. cbn [fst snd map concat zip_with]. by rewrite <- !app_assoc.
      + rewrite decide_False by (intros []). unfold mret, St_ret. by rewrite IH. }
  unfold Registry_Propose, mbind, St_bind. rewrite Hloop. destruct (ask_each _ _ w) as [answers w'] eqn:Ea. unfold mret, St_ret. cbn [fst snd app].
  f_equal. f_equal.
  assert (∀ srcs (u u' : W) answers, ask_each (λ s, so_Propose s orgName) srcs u = (answers, u') → length answers = length srcs) as Hlen.
  { clear. induction srcs as [|s srcs IH]; intros u u' answers; cbn [ask_each]; [by intros [= <- _]|].
    unfold mbind, St_bind, mret, St_ret. destruct (so_Propose s orgName u) as [a w1]. destruct (ask_each _ _ w1) as [rest w2] eqn:E.
    intros [= <- _]. cbn. f_equal. by eapply IH. }
  pose proof (Hlen _ _ _ _ Ea) as Hl. clear -Hl. revert answers Hl. induction (filter _ sources) as [|s srcs IH]; intros [|a answers]; cbn; try done.
  intros [= Hl]. by rewrite IH.
Qed.
End Asking.

(** One row of the file, read for a holder. *)
Example delegated_row : ∀ c : CAIDA, ca_slug c = SlugAFRINIC →
  line_candidates c {["F36B9F4B" := "Example Org"]} "afrinic|ZA|ipv4|196.0.2.0|768|20050101|allocated|F36B9F4B" =
    [mkCandidate SlugAFRINIC RecordRIRDelegation (mkPrefix (Addr4 0xC4000200) 23) "Example Org";
     mkCandidate SlugAFRINIC RecordRIRDelegation (mkPrefix (Addr4 0xC4000400) 24) "Example Org"].
Proof. intros [] [= ->]. vm_compute. reflexivity. Qed.

(** A customer's handle has digits alone; an organisation's does not match. *)
Example handles : customerHandle "C04321" = true ∧ customerHandle "GOOGL-1" = false ∧ customerHandle "CLOUD14" = false ∧ customerHandle "C" = false.
Proof. done. Qed.
