(* ===== verification/EdgeStore.v ===== *)
(** * The shared-edge measurement: taken, gated, stored, read

    [measure/edgefanout], the rows and reads of [queue/edgefanout.go] and the
    tables of [db/edge_fanout.sql.go]: one handshake without a server name per
    address, its line, the row the line becomes, and the reading custody makes of
    the rows.  The handshake is a parameter over a world; so are [encoding/json],
    certificate parsing and the public-suffix list. *)

From S2P Require Import Prelude GoStr NetIP NetParse NetText GoBytes GoConv Custody SubjectScope.

(** ** The leaf *)

Definition Kind : string := "edge-fanout".
Definition Port : Z := 443.

Definition Presented : string := "presented".
Definition TLSRefused : string := "tls-refused".
Definition NoTLS : string := "no-tls".
Definition Unreachable : string := "unreachable".

Definition Outcome_Valid (o : string) : bool :=
  String.eqb o Presented || String.eqb o TLSRefused || String.eqb o NoTLS || String.eqb o Unreachable.

Record Result := mkResult { re_Outcome : string; re_Fingerprint : string; re_LeafDER : list Z }.

(** [connectoutcome.HandshakeResult], as far as this leaf reads it. *)
Record HandshakeResult := mkHandshake {
  hs_Outcome : string;
  hs_Chain : list string;
  hs_LeafDER : list Z;
  hs_Unreachable : bool
}.

Definition Fold (res : HandshakeResult) : Result :=
  if String.eqb (hs_Outcome res) Presented then
    match hs_Chain res with
    | [] => mkResult TLSRefused "" []
    | fp :: _ => mkResult Presented fp (hs_LeafDER res)
    end
  else if hs_Unreachable res then mkResult Unreachable "" []
  else if String.eqb (hs_Outcome res) TLSRefused then mkResult TLSRefused "" []
  else mkResult NoTLS "" [].

(** [connectoutcome.Fingerprint]. *)
Definition Fingerprint (der : list Z) : string := ("sha256:" +:+ hex_EncodeToString (Sum256 der))%string.

(** [wire.CertMaterial] and the line it rides on. *)
Record CertMaterial := mkMaterial { cm_Fingerprint : string; cm_DER : list Z }.
Definition line : Type := Observation * option CertMaterial.

Definition presentedMaterial (res : Result) : option CertMaterial :=
  if negb (String.eqb (re_Outcome res) Presented) || bool_decide (re_LeafDER res = []) then None
  else Some (mkMaterial (Fingerprint (re_LeafDER res)) (re_LeafDER res)).

(** [encoding/json] on a value: the outcome and the fingerprint. *)
Class EdgeJSON := {
  encode_value : string → string → string;
  decode_value : string → option (string * string)
}.

(** What is written in ASCII reads back. *)
Class EdgeJSONLaws `{!EdgeJSON} : Prop := {
  value_roundtrip o f : string_forallb printable o = true → string_forallb printable f = true →
    decode_value (encode_value o f) = Some (o, f)
}.

Section Leaf.
Context {J : EdgeJSON}.

(** [None] is an error. *)
Definition DecodeValue (raw : string) : option (string * string) :=
  '(outcome, fingerprint) ← decode_value raw;
  if negb (Outcome_Valid outcome) then None
  else if negb (Bool.eqb (String.eqb outcome Presented) (negb (String.eqb fingerprint ""))) then None
  else Some (outcome, fingerprint).

Definition Emit (target : AddrPort) (res : Result) : line :=
  (mkObs Kind "" "" "" (Addr_String (ap_Addr target)) (encode_value (re_Outcome res) (re_Fingerprint res)),
   presentedMaterial res).

Definition edgeTarget (addr : string) : option AddrPort :=
  ip ← ParseAddr (TrimSpace addr); Some (mkAddrPort (Unmap ip) Port).

Context {W : Type}.
Variable handshake : AddrPort → St W Result.

Definition run_step (st : gset AddrPort * list line) (addr : string) : St W (gset AddrPort * list line) :=
  let '(seen, out) := st in
  match edgeTarget addr with
  | None => mret st
  | Some target =>
      if bool_decide (target ∈ seen) then mret st
      else res ← handshake target; mret ({[ target ]} ∪ seen, out ++ [Emit target res])
  end.

Definition RunWithHandshaker (addresses : list string) : St W (list line) :=
  '(_, out) ← for_each run_step addresses (∅, []); mret out.
End Leaf.

(** ** The rows *)

Record edge_row := mkEdgeRow {
  er_ID : Z;
  er_BatchID : Z;
  er_Address : string;
  er_Outcome : string;
  er_Fingerprint : option string;
  er_MeasuredAt : Z
}.

Inductive drop_reason := CarriesFacet | DoesNotParse | BadValue | MaterialDisagrees | MeasuredTwice.

Definition pgTextOrNull (s : string) : option string := if String.eqb s "" then None else Some s.

(** A row to insert, and one to find. *)
Record edge_params := mkParams {
  pr_BatchID : Z;
  pr_Address : string;
  pr_Outcome : string;
  pr_Fingerprint : option string;
  pr_MeasuredAt : Z
}.

Section Rows.
Context {J : EdgeJSON}.

Definition row_step (batch at_ : Z) (st : gset Addr * list edge_params * list drop_reason) (l : line)
    : gset Addr * list edge_params * list drop_reason :=
  let '(seen, out, dropped) := st in
  let '(o, material) := l in
  let drop why := (seen, out, dropped ++ [why]) in
  if negb (String.eqb (ob_Kind o) Kind) then st
  else if negb (String.eqb (ob_Facet o) "") then drop CarriesFacet
  else
    match ParseAddr (normAddr (ob_Address o)) with
    | None => drop DoesNotParse
    | Some addr =>
        let addr := Unmap addr in
        match DecodeValue (ob_Data o) with
        | None => drop BadValue
        | Some (outcome, fp) =>
            if match material with None => false | Some m => negb (String.eqb (cm_Fingerprint m) fp) end
            then drop MaterialDisagrees
            else if bool_decide (addr ∈ seen) then drop MeasuredTwice
            else ({[ addr ]} ∪ seen,
                  out ++ [mkParams batch (Addr_String addr) outcome (pgTextOrNull fp) at_], dropped)
        end
    end.

Definition toEdgeFanoutRows (jobKind : string) (batch at_ : Z) (obs : list line)
    : list edge_params * list drop_reason :=
  if negb (String.eqb jobKind Kind) then ([], [])
  else let '(_, out, dropped) := foldl (row_step batch at_) (∅, [], []) obs in (out, dropped).
End Rows.

(** The table: its check constraints refuse a row with an error, and a text column
    refuses a NUL byte. *)
Record edge_table := mkEdgeTable { et_rows : list edge_row; et_next : Z }.

Definition row_ok (p : edge_params) : bool :=
  Outcome_Valid (pr_Outcome p) &&
  Bool.eqb (String.eqb (pr_Outcome p) Presented) (bool_decide (is_Some (pr_Fingerprint p))).

Definition text_column (s : string) : bool := string_forallb (λ c, negb (Ascii.eqb c "000")) s.

Definition row_text (p : edge_params) : bool :=
  text_column (pr_Address p) && text_column (pr_Outcome p) && from_option text_column true (pr_Fingerprint p).

Definition InsertEdgeFanoutObservation (p : edge_params) (t : edge_table) : option edge_table :=
  if negb (row_ok p) || negb (row_text p) then None
  else Some (mkEdgeTable
    (et_rows t ++ [mkEdgeRow (et_next t) (pr_BatchID p) (pr_Address p) (pr_Outcome p) (pr_Fingerprint p) (pr_MeasuredAt p)])
    (et_next t + 1)).

(** [None] is an error of the store, which abandons the transaction. *)
Definition foldEdgeFanoutObservations `{!EdgeJSON} (jobKind : string) (batch at_ : Z) (obs : list line) (t : edge_table)
    : option edge_table :=
  for_range (λ t p, InsertEdgeFanoutObservation p t) (toEdgeFanoutRows jobKind batch at_ obs).1 t.

(** The later of two rows of one address. *)
Definition newer (best : option edge_row) (r : edge_row) : option edge_row :=
  match best with
  | None => Some r
  | Some b =>
      if (er_MeasuredAt b <? er_MeasuredAt r) || ((er_MeasuredAt b =? er_MeasuredAt r) && (er_ID b <? er_ID r))
      then Some r else best
  end.

Definition newest_of (rows : list edge_row) (address : string) : option edge_row :=
  foldl newer None (filter (λ r, er_Address r = address) rows).

Record measurement := mkMeasurement { me_Address : string; me_Outcome : string; me_Fingerprint : option string }.

Definition measurement_of (r : edge_row) : measurement :=
  mkMeasurement (er_Address r) (er_Outcome r) (er_Fingerprint r).

(** One row an address, the newest. *)
Definition ListEdgeFanoutMeasurements (t : edge_table) : list measurement :=
  omap (λ a, measurement_of <$> newest_of (et_rows t) a)
    (sorted_keys (list_to_set (map er_Address (et_rows t)))).

Definition ListEdgeFanoutMeasurementsOver (addresses : list string) (t : edge_table) : list measurement :=
  omap (λ a, if bool_decide (a ∈ addresses) then measurement_of <$> newest_of (et_rows t) a else None)
    (sorted_keys (list_to_set (map er_Address (et_rows t)))).

(** ** The reading *)

(** [x509.ParseCertificate] and its [DNSNames]; [None] is its error. *)
Class CertNames := cert_names : list Z → option (list string).

Record EdgeFanoutBound := mkBound { eb_over : list string; eb_bounded : bool }.
Definition EdgeFanoutUnbounded : EdgeFanoutBound := mkBound [] false.
Definition EdgeFanoutOver (addrs : list Addr) : EdgeFanoutBound :=
  mkBound (map (λ a, Addr_String (Unmap a)) addrs) true.

Definition readEdgeFanoutRows (bound : EdgeFanoutBound) (t : edge_table) : list measurement :=
  if negb (eb_bounded bound) then ListEdgeFanoutMeasurements t
  else if bool_decide (eb_over bound = []) then []
  else ListEdgeFanoutMeasurementsOver (eb_over bound) t.

Definition fingerprint_step (st : gset string * list string) (r : measurement) : gset string * list string :=
  let '(seen, out) := st in
  match me_Fingerprint r with
  | None => st
  | Some fp =>
      if String.eqb fp "" then st
      else if bool_decide (fp ∈ seen) then st
      else ({[ fp ]} ∪ seen, out ++ [fp])
  end.

Definition edgeFanoutFingerprints (rows : list measurement) : list string :=
  (foldl fingerprint_step (∅, []) rows).2.

(** The certificates by fingerprint, the table's key. *)
Definition readEdgeFanoutMaterial (rows : list measurement) (store : gmap string (list Z)) : gmap string (list Z) :=
  let fingerprints := edgeFanoutFingerprints rows in
  if bool_decide (fingerprints = []) then ∅ else filter (λ kv, kv.1 ∈ fingerprints) store.

Section Reading.
Context {C : CertNames}.
Variable EffectiveTLDPlusOne : string → option string.

Definition edgeFanoutSANs (der : list Z) : list string :=
  if bool_decide (der = []) then [] else default [] (cert_names der).

Definition verdict_of (material : gmap string (list Z)) (fp : string) : bool :=
  SharedEdge EffectiveTLDPlusOne (edgeFanoutSANs (default [] (material !! fp))).

(** The verdict of a certificate is derived once. *)
Definition shared_step (material : gmap string (list Z)) (st : gmap Addr bool * gmap string bool) (r : measurement)
    : gmap Addr bool * gmap string bool :=
  let '(shared, verdict) := st in
  match ParseAddr (me_Address r) with
  | None => st
  | Some addr =>
      if String.eqb (me_Outcome r) Presented then
        let fingerprint := default "" (me_Fingerprint r) in
        match verdict !! fingerprint with
        | Some v => (<[Unmap addr := v]> shared, verdict)
        | None =>
            let v := verdict_of material fingerprint in
            (<[Unmap addr := v]> shared, <[fingerprint := v]> verdict)
        end
      else (<[Unmap addr := false]> shared, verdict)
  end.

Definition toEdgeFanout (completed : bool) (rows : list measurement) (material : gmap string (list Z)) : EdgeFanout :=
  mkFanout true completed false (foldl (shared_step material) (∅, ∅) rows).1 false.

(** [scan]: whether the Scan is there and on; [completed]: whether a batch of it
    has completed. *)
Definition ReadEdgeFanout (scan : option bool) (completed : bool) (bound : EdgeFanoutBound) (t : edge_table)
    (store : gmap string (list Z)) : EdgeFanout :=
  match scan with
  | None | Some false => EdgeFanoutZero
  | Some true =>
      let rows := readEdgeFanoutRows bound t in
      let out := toEdgeFanout completed rows (readEdgeFanoutMaterial rows store) in
      mkFanout (ef_Enabled out) (ef_BatchCompleted out) (ef_ExtensionErrored out) (ef_Shared out) (eb_bounded bound)
  end.
End Reading.

(** ** Texts of addresses *)

(** An address as the jobs name it: valid, unmapped, without a zone. *)
Definition clean (a : Addr) : Prop := Addr_wf a ∧ a ≠ AddrInvalid ∧ Unmap a = a ∧ hasZone a = false.

Lemma plain_printable s : string_forallb plain s = true → string_forallb printable s = true.
Proof.
  apply string_forallb_impl. intros c. unfold plain, printable, hex_digit, hex_val, is_digit.
  intros [[H|H%Ascii.eqb_eq]%orb_true_iff|H%Ascii.eqb_eq]%orb_true_iff; [|by subst..].
  apply bool_decide_eq_true in H as [v Hv]. revert Hv.
  destruct ((48 <=? code c) && (code c <=? 57)) eqn:H1; [intros _; bool_to_prop; apply andb_true_iff; rewrite !Z.ltb_lt; lia|].
  destruct ((97 <=? code c) && (code c <=? 102)) eqn:H2; [intros _; bool_to_prop; apply andb_true_iff; rewrite !Z.ltb_lt; lia|].
  destruct ((65 <=? code c) && (code c <=? 70)) eqn:H3; [intros _; bool_to_prop; apply andb_true_iff; rewrite !Z.ltb_lt; lia|done].
Qed.

Lemma Addr_String_printable a : a ≠ AddrInvalid → hasZone a = false → string_forallb printable (Addr_String a) = true.
Proof.
  destruct a as [|v|v z]; intros Hne Hz; [done|apply plain_printable, string_v4_plain|].
  cbn in Hz. apply negb_false_iff, String.eqb_eq in Hz. subst z. unfold Addr_String. destruct (Is4In6 _).
  - rewrite !string_forallb_app. rewrite (plain_printable (string_v4 _)) by apply string_v4_plain. done.
  - rewrite string_forallb_app. by rewrite (plain_printable (string_v6 _)) by apply string_v6_plain.
Qed.

Lemma clean_parse a : clean a → ParseAddr (Addr_String a) = Some a.
Proof. intros (Hw & Hn & _ & _). by apply ParseAddr_String. Qed.

Lemma clean_trim a : clean a → TrimSpace (Addr_String a) = Addr_String a.
Proof. intros (_ & Hn & _ & Hz). by apply TrimSpace_printable, Addr_String_printable. Qed.

Lemma clean_norm a : clean a → normAddr (Addr_String a) = Addr_String a.
Proof.
  intros Hc. unfold normAddr. rewrite clean_trim, clean_parse by done. by destruct Hc as (_ & _ & -> & _).
Qed.

(** ** Properties of the rows *)

Section RowProperties.
Context {J : EdgeJSON}.

Lemma DecodeValue_ok raw o f :
  DecodeValue raw = Some (o, f) →
  Outcome_Valid o = true ∧ (o = Presented ↔ f ≠ "").
Proof.
  unfold DecodeValue. intros ([o' f'] & _ & H)%bind_Some. revert H.
  destruct (Outcome_Valid o') eqn:Hv; [|done]. cbn [negb].
  destruct (Bool.eqb _ _) eqn:Hb; [|done]. cbn [negb]. intros [= <- <-]. split; [done|].
  apply eqb_prop in Hb. revert Hb. destruct (String.eqb_spec o' Presented), (String.eqb_spec f' ""); cbn; naive_solver.
Qed.

Lemma row_ok_decoded batch at_ a o f :
  Outcome_Valid o = true → (o = Presented ↔ f ≠ "") → row_ok (mkParams batch a o (pgTextOrNull f) at_) = true.
Proof.
  intros Hv Hf. unfold row_ok, pgTextOrNull. cbn [pr_Outcome pr_Fingerprint]. rewrite Hv. cbn [andb].
  destruct (String.eqb_spec f "") as [->|Hne], (String.eqb_spec o Presented) as [->|Ho]; cbn; try done; naive_solver.
Qed.

(** The rows written so far. *)
Definition rows_ok (seen : gset Addr) (out : list edge_params) : Prop :=
  Forall (λ p, row_ok p = true) out ∧
  (∀ p, p ∈ out → ∃ a, a ∈ seen ∧ pr_Address p = Addr_String a) ∧
  (∀ a, a ∈ seen → Addr_wf a ∧ a ≠ AddrInvalid ∧ Unmap a = a) ∧
  NoDup (map pr_Address out).

End RowProperties.

Section RowFold.
Context {J : EdgeJSON}.

Lemma wf_key_parse s a : ParseAddr s = Some a → plain_addr (Unmap a).
Proof.
  intros [Hw Hn]%ParseAddr_wf. by apply plain_addr_Unmap.
Qed.

Definition rows_inv (batch at_ : Z) (st : gset Addr * list edge_params * list drop_reason) : Prop :=
  let '(seen, out, _) := st in
  (∀ a, a ∈ seen → plain_addr a) ∧
  (∃ keys, map pr_Address out = map Addr_String keys ∧ NoDup keys ∧ (list_to_set keys : gset Addr) = seen) ∧
  Forall (λ p, row_ok p = true ∧ pr_BatchID p = batch ∧ pr_MeasuredAt p = at_) out.

Lemma row_step_inv batch at_ st l : rows_inv batch at_ st → rows_inv batch at_ (row_step batch at_ st l).
Proof.
  destruct st as [[seen out] dropped], l as [o m]. intros Hinv. unfold row_step.
  destruct (negb (String.eqb (ob_Kind o) Kind)); [done|]. destruct (negb _); [done|].
  destruct (ParseAddr _) as [a|] eqn:Hp; [|done]. destruct (DecodeValue _) as [[oc fp]|] eqn:Hd; [|done].
  destruct (match m with None => false | Some _ => _ end); [done|]. case_bool_decide as Hs; [done|].
  destruct Hinv as (Hk & (keys & Hm & Hnd & Hset) & Hok). split; [|split].
  - intros b [->%elem_of_singleton|Hb]%elem_of_union; [by eapply wf_key_parse|by apply Hk].
  - exists (keys ++ [Unmap a]). split; [by rewrite !map_app, Hm|]. split.
    + apply NoDup_app. split; [done|]. split; [|apply NoDup_singleton].
      intros b Hb ->%list_elem_of_singleton. apply Hs. rewrite <- Hset. by apply elem_of_list_to_set.
    + rewrite list_to_set_app_L, Hset. cbn. set_solver.
  - apply Forall_app. split; [done|]. constructor; [|constructor]. split; [|done].
    apply DecodeValue_ok in Hd as [Hv Hf]. by apply row_ok_decoded.
Qed.

Lemma rows_inv_all batch at_ obs : rows_inv batch at_ (foldl (row_step batch at_) (∅, [], []) obs).
Proof.
  apply foldl_inv; [|intros; by apply row_step_inv]. split; [set_solver|]. split; [|constructor].
  exists []. split; [done|]. split; [constructor|done].
Qed.

(** Every line of the leaf is a row or a drop. *)
Lemma row_step_count batch at_ st l :
  let '(_, out, dropped) := st in
  let '(_, out', dropped') := row_step batch at_ st l in
  (length out' + length dropped' = length out + length dropped +
     if String.eqb (ob_Kind l.1) Kind then 1 else 0)%nat.
Proof.
  destruct st as [[seen out] dropped], l as [o m]. unfold row_step. cbn [fst].
  destruct (String.eqb (ob_Kind o) Kind); cbn [negb]; [|lia].
  repeat case_match; simplify_eq; rewrite ?length_app; cbn [length]; lia.
Qed.

(** The table as the rows leave it. *)
Definition canonical (t : edge_table) : Prop :=
  Forall (λ r, ∃ a, plain_addr a ∧ er_Address r = Addr_String a) (et_rows t).

Definition inserted (t : edge_table) (ps : list edge_params) : edge_table :=
  mkEdgeTable
    (et_rows t ++ imap (λ i p, mkEdgeRow (et_next t + Z.of_nat i) (pr_BatchID p) (pr_Address p) (pr_Outcome p)
                                 (pr_Fingerprint p) (pr_MeasuredAt p)) ps)
    (et_next t + Z.of_nat (length ps)).

Lemma InsertEdgeFanoutObservation_ok p t : row_ok p = true →
  InsertEdgeFanoutObservation p t =
    if row_text p
    then Some (mkEdgeTable
      (et_rows t ++ [mkEdgeRow (et_next t) (pr_BatchID p) (pr_Address p) (pr_Outcome p) (pr_Fingerprint p) (pr_MeasuredAt p)])
      (et_next t + 1))
    else None.
Proof. unfold InsertEdgeFanoutObservation. intros ->. by destruct (row_text p). Qed.

Lemma inserts_text ps t :
  Forall (λ p, row_ok p = true) ps →
  for_range (λ t p, InsertEdgeFanoutObservation p t) ps t = if forallb row_text ps then Some (inserted t ps) else None.
Proof.
  intros Hps. revert t. induction Hps as [|p ps Hp _ IH]; intros t.
  - unfold for_range, inserted. cbn. rewrite app_nil_r, Z.add_0_r. by destruct t.
  - rewrite for_range_cons. cbv beta. cbn [forallb].
    rewrite (InsertEdgeFanoutObservation_ok p t Hp). destruct (row_text p); [|done]. cbn [mbind option_bind andb]. rewrite IH.
    destruct (forallb row_text ps); [|done]. unfold inserted. cbn [et_rows et_next imap length]. f_equal. f_equal; [|lia].
    rewrite <- app_assoc. cbn [app]. rewrite Z.add_0_r. do 2 f_equal. apply imap_ext. intros i q _. cbn. f_equal. lia.
Qed.

(** An outcome of the union is plain text. *)
Lemma valid_outcome_text p : row_ok p = true → text_column (pr_Outcome p) = true.
Proof.
  unfold row_ok, Outcome_Valid. intros [H _]%andb_true_iff. rewrite !orb_true_iff, !String.eqb_eq in H.
  by destruct H as [[[->| ->]| ->]| ->].
Qed.

(** The lines of the leaf. *)
Definition leaf_lines (obs : list line) : nat := length (List.filter (λ l, String.eqb (ob_Kind l.1) Kind) obs).

(** [C40] What a prober's lines can do to the transaction of its job: whatever it
    hands back, the rows made of its lines pass the table's checks, and the insert
    goes through unless one of them holds a NUL byte, which a text column refuses:
    in the fingerprint, or in the zone of the address.  A job of another kind writes
    none; a line of the leaf is a row or is counted as dropped; and a batch writes
    each address once, spelled one way. *)
Theorem edge_lines_abort_only_on_nul jobKind batch at_ obs t :
  let '(out, dropped) := toEdgeFanoutRows jobKind batch at_ obs in
  Forall (λ p, row_ok p = true) out ∧
  foldEdgeFanoutObservations jobKind batch at_ obs t = (if forallb row_text out then Some (inserted t out) else None) ∧
  (∀ p, p ∈ out → row_text p = text_column (pr_Address p) && from_option text_column true (pr_Fingerprint p)) ∧
  (jobKind ≠ Kind → out = []) ∧
  (jobKind = Kind → (length out + length dropped)%nat = leaf_lines obs) ∧
  NoDup (map pr_Address out) ∧ (canonical t → canonical (inserted t out)).
Proof.
  pose proof (rows_inv_all batch at_ obs) as Hinv. unfold foldEdgeFanoutObservations, toEdgeFanoutRows.
  destruct (String.eqb_spec jobKind Kind) as [->|Hk]; cbn [negb].
  2: { cbn [fst]. split; [constructor|]. split; [by apply (inserts_text [])|]. split; [by intros p ?%not_elem_of_nil|].
       split; [done|]. split; [done|]. split; [constructor|].
       intros Hc. unfold canonical, inserted. cbn. by rewrite app_nil_r. }
  destruct (foldl _ _ obs) as [[seen out] dropped] eqn:Hf. destruct Hinv as (Hkeys & (keys & Hm & Hnd & Hset) & Hok).
  assert (Forall (λ p, row_ok p = true) out) as Hrows by (eapply Forall_impl; [exact Hok|]; by intros p [? _]).
  split; [done|]. split; [by apply inserts_text|]. split; [|split; [done|split; [intros _|split]]].
  - intros p Hp. unfold row_text. rewrite (valid_outcome_text p); [by rewrite andb_true_r|].
    by apply (proj1 (Forall_forall _ _) Hrows).
  - assert (Hc : ∀ st obs, let '(_, out, dropped) := st in
      let '(_, out', dropped') := foldl (row_step batch at_) st obs in
      (length out' + length dropped' = length out + length dropped + leaf_lines obs)%nat).
    { clear. intros st obs. revert st. induction obs as [|l obs IH]; intros [[s o] d]; [cbn; lia|].
      cbn [foldl]. pose proof (row_step_count batch at_ (s, o, d) l) as Hl. cbn iota beta in Hl.
      specialize (IH (row_step batch at_ (s, o, d) l)).
      destruct (row_step batch at_ (s, o, d) l) as [[s1 o1] d1]. destruct (foldl _ _ obs) as [[s2 o2] d2].
      unfold leaf_lines in *. cbn [List.filter]. destruct (String.eqb (ob_Kind l.1) Kind); cbn [length]; lia. }
    specialize (Hc (∅, [], []) obs). rewrite Hf in Hc. cbn in Hc. lia.
  - rewrite Hm. apply NoDup_fmap_2_strong; [|done]. intros a b Ha Hb He.
    destruct (Hkeys a) as (? & ? & _); [rewrite <- Hset; by apply elem_of_list_to_set|].
    destruct (Hkeys b) as (? & ? & _); [rewrite <- Hset; by apply elem_of_list_to_set|]. by apply Addr_String_inj.
  - intros Hc. unfold canonical, inserted. cbn [et_rows]. apply Forall_app. split; [done|].
    apply Forall_forall. intros r [i [p [-> Hp]]]%elem_of_lookup_imap. cbn [er_Address].
    assert (Hin : pr_Address p ∈ map pr_Address out) by (apply list_elem_of_fmap; exists p; split; [done|by eapply list_elem_of_lookup_2]).
    rewrite Hm in Hin. apply list_elem_of_fmap in Hin as (a & -> & Ha). exists a. split; [|done].
    apply Hkeys. rewrite <- Hset. by apply elem_of_list_to_set.
Qed.
End RowFold.

(** ** Properties of the reading *)

Section ReadingProperties.
Context {C : CertNames}.
Variable EffectiveTLDPlusOne : string → option string.

Definition edge_of (material : gmap string (list Z)) (r : measurement) : bool :=
  String.eqb (me_Outcome r) Presented && verdict_of EffectiveTLDPlusOne material (default "" (me_Fingerprint r)).

(** What a row says of an address. *)
Definition says (material : gmap string (list Z)) (a : Addr) (r : measurement) : option bool :=
  b ← ParseAddr (me_Address r); if bool_decide (Unmap b = a) then Some (edge_of material r) else None.

(** Deriving the verdict of a certificate once changes nothing: the reading of
    an address is what the last row that spells it says, and an address no row
    spells has no key. *)
Lemma toEdgeFanout_spec completed rows material a :
  ef_Shared (toEdgeFanout EffectiveTLDPlusOne completed rows material) !! a =
    last (omap (says material a) rows).
Proof.
  cbn [toEdgeFanout ef_Shared]. unfold toEdgeFanout. cbn [ef_Shared].
  assert (H : ∀ rows, let st := foldl (shared_step EffectiveTLDPlusOne material) (∅, ∅) rows in
    (∀ fp v, st.2 !! fp = Some v → v = verdict_of EffectiveTLDPlusOne material fp) ∧
    st.1 !! a = last (omap (says material a) rows)); [|apply H].
  clear rows. intros rows. cbn zeta. induction rows as [|r rows [IHv IHs]] using rev_ind; [split; [|done]; intros fp v; cbn [foldl snd]; by rewrite lookup_empty|].
  rewrite foldl_app, omap_app. cbn [foldl omap list_omap]. destruct (foldl _ _ rows) as [sh ve]. cbn [fst snd] in *.
  unfold shared_step, says at 2, edge_of. destruct (ParseAddr (me_Address r)) as [b|]; cbn [mbind option_bind].
  2: { split; [done|]. by rewrite app_nil_r. }
  assert (Hins : ∀ v, <[Unmap b := v]> sh !! a =
    last (omap (says material a) rows ++ match (if bool_decide (Unmap b = a) then Some v else None) with Some x => [x] | None => [] end)).
  { intros v. case_bool_decide as Hb; [subst a; by rewrite lookup_insert_eq, last_snoc|].
    by rewrite lookup_insert_ne, app_nil_r. }
  destruct (String.eqb (me_Outcome r) Presented); cbn [andb].
  - destruct (ve !! _) as [v|] eqn:Hv; cbn [fst snd].
    + split; [done|]. apply IHv in Hv as ->. apply Hins.
    + split; [|apply Hins]. intros fp v [[<- <-]|[_ Hl]]%lookup_insert_Some; [done|by apply IHv].
  - split; [done|apply Hins].
Qed.

Lemma last_omap_single {A B} (f : A → option B) l x :
  NoDup l → x ∈ l → (∀ y, y ∈ l → y ≠ x → f y = None) → last (omap f l) = f x.
Proof.
  intros Hnd Hx Hy. apply list_elem_of_split in Hx as (l1 & l2 & ->).
  assert (Hn : ∀ k, (∀ y, y ∈ k → f y = None) → omap f k = []).
  { clear. induction k as [|y k IH]; intros H; [done|]. cbn. rewrite H by left. apply IH. intros z Hz. apply H. by right. }
  apply NoDup_app in Hnd as (_ & Hd & Hnd). apply NoDup_cons in Hnd as [Hx2 _].
  rewrite omap_app. cbn [omap list_omap]. rewrite (Hn l1), (Hn l2).
  - by destruct (f x).
  - intros y Hy2. apply Hy; [set_solver|]. by intros ->.
  - intros y Hy1. apply Hy; [set_solver|]. intros ->. eapply Hd; [done|by left].
Qed.

Lemma last_omap_none {A B} (f : A → option B) l : (∀ y, y ∈ l → f y = None) → last (omap f l) = None.
Proof.
  intros H. assert (omap f l = []) as ->; [|done]. induction l as [|y l IH]; [done|]. cbn. rewrite H by left.
  apply IH. intros z Hz. apply H. by right.
Qed.

Lemma omap_omap {A B D} (f : B → option D) (g : A → option B) (l : list A) : omap f (omap g l) = omap (λ x, g x ≫= f) l.
Proof. induction l as [|x l IH]; [done|]. cbn. destruct (g x); cbn; [|done]. by rewrite IH. Qed.

Lemma newest_None rows t : newest_of rows t = None ↔ t ∉ map er_Address rows.
Proof.
  unfold newest_of. assert (H : ∀ l b, foldl newer b l = None ↔ b = None ∧ l = []).
  { induction l as [|r l IH]; intros b; cbn [foldl]; [naive_solver|]. rewrite IH. unfold newer.
    split; [|naive_solver]. destruct b as [b|]; [destruct (_ || _)|]; naive_solver. }
  rewrite H. split.
  - intros [_ Hf] (r & -> & Hr)%list_elem_of_fmap. assert (r ∈ filter (λ x, er_Address x = er_Address r) rows) as Hin
      by (by apply list_elem_of_filter). rewrite Hf in Hin. by apply not_elem_of_nil in Hin.
  - intros Hn. split; [done|]. apply filter_none. intros r Hr Ha. apply Hn. apply list_elem_of_fmap. by exists r.
Qed.

Lemma newest_address rows t r : newest_of rows t = Some r → er_Address r = t.
Proof.
  unfold newest_of. assert (H : ∀ l b r, foldl newer b l = Some r → Some r = b ∨ r ∈ l).
  { clear. induction l as [|x l IH]; intros b r; cbn [foldl]; [by left|]. intros [Hr|Hr]%IH; [|right; by right].
    revert Hr. unfold newer. destruct b as [b|]; [destruct (_ || _)|]; intros [= ->]; set_solver. }
  intros [?|Hr]%H; [done|]. by apply list_elem_of_filter in Hr as [? _].
Qed.

(** The newest row of an address: none measured later, nor at the same instant
    with a greater id. *)
Lemma newest_spec rows t r :
  newest_of rows t = Some r →
  r ∈ rows ∧ er_Address r = t ∧
  ∀ x, x ∈ rows → er_Address x = t →
    er_MeasuredAt x < er_MeasuredAt r ∨ er_MeasuredAt x = er_MeasuredAt r ∧ er_ID x ≤ er_ID r.
Proof.
  intros Hn. pose proof (newest_address _ _ _ Hn) as Ha. unfold newest_of in Hn.
  assert (H : ∀ l b r, foldl newer b l = Some r → (Some r = b ∨ r ∈ l) ∧
    ∀ x, Some x = b ∨ x ∈ l → er_MeasuredAt x < er_MeasuredAt r ∨ er_MeasuredAt x = er_MeasuredAt r ∧ er_ID x ≤ er_ID r).
  { clear. induction l as [|y l IH]; intros b r; cbn [foldl].
    - intros ->. split; [by left|]. intros x [[= ->]|[]%not_elem_of_nil]. lia.
    - intros Hf. apply IH in Hf as [Hin Hmax].
      assert (Hy : ∀ x, Some x = b ∨ x = y → ∃ z, newer b y = Some z ∧
        (er_MeasuredAt x < er_MeasuredAt z ∨ er_MeasuredAt x = er_MeasuredAt z ∧ er_ID x ≤ er_ID z)).
      { unfold newer. intros x. destruct b as [b|].
        - destruct (_ || _) eqn:Hc.
          + intros [[= ->]| ->]; eexists; (split; [done|]); [|lia]. apply orb_true_iff in Hc as [Hc|[Hc1 Hc2]%andb_true_iff];
              bool_to_prop; lia.
          + intros [[= ->]| ->]; eexists; (split; [done|]); [lia|]. apply orb_false_iff in Hc as [Hc1 [Hc2|Hc2]%andb_false_iff];
              bool_to_prop; lia.
        - intros [?| ->]; [done|]. eexists; split; [done|lia]. }
      split.
      + destruct Hin as [Hin|Hin]; [|right; by right]. unfold newer in Hin. destruct b as [b|];
          [destruct (_ || _)|]; injection Hin as ->; [right; by left|by left|right; by left].
      + intros x Hx. assert (Hx' : (Some x = b ∨ x = y) ∨ x ∈ l) by (rewrite elem_of_cons in Hx; tauto).
        destruct Hx' as [Hx'|Hx']; [|apply Hmax; by right]. destruct (Hy x Hx') as (z & Hz & Hle).
        destruct (Hmax z (or_introl (eq_sym Hz))); lia. }
  apply H in Hn as [[?|Hin] Hmax]; [done|]. apply list_elem_of_filter in Hin as [_ Hin]. split; [done|]. split; [done|].
  intros x Hx Hxt. apply Hmax. right. by apply list_elem_of_filter.
Qed.

(** A row in one of its spellings speaks of that address alone. *)
Lemma says_canonical material r a b :
  plain_addr b → plain_addr a → me_Address r = Addr_String b →
  says material a r = if bool_decide (b = a) then Some (edge_of material r) else None.
Proof.
  intros (Hbw & Hbn & Hbu) _ Hr. unfold says. rewrite Hr, ParseAddr_String by done. cbn [mbind option_bind].
  by rewrite Hbu.
Qed.

Lemma elem_of_fingerprints rows fp :
  fp ∈ edgeFanoutFingerprints rows ↔ fp ≠ "" ∧ ∃ r, r ∈ rows ∧ me_Fingerprint r = Some fp.
Proof.
  unfold edgeFanoutFingerprints.
  assert (H : ∀ rows, let st := foldl fingerprint_step (∅, []) rows in
    (∀ x, x ∈ st.1 ↔ x ∈ st.2) ∧ (fp ∈ st.2 ↔ fp ≠ "" ∧ ∃ r, r ∈ rows ∧ me_Fingerprint r = Some fp)); [|apply H].
  clear rows. intros rows. cbn zeta. induction rows as [|r rows [IHs IH]] using rev_ind.
  { split; [set_solver|]. split; [by intros ?%not_elem_of_nil|]. by intros (_ & r & []%not_elem_of_nil & _). }
  rewrite foldl_app. cbn [foldl]. destruct (foldl _ _ rows) as [seen out]. cbn [fst snd] in *.
  assert (Hex : (∃ x, x ∈ rows ++ [r] ∧ me_Fingerprint x = Some fp) ↔
    (∃ x, x ∈ rows ∧ me_Fingerprint x = Some fp) ∨ me_Fingerprint r = Some fp).
  { split; [intros (x & [Hx| ->%list_elem_of_singleton]%elem_of_app & Hf); [left; by exists x|by right]|].
    intros [(x & Hx & Hf)|Hf]; [exists x|exists r]; (split; [apply elem_of_app|done]); [by left|right; by left]. }
  rewrite Hex. unfold fingerprint_step. destruct (me_Fingerprint r) as [g|] eqn:Hg; [|split; [done|]; rewrite IH; naive_solver].
  destruct (String.eqb_spec g "") as [->|Hne]; [split; [done|]; rewrite IH; naive_solver|].
  case_bool_decide as Hin; cbn [fst snd].
  - split; [done|]. rewrite IHs in Hin. rewrite IH. naive_solver.
  - split; [intros x; rewrite elem_of_union, elem_of_singleton, elem_of_app, list_elem_of_singleton, IHs; tauto|].
    rewrite elem_of_app, list_elem_of_singleton, IH. naive_solver.
Qed.

(** Reading only the certificates the rows name loses none. *)
Lemma verdict_read rows store r :
  r ∈ rows → edge_of (readEdgeFanoutMaterial rows store) r =
    String.eqb (me_Outcome r) Presented &&
    (if bool_decide (me_Fingerprint r = Some "" ) then verdict_of EffectiveTLDPlusOne ∅ ""
     else match me_Fingerprint r with
          | None => verdict_of EffectiveTLDPlusOne ∅ ""
          | Some fp => verdict_of EffectiveTLDPlusOne store fp
          end).
Proof.
  intros Hr. unfold edge_of. f_equal. unfold readEdgeFanoutMaterial. cbv zeta.
  assert (Hl : ∀ fp, fp ≠ "" → me_Fingerprint r = Some fp →
    (if bool_decide (edgeFanoutFingerprints rows = []) then (∅ : gmap string (list Z))
     else filter (λ kv, kv.1 ∈ edgeFanoutFingerprints rows) store) !! fp = store !! fp).
  { intros fp Hne Hfp. assert (Hin : fp ∈ edgeFanoutFingerprints rows) by (apply elem_of_fingerprints; eauto).
    rewrite bool_decide_false by (intros He; rewrite He in Hin; by apply not_elem_of_nil in Hin).
    destruct (store !! fp) as [d|] eqn:Hs; [by apply map_lookup_filter_Some|by apply map_lookup_filter_None; left]. }
  assert (H0 : (if bool_decide (edgeFanoutFingerprints rows = []) then (∅ : gmap string (list Z))
     else filter (λ kv, kv.1 ∈ edgeFanoutFingerprints rows) store) !! "" = None).
  { case_bool_decide; [done|]. apply map_lookup_filter_None. right. intros d _ Hin. cbn in Hin.
    by apply elem_of_fingerprints in Hin as [? _]. }
  unfold verdict_of. destruct (me_Fingerprint r) as [fp|]; cbn [from_option default id].
  - destruct (decide (fp = ""%string)) as [->|Hne].
    + rewrite (bool_decide_true (Some ""%string = Some ""%string)), H0 by done. done.
    + rewrite (bool_decide_false (Some fp = Some ""%string)), Hl by (done || congruence). done.
  - rewrite (bool_decide_false (None = Some ""%string)), H0 by done. done.
Qed.

(** What a row decides: a shared edge is one that presented a certificate whose
    names fan out. *)
Definition row_edge (store : gmap string (list Z)) (r : edge_row) : bool :=
  String.eqb (er_Outcome r) Presented &&
  match er_Fingerprint r with
  | None => false
  | Some fp => negb (String.eqb fp "") && verdict_of EffectiveTLDPlusOne store fp
  end.

Lemma edge_of_row rows store r :
  measurement_of r ∈ rows → edge_of (readEdgeFanoutMaterial rows store) (measurement_of r) = row_edge store r.
Proof.
  intros Hr. rewrite verdict_read by done. unfold row_edge. cbn [measurement_of me_Outcome me_Fingerprint]. f_equal.
  assert (H0 : verdict_of EffectiveTLDPlusOne ∅ "" = false) by done.
  destruct (er_Fingerprint r) as [fp|]; [|by rewrite bool_decide_false].
  destruct (String.eqb_spec fp "") as [->|Hne]; cbn [negb andb]; [by rewrite bool_decide_true|].
  by rewrite bool_decide_false by congruence.
Qed.

(** The rows a bound reads. *)
Lemma readEdgeFanoutRows_eq bound t :
  readEdgeFanoutRows bound t =
    omap (λ k, if negb (eb_bounded bound) || bool_decide (k ∈ eb_over bound)
               then measurement_of <$> newest_of (et_rows t) k else None)
      (sorted_keys (list_to_set (map er_Address (et_rows t)))).
Proof.
  unfold readEdgeFanoutRows. destruct (eb_bounded bound); cbn [negb orb]; [|done].
  case_bool_decide as Ho; [|done]. symmetry. rewrite Ho.
  induction (sorted_keys _) as [|k ks IH]; [done|]. cbn [omap list_omap].
  rewrite bool_decide_false by apply not_elem_of_nil. exact IH.
Qed.

(** Custody reads an address by its newest measurement: with the Scan on,
    the key of an address is whether the row of it measured last (by the instant,
    then the id) presented a certificate that is a shared edge, and an address
    that was never measured has no key; reading only the candidates asked for,
    or only the certificates the rows name, changes no answer about them. *)
Theorem ReadEdgeFanout_newest completed bound t store a :
  canonical t → plain_addr a → eb_bounded bound = false ∨ Addr_String a ∈ eb_over bound →
  ef_Shared (ReadEdgeFanout EffectiveTLDPlusOne (Some true) completed bound t store) !! a =
    row_edge store <$> newest_of (et_rows t) (Addr_String a).
Proof.
  intros Hcan Hwf Hbound. cbn [ReadEdgeFanout ef_Shared]. rewrite toEdgeFanout_spec, readEdgeFanoutRows_eq.
  set (m := readEdgeFanoutMaterial _ store).
  assert (Hb : negb (eb_bounded bound) || bool_decide (Addr_String a ∈ eb_over bound) = true).
  { destruct Hbound as [->|?]; [done|]. by rewrite bool_decide_true, orb_true_r. }
  assert (Hone : ∀ k r, newest_of (et_rows t) k = Some r →
    says m a (measurement_of r) = if bool_decide (k = Addr_String a) then Some (edge_of m (measurement_of r)) else None).
  { intros k r Hr. pose proof (newest_spec _ _ _ Hr) as (Hin & Hk & _). unfold canonical in Hcan.
    rewrite Forall_forall in Hcan. destruct (Hcan r Hin) as (b & Hbw & Hbs).
    rewrite (says_canonical _ _ _ b) by done. rewrite Hk in Hbs. subst k.
    destruct (decide (b = a)) as [->|Hne]; [by rewrite !bool_decide_true|].
    rewrite !bool_decide_false; [done| |done]. intros He. apply Hne.
    destruct Hbw as (H1 & H2 & _), Hwf as (H3 & H4 & _). apply (Addr_String_inj b a H1 H2 H3 H4). congruence. }
  rewrite omap_omap. destruct (decide (Addr_String a ∈ sorted_keys (list_to_set (map er_Address (et_rows t))))) as [Hin|Hout].
  - rewrite (last_omap_single _ _ (Addr_String a)); [|apply NoDup_sorted_keys|done|].
    + rewrite Hb. destruct (newest_of _ _) as [r|] eqn:Hr; cbn [fmap option_fmap option_map mbind option_bind]; [|done].
      rewrite (Hone _ _ Hr), bool_decide_true by done. f_equal. subst m. apply edge_of_row.
      apply list_elem_of_omap. exists (Addr_String a). split; [done|]. by rewrite Hb, Hr.
    + intros k _ Hk. destruct (negb (eb_bounded bound) || bool_decide (k ∈ eb_over bound)); [|done]. destruct (newest_of (et_rows t) k) as [r|] eqn:Hr; [|done].
      cbn [fmap option_fmap option_map mbind option_bind]. by rewrite (Hone _ _ Hr), bool_decide_false.
  - rewrite elem_of_sorted_keys, elem_of_list_to_set, <- newest_None in Hout. rewrite Hout. apply last_omap_none.
    intros k _. destruct (negb (eb_bounded bound) || bool_decide (k ∈ eb_over bound)); [|done]. destruct (newest_of (et_rows t) k) as [r|] eqn:Hr; [|done].
    cbn [fmap option_fmap option_map mbind option_bind]. rewrite (Hone _ _ Hr), bool_decide_false; [done|].
    intros ->. congruence.
Qed.
End ReadingProperties.

(** ** From the scope of a job to its rows *)

Section EndToEnd.
Context {U : UnicodeCase} {J : EdgeJSON} {JL : EdgeJSONLaws} {W : Type}.

(** [NetHandshaker.Handshake], over the handshake of [connectoutcome]. *)
Variable inner : AddrPort → St W HandshakeResult.
Definition NetHandshake (target : AddrPort) : St W Result := res ← inner target; mret (Fold res).

(** [connectoutcome] prints the certificates it was shown, leaf first. *)
Hypothesis chain_of_leaf : ∀ target w,
  ∃ raws, hs_Chain (inner target w).1 = map Fingerprint raws ∧
          hs_LeafDER (inner target w).1 = default [] (head raws).

(** A result the rows have no quarrel with. *)
Definition coherent (res : Result) : Prop :=
  Outcome_Valid (re_Outcome res) = true ∧ (re_Outcome res = Presented ↔ re_Fingerprint res ≠ "") ∧
  string_forallb printable (re_Fingerprint res) = true ∧
  ∀ m, presentedMaterial res = Some m → cm_Fingerprint m = re_Fingerprint res.

Lemma Fingerprint_printable der : string_forallb printable (Fingerprint der) = true ∧ Fingerprint der ≠ "".
Proof.
  unfold Fingerprint. split; [|done]. rewrite string_forallb_app. change (string_forallb printable "sha256:") with true.
  cbn [andb]. pose proof (Sum256_byte der) as Hb. unfold hex_EncodeToString.
  assert (Hd : ∀ d, 0 ≤ d < 16 → printable (digit_char d) = true).
  { intros d Hd. unfold printable, digit_char. destruct (d <? 10) eqn:E; bool_to_prop;
      rewrite code_byte_of by lia; apply andb_true_iff; rewrite !Z.ltb_lt; lia. }
  induction Hb as [|b l Hb _ IH]; [done|]. cbn [map String.concat].
  assert (Hx : string_forallb printable (hex_byte b) = true).
  { unfold byte in Hb. cbn. rewrite (Hd (b / 16)), (Hd (b mod 16)); [done|apply Z.mod_pos_bound; lia|].
    split; [apply Z.div_pos; lia|apply Z.div_lt_upper_bound; lia]. }
  destruct (map hex_byte l); [exact Hx|]. by rewrite !string_forallb_app, Hx.
Qed.

Lemma NetHandshake_coherent target w : coherent (NetHandshake target w).1.
Proof.
  destruct (chain_of_leaf target w) as (raws & Hc & Hl). unfold NetHandshake, mbind, St_bind, mret, St_ret.
  destruct (inner target w) as [res w']. cbn [fst] in *. unfold Fold. rewrite Hc.
  destruct (String.eqb (hs_Outcome res) Presented).
  - destruct raws as [|raw raws]; [by split_and!|]. cbn [map]. destruct (Fingerprint_printable raw) as [Hp Hne].
    split_and!; [done|done|done|]. intros m. unfold presentedMaterial. cbn [re_Outcome re_LeafDER re_Fingerprint].
    rewrite Hl. cbn [head default from_option id]. case_match; [done|]. by intros [= <-].
  - destruct (hs_Unreachable res), (String.eqb (hs_Outcome res) TLSRefused); by split_and!.
Qed.

Lemma run_lines addrs (seenA : gset Addr) seen out w :
  Forall clean addrs → (∀ a, mkAddrPort a Port ∈ seen ↔ a ∈ seenA) →
  ∃ news lines seen', (for_each (run_step NetHandshake) (map Addr_String addrs) (seen, out) w).1 = (seen', out ++ lines) ∧
    NoDup news ∧ (∀ a, a ∈ news ↔ a ∈ addrs ∧ a ∉ seenA) ∧
    Forall2 (λ a l, ∃ res, coherent res ∧ l = Emit (mkAddrPort a Port) res) news lines.
Proof.
  intros Hc. revert seenA seen out w. induction Hc as [|a addrs Ha _ IH]; intros seenA seen out w Hseen.
  - exists [], [], seen. cbn. split; [by rewrite app_nil_r|]. split; [constructor|]. split; [|constructor].
    intros a. split; [by intros ?%not_elem_of_nil|]. by intros [?%not_elem_of_nil _].
  - cbn [map for_each]. unfold mbind, St_bind. unfold run_step at 1, edgeTarget. rewrite clean_trim, clean_parse by done.
    cbn [mbind option_bind]. pose proof Ha as (_ & _ & -> & _). case_bool_decide as Hin.
    + unfold mret, St_ret. destruct (IH seenA seen out w Hseen) as (news & lines & seen' & He & Hnd & Hn & HF).
      exists news, lines, seen'. split; [exact He|]. split; [done|]. split; [|done]. intros b. rewrite Hn.
      rewrite elem_of_cons. split; [naive_solver|]. intros [[->|?] ?]; [|done]. by apply Hseen in Hin.
    + pose proof (NetHandshake_coherent (mkAddrPort a Port) w) as Hco.
      unfold mbind, St_bind, mret, St_ret. destruct (NetHandshake (mkAddrPort a Port) w) as [res w1]. cbn [fst] in Hco.
      destruct (IH ({[ a ]} ∪ seenA) ({[ mkAddrPort a Port ]} ∪ seen) (out ++ [Emit (mkAddrPort a Port) res]) w1)
        as (news & lines & seen' & He & Hnd & Hn & HF).
      { intros b. rewrite !elem_of_union, !elem_of_singleton, Hseen. split; (intros [Hb|?]; [left; congruence|by right]). }
      exists (a :: news), (Emit (mkAddrPort a Port) res :: lines), seen'. split; [by rewrite He, <- app_assoc|].
      split; [|split].
      * constructor; [|done]. rewrite Hn. set_solver.
      * intros b. rewrite !elem_of_cons, Hn. rewrite <- (Hseen b). destruct (decide (b = a)) as [->|]; set_solver.
      * constructor; [by exists res|done].
Qed.

Lemma rows_of_lines batch at_ news lines (seen : gset Addr) out dropped :
  Forall2 (λ a l, ∃ res, coherent res ∧ l = Emit (mkAddrPort a Port) res) news lines →
  Forall clean news → NoDup news → (∀ a, a ∈ news → a ∉ seen) →
  ∃ seen' ps, foldl (row_step batch at_) (seen, out, dropped) lines = (seen', out ++ ps, dropped) ∧
    map pr_Address ps = map Addr_String news.
Proof.
  intros HF. revert seen out. induction HF as [|a l news lines (res & Hco & ->) _ IH]; intros seen out Hc Hnd Hs.
  { exists seen, []. split; [by rewrite app_nil_r|done]. }
  apply Forall_cons in Hc as [Ha Hc]. apply NoDup_cons in Hnd as [Hna Hnd].
  cbn [foldl]. unfold row_step at 2, Emit. cbn [ob_Kind ob_Facet ob_Address ob_Data ap_Addr].
  rewrite String.eqb_refl. cbn [negb String.eqb]. rewrite clean_norm, clean_parse by done.
  pose proof Ha as (_ & _ & -> & _). destruct Hco as (Hv & Hp & Hpr & Hm).
  assert (Hprint : string_forallb printable (re_Outcome res) = true).
  { unfold Outcome_Valid in Hv. rewrite !orb_true_iff, !String.eqb_eq in Hv. by destruct Hv as [[[->| ->]| ->]| ->]. }
  assert (Hdec : DecodeValue (encode_value (re_Outcome res) (re_Fingerprint res)) =
    Some (re_Outcome res, re_Fingerprint res)).
  { unfold DecodeValue. rewrite value_roundtrip by done. cbn [mbind option_bind]. rewrite Hv. cbn [negb].
    destruct (String.eqb_spec (re_Outcome res) Presented), (String.eqb_spec (re_Fingerprint res) ""); cbn; naive_solver. }
  rewrite Hdec. replace (match presentedMaterial res with None => false | Some m => _ end) with false.
  2: { destruct (presentedMaterial res) as [m|] eqn:E; [|done]. rewrite (Hm m) by done. by rewrite String.eqb_refl. }
  rewrite bool_decide_false by (apply Hs; left).
  destruct (IH ({[ a ]} ∪ seen) (out ++ [mkParams batch (Addr_String a) (re_Outcome res) (pgTextOrNull (re_Fingerprint res)) at_])
    Hc Hnd) as (seen' & ps & He & Hps).
  { intros b Hb. assert (b ≠ a) by congruence. specialize (Hs b). set_solver. }
  rewrite He, <- app_assoc. eexists _, (_ :: ps). split; [done|]. cbn [map pr_Address app]. by rewrite Hps.
Qed.

(** A measurement is recorded whole: every address of a job is handshaken
    once however often the scope names it, every line of the run passes the gate
    built from that scope, no line is dropped, and the rows are one for each
    address, spelled as the dispatcher spells it. *)
Theorem edge_run_recorded_whole addrs batch at_ w :
  Forall clean addrs →
  let texts := map Addr_String addrs in
  let lines := (RunWithHandshaker NetHandshake texts w).1 in
  let scope := parseAuthorizedScope (Some (mkScopeShape [] texts [] [])) in
  gate scope (map fst lines) = map fst lines ∧
  ∃ rows, toEdgeFanoutRows Kind batch at_ lines = (rows, []) ∧
    ∃ measured, map pr_Address rows = map Addr_String measured ∧ NoDup measured ∧ ∀ a, a ∈ measured ↔ a ∈ addrs.
Proof.
  intros Hc texts lines scope.
  destruct (run_lines addrs ∅ ∅ [] w Hc) as (news & ls & seen' & He & Hnd & Hn & HF); [set_solver|].
  assert (Hlines : lines = ls).
  { subst lines. unfold RunWithHandshaker, mbind, St_bind, mret, St_ret. subst texts.
    destruct (for_each _ _ _ w) as [[s o] w']. cbn in He. by injection He as _ ->. }
  rewrite Hlines. clear lines Hlines. assert (Hcn : Forall clean news).
  { rewrite Forall_forall in *. intros a Ha. apply Hc. by apply Hn. }
  split.
  - unfold gate. destruct (_ && _); [done|]. apply filter_all. intros o (l & -> & Hl)%list_elem_of_fmap.
    apply list_elem_of_lookup in Hl as [i Hi]. destruct (Forall2_lookup_r _ _ _ _ _ HF Hi) as (a & Ha & res & _ & ->).
    apply list_elem_of_lookup_2 in Ha. apply Hn in Ha as [Hin _]. cbn [fst Emit].
    unfold SubjectScope.admits. cbn [ob_Facet ob_Kind ob_Address ap_Addr].
    assert (Hk : Addr_String a ∈ (list_to_set (map normAddr (texts ++ [] ++ [])) : gset string)).
    { apply elem_of_list_to_set, list_elem_of_fmap. exists (Addr_String a). split.
      - rewrite Forall_forall in Hc. by rewrite clean_norm by (by apply Hc).
      - rewrite app_nil_r. apply list_elem_of_fmap. by exists a. }
    rewrite Forall_forall in Hc. rewrite clean_norm by (by apply Hc).
    change (as_addrs scope) with (nil_if_empty (list_to_set (map normAddr (texts ++ [] ++ [])))).
    unfold nil_if_empty. rewrite bool_decide_false by set_solver. cbn. by apply bool_decide_eq_true.
  - destruct (rows_of_lines batch at_ news ls ∅ [] [] HF Hcn Hnd) as (s & ps & Hf & Hps); [set_solver|].
    exists ps. split.
    { unfold toEdgeFanoutRows. rewrite String.eqb_refl. cbn [negb]. rewrite Hf. done. }
    exists news. split; [done|]. split; [done|]. intros a. rewrite Hn. set_solver.
Qed.
End EndToEnd.

(** ** Trying it *)

(** A value that writes the outcome and the fingerprint with a space between. *)
#[export] Instance spaced_json : EdgeJSON :=
  Build_EdgeJSON (λ o f, (o +:+ String " " f)%string)
    (λ s, let i := IndexByte s " " in if i <? 0 then None else Some (slice_to s i, slice_from s (i + 1))).

#[export] Instance spaced_jsonLaws : EdgeJSONLaws.
Proof.
  constructor. intros o f Ho _. cbn [encode_value decode_value spaced_json]. rewrite IndexByte_app.
  - rewrite (proj2 (Z.ltb_ge _ 0)) by lia. by rewrite slice_to_app, slice_from_app.
  - eapply string_forallb_impl; [|exact Ho]. intros c Hc. apply negb_true_iff, Ascii.eqb_neq. intros ->. by vm_compute in Hc.
Qed.

(** A presented certificate whose fingerprint is a NUL byte decodes, passes the
    checks and fails the insert: the whole outcome of the job is lost. *)
Example nul_fingerprint_aborts :
  let nul := (mkObs Kind "" "" "" "192.0.2.1" (Presented +:+ String " " (String "000" ""))%string, None) in
  (toEdgeFanoutRows Kind 7 10 [nul]).1 = [mkParams 7 "192.0.2.1" Presented (Some (String "000" "")) 10] ∧
  foldEdgeFanoutObservations Kind 7 10 [nul] (mkEdgeTable [] 1) = None.
Proof. vm_compute. auto. Qed.

Definition refusing (target : AddrPort) : St nat HandshakeResult :=
  λ n, (mkHandshake TLSRefused [] [] false, S n).

Lemma edge_run_recorded_whole_witness :
  let texts := map Addr_String [Addr4 3221225985; Addr6 1 ""; Addr4 3221225985] in
  let lines := (RunWithHandshaker (NetHandshake refusing) texts 0%nat).1 in
  let scope := parseAuthorizedScope (Some (mkScopeShape [] texts [] [])) in
  gate scope (map fst lines) = map fst lines ∧
  ∃ rows, toEdgeFanoutRows Kind 7 10 lines = (rows, []) ∧
    ∃ measured, map pr_Address rows = map Addr_String measured ∧ NoDup measured ∧
      ∀ a, a ∈ measured ↔ a ∈ [Addr4 3221225985; Addr6 1 ""; Addr4 3221225985].
Proof.
  apply (edge_run_recorded_whole refusing).
  - intros target w. exists []. done.
  - repeat match goal with
    | |- Forall _ (_ :: _) => constructor
    | |- Forall _ [] => constructor
    | |- clean _ => split
    | |- _ ∧ _ => split
    end; cbn; first [lia|done].
Defined.

Definition demo_table : edge_table :=
  mkEdgeTable [mkEdgeRow 1 1 "192.0.2.1" Presented (Some "sha256:aa"%string) 10;
               mkEdgeRow 2 1 "192.0.2.2" NoTLS None 10; mkEdgeRow 3 2 "192.0.2.1" Unreachable None 20] 4.

#[export] Instance no_names : CertNames := λ _, None.

Lemma ReadEdgeFanout_newest_witness :
  ef_Shared (ReadEdgeFanout (λ _, None) (Some true) true (EdgeFanoutOver [Addr4 3221225985]) demo_table ∅) !! Addr4 3221225985 =
    row_edge (λ _, None) ∅ <$> newest_of (et_rows demo_table) (Addr_String (Addr4 3221225985)).
Proof.
  apply (ReadEdgeFanout_newest (λ _, None) true (EdgeFanoutOver [Addr4 3221225985]) demo_table ∅ (Addr4 3221225985)).
  - repeat constructor; [exists (Addr4 3221225985)|exists (Addr4 3221225986)|exists (Addr4 3221225985)];
      (split; [split_and!; [cbn; lia|done|done]|vm_compute; reflexivity]).
  - split_and!; [cbn; lia|done|done].
  - right. vm_compute. left.
Defined.
