(* ===== verification/Egress.v ===== *)
(** * The realm a job carries and the guard that reads it

    The rest of [custody/gate.go] and [custody/egressguard.go]: a realm written as
    CIDRs into a job, read back by the prober, and the hook of its dialer that
    refuses every non-globally-reachable address the realm does not hold. *)

From S2P Require Import Prelude GoStr NetIP NetParse NetText ClientIP Custody.

(** [nil] for an empty realm. *)
Definition CIDRs (r : Realm) : list string := map Prefix_String (scopes r).

Definition ParseRealm (cidrs : list string) : Realm :=
  foldl (λ r s, match ParsePrefix s with None => r | Some p => Realm_With r p end) (mkRealm []) cidrs.

Inductive guard_error := BadHostPort | BadAddress | Refused (host : string).

(** What the hook answers for the address the dialer is about to connect to. *)
Definition EgressGuard (realm : Realm) (address : string) : option guard_error :=
  match SplitHostPort address with
  | None => Some BadHostPort
  | Some host =>
      match ParseAddr host with
      | None => Some BadAddress
      | Some ip =>
          if IsNonGloballyReachable (Unmap ip) && negb (Realm_Contains realm ip) then Some (Refused host) else None
      end
  end.

(** ** A prefix, read back *)

Lemma atoi_itoa n : 0 ≤ n ≤ 128 → atoi_digits (itoa n) 0 = Some n ∧
  ∃ c rest, itoa n = String c rest ∧ negb (String.eqb rest "") && Ascii.eqb c "0" = false.
Proof.
  intros Hn. assert (H : forallb (λ n, bool_decide (atoi_digits (itoa n) 0 = Some n) &&
    match itoa n with String c rest => negb (negb (String.eqb rest "") && Ascii.eqb c "0") | "" => false end)
    (seqZ 0 129) = true) by (vm_compute; reflexivity).
  rewrite forallb_bool in H. assert (Hin : n ∈ seqZ 0 129) by (apply elem_of_seqZ; lia). specialize (H n Hin). clear Hin.
  apply andb_true_iff in H as [H1%bool_decide_eq_true H2]. split; [done|].
  destruct (itoa n) as [|c rest]; [done|]. exists c, rest. split; [done|]. by apply negb_true_iff.
Qed.

Lemma ParsePrefix_String p : Prefix_valid p → ParsePrefix (Prefix_String p) = Some p.
Proof.
  intros Hv. pose proof Hv as [(Hw & Hb & Hz & Hi) H0]. unfold Prefix_String, Prefix_IsValid.
  rewrite (proj2 (Z.leb_le _ _)) by done. cbn [negb].
  assert (Hne : p_ip p ≠ AddrInvalid) by (intros H; specialize (Hi H); lia).
  assert (Hle : p_bits p ≤ 128) by (destruct (p_ip p); cbn [BitLen] in Hb; lia).
  destruct (atoi_itoa (p_bits p)) as (Ha & c & rest & Hc & Hlead); [lia|].
  change ("/" +:+ itoa (p_bits p))%string with (String "/" (itoa (p_bits p))).
  unfold ParsePrefix. rewrite LastIndexByte_app by (apply digits_without; [lia|done]).
  rewrite slice_to_app, slice_from_app, (proj2 (Z.ltb_ge _ 0)) by lia.
  rewrite ParseAddr_String by done. cbn [mbind option_bind]. rewrite Hz, Hc, Hlead, <- Hc, Ha.
  cbn [mbind option_bind]. rewrite (proj2 (Z.ltb_ge _ _)) by lia. f_equal. unfold PrefixFrom.
  rewrite (proj2 (Z.leb_le 0 _)), (proj2 (Z.leb_le _ (BitLen _))) by lia.
  destruct p as [ip bits]. cbn [p_ip p_bits] in *. destruct ip as [|v|v z]; [done|done|].
  cbn in Hz |- *. apply negb_false_iff, String.eqb_eq in Hz. by subst z.
Qed.

(** ** A realm, read back *)

(** A realm as [Realm_With] builds them. *)
Definition realm_wf (r : Realm) : Prop :=
  NoDup (scopes r) ∧ Forall (λ p, Prefix_valid p ∧ Masked p = p) (scopes r).

Lemma Masked_idem p : Prefix_valid p → Masked (Masked p) = Masked p.
Proof.
  intros Hv. rewrite (Masked_spec (Masked p)) by by apply Masked_valid.
  rewrite !Masked_spec by done. destruct (Prefix_valid_range p Hv) as (_ & Hh & Hne). cbn [p_bits].
  assert (Hbase : prefix_base (mkPrefix (addr_in_family p (prefix_base p)) (p_bits p)) = prefix_base p).
  { unfold prefix_base at 1, host_bits. cbn [p_ip p_bits].
    assert (addr_bits (addr_in_family p (prefix_base p)) = prefix_base p) as ->
      by (unfold addr_in_family; by destruct (p_ip p)).
    assert (BitLen (addr_in_family p (prefix_base p)) = BitLen (p_ip p)) as ->
      by (unfold addr_in_family; by destruct (p_ip p)).
    fold (host_bits p). unfold prefix_base. rewrite Z.div_mul; [done|]. apply Z.pow_nonzero; lia. }
  rewrite Hbase. unfold addr_in_family. cbn [p_ip]. by destruct (p_ip p).
Qed.

Lemma Realm_With_wf r s : realm_wf r → Prefix_wf s → realm_wf (Realm_With r s).
Proof.
  intros [Hn Hf] Hs. split; [by apply Realm_With_NoDup|]. unfold Realm_With.
  destruct (Prefix_IsValid s) eqn:Ev; cbn [negb]; [|done]. destruct (existsb _ (scopes r)); [done|].
  cbn [scopes]. apply Forall_app. split; [done|]. pose proof (Prefix_wf_valid s Hs Ev) as Hv.
  constructor; [|constructor]. split; [by apply Masked_valid|by apply Masked_idem].
Qed.

Lemma union_wf l : Forall Prefix_wf l → realm_wf (foldl Realm_With (mkRealm []) l).
Proof.
  intros Hl. apply foldl_inv; [split; [constructor|constructor]|]. rewrite Forall_forall in Hl.
  intros r s Hs Hr. apply Realm_With_wf; auto.
Qed.

(** The wire changes nothing: what the prober reads is the realm that was sent. *)
Lemma ParseRealm_CIDRs r : realm_wf r → ParseRealm (CIDRs r) = r.
Proof.
  destruct r as [l]. unfold realm_wf, ParseRealm, CIDRs. cbn [scopes].
  induction l as [|p l IH] using rev_ind; [done|]. rewrite map_app, foldl_app.
  intros [(Hn & Hd & _)%NoDup_app [Hf [[Hv Hm] _]%Forall_cons]%Forall_app].
  rewrite IH by done. cbn [map foldl]. rewrite ParsePrefix_String by done. unfold Realm_With.
  assert (Prefix_IsValid p = true) as -> by (destruct Hv; by apply Z.leb_le). cbn [negb scopes].
  rewrite Hm. assert (existsb (λ q, bool_decide (q = p)) l = false) as ->; [|done].
  apply existsb_false. intros q Hq. apply bool_decide_eq_false. intros ->. apply (Hd p Hq). by left.
Qed.

(** ** The guard *)

Lemma Addr_String_plain a : a ≠ AddrInvalid → hasZone a = false → string_forallb plain (Addr_String a) = true.
Proof.
  destruct a as [|v|v z]; intros Hne Hz; [done|apply string_v4_plain|]. cbn in Hz.
  apply negb_false_iff, String.eqb_eq in Hz. subst z. unfold Addr_String.
  destruct (Is4In6 _); rewrite !string_forallb_app; [rewrite string_v4_plain|rewrite string_v6_plain]; done.
Qed.

Lemma plain_without b s : plain b = false → string_forallb plain s = true →
  string_forallb (λ c, negb (Ascii.eqb c b)) s = true.
Proof.
  intros Hb. apply string_forallb_impl. intros c Hc. apply negb_true_iff, Ascii.eqb_neq. intros ->. congruence.
Qed.

Lemma itoa_plain n : 0 ≤ n < 10 ^ 20 → string_forallb plain (itoa n) = true.
Proof.
  intros Hn. eapply string_forallb_impl; [|apply (itoa_digits n Hn)]. intros c Hc. unfold plain.
  assert (hex_digit c = true) as ->; [|done]. unfold hex_digit, hex_val. unfold is_digit in Hc.
  apply bool_decide_eq_true. unfold is_digit. rewrite Hc. by eexists.
Qed.

Lemma string_v4_no_colon v : string_forallb (λ c, negb (Ascii.eqb c ":")) (string_v4 v) = true.
Proof.
  rewrite string_v4_octets.
  assert (H : ∀ x, string_forallb (λ c, negb (Ascii.eqb c ":")) (itoa (x mod 256)) = true).
  { intros x. pose proof (Z.mod_pos_bound x 256). apply digits_without; [lia|done]. }
  do 3 (rewrite string_forallb_app, H; cbn [andb string_forallb];
        change (negb (Ascii.eqb "." ":")) with true; cbn [andb]). by rewrite string_forallb_app, H.
Qed.

(** The text of a host and a port, split. *)
Lemma SplitHostPort_String a p :
  a ≠ AddrInvalid → hasZone a = false → 0 ≤ p < 2 ^ 16 →
  SplitHostPort (AddrPort_String (mkAddrPort a p)) = Some (Addr_String a).
Proof.
  intros Hne Hz Hp. rewrite AddrPort_String_split by done. cbn [ap_Addr ap_Port].
  pose proof (Addr_String_plain a Hne Hz) as Hpl. pose proof (itoa_plain p ltac:(lia)) as Hip.
  assert (Hnc : string_forallb (λ c, negb (Ascii.eqb c ":")) (itoa p) = true) by (apply digits_without; [lia|done]).
  unfold SplitHostPort. rewrite LastIndexByte_app, (proj2 (Z.ltb_ge _ 0)) by (done || lia).
  assert (Hfrom0 : ∀ t, slice_from t 0 = t).
  { intros t. unfold slice_from. change (Z.to_nat 0) with O. rewrite Nat.sub_0_r.
    induction t as [|c t IH]; [reflexivity|]. cbn. by rewrite IH. }
  destruct a as [|v|v z]; [done|..].
  - cbn [host_text Addr_String] in *. destruct (host_text_unbracketed v) as [Hb Hv].
    assert (Hall : string_forallb plain (string_v4 v +:+ String ":" (itoa p)) = true)
      by (rewrite string_forallb_app, Hpl; cbn [string_forallb andb]; change (plain ":") with true; cbn [andb]; exact Hip).
    assert (HasPrefix (string_v4 v +:+ String ":" (itoa p)) "[" = false) as ->.
    { apply bool_decide_eq_false. intros [r Hr%cut_prefix_spec]. rewrite Hr in Hall. by vm_compute in Hall. }
    rewrite slice_to_app, IndexByte_none by apply string_v4_no_colon. cbn [Z.leb Z.compare].
    rewrite Hfrom0, !IndexByte_none by (by apply plain_without). done.
  - set (s := Addr_String (Addr6 v z)) in *.
    assert (Hht : (host_text (Addr6 v z) +:+ String ":" (itoa p))%string =
      String "[" (s +:+ String "]" (String ":" (itoa p)))%string).
    { unfold host_text. fold s. change ("[" +:+ s +:+ "]")%string with (String "[" (s +:+ "]")%string).
      rewrite append_cons, <- append_assoc. done. }
    assert (Hi : Z.of_nat (String.length (host_text (Addr6 v z))) = Z.of_nat (String.length s) + 2).
    { unfold host_text. fold s. rewrite !length_append. cbn [String.length]. lia. }
    rewrite Hi, Hht. set (rest := String ":" (itoa p)).
    assert (Hrest : string_forallb plain rest = true) by (unfold rest; cbn [string_forallb]; change (plain ":") with true; exact Hip).
    assert (Hfrom1 : slice_from (String "[" (s +:+ String "]" rest)) 1 = (s +:+ String "]" rest)%string)
      by exact (slice_from_app "" "[" (s +:+ String "]" rest)).
    change (String "[" (s +:+ String "]" rest)) with (String "[" s +:+ String "]" rest)%string in *.
    assert (HasPrefix (String "[" s +:+ String "]" rest) "[" = true) as ->
      by exact (HasPrefix_app "[" (s +:+ String "]" rest)).
    rewrite IndexByte_app by (cbn [string_forallb]; rewrite plain_without; done).
    cbn [String.length]. rewrite (proj2 (Z.ltb_ge _ 0)), (proj2 (Z.eqb_eq _ _)) by lia. cbn [negb].
    rewrite Hfrom1. replace (Z.of_nat (S (String.length s)) - 1) with (Z.of_nat (String.length s)) by lia.
    rewrite slice_to_app. change (S (String.length s)) with (String.length (String "[" s)). rewrite slice_from_app.
    rewrite (IndexByte_none rest) by by apply plain_without.
    rewrite IndexByte_none; [done|]. rewrite string_forallb_app. cbn [string_forallb].
    by rewrite !plain_without.
Qed.

Lemma IsNonGlobal_Unmap a : IsNonGloballyReachable (Unmap a) = IsNonGloballyReachable a.
Proof. unfold IsNonGloballyReachable. cbv zeta. rewrite Unmap_idem. reflexivity. Qed.

(** What the guard answers for an address the dialer hands over. *)
Lemma EgressGuard_String realm a p :
  Addr_wf a → a ≠ AddrInvalid → hasZone a = false → 0 ≤ p < 2 ^ 16 →
  EgressGuard realm (AddrPort_String (mkAddrPort a p)) =
    if IsNonGloballyReachable a && negb (Realm_Contains realm a) then Some (Refused (Addr_String a)) else None.
Proof.
  intros Hw Hne Hz Hp. unfold EgressGuard. rewrite SplitHostPort_String, ParseAddr_String by done.
  by rewrite IsNonGlobal_Unmap.
Qed.

(** Every address with a zone passes: [netip.Prefix.Contains] holds no such
    address, so no row of the registries does. *)
Lemma zoned_passes_the_guard a realm p :
  hasZone (Unmap a) = true → SplitHostPort p = Some (Addr_String a) → Addr_wf a → EgressGuard realm p = None.
Proof.
  intros Hz Hp Hw. assert (Hne : a ≠ AddrInvalid) by (by intros ->).
  unfold EgressGuard. rewrite Hp, ParseAddr_String by done.
  assert (IsNonGloballyReachable (Unmap a) = false) as ->; [|done]. unfold IsNonGloballyReachable.
  rewrite Unmap_idem. assert (Hc : ∀ q, Contains q (Unmap a) = false) by (intros q; unfold Contains; by rewrite Hz, orb_true_r).
  set (b := Unmap a) in *. clearbody b. clear -Hc. cbv zeta.
  assert (H : ∀ l st, foldl (longest_step b) st l = st).
  { induction l as [|x l IH]; intros st; [reflexivity|]. cbn [foldl]. unfold longest_step at 2. by rewrite Hc, IH. }
  by rewrite H.
Qed.

Example zoned_link_local_passes :
  EgressGuard (mkRealm []) "[fe80::1%eth0]:443" = None ∧
  EgressGuard (mkRealm []) "[fe80::1]:443" = Some (Refused "fe80::1") ∧
  EgressGuard (mkRealm []) "10.0.0.1:443" = Some (Refused "10.0.0.1") ∧
  EgressGuard (ParseRealm ["10.0.0.0/8"; "x"]%string) "10.0.0.1:443" = None ∧
  EgressGuard (mkRealm []) "host:443" = Some BadAddress.
Proof. vm_compute. auto. Qed.
