(* ===== verification/Dispatch.v ===== *)
(** * The jobs a scan dispatches

    [scan/hot.go], [cold.go], [tlsacceptance.go], [httpidentity.go],
    [edgefanout.go] and [scan.go], with the reads of [queue/hot.go], [cold.go],
    [tlsacceptance.go], [httpidentity.go] and [helpers.go] that feed them: which
    address, service or name is handed to which vantage, under which realm.  A
    sequence is the list of what it yields to a consumer that never stops it.  A
    scope is the record the code marshals; the names a job is labelled with and
    the columns of its row that the leaf does not read are left out. *)

From S2P Require Import Prelude GoStr NetIP NetParse NetText Seed VergeCore Exposure ResolutionWalk Wildcard SubjectScope Custody Egress.

(** ** Declared parameters *)

(** [scan.Vantage]. *)
Record Vantage := mkVantage {
  v_ID : Z;
  v_Name : string;
  v_Resolver : string;
  v_Class : string;
  v_Dialled : string;
  v_Egress : string
}.

Record BackoffPolicy := mkBackoff {
  HalveOnTimeout : bool;
  HalveOnRSTSpike : bool;
  HalveOn429 : bool;
  HalveOn503 : bool;
  TouchesDeadline : bool
}.

Record SafetyProfile := mkProfile {
  Technique : string;
  HostDiscovery : string;
  PerHostConnPerSec : Z;
  PerHostConcurrency : Z;
  ConnectTimeoutMillis : Z;
  Retries : Z;
  ControlPortRetries : Z;
  PerVantageConnPerSec : Z;
  RoundRobinByHost : bool;
  AdaptiveBackoff : BackoffPolicy
}.

Definition ExchangeInFlight : Z := 1.

Definition DefaultProfile : SafetyProfile :=
  mkProfile "tcp-connect" "skipped" 50 ExchangeInFlight 3000 2 0 200 true
    (mkBackoff true true true true false).

Record CandidateSet := mkCandidates {
  cs_Versions : list string;
  cs_Ciphers : list string;
  cs_MaxHandshakesPerSecPerHost : Z
}.

Definition tlsoffer_Versions : list string := ["1.0"; "1.1"; "1.2"; "1.3"]%string.

Definition tlsoffer_Ciphers : list string := [
  "TLS_RSA_WITH_3DES_EDE_CBC_SHA";
  "TLS_ECDHE_RSA_WITH_3DES_EDE_CBC_SHA";
  "TLS_RSA_WITH_AES_128_CBC_SHA";
  "TLS_RSA_WITH_AES_256_CBC_SHA";
  "TLS_RSA_WITH_AES_128_CBC_SHA256";
  "TLS_RSA_WITH_AES_128_GCM_SHA256";
  "TLS_RSA_WITH_AES_256_GCM_SHA384";
  "TLS_ECDHE_RSA_WITH_AES_128_CBC_SHA";
  "TLS_ECDHE_RSA_WITH_AES_256_CBC_SHA";
  "TLS_ECDHE_RSA_WITH_AES_128_CBC_SHA256";
  "TLS_ECDHE_ECDSA_WITH_AES_128_CBC_SHA";
  "TLS_ECDHE_ECDSA_WITH_AES_256_CBC_SHA";
  "TLS_ECDHE_ECDSA_WITH_AES_128_CBC_SHA256";
  "TLS_ECDHE_RSA_WITH_AES_128_GCM_SHA256";
  "TLS_ECDHE_RSA_WITH_AES_256_GCM_SHA384";
  "TLS_ECDHE_ECDSA_WITH_AES_128_GCM_SHA256";
  "TLS_ECDHE_ECDSA_WITH_AES_256_GCM_SHA384";
  "TLS_ECDHE_RSA_WITH_CHACHA20_POLY1305_SHA256";
  "TLS_ECDHE_ECDSA_WITH_CHACHA20_POLY1305_SHA256"
]%string.

Definition DefaultCandidateSet : CandidateSet := mkCandidates tlsoffer_Versions tlsoffer_Ciphers 5.

Record Params := mkParams {
  Method : string;
  Path_ : string;
  BodyCapBytes : Z;
  TimeoutMillis : Z;
  PerHostReqPerSec : Z;
  FollowRedirects : bool;
  ALPN : list string
}.

Definition DefaultParams : Params :=
  mkParams "GET" "/" (64 * 1024) 10000 10 false ["h2"; "http/1.1"]%string.

Definition connectoutcome_Kind : string := "connect-outcome".
Definition tlsacceptance_Kind : string := "tls-acceptance".
Definition httpexchange_Kind : string := "http-exchange".
Definition resolutionwalk_Kind : string := "resolution-walk".

(** [string(class)]. *)
Definition class_text (c : VantageClass) : string :=
  match c with
  | ClassInternet => "internet"
  | ClassInternal => "internal"
  | ClassUnverified => "unverified"
  end.

(** ** The rows the dispatcher reads *)

(** [db.ListVantagesForDispatchRow]; a null text reads as the empty string. *)
Record vantage_row := mkVantageRow {
  vr_ID : Z;
  vr_Name : string;
  vr_Resolver : string;
  vr_Dialled : option string;
  vr_Egress : option string
}.

Definition scanVantages (rows : list vantage_row) : list Vantage :=
  map (λ r, mkVantage (vr_ID r) (vr_Name r) (vr_Resolver r) ""
              (default "" (vr_Dialled r)) (default "" (vr_Egress r))) rows.

Definition resolver (rows : list vantage_row) (id : Z) : string :=
  match List.find (λ r, vr_ID r =? id) rows with Some r => vr_Resolver r | None => "" end.

(** What [hotEstate] reads: [er_cited] is the live citations, owner and address. *)
Record estate_rows := mkEstateRows {
  er_scopes : list (option Prefix);
  er_zones : list (option string);
  er_cited : list (string * string);
  er_fanout : EdgeFanout;
  er_exclusions : list (option Prefix)
}.

Definition ReadAddressExclusions (rows : list (option Prefix)) : list Prefix := omap id rows.

Definition CitedResolutions (cited : list (string * string)) : list Resolution :=
  omap (λ c, match ParseAddr c.2 with
             | None => None
             | Some addr => Some (mkResolution c.1 (Unmap addr))
             end) cited.

Definition resolved_step (st : gset Addr * list Addr) (r : Resolution) : gset Addr * list Addr :=
  let '(seen, addrs) := st in
  if bool_decide (Address r ∈ seen) then st else ({[ Address r ]} ∪ seen, addrs ++ [Address r]).

Definition hotEstate (rows : estate_rows) : Estate * list Addr :=
  let prefixes := omap id (er_scopes rows) in
  let extended := omap id (er_zones rows) in
  let resolutions := CitedResolutions (er_cited rows) in
  let '(_, addrs) := foldl resolved_step (∅, []) resolutions in
  let excluded := ReadAddressExclusions (er_exclusions rows) in
  (WithEdgeFanout
     (WithAddressExclusions (mkEstate prefixes extended resolutions EdgeFanoutZero []) excluded)
     (er_fanout rows),
   addrs).

Definition candidate_addr_step (st : gset Addr * list Addr) (a : Addr) : gset Addr * list Addr :=
  let '(seen, out) := st in
  let a := Unmap a in
  if bool_decide (a ∈ seen) then st else ({[ a ]} ∪ seen, out ++ [a]).

(** [None] is a nil [excluded]. *)
Definition candidateAddrs (resolved : list Addr) (scopes : list Prefix) (excluded : option (Addr → bool))
    : list Addr :=
  let '(seen, out) := foldl candidate_addr_step (∅, []) resolved in
  out ++
  flat_map (λ p, flat_map (λ a,
    let a := Unmap a in
    if bool_decide (a ∈ seen) then []
    else if match excluded with Some ex => ex a | None => false end then []
    else [a]) (EnumerateAddresses p)) scopes.

(** ** The hot scan *)

Record HotJob := mkHotJob {
  hj_ScanID : Z;
  hj_VantageID : Z;
  hj_Vantage : string;
  hj_VantageClass : string;
  hj_Kind : string;
  hj_Addresses : list string;
  hj_TCPPorts : list Z;
  hj_UDPPorts : list Z;
  hj_Profile : SafetyProfile;
  hj_Realm : Realm
}.

Definition portsOf (pairs : list Pair) : list Z := map VergeCore.Port pairs.

(** The vantages with the class the presented addresses give them. *)
Definition classed (estate : Estate) (vantages : list Vantage) : list (Vantage * VantageClass) :=
  map (λ v, (v, DeriveClass (v_Dialled v) (v_Egress v) (CoversAddressScope estate))) vantages.

Definition BuildHotJobs (scanID : Z) (estate : Estate) (addrs : list Addr) (vantages : list Vantage)
    (core : VergeCore.List) : list HotJob :=
  let tcp := portsOf (TCPProbed core) in
  let udp := portsOf (UDPRecorded core) in
  if (length tcp =? 0)%nat || (length vantages =? 0)%nat then []
  else
    flat_map (λ a, omap (λ '(v, class),
      let '(scope, ok) := ProbeRealm estate a class in
      if negb ok then None
      else Some (mkHotJob scanID (v_ID v) (v_Name v) (class_text class) connectoutcome_Kind
                   [Addr_String (Unmap a)] tcp udp DefaultProfile (Realm_With (mkRealm []) scope)))
      (classed estate vantages)) addrs.

(** [db.VergeCoreFrequencyEdit]: the port is a database integer, cut to 16 bits. *)
Definition hotCore (edits : list (Z * string)) : option VergeCore.List :=
  core ← VergeCore.Default;
  Some (WithFrequencyEdits core (map (λ e, mkEdit (e.1 mod 2 ^ 16) e.2) edits)).

(** [None] is the panic of a shipped list that does not parse. *)
Definition fanOutHot (scanID : Z) (rows : estate_rows) (edits : list (Z * string)) (vrows : list vantage_row)
    : option (list HotJob) :=
  let '(estate, resolved) := hotEstate rows in
  core ← hotCore edits;
  Some (BuildHotJobs scanID estate
    (candidateAddrs resolved (AddressScopes estate) (Some (AddressExcluded estate)))
    (scanVantages vrows) core).

(** ** The cold scan *)

Definition ColdPortLow : Z := 1.
Definition ColdPortHigh : Z := 65535.

Record ColdScope := mkColdScope { AddressPrefixes : list Prefix; Addresses : gset Addr }.

Definition ColdScope_empty (c : ColdScope) : bool :=
  (length (AddressPrefixes c) =? 0)%nat && bool_decide (Addresses c = ∅).

Definition ColdScope_contains (c : ColdScope) (a : Addr) : bool :=
  let a := Unmap a in
  bool_decide (a ∈ Addresses c) || existsb (λ p, Contains p a) (AddressPrefixes c).

Record ColdJob := mkColdJob {
  cj_ScanID : Z;
  cj_VantageID : Z;
  cj_Vantage : string;
  cj_VantageClass : string;
  cj_Kind : string;
  cj_Addresses : list string;
  cj_TCPPorts : list Z;
  cj_Profile : SafetyProfile;
  cj_Realm : Realm
}.

Definition coldTCPPorts : list Z := seqZ ColdPortLow (ColdPortHigh - ColdPortLow + 1).

Definition BuildColdJobs (scanID : Z) (estate : Estate) (addrs : list Addr) (vantages : list Vantage)
    (scope : ColdScope) : list ColdJob :=
  if ColdScope_empty scope || (length vantages =? 0)%nat then []
  else
    let tcp := coldTCPPorts in
    flat_map (λ a,
      if negb (ColdScope_contains scope a) then []
      else omap (λ '(v, class),
        let '(realmScope, ok) := ProbeRealm estate a class in
        if negb ok then None
        else Some (mkColdJob scanID (v_ID v) (v_Name v) (class_text class) connectoutcome_Kind
                     [Addr_String (Unmap a)] tcp DefaultProfile (Realm_With (mkRealm []) realmScope)))
        (classed estate vantages)) addrs.

Definition coldScope (seeds : list seed_row) (resolutions : list Resolution) : ColdScope :=
  let prefixes := omap (λ s, if String.eqb (sd_Kind s) "address" then sd_AddressCidr s else None) seeds in
  let domains := omap (λ s, if String.eqb (sd_Kind s) "name" then sd_NameDomain s else None) seeds in
  mkColdScope prefixes
    (list_to_set (omap (λ r, if WithinAnyZone (Owner r) domains then Some (Unmap (Address r)) else None)
                    resolutions)).

Definition fanOutCold (scanID : Z) (rows : estate_rows) (seeds : list seed_row) (vrows : list vantage_row)
    : list ColdJob :=
  let '(estate, resolved) := hotEstate rows in
  let scope := coldScope seeds (Resolutions estate) in
  BuildColdJobs scanID estate
    (candidateAddrs resolved (AddressPrefixes scope) (Some (AddressExcluded estate)))
    (scanVantages vrows) scope.

(** ** The scans over what was reached *)

Record ReachedService := mkReached { rs_VantageID : Z; rs_Address : string; rs_Port : Z }.

(** [strings.CutSuffix]. *)
Definition CutSuffix (s suffix : string) : option string :=
  if HasSuffix s suffix then Some (TrimSuffix s suffix) else None.

Definition parseServiceKey (key : string) : option AddrPort :=
  base ← CutSuffix key "/tcp"; ParseAddrPort base.

(** A row is a service key and the vantage that reached it. *)
Definition reachedServices (rows : list (string * option Z)) : list ReachedService :=
  omap (λ '(key, vantage),
    id ← vantage; ap ← parseServiceKey key;
    Some (mkReached id (Addr_String (ap_Addr ap)) (ap_Port ap))) rows.

(** [byID] and [order]: the last vantage of an id, the ids as first met. *)
Definition order_step (st : gmap Z Vantage * list Z) (v : Vantage) : gmap Z Vantage * list Z :=
  let '(byID, order) := st in
  (<[v_ID v := v]> byID, match byID !! v_ID v with None => order ++ [v_ID v] | Some _ => order end).

Definition classes_step (estate : Estate) (m : gmap Z VantageClass) (v : Vantage) : gmap Z VantageClass :=
  <[v_ID v := DeriveClass (v_Dialled v) (v_Egress v) (CoversAddressScope estate)]> m.

(** Both scans build their jobs by one loop: [target] is what a service becomes,
    [job] the job of a vantage.  A missing class is the zero string, which is no
    internet class. *)
Section Grouped.
Context {T J : Type} (target : ReachedService → T) (job : Vantage → list T → Realm → J).

Definition group_service (estate : Estate) (byID : gmap Z Vantage) (vcByID : gmap Z VantageClass)
    (st : gmap Z (list T) * gmap Z Realm) (s : ReachedService) : gmap Z (list T) * gmap Z Realm :=
  let '(grouped, realms) := st in
  let id := rs_VantageID s in
  match byID !! id with
  | None => st
  | Some _ =>
      match ParseAddr (rs_Address s) with
      | None => st
      | Some a =>
          let '(scope, ok) := ProbeRealm estate a (default ClassUnverified (vcByID !! id)) in
          if negb ok then st
          else (<[id := default [] (grouped !! id) ++ [target s]]> grouped,
                <[id := Realm_With (default (mkRealm []) (realms !! id)) scope]> realms)
      end
  end.

Definition build_grouped (estate : Estate) (services : list ReachedService) (vantages : list Vantage) : list J :=
  if (length services =? 0)%nat || (length vantages =? 0)%nat then []
  else
    let '(byID, order) := foldl order_step (∅, []) vantages in
    let vcByID := foldl (classes_step estate) ∅ vantages in
    let '(grouped, realms) := foldl (group_service estate byID vcByID) (∅, ∅) services in
    omap (λ id,
      let svcs := default [] (grouped !! id) in
      if (length svcs =? 0)%nat then None
      else v ← byID !! id; Some (job v svcs (default (mkRealm []) (realms !! id)))) order.
End Grouped.

(** [tlsacceptance.ServiceTarget]. *)
Record ServiceTarget := mkServiceTarget { st_Address : string; st_Port : Z }.

Record TLSAcceptanceJob := mkTLSJob {
  tj_ScanID : Z;
  tj_VantageID : Z;
  tj_Vantage : string;
  tj_VantageClass : string;
  tj_Kind : string;
  tj_Services : list ServiceTarget;
  tj_Candidates : CandidateSet;
  tj_Realm : Realm
}.

Definition BuildTLSAcceptanceJobs (scanID : Z) (estate : Estate) (services : list ReachedService)
    (vantages : list Vantage) : list TLSAcceptanceJob :=
  build_grouped (λ s, mkServiceTarget (rs_Address s) (rs_Port s))
    (λ v svcs realm, mkTLSJob scanID (v_ID v) (v_Name v) (v_Class v) tlsacceptance_Kind svcs
                       DefaultCandidateSet realm) estate services vantages.

(** [httpexchange.Target]. *)
Record Target := mkTarget { tg_Name : string; tg_Address : string; tg_Port : Z; tg_Scheme : string }.

Definition schemeForPort (port : Z) : string :=
  if (port =? 443) || (port =? 8443) || (port =? 6443) then "https" else "http".

Record HTTPIdentityJob := mkHTTPJob {
  ij_ScanID : Z;
  ij_VantageID : Z;
  ij_Vantage : string;
  ij_VantageClass : string;
  ij_Kind : string;
  ij_Targets : list Target;
  ij_Params : Params;
  ij_Realm : Realm
}.

Definition BuildHTTPIdentityJobs (scanID : Z) (estate : Estate) (services : list ReachedService)
    (vantages : list Vantage) : list HTTPIdentityJob :=
  build_grouped (λ s, mkTarget "" (rs_Address s) (rs_Port s) (schemeForPort (rs_Port s)))
    (λ v targets realm, mkHTTPJob scanID (v_ID v) (v_Name v) (v_Class v) httpexchange_Kind targets
                          DefaultParams realm) estate services vantages.

Definition fanOutTLSAcceptance (scanID : Z) (rows : estate_rows) (reached : list (string * option Z))
    (vrows : list vantage_row) : list TLSAcceptanceJob :=
  let '(estate, _) := hotEstate rows in
  BuildTLSAcceptanceJobs scanID estate (reachedServices reached) (scanVantages vrows).

Definition fanOutHTTPIdentity (scanID : Z) (rows : estate_rows) (reached : list (string * option Z))
    (vrows : list vantage_row) : list HTTPIdentityJob :=
  let '(estate, _) := hotEstate rows in
  BuildHTTPIdentityJobs scanID estate (reachedServices reached) (scanVantages vrows).

(** ** The edge fan-out scan *)

Definition EdgeFanoutAddressesPerJob : nat := 50.

Record EdgeFanoutJob := mkEdgeJob { ej_ScanID : Z; ej_Chunk : Z; ej_Addresses : list string }.

(** The chunk's number, its addresses so far, the jobs yielded. *)
Definition chunk_step (scanID : Z) (st : Z * list string * list EdgeFanoutJob) (a : Addr)
    : Z * list string * list EdgeFanoutJob :=
  let '(chunk, addrs, out) := st in
  let addrs := addrs ++ [Addr_String (Unmap a)] in
  if (length addrs <? EdgeFanoutAddressesPerJob)%nat then (chunk, addrs, out)
  else (chunk + 1, [], out ++ [mkEdgeJob scanID chunk addrs]).

Definition BuildEdgeFanoutJobs (scanID : Z) (population : list Addr) : list EdgeFanoutJob :=
  let '(chunk, addrs, out) := foldl (chunk_step scanID) (0, [], []) population in
  if (0 <? length addrs)%nat then out ++ [mkEdgeJob scanID chunk addrs] else out.

(** ** The DNS scan *)

Record Job := mkJob {
  j_ScanID : Z;
  j_VantageID : Z;
  j_Vantage : string;
  j_Kind : string;
  j_Names : list string;
  j_Offers : Offers;
  j_resolver : string;
  j_seeds : list string
}.

Definition resolutionNameKey (name : string) : string := CanonicalName (TrimSpace name).

Definition admitted_step (st : gset string * list string) (n : string) : gset string * list string :=
  let '(seen, out) := st in
  let key := resolutionNameKey n in
  if String.eqb key "" then st
  else if bool_decide (key ∈ seen) then st
  else ({[ key ]} ∪ seen, out ++ [n]).

Definition mergeResolutionNames (seedDomains admitted : list string) : list string :=
  (foldl admitted_step (list_to_set (map resolutionNameKey seedDomains), seedDomains) admitted).2.

Definition BuildDNSJobs (scanID : Z) (names : list string) (vantages : list Vantage) : list Job :=
  if (length names =? 0)%nat || (length vantages =? 0)%nat then []
  else map (λ v, mkJob scanID (v_ID v) (v_Name v) resolutionwalk_Kind names DefaultOffers "" []) vantages.

Definition WithResolver (j : Job) (r : string) : Job :=
  mkJob (j_ScanID j) (j_VantageID j) (j_Vantage j) (j_Kind j) (j_Names j) (j_Offers j) r (j_seeds j).

Definition WithSeeds (j : Job) (seeds : list string) : Job :=
  mkJob (j_ScanID j) (j_VantageID j) (j_Vantage j) (j_Kind j) (j_Names j) (j_Offers j) (j_resolver j) seeds.

Definition seedScopes (j : Job) : list string :=
  if (0 <? length (j_seeds j))%nat then j_seeds j else j_Names j.

(** [scopeRecord]. *)
Record dns_scope := mkDNSScope { ds_Vantage : string; ds_Names : list string; ds_ControlProbePopulation : list string }.

Definition AttemptedScope (j : Job) : dns_scope :=
  mkDNSScope (j_Vantage j) (j_Names j) (ControlPopulation (j_Names j) (seedScopes j)).

(** What enqueueing one job answers: an error, the error of a vantage without a
    resolver among them, or nothing. *)
Inductive enqueue_error := ErrNoResolver | ErrOther.

(** [Job.JobSpec] fails without a resolver, before the row is written. *)
Definition enqueueJob (insert : Job → bool) (j : Job) : option enqueue_error :=
  if String.eqb (j_resolver j) "" then Some ErrNoResolver
  else if insert j then None else Some ErrOther.

(** The jobs enqueued, [None] on an error. *)
Definition dns_step (enqueue : Job → option enqueue_error) (enqueued : list Job) (j : Job) : option (list Job) :=
  match enqueue j with
  | Some ErrNoResolver => Some enqueued
  | Some ErrOther => None
  | None => Some (enqueued ++ [j])
  end.

Definition dispatchDNSJobs (enqueue : Job → option enqueue_error) (jobs : list Job) : option (list Job) :=
  for_range (dns_step enqueue) jobs [].

Definition fanOutDNS (scanID : Z) (insert : Job → bool) (seedRows : list (option string)) (admitted : list string)
    (vrows : list vantage_row) : option (list Job) :=
  let seedDomains := omap id seedRows in
  let names := mergeResolutionNames seedDomains admitted in
  let jobs := BuildDNSJobs scanID names (scanVantages vrows) in
  dispatchDNSJobs (enqueueJob insert)
    (map (λ j, WithSeeds (WithResolver j (resolver vrows (j_VantageID j))) seedDomains) jobs).

(** ** What is a candidate *)

Lemma resolved_dedup l :
  foldl resolved_step (∅, []) l = dedup (λ r, Some (Address r, Address r)) l.
Proof. unfold dedup. apply foldl_ext. by intros [seen out] r _. Qed.

Lemma candidate_dedup l :
  foldl candidate_addr_step (∅, []) l = dedup (λ a, Some (Unmap a, Unmap a)) l.
Proof. unfold dedup. apply foldl_ext. by intros [seen out] a _. Qed.

Lemma elem_of_candidateAddrs resolved scopes excluded a :
  a ∈ candidateAddrs resolved scopes (Some excluded) ↔
    (∃ r, r ∈ resolved ∧ Unmap r = a) ∨
    (excluded a = false ∧ ∃ p b, p ∈ scopes ∧ b ∈ EnumerateAddresses p ∧ Unmap b = a).
Proof.
  unfold candidateAddrs. rewrite candidate_dedup.
  pose proof (elem_of_dedup_by Unmap resolved) as Hout.
  pose proof (dedup_by_seen Unmap resolved) as Hs.
  destruct (dedup _ resolved) as [seen out]. cbn [fst snd] in *. subst seen.
  rewrite elem_of_app, Hout, list_elem_of_In, in_flat_map.
  setoid_rewrite in_flat_map. setoid_rewrite <- list_elem_of_In. split.
  - intros [?|(p & Hp & b & Hb & Hin)]; [by left|right]. revert Hin.
    case_bool_decide; [set_solver|]. cbv zeta. destruct (excluded (Unmap b)) eqn:Ex; [set_solver|].
    rewrite list_elem_of_singleton. intros ->. split; [done|]. by exists p, b.
  - intros [?|(Hx & p & b & Hp & Hb & <-)]; [by left|].
    destruct (decide (Unmap b ∈ out)) as [Hc|Hc]; [left; by apply Hout|].
    right. exists p. split; [done|]. exists b. split; [done|].
    rewrite bool_decide_false by set_solver. rewrite Hx. by left.
Qed.

Lemma Contains_AddrInvalid p : Contains p AddrInvalid = false.
Proof. unfold Contains. destruct (_ || _); [done|]. by destruct (p_ip p). Qed.

Section Estate_rows.
Variable rows : estate_rows.
Let e : Estate := (hotEstate rows).1.
Let resolved : list Addr := (hotEstate rows).2.

Lemma hotEstate_resolved a : a ∈ resolved ↔ ∃ r, r ∈ Resolutions e ∧ Address r = a.
Proof.
  unfold resolved, e, hotEstate. rewrite resolved_dedup.
  pose proof (elem_of_dedup_by Address (CitedResolutions (er_cited rows)) a) as H.
  destruct (dedup _ _) as [seen out]. exact H.
Qed.

Lemma hotEstate_scopes : AddressScopes e = omap id (er_scopes rows).
Proof. unfold e, hotEstate. by destruct (foldl _ _ _). Qed.

Lemma hotEstate_resolutions : Resolutions e = CitedResolutions (er_cited rows).
Proof. unfold e, hotEstate. by destruct (foldl _ _ _). Qed.

Lemma Resolutions_plain r : r ∈ Resolutions e → plain_addr (Address r).
Proof.
  rewrite hotEstate_resolutions. intros (c & _ & Hc)%list_elem_of_omap.
  destruct (ParseAddr c.2) as [a|] eqn:Ea; [|done]. injection Hc as <-.
  apply ParseAddr_wf in Ea as [Hw Hn]. by apply plain_addr_Unmap.
Qed.
End Estate_rows.

Lemma enumerated_valid p a : Prefix_valid p → a ∈ EnumerateAddresses p → Addr_wf a ∧ a ≠ AddrInvalid.
Proof.
  intros Hv Ha. apply elem_of_EnumerateAddresses in Ha as [Hw Hc]; [|done]. split; [done|].
  intros ->. by rewrite Contains_AddrInvalid in Hc.
Qed.

Section Candidates.
Variable rows : estate_rows.
Let e : Estate := (hotEstate rows).1.
Let candidates : list Addr := candidateAddrs (hotEstate rows).2 (AddressScopes e) (Some (AddressExcluded e)).
Hypothesis Hscopes : Forall Prefix_valid (AddressScopes e).

Lemma candidates_plain a : a ∈ candidates → plain_addr a.
Proof.
  intros [(r & Hr & <-)|(_ & p & b & Hp & Hb & <-)]%elem_of_candidateAddrs.
  - apply hotEstate_resolved in Hr as (r' & (Hw & Hn & Hu)%Resolutions_plain & <-).
    rewrite Hu. by split_and!.
  - rewrite Forall_forall in Hscopes. pose proof (enumerated_valid p b (Hscopes p Hp) Hb) as [? ?].
    by apply plain_addr_Unmap.
Qed.

(** No address the gate admits is missed. *)
Lemma candidates_complete a vc : plain_addr a → MayProbe e a vc = true → a ∈ candidates.
Proof.
  intros (Hw & Hn & Hu) Hm. apply elem_of_candidateAddrs.
  assert (Hd : declared e a ∨ ∃ name, cited e name a).
  { apply MayProbe_spec in Hm. cbv zeta in Hm. rewrite Hu in Hm.
    destruct (IsNonGloballyReachable a); naive_solver. }
  destruct Hd as [[(p & Hp & Hc) Hx]|(n & (r & Hr & _ & Ha) & _)].
  - right. split; [by rewrite AddressExcluded_false, Hu|]. exists p, a. split_and!; [done| |done].
    rewrite Forall_forall in Hscopes. by apply elem_of_EnumerateAddresses; [apply Hscopes|].
  - left. exists (Address r). split; [|done]. apply hotEstate_resolved. by exists r.
Qed.
End Candidates.

(** ** The hot jobs *)

Definition vantage_class (e : Estate) (v : Vantage) : VantageClass :=
  DeriveClass (v_Dialled v) (v_Egress v) (CoversAddressScope e).

(** The realm of a job for one address. *)
Definition address_realm (e : Estate) (a : Addr) (vc : VantageClass) : Realm :=
  Realm_With (mkRealm []) (ProbeRealm e a vc).1.

Lemma elem_of_classed e vs v c : (v, c) ∈ classed e vs ↔ v ∈ vs ∧ c = vantage_class e v.
Proof.
  unfold classed. rewrite list_elem_of_fmap. split.
  - intros (w & [= -> ->] & Hw). done.
  - intros [Hv ->]. by exists v.
Qed.

Lemma elem_of_BuildHotJobs scanID e addrs vs core j :
  j ∈ BuildHotJobs scanID e addrs vs core ↔
    portsOf (TCPProbed core) ≠ [] ∧
    ∃ a v, a ∈ addrs ∧ v ∈ vs ∧ MayProbe e a (vantage_class e v) = true ∧
      j = mkHotJob scanID (v_ID v) (v_Name v) (class_text (vantage_class e v)) connectoutcome_Kind
            [Addr_String (Unmap a)] (portsOf (TCPProbed core)) (portsOf (UDPRecorded core)) DefaultProfile
            (address_realm e a (vantage_class e v)).
Proof.
  unfold BuildHotJobs. cbv zeta. destruct (Nat.eqb_spec (length (portsOf (TCPProbed core))) 0) as [H0|H0]; cbn [orb].
  { apply nil_length_inv in H0. rewrite H0. set_solver. }
  assert (Hne : portsOf (TCPProbed core) ≠ []) by (intros H; by rewrite H in H0).
  destruct (Nat.eqb_spec (length vs) 0) as [Hv|Hv].
  { apply nil_length_inv in Hv. subst vs. set_solver. }
  rewrite list_elem_of_In, in_flat_map. setoid_rewrite <- list_elem_of_In.
  setoid_rewrite list_elem_of_omap. unfold MayProbe. split.
  - intros (a & Ha & [v c] & [Hin ->]%elem_of_classed & Hj). split; [done|]. exists a, v.
    unfold address_realm. destruct (ProbeRealm _ _ _) as [scope []]; cbn in Hj; [|done]. by injection Hj as <-.
  - intros [_ (a & v & Ha & Hin & Hm & ->)]. exists a. split; [done|].
    exists (v, vantage_class e v). split; [by apply elem_of_classed|]. unfold address_realm.
    destruct (ProbeRealm _ _ _) as [scope []]; [done|discriminate Hm].
Qed.

Lemma sensitive_edits l edits : sensitive (WithFrequencyEdits l edits) = sensitive l.
Proof.
  unfold WithFrequencyEdits. induction edits as [|e edits IH] using rev_ind; [done|].
  rewrite foldl_app. cbn [foldl]. by rewrite (proj1 (edit_step_spec _ e (VergeCore.mkPair 0 ""))).
Qed.

(** The shipped list, which parses and whose sensitive half holds a TCP port. *)
Lemma hotCore_probes edits : ∃ core, hotCore edits = Some core ∧ portsOf (TCPProbed core) ≠ [].
Proof.
  unfold hotCore. destruct VergeCore.Default as [l|] eqn:Hl.
  - cbn [mbind option_bind]. eexists. split; [done|].
    assert (Hs : VergeCore.mkPair 21 VergeCore.TCP ∈ sensitive l).
    { assert (H : (λ l, bool_decide (VergeCore.mkPair 21 VergeCore.TCP ∈ sensitive l)) <$> VergeCore.Default = Some true)
        by (vm_compute; reflexivity).
      rewrite Hl in H. cbn in H. injection H as H. by apply bool_decide_eq_true in H. }
    set (l' := WithFrequencyEdits l _). assert (Hp : VergeCore.mkPair 21 VergeCore.TCP ∈ TCPProbed l').
    { apply elem_of_TCPProbed. split; [done|]. right. unfold l'. by rewrite sensitive_edits. }
    unfold portsOf. intros H%map_eq_nil. rewrite H in Hp. by apply not_elem_of_nil in Hp.
  - exfalso. assert (H : bool_decide (is_Some VergeCore.Default) = true) by (vm_compute; reflexivity).
    rewrite Hl in H. discriminate H.
Qed.

Lemma scanVantages_ids vrows : map v_ID (scanVantages vrows) = map vr_ID vrows.
Proof. unfold scanVantages. by rewrite map_map. Qed.

Lemma same_vantage (vs : list Vantage) v w : NoDup (map v_ID vs) → v ∈ vs → w ∈ vs → v_ID v = v_ID w → v = w.
Proof. intros Hn Hv Hw Hi. by apply (NoDup_map_inj v_ID vs). Qed.

(** [C4] The hot scan asks for exactly what the gate admits.  A dispatch always
    has its port list, and its jobs name an address for a vantage when, and only
    when, the gate admits that address from the class the vantage's presented
    addresses give it: no admitted address is left out by the enumeration of the
    scopes or the skip of the excluded ones, and none is added.  Every job names
    one address and asks for the same non-empty list of TCP ports. *)
Theorem fanOutHot_is_the_gate scanID rows edits vrows :
  let e := (hotEstate rows).1 in
  Forall Prefix_valid (AddressScopes e) → NoDup (map vr_ID vrows) →
  ∃ jobs tcp, fanOutHot scanID rows edits vrows = Some jobs ∧ tcp ≠ [] ∧
    (∀ v a, v ∈ scanVantages vrows → plain_addr a →
      (∃ j, j ∈ jobs ∧ hj_VantageID j = v_ID v ∧ Addr_String a ∈ hj_Addresses j) ↔
      MayProbe e a (vantage_class e v) = true) ∧
    ∀ j, j ∈ jobs → hj_TCPPorts j = tcp ∧ ∃ a, plain_addr a ∧ hj_Addresses j = [Addr_String a].
Proof.
  intros e Hs Hn. destruct (hotCore_probes edits) as (core & Hcore & Hne).
  eexists. exists (portsOf (TCPProbed core)). split.
  { unfold fanOutHot. rewrite (surjective_pairing (hotEstate rows)), Hcore. reflexivity. }
  fold e. split; [done|]. split.
  - intros v a Hv Ha. pose proof Ha as (Hw & Hi & Hu). split.
    + intros (j & (_ & b & w & Hb & Hw' & Hm & ->)%elem_of_BuildHotJobs & Hid & Hin). cbn in Hid, Hin.
      apply candidates_plain in Hb as (Hbw & Hbi & Hbu); [|done].
      rewrite list_elem_of_singleton, Hbu in Hin. apply Addr_String_inj in Hin; [|done..]. subst b.
      rewrite <- scanVantages_ids in Hn. by rewrite (same_vantage _ v w Hn Hv Hw').
    + intros Hm. eexists. rewrite elem_of_BuildHotJobs. split; [split; [done|]; exists a, v; split_and!; [|done..]|].
      * by eapply candidates_complete.
      * cbn. rewrite Hu. split; [done|]. by apply list_elem_of_singleton.
  - intros j (_ & b & w & Hb & _ & _ & ->)%elem_of_BuildHotJobs. split; [done|].
    apply candidates_plain in Hb; [|done]. exists b. split; [done|]. cbn. by destruct Hb as (_ & _ & ->).
Qed.

Definition ex_rows : estate_rows :=
  mkEstateRows [Some (mkPrefix (Addr4 167772160) 30)] [Some "example.com"%string; None]
    [("www.example.com", "8.8.8.8"); ("mail.other.net", "9.9.9.9"); ("x.example.com", "bad")]%string
    EdgeFanoutZero [Some (mkPrefix (Addr4 167772161) 32)].

Definition ex_vrows : list vantage_row :=
  [mkVantageRow 1 "inside" "10.0.0.2" (Some "10.0.0.2"%string) None;
   mkVantageRow 2 "outside" "1.1.1.1" (Some "192.0.2.7"%string) None].

Lemma fanOutHot_is_the_gate_witness :
  Forall Prefix_valid (AddressScopes (hotEstate ex_rows).1) ∧ NoDup (map vr_ID ex_vrows) ∧
  ∃ jobs tcp, fanOutHot 7 ex_rows [] ex_vrows = Some jobs ∧ tcp ≠ [] ∧
    (∀ v a, v ∈ scanVantages ex_vrows → plain_addr a →
      (∃ j, j ∈ jobs ∧ hj_VantageID j = v_ID v ∧ Addr_String a ∈ hj_Addresses j) ↔
      MayProbe (hotEstate ex_rows).1 a (vantage_class (hotEstate ex_rows).1 v) = true) ∧
    ∀ j, j ∈ jobs → hj_TCPPorts j = tcp ∧ ∃ a, plain_addr a ∧ hj_Addresses j = [Addr_String a].
Proof.
  assert (Hs : Forall Prefix_valid (AddressScopes (hotEstate ex_rows).1)).
  { constructor; [apply Prefix_check_valid; reflexivity|constructor]. }
  assert (Hn : NoDup (map vr_ID ex_vrows)) by (apply NoDup_ListNoDup; repeat constructor; cbn; intuition discriminate).
  split; [exact Hs|]. split; [exact Hn|]. exact (fanOutHot_is_the_gate 7 ex_rows [] ex_vrows Hs Hn).
Defined.

Example hot_ex : (λ js, map (λ j, (hj_VantageID j, hj_VantageClass j, hj_Addresses j, length (hj_TCPPorts j),
                                  scopes (hj_Realm j))) js) <$> fanOutHot 7 ex_rows [] ex_vrows =
  Some [(1, "internal", ["8.8.8.8"], 131%nat, []); (2, "internet", ["8.8.8.8"], 131%nat, []);
        (1, "internal", ["10.0.0.0"], 131%nat, [mkPrefix (Addr4 167772160) 30]);
        (1, "internal", ["10.0.0.2"], 131%nat, [mkPrefix (Addr4 167772160) 30]);
        (1, "internal", ["10.0.0.3"], 131%nat, [mkPrefix (Addr4 167772160) 30])]%string.
Proof. vm_compute. reflexivity. Qed.

(** ** The cold jobs *)

Lemma elem_of_BuildColdJobs scanID e addrs vs scope j :
  j ∈ BuildColdJobs scanID e addrs vs scope ↔
    ∃ a v, a ∈ addrs ∧ v ∈ vs ∧ ColdScope_contains scope a = true ∧
      MayProbe e a (vantage_class e v) = true ∧
      j = mkColdJob scanID (v_ID v) (v_Name v) (class_text (vantage_class e v)) connectoutcome_Kind
            [Addr_String (Unmap a)] coldTCPPorts DefaultProfile (address_realm e a (vantage_class e v)).
Proof.
  unfold BuildColdJobs. destruct (ColdScope_empty scope) eqn:He; cbn [orb].
  { split; [set_solver|]. intros (a & _ & _ & _ & Hc & _). exfalso. revert He Hc.
    unfold ColdScope_empty, ColdScope_contains. destruct scope as [[|p ps] addrs']; cbn; [|done].
    intros He%bool_decide_eq_true. rewrite orb_false_r, bool_decide_eq_true. set_solver. }
  destruct (Nat.eqb_spec (length vs) 0) as [Hv|Hv]; [apply nil_length_inv in Hv; subst vs; set_solver|].
  cbv zeta. rewrite list_elem_of_In, in_flat_map. setoid_rewrite <- list_elem_of_In. unfold MayProbe. split.
  - intros (a & Ha & Hj). destruct (ColdScope_contains scope a) eqn:Hc; cbn [negb] in Hj; [|set_solver].
    apply list_elem_of_omap in Hj as ([v c] & [Hin ->]%elem_of_classed & Hj). exists a, v.
    unfold address_realm. destruct (ProbeRealm _ _ _) as [s []]; cbn in Hj; [|done]. by injection Hj as <-.
  - intros (a & v & Ha & Hin & Hc & Hm & ->). exists a. split; [done|]. rewrite Hc. cbn [negb].
    apply list_elem_of_omap. exists (v, vantage_class e v). split; [by apply elem_of_classed|].
    unfold address_realm. destruct (ProbeRealm _ _ _) as [s []]; [done|discriminate Hm].
Qed.

Section Cold.
Variables (rows : estate_rows) (seeds : list seed_row).
Let e : Estate := (hotEstate rows).1.
Let scope : ColdScope := coldScope seeds (Resolutions e).
Let candidates : list Addr := candidateAddrs (hotEstate rows).2 (AddressPrefixes scope) (Some (AddressExcluded e)).
Hypothesis Hscopes : Forall Prefix_valid (AddressPrefixes scope).

Lemma cold_candidates_plain a : a ∈ candidates → plain_addr a.
Proof.
  intros [(r & Hr & <-)|(_ & p & b & Hp & Hb & <-)]%elem_of_candidateAddrs.
  - apply hotEstate_resolved in Hr as (r' & (Hw & Hn & Hu)%Resolutions_plain & <-). rewrite Hu. by split_and!.
  - rewrite Forall_forall in Hscopes. pose proof (enumerated_valid p b (Hscopes p Hp) Hb) as [? ?].
    by apply plain_addr_Unmap.
Qed.

(** An address of the opted-in scope that the gate admits is a candidate: an
    excluded one is admitted only because a name resolves to it. *)
Lemma cold_candidates_complete a vc :
  plain_addr a → ColdScope_contains scope a = true → MayProbe e a vc = true → a ∈ candidates.
Proof.
  intros (Hw & Hn & Hu) Hc Hm. apply elem_of_candidateAddrs. unfold ColdScope_contains in Hc.
  rewrite Hu in Hc. apply orb_true_iff in Hc as [Hc|Hc].
  - left. apply bool_decide_eq_true in Hc. unfold scope, coldScope in Hc. cbn [Addresses] in Hc.
    apply elem_of_list_to_set, list_elem_of_omap in Hc as (r & Hr & Hin).
    destruct (WithinAnyZone _ _); [|done]. injection Hin as <-. exists (Address r). split; [|done].
    apply hotEstate_resolved. by exists r.
  - apply existsb_bool in Hc as (p & Hp & Hc). destruct (AddressExcluded e a) eqn:Hx.
    + left. apply MayProbe_spec in Hm. cbv zeta in Hm. rewrite Hu in Hm.
      assert (Hnd : ¬ declared e a).
      { intros [_ Hd]. apply not_false_iff_true in Hx. apply Hx, AddressExcluded_false. by rewrite Hu. }
      assert (Hcit : ∃ name, cited e name a) by (destruct (IsNonGloballyReachable a); naive_solver).
      destruct Hcit as (n & (r & Hr & _ & Ha) & _). exists (Address r). split; [|done].
      apply hotEstate_resolved. by exists r.
    + right. split; [done|]. exists p, a. split_and!; [done| |done].
      rewrite Forall_forall in Hscopes. by apply elem_of_EnumerateAddresses; [apply Hscopes|].
Qed.
End Cold.

(** The cold scan runs only where it was asked for.  Its jobs name an
    address for a vantage when, and only when, the address lies in an opted-in
    address seed or is resolved to by a name inside an opted-in domain, and the
    gate admits it from that vantage's class: the opt-in neither widens the gate
    nor loses an address to the walk of the scopes, an excluded one included.
    Every job asks for all the ports from 1 to 65535 of one address. *)
Theorem fanOutCold_is_opted_in scanID rows seeds vrows :
  let e := (hotEstate rows).1 in
  let scope := coldScope seeds (Resolutions e) in
  let jobs := fanOutCold scanID rows seeds vrows in
  Forall Prefix_valid (AddressPrefixes scope) → NoDup (map vr_ID vrows) →
  (∀ v a, v ∈ scanVantages vrows → plain_addr a →
    (∃ j, j ∈ jobs ∧ cj_VantageID j = v_ID v ∧ Addr_String a ∈ cj_Addresses j) ↔
    ColdScope_contains scope a = true ∧ MayProbe e a (vantage_class e v) = true) ∧
  (∀ j, j ∈ jobs → (∀ p, p ∈ cj_TCPPorts j ↔ 1 ≤ p ≤ 65535) ∧
    ∃ a, plain_addr a ∧ cj_Addresses j = [Addr_String a]).
Proof.
  intros e scope jobs Hs Hn. unfold jobs, fanOutCold. rewrite (surjective_pairing (hotEstate rows)).
  cbv zeta. fold e. fold scope. split.
  - intros v a Hv Ha. pose proof Ha as (Hw & Hi & Hu). split.
    + intros (j & (b & w & Hb & Hw' & Hc & Hm & ->)%elem_of_BuildColdJobs & Hid & Hin). cbn in Hid, Hin.
      apply cold_candidates_plain in Hb as (Hbw & Hbi & Hbu); [|done].
      rewrite list_elem_of_singleton, Hbu in Hin. apply Addr_String_inj in Hin; [|done..]. subst b.
      rewrite <- scanVantages_ids in Hn. by rewrite (same_vantage _ v w Hn Hv Hw').
    + intros [Hc Hm]. eexists. rewrite elem_of_BuildColdJobs. split; [exists a, v; split_and!; [|done..]|].
      * by eapply cold_candidates_complete.
      * cbn. rewrite Hu. split; [done|]. by apply list_elem_of_singleton.
  - intros j (b & w & Hb & _ & _ & _ & ->)%elem_of_BuildColdJobs. split.
    + intros p. cbn [cj_TCPPorts]. unfold coldTCPPorts. rewrite elem_of_seqZ. unfold ColdPortLow, ColdPortHigh. lia.
    + apply cold_candidates_plain in Hb; [|done]. exists b. split; [done|]. cbn. by destruct Hb as (_ & _ & ->).
Qed.

Lemma fanOutCold_is_opted_in_witness :
  let seeds := [mkSeedRow "name" (Some "example.com"%string) None;
                mkSeedRow "address" None (Some (mkPrefix (Addr4 167772160) 30))] in
  let v := mkVantage 1 "inside" "10.0.0.2" "" "10.0.0.2" "" in
  let e := (hotEstate ex_rows).1 in
  (∃ j, j ∈ fanOutCold 7 ex_rows seeds ex_vrows ∧ cj_VantageID j = v_ID v ∧
        Addr_String (Addr4 167772160) ∈ cj_Addresses j) ∧
  ColdScope_contains (coldScope seeds (Resolutions e)) (Addr4 167772160) = true.
Proof.
  intros seeds v e.
  assert (Hs : Forall Prefix_valid (AddressPrefixes (coldScope seeds (Resolutions e)))).
  { constructor; [apply Prefix_check_valid; reflexivity|constructor]. }
  assert (Hn : NoDup (map vr_ID ex_vrows)) by (apply NoDup_ListNoDup; repeat constructor; cbn; intuition discriminate).
  destruct (fanOutCold_is_opted_in 7 ex_rows seeds ex_vrows Hs Hn) as [H _].
  assert (Hv : v ∈ scanVantages ex_vrows) by (left).
  assert (Ha : plain_addr (Addr4 167772160)) by (split; [split; [discriminate|reflexivity]|split; [discriminate|reflexivity]]).
  assert (Hc : ColdScope_contains (coldScope seeds (Resolutions e)) (Addr4 167772160) = true) by (vm_compute; reflexivity).
  split; [|exact Hc]. apply (H v _ Hv Ha). split; [exact Hc|vm_compute; reflexivity].
Defined.

(** ** The jobs over what was reached *)

(** What a service becomes in the jobs of a vantage: its own address re-admitted. *)
Definition passed (e : Estate) (v : Vantage) (s : ReachedService) : option (ReachedService * Prefix) :=
  if rs_VantageID s =? v_ID v then
    a ← ParseAddr (rs_Address s);
    let '(scope, ok) := ProbeRealm e a (vantage_class e v) in
    if ok then Some (s, scope) else None
  else None.

Definition union_realm (l : list Prefix) : Realm := foldl Realm_With (mkRealm []) l.

Lemma order_fold vs :
  NoDup (map v_ID vs) →
  (foldl order_step (∅, []) vs).2 = map v_ID vs ∧
  (∀ v, v ∈ vs → (foldl order_step (∅, []) vs).1 !! v_ID v = Some v) ∧
  (∀ id, id ∉ map v_ID vs → (foldl order_step (∅, []) vs).1 !! id = None).
Proof.
  induction vs as [|w vs IH] using rev_ind; [intros _; split_and!; [done|set_solver|done]|].
  rewrite map_app, foldl_app. intros (Hn & Hw & _)%NoDup_app. cbn [map] in Hw.
  destruct (IH Hn) as (Ho & Hby & Hnone). cbn [foldl map].
  destruct (foldl order_step (∅, []) vs) as [m o]. cbn [fst snd] in *. subst o. unfold order_step.
  assert (Hfresh : v_ID w ∉ map v_ID vs) by (intros Hin; apply (Hw _ Hin); by left).
  rewrite (Hnone _ Hfresh). cbn [fst snd]. split; [done|]. split.
  - intros v [Hv| ->%list_elem_of_singleton]%elem_of_app; [|by rewrite lookup_insert_eq].
    rewrite lookup_insert_ne; [by apply Hby|]. intros Heq. apply Hfresh. rewrite Heq. by apply list_elem_of_fmap_2.
  - intros id Hid. rewrite lookup_insert_ne; [apply Hnone; set_solver|]. set_solver.
Qed.

Lemma classes_fold e vs v :
  NoDup (map v_ID vs) → v ∈ vs → foldl (classes_step e) ∅ vs !! v_ID v = Some (vantage_class e v).
Proof.
  induction vs as [|w vs IH] using rev_ind; [set_solver|]. rewrite map_app, foldl_app.
  intros (Hn & Hw & _)%NoDup_app [Hv| ->%list_elem_of_singleton]%elem_of_app; cbn [foldl]; unfold classes_step.
  - rewrite lookup_insert_ne; [by apply IH|]. intros Heq. apply (Hw (v_ID v)); [by apply list_elem_of_fmap_2|].
    rewrite <- Heq. by left.
  - by rewrite lookup_insert_eq.
Qed.

Lemma omap_map_ext {A B C} (k : A → B) (f : B → option C) (g : A → option C) l :
  (∀ x, x ∈ l → f (k x) = g x) → omap f (map k l) = omap g l.
Proof.
  induction l as [|x l IH]; intros Hfg; [done|]. csimpl. rewrite Hfg by left.
  rewrite IH; [done|]. intros y Hy. apply Hfg. by right.
Qed.

Section Grouped_spec.
Context {T J : Type} (target : ReachedService → T) (job : Vantage → list T → Realm → J).
Variables (e : Estate) (vs : list Vantage).
Hypothesis Hn : NoDup (map v_ID vs).

Lemma group_fold services v :
  v ∈ vs →
  let byID := (foldl order_step (∅, []) vs).1 in
  let st := foldl (group_service target e byID (foldl (classes_step e) ∅ vs)) (∅, ∅) services in
  default [] (st.1 !! v_ID v) = map (λ sp, target sp.1) (omap (passed e v) services) ∧
  default (mkRealm []) (st.2 !! v_ID v) = union_realm (map snd (omap (passed e v) services)).
Proof.
  intros Hv. cbv zeta. destruct (order_fold vs Hn) as (_ & Hby & Hnone).
  induction services as [|s services IH] using rev_ind; [done|].
  rewrite foldl_app, omap_app, !map_app. cbn [foldl].
  set (st := foldl _ _ services) in *. destruct st as [grouped realms]. cbn [fst snd] in IH.
  destruct IH as [IHg IHr]. unfold group_service. cbn [omap list_omap]. unfold passed at 2 4.
  assert (Hunion : ∀ l p, union_realm (l ++ [p]) = Realm_With (union_realm l) p)
    by (intros; unfold union_realm; by rewrite foldl_app).
  destruct (Z.eqb_spec (rs_VantageID s) (v_ID v)) as [Hid|Hid].
  - rewrite Hid, (Hby v Hv), (classes_fold e vs v Hn Hv). cbn [default].
    destruct (ParseAddr (rs_Address s)) as [a|]; cbn [mbind option_bind]; [|by rewrite !app_nil_r].
    cbn [from_option id]. destruct (ProbeRealm e a (vantage_class e v)) as [scope []]; cbn [negb];
      [|by rewrite !app_nil_r].
    cbn [fst snd map]. rewrite !lookup_insert_eq, Hunion. cbn [from_option id]. by rewrite IHg, IHr.
  - cbn [map]. rewrite !app_nil_r.
    destruct ((foldl order_step (∅, []) vs).1 !! rs_VantageID s); [|done].
    destruct (ParseAddr (rs_Address s)) as [a|]; [|done].
    destruct (ProbeRealm e a _) as [scope []]; cbn [negb]; [|done]. cbn [fst snd].
    by rewrite !lookup_insert_ne.
Qed.

Lemma build_grouped_spec services :
  build_grouped target job e services vs =
    omap (λ v, let ps := omap (passed e v) services in
               if decide (ps = []) then None
               else Some (job v (map (λ sp, target sp.1) ps) (union_realm (map snd ps)))) vs.
Proof.
  unfold build_grouped. destruct (Nat.eqb_spec (length services) 0) as [Hs|Hs]; cbn [orb].
  { apply nil_length_inv in Hs. subst services. cbn. clear Hn. by induction vs. }
  destruct (Nat.eqb_spec (length vs) 0) as [Hv|Hv]; [apply nil_length_inv in Hv; by rewrite Hv|].
  destruct (order_fold vs Hn) as (Ho & Hby & _).
  pose proof (group_fold services) as Hg. cbv zeta in Hg.
  destruct (foldl order_step (∅, []) vs) as [byID order]. cbn [fst snd] in *. subst order.
  destruct (foldl (group_service _ _ _ _) _ services) as [grouped realms]. cbn [fst snd] in Hg.
  apply omap_map_ext. intros v Hv'. cbv zeta. destruct (Hg v Hv') as [-> ->].
  rewrite length_map, (Hby v Hv'). cbn [mbind option_bind].
  destruct (omap (passed e v) services); cbn; [by rewrite decide_True|by rewrite decide_False].
Qed.
End Grouped_spec.

(** ** Realms *)

Lemma union_Contains l b :
  Forall Prefix_wf l → Addr_wf b → Realm_Contains (union_realm l) b = existsb (λ p, Contains p (Unmap b)) l.
Proof.
  intros Hl Hb. unfold union_realm. induction l as [|s l IH] using rev_ind; [done|].
  apply Forall_app in Hl as [Hl [Hs _]%Forall_cons]. rewrite foldl_app, existsb_app. cbn [foldl existsb].
  by rewrite Realm_With_Contains, IH, orb_false_r.
Qed.

Lemma ProbeRealm_Unmap e a vc : ProbeRealm e (Unmap a) vc = ProbeRealm e a vc.
Proof. unfold ProbeRealm. by rewrite Unmap_idem. Qed.

(** What an admission says of the scope it names. *)
Lemma ProbeRealm_scope e a vc scope :
  ProbeRealm e a vc = (scope, true) →
  if IsNonGloballyReachable a
  then scope ∈ AddressScopes e ∧ Contains scope (Unmap a) = true ∧ vc ≠ ClassInternet
  else scope = PrefixZero.
Proof.
  unfold ProbeRealm. cbv zeta. rewrite IsNonGlobal_Unmap. destruct (bool_decide (Derive e _ = Operator)); cbn [negb]; [|done].
  destruct (IsNonGloballyReachable a); [|by intros [= <-]].
  destruct (coveringAddressScope_spec e (Unmap a) (Unmap_idem a)) as [(_ & p & -> & Hp & Hc)|[_ ->]]; cbn [negb]; [|done].
  unfold IsInternet. case_bool_decide; [done|]. by intros [= <-].
Qed.

(** A job's targets and the realm it is sent with, at the prober: the realm read
    back from the wire lets every target through on any port, it lets nothing
    non-globally-reachable through that no declared scope holds, and a job of an
    internet vantage lets nothing of the kind through at all. *)
Definition stays_in_realm (e : Estate) (vc : VantageClass) (realm : Realm) (targets : list string) : Prop :=
  let sent := ParseRealm (CIDRs realm) in
  (∀ t, t ∈ targets → ∃ a, ParseAddr t = Some a ∧ MayProbe e a vc = true ∧
    (hasZone (Unmap a) = false → ∀ p, 0 ≤ p < 2 ^ 16 →
     EgressGuard sent (AddrPort_String (mkAddrPort (Unmap a) p)) = None)) ∧
  (∀ a p, plain_addr a → hasZone a = false → 0 ≤ p < 2 ^ 16 → IsNonGloballyReachable a = true →
    EgressGuard sent (AddrPort_String (mkAddrPort a p)) = None →
    vc ≠ ClassInternet ∧ ∃ q, q ∈ AddressScopes e ∧ Contains q a = true).

Lemma union_stays e vc (ts : list (string * Prefix)) :
  Forall Prefix_valid (AddressScopes e) →
  (∀ t scope, (t, scope) ∈ ts → ∃ a, ParseAddr t = Some a ∧ ProbeRealm e a vc = (scope, true)) →
  stays_in_realm e vc (union_realm (map snd ts)) (map fst ts).
Proof.
  intros Hs Hts. rewrite Forall_forall in Hs. unfold stays_in_realm.
  assert (Hwf : Forall Prefix_wf (map snd ts)).
  { apply Forall_forall. intros s (ts' & -> & Hin)%list_elem_of_fmap. destruct ts' as [t s].
    destruct (Hts t s Hin) as (a & _ & Hp%ProbeRealm_scope). cbn [snd].
    destruct (IsNonGloballyReachable a); [destruct Hp as [Hsc _]; by destruct (Hs _ Hsc)|subst s].
    split; [done|]. split; [cbn; lia|done]. }
  cbv zeta. rewrite ParseRealm_CIDRs by by apply union_wf. split.
  - intros t ([t' s] & -> & Hin)%list_elem_of_fmap. destruct (Hts t' s Hin) as (a & Ha & Hp). exists a.
    split; [done|]. split; [unfold MayProbe; by rewrite Hp|]. intros Hz p Hport.
    apply ParseAddr_wf in Ha as [Hw Hn]. pose proof (plain_addr_Unmap a Hw Hn) as (Hw' & Hn' & Hu).
    rewrite EgressGuard_String, IsNonGlobal_Unmap by done. pose proof (ProbeRealm_scope _ _ _ _ Hp) as Hsc.
    destruct (IsNonGloballyReachable a); [|done]. destruct Hsc as (_ & Hc & _). rewrite union_Contains, Hu by done.
    assert (existsb (λ p, Contains p (Unmap a)) (map snd ts) = true) as ->; [|done].
    apply existsb_bool. exists s. split; [|done]. by apply (list_elem_of_fmap_2 snd ts (t', s)).
  - intros a p (Hw & Hn & Hu) Hz Hport Hg. rewrite EgressGuard_String, Hg by done. cbn [andb].
    destruct (Realm_Contains _ a) eqn:Hc; [|done]. intros _. rewrite union_Contains, Hu in Hc by done.
    apply existsb_bool in Hc as (q & ([t s] & -> & Hin)%list_elem_of_fmap & Hc).
    destruct (Hts t s Hin) as (b & _ & Hp%ProbeRealm_scope). cbn [snd] in *.
    destruct (IsNonGloballyReachable b); [|by rewrite Hp in Hc]. destruct Hp as (Hsc & _ & Hvc). eauto.
Qed.

Lemma address_stays e vc a :
  Forall Prefix_valid (AddressScopes e) → plain_addr a → MayProbe e a vc = true →
  stays_in_realm e vc (address_realm e a vc) [Addr_String (Unmap a)].
Proof.
  intros Hs (Hw & Hn & Hu) Hm.
  apply (union_stays e vc [(Addr_String (Unmap a), (ProbeRealm e a vc).1)] Hs).
  intros t s [= -> ->]%list_elem_of_singleton. exists a. rewrite Hu, ParseAddr_String by done. split; [done|].
  unfold MayProbe in Hm. by rewrite <- Hm, <- surjective_pairing.
Qed.

(** The jobs over reached services, of either scan. *)
Lemma grouped_stays {T J} (target : ReachedService → T) (text : T → string) (job : Vantage → list T → Realm → J)
    (id : J → Z) (ts : J → list T) (realm : J → Realm) e vs services j :
  (∀ s, text (target s) = rs_Address s) → (∀ v l r, id (job v l r) = v_ID v ∧ ts (job v l r) = l ∧ realm (job v l r) = r) →
  Forall Prefix_valid (AddressScopes e) → NoDup (map v_ID vs) →
  j ∈ build_grouped target job e services vs →
  ∃ v, v ∈ vs ∧ v_ID v = id j ∧ stays_in_realm e (vantage_class e v) (realm j) (map text (ts j)).
Proof.
  intros Ht Hj Hs Hn. rewrite build_grouped_spec by done. intros (v & Hv & Hin)%list_elem_of_omap. cbv zeta in Hin.
  case_decide; [done|]. injection Hin as <-. exists v. destruct (Hj v (map (λ sp, target sp.1) (omap (passed e v) services))
    (union_realm (map snd (omap (passed e v) services)))) as (-> & -> & ->). split; [done|]. split; [done|].
  rewrite map_map. set (ps := omap (passed e v) services).
  assert (map snd ps = map snd (map (λ sp, (rs_Address sp.1, sp.2)) ps)) as -> by (by rewrite map_map).
  assert (map (λ x, text (target x.1)) ps = map fst (map (λ sp, (rs_Address sp.1, sp.2)) ps)) as ->.
  { rewrite map_map. apply map_ext. intros x. cbn. apply Ht. }
  apply union_stays; [done|]. intros t s ([s' p] & [= -> ->] & Hin)%list_elem_of_fmap. cbn [fst snd].
  apply list_elem_of_omap in Hin as (x & _ & Hx). unfold passed in Hx. destruct (_ =? _); [|done].
  destruct (ParseAddr (rs_Address x)) as [a|] eqn:Ha; [|done]. cbn in Hx.
  destruct (ProbeRealm e a _) as [scope []] eqn:Hp; [|done]. injection Hx as <- <-. eauto.
Qed.

(** [C5] From dispatch to dial, for the four scans whose jobs carry a realm to a
    guarded prober (hot, cold, TLS acceptance, HTTP identity).  The prober's
    guard, reading the realm back from the wire, lets every target of the job
    through, the gate having admitted each from the vantage's class; and beyond
    the globally reachable it lets through only what a declared scope holds, and
    nothing when the vantage is an internet one.  The jobs of the shared-edge
    scan carry no realm and their leaf has no guard: nothing is said of them. *)
Theorem jobs_stay_in_their_realm scanID rows edits seeds reached vrows :
  let e := (hotEstate rows).1 in
  let fits {J} (id : J → Z) (realm : J → Realm) (targets : J → list string) (j : J) :=
    ∃ v, v ∈ scanVantages vrows ∧ v_ID v = id j ∧ stays_in_realm e (vantage_class e v) (realm j) (targets j) in
  Forall Prefix_valid (AddressScopes e) →
  Forall Prefix_valid (AddressPrefixes (coldScope seeds (Resolutions e))) →
  NoDup (map vr_ID vrows) →
  (∀ jobs, fanOutHot scanID rows edits vrows = Some jobs →
     Forall (fits hj_VantageID hj_Realm hj_Addresses) jobs) ∧
  Forall (fits cj_VantageID cj_Realm cj_Addresses) (fanOutCold scanID rows seeds vrows) ∧
  Forall (fits tj_VantageID tj_Realm (λ j, map st_Address (tj_Services j)))
    (fanOutTLSAcceptance scanID rows reached vrows) ∧
  Forall (fits ij_VantageID ij_Realm (λ j, map tg_Address (ij_Targets j)))
    (fanOutHTTPIdentity scanID rows reached vrows).
Proof.
  intros e fits Hs Hc Hn. assert (Hn' : NoDup (map v_ID (scanVantages vrows))) by (by rewrite scanVantages_ids).
  split_and!.
  - intros jobs Hjobs. apply Forall_forall. intros j Hj. destruct (hotCore_probes edits) as (core & Hcore & _).
    unfold fanOutHot in Hjobs. rewrite (surjective_pairing (hotEstate rows)), Hcore in Hjobs. injection Hjobs as <-.
    apply elem_of_BuildHotJobs in Hj as (_ & a & v & Ha & Hv & Hm & ->). exists v. split; [done|]. split; [done|].
    apply address_stays; [done|by apply candidates_plain in Ha|done].
  - apply Forall_forall. intros j Hj. unfold fanOutCold in Hj. rewrite (surjective_pairing (hotEstate rows)) in Hj.
    apply elem_of_BuildColdJobs in Hj as (a & v & Ha & Hv & _ & Hm & ->). exists v. split; [done|]. split; [done|].
    apply address_stays; [done|by apply cold_candidates_plain in Ha|done].
  - apply Forall_forall. intros j Hj. unfold fanOutTLSAcceptance, BuildTLSAcceptanceJobs in Hj.
    rewrite (surjective_pairing (hotEstate rows)) in Hj. by eapply (grouped_stays _ st_Address _ tj_VantageID tj_Services tj_Realm) in Hj.
  - apply Forall_forall. intros j Hj. unfold fanOutHTTPIdentity, BuildHTTPIdentityJobs in Hj.
    rewrite (surjective_pairing (hotEstate rows)) in Hj. by eapply (grouped_stays _ tg_Address _ ij_VantageID ij_Targets ij_Realm) in Hj.
Qed.

Definition ex_reached : list (string * option Z) :=
  [("10.0.0.2:443/tcp", Some 1); ("10.0.0.1:80/tcp", Some 1); ("10.0.0.2:8443/tcp", Some 2); ("8.8.8.8:80/tcp", Some 2);
   ("9.9.9.9:80/tcp", Some 2); ("10.0.0.2:53/udp", Some 1); ("10.0.0.3:25/tcp", None)]%string.

Lemma jobs_stay_in_their_realm_witness :
  let e := (hotEstate ex_rows).1 in
  Forall (λ j, ∃ v, v ∈ scanVantages ex_vrows ∧ v_ID v = tj_VantageID j ∧
            stays_in_realm e (vantage_class e v) (tj_Realm j) (map st_Address (tj_Services j)))
    (fanOutTLSAcceptance 7 ex_rows ex_reached ex_vrows).
Proof.
  intros e.
  assert (Hs : Forall Prefix_valid (AddressScopes e)) by (constructor; [apply Prefix_check_valid; reflexivity|constructor]).
  assert (Hn : NoDup (map vr_ID ex_vrows)) by (apply NoDup_ListNoDup; repeat constructor; cbn; intuition discriminate).
  assert (Hc : Forall Prefix_valid (AddressPrefixes (coldScope [] (Resolutions e)))) by (constructor).
  destruct (jobs_stay_in_their_realm 7 ex_rows [] [] ex_reached ex_vrows Hs Hc Hn) as (_ & _ & H & _). exact H.
Defined.

Example reached_ex :
  map (λ j, (tj_VantageID j, tj_VantageClass j, map (λ t, (st_Address t, st_Port t)) (tj_Services j), CIDRs (tj_Realm j)))
    (fanOutTLSAcceptance 7 ex_rows ex_reached ex_vrows) =
  [(1, "", [("10.0.0.2", 443)], ["10.0.0.0/30"]); (2, "", [("8.8.8.8", 80)], [])]%string ∧
  map (λ j, map (λ t, (tg_Address t, tg_Scheme t)) (ij_Targets j)) (fanOutHTTPIdentity 7 ex_rows ex_reached ex_vrows) =
  [[("10.0.0.2", "https")]; [("8.8.8.8", "http")]]%string.
Proof. vm_compute. auto. Qed.

(** One job a vantage, in the order of the vantages, for the scans over what
    was reached: its targets are exactly the services that vantage reached whose
    address parses and which the gate still admits from the vantage's class, in
    the order they were read, whatever vantage the services in between belong
    to; a vantage left with none gets no job. *)
Theorem reached_jobs_per_vantage scanID e services vs :
  NoDup (map v_ID vs) →
  let job {T J} (target : ReachedService → T) (make : Vantage → list T → Realm → J) (v : Vantage) :=
    let ps := omap (passed e v) services in
    if decide (ps = []) then None
    else Some (make v (map (λ sp, target sp.1) ps) (foldl Realm_With (mkRealm []) (map snd ps))) in
  BuildTLSAcceptanceJobs scanID e services vs =
    omap (job (λ s, mkServiceTarget (rs_Address s) (rs_Port s))
              (λ v ts r, mkTLSJob scanID (v_ID v) (v_Name v) (v_Class v) tlsacceptance_Kind ts DefaultCandidateSet r)) vs ∧
  BuildHTTPIdentityJobs scanID e services vs =
    omap (job (λ s, mkTarget "" (rs_Address s) (rs_Port s) (schemeForPort (rs_Port s)))
              (λ v ts r, mkHTTPJob scanID (v_ID v) (v_Name v) (v_Class v) httpexchange_Kind ts DefaultParams r)) vs.
Proof.
  intros Hn job. unfold BuildTLSAcceptanceJobs, BuildHTTPIdentityJobs. by rewrite !build_grouped_spec.
Qed.

Lemma reached_jobs_per_vantage_witness :
  NoDup (map v_ID (scanVantages ex_vrows)) ∧
  length (BuildTLSAcceptanceJobs 7 (hotEstate ex_rows).1 (reachedServices ex_reached) (scanVantages ex_vrows)) = 2%nat.
Proof.
  assert (Hn : NoDup (map v_ID (scanVantages ex_vrows)))
    by (apply NoDup_ListNoDup; repeat constructor; cbn; intuition discriminate).
  split; [exact Hn|]. destruct (reached_jobs_per_vantage 7 (hotEstate ex_rows).1 (reachedServices ex_reached) _ Hn) as [-> _].
  vm_compute. reflexivity.
Defined.

(** ** Chunks *)

Definition job_texts (js : list EdgeFanoutJob) : list string := flat_map ej_Addresses js.

Lemma chunk_fold scanID population :
  let st := foldl (chunk_step scanID) (0, [], []) population in
  job_texts st.2 ++ st.1.2 = map (λ a, Addr_String (Unmap a)) population ∧
  (length st.1.2 < 50)%nat ∧ Forall (λ j, length (ej_Addresses j) = 50%nat ∧ ej_ScanID j = scanID) st.2 ∧
  map ej_Chunk st.2 = seqZ 0 (Z.of_nat (length st.2)) ∧ st.1.1 = Z.of_nat (length st.2).
Proof.
  induction population as [|a l IH] using rev_ind.
  { split_and!; [done|cbn; lia|constructor|done|done]. }
  cbv zeta. rewrite foldl_app, map_app. cbn [foldl map]. cbv zeta in IH.
  destruct (foldl (chunk_step scanID) (0, [], []) l) as [[chunk addrs] out]. cbn [fst snd] in IH |- *.
  destruct IH as (Ht & Hl & Hf & Hc & ->). unfold chunk_step. rewrite length_app. cbn [length].
  unfold EdgeFanoutAddressesPerJob. destruct (Nat.ltb_spec (length addrs + 1) 50) as [Hlt|Hge]; cbn [fst snd].
  - split_and!; [by rewrite app_assoc, Ht|by rewrite length_app|done..].
  - split_and!.
    + rewrite app_nil_r. unfold job_texts in *. rewrite flat_map_app. cbn [flat_map ej_Addresses].
      by rewrite app_nil_r, app_assoc, Ht.
    + cbn. lia.
    + apply Forall_app. split; [done|]. constructor; [|constructor]. cbn [ej_Addresses ej_ScanID].
      rewrite length_app. cbn [length]. split; [lia|done].
    + rewrite map_app, Hc, length_app. cbn [length map ej_Chunk].
      rewrite Nat2Z.inj_add, seqZ_app by lia. by rewrite Z.add_0_l.
    + rewrite length_app. cbn [length]. lia.
Qed.

(** The fan-out scan's chunks are the population: their texts, chunk after
    chunk, are the population's in order, none lost and none doubled; they are
    numbered from zero without a gap; none is empty and every one but the last
    holds fifty addresses. *)
Theorem BuildEdgeFanoutJobs_chunks scanID population :
  let jobs := BuildEdgeFanoutJobs scanID population in
  job_texts jobs = map (λ a, Addr_String (Unmap a)) population ∧
  map ej_Chunk jobs = seqZ 0 (Z.of_nat (length jobs)) ∧
  Forall (λ j, (0 < length (ej_Addresses j) ≤ 50)%nat ∧ ej_ScanID j = scanID) jobs ∧
  ∀ i j, jobs !! i = Some j → (S i < length jobs)%nat → length (ej_Addresses j) = 50%nat.
Proof.
  cbv zeta. pose proof (chunk_fold scanID population) as H. cbv zeta in H. unfold BuildEdgeFanoutJobs.
  destruct (foldl (chunk_step scanID) (0, [], []) population) as [[chunk addrs] out]. cbn [fst snd] in H.
  destruct H as (Ht & Hl & Hf & Hc & ->). rewrite Forall_forall in Hf.
  destruct (Nat.ltb_spec 0 (length addrs)) as [Hpos|Hz].
  - split; [|split; [|split]].
    + unfold job_texts in *. rewrite flat_map_app. cbn [flat_map ej_Addresses]. by rewrite app_nil_r.
    + rewrite map_app, Hc, length_app. cbn [length map ej_Chunk].
      rewrite Nat2Z.inj_add, seqZ_app by lia. by rewrite Z.add_0_l.
    + apply Forall_app. split; [apply Forall_forall; intros j Hj; destruct (Hf j Hj) as [-> ->]; lia|].
      constructor; [|constructor]. cbn [ej_Addresses ej_ScanID]. split; [lia|done].
    + intros i j Hi Hlt. rewrite length_app in Hlt. cbn [length] in Hlt.
      rewrite lookup_app_l in Hi by lia. apply list_elem_of_lookup_2 in Hi. by destruct (Hf j Hi).
  - assert (addrs = []) as -> by (apply nil_length_inv; lia). rewrite app_nil_r in Ht.
    split; [done|]. split; [done|]. split.
    + apply Forall_forall. intros j Hj. destruct (Hf j Hj) as [-> ->]. split; [lia|done].
    + intros i j Hi _. apply list_elem_of_lookup_2 in Hi. by destruct (Hf j Hi).
Qed.

(** ** The DNS jobs *)

Lemma admitted_fold seeds admitted :
  let st := foldl admitted_step (list_to_set (map resolutionNameKey seeds), seeds) admitted in
  ∃ extra, st.2 = seeds ++ extra ∧ st.1 = list_to_set (map resolutionNameKey st.2) ∧
    extra `sublist_of` admitted ∧ NoDup (map resolutionNameKey extra) ∧
    (∀ n, n ∈ extra → resolutionNameKey n ≠ "" ∧ resolutionNameKey n ∉ map resolutionNameKey seeds) ∧
    (∀ n, n ∈ admitted → resolutionNameKey n ≠ "" → resolutionNameKey n ∈ map resolutionNameKey st.2).
Proof.
  induction admitted as [|n l IH] using rev_ind.
  { exists []. cbn. rewrite app_nil_r. split_and!; [done|done|done|constructor|set_solver|set_solver]. }
  cbv zeta. rewrite foldl_app. cbn [foldl]. cbv zeta in IH.
  destruct (foldl admitted_step _ l) as [seen out]. cbn [fst snd] in IH |- *.
  destruct IH as (extra & -> & -> & Hsub & Hnd & Hex & Hall). unfold admitted_step.
  assert (Hold : ∀ m, m ∈ l ++ [n] → m ≠ n → resolutionNameKey m ≠ "" →
    resolutionNameKey m ∈ map resolutionNameKey (seeds ++ extra)).
  { intros m [Hm|Hm%list_elem_of_singleton]%elem_of_app Hne Hk; [by apply Hall|done]. }
  destruct (String.eqb_spec (resolutionNameKey n) "") as [He|He];
    [|case_bool_decide as Hin; [rewrite elem_of_list_to_set in Hin|]]; cbn [fst snd].
  - exists extra. split_and!; [done|done|by apply sublist_inserts_r|done|done|].
    intros m Hm Hk. apply Hold; [done| |done]. intros ->. done.
  - exists extra. split_and!; [done|done|by apply sublist_inserts_r|done|done|].
    intros m Hm Hk. destruct (decide (m = n)) as [->|]; [done|by apply Hold].
  - rewrite elem_of_list_to_set, map_app, elem_of_app in Hin. exists (extra ++ [n]). split_and!.
    + by rewrite app_assoc.
    + rewrite (map_app _ (seeds ++ extra)), list_to_set_app_L. cbn. set_solver.
    + by apply sublist_app.
    + rewrite map_app. apply NoDup_app. split; [done|split; [|apply NoDup_singleton]].
      intros k Hk ->%list_elem_of_singleton. by apply Hin; right.
    + intros m [Hm| ->%list_elem_of_singleton]%elem_of_app; [by apply Hex|]. split; [done|]. intros Hk. by apply Hin; left.
    + intros m Hm Hk. rewrite map_app, elem_of_app. cbn [map].
      destruct (decide (m = n)) as [->|]; [right; by left|left; by apply Hold].
Qed.

(** The names the resolution walk is sent: every declared domain, as it
    stands and first, then the admitted names in their order, each canonical key
    once and none that a declared domain already has; no admitted name is lost,
    save one whose key is empty. *)
Theorem mergeResolutionNames_spec seeds admitted :
  let names := mergeResolutionNames seeds admitted in
  ∃ extra, names = seeds ++ extra ∧ extra `sublist_of` admitted ∧ NoDup (map resolutionNameKey extra) ∧
    (∀ n, n ∈ extra → resolutionNameKey n ≠ "" ∧ resolutionNameKey n ∉ map resolutionNameKey seeds) ∧
    (∀ n, n ∈ admitted → resolutionNameKey n ≠ "" → resolutionNameKey n ∈ map resolutionNameKey names).
Proof.
  destruct (admitted_fold seeds admitted) as (extra & Hn & _ & H). exists extra. split; [exact Hn|]. exact H.
Qed.

Lemma resolver_of vrows r : NoDup (map vr_ID vrows) → r ∈ vrows → resolver vrows (vr_ID r) = vr_Resolver r.
Proof.
  unfold resolver. induction vrows as [|x l IH]; [set_solver|]. intros Hn Hr. cbn [map] in Hn.
  apply NoDup_cons in Hn as [Hx Hn]. cbn [List.find].
  apply elem_of_cons in Hr as [->|Hr]; [by rewrite Z.eqb_refl|].
  destruct (Z.eqb_spec (vr_ID x) (vr_ID r)) as [He|_]; [|by apply IH].
  exfalso. apply Hx. rewrite He. by apply list_elem_of_fmap_2.
Qed.

Definition dns_job (scanID : Z) (names seeds : list string) (r : vantage_row) : Job :=
  mkJob scanID (vr_ID r) (vr_Name r) resolutionwalk_Kind names DefaultOffers (vr_Resolver r) seeds.

Lemma dns_step_eq insert d j :
  dns_step (enqueueJob insert) d j =
    if String.eqb (j_resolver j) "" then Some d else if insert j then Some (d ++ [j]) else None.
Proof. unfold dns_step, enqueueJob. destruct (String.eqb _ _); [done|]. by destruct (insert j). Qed.

Lemma dispatch_from insert (l : list Job) (done_ : list Job) :
  let configured := filter (λ j, j_resolver j ≠ "") l in
  for_range (dns_step (enqueueJob insert)) l done_ =
    if forallb insert configured then Some (done_ ++ configured) else None.
Proof.
  cbv zeta. revert done_. induction l as [|j l IH]; intros done_; [cbn; by rewrite app_nil_r|].
  rewrite for_range_cons, filter_cons, dns_step_eq.
  destruct (String.eqb_spec (j_resolver j) "") as [He|He].
  - rewrite decide_False by (by intros []). apply IH.
  - rewrite decide_True by done. cbn [forallb]. destruct (insert j); cbn [mbind option_bind andb]; [|done].
    rewrite IH. by rewrite <- app_assoc.
Qed.

(** One unconfigured position stops no configured one.  The jobs of a DNS
    dispatch are one for each vantage that has a resolver, in the order of the
    vantages, each with that resolver, every name and the declared domains;
    vantages without one are passed over, and the dispatch fails only when a row
    of one of those jobs cannot be written. *)
Theorem fanOutDNS_past_unconfigured scanID insert seedRows admitted vrows :
  NoDup (map vr_ID vrows) →
  let seeds := omap id seedRows in
  let names := mergeResolutionNames seeds admitted in
  let jobs := if decide (names = []) then []
              else map (dns_job scanID names seeds) (filter (λ r, vr_Resolver r ≠ "") vrows) in
  fanOutDNS scanID insert seedRows admitted vrows = if forallb insert jobs then Some jobs else None.
Proof.
  intros Hn seeds names jobs. unfold fanOutDNS, dispatchDNSJobs. fold seeds. fold names.
  rewrite dispatch_from. cbn [app].
  assert (Hjobs : filter (λ j, j_resolver j ≠ "")
    (map (λ j, WithSeeds (WithResolver j (resolver vrows (j_VantageID j))) seeds)
         (BuildDNSJobs scanID names (scanVantages vrows))) = jobs); [|by rewrite Hjobs].
  unfold jobs, BuildDNSJobs. case_decide as Hne; [by rewrite Hne|].
  destruct (Nat.eqb_spec (length names) 0) as [H0|_]; [by apply nil_length_inv in H0|]. cbn [orb].
  destruct (Nat.eqb_spec (length (scanVantages vrows)) 0) as [H0|_].
  { unfold scanVantages in H0. rewrite length_map in H0. by apply nil_length_inv in H0 as ->. }
  unfold scanVantages. rewrite !map_map. cbn [v_ID v_Name].
  rewrite (map_ext_in _ (dns_job scanID names seeds)).
  - clear. induction vrows as [|r l IH]; [done|]. cbn [map]. rewrite !filter_cons.
    cbn [dns_job j_resolver]. rewrite IH. by case_decide.
  - intros r Hr%list_elem_of_In. unfold dns_job, WithSeeds, WithResolver. cbn. by rewrite resolver_of.
Qed.

Lemma fanOutDNS_past_unconfigured_witness :
  let vrows := [mkVantageRow 1 "a" "10.0.0.2" None None; mkVantageRow 2 "b" "" None None] in
  (λ js, map (λ j, (j_VantageID j, j_Names j, ds_ControlProbePopulation (AttemptedScope j))) js) <$>
    fanOutDNS 3 (λ _, true) [Some "example.com"%string; None] ["www.Example.com"; "EXAMPLE.com."; " "]%string vrows =
  Some [(1, ["example.com"; "www.Example.com"], ["example.com"])]%string.
Proof.
  intros vrows. assert (Hn : NoDup (map vr_ID vrows)) by (apply NoDup_ListNoDup; repeat constructor; cbn; intuition discriminate).
  rewrite (fanOutDNS_past_unconfigured 3 (λ _, true) [Some "example.com"%string; None] ["www.Example.com"; "EXAMPLE.com."; " "]%string vrows Hn).
  vm_compute. reflexivity.
Defined.
