(* ===== verification/Pacing.v ===== *)
(** * Pacing
    [measure/connectoutcome/safety.go]: how fast one prober may connect.  A rate a
    host is halved by what the host complains of, a pacer hands out the instants
    of the connects, and the targets are taken a host at a time. *)

From S2P Require Import Prelude GoTime NetIP NetText Dispatch.

(** ** Backing off *)

Inductive Stress := StressTimeout | StressRSTSpike | Stress429 | Stress503 | StressOther (text : string).

Definition enabledIn (s : Stress) (p : BackoffPolicy) : bool :=
  match s with
  | StressTimeout => HalveOnTimeout p
  | StressRSTSpike => HalveOnRSTSpike p
  | Stress429 => HalveOn429 p
  | Stress503 => HalveOn503 p
  | StressOther _ => false
  end.

Record Backoff := mkBackoffState { bo_base : Z; bo_halvings : Z; bo_policy : BackoffPolicy }.

Definition NewBackoff (profile : SafetyProfile) : Backoff :=
  mkBackoffState (if PerHostConnPerSec profile <? 1 then 1 else PerHostConnPerSec profile) 0 (AdaptiveBackoff profile).

Definition Rate (b : Backoff) : Z :=
  let r := Z.shiftr (bo_base b) (bo_halvings b) in if r <? 1 then 1 else r.

Definition Backoff_Signal (cause : Stress) (b : Backoff) : Backoff :=
  if negb (enabledIn cause (bo_policy b)) then b
  else if 1 <? Rate b then mkBackoffState (bo_base b) (bo_halvings b + 1) (bo_policy b)
  else b.

Definition Interval (b : Backoff) : Z := Second ÷ Rate b.

(** ** The pacer *)

Record Pacer := mkPacer {
  pc_aggregateInterval : Z;
  pc_lastAggregate : Z;
  pc_lastHost : gmap Addr Z;
  pc_backoff : gmap Addr Backoff;
  pc_profile : SafetyProfile
}.

Definition NewPacer (profile : SafetyProfile) : Pacer :=
  let cps := if PerVantageConnPerSec profile <? 1 then 1 else PerVantageConnPerSec profile in
  mkPacer (Second ÷ cps) zeroTime ∅ ∅ profile.

(** The backoff of a host, made where there is none. *)
Definition backoffFor (host : Addr) (p : Pacer) : Backoff * Pacer :=
  match pc_backoff p !! host with
  | Some b => (b, p)
  | None =>
      let b := NewBackoff (pc_profile p) in
      (b, mkPacer (pc_aggregateInterval p) (pc_lastAggregate p) (pc_lastHost p) (<[host := b]> (pc_backoff p)) (pc_profile p))
  end.

Definition Pacer_Signal (host : Addr) (cause : Stress) (p : Pacer) : Pacer :=
  let '(b, p) := backoffFor host p in
  mkPacer (pc_aggregateInterval p) (pc_lastAggregate p) (pc_lastHost p)
    (<[host := Backoff_Signal cause b]> (pc_backoff p)) (pc_profile p).

Definition later (t u : Z) : Z := if After t u then t else u.

(** The instant a host may be connected to, and the pacer that remembers it. *)
Definition Next (host : Addr) (now : Z) (p : Pacer) : Z * Pacer :=
  let earliest := now in
  let earliest :=
    if negb (IsZero (pc_lastAggregate p))
    then later (TimeAdd (pc_lastAggregate p) (pc_aggregateInterval p)) earliest else earliest in
  let '(earliest, p) :=
    match pc_lastHost p !! host with
    | Some last => let '(b, p) := backoffFor host p in (later (TimeAdd last (Interval b)) earliest, p)
    | None => (earliest, p)
    end in
  (earliest,
   mkPacer (pc_aggregateInterval p) earliest (<[host := earliest]> (pc_lastHost p)) (pc_backoff p) (pc_profile p)).

(** ** A host at a time *)

Definition host_step (st : gmap Addr (list AddrPort) * list Addr) (t : AddrPort) : gmap Addr (list AddrPort) * list Addr :=
  let '(byHost, hosts) := st in
  let h := ap_Addr t in
  (<[h := default [] (byHost !! h) ++ [t]]> byHost,
   match byHost !! h with None => hosts ++ [h] | Some _ => hosts end).

Definition port_less (a b : AddrPort) : bool := ap_Port a <? ap_Port b.

(** The targets of one round: of every host the one its turn has come to. *)
Definition rr_round (ports : Addr → list AddrPort) (hosts : list Addr) (round : nat) : list AddrPort :=
  omap (λ h, ports h !! round) hosts.

Fixpoint rr_loop (fuel : nat) (ports : Addr → list AddrPort) (hosts : list Addr) (total round : nat)
    (out : list AddrPort) : option (list AddrPort) :=
  if (length out <? total)%nat then
    match fuel with
    | O => None
    | S fuel' => rr_loop fuel' ports hosts total (S round) (out ++ rr_round ports hosts round)
    end
  else Some out.

(** [None] would be the loop that does not end; a round a target is enough. *)
Definition RoundRobin (targets : list AddrPort) : option (list AddrPort) :=
  let '(byHost, hosts) := foldl host_step (∅, []) targets in
  let hosts := sort_stable Addr_Less hosts in
  let ports := λ h, sort_stable port_less (default [] (byHost !! h)) in
  rr_loop (length targets) ports hosts (length targets) 0 [].

(** ** Properties *)

(** *** The rate *)

Definition backoff_ok (b : Backoff) : Prop := 1 ≤ bo_base b ∧ 0 ≤ bo_halvings b.

Lemma NewBackoff_ok profile : backoff_ok (NewBackoff profile).
Proof. unfold backoff_ok, NewBackoff. cbn. destruct (Z.ltb_spec (PerHostConnPerSec profile) 1); lia. Qed.

Lemma Rate_bounds b : backoff_ok b → 1 ≤ Rate b ≤ bo_base b.
Proof.
  intros [Hb Hh]. unfold Rate. rewrite Z.shiftr_div_pow2 by done.
  assert (0 < 2 ^ bo_halvings b) by (apply Z.pow_pos_nonneg; lia).
  assert (bo_base b / 2 ^ bo_halvings b ≤ bo_base b) by (apply Z.div_le_upper_bound; nia).
  destruct (Z.ltb_spec (bo_base b / 2 ^ bo_halvings b) 1); lia.
Qed.

Lemma Rate_halved b : backoff_ok b → 1 < Rate b →
  Rate (mkBackoffState (bo_base b) (bo_halvings b + 1) (bo_policy b)) = Rate b / 2.
Proof.
  intros [Hb Hh] Hr. unfold Rate in *. cbn [bo_base bo_halvings].
  rewrite <- (Z.shiftr_shiftr (bo_base b) (bo_halvings b) 1) by lia.
  destruct (Z.ltb_spec (Z.shiftr (bo_base b) (bo_halvings b)) 1) as [H1|H1]; [lia|].
  rewrite Z.shiftr_div_pow2 by lia. change (2 ^ 1) with 2.
  set (r := Z.shiftr (bo_base b) (bo_halvings b)) in *.
  assert (1 ≤ r / 2) by (apply Z.div_le_lower_bound; lia).
  by rewrite (proj2 (Z.ltb_ge _ _)).
Qed.

(** A complaint the offers commit to halves the host's rate, down to one connect
    a second and never below; any other leaves the rate as it was; and nothing
    moves the base the offers declared. *)
Theorem Signal_halves cause b :
  backoff_ok b →
  backoff_ok (Backoff_Signal cause b) ∧ bo_base (Backoff_Signal cause b) = bo_base b ∧
  Rate (Backoff_Signal cause b) =
    (if enabledIn cause (bo_policy b) then Z.max 1 (Rate b / 2) else Rate b).
Proof.
  intros Hok. pose proof (Rate_bounds b Hok) as Hr. unfold Backoff_Signal.
  destruct (enabledIn cause (bo_policy b)); cbn [negb]; [|done].
  destruct (Z.ltb_spec 1 (Rate b)) as [H1|H1].
  - split; [destruct Hok; split; cbn; lia|]. split; [done|]. rewrite Rate_halved by done.
    assert (1 ≤ Rate b / 2) by (apply Z.div_le_lower_bound; lia). lia.
  - split; [done|]. split; [done|]. replace (Rate b) with 1 by lia. reflexivity.
Qed.

(** *** The spacing *)

(** What a prober does with its pacer. *)
Inductive pace_op := OpNext (host : Addr) (now : Z) | OpSignal (host : Addr) (cause : Stress).

(** The connects granted, in order, each with its host. *)
Definition pace_step (st : Pacer * list (Addr * Z)) (op : pace_op) : Pacer * list (Addr * Z) :=
  match op with
  | OpNext host now => let '(t, p) := Next host now st.1 in (p, st.2 ++ [(host, t)])
  | OpSignal host cause => (Pacer_Signal host cause st.1, st.2)
  end.

Definition pace (ops : list pace_op) (p : Pacer) : Pacer * list (Addr * Z) := foldl pace_step (p, []) ops.

Definition base_interval (profile : SafetyProfile) : Z := Second ÷ bo_base (NewBackoff profile).

(** Two connects stand apart by the prober's interval, and by the host's where they
    are to one host. *)
Definition spaced (agg per : Z) (a b : Addr * Z) : Prop :=
  a.2 + agg ≤ b.2 ∧ (a.1 = b.1 → a.2 + per ≤ b.2).

Fixpoint pairwise {A} (R : A → A → Prop) (l : list A) : Prop :=
  match l with [] => True | x :: l' => Forall (R x) l' ∧ pairwise R l' end.

Lemma pairwise_snoc {A} (R : A → A → Prop) l x : pairwise R (l ++ [x]) ↔ pairwise R l ∧ Forall (λ y, R y x) l.
Proof.
  induction l as [|y l IH]; cbn [pairwise app]; [split; [by split|intros _; by split]|].
  rewrite IH, Forall_app, !Forall_cons, Forall_nil. tauto.
Qed.

Definition pacer_ok (profile : SafetyProfile) (p : Pacer) (grants : list (Addr * Z)) : Prop :=
  pc_profile p = profile ∧ pc_aggregateInterval p = pc_aggregateInterval (NewPacer profile) ∧
  (∀ h b, pc_backoff p !! h = Some b → backoff_ok b ∧ bo_base b = bo_base (NewBackoff profile)) ∧
  Forall (λ g, zeroTime < g.2 ∧ g.2 ≤ pc_lastAggregate p ∧
               ∃ last, pc_lastHost p !! g.1 = Some last ∧ g.2 ≤ last) grants ∧
  pairwise (spaced (pc_aggregateInterval (NewPacer profile)) (base_interval profile)) grants.

Lemma backoffFor_spec profile host p grants :
  pacer_ok profile p grants →
  let '(b, p') := backoffFor host p in
  backoff_ok b ∧ bo_base b = bo_base (NewBackoff profile) ∧ pacer_ok profile p' grants ∧
  pc_lastHost p' = pc_lastHost p ∧ pc_lastAggregate p' = pc_lastAggregate p.
Proof.
  intros Hok. pose proof Hok as (Hp & Ha & Hb & Hg & Hs). unfold backoffFor.
  destruct (pc_backoff p !! host) as [b|] eqn:E; [by destruct (Hb _ _ E)|].
  split_and!; [apply NewBackoff_ok|by rewrite Hp| |done|done].
  split_and!; cbn; try done. intros h b. rewrite lookup_insert_Some.
  intros [[_ <-]|[_ Hh]]; [split; [apply NewBackoff_ok|by rewrite Hp]|by apply (Hb h)].
Qed.

Lemma Pacer_Signal_ok profile host cause p grants :
  pacer_ok profile p grants → pacer_ok profile (Pacer_Signal host cause p) grants.
Proof.
  intros Hok. unfold Pacer_Signal. pose proof (backoffFor_spec profile host p grants Hok) as H.
  destruct (backoffFor host p) as [b p']. destruct H as (Hbo & Hbase & (Hp & Ha & Hb & Hg & Hs) & _ & _).
  split_and!; cbn; try done. intros h b'. rewrite lookup_insert_Some. intros [[_ <-]|[_ Hh]]; [|by apply (Hb h)].
  destruct (Signal_halves cause b Hbo) as (? & -> & _). done.
Qed.

Lemma later_spec t u : t ≤ later t u ∧ u ≤ later t u.
Proof. unfold later, After. destruct (Z.ltb_spec u t); lia. Qed.

Lemma Interval_base profile b :
  backoff_ok b → bo_base b = bo_base (NewBackoff profile) → base_interval profile ≤ Interval b.
Proof.
  intros Hok Hb. pose proof (Rate_bounds b Hok). unfold base_interval, Interval. rewrite <- Hb.
  apply Z.quot_le_compat_l; [done|lia].
Qed.

Lemma agg_nonneg profile : 0 ≤ pc_aggregateInterval (NewPacer profile).
Proof.
  cbn. destruct (Z.ltb_spec (PerVantageConnPerSec profile) 1); [done|]. apply Z.quot_pos; [done|lia].
Qed.

(** The instant granted, against the two that bound it. *)
Lemma Next_spec profile host now p grants :
  pacer_ok profile p grants → zeroTime < now →
  let '(t, p') := Next host now p in
  pacer_ok profile p' (grants ++ [(host, t)]) ∧ now ≤ t.
Proof.
  intros Hok Hnow. pose proof Hok as (Hp & Ha & Hb & Hg & Hs). unfold Next.
  set (e1 := if negb (IsZero (pc_lastAggregate p)) then later _ now else now).
  assert (He1 : now ≤ e1 ∧ (pc_lastAggregate p ≠ zeroTime → pc_lastAggregate p + pc_aggregateInterval p ≤ e1)).
  { unfold e1, IsZero. destruct (Z.eqb_spec (pc_lastAggregate p) zeroTime); cbn [negb]; [split; [lia|done]|].
    pose proof (later_spec (TimeAdd (pc_lastAggregate p) (pc_aggregateInterval p)) now). unfold TimeAdd in *. lia. }
  clearbody e1.
  assert (Hdone : ∀ t p', now ≤ t → e1 ≤ t → pc_profile p' = profile →
    pc_aggregateInterval p' = pc_aggregateInterval (NewPacer profile) →
    pc_lastHost p' = pc_lastHost p →
    (∀ h b, pc_backoff p' !! h = Some b → backoff_ok b ∧ bo_base b = bo_base (NewBackoff profile)) →
    (∀ last, pc_lastHost p !! host = Some last → last + base_interval profile ≤ t) →
    pacer_ok profile (mkPacer (pc_aggregateInterval p') t (<[host := t]> (pc_lastHost p')) (pc_backoff p') (pc_profile p'))
      (grants ++ [(host, t)]) ∧ now ≤ t).
  { intros t p' Hnt Het Hp' Ha' Hl' Hb' Hlast. split; [|done].
    assert (Hagg : ∀ g, g ∈ grants → g.2 + pc_aggregateInterval (NewPacer profile) ≤ t).
    { intros g Hin. rewrite Forall_forall in Hg. destruct (Hg g Hin) as (Hz & Hle & _).
      assert (pc_lastAggregate p ≠ zeroTime) as Hne by lia. rewrite <- Ha. destruct He1 as [_ He1]. specialize (He1 Hne). lia. }
    pose proof (agg_nonneg profile).
    split_and!; cbn [pc_profile pc_aggregateInterval pc_backoff pc_lastAggregate pc_lastHost]; try done.
    - rewrite Hl'. apply Forall_app_2.
      + apply Forall_forall. intros g Hin. pose proof (Hagg g Hin). rewrite Forall_forall in Hg.
        destruct (Hg g Hin) as (Hz & Hle & last & Hlk & Hll). split; [done|]. split; [lia|].
        destruct (decide (host = g.1)) as [<-|Hne].
        * exists t. rewrite lookup_insert_eq. split; [done|]. lia.
        * exists last. by rewrite lookup_insert_ne.
      + constructor; [|constructor]. cbn. split; [lia|]. split; [lia|]. exists t. rewrite lookup_insert_eq. split; [done|lia].
    - apply pairwise_snoc. split; [done|]. apply Forall_forall. intros g Hin. split; cbn [snd fst]; [by apply Hagg|].
      intros Heq. rewrite Forall_forall in Hg. destruct (Hg g Hin) as (_ & _ & last & Hlk & Hll).
      rewrite Heq in Hlk. specialize (Hlast last Hlk). lia. }
  destruct (pc_lastHost p !! host) as [last|] eqn:El.
  - pose proof (backoffFor_spec profile host p grants Hok) as H. destruct (backoffFor host p) as [b p'].
    destruct H as (Hbo & Hbase & (Hp' & Ha' & Hb' & _) & Hlh & _).
    pose proof (later_spec (TimeAdd last (Interval b)) e1) as Hl. pose proof (Interval_base profile b Hbo Hbase).
    apply Hdone; try done; [lia|lia|]. intros l [= <-]. unfold TimeAdd in *. lia.
  - apply Hdone; try done; lia.
Qed.

Definition op_after_zero (op : pace_op) : Prop := match op with OpNext _ now => zeroTime < now | OpSignal _ _ => True end.

(** [C10] However the prober asks and whatever the hosts answer, the connects it is
    granted stand apart by the interval of the vantage's rate, and two connects
    to one host by at least the interval of the rate declared for a host: no
    order of asking, no clock that stands still and no complaint packs them
    closer. *)
Theorem pacer_spaces_every_pair profile ops :
  Forall op_after_zero ops →
  pairwise (spaced (pc_aggregateInterval (NewPacer profile)) (base_interval profile)) (pace ops (NewPacer profile)).2.
Proof.
  intros Hops. assert (H : ∀ p grants, pacer_ok profile p grants →
    pacer_ok profile (foldl pace_step (p, grants) ops).1 (foldl pace_step (p, grants) ops).2).
  { induction Hops as [|op ops Hop _ IH]; intros p grants Hok; [done|]. cbn [foldl]. destruct op as [host now|host cause].
    - cbn [pace_step fst snd]. pose proof (Next_spec profile host now p grants Hok Hop) as Hn.
      destruct (Next host now p) as [t p']. apply IH, Hn.
    - cbn [pace_step fst snd]. apply IH. by apply Pacer_Signal_ok. }
  assert (Hnew : pacer_ok profile (NewPacer profile) []).
  { by split_and!. }
  by destruct (H (NewPacer profile) [] Hnew) as (_ & _ & _ & _ & Hs).
Qed.

(** So a span of time holds no more connects than the interval divides it into. *)
Lemma spaced_count agg per grants t d :
  0 < agg → pairwise (spaced agg per) grants → Forall (λ g, t ≤ g.2 < t + d) grants →
  (Z.of_nat (length grants) - 1) * agg < d ∨ grants = [].
Proof.
  intros Ha Hp Hw. destruct grants as [|g grants]; [by right|]. left. rewrite Forall_cons in Hw.
  destruct Hw as [Hg Hw]. revert g Hg Hp. induction grants as [|h grants IH]; intros g Hg Hp; [cbn; lia|].
  cbn [pairwise] in Hp. destruct Hp as [Hgh Hp]. rewrite !Forall_cons in *. destruct Hgh as [[Hs _] _], Hw as [Hh Hw].
  assert (Hd : (Z.of_nat (length (h :: grants)) - 1) * agg < t + d - h.2).
  { clear IH Hg g Hs. revert h Hh Hp. induction grants as [|k grants IH2]; intros h Hh Hp; [cbn; lia|].
    cbn [pairwise] in Hp. destruct Hp as [Hhk Hp]. rewrite !Forall_cons in *. destruct Hhk as [[Hs _] _], Hw as [Hk Hw].
    specialize (IH2 Hw k Hk Hp). cbn [length] in *. lia. }
  cbn [length] in *. lia.
Qed.

(** *** A host at a time *)

Definition of_host (h : Addr) (l : list AddrPort) : list AddrPort := filter (λ t, ap_Addr t = h) l.

Lemma host_fold targets :
  let '(byHost, hosts) := foldl host_step (∅, []) targets in
  NoDup hosts ∧ (∀ h, h ∈ hosts ↔ is_Some (byHost !! h)) ∧ (∀ h, default [] (byHost !! h) = of_host h targets) ∧
  (∀ t, t ∈ targets → ap_Addr t ∈ hosts).
Proof.
  induction targets as [|t targets IH] using rev_ind.
  { split_and!; [apply NoDup_nil_2|..]; intros h.
    - rewrite lookup_empty. split; [by intros []%not_elem_of_nil|by intros []].
    - by rewrite lookup_empty.
    - by intros []%not_elem_of_nil. }
  rewrite foldl_app. cbn [foldl]. destruct (foldl host_step (∅, []) targets) as [m hosts].
  destruct IH as (Hnd & Hin & Hm & Ht). cbn [host_step]. split_and!.
  - destruct (m !! ap_Addr t) eqn:E; [done|]. apply NoDup_app. split_and!; [done| |apply NoDup_singleton].
    intros h Hh ->%list_elem_of_singleton. apply Hin in Hh as [? ?]. congruence.
  - intros h. rewrite lookup_insert_is_Some, <- Hin. destruct (m !! ap_Addr t) eqn:E.
    + split; [intros; destruct (decide (ap_Addr t = h)); auto|]. intros [<-|[_ ?]]; [|done]. apply Hin. eauto.
    + rewrite elem_of_app, list_elem_of_singleton. split; [intros [?|?]; destruct (decide (ap_Addr t = h)); auto; congruence|].
      intros [?|[_ ?]]; auto.
  - intros h. unfold of_host in *. rewrite filter_app, filter_cons, filter_nil. destruct (decide (ap_Addr t = h)) as [<-|Hne].
    + rewrite lookup_insert_eq. cbn. by rewrite Hm.
    + by rewrite lookup_insert_ne, Hm, app_nil_r by done.
  - intros x Hx. apply elem_of_app in Hx as [Hx|Hx%list_elem_of_singleton].
    + specialize (Ht x Hx). destruct (m !! ap_Addr t); [done|]. apply elem_of_app. by left.
    + subst x. destruct (m !! ap_Addr t) eqn:E; [apply Hin; eauto|]. apply elem_of_app. right. by apply list_elem_of_singleton.
Qed.

Section Rounds.
Context (ports : Addr → list AddrPort) (hosts : list Addr).
Hypothesis hosts_once : NoDup hosts.
Hypothesis ports_host : ∀ h t, t ∈ ports h → ap_Addr t = h.

Fixpoint rounds (m : nat) : list AddrPort :=
  match m with O => [] | S m' => rounds m' ++ rr_round ports hosts m' end.

Lemma take_snoc_lookup {A} (l : list A) m : take (S m) l = take m l ++ option_list (l !! m).
Proof.
  destruct (l !! m) as [x|] eqn:E; [by apply take_S_r|]. apply lookup_ge_None in E.
  rewrite !take_ge by lia. by rewrite app_nil_r.
Qed.

Lemma rounds_perm m : rounds m ≡ₚ flat_map (λ h, take m (ports h)) hosts.
Proof.
  clear hosts_once. induction m as [|m IH]; cbn [rounds].
  { induction hosts as [|h l IHl]; [done|]. by cbn [flat_map]. }
  rewrite IH. clear IH. unfold rr_round. induction hosts as [|h l IHl]; [done|]. cbn [flat_map omap list_omap].
  rewrite <- IHl, take_snoc_lookup. change (list_omap _ _ (λ h0, ports h0 !! m) l) with (omap (λ h0, ports h0 !! m) l).
  destruct (ports h !! m); cbn [option_list].
  - rewrite <- !app_assoc. apply Permutation_app_head. by rewrite (Permutation_app_comm [a]), <- app_assoc, (Permutation_app_comm _ [a]).
  - by rewrite app_nil_r, app_assoc.
Qed.

(** How often a host has had its turn. *)
Lemma count_turns m l h :
  NoDup l → length (of_host h (flat_map (λ h, take m (ports h)) l)) =
            if decide (h ∈ l) then Nat.min m (length (ports h)) else 0%nat.
Proof.
  unfold of_host. induction 1 as [|h' l Hnot Hnd IHl]; [by rewrite decide_False by apply not_elem_of_nil|].
  cbn [flat_map]. rewrite filter_app, length_app, IHl.
  assert (Hown : ∀ t, t ∈ take m (ports h') → ap_Addr t = h').
  { intros t Ht. apply ports_host. apply elem_of_take in Ht as (i & Hi & _). by eapply list_elem_of_lookup_2. }
  destruct (decide (h' = h)) as [->|Hne].
  - rewrite filter_all by done. rewrite decide_False, decide_True by (done || left). rewrite length_take. lia.
  - rewrite (filter_none (λ t, ap_Addr t = h)) by (intros t Ht Heq; apply Hne; by rewrite <- (Hown t Ht)).
    destruct (decide (h ∈ l)); [by rewrite decide_True by (by right)|].
    rewrite decide_False; [done|]. by intros [->|?]%elem_of_cons.
Qed.

Lemma rounds_count m h : h ∈ hosts → length (of_host h (rounds m)) = Nat.min m (length (ports h)).
Proof.
  intros Hin. unfold of_host. rewrite rounds_perm. fold (of_host h (flat_map (λ h, take m (ports h)) hosts)).
  by rewrite count_turns, decide_True.
Qed.

Lemma round_once r h : (length (of_host h (rr_round ports hosts r)) ≤ 1)%nat.
Proof.
  unfold rr_round, of_host. induction hosts as [|h' l IHl]; [cbn; lia|].
  pose proof hosts_once as [Hnot Hnd]%NoDup_cons. specialize (IHl Hnd). cbn [omap list_omap].
  change (list_omap _ _ (λ h0, ports h0 !! r) l) with (omap (λ h0, ports h0 !! r) l).
  destruct (ports h' !! r) as [t|] eqn:E; [|done]. rewrite filter_cons. case_decide as Ht; [|done].
  rewrite filter_none; [cbn; lia|]. intros x (h0 & Hh0 & Hx)%list_elem_of_omap Hxh.
  apply list_elem_of_lookup_2, ports_host in E, Hx. congruence.
Qed.
(** While targets are left, a round takes one at least. *)
Lemma rounds_progress m :
  (length (rounds m) < length (flat_map ports hosts))%nat → (length (rounds m) < length (rounds (S m)))%nat.
Proof.
  intros Hlt. cbn [rounds]. rewrite length_app. destruct (rr_round ports hosts m) as [|t l] eqn:E; [|cbn; lia].
  exfalso. rewrite rounds_perm in Hlt. assert (Hall : flat_map (λ h, take m (ports h)) hosts = flat_map ports hosts); [|rewrite Hall in Hlt; lia].
  clear Hlt hosts_once. unfold rr_round in E. induction hosts as [|h l IHl]; [done|]. cbn [flat_map]. cbn [omap list_omap] in E.
  destruct (ports h !! m) eqn:Eh; [done|]. rewrite take_ge by (by apply lookup_ge_None in Eh). f_equal. by apply IHl.
Qed.

Lemma rr_loop_rounds fuel total m :
  total = length (flat_map ports hosts) → (total ≤ fuel + length (rounds m))%nat →
  ∃ k, rr_loop fuel ports hosts total m (rounds m) = Some (rounds k) ∧ (total ≤ length (rounds k))%nat.
Proof.
  intros Ht. revert m. induction fuel as [|fuel IH]; intros m Hf; cbn [rr_loop].
  - destruct (Nat.ltb_spec (length (rounds m)) total); [lia|]. by exists m.
  - destruct (Nat.ltb_spec (length (rounds m)) total) as [Hlt|]; [|by exists m].
    apply (IH (S m)). pose proof (rounds_progress m ltac:(lia)). lia.
Qed.

(** All rounds together hold every target. *)
Lemma rounds_all k : (length (flat_map ports hosts) ≤ length (rounds k))%nat → rounds k ≡ₚ flat_map ports hosts.
Proof.
  intros Hle. rewrite rounds_perm in Hle |- *.
  assert (H : flat_map (λ h, take k (ports h)) hosts = flat_map ports hosts); [|by rewrite H].
  clear hosts_once. induction hosts as [|h l IHl]; [done|]. cbn [flat_map] in *. rewrite !length_app, length_take in Hle.
  assert (Hl : (length (flat_map (λ h, take k (ports h)) l) ≤ length (flat_map ports l))%nat).
  { clear. induction l as [|h l IHl]; [done|]. cbn [flat_map]. rewrite !length_app, length_take. lia. }
  rewrite take_ge by lia. f_equal. apply IHl. lia.
Qed.

(** A prefix of the rounds is whole rounds and a part of one. *)
Lemma rounds_prefix k pre post :
  rounds k = pre ++ post → ∃ r part rest, pre = rounds r ++ part ∧ rr_round ports hosts r = part ++ rest.
Proof.
  revert pre post. induction k as [|k IH]; intros pre post Hp; cbn [rounds] in Hp.
  - symmetry in Hp. apply app_nil in Hp as [-> ->]. by exists 0%nat, [], (rr_round ports hosts 0).
  - apply app_eq_inv in Hp as [(l & Hl & _)|(l & Hl & Hpost)].
    + by apply (IH pre l).
    + by exists k, l, post.
Qed.

Lemma turns_bounds k pre post :
  rounds k = pre ++ post → ∃ r, ∀ h, h ∈ hosts →
    (Nat.min r (length (ports h)) ≤ length (of_host h pre) ≤ S (Nat.min r (length (ports h))))%nat.
Proof.
  intros Hp. destruct (rounds_prefix k pre post Hp) as (r & part & rest & -> & Hr). exists r. intros h' Hh.
  unfold of_host. rewrite filter_app, length_app. fold (of_host h' (rounds r)). rewrite rounds_count by done.
  pose proof (round_once r h') as Ho. unfold of_host in Ho. rewrite Hr, filter_app, length_app in Ho. lia.
Qed.
End Rounds.

Lemma flat_map_hosts_perm targets hosts (ports : Addr → list AddrPort) :
  NoDup hosts → (∀ t, t ∈ targets → ap_Addr t ∈ hosts) → (∀ h, h ∈ hosts → ports h ≡ₚ of_host h targets) →
  flat_map ports hosts ≡ₚ targets.
Proof.
  intros Hnd. revert targets ports. induction Hnd as [|h hosts Hnot Hnd IH]; intros targets ports Ht Hp.
  - destruct targets as [|t ts]; [done|]. by destruct (not_elem_of_nil _ (Ht t ltac:(left))).
  - cbn [flat_map]. rewrite (IH (filter (λ t, ap_Addr t ≠ h) targets)).
    + rewrite (Hp h) by left. unfold of_host. clear. induction targets as [|t ts IH]; [done|]. rewrite !filter_cons.
      destruct (decide (ap_Addr t = h)); [rewrite decide_False by auto|rewrite decide_True by done].
      * cbn. by rewrite IH.
      * by rewrite <- Permutation_middle, IH.
    + intros t [Hne Hin]%list_elem_of_filter. apply Ht in Hin. by apply elem_of_cons in Hin as [?|?].
    + intros h' Hh'. rewrite (Hp h') by (by right). unfold of_host. rewrite list_filter_filter.
      erewrite list_filter_iff; [done|]. intros t. cbn. split; [|tauto]. intros <-. split; [done|]. by intros <-.
Qed.

(** What the loop yields, with the order of the hosts and of their ports. *)
Lemma RoundRobin_rounds targets :
  ∃ ports hosts k, NoDup hosts ∧ (∀ h t, t ∈ ports h → ap_Addr t = h) ∧ (∀ h, ports h ≡ₚ of_host h targets) ∧
    (∀ t, t ∈ targets → ap_Addr t ∈ hosts) ∧
    RoundRobin targets = Some (rounds ports hosts k) ∧ rounds ports hosts k ≡ₚ targets.
Proof.
  unfold RoundRobin. pose proof (host_fold targets) as Hf. destruct (foldl host_step (∅, []) targets) as [m hosts0].
  destruct Hf as (Hnd & Hin & Hm & Ht).
  set (hosts := sort_stable Addr_Less hosts0). set (ports := λ h, sort_stable port_less (default [] (m !! h))).
  assert (Hports : ∀ h, ports h ≡ₚ of_host h targets) by (intros h; unfold ports; by rewrite sort_stable_Permutation, Hm).
  assert (Hown : ∀ h t, t ∈ ports h → ap_Addr t = h).
  { intros h t. rewrite Hports. unfold of_host. by intros [? _]%list_elem_of_filter. }
  assert (Hnd' : NoDup hosts) by (by apply sort_stable_NoDup).
  assert (Hall : ∀ t, t ∈ targets → ap_Addr t ∈ hosts) by (intros t Hx; apply sort_stable_elem; by apply Ht).
  pose proof (flat_map_hosts_perm targets hosts ports Hnd' Hall (λ h _, Hports h)) as Hp.
  pose proof (Permutation_length Hp) as Hl.
  destruct (rr_loop_rounds ports hosts (length targets) (length targets) 0) as (k & Hk & Hle); [done|lia|].
  exists ports, hosts, k. split_and!; try done.
  pose proof (rounds_all ports hosts k) as Ha. by rewrite Ha by lia.
Qed.

(** [C11] The targets are taken a host at a time: the order ends, it is the targets
    themselves, none dropped and none twice, and at every point of it no host has
    been connected to more than once more often than any other host that still
    waits. *)
Theorem RoundRobin_fair targets :
  ∃ out, RoundRobin targets = Some out ∧ out ≡ₚ targets ∧
    ∀ pre post h h', out = pre ++ post → h ∈ map ap_Addr targets → h' ∈ map ap_Addr targets →
      (length (of_host h pre) ≤ S (length (of_host h' pre)))%nat ∨
      length (of_host h' pre) = length (of_host h' targets).
Proof.
  destruct (RoundRobin_rounds targets) as (ports & hosts & k & Hnd & Hown & Hports & Hall & Hr & Hp).
  exists (rounds ports hosts k). split; [done|]. split; [done|].
  intros pre post h h' Hpre (t & -> & Ht)%list_elem_of_fmap (t' & -> & Ht')%list_elem_of_fmap.
  destruct (turns_bounds ports hosts Hnd Hown k pre post Hpre) as (r & Hb).
  pose proof (Hb _ (Hall t Ht)) as H1. pose proof (Hb _ (Hall t' Ht')) as H2.
  rewrite !Hports in H1, H2.
  assert (Hle : (length (of_host (ap_Addr t') pre) ≤ length (of_host (ap_Addr t') targets))%nat).
  { assert (of_host (ap_Addr t') targets ≡ₚ of_host (ap_Addr t') (pre ++ post)) as Hq
      by (unfold of_host; by rewrite <- Hpre, Hp).
    rewrite Hq. unfold of_host. rewrite filter_app, length_app. lia. }
  lia.
Qed.

Definition demo_targets : list AddrPort :=
  [mkAddrPort (Addr4 2) 443; mkAddrPort (Addr4 2) 22; mkAddrPort (Addr4 1) 80; mkAddrPort (Addr4 2) 80].

Example RoundRobin_ex :
  RoundRobin demo_targets =
    Some [mkAddrPort (Addr4 1) 80; mkAddrPort (Addr4 2) 22; mkAddrPort (Addr4 2) 80; mkAddrPort (Addr4 2) 443].
Proof. vm_compute. reflexivity. Qed.

(** Two hosts at the declared profile, one of which complains. *)
Definition demo_ops : list pace_op :=
  [OpNext (Addr4 1) 100; OpNext (Addr4 2) 100; OpSignal (Addr4 1) StressTimeout; OpNext (Addr4 1) 100; OpNext (Addr4 2) 100].

Example pace_ex :
  (pace demo_ops (NewPacer DefaultProfile)).2 =
    [(Addr4 1, 100); (Addr4 2, 5000100); (Addr4 1, 40000100); (Addr4 2, 45000100)].
Proof. vm_compute. reflexivity. Qed.

Lemma pacer_spaces_every_pair_witness :
  Forall op_after_zero demo_ops ∧
  pairwise (spaced (pc_aggregateInterval (NewPacer DefaultProfile)) (base_interval DefaultProfile))
    (pace demo_ops (NewPacer DefaultProfile)).2.
Proof.
  assert (H : Forall op_after_zero demo_ops) by (repeat constructor; reflexivity).
  split; [exact H|]. exact (pacer_spaces_every_pair DefaultProfile demo_ops H).
Defined.

Lemma Signal_halves_witness :
  let b := NewBackoff DefaultProfile in
  backoff_ok b ∧
  backoff_ok (Backoff_Signal Stress429 b) ∧ bo_base (Backoff_Signal Stress429 b) = bo_base b ∧
  Rate (Backoff_Signal Stress429 b) = (if enabledIn Stress429 (bo_policy b) then Z.max 1 (Rate b / 2) else Rate b).
Proof.
  intros b. split; [apply NewBackoff_ok|]. apply (Signal_halves Stress429 b). apply NewBackoff_ok.
Defined.
