(* ===== verification/Blanket.v ===== *)
(** * Blanket responders

    [measure/blanketdiscrim]: whether an address answers on every port, told from
    a handful of control ports no service is assigned.  [rand.Int] is a parameter
    over a world. *)

From S2P Require Import Prelude GoStr.

(** ** The verdict *)

Definition ControlAnswered : string := "answered".
Definition ControlClosed : string := "closed".
Definition ControlIncomplete : string := "incomplete".

Definition VerdictBlanket : string := "Blanket".
Definition VerdictNotBlanket : string := "NotBlanket".
Definition VerdictGap : string := "Gap".

Fixpoint decide_loop (allAnswered : bool) (results : list string) : string :=
  match results with
  | [] => if allAnswered then VerdictBlanket else VerdictGap
  | r :: results' =>
      if String.eqb r ControlClosed then VerdictNotBlanket
      else if String.eqb r ControlAnswered then decide_loop allAnswered results'
      else decide_loop false results'
  end.

Definition Decide (results : list string) : string :=
  if (length results =? 0)%nat then VerdictNotBlanket else decide_loop true results.

Definition Gaps (v : string) : bool := String.eqb v VerdictBlanket || String.eqb v VerdictGap.

Definition GapCause : string := "blanket-responder".
Definition ReasonBlanket : string := "this address answers on all ports — it is a proxy edge, not your origin".
Definition ReasonIncomplete : string :=
  "the control-port probe did not complete, so this reach could not be discriminated from a blanket responder".

Definition ReasonFor (v : string) : string :=
  if String.eqb v VerdictBlanket then ReasonBlanket
  else if String.eqb v VerdictGap then ReasonIncomplete
  else "".

Definition explainBlanket : string :=
  "can tell a real origin service behind the proxy edge from the proxy edge answering for it, so this reach is undiscriminated — a Gap, not a value.".
Definition remedyBlanket : string := "Declare your origin IPs as an address scope to measure the real surface.".

(** [(explanation, remedy)]. *)
Definition GapProse (cause : string) (classes : list string) : string * string :=
  if negb (String.eqb cause GapCause) then ("", "")
  else
    let subject := "No vantage" in
    let subject := match classes with
                   | [] => subject
                   | _ => (subject +:+ " of the " +:+ String.concat " or " classes +:+ " class")%string
                   end in
    ((subject +:+ " " +:+ explainBlanket)%string, remedyBlanket).

(** ** Control ports *)

Definition ControlPortCount : nat := 8.
Definition portBandLow : Z := 49152.
Definition portBandHigh : Z := 65535.

Definition sortedPorts (seen : gset Z) : list Z := sort_stable Z.ltb (elements seen).

Definition FixedPorts_Ports (p : list Z) : list Z := sortedPorts (list_to_set p).

Section Draw.
Context {W : Type}.
(** [rand.Int(rand.Reader, max)]: [None] is its error. *)
Variable rand_Int : Z → St W (option Z).

(** [None] when the draws run out of fuel: only repeated draws can take that long. *)
Fixpoint draw_loop (fuel : nat) (seen : gset Z) : St W (option (gset Z)) :=
  if (size seen <? ControlPortCount)%nat then
    match fuel with
    | O => mret None
    | S fuel' =>
        n ← rand_Int (portBandHigh - portBandLow + 1);
        match n with
        | None => mret (Some seen)
        | Some n => draw_loop fuel' ({[ (portBandLow + n) mod 2 ^ 16 ]} ∪ seen)
        end
    end
  else mret (Some seen).

Definition CryptoPorts_Ports (fuel : nat) : St W (option (list Z)) :=
  seen ← draw_loop fuel ∅; mret (sortedPorts <$> seen).
End Draw.

(** ** Properties *)

(** *** Blanket responders *)

Lemma decide_loop_spec b rs :
  decide_loop b rs =
    if existsb (λ r, String.eqb r ControlClosed) rs then VerdictNotBlanket
    else if b && forallb (λ r, String.eqb r ControlAnswered) rs then VerdictBlanket
    else VerdictGap.
Proof.
  revert b. induction rs as [|r rs IH]; intros b; cbn; [by rewrite andb_true_r|].
  destruct (String.eqb r ControlClosed); [done|]. cbn [orb].
  destruct (String.eqb r ControlAnswered); rewrite IH; [done|]. cbn [andb]. by rewrite andb_false_r.
Qed.

(** An address is called a blanket responder exactly when it was asked and every
    control port answered, not one when none was asked or some port refused, and
    it gaps when no port refused and some did not complete; in whatever order the
    ports were asked. *)
Theorem blanket_Decide_spec rs :
  (Decide rs = VerdictBlanket ↔ rs ≠ [] ∧ Forall (λ r, r = ControlAnswered) rs) ∧
  (Decide rs = VerdictNotBlanket ↔ rs = [] ∨ ControlClosed ∈ rs) ∧
  (Decide rs = VerdictGap ↔
     ControlClosed ∉ rs ∧ ∃ r, r ∈ rs ∧ r ≠ ControlAnswered).
Proof.
  unfold Decide. destruct (Nat.eqb_spec (length rs) 0) as [->%nil_length_inv|Hl].
  { split; [|split]; split; try done; [by intros [? _]|by left|]. intros [_ (r & []%not_elem_of_nil & _)]. }
  assert (Hne : rs ≠ []) by (by intros ->). rewrite decide_loop_spec. cbn [andb].
  assert (Hc : existsb (λ r, String.eqb r ControlClosed) rs = true ↔ ControlClosed ∈ rs).
  { rewrite existsb_exists. setoid_rewrite String.eqb_eq. setoid_rewrite list_elem_of_In. naive_solver. }
  assert (Ha : forallb (λ r, String.eqb r ControlAnswered) rs = true ↔ Forall (λ r, r = ControlAnswered) rs).
  { rewrite forallb_bool, Forall_forall. by setoid_rewrite String.eqb_eq. }
  destruct (existsb _ rs).
  - pose proof (proj1 Hc eq_refl) as Hin. split; [|split]; split; try done; [|by right|tauto].
    intros [_ Hf]. rewrite Forall_forall in Hf. by specialize (Hf _ Hin).
  - assert (Hnin : ControlClosed ∉ rs) by (intros H; apply Hc in H; done).
    destruct (forallb _ rs).
    + pose proof (proj1 Ha eq_refl) as Hf. split; [|split]; split; try done; [tauto|].
      intros [_ (r & Hr & Hn)]. rewrite Forall_forall in Hf. by apply Hf in Hr.
    + split; [|split]; split; try done; [intros [_ H]; by apply Ha in H|tauto|].
      intros _. split; [done|]. destruct (decide (Exists (λ r, r ≠ ControlAnswered) rs)) as [He|Hn].
      * by apply Exists_exists in He.
      * exfalso. assert (Hf : Forall (λ r, r = ControlAnswered) rs).
        { apply Forall_forall. intros r Hr. destruct (decide (r = ControlAnswered)) as [|Hx]; [done|].
          destruct Hn. apply Exists_exists. by exists r. }
        by apply Ha in Hf.
Qed.

(** *** Control ports *)

#[export] Instance ltb_strict : StrictWeak Z.ltb.
Proof. split; intros; rewrite ?Z.ltb_lt, ?Z.ltb_ge in *; lia. Qed.

Section Ports.
Context {W : Type} (rand_Int : Z → St W (option Z)).
(** What [rand.Int] documents: a value below its bound. *)
Hypothesis rand_below : ∀ m w n, (rand_Int m w).1 = Some n → 0 ≤ n < m.

Definition in_band (p : Z) : Prop := portBandLow ≤ p ≤ portBandHigh.

Lemma draw_loop_ok fuel seen w :
  set_Forall in_band seen → (size seen ≤ ControlPortCount)%nat →
  match (draw_loop rand_Int fuel seen w).1 with
  | Some out => set_Forall in_band out ∧ (size out ≤ ControlPortCount)%nat
  | None => True
  end.
Proof.
  revert seen w. induction fuel as [|fuel IH]; intros seen w Hb Hs; cbn [draw_loop];
    destruct (Nat.ltb_spec (size seen) ControlPortCount) as [Hlt|Hge]; try done.
  unfold mbind, St_bind. pose proof (rand_below (portBandHigh - portBandLow + 1) w) as Hr.
  destruct (rand_Int _ w) as [[n|] w']; [|done]. apply IH.
  - apply set_Forall_union; [|done]. apply set_Forall_singleton. specialize (Hr n eq_refl).
    unfold in_band, portBandLow, portBandHigh in *. rewrite Z.mod_small by lia. lia.
  - set (p := ((_ + n) mod 2 ^ 16)%Z). rewrite union_comm_L, size_union_alt.
    assert (size (({[ p ]} : gset Z) ∖ seen) ≤ size ({[ p ]} : gset Z))%nat by (apply subseteq_size; set_solver).
    rewrite size_singleton in *. lia.
Qed.

Lemma sortedPorts_ok (seen : gset Z) :
  NoDup (sortedPorts seen) ∧ length (sortedPorts seen) = size seen ∧
  (∀ p, p ∈ sortedPorts seen ↔ p ∈ seen) ∧ StronglySorted (not_after Z.ltb) (sortedPorts seen).
Proof.
  unfold sortedPorts. split; [|split; [|split]].
  - apply sort_stable_NoDup, NoDup_elements.
  - by rewrite sort_stable_length.
  - intros p. by rewrite sort_stable_elem, elem_of_elements.
  - apply (sort_stable_Sorted _ _).
Qed.

(** The control ports a batch draws are distinct, in ascending order, at most
    eight, and none outside the band that no service is assigned. *)
Theorem CryptoPorts_in_band fuel w ps :
  (CryptoPorts_Ports rand_Int fuel w).1 = Some ps →
  NoDup ps ∧ (length ps ≤ 8)%nat ∧ Forall in_band ps ∧ StronglySorted (not_after Z.ltb) ps.
Proof.
  unfold CryptoPorts_Ports, mbind, St_bind. pose proof (draw_loop_ok fuel ∅ w) as Hd.
  destruct (draw_loop rand_Int fuel ∅ w) as [[seen|] w']; [|done]. intros [= <-].
  destruct Hd as [Hb Hs]; [done|by rewrite size_empty; unfold ControlPortCount; lia|].
  destruct (sortedPorts_ok seen) as (Hn & Hl & Hin & Hso). split_and!; [done| | |done].
  - rewrite Hl. done.
  - apply Forall_forall. intros p Hp. apply Hb. by apply Hin.
Qed.
End Ports.

Definition demo_rand (m : Z) : St Z (option Z) := λ w,
  (if 0 <? m then Some ((w * 4099 + 17) mod m) else None, w + 1).

Lemma demo_rand_below m w n : (demo_rand m w).1 = Some n → 0 ≤ n < m.
Proof. unfold demo_rand. cbn. destruct (Z.ltb_spec 0 m); [|done]. intros [= <-]. by apply Z.mod_pos_bound. Qed.

Lemma CryptoPorts_in_band_witness :
  ∃ ps, (CryptoPorts_Ports demo_rand 20 5).1 = Some ps ∧
    NoDup ps ∧ (length ps ≤ 8)%nat ∧ Forall in_band ps ∧ StronglySorted (not_after Z.ltb) ps.
Proof.
  exists (default [] (CryptoPorts_Ports demo_rand 20 5).1).
  assert (H : (CryptoPorts_Ports demo_rand 20 5).1 = Some (default [] (CryptoPorts_Ports demo_rand 20 5).1))
    by (vm_compute; reflexivity).
  split; [exact H|]. exact (CryptoPorts_in_band demo_rand demo_rand_below 20 5 _ H).
Defined.

Example CryptoPorts_ex : length (default [] (CryptoPorts_Ports demo_rand 20 5).1) = 8%nat.
Proof. vm_compute. reflexivity. Qed.

