(* ===== verification/Connect.v ===== *)
(** * The connect leaf

    [measure/connectoutcome]: a TCP connect with its
    retries decides whether a service is reached, control ports tell
    whether an address answers on everything ([Blanket]), and a service that is reached is
    asked for its certificate under every name of the scope.  The dialer and the
    handshake are parameters over a world, [encoding/json] is a class; the pacer
    that stands before both is [Pacing]'s. *)

From S2P Require Import Prelude GoTime GoStr NetIP NetParse NetText EdgeStore SubjectScope GoCalendar GoRFC3339 Signal SignalFacts Dispatch Pacing Blanket.

(** ** A connect and its retries *)

Definition ConnOpen : string := "open".
Definition ConnRefused : string := "refused".
Definition ConnTimedOut : string := "timed-out".
Definition ConnError : string := "error".

Definition decided (r : string) : bool := String.eqb r ConnOpen || String.eqb r ConnRefused.

Definition Reached : string := "reached".
Definition NotReached : string := "not-reached".

Definition Decide (result : string) : string := if String.eqb result ConnOpen then Reached else NotReached.

Definition controlResultOf (raw : string) : string :=
  if String.eqb raw ConnOpen then Blanket.ControlAnswered
  else if String.eqb raw ConnRefused then Blanket.ControlClosed
  else Blanket.ControlIncomplete.

(** ** What a handshake tells *)

Record HandshakeResult := mkHandshakeResult {
  hr_Outcome : string;
  hr_Chain : list string;
  hr_NotAfter : Z;
  hr_Issuer : string;
  hr_Algorithm : string;
  hr_NotBefore : Z;
  hr_SANDNS : list string;
  hr_SANIP : list string;
  hr_ChainCerts : list ChainCert;
  hr_LeafDER : list Z;
  hr_SCTsTLSExt : list (list Z);
  hr_OCSPStaple : list Z;
  hr_IssuerSPKI : list Z;
  hr_Unreachable : bool;
  hr_TimedOut : bool
}.

Definition TLSPresented : string := "presented".

(** ** The lines *)

Definition Kind : string := "connect-outcome".
Definition GapOutcome : string := "gap".

Definition ServiceKey (target : AddrPort) (transport : string) : string :=
  (AddrPort_String target +:+ "/" +:+ transport)%string.

Definition EndpointKey (serverName : string) (target : AddrPort) (transport : string) : string :=
  (serverName +:+ "@" +:+ ServiceKey target transport)%string.

Record certificateValue := mkCertificate {
  ct_Outcome : string;
  ct_Chain : list string;
  ct_NotAfter : string;
  ct_Issuer : string;
  ct_Algorithm : string;
  ct_NotBefore : string;
  ct_SANDNS : list string;
  ct_SANIP : list string;
  ct_ChainCerts : list ChainCert
}.

(** [json.Marshal] of the values of the leaf. *)
Class LeafJSON := {
  encode_reachability : string → string → string;
  encode_gap : string → string → string → string;
  encode_certificate : certificateValue → string;
  encode_scts : list (list Z) → list Z → list Z
}.

(** [wire.CertMaterial]. *)
Record CertMaterial := mkCertMaterial {
  wm_Fingerprint : string;
  wm_DER : list Z;
  wm_SCTs : list Z;
  wm_IssuerSPKI : list Z
}.

Definition leaf_line : Type := Observation * option CertMaterial.

Definition presentedIdentity (res : HandshakeResult) (v : string) : string :=
  if negb (String.eqb (hr_Outcome res) TLSPresented) then "" else v.

Definition presentedStrings (res : HandshakeResult) (v : list string) : list string :=
  if negb (String.eqb (hr_Outcome res) TLSPresented) then [] else v.

Definition presentedNotBefore (res : HandshakeResult) : string :=
  if negb (String.eqb (hr_Outcome res) TLSPresented) || IsZero (hr_NotBefore res) then ""
  else time_Format_RFC3339 (hr_NotBefore res).

Definition notAfterString (res : HandshakeResult) : string :=
  if negb (String.eqb (hr_Outcome res) TLSPresented) || IsZero (hr_NotAfter res) then ""
  else time_Format_RFC3339 (hr_NotAfter res).

Definition presentedChainCerts (res : HandshakeResult) : list ChainCert :=
  if negb (String.eqb (hr_Outcome res) TLSPresented) || (length (hr_ChainCerts res) =? 0)%nat then []
  else hr_ChainCerts res.

Definition certificate_of (res : HandshakeResult) : certificateValue :=
  mkCertificate (hr_Outcome res) (hr_Chain res) (notAfterString res)
    (presentedIdentity res (hr_Issuer res)) (presentedIdentity res (hr_Algorithm res)) (presentedNotBefore res)
    (presentedStrings res (hr_SANDNS res)) (presentedStrings res (hr_SANIP res)) (presentedChainCerts res).

Section Lines.
Context {J : LeafJSON}.

Definition EmitServiceGap (target : AddrPort) (cause reason : string) : leaf_line :=
  (mkObs Kind FacetReachability (ServiceKey target "tcp") "" (Addr_String (ap_Addr target))
     (encode_gap GapOutcome cause reason), None).

Definition EmitService (target : AddrPort) (outcome raw : string) : leaf_line :=
  (mkObs Kind FacetReachability (ServiceKey target "tcp") "" (Addr_String (ap_Addr target))
     (encode_reachability outcome raw), None).

(** An empty capture is no bytes. *)
Definition EncodeSCTCapture (tlsExt : list (list Z)) (ocsp : list Z) : list Z :=
  if (length tlsExt =? 0)%nat && (length ocsp =? 0)%nat then [] else encode_scts tlsExt ocsp.

Definition presentedCertMaterial (res : HandshakeResult) : option CertMaterial :=
  if negb (String.eqb (hr_Outcome res) TLSPresented) || (length (hr_LeafDER res) =? 0)%nat then None
  else Some (mkCertMaterial (Fingerprint (hr_LeafDER res)) (hr_LeafDER res)
               (EncodeSCTCapture (hr_SCTsTLSExt res) (hr_OCSPStaple res)) (hr_IssuerSPKI res)).

Definition EmitCertificate (target : AddrPort) (serverName : string) (res : HandshakeResult) : leaf_line :=
  (mkObs Kind FacetCertificate (EndpointKey serverName target "tcp") "" (Addr_String (ap_Addr target))
     (encode_certificate (certificate_of res)), presentedCertMaterial res).
End Lines.

(** ** A batch *)

Record Scope := mkScope {
  sc_Vantage : string;
  sc_VantageClass : string;
  sc_Addresses : list string;
  sc_TCPPorts : list Z;
  sc_UDPPorts : list Z;
  sc_Names : list string;
  sc_Profile : SafetyProfile
}.

Definition address_targets (ports : list Z) (a : string) : list AddrPort :=
  match ParseAddr a with
  | None => []
  | Some addr => map (λ port, mkAddrPort (Unmap addr) port) ports
  end.

Definition targets (s : Scope) : option (list AddrPort) :=
  RoundRobin (flat_map (address_targets (sc_TCPPorts s)) (sc_Addresses s)).

Definition endpointNames (s : Scope) : list string :=
  match sc_Names s with [] => [""%string] | names => names end.

Section Batch.
Context {J : LeafJSON} {W : Type}.
Variable connect : AddrPort → St W string.
Variable handshake : AddrPort → string → St W HandshakeResult.

(** The last answer decides: at once, or when the attempts are spent. *)
Fixpoint attempts_loop (attempts : nat) (target : AddrPort) (last_ : string) : St W (string * string) :=
  match attempts with
  | O => mret (Decide last_, last_)
  | S attempts' =>
      r ← connect target;
      if decided r then mret (Decide r, r) else attempts_loop attempts' target r
  end.

Definition probeAttempts (attempts : Z) (target : AddrPort) : St W (string * string) :=
  attempts_loop (Z.to_nat (if attempts <? 1 then 1 else attempts)) target "".

Definition Probe (profile : SafetyProfile) (target : AddrPort) : St W (string * string) :=
  probeAttempts (Retries profile + 1) target.

Definition probeControlPort (profile : SafetyProfile) (target : AddrPort) : St W string :=
  '(_, raw) ← probeAttempts (ControlPortRetries profile + 1) target; mret raw.

(** [ports] is what [gen.Ports()] drew. *)
Definition discriminate_step (ports : list Z) (scope : Scope) (out : gmap Addr string) (a : string)
    : St W (gmap Addr string) :=
  match ParseAddr a with
  | None => mret out
  | Some addr =>
      let addr := Unmap addr in
      results ← ask_each (λ port, raw ← probeControlPort (sc_Profile scope) (mkAddrPort addr port);
                                  mret (controlResultOf raw)) ports;
      mret (<[addr := Blanket.Decide results]> out)
  end.

Definition discriminateBlanket (ports : list Z) (scope : Scope) : St W (gmap Addr string) :=
  for_each (discriminate_step ports scope) (sc_Addresses scope) ∅.

Definition certificate_step (target : AddrPort) (out : list leaf_line) (name : string) : St W (list leaf_line) :=
  res ← handshake target name; mret (out ++ [EmitCertificate target name res]).

(** Whether the address of a target gaps. *)
Definition gapped (verdicts : gmap Addr string) (target : AddrPort) : option string :=
  v ← verdicts !! ap_Addr target; if Blanket.Gaps v then Some v else None.

Definition exchange_step (verdicts : gmap Addr string) (scope : Scope) (out : list leaf_line) (target : AddrPort)
    : St W (list leaf_line) :=
  match gapped verdicts target with
  | Some v => mret (out ++ [EmitServiceGap target Blanket.GapCause (Blanket.ReasonFor v)])
  | None =>
      '(outcome, raw) ← Probe (sc_Profile scope) target;
      let out := out ++ [EmitService target outcome raw] in
      if negb (String.eqb outcome Reached) then mret out
      else for_each (certificate_step target) (endpointNames scope) out
  end.

Definition RunExchange (ports : list Z) (scope : Scope) : St W (option (list leaf_line)) :=
  verdicts ← discriminateBlanket ports scope;
  match targets scope with
  | None => mret None
  | Some ts => out ← for_each (exchange_step verdicts scope) ts []; mret (Some out)
  end.

Definition connector_step (scope : Scope) (out : list leaf_line) (target : AddrPort) : St W (list leaf_line) :=
  '(outcome, raw) ← Probe (sc_Profile scope) target; mret (out ++ [EmitService target outcome raw]).

Definition RunWithConnector (scope : Scope) : St W (option (list leaf_line)) :=
  match targets scope with
  | None => mret None
  | Some ts => out ← for_each (connector_step scope) ts []; mret (Some out)
  end.
End Batch.

(** ** The pacer before the dialer *)

Section Paced.
Context {W : Type}.
Variable now : St W Z.
Variable sleep : Z → St W unit.

(** Both the dialer and the handshake hold one pacer. *)
Definition wait (host : Addr) : St (Pacer * W) unit := λ '(p, w),
  let '(t, w) := now w in
  let '(due, p) := Next host t p in
  let '(t', w) := now w in
  let d := TimeSub due t' in
  let '(_, w) := if 0 <? d then sleep d w else (tt, w) in
  (tt, (p, w)).

(** [ask], unaware of the pacer. *)
Definition inner {A} (ask : St W A) : St (Pacer * W) A := λ '(p, w), let '(a, w) := ask w in (a, (p, w)).

Definition signal_timeout (host : Addr) (timedOut : bool) : St (Pacer * W) unit := λ '(p, w),
  (tt, (if timedOut then Pacer_Signal host StressTimeout p else p, w)).

Definition pacedConnector (connect : AddrPort → St W string) (target : AddrPort) : St (Pacer * W) string :=
  _ ← wait (ap_Addr target);
  res ← inner (connect target);
  _ ← signal_timeout (ap_Addr target) (String.eqb res ConnTimedOut);
  mret res.

Definition pacedHandshaker (handshake : AddrPort → string → St W HandshakeResult) (target : AddrPort) (serverName : string)
    : St (Pacer * W) HandshakeResult :=
  _ ← wait (ap_Addr target);
  res ← inner (handshake target serverName);
  _ ← signal_timeout (ap_Addr target) (hr_TimedOut res);
  mret res.
End Paced.

(** ** Properties *)

(** *** Retries *)

Definition budget (attempts : Z) : nat := Z.to_nat (Z.max 1 attempts).

(** What the answers to a probe of [n] attempts may be: none but the last decides,
    and the last decides or spends the attempts; [raw] is the last. *)
Definition probe_run (n : nat) (answers : list string) (raw : string) : Prop :=
  ∃ front, answers = front ++ [raw] ∧ Forall (λ r, decided r = false) front ∧
    (length answers ≤ n)%nat ∧ (decided raw = true ∨ length answers = n).

(** What is dialed, and what it answered. *)
Inductive dial := DialPort (target : AddrPort) (answer : string) | DialTLS (target : AddrPort) (name : string) (res : HandshakeResult).

(** What every control port of an address answered in the end. *)
Definition control : Type := Addr * list string.

(** The reason for which an address gaps: none of its control ports, and there is
    one, refused; an address asked twice is judged by the second time. *)
Definition gap_reason (controls : list control) (a : Addr) : option string :=
  c ← last (filter (λ c, c.1 = a) controls);
  if bool_decide (c.2 = []) || bool_decide (ConnRefused ∈ c.2) then None
  else Some (if bool_decide (Forall (λ r, r = ConnOpen) c.2) then Blanket.ReasonBlanket else Blanket.ReasonIncomplete).

Definition verdicts_of (controls : list control) : gmap Addr string :=
  foldl (λ m c, <[c.1 := Blanket.Decide (map controlResultOf c.2)]> m) ∅ controls.

Lemma verdicts_lookup controls a :
  verdicts_of controls !! a = (λ c : control, Blanket.Decide (map controlResultOf c.2)) <$> last (filter (λ c, c.1 = a) controls).
Proof.
  induction controls as [|c l IH] using rev_ind; [done|]. unfold verdicts_of in *. rewrite foldl_app, filter_app, filter_cons, filter_nil. cbn [foldl].
  destruct (decide (c.1 = a)) as [<-|]; [by rewrite lookup_insert_eq, last_snoc|]. by rewrite lookup_insert_ne, app_nil_r.
Qed.

Lemma decide_loop_raws all raws :
  Blanket.decide_loop all (map controlResultOf raws) =
  if bool_decide (ConnRefused ∈ raws) then Blanket.VerdictNotBlanket
  else if all && bool_decide (Forall (λ r, r = ConnOpen) raws) then Blanket.VerdictBlanket else Blanket.VerdictGap.
Proof.
  revert all. induction raws as [|r raws IH]; intros all; cbn [map Blanket.decide_loop]; [by destruct all|].
  assert (bool_decide (ConnRefused ∈ r :: raws) = String.eqb r ConnRefused || bool_decide (ConnRefused ∈ raws)) as ->.
  { apply eq_true_iff_eq. rewrite orb_true_iff, !bool_decide_eq_true, String.eqb_eq, elem_of_cons. naive_solver. }
  assert (bool_decide (Forall (λ r, r = ConnOpen) (r :: raws)) = String.eqb r ConnOpen && bool_decide (Forall (λ r, r = ConnOpen) raws)) as ->.
  { apply eq_true_iff_eq. rewrite andb_true_iff, !bool_decide_eq_true, String.eqb_eq, Forall_cons. done. }
  unfold controlResultOf at 1 2. destruct (String.eqb_spec r ConnOpen) as [->|]; [by rewrite IH|].
  destruct (String.eqb_spec r ConnRefused) as [->|]; [done|]. change (String.eqb Blanket.ControlIncomplete _) with false. cbn [orb andb].
  rewrite IH. cbn [andb]. by rewrite andb_false_r.
Qed.

Lemma gapped_reason controls t : Blanket.ReasonFor <$> gapped (verdicts_of controls) t = gap_reason controls (ap_Addr t).
Proof.
  unfold gapped, gap_reason. rewrite verdicts_lookup. destruct (last _) as [[a raws]|]; [|done]. cbn [fmap option_fmap option_map mbind option_bind snd].
  unfold Blanket.Decide. rewrite length_map. destruct raws as [|r raws]; [done|]. cbn [length Nat.eqb]. rewrite decide_loop_raws.
  rewrite (bool_decide_false (r :: raws = [])) by done. cbn [orb andb]. destruct (bool_decide (ConnRefused ∈ _)); [done|]. by destruct (bool_decide (Forall _ _)).
Qed.

Section Asked.
Context {J : LeafJSON} {W : Type}.
Variable connect : AddrPort → St W string.
Variable handshake : AddrPort → string → St W HandshakeResult.

(** The dialer and the handshake, with what is dialed and answered written down. *)
Definition connect' (t : AddrPort) : St (W * list dial) string := answered (DialPort t) (connect t).
Definition handshake' (t : AddrPort) (name : string) : St (W * list dial) HandshakeResult :=
  answered (DialTLS t name) (handshake t name).

Lemma attempts_loop_yields n target last_ :
  yields (attempts_loop connect' (S n) target last_)
    (λ res d, ∃ rs, probe_run (S n) rs res.2 ∧ res.1 = Decide res.2 ∧ d = map (DialPort target) rs).
Proof.
  revert last_. induction n as [|n IH]; intros last_.
  - cbn [attempts_loop]. eapply yields_bind; [apply (yields_answered _ _ (λ r d, d = [DialPort target r])); done|].
    intros r d ->. destruct (decided r) eqn:Hd; apply yields_ret; exists [r]; (split_and!; [|done..]); exists []; split_and!; auto.
  - change (attempts_loop connect' (S (S n)) target last_) with
      (r ← connect' target; if decided r then mret (Decide r, r) else attempts_loop connect' (S n) target r).
    eapply yields_bind; [apply (yields_answered _ _ (λ r d, d = [DialPort target r])); done|].
    intros r d ->. destruct (decided r) eqn:Hd.
    + apply yields_ret. exists [r]. split_and!; [|done..]. exists []. split_and!; [done..|cbn; lia|by left].
    + eapply yields_mono; [apply IH|]. intros [o raw] d (rs & (front & -> & Hf & Hl & Hend) & Ho & ->). exists (r :: front ++ [raw]).
      cbn [snd] in *. split_and!; [|done..]. exists (r :: front).
      split_and!; [done|by constructor|cbn [length]; lia|]. destruct Hend as [?|E]; [by left|right]. cbn [length]. by rewrite E.
Qed.

Lemma probeAttempts_yields attempts target :
  yields (probeAttempts connect' attempts target)
    (λ res d, ∃ rs, probe_run (budget attempts) rs res.2 ∧ res.1 = Decide res.2 ∧ d = map (DialPort target) rs).
Proof.
  unfold probeAttempts. replace (Z.to_nat (if attempts <? 1 then 1 else attempts)) with (budget attempts)
    by (unfold budget; destruct (Z.ltb_spec attempts 1); lia).
  destruct (budget attempts) as [|n] eqn:Hb; [unfold budget in Hb; lia|]. apply attempts_loop_yields.
Qed.

(** *** One service *)

(** What a batch makes of one target, and what it dials for it. *)
Inductive target_run (controls : list control) (scope : Scope) (t : AddrPort) : list leaf_line → list dial → Prop :=
  | run_gapped reason : gap_reason controls (ap_Addr t) = Some reason →
      target_run controls scope t [EmitServiceGap t Blanket.GapCause reason] []
  | run_unreached raw rs : gap_reason controls (ap_Addr t) = None → raw ≠ ConnOpen →
      probe_run (budget (Retries (sc_Profile scope) + 1)) rs raw →
      target_run controls scope t [EmitService t NotReached raw] (map (DialPort t) rs)
  | run_reached rs ress : gap_reason controls (ap_Addr t) = None →
      probe_run (budget (Retries (sc_Profile scope) + 1)) rs ConnOpen →
      length ress = length (endpointNames scope) →
      target_run controls scope t
        (EmitService t Reached ConnOpen :: zip_with (EmitCertificate t) (endpointNames scope) ress)
        (map (DialPort t) rs ++ zip_with (DialTLS t) (endpointNames scope) ress).

Lemma certificates_yield t names out :
  yields (for_each (certificate_step handshake' t) names out)
    (λ out' d, ∃ ress, length ress = length names ∧ out' = out ++ zip_with (EmitCertificate t) names ress ∧
                       d = zip_with (DialTLS t) names ress).
Proof.
  apply (yields_for_each (certificate_step handshake' t)
    (λ out' pre d, ∃ ress, length ress = length pre ∧ out' = out ++ zip_with (EmitCertificate t) pre ress ∧
                           d = zip_with (DialTLS t) pre ress)).
  - exists []. by rewrite app_nil_r.
  - intros s pre d name _ (ress & Hl & -> & ->). unfold certificate_step.
    eapply yields_bind; [apply (yields_answered _ _ (λ res d, d = [DialTLS t name res])); done|]. intros res d ->.
    apply yields_ret. exists (ress ++ [res]). rewrite !length_app, Hl. split; [done|].
    rewrite !zip_with_app by done. split; [by rewrite app_assoc|]. by rewrite app_nil_r.
Qed.

Lemma exchange_yields controls scope ts :
  yields (for_each (exchange_step connect' handshake' (verdicts_of controls) scope) ts [])
    (λ out d, ∃ blocks dials, Forall3 (target_run controls scope) ts blocks dials ∧ out = concat blocks ∧ d = concat dials).
Proof.
  apply (yields_for_each _ (λ out pre d, ∃ blocks dials, Forall3 (target_run controls scope) pre blocks dials ∧
    out = concat blocks ∧ d = concat dials)).
  { exists [], []. split; [constructor|done]. }
  intros out pre d t _ (blocks & dials & Hf & -> & ->). pose proof (gapped_reason controls t) as Hr.
  assert (Hstep : yields (exchange_step connect' handshake' (verdicts_of controls) scope (concat blocks) t)
    (λ out' dx, ∃ b, target_run controls scope t b dx ∧ out' = concat blocks ++ b)).
  { unfold exchange_step. destruct (gapped (verdicts_of controls) t) as [v|]; cbn [fmap option_fmap option_map] in Hr; symmetry in Hr.
    { apply yields_ret. eexists. split; [by apply run_gapped|done]. }
    eapply yields_bind; [apply probeAttempts_yields|]. intros [outcome raw] d (rs & Hk & Ho & ->). cbn [fst snd] in Hk, Ho.
    unfold Decide in Ho. destruct (String.eqb_spec raw ConnOpen) as [->|Hne]; subst outcome.
    - change (negb (String.eqb Reached Reached)) with false.
      eapply yields_mono; [apply certificates_yield|]. intros out' d' (ress & Hl & -> & ->).
      eexists. split; [by apply run_reached|]. by rewrite <- app_assoc.
    - change (negb (String.eqb NotReached Reached)) with true. apply yields_ret. rewrite app_nil_r. eexists.
      split; [by apply run_unreached|done]. }
  eapply yields_mono; [apply Hstep|]. intros out' dx (b & Hb & ->). exists (blocks ++ [b]), (dials ++ [dx]).
  rewrite !concat_app. cbn. rewrite !app_nil_r. split; [|done]. apply Forall3_app; [done|]. by repeat constructor.
Qed.

(** *** The control ports *)

(** One control port of an address: its dials, and what it answered last. *)
Definition port_run (n : nat) (a : Addr) (port : Z) (raw : string) (d : list dial) : Prop :=
  ∃ rs, probe_run n rs raw ∧ d = map (DialPort (mkAddrPort a port)) rs.

(** Every control port of an address, in order. *)
Definition control_run (ports : list Z) (n : nat) (a : Addr) (c : control) (d : list dial) : Prop :=
  c.1 = a ∧ ∃ ds, Forall3 (port_run n a) ports c.2 ds ∧ d = concat ds.

Definition scope_addrs (texts : list string) : list Addr := map Unmap (omap ParseAddr texts).

Lemma probeControlPort_yields profile t :
  yields (probeControlPort connect' profile t)
    (λ raw d, port_run (budget (ControlPortRetries profile + 1)) (ap_Addr t) (ap_Port t) raw d).
Proof.
  eapply yields_bind; [apply probeAttempts_yields|]. intros [o raw] d (rs & Hk & _ & ->).
  apply yields_ret. exists rs. rewrite app_nil_r. split; [done|]. by destruct t.
Qed.

Lemma controls_yield ports profile addr :
  yields (ask_each (λ port, raw ← probeControlPort connect' profile (mkAddrPort addr port); mret (controlResultOf raw)) ports)
    (λ results d, ∃ c, control_run ports (budget (ControlPortRetries profile + 1)) addr c d ∧ results = map controlResultOf c.2).
Proof.
  eapply yields_mono.
  - apply (yields_ask_each _ (λ p res d, ∃ raw, port_run (budget (ControlPortRetries profile + 1)) addr p raw d ∧ res = controlResultOf raw)).
    intros p _. eapply yields_bind; [apply probeControlPort_yields|].
    intros raw d Hp. apply yields_ret. exists raw. by rewrite app_nil_r.
  - intros results d (ds & Hf & ->).
    assert (∃ raws, Forall3 (port_run (budget (ControlPortRetries profile + 1)) addr) ports raws ds ∧ results = map controlResultOf raws)
      as (raws & Hr & ->).
    { induction Hf as [|p r d ports' results' ds' (raw & Hp & ->) _ (raws & IH & ->)]; [exists []; split; [constructor|done]|].
      exists (raw :: raws). split; [by constructor|done]. }
    exists (addr, raws). split; [|done]. split; [done|]. by exists ds.
Qed.

Lemma discriminate_yields ports scope :
  yields (discriminateBlanket connect' ports scope)
    (λ verdicts d, ∃ controls ds, Forall3 (control_run ports (budget (ControlPortRetries (sc_Profile scope) + 1)))
       (scope_addrs (sc_Addresses scope)) controls ds ∧ d = concat ds ∧ verdicts = verdicts_of controls).
Proof.
  apply (yields_for_each _ (λ out pre d, ∃ controls ds, Forall3 (control_run ports (budget (ControlPortRetries (sc_Profile scope) + 1)))
    (scope_addrs pre) controls ds ∧ d = concat ds ∧ out = verdicts_of controls)).
  { exists [], []. split_and!; [constructor|done..]. }
  intros out pre d s _ (controls & ds & Hf & -> & ->). unfold discriminate_step, scope_addrs in *. rewrite omap_app. cbn [omap list_omap].
  destruct (ParseAddr s) as [addr|].
  2:{ apply yields_ret. exists controls, ds. by rewrite !app_nil_r. }
  eapply yields_bind; [apply controls_yield|]. intros results dx (c & Hc & ->). apply yields_ret.
  exists (controls ++ [c]), (ds ++ [dx]). rewrite map_app, concat_app. cbn [concat map]. rewrite !app_nil_r. split_and!; [|done|].
  - eapply Forall3_app; [exact Hf|]. constructor; [exact Hc|constructor].
  - unfold verdicts_of. rewrite foldl_app. cbn [foldl]. by destruct Hc as [-> _].
Qed.
End Asked.

(** *** The batch *)

(** [C29] A batch first asks, of each address of the scope that reads and of no
    other, every control port in order, again while the answer decides nothing
    and attempts are left.  Then it takes every target of the scope once: where
    the address has control ports and none of them refused in the end, it dials
    nothing and says the gap, by the reason that all of them opened or that some
    answered neither way; else it dials the port until an answer decides or the
    attempts are spent, says the last of those answers (reached where it is an
    open port), and only then asks for the certificate, once under each name, and
    says what that handshake gave.  Every dial is here with the answer the network
    gave to it; nothing else is dialed and nothing else is said. *)
Theorem RunExchange_accounts `{LeafJSON} {W} (connect : AddrPort → St W string)
    (handshake : AddrPort → string → St W HandshakeResult) ports scope w :
  let '(out, (_, asked)) := RunExchange (connect' connect) (handshake' handshake) ports scope (w, []) in
  ∃ controls cdials ts blocks dials,
    Forall3 (control_run ports (budget (ControlPortRetries (sc_Profile scope) + 1))) (scope_addrs (sc_Addresses scope)) controls cdials ∧
    targets scope = Some ts ∧ ts ≡ₚ flat_map (address_targets (sc_TCPPorts scope)) (sc_Addresses scope) ∧
    Forall3 (target_run controls scope) ts blocks dials ∧
    out = Some (concat blocks) ∧ asked = concat cdials ++ concat dials.
Proof.
  assert (Hts : ∃ ts, targets scope = Some ts ∧ ts ≡ₚ flat_map (address_targets (sc_TCPPorts scope)) (sc_Addresses scope)).
  { destruct (RoundRobin_rounds (flat_map (address_targets (sc_TCPPorts scope)) (sc_Addresses scope)))
      as (ps & hosts & k & _ & _ & _ & _ & Hr & Hp). eexists. split; [exact Hr|done]. }
  destruct Hts as (ts & Hts & Hperm).
  assert (Hy : yields (RunExchange (connect' connect) (handshake' handshake) ports scope) (λ out d,
    ∃ controls cdials blocks dials,
      Forall3 (control_run ports (budget (ControlPortRetries (sc_Profile scope) + 1))) (scope_addrs (sc_Addresses scope)) controls cdials ∧
      Forall3 (target_run controls scope) ts blocks dials ∧ out = Some (concat blocks) ∧ d = concat cdials ++ concat dials)).
  { eapply yields_bind; [apply discriminate_yields|]. intros verdicts d0 (controls & cdials & Hc & -> & ->). rewrite Hts.
    eapply yields_bind; [apply exchange_yields|]. intros out d (blocks & dials & Hf & -> & ->).
    apply yields_ret. exists controls, cdials, blocks, dials. by rewrite app_nil_r. }
  specialize (Hy w []). destruct (RunExchange _ _ ports scope (w, [])) as [out [w' asked]].
  destruct Hy as (d & -> & controls & cdials & blocks & dials & Hc & Hf & -> & ->).
  by exists controls, cdials, ts, blocks, dials.
Qed.

(** *** Pacing *)

Section Waiting.
Context {W : Type} (now : St W Z) (sleep : Z → St W unit) (clock : W → Z).
(** [time.Now] reads a clock that does not go back, and a timer lasts. *)
Hypothesis now_reads : ∀ w, clock w ≤ (now w).1 ≤ clock (now w).2.
Hypothesis sleep_lasts : ∀ d w, clock w + d ≤ clock (sleep d w).2.

(** A connect is asked of the pacer at an instant that is not in the past, and it
    does not start before the instant the pacer granted; a connect that timed out
    halves the rate of its host, and no other answer touches the pacer. *)
Theorem paced_connect_waits connect target p w :
  ∃ t w1,
    let '(due, p1) := Next (ap_Addr target) t p in
    let '(res, w2) := connect target w1 in
    clock w ≤ t ∧ (in_int64 (due - t) → due ≤ clock w1) ∧
    pacedConnector now sleep connect target (p, w) =
      (res, (if String.eqb res ConnTimedOut then Pacer_Signal (ap_Addr target) StressTimeout p1 else p1, w2)).
Proof.
  unfold pacedConnector, mbind, St_bind, wait. pose proof (now_reads w) as Hn1.
  destruct (now w) as [t wa]. cbn [fst snd] in Hn1. exists t.
  destruct (Next (ap_Addr target) t p) as [due p1]. pose proof (now_reads wa) as Hn2.
  destruct (now wa) as [t' wb]. cbn [fst snd] in Hn2.
  pose proof (sleep_lasts (TimeSub due t') wb) as Hs.
  destruct (Z.ltb_spec 0 (TimeSub due t')) as [Hlt|Hge].
  - destruct (sleep (TimeSub due t') wb) as [[] wc]. cbn [snd] in Hs. exists wc.
    unfold inner, signal_timeout, mret, St_ret. destruct (connect target wc) as [res w2]. split; [lia|].
    split; [|done]. intros Hi. assert (TimeSub due t' = due - t' ∨ TimeSub due t' < due - t').
    { unfold TimeSub, in_int64, minInt64, maxInt64 in *. split_ifs; lia. }
    unfold TimeSub, in_int64, minInt64, maxInt64 in *. revert Hs Hlt H. split_ifs; lia.
  - exists wb. unfold inner, signal_timeout, mret, St_ret. destruct (connect target wb) as [res w2].
    split; [lia|]. split; [|done]. intros _. revert Hge. unfold TimeSub, minInt64, maxInt64. split_ifs; lia.
Qed.
End Waiting.

(** *** What the rules read of a handshake *)

Definition link_text (c : ChainCert) : bool :=
  json_text (lc_Subject c) && json_text (lc_Issuer c) && json_text (lc_KeyAlg c) && json_text (lc_SigDigest c).

Definition certificate_text (v : certificateValue) : bool :=
  json_text (ct_Outcome v) && forallb json_text (ct_Chain v) && json_text (ct_NotAfter v) && json_text (ct_Issuer v) &&
  json_text (ct_Algorithm v) && json_text (ct_NotBefore v) && forallb json_text (ct_SANDNS v) &&
  forallb json_text (ct_SANIP v) && forallb link_text (ct_ChainCerts v).

(** What is written reads back, for the members that are read. *)
Class LeafJSONLaws `{LeafJSON} `{FactsJSON} : Prop := {
  certificate_reads v : certificate_text v = true →
    DecodeCertificate (encode_certificate v) =
      mkCertValue (ct_Outcome v) (ct_Chain v) (ct_NotAfter v) (ct_NotBefore v) (ct_SANDNS v) (ct_SANIP v) (ct_ChainCerts v)
}.

(** A date as the value holds it: whole seconds. *)
Definition whole_seconds (t : Z) : Z := t - t mod Second.

(** What the rules have to go by, out of the handshake itself. *)
Definition measured_details {F : UnicodeFold} (res : HandshakeResult) (observed now : Z) (name : string) : option CertDetails :=
  if negb (String.eqb (hr_Outcome res) TLSPresented) then None
  else Some (mkDetails
    (if IsZero (hr_NotBefore res) || IsZero (hr_NotAfter res) then None
     else Some (mkClock (whole_seconds (hr_NotBefore res)) (whole_seconds (hr_NotAfter res)) observed now))
    (c0 ← head (hr_ChainCerts res); ss ← lc_SelfSignatureVerifies c0; Some (SelfSignedOf (lc_Subject c0) (lc_Issuer c0) ss))
    (c0 ← head (hr_ChainCerts res); Some (WeakKeyOrSignature (hr_ChainCerts res)))
    (c0 ← head (hr_ChainCerts res);
     if String.eqb name "" then None else Some (SANMatchesName (hr_SANDNS res) name))).

(** An instant that prints in four digits of year. *)
Definition year_ok (t : Z) : Prop := 0 ≤ Year (civil (day_of t)) ≤ 9999.

Lemma presented_date (presented : bool) t : year_ok t →
  time_Parse_RFC3339 (if negb presented || IsZero t then "" else time_Format_RFC3339 t) =
    if negb presented || IsZero t then None else Some (whole_seconds t).
Proof. intros Hy. destruct (negb presented || IsZero t); [done|]. by apply Parse_Format_RFC3339. Qed.

Lemma SplitEndpointName_key name target tr :
  string_forallb (λ c, negb (Ascii.eqb c "@")) name = true →
  SplitEndpointName (EndpointKey name target tr) = (name, ServiceKey target tr).
Proof.
  intros Hn. unfold SplitEndpointName, EndpointKey.
  change (name +:+ "@" +:+ ServiceKey target tr)%string with (name +:+ String "@" (ServiceKey target tr))%string.
  rewrite IndexByte_app, slice_to_app, slice_from_app by done. by rewrite (proj2 (Z.leb_le 0 _)) by lia.
Qed.

(** The rules read what the handshake measured: the line a handshake leaves, its
    value stored as it is and read back, gives an endpoint's facts the outcome,
    the two dates to the second, whether the leaf signs itself, whether a link is
    weak and whether the names cover the server's, each exactly when the
    handshake could tell. *)
Theorem certificate_facts_measured `{LJ : LeafJSON} `{FJ : FactsJSON} `{F : UnicodeFold} `{!LeafJSONLaws}
    url_Parse ToLower res target name observed now :
  certificate_text (certificate_of res) = true → year_ok (hr_NotBefore res) → year_ok (hr_NotAfter res) →
  string_forallb (λ c, negb (Ascii.eqb c "@")) name = true →
  let o := (EmitCertificate target name res).1 in
  EndpointFactsFrom url_Parse ToLower (ob_Subject o) (mkEndpointEvidence (Some (ob_Data o)) observed None) now None =
    mkEndpoint (EndpointKey name target "tcp") (negb (String.eqb name "")) true (hr_Outcome res)
      (measured_details res observed now name) false 0 "" false.
Proof.
  intros Ht Hb Ha Hn. cbn [EmitCertificate fst ob_Subject ob_Data]. unfold EndpointFactsFrom.
  rewrite SplitEndpointName_key by done. cbn [ee_Certificate ee_HTTPIdentity ee_CertObservedAt fmap option_fmap option_map].
  rewrite certificate_reads by done. cbn [cv_Outcome mbind option_bind].
  rewrite bool_decide_eq_true_2 by done. f_equal. unfold CertDetailsFromValue, measured_details, certificate_of.
  cbn [cv_Outcome cv_NotBefore cv_NotAfter cv_SANDNS cv_ChainCerts ct_Outcome ct_NotBefore ct_NotAfter ct_SANDNS ct_ChainCerts].
  change CertPresented with TLSPresented. unfold presentedNotBefore, notAfterString, presentedStrings, presentedChainCerts.
  destruct (String.eqb (hr_Outcome res) TLSPresented) eqn:Hp; cbn [negb orb]; [|done].
  pose proof (presented_date true _ Hb) as Hb'. pose proof (presented_date true _ Ha) as Ha'. cbn [negb orb] in Hb', Ha'.
  rewrite Hb', Ha'. destruct (hr_ChainCerts res) as [|c0 rest]; cbn [length Nat.eqb head mbind option_bind];
    destruct (IsZero (hr_NotBefore res)), (IsZero (hr_NotAfter res)); done.
Qed.

(** *** Instances *)

Definition link_fields (c : ChainCert) : string * string * option bool * string * Z * Z * string :=
  (lc_Subject c, lc_Issuer c, lc_SelfSignatureVerifies c, lc_KeyAlg c, lc_KeyBits c, lc_KeyParamN c, lc_SigDigest c).
Definition link_of (f : string * string * option bool * string * Z * Z * string) : ChainCert :=
  let '(a, b, c, d, e, g, h) := f in mkChainCert a b c d e g h.

Lemma link_of_fields c : link_of (link_fields c) = c.
Proof. by destruct c. Qed.

Definition value_fields (v : certificateValue) :=
  (ct_Outcome v, ct_Chain v, ct_NotAfter v, ct_NotBefore v, ct_SANDNS v, ct_SANIP v, map link_fields (ct_ChainCerts v)).

Definition emptyCertificate : CertificateValue := mkCertValue "" [] "" "" [] [] [].

#[export] Instance bits_json : LeafJSON :=
  Build_LeafJSON (λ o r, (o +:+ " " +:+ r)%string) (λ o c r, (o +:+ " " +:+ c +:+ " " +:+ r)%string)
    (λ v, bits_text (encode (value_fields v))) (λ exts ocsp, concat exts ++ ocsp).

#[export] Instance bits_facts : FactsJSON :=
  Build_FactsJSON
    (λ s, match decode (text_bits s) with
          | Some (o, ch, na, nb, dns, ip, links) => mkCertValue o ch na nb dns ip (map link_of links)
          | None => emptyCertificate
          end)
    (λ _, mkHTTPValue "" 0 "" "" "" "") (λ _, mkTLSValue "" []).

#[export] Instance bits_laws : LeafJSONLaws.
Proof.
  constructor. intros v _. cbn [DecodeCertificate encode_certificate bits_json bits_facts].
  rewrite text_bits_text. unfold value_fields at 1. rewrite decode_encode. f_equal.
  rewrite map_map. erewrite map_ext; [apply map_id|]. intros c. apply link_of_fields.
Qed.

(** The world of the examples is a clock of nanoseconds. *)
Definition ticking : St Z Z := λ w, (w, w + Millisecond).
Definition sleeping (d : Z) : St Z unit := λ w, (tt, w + Z.max 0 d).
Definition silent (t : AddrPort) : St Z string := λ w, (if ap_Port t =? 443 then ConnOpen else ConnTimedOut, w + Millisecond).

Lemma paced_connect_waits_witness :
  let target := mkAddrPort (Addr4 16909060) 22 in
  let p := NewPacer DefaultProfile in
  (∀ w, w ≤ (ticking w).1 ≤ (ticking w).2) ∧ (∀ d w, w + d ≤ (sleeping d w).2) ∧
  ∃ t w1,
    let '(due, p1) := Next (ap_Addr target) t p in
    let '(res, w2) := silent target w1 in
    Second ≤ t ∧ (in_int64 (due - t) → due ≤ w1) ∧
    pacedConnector ticking sleeping silent target (p, Second) =
      (res, (if String.eqb res ConnTimedOut then Pacer_Signal (ap_Addr target) StressTimeout p1 else p1, w2)).
Proof.
  intros target p.
  assert (H1 : ∀ w, w ≤ (ticking w).1 ≤ (ticking w).2) by (intros w; cbn; unfold Millisecond; lia).
  assert (H2 : ∀ d w, w + d ≤ (sleeping d w).2) by (intros d w; cbn; lia).
  split; [exact H1|]. split; [exact H2|].
  exact (paced_connect_waits ticking sleeping (λ w, w) H1 H2 silent target p Second).
Defined.

(** A chain of two, the leaf signed by SHA-1 under a name of its own. *)
Definition demo_handshake : HandshakeResult :=
  mkHandshakeResult TLSPresented ["sha256:aa"; "sha256:bb"] (63_900_000_000 * Second + 5) "CN=R1" "SHA1-RSA" (63_800_000_000 * Second)
    ["*.example.com"] [] [mkChainCert "CN=a" "CN=R1" (Some false) "RSA" 2048 0 "SHA-1";
                          mkChainCert "CN=R1" "CN=R1" (Some true) "RSA" 4096 0 "SHA-1"] [48; 130] [] [] [] false false.

Definition demo_target : AddrPort := mkAddrPort (Addr4 3221225985) 443.

Lemma certificate_facts_measured_witness :
  let o := (EmitCertificate demo_target "www.example.com" demo_handshake).1 in
  EndpointFactsFrom (λ _, None) id (ob_Subject o) (mkEndpointEvidence (Some (ob_Data o)) 7 None) 9 None =
    mkEndpoint "www.example.com@192.0.2.1:443/tcp" true true TLSPresented
      (Some (mkDetails (Some (mkClock (63_800_000_000 * Second) (63_900_000_000 * Second) 7 9)) (Some false) (Some true) (Some true)))
      false 0 "" false.
Proof.
  assert (Hy : ∀ t, (0 <=? Year (civil (day_of t))) && (Year (civil (day_of t)) <=? 9999) = true → year_ok t)
    by (intros t Ht; apply andb_true_iff in Ht as [?%Z.leb_le ?%Z.leb_le]; by split).
  apply (certificate_facts_measured (λ _, None) id demo_handshake demo_target "www.example.com" 7 9);
    [vm_compute; reflexivity|apply Hy; vm_compute; reflexivity|apply Hy; vm_compute; reflexivity|reflexivity].
Defined.

(** One address that refuses a control port and one that answers on every port. *)
Definition demo_world (t : AddrPort) : St nat string := λ n,
  (if bool_decide (ap_Addr t = Addr4 3221225986) then ConnOpen
   else if ap_Port t =? 443 then ConnOpen else ConnRefused, S n).

Definition demo_shake (t : AddrPort) (name : string) : St nat HandshakeResult := λ n, (demo_handshake, S n).

Definition demo_scope : Scope :=
  mkScope "v1" "internet" ["192.0.2.1"; "192.0.2.2"; "nonsense"] [443; 22] [] ["a.example"; ""] DefaultProfile.

Example RunExchange_ex :
  let '(out, n) := RunExchange demo_world demo_shake [50000; 60000] demo_scope 0%nat in
  (map (λ l, (ob_Facet l.1, ob_Subject l.1)) <$> out, n) =
    (Some [(FacetReachability, "192.0.2.1:22/tcp"); (FacetReachability, "192.0.2.2:22/tcp");
           (FacetReachability, "192.0.2.1:443/tcp"); (FacetCertificate, "a.example@192.0.2.1:443/tcp");
           (FacetCertificate, "@192.0.2.1:443/tcp"); (FacetReachability, "192.0.2.2:443/tcp")]%string, 8%nat).
Proof. vm_compute. reflexivity. Qed.
