(* ===== verification/TLSLeaf.v ===== *)
(** * The TLS acceptance leaf

    [measure/tlsacceptance]: which protocol versions and which cipher suites a
    listener accepts, found by offering what is left until it refuses.  The
    handshake is a parameter over a world, [encoding/json] a class. *)

From S2P Require Import Prelude GoTime GoStr NetIP NetParse NetText SubjectScope Signal VergeCore SignalFacts Dispatch Pacing.

Definition TLS13 : string := "1.3".

Definition TLSRefused : string := "tls-refused".
Definition NoTLS : string := "no-tls".

Record Attempt := mkAttempt { at_Spoke : bool; at_Accepted : bool; at_SelectedCipher : string }.

Record acceptanceValue := mkAcceptance { av_Outcome : string; av_Versions : list TLSVersion }.

Fixpoint removeString (s : list string) (v : string) : list string :=
  match s with
  | [] => []
  | x :: s' => if String.eqb x v then s' else x :: removeString s' v
  end.

Section Enumerate.
Context {W : Type}.
Variable handshake : AddrPort → string → list string → St W Attempt.

(** One version's rounds; [None] would be a loop that does not end. *)
Fixpoint cipher_loop (fuel : nat) (target : AddrPort) (ver : string) (remaining : list string) (spoke : bool)
    (got : list string) : St W (option (bool * list string)) :=
  if (length remaining =? 0)%nat then mret (Some (spoke, got))
  else
    match fuel with
    | O => mret None
    | S fuel' =>
        att ← handshake target ver remaining;
        let spoke := spoke || at_Spoke att in
        if negb (at_Accepted att) then mret (Some (spoke, got))
        else
          let next := removeString remaining (at_SelectedCipher att) in
          if (length next =? length remaining)%nat then mret (Some (spoke, got ++ [at_SelectedCipher att]))
          else cipher_loop fuel' target ver next spoke (got ++ [at_SelectedCipher att])
    end.

Definition version_step (set : CandidateSet) (target : AddrPort) (st : option (bool * list TLSVersion)) (ver : string)
    : St W (option (bool * list TLSVersion)) :=
  match st with
  | None => mret None
  | Some (spoke, accepted) =>
      if String.eqb ver TLS13 then
        att ← handshake target ver [];
        mret (Some (spoke || at_Spoke att,
                    if at_Accepted att then accepted ++ [mkTLSVersion ver []] else accepted))
      else
        r ← cipher_loop (length (cs_Ciphers set)) target ver (cs_Ciphers set) spoke [];
        match r with
        | None => mret None
        | Some (spoke, got) =>
            mret (Some (spoke, if (0 <? length got)%nat then accepted ++ [mkTLSVersion ver got] else accepted))
        end
  end.

Definition acceptance (spoke : bool) (accepted : list TLSVersion) : acceptanceValue :=
  if (0 <? length accepted)%nat then mkAcceptance Enumerated accepted
  else if spoke then mkAcceptance TLSRefused []
  else mkAcceptance NoTLS [].

Definition Enumerate (set : CandidateSet) (target : AddrPort) : St W (option acceptanceValue) :=
  r ← for_each (version_step set target) (cs_Versions set) (Some (false, []));
  mret ('(spoke, accepted) ← r; Some (acceptance spoke accepted)).
End Enumerate.

(** ** Lines *)

Definition Kind : string := "tls-acceptance".

Class AcceptanceJSON := encode_acceptance : acceptanceValue → string.

Definition ServiceKey (target : AddrPort) (transport : string) : string :=
  (AddrPort_String target +:+ "/" +:+ transport)%string.

Definition EmitAcceptance {J : AcceptanceJSON} (target : AddrPort) (value : acceptanceValue) : Observation :=
  mkObs Kind FacetTLSAcceptance (ServiceKey target "tcp") "" (Addr_String (ap_Addr target)) (encode_acceptance value).

Definition addrPort (t : ServiceTarget) : option AddrPort :=
  addr ← ParseAddr (st_Address t); Some (mkAddrPort (Unmap addr) (st_Port t)).

Section Run.
Context {J : AcceptanceJSON} {W : Type}.
Variable handshake : AddrPort → string → list string → St W Attempt.

Definition service_step (set : CandidateSet) (out : option (list Observation)) (svc : ServiceTarget)
    : St W (option (list Observation)) :=
  match out, addrPort svc with
  | None, _ => mret None
  | Some out, None => mret (Some out)
  | Some out, Some target =>
      v ← Enumerate handshake set target;
      mret (v ← v; Some (out ++ [EmitAcceptance target v]))
  end.

Definition RunWithEnumerator (set : CandidateSet) (services : list ServiceTarget) : St W (option (list Observation)) :=
  for_each (service_step set) services (Some []).
End Run.

(** ** Pacing *)

Record HostPacer := mkHostPacer { hp_interval : Z; hp_lastHost : gmap string Z }.

Definition NewPacer (set : CandidateSet) : HostPacer :=
  let rate := cs_MaxHandshakesPerSecPerHost set in
  mkHostPacer (Second ÷ (if rate <? 1 then 1 else rate)) ∅.

Definition Next (host : string) (now : Z) (p : HostPacer) : Z * HostPacer :=
  let earliest :=
    match hp_lastHost p !! host with
    | Some last => later (TimeAdd last (hp_interval p)) now
    | None => now
    end in
  (earliest, mkHostPacer (hp_interval p) (<[host := earliest]> (hp_lastHost p))).

(** The handshake behind the pacer. *)
Definition pacedHandshake {W} (now : St W Z) (sleep : Z → St W unit)
    (handshake : AddrPort → string → list string → St W Attempt)
    (target : AddrPort) (version : string) (offered : list string) : St (HostPacer * W) Attempt := λ '(p, w),
  let '(t, w) := now w in
  let '(due, p) := Next (Addr_String (ap_Addr target)) t p in
  let '(t', w) := now w in
  let d := TimeSub due t' in
  let '(_, w) := if 0 <? d then sleep d w else (tt, w) in
  let '(a, w) := handshake target version offered w in
  (a, (p, w)).

(** ** Properties *)

(** *** Rounds *)

Lemma removeString_length s v : length (removeString s v) = length s ∨ S (length (removeString s v)) = length s.
Proof. induction s as [|x s IH]; cbn; [by left|]. destruct (String.eqb x v); [by right|]. cbn. lia. Qed.

Lemma removeString_not_in s v : v ∉ s → removeString s v = s.
Proof.
  induction s as [|x s IH]; [done|]. intros [Hx Hs]%not_elem_of_cons. cbn.
  rewrite (proj2 (String.eqb_neq _ _)) by auto. by rewrite IH.
Qed.

Lemma removeString_in s v : v ∈ s → ∃ a b, s = a ++ v :: b ∧ removeString s v = a ++ b.
Proof.
  induction s as [|x s IH]; [by intros []%not_elem_of_nil|]. cbn. destruct (String.eqb_spec x v) as [->|Hne].
  - intros _. by exists [], s.
  - intros [->|Hin]%elem_of_cons; [done|]. destruct (IH Hin) as (a & b & -> & ->). by exists (x :: a), b.
Qed.

(** What is asked of the listener. *)
Record ask := mkAsk { ak_Version : string; ak_Offered : list string }.

Section Asked.
Context {W : Type} (handshake : AddrPort → string → list string → St W Attempt).

Definition handshake' (t : AddrPort) (ver : string) (offered : list string) : St (W * list ask) Attempt :=
  logged (mkAsk ver offered) (handshake t ver offered).

Lemma cipher_loop_yields fuel t ver (ciphers remaining : list string) spoke got0 :
  (length remaining ≤ fuel)%nat → (∀ c, c ∈ remaining → c ∈ ciphers) →
  yields (cipher_loop handshake' fuel t ver remaining spoke got0)
    (λ r d, ∃ spoke' got, r = Some (spoke', got0 ++ got) ∧
       Forall (λ a, ak_Version a = ver ∧ ak_Offered a ≠ [] ∧ ∀ c, c ∈ ak_Offered a → c ∈ ciphers) d ∧
       (length d ≤ length remaining)%nat ∧ (length got ≤ length d)%nat ∧
       (∀ pre c post, got = pre ++ c :: post → post ≠ [] → c ∈ ciphers)).
Proof.
  revert remaining spoke got0. induction fuel as [|fuel IH]; intros remaining spoke got0 Hf Hin; cbn [cipher_loop];
    (destruct (Nat.eqb_spec (length remaining) 0) as [H0|H0];
     [apply yields_ret; exists spoke, []; rewrite app_nil_r; split; [done|]; split; [constructor|]; split; [cbn; lia|];
      split; [cbn; lia|]; by intros [|] ? ? ?|]); [lia|].
  eapply yields_bind; [apply (yields_logged _ _ (λ _ d, d = [mkAsk ver remaining])); done|]. intros att d ->.
  assert (Ha : Forall (λ a, ak_Version a = ver ∧ ak_Offered a ≠ [] ∧ ∀ c, c ∈ ak_Offered a → c ∈ ciphers) [mkAsk ver remaining]).
  { constructor; [|constructor]. cbn. split; [done|]. split; [by intros ->|done]. }
  destruct (at_Accepted att) eqn:Hacc; cbn [negb].
  2:{ apply yields_ret. exists (spoke || at_Spoke att), []. rewrite !app_nil_r. split; [done|]. split; [done|].
      split; [cbn; lia|]. split; [cbn; lia|]. by intros [|] ? ? ?. }
  set (sel := at_SelectedCipher att).
  destruct (Nat.eqb_spec (length (removeString remaining sel)) (length remaining)) as [He|Hne].
  { apply yields_ret. exists (spoke || at_Spoke att), [sel]. rewrite app_nil_r. split; [done|]. split; [done|].
    split; [cbn; lia|]. split; [cbn; lia|]. intros [|x [|]] c post [= ] ?; subst; done. }
  assert (Hsel : sel ∈ remaining).
  { destruct (decide (sel ∈ remaining)) as [|Hn]; [done|]. by rewrite removeString_not_in in Hne. }
  destruct (removeString_in remaining sel Hsel) as (a & b & Hr & Hr').
  eapply yields_mono; [apply IH|].
  - destruct (removeString_length remaining sel); lia.
  - intros c Hc. apply Hin. rewrite Hr' in Hc. rewrite Hr. set_solver.
  - intros r d (spoke' & got & -> & Hd & Hl & Hg & Hc). exists spoke', (sel :: got).
    rewrite <- app_assoc. split; [done|]. split; [by apply Forall_app|].
    destruct (removeString_length remaining sel); [done|]. cbn [length app]. split; [lia|]. split; [lia|].
    intros [|x pre] c post [= -> Hgot] Hp; [by apply Hin|]. by apply (Hc pre c post).
Qed.

(** Whatever a listener answers, the enumeration ends with a value: it asks for
    TLS 1.3 once, and for any other version at most once a candidate suite,
    offering candidates alone and never nothing; and what it writes down of a
    version, but for a last suite the listener was not offered, are candidates. *)
Theorem Enumerate_ends set target w :
  let '(v, (_, asked)) := Enumerate handshake' set target (w, []) in
  is_Some v ∧
  (length asked ≤ length (cs_Versions set) * Nat.max 1 (length (cs_Ciphers set)))%nat ∧
  (∀ a, a ∈ asked → ak_Version a ∈ cs_Versions set ∧ ∀ c, c ∈ ak_Offered a → c ∈ cs_Ciphers set) ∧
  (∀ x, v = Some x → ∀ tv, tv ∈ av_Versions x → ∀ pre c post, tv_Ciphers tv = pre ++ c :: post → post ≠ [] →
     c ∈ cs_Ciphers set).
Proof.
  set (good := λ tvs : list TLSVersion, ∀ tv, tv ∈ tvs → ∀ pre c post, tv_Ciphers tv = pre ++ c :: post → post ≠ [] →
     c ∈ cs_Ciphers set).
  set (I := λ (st : option (bool * list TLSVersion)) (pre : list string) (d : list ask), ∃ spoke tvs,
    st = Some (spoke, tvs) ∧ good tvs ∧ (length d ≤ length pre * Nat.max 1 (length (cs_Ciphers set)))%nat ∧
    ∀ a, a ∈ d → ak_Version a ∈ cs_Versions set ∧ ∀ c, c ∈ ak_Offered a → c ∈ cs_Ciphers set).
  assert (Hnil : ∀ x : string, ¬ x ∈ []) by (intros x; apply not_elem_of_nil).
  assert (HI : yields (for_each (version_step handshake' set target) (cs_Versions set) (Some (false, [])))
    (λ st d, I st (cs_Versions set) d)).
  { apply (yields_for_each _ I).
    { exists false, []. split; [done|]. split; [by intros ? []%not_elem_of_nil|]. split; [cbn; lia|by intros ? []%not_elem_of_nil]. }
    intros st pre d ver Hver (spoke & tvs & -> & Hg & Hl & Ha). unfold version_step.
    destruct (String.eqb ver TLS13).
    - eapply yields_bind; [apply (yields_logged _ _ (λ _ d, d = [mkAsk ver []])); done|]. intros att dx ->.
      apply yields_ret. rewrite app_nil_r. eexists _, _. split; [done|]. split.
      + destruct (at_Accepted att); [|done]. intros tv [Hin| ->%list_elem_of_singleton]%elem_of_app; [by apply Hg|].
        by intros [|] ? ? ?.
      + rewrite !length_app. cbn [length]. split; [lia|].
        intros a [Hin| ->%list_elem_of_singleton]%elem_of_app; [by apply Ha|]. split; [done|]. by intros c ?%Hnil.
    - eapply yields_bind; [apply (cipher_loop_yields _ _ _ (cs_Ciphers set)); [lia|done]|].
      intros r dx (spoke' & got & -> & Hd & Hld & Hlg & Hc). apply yields_ret. rewrite app_nil_r, app_nil_l.
      eexists _, _. split; [done|]. split.
      + destruct (0 <? length got)%nat; [|done]. intros tv [Hin| ->%list_elem_of_singleton]%elem_of_app; [by apply Hg|].
        exact Hc.
      + rewrite !length_app. cbn [length]. split; [lia|].
        intros a [Hin|Hin]%elem_of_app; [by apply Ha|]. rewrite Forall_forall in Hd. destruct (Hd a Hin) as (-> & _ & Hoff). done. }
  assert (HE : yields (Enumerate handshake' set target) (λ v d, ∃ st, I st (cs_Versions set) d ∧
    v = ('(spoke, accepted) ← st; Some (acceptance spoke accepted)))).
  { eapply yields_bind; [exact HI|]. intros st d HIst. apply yields_ret. exists st. by rewrite app_nil_r. }
  specialize (HE w []). destruct (Enumerate handshake' set target (w, [])) as [v [w' asked]].
  destruct HE as (d & -> & st & (spoke & tvs & -> & Hg & Hl & Ha) & ->). cbn [mbind option_bind app].
  split; [done|]. split; [done|]. split; [done|]. intros x [= <-]. unfold acceptance.
  destruct (0 <? length tvs)%nat; [done|]. destruct spoke; cbn; intros tv []%not_elem_of_nil.
Qed.
End Asked.

(** *** A listener with a preference *)

Section Honest.
Context {W : Type} (handshake : AddrPort → string → list string → St W Attempt).

(** What the listener would select of each version, best first, whether it takes
    TLS 1.3, and that it speaks TLS. *)
Variable prefers : string → list string.
Variable takes13 : bool.

Definition selection (ver : string) (offered : list string) : option string :=
  head (filter (λ c, c ∈ offered) (prefers ver)).

(** The listener takes the first suite it likes of those offered. *)
Hypothesis listens : ∀ t ver offered w,
  (handshake t ver offered w).1 =
    if String.eqb ver TLS13 then mkAttempt true takes13 ""
    else match selection ver offered with
         | Some c => mkAttempt true true c
         | None => mkAttempt true false ""
         end.
Hypothesis prefers_once : ∀ ver, NoDup (prefers ver).

Lemma selection_None ver remaining : selection ver remaining = None → filter (λ c, c ∈ remaining) (prefers ver) = [].
Proof. unfold selection. by destruct (filter _ _). Qed.

(** One version, offered what remains. *)
Lemma cipher_loop_honest fuel t ver remaining spoke got w :
  ver ≠ TLS13 → (length remaining ≤ fuel)%nat → NoDup remaining →
  (cipher_loop handshake fuel t ver remaining spoke got w).1 =
    Some (spoke || negb (length remaining =? 0)%nat, got ++ filter (λ c, c ∈ remaining) (prefers ver)).
Proof.
  intros Hver. revert remaining spoke got w.
  induction fuel as [|fuel IH]; intros remaining spoke got w Hf Hnd; cbn [cipher_loop];
    (destruct (Nat.eqb_spec (length remaining) 0) as [->%nil_length_inv|H0];
     [cbn; rewrite orb_false_r; rewrite filter_none by (intros ? _; apply not_elem_of_nil); by rewrite app_nil_r|]); [lia|].
  cbn [negb]. rewrite orb_true_r. unfold mbind, St_bind. pose proof (listens t ver remaining w) as Hl.
  destruct (handshake t ver remaining w) as [att w']. cbn [fst] in Hl. rewrite (proj2 (String.eqb_neq _ _)) in Hl by done.
  destruct (selection ver remaining) as [c|] eqn:Hs; subst att; cbn [at_Accepted at_Spoke at_SelectedCipher negb].
  2:{ rewrite orb_true_r. cbn. by rewrite selection_None, app_nil_r. }
  unfold selection in Hs. destruct (filter (λ c, c ∈ remaining) (prefers ver)) as [|c' l] eqn:Hfl; [done|].
  injection Hs as ->.
  assert (Hc : c ∈ remaining).
  { assert (Hin : c ∈ filter (λ c, c ∈ remaining) (prefers ver)) by (rewrite Hfl; left).
    by apply list_elem_of_filter in Hin as [? _]. }
  destruct (removeString_in remaining c Hc) as (a & b & Hr & Hr').
  assert (Hlen : length remaining = S (length (removeString remaining c))).
  { rewrite Hr' at 1. rewrite Hr at 1. rewrite !length_app. cbn. lia. }
  destruct (Nat.eqb_spec (length (removeString remaining c)) (length remaining)) as [He|_]; [lia|].
  assert (Hnd' : NoDup (removeString remaining c)).
  { rewrite Hr'. rewrite Hr in Hnd. apply NoDup_app in Hnd as (Ha & Hab & [_ Hb]%NoDup_cons).
    apply NoDup_app. split; [done|]. split; [|done]. intros x Hx Hxb. apply (Hab x Hx). by right. }
  rewrite IH by (lia || done). rewrite <- app_assoc. cbn [app]. do 2 f_equal; [by rewrite orb_true_r|]. f_equal. f_equal.

  assert (Hnf : NoDup (c :: l)) by (rewrite <- Hfl; by apply NoDup_filter).
  apply NoDup_cons in Hnf as [Hcl _].
  assert (Hcr : c ∉ removeString remaining c).
  { rewrite Hr'. rewrite Hr in Hnd. apply NoDup_app in Hnd as (_ & Hab & [Hcb _]%NoDup_cons).
    intros [Hx|Hx]%elem_of_app; [by apply (Hab c Hx); left|done]. }
  assert (Hstep : filter (λ x, x ∈ removeString remaining c) (prefers ver) =
    filter (λ x, x ∈ removeString remaining c) (filter (λ x, x ∈ remaining) (prefers ver))).
  { rewrite list_filter_filter. apply filter_ext_in. intros x _. rewrite Hr', Hr, !elem_of_app, elem_of_cons. tauto. }
  rewrite Hstep, Hfl, filter_cons_False by done. apply filter_all. intros x Hx.
  assert (Hxr : x ∈ filter (λ x, x ∈ remaining) (prefers ver)) by (rewrite Hfl; by right).
  apply list_elem_of_filter in Hxr as [Hxr _]. rewrite Hr'. rewrite Hr in Hxr. rewrite elem_of_app in Hxr |- *. rewrite elem_of_cons in Hxr.
  assert (x ≠ c) by congruence. tauto.
Qed.

(** What the listener accepts of a version, within the candidates. *)
Definition accepted_of (set : CandidateSet) (ver : string) : list TLSVersion :=
  if String.eqb ver TLS13 then if takes13 then [mkTLSVersion ver []] else []
  else match filter (λ c, c ∈ cs_Ciphers set) (prefers ver) with
       | [] => []
       | got => [mkTLSVersion ver got]
       end.

(** Of a listener that takes the suite it likes best among those it is offered, the
    enumeration finds, version by version, exactly the candidates it accepts, in
    the listener's own order of preference; when it accepts none the answer is
    that it refused, never that it speaks no TLS. *)
Theorem Enumerate_finds_the_preference set t w :
  NoDup (cs_Ciphers set) → cs_Ciphers set ≠ [] → cs_Versions set ≠ [] →
  (Enumerate handshake set t w).1 =
    Some (match flat_map (accepted_of set) (cs_Versions set) with
          | [] => mkAcceptance TLSRefused []
          | vs => mkAcceptance Enumerated vs
          end).
Proof.
  intros Hnd Hne Hv.
  assert (Hloop : ∀ vers spoke tvs w,
    (for_each (version_step handshake set t) vers (Some (spoke, tvs)) w).1 =
      Some (spoke || negb (length vers =? 0)%nat, tvs ++ flat_map (accepted_of set) vers)).
  { induction vers as [|ver vers IH]; intros spoke tvs w0.
    { cbn. by rewrite orb_false_r, app_nil_r. }
    cbn [for_each]. unfold mbind, St_bind.
    assert (Hs : (version_step handshake set t (Some (spoke, tvs)) ver w0).1 = Some (true, tvs ++ accepted_of set ver)).
    { unfold version_step, accepted_of. destruct (String.eqb_spec ver TLS13) as [->|Hver].
      - unfold mbind, St_bind. pose proof (listens t TLS13 [] w0) as Hl. destruct (handshake t TLS13 [] w0) as [att w1].
        cbn [fst] in Hl. rewrite String.eqb_refl in Hl. subst att. cbn. rewrite orb_true_r.
        destruct takes13; [done|by rewrite app_nil_r].
      - unfold mbind, St_bind.
        pose proof (cipher_loop_honest (length (cs_Ciphers set)) t ver (cs_Ciphers set) spoke [] w0 Hver ltac:(lia) Hnd) as Hl.
        destruct (cipher_loop handshake _ t ver (cs_Ciphers set) spoke [] w0) as [r w1]. cbn [fst] in Hl. subst r.
        destruct (Nat.eqb_spec (length (cs_Ciphers set)) 0) as [H0%nil_length_inv|_]; [done|]. cbn [negb app].
        rewrite orb_true_r. destruct (filter _ (prefers ver)) as [|c l]; cbn; [by rewrite app_nil_r|done]. }
    destruct (version_step handshake set t (Some (spoke, tvs)) ver w0) as [st w1]. cbn [fst] in Hs. subst st.
    rewrite IH. cbn [length Nat.eqb negb flat_map]. by rewrite app_assoc, !orb_true_r. }
  unfold Enumerate, mbind, St_bind. specialize (Hloop (cs_Versions set) false [] w).
  destruct (for_each _ (cs_Versions set) (Some (false, [])) w) as [r w']. cbn [fst] in Hloop. subst r.
  destruct (Nat.eqb_spec (length (cs_Versions set)) 0) as [H0%nil_length_inv|_]; [done|].
  cbn [negb orb app mret St_ret fst option_bind]. unfold acceptance. by destruct (flat_map _ _).
Qed.
End Honest.

(** *** The rule that reads it *)

Definition value_text (v : acceptanceValue) : bool :=
  json_text (av_Outcome v) &&
  forallb (λ tv, json_text (tv_Version tv) && forallb json_text (tv_Ciphers tv)) (av_Versions v).

Class AcceptanceJSONLaws `{AcceptanceJSON} `{FactsJSON} : Prop := {
  acceptance_reads v : value_text v = true →
    DecodeTLSAcceptance (encode_acceptance v) = mkTLSValue (av_Outcome v) (av_Versions v)
}.

(** The facts of a service that was enumerated, and of nothing else. *)
Definition enumerated_facts `{AcceptanceJSON} `{FactsJSON} (target : AddrPort) (v : acceptanceValue) (vc : VergeCore.List)
    : ServiceFacts :=
  let o := EmitAcceptance target v in
  ServiceFactsFrom (ob_Subject o) (mkServiceEvidence false "" (Some (ob_Data o))) vc.

(** [C30] The rule on TLS 1.0 fires on what was measured: of a listener that takes the
    suite it likes best, the stored enumeration makes the rule fire exactly when
    the listener accepts a candidate suite under 1.0, leaves it unfired when it
    accepts something else alone, and outside its domain when it accepts nothing. *)
Theorem tls10_fires_on_the_measured `{AJ : AcceptanceJSON} `{FJ : FactsJSON} `{!AcceptanceJSONLaws} {W}
    (handshake : AddrPort → string → list string → St W Attempt) prefers takes13 set t w vc :
  (∀ t ver offered w, (handshake t ver offered w).1 =
     if String.eqb ver TLS13 then mkAttempt true takes13 ""
     else match selection prefers ver offered with
          | Some c => mkAttempt true true c
          | None => mkAttempt true false ""
          end) →
  (∀ ver, NoDup (prefers ver)) →
  NoDup (cs_Ciphers set) → cs_Ciphers set ≠ [] → TLS10 ∈ cs_Versions set →
  forallb json_text (cs_Ciphers set) && forallb json_text (cs_Versions set) = true →
  ∃ v, (Enumerate handshake set t w).1 = Some v ∧
    r_Eval tls10Accepted (enumerated_facts t v vc) =
      if decide (flat_map (accepted_of prefers takes13 set) (cs_Versions set) = []) then OutsideDomain
      else if decide (Exists (λ c, c ∈ cs_Ciphers set) (prefers TLS10)) then Fired else NotFired.
Proof.
  intros Hl Hp Hnd Hne H10 [Hct Hvt]%andb_true_iff. eexists. split.
  { apply (Enumerate_finds_the_preference handshake prefers takes13 Hl Hp); [done|done|]. intros E. rewrite E in H10. by apply not_elem_of_nil in H10. }
  set (vs := flat_map (accepted_of prefers takes13 set) (cs_Versions set)).
  assert (Hin : ∀ tv, tv ∈ vs → tv_Version tv ∈ cs_Versions set ∧ (∀ c, c ∈ tv_Ciphers tv → c ∈ cs_Ciphers set) ∧
      (tv_Version tv = TLS10 → Exists (λ c, c ∈ cs_Ciphers set) (prefers TLS10))).
  { intros tv Hx. apply list_elem_of_In in Hx. unfold vs in Hx. apply in_flat_map in Hx as (ver & Hver & Htv).
    apply list_elem_of_In in Hver, Htv. unfold accepted_of in Htv.
    destruct (String.eqb_spec ver TLS13) as [->|].
    - destruct takes13; [|by apply not_elem_of_nil in Htv]. apply list_elem_of_singleton in Htv as ->. cbn.
      split; [done|]. split; [by intros c []%not_elem_of_nil|done].
    - destruct (filter _ (prefers ver)) as [|c l] eqn:E; [by apply not_elem_of_nil in Htv|].
      apply list_elem_of_singleton in Htv as ->. cbn. split; [done|]. split.
      + intros x Hx. rewrite <- E in Hx. by apply list_elem_of_filter in Hx as [? _].
      + intros ->. apply Exists_exists. exists c. assert (Hx : c ∈ c :: l) by left. rewrite <- E in Hx.
        apply list_elem_of_filter in Hx as [? ?]. done. }
  assert (H10' : Exists (λ c, c ∈ cs_Ciphers set) (prefers TLS10) → ∃ tv, tv ∈ vs ∧ tv_Version tv = TLS10).
  { intros (c & Hc & Hcs)%Exists_exists.
    destruct (filter (λ c, c ∈ cs_Ciphers set) (prefers TLS10)) as [|c' l] eqn:E.
    { assert (Hx : c ∈ filter (λ c, c ∈ cs_Ciphers set) (prefers TLS10)) by (by apply list_elem_of_filter).
      rewrite E in Hx. by apply not_elem_of_nil in Hx. }
    exists (mkTLSVersion TLS10 (c' :: l)). split; [|done]. apply list_elem_of_In, in_flat_map. exists TLS10.
    split; [by apply list_elem_of_In|]. apply list_elem_of_In. unfold accepted_of.
    change (String.eqb TLS10 TLS13) with false. cbv iota. rewrite E. left. }
  assert (Hfacts : enumerated_facts t (match vs with [] => mkAcceptance TLSRefused [] | x :: l => mkAcceptance Enumerated (x :: l) end) vc =
    mkServiceFacts (ServiceKey t "tcp") (sf_OnSensitiveList (enumerated_facts t (mkAcceptance TLSRefused []) vc)) false ""
      (negb (length vs =? 0)%nat) (negb (length vs =? 0)%nat)
      (existsb (λ tv, String.eqb (tv_Version tv) TLS10) vs)).
  { unfold enumerated_facts, ServiceFactsFrom. cbn [EmitAcceptance ob_Subject ob_Data se_TLSAcceptance se_HasInternetReach se_InternetReach].
    destruct vs as [|tv vs'] eqn:Evs.
    - rewrite !acceptance_reads by reflexivity. reflexivity.
    - rewrite !acceptance_reads; [reflexivity|reflexivity|]. unfold value_text. cbn [av_Outcome av_Versions].
      change (json_text Enumerated) with true. cbn [andb]. apply forallb_bool. intros x Hx.
      destruct (Hin x Hx) as (Hv & Hc & _). rewrite (proj1 (forallb_bool _ _) Hvt _ Hv). cbn [andb].
      apply forallb_bool. intros c Hcx. apply (proj1 (forallb_bool _ _) Hct). by apply Hc. }
  rewrite Hfacts. cbn [tls10Accepted r_Eval sf_TLSHandshakeCompleted sf_TLSVersionsReadable sf_TLS10Accepted].
  destruct (decide (vs = [])) as [->|Hvs]; [done|].
  destruct (Nat.eqb_spec (length vs) 0) as [H0%nil_length_inv|_]; [done|]. cbn [negb].
  assert (Hb : existsb (λ tv, String.eqb (tv_Version tv) TLS10) vs = true ↔ Exists (λ c, c ∈ cs_Ciphers set) (prefers TLS10)).
  { rewrite existsb_exists. setoid_rewrite String.eqb_eq. setoid_rewrite <- list_elem_of_In. split; [|exact H10'].
    intros (tv & Htv & He). by apply (Hin tv Htv). }
  destruct (decide _) as [Hd|Hd]; [by rewrite (proj2 Hb Hd)|].
  destruct (existsb _ vs); [by destruct Hd; apply Hb|done].
Qed.

(** *** Pacing *)

Definition host_pace_step (st : HostPacer * list (string * Z)) (op : string * Z) : HostPacer * list (string * Z) :=
  let '(t, p) := Next op.1 op.2 st.1 in (p, st.2 ++ [(op.1, t)]).

(** The handshakes granted, in order, of those asked for. *)
Definition host_pace (ops : list (string * Z)) (p : HostPacer) : list (string * Z) := (foldl host_pace_step (p, []) ops).2.

Definition host_spaced (interval : Z) (a b : string * Z) : Prop := a.1 = b.1 → a.2 + interval ≤ b.2.

(** Two grants to one host stand apart by the interval. *)
Lemma host_pacer_spaces interval ops :
  0 ≤ interval → pairwise (host_spaced interval) (host_pace ops (mkHostPacer interval ∅)).
Proof.
  intros Hi. unfold host_pace.
  set (ok := λ st : HostPacer * list (string * Z), hp_interval st.1 = interval ∧
    pairwise (host_spaced interval) st.2 ∧
    ∀ g, g ∈ st.2 → ∃ last, hp_lastHost st.1 !! g.1 = Some last ∧ g.2 ≤ last).
  assert (Hstep : ∀ ops st, ok st → ok (foldl host_pace_step st ops)).
  { induction ops0 as [|[h now] ops0 IH]; intros [p gs] Hok; [done|]. cbn [foldl]. apply IH.
    destruct Hok as (Hp & Hs & Hl). cbn [fst snd] in *. unfold host_pace_step, Next. cbn [fst snd].
    set (e := match hp_lastHost p !! h with Some last => _ | None => now end).
    assert (He : ∀ last, hp_lastHost p !! h = Some last → last + interval ≤ e).
    { intros last Hlast. unfold e. rewrite Hlast, <- Hp. pose proof (later_spec (TimeAdd last (hp_interval p)) now).
      unfold TimeAdd in *. lia. }
    clearbody e. split; [done|]. cbn [fst snd hp_lastHost]. split.
    - apply pairwise_snoc. split; [done|]. apply Forall_forall. intros g Hg Heq. cbn [fst snd] in *.
      destruct (Hl g Hg) as (last & Hlast & Hle). rewrite Heq in Hlast. specialize (He last Hlast). lia.
    - intros g [Hg| ->%list_elem_of_singleton]%elem_of_app; cbn [fst snd].
      + destruct (Hl g Hg) as (last & Hlast & Hle). destruct (decide (h = g.1)) as [->|Hne].
        * rewrite lookup_insert_eq. exists e. split; [done|]. specialize (He last Hlast). lia.
        * rewrite lookup_insert_ne by done. by exists last.
      + rewrite lookup_insert_eq. by exists e. }
  destruct (Hstep ops (mkHostPacer interval ∅, [])) as (_ & H & _); [|done].
  split; [done|]. split; [done|]. intros g []%not_elem_of_nil.
Qed.

(** At the declared rate: a second divided by the handshakes a host may have in it. *)
Lemma NewPacer_spaces set ops :
  pairwise (host_spaced (Second ÷ Z.max 1 (cs_MaxHandshakesPerSecPerHost set))) (host_pace ops (NewPacer set)).
Proof.
  unfold NewPacer. replace (if cs_MaxHandshakesPerSecPerHost set <? 1 then 1 else cs_MaxHandshakesPerSecPerHost set)
    with (Z.max 1 (cs_MaxHandshakesPerSecPerHost set)) by (destruct (Z.ltb_spec (cs_MaxHandshakesPerSecPerHost set) 1); lia).
  apply host_pacer_spaces. apply Z.quot_pos; [done|lia].
Qed.

(** *** Instances *)

Definition version_fields (v : TLSVersion) : string * list string := (tv_Version v, tv_Ciphers v).

#[export] Instance bits_acceptance : AcceptanceJSON :=
  λ v, bits_text (encode (av_Outcome v, map version_fields (av_Versions v))).

#[export] Instance bits_tls_facts : FactsJSON :=
  Build_FactsJSON (λ _, mkCertValue "" [] "" "" [] [] []) (λ _, mkHTTPValue "" 0 "" "" "" "")
    (λ s, match decode (text_bits s) with
          | Some (o, vs) => mkTLSValue o (map (λ f : string * list string, mkTLSVersion f.1 f.2) vs)
          | None => mkTLSValue "" []
          end).

#[export] Instance bits_tls_laws : AcceptanceJSONLaws.
Proof.
  constructor. intros v _. cbn [DecodeTLSAcceptance bits_tls_facts]. unfold encode_acceptance, bits_acceptance.
  rewrite text_bits_text, decode_encode. f_equal. rewrite map_map. erewrite map_ext; [apply map_id|]. by intros [].
Qed.

(** A listener that prefers one suite under every version, and counts its handshakes. *)
Definition demo_prefers (ver : string) : list string :=
  ["TLS_ECDHE_RSA_WITH_AES_128_GCM_SHA256"; "TLS_UNKNOWN"; "TLS_RSA_WITH_AES_128_CBC_SHA"].

Definition demo_listener (t : AddrPort) (ver : string) (offered : list string) : St nat Attempt := λ n,
  (if String.eqb ver TLS13 then mkAttempt true false ""
   else match selection demo_prefers ver offered with Some c => mkAttempt true true c | None => mkAttempt true false "" end, S n).

Definition demo_tls_target : AddrPort := mkAddrPort (Addr4 3221225985) 443.

Example Enumerate_ex :
  let '(v, n) := Enumerate demo_listener DefaultCandidateSet demo_tls_target 0%nat in
  v = Some (mkAcceptance Enumerated (map (λ ver, mkTLSVersion ver
        ["TLS_ECDHE_RSA_WITH_AES_128_GCM_SHA256"; "TLS_RSA_WITH_AES_128_CBC_SHA"]) ["1.0"; "1.1"; "1.2"])) ∧
  n = 10%nat.
Proof. vm_compute. split; reflexivity. Qed.

Lemma demo_listens t ver offered w :
  (demo_listener t ver offered w).1 =
    if String.eqb ver TLS13 then mkAttempt true false ""
    else match selection demo_prefers ver offered with Some c => mkAttempt true true c | None => mkAttempt true false "" end.
Proof. reflexivity. Qed.

Lemma demo_prefers_once ver : NoDup (demo_prefers ver).
Proof. apply (bool_decide_unpack _). vm_compute. exact I. Qed.

Lemma DefaultCiphers_once : NoDup (cs_Ciphers DefaultCandidateSet).
Proof. apply (bool_decide_unpack _). vm_compute. exact I. Qed.

Lemma Enumerate_finds_the_preference_witness :
  (Enumerate demo_listener DefaultCandidateSet demo_tls_target 0%nat).1 =
    Some (match flat_map (accepted_of demo_prefers false DefaultCandidateSet) (cs_Versions DefaultCandidateSet) with
          | [] => mkAcceptance TLSRefused []
          | vs => mkAcceptance Enumerated vs
          end).
Proof.
  apply (Enumerate_finds_the_preference demo_listener demo_prefers false demo_listens demo_prefers_once);
    [exact DefaultCiphers_once|discriminate|discriminate].
Defined.

Lemma tls10_fires_on_the_measured_witness :
  ∃ v, (Enumerate demo_listener DefaultCandidateSet demo_tls_target 0%nat).1 = Some v ∧
    r_Eval tls10Accepted (enumerated_facts demo_tls_target v (mkList ∅ ∅)) =
      if decide (flat_map (accepted_of demo_prefers false DefaultCandidateSet) (cs_Versions DefaultCandidateSet) = []) then OutsideDomain
      else if decide (Exists (λ c, c ∈ cs_Ciphers DefaultCandidateSet) (demo_prefers TLS10)) then Fired else NotFired.
Proof.
  apply (tls10_fires_on_the_measured demo_listener demo_prefers false DefaultCandidateSet demo_tls_target 0%nat (mkList ∅ ∅)
    demo_listens demo_prefers_once DefaultCiphers_once); [discriminate|left|reflexivity].
Defined.
