(* ===== verification/HTTPLeaf.v ===== *)
(** * The HTTP leaf

    [measure/httpexchange]: what one bounded GET says of an endpoint.  The
    exchange is a parameter over a world, [encoding/json] a class and the Unicode
    half of [strings.EqualFold] [SignalFacts]'s. *)

From S2P Require Import Prelude GoTime GoStr NetIP NetParse NetText SubjectScope Signal SignalFacts Dispatch Pacing TLSLeaf.

(** ** Text *)

(** What is left after a white-space character at the head. *)
Definition space_at (s : string) : option string :=
  match list_find is_Some (map (λ w, cut_prefix w s) white_space) with
  | Some (_, r) => r
  | None => None
  end.

Definition flush (word : string) : list string := if String.eqb word "" then [] else [word].

(** [strings.Fields]; a step a byte at most. *)
Fixpoint fields_loop (fuel : nat) (s word : string) : list string :=
  match fuel, s with
  | S fuel', String c s' =>
      match space_at s with
      | Some r => flush word ++ fields_loop fuel' r ""
      | None => fields_loop fuel' s' (word +:+ String c "")%string
      end
  | _, _ => flush word
  end.

Definition strings_Fields (s : string) : list string := fields_loop (String.length s) s "".

Section Title.
Context {F : UnicodeFold}.

Fixpoint indexASCIIFold (s sub : string) : Z :=
  if (String.length s <? String.length sub)%nat then -1
  else if EqualFold (slice_to s (Z.of_nat (String.length sub))) sub then 0
  else
    match s with
    | "" => -1
    | String _ s' => let i := indexASCIIFold s' sub in if i <? 0 then -1 else i + 1
    end.

Definition titleCap : Z := 256.

Definition extractTitle (s : string) : string :=
  let open := indexASCIIFold s "<title" in
  if open <? 0 then ""
  else
    let gt := IndexByte (slice_from s open) ">" in
    if gt <? 0 then ""
    else
      let start := open + gt + 1 in
      let stop := indexASCIIFold (slice_from s start) "</title>" in
      if stop <? 0 then ""
      else
        let title := String.concat " " (strings_Fields (slice_to (slice_from s start) stop)) in
        if titleCap <? Z.of_nat (String.length title) then slice_to title titleCap else title.
End Title.

(** ** Identity *)

Record Target := mkTarget { tg_Name : string; tg_Address : string; tg_Port : Z; tg_Scheme : string }.

Definition Target_ServiceKey (t : Target) : string :=
  match ParseAddr (tg_Address t) with
  | Some addr => (AddrPort_String (mkAddrPort (Unmap addr) (tg_Port t)) +:+ "/tcp")%string
  | None => (tg_Address t +:+ ":" +:+ itoa (tg_Port t) +:+ "/tcp")%string
  end.

Definition EndpointKey (name serviceKey : string) : string := (name +:+ "@" +:+ serviceKey)%string.

Definition Target_EndpointKey (t : Target) : string := EndpointKey (tg_Name t) (Target_ServiceKey t).

Record ExchangeResult := mkExchange {
  xr_Failed : bool;
  xr_Status : Z;
  xr_Server : string;
  xr_WWWAuthenticate : string;
  xr_Location : string;
  xr_Body : string
}.

Definition OutcomeNoHTTPResponse : string := "no-http-response".

Record HTTPIdentity := mkIdentity {
  id_Outcome : string;
  id_Status : Z;
  id_Server : string;
  id_Title : string;
  id_WWWAuthenticate : string;
  id_RedirectLocation : string
}.

Definition Identity {F : UnicodeFold} (r : ExchangeResult) (bodyCap : Z) : HTTPIdentity :=
  if xr_Failed r then mkIdentity OutcomeNoHTTPResponse 0 "" "" "" ""
  else
    let bodyCap := if bodyCap <? 0 then 0 else bodyCap in
    let body := if bodyCap <? Z.of_nat (String.length (xr_Body r)) then slice_to (xr_Body r) bodyCap else xr_Body r in
    mkIdentity OutcomeResponded (xr_Status r) (xr_Server r) (extractTitle body) (xr_WWWAuthenticate r) (xr_Location r).

(** ** Lines *)

Definition Kind : string := "http-exchange".

Class IdentityJSON := encode_identity : HTTPIdentity → string.

Definition EmitEndpoint {J : IdentityJSON} (target : Target) (id : HTTPIdentity) : Observation :=
  mkObs Kind FacetHTTPIdentity (Target_EndpointKey target) "" (tg_Address target) (encode_identity id).

Section Run.
Context {F : UnicodeFold} {J : IdentityJSON} {W : Type}.
Variable exchange : Target → St W ExchangeResult.

Definition target_step (bodyCap : Z) (out : list Observation) (t : Target) : St W (list Observation) :=
  res ← exchange t; mret (out ++ [EmitEndpoint t (Identity res bodyCap)]).

Definition RunWithExchanger (params : Params) (targets : list Target) : St W (list Observation) :=
  let bodyCap := BodyCapBytes params in
  let bodyCap := if bodyCap <=? 0 then BodyCapBytes DefaultParams else bodyCap in
  for_each (target_step bodyCap) targets [].
End Run.

(** ** Pacing *)

Definition http_NewPacer (p : Params) : HostPacer :=
  let rate := PerHostReqPerSec p in
  mkHostPacer (Second ÷ (if rate <? 1 then 1 else rate)) ∅.

Definition http_Next (host : string) (now : Z) (p : HostPacer) : Z * HostPacer :=
  let earliest :=
    match hp_lastHost p !! host with
    | Some last => later (TimeAdd last (hp_interval p)) now
    | None => now
    end in
  (earliest, mkHostPacer (hp_interval p) (<[host := earliest]> (hp_lastHost p))).

Definition pacedExchange {W} (now : St W Z) (sleep : Z → St W unit) (exchange : Target → St W ExchangeResult)
    (target : Target) : St (HostPacer * W) ExchangeResult := λ '(p, w),
  let '(t, w) := now w in
  let '(due, p) := http_Next (tg_Address target) t p in
  let '(t', w) := now w in
  let d := TimeSub due t' in
  let '(_, w) := if 0 <? d then sleep d w else (tt, w) in
  let '(a, w) := exchange target w in
  (a, (p, w)).

(** ** Properties *)

(** *** The title *)

Section Titles.
Context {F : UnicodeFold}.

(** A place where a text stands, whatever the case of its letters. *)
Definition stands_at (s sub : string) (i : nat) : Prop :=
  (i + String.length sub ≤ String.length s)%nat ∧ EqualFold (String.substring i (String.length sub) s) sub = true.

Lemma stands_at_S c s sub i : stands_at (String c s) sub (S i) ↔ stands_at s sub i.
Proof. unfold stands_at. cbn [String.length String.substring]. split; intros [? ?]; (split; [lia|done]). Qed.

(** The search finds the first place, or none. *)
Lemma indexASCIIFold_spec s sub :
  (indexASCIIFold s sub = -1 ∧ ∀ i, ¬ stands_at s sub i) ∨
  ∃ i, indexASCIIFold s sub = Z.of_nat i ∧ stands_at s sub i ∧ ∀ j, (j < i)%nat → ¬ stands_at s sub j.
Proof.
  assert (Hshort : ∀ s, (String.length s < String.length sub)%nat → ∀ i, ¬ stands_at s sub i)
    by (intros s0 Hs i [Hi _]; lia).
  assert (Hz : ∀ s, (String.length sub ≤ String.length s)%nat →
    stands_at s sub 0 ↔ EqualFold (slice_to s (Z.of_nat (String.length sub))) sub = true).
  { intros s0 Hs. unfold stands_at, slice_to. rewrite Nat2Z.id. split; [by intros [_ ?]|]. intros He. split; [lia|done]. }
  induction s as [|c s IH]; cbn [indexASCIIFold].
  - destruct (Nat.ltb_spec (String.length "") (String.length sub)) as [Hl|Hl]; [left; split; [done|by apply Hshort]|].
    specialize (Hz "" Hl). destruct (EqualFold _ sub).
    + right. exists 0%nat. split; [done|]. split; [by apply Hz|lia].
    + left. split; [done|]. intros [|i] Hi; [by apply Hz in Hi|]. destruct Hi as [Hi _]. cbn in Hi. lia.
  - destruct (Nat.ltb_spec (String.length (String c s)) (String.length sub)) as [Hl|Hl]; [left; split; [done|by apply Hshort]|].
    specialize (Hz (String c s) Hl). destruct (EqualFold _ sub).
    + right. exists 0%nat. split; [done|]. split; [by apply Hz|lia].
    + destruct IH as [[-> Hno]|(i & -> & Hi & Hfirst)].
      * left. split; [done|]. intros [|j] Hj; [by apply Hz in Hj|]. apply stands_at_S in Hj. by apply (Hno j).
      * right. exists (S i). rewrite (proj2 (Z.ltb_ge _ _)) by lia. split; [lia|]. split; [by apply stands_at_S|].
        intros [|j] Hj; [by intros ?%Hz|]. rewrite stands_at_S. apply Hfirst. lia.
Qed.

Lemma indexASCIIFold_first s sub i :
  stands_at s sub i → (∀ j, (j < i)%nat → ¬ stands_at s sub j) → indexASCIIFold s sub = Z.of_nat i.
Proof.
  intros Hi Hfirst. destruct (indexASCIIFold_spec s sub) as [[_ Hno]|(k & -> & Hk & Hkf)]; [by destruct (Hno i)|].
  destruct (Nat.lt_trichotomy i k) as [H|[->|H]]; [by destruct (Hkf i)|done|by destruct (Hfirst k)].
Qed.

Lemma EqualFold_refl s : string_forallb is_ascii s = true → EqualFold s s = true.
Proof.
  induction s as [|c s IH]; [done|]. cbn. intros [Hc Hs]%andb_true_iff. rewrite Hc. cbn [andb negb].
  by rewrite Ascii.eqb_refl, IH.
Qed.

Lemma slice_to_length s n : 0 ≤ n → (String.length (slice_to s n) ≤ Z.to_nat n)%nat.
Proof.
  intros Hn. unfold slice_to. generalize (Z.to_nat n). clear. induction s as [|c s IH]; intros [|k]; cbn; try lia.
  specialize (IH k). lia.
Qed.

(** A page's title is at most 256 bytes, and is that of the first element in the
    bytes that are kept: the text between the first start tag, whatever its
    attributes, and the first end tag after it, its white space run together;
    what stands before and behind does not matter. *)
Theorem extractTitle_spec pre attrs text rest :
  (∀ j, (j < String.length pre)%nat → ¬ stands_at (pre +:+ "<title" +:+ attrs +:+ ">" +:+ text +:+ "</title>" +:+ rest) "<title" j) →
  string_forallb (λ c, negb (Ascii.eqb c ">")) attrs = true →
  (∀ j, (j < String.length text)%nat → ¬ stands_at (text +:+ "</title>" +:+ rest) "</title>" j) →
  let title := String.concat " " (strings_Fields text) in
  extractTitle (pre +:+ "<title" +:+ attrs +:+ ">" +:+ text +:+ "</title>" +:+ rest) =
    (if titleCap <? Z.of_nat (String.length title) then slice_to title titleCap else title) ∧
  (String.length (extractTitle (pre +:+ "<title" +:+ attrs +:+ ">" +:+ text +:+ "</title>" +:+ rest)) ≤ 256)%nat.
Proof.
  intros Hpre Hattrs Htext title.
  assert (Hstands : ∀ a sub b, string_forallb is_ascii sub = true → stands_at (a +:+ sub +:+ b) sub (String.length a)).
  { intros a sub b Hs. split; [rewrite !length_append; lia|].
    assert (E : String.substring (String.length a) (String.length sub) (a +:+ sub +:+ b) = sub).
    { induction a as [|c a IHa]; [|exact IHa]. rewrite append_nil. cbn [String.length]. clear. induction sub as [|c sub IHs]; [by destruct b|].
      rewrite append_cons. cbn. by rewrite IHs. }
    rewrite E. by apply EqualFold_refl. }
  assert (Hdrop : ∀ a b, slice_from (a +:+ b) (Z.of_nat (String.length a)) = b).
  { intros a b. unfold slice_from. rewrite Nat2Z.id, length_append. replace (_ + _ - _)%nat with (String.length b) by lia.
    induction a as [|c a IHa]; [apply substring_all|exact IHa]. }
  set (tail := text +:+ "</title>" +:+ rest) in *.
  assert (Ht : extractTitle (pre +:+ "<title" +:+ attrs +:+ ">" +:+ tail) =
    (if titleCap <? Z.of_nat (String.length title) then slice_to title titleCap else title)).
  { unfold extractTitle. rewrite (indexASCIIFold_first _ _ (String.length pre)); [|by apply Hstands|done].
    rewrite (proj2 (Z.ltb_ge _ _)) by lia. rewrite Hdrop.
    change ("<title" +:+ attrs +:+ ">" +:+ tail)%string with ("<title" +:+ (attrs +:+ String ">" tail))%string.
    rewrite append_assoc. rewrite IndexByte_app by (rewrite string_forallb_app; by rewrite Hattrs).
    rewrite (proj2 (Z.ltb_ge (Z.of_nat (String.length ("<title" +:+ attrs))) 0)) by lia.
    replace (Z.of_nat (String.length pre) + Z.of_nat (String.length ("<title" +:+ attrs)) + 1)
      with (Z.of_nat (String.length (pre +:+ ("<title" +:+ attrs) +:+ ">"))) by (rewrite !length_append; cbn [String.length]; lia).
    replace (pre +:+ ("<title" +:+ attrs) +:+ String ">" tail)%string
      with ((pre +:+ ("<title" +:+ attrs) +:+ ">") +:+ tail)%string
      by (rewrite <- !append_assoc; reflexivity).
    rewrite Hdrop. unfold tail. rewrite (indexASCIIFold_first _ _ (String.length text)); [|by apply Hstands|done].
    rewrite (proj2 (Z.ltb_ge _ _)) by lia. by rewrite slice_to_app. }
  split; [exact Ht|]. rewrite Ht. destruct (Z.ltb_spec titleCap (Z.of_nat (String.length title))) as [H|H].
  - change 256%nat with (Z.to_nat titleCap). by apply slice_to_length.
  - unfold titleCap in H. lia.
Qed.
End Titles.

(** *** The bytes that count *)

Lemma slice_to_slice_to s n : 0 ≤ n → slice_to (slice_to s n) n = slice_to s n.
Proof.
  intros Hn. unfold slice_to. generalize (Z.to_nat n). clear. induction s as [|c s IH]; intros [|k]; [done|done|done|].
  cbn. by rewrite IH.
Qed.

(** What lies past the cap says nothing. *)
Lemma Identity_reads_the_prefix {F : UnicodeFold} failed st sv wa loc body body' cap :
  0 ≤ cap → slice_to body cap = slice_to body' cap → cap < Z.of_nat (String.length body) →
  cap < Z.of_nat (String.length body') →
  Identity (mkExchange failed st sv wa loc body) cap = Identity (mkExchange failed st sv wa loc body') cap.
Proof.
  intros Hc He H1 H2. unfold Identity. cbn [xr_Failed xr_Body xr_Status xr_Server xr_WWWAuthenticate xr_Location].
  destruct failed; [done|]. rewrite (proj2 (Z.ltb_ge _ 0)) by lia. rewrite !(proj2 (Z.ltb_lt _ _)) by lia. by rewrite He.
Qed.

(** *** The rules that read it *)

Definition identity_text (v : HTTPIdentity) : bool :=
  json_text (id_Outcome v) && json_text (id_Server v) && json_text (id_Title v) && json_text (id_WWWAuthenticate v) &&
  json_text (id_RedirectLocation v).

Class IdentityJSONLaws `{IdentityJSON} `{FactsJSON} : Prop := {
  identity_reads v : identity_text v = true →
    DecodeHTTPIdentity (encode_identity v) =
      mkHTTPValue (id_Outcome v) (id_Status v) (id_Server v) (id_Title v) (id_WWWAuthenticate v) (id_RedirectLocation v)
}.

(** What the rules have to go by, out of the exchange itself. *)
Definition measured_exchange (subject name : string) (r : ExchangeResult) : EndpointFacts :=
  mkEndpoint subject (negb (String.eqb name "")) false "" None (negb (xr_Failed r))
    (if xr_Failed r then 0 else xr_Status r) (if xr_Failed r then "" else xr_Location r) false.

(** The rules read what the exchange measured: the line of an exchange, its value
    stored and read back, gives an endpoint's facts whether it responded, its
    status and where it redirects, and nothing of a certificate; so the rule on
    unauthenticated requests fires exactly on an answer in the two hundreds. *)
Theorem http_facts_measured `{IJ : IdentityJSON} `{FJ : FactsJSON} `{F : UnicodeFold} `{!IdentityJSONLaws}
    url_Parse ToLower target r cap now :
  identity_text (Identity r cap) = true → string_forallb (λ c, negb (Ascii.eqb c "@")) (tg_Name target) = true →
  let o := EmitEndpoint target (Identity r cap) in
  let f := EndpointFactsFrom url_Parse ToLower (ob_Subject o) (mkEndpointEvidence None 0 (Some (ob_Data o))) now None in
  f = measured_exchange (Target_EndpointKey target) (tg_Name target) r ∧
  (r_Eval unauthenticatedRequestAnswered f = Fired ↔ xr_Failed r = false ∧ 200 ≤ xr_Status r ≤ 299).
Proof.
  intros Ht Hn o f.
  assert (Hf : f = measured_exchange (Target_EndpointKey target) (tg_Name target) r).
  { unfold f, o. cbn [EmitEndpoint ob_Subject ob_Data]. unfold EndpointFactsFrom, measured_exchange.
    unfold SplitEndpointName, Target_EndpointKey, EndpointKey.
    change (tg_Name target +:+ "@" +:+ Target_ServiceKey target)%string
      with (tg_Name target +:+ String "@" (Target_ServiceKey target))%string.
    rewrite IndexByte_app, slice_to_app, slice_from_app by done. rewrite (proj2 (Z.leb_le 0 _)) by lia.
    cbn [ee_Certificate ee_HTTPIdentity fmap option_fmap option_map mbind option_bind].
    rewrite identity_reads by done. cbn [hv_Outcome hv_Status hv_RedirectLocation].
    rewrite bool_decide_eq_false_2 by (by intros []). unfold Identity. by destruct (xr_Failed r). }
  split; [exact Hf|]. rewrite Hf. clear.
  unfold measured_exchange, unauthenticatedRequestAnswered. cbn [r_Eval ef_HTTPResponded ef_HTTPStatus].
  destruct (xr_Failed r); cbn [negb]; [naive_solver|].
  destruct (Z.leb_spec 200 (xr_Status r)), (Z.leb_spec (xr_Status r) 299); cbn [andb negb];
    repeat match goal with |- context [xr_Status r =? ?k] => destruct (xr_Status r =? k) end; cbn [orb negb];
    (split; [intros E; first [discriminate E|split; [done|lia]]|intros [_ ?]; first [reflexivity|lia]]).
Qed.

(** *** Instances *)

#[export] Instance bits_identity : IdentityJSON := λ v,
  bits_text (encode (id_Outcome v, id_Status v, id_Server v, id_Title v, id_WWWAuthenticate v, id_RedirectLocation v)).

#[export] Instance bits_http_facts : FactsJSON :=
  Build_FactsJSON (λ _, mkCertValue "" [] "" "" [] [] [])
    (λ s, match decode (text_bits s) with
          | Some (o, st, sv, ti, wa, loc) => mkHTTPValue o st sv ti wa loc
          | None => mkHTTPValue "" 0 "" "" "" ""
          end)
    (λ _, mkTLSValue "" []).

#[export] Instance bits_http_laws : IdentityJSONLaws.
Proof.
  constructor. intros v _. cbn [DecodeHTTPIdentity bits_http_facts]. unfold encode_identity, bits_identity.
  by rewrite text_bits_text, decode_encode.
Qed.

Definition demo_page : string := "<html><HEAD><Title lang=en>  Sign   in </TITLE><title>no</title>".

Example extractTitle_ex : extractTitle demo_page = "Sign in" ∧ extractTitle "<title>open" = "" ∧ extractTitle "" = "".
Proof. vm_compute. done. Qed.

Lemma below_no_place s sub n :
  forallb (λ j, negb ((j + String.length sub <=? String.length s)%nat && EqualFold (String.substring j (String.length sub) s) sub))
    (seq 0 n) = true → ∀ j, (j < n)%nat → ¬ stands_at s sub j.
Proof.
  intros Hall j Hj [Hlen He]. rewrite forallb_forall in Hall. specialize (Hall j). rewrite in_seq in Hall.
  specialize (Hall ltac:(lia)). rewrite He, (proj2 (Nat.leb_le _ _)) in Hall by done. done.
Qed.

Lemma extractTitle_spec_witness :
  let title := String.concat " " (strings_Fields "  Sign   in ") in
  extractTitle ("<p>" +:+ "<title" +:+ " lang=en" +:+ ">" +:+ "  Sign   in " +:+ "</title>" +:+ "<title>no</title>") =
    (if titleCap <? Z.of_nat (String.length title) then slice_to title titleCap else title) ∧
  (String.length (extractTitle ("<p>" +:+ "<title" +:+ " lang=en" +:+ ">" +:+ "  Sign   in " +:+ "</title>" +:+ "<title>no</title>")) ≤ 256)%nat.
Proof.
  apply (extractTitle_spec "<p>" " lang=en" "  Sign   in " "<title>no</title>");
    [apply below_no_place; vm_compute; reflexivity|reflexivity|apply below_no_place; vm_compute; reflexivity].
Defined.

Definition demo_http_target : Target := mkTarget "www.example.com" "192.0.2.1" 80 "http".
Definition demo_exchange : ExchangeResult := mkExchange false 204 "nginx" "" "" demo_page.

Lemma http_facts_measured_witness :
  let o := EmitEndpoint demo_http_target (Identity demo_exchange 65536) in
  let f := EndpointFactsFrom (λ _, None) id (ob_Subject o) (mkEndpointEvidence None 0 (Some (ob_Data o))) 9 None in
  f = measured_exchange "www.example.com@192.0.2.1:80/tcp" "www.example.com" demo_exchange ∧
  (r_Eval unauthenticatedRequestAnswered f = Fired ↔ xr_Failed demo_exchange = false ∧ 200 ≤ xr_Status demo_exchange ≤ 299).
Proof.
  apply (http_facts_measured (λ _, None) id demo_http_target demo_exchange 65536 9); vm_compute; reflexivity.
Defined.
