(* ===== verification/Departures.v ===== *)
(** * Departures from the estate
    [queue/membership.go]: what each fold decides about the names it observed,
    and the closures that follow.  A name leaves by measured absence or by an
    exclusion; an address no name cites any longer leaves with every service and
    endpoint upon it.  The queries are those of [db/span.sql.go], over the rows of
    [SpanStore]; an error of the database abandons the transaction and is not
    modelled. *)

From S2P Require Import Prelude GoTime GoStr NetIP NetParse NetText GoConv Message Drift Estate SubjectScope SpanStore.

(** ** [LIKE] *)

(** SQL's pattern matching, over the characters of one byte that keys are made of;
    a pattern that ends in its escape is an error of the database, and matches
    nothing here. *)
Fixpoint like (p s : string) : bool :=
  match p with
  | "" => String.eqb s ""
  | String c p' =>
      if Ascii.eqb c "%" then
        (fix any (s : string) : bool :=
           like p' s || match s with "" => false | String _ s' => any s' end) s
      else if Ascii.eqb c "_" then match s with "" => false | String _ s' => like p' s' end
      else if Ascii.eqb c "\" then
        match p', s with
        | String d p'', String e s' => Ascii.eqb d e && like p'' s'
        | _, _ => false
        end
      else match s with "" => false | String d s' => Ascii.eqb c d && like p' s' end
  end.

(** ** Reads of the table of spans *)

(** What the queries read of a resolution's value: the texts under [addresses]
    when the member is an array, nulls left out, and whether the array contains a
    text. *)
Class JSONAddresses := {
  addresses_text : string → list string;
  addresses_hold : string → string → bool
}.

Definition is_name_resolution (r : span_row) : bool :=
  String.eqb (sr_SubjectKind r) subjectKindName && String.eqb (sr_Facet r) FacetResolution.

(** A row an address may carry. *)
Definition is_probed (r : span_row) : bool :=
  row_open r && (String.eqb (sr_SubjectKind r) subjectKindService || String.eqb (sr_SubjectKind r) subjectKindEndpoint).

Definition like_beneath (addr key : string) : bool :=
  like (addr +:+ ":%") key || like ("[" +:+ addr +:+ "]:%") key ||
  like ("%@" +:+ addr +:+ ":%") key || like ("%@[" +:+ addr +:+ "]:%") key.

(** The query's order does not show below. *)
Definition ListOpenSpansForSubject (kind key : string) (s : spans) : list span_row :=
  filter (λ r, sr_SubjectKind r = kind ∧ sr_SubjectKey r = key ∧ row_open r = true) (st_rows s).

Section Queries.
Context {J : JSONData} {A : JSONAddresses}.

Definition cited_texts (names : list string) (s : spans) : gset string :=
  list_to_set (flat_map (λ n, addresses_text (sr_Value n))
    (filter (λ n, is_name_resolution n = true ∧ sr_SubjectKey n ∈ names) (st_rows s))).

(** What a gap stands over: the latest closed value of its timeline. *)
Definition before_gap (r : span_row) (s : spans) : option span_row :=
  latest_row closed_at
    (filter (λ q, is_name_resolution q = true ∧ sr_SubjectKey q = sr_SubjectKey r ∧
                  sr_Discriminator q = sr_Discriminator r ∧ sr_VantageID q = sr_VantageID r ∧
                  sr_Source q = sr_Source r ∧ row_open q = false ∧ sr_IsGap q = false) (st_rows s)).

Definition cites (s : spans) (addr : string) (r : span_row) : bool :=
  row_open r && is_name_resolution r &&
  (if sr_IsGap r then match before_gap r s with Some p => addresses_hold (sr_Value p) addr | None => false end
   else addresses_hold (sr_Value r) addr).

Definition citers (s : spans) (addr : string) : list string :=
  sorted_keys (list_to_set (map sr_SubjectKey (filter (λ r, cites s addr r = true) (st_rows s)))).

Definition ListCitedAddressSpansForNames (names : list string) (s : spans) : list (string * list string) :=
  map (λ a, (a, citers s a))
    (filter (λ a, existsb (λ r, is_probed r && like_beneath a (sr_SubjectKey r)) (st_rows s) = true)
       (sorted_keys (cited_texts names s))).

Definition beneath_less (a b : span_row) : bool :=
  if negb (String.eqb (sr_SubjectKind a) (sr_SubjectKind b)) then str_less (sr_SubjectKind a) (sr_SubjectKind b)
  else if negb (String.eqb (sr_SubjectKey a) (sr_SubjectKey b)) then str_less (sr_SubjectKey a) (sr_SubjectKey b)
  else sr_ID a <? sr_ID b.

Definition ListOpenSpansBeneathAddresses (addresses : list string) (s : spans) : list span_row :=
  sort_stable beneath_less
    (filter (λ r, is_probed r = true ∧ existsb (λ a, like_beneath a (sr_SubjectKey r)) addresses = true) (st_rows s)).
End Queries.

(** ** What decides a name *)

Section Decision.
Context {J : JSONData}.

Definition resolutionOutcome (value : string) : string := json_outcome value.

Definition vantageClassKey (v : option Z) : string :=
  match v with None => "" | Some id => "vantage:" +:+ FormatInt id end.

Definition class_step (st : gmap string (list string) * list string) (r : span_row)
    : gmap string (list string) * list string :=
  let '(byVantage, order) := st in
  if negb (String.eqb (sr_Facet r) FacetResolution) then st
  else
    let key := vantageClassKey (sr_VantageID r) in
    (<[key := default [] (byVantage !! key) ++ [resolutionOutcome (sr_Value r)]]> byVantage,
     match byVantage !! key with None => order ++ [key] | Some _ => order end).

Definition resolutionWitnesses (open : list span_row) : list ClassWitness :=
  let '(byVantage, order) := foldl class_step (∅, []) open in
  map (λ key, mkWitness key (default [] (byVantage !! key))) order.

(** The reason a name leaves for, if it does. *)
Definition decideNameDeparture (open : list span_row) (seedCovered excluded : bool) : option string :=
  if (length open =? 0)%nat then None
  else if excluded then Some ReasonDescoped
  else
    let witnesses := resolutionWitnesses open in
    if seedCovered then
      if DecidedAbsentCrossClass witnesses then Some ReasonMeasuredAbsent else None
    else if WithdrawnCrossClass witnesses then Some ReasonMeasuredAbsent
    else None.
End Decision.

(** ** Closing *)

Definition closeSpansByID (ids : list Z) (at_ : Z) (reason : string) (batch : Z) (s : spans) : spans :=
  foldl (λ s id, CloseSpan at_ reason batch id s) s ids.

Record departure := mkDeparture {
  dp_SubjectKind : string;
  dp_SubjectKey : string;
  dp_Reason : string;
  dp_SourceKey : string;
  dp_Timelines : Z
}.

Definition observed_step (st : gset string * list string) (o : Observation) : gset string * list string :=
  let '(seen, out) := st in
  if negb (String.eqb (ob_Facet o) FacetResolution) || String.eqb (ob_Subject o) "" then st
  else if bool_decide (ob_Subject o ∈ seen) then st
  else ({[ ob_Subject o ]} ∪ seen, out ++ [ob_Subject o]).

Definition observedResolutionNames (obs : list Observation) : list string :=
  (foldl observed_step (∅, []) obs).2.

(** An address whose last citation went, and the rows beneath such addresses. *)
Record uncitedSubject := mkUncited { us_kind : string; us_key : string; us_spanIDs : list Z }.

Definition uncitedAddresses (rows : list (string * list string)) (seeds : list seed_row) : list uncitedSubject :=
  omap (λ row, addr ← ParseAddr row.1;
               if (AddressClosure (0 <? Z.of_nat (length row.2)) (addressSeedCovered addr seeds) false).2
               then Some (mkUncited subjectKindAddress row.1 []) else None) rows.

Definition beneath_step (under : gset Addr) (st : gmap (string * string) nat * list uncitedSubject) (r : span_row)
    : gmap (string * string) nat * list uncitedSubject :=
  let '(index, out) := st in
  match subjectAddress (sr_SubjectKind r) (sr_SubjectKey r) with
  | None => st
  | Some addr =>
      if negb (bool_decide (addr ∈ under)) then st
      else
        let k := (sr_SubjectKind r, sr_SubjectKey r) in
        match index !! k with
        | Some i => (index, alter (λ u, mkUncited (us_kind u) (us_key u) (us_spanIDs u ++ [sr_ID r])) i out)
        | None => (<[k := length out]> index, out ++ [mkUncited (sr_SubjectKind r) (sr_SubjectKey r) [sr_ID r]])
        end
  end.

Definition subjectsBeneath (rows : list span_row) (addresses : list string) : list uncitedSubject :=
  (foldl (beneath_step (list_to_set (omap ParseAddr addresses))) (∅, []) rows).2.

Section Fold.
Context {U : UnicodeCase} {J : JSONData} {A : JSONAddresses}.

Definition gapped_names (obs : list Observation) : gset string :=
  list_to_set (map ob_Subject (filter (λ o, ob_Facet o = FacetResolution ∧ isGapValue (ob_Facet o) (ob_Data o) = true) obs)).

Definition uncitedCiters (obs : list Observation) (departed : list string) : list string :=
  departed ++
  (foldl (λ st name, let '(seen, out) := st in
          if bool_decide (name ∈ (seen : gset string)) || bool_decide (name ∈ gapped_names obs) then st
          else ({[ name ]} ∪ seen, out ++ [name]))
     (list_to_set departed, []) (observedResolutionNames obs)).2.

Definition close_subjects (batch at_ : Z) (subjects : list uncitedSubject) (s : spans) : spans :=
  foldl (λ s u, closeSpansByID (us_spanIDs u) at_ ReasonUncited batch s) s subjects.

Definition closeUncitedAddresses (batch at_ : Z) (departed : list string) (inp : membershipInputs)
    (st : spans * list departure) : spans * list departure :=
  let '(s, deps) := st in
  if (length departed =? 0)%nat then st
  else
    let addresses := uncitedAddresses (ListCitedAddressSpansForNames departed s) (in_seeds inp) in
    if (length addresses =? 0)%nat then st
    else
      let keys := map us_key addresses in
      let subjects := addresses ++ subjectsBeneath (ListOpenSpansBeneathAddresses keys s) keys in
      (close_subjects batch at_ subjects s,
       deps ++ map (λ u, mkDeparture (us_kind u) (us_key u) ReasonUncited "" (Z.of_nat (length (us_spanIDs u)))) subjects).

(** One observed name: its spans closed where it leaves. *)
Definition name_step (batch at_ : Z) (inp : membershipInputs)
    (st : spans * list string * list departure) (name : string) : spans * list string * list departure :=
  let '(s, departed, deps) := st in
  let open := ListOpenSpansForSubject subjectKindName name s in
  match decideNameDeparture open (nameSeedCovered name (in_seeds inp)) (nameExcluded name (in_exclusions inp)) with
  | None => st
  | Some reason =>
      (closeSpansByID (map sr_ID open) at_ reason batch s, departed ++ [name],
       deps ++ [mkDeparture subjectKindName name reason (coveringExclusionKey name reason (in_exclusions inp))
                  (Z.of_nat (length open))])
  end.

Definition foldEstateTransitions (batch at_ : Z) (obs : list Observation) (inp : membershipInputs) (s : spans)
    : spans * list departure :=
  let '(s, departed, deps) := foldl (name_step batch at_ inp) (s, [], []) (observedResolutionNames obs) in
  closeUncitedAddresses batch at_ (uncitedCiters obs departed) inp (s, deps).
End Fold.

Definition departure_message (at_ : Z) (d : departure) : option Message :=
  if negb (String.eqb (dp_Reason d) ReasonMeasuredAbsent) then None
  else Withdrawal (dp_SubjectKind d) (dp_SubjectKey d) (dp_Timelines d) at_.

Definition withdrawalMessages (at_ : Z) (departures : list departure) : list Message :=
  omap (departure_message at_) departures.

(** ** Properties *)

(** *** The decision on a name *)

Lemma Withdrawn_perm ws vs : ws ≡ₚ vs → WithdrawnCrossClass ws = WithdrawnCrossClass vs.
Proof.
  intros Hp. unfold WithdrawnCrossClass. rewrite (Permutation_length Hp). case_match; [done|]. by apply forallb_perm.
Qed.

Lemma Decided_perm ws vs : ws ≡ₚ vs → DecidedAbsentCrossClass ws = DecidedAbsentCrossClass vs.
Proof.
  intros Hp. unfold DecidedAbsentCrossClass. rewrite (Withdrawn_perm _ _ Hp). case_match; [done|]. by apply forallb_perm.
Qed.

Section Decide.
Context {J : JSONData}.

Definition row_outcome (r : span_row) : classedOutcome :=
  mkClassed (vantageClassKey (sr_VantageID r)) (resolutionOutcome (sr_Value r)).

Definition resolution_rows (open : list span_row) : list span_row := filter (λ r, sr_Facet r = FacetResolution) open.

Lemma class_fold open st :
  foldl class_step st open = foldl witness_step st (map row_outcome (resolution_rows open)).
Proof.
  revert st. induction open as [|r open IH]; intros st; [done|]. unfold resolution_rows in *. cbn [foldl].
  rewrite IH, filter_cons. unfold class_step at 1. destruct st as [m order].
  destruct (String.eqb_spec (sr_Facet r) FacetResolution) as [E|E]; cbn [negb];
    [by rewrite decide_True|by rewrite decide_False].
Qed.

Lemma resolutionWitnesses_perm open :
  resolutionWitnesses open ≡ₚ witnessesByClass (map row_outcome (resolution_rows open)).
Proof.
  unfold resolutionWitnesses, witnessesByClass. rewrite class_fold.
  destruct (foldl witness_step _ _) as [m order]. apply Permutation_map. symmetry. apply sort_stable_Permutation.
Qed.

(** What a reading of absence may be: a name a seed covers must be denied, any
    other may also be shadowed. *)
Definition reads_absent (seedCovered : bool) (r : span_row) : Prop :=
  resolutionOutcome (sr_Value r) = OutcomeNameError ∨
  (seedCovered = false ∧ resolutionOutcome (sr_Value r) = OutcomeShadowed).

#[export] Instance reads_absent_dec b r : Decision (reads_absent b r).
Proof. unfold reads_absent. apply _. Defined.

Lemma absent_spec open (seedCovered : bool) :
  (if seedCovered then DecidedAbsentCrossClass (resolutionWitnesses open)
   else WithdrawnCrossClass (resolutionWitnesses open)) = true ↔
  resolution_rows open ≠ [] ∧ Forall (reads_absent seedCovered) (resolution_rows open).
Proof.
  rewrite (Decided_perm _ _ (resolutionWitnesses_perm open)), (Withdrawn_perm _ _ (resolutionWitnesses_perm open)).
  assert (Hne : map row_outcome (resolution_rows open) ≠ [] ↔ resolution_rows open ≠ []).
  { by destruct (resolution_rows open). }
  rewrite Forall_forall. unfold reads_absent.
  destruct seedCovered; [rewrite Decided_witnesses|rewrite Withdrawn_witnesses]; rewrite Hne; apply and_iff_compat_l; split.
  - intros Ha r Hr. left. exact (Ha (row_outcome r) (list_elem_of_fmap_2 _ _ _ Hr)).
  - intros Ha co (r & -> & Hr)%list_elem_of_fmap. by destruct (Ha r Hr) as [?|[? _]].
  - intros Ha r Hr. specialize (Ha (row_outcome r) (list_elem_of_fmap_2 _ _ _ Hr)). unfold suppresses in Ha.
    apply orb_true_iff in Ha as [?%String.eqb_eq|?%String.eqb_eq]; auto.
  - intros Ha co (r & -> & Hr)%list_elem_of_fmap. unfold suppresses. cbn.
    destruct (Ha r Hr) as [-> |[_ ->]]; [done|by rewrite orb_true_r].
Qed.

(** A name leaves the estate on evidence or on the operator's word: with no open
    timeline it has nothing to leave with; an exclusion takes it whatever was
    measured; otherwise it leaves exactly when some vantage resolved it and every
    open resolution, of every vantage, reads it absent, where a name a seed covers
    is held through a shadowed answer, a gap or a lame zone. *)
Theorem decideNameDeparture_spec open (seedCovered excluded : bool) :
  match decideNameDeparture open seedCovered excluded with
  | Some reason =>
      open ≠ [] ∧
      (if excluded then reason = ReasonDescoped
       else reason = ReasonMeasuredAbsent ∧ resolution_rows open ≠ [] ∧
            Forall (reads_absent seedCovered) (resolution_rows open))
  | None =>
      open = [] ∨
      (excluded = false ∧
       (resolution_rows open = [] ∨ ∃ r, r ∈ resolution_rows open ∧ ¬ reads_absent seedCovered r))
  end.
Proof.
  unfold decideNameDeparture. destruct (Nat.eqb_spec (length open) 0) as [H0|H0]; [left; by apply nil_length_inv|].
  assert (open ≠ []) by (by intros ->). destruct excluded; [done|].
  assert (Hb : ∀ b, b = (if seedCovered then DecidedAbsentCrossClass (resolutionWitnesses open)
                         else WithdrawnCrossClass (resolutionWitnesses open)) →
    if b then resolution_rows open ≠ [] ∧ Forall (reads_absent seedCovered) (resolution_rows open)
    else resolution_rows open = [] ∨ ∃ r, r ∈ resolution_rows open ∧ ¬ reads_absent seedCovered r).
  { intros [] Hb; [by apply absent_spec|]. symmetry in Hb. apply not_true_iff_false in Hb. rewrite absent_spec in Hb.
    destruct (resolution_rows open) as [|r rs]; [by left|]. right.
    destruct (Exists_dec (λ r, ¬ reads_absent seedCovered r) (r :: rs)) as [He|He]; [by apply Exists_exists in He|].
    exfalso. apply Hb. split; [done|]. apply Forall_forall. intros x Hx.
    destruct (decide (reads_absent seedCovered x)); [done|]. exfalso. apply He, Exists_exists. eauto. }
  specialize (Hb _ eq_refl). destruct seedCovered; case_match; auto.
Qed.
End Decide.

(** *** Closing rows by their ids *)

Definition close_ids (ids : list Z) (at_ : Z) (reason : string) (batch : Z) (r : span_row) : span_row :=
  if bool_decide (sr_ID r ∈ ids) then close_row at_ reason batch (sr_ID r) r else r.

Lemma close_row_open at_ reason b id r : sr_ID r = id → row_open r = true → row_open (close_row at_ reason b id r) = false.
Proof. intros <- Ho. unfold close_row. by rewrite Z.eqb_refl, Ho. Qed.

Lemma close_row_fixed at_ reason b id r : row_open (close_row at_ reason b id r) = true → close_row at_ reason b id r = r.
Proof. unfold close_row. by destruct (_ && _). Qed.

Lemma closeSpansByID_rows ids at_ reason b s :
  closeSpansByID ids at_ reason b s = mkSpans (map (close_ids ids at_ reason b) (st_rows s)) (st_next s).
Proof.
  unfold closeSpansByID. revert s. induction ids as [|id ids IH]; intros s.
  - cbn [foldl]. rewrite map_id_on; [by destruct s|]. intros r _. unfold close_ids. by rewrite bool_decide_false by set_solver.
  - cbn [foldl]. rewrite IH. cbn [CloseSpan st_rows st_next]. f_equal. rewrite map_map. apply map_ext. intros r.
    unfold close_ids. rewrite close_row_id. destruct (Z.eq_dec (sr_ID r) id) as [<-|Hne].
    + rewrite (bool_decide_true (sr_ID r ∈ sr_ID r :: ids)) by left.
      destruct (row_open (close_row at_ reason b (sr_ID r) r)) eqn:Ho.
      * rewrite !(close_row_fixed _ _ _ _ _ Ho). by case_bool_decide.
      * rewrite (close_row_closed _ _ _ _ (close_row _ _ _ _ r)) by done. by case_bool_decide.
    + rewrite (close_row_other _ _ _ id) by done.
      rewrite (bool_decide_ext (sr_ID r ∈ id :: ids) (sr_ID r ∈ ids)); [done|].
      rewrite elem_of_cons. split; [by intros [?|?]|by right].
Qed.

(** What a closure leaves as it is. *)
Definition same_timeline (r r' : span_row) : Prop :=
  sr_ID r' = sr_ID r ∧ sr_SubjectKind r' = sr_SubjectKind r ∧ sr_SubjectKey r' = sr_SubjectKey r ∧
  sr_Facet r' = sr_Facet r ∧ sr_Value r' = sr_Value r.

Lemma close_row_same at_ reason b id r : same_timeline r (close_row at_ reason b id r).
Proof. unfold close_row. by destruct (_ && _). Qed.

(** *** The names *)

Section Names.
Context {U : UnicodeCase} {J : JSONData} (batch at_ : Z) (inp : membershipInputs).

Definition name_decision (s : spans) (name : string) : option string :=
  decideNameDeparture (ListOpenSpansForSubject subjectKindName name s)
    (nameSeedCovered name (in_seeds inp)) (nameExcluded name (in_exclusions inp)).

Definition open_name_row (r : span_row) : bool := row_open r && String.eqb (sr_SubjectKind r) subjectKindName.

(** A row after the names of [names] were decided. *)
Definition name_close (s : spans) (names : list string) (r : span_row) : span_row :=
  if open_name_row r && bool_decide (sr_SubjectKey r ∈ names) then
    match name_decision s (sr_SubjectKey r) with
    | Some reason => close_row at_ reason batch (sr_ID r) r
    | None => r
    end
  else r.

Lemma name_close_same s names r : same_timeline r (name_close s names r).
Proof.
  unfold name_close. destruct (_ && _); [|done]. destruct (name_decision _ _); [apply close_row_same|done].
Qed.

Lemma open_name_spec r name :
  (sr_SubjectKind r = subjectKindName ∧ sr_SubjectKey r = name ∧ row_open r = true) ↔
  open_name_row r = true ∧ sr_SubjectKey r = name.
Proof. unfold open_name_row. rewrite andb_true_iff, String.eqb_eq. tauto. Qed.

(** Closing one name's open rows by their ids closes those rows. *)
Lemma close_name_rows s name reason :
  ids_ok s →
  map (close_ids (map sr_ID (ListOpenSpansForSubject subjectKindName name s)) at_ reason batch) (st_rows s) =
  map (λ r, if open_name_row r && bool_decide (sr_SubjectKey r = name) then close_row at_ reason batch (sr_ID r) r else r)
    (st_rows s).
Proof.
  intros Hids. apply map_ext_in. intros r Hr%list_elem_of_In. unfold close_ids.
  destruct (open_name_row r && bool_decide (sr_SubjectKey r = name)) eqn:E.
  - apply andb_true_iff in E as [Ho Hk%bool_decide_eq_true].
    rewrite bool_decide_true; [done|]. apply list_elem_of_fmap. exists r. split; [done|].
    apply list_elem_of_filter. split; [|done]. apply open_name_spec. by split.
  - destruct (decide (sr_ID r ∈ map sr_ID (ListOpenSpansForSubject subjectKindName name s))) as [Hin|Hin];
      [rewrite bool_decide_true by done|by rewrite bool_decide_false by done].
    apply list_elem_of_fmap in Hin as (r' & Hid & [Hp Hr']%list_elem_of_filter).
    assert (r = r') as -> by (by apply (same_id_same_row s)).
    apply open_name_spec in Hp as [Ho Hk]. rewrite Ho, bool_decide_true in E by done. done.
Qed.

Lemma name_step_rows s dp ds name :
  ids_ok s →
  (name_step batch at_ inp (s, dp, ds) name).1 =
    (mkSpans (map (name_close s [name]) (st_rows s)) (st_next s),
     dp ++ (if name_decision s name then [name] else [])).
Proof.
  intros Hids. unfold name_step. fold (name_decision s name).
  assert (Hc : map (name_close s [name]) (st_rows s) =
    match name_decision s name with
    | Some reason => map (close_ids (map sr_ID (ListOpenSpansForSubject subjectKindName name s)) at_ reason batch) (st_rows s)
    | None => st_rows s
    end).
  { destruct (name_decision s name) as [reason|] eqn:E.
    - rewrite close_name_rows by done. apply map_ext. intros r. unfold name_close.
      rewrite (bool_decide_ext (sr_SubjectKey r ∈ [name]) (sr_SubjectKey r = name)) by apply list_elem_of_singleton.
      destruct (open_name_row r); cbn [andb]; [|done]. case_bool_decide as Hk; [|done]. by rewrite Hk, E.
    - apply map_id_on. intros r _. unfold name_close. destruct (_ && _) eqn:Ec; [|done].
      apply andb_true_iff in Ec as [_ Hk%bool_decide_eq_true]. apply list_elem_of_singleton in Hk. by rewrite Hk, E. }
  rewrite Hc. destruct (name_decision s name) as [reason|]; cbn [fst].
  - by rewrite closeSpansByID_rows.
  - rewrite app_nil_r. by destruct s.
Qed.

(** Deciding other names leaves a name's open rows, and so its decision, as they were. *)
Lemma name_decision_frame s names name :
  name ∉ names →
  name_decision (mkSpans (map (name_close s names) (st_rows s)) (st_next s)) name = name_decision s name.
Proof.
  intros Hn. unfold name_decision, ListOpenSpansForSubject. cbn [st_rows]. rewrite filter_map_frame; [done|].
  intros r _. rewrite !open_name_spec. destruct (decide (sr_SubjectKey r = name)) as [Hk|Hk].
  - assert (name_close s names r = r) as ->; [|tauto]. unfold name_close.
    rewrite (bool_decide_false (sr_SubjectKey r ∈ names)) by (by rewrite Hk). by rewrite andb_false_r.
  - destruct (name_close_same s names r) as (_ & _ & Hkey & _). rewrite Hkey. tauto.
Qed.

Lemma name_close_ids s names : ids_ok s → ids_ok (mkSpans (map (name_close s names) (st_rows s)) (st_next s)).
Proof.
  intros [Hn Hlt]. split; cbn [st_rows st_next].
  - rewrite map_map. erewrite map_ext; [exact Hn|]. intros r. by destruct (name_close_same s names r).
  - apply Forall_fmap. eapply Forall_impl; [exact Hlt|]. intros r Hr. cbn.
    by destruct (name_close_same s names r) as [-> _].
Qed.

Lemma name_close_other s names r : sr_SubjectKey r ∉ names → name_close s names r = r.
Proof. intros Hn. unfold name_close. by rewrite bool_decide_false, andb_false_r by done. Qed.

(** Deciding a name and then the others is deciding all of them. *)
Lemma name_close_cons s name names r :
  name ∉ names →
  name_close (mkSpans (map (name_close s [name]) (st_rows s)) (st_next s)) names (name_close s [name] r) =
  name_close s (name :: names) r.
Proof.
  intros Hn. destruct (decide (sr_SubjectKey r = name)) as [<-|Hk].
  - rewrite (name_close_other _ names) by (by destruct (name_close_same s [sr_SubjectKey r] r) as (_ & _ & -> & _)).
    unfold name_close. by rewrite !(bool_decide_true (sr_SubjectKey r ∈ _)) by left.
  - rewrite (name_close_other s [name]) by (by rewrite list_elem_of_singleton).
    unfold name_close at 1 3. rewrite name_decision_frame by (by rewrite list_elem_of_singleton).
    rewrite (bool_decide_ext (sr_SubjectKey r ∈ name :: names) (sr_SubjectKey r ∈ names)); [done|].
    rewrite elem_of_cons. split; [by intros [?|?]|by right].
Qed.

Lemma name_fold s dp ds names :
  ids_ok s → NoDup names →
  (foldl (name_step batch at_ inp) (s, dp, ds) names).1 =
    (mkSpans (map (name_close s names) (st_rows s)) (st_next s),
     dp ++ filter (λ n, is_Some (name_decision s n)) names).
Proof.
  intros Hids Hnd. revert s dp ds Hids. induction Hnd as [|name names Hnew Hnd IH]; intros s dp ds Hids.
  - cbn [foldl fst]. rewrite app_nil_r. f_equal. rewrite map_id_on; [by destruct s|].
    intros r _. unfold name_close. rewrite (bool_decide_false (_ ∈ [])) by set_solver. by rewrite andb_false_r.
  - cbn [foldl]. pose proof (name_step_rows s dp ds name Hids) as H1.
    destruct (name_step batch at_ inp (s, dp, ds) name) as [[s1 dp1] ds1]. cbn [fst] in H1. injection H1 as -> ->.
    rewrite IH by (by apply name_close_ids). cbn [st_rows st_next]. f_equal.
    + f_equal. rewrite map_map. apply map_ext. intros r. by apply name_close_cons.
    + rewrite <- app_assoc. f_equal. rewrite filter_cons.
      rewrite (filter_ext_in (λ n, is_Some (name_decision s n))
                 (λ n, is_Some (name_decision (mkSpans (map (name_close s [name]) (st_rows s)) (st_next s)) n))).
      * destruct (name_decision s name); [by rewrite decide_True by eauto|by rewrite decide_False by (by intros [])].
      * intros n Hin. rewrite name_decision_frame; [done|]. rewrite list_elem_of_singleton. by intros ->.
Qed.
End Names.

(** *** The addresses *)

Definition on_ground (under : gset Addr) (r : span_row) : bool :=
  match subjectAddress (sr_SubjectKind r) (sr_SubjectKey r) with Some a => bool_decide (a ∈ under) | None => false end.

Definition add_id (id : Z) (u : uncitedSubject) : uncitedSubject :=
  mkUncited (us_kind u) (us_key u) (us_spanIDs u ++ [id]).

Lemma flat_ids_alter id i out :
  (i < length out)%nat → flat_map us_spanIDs (alter (add_id id) i out) ≡ₚ flat_map us_spanIDs out ++ [id].
Proof.
  revert i. induction out as [|u out IH]; intros i Hi; cbn [length] in Hi; [lia|].
  destruct i as [|i].
  - change ((us_spanIDs u ++ [id]) ++ flat_map us_spanIDs out ≡ₚ (us_spanIDs u ++ flat_map us_spanIDs out) ++ [id]).
    rewrite <- !app_assoc. apply Permutation_app_head, Permutation_app_comm.
  - change (us_spanIDs u ++ flat_map us_spanIDs (alter (add_id id) i out) ≡ₚ
            (us_spanIDs u ++ flat_map us_spanIDs out) ++ [id]). rewrite IH by lia. by rewrite app_assoc.
Qed.

Lemma beneath_step_eq under index out r :
  beneath_step under (index, out) r =
    if on_ground under r then
      match index !! (sr_SubjectKind r, sr_SubjectKey r) with
      | Some i => (index, alter (add_id (sr_ID r)) i out)
      | None => (<[(sr_SubjectKind r, sr_SubjectKey r) := length out]> index,
                 out ++ [mkUncited (sr_SubjectKind r) (sr_SubjectKey r) [sr_ID r]])
      end
    else (index, out).
Proof.
  unfold beneath_step, on_ground. destruct (subjectAddress _ _) as [a|]; [|done].
  by destruct (bool_decide (a ∈ under)).
Qed.

(** The subjects found beneath hold the ids of the rows on the ground, each once. *)
Lemma beneath_fold under rows :
  let '(index, out) := foldl (beneath_step under) (∅, []) rows in
  (∀ k i, index !! k = Some i → (i < length out)%nat) ∧
  flat_map us_spanIDs out ≡ₚ map sr_ID (filter (λ r, on_ground under r = true) rows).
Proof.
  induction rows as [|r rows IH] using rev_ind; [by split; [intros k i; rewrite lookup_empty|]|].
  rewrite foldl_app, filter_app, map_app, filter_cons, filter_nil. cbn [foldl].
  destruct (foldl (beneath_step under) (∅, []) rows) as [index out]. destruct IH as [Hi Hp].
  rewrite beneath_step_eq. destruct (on_ground under r);
    [rewrite decide_True by done|rewrite decide_False by done; split; [done|]; cbn [map]; by rewrite app_nil_r].
  destruct (index !! _) as [i|] eqn:E; cbn [map].
  - split; [intros k j Hj; rewrite length_alter; by eapply Hi|].
    rewrite flat_ids_alter by (by eapply Hi). by rewrite Hp.
  - split.
    + intros k j. rewrite length_app, lookup_insert_Some. cbn [length].
      intros [[_ <-]|[_ Hj]]; [lia|]. specialize (Hi k j Hj). lia.
    + rewrite flat_map_app. cbn [flat_map us_spanIDs app]. by rewrite Hp.
Qed.

Section Addresses.
Context {U : UnicodeCase} {J : JSONData} {A : JSONAddresses} (batch at_ : Z) (inp : membershipInputs).

Lemma close_subjects_ids subjects s :
  close_subjects batch at_ subjects s = closeSpansByID (flat_map us_spanIDs subjects) at_ ReasonUncited batch s.
Proof.
  unfold close_subjects, closeSpansByID. revert s. induction subjects as [|u subjects IH]; intros s; [done|].
  cbn [foldl flat_map]. by rewrite foldl_app, IH.
Qed.

(** The texts whose last citation went, of those that carry something. *)
Definition uncited_keys (names : list string) (s : spans) : list string :=
  map us_key (uncitedAddresses (ListCitedAddressSpansForNames names s) (in_seeds inp)).

Lemma elem_of_uncited_keys names s t :
  t ∈ uncited_keys names s ↔
  t ∈ cited_texts names s ∧ (∃ r, r ∈ st_rows s ∧ is_probed r = true ∧ like_beneath t (sr_SubjectKey r) = true) ∧
  ∃ a, ParseAddr t = Some a ∧ citers s t = [] ∧ addressSeedCovered a (in_seeds inp) = false.
Proof.
  unfold uncited_keys, uncitedAddresses, ListCitedAddressSpansForNames. rewrite list_elem_of_fmap.
  setoid_rewrite list_elem_of_omap. setoid_rewrite list_elem_of_fmap.
  setoid_rewrite list_elem_of_filter. setoid_rewrite elem_of_sorted_keys. setoid_rewrite existsb_bool.
  assert (Hclo : ∀ cs b, (AddressClosure (0 <? Z.of_nat (length (cs : list string))) b false).2 = true ↔ cs = [] ∧ b = false).
  { intros [|c cs] b; unfold AddressClosure, AddressPresent; destruct b; cbn; naive_solver. }
  split.
  - intros (u & -> & (t' & l) & (x & [= -> ->] & (r & Hr & Hp) & Hx) & Hu). cbn [fst snd] in Hu.
    apply bind_Some in Hu as (a & Ha & Hu). destruct (AddressClosure _ _ _).2 eqn:Ec; [|done].
    injection Hu as <-. cbn [us_key]. apply Hclo in Ec as [Hc Hs]. apply andb_true_iff in Hp as [Hp1 Hp2].
    split_and!; [done|by exists r|by exists a].
  - intros (Hx & (r & Hr & Hp1 & Hp2) & a & Ha & Hc & Hs). exists (mkUncited subjectKindAddress t []). split; [done|].
    exists (t, citers s t). split; [exists t; split; [done|]; split; [exists r; split; [done|]; by apply andb_true_iff|done]|].
    cbn [fst snd]. rewrite Ha. cbn [mbind option_bind].
    by rewrite (proj2 (Hclo (citers s t) (addressSeedCovered a (in_seeds inp)))) by done.
Qed.

(** A row after the uncited addresses left. *)
Definition ground_close (keys : list string) (r : span_row) : span_row :=
  if is_probed r && existsb (λ t, like_beneath t (sr_SubjectKey r)) keys &&
     on_ground (list_to_set (omap ParseAddr keys)) r
  then close_row at_ ReasonUncited batch (sr_ID r) r else r.

Lemma ground_close_nil r : ground_close [] r = r.
Proof. unfold ground_close. cbn. by rewrite andb_false_r. Qed.

Lemma closeUncited_rows names s deps :
  ids_ok s →
  (closeUncitedAddresses batch at_ names inp (s, deps)).1 =
  mkSpans (map (ground_close (uncited_keys names s)) (st_rows s)) (st_next s).
Proof.
  intros Hids. unfold closeUncitedAddresses.
  assert (Hnil : uncited_keys names s = [] →
    s = mkSpans (map (ground_close (uncited_keys names s)) (st_rows s)) (st_next s)).
  { intros ->. rewrite map_id_on; [by destruct s|]. intros r _. apply ground_close_nil. }
  destruct (Nat.eqb_spec (length names) 0) as [H0|H0].
  { apply nil_length_inv in H0 as ->. cbn [fst]. apply Hnil. apply elem_of_nil_inv. intros t Ht.
    apply elem_of_uncited_keys in Ht as [Ht _]. unfold cited_texts in Ht.
    rewrite filter_none in Ht by (intros x Hx [_ []%not_elem_of_nil]). cbn in Ht. set_solver. }
  unfold uncited_keys in *. set (addresses := uncitedAddresses _ _) in *.
  destruct (Nat.eqb_spec (length addresses) 0) as [H1|H1].
  { apply nil_length_inv in H1. rewrite H1 in *. by apply Hnil. }
  cbn [fst]. rewrite close_subjects_ids, closeSpansByID_rows. f_equal. apply map_ext_in. intros r Hr%list_elem_of_In.
  unfold close_ids, ground_close. rewrite flat_map_app.
  assert (Hempty : flat_map us_spanIDs addresses = []).
  { unfold addresses, uncitedAddresses. generalize (ListCitedAddressSpansForNames names s). intros l.
    induction l as [|row l IH]; [done|]. cbn [omap list_omap].
    destruct (ParseAddr row.1); cbn [mbind option_bind]; [|exact IH]. by destruct (AddressClosure _ _ _).2. }
  rewrite Hempty, app_nil_l. unfold subjectsBeneath. set (keys := map us_key addresses).
  set (rows := ListOpenSpansBeneathAddresses keys s).
  pose proof (beneath_fold (list_to_set (omap ParseAddr keys)) rows) as Hb.
  destruct (foldl (beneath_step _) (∅, []) rows) as [index out]. destruct Hb as [_ Hp]. cbn [snd].
  rewrite (bool_decide_ext _ (is_probed r && existsb (λ t, like_beneath t (sr_SubjectKey r)) keys &&
     on_ground (list_to_set (omap ParseAddr keys)) r = true)).
  { by destruct (is_probed r && _ && _). }
  rewrite Hp, list_elem_of_fmap, !andb_true_iff. unfold rows, ListOpenSpansBeneathAddresses. split.
  - intros (r' & Hid & [Hg Hr']%list_elem_of_filter). rewrite sort_stable_elem in Hr'.
    apply list_elem_of_filter in Hr' as [[Hpr Hl] Hr'].
    by rewrite (same_id_same_row s r r' Hids Hr Hr' Hid).
  - intros [[Hpr Hl] Hg]. exists r. split; [done|]. apply list_elem_of_filter. split; [done|].
    rewrite sort_stable_elem. by apply list_elem_of_filter.
Qed.
End Addresses.

(** *** The whole fold *)

Definition observed_name (o : Observation) : option (string * string) :=
  if negb (String.eqb (ob_Facet o) FacetResolution) || String.eqb (ob_Subject o) "" then None
  else Some (ob_Subject o, ob_Subject o).

Lemma observed_dedup obs : observedResolutionNames obs = (dedup observed_name obs).2.
Proof.
  unfold observedResolutionNames, dedup. f_equal. apply foldl_ext. intros [seen out] o.
  unfold observed_step, dedup_step, observed_name. by destruct (_ || _).
Qed.

Lemma observed_key o k b : observed_name o = Some (k, b) → k = b.
Proof. unfold observed_name. destruct (_ || _); [done|]. by intros [= <- <-]. Qed.

Lemma NoDup_observed obs : NoDup (observedResolutionNames obs).
Proof.
  rewrite observed_dedup, <- (map_id (dedup _ _).2). apply (dedup_NoDup _ id).
  intros o k b Hk. by rewrite (observed_key _ _ _ Hk).
Qed.

Section Whole.
Context {U : UnicodeCase} {J : JSONData} {A : JSONAddresses} (batch at_ : Z) (inp : membershipInputs).
Context (obs : list Observation) (s : spans).

Definition departed_names : list string :=
  filter (λ n, is_Some (name_decision inp s n)) (observedResolutionNames obs).

Definition after_names : spans :=
  mkSpans (map (name_close batch at_ inp s (observedResolutionNames obs)) (st_rows s)) (st_next s).

Definition departed_keys : list string := uncited_keys inp (uncitedCiters obs departed_names) after_names.

Lemma foldEstateTransitions_rows :
  ids_ok s →
  (foldEstateTransitions batch at_ obs inp s).1 =
  mkSpans (map (λ r, ground_close batch at_ departed_keys
                       (name_close batch at_ inp s (observedResolutionNames obs) r)) (st_rows s)) (st_next s).
Proof.
  intros Hids. unfold foldEstateTransitions.
  pose proof (name_fold batch at_ inp s [] [] _ Hids (NoDup_observed obs)) as Hf.
  destruct (foldl (name_step batch at_ inp) (s, [], []) _) as [[s1 dp] ds]. cbn [fst] in Hf. injection Hf as -> ->.
  rewrite closeUncited_rows by (by apply name_close_ids). cbn [st_rows st_next]. by rewrite map_map.
Qed.

(** Why a row was closed. *)
Inductive closed_for (r : span_row) : string → Prop :=
  | closed_name reason :
      sr_SubjectKind r = subjectKindName → sr_SubjectKey r ∈ observedResolutionNames obs →
      name_decision inp s (sr_SubjectKey r) = Some reason → closed_for r reason
  | closed_ground a t :
      is_probed r = true → subjectAddress (sr_SubjectKind r) (sr_SubjectKey r) = Some a →
      t ∈ cited_texts (uncitedCiters obs departed_names) after_names →
      ParseAddr t = Some a → citers after_names t = [] → addressSeedCovered a (in_seeds inp) = false →
      closed_for r ReasonUncited.

Lemma probed_not_name r : is_probed r = true → sr_SubjectKind r ≠ subjectKindName.
Proof. unfold is_probed. intros [_ Hk]%andb_true_iff Hn. by rewrite Hn in Hk. Qed.

Lemma on_ground_keys (keys : list string) r :
  on_ground (list_to_set (omap ParseAddr keys)) r = true →
  ∃ a t, subjectAddress (sr_SubjectKind r) (sr_SubjectKey r) = Some a ∧ t ∈ keys ∧ ParseAddr t = Some a.
Proof.
  unfold on_ground. destruct (subjectAddress _ _) as [a|]; [|done].
  intros (t & Ht & Ha)%bool_decide_eq_true%elem_of_list_to_set%list_elem_of_omap. by exists a, t.
Qed.

(** The fold of departures closes what left and nothing else: it adds and drops
    no row, and each row is afterwards what it was, or was open and is closed at
    the fold's instant, by its batch, for one of two grounds: its name was
    observed and decided to leave, or it is a service's or an endpoint's row on an
    address that a departed or moved name cited, that nothing cites any longer and
    no seed covers. *)
Theorem foldEstateTransitions_closes_the_departed r i :
  ids_ok s → st_rows s !! i = Some r →
  ∃ r', st_rows (foldEstateTransitions batch at_ obs inp s).1 !! i = Some r' ∧
    (r' = r ∨
     row_open r = true ∧
     ∃ reason, closed_for r reason ∧ r' = close_row at_ reason batch (sr_ID r) r).
Proof.
  intros Hids Hr. rewrite foldEstateTransitions_rows by done. cbn [st_rows]. rewrite list_lookup_fmap, Hr. cbn [fmap option_fmap option_map].
  eexists. split; [done|]. unfold name_close.
  destruct (open_name_row r && bool_decide (sr_SubjectKey r ∈ observedResolutionNames obs)) eqn:En.
  - apply andb_true_iff in En as [[Ho Hk%String.eqb_eq]%andb_true_iff Hin%bool_decide_eq_true].
    assert (Hnp : ∀ r', sr_SubjectKind r' = sr_SubjectKind r → ground_close batch at_ departed_keys r' = r').
    { intros r' Hk'. unfold ground_close. destruct (is_probed r') eqn:Hp; [|done].
      exfalso. apply (probed_not_name r'); [done|congruence]. }
    destruct (name_decision inp s (sr_SubjectKey r)) as [reason|] eqn:Ed.
    + right. split; [done|]. exists reason. split; [by apply closed_name|].
      apply Hnp. by destruct (close_row_same at_ reason batch (sr_ID r) r) as (_ & -> & _).
    + left. by apply Hnp.
  - unfold ground_close. destruct (is_probed r && _ && _) eqn:Eg; [|by left].
    apply andb_true_iff in Eg as [[Hp _]%andb_true_iff Hg]. right.
    split; [by apply andb_true_iff in Hp as [? _]|]. exists ReasonUncited. split; [|done].
    apply on_ground_keys in Hg as (a & t & Ha & Ht & Hpa). apply elem_of_uncited_keys in Ht as (Hc & _ & a' & Ha' & Hn & Hs).
    rewrite Hpa in Ha'. injection Ha' as <-. by eapply closed_ground.
Qed.

(** A citation that did not leave is read as it was. *)
Lemma cites_after_names t c :
  cites s t c = true →
  (sr_SubjectKey c ∉ observedResolutionNames obs ∨ name_decision inp s (sr_SubjectKey c) = None) →
  cites after_names t c = true.
Proof.
  intros Hc Hstay. unfold cites in *. apply andb_true_iff in Hc as [Hon Hv]. rewrite Hon. cbn [andb].
  destruct (sr_IsGap c); [|done]. replace (before_gap c after_names) with (before_gap c s); [done|].
  unfold before_gap, after_names. cbn [st_rows]. rewrite filter_map_frame; [done|].
  assert (Hkeep : ∀ q, sr_SubjectKey q = sr_SubjectKey c → name_close batch at_ inp s (observedResolutionNames obs) q = q).
  { intros q Hq. unfold name_close. destruct (open_name_row q && _) eqn:E; [|done].
    apply andb_true_iff in E as [_ Hin%bool_decide_eq_true]. rewrite Hq in *. by destruct Hstay as [?| ->]. }
  intros q _. destruct (decide (sr_SubjectKey q = sr_SubjectKey c)) as [Hq|Hq]; [by rewrite Hkeep|].
  destruct (name_close_same batch at_ inp s (observedResolutionNames obs) q) as (_ & _ & Hk & _).
  rewrite Hk. tauto.
Qed.

Lemma citers_nonempty st t c : c ∈ st_rows st → cites st t c = true → citers st t ≠ [].
Proof.
  intros Hin Hc Hnil. assert (Hk : sr_SubjectKey c ∈ citers st t).
  { apply elem_of_sorted_keys, elem_of_list_to_set, list_elem_of_fmap. exists c. split; [done|].
    by apply list_elem_of_filter. }
  rewrite Hnil in Hk. by apply not_elem_of_nil in Hk.
Qed.

(** [C14] Ground that is still held keeps its timelines: a row of a service or an
    endpoint stays as it was while a seed covers its address, or while an open
    resolution cites it whose name did not leave, a gap citing what it stood for
    before; this for addresses the store writes in one spelling. *)
Theorem held_ground_stays r a :
  ids_ok s → r ∈ st_rows s → is_probed r = true →
  subjectAddress (sr_SubjectKind r) (sr_SubjectKey r) = Some a →
  (∀ n t, n ∈ st_rows s → is_name_resolution n = true → t ∈ addresses_text (sr_Value n) →
     ParseAddr t = Some a → t = Addr_String a) →
  (addressSeedCovered a (in_seeds inp) = true ∨
   ∃ c, c ∈ st_rows s ∧ cites s (Addr_String a) c = true ∧
     (sr_SubjectKey c ∉ observedResolutionNames obs ∨ name_decision inp s (sr_SubjectKey c) = None)) →
  r ∈ st_rows (foldEstateTransitions batch at_ obs inp s).1.
Proof.
  intros Hids Hr Hp Ha Hcanon Hheld. rewrite foldEstateTransitions_rows by done. cbn [st_rows].
  apply list_elem_of_fmap. exists r. split; [|done].
  assert (Hn : name_close batch at_ inp s (observedResolutionNames obs) r = r).
  { unfold name_close, open_name_row. rewrite (proj2 (String.eqb_neq _ _)) by (by apply probed_not_name).
    by rewrite andb_false_r. }
  rewrite Hn. unfold ground_close. destruct (is_probed r && _ && _) eqn:Eg; [exfalso|done].
  apply andb_true_iff in Eg as [_ Hg]. apply on_ground_keys in Hg as (a' & t & Ha' & Ht & Hpa).
  rewrite Ha in Ha'. injection Ha' as <-.
  apply elem_of_uncited_keys in Ht as (Hc & _ & a' & Ha' & Hnil & Hs). rewrite Hpa in Ha'. injection Ha' as <-.
  destruct Hheld as [Hseed|(c & Hin & Hcite & Hstay)]; [congruence|].
  assert (t = Addr_String a) as ->.
  { unfold cited_texts in Hc. apply elem_of_list_to_set, list_elem_of_In, in_flat_map in Hc as (n & Hn' & Ht').
    apply list_elem_of_In in Hn', Ht'. apply list_elem_of_filter in Hn' as [[Hres _] Hn'].
    unfold after_names in Hn'. cbn [st_rows] in Hn'. apply list_elem_of_fmap in Hn' as (n0 & -> & Hn0).
    destruct (name_close_same batch at_ inp s (observedResolutionNames obs) n0) as (_ & Hk & _ & Hf & Hv).
    unfold is_name_resolution in Hres. rewrite Hk, Hf in Hres. rewrite Hv in Ht'. by apply (Hcanon n0). }
  apply (citers_nonempty after_names (Addr_String a) c); [|by apply cites_after_names|done].
  unfold after_names. cbn [st_rows]. apply list_elem_of_fmap. exists c. split; [|done].
  symmetry. unfold name_close. destruct (_ && _) eqn:E; [|done].
  apply andb_true_iff in E as [_ Hobs%bool_decide_eq_true]. by destruct Hstay as [?| ->].
Qed.
End Whole.

(** ** A store to try it on *)

(** Values list their addresses between commas. *)
#[export] Instance plain_addresses : JSONAddresses :=
  { addresses_text v := Split "," v; addresses_hold v a := bool_decide (a ∈ Split "," v) }.

Definition demo_name (id : Z) (name value : string) (closed : option Z) : span_row :=
  mkRow id subjectKindName name FacetResolution "" (Some 1) "resolver" value false [] 10 closed "" 1 None false.
Definition demo_service (id : Z) (key : string) : span_row :=
  mkRow id subjectKindService key FacetReachability "" (Some 1) "prober" "reached" false [] 10 None "" 1 None false.

Definition demo_spans : spans :=
  mkSpans [demo_name 1 "gone.example" "192.0.2.1,192.0.2.2" (Some 20); demo_name 2 "gone.example" "NameError" None;
           demo_name 3 "kept.example" "192.0.2.2" None; demo_service 4 "192.0.2.1:443"; demo_service 5 "192.0.2.2:443";
           demo_service 6 "[2001:db8::1]:443"] 7.

Definition demo_resolved : list Observation := [demo_obs "gone.example" "NameError"; demo_obs "kept.example" "192.0.2.2"].

(** The name that is denied leaves with the address only it cited. *)
Example demo_departures :
  (map (λ r, (sr_ID r, sr_Reason r, sr_ClosedAt r)) (st_rows (foldEstateTransitions 9 50 demo_resolved (mkInputs [] []) demo_spans).1),
   (foldEstateTransitions 9 50 demo_resolved (mkInputs [] []) demo_spans).2) =
  ([(1, "", Some 20); (2, "measured-absent", Some 50); (3, "", None); (4, "uncited", Some 50); (5, "", None); (6, "", None)],
   [mkDeparture "name" "gone.example" "measured-absent" "" 1; mkDeparture "address" "192.0.2.1" "uncited" "" 0;
    mkDeparture "service" "192.0.2.1:443" "uncited" "" 1])%string.
Proof. vm_compute. reflexivity. Qed.

Lemma demo_spans_ids : ids_ok demo_spans.
Proof. split; [apply NoDup_ListNoDup; repeat constructor; cbn; intuition discriminate|]. repeat constructor. Defined.

Lemma foldEstateTransitions_closes_the_departed_witness :
  ids_ok demo_spans ∧ st_rows demo_spans !! 3%nat = Some (demo_service 4 "192.0.2.1:443") ∧
  ∃ r', st_rows (foldEstateTransitions 9 50 demo_resolved (mkInputs [] []) demo_spans).1 !! 3%nat = Some r' ∧
    (r' = demo_service 4 "192.0.2.1:443" ∨
     row_open (demo_service 4 "192.0.2.1:443") = true ∧
     ∃ reason, closed_for 9 50 (mkInputs [] []) demo_resolved demo_spans (demo_service 4 "192.0.2.1:443") reason ∧
       r' = close_row 50 reason 9 4 (demo_service 4 "192.0.2.1:443")).
Proof.
  split; [exact demo_spans_ids|]. split; [reflexivity|].
  exact (foldEstateTransitions_closes_the_departed 9 50 (mkInputs [] []) demo_resolved demo_spans _ 3
           demo_spans_ids eq_refl).
Defined.

Lemma held_ground_stays_witness :
  demo_service 5 "192.0.2.2:443" ∈ st_rows (foldEstateTransitions 9 50 demo_resolved (mkInputs [] []) demo_spans).1.
Proof.
  apply (held_ground_stays 9 50 (mkInputs [] []) demo_resolved demo_spans _ (Addr4 3221225986)).
  - exact demo_spans_ids.
  - cbn. do 4 right. left.
  - reflexivity.
  - reflexivity.
  - assert (Hall : forallb (λ n, forallb (λ t, negb (bool_decide (ParseAddr t = Some (Addr4 3221225986))) ||
                       String.eqb t "192.0.2.2") (addresses_text (sr_Value n))) (st_rows demo_spans) = true) by reflexivity.
    intros n t Hn _ Ht Hp. rewrite forallb_bool in Hall. specialize (Hall n Hn). rewrite forallb_bool in Hall.
    specialize (Hall t Ht). rewrite bool_decide_true in Hall by done. by apply String.eqb_eq.
  - right. exists (demo_name 3 "kept.example" "192.0.2.2" None). split; [cbn; do 2 right; left|].
    split; [reflexivity|]. right. reflexivity.
Defined.
