(* ===== verification/Withdrawals.v ===== *)
(** * Withdrawals by the operator
    [queue/withdrawal.go], [seedwithdrawal.go], [nameseedwithdrawal.go] and their
    queries: an exclusion, or a seed taken back, closes the timelines of the ground
    it removed, and each act leaves one receipt.  A withdrawn seed is known by its
    tombstone, which stays until its ground is empty. *)

From S2P Require Import Prelude GoTime GoStr NetIP NetParse NetText Message Drift Estate SubjectScope SpanStore.
From S2P Require Import Custody VergeCore Egress Dispatch Departures.

(** ** The queries on the ground *)

Fixpoint digits_of_text (s : string) : string * string :=
  match s with
  | "" => ("", "")
  | String c s' => if is_digit c then let '(d, r) := digits_of_text s' in (String c d, r) else ("", s)
  end.

(** [[0-9]{1,3}] followed by the byte [sep]. *)
Definition read_octet (sep : ascii) (s : string) : option (string * string) :=
  let '(d, r) := digits_of_text s in
  if (1 <=? String.length d)%nat && (String.length d <=? 3)%nat then
    match r with
    | "" => None
    | String c r' => if Ascii.eqb c sep then Some (d, r') else None
    end
  else None.

(** The four octets of a dotted quad followed by a colon. *)
Definition match_quad (s : string) : option (list string) :=
  '(a, s) ← read_octet "." s;
  '(b, s) ← read_octet "." s;
  '(c, s) ← read_octet "." s;
  '(d, _) ← read_octet ":" s;
  Some [a; b; c; d].

Fixpoint after_at (s : string) : option (list string) :=
  match s with
  | "" => None
  | String c s' =>
      if Ascii.eqb c "@" then match match_quad s' with Some q => Some q | None => after_at s' end
      else after_at s'
  end.

(** [substring(key from '(?:^|@)([0-9]{1,3}(?:\.[0-9]{1,3}){3}):')], as the list of
    the octets. *)
Definition projected (key : string) : option (list string) :=
  match match_quad key with Some q => Some q | None => after_at key end.

Definition quad_text (q : list string) : string := String.concat "." q.

(** The cast to [inet]; [None] is its error. *)
Definition quad_inet (q : list string) : option Addr :=
  os ← mapM (λ d, n ← atoi_digits d 0; if (n <=? 255) then Some n else None) q;
  Some (Addr4 (foldl (λ acc n, acc * 256 + n) 0 os)).

Definition like_quad (t key : string) : bool := like (t +:+ ":%") key || like ("%@" +:+ t +:+ ":%") key.

(** A resolution that names the text anywhere in its value. *)
Definition text_cited (s : spans) (t : string) : bool :=
  existsb (λ r, row_open r && String.eqb (sr_Facet r) FacetResolution && negb (sr_IsGap r) &&
                contains_text t (sr_Value r)) (st_rows s).

Definition key_less (a b : span_row) : bool :=
  if negb (String.eqb (sr_SubjectKey a) (sr_SubjectKey b)) then str_less (sr_SubjectKey a) (sr_SubjectKey b)
  else sr_ID a <? sr_ID b.

(** The texts the open rows project to, and the withdrawn ones among them: [None]
    when a text is no address, which fails the query. *)
Definition projections (s : spans) : list (list string) :=
  omap (λ r, if is_probed r then projected (sr_SubjectKey r) else None) (st_rows s).

Definition withdrawn_texts (covers : Addr → bool) (s : spans) : option (list string) :=
  ts ← mapM (λ q, a ← quad_inet q; Some (quad_text q, a)) (projections s);
  Some (map fst (filter (λ ta, covers ta.2 && negb (text_cited s ta.1) = true) ts)).

Definition ground_rows (covers : Addr → bool) (s : spans) : option (list span_row) :=
  ts ← withdrawn_texts covers s;
  Some (sort_stable key_less
          (filter (λ r, is_probed r && existsb (λ t, like_quad t (sr_SubjectKey r)) ts = true) (st_rows s))).

Definition ListAddressExclusionWithdrawals (exclusions : list exclusion_row) (s : spans) : option (list span_row) :=
  ground_rows (λ a, existsb (λ e, String.eqb (ex_Kind e) exclusionKindAddress &&
                                  match ex_AddressCidr e with Some p => Contains p a | None => false end) exclusions) s.

Definition ListSeedWithdrawalCandidates (cidrs : list Prefix) (s : spans) : option (list span_row) :=
  ground_rows (λ a, existsb (λ p, Contains p a) cidrs) s.

Definition name_under (domain key : string) : bool := String.eqb key domain || like ("%." +:+ domain) key.

Definition ListNameSeedWithdrawalCandidates (domains : list string) (s : spans) : list span_row :=
  sort_stable key_less
    (filter (λ r, open_name_row r && existsb (λ d, name_under d (sr_SubjectKey r)) domains = true) (st_rows s)).

(** ** Composing the closures and the receipts *)

Record withdrawalCount := mkCount { wc_scope : string; wc_subjects : gset string; wc_timelines : Z }.

Definition counts_state : Type := list Z * list string * gmap string withdrawalCount.

(** One row: [place] gives the mover it is counted under, the scope the mover
    narrowed, and the subjects that leave; [None] spares the row. *)
Definition withdraw_step (place : span_row → option (string * string * list string))
    (st : counts_state) (row : span_row) : counts_state :=
  match place row with
  | None => st
  | Some (key, scope, subjects) =>
      let '(ids, order, counts) := st in
      let c := default (mkCount scope ∅ 0) (counts !! key) in
      (ids ++ [sr_ID row],
       match counts !! key with None => order ++ [key] | Some _ => order end,
       <[key := mkCount (wc_scope c) (list_to_set subjects ∪ wc_subjects c) (wc_timelines c + 1)]> counts)
  end.

Definition withdraw_rows (place : span_row → option (string * string * list string)) (rows : list span_row) : counts_state :=
  foldl (withdraw_step place) ([], [], ∅) rows.

Definition narrowing_step (excluded : Prefix) (st : string * Z) (s : seed_row) : string * Z :=
  let '(best, bits) := st in
  if negb (String.eqb (sd_Kind s) "address") then st
  else
    match sd_AddressCidr s with
    | None => st
    | Some p =>
        if negb (Contains p (p_ip excluded)) then st
        else if bits <? p_bits p then (Prefix_String p, p_bits p) else st
    end.

Definition narrowingScope (excluded : Prefix) (seeds : list seed_row) : string :=
  let '(best, _) := foldl (narrowing_step excluded) (""%string, -1) seeds in
  if String.eqb best "" then Prefix_String excluded else best.

(** The subjects that leave with a row: its own key, and the address. *)
Definition ground_subjects (row : span_row) (a : Addr) : list string := [sr_SubjectKey row; Addr_String a].

Section Compose.
Context {U : UnicodeCase}.

Definition exclusion_place (inp : membershipInputs) (derive : Addr → Custody) (row : span_row)
    : option (string * string * list string) :=
  addr ← subjectAddress (sr_SubjectKind row) (sr_SubjectKey row);
  p ← coveringAddressExclusion addr (in_exclusions inp);
  if bool_decide (derive addr = Operator) then None
  else Some (Prefix_String p, narrowingScope p (in_seeds inp), ground_subjects row addr).

Definition composeAddressWithdrawals (rows : list span_row) (inp : membershipInputs) (derive : Addr → Custody)
    : list Z * list NarrowingReceipt :=
  let '(ids, order, counts) := withdraw_rows (exclusion_place inp derive) rows in
  (ids,
   omap (λ key, c ← counts !! key;
                Some (PreviewNarrowing (wc_scope c) key (Z.of_nat (size (wc_subjects c))) (wc_timelines c))) order).

Definition seed_place (covering : Addr → option Prefix) (seeds : list seed_row) (derive : Addr → Custody)
    (row : span_row) : option (string * string * list string) :=
  addr ← subjectAddress (sr_SubjectKind row) (sr_SubjectKey row);
  p ← covering addr;
  if addressSeedCovered addr seeds then None
  else if bool_decide (derive addr = Operator) then None
  else Some (Prefix_String p, Prefix_String p, ground_subjects row addr).

Definition composeWithdrawnGround (rows : list span_row) (covering : Addr → option Prefix) (seeds : list seed_row)
    (derive : Addr → Custody) : counts_state :=
  withdraw_rows (seed_place covering seeds derive) rows.

(** A row of the table of tombstones. *)
Record withdrawal_row := mkTomb {
  wr_ID : Z;
  wr_Kind : string;
  wr_NameDomain : option string;
  wr_AddressCidr : option Prefix;
  wr_ConsumedAt : option Z;
  wr_ConsumedBatch : option Z
}.

Definition coveringSeedWithdrawal (addr : Addr) (pending : list withdrawal_row) : option Prefix :=
  w ← List.find (λ w, match wr_AddressCidr w with Some p => Contains p addr | None => false end) pending;
  wr_AddressCidr w.

Definition pendingWithdrawnCIDRs (pending : list withdrawal_row) : list Prefix := omap wr_AddressCidr pending.

Definition seed_receipts (order : list string) (counts : gmap string withdrawalCount) : list NarrowingReceipt :=
  omap (λ key, c ← counts !! key;
               Some (PreviewSeedWithdrawal (wc_scope c) (Z.of_nat (size (wc_subjects c))) (wc_timelines c))) order.

Definition composeSeedWithdrawals (rows : list span_row) (pending : list withdrawal_row) (inp : membershipInputs)
    (derive : Addr → Custody) : list Z * list NarrowingReceipt :=
  let '(ids, order, counts) :=
    composeWithdrawnGround rows (λ a, coveringSeedWithdrawal a pending) (in_seeds inp) derive in
  (ids, seed_receipts order counts).

Definition name_place (covering : string → string) (seeds : list seed_row) (stillAdmitted : gset string)
    (row : span_row) : option (string * string * list string) :=
  let domain := covering (sr_SubjectKey row) in
  if String.eqb domain "" then None
  else if nameSeedCovered (sr_SubjectKey row) seeds then None
  else if bool_decide (resolutionNameKey (sr_SubjectKey row) ∈ stillAdmitted) then None
  else Some (domain, domain, [sr_SubjectKey row]).

Definition admitted_keys (admitted : list string) : gset string :=
  list_to_set (filter (λ k, k ≠ ""%string) (map resolutionNameKey admitted)).

Definition composeWithdrawnNameGround (rows : list span_row) (covering : string → string) (seeds : list seed_row)
    (admitted : list string) : counts_state :=
  withdraw_rows (name_place covering seeds (admitted_keys admitted)) rows.

Definition coveringNameSeedWithdrawal (name : string) (pending : list withdrawal_row) : string :=
  match List.find (λ w, match wr_NameDomain w with Some d => nameWithinDomain name d | None => false end) pending with
  | Some w => normalizeDomain (default "" (wr_NameDomain w))
  | None => ""
  end.

Definition pendingWithdrawnDomains (pending : list withdrawal_row) : list string :=
  omap (λ w, normalizeDomain <$> wr_NameDomain w) pending.

(** The closures, the receipts, and the names that leave. *)
Definition composeNameSeedWithdrawals (rows : list span_row) (pending : list withdrawal_row)
    (inp : membershipInputs) (admitted : list string) : list Z * list NarrowingReceipt * list string :=
  let '(ids, order, counts) :=
    composeWithdrawnNameGround rows (λ n, coveringNameSeedWithdrawal n pending) (in_seeds inp) admitted in
  (ids, seed_receipts order counts,
   sort_strings (flat_map (λ key, match counts !! key with Some c => elements (wc_subjects c) | None => [] end) order)).
End Compose.

(** ** The folds *)

Section Folds.
Context {U : UnicodeCase} {J : JSONData} {A : JSONAddresses}.

Definition hasAddressExclusion (inp : membershipInputs) : bool :=
  existsb (λ e, String.eqb (ex_Kind e) exclusionKindAddress && bool_decide (is_Some (ex_AddressCidr e))) (in_exclusions inp).

(** [rows] is what [hotEstate] reads. *)
Definition foldAddressExclusionWithdrawals (batch at_ : Z) (inp : membershipInputs) (rows : estate_rows) (s : spans)
    : option (spans * list NarrowingReceipt) :=
  if negb (hasAddressExclusion inp) then Some (s, [])
  else
    found ← ListAddressExclusionWithdrawals (in_exclusions inp) s;
    if (length found =? 0)%nat then Some (s, [])
    else
      let '(ids, narrowings) := composeAddressWithdrawals found inp (Derive (hotEstate rows).1) in
      Some (closeSpansByID ids at_ ReasonDescoped batch s, narrowings).

(** [locked] are the rows another transaction holds, which the read skips. *)
Definition ListPending (kind : string) (locked : Z → bool) (tombs : list withdrawal_row) : list withdrawal_row :=
  filter (λ w, wr_ConsumedAt w = None ∧ wr_Kind w = kind ∧ locked (wr_ID w) = false) tombs.

Definition spend_row (at_ batch : Z) (w : withdrawal_row) : withdrawal_row :=
  mkTomb (wr_ID w) (wr_Kind w) (wr_NameDomain w) (wr_AddressCidr w) (Some at_) (Some batch).

Definition is_v4 (p : Prefix) : bool := match p_ip p with Addr4 _ => true | _ => false end.

(** Nothing is open under the network. *)
Definition ground_empty (p : Prefix) (s : spans) : option bool :=
  addrs ← mapM quad_inet (projections s);
  Some (negb (existsb (Contains p) addrs)).

Definition spendable (ids : list Z) (kind : string) (w : withdrawal_row) : bool :=
  bool_decide (wr_ConsumedAt w = None) && String.eqb (wr_Kind w) kind && bool_decide (wr_ID w ∈ ids).

Definition SpendSeedWithdrawals (at_ batch : Z) (ids : list Z) (s : spans) (tombs : list withdrawal_row)
    : option (list withdrawal_row) :=
  mapM (λ w,
    match wr_AddressCidr w with
    | Some p =>
        if spendable ids "address" w && is_v4 p then
          empty ← ground_empty p s;
          Some (if (empty : bool) then spend_row at_ batch w else w)
        else Some w
    | None => Some w
    end) tombs.

Definition foldSeedWithdrawals (batch at_ : Z) (inp : membershipInputs) (rows : estate_rows) (locked : Z → bool)
    (st : spans * list withdrawal_row) : option (spans * list withdrawal_row * list NarrowingReceipt) :=
  let '(s, tombs) := st in
  let pending := ListPending "address" locked tombs in
  if (length pending =? 0)%nat then Some (s, tombs, [])
  else
    found ← ListSeedWithdrawalCandidates (pendingWithdrawnCIDRs pending) s;
    let '(s, narrowings) :=
      if (length found =? 0)%nat then (s, [])
      else
        let '(ids, narrowings) := composeSeedWithdrawals found pending inp (Derive (hotEstate rows).1) in
        (closeSpansByID ids at_ ReasonDescoped batch s, narrowings) in
    tombs ← SpendSeedWithdrawals at_ batch (map wr_ID pending) s tombs;
    Some (s, tombs, narrowings).

(** [walking]: some resolution walk is still ready or running. *)
Definition SpendNameSeedWithdrawals (at_ batch : Z) (ids : list Z) (seeds : list seed_row) (walking : bool)
    (s : spans) (tombs : list withdrawal_row) : list withdrawal_row :=
  map (λ w,
    match wr_NameDomain w with
    | Some d =>
        if spendable ids "name" w &&
           (existsb (λ sd, String.eqb (sd_Kind sd) "name" &&
                           match sd_NameDomain sd with Some n => name_under n d | None => false end) seeds ||
            negb (existsb (λ r, open_name_row r && name_under d (sr_SubjectKey r)) (st_rows s)) && negb walking)
        then spend_row at_ batch w else w
    | None => w
    end) tombs.

Definition foldNameSeedWithdrawals (batch at_ : Z) (inp : membershipInputs) (admitted : list string)
    (locked : Z → bool) (walking : bool) (st : spans * list withdrawal_row)
    : spans * list withdrawal_row * list NarrowingReceipt :=
  let '(s, tombs) := st in
  let pending := ListPending "name" locked tombs in
  if (length pending =? 0)%nat then (s, tombs, [])
  else
    let found := ListNameSeedWithdrawalCandidates (pendingWithdrawnDomains pending) s in
    let '(s, narrowings) :=
      if (length found =? 0)%nat then (s, [])
      else
        let '(ids, narrowings, departed) := composeNameSeedWithdrawals found pending inp admitted in
        let s := closeSpansByID ids at_ ReasonDescoped batch s in
        ((closeUncitedAddresses batch at_ departed inp (s, [])).1, narrowings) in
    (s, SpendNameSeedWithdrawals at_ batch (map wr_ID pending) (in_seeds inp) walking s tombs, narrowings).

(** ** The preview of a withdrawal *)

Definition withoutPrefix (prefixes : list Prefix) (drop : Prefix) : list Prefix := filter (λ p, p ≠ drop) prefixes.

Definition withoutAddressSeed (seeds : list seed_row) (drop : Prefix) : list seed_row :=
  filter (λ s, negb (String.eqb (sd_Kind s) "address" && bool_decide (sd_AddressCidr s = Some drop)) = true) seeds.

Definition withoutNameSeed (seeds : list seed_row) (drop : string) : list seed_row :=
  filter (λ s, negb (String.eqb (sd_Kind s) "name" &&
                     match sd_NameDomain s with Some d => String.eqb (normalizeDomain d) drop | None => false end) = true)
    seeds.

Definition count_receipt (scope : string) (counts : gmap string withdrawalCount) : NarrowingReceipt :=
  match counts !! scope with
  | Some c => PreviewSeedWithdrawal scope (Z.of_nat (size (wc_subjects c))) (wc_timelines c)
  | None => PreviewSeedWithdrawal scope 0 0
  end.

(** [custody.Estate] without one of its declared scopes. *)
Definition estate_without (e : Custody.Estate) (cidr : Prefix) : Custody.Estate :=
  Custody.mkEstate (withoutPrefix (Custody.AddressScopes e) cidr) (Custody.ExtendedZones e)
    (Custody.Resolutions e) (Custody.edgeFanout e) (Custody.addressExclusions e).

Definition SeedWithdrawalReceipt (seeds : list seed_row) (rows : estate_rows) (cidr : Prefix) (s : spans)
    : option NarrowingReceipt :=
  found ← ListSeedWithdrawalCandidates [cidr] s;
  let '(_, _, counts) :=
    composeWithdrawnGround found (λ a, if Contains cidr a then Some cidr else None) (withoutAddressSeed seeds cidr)
      (Derive (estate_without (hotEstate rows).1 cidr)) in
  Some (count_receipt (Prefix_String cidr) counts).

(** [admitted] are the names admitted by other seeds. *)
Definition NameSeedWithdrawalReceipt (seeds : list seed_row) (admitted : list string) (domain : string) (s : spans)
    : NarrowingReceipt :=
  let domain := normalizeDomain domain in
  let '(_, _, counts) :=
    composeWithdrawnNameGround (ListNameSeedWithdrawalCandidates [domain] s)
      (λ n, if nameWithinDomain n domain then domain else "") (withoutNameSeed seeds domain) admitted in
  count_receipt domain counts.
End Folds.

(** ** Properties *)

(** *** The text of a ground *)

Definition plain_byte (c : ascii) : bool := is_digit c || Ascii.eqb c ".".

Lemma plain_not_special c : plain_byte c = true → Ascii.eqb c "%" = false ∧ Ascii.eqb c "_" = false ∧ Ascii.eqb c "\" = false.
Proof. destruct c as [[] [] [] [] [] [] [] []]; vm_compute; auto. Qed.

Lemma like_plain t p s : string_forallb plain_byte t = true → like (t +:+ p)%string (t +:+ s)%string = like p s.
Proof.
  induction t as [|c t IH]; [done|]. cbn [string_forallb]. intros [Hc Ht]%andb_true_iff.
  rewrite !append_cons. cbn [like]. destruct (plain_not_special c Hc) as (-> & -> & ->).
  rewrite Ascii.eqb_refl. cbn [andb]. by apply IH.
Qed.

Lemma like_percent p s :
  like (String "%" p) s = like p s || match s with "" => false | String _ s' => like (String "%" p) s' end.
Proof. by destruct s. Qed.

Lemma like_skip p a s : like p s = true → like (String "%" p) (a +:+ s)%string = true.
Proof.
  intros Hp. induction a as [|c a IH].
  - rewrite append_nil, like_percent, Hp. done.
  - rewrite append_cons, like_percent, IH. apply orb_true_r.
Qed.

Lemma like_all s : like "%" s = true.
Proof. rewrite <- (append_nil_r s). by apply like_skip. Qed.

Lemma like_from_start t rest :
  string_forallb plain_byte t = true → like (t +:+ ":%")%string (t +:+ String ":" rest)%string = true.
Proof. intros Ht. rewrite like_plain by done. apply like_all. Qed.

Lemma like_from_at pre t rest :
  string_forallb plain_byte t = true →
  like ("%@" +:+ t +:+ ":%")%string (pre +:+ String "@" (t +:+ String ":" rest))%string = true.
Proof. intros Ht. apply like_skip. exact (like_from_start t rest Ht). Qed.

Lemma digits_of_text_spec s :
  s = ((digits_of_text s).1 +:+ (digits_of_text s).2)%string ∧ string_forallb plain_byte (digits_of_text s).1 = true.
Proof.
  induction s as [|c s [IH1 IH2]]; [done|]. cbn [digits_of_text]. destruct (is_digit c) eqn:Hc; [|done].
  destruct (digits_of_text s) as [d r]. cbn [fst snd] in *. split; [by rewrite append_cons, <- IH1|].
  cbn [string_forallb]. unfold plain_byte at 1. by rewrite Hc.
Qed.

Lemma read_octet_spec sep s d r :
  read_octet sep s = Some (d, r) → s = (d +:+ String sep r)%string ∧ string_forallb plain_byte d = true.
Proof.
  unfold read_octet. destruct (digits_of_text_spec s) as [Hs Hd]. destruct (digits_of_text s) as [d' r'].
  cbn [fst snd] in *. destruct (_ && _); [|done]. destruct r' as [|c r'']; [done|].
  destruct (Ascii.eqb_spec c sep) as [->|]; [|done]. by intros [= <- <-].
Qed.

Lemma forallb_append f a b : string_forallb f (a +:+ b)%string = string_forallb f a && string_forallb f b.
Proof. induction a as [|c a IH]; [done|]. rewrite append_cons. cbn [string_forallb]. by rewrite IH, andb_assoc. Qed.

Lemma match_quad_spec s q :
  match_quad s = Some q → ∃ rest, s = (quad_text q +:+ String ":" rest)%string ∧ string_forallb plain_byte (quad_text q) = true.
Proof.
  unfold match_quad. intros ([a s1] & Ha & Hq)%bind_Some. apply bind_Some in Hq as ([b s2] & Hb & Hq).
  apply bind_Some in Hq as ([c s3] & Hc & Hq). apply bind_Some in Hq as ([d s4] & Hd & [= <-]).
  apply read_octet_spec in Ha as [-> Ha], Hb as [-> Hb], Hc as [-> Hc], Hd as [-> Hd].
  exists s4. unfold quad_text. cbn [String.concat]. rewrite !forallb_append, Ha, Hb, Hc, Hd.
  split; [|done]. by rewrite <- !append_assoc.
Qed.

(** The pattern of a projected text matches the key it was projected from. *)
Lemma projected_like key q : projected key = Some q → like_quad (quad_text q) key = true.
Proof.
  assert (Hat : ∀ key, after_at key = Some q → ∃ pre rest,
    key = (pre +:+ String "@" (quad_text q +:+ String ":" rest))%string ∧ string_forallb plain_byte (quad_text q) = true).
  { clear key. induction key as [|c key IH]; [done|]. cbn [after_at].
    assert (Hrec : after_at key = Some q → ∃ pre rest,
      String c key = (pre +:+ String "@" (quad_text q +:+ String ":" rest))%string ∧
      string_forallb plain_byte (quad_text q) = true).
    { intros (pre & rest & -> & Hp)%IH. exists (String c pre), rest. by rewrite append_cons. }
    destruct (Ascii.eqb_spec c "@") as [->|]; [|exact Hrec].
    destruct (match_quad key) as [q'|] eqn:Hm; [|exact Hrec]. intros [= ->].
    apply match_quad_spec in Hm as (rest & -> & Hp). by exists ""%string, rest. }
  unfold projected, like_quad. destruct (match_quad key) as [q'|] eqn:Hm.
  - intros [= ->]. apply match_quad_spec in Hm as (rest & -> & Hp). by rewrite like_from_start.
  - intros (pre & rest & -> & Hp)%Hat. rewrite like_from_at by done. apply orb_true_r.
Qed.

(** *** The loop over the rows *)

Section Loop.
Variable place : span_row → option (string * string * list string).

Definition placed (r : span_row) : Prop := is_Some (place r).
#[local] Instance placed_dec r : Decision (placed r).
Proof. unfold placed. apply _. Defined.

Definition place_key (r : span_row) : string := match place r with Some (k, _, _) => k | None => "" end.

Lemma withdraw_rows_snoc rows r :
  withdraw_rows place (rows ++ [r]) = withdraw_step place (withdraw_rows place rows) r.
Proof. unfold withdraw_rows. by rewrite foldl_app. Qed.

(** Every row placed is closed once and counted under its own mover. *)
Lemma withdraw_rows_spec rows :
  let '(ids, order, counts) := withdraw_rows place rows in
  ids = map sr_ID (filter placed rows) ∧ NoDup order ∧
  (∀ k, k ∈ order ↔ is_Some (counts !! k)) ∧
  (∀ k, from_option wc_timelines 0 (counts !! k) = count_if (λ r, String.eqb (place_key r) k) (filter placed rows)) ∧
  (∀ k c, counts !! k = Some c →
     0 < wc_timelines c ∧ ∃ r subjects, r ∈ rows ∧ place r = Some (k, wc_scope c, subjects)) ∧
  (∀ k x, x ∈ from_option wc_subjects ∅ (counts !! k) ↔
     ∃ r scope subjects, r ∈ rows ∧ place r = Some (k, scope, subjects) ∧ x ∈ subjects).
Proof.
  induction rows as [|r rows IH] using rev_ind.
  { cbn. split_and!; [done|apply NoDup_nil_2|..].
    - intros k. rewrite lookup_empty. split; [by intros []%not_elem_of_nil|by intros []].
    - intros k. by rewrite lookup_empty.
    - intros k c. by rewrite lookup_empty.
    - intros k x. rewrite lookup_empty. cbn. split; [set_solver|]. by intros (? & ? & ? & []%not_elem_of_nil & _). }
  rewrite withdraw_rows_snoc, filter_app, filter_cons, filter_nil.
  destruct (withdraw_rows place rows) as [[ids order] counts]. destruct IH as (Hids & Hnd & Hin & Htl & Hpos & Hsub).
  unfold withdraw_step. destruct (place r) as [[[k scope] subs]|] eqn:Er.
  - assert (Hp : placed r) by (unfold placed; by rewrite Er). rewrite decide_True by done.
    assert (Hkey : place_key r = k) by (unfold place_key; by rewrite Er).
    set (c := default (mkCount scope ∅ 0) (counts !! k)).
    assert (Hc : wc_timelines c = from_option wc_timelines 0 (counts !! k) ∧ wc_subjects c = from_option wc_subjects ∅ (counts !! k)).
    { unfold c. by destruct (counts !! k). }
    destruct Hc as [Hc1 Hc2]. split_and!.
    + by rewrite map_app, Hids.
    + destruct (counts !! k) eqn:Ek; [done|]. apply NoDup_app. split_and!; [done| |apply NoDup_singleton].
      intros j Hj ->%list_elem_of_singleton. apply Hin in Hj as [? ?]. congruence.
    + intros j. rewrite lookup_insert_is_Some. rewrite <- Hin.
      destruct (counts !! k) eqn:Ek.
      * split; [intros; destruct (decide (k = j)); auto|]. intros [<-|[_ ?]]; [|done]. apply Hin. eauto.
      * rewrite elem_of_app, list_elem_of_singleton. split; [intros [?|?]; destruct (decide (k = j)); auto; congruence|].
        intros [?|[_ ?]]; auto.
    + intros j. rewrite count_if_app, count_if_cons, count_if_nil, Hkey.
      destruct (String.eqb_spec k j) as [<-|Hne].
      * rewrite lookup_insert_eq. cbn [from_option wc_timelines]. rewrite Hc1, Htl. lia.
      * rewrite lookup_insert_ne, Htl by done. lia.
    + intros j c'. rewrite lookup_insert_Some. setoid_rewrite elem_of_app. intros [[<- <-]|[_ Hc']].
      * cbn [wc_timelines wc_scope]. split.
        { rewrite Hc1, Htl. pose proof (count_if_bounds (λ r0, String.eqb (place_key r0) k) (filter placed rows)). lia. }
        unfold c. destruct (counts !! k) as [c0|] eqn:Ek; cbn [default id wc_scope].
        -- destruct (Hpos k c0 Ek) as (_ & r' & su & Hr' & Hpl). exists r', su. auto.
        -- exists r, subs. split; [right; by left|done].
      * destruct (Hpos j c' Hc') as (Ht & r' & su & Hr' & Hpl). split; [done|]. exists r', su. auto.
    + intros j x. setoid_rewrite elem_of_app. setoid_rewrite list_elem_of_singleton.
      destruct (decide (k = j)) as [<-|Hne].
      * rewrite lookup_insert_eq. cbn [from_option wc_subjects]. rewrite elem_of_union, elem_of_list_to_set, Hc2, Hsub.
        split.
        -- intros [Hx|(r' & sc & su & ? & ? & ?)]; [by exists r, scope, subs; auto|by exists r', sc, su; auto].
        -- intros (r' & sc & su & [Hr| ->] & Hpl & Hx); [right; by exists r', sc, su|]. left. congruence.
      * rewrite lookup_insert_ne, Hsub by done. split.
        -- intros (r' & sc & su & ? & ? & ?). exists r', sc, su. auto.
        -- intros (r' & sc & su & [Hr| ->] & Hpl & Hx); [by exists r', sc, su|]. congruence.
  - rewrite decide_False by (unfold placed; rewrite Er; by intros []). rewrite app_nil_r.
    split_and!; try done.
    { intros k c Hc. destruct (Hpos k c Hc) as (Ht & r' & su & Hr' & Hpl). split; [done|]. exists r', su.
      by split; [apply elem_of_app; left|]. }
    intros k x. rewrite Hsub. setoid_rewrite elem_of_app. setoid_rewrite list_elem_of_singleton.
    split; [intros (r' & sc & su & ? & ? & ?); exists r', sc, su; auto|].
    intros (r' & sc & su & [Hr| ->] & Hpl & Hx); [by exists r', sc, su|]. congruence.
Qed.

Lemma withdraw_rows_ext place' rows : (∀ r, place r = place' r) → withdraw_rows place rows = withdraw_rows place' rows.
Proof. intros He. unfold withdraw_rows. apply foldl_ext. intros st r. unfold withdraw_step. by rewrite He. Qed.

(** The timelines counted under the movers are the rows closed. *)
Lemma withdraw_rows_sum rows :
  let '(ids, order, counts) := withdraw_rows place rows in
  sumZ (map (λ k, from_option wc_timelines 0 (counts !! k)) order) = Z.of_nat (length ids).
Proof.
  pose proof (withdraw_rows_spec rows) as Hs. destruct (withdraw_rows place rows) as [[ids order] counts].
  destruct Hs as (-> & Hnd & Hin & Htl & _ & Hsub). rewrite length_map.
  rewrite (map_ext _ (λ k, count_if (λ r, String.eqb (place_key r) k) (filter placed rows))) by done.
  apply sum_of_counts; [done|]. intros r [[[[k sc] su] Hp] Hr]%list_elem_of_filter. apply Hin.
  assert (Hk : place_key r = k) by (unfold place_key; by rewrite Hp). rewrite Hk.
  destruct (counts !! k) eqn:Ek; [eauto|]. exfalso. specialize (Htl k). rewrite Ek in Htl. cbn in Htl.
  assert (0 < count_if (λ r, String.eqb (place_key r) k) (filter placed rows)); [|lia].
  apply count_if_pos. exists r. split; [|by apply String.eqb_eq]. apply list_elem_of_filter. split; [by eexists|done].
Qed.
End Loop.

(** The receipts of the movers, in the order they were met. *)
Definition receipts_of (mk : withdrawalCount → string → NarrowingReceipt) (order : list string)
    (counts : gmap string withdrawalCount) : list NarrowingReceipt :=
  omap (λ key, c ← counts !! key; Some (mk c key)) order.

Lemma receipts_map mk order counts :
  (∀ k, k ∈ order → is_Some (counts !! k)) →
  receipts_of mk order counts = map (λ k, mk (default (mkCount "" ∅ 0) (counts !! k)) k) order.
Proof.
  intros Hin. unfold receipts_of. induction order as [|k order IH]; [done|]. cbn [omap list_omap map].
  destruct (Hin k) as [c Hc]; [left|]. rewrite Hc. cbn [mbind option_bind default]. f_equal. apply IH.
  intros j Hj. apply Hin. by right.
Qed.

Section Receipts.
Context {U : UnicodeCase}.

(** What the three composed withdrawals share. *)
Lemma receipts_spec place mk rows :
  (∀ r k scope subs, place r = Some (k, scope, subs) → subs ≠ []) →
  (∀ c k, nr_Removed (mk c k) = k ∧ nr_TimelinesRemoved (mk c k) = wc_timelines c ∧
          nr_Fires (mk c k) = (0 <? Z.of_nat (size (wc_subjects c)))) →
  let '(ids, order, counts) := withdraw_rows place rows in
  let rs := receipts_of mk order counts in
  ids = map sr_ID (filter (placed place) rows) ∧
  NoDup (map nr_Removed rs) ∧ Forall (λ r, nr_Fires r = true) rs ∧
  sumZ (map nr_TimelinesRemoved rs) = Z.of_nat (length ids).
Proof.
  intros Hne Hmk. pose proof (withdraw_rows_spec place rows) as Hs. pose proof (withdraw_rows_sum place rows) as Hsum.
  destruct (withdraw_rows place rows) as [[ids order] counts]. destruct Hs as (Hids & Hnd & Hin & Htl & Hpos & Hsub).
  intros rs. unfold rs. rewrite receipts_map by (intros k; apply Hin). split_and!.
  - done.
  - rewrite map_map. rewrite (map_ext _ id); [by rewrite map_id|]. intros k. apply Hmk.
  - apply Forall_fmap, Forall_forall. intros k Hk. cbn. destruct (Hmk (default (mkCount "" ∅ 0) (counts !! k)) k) as (_ & _ & ->).
    destruct (proj1 (Hin k) Hk) as [c Hc]. destruct (Hpos k c Hc) as [Hp _]. specialize (Htl k). specialize (Hsub k).
    rewrite Hc in *. cbn [default from_option id] in *. apply Z.ltb_lt.
    rewrite Htl in Hp. apply count_if_pos in Hp as (r & [[[[k' sc] su] Hpl] Hr]%list_elem_of_filter & Hkey).
    apply String.eqb_eq in Hkey. unfold place_key in Hkey. rewrite Hpl in Hkey. subst k'.
    destruct su as [|x su]; [by destruct (Hne _ _ _ _ Hpl)|].
    assert (Hx : x ∈ wc_subjects c) by (apply Hsub; exists r, sc, (x :: su); split_and!; [done|done|left]).
    destruct (decide (size (wc_subjects c) = 0%nat)) as [H0|]; [|lia].
    apply size_empty_inv in H0. set_solver.
  - rewrite map_map. rewrite <- Hsum. f_equal. apply map_ext. intros k.
    destruct (Hmk (default (mkCount "" ∅ 0) (counts !! k)) k) as (_ & -> & _). by destruct (counts !! k).
Qed.

Lemma exclusion_place_spec inp derive r :
  placed (exclusion_place inp derive) r ↔
  ∃ a p, subjectAddress (sr_SubjectKind r) (sr_SubjectKey r) = Some a ∧
    coveringAddressExclusion a (in_exclusions inp) = Some p ∧ derive a ≠ Operator.
Proof.
  unfold placed, exclusion_place. destruct (subjectAddress _ _) as [a|]; cbn [mbind option_bind].
  2: { split; [by intros []|]. by intros (? & ? & ? & _). }
  destruct (coveringAddressExclusion a _) as [p|] eqn:Hp; cbn [mbind option_bind].
  2: { split; [by intros []|]. intros (a' & ? & [= <-] & Hc & _). congruence. }
  case_bool_decide as Hd; [split; [by intros []|]; intros (a' & ? & [= <-] & _ & Hn); done|].
  split; [intros _; by exists a, p|]. eauto.
Qed.

(** An exclusion closes what it covers and tells of it once: the rows closed are
    the candidates whose address an exclusion covers and no custody still probes,
    each exclusion that moved anything has one receipt, every receipt fires, and
    the timelines the receipts state add up to the rows closed. *)
Theorem composeAddressWithdrawals_spec rows inp derive :
  let '(ids, receipts) := composeAddressWithdrawals rows inp derive in
  (∀ r, r ∈ rows → NoDup (map sr_ID rows) →
     (sr_ID r ∈ ids ↔
      ∃ a p, subjectAddress (sr_SubjectKind r) (sr_SubjectKey r) = Some a ∧
        coveringAddressExclusion a (in_exclusions inp) = Some p ∧ derive a ≠ Operator)) ∧
  NoDup (map nr_Removed receipts) ∧ Forall (λ r, nr_Fires r = true) receipts ∧
  sumZ (map nr_TimelinesRemoved receipts) = Z.of_nat (length ids).
Proof.
  pose proof (receipts_spec (exclusion_place inp derive)
    (λ c k, PreviewNarrowing (wc_scope c) k (Z.of_nat (size (wc_subjects c))) (wc_timelines c)) rows) as Hr.
  unfold composeAddressWithdrawals. destruct (withdraw_rows _ rows) as [[ids order] counts].
  destruct Hr as (-> & Hnd & Hf & Hs).
  { intros r k scope subs. unfold exclusion_place. intros (a & _ & (p & _ & H)%bind_Some)%bind_Some.
    case_bool_decide; [done|]. by injection H as _ _ <-. }
  { done. }
  split; [|done]. intros r Hr Hndr. rewrite <- exclusion_place_spec, list_elem_of_fmap. split.
  - intros (r' & Hid & [Hp Hr']%list_elem_of_filter).
    by rewrite (NoDup_map_inj sr_ID rows r r' Hndr Hr Hr' Hid).
  - intros Hp. exists r. split; [done|]. by apply list_elem_of_filter.
Qed.
End Receipts.

(** *** The folds over the store *)

Lemma closed_by_id ids at_ reason b s r :
  r ∈ st_rows (closeSpansByID ids at_ reason b s) → row_open r = true → r ∈ st_rows s ∧ sr_ID r ∉ ids.
Proof.
  rewrite closeSpansByID_rows. cbn [st_rows]. intros (r0 & -> & Hr0)%list_elem_of_fmap Ho.
  unfold close_ids in *. case_bool_decide as Hin.
  - exfalso. destruct (row_open r0) eqn:E.
    + by rewrite (close_row_open at_ reason b (sr_ID r0) r0) in Ho.
    + rewrite (close_row_closed _ _ _ _ r0 E) in Ho. congruence.
  - done.
Qed.

Lemma kept_by_id ids at_ reason b s r :
  r ∈ st_rows s → sr_ID r ∉ ids → r ∈ st_rows (closeSpansByID ids at_ reason b s).
Proof.
  intros Hr Hn. rewrite closeSpansByID_rows. apply list_elem_of_fmap. exists r. split; [|done].
  unfold close_ids. by rewrite bool_decide_false.
Qed.

Section Store.
Context {U : UnicodeCase} {J : JSONData} {A : JSONAddresses}.

Lemma ground_rows_elem covers s found r :
  ground_rows covers s = Some found → r ∈ found → r ∈ st_rows s ∧ is_probed r = true.
Proof.
  unfold ground_rows. intros (ts & _ & [= <-])%bind_Some. rewrite sort_stable_elem.
  by intros [[Hp _]%andb_true_iff Hr]%list_elem_of_filter.
Qed.

Lemma exclusion_ids_spec rows inp derive id :
  id ∈ (composeAddressWithdrawals rows inp derive).1 ↔
  ∃ r, r ∈ rows ∧ sr_ID r = id ∧ placed (exclusion_place inp derive) r.
Proof.
  unfold composeAddressWithdrawals. pose proof (withdraw_rows_spec (exclusion_place inp derive) rows) as Hs.
  destruct (withdraw_rows _ rows) as [[ids order] counts]. destruct Hs as (-> & _). cbn [fst].
  rewrite list_elem_of_fmap. setoid_rewrite list_elem_of_filter. naive_solver.
Qed.

(** An exclusion never closes what is still probed: after the fold of the
    exclusions a row of ground that the custody of the transaction still derives
    to the operator, or that no exclusion covers, is what it was. *)
Theorem exclusions_spare_the_probed batch at_ inp rows s s' receipts r a :
  foldAddressExclusionWithdrawals batch at_ inp rows s = Some (s', receipts) →
  ids_ok s → r ∈ st_rows s → subjectAddress (sr_SubjectKind r) (sr_SubjectKey r) = Some a →
  Derive (hotEstate rows).1 a = Operator ∨ coveringAddressExclusion a (in_exclusions inp) = None →
  r ∈ st_rows s'.
Proof.
  intros Hf Hids Hr Ha Hheld. unfold foldAddressExclusionWithdrawals in Hf.
  destruct (negb _); [by injection Hf as <- _|]. apply bind_Some in Hf as (found & Hfound & Hf).
  destruct (length found =? 0)%nat; [by injection Hf as <- _|].
  pose proof (exclusion_ids_spec found inp (Derive (hotEstate rows).1)) as Hspec.
  destruct (composeAddressWithdrawals _ _ _) as [ids narr]. injection Hf as <- _. cbn [fst] in Hspec.
  apply kept_by_id; [done|]. intros (r' & Hr' & Hid & Hp)%Hspec.
  unfold ListAddressExclusionWithdrawals in Hfound.
  destruct (ground_rows_elem _ _ _ _ Hfound Hr') as [Hr's _].
  pose proof (same_id_same_row s r' r Hids Hr's Hr Hid) as ->.
  apply exclusion_place_spec in Hp as (a' & p & Ha' & Hcov & Hd). rewrite Ha in Ha'. injection Ha' as <-.
  by destruct Hheld; [|congruence].
Qed.

(** A row the seeds' withdrawal may not close. *)
Definition ground_held (inp : membershipInputs) (e : Custody.Estate) (s : spans) (q : list string) (a : Addr) : Prop :=
  text_cited s (quad_text q) = true ∨ addressSeedCovered a (in_seeds inp) = true ∨ Derive e a = Operator.

(** An open row on covered ground that no resolution names is a candidate. *)
Lemma candidate_found covers s found r q a :
  ground_rows covers s = Some found → r ∈ st_rows s → is_probed r = true →
  projected (sr_SubjectKey r) = Some q → quad_inet q = Some a → covers a = true →
  text_cited s (quad_text q) = false → r ∈ found.
Proof.
  unfold ground_rows. intros (ts & Hts & [= <-])%bind_Some Hr Hp Hq Ha Hc Hn. rewrite sort_stable_elem.
  apply list_elem_of_filter. split; [|done]. rewrite Hp. cbn [andb]. apply existsb_bool.
  exists (quad_text q). split; [|by apply projected_like].
  unfold withdrawn_texts in Hts. apply bind_Some in Hts as (tas & Htas & [= <-]).
  assert (Hin : q ∈ projections s).
  { unfold projections. apply list_elem_of_omap. exists r. by rewrite Hp. }
  destruct (mapM_elem _ _ _ _ Htas Hin) as (ta & Hta & Hin'). rewrite Ha in Hta. cbn in Hta. injection Hta as <-.
  apply list_elem_of_fmap. exists (quad_text q, a). split; [done|]. apply list_elem_of_filter. split; [|done].
  cbn [fst snd]. by rewrite Hc, Hn.
Qed.

(** An open row under a network, with its text and its address. *)
Definition open_under (p : Prefix) (s : spans) (r : span_row) (q : list string) (a : Addr) : Prop :=
  r ∈ st_rows s ∧ is_probed r = true ∧ projected (sr_SubjectKey r) = Some q ∧
  quad_inet q = Some a ∧ Contains p a = true.

Lemma ground_empty_spec p s b :
  ground_empty p s = Some b →
  if b then ∀ r q a, ¬ open_under p s r q a else ∃ r q a, open_under p s r q a.
Proof.
  unfold ground_empty. intros (addrs & Ha & [= <-])%bind_Some.
  destruct (existsb (Contains p) addrs) eqn:He; cbn [negb].
  - apply existsb_bool in He as (a & Hin & Hc). apply mapM_Some_1 in Ha. apply list_elem_of_lookup in Hin as [i Hi].
    destruct (Forall2_lookup_r _ _ _ _ _ Ha Hi) as (q & Hq & Hqa). apply list_elem_of_lookup_2 in Hq.
    unfold projections in Hq. apply list_elem_of_omap in Hq as (r & Hr & Hpr).
    destruct (is_probed r) eqn:Hp; [|done]. by exists r, q, a.
  - intros r q a (Hr & Hp & Hq & Hqa & Hc). assert (Hin : q ∈ projections s).
    { unfold projections. apply list_elem_of_omap. exists r. by rewrite Hp. }
    destruct (mapM_elem _ _ _ _ Ha Hin) as (a' & Ha' & Hin').
    apply not_true_iff_false in He. apply He, existsb_bool. exists a'. split; [done|]. congruence.
Qed.

Lemma covering_pending pending w p a :
  w ∈ pending → wr_AddressCidr w = Some p → Contains p a = true → is_Some (coveringSeedWithdrawal a pending).
Proof.
  intros Hw Hp Hc. unfold coveringSeedWithdrawal.
  destruct (List.find _ pending) as [w'|] eqn:Hf; cbn [mbind option_bind].
  - apply find_some in Hf as [_ Hf]. destruct (wr_AddressCidr w'); [by eexists|done].
  - apply list_elem_of_In in Hw. pose proof (find_none _ _ Hf w Hw) as Hn. cbn in Hn. rewrite Hp in Hn. congruence.
Qed.

Lemma seed_ids_spec rows pending inp derive id :
  id ∈ (composeSeedWithdrawals rows pending inp derive).1 ↔
  ∃ r, r ∈ rows ∧ sr_ID r = id ∧
    placed (seed_place (λ a, coveringSeedWithdrawal a pending) (in_seeds inp) derive) r.
Proof.
  unfold composeSeedWithdrawals, composeWithdrawnGround.
  pose proof (withdraw_rows_spec (seed_place (λ a, coveringSeedWithdrawal a pending) (in_seeds inp) derive) rows) as Hs.
  destruct (withdraw_rows _ rows) as [[ids order] counts]. destruct Hs as (-> & _). cbn [fst].
  rewrite list_elem_of_fmap. setoid_rewrite list_elem_of_filter. naive_solver.
Qed.

(** The closures of the fold, and what they spare. *)
Lemma seed_closures found pending inp derive at_ batch s :
  ∃ ids narr,
    (if (length found =? 0)%nat then (s, [])
     else let '(ids, narrowings) := composeSeedWithdrawals found pending inp derive in
          (closeSpansByID ids at_ ReasonDescoped batch s, narrowings)) =
      (closeSpansByID ids at_ ReasonDescoped batch s, narr) ∧
    ∀ r, r ∈ found → sr_ID r ∉ ids →
      ¬ placed (seed_place (λ a, coveringSeedWithdrawal a pending) (in_seeds inp) derive) r.
Proof.
  destruct (Nat.eqb_spec (length found) 0) as [Hn|Hn].
  - apply nil_length_inv in Hn as ->. exists [], []. split; [done|]. by intros r []%not_elem_of_nil.
  - pose proof (seed_ids_spec found pending inp derive) as Hspec.
    destruct (composeSeedWithdrawals _ _ _ _) as [ids narr]. exists ids, narr. split; [done|].
    intros r Hr Hid Hpl. apply Hid, Hspec. by exists r.
Qed.

(** Why a row under a pending tombstone is still open. *)
Lemma spared_is_held pending w p found inp e s ids at_ reason batch r q a :
  ground_rows (λ a, existsb (λ p, Contains p a) (pendingWithdrawnCIDRs pending)) s = Some found →
  (∀ r, r ∈ found → sr_ID r ∉ ids →
     ¬ placed (seed_place (λ a, coveringSeedWithdrawal a pending) (in_seeds inp) (Derive e)) r) →
  w ∈ pending → wr_AddressCidr w = Some p →
  open_under p (closeSpansByID ids at_ reason batch s) r q a →
  (r ∈ st_rows s → subjectAddress (sr_SubjectKind r) (sr_SubjectKey r) = Some a) →
  ground_held inp e s q a.
Proof.
  intros Hfound Hspared Hw Hp (Hr & Hpr & Hq & Ha & Hca) Hkey.
  assert (Hopen : row_open r = true) by (unfold is_probed in Hpr; by apply andb_true_iff in Hpr as [? _]).
  destruct (closed_by_id _ _ _ _ _ _ Hr Hopen) as [Hrs Hnid]. unfold ground_held.
  destruct (text_cited s (quad_text q)) eqn:Hct; [by left|]. right.
  assert (Hcov : existsb (λ p, Contains p a) (pendingWithdrawnCIDRs pending) = true).
  { apply existsb_bool. exists p. split; [|done]. apply list_elem_of_omap. by exists w. }
  pose proof (candidate_found _ _ _ _ _ _ Hfound Hrs Hpr Hq Ha Hcov Hct) as Hcand.
  specialize (Hspared r Hcand Hnid). unfold placed, seed_place in Hspared.
  rewrite (Hkey Hrs) in Hspared. cbn [mbind option_bind] in Hspared.
  destruct (covering_pending pending w p a Hw Hp Hca) as [p' Hp']. rewrite Hp' in Hspared. cbn [mbind option_bind] in Hspared.
  destruct (addressSeedCovered a (in_seeds inp)); [by left|]. right.
  case_bool_decide as Hd; [done|]. exfalso. apply Hspared. by eexists.
Qed.

(** [C23] A withdrawn seed's tombstone is spent when its ground is empty and is kept
    while something there is still held.  Where the fold goes through (no key's
    quad fails the cast to an address) and the quad the query takes from each
    service and endpoint key is the address the code reads from it, a pending IPv4
    tombstone is after the fold either stamped, with no service or endpoint open
    under it, or it stands, and under it is an open row whose address's text occurs
    somewhere in the value of an open resolution (that of a longer address
    included), or whose address a seed still covers, or whose address custody still
    derives to the operator. *)
Theorem tombstone_spent_when_empty batch at_ inp rows locked s tombs s' tombs' receipts w p :
  foldSeedWithdrawals batch at_ inp rows locked (s, tombs) = Some (s', tombs', receipts) →
  w ∈ ListPending "address" locked tombs → wr_AddressCidr w = Some p → is_v4 p = true →
  (∀ r q, r ∈ st_rows s → is_probed r = true → projected (sr_SubjectKey r) = Some q →
     subjectAddress (sr_SubjectKind r) (sr_SubjectKey r) = quad_inet q) →
  (spend_row at_ batch w ∈ tombs' ∧ ∀ r q a, ¬ open_under p s' r q a) ∨
  (w ∈ tombs' ∧ ∃ r q a, open_under p s' r q a ∧ ground_held inp (hotEstate rows).1 s q a).
Proof.
  intros Hf Hw Hp Hv4 Hkeys. unfold foldSeedWithdrawals in Hf.
  set (pending := ListPending "address" locked tombs) in *.
  destruct (Nat.eqb_spec (length pending) 0) as [H0|H0].
  { apply nil_length_inv in H0. rewrite H0 in Hw. by apply not_elem_of_nil in Hw. }
  apply bind_Some in Hf as (found & Hfound & Hf).
  destruct (seed_closures found pending inp (Derive (hotEstate rows).1) at_ batch s) as (ids & narr & Hc & Hspared).
  rewrite Hc in Hf. apply bind_Some in Hf as (tombs1 & Hspend & [= <- <- <-]).
  pose proof Hw as Hw'. unfold pending, ListPending in Hw'. apply list_elem_of_filter in Hw' as [(Hcons & Hkind & _) Htomb].
  destruct (mapM_elem _ _ _ _ Hspend Htomb) as (w' & Hw' & Hin). rewrite Hp in Hw'.
  assert (Hsp : spendable (map wr_ID pending) "address" w = true).
  { unfold spendable. rewrite bool_decide_true, Hkind, bool_decide_true; [done| |done]. by apply list_elem_of_fmap_2. }
  rewrite Hsp, Hv4 in Hw'. cbn [andb] in Hw'. apply bind_Some in Hw' as (b & Hb & [= <-]).
  pose proof (ground_empty_spec _ _ _ Hb) as Hspec. destruct b; [by left|]. right. split; [done|].
  destruct Hspec as (r & q & a & Hu). exists r, q, a. split; [done|].
  eapply spared_is_held; [exact Hfound|exact Hspared|exact Hw|exact Hp|exact Hu|].
  destruct Hu as (_ & Hpr & Hq & Ha & _). intros Hrs. by rewrite (Hkeys r q Hrs Hpr Hq).
Qed.
Lemma closeSpansByID_ids ids at_ reason b s : ids_ok s → ids_ok (closeSpansByID ids at_ reason b s).
Proof.
  unfold closeSpansByID. revert s. induction ids as [|id ids IH]; intros s Hs; [done|]. cbn [foldl].
  by apply IH, CloseSpan_ids.
Qed.

(** A withdrawn name seed takes no name that is still measured: a name's row
    that another seed covers, or whose name another source still admits, is after
    the fold what it was. *)
Theorem name_withdrawal_spares_the_admitted batch at_ inp admitted locked walking s tombs r :
  ids_ok s → r ∈ st_rows s → open_name_row r = true →
  nameSeedCovered (sr_SubjectKey r) (in_seeds inp) = true ∨
    resolutionNameKey (sr_SubjectKey r) ∈ admitted_keys admitted →
  r ∈ st_rows (foldNameSeedWithdrawals batch at_ inp admitted locked walking (s, tombs)).1.1.
Proof.
  intros Hids Hr Ho Hheld. unfold foldNameSeedWithdrawals. destruct (length _ =? 0)%nat; [done|].
  set (pending := ListPending "name" locked tombs).
  set (found := ListNameSeedWithdrawalCandidates (pendingWithdrawnDomains pending) s).
  destruct (length found =? 0)%nat; [done|]. unfold composeNameSeedWithdrawals, composeWithdrawnNameGround.
  set (place := name_place _ _ _). pose proof (withdraw_rows_spec place found) as Hs.
  destruct (withdraw_rows place found) as [[ids order] counts]. destruct Hs as (Hid & _). cbn [fst].
  rewrite closeUncited_rows by (by apply closeSpansByID_ids). apply list_elem_of_fmap. exists r. split.
  - unfold ground_close, open_name_row in *. apply andb_true_iff in Ho as [_ Hk%String.eqb_eq].
    destruct (is_probed r) eqn:Hp; [|done]. by destruct (probed_not_name r Hp).
  - apply kept_by_id; [done|]. rewrite Hid. intros (r' & Heq & [Hp Hr']%list_elem_of_filter)%list_elem_of_fmap.
    unfold found, ListNameSeedWithdrawalCandidates in Hr'. rewrite sort_stable_elem in Hr'.
    apply list_elem_of_filter in Hr' as [_ Hr']. pose proof (same_id_same_row s r' r Hids Hr' Hr (eq_sym Heq)) as ->.
    unfold placed, place, name_place in Hp. destruct (String.eqb _ _); [by destruct Hp|].
    destruct Hheld as [Hseed|Hin]; [rewrite Hseed in Hp; by destruct Hp|]. rewrite (bool_decide_true (_ ∈ _)) in Hp by done.
    destruct (nameSeedCovered _ _); by destruct Hp.
Qed.

Lemma only_key (l : list string) k : NoDup l → (∀ x, x ∈ l → x = k) → l = [] ∨ l = [k].
Proof.
  intros Hnd Hall. destruct l as [|x [|y l]]; [by left|right; by rewrite (Hall x) by left|].
  exfalso. apply NoDup_cons in Hnd as [Hx _]. apply Hx. rewrite (Hall x), (Hall y); [left|right; left|left].
Qed.

(** Under one network there is one mover. *)
Lemma one_mover cidr seeds derive found :
  let '(ids, order, counts) :=
    withdraw_rows (seed_place (λ a, if Contains cidr a then Some cidr else None) seeds derive) found in
  (order = [] ∧ counts !! Prefix_String cidr = None) ∨
  (order = [Prefix_String cidr] ∧ ∃ c, counts !! Prefix_String cidr = Some c ∧ wc_scope c = Prefix_String cidr ∧
     0 < Z.of_nat (size (wc_subjects c)) ∧ length found ≠ 0%nat).
Proof.
  set (place := seed_place _ _ _).
  assert (Hplace : ∀ r k sc su, place r = Some (k, sc, su) → k = Prefix_String cidr ∧ sc = Prefix_String cidr ∧ su ≠ []).
  { intros r k sc su. unfold place, seed_place. intros (a & _ & (p & Hp & H)%bind_Some)%bind_Some.
    destruct (Contains cidr a); [|done]. injection Hp as <-. destruct (addressSeedCovered _ _); [done|].
    case_bool_decide; [done|]. by injection H as <- <- <-. }
  pose proof (withdraw_rows_spec place found) as Hs. destruct (withdraw_rows place found) as [[ids order] counts].
  destruct Hs as (_ & Hnd & Hin & _ & Hpos & Hsub).
  destruct (only_key order (Prefix_String cidr) Hnd) as [Ho|Ho].
  { intros k Hk. apply Hin in Hk as [c Hc]. destruct (Hpos k c Hc) as (_ & r & su & _ & Hpl).
    by destruct (Hplace _ _ _ _ Hpl). }
  - left. split; [done|]. destruct (counts !! Prefix_String cidr) eqn:E; [|done].
    assert (Hk : Prefix_String cidr ∈ order) by (apply Hin; eauto). rewrite Ho in Hk. by apply not_elem_of_nil in Hk.
  - right. split; [done|]. assert (Hk : Prefix_String cidr ∈ order) by (rewrite Ho; left).
    apply Hin in Hk as [c Hc]. exists c. destruct (Hpos _ c Hc) as (_ & r & su & Hr & Hpl).
    destruct (Hplace _ _ _ _ Hpl) as (_ & Hsc & Hne). destruct su as [|x su]; [done|].
    assert (Hx : x ∈ wc_subjects c).
    { specialize (Hsub (Prefix_String cidr) x). rewrite Hc in Hsub. cbn in Hsub. apply Hsub.
      exists r, (wc_scope c), (x :: su). split_and!; [done|done|left]. }
    split_and!; [done|done| |].
    + destruct (decide (size (wc_subjects c) = 0%nat)) as [H0|]; [|lia]. apply size_empty_inv in H0. set_solver.
    + intros H0. apply nil_length_inv in H0. rewrite H0 in Hr. by apply not_elem_of_nil in Hr.
Qed.

(** [C24] The preview of a seed's withdrawal is what the act will say: with the seed
    gone, its tombstone the only one pending, and nothing else moved between the
    two, the fold writes exactly the receipt that was shown, or none where the
    receipt said nothing would fire. *)
Theorem preview_is_the_act seeds rows cidr s r batch at_ inp rows' locked tombs w s' tombs' receipts :
  SeedWithdrawalReceipt seeds rows cidr s = Some r →
  ListPending "address" locked tombs = [w] → wr_AddressCidr w = Some cidr →
  in_seeds inp = withoutAddressSeed seeds cidr →
  (hotEstate rows').1 = estate_without (hotEstate rows).1 cidr →
  foldSeedWithdrawals batch at_ inp rows' locked (s, tombs) = Some (s', tombs', receipts) →
  receipts = if nr_Fires r then [r] else [].
Proof.
  intros Hprev Hpend Hw Hseeds Hest Hfold. unfold SeedWithdrawalReceipt in Hprev.
  apply bind_Some in Hprev as (found & Hfound & Hprev). unfold foldSeedWithdrawals in Hfold. rewrite Hpend in Hfold.
  cbn [length Nat.eqb pendingWithdrawnCIDRs omap list_omap] in Hfold. rewrite Hw in Hfold.
  change (omap wr_AddressCidr []) with (@nil Prefix) in Hfold. rewrite Hfound in Hfold. cbn [mbind option_bind] in Hfold.
  set (place := seed_place (λ a, if Contains cidr a then Some cidr else None) (withoutAddressSeed seeds cidr)
                  (Derive (estate_without (hotEstate rows).1 cidr))) in *.
  assert (Hcompose : composeSeedWithdrawals found [w] inp (Derive (hotEstate rows').1) =
    let '(ids, order, counts) := withdraw_rows place found in (ids, seed_receipts order counts)).
  { unfold composeSeedWithdrawals, composeWithdrawnGround. rewrite Hseeds, Hest.
    rewrite (withdraw_rows_ext _ place); [done|]. intros row. unfold place, seed_place.
    destruct (subjectAddress _ _) as [a|]; [|done]. cbn [mbind option_bind].
    unfold coveringSeedWithdrawal. cbn [List.find]. rewrite Hw. by destruct (Contains cidr a); cbn; rewrite ?Hw. }
  rewrite Hcompose in Hfold. unfold composeWithdrawnGround in Hprev. fold place in Hprev.
  pose proof (one_mover cidr (withoutAddressSeed seeds cidr) (Derive (estate_without (hotEstate rows).1 cidr)) found) as Hone.
  fold place in Hone. destruct (withdraw_rows place found) as [[ids order] counts]. cbn [mbind option_bind] in Hprev.
  injection Hprev as <-. unfold count_receipt.
  destruct Hone as [[-> ->]|(-> & c & Hc & Hsc & Hsz & Hne)].
  - assert (receipts = []) as ->.
    { destruct (length found =? 0)%nat; cbn [mbind option_bind] in Hfold;
        apply bind_Some in Hfold as (t & _ & [= _ _ <-]); done. }
    done.
  - rewrite (proj2 (Nat.eqb_neq _ _)) in Hfold by done. apply bind_Some in Hfold as (t & _ & [= _ _ <-]).
    rewrite Hc. unfold seed_receipts. cbn [omap list_omap]. rewrite ?Hc. cbn [mbind option_bind]. rewrite Hsc.
    unfold PreviewSeedWithdrawal. cbn [nr_Fires]. by rewrite (proj2 (Z.ltb_lt _ _)) by lia.
Qed.
End Store.

(** ** A store to try them on *)

Definition demo_excluded : membershipInputs :=
  mkInputs [mkSeedRow "address" None (Some (mkPrefix (Addr4 3221225984) 24))]
    [mkExclusion exclusionKindAddress None (Some (mkPrefix (Addr4 3221225984) 30))].

Definition demo_ground : spans :=
  mkSpans [demo_service 1 "192.0.2.1:443"; demo_service 2 "192.0.2.1:80"; demo_service 3 "192.0.2.2:443";
           demo_service 4 "192.0.2.9:443"; demo_name 5 "w.example" "192.0.2.2" None] 6.

Definition demo_estate (scopes : list Prefix) : estate_rows :=
  mkEstateRows (map Some scopes) [] [] EdgeFanoutZero [Some (mkPrefix (Addr4 3221225984) 30)].

(** An exclusion of four addresses takes the one that nothing cites. *)
Example demo_exclusion :
  (λ st, (map sr_ClosedAt (st_rows st.1), map nr_Headline st.2)) <$>
    foldAddressExclusionWithdrawals 9 50 demo_excluded (demo_estate [mkPrefix (Addr4 3221225984) 24]) demo_ground =
  Some ([Some 50; Some 50; None; None; None],
        ["192.0.2.0/24 narrowed · 192.0.2.0/30 excluded · 3 subjects withdrawn · 2 timelines taken out of the estate"%string]).
Proof. vm_compute. reflexivity. Qed.

(** The candidates are kept back by a text that only contains theirs: while a name
    resolves to [192.0.2.10], the excluded [192.0.2.1] is not withdrawn. *)
Example longer_address_shields_the_excluded :
  let s := mkSpans [demo_service 1 "192.0.2.1:443"; demo_name 2 "w.example" "192.0.2.10" None] 3 in
  citers s "192.0.2.1" = [] ∧
  foldAddressExclusionWithdrawals 9 50 demo_excluded (demo_estate []) s = Some (s, []).
Proof. vm_compute. auto. Qed.

Definition demo_cidr : Prefix := mkPrefix (Addr4 3221225984) 30.
Definition demo_tomb : withdrawal_row := mkTomb 7 "address" None (Some demo_cidr) None None.
Definition demo_seeds : list seed_row := [mkSeedRow "address" None (Some demo_cidr)].
Definition unlocked : Z → bool := λ _, false.

Definition demo_fold : option (spans * list withdrawal_row * list NarrowingReceipt) :=
  foldSeedWithdrawals 9 50 (mkInputs [] []) (demo_estate []) unlocked (demo_ground, [demo_tomb]).

Lemma exclusions_spare_the_probed_witness :
  ∃ s' rs, foldAddressExclusionWithdrawals 9 50 demo_excluded (demo_estate []) demo_ground = Some (s', rs) ∧
    demo_service 4 "192.0.2.9:443" ∈ st_rows s'.
Proof.
  eexists _, _. split; [vm_compute; reflexivity|].
  eapply (exclusions_spare_the_probed 9 50 demo_excluded (demo_estate []) demo_ground _ _ _ (Addr4 3221225993)).
  - vm_compute. reflexivity.
  - split; [apply NoDup_ListNoDup; repeat constructor; cbn; intuition discriminate|]. repeat constructor.
  - cbn. do 3 right. left.
  - reflexivity.
  - right. vm_compute. reflexivity.
Defined.

Lemma tombstone_spent_when_empty_witness :
  ∃ s' tombs' rs, demo_fold = Some (s', tombs', rs) ∧
    ((spend_row 50 9 demo_tomb ∈ tombs' ∧ ∀ r q a, ¬ open_under demo_cidr s' r q a) ∨
     (demo_tomb ∈ tombs' ∧
      ∃ r q a, open_under demo_cidr s' r q a ∧ ground_held (mkInputs [] []) (hotEstate (demo_estate [])).1 demo_ground q a)).
Proof.
  eexists _, _, _. split; [vm_compute; reflexivity|].
  eapply (tombstone_spent_when_empty 9 50 (mkInputs [] []) (demo_estate []) unlocked demo_ground [demo_tomb]).
  - vm_compute. reflexivity.
  - vm_compute. left.
  - reflexivity.
  - reflexivity.
  - intros r q Hr Hp Hq. cbn in Hr. rewrite !elem_of_cons in Hr.
    destruct Hr as [->|[->|[->|[->|[->|[]%not_elem_of_nil]]]]]; vm_compute in Hp; vm_compute in Hq;
      first [discriminate Hp|injection Hq as <-; reflexivity].
Defined.

Lemma preview_is_the_act_witness :
  ∃ r s' tombs' rs,
    SeedWithdrawalReceipt demo_seeds (demo_estate [demo_cidr]) demo_cidr demo_ground = Some r ∧
    demo_fold = Some (s', tombs', rs) ∧ rs = if nr_Fires r then [r] else [].
Proof.
  eexists _, _, _, _. split; [vm_compute; reflexivity|]. split; [vm_compute; reflexivity|].
  eapply (preview_is_the_act demo_seeds (demo_estate [demo_cidr]) demo_cidr demo_ground _ 9 50 (mkInputs [] [])
            (demo_estate []) unlocked [demo_tomb] demo_tomb).
  - vm_compute. reflexivity.
  - vm_compute. reflexivity.
  - reflexivity.
  - vm_compute. reflexivity.
  - vm_compute. reflexivity.
  - vm_compute. reflexivity.
Defined.
