(* ===== verification/Census.v ===== *)
(** * Roots, censuses and the polls that complete them

    [queue/produce.go] (the membership roots), [scopereveal.go], [repoint.go],
    [repointsettle.go], [release.go] and the two polls of [queue.go]: what a fold
    says of the ground it opened, at once or held until the hot tier has looked
    beneath the root, and what a name that moved owes for the rest.  The queries
    are those of [db/span.sql.go], over the rows of [SpanStore].  The decoding of
    a value's addresses and of a basis is a class; an error of the database
    abandons the transaction and is not modelled. *)

From S2P Require Import Prelude GoTime GoStr NetIP NetParse NetText Message Drift Estate SubjectScope SpanStore VergeCore SignalFacts Departures.

(** ** What a value cites *)

(** [json.Unmarshal] of a resolution's [addresses] ([None] is its error) and
    [json.Valid]. *)
Class JSONCited := {
  cited_addresses : string → option (list string);
  json_valid : string → bool
}.

Definition citedIn {C : JSONCited} (value : string) : gset string :=
  if String.eqb value "" then ∅
  else match cited_addresses value with
       | None => ∅
       | Some l => list_to_set (omap (λ a, Addr_String <$> ParseAddr a) l)
       end.

(** [json.Unmarshal] checks the whole text before it reads any of it. *)
Class JSONCitedLaws (C : JSONCited) : Prop := { cited_valid v : is_Some (cited_addresses v) → json_valid v = true }.

(** ** Roots *)

(** What a census reads of its root's change, or of the basis of a held one. *)
Record Root := mkRoot { rt_Kind : string; rt_Key : string; rt_Value : string }.

Definition root_of (c : spanChange) : Root := mkRoot (ch_Kind c) (tl_Subject (ch_Timeline c)) (ch_Value c).

Record subjectRef := mkRef { rf_kind : string; rf_key : string; rf_inFoldBatch : bool }.

Definition identity (s : subjectRef) : string * string := (rf_kind s, rf_key s).

Definition subjectBeneathRoot (root : Root) (cited : gset string) (kind key : string) : bool :=
  if String.eqb (rt_Kind root) subjectKindName then
    (String.eqb kind subjectKindEndpoint && String.eqb (SplitEndpointName key).1 (rt_Key root)) ||
    match subjectAddress kind key with Some a => bool_decide (Addr_String a ∈ cited) | None => false end
  else if String.eqb (rt_Kind root) subjectKindAddress then
    match subjectAddress kind key with Some a => String.eqb (Addr_String a) (rt_Key root) | None => false end
  else false.

(** The service or endpoint kinds, which are what a census counts. *)
Definition counted_kind (kind : string) : bool :=
  String.eqb kind subjectKindService || String.eqb kind subjectKindEndpoint.

Section Censuses.
Context {U : UnicodeCase} {C : JSONCited}.

Definition citedAddresses (root : Root) : gset string :=
  if negb (String.eqb (rt_Kind root) subjectKindName) then ∅ else citedIn (rt_Value root).

Definition census_step (root : Root) (cited : gset string) (st : gset (string * string) * list CensusEntry) (s : subjectRef)
    : gset (string * string) * list CensusEntry :=
  let '(seen, entries) := st in
  if String.eqb (rf_key s) (rt_Key root) then st
  else if negb (counted_kind (rf_kind s)) then st
  else if negb (subjectBeneathRoot root cited (rf_kind s) (rf_key s)) then st
  else if bool_decide (identity s ∈ seen) then st
  else ({[ identity s ]} ∪ seen, entries ++ [mkEntry (rf_kind s) (rf_key s) ""]).

Definition censusBeneathRoot (root : Root) (subjects : list subjectRef) : Census :=
  NewCensus (foldl (census_step root (citedAddresses root)) (∅, []) subjects).2.

(** What a fold opened. *)
Definition opened_refs (changes : list spanChange) : list subjectRef :=
  map (λ c, mkRef (ch_Kind c) (tl_Subject (ch_Timeline c)) false) (filter (λ c, ch_Opened c = true) changes).

Definition membershipCensus (changes : list spanChange) (root : Root) : Census :=
  censusBeneathRoot root (opened_refs changes).

Definition pendingCensus (batchID : Z) (root : Root) : CensusPending :=
  mkPending batchID (mkBasis (rt_Kind root) (rt_Key root) (if json_valid (rt_Value root) then Some (rt_Value root) else None)).

Definition membershipRoot (batchID observedAt : Z) (entry : string) (root : Root) (seedKey : string)
    (changes : list spanChange) (holdCensus : bool) : option Message.Message :=
  if holdCensus then Message.HeldMembership entry (rt_Kind root) (rt_Key root) seedKey (pendingCensus batchID root) observedAt
  else Message.Membership entry (rt_Kind root) (rt_Key root) seedKey (membershipCensus changes root) observedAt.

Definition coveringSeedKey (rootKind rootKey : string) (inp : membershipInputs) : string :=
  if String.eqb rootKind subjectKindName then
    let name := normalizeDomain rootKey in
    match List.find (λ s, String.eqb (sd_Kind s) "name" &&
                          match sd_NameDomain s with Some d => nameWithinDomain name d | None => false end) (in_seeds inp) with
    | Some s => normalizeDomain (default "" (sd_NameDomain s))
    | None => ""
    end
  else if String.eqb rootKind "address" then
    match ParseAddr rootKey with
    | None => ""
    | Some addr =>
        match List.find (λ s, String.eqb (sd_Kind s) "address" &&
                              match sd_AddressCidr s with Some p => Contains p addr | None => false end) (in_seeds inp) with
        | Some s => match sd_AddressCidr s with Some p => Prefix_String p | None => "" end
        | None => ""
        end
    end
  else "".

Definition is_root (c : spanChange) : bool :=
  ch_Opened c && String.eqb (tl_Facet (ch_Timeline c)) FacetResolution && RootFires (ch_Kind c).

Definition root_message (batchID observedAt : Z) (changes : list spanChange) (inp : membershipInputs) (holdCensus : bool)
    (root : spanChange) : option Message.Message :=
  if negb (is_root root) then None
  else
    let entry := membershipEntry root in
    let seedKey := if String.eqb entry EntryRevealed
                   then coveringSeedKey (ch_Kind root) (tl_Subject (ch_Timeline root)) inp else "" in
    membershipRoot batchID observedAt entry (root_of root) seedKey changes holdCensus.

Definition membershipMessages (batchID observedAt : Z) (changes : list spanChange) (inp : membershipInputs) (holdCensus : bool)
    : list Message.Message :=
  omap (root_message batchID observedAt changes inp holdCensus) changes.

(** ** Dark scopes *)

Record scopeCandidate := mkCandidate { sn_scope : string; sn_kind : string; sn_key : string; sn_addr : string }.

Definition foldCitedAddresses (changes : list spanChange) : gset string :=
  ⋃ map (λ c, citedIn (ch_Value c))
        (filter (λ c, ch_Kind c = subjectKindName ∧ tl_Facet (ch_Timeline c) = FacetResolution) changes).

Definition foldMembershipRoots (changes : list spanChange) : list spanChange := filter (λ c, is_root c = true) changes.

Definition coveredByFoldRoot (roots : list Root) (kind key : string) : bool :=
  existsb (λ root, subjectBeneathRoot root (citedAddresses root) kind key) roots.

(** The candidate an opening makes, if it is dark. *)
Definition dark_candidate (cited : gset string) (roots : list Root) (inp : membershipInputs) (c : spanChange)
    : option scopeCandidate :=
  let kind := ch_Kind c in
  let key := tl_Subject (ch_Timeline c) in
  if negb (ch_Opened c) || negb (counted_kind kind) then None
  else if negb (String.eqb (SplitEndpointName key).1 "") then None
  else
    addr ← subjectAddress kind key;
    if bool_decide (Addr_String addr ∈ cited) then None
    else if bool_decide (is_Some (coveringAddressExclusion addr (in_exclusions inp))) then None
    else
      let scope := coveringSeedKey subjectKindAddress (Addr_String addr) inp in
      if String.eqb scope "" || coveredByFoldRoot roots kind key then None
      else Some (mkCandidate scope kind key (Addr_String addr)).

Definition dark_step (cited : gset string) (roots : list Root) (inp : membershipInputs)
    (st : gset (string * string) * list scopeCandidate) (c : spanChange) : gset (string * string) * list scopeCandidate :=
  let '(seen, out) := st in
  match dark_candidate cited roots inp c with
  | None => st
  | Some cand =>
      let id := (sn_kind cand, sn_key cand) in
      if bool_decide (id ∈ seen) then st else ({[ id ]} ∪ seen, out ++ [cand])
  end.

Definition darkScopeOpenings (changes : list spanChange) (inp : membershipInputs) : list scopeCandidate :=
  (foldl (dark_step (foldCitedAddresses changes) (map root_of (foldMembershipRoots changes)) inp) (∅, []) changes).2.

Definition scopeCandidateAddresses (candidates : list scopeCandidate) : list string :=
  sorted_keys (list_to_set (map sn_addr candidates)).

(** A timeline that cites an address. *)
Record citerRef := mkCiter {
  ci_addr : string; ci_subjectKey : string; ci_discriminator : string; ci_vantageID : option Z; ci_source : string
}.

Definition addressesWithOpenCiters (rows : list citerRef) : gset string := list_to_set (map ci_addr rows).

Definition scope_group (cited : gset string) (m : gmap string (list CensusEntry)) (c : scopeCandidate)
    : gmap string (list CensusEntry) :=
  if bool_decide (sn_addr c ∈ cited) then m
  else <[sn_scope c := default [] (m !! sn_scope c) ++ [mkEntry (sn_kind c) (sn_key c) ""]]> m.

Definition scopeRevealMessages (observedAt : Z) (candidates : list scopeCandidate) (citers : list citerRef) : list Message.Message :=
  let byScope := foldl (scope_group (addressesWithOpenCiters citers)) ∅ candidates in
  omap (λ s, ScopeRevealed s (NewCensus (default [] (byScope !! s))) observedAt) (sorted_keys (dom byScope)).

(** ** Names that move *)

Record rePoint := mkRePoint {
  mv_name : string;
  mv_discriminator : string;
  mv_vantageID : option Z;
  mv_source : string;
  mv_before : gset string;
  mv_after : gset string
}.

Definition change_move (c : spanChange) : option rePoint :=
  let t := ch_Timeline c in
  if ch_Opened c || ch_IsGap c || negb (String.eqb (tl_Facet t) FacetResolution) || negb (String.eqb (ch_Kind c) subjectKindName)
  then None
  else if ch_PrevIsGap c then None
  else Some (mkRePoint (tl_Subject t) (tl_Discriminator t) (tl_VantageID t) (tl_Source t)
               (citedIn (ch_Previous c)) (citedIn (ch_Value c))).

Definition rePoints (changes : list spanChange) : list rePoint := omap change_move changes.

Definition mv_sameTimeline (mv : rePoint) (r : citerRef) : bool :=
  String.eqb (ci_subjectKey r) (mv_name mv) && String.eqb (ci_discriminator r) (mv_discriminator mv) &&
  bool_decide (ci_vantageID r = mv_vantageID mv) && String.eqb (ci_source r) (mv_source mv).

Definition rePointCandidateAddresses (moves : list rePoint) : list string :=
  sorted_keys ((⋃ map mv_after moves) ∖ (⋃ map mv_before moves)).

Definition movedTimeline (moves : list rePoint) (r : citerRef) : bool := existsb (λ mv, mv_sameTimeline mv r) moves.

(** What was not part of the estate before the moves. *)
Definition addressesNewToEstate (moves : list rePoint) (inp : membershipInputs) (citers : list citerRef) : list string :=
  let keys := rePointCandidateAddresses moves in
  let citedElsewhere : gset string :=
    list_to_set (map ci_addr (filter (λ r, ci_addr r ∈ keys ∧ movedTimeline moves r = false) citers)) in
  filter (λ a,
    match ParseAddr a with
    | None => false
    | Some addr =>
        negb (AddressPresent (bool_decide (a ∈ citedElsewhere)) (addressSeedCovered addr (in_seeds inp))) &&
        bool_decide (coveringAddressExclusion addr (in_exclusions inp) = None)
    end = true) keys.

Definition rePointMessages (batchID observedAt : Z) (changes : list spanChange) (moves : list rePoint)
    (inp : membershipInputs) (citers : list citerRef) (holdCensus : bool) : list Message.Message :=
  if (length moves =? 0)%nat then []
  else omap (λ addr, membershipRoot batchID observedAt EntryAppeared (mkRoot subjectKindAddress addr "") "" changes holdCensus)
         (addressesNewToEstate moves inp citers).

(** The addresses both producers ask the store about, in one read. *)
Definition mergeAddressKeys (sets : list (list string)) : list string := sorted_keys (list_to_set (concat sets)).

(** *** The residue *)

Record rootCover := mkCover { rc_fresh : gset string; rc_atCause : bool }.

Definition named (c : rootCover) (s : subjectRef) : bool := negb (rc_atCause c) || rf_inFoldBatch s.

Definition covers (c : rootCover) (addrKey : string) (s : subjectRef) (roots : list Root) : bool :=
  if negb (bool_decide (addrKey ∈ rc_fresh c)) && negb (coveredByFoldRoot roots (rf_kind s) (rf_key s)) then false
  else named c s.

Definition residue_step (mv : rePoint) (cover : rootCover) (roots : list Root)
    (st : gset string * list CensusEntry) (s : subjectRef) : gset string * list CensusEntry :=
  let '(seen, entries) := st in
  if negb (String.eqb (rf_kind s) subjectKindEndpoint) || bool_decide (rf_key s ∈ seen) then st
  else
    match subjectAddress (rf_kind s) (rf_key s) with
    | None => st
    | Some addr =>
        let key := Addr_String addr in
        if negb (bool_decide (key ∈ mv_after mv)) || bool_decide (key ∈ mv_before mv) || covers cover key s roots then st
        else ({[ rf_key s ]} ∪ seen, entries ++ [mkEntry (rf_kind s) (rf_key s) ""])
    end.

Definition rePointResidue (mv : rePoint) (subjects : list subjectRef) (cover : rootCover) (roots : list Root) : Census :=
  NewCensus (foldl (residue_step mv cover roots) (∅, []) subjects).2.
End Censuses.

(** ** The release of a held census *)

Definition basisRoot (b : CensusBasis) : Root := mkRoot (cb_RootKind b) (cb_RootKey b) (default "" (cb_RootValue b)).

(** The row a release leaves: its census, its headline, no hold. *)
Definition released `{!JSONCited} (m : Message.Message) (subjects : list subjectRef) : option Message.Message :=
  p ← ms_CensusPending m;
  let census := censusBeneathRoot (basisRoot (cp_Basis p)) subjects in
  Some (mkMessage (ms_Cause m) (ms_Class m) (ms_SubjectKind m) (ms_FiredAt m) (ms_Instant m)
          (Some census) None (ReleasedMembershipHeadline (ms_Headline m) (cb_RootKind (cp_Basis p)) census)).

(** ** What a census holds *)

Definition root_counts (root : Root) (cited : gset string) (s : subjectRef) : bool :=
  negb (String.eqb (rf_key s) (rt_Key root)) && counted_kind (rf_kind s) &&
  subjectBeneathRoot root cited (rf_kind s) (rf_key s).

Definition entry_of (id : string * string) : CensusEntry := mkEntry id.1 id.2 "".

Lemma entry_of_inj : Inj (=) (=) entry_of.
Proof. intros [k1 n1] [k2 n2]. by intros [= -> ->]. Qed.

Lemma entry_of_separate (l : list CensusEntry) (ids : list (string * string)) :
  l = map entry_of ids → ∀ x y, x ∈ l → y ∈ l → entry_less x y = false → entry_less y x = false → x = y.
Proof.
  intros -> x y Hx Hy. apply list_elem_of_fmap in Hx as [[k1 n1] [-> _]], Hy as [[k2 n2] [-> _]].
  unfold entry_less. cbn. rewrite (String.eqb_sym k2 k1). destruct (String.eqb_spec k1 k2) as [->|Hk]; cbn [negb]; intros H1 H2.
  - by rewrite (str_less_total n1 n2 H1 H2).
  - exfalso. apply Hk. by apply str_less_total.
Qed.

(** What a test accepts, once each. *)
Section Once.
Context {X I : Type} `{Countable I} (key : X → option I).

Definition once (x : X) : option (I * I) := (λ i, (i, i)) <$> key x.

Lemma once_spec (l : list X) :
  NoDup (dedup once l).2 ∧ ∀ i, i ∈ (dedup once l).2 ↔ ∃ x, x ∈ l ∧ key x = Some i.
Proof.
  assert (∀ x i j, once x = Some (i, j) → key x = Some i ∧ i = j) as Honce.
  { intros x i j. unfold once. destruct (key x); [|done]. by intros [= -> ->]. }
  split.
  - rewrite <- (map_id (dedup _ _).2). apply (dedup_NoDup once id).
    intros x i j E. by apply Honce in E as [_ ->].
  - intros i. rewrite (dedup_elem once id).
    + split; intros (x & Hx & E); exists x; (split; [done|]); [by apply Honce in E as [E _]|unfold once; by rewrite E].
    + intros x j k E. by apply Honce in E as [_ ->].
    + intros x y k j j' Ej Ej'. apply Honce in Ej as [_ <-], Ej' as [_ <-]. done.
Qed.
End Once.

Section CensusSpec.
Context {C : JSONCited}.

Lemma census_ids (root : Root) (subjects : list subjectRef) :
  ∃ ids : list (string * string), NoDup ids ∧ censusBeneathRoot root subjects = NewCensus (map entry_of ids) ∧
    ∀ id, id ∈ ids ↔ ∃ s, s ∈ subjects ∧ root_counts root (citedAddresses root) s = true ∧ identity s = id.
Proof.
  set (key := λ s, if root_counts root (citedAddresses root) s then Some (identity s) else None).
  assert (∀ st : gset (string * string) * list (string * string),
    foldl (census_step root (citedAddresses root)) (st.1, map entry_of st.2) subjects =
    prod_map id (map entry_of) (foldl (dedup_step (once key)) st subjects)) as Hfold.
  { induction subjects as [|s l IH]; intros st; [by destruct st|]. cbn [foldl]. rewrite <- IH. f_equal.
    unfold census_step, dedup_step, once, key, root_counts.
    destruct (String.eqb _ _), (counted_kind _), (subjectBeneathRoot _ _ _ _); cbn [negb andb fmap option_fmap option_map]; try done.
    unfold identity. case_bool_decide; [done|]. cbn [fst snd]. by rewrite map_app. }
  destruct (once_spec key subjects) as [H1 H2].
  exists (dedup (once key) subjects).2. split; [done|]. split.
  - unfold censusBeneathRoot. pose proof (Hfold (∅, [])) as E. cbn [fst snd map] in E. by rewrite E.
  - intros i. rewrite H2. split.
    + intros [s [Hs Hk]]. exists s. unfold key in Hk. destruct (root_counts _ _ _); naive_solver.
    + intros [s [Hs [Hr <-]]]. exists s. unfold key. by rewrite Hr.
Qed.

Lemma censusBeneathRoot_elem root subjects e :
  e ∈ censusBeneathRoot root subjects ↔
  ∃ s, s ∈ subjects ∧ root_counts root (citedAddresses root) s = true ∧ entry_of (identity s) = e.
Proof.
  destruct (census_ids root subjects) as [ids [_ [-> Hids]]]. unfold NewCensus. rewrite sort_stable_elem, list_elem_of_fmap.
  setoid_rewrite Hids. naive_solver.
Qed.

(** A census is a function of which subjects opened, whatever the order and the
    repetitions they were read in. *)
Lemma census_of_the_subjects root l k :
  (∀ id, id ∈ map identity l ↔ id ∈ map identity k) → censusBeneathRoot root l = censusBeneathRoot root k.
Proof.
  intros Hlk. destruct (census_ids root l) as [ids [Hnd [-> Hids]]], (census_ids root k) as [ids' [Hnd' [-> Hids']]].
  apply sort_stable_proper_perm; [apply _|by eapply entry_of_separate|]. apply Permutation_map, NoDup_Permutation; [done..|].
  assert (∀ (m : list subjectRef) i, (∃ s, s ∈ m ∧ root_counts root (citedAddresses root) s = true ∧ identity s = i) ↔
     i ∈ map identity m ∧ root_counts root (citedAddresses root) (mkRef i.1 i.2 false) = true) as Hm.
  { intros m i. rewrite list_elem_of_fmap. split.
    - intros [s [Hs [Hr <-]]]. split; [by eauto|]. done.
    - intros [[s [-> Hs]] Hr]. by exists s. }
  intros i. by rewrite Hids, Hids', !Hm, Hlk.
Qed.
End CensusSpec.

Lemma basis_cites `{!JSONCited} `{!JSONCitedLaws _} batchID root :
  citedAddresses (basisRoot (cp_Basis (pendingCensus batchID root))) = citedAddresses root.
Proof.
  unfold citedAddresses, basisRoot, pendingCensus. cbn. destruct (negb _); [done|].
  destruct (json_valid (rt_Value root)) eqn:Ev; [done|]. cbn [default]. unfold citedIn. cbn.
  destruct (String.eqb (rt_Value root) ""); [done|]. destruct (cited_addresses (rt_Value root)) eqn:Ec; [|done].
  by rewrite cited_valid in Ev by by rewrite Ec.
Qed.

(** A membership message that was held and is released once the subjects its
    fold opened are known is, census, headline and all, the message the fold
    would have written at the cause: holding a census moves when it is told and
    nothing of what is told. *)
Theorem release_is_the_cause_message `{!JSONCited} `{!JSONCitedLaws _} batchID observedAt entry root seedKey changes subjects
    (Hopened : ∀ id, id ∈ map identity subjects ↔ id ∈ map identity (opened_refs changes)) :
  (membershipRoot batchID observedAt entry root seedKey changes true ≫= λ m, released m subjects) =
  membershipRoot batchID observedAt entry root seedKey changes false.
Proof.
  unfold membershipRoot, Message.HeldMembership, Message.Membership. destruct (RootFires _); [|done].
  cbn [negb mbind option_bind]. unfold released. cbn [ms_CensusPending mbind option_bind].
  assert (censusBeneathRoot (basisRoot (cp_Basis (pendingCensus batchID root))) subjects = membershipCensus changes root) as ->.
  { unfold membershipCensus. rewrite (census_of_the_subjects _ _ _ Hopened). unfold censusBeneathRoot. by rewrite basis_cites. }
  done.
Qed.

(** ** What a move leaves to tell *)

Definition residue_takes `{!JSONCited} (mv : rePoint) (cover : rootCover) (roots : list Root) (s : subjectRef) : bool :=
  String.eqb (rf_kind s) subjectKindEndpoint &&
  match subjectAddress (rf_kind s) (rf_key s) with
  | None => false
  | Some addr =>
      let key := Addr_String addr in
      bool_decide (key ∈ mv_after mv) && negb (bool_decide (key ∈ mv_before mv)) && negb (covers cover key s roots)
  end.

Lemma rePointResidue_elem `{!JSONCited} mv subjects cover roots e :
  e ∈ rePointResidue mv subjects cover roots ↔
  ∃ s, s ∈ subjects ∧ residue_takes mv cover roots s = true ∧ e = mkEntry subjectKindEndpoint (rf_key s) "".
Proof.
  set (key := λ s, if residue_takes mv cover roots s then Some (rf_key s) else None).
  assert (∀ st : gset string * list string,
    foldl (residue_step mv cover roots) (st.1, map (λ k, mkEntry subjectKindEndpoint k "") st.2) subjects =
    prod_map id (map (λ k, mkEntry subjectKindEndpoint k "")) (foldl (dedup_step (once key)) st subjects)) as Hfold.
  { clear. induction subjects as [|s l IH]; intros st; [by destruct st|]. cbn [foldl]. rewrite <- IH. f_equal.
    unfold residue_step, dedup_step, once, key, residue_takes.
    destruct (String.eqb_spec (rf_kind s) subjectKindEndpoint) as [Ek|]; cbn [negb andb orb fmap option_fmap option_map]; [|done].
    destruct (subjectAddress _ _); [|by case_bool_decide].
    destruct (bool_decide (Addr_String _ ∈ mv_after mv)), (bool_decide (Addr_String _ ∈ mv_before mv)), (covers _ _ _ _);
      cbn [negb andb orb fmap option_fmap option_map]; case_bool_decide; try done.
    cbn [fst snd]. by rewrite map_app, Ek. }
  destruct (once_spec key subjects) as [_ H2]. unfold dedup in H2.
  unfold rePointResidue, NewCensus. pose proof (Hfold (∅, [])) as E. cbn [fst snd map] in E. rewrite E.
  destruct (foldl (dedup_step (once key)) (∅, []) subjects) as [seen ks]. cbn [prod_map snd] in *.
  rewrite sort_stable_elem, list_elem_of_fmap. setoid_rewrite H2. split.
  - intros [k [-> [s [Hs Hk]]]]. exists s. unfold key in Hk. destruct (residue_takes _ _ _ s); naive_solver.
  - intros [s [Hs [Hr ->]]]. exists (rf_key s). split; [done|]. exists s. unfold key. by rewrite Hr.
Qed.

(** The address roots of a fold. *)
Definition address_roots (fresh : gset string) : list Root := map (λ a, mkRoot subjectKindAddress a "") (elements fresh).

(** [C18] Where nothing is held, the residue of a move and the censuses of the
    fold's roots partition the ground the move opened.  The fold's roots, names or
    new addresses, wrote their censuses at the cause; the settle poll, told so,
    names an endpoint beneath an address the name moved to exactly when none of
    those censuses counts it.  The subject list of the poll is taken to hold the
    endpoint once and to mark it as the fold's own exactly when the fold opened
    it.  (Where the censuses were held the tick's order breaks this:
    [CensusPolls.tick_tells_twice].) *)
Theorem residue_and_roots_partition `{!JSONCited} mv changes subjects fresh roots s addr
    (Hkeys : ∀ root, root ∈ roots ++ address_roots fresh → rf_key s ≠ rt_Key root)
    (Hs : s ∈ subjects) (Honce : ∀ s', s' ∈ subjects → identity s' = identity s → s' = s)
    (Hown : rf_inFoldBatch s = true ↔ identity s ∈ map identity (opened_refs changes))
    (Hkind : rf_kind s = subjectKindEndpoint) (Haddr : subjectAddress (rf_kind s) (rf_key s) = Some addr)
    (Hmoved : Addr_String addr ∈ mv_after mv ∖ mv_before mv) :
  entry_of (identity s) ∈ rePointResidue mv subjects (mkCover fresh true) roots ↔
  ¬ ∃ root, root ∈ roots ++ address_roots fresh ∧ entry_of (identity s) ∈ membershipCensus changes root.
Proof.
  assert (∀ root, root ∈ roots ++ address_roots fresh →
    (entry_of (identity s) ∈ membershipCensus changes root ↔
     rf_inFoldBatch s = true ∧ subjectBeneathRoot root (citedAddresses root) (rf_kind s) (rf_key s) = true)) as Hcount.
  { intros root Hroot. unfold membershipCensus. rewrite censusBeneathRoot_elem, Hown, list_elem_of_fmap.
    assert (∀ x, identity x = identity s → root_counts root (citedAddresses root) x = subjectBeneathRoot root (citedAddresses root) (rf_kind s) (rf_key s)) as Hcounts.
    { intros x Hx. unfold identity in Hx. injection Hx as E1 E2. unfold root_counts.
      by rewrite E2, (proj2 (String.eqb_neq _ _) (Hkeys root Hroot)), E1, Hkind. }
    split.
    - intros [s' [Hs' [Hr Hid%entry_of_inj]]]. rewrite (Hcounts s' Hid) in Hr. split; [by exists s'|done].
    - intros [[s' [Hid Hs']] Hb]. exists s'. split; [done|]. by rewrite (Hcounts s'), Hid. }
  assert ((∃ root, root ∈ roots ++ address_roots fresh ∧ entry_of (identity s) ∈ membershipCensus changes root) ↔
    covers (mkCover fresh true) (Addr_String addr) s roots = true) as ->.
  { unfold covers, named, coveredByFoldRoot. cbn [rc_fresh rc_atCause negb orb]. split.
    - intros [root [Hroot Hc]]. apply Hcount in Hc as [Ht Hb]; [|done]. rewrite Ht.
      apply elem_of_app in Hroot as [Hroot|Hroot].
      + assert (existsb (λ r, subjectBeneathRoot r (citedAddresses r) (rf_kind s) (rf_key s)) roots = true) as ->.
        { apply existsb_exists. exists root. split; [by apply list_elem_of_In|done]. }
        by destruct (bool_decide _).
      + apply list_elem_of_fmap in Hroot as [a [-> Ha%elem_of_elements]].
        unfold subjectBeneathRoot in Hb. cbn in Hb. rewrite Haddr in Hb. apply String.eqb_eq in Hb as <-.
        by rewrite bool_decide_true.
    - intros Hc. destruct (bool_decide (Addr_String addr ∈ fresh)) eqn:Hf; cbn [negb andb] in Hc.
      + apply bool_decide_eq_true in Hf. exists (mkRoot subjectKindAddress (Addr_String addr) "").
        assert (mkRoot subjectKindAddress (Addr_String addr) "" ∈ roots ++ address_roots fresh) as Hroot.
        { apply elem_of_app. right. apply list_elem_of_fmap. exists (Addr_String addr). split; [done|]. by apply elem_of_elements. }
        split; [done|]. apply Hcount; [done|]. split; [done|].
        unfold subjectBeneathRoot. cbn. rewrite Haddr. by rewrite String.eqb_refl.
      + destruct (existsb _ roots) eqn:He; [|done]. cbn [negb] in Hc. apply existsb_exists in He as [root [Hroot Hb]].
        apply list_elem_of_In in Hroot. exists root. assert (root ∈ roots ++ address_roots fresh) by (apply elem_of_app; by left).
        split; [done|]. by apply Hcount. }
  apply elem_of_difference in Hmoved as [Hin Hnot].
  rewrite rePointResidue_elem, not_true_iff_false. unfold identity. rewrite Hkind. split.
  - intros [s' [Hs' [Ht Hid]]]. assert (s' = s) as ->.
    { apply Honce; [done|]. unfold identity. rewrite Hkind. unfold residue_takes in Ht.
      destruct (String.eqb_spec (rf_kind s') subjectKindEndpoint) as [->|]; [|done]. injection Hid as <-. done. }
    unfold residue_takes in Ht. rewrite Haddr in Ht. destruct (covers _ _ _ _); [|done]. cbn [negb] in Ht. by rewrite !andb_false_r in Ht.
  - intros Hc. exists s. split_and!; [done| |done]. unfold residue_takes. rewrite Haddr, Hkind, Hc.
    by rewrite bool_decide_true, bool_decide_false.
Qed.

(** ** Ground no name cites *)

Section Dark.
Context {U : UnicodeCase} {C : JSONCited} (cited : gset string) (roots : list Root) (inp : membershipInputs).

Definition candidate_id (cand : scopeCandidate) : string * string := (sn_kind cand, sn_key cand).

Lemma dark_candidate_spec c cand :
  dark_candidate cited roots inp c = Some cand →
  candidate_id cand = (ch_Kind c, tl_Subject (ch_Timeline c)) ∧ sn_scope cand ≠ ""%string ∧
  ∃ addr, subjectAddress (sn_kind cand) (sn_key cand) = Some addr ∧ sn_addr cand = Addr_String addr ∧
    sn_scope cand = coveringSeedKey subjectKindAddress (Addr_String addr) inp.
Proof.
  unfold dark_candidate. destruct (_ || _); [done|]. destruct (negb _); [done|].
  destruct (subjectAddress _ _) as [addr|] eqn:Ea; cbn [mbind option_bind]; [|done].
  destruct (bool_decide (Addr_String addr ∈ cited)); [done|]. destruct (bool_decide (is_Some _)); [done|].
  destruct (String.eqb_spec (coveringSeedKey subjectKindAddress (Addr_String addr) inp) ""); cbn [orb]; [done|].
  destruct (coveredByFoldRoot _ _ _); [done|]. intros [= <-]. split_and!; [done..|]. by exists addr.
Qed.

(** What makes an opening dark: a service or endpoint at a bare address of a
    declared scope, which nothing of the fold cites, excludes or counts. *)
Definition dark_at (c : spanChange) (kind key scope addrKey : string) : Prop :=
  ch_Opened c = true ∧ ch_Kind c = kind ∧ tl_Subject (ch_Timeline c) = key ∧
  (kind = subjectKindService ∨ kind = subjectKindEndpoint) ∧ (SplitEndpointName key).1 = "" ∧
  ∃ addr, subjectAddress kind key = Some addr ∧ addrKey = Addr_String addr ∧ addrKey ∉ cited ∧
    coveringAddressExclusion addr (in_exclusions inp) = None ∧
    coveringSeedKey subjectKindAddress addrKey inp = scope ∧ scope ≠ "" ∧
    ∀ root, root ∈ roots → subjectBeneathRoot root (citedAddresses root) kind key = false.

Lemma dark_candidate_iff c kind key scope addrKey :
  dark_candidate cited roots inp c = Some (mkCandidate scope kind key addrKey) ↔ dark_at c kind key scope addrKey.
Proof.
  unfold dark_candidate, dark_at, counted_kind.
  destruct (ch_Opened c); cbn [negb orb]; [|naive_solver].
  assert (negb (String.eqb (ch_Kind c) subjectKindService || String.eqb (ch_Kind c) subjectKindEndpoint) = false ↔
    ch_Kind c = subjectKindService ∨ ch_Kind c = subjectKindEndpoint) as Hk.
  { by rewrite negb_false_iff, orb_true_iff, !String.eqb_eq. }
  destruct (negb (_ || _)); [naive_solver congruence|]. destruct Hk as [Hk _]. specialize (Hk eq_refl).
  destruct (String.eqb_spec (SplitEndpointName (tl_Subject (ch_Timeline c))).1 "") as [Es|Es]; cbn [negb]; [|naive_solver congruence].
  destruct (subjectAddress (ch_Kind c) (tl_Subject (ch_Timeline c))) as [addr|] eqn:Ea; cbn [mbind option_bind]; [|naive_solver congruence].
  assert (coveredByFoldRoot roots (ch_Kind c) (tl_Subject (ch_Timeline c)) = false ↔
    ∀ root, root ∈ roots → subjectBeneathRoot root (citedAddresses root) (ch_Kind c) (tl_Subject (ch_Timeline c)) = false) as Hr.
  { unfold coveredByFoldRoot. rewrite <- not_true_iff_false, existsb_exists. setoid_rewrite <- list_elem_of_In. split.
    - intros Hn root Hroot. apply not_true_iff_false. intros E. apply Hn. by exists root.
    - intros Hall (root & Hroot & E). rewrite (Hall root Hroot) in E. done. }
  case_bool_decide as Hc. { split; [done|]. intros (_ & <- & <- & _ & _ & a & E & -> & Hno & _). congruence. }
  case_bool_decide as Hx. { split; [done|]. intros (_ & <- & <- & _ & _ & a & E & -> & _ & Hno & _).
    assert (a = addr) as -> by congruence. rewrite Hno in Hx. by destruct Hx. }
  assert (coveringAddressExclusion addr (in_exclusions inp) = None) as Hx'.
  { destruct (coveringAddressExclusion _ _); [destruct Hx; by eexists|done]. }
  destruct (String.eqb_spec (coveringSeedKey subjectKindAddress (Addr_String addr) inp) "") as [Ez|Ez]; cbn [orb].
  { split; [done|]. intros (_ & <- & <- & _ & _ & a & E & -> & _ & _ & Esc & Hne & _). congruence. }
  destruct (coveredByFoldRoot roots _ _).
  { split; [done|]. intros (_ & <- & <- & _ & _ & a & _ & _ & _ & _ & _ & _ & Hall). apply Hr in Hall. done. }
  split.
  - intros [= <- <- <- <-]. split_and!; [done..|]. exists addr. split_and!; [done..|by apply Hr].
  - intros (_ & <- & <- & _ & _ & a & E & -> & _ & _ & <- & _ & _). by assert (a = addr) as -> by congruence.
Qed.

Lemma dark_candidates changes cand :
  cand ∈ (foldl (dark_step cited roots inp) (∅, []) changes).2 ↔
  ∃ c, c ∈ changes ∧ dark_candidate cited roots inp c = Some cand.
Proof.
  set (f := λ c, (λ cand, (candidate_id cand, cand)) <$> dark_candidate cited roots inp c).
  assert (foldl (dark_step cited roots inp) (∅, []) changes = dedup f changes) as ->.
  { unfold dedup. generalize (∅ : gset (string * string), [] : list scopeCandidate). induction changes as [|c l IH]; intros [seen out]; [done|].
    cbn [foldl]. rewrite IH. f_equal. unfold dark_step, dedup_step, f. by destruct (dark_candidate cited roots inp c). }
  assert (∀ c i cand', f c = Some (i, cand') ↔ dark_candidate cited roots inp c = Some cand' ∧ i = candidate_id cand') as Hf.
  { intros c i cand'. unfold f. destruct (dark_candidate cited roots inp c); cbn; naive_solver. }
  rewrite (dedup_elem f candidate_id).
  - setoid_rewrite Hf. naive_solver.
  - intros c i cand' [_ ->]%Hf. done.
  - intros c c' i [sc1 k1 y1 a1] [sc2 k2 y2 a2] [H1 E1]%Hf [H2 E2]%Hf.
    apply dark_candidate_spec in H1 as (_ & _ & addr1 & A1 & B1 & D1), H2 as (_ & _ & addr2 & A2 & B2 & D2).
    unfold candidate_id in *. cbn in *. rewrite E1 in E2. injection E2 as -> ->. rewrite A1 in A2. injection A2 as <-. congruence.
Qed.
End Dark.

Lemma scope_group_fold citedBy candidates scope :
  foldl (scope_group citedBy) ∅ candidates !! scope =
  match filter (λ c, sn_addr c ∉ citedBy ∧ sn_scope c = scope) candidates with
  | [] => None
  | cs => Some (map (λ c, mkEntry (sn_kind c) (sn_key c) "") cs)
  end.
Proof.
  induction candidates as [|c l IH] using rev_ind; [done|]. rewrite foldl_app, filter_app. cbn [foldl]. set (m := foldl _ ∅ l) in *.
  rewrite filter_cons, filter_nil. unfold scope_group. destruct (bool_decide (sn_addr c ∈ citedBy)) eqn:Hc.
  { apply bool_decide_eq_true in Hc. rewrite decide_False by tauto. by rewrite app_nil_r. }
  apply bool_decide_eq_false in Hc. destruct (decide (sn_scope c = scope)) as [<-|Hne].
  - rewrite decide_True by done. rewrite lookup_insert_eq, IH. destruct (filter _ l); [done|]. cbn [from_option id app map]. by rewrite map_app.
  - rewrite decide_False by tauto. rewrite app_nil_r. by rewrite lookup_insert_ne.
Qed.

(** The messages of the dark ground, for any list of citers. *)
Lemma scope_reveal_spec `{!UnicodeCase} `{!JSONCited} observedAt changes inp citers :
  let candidates := darkScopeOpenings changes inp in
  let msgs := scopeRevealMessages observedAt candidates citers in
  NoDup (map ms_FiredAt msgs) ∧
  ∀ scope kind key,
    (∃ m census, m ∈ msgs ∧ ms_FiredAt m = scope ∧ ms_Census m = Some census ∧ mkEntry kind key "" ∈ census) ↔
    ∃ c addrKey, c ∈ changes ∧
      dark_at (foldCitedAddresses changes) (map root_of (foldMembershipRoots changes)) inp c kind key scope addrKey ∧
      addrKey ∉ addressesWithOpenCiters citers.
Proof.
  intros candidates msgs. unfold msgs, scopeRevealMessages. set (citedBy := addressesWithOpenCiters citers).
  pose proof (scope_group_fold citedBy candidates) as Hfold. set (byScope := foldl (scope_group citedBy) ∅ candidates) in *. clearbody byScope.
  assert (∀ scope m, ScopeRevealed scope (NewCensus (default [] (byScope !! scope))) observedAt = Some m →
    ms_FiredAt m = scope ∧ ms_Census m = Some (NewCensus (default [] (byScope !! scope)))) as Hm.
  { intros scope m. unfold ScopeRevealed. destruct (_ || _); [done|]. by intros [= <-]. }
  split.
  - assert (∀ l : list string, NoDup l → NoDup (map ms_FiredAt (omap (λ s, ScopeRevealed s (NewCensus (default [] (byScope !! s))) observedAt) l)) ∧
      ∀ k, k ∈ map ms_FiredAt (omap (λ s, ScopeRevealed s (NewCensus (default [] (byScope !! s))) observedAt) l) → k ∈ l) as Hl.
    { intros l. induction 1 as [|k l Hk _ [IH1 IH2]]; [split; [constructor|done]|]. cbn [omap list_omap].
      destruct (ScopeRevealed k _ observedAt) as [m|] eqn:E.
      - cbn [map]. rewrite (proj1 (Hm k m E)). split; [constructor; [by intros ?%IH2|done]|].
        intros k' [->|?]%elem_of_cons; [by left|right; by apply IH2].
      - split; [done|]. intros k' ?. right. by apply IH2. }
    apply Hl, NoDup_sorted_keys.
  - intros scope kind key. split.
    + intros (m & census & Hin & Hf & Hc & He). apply list_elem_of_omap in Hin as (sc & _ & Hr). destruct (Hm sc m Hr) as [E1 E2].
      assert (sc = scope) as -> by congruence. assert (census = NewCensus (default [] (byScope !! scope))) as -> by congruence.
      unfold NewCensus in He. rewrite sort_stable_elem, Hfold in He.
      destruct (filter _ candidates) as [|c0 cs] eqn:Ef; [by apply not_elem_of_nil in He|]. cbn [from_option id] in He.
      apply list_elem_of_fmap in He as (cand & Ee & Hcand). rewrite <- Ef in Hcand.
      apply list_elem_of_filter in Hcand as [[Hno Hsc] Hcand]. apply dark_candidates in Hcand as (c & Hc' & Hd).
      exists c, (sn_addr cand). split_and!; [done| |done]. apply dark_candidate_iff. rewrite Hd. destruct cand. cbn in *. by injection Ee as -> ->; subst.
    + intros (c & addr & Hc & Hd%dark_candidate_iff & Hno).
      assert (mkCandidate scope kind key addr ∈ candidates) as Hcand by (apply dark_candidates; eauto).
      pose proof (dark_candidate_spec _ _ _ _ _ Hd) as (_ & Hsc & _). cbn in Hsc.
      assert (mkCandidate scope kind key addr ∈ filter (λ c, sn_addr c ∉ citedBy ∧ sn_scope c = scope) candidates) as Hin by (by apply list_elem_of_filter).
      set (cs := filter (λ c, sn_addr c ∉ citedBy ∧ sn_scope c = scope) candidates) in *.
      assert (byScope !! scope = Some (map (λ c, mkEntry (sn_kind c) (sn_key c) "") cs)) as Eb.
      { rewrite Hfold. fold cs. destruct cs; [by apply not_elem_of_nil in Hin|done]. }
      assert (mkEntry kind key "" ∈ NewCensus (map (λ c, mkEntry (sn_kind c) (sn_key c) "") cs)) as He.
      { unfold NewCensus. rewrite sort_stable_elem. apply list_elem_of_fmap. by exists (mkCandidate scope kind key addr). }
      destruct (ScopeRevealed scope (NewCensus (default [] (byScope !! scope))) observedAt) as [m|] eqn:Er.
      * destruct (Hm scope m Er) as [E1 E2]. exists m, (NewCensus (default [] (byScope !! scope))). split_and!; [|done..|by rewrite Eb].
        apply list_elem_of_omap. exists scope. split; [|done]. rewrite elem_of_sorted_keys. apply elem_of_dom. by eexists.
      * exfalso. revert Er. unfold ScopeRevealed. rewrite (proj2 (String.eqb_neq _ _) Hsc), Eb. cbn [orb from_option id]. unfold Census_Len.
        destruct (NewCensus _); [by apply not_elem_of_nil in He|]. done.
Qed.

(** ** One fold *)

(** An instance for the witnesses: a value is the bare text of one address, which
    is valid when it reads. *)
#[local] Instance demo_cited : JSONCited := {|
  cited_addresses v := (λ _, [v]) <$> ParseAddr v;
  json_valid v := bool_decide (is_Some (ParseAddr v))
|}.

#[local] Instance demo_cited_laws : JSONCitedLaws demo_cited.
Proof. split. intros v. cbn. rewrite fmap_is_Some. intros H. by apply bool_decide_eq_true. Qed.

Definition demo_change (kind key facet value : string) : spanChange :=
  mkChange kind (mkTimeline key facet "" None "") true false value "" false false None false (NewVector []) (NewVector []) None false.

Definition demo_changes : list spanChange :=
  [demo_change subjectKindName "www.example" FacetResolution "192.0.2.1";
   demo_change subjectKindEndpoint "www.example@192.0.2.1:443/tcp" "reachability" "";
   demo_change subjectKindService "192.0.2.1:443/tcp" "reachability" ""].

Example demo_census : membershipCensus demo_changes (mkRoot subjectKindName "www.example" "192.0.2.1") =
  [mkEntry "endpoint" "www.example@192.0.2.1:443/tcp" ""; mkEntry "service" "192.0.2.1:443/tcp" ""].
Proof. vm_compute. reflexivity. Qed.

Lemma release_is_the_cause_message_witness :
  (membershipRoot 7 100 EntryAppeared (mkRoot subjectKindName "www.example" "192.0.2.1") "" demo_changes true ≫=
     λ m, released m (rev (opened_refs demo_changes))) =
  membershipRoot 7 100 EntryAppeared (mkRoot subjectKindName "www.example" "192.0.2.1") "" demo_changes false.
Proof.
  apply release_is_the_cause_message. intros id. unfold rev. cbn [map]. vm_compute (map _ _). set_solver.
Defined.

Definition demo_move : rePoint := mkRePoint "www.example" "" None "" {["192.0.2.1"]} {["192.0.2.2"]}.
Definition demo_endpoint : subjectRef := mkRef subjectKindEndpoint "www.example@192.0.2.2:443/tcp" true.
Definition demo_addr : Addr := Addr4 3221225986.

(** The fold opened the endpoint beneath an address that is new: the address's own
    root counts it and the residue does not. *)
Lemma residue_and_roots_partition_witness :
  let opened := [demo_change subjectKindEndpoint "www.example@192.0.2.2:443/tcp" "reachability" ""] in
  entry_of (identity demo_endpoint) ∈ rePointResidue demo_move [demo_endpoint] (mkCover {["192.0.2.2"]} true) [] ↔
  ¬ ∃ root, root ∈ [] ++ address_roots {["192.0.2.2"]} ∧ entry_of (identity demo_endpoint) ∈ membershipCensus opened root.
Proof.
  intros opened. apply (residue_and_roots_partition demo_move opened [demo_endpoint] {["192.0.2.2"]} [] demo_endpoint demo_addr).
  - intros root Hr. assert (root = mkRoot subjectKindAddress "192.0.2.2" "") as ->; [|discriminate].
    revert Hr. unfold address_roots. rewrite elements_singleton. cbn. by intros ->%list_elem_of_singleton.
  - by left.
  - by intros s' ->%list_elem_of_singleton.
  - split; [intros _|done]. cbn. by left.
  - done.
  - vm_compute. reflexivity.
  - apply (bool_decide_unpack _). vm_compute. exact I.
Defined.
