(* ===== verification/CensusPolls.v ===== *)
(** * The polls that complete a fold's messages

    [queue/release.go], [repointsettle.go] and the two polls of [queue.go], over
    the tables they share: a held message is released once the first hot dispatch
    after its fold has drained, and a fold's moves are settled once, by a guarded
    update that is its own claim.  The queries are those of [db/span.sql.go],
    [measurement.sql.go] and [messages.sql.go].  Each row is one transaction,
    whose commit is an argument ([commits]); [d.enqueue] is the log of deliveries. *)

From S2P Require Import Prelude GoTime GoStr NetIP NetParse NetText Message Drift SubjectScope SpanStore VergeCore SignalFacts Departures Census.

(** ** Queries over the spans *)

(** The pair of spans one fold closed and opened on one timeline. *)
Definition is_move_pair (n p : span_row) : bool :=
  bool_decide (row_timeline p = row_timeline n) && bool_decide (sr_ClosedBatch p = Some (sr_OpenedBatch n)).

Definition opened_name_rows (batchID : Z) (s : spans) : list span_row :=
  filter (λ n, sr_OpenedBatch n = batchID ∧ sr_SubjectKind n = subjectKindName ∧ sr_Facet n = FacetResolution) (st_rows s).

Definition key_less (a b : span_row) : bool :=
  if String.eqb (sr_SubjectKey a) (sr_SubjectKey b) then sr_ID a <? sr_ID b else str_less (sr_SubjectKey a) (sr_SubjectKey b).

Definition ListRePointMovesForBatch (batchID : Z) (s : spans) : list (span_row * span_row) :=
  flat_map (λ n, map (λ p, (n, p)) (filter (λ p, is_move_pair n p = true ∧ sr_IsGap p = false) (st_rows s)))
    (sort_stable key_less (filter (λ n, sr_IsGap n = false) (opened_name_rows batchID s))).

Definition ListNameRootsOpenedInBatch (batchID : Z) (s : spans) : list span_row :=
  sort_stable key_less (filter (λ n, existsb (is_move_pair n) (st_rows s) = false) (opened_name_rows batchID s)).

Definition subject_less (a b : string * string) : bool :=
  if String.eqb a.1 b.1 then str_less a.2 b.2 else str_less a.1 b.1.

Definition ListSubjectsOpenedSinceBatch (batchID : Z) (maxBatchID : option Z) (s : spans) : list subjectRef :=
  let rows := filter (λ r, batchID <= sr_OpenedBatch r ∧ from_option (λ m, sr_OpenedBatch r <=? m) true maxBatchID = true ∧
                           counted_kind (sr_SubjectKind r) = true) (st_rows s) in
  let ids := sort_stable subject_less (elements (list_to_set (map (λ r, (sr_SubjectKind r, sr_SubjectKey r)) rows) : gset _)) in
  map (λ i, mkRef i.1 i.2
         (existsb (λ r, String.eqb (sr_SubjectKind r) i.1 && String.eqb (sr_SubjectKey r) i.2 && (sr_OpenedBatch r =? batchID)) rows)) ids.

Section Citers.
Context {A : JSONAddresses}.

Definition citer_of (addr : string) (r : span_row) : citerRef :=
  mkCiter addr (sr_SubjectKey r) (sr_Discriminator r) (sr_VantageID r) (sr_Source r).

(** The order of the two queries is not visible: their readers look a row up. *)
Definition ListResolutionCitersForAddresses (addresses : list string) (s : spans) : list citerRef :=
  flat_map (λ a, map (citer_of a) (filter (λ r, cites s a r = true) (st_rows s))) addresses.

Definition open_at (at_ : Z) (r : span_row) : bool :=
  (sr_OpenedAt r <=? at_) && match sr_ClosedAt r with None => true | Some c => at_ <? c end.

Definition before_gap_at (at_ : Z) (r : span_row) (s : spans) : option span_row :=
  latest_row closed_at
    (filter (λ q, is_name_resolution q = true ∧ sr_SubjectKey q = sr_SubjectKey r ∧
                  sr_Discriminator q = sr_Discriminator r ∧ sr_VantageID q = sr_VantageID r ∧
                  sr_Source q = sr_Source r ∧ from_option (λ c, c <=? at_) false (sr_ClosedAt q) = true ∧ sr_IsGap q = false) (st_rows s)).

Definition cites_at (at_ : Z) (s : spans) (addr : string) (r : span_row) : bool :=
  open_at at_ r && is_name_resolution r &&
  (if sr_IsGap r then match before_gap_at at_ r s with Some p => addresses_hold (sr_Value p) addr | None => false end
   else addresses_hold (sr_Value r) addr).

Definition ListResolutionCitersForAddressesAt (addresses : list string) (at_ : Z) (s : spans) : list citerRef :=
  flat_map (λ a, map (citer_of a) (filter (λ r, cites_at at_ s a r = true) (st_rows s))) addresses.
End Citers.

(** ** The tables *)

Record batch_row := mkBatchRow { br_ID : Z; br_CreatedAt : Z; br_Dispatch : option Z; br_SettledAt : option Z }.
Record dispatch_row := mkDispatch {
  dr_ID : Z; dr_Kind : string; dr_Status : string; dr_Abandoned : bool; dr_Complete : bool; dr_CreatedAt : Z
}.
Record job_row := mkJob { jr_Dispatch : Z; jr_State : string }.
(** A row keeps the basis of its census after the census is released. *)
Record message_row := mkMessageRow { mr_ID : Z; mr_Message : Message.Message; mr_Basis : option CensusBasis }.

Record tables := mkTables {
  tb_spans : spans;
  tb_batches : list batch_row;
  tb_dispatches : list dispatch_row;
  tb_jobs : list job_row;
  tb_hotEnabled : bool;
  tb_messages : list message_row;
  tb_nextMessage : Z;
  tb_deliveries : list (Z * string)
}.

Definition with_batches (bs : list batch_row) (s : tables) : tables :=
  mkTables (tb_spans s) bs (tb_dispatches s) (tb_jobs s) (tb_hotEnabled s) (tb_messages s) (tb_nextMessage s) (tb_deliveries s).
Definition with_messages (ms : list message_row) (next : Z) (s : tables) : tables :=
  mkTables (tb_spans s) (tb_batches s) (tb_dispatches s) (tb_jobs s) (tb_hotEnabled s) ms next (tb_deliveries s).

Definition InsertMessage (m : Message.Message) (s : tables) : Z * tables :=
  (tb_nextMessage s, with_messages (tb_messages s ++ [mkMessageRow (tb_nextMessage s) m (cp_Basis <$> ms_CensusPending m)]) (tb_nextMessage s + 1) s).

Definition enqueue (id : Z) (class : string) (s : tables) : tables :=
  mkTables (tb_spans s) (tb_batches s) (tb_dispatches s) (tb_jobs s) (tb_hotEnabled s) (tb_messages s) (tb_nextMessage s)
    (tb_deliveries s ++ [(id, class)]).

(** *** The drain of the first hot dispatch *)

Definition StatusFannedOut : string := "fanned-out".

Definition dispatch_less (a b : dispatch_row) : bool :=
  if dr_CreatedAt a =? dr_CreatedAt b then dr_ID a <? dr_ID b else dr_CreatedAt a <? dr_CreatedAt b.

Definition first_hot (b : batch_row) (s : tables) : option dispatch_row :=
  head (sort_stable dispatch_less
    (filter (λ d, dr_Kind d = "hot" ∧ dr_Status d = StatusFannedOut ∧ dr_Abandoned d = false ∧ br_CreatedAt b <= dr_CreatedAt d)
       (tb_dispatches s))).

Definition has_open_job (dispatchID : Z) (s : tables) : bool :=
  existsb (λ j, (jr_Dispatch j =? dispatchID) && (String.eqb (jr_State j) "ready" || String.eqb (jr_State j) "running")) (tb_jobs s).

(** [census_upper_batch]: zero is no bound. *)
Definition upper_batch (dispatchID : Z) (s : tables) : Z :=
  foldr Z.max 0 (map br_ID (filter (λ b, br_Dispatch b = Some dispatchID) (tb_batches s))).

(** ** Settling *)

Definition settleable (reaperDisabled : bool) (s : tables) (b : batch_row) : bool :=
  bool_decide (br_SettledAt b = None) &&
  (negb (tb_hotEnabled s) ||
   match first_hot b s with
   | None => false
   | Some d => dr_Complete d && (reaperDisabled || negb (has_open_job (dr_ID d) s))
   end).

Definition batch_less (a b : batch_row) : bool := br_ID a <? br_ID b.

Definition ListSettleableRePointBatches (reaperDisabled : bool) (s : tables) : list (Z * bool) :=
  map (λ b, (br_ID b, negb (bool_decide (ListRePointMovesForBatch (br_ID b) (tb_spans s) = []))))
    (sort_stable batch_less (filter (λ b, settleable reaperDisabled s b = true) (tb_batches s))).

Definition splitSettleableBatches (rows : list (Z * bool)) : list Z * list Z :=
  (map fst (filter (λ r, r.2 = true) rows), map fst (filter (λ r, r.2 = false) rows)).

Definition settle_row (settledAt : Z) (ids : list Z) (b : batch_row) : batch_row :=
  if bool_decide (br_ID b ∈ ids) && bool_decide (br_SettledAt b = None)
  then mkBatchRow (br_ID b) (br_CreatedAt b) (br_Dispatch b) (Some settledAt) else b.

Definition SettleMovelessRePointBatches (settledAt : Z) (ids : list Z) (s : tables) : tables :=
  with_batches (map (settle_row settledAt ids) (tb_batches s)) s.

(** The number of rows the guarded update took. *)
Definition SettleRePointBatch (settledAt id : Z) (s : tables) : Z * tables :=
  (Z.of_nat (length (filter (λ b, br_ID b = id ∧ br_SettledAt b = None) (tb_batches s))),
   with_batches (map (settle_row settledAt [id]) (tb_batches s)) s).

Definition BatchHeldItsRootCensus (batchID : Z) (s : tables) : bool :=
  existsb (λ m, bool_decide (cp_AfterBatch <$> ms_CensusPending (mr_Message m) = Some batchID)) (tb_messages s).

Section Polls.
Context {U : UnicodeCase} {C : JSONCited} {A : JSONAddresses}.

Record rePointFold := mkFold { pf_batchID : Z; pf_instant : Z; pf_moves : list rePoint }.

Definition rePointFoldFrom (batchID : Z) (rows : list (span_row * span_row)) : rePointFold :=
  foldl (λ out '(n, p),
    mkFold (pf_batchID out) (sr_OpenedAt n)
      (pf_moves out ++ [mkRePoint (sr_SubjectKey n) (sr_Discriminator n) (sr_VantageID n) (sr_Source n)
                          (citedIn (sr_Value p)) (citedIn (sr_Value n))]))
    (mkFold batchID zeroTime []) rows.

Definition fold_fresh (f : rePointFold) (inp : membershipInputs) (s : spans) : gset string :=
  let keys := rePointCandidateAddresses (pf_moves f) in
  if (length keys =? 0)%nat then ∅
  else list_to_set (addressesNewToEstate (pf_moves f) inp (ListResolutionCitersForAddressesAt keys (pf_instant f) s)).

Definition fold_roots (f : rePointFold) (s : spans) : list Root :=
  map (λ r, mkRoot subjectKindName (sr_SubjectKey r) (sr_Value r)) (ListNameRootsOpenedInBatch (pf_batchID f) s).

(** [rePointFold.messages]. *)
Definition fold_messages (f : rePointFold) (inp : membershipInputs) (atCause : bool) (s : spans) : list Message.Message :=
  let subjects := ListSubjectsOpenedSinceBatch (pf_batchID f) None s in
  let cover := mkCover (fold_fresh f inp s) atCause in
  omap (λ mv, RePoint (mv_name mv) (rePointResidue mv subjects cover (fold_roots f s)) (pf_instant f)) (pf_moves f).

(** The loop that writes messages and routes each one. *)
Fixpoint fire (msgs : list Message.Message) (s : tables) : tables :=
  match msgs with
  | [] => s
  | m :: msgs' => let '(id, s') := InsertMessage m s in fire msgs' (enqueue id (ms_Class m) s')
  end.

Definition settleRePointFold (batchID settledAt : Z) (inp : membershipInputs) (s : tables) : Z * tables :=
  let '(claimed, s1) := SettleRePointBatch settledAt batchID s in
  if claimed =? 0 then (0, s1)
  else
    let f := rePointFoldFrom batchID (ListRePointMovesForBatch batchID (tb_spans s1)) in
    let held := BatchHeldItsRootCensus batchID s1 in
    let msgs := fold_messages f inp (negb held) (tb_spans s1) in
    (Z.of_nat (length msgs), fire msgs s1).

(** One fold is one transaction. *)
Definition settleOne (commits : Z → bool) (batchID settledAt : Z) (inp : membershipInputs) (s : tables) : Z * tables :=
  if commits batchID then settleRePointFold batchID settledAt inp s else (0, s).

Fixpoint settle_folds (commits : Z → bool) (settledAt : Z) (inp : membershipInputs) (folds : list Z) (fired : Z) (s : tables)
    : Z * tables :=
  match folds with
  | [] => (fired, s)
  | id :: folds' =>
      let '(n, s') := settleOne commits id settledAt inp s in settle_folds commits settledAt inp folds' (fired + n) s'
  end.

(** [routed] is [d.enqueue != nil], [armed] [HotLagGateArmed]. *)
Definition settleRePoints (routed devMode armed : bool) (commits : Z → bool) (now : Z) (inp : membershipInputs) (s : tables)
    : Z * tables :=
  if negb routed then (0, s)
  else if devMode then (0, s)
  else
    let '(folds, moveless) := splitSettleableBatches (ListSettleableRePointBatches (negb armed) s) in
    let s1 := if (0 <? length moveless)%nat then SettleMovelessRePointBatches now moveless s else s in
    settle_folds commits now inp folds 0 s1.

(** ** Releasing *)

Record held_row := mkHeld { hr_ID : Z; hr_Class : string; hr_Headline : string; hr_Pending : CensusPending; hr_Upper : Z }.

Definition drained (b : batch_row) (s : tables) : option dispatch_row :=
  d ← first_hot b s;
  if dr_Complete d && negb (has_open_job (dr_ID d) s) then Some d else None.

Definition releasable (reaperDisabled : bool) (s : tables) (m : message_row) : option held_row :=
  p ← ms_CensusPending (mr_Message m);
  b ← List.find (λ b, br_ID b =? cp_AfterBatch p) (tb_batches s);
  let d := drained b s in
  if reaperDisabled || negb (tb_hotEnabled s) || bool_decide (is_Some d) then
    Some (mkHeld (mr_ID m) (ms_Class (mr_Message m)) (ms_Headline (mr_Message m)) p
            (from_option (λ d, upper_batch (dr_ID d) s) 0 d))
  else None.

Definition held_less (a b : held_row) : bool := hr_ID a <? hr_ID b.

Definition ListReleasableHeldMessages (reaperDisabled : bool) (s : tables) : list held_row :=
  sort_stable held_less (omap (releasable reaperDisabled s) (tb_messages s)).

Definition is_held (id : Z) (m : message_row) : bool :=
  (mr_ID m =? id) && bool_decide (is_Some (ms_CensusPending (mr_Message m))).

Definition release_row (id : Z) (census : Census) (headline : string) (m : message_row) : message_row :=
  if is_held id m then
    let w := mr_Message m in
    mkMessageRow (mr_ID m) (mkMessage (ms_Cause w) (ms_Class w) (ms_SubjectKind w) (ms_FiredAt w) (ms_Instant w)
                              (Some census) None headline) (mr_Basis m)
  else m.

Definition ReleaseHeldMessage (id : Z) (census : Census) (headline : string) (s : tables) : Z * tables :=
  (Z.of_nat (length (filter (λ m, is_held id m = true) (tb_messages s))),
   with_messages (map (release_row id census headline) (tb_messages s)) (tb_nextMessage s) s).

Definition releaseHeldMessage (row : held_row) (s : tables) : bool * tables :=
  let basis := cp_Basis (hr_Pending row) in
  let maxBatch := if 0 <? hr_Upper row then Some (hr_Upper row) else None in
  let subjects := ListSubjectsOpenedSinceBatch (cp_AfterBatch (hr_Pending row)) maxBatch (tb_spans s) in
  let census := censusBeneathRoot (basisRoot basis) subjects in
  let '(n, s1) := ReleaseHeldMessage (hr_ID row) census
                    (ReleasedMembershipHeadline (hr_Headline row) (cb_RootKind basis) census) s in
  if n =? 0 then (false, s1) else (true, enqueue (hr_ID row) (hr_Class row) s1).

Definition releaseOne (commits : Z → bool) (row : held_row) (s : tables) : bool * tables :=
  if commits (hr_ID row) then releaseHeldMessage row s else (false, s).

Fixpoint release_rows (commits : Z → bool) (rows : list held_row) (n : Z) (s : tables) : Z * tables :=
  match rows with
  | [] => (n, s)
  | row :: rows' =>
      let '(took, s') := releaseOne commits row s in release_rows commits rows' (if took : bool then n + 1 else n) s'
  end.

Definition releaseHeld (routed armed : bool) (commits : Z → bool) (s : tables) : Z * tables :=
  if negb routed then (0, s) else release_rows commits (ListReleasableHeldMessages (negb armed) s) 0 s.

(** ** What a fold writes *)

Fixpoint write_messages (routed : bool) (msgs : list Message.Message) (s : tables) : tables :=
  match msgs with
  | [] => s
  | m :: msgs' =>
      let '(id, s') := InsertMessage m s in
      write_messages routed msgs'
        (if negb routed || bool_decide (is_Some (ms_CensusPending m)) then s' else enqueue id (ms_Class m) s')
  end.

Fixpoint write_withdrawals (msgs : list Message.Message) (s : tables) : tables :=
  match msgs with
  | [] => s
  | m :: msgs' => write_withdrawals msgs' (InsertMessage m s).2
  end.

(** [produceMessages], of the messages [buildMessages] made. *)
Definition produceMessages (routed devMode : bool) (msgs withdrawals : list Message.Message) (s : tables) : tables :=
  if devMode then s else write_withdrawals withdrawals (write_messages routed msgs s).
End Polls.

(** ** One delivery for each message *)

Definition msg_held (m : message_row) : bool := bool_decide (is_Some (ms_CensusPending (mr_Message m))).

Definition delivered_ok (s : tables) (d : Z * string) : Prop :=
  ∃ m, m ∈ tb_messages s ∧ mr_ID m = d.1 ∧ ms_Class (mr_Message m) = d.2 ∧ msg_held m = false.

Record routed_once (s : tables) : Prop := {
  ro_ids : NoDup (map mr_ID (tb_messages s));
  ro_next : ∀ m, m ∈ tb_messages s → mr_ID m < tb_nextMessage s;
  ro_once : NoDup (map fst (tb_deliveries s));
  ro_ok : ∀ d, d ∈ tb_deliveries s → delivered_ok s d
}.

Lemma same_id_same_message s m m' : routed_once s → m ∈ tb_messages s → m' ∈ tb_messages s → mr_ID m = mr_ID m' → m = m'.
Proof.
  intros [Hids _ _ _]. revert Hids. generalize (tb_messages s). intros l. induction l as [|x l IH]; [by intros _ ?%not_elem_of_nil|].
  cbn [map]. intros [Hx Hl]%NoDup_cons. rewrite !elem_of_cons. intros [->|Hm] [->|Hm'] E; [done| | |by apply IH].
  - destruct Hx. rewrite E. by apply list_elem_of_fmap_2.
  - destruct Hx. rewrite <- E. by apply list_elem_of_fmap_2.
Qed.

Lemma delivered_not_held s m d : routed_once s → m ∈ tb_messages s → d ∈ tb_deliveries s → d.1 = mr_ID m → msg_held m = false.
Proof.
  intros Hs Hm Hd E. destruct (ro_ok _ Hs d Hd) as [m' [Hm' [Hid [_ Hh]]]].
  rewrite (same_id_same_message s m m'); [done..|congruence].
Qed.

Lemma InsertMessage_routed m s : routed_once s → routed_once (InsertMessage m s).2.
Proof.
  intros Hs. pose proof Hs as [Hids Hnext Honce Hok]. split; cbn [InsertMessage snd with_messages tb_messages tb_nextMessage tb_deliveries].
  - rewrite map_app. apply NoDup_app. split_and!; [done| |apply NoDup_singleton].
    intros i Hi ->%list_elem_of_singleton. apply list_elem_of_fmap in Hi as [m' [E Hm']]. cbn in E. apply Hnext in Hm'. lia.
  - intros m'. rewrite elem_of_app, list_elem_of_singleton. intros [Hm'| ->]; [apply Hnext in Hm'; lia|cbn; lia].
  - done.
  - intros d Hd. destruct (Hok d Hd) as [m' [? ?]]. exists m'. split; [|done]. apply elem_of_app. by left.
Qed.

Lemma enqueue_routed id class s :
  routed_once s → delivered_ok s (id, class) → (∀ d, d ∈ tb_deliveries s → d.1 ≠ id) → routed_once (enqueue id class s).
Proof.
  intros [Hids Hnext Honce Hok] Hnew Hfresh. split; cbn [enqueue tb_messages tb_nextMessage tb_deliveries]; [done..| |].
  - rewrite map_app. apply NoDup_app. split_and!; [done| |apply NoDup_singleton].
    intros i Hi ->%list_elem_of_singleton. apply list_elem_of_fmap in Hi as [d [E Hd]]. by destruct (Hfresh d Hd).
  - intros d. rewrite elem_of_app, list_elem_of_singleton. intros [Hd| ->]; [by apply Hok|done].
Qed.

(** A message written and routed at once. *)
Lemma write_routed m s :
  routed_once s → ms_CensusPending m = None → routed_once (enqueue (tb_nextMessage s) (ms_Class m) (InsertMessage m s).2).
Proof.
  intros Hs Hm. apply enqueue_routed; [by apply InsertMessage_routed| |].
  - exists (mkMessageRow (tb_nextMessage s) m (cp_Basis <$> ms_CensusPending m)). split_and!; [|done..|unfold msg_held; cbn; by rewrite Hm].
    cbn. apply elem_of_app. right. by apply list_elem_of_singleton.
  - intros d Hd E. destruct (ro_ok _ Hs d Hd) as [m' [Hm' [Hid _]]]. apply (ro_next _ Hs) in Hm'. lia.
Qed.

Lemma fire_routed msgs s : Forall (λ m, ms_CensusPending m = None) msgs → routed_once s → routed_once (fire msgs s).
Proof.
  intros Hm. revert s. induction Hm as [|m msgs Hm _ IH]; intros s Hs; [done|]. cbn. by apply IH, write_routed.
Qed.

Lemma write_messages_routed routed msgs s : routed_once s → routed_once (write_messages routed msgs s).
Proof.
  revert s. induction msgs as [|m msgs IH]; intros s Hs; [done|]. cbn. apply IH.
  destruct (negb routed); [by apply InsertMessage_routed|]. cbn [orb].
  case_bool_decide as Hp; [by apply InsertMessage_routed|]. apply write_routed; [done|].
  destruct (ms_CensusPending m); [|done]. destruct Hp. by eexists.
Qed.

Lemma write_withdrawals_routed msgs s : routed_once s → routed_once (write_withdrawals msgs s).
Proof. revert s. induction msgs as [|m msgs IH]; intros s Hs; [done|]. by apply IH, InsertMessage_routed. Qed.

Lemma with_batches_routed bs s : routed_once s → routed_once (with_batches bs s).
Proof. intros [? ? ? Hok]. by split. Qed.

(** *** The release *)

Definition row_ok (s : tables) (row : held_row) : Prop :=
  ∀ m, m ∈ tb_messages s → mr_ID m = hr_ID row → ms_Class (mr_Message m) = hr_Class row.

Lemma release_row_same id c h m :
  mr_ID (release_row id c h m) = mr_ID m ∧ ms_Class (mr_Message (release_row id c h m)) = ms_Class (mr_Message m) ∧
  msg_held (release_row id c h m) = msg_held m && negb (mr_ID m =? id).
Proof.
  unfold release_row, is_held, msg_held. destruct (mr_ID m =? id) eqn:E; cbn [andb negb].
  - destruct (bool_decide _) eqn:Hb; cbn; [done|]. by rewrite Hb.
  - by rewrite andb_true_r.
Qed.

Lemma ReleaseHeldMessage_routed id c h s : routed_once s → routed_once (ReleaseHeldMessage id c h s).2.
Proof.
  intros Hs. pose proof Hs as [Hids Hnext Honce Hok]. split; cbn [ReleaseHeldMessage snd with_messages tb_messages tb_nextMessage tb_deliveries].
  - rewrite map_map. rewrite (map_ext _ mr_ID); [done|]. intros m. apply release_row_same.
  - intros m [m' [-> Hm']]%list_elem_of_fmap. rewrite (proj1 (release_row_same id c h m')). by apply Hnext.
  - done.
  - intros d Hd. destruct (Hok d Hd) as [m [Hm [Hid [Hc Hh]]]]. exists (release_row id c h m).
    destruct (release_row_same id c h m) as [E1 [E2 E3]]. rewrite E1, E2, E3, Hh. split_and!; [|done..].
    by apply list_elem_of_fmap_2.
Qed.

Section Released.
Context {C : JSONCited}.

Lemma releaseHeldMessage_messages row s :
  ∃ c h, tb_messages (releaseHeldMessage row s).2 = map (release_row (hr_ID row) c h) (tb_messages s).
Proof. unfold releaseHeldMessage. cbn zeta. do 2 eexists. destruct (ReleaseHeldMessage _ _ _ s) as [n s1] eqn:E. injection E as <- <-. by destruct (_ =? 0). Qed.

Lemma releaseHeldMessage_routed row s : routed_once s → row_ok s row → routed_once (releaseHeldMessage row s).2.
Proof.
  intros Hs Hrow. unfold releaseHeldMessage. cbn zeta. set (c := censusBeneathRoot _ _). set (h := ReleasedMembershipHeadline _ _ _).
  pose proof (ReleaseHeldMessage_routed (hr_ID row) c h s Hs) as Hs1.
  destruct (ReleaseHeldMessage (hr_ID row) c h s) as [n s1] eqn:E. cbn [snd] in Hs1. injection E as En Es1.
  destruct (n =? 0) eqn:Hn; [done|]. cbn [snd].
  assert (∃ m, m ∈ tb_messages s ∧ is_held (hr_ID row) m = true) as [m [Hm Hheld]].
  { destruct (filter (λ m, is_held (hr_ID row) m = true) (tb_messages s)) as [|m l] eqn:Ef; [cbn in En; lia|].
    exists m. assert (m ∈ m :: l) as Hin by left. rewrite <- Ef in Hin. by apply list_elem_of_filter in Hin as [? ?]. }
  unfold is_held in Hheld. apply andb_prop in Hheld as [Hid Hh]. apply Z.eqb_eq in Hid.
  apply enqueue_routed; [done| |].
  - exists (release_row (hr_ID row) c h m). destruct (release_row_same (hr_ID row) c h m) as [E1 [E2 E3]].
    rewrite E1, E2, E3, Hid, Z.eqb_refl, andb_false_r. split_and!; [|done|by apply Hrow|done].
    rewrite <- Es1. by apply list_elem_of_fmap_2.
  - intros d Hd Ed. rewrite <- Es1 in Hd. cbn in Hd.
    assert (msg_held m = false) as Hnot by (apply (delivered_not_held s m d); congruence || done).
    unfold msg_held in Hnot. congruence.
Qed.

Lemma releaseHeldMessage_row_ok row row' s : row_ok s row' → row_ok (releaseHeldMessage row s).2 row'.
Proof.
  intros H m Hm. destruct (releaseHeldMessage_messages row s) as [c [h E]]. rewrite E in Hm.
  apply list_elem_of_fmap in Hm as [m' [-> Hm']]. destruct (release_row_same (hr_ID row) c h m') as [-> [-> _]]. by apply H.
Qed.

Lemma release_rows_routed commits rows n s :
  routed_once s → Forall (row_ok s) rows → routed_once (release_rows commits rows n s).2.
Proof.
  revert n s. induction rows as [|row rows IH]; intros n s Hs Hrows; [done|]. apply Forall_cons in Hrows as [Hrow Hrows].
  cbn. unfold releaseOne. destruct (commits (hr_ID row)); [|by apply IH].
  pose proof (releaseHeldMessage_routed row s Hs Hrow) as Hs1.
  assert (Forall (row_ok (releaseHeldMessage row s).2) rows) as Hrows1.
  { eapply Forall_impl; [exact Hrows|]. intros row'. apply releaseHeldMessage_row_ok. }
  destruct (releaseHeldMessage row s) as [took s1]. by apply IH.
Qed.


Lemma releasable_row reaperDisabled s m row :
  releasable reaperDisabled s m = Some row →
  hr_ID row = mr_ID m ∧ hr_Class row = ms_Class (mr_Message m) ∧ ms_CensusPending (mr_Message m) = Some (hr_Pending row).
Proof.
  unfold releasable. destruct (ms_CensusPending _) as [p|]; [|done]. cbn [mbind option_bind].
  destruct (List.find _ _); [|done]. cbn [mbind option_bind]. destruct (_ || _); [|done]. by intros [= <-].
Qed.

Lemma listed_rows_ok reaperDisabled s : routed_once s → Forall (row_ok s) (ListReleasableHeldMessages reaperDisabled s).
Proof.
  intros Hs. apply Forall_forall. intros row. unfold ListReleasableHeldMessages.
  rewrite sort_stable_elem, list_elem_of_omap. intros [m [Hm Hr]] m' Hm' E.
  apply releasable_row in Hr as [Hid [Hc _]]. rewrite (same_id_same_message s m' m) by (done || congruence). done.
Qed.

Lemma releaseHeld_routed routed armed commits s : routed_once s → routed_once (releaseHeld routed armed commits s).2.
Proof. intros Hs. unfold releaseHeld. destruct routed; [|done]. cbn [negb]. by apply release_rows_routed; [|apply listed_rows_ok]. Qed.
End Released.

(** *** The settle *)

Section Settled.
Context {U : UnicodeCase} {C : JSONCited} {A : JSONAddresses}.

Lemma fold_messages_routed f inp atCause s : Forall (λ m, ms_CensusPending m = None) (fold_messages f inp atCause s).
Proof.
  apply Forall_forall. intros m. unfold fold_messages. rewrite list_elem_of_omap. intros [mv [_ Hm]].
  unfold RePoint in Hm. destruct (_ =? 0); [done|]. by injection Hm as <-.
Qed.

Lemma settleRePointFold_routed batchID settledAt inp s : routed_once s → routed_once (settleRePointFold batchID settledAt inp s).2.
Proof.
  intros Hs. unfold settleRePointFold. cbn [SettleRePointBatch]. destruct (_ =? 0); cbn [snd]; [by apply with_batches_routed|].
  apply fire_routed; [apply fold_messages_routed|by apply with_batches_routed].
Qed.

Lemma settle_folds_routed commits settledAt inp folds n s :
  routed_once s → routed_once (settle_folds commits settledAt inp folds n s).2.
Proof.
  revert n s. induction folds as [|id folds IH]; intros n s Hs; [done|]. cbn. unfold settleOne.
  destruct (commits id); [|by apply IH]. pose proof (settleRePointFold_routed id settledAt inp s Hs).
  destruct (settleRePointFold id settledAt inp s). by apply IH.
Qed.

Lemma settleRePoints_routed routed devMode armed commits now inp s :
  routed_once s → routed_once (settleRePoints routed devMode armed commits now inp s).2.
Proof.
  intros Hs. unfold settleRePoints. destruct routed, devMode; try done. cbn [negb].
  destruct (splitSettleableBatches _) as [folds moveless]. apply settle_folds_routed.
  destruct (_ <? _)%nat; [by apply with_batches_routed|done].
Qed.

(** What happens to the tables: a fold writes its messages, a poll runs, or the
    rest of the program changes the other tables. *)
Inductive act :=
  | Fold (routed devMode : bool) (msgs withdrawals : list Message.Message)
  | ReleasePoll (routed armed : bool) (commits : Z → bool)
  | SettlePoll (routed devMode armed : bool) (commits : Z → bool) (now : Z) (inp : membershipInputs)
  | Measure (sp : spans) (batches : list batch_row) (dispatches : list dispatch_row) (jobs : list job_row) (hot : bool).

Definition run_act (a : act) (s : tables) : tables :=
  match a with
  | Fold routed devMode msgs withdrawals => produceMessages routed devMode msgs withdrawals s
  | ReleasePoll routed armed commits => (releaseHeld routed armed commits s).2
  | SettlePoll routed devMode armed commits now inp => (settleRePoints routed devMode armed commits now inp s).2
  | Measure sp bs ds js hot => mkTables sp bs ds js hot (tb_messages s) (tb_nextMessage s) (tb_deliveries s)
  end.

Definition emptyTables : tables := mkTables emptySpans [] [] [] false [] 1 [].

Lemma run_act_routed a s : routed_once s → routed_once (run_act a s).
Proof.
  intros Hs. destruct a; cbn [run_act].
  - unfold produceMessages. destruct devMode; [done|]. by apply write_withdrawals_routed, write_messages_routed.
  - by apply releaseHeld_routed.
  - by apply settleRePoints_routed.
  - destruct Hs as [? ? ? Hok]. by split.
Qed.

(** [C16] Whatever folds and polls have run, in any order and with any of their
    transactions lost, no message has been delivered twice, a message whose
    census is still held has not been delivered, and each delivery carries its
    message's class. *)
Theorem one_delivery_per_message (acts : list act) :
  let s := foldl (λ s a, run_act a s) emptyTables acts in
  NoDup (map fst (tb_deliveries s)) ∧
  ∀ id class, (id, class) ∈ tb_deliveries s →
    ∃ m, m ∈ tb_messages s ∧ mr_ID m = id ∧ ms_Class (mr_Message m) = class ∧ ms_CensusPending (mr_Message m) = None.
Proof.
  assert (∀ s, routed_once s → routed_once (foldl (λ s a, run_act a s) s acts)) as Hrun.
  { induction acts as [|a acts IH]; intros s Hs; [done|]. by apply IH, run_act_routed. }
  destruct (Hrun emptyTables) as [_ _ Honce Hok]; [split; cbn; try constructor; by intros ? ?%not_elem_of_nil|].
  split; [done|]. intros id class Hd. destruct (Hok _ Hd) as [m [Hm [Hid [Hc Hh]]]]. exists m. split_and!; [done..|].
  unfold msg_held in Hh. apply bool_decide_eq_false in Hh. destruct (ms_CensusPending _); [|done]. destruct Hh. by eexists.
Qed.
End Settled.

(** ** The two polls of a tick *)

Section Tick.
Context {U : UnicodeCase} {C : JSONCited} {A : JSONAddresses}.

(** [tick], after [dispatchDue]: the release before the settle. *)
Definition poll_tick (routed devMode armed : bool) (commits : Z → bool) (now : Z) (inp : membershipInputs) (s : tables) : tables :=
  (settleRePoints routed devMode armed commits now inp (releaseHeld routed armed commits s).2).2.

Lemma releaseHeldMessage_frame row s :
  let s' := (releaseHeldMessage row s).2 in
  tb_spans s' = tb_spans s ∧ tb_batches s' = tb_batches s ∧ tb_dispatches s' = tb_dispatches s ∧
  tb_jobs s' = tb_jobs s ∧ tb_hotEnabled s' = tb_hotEnabled s.
Proof. unfold releaseHeldMessage. cbn zeta. cbn [ReleaseHeldMessage]. by destruct (_ =? 0). Qed.

Lemma release_rows_frame commits rows n s :
  let s' := (release_rows commits rows n s).2 in
  tb_spans s' = tb_spans s ∧ tb_batches s' = tb_batches s ∧ tb_dispatches s' = tb_dispatches s ∧
  tb_jobs s' = tb_jobs s ∧ tb_hotEnabled s' = tb_hotEnabled s.
Proof.
  revert n s. induction rows as [|row rows IH]; intros n s; [done|]. cbn. unfold releaseOne.
  destruct (commits _); [|apply IH]. pose proof (releaseHeldMessage_frame row s) as (E1 & E2 & E3 & E4 & E5).
  destruct (releaseHeldMessage row s) as [took s1]. cbn [snd] in *.
  destruct (IH (if took : bool then n + 1 else n) s1) as (-> & -> & -> & -> & ->). by split_and!.
Qed.

(** What a pass that commits leaves held was held before, and not listed. *)
Lemma release_rows_held rows n s m :
  m ∈ tb_messages (release_rows (λ _, true) rows n s).2 → msg_held m = true →
  m ∈ tb_messages s ∧ ∀ row, row ∈ rows → hr_ID row ≠ mr_ID m.
Proof.
  revert n s. induction rows as [|row rows IH]; intros n s Hm Hh; [split; [done|]; by intros ? ?%not_elem_of_nil|].
  cbn [release_rows releaseOne] in Hm. unfold releaseOne in Hm. destruct (releaseHeldMessage_messages row s) as [c [h E]].
  destruct (releaseHeldMessage row s) as [took s1]. cbn [snd] in *.
  destruct (IH _ _ Hm Hh) as [Hm1 Hrows]. rewrite E in Hm1. apply list_elem_of_fmap in Hm1 as [m0 [Em Hm0]].
  destruct (release_row_same (hr_ID row) c h m0) as [E1 [_ E3]]. rewrite <- Em in E1, E3. rewrite Hh in E3.
  symmetry in E3. apply andb_prop in E3 as [Hh0 Hid]. apply negb_true_iff, Z.eqb_neq in Hid.
  assert (m = m0) as ->. { rewrite Em. unfold release_row, is_held. by rewrite (proj2 (Z.eqb_neq _ _) Hid). }
  split; [done|]. intros row' [->|Hr]%elem_of_cons; [congruence|by apply Hrows].
Qed.

Lemma find_batch (l : list batch_row) (b : batch_row) :
  NoDup (map br_ID l) → b ∈ l → List.find (λ b', br_ID b' =? br_ID b) l = Some b.
Proof.
  induction l as [|x l IH]; [by intros _ ?%not_elem_of_nil|]. cbn. intros [Hx Hl]%NoDup_cons [->|Hb]%elem_of_cons.
  - by rewrite Z.eqb_refl.
  - destruct (Z.eqb_spec (br_ID x) (br_ID b)) as [E|]; [|by apply IH]. destruct Hx. rewrite E. by apply list_elem_of_fmap_2.
Qed.

(** A batch that may settle is one whose held messages may be released. *)
Lemma settleable_releasable armed s b m p :
  NoDup (map br_ID (tb_batches s)) → b ∈ tb_batches s → settleable (negb armed) s b = true →
  ms_CensusPending (mr_Message m) = Some p → cp_AfterBatch p = br_ID b →
  is_Some (releasable (negb armed) s m).
Proof.
  intros Hids Hb Hsettle Hp Hafter. unfold releasable. rewrite Hp. cbn [mbind option_bind].
  rewrite Hafter, (find_batch _ _ Hids Hb). cbn [mbind option_bind].
  assert (negb armed || negb (tb_hotEnabled s) || bool_decide (is_Some (drained b s)) = true) as ->; [|by eexists].
  unfold settleable in Hsettle. apply andb_prop in Hsettle as [_ Hs]. destruct armed; [|done]. cbn [negb orb] in *.
  destruct (negb (tb_hotEnabled s)); [done|]. cbn [orb] in *. apply bool_decide_eq_true. unfold drained.
  destruct (first_hot b s) as [d|]; [|done]. cbn [mbind option_bind]. rewrite Hs. by eexists.
Qed.

(** In a tick whose releases all commit, and between whose two polls no other
    transaction commits, the settle poll never finds a message of the batch it
    settles still held: the release poll, which waits for the same dispatch, has
    released them all.  So it counts the fold's roots as if their censuses had been
    written at the cause.  The order [queue/repointsettle.go] means, the hold read
    as held, needs a release that fails or a dispatch that drains between the
    polls. *)
Theorem settle_never_sees_a_hold armed s b
    (Hmsgs : routed_once s) (Hids : NoDup (map br_ID (tb_batches s))) :
  let s' := (releaseHeld true armed (λ _, true) s).2 in
  b ∈ tb_batches s' → settleable (negb armed) s' b = true → BatchHeldItsRootCensus (br_ID b) s' = false.
Proof.
  intros s' Hb Hsettle. apply not_true_iff_false. intros Hheld.
  apply existsb_exists in Hheld as [m [Hm Hp]]. apply list_elem_of_In in Hm. apply bool_decide_eq_true in Hp.
  destruct (ms_CensusPending (mr_Message m)) as [p|] eqn:Ep; [|done]. injection Hp as Hp.
  subst s'. unfold releaseHeld in *. cbn [negb] in *.
  set (rows := ListReleasableHeldMessages (negb armed) s) in *.
  destruct (release_rows_frame (λ _, true) rows 0 s) as (_ & E2 & E3 & E4 & E5).
  destruct (release_rows_held rows 0 s m Hm) as [Hm0 Hrows]; [unfold msg_held; by rewrite Ep|].
  assert (settleable (negb armed) s b = true) as Hsettle0.
  { revert Hsettle. unfold settleable, first_hot, has_open_job. by rewrite E3, E4, E5. }
  rewrite E2 in Hb. destruct (settleable_releasable armed s b m p Hids Hb Hsettle0 Ep Hp) as [row Hrow].
  apply (Hrows row); [|by apply releasable_row in Hrow as [-> _]].
  unfold rows, ListReleasableHeldMessages. rewrite sort_stable_elem, list_elem_of_omap. by exists m.
Qed.
End Tick.

(** ** A move told twice *)

#[local] Instance demo_cited : JSONCited := {|
  cited_addresses v := (λ _, [v]) <$> ParseAddr v;
  json_valid v := bool_decide (is_Some (ParseAddr v))
|}.
#[local] Instance demo_addresses : JSONAddresses := {|
  addresses_text v := [v];
  addresses_hold v a := String.eqb v a
|}.

Definition demo_span (id : Z) (kind key facet value : string) (batch at_ : Z) (closed : option (Z * Z)) : span_row :=
  mkRow id kind key facet "" None "" value false [] at_ (snd <$> closed) "" batch (fst <$> closed) false.

(** [www] moves from one address to a new one in batch 2, and the hot dispatch 9
    opens what is beneath it in batch 3. *)
Definition moved_spans : spans :=
  mkSpans [demo_span 1 subjectKindName "www.example" FacetResolution "192.0.2.1" 1 10 (Some (2, 20));
           demo_span 2 subjectKindName "www.example" FacetResolution "192.0.2.2" 2 20 None;
           demo_span 3 subjectKindService "192.0.2.2:443/tcp" "reachability" "" 3 30 None;
           demo_span 4 subjectKindEndpoint "www.example@192.0.2.2:443/tcp" "identity" "" 3 30 None] 5.

Definition moved_change : spanChange :=
  mkChange subjectKindName (mkTimeline "www.example" FacetResolution "" None "") false false "192.0.2.2" "192.0.2.1"
    false false None false (NewVector []) (NewVector []) None false.

Definition moved_messages `{!UnicodeCase} : list Message.Message :=
  rePointMessages 2 20 [moved_change] (rePoints [moved_change]) (mkInputs [] [])
    (ListResolutionCitersForAddresses ["192.0.2.2"] moved_spans) true.

Definition moved_tables `{!UnicodeCase} : tables :=
  run_act (Measure moved_spans [mkBatchRow 2 20 None None; mkBatchRow 3 30 (Some 9) None]
             [mkDispatch 9 "hot" StatusFannedOut false true 25] [] true)
    (run_act (Fold true false moved_messages []) emptyTables).

Definition times_told (e : CensusEntry) (s : tables) : nat :=
  length (filter (λ m, bool_decide (e ∈ default [] (ms_Census (mr_Message m))) = true) (tb_messages s)).

(** The order the tick has tells the endpoint twice; the settle first would have
    told it once. *)
Theorem tick_tells_twice `{!UnicodeCase} :
  let e := mkEntry subjectKindEndpoint "www.example@192.0.2.2:443/tcp" "" in
  let all := λ _ : Z, true in
  times_told e (poll_tick true false true all 40 (mkInputs [] []) moved_tables) = 2%nat ∧
  times_told e (releaseHeld true true all (settleRePoints true false true all 40 (mkInputs [] []) moved_tables).2).2 = 1%nat.
Proof. split; vm_compute; reflexivity. Qed.

Lemma settle_never_sees_a_hold_witness :
  BatchHeldItsRootCensus 2 (releaseHeld true true (λ _, true) (moved_tables (H := ascii_case))).2 = false ∧
  BatchHeldItsRootCensus 2 (moved_tables (H := ascii_case)) = true.
Proof.
  split; [|by vm_compute].
  apply (settle_never_sees_a_hold true (moved_tables (H := ascii_case)) (mkBatchRow 2 20 None None)).
  - unfold moved_tables. do 2 apply run_act_routed. split; cbn; try constructor; by intros ? ?%not_elem_of_nil.
  - apply (bool_decide_unpack _). vm_compute. exact I.
  - cbn. by left.
  - vm_compute. reflexivity.
Defined.

(** ** What a later poll reads of the fold's instant *)

Section AtTheFold.
Context {A : JSONAddresses} (at_ : Z).

(** A row as it may stand later: the same, or closed since. *)
Definition later (r r' : span_row) : Prop :=
  r' = r ∨ ∃ c reason batch id, at_ < c ∧ r' = close_row c reason batch id r.

(** The rows as they may stand later: the old ones, then ones opened since. *)
Definition grown (s s' : spans) : Prop :=
  ∃ old new, st_rows s' = old ++ new ∧ Forall2 later (st_rows s) old ∧
    Forall (λ r, at_ < sr_OpenedAt r ∧ from_option (λ c, at_ < c) True (sr_ClosedAt r)) new.

(** Everything stands at the instant. *)
Definition stands (r : span_row) : Prop := sr_OpenedAt r <= at_ ∧ from_option (λ c, c <= at_) True (sr_ClosedAt r).

Lemma close_row_fields c reason batch id r :
  let r' := close_row c reason batch id r in
  r' = r ∨ (row_open r = true ∧ sr_ClosedAt r' = Some c ∧ sr_SubjectKind r' = sr_SubjectKind r ∧ row_timeline r' = row_timeline r ∧
            sr_Value r' = sr_Value r ∧ sr_IsGap r' = sr_IsGap r ∧ sr_OpenedAt r' = sr_OpenedAt r).
Proof. unfold close_row. destruct (_ && _) eqn:E; [|by left]. right. by apply andb_prop in E as [_ ->]. Qed.

Lemma grown_refl s : grown s s.
Proof.
  exists (st_rows s), []. rewrite app_nil_r. split_and!; [done| |constructor].
  apply Forall_Forall2_diag, Forall_forall. intros r _. by left.
Qed.

Lemma later_close c reason batch id r r' : at_ < c → later r r' → later r (close_row c reason batch id r').
Proof.
  intros Hc [->|(c0 & q & b & i & Hc0 & ->)]; [right; by exists c, reason, batch, id|].
  destruct (close_row_fields c0 q b i r) as [->|[_ [E _]]]; [right; by exists c, reason, batch, id|].
  right. exists c0, q, b, i. split; [done|]. unfold close_row at 1. unfold row_open. rewrite E. cbn. by rewrite andb_false_r.
Qed.

Lemma grown_close c reason batch id s s' : at_ < c → grown s s' → grown s (CloseSpan c reason batch id s').
Proof.
  intros Hc (old & new & E & Hold & Hnew). exists (map (close_row c reason batch id) old), (map (close_row c reason batch id) new).
  split_and!.
  - unfold CloseSpan. cbn. by rewrite E, map_app.
  - clear E. induction Hold as [|r r' l l' Hr _ IH]; cbn; [constructor|]. constructor; [by apply later_close|done].
  - apply Forall_map. eapply Forall_impl; [exact Hnew|]. intros r [H1 H2].
    destruct (close_row_fields c reason batch id r) as [->|(_ & Ec & _ & _ & _ & _ & Eo)]; [done|]. by rewrite Ec, Eo.
Qed.

Lemma grown_open mk s s' :
  (∀ id, at_ < sr_OpenedAt (mk id) ∧ from_option (λ c, at_ < c) True (sr_ClosedAt (mk id))) → grown s s' → grown s (OpenSpan mk s').
Proof.
  intros Hmk (old & new & E & Hold & Hnew). exists old, (new ++ [mk (st_next s')]). split_and!; [|done|].
  - unfold OpenSpan. cbn. by rewrite E, app_assoc.
  - apply Forall_app. split; [done|]. by constructor.
Qed.

(** A test that the later rows pass as the old ones do, and the new ones never. *)
Lemma filter_grown {B} (s s' : spans) (P P' : span_row → Prop) `{!∀ r, Decision (P r), !∀ r, Decision (P' r)} (f : span_row → B) :
  grown s s' → (∀ r r', r ∈ st_rows s → later r r' → (P r ↔ P' r') ∧ (P r → f r = f r')) →
  (∀ r, at_ < sr_OpenedAt r → from_option (λ c, at_ < c) True (sr_ClosedAt r) → ¬ P' r) →
  map f (filter P (st_rows s)) = map f (filter P' (st_rows s')).
Proof.
  intros (old & new & -> & Hold & Hnew) Hlater Hno. rewrite filter_app, map_app.
  assert (filter P' new = []) as ->.
  { induction Hnew as [|r l [H1 H2] _ IH]; [done|]. rewrite filter_cons_False; [done|by apply Hno]. }
  rewrite app_nil_r. induction Hold as [|r r' l l' Hr _ IH]; [done|].
  destruct (Hlater r r') as [Hiff Hf]; [by left|done|].
  assert (map f (filter P l) = map f (filter P' l')) as IH' by (apply IH; intros; apply Hlater; [by right|done]).
  rewrite !filter_cons. destruct (decide (P r)) as [Hp|Hp], (decide (P' r')) as [Hp'|Hp']; try tauto.
  cbn. by rewrite IH', Hf.
Qed.

Lemma later_shape r r' :
  later r r' →
  r' = r ∨ (row_open r = true ∧ (∃ c, at_ < c ∧ sr_ClosedAt r' = Some c) ∧ sr_SubjectKind r' = sr_SubjectKind r ∧
            row_timeline r' = row_timeline r ∧ sr_Value r' = sr_Value r ∧ sr_IsGap r' = sr_IsGap r ∧ sr_OpenedAt r' = sr_OpenedAt r).
Proof.
  intros [->|(c & q & b & i & Hc & ->)]; [by left|].
  destruct (close_row_fields c q b i r) as [->|(? & ? & ? & ? & ? & ? & ?)]; [by left|]. right. split_and!; eauto.
Qed.

Lemma open_at_later r r' : stands r → later r r' → open_at at_ r' = row_open r.
Proof.
  intros [Ho Hc] Hl. unfold open_at, row_open. destruct (later_shape r r' Hl) as [->|(E & (c & Hc' & Ec) & _ & _ & _ & _ & Eo)].
  - rewrite (proj2 (Z.leb_le _ _) Ho). destruct (sr_ClosedAt r) as [c|]; cbn in *; [|done]. by apply Z.ltb_ge.
  - rewrite Eo, Ec, (proj2 (Z.leb_le _ _) Ho), (proj2 (Z.ltb_lt _ _) Hc'). unfold row_open in E. by rewrite E.
Qed.

Lemma before_gap_later s s' r r' :
  Forall stands (st_rows s) → grown s s' → later r r' → before_gap_at at_ r' s' = before_gap r s.
Proof.
  intros Hs Hg Hl. unfold before_gap_at, before_gap. f_equal.
  assert (row_timeline r' = row_timeline r) as Et.
  { by destruct (later_shape r r' Hl) as [->|(_ & _ & _ & -> & _)]. }
  injection Et as E1 _ E2 E3 E4. rewrite E1, E2, E3, E4.
  assert (∀ l : list span_row, map id l = l) as Hid by apply map_id.
  rewrite <- (Hid (filter _ (st_rows s'))), <- (Hid (filter _ (st_rows s))). symmetry.
  apply filter_grown; [done| |].
  - intros q q' Hq Hlq. destruct (proj1 (Forall_forall _ _) Hs q Hq) as [_ Hc].
    destruct (later_shape q q' Hlq) as [->|(E & (c & Hc' & Ec) & _)].
    + split; [|done]. unfold row_open. destruct (sr_ClosedAt q) as [c|]; cbn in *.
      * rewrite (proj2 (Z.leb_le _ _) Hc). tauto.
      * split; intros; naive_solver.
    + assert ((c <=? at_) = false) as Ef by (apply Z.leb_gt; lia). rewrite E, Ec. cbn. rewrite Ef. split; [|by intros (_ & _ & _ & _ & _ & ? & _)].
      split; by intros (_ & _ & _ & _ & _ & ? & _).
  - intros q _ Hc (_ & _ & _ & _ & _ & H & _). destruct (sr_ClosedAt q) as [c|]; cbn in *; [|done]. apply Z.leb_le in H. lia.
Qed.

(** [C17] The settle poll reads the citers of an address as the fold read them: over
    any store that has since only closed spans and opened new ones, the query at
    the fold's instant gives, row for row, what the query gave at the fold. *)
Theorem citers_at_the_fold addresses s s' (Hs : Forall stands (st_rows s)) (Hg : grown s s') :
  ListResolutionCitersForAddressesAt addresses at_ s' = ListResolutionCitersForAddresses addresses s.
Proof.
  unfold ListResolutionCitersForAddressesAt, ListResolutionCitersForAddresses.
  induction addresses as [|a l IH]; [done|]. cbn [flat_map]. rewrite IH. f_equal. symmetry.
  apply filter_grown; [done| |].
  - intros r r' Hr Hl. pose proof (proj1 (Forall_forall _ _) Hs r Hr) as Hst.
    assert (cites_at at_ s' a r' = cites s a r) as ->.
    { unfold cites_at, cites. rewrite (open_at_later r r' Hst Hl), (before_gap_later s s' r r' Hs Hg Hl).
      unfold is_name_resolution. destruct (later_shape r r' Hl) as [->|(_ & _ & Ek & Et & Ev & Eg & _)]; [done|].
      injection Et as _ Ef _ _ _. by rewrite Ek, Ef, Ev, Eg. }
    split; [done|]. intros _. unfold citer_of.
    destruct (later_shape r r' Hl) as [->|(_ & _ & _ & Et & _)]; [done|]. injection Et as E1 _ E2 E3 E4. by rewrite E1, E2, E3, E4.
  - intros r Ho _. unfold cites_at, open_at. assert ((sr_OpenedAt r <=? at_) = false) as -> by (apply Z.leb_gt; lia). done.
Qed.
End AtTheFold.

(** The fold of batch 2 read the rows before batch 3 opened anything. *)
Definition fold_spans : spans := mkSpans (take 2 (st_rows moved_spans)) 3.

Lemma citers_at_the_fold_witness :
  ListResolutionCitersForAddressesAt ["192.0.2.2"] 20 (CloseSpan 50 "" 4 2 moved_spans) =
  ListResolutionCitersForAddresses ["192.0.2.2"] fold_spans.
Proof.
  apply (citers_at_the_fold 20 ["192.0.2.2"] fold_spans).
  - cbn. repeat constructor; cbn; lia.
  - apply grown_close; [lia|]. exists (st_rows fold_spans), (drop 2 (st_rows moved_spans)). split_and!.
    + done.
    + apply Forall_Forall2_diag, Forall_forall. intros r _. by left.
    + cbn. repeat constructor; cbn; lia.
Defined.

(** ** A fold settles once *)

Section Once.
Context {U : UnicodeCase} {C : JSONCited} {A : JSONAddresses}.

Lemma fire_frame msgs s :
  tb_batches (fire msgs s) = tb_batches s ∧ tb_dispatches (fire msgs s) = tb_dispatches s ∧
  tb_jobs (fire msgs s) = tb_jobs s ∧ tb_hotEnabled (fire msgs s) = tb_hotEnabled s.
Proof. revert s. induction msgs as [|m msgs IH]; intros s; [done|]. cbn [fire InsertMessage].
  exact (IH (enqueue (tb_nextMessage s) (ms_Class m) (InsertMessage m s).2)).
Qed.

(** What a settle does to the tables a settle reads. *)
Definition settles (at_ : Z) (ids : list Z) (s s' : tables) : Prop :=
  (∃ f, tb_batches s' = map f (tb_batches s) ∧
        ∀ b, br_ID (f b) = br_ID b ∧ br_CreatedAt (f b) = br_CreatedAt b ∧
             (br_SettledAt (f b) = None → f b = b ∧ br_ID b ∉ ids)) ∧
  tb_dispatches s' = tb_dispatches s ∧ tb_jobs s' = tb_jobs s ∧ tb_hotEnabled s' = tb_hotEnabled s.

Lemma settles_refl at_ s : settles at_ [] s s.
Proof.
  split; [|done]. exists id. split; [by rewrite map_id|]. intros b. split_and!; [done..|]. intros _. split; [done|].
  apply not_elem_of_nil.
Qed.

Lemma settles_trans at_ ids ids' s1 s2 s3 : settles at_ ids s1 s2 → settles at_ ids' s2 s3 → settles at_ (ids ++ ids') s1 s3.
Proof.
  intros [[f [Ef Hf]] [D1 [J1 H1]]] [[g [Eg Hg]] [D2 [J2 H2]]]. split; [|split_and!; congruence].
  exists (g ∘ f). split; [by rewrite Eg, Ef, map_map|]. intros b. cbn.
  destruct (Hf b) as (F1 & F2 & F3), (Hg (f b)) as (G1 & G2 & G3). split_and!; [congruence..|].
  intros Hn. destruct (G3 Hn) as [Eg' Hni]. rewrite Eg' in Hn. destruct (F3 Hn) as [Ef' Hni'].
  rewrite Eg', Ef'. split; [done|]. rewrite not_elem_of_app. split; [done|]. congruence.
Qed.

Lemma settle_row_settles at_ ids s : settles at_ ids s (with_batches (map (settle_row at_ ids) (tb_batches s)) s).
Proof.
  split; [|done]. exists (settle_row at_ ids). split; [done|]. intros b. unfold settle_row.
  destruct (bool_decide (br_ID b ∈ ids)) eqn:Hi, (bool_decide (br_SettledAt b = None)) eqn:Hn; cbn [andb]; split_and!; try done.
  - intros Hb. by apply bool_decide_eq_false in Hn.
  - intros Hb. by apply bool_decide_eq_false in Hi.
  - intros Hb. by apply bool_decide_eq_false in Hi.
Qed.

Lemma settleRePointFold_settles id at_ inp s : settles at_ [id] s (settleRePointFold id at_ inp s).2.
Proof.
  unfold settleRePointFold. cbn [SettleRePointBatch]. destruct (_ =? 0); cbn [snd]; [apply settle_row_settles|].
  destruct (settle_row_settles at_ [id] s) as [Hb Hr]. set (s1 := with_batches _ s) in *.
  destruct (fire_frame (fold_messages (rePointFoldFrom id (ListRePointMovesForBatch id (tb_spans s1))) inp
    (negb (BatchHeldItsRootCensus id s1)) (tb_spans s1)) s1) as (E1 & E2 & E3 & E4).
  unfold settles. rewrite E1, E2, E3, E4. done.
Qed.

Lemma settle_folds_settles at_ inp folds n s : settles at_ folds s (settle_folds (λ _, true) at_ inp folds n s).2.
Proof.
  revert n s. induction folds as [|id folds IH]; intros n s; [apply settles_refl|]. cbn [settle_folds]. unfold settleOne.
  pose proof (settleRePointFold_settles id at_ inp s) as H1. destruct (settleRePointFold id at_ inp s) as [k s1].
  change (id :: folds) with ([id] ++ folds). by eapply settles_trans; [exact H1|].
Qed.

(** A settle pass whose transactions all commit leaves nothing to settle: the
    next pass, whatever its clock and the declared inputs, fires no message and
    leaves every table as it is. *)
Theorem settle_once armed now now' inp inp' commits s :
  let s' := (settleRePoints true false armed (λ _, true) now inp s).2 in
  settleRePoints true false armed commits now' inp' s' = (0, s').
Proof.
  intros s'. assert (ListSettleableRePointBatches (negb armed) s' = []) as E.
  2: { unfold settleRePoints. cbn [negb]. by rewrite E. }
  set (rows := ListSettleableRePointBatches (negb armed) s).
  assert (settles now ((splitSettleableBatches rows).2 ++ (splitSettleableBatches rows).1) s s') as [[f [Eb Hf]] (E2 & E3 & E4)].
  { subst s'. unfold settleRePoints. cbn [negb]. fold rows. destruct (splitSettleableBatches rows) as [folds moveless]. cbn [fst snd].
    eapply settles_trans; [|apply settle_folds_settles].
    destruct moveless; cbn; [apply settles_refl|apply settle_row_settles]. }
  unfold ListSettleableRePointBatches. apply nil_length_inv. rewrite length_map, sort_stable_length.
  destruct (filter (λ b, settleable (negb armed) s' b = true) (tb_batches s')) as [|b l] eqn:El; [done|]. exfalso.
  assert (b ∈ b :: l) as Hb by left. rewrite <- El in Hb. apply list_elem_of_filter in Hb as [Hset Hb].
  rewrite Eb in Hb. apply list_elem_of_fmap in Hb as [b0 [-> Hb0]]. destruct (Hf b0) as (_ & _ & H3).
  assert (br_SettledAt (f b0) = None) as Hnone.
  { unfold settleable in Hset. apply andb_prop in Hset as [Hn _]. by apply bool_decide_eq_true in Hn. }
  destruct (H3 Hnone) as [Ef Hni]. apply Hni. rewrite Ef in Hset.
  assert (settleable (negb armed) s b0 = true) as Hset0.
  { revert Hset. unfold settleable, first_hot, has_open_job. by rewrite E2, E3, E4. }
  assert (∃ mv, (br_ID b0, mv) ∈ rows) as [mv Hrow].
  { eexists. unfold rows, ListSettleableRePointBatches. apply list_elem_of_fmap. exists b0. split; [done|].
    rewrite sort_stable_elem. by apply list_elem_of_filter. }
  unfold splitSettleableBatches. cbn [fst snd]. rewrite elem_of_app. destruct mv; [right|left]; apply list_elem_of_fmap.
  - exists (br_ID b0, true). split; [done|]. by apply list_elem_of_filter.
  - exists (br_ID b0, false). split; [done|]. by apply list_elem_of_filter.
Qed.
End Once.
