(* ===== verification/CauseRules.v ===== *)
(** * The rules a fold opens

    [queue/censusrules.go], [facetmove.go], [signaledge.go] and
    [certlifetime.go]: the rules of [Signal] read before and after a fold, and the
    messages their edges make.  The estate of spans is [SpanStore]'s; the decoding
    of values ([FactsJSON], [UnicodeFold]), [url.Parse], [strings.ToLower] and the
    shipped port list are the parameters of [SignalFacts] and [VergeCore]. *)

From S2P Require Import Prelude GoTime GoStr NetIP NetParse NetText GoRFC3339 Drift Signal VergeCore SignalFacts Message SubjectScope SpanStore Departures Census.

(** ** A subject at the cause *)

Definition sensitivePortRule : string := "sensitive-port-reached-from-internet".
Definition estateBoundRule : string := "redirect-to-host-outside-estate".

Record facetValue := mkFacetValue { fv_value : string; fv_observedAt : Z }.

Record subjectAtCause := mkSubject {
  sc_kind : string;
  sc_key : string;
  sc_moved : list string;
  sc_before : gmap string facetValue;
  sc_after : gmap string facetValue
}.

Record reachLeg := mkLeg { rl_has : bool; rl_outcome : string }.
Record reachAtCause := mkReach { rc_before : reachLeg; rc_after : reachLeg }.
Record ruleOutcome := mkOutcome { ro_name : string; ro_before : Outcome; ro_after : Outcome }.

Definition noLeg : reachLeg := mkLeg false "".
Definition noReach : reachAtCause := mkReach noLeg noLeg.

Definition ruleFacet (facet : string) : bool :=
  negb (existsb (String.eqb facet) [""%string; FacetReachability; FacetResolution; FacetDNSRecord]).

Definition ruleSubjectKind (kind : string) : bool := String.eqb kind "service" || String.eqb kind "endpoint".

Definition keyNestsService (service key : string) : bool := String.eqb key service || contains_text service key.

Definition ruleEntry (rule subjectKey : string) : CensusEntry :=
  if String.eqb rule sensitivePortRule then
    match ParseServicePair (SplitEndpointName subjectKey).2 with
    | Some (p, _) => mkEntry KindRule rule (Pair_String p)
    | None => mkEntry KindRule rule ""
    end
  else mkEntry KindRule rule "".

Definition serviceEvidence (facets : gmap string facetValue) (reach : reachLeg) : ServiceEvidence :=
  mkServiceEvidence (rl_has reach) (rl_outcome reach) (fv_value <$> facets !! FacetTLSAcceptance).

Definition endpointEvidence (facets : gmap string facetValue) : EndpointEvidence :=
  mkEndpointEvidence (fv_value <$> facets !! FacetCertificate)
    (from_option fv_observedAt zeroTime (facets !! FacetCertificate))
    (fv_value <$> facets !! FacetHTTPIdentity).

Definition hasSubject (subjects : list subjectAtCause) (kind key : string) : bool :=
  existsb (λ s, String.eqb (sc_kind s) kind && String.eqb (sc_key s) key) subjects.

(** *** What is read of it *)

Definition vantage_less (a b : option Z) : option bool :=
  match a, b with
  | Some x, Some y => if x =? y then None else Some (x <? y)
  | Some _, None => Some true
  | None, Some _ => Some false
  | None, None => None
  end.

(** [ORDER BY facet, discriminator, vantage_id, source], no vantage last. *)
Definition subject_row_less (a b : span_row) : bool :=
  if negb (String.eqb (sr_Facet a) (sr_Facet b)) then str_less (sr_Facet a) (sr_Facet b)
  else if negb (String.eqb (sr_Discriminator a) (sr_Discriminator b)) then str_less (sr_Discriminator a) (sr_Discriminator b)
  else match vantage_less (sr_VantageID a) (sr_VantageID b) with
       | Some less => less
       | None => str_less (sr_Source a) (sr_Source b)
       end.

Definition open_rows_in_order (kind key : string) (s : spans) : list span_row :=
  sort_stable subject_row_less (ListOpenSpansForSubject kind key s).

Definition read_step (m : gmap string facetValue) (r : span_row) : gmap string facetValue :=
  if sr_IsGap r || negb (ruleFacet (sr_Facet r)) then m
  else if bool_decide (is_Some (m !! sr_Facet r)) then m
  else <[sr_Facet r := mkFacetValue (sr_Value r) (sr_OpenedAt r)]> m.

Definition readSubjectAtCause (kind key : string) (s : spans) : subjectAtCause :=
  let m := foldl read_step ∅ (open_rows_in_order kind key s) in mkSubject kind key [] m m.

(** One change of a subject already read. *)
Definition apply_change (observedAt : Z) (c : spanChange) (s : subjectAtCause) : subjectAtCause :=
  let facet := tl_Facet (ch_Timeline c) in
  let after := <[facet := mkFacetValue (ch_Value c) observedAt]> (sc_after s) in
  if bool_decide (facet ∈ sc_moved s) then mkSubject (sc_kind s) (sc_key s) (sc_moved s) (sc_before s) after
  else if ch_Opened c then mkSubject (sc_kind s) (sc_key s) (sc_moved s) (delete facet (sc_before s)) after
  else mkSubject (sc_kind s) (sc_key s) (sc_moved s ++ [facet])
         (<[facet := mkFacetValue (ch_Previous c) observedAt]> (sc_before s)) after.

Definition is_subject (kind key : string) (s : subjectAtCause) : bool := String.eqb (sc_kind s) kind && String.eqb (sc_key s) key.

Definition cause_step (observedAt : Z) (want : string → string → bool) (sp : spans) (subjects : list subjectAtCause) (c : spanChange)
    : list subjectAtCause :=
  let kind := ch_Kind c in
  let key := tl_Subject (ch_Timeline c) in
  if negb (ruleFacet (tl_Facet (ch_Timeline c))) || negb (want kind key) then subjects
  else
    let subjects := if hasSubject subjects kind key then subjects else subjects ++ [readSubjectAtCause kind key sp] in
    map (λ s, if is_subject kind key s then apply_change observedAt c s else s) subjects.

Definition subjectsAtCause (observedAt : Z) (changes : list spanChange) (want : string → string → bool) (sp : spans)
    : list subjectAtCause :=
  foldl (cause_step observedAt want sp) [] changes.

Definition is_moved (c : spanChange) : bool :=
  negb (ch_Opened c || ch_IsGap c || ch_PrevIsGap c) && ruleFacet (tl_Facet (ch_Timeline c)) && ruleSubjectKind (ch_Kind c).

Definition moved_subjects (changes : list spanChange) : gset (string * string) :=
  list_to_set (map (λ c, (ch_Kind c, tl_Subject (ch_Timeline c))) (filter (λ c, is_moved c = true) changes)).

Definition movedSubjectsAtCause (observedAt : Z) (changes : list spanChange) (sp : spans) : list subjectAtCause :=
  let moved := moved_subjects changes in
  if bool_decide (moved = ∅) then []
  else subjectsAtCause observedAt changes (λ kind key, bool_decide ((kind, key) ∈ moved)) sp.

(** ** The edges *)

Definition clockRules : gset string :=
  {["certificate-expired"%string; "certificate-not-yet-valid"%string; "certificate-expiring"%string]}.

Definition signalEdgeRule (name : string) : bool := negb (bool_decide (name ∈ clockRules)) && negb (String.eqb name sensitivePortRule).

Definition coveredByPrior (prior : list Message.Message) (s : subjectAtCause) (rule : string) : bool :=
  existsb (λ m,
    match ms_Census m with
    | None => false
    | Some census =>
        (String.eqb (ms_FiredAt m) (sc_key s) || keyNestsService (ms_FiredAt m) (sc_key s)) &&
        existsb (λ e, String.eqb (ce_Kind e) KindRule && String.eqb (ce_Key e) rule) census
    end) prior.

(** [annotatedPairs]: subjects and rules an operator has muted. *)
Definition annotation := (string * string)%type.

Section Edges.
Context {F : UnicodeFold} {J : FactsJSON}.
Variable url_Parse : string → option (string * string).
Variable ToLower : string → string.
Variable vc : VergeCore.List.

Definition rulesAtCause (s : subjectAtCause) (reach : reachAtCause) (now : Z) : list ruleOutcome :=
  if String.eqb (sc_kind s) "service" then
    let before := ServiceFactsFrom (sc_key s) (serviceEvidence (sc_before s) (rc_before reach)) vc in
    let after := ServiceFactsFrom (sc_key s) (serviceEvidence (sc_after s) (rc_after reach)) vc in
    map (λ r, mkOutcome (r_Name r) (r_Eval r before) (r_Eval r after)) AllServiceRules
  else if String.eqb (sc_kind s) "endpoint" then
    let before := EndpointFactsFrom url_Parse ToLower (sc_key s) (endpointEvidence (sc_before s)) now None in
    let after := EndpointFactsFrom url_Parse ToLower (sc_key s) (endpointEvidence (sc_after s)) now None in
    map (λ r, mkOutcome (r_Name r) (r_Eval r before) (r_Eval r after))
      (filter (λ r, r_Name r ≠ estateBoundRule) (AllEndpointRules url_Parse ToLower))
  else [].

(** *** The census of a service that was reached *)

Definition opened_at_fired (o : ruleOutcome) : bool :=
  bool_decide (ro_after o = Fired) && negb (bool_decide (ro_before o = Fired)).

Definition rule_census_step (service : string) (st : gset string * list CensusEntry) (o : ruleOutcome)
    : gset string * list CensusEntry :=
  let '(seen, entries) := st in
  if negb (opened_at_fired o) || bool_decide (ro_name o ∈ seen) then st
  else ({[ro_name o]} ∪ seen, entries ++ [ruleEntry (ro_name o) service]).

Definition censusWithRules (observedAt : Z) (changes : list spanChange) (service : string) (base : Census) (reach : reachAtCause)
    (sp : spans) : Census :=
  let beneath := λ kind key, ruleSubjectKind kind && keyNestsService service key in
  let subjects := subjectsAtCause observedAt changes beneath sp in
  let subjects := if hasSubject subjects "service" service then subjects
                  else subjects ++ [readSubjectAtCause "service" service sp] in
  let outcomes := flat_map (λ s, rulesAtCause s (if String.eqb (sc_kind s) "service" then reach else noReach) observedAt) subjects in
  NewCensus (foldl (rule_census_step service) (∅, base) outcomes).2.

(** *** Facets that move *)

Definition facet_move_entries (observedAt : Z) (prior : list Message.Message) (s : subjectAtCause) : list CensusEntry :=
  map (λ o, ruleEntry (ro_name o) (sc_key s))
    (filter (λ o, ro_before o = OutsideDomain ∧ ro_after o = Fired ∧ coveredByPrior prior s (ro_name o) = false)
       (rulesAtCause s noReach observedAt)).

Definition facetMoveMessages (observedAt : Z) (changes : list spanChange) (prior : list Message.Message) (sp : spans)
    : list Message.Message :=
  omap (λ s, FacetMove (sc_kind s) (sc_key s) (sc_moved s) (NewCensus (facet_move_entries observedAt prior s)) observedAt)
    (movedSubjectsAtCause observedAt changes sp).

(** *** Rules that fire *)

Definition signal_edges (observedAt : Z) (prior : list Message.Message) (s : subjectAtCause) : list (subjectAtCause * string) :=
  map (λ o, (s, ro_name o))
    (filter (λ o, ro_before o = NotFired ∧ ro_after o = Fired ∧ signalEdgeRule (ro_name o) = true ∧
                  coveredByPrior prior s (ro_name o) = false)
       (rulesAtCause s noReach observedAt)).

(** The pairs of a subject and a rule that fire, less those an operator muted. *)
Definition fired_edges (observedAt : Z) (changes : list spanChange) (prior : list Message.Message)
    (annotated : list annotation) (sp : spans) : list (subjectAtCause * string) :=
  filter (λ e, (sc_key e.1, e.2) ∉ annotated)
    (flat_map (signal_edges observedAt prior) (movedSubjectsAtCause observedAt changes sp)).

Definition signalEdgeMessages (observedAt : Z) (changes : list spanChange) (prior : list Message.Message)
    (annotated : list annotation) (sp : spans) : list Message.Message :=
  map (λ e, SignalEdge (sc_kind e.1) (sc_key e.1) e.2 (sc_moved e.1) observedAt)
    (fired_edges observedAt changes prior annotated sp).

(** *** Clocks *)

Record clockEdge := mkClockEdge { ke_key : string; ke_rule : string; ke_moved : bool; ke_clock : CertClock }.
Record clockReading := mkReading { kr_outcome : string → Outcome; kr_clock : CertClock }.

Definition zeroClock : CertClock := mkClock zeroTime zeroTime zeroTime zeroTime.

Definition clockRuleSet : list (Rule EndpointFacts) :=
  filter (λ r, r_Name r ∈ clockRules) (AllEndpointRules url_Parse ToLower).

(** The outcome of a rule of the set by its name. *)
Definition readClockRules (key value : string) (observed at_ : Z) : clockReading :=
  let facts := EndpointFactsFrom url_Parse ToLower key (mkEndpointEvidence (Some value) observed None) at_ None in
  mkReading (λ name, from_option (λ r, r_Eval r facts) OutsideDomain (find_rule name clockRuleSet))
    (default zeroClock (d ← ef_CertDetails facts; cd_Clock d)).

Definition clockCrossings (key : string) (before after : clockReading) (moved : bool) (prior : list Message.Message)
    : list clockEdge :=
  let subject := mkSubject "endpoint" key [] ∅ ∅ in
  map (λ name, mkClockEdge key name moved (kr_clock after))
    (filter (λ name, kr_outcome before name = NotFired ∧ kr_outcome after name = Fired ∧ coveredByPrior prior subject name = false)
       (map r_Name clockRuleSet)).

(** A row of the open certificates, with its latest observation. *)
Record cert_row := mkCertRow { ct_key : string; ct_value : string; ct_observedAt : Z }.

(** [latest] is the instant of a timeline's last observation: a span without one
    is not listed. *)
Definition cert_row_less (a b : span_row) : bool :=
  if negb (String.eqb (sr_SubjectKey a) (sr_SubjectKey b)) then str_less (sr_SubjectKey a) (sr_SubjectKey b)
  else match vantage_less (sr_VantageID a) (sr_VantageID b) with Some less => less | None => sr_ID a <? sr_ID b end.

Definition ListOpenEndpointCertificateSpans (latest : timeline → option Z) (s : spans) : list cert_row :=
  omap (λ r, mkCertRow (sr_SubjectKey r) (sr_Value r) <$> latest (row_timeline r))
    (sort_stable cert_row_less
       (filter (λ r, sr_SubjectKind r = "endpoint" ∧ sr_Facet r = FacetCertificate ∧ row_open r = true ∧ sr_IsGap r = false) (st_rows s))).

Definition changed_step (observedAt prev latest : Z) (prior : list Message.Message) (st : gset string * list clockEdge) (c : spanChange)
    : gset string * list clockEdge :=
  let '(touched, edges) := st in
  let key := tl_Subject (ch_Timeline c) in
  if negb (String.eqb (ch_Kind c) "endpoint") || negb (String.eqb (tl_Facet (ch_Timeline c)) FacetCertificate) ||
     bool_decide (key ∈ touched) then st
  else
    let touched := {[key]} ∪ touched in
    if ch_Opened c || String.eqb (ch_Previous c) "" then (touched, edges)
    else
      (touched, edges ++ clockCrossings key (readClockRules key (ch_Previous c) prev prev)
                           (readClockRules key (ch_Value c) observedAt latest) true prior).

Definition standing_step (prev latest : Z) (prior : list Message.Message) (st : gset string * list clockEdge) (r : cert_row)
    : gset string * list clockEdge :=
  let '(touched, edges) := st in
  if bool_decide (ct_key r ∈ touched) then st
  else
    ({[ct_key r]} ∪ touched,
     edges ++ clockCrossings (ct_key r) (readClockRules (ct_key r) (ct_value r) (ct_observedAt r) prev)
                (readClockRules (ct_key r) (ct_value r) (ct_observedAt r) latest) false prior).

Definition edge_message (observedAt : Z) (e : clockEdge) : Message.Message :=
  if ke_moved e then SignalEdge "endpoint" (ke_key e) (ke_rule e) [FacetCertificate] observedAt
  else ClockEdge "endpoint" (ke_key e) (ke_rule e) (cc_NotBefore (ke_clock e)) (cc_NotAfter (ke_clock e)) observedAt.

Definition clock_edges (prev latest observedAt : Z) (changes : list spanChange) (prior : list Message.Message) (rows : list cert_row)
    : list clockEdge :=
  (foldl (standing_step prev latest prior) (foldl (changed_step observedAt prev latest prior) (∅, []) changes) rows).2.

Definition certificateLifetimeMessages (window : option Z * option Z) (observedAt : Z) (changes : list spanChange)
    (prior : list Message.Message) (rows : list cert_row) (annotated : list annotation) : list Message.Message :=
  match window with
  | (Some prev, Some latest) =>
      map (edge_message observedAt)
        (filter (λ e, (ke_key e, ke_rule e) ∉ annotated) (clock_edges prev latest observedAt changes prior rows))
  | _ => []
  end.
End Edges.

(** ** The window of two folds *)

(** What a batch says of itself here: its kind, outcome and creation. *)
Record folded_batch := mkFolded { fb_kind : string; fb_outcome : string; fb_createdAt : Z }.

Definition unfoldedBatchKinds : list string := ["zone"; "ct"; "ct-tail"].

Definition max_of (l : list Z) : option Z := match l with [] => None | x :: l' => Some (foldl Z.max x l') end.

(** [(prev_at, latest_at)]. *)
Definition FoldedBatchWindow (unfolded : list string) (batches : list folded_batch) : option Z * option Z :=
  let done_ := map fb_createdAt (filter (λ b, fb_outcome b = outcomeCompleted ∧ fb_kind b ∉ unfolded) batches) in
  let latest := max_of done_ in
  (l ← latest; max_of (filter (λ t, t < l) done_), latest).

(** ** What the fold found and what it left *)

(** The changes of one facet of one subject. *)
Definition facet_changes (kind key facet : string) (changes : list spanChange) : list spanChange :=
  filter (λ c, ch_Kind c = kind ∧ tl_Subject (ch_Timeline c) = key ∧ tl_Facet (ch_Timeline c) = facet) changes.

Definition first_move (changes : list spanChange) : option spanChange := head (filter (λ c, ch_Opened c = false) changes).

(** What a subject at the cause is, after some changes. *)
Definition at_cause (observedAt : Z) (changes : list spanChange) (sp : spans) (s : subjectAtCause) : Prop :=
  let read := foldl read_step ∅ (open_rows_in_order (sc_kind s) (sc_key s) sp) in
  ∀ facet, ruleFacet facet = true →
    let cs := facet_changes (sc_kind s) (sc_key s) facet changes in
    (facet ∈ sc_moved s ↔ is_Some (first_move cs)) ∧
    sc_after s !! facet = match last cs with None => read !! facet | Some c => Some (mkFacetValue (ch_Value c) observedAt) end ∧
    sc_before s !! facet =
      match first_move cs with
      | Some c => Some (mkFacetValue (ch_Previous c) observedAt)
      | None => match cs with [] => read !! facet | _ => None end
      end.

Lemma facet_changes_snoc kind key facet l c :
  facet_changes kind key facet (l ++ [c]) =
  facet_changes kind key facet l ++ (if bool_decide (ch_Kind c = kind ∧ tl_Subject (ch_Timeline c) = key ∧ tl_Facet (ch_Timeline c) = facet) then [c] else []).
Proof. unfold facet_changes. rewrite filter_app. f_equal. rewrite filter_cons. by repeat case_decide || case_bool_decide. Qed.

Lemma first_move_snoc l c :
  first_move (l ++ [c]) = match first_move l with Some d => Some d | None => if ch_Opened c then None else Some c end.
Proof.
  unfold first_move. rewrite filter_app, head_app. destruct (head _); [done|]. rewrite filter_cons, filter_nil.
  by destruct (ch_Opened c).
Qed.

Lemma at_cause_other observedAt l c sp s :
  ¬ (ch_Kind c = sc_kind s ∧ tl_Subject (ch_Timeline c) = sc_key s ∧ ruleFacet (tl_Facet (ch_Timeline c)) = true) →
  at_cause observedAt l sp s → at_cause observedAt (l ++ [c]) sp s.
Proof.
  intros Hno H facet Hf. specialize (H facet Hf). rewrite facet_changes_snoc.
  rewrite bool_decide_false by (intros (? & ? & <-); tauto). by rewrite app_nil_r.
Qed.

Lemma at_cause_change observedAt l c sp s :
  ch_Kind c = sc_kind s → tl_Subject (ch_Timeline c) = sc_key s →
  at_cause observedAt l sp s → at_cause observedAt (l ++ [c]) sp (apply_change observedAt c s).
Proof.
  intros Hk Hs H facet Hf. specialize (H facet Hf). destruct H as (Hm & Ha & Hb).
  assert (sc_kind (apply_change observedAt c s) = sc_kind s ∧ sc_key (apply_change observedAt c s) = sc_key s) as [-> ->].
  { unfold apply_change. by repeat case_match. }
  rewrite facet_changes_snoc. set (cs := facet_changes _ _ _ l) in *.
  destruct (decide (tl_Facet (ch_Timeline c) = facet)) as [Ef|Ef].
  - rewrite bool_decide_true by done. cbv zeta match. rewrite first_move_snoc, last_snoc. unfold apply_change. rewrite Ef.
    destruct (bool_decide (facet ∈ sc_moved s)) eqn:Hin.
    + apply bool_decide_eq_true in Hin. cbn. rewrite lookup_insert_eq. apply Hm in Hin as [d Hd]. rewrite Hd in *.
      split_and!; [|done|done]. rewrite Hm. split; eauto.
    + apply bool_decide_eq_false in Hin.
      assert (first_move cs = None) as Hnone by (destruct (first_move cs); [exfalso; apply Hin, Hm; eauto|done]).
      rewrite Hnone in *. destruct (ch_Opened c); cbn; rewrite !lookup_insert_eq || rewrite lookup_insert_eq.
      * split_and!; [|done|rewrite lookup_delete_eq; by destruct cs]. rewrite Hm. done.
      * split_and!; [|done|done]. rewrite elem_of_app, list_elem_of_singleton. split; [by eexists|by right].
  - rewrite bool_decide_false by naive_solver. cbv zeta match. rewrite app_nil_r. unfold apply_change.
    destruct (bool_decide _); [|destruct (ch_Opened c)]; cbn; rewrite ?lookup_insert_ne, ?lookup_delete_ne by done;
      split_and!; try done; rewrite ?elem_of_app, ?list_elem_of_singleton, Hm; naive_solver.
Qed.

Definition subject_id (s : subjectAtCause) : string * string := (sc_kind s, sc_key s).
Definition change_id (c : spanChange) : string * string := (ch_Kind c, tl_Subject (ch_Timeline c)).

Lemma apply_change_id observedAt c s : subject_id (apply_change observedAt c s) = subject_id s.
Proof. unfold apply_change. by repeat case_match. Qed.

Lemma is_subject_spec kind key s : is_subject kind key s = true ↔ subject_id s = (kind, key).
Proof.
  unfold is_subject, subject_id. rewrite andb_true_iff, !String.eqb_eq. split; [by intros [-> ->]|by intros [= -> ->]].
Qed.

Lemma hasSubject_spec subjects kind key : hasSubject subjects kind key = true ↔ (kind, key) ∈ map subject_id subjects.
Proof.
  unfold hasSubject. rewrite existsb_exists, list_elem_of_fmap. setoid_rewrite list_elem_of_In.
  split.
  - intros (s & Hs & H). exists s. split; [|done]. symmetry. by apply is_subject_spec.
  - intros (s & H & Hs). exists s. split; [done|]. by apply is_subject_spec.
Qed.

Lemma at_cause_fresh observedAt l sp kind key want :
  (kind, key) ∉ map change_id (filter (λ c, ruleFacet (tl_Facet (ch_Timeline c)) = true ∧ want (ch_Kind c) (tl_Subject (ch_Timeline c)) = true) l) →
  want kind key = true → at_cause observedAt l sp (readSubjectAtCause kind key sp).
Proof.
  intros Hno Hw facet Hf. cbn [readSubjectAtCause sc_kind sc_key sc_moved sc_before sc_after]. cbv zeta.
  assert (facet_changes kind key facet l = []) as ->.
  { apply elem_of_nil_inv. intros c [(<- & <- & <-) Hc]%list_elem_of_filter. apply Hno.
    change (ch_Kind c, tl_Subject (ch_Timeline c)) with (change_id c). apply list_elem_of_fmap_2, list_elem_of_filter. by split_and!. }
  cbn. split_and!; [|done|done]. split; [by intros ?%not_elem_of_nil|by intros [? ?]].
Qed.

(** What [subjectsAtCause] returns: once each, the subjects wanted that a facet a
    rule reads changed on, as the fold left them and as it found them. *)
Lemma subjectsAtCause_spec observedAt changes want sp :
  let out := subjectsAtCause observedAt changes want sp in
  NoDup (map subject_id out) ∧ (∀ s, s ∈ out → at_cause observedAt changes sp s) ∧
  ∀ id, id ∈ map subject_id out ↔
    id ∈ map change_id (filter (λ c, ruleFacet (tl_Facet (ch_Timeline c)) = true ∧
                                     want (ch_Kind c) (tl_Subject (ch_Timeline c)) = true) changes).
Proof.
  cbv zeta. unfold subjectsAtCause. induction changes as [|c l (Hnd & Hat & Hids)] using rev_ind.
  { cbn. split_and!; [constructor|by intros ? ?%not_elem_of_nil|done]. }
  rewrite foldl_app. cbn [foldl]. set (out := foldl _ [] l) in *. unfold cause_step. rewrite filter_app, map_app, filter_cons, filter_nil.
  destruct (ruleFacet (tl_Facet (ch_Timeline c))) eqn:Hf; cbn [negb orb].
  2:{ rewrite decide_False by naive_solver. rewrite app_nil_r. split_and!; [done| |done].
      intros s Hs. apply at_cause_other; [naive_solver congruence|by apply Hat]. }
  destruct (want (ch_Kind c) (tl_Subject (ch_Timeline c))) eqn:Hw; cbn [negb].
  2:{ rewrite decide_False by naive_solver. rewrite app_nil_r. split_and!; [done| |done].
      intros s Hs. apply at_cause_other; [|by apply Hat]. intros (Ek & Es & _).
      assert (subject_id s ∈ map subject_id out) as Hin by (by apply list_elem_of_fmap_2).
      apply Hids, list_elem_of_fmap in Hin as (d & Ed & [[_ Hd] _]%list_elem_of_filter).
      unfold subject_id, change_id in Ed. injection Ed as E1 E2. congruence. }
  rewrite decide_True by done. cbn [map].
  set (out' := if hasSubject out _ _ then out else _).
  assert (NoDup (map subject_id out') ∧ (∀ s, s ∈ out' → at_cause observedAt l sp s) ∧
          ∀ id, id ∈ map subject_id out' ↔ id ∈ map subject_id out ∨ id = change_id c) as (Hnd' & Hat' & Hids').
  { subst out'. destruct (hasSubject out _ _) eqn:Hh.
    - apply hasSubject_spec in Hh. split_and!; [done..|]. intros id. split; [auto|]. by intros [?| ->].
    - apply not_true_iff_false in Hh. rewrite hasSubject_spec in Hh. rewrite map_app. cbn [map]. split_and!.
      + apply NoDup_app. split_and!; [done| |apply NoDup_singleton]. intros id Hid ->%list_elem_of_singleton. done.
      + intros s [Hs| ->%list_elem_of_singleton]%elem_of_app; [by apply Hat|]. eapply at_cause_fresh; [|exact Hw]. by rewrite <- Hids.
      + intros id. rewrite elem_of_app, list_elem_of_singleton. done. }
  assert (map subject_id (map (λ s, if is_subject (ch_Kind c) (tl_Subject (ch_Timeline c)) s then apply_change observedAt c s else s) out') =
          map subject_id out') as ->.
  { rewrite map_map. apply map_ext. intros s. destruct (is_subject _ _ s); [apply apply_change_id|done]. }
  split_and!; [done| |].
  - intros s Hs. apply list_elem_of_fmap in Hs as (s0 & -> & Hs0). destruct (is_subject _ _ s0) eqn:Hi.
    + apply is_subject_spec in Hi as [= E1 E2]. apply at_cause_change; [done..|by apply Hat'].
    + apply at_cause_other; [|by apply Hat']. intros (E1 & E2 & _). apply not_true_iff_false in Hi. apply Hi, is_subject_spec.
      unfold subject_id. congruence.
  - intros id. rewrite Hids', elem_of_app, list_elem_of_singleton, Hids. done.
Qed.

(** ** Each edge is told once *)

(** Some message that fired at the subject, or at a text that the subject's key
    contains, lists the rule in its census. *)
Definition named_in (msgs : list Message.Message) (s : subjectAtCause) (rule : string) : Prop :=
  ∃ m census e, m ∈ msgs ∧ ms_Census m = Some census ∧ e ∈ census ∧ ce_Kind e = KindRule ∧ ce_Key e = rule ∧
    (ms_FiredAt m = sc_key s ∨ contains_text (ms_FiredAt m) (sc_key s) = true).

Lemma coveredByPrior_named msgs s rule : coveredByPrior msgs s rule = true ↔ named_in msgs s rule.
Proof.
  unfold coveredByPrior, named_in, keyNestsService. rewrite existsb_bool. split.
  - intros (m & Hm & H). destruct (ms_Census m) as [census|] eqn:Ec; [|done]. apply andb_true_iff in H as [Hk He].
    apply existsb_bool in He as (e & He & Ee). apply andb_true_iff in Ee as [E1%String.eqb_eq E2%String.eqb_eq].
    exists m, census, e. split_and!; try done. rewrite !orb_true_iff, !String.eqb_eq in Hk. naive_solver.
  - intros (m & census & e & Hm & Ec & He & E1 & E2 & Hk). exists m. split; [done|]. rewrite Ec. apply andb_true_iff. split.
    + rewrite !orb_true_iff, !String.eqb_eq. naive_solver.
    + apply existsb_bool. exists e. split; [done|]. by rewrite E1, E2, !String.eqb_refl.
Qed.

Lemma not_coveredByPrior msgs s rule : coveredByPrior msgs s rule = false ↔ ¬ named_in msgs s rule.
Proof. rewrite <- coveredByPrior_named. by destruct (coveredByPrior _ _ _). Qed.

Section Told.
Context {F : UnicodeFold} {J : FactsJSON}.
Variable url_Parse : string → option (string * string).
Variable ToLower : string → string.
Variable vc : VergeCore.List.
Variable observedAt : Z.
Variable changes : list spanChange.
Variable sp : spans.

Let rules_of s := rulesAtCause url_Parse ToLower vc s noReach observedAt.
Let moved := movedSubjectsAtCause observedAt changes sp.

Lemma moved_spec :
  NoDup (map subject_id moved) ∧ (∀ s, s ∈ moved → at_cause observedAt changes sp s) ∧
  ∀ id, id ∈ map subject_id moved ↔ id ∈ moved_subjects changes.
Proof.
  unfold moved, movedSubjectsAtCause. case_bool_decide as He.
  { cbn. split_and!; [constructor|by intros ? ?%not_elem_of_nil|]. rewrite He. intros id. split; [by intros ?%not_elem_of_nil|set_solver]. }
  destruct (subjectsAtCause_spec observedAt changes (λ kind key, bool_decide ((kind, key) ∈ moved_subjects changes)) sp) as (H1 & H2 & H3).
  split_and!; [done..|]. intros id. rewrite H3, list_elem_of_fmap. split.
  - intros (c & -> & [[_ Hw] _]%list_elem_of_filter). by apply bool_decide_eq_true in Hw.
  - intros Hid. pose proof Hid as Hm. unfold moved_subjects in Hm. rewrite elem_of_list_to_set, list_elem_of_fmap in Hm.
    destruct Hm as (c & -> & [Hc Hin]%list_elem_of_filter). exists c. split; [done|]. apply list_elem_of_filter. split_and!; [| |done].
    + unfold is_moved in Hc. by bool_to_prop.
    + by apply bool_decide_eq_true.
Qed.

Lemma moved_unique s s' : s ∈ moved → s' ∈ moved → sc_kind s = sc_kind s' → sc_key s = sc_key s' → s = s'.
Proof.
  destruct moved_spec as [Hnd _]. revert Hnd. generalize moved. intros l. induction l as [|x l IH]; [by intros _ ?%not_elem_of_nil|].
  cbn [map]. intros [Hx Hl]%NoDup_cons. rewrite !elem_of_cons. intros [->|Hs] [->|Hs'] Ek Ey; [done| | |by apply IH];
    destruct Hx; apply list_elem_of_fmap; eexists; (split; [|eassumption]); unfold subject_id; congruence.
Qed.

(** A rule of a subject has one outcome. *)
Lemma rules_unique s o o' : o ∈ rules_of s → o' ∈ rules_of s → ro_name o = ro_name o' → o = o'.
Proof.
  assert (∀ {X} (rules : list (Rule X)) (f : Rule X → ruleOutcome), NoDup (map r_Name rules) → (∀ r, ro_name (f r) = r_Name r) →
    o ∈ map f rules → o' ∈ map f rules → ro_name o = ro_name o' → o = o') as Hgen.
  { intros X rules f Hnd Hf Ho Ho' E. apply list_elem_of_fmap in Ho as (r & -> & Hr), Ho' as (r' & -> & Hr').
    rewrite !Hf in E. revert Hnd Hr Hr'. induction rules as [|x l IH]; [by intros _ ?%not_elem_of_nil|].
    cbn [map]. intros [Hx Hl]%NoDup_cons. rewrite !elem_of_cons. intros [->|Hr] [->|Hr']; [done| | |by apply IH];
      destruct Hx; apply list_elem_of_fmap; eexists; (split; [|eassumption]); congruence. }
  destruct (rule_tables_agree url_Parse ToLower) as [Hnd _]. unfold AllRuleNames in Hnd.
  apply NoDup_app in Hnd as (_ & _ & [He [_ Hs]]%NoDup_app).
  unfold rules_of, rulesAtCause. destruct (String.eqb _ "service"); [by apply Hgen|].
  destruct (String.eqb _ "endpoint"); [|by intros ?%not_elem_of_nil]. apply Hgen; [|done].
  revert He. generalize (AllEndpointRules url_Parse ToLower). intros l. induction l as [|r l IH]; [done|]. cbn [map].
  intros [Hr Hl]%NoDup_cons. rewrite filter_cons. case_decide; [|by apply IH]. cbn [map]. apply NoDup_cons. split; [|by apply IH].
  intros (r' & E & [_ Hr']%list_elem_of_filter)%list_elem_of_fmap. apply Hr. rewrite E. by apply list_elem_of_fmap_2.
Qed.

Lemma ruleEntry_key rule key : ce_Kind (ruleEntry rule key) = KindRule ∧ ce_Key (ruleEntry rule key) = rule.
Proof. unfold ruleEntry. destruct (String.eqb _ _); [|done]. by destruct (ParseServicePair _) as [[]|]. Qed.

(** A message of the moves of [s] that carries the rule. *)
Definition move_tells (prior : list Message.Message) (s : subjectAtCause) (rule : string) : Prop :=
  ∃ m census e, m ∈ facetMoveMessages url_Parse ToLower vc observedAt changes prior sp ∧
    ms_SubjectKind m = sc_kind s ∧ ms_FiredAt m = sc_key s ∧ ms_Census m = Some census ∧ e ∈ census ∧
    ce_Kind e = KindRule ∧ ce_Key e = rule.

Lemma move_tells_spec prior s o : s ∈ moved → o ∈ rules_of s →
  move_tells prior s (ro_name o) ↔
  ro_before o = OutsideDomain ∧ ro_after o = Fired ∧ coveredByPrior prior s (ro_name o) = false.
Proof.
  intros Hs Ho. unfold move_tells, facetMoveMessages. split.
  - intros (m & census & e & Hm & Hk & Hf & Hc & He & _ & Er). apply list_elem_of_omap in Hm as (s' & Hs' & Hm).
    unfold FacetMove in Hm. destruct (_ =? 0)%nat; [done|]. injection Hm as <-. cbn in Hk, Hf, Hc. injection Hc as <-.
    assert (s' = s) as -> by (apply moved_unique; auto).
    unfold NewCensus in He. rewrite sort_stable_elem in He. apply list_elem_of_fmap in He as (o' & -> & [Ho' Hin]%list_elem_of_filter).
    destruct (ruleEntry_key (ro_name o') (sc_key s)) as [_ E]. rewrite E in Er.
    rewrite <- (rules_unique s o' o Hin Ho Er). done.
  - intros Hcond. set (entries := facet_move_entries url_Parse ToLower vc observedAt prior s).
    assert (ruleEntry (ro_name o) (sc_key s) ∈ entries) as Hin.
    { unfold entries, facet_move_entries. apply list_elem_of_fmap. exists o. split; [done|]. by apply list_elem_of_filter. }
    destruct (ruleEntry_key (ro_name o) (sc_key s)) as [E1 E2].
    assert (ruleEntry (ro_name o) (sc_key s) ∈ Rules (NewCensus entries)) as Hrules.
    { apply list_elem_of_filter. split; [done|]. unfold NewCensus. by rewrite sort_stable_elem. }
    eexists _, (NewCensus entries), (ruleEntry (ro_name o) (sc_key s)). split.
    { apply list_elem_of_omap. exists s. split; [done|]. unfold FacetMove. fold entries.
      destruct (Rules (NewCensus entries)) eqn:E; [by apply not_elem_of_nil in Hrules|]. cbn [length Nat.eqb]. reflexivity. }
    split_and!; try done. unfold NewCensus. by rewrite sort_stable_elem.
Qed.

Lemma fired_edges_spec prior annotated s o : s ∈ moved → o ∈ rules_of s →
  (s, ro_name o) ∈ fired_edges url_Parse ToLower vc observedAt changes prior annotated sp ↔
  ro_before o = NotFired ∧ ro_after o = Fired ∧ signalEdgeRule (ro_name o) = true ∧
  coveredByPrior prior s (ro_name o) = false ∧ (sc_key s, ro_name o) ∉ annotated.
Proof.
  intros Hs Ho. unfold fired_edges. rewrite list_elem_of_filter. cbn [fst snd]. rewrite list_elem_of_In, in_flat_map. split.
  - intros [Hann (s' & _ & He)]. apply list_elem_of_In, list_elem_of_fmap in He as (o' & [= <- E] & [H Hin]%list_elem_of_filter).
    rewrite <- (rules_unique s o o' Ho Hin E) in H. destruct H as (H1 & H2 & H3 & H4). by split_and!.
  - intros (H1 & H2 & H3 & H4 & Hann). split; [done|]. exists s. split; [by apply list_elem_of_In|].
    apply list_elem_of_In, list_elem_of_fmap. exists o. split; [done|]. by apply list_elem_of_filter.
Qed.

(** [C20] A rule that a fold brought to fired on a subject that moved is told by
    one kind of message at most: an opening by the subject's own facet-move message
    exactly when no earlier message of the fold is taken to name it; an edge from
    not-fired by a signal message exactly when no earlier message, the facet moves
    included, is taken to name it, the operator did not mute it and it belongs
    neither to the clocks nor to the flagship; and a rule already fired or not
    evaluable before by neither.  An earlier message is taken to name a rule of a
    subject when its census lists the rule and the text of its place is, or occurs
    anywhere in, the subject's key: a test of text, which a longer address than
    the message's also passes. *)
Theorem fired_rules_told_once prior annotated s o
    (Hs : s ∈ movedSubjectsAtCause observedAt changes sp)
    (Ho : o ∈ rulesAtCause url_Parse ToLower vc s noReach observedAt) (Hfired : ro_after o = Fired) :
  let above := prior ++ facetMoveMessages url_Parse ToLower vc observedAt changes prior sp in
  let told := (s, ro_name o) ∈ fired_edges url_Parse ToLower vc observedAt changes above annotated sp in
  (ro_before o = OutsideDomain → (move_tells prior s (ro_name o) ↔ ¬ named_in prior s (ro_name o))) ∧
  (ro_before o = NotFired →
     told ↔ signalEdgeRule (ro_name o) = true ∧ (sc_key s, ro_name o) ∉ annotated ∧ ¬ named_in above s (ro_name o)) ∧
  ¬ (move_tells prior s (ro_name o) ∧ told) ∧
  (named_in prior s (ro_name o) → ¬ move_tells prior s (ro_name o) ∧ ¬ told) ∧
  (ro_before o = Fired ∨ ro_before o = NotEvaluable → ¬ move_tells prior s (ro_name o) ∧ ¬ told).
Proof.
  intros above told. unfold told. rewrite (move_tells_spec prior s o Hs Ho), (fired_edges_spec above annotated s o Hs Ho).
  rewrite <- !coveredByPrior_named, !not_true_iff_false.
  assert (coveredByPrior prior s (ro_name o) = true → coveredByPrior above s (ro_name o) = true) as Hmono.
  { unfold above, coveredByPrior. rewrite existsb_app. by intros ->. }
  destruct (ro_before o), (coveredByPrior prior s (ro_name o)); try rewrite Hmono by done; intuition congruence.
Qed.
End Told.

(** *** The instants of a clock *)

(** The steps of a run of instants. *)
Definition steps (ts : list Z) : list (Z * Z) := zip ts (drop 1 ts).

Lemma last_cons_default (l : list Z) a d : List.last (a :: l) d = List.last l a.
Proof. revert a d. induction l as [|b l IH]; intros a d; [done|]. change (List.last (b :: l) d = List.last (b :: l) a). by rewrite !IH. Qed.

(** A test that never goes back is crossed once, if at all. *)
Lemma crossings_once (f : Z → bool) t ts :
  StronglySorted Z.lt (t :: ts) → (∀ a b, a ≤ b → f a = true → f b = true) →
  length (filter (λ w, f w.1 = false ∧ f w.2 = true) (steps (t :: ts))) =
  if negb (f t) && f (List.last ts t) then 1%nat else 0%nat.
Proof.
  intros Hs Hmono. revert t Hs. induction ts as [|u ts IH]; intros t Hs; [cbn; by destruct (f t)|].
  apply StronglySorted_inv in Hs as [Hs Hall]. specialize (IH u Hs).
  change (steps (t :: u :: ts)) with ((t, u) :: steps (u :: ts)). rewrite filter_cons. cbn [fst snd].
  assert (List.last (u :: ts) t = List.last ts u) as ->.
  { apply last_cons_default. }
  assert (f t = true → f u = true) as Htu by (apply Hmono; apply Forall_cons in Hall as [? _]; lia).
  assert (f u = true → f (List.last ts u) = true) as Hul.
  { apply Hmono. clear -Hs. revert u Hs. induction ts as [|v ts IH]; intros u Hs; [cbn; lia|].
    apply StronglySorted_inv in Hs as [Hs Hu]. apply Forall_cons in Hu as [Hv _]. specialize (IH v Hs).
    rewrite last_cons_default. lia. }
  destruct (f t) eqn:Et, (f u) eqn:Eu; cbn [negb andb] in *.
  - rewrite decide_False by naive_solver. done.
  - by specialize (Htu eq_refl).
  - rewrite decide_True by done. cbn [length]. rewrite IH, Hul by done. done.
  - rewrite decide_False by naive_solver. done.
Qed.

Section Clocks.
Context {F : UnicodeFold} {J : FactsJSON}.
Variable url_Parse : string → option (string * string).
Variable ToLower : string → string.

(** A certificate as a clock reads it. *)
Definition has_clock (value : string) (nb na : Z) : Prop :=
  let v := DecodeCertificate value in
  cv_Outcome v = CertPresented ∧ time_Parse_RFC3339 (cv_NotBefore v) = Some nb ∧ time_Parse_RFC3339 (cv_NotAfter v) = Some na.

(** The measurement is no older than the horizon of the certificate. *)
Definition fresh_at (nb na obs t : Z) : Prop := (CertHorizon nb na).2 = true ∧ TimeSub t obs ≤ (CertHorizon nb na).1.

Lemma expired_reading key value nb na obs t :
  has_clock value nb na → fresh_at nb na obs t →
  kr_outcome (readClockRules url_Parse ToLower key value obs t) "certificate-expired" =
  if na <=? t then Fired else NotFired.
Proof.
  intros (Ho & Hnb & Hna) [Hok Hage]. unfold readClockRules. cbn [kr_outcome].
  change (find_rule "certificate-expired" (clockRuleSet url_Parse ToLower)) with (Some certificateExpired).
  cbn [from_option]. unfold certificateExpired, clockRule. cbn [r_Eval].
  unfold EndpointFactsFrom. destruct (SplitEndpointName key) as [name rest].
  unfold presentedCert. cbn [ee_Certificate fmap option_fmap option_map ef_CertMeasured ef_CertOutcome ef_CertDetails mbind option_bind ee_CertObservedAt].
  rewrite Ho. change (bool_decide (is_Some (Some (DecodeCertificate value))) && String.eqb CertPresented CertPresented) with true. cbn [negb].
  unfold CertDetailsFromValue. rewrite Ho, String.eqb_refl. cbn [negb]. cbv zeta. rewrite Hnb, Hna. cbn [mbind option_bind].
  assert (∀ d, cd_Clock d = Some (mkClock nb na obs t) →
    match cd_Clock d with
    | None => NotEvaluable
    | Some c => let '(horizon, ok) := CertHorizon (cc_NotBefore c) (cc_NotAfter c) in
        if negb ok || (horizon <? TimeSub (cc_EvaluatedAt c) (cc_ObservedAt c)) then NotEvaluable
        else if negb (After (cc_NotAfter c) (cc_EvaluatedAt c)) then Fired else NotFired
    end = if na <=? t then Fired else NotFired) as Hd.
  { intros d ->. cbn [cc_NotBefore cc_NotAfter cc_EvaluatedAt cc_ObservedAt]. destruct (CertHorizon nb na) as [horizon ok]. cbn [fst snd] in *.
    rewrite Hok, (proj2 (Z.ltb_ge _ _)) by lia. cbn [negb orb]. unfold After. rewrite <- Z.leb_antisym. done. }
  destruct (cv_ChainCerts _); by apply Hd.
Qed.

Lemma fresh_before nb na obs p l : p < l → fresh_at nb na obs l → fresh_at nb na obs p.
Proof.
  intros Hp [Hok Hage]. split; [done|]. etrans; [|exact Hage]. unfold TimeSub.
  repeat match goal with |- context [?x <? ?y] => destruct (Z.ltb_spec x y) end; unfold minInt64, maxInt64 in *; lia.
Qed.

Lemma steps_lt t ts w : StronglySorted Z.lt (t :: ts) → w ∈ steps (t :: ts) → w.1 < w.2.
Proof.
  revert t. induction ts as [|u ts IH]; intros t Hs; [by intros ?%not_elem_of_nil|].
  apply StronglySorted_inv in Hs as [Hs Hall]. change (steps (t :: u :: ts)) with ((t, u) :: steps (u :: ts)).
  intros [->|Hw]%elem_of_cons; [by apply Forall_cons in Hall as [? _]|by eapply IH].
Qed.

Lemma filter_same {X} (P Q : X → Prop) `{!∀ x, Decision (P x), !∀ x, Decision (Q x)} (l : list X) :
  (∀ x, x ∈ l → P x ↔ Q x) → filter P l = filter Q l.
Proof.
  induction l as [|x l IH]; [done|]. intros Hiff. rewrite !filter_cons, IH by (intros y Hy; apply Hiff; by right).
  specialize (Hiff x ltac:(by left)). repeat case_decide; tauto || done.
Qed.

(** What a fold's lifetime check is given. *)
Record lifetime_fold := mkLifetime {
  lf_prev : Z;
  lf_latest : Z;
  lf_observedAt : Z;
  lf_changes : list spanChange;
  lf_prior : list Message.Message;
  lf_rows : list cert_row;
  lf_annotated : list annotation
}.

(** The messages of a fold, one of each of these edges. *)
Definition told_edges (f : lifetime_fold) : list clockEdge :=
  filter (λ e, (ke_key e, ke_rule e) ∉ lf_annotated f)
    (clock_edges url_Parse ToLower (lf_prev f) (lf_latest f) (lf_observedAt f) (lf_changes f) (lf_prior f) (lf_rows f)).

Lemma told_edges_messages f :
  certificateLifetimeMessages url_Parse ToLower (Some (lf_prev f), Some (lf_latest f)) (lf_observedAt f) (lf_changes f) (lf_prior f)
    (lf_rows f) (lf_annotated f) = map (edge_message (lf_observedAt f)) (told_edges f).
Proof. done. Qed.

Definition told_times (key rule : string) (f : lifetime_fold) : nat :=
  length (filter (λ e, ke_key e = key ∧ ke_rule e = rule) (told_edges f)).

(** A message of the same fold named the rule already, or the operator muted it. *)
Definition silenced (key rule : string) (f : lifetime_fold) : bool :=
  coveredByPrior (lf_prior f) (mkSubject "endpoint" key [] ∅ ∅) rule || bool_decide ((key, rule) ∈ lf_annotated f).

(** The fold changed no certificate of the endpoint, and the first open row of
    its certificates holds [value]. *)
Definition stands_in (key value : string) (obs : Z) (f : lifetime_fold) : Prop :=
  Forall (λ c, ¬ (ch_Kind c = "endpoint" ∧ tl_Facet (ch_Timeline c) = FacetCertificate ∧ tl_Subject (ch_Timeline c) = key)) (lf_changes f) ∧
  head (filter (λ r, ct_key r = key) (lf_rows f)) = Some (mkCertRow key value obs).

Definition of_key (key : string) (l : list clockEdge) : list clockEdge := filter (λ e, ke_key e = key) l.

Lemma of_key_crossings key key' before after moved prior :
  of_key key (clockCrossings url_Parse ToLower key' before after moved prior) =
  if bool_decide (key' = key) then clockCrossings url_Parse ToLower key' before after moved prior else [].
Proof.
  unfold of_key, clockCrossings. generalize (filter (λ name, kr_outcome before name = NotFired ∧ kr_outcome after name = Fired ∧
    coveredByPrior prior (mkSubject "endpoint" key' [] ∅ ∅) name = false) (map r_Name (clockRuleSet url_Parse ToLower))) as l.
  induction l as [|n l IH]; cbn [map]; [by case_bool_decide|].
  rewrite filter_cons. cbn [ke_key]. case_bool_decide as E; [by rewrite decide_True, IH|by rewrite decide_False, IH].
Qed.

Lemma changed_leaves key observedAt prev latest prior changes :
  Forall (λ c, ¬ (ch_Kind c = "endpoint" ∧ tl_Facet (ch_Timeline c) = FacetCertificate ∧ tl_Subject (ch_Timeline c) = key)) changes →
  let st := foldl (changed_step url_Parse ToLower observedAt prev latest prior) (∅, []) changes in
  key ∉ st.1 ∧ of_key key st.2 = [].
Proof.
  intros Hall. cbv zeta. apply (foldl_inv (λ st, key ∉ st.1 ∧ of_key key st.2 = [])); [split; [apply not_elem_of_empty|done]|].
  intros [touched edges] c Hc [Ht He]. cbn [fst snd] in *. unfold changed_step.
  pose proof (proj1 (Forall_forall _ _) Hall c Hc) as Hno. cbv beta in Hno.
  destruct (String.eqb_spec (ch_Kind c) "endpoint") as [E1|]; cbn [negb orb]; [|done].
  destruct (String.eqb_spec (tl_Facet (ch_Timeline c)) FacetCertificate) as [E2|]; cbn [negb orb]; [|done].
  case_bool_decide; [done|]. assert (tl_Subject (ch_Timeline c) ≠ key) as Hne by tauto.
  destruct (ch_Opened c || _); cbn [fst snd]; [by split; [set_solver|]|]. split; [set_solver|].
  unfold of_key. rewrite filter_app. fold (of_key key edges). rewrite He.
  match goal with |- context [filter _ ?l] => change (filter _ l) with (of_key key l) end.
  by rewrite of_key_crossings, bool_decide_false.
Qed.

Lemma standing_edges key prev latest prior rows st :
  key ∉ st.1 → of_key key st.2 = [] →
  of_key key (foldl (standing_step url_Parse ToLower prev latest prior) st rows).2 =
  match head (filter (λ r, ct_key r = key) rows) with
  | None => []
  | Some r => clockCrossings url_Parse ToLower key (readClockRules url_Parse ToLower key (ct_value r) (ct_observedAt r) prev)
                (readClockRules url_Parse ToLower key (ct_value r) (ct_observedAt r) latest) false prior
  end.
Proof.
  assert (∀ rows st, key ∈ st.1 → of_key key (foldl (standing_step url_Parse ToLower prev latest prior) st rows).2 = of_key key st.2) as Hdone.
  { clear. induction rows as [|r rows IH]; intros [touched edges] Ht; [done|]. cbn [foldl fst snd] in *. unfold standing_step at 2.
    case_bool_decide; [by apply IH|]. rewrite IH by set_solver. cbn [snd]. unfold of_key. rewrite filter_app.
    match goal with |- _ ++ filter _ ?l = _ => change (filter _ l) with (of_key key l) end.
    rewrite of_key_crossings, bool_decide_false by congruence. by rewrite app_nil_r. }
  revert st. induction rows as [|r rows IH]; intros [touched edges] Ht He; [done|]. cbn [foldl fst snd] in *. unfold standing_step at 2.
  rewrite filter_cons. destruct (decide (ct_key r = key)) as [E|Hne].
  - rewrite E, bool_decide_false by done. cbn [head]. rewrite Hdone by set_solver. cbn [snd]. unfold of_key. rewrite filter_app.
    fold (of_key key edges). rewrite He. cbn [app].
    match goal with |- filter _ ?l = _ => change (filter _ l) with (of_key key l) end. by rewrite of_key_crossings, bool_decide_true.
  - case_bool_decide; [by apply IH|]. apply IH; cbn [fst snd]; [set_solver|]. unfold of_key. rewrite filter_app.
    fold (of_key key edges). rewrite He. cbn [app].
    match goal with |- filter _ ?l = _ => change (filter _ l) with (of_key key l) end. by rewrite of_key_crossings, bool_decide_false.
Qed.

Lemma count_one {X} `{EqDecision X} (r : X) (l : list X) : NoDup l → length (filter (λ n, n = r) l) = if bool_decide (r ∈ l) then 1%nat else 0%nat.
Proof.
  induction 1 as [|n l Hn Hl IH]; [done|]. rewrite filter_cons. destruct (decide (n = r)) as [->|Hne].
  - cbn [length]. rewrite IH, bool_decide_false, bool_decide_true by (done || by left). done.
  - rewrite IH. assert (bool_decide (r ∈ l) = bool_decide (r ∈ n :: l)) as ->; [|done].
    apply bool_decide_ext. rewrite elem_of_cons. split; [auto|]. by intros [->|].
Qed.

Lemma told_times_of_key key rule f :
  told_times key rule f =
  if bool_decide ((key, rule) ∈ lf_annotated f) then 0%nat
  else length (filter (λ n, n = rule) (map ke_rule (of_key key
         (clock_edges url_Parse ToLower (lf_prev f) (lf_latest f) (lf_observedAt f) (lf_changes f) (lf_prior f) (lf_rows f))))).
Proof.
  unfold told_times, told_edges. generalize (clock_edges url_Parse ToLower (lf_prev f) (lf_latest f) (lf_observedAt f) (lf_changes f)
    (lf_prior f) (lf_rows f)) as l. unfold of_key. induction l as [|e l IH]; [cbn; by destruct (bool_decide _)|].
  rewrite !filter_cons. destruct (decide (ke_key e = key)) as [Ek|].
  - cbn [map]. rewrite filter_cons. destruct (decide (ke_rule e = rule)) as [Er|].
    + rewrite Ek, Er. destruct (decide ((key, rule) ∉ lf_annotated f)) as [Ha|Ha].
      * rewrite filter_cons, decide_True by done. cbn [length]. rewrite IH, bool_decide_false by done. done.
      * rewrite IH, bool_decide_true by (by apply dec_stable). done.
    + destruct (decide _); [rewrite filter_cons, decide_False by tauto|]; done.
  - destruct (decide _); [rewrite filter_cons, decide_False by tauto|]; done.
Qed.

(** One fold, whatever else it changed, told or read. *)
Lemma told_times_standing key value nb na obs f :
  has_clock value nb na → stands_in key value obs f → lf_prev f < lf_latest f → fresh_at nb na obs (lf_latest f) →
  told_times key "certificate-expired" f =
  if (lf_prev f <? na) && (na <=? lf_latest f) && negb (silenced key "certificate-expired" f) then 1%nat else 0%nat.
Proof.
  intros Hclock [Hch Hrow] Hlt Hfresh. rewrite told_times_of_key. unfold silenced.
  case_bool_decide; [by rewrite orb_true_r, andb_false_r|]. rewrite orb_false_r. unfold clock_edges.
  pose proof (changed_leaves key (lf_observedAt f) (lf_prev f) (lf_latest f) (lf_prior f) (lf_changes f) Hch) as [Ht He].
  rewrite (standing_edges _ _ _ _ _ _ Ht He), Hrow. cbn [ct_value ct_observedAt]. unfold clockCrossings. rewrite map_map. cbn [ke_rule].
  rewrite map_id, count_one by (apply NoDup_filter, (bool_decide_unpack _); vm_compute; exact I).
  match goal with |- (if ?b then _ else _) = (if ?c then _ else _) => assert (b = c) as ->; [|done] end.
  apply eq_true_iff_eq. rewrite bool_decide_eq_true, list_elem_of_filter.
  rewrite (expired_reading key value nb na obs _ Hclock (fresh_before _ _ _ _ _ Hlt Hfresh)), (expired_reading key value nb na obs _ Hclock Hfresh).
  assert ("certificate-expired" ∈ map r_Name (clockRuleSet url_Parse ToLower)) as Hin by (apply (bool_decide_unpack _); vm_compute; exact I).
  rewrite !andb_true_iff, negb_true_iff, Z.ltb_lt, Z.leb_le.
  destruct (Z.leb_spec na (lf_prev f)), (Z.leb_spec na (lf_latest f)); split; try (intros [[? ?] ?]; lia || done);
    intros [(? & ? & ?) ?]; done || (split_and!; lia || done).
Qed.

Lemma filter_one {X} (P : X → Prop) `{!∀ x, Decision (P x)} (l : list X) : length (filter P l) = 1%nat →
  ∃ l1 x l2, l = l1 ++ x :: l2 ∧ P x ∧ Forall (λ y, ¬ P y) (l1 ++ l2).
Proof.
  induction l as [|x l IH]; [done|]. rewrite filter_cons. destruct (decide (P x)) as [Hx|Hx].
  - intros [= E%nil_length_inv]. exists [], x, l. split_and!; [done..|]. cbn. apply Forall_forall. intros y Hy HP.
    assert (y ∈ filter P l) as Hin by (by apply list_elem_of_filter). rewrite E in Hin. by apply not_elem_of_nil in Hin.
  - intros (l1 & y & l2 & -> & Hy & Hall)%IH. exists (x :: l1), y, l2. split_and!; [done..|]. by constructor.
Qed.

Lemma none_counted {X} (P : X → Prop) `{!∀ x, Decision (P x)} (l : list X) : length (filter P l) = 0%nat → Forall (λ y, ¬ P y) l.
Proof.
  intros E%nil_length_inv. apply Forall_forall. intros y Hy HP.
  assert (y ∈ filter P l) as Hin by (by apply list_elem_of_filter). rewrite E in Hin. by apply not_elem_of_nil in Hin.
Qed.

(** [C21] A run of folds whose windows meet, the next beginning where the last
    ended, whatever else each of them changes, has told and reads: while an
    endpoint's certificate stands (no fold changes it, and it is what the first of
    the endpoint's open rows holds) and its measurement stays within the horizon,
    its expiry is told once by the one fold whose window it falls in, unless a
    message of that same fold named the rule already or the operator muted it, and
    by no other fold; and when it falls in no window, by none. *)
Theorem expiry_told_by_one_fold key value nb na t ts (folds : list lifetime_fold) (obs : lifetime_fold → Z)
    (Hclock : has_clock value nb na) (Hsorted : StronglySorted Z.lt (t :: ts))
    (Hmeet : map (λ f, (lf_prev f, lf_latest f)) folds = steps (t :: ts))
    (Hstand : Forall (λ f, stands_in key value (obs f) f ∧ fresh_at nb na (obs f) (lf_latest f)) folds) :
  if (t <? na) && (na <=? List.last ts t)
  then ∃ earlier f later, folds = earlier ++ f :: later ∧ lf_prev f < na ≤ lf_latest f ∧
         told_times key "certificate-expired" f = (if silenced key "certificate-expired" f then 0%nat else 1%nat) ∧
         Forall (λ g, told_times key "certificate-expired" g = 0%nat) (earlier ++ later)
  else Forall (λ g, told_times key "certificate-expired" g = 0%nat) folds.
Proof.
  assert (Forall (λ f, told_times key "certificate-expired" f =
    if (lf_prev f <? na) && (na <=? lf_latest f) && negb (silenced key "certificate-expired" f) then 1%nat else 0%nat) folds) as Htold.
  { apply Forall_forall. intros f Hf. destruct (proj1 (Forall_forall _ _) Hstand f Hf) as [Hs Hfr].
    apply (told_times_standing key value nb na (obs f)); [done..| |done].
    assert ((lf_prev f, lf_latest f) ∈ steps (t :: ts)) as Hw by (rewrite <- Hmeet; apply list_elem_of_fmap; eauto).
    exact (steps_lt t ts _ Hsorted Hw). }
  pose proof (crossings_once (λ x, na <=? x) t ts Hsorted) as Hone. rewrite <- Hmeet in Hone. cbv beta in Hone.
  specialize (Hone ltac:(intros a b Hab Ha%Z.leb_le; apply Z.leb_le; lia)).
  assert (∀ l : list lifetime_fold, length (filter (λ w : Z * Z, (na <=? w.1) = false ∧ (na <=? w.2) = true) (map (λ f, (lf_prev f, lf_latest f)) l)) =
    length (filter (λ f, (na <=? lf_prev f) = false ∧ (na <=? lf_latest f) = true) l)) as Hmap.
  { induction l as [|f l IH]; [done|]. cbn [map]. rewrite !filter_cons. cbn [fst snd]. destruct (decide _); cbn [length]; by rewrite IH. }
  rewrite Hmap, <- Z.ltb_antisym in Hone.
  assert (∀ l : list lifetime_fold, (∀ g, g ∈ l → g ∈ folds) → Forall (λ g, ¬ ((na <=? lf_prev g) = false ∧ (na <=? lf_latest g) = true)) l →
    Forall (λ g, told_times key "certificate-expired" g = 0%nat) l) as Hnone.
  { intros l Hsub Hl. apply Forall_forall. intros g Hg. rewrite (proj1 (Forall_forall _ _) Htold g (Hsub g Hg)).
    pose proof (proj1 (Forall_forall _ _) Hl g Hg) as Hn. cbv beta in Hn. rewrite Z.ltb_antisym.
    destruct (na <=? lf_prev g), (na <=? lf_latest g); tauto || done. }
  destruct ((t <? na) && _).
  - apply filter_one in Hone as (earlier & f & later & E & [Hp Hl] & Hrest). exists earlier, f, later.
    assert (f ∈ folds) as Hf by (rewrite E; set_solver). apply Z.leb_gt in Hp as Hp'. apply Z.leb_le in Hl as Hl'. split_and!; [done|lia|lia| |].
    + rewrite (proj1 (Forall_forall _ _) Htold f Hf), Hl. assert ((lf_prev f <? na) = true) as -> by (apply Z.ltb_lt; lia).
      by destruct (silenced _ _ _).
    + apply Hnone; [|done]. intros g Hg. rewrite E. set_solver.
  - apply Hnone; [done|]. exact (none_counted _ _ Hone).
Qed.
End Clocks.

(** The windows of successive folds meet: the next begins where the last ended. *)
Lemma window_meets unfolded b batches :
  fb_outcome b = outcomeCompleted → fb_kind b ∉ unfolded → Forall (λ b', fb_createdAt b' < fb_createdAt b) batches →
  FoldedBatchWindow unfolded (b :: batches) = ((FoldedBatchWindow unfolded batches).2, Some (fb_createdAt b)).
Proof.
  intros Ho Hk Hall. unfold FoldedBatchWindow. rewrite filter_cons, decide_True by done. cbn [map].
  set (l := map fb_createdAt (filter _ batches)). set (x := fb_createdAt b).
  assert (Forall (λ t, t < x) l) as Hl.
  { apply Forall_map, Forall_forall. intros b' [_ Hb']%list_elem_of_filter. by apply (proj1 (Forall_forall _ _) Hall). }
  assert (∀ y, foldl Z.max y l = y ∨ foldl Z.max y l ∈ l) as Hmax.
  { clear. induction l as [|z l IH]; intros y; [by left|]. cbn. destruct (IH (Z.max y z)) as [E|E]; [|right; by right].
    rewrite E. destruct (Z.max_spec y z) as [[_ ->]|[_ ->]]; [right; left|left]; done. }
  assert (max_of (x :: l) = Some x) as ->.
  { cbn. f_equal. clear Hmax. induction l as [|z l IH]; [done|]. apply Forall_cons in Hl as [Hz Hl]. cbn. rewrite Z.max_l by lia. by apply IH. }
  cbn [mbind option_bind]. f_equal.
  rewrite filter_cons, decide_False by lia.
  assert (filter (λ t, t < x) l = l) as ->; [|done]. clear Hmax. induction Hl as [|z l Hz _ IH]; [done|].
  rewrite filter_cons, decide_True by done. by rewrite IH.
Qed.

(** *** A key that holds another *)

(** A service is taken to lie beneath another whose key ends its own: the rules
    that opened on the first are left out where a message on the second named
    them. *)
Example longer_address_is_silenced :
  keyNestsService "1.2.3.4:443/tcp" "21.2.3.4:443/tcp" = true ∧
  coveredByPrior
    [mkMessage CauseDrift ClassDrift "service" "1.2.3.4:443/tcp" 5 (Some [mkEntry KindRule "tls-1.0-accepted" ""]) None ""]
    (mkSubject "service" "21.2.3.4:443/tcp" [FacetTLSAcceptance] ∅ ∅) "tls-1.0-accepted" = true.
Proof. vm_compute. auto. Qed.

(** ** Two folds to try it on *)

#[local] Instance demo_facts : FactsJSON := {|
  DecodeCertificate v :=
    if String.eqb v "cert"
    then mkCertValue CertPresented [] "2026-04-01T00:00:00Z" "2026-01-01T00:00:00Z" [] [] []
    else mkCertValue "" [] "" "" [] [] [];
  DecodeHTTPIdentity v := mkHTTPValue "" 0 "" "" "" "";
  DecodeTLSAcceptance v := mkTLSValue Enumerated [mkTLSVersion v []]
|}.

Definition demo_url (_ : string) : option (string * string) := None.
Definition demo_lower (s : string) : string := s.

(** A listener that comes to take TLS 1.0. *)
Definition tls_spans : spans :=
  mkSpans [mkRow 1 subjectKindService "192.0.2.1:443/tcp" FacetTLSAcceptance "" (Some 1) "prober" "1.0" false [] 20 None "" 2 None false] 2.
Definition tls_change : spanChange :=
  mkChange subjectKindService (mkTimeline "192.0.2.1:443/tcp" FacetTLSAcceptance "" (Some 1) "prober") false false "1.0" "1.2"
    false false None false (NewVector []) (NewVector []) None false.
Definition tls_subject : subjectAtCause :=
  mkSubject "service" "192.0.2.1:443/tcp" [FacetTLSAcceptance]
    {[FacetTLSAcceptance := mkFacetValue "1.2" 20]} {[FacetTLSAcceptance := mkFacetValue "1.0" 20]}.

Lemma fired_rules_told_once_witness :
  (tls_subject, "tls-1.0-accepted") ∈ fired_edges demo_url demo_lower (mkList ∅ ∅) 20 [tls_change]
    ([] ++ facetMoveMessages demo_url demo_lower (mkList ∅ ∅) 20 [tls_change] [] tls_spans) [] tls_spans.
Proof.
  eapply (fired_rules_told_once demo_url demo_lower (mkList ∅ ∅) 20 [tls_change] tls_spans [] [] tls_subject
    (mkOutcome "tls-1.0-accepted" NotFired Fired)).
  - apply list_elem_of_In. vm_compute. auto.
  - apply list_elem_of_In. vm_compute. auto.
  - done.
  - done.
  - split_and!; [done|apply not_elem_of_nil|]. apply not_coveredByPrior. by vm_compute.
Defined.

(** An expiry between the second and the third of four instants, a day apart; in
    the second of the three folds another certificate moves. *)
Definition clock_key : string := "www.example@192.0.2.1:443/tcp".
Definition clock_fold (prev latest : Z) (changes : list spanChange) : lifetime_fold :=
  mkLifetime prev latest latest changes [] [mkCertRow "api.example@192.0.2.1:443/tcp" "" 0; mkCertRow clock_key "cert" latest] [].
Definition other_change : spanChange :=
  mkChange "endpoint" (mkTimeline "api.example@192.0.2.1:443/tcp" FacetCertificate "" (Some 1) "prober") false false "cert" "old"
    false false None false (NewVector []) (NewVector []) None false.

Lemma expiry_told_by_one_fold_witness :
  let na := default 0 (time_Parse_RFC3339 "2026-04-01T00:00:00Z") in
  let day := 24 * Hour in
  let folds := [clock_fold (na - 2 * day) (na - day) []; clock_fold (na - day) (na + day) [other_change]; clock_fold (na + day) (na + 2 * day) []] in
  ∃ earlier f later, folds = earlier ++ f :: later ∧ lf_prev f < na ≤ lf_latest f ∧
    told_times demo_url demo_lower clock_key "certificate-expired" f = 1%nat.
Proof.
  intros na day folds.
  destruct (expiry_told_by_one_fold demo_url demo_lower clock_key "cert"
    (default 0 (time_Parse_RFC3339 "2026-01-01T00:00:00Z")) na (na - 2 * day) [na - day; na + day; na + 2 * day] folds lf_latest)
    as (earlier & f & later & E & Hw & Ht & _).
  - split_and!; vm_compute; reflexivity.
  - repeat constructor; unfold day, Hour, Minute, Second; lia.
  - done.
  - repeat constructor; try (cbn; by intros (_ & _ & ?)); try (vm_compute; done); unfold fresh_at, TimeSub; cbn [lf_latest clock_fold];
      rewrite Z.sub_diag; vm_compute; discriminate.
  - exists earlier, f, later. split_and!; [done|lia|lia|]. rewrite Ht.
    assert (f ∈ folds) as Hf by (rewrite E; set_solver). revert Hf. unfold folds.
    intros [->|[->|[->|[]%not_elem_of_nil]%elem_of_cons]%elem_of_cons]%elem_of_cons; done.
Defined.
