(* ===== verification/Produce.v ===== *)
(** * What a fold tells

    The rest of [queue/produce.go] with [vantageclass.go], [extensiongain.go],
    [gapclose.go] and [producerebaseline.go]: the messages of the reach legs, of a
    class first measured from, of an extension's gains, of a gap that closes, of a
    derivation that moved and of what was declared, and the whole list of a fold.
    The store is the tables the producers read ([cause_store]); [encoding/json] is
    a class, and [None] is the panic of [Vector.Equal].  An error of the database
    abandons the fold and is not modelled. *)

From S2P Require Import Prelude GoTime GoStr NetIP NetParse NetText GoConv Custody Exposure Drift Signal VergeCore SignalFacts Dispatch Message SubjectScope SpanStore Departures Census CensusPolls CauseRules.

(** ** Values *)

(** [json.Unmarshal] of a value's outcome and addresses, and of the records of a
    [dns-record] value as (type, data, name); [None] is its error. *)
Class JSONCause := {
  resolution_value : string → option (string * list string);
  record_values : string → option (list (string * string * string))
}.

(** ** Reach legs *)

Record classLeg := mkClassLeg { cl_subject : string; cl_class : string; cl_outcome : string }.

(** A row of the two reach queries. *)
Record reach_row := mkReachRow { rr_subject : string; rr_value : string; rr_dialled : string; rr_egress : string }.

(** [ORDER BY subject_key, vantage_id, opened_at DESC, id DESC]. *)
Definition reach_less (a b : span_row) : bool :=
  if negb (String.eqb (sr_SubjectKey a) (sr_SubjectKey b)) then str_less (sr_SubjectKey a) (sr_SubjectKey b)
  else match vantage_less (sr_VantageID a) (sr_VantageID b) with
       | Some less => less
       | None => if sr_OpenedAt a =? sr_OpenedAt b then sr_ID b <? sr_ID a else sr_OpenedAt b <? sr_OpenedAt a
       end.

Definition is_reach_row (services : list string) (r : span_row) : bool :=
  String.eqb (sr_SubjectKind r) subjectKindService && String.eqb (sr_Facet r) FacetReachability &&
  bool_decide (sr_SubjectKey r ∈ services).

Definition reach_rows (keep : span_row → bool) (vantages : list vantage_row) (s : spans) : list reach_row :=
  let joined := omap (λ r, v ← (id ← sr_VantageID r; List.find (λ v, vr_ID v =? id) vantages); Some (r, v))
                  (sort_stable reach_less (filter (λ r, keep r = true) (st_rows s))) in
  map (λ rv, mkReachRow (sr_SubjectKey rv.1) (sr_Value rv.1) (default "" (vr_Dialled rv.2)) (default "" (vr_Egress rv.2)))
    (dedup (λ rv, Some ((sr_SubjectKey rv.1, sr_VantageID rv.1), rv)) joined).2.

Definition ListServiceReachabilitySpansByClassForServices (services : list string) (vantages : list vantage_row) (s : spans) : list reach_row :=
  reach_rows (λ r, is_reach_row services r && row_open r) vantages s.

Definition ListServiceReachabilitySpansByClassAtForServices (services : list string) (at_ : Z) (vantages : list vantage_row) (s : spans)
    : list reach_row :=
  reach_rows (λ r, is_reach_row services r && (sr_OpenedAt r <=? at_) &&
                   match sr_ClosedAt r with None => true | Some c => at_ <? c end) vantages s.

Definition reachOutcome `{!JSONData} (value : string) : string := json_outcome value.

Definition legsFrom `{!JSONData} (rows : list reach_row) (covered : Addr → bool) : list classLeg :=
  map (λ r, mkClassLeg (rr_subject r) (class_text (DeriveClass (rr_dialled r) (rr_egress r) covered)) (reachOutcome (rr_value r))) rows.

(** [None] is [ok] false. *)
Definition composeLeg (legs : list classLeg) (service class : string) : option string :=
  let '(v, ok) := ComposeReach (map cl_outcome (filter (λ l, cl_subject l = service ∧ cl_class l = class) legs)) in
  if ok : bool then Some v else None.

Definition composeInternetLeg (legs : list classLeg) (service : string) : option string := composeLeg legs service "internet".

Definition flagshipCandidateServices (changes : list spanChange) : list string :=
  (dedup (once (λ c,
    if negb (String.eqb (tl_Facet (ch_Timeline c)) FacetReachability) || String.eqb (tl_Subject (ch_Timeline c)) "" then None
    else Some (tl_Subject (ch_Timeline c)))) changes).2.

Definition facet_entry (service : string) (c : spanChange) : option (string * CensusEntry) :=
  let facet := tl_Facet (ch_Timeline c) in
  if negb (ch_Opened c) || String.eqb facet "" || String.eqb facet FacetReachability then None
  else if negb (keyNestsService service (tl_Subject (ch_Timeline c))) then None
  else Some (facet, mkEntry KindFacet facet "").

Definition flagshipCensus (changes : list spanChange) (service : string) : Message.Census :=
  NewCensus (dedup (facet_entry service) changes).2.

(** ** The tables *)

Record cause_batch := mkCauseBatch { ba_ID : Z; ba_Kind : string; ba_Outcome : string; ba_Vantage : option Z; ba_CreatedAt : Z }.

(** A row of [ListNameCitationSpansWithinCurrency]. *)
Record citation_row := mkCitation {
  cr_SubjectKey : string; cr_VantageID : option Z; cr_Facet : string; cr_Value : string; cr_OpenedAt : Z; cr_ClosedAt : option Z
}.

Record cause_store := mkCause {
  cu_spans : spans;
  cu_vantages : list vantage_row;
  cu_scopes : list (option Prefix);
  cu_exclusions : list (option Prefix);
  cu_batches : list cause_batch;
  cu_citations : list citation_row;
  cu_certs : list cert_row;
  cu_annotations : list annotation;
  cu_extensions : list (seed_row * bool)
}.

Definition coveredAddressScope (s : cause_store) : Addr → bool :=
  CoversAddressScope (WithAddressExclusions
    (mkEstate (omap id (cu_scopes s)) [] [] EdgeFanoutZero []) (ReadAddressExclusions (cu_exclusions s))).

Definition PreviousBatchTime (s : cause_store) : option Z :=
  let created := map ba_CreatedAt (cu_batches s) in
  l ← max_of created; max_of (filter (λ t, t < l) created).

Definition ReachFoldedBeforeAtVantages (kinds : list string) (vantageIDs : list Z) (beforeBatchID : Z) (s : cause_store) : bool :=
  existsb (λ b, bool_decide (ba_Kind b ∈ kinds) && String.eqb (ba_Outcome b) outcomeCompleted &&
                match ba_Vantage b with Some v => bool_decide (v ∈ vantageIDs) | None => false end &&
                (ba_ID b <? beforeBatchID)) (cu_batches s).

Section Produce.
Context {U : UnicodeCase} {JD : JSONData} {JC : JSONCited} {JA : JSONAddresses} {JV : JSONCause} {UF : UnicodeFold} {FJ : FactsJSON}.
Variable url_Parse : string → option (string * string).
Variable ToLower : string → string.
Variable vc : VergeCore.List.

Record batchLegs := mkBatchLegs { bl_services : list string; bl_covered : Addr → bool; bl_cur : list classLeg; bl_prev : list classLeg }.

Definition readBatchLegs (changes : list spanChange) (s : cause_store) : batchLegs :=
  let services := flagshipCandidateServices changes in
  if (length services =? 0)%nat then mkBatchLegs [] (λ _, false) [] []
  else
    let covered := coveredAddressScope s in
    mkBatchLegs services covered
      (legsFrom (ListServiceReachabilitySpansByClassForServices services (cu_vantages s) (cu_spans s)) covered)
      (match PreviousBatchTime s with
       | None => []
       | Some prev => legsFrom (ListServiceReachabilitySpansByClassAtForServices services prev (cu_vantages s) (cu_spans s)) covered
       end).

Definition flagshipReach : reachAtCause := mkReach (CauseRules.mkLeg true NotReached) (CauseRules.mkLeg true Reached).

Definition flagship_message (observedAt : Z) (changes : list spanChange) (legs : batchLegs) (s : cause_store) (svc : string)
    : option Message.Message :=
  after ← composeInternetLeg (bl_cur legs) svc;
  before ← composeInternetLeg (bl_prev legs) svc;
  if negb (Exposure.Flagship before after) then None
  else Message.Flagship (mkReachMove svc Message.ClassInternet NotReached Reached false)
         (censusWithRules url_Parse ToLower vc observedAt changes svc (flagshipCensus changes svc) flagshipReach (cu_spans s)) observedAt.

Definition flagshipMessages (observedAt : Z) (changes : list spanChange) (legs : batchLegs) (s : cause_store) : list Message.Message :=
  omap (flagship_message observedAt changes legs s) (bl_services legs).

(** ** A class measured from for the first time *)

Definition openedReachLeg (changes : list spanChange) : bool :=
  existsb (λ c, ch_Opened c && String.eqb (tl_Facet (ch_Timeline c)) FacetReachability) changes.

Definition widenedClasses (cur prev : list classLeg) : list string :=
  (dedup (once (λ l,
    if negb (String.eqb (cl_class l) "internet") && negb (String.eqb (cl_class l) "internal") then None
    else if existsb (λ p, String.eqb (cl_class p) (cl_class l)) prev then None
    else Some (cl_class l))) cur).2.

Definition composeExposure (legs : list classLeg) (service : string) : option ExposureValue :=
  internet ← composeLeg legs service "internet";
  internal ← composeLeg legs service "internal";
  Project (Exposure.mkLeg LegValued internet) (Exposure.mkLeg LegValued internal).

Definition exposure_text (v : ExposureValue) : string :=
  match v with Exposed => "exposed" | EdgeOnly => "edge-only" | Firewalled => "firewalled" | Unreachable => "unreachable" end.

Definition exposuresStarted (cur prev : list classLeg) : list CensusEntry :=
  omap (λ svc, after ← composeExposure cur svc;
               match composeExposure prev svc with
               | Some _ => None
               | None => Some (mkEntry subjectKindService svc (exposure_text after))
               end)
    (dedup (once (λ l, Some (cl_subject l))) cur).2.

Definition vantage_ids (class : string) (covered : Addr → bool) (vantages : list vantage_row) : list Z :=
  map vr_ID (filter (λ v, class_text (DeriveClass (default "" (vr_Dialled v)) (default "" (vr_Egress v)) covered) = class) vantages).

Definition vantageClassMessages (batchID observedAt : Z) (changes : list spanChange) (legs : batchLegs) (s : cause_store)
    : list Message.Message :=
  if negb (openedReachLeg changes) then []
  else
    let started := exposuresStarted (bl_cur legs) (bl_prev legs) in
    omap (λ class,
      if ReachFoldedBeforeAtVantages ["hot"%string; "cold"%string] (vantage_ids class (bl_covered legs) (cu_vantages s)) batchID s then None
      else VantageClassWidened class started observedAt)
      (widenedClasses (bl_cur legs) (bl_prev legs)).

(** ** Citations *)

Definition spansOverlap (a b : citation_row) : bool :=
  match cr_ClosedAt a with Some c => After c (cr_OpenedAt b) | None => true end &&
  match cr_ClosedAt b with Some c => After c (cr_OpenedAt a) | None => true end.

Definition citedResolution := (citation_row * list string)%type.
Definition citedRecord := (citation_row * gmap string string)%type.

Definition resolution_of (r : citation_row) : option citedResolution :=
  if negb (String.eqb (cr_Facet r) FacetResolution) then None
  else '(outcome, addrs) ← resolution_value (cr_Value r);
       if String.eqb outcome "Resolved" then Some (r, addrs) else None.

Definition record_of (r : citation_row) : option citedRecord :=
  if negb (String.eqb (cr_Facet r) FacetDNSRecord) then None
  else rrs ← record_values (cr_Value r);
       Some (r, foldl (λ m '(type, data, name), if String.eqb type "A" || String.eqb type "AAAA" then <[data := name]> m else m) ∅ rrs).

Record citationSpans := mkCitations { cz_resolutions : list citedResolution; cz_records : list citedRecord }.

Definition parseCitationSpans (rows : list citation_row) : citationSpans :=
  mkCitations (omap resolution_of rows) (omap record_of rows).

Definition ownerOf (c : citationSpans) (res : citation_row) (addr : string) : string :=
  foldl (λ owner (d : citedRecord),
    if negb (String.eqb (cr_SubjectKey d.1) (cr_SubjectKey res) && bool_decide (cr_VantageID d.1 = cr_VantageID res)) then owner
    else if negb (spansOverlap d.1 res) then owner
    else default owner (d.2 !! addr)) (cr_SubjectKey res) (cz_records c).

Definition citations (c : citationSpans) (keep : citation_row → bool) : list Resolution :=
  CitedResolutions (flat_map (λ r : citedResolution, map (λ a, (ownerOf c r.1 a, a)) r.2)
                      (filter (λ r : citedResolution, keep r.1 = true) (cz_resolutions c))).

(** ** What an extension gains *)

Definition extendingZones (seeds : list (seed_row * bool)) : list string :=
  (dedup (once (λ s : seed_row * bool,
    if negb (String.eqb (sd_Kind s.1) "name") || negb s.2 then None
    else d ← sd_NameDomain s.1;
         let zone := normalizeDomain d in
         if String.eqb zone "" then None else Some zone)) seeds).2.

Definition extendingScopeOf (owner : string) (zones : list string) : string :=
  foldl (λ best zone, if LabelSuffix owner zone && (String.length best <? String.length zone)%nat then zone else best) ""%string zones.

Definition touchesNameCitation (changes : list spanChange) : bool :=
  existsb (λ c, String.eqb (ch_Kind c) subjectKindName &&
                (String.eqb (tl_Facet (ch_Timeline c)) FacetResolution || String.eqb (tl_Facet (ch_Timeline c)) FacetDNSRecord)) changes.

(** [scopeGain]: the covered addresses, and the names that cite each gained one. *)
Record scopeGain := mkScopeGain { sg_covered : gset Addr; sg_gained : gmap string (list string) }.

Definition gain_step (zones : list string) (reached : gset Addr) (m : gmap string scopeGain) (c : Resolution) : gmap string scopeGain :=
  let scope := extendingScopeOf (Owner c) zones in
  let g := default (mkScopeGain ∅ ∅) (m !! scope) in
  let key := Addr_String (Address c) in
  <[scope := mkScopeGain ({[Address c]} ∪ sg_covered g)
               (if bool_decide (Address c ∈ reached) then sg_gained g
                else <[key := default [] (sg_gained g !! key) ++ [Owner c]]> (sg_gained g))]> m.

Definition extension_estate (zones : list string) (resolutions : list Resolution) : Estate :=
  mkEstate [] zones resolutions EdgeFanoutZero [].

(** The order of a map of gains is lost in the census. *)
Definition gain_message (observedAt : Z) (byScope : gmap string scopeGain) (scope : string) : option Message.Message :=
  g ← byScope !! scope;
  ExtensionGained scope (map (λ a, mkGain a (default [] (sg_gained g !! a))) (sorted_keys (dom (sg_gained g))))
    (Z.of_nat (size (sg_covered g))) observedAt.

Definition extension_gains (zones : list string) (observedAt : Z) (rows : list citation_row) : gmap string scopeGain :=
  let cited := parseCitationSpans rows in
  let before := extension_estate zones (citations cited (λ r, Before (cr_OpenedAt r) observedAt)) in
  let after := extension_estate zones (citations cited (λ r, bool_decide (cr_ClosedAt r = None))) in
  foldl (gain_step zones (list_to_set (ExtensionCandidates before))) ∅ (ExtensionCitations after).

Definition extensionGainMessages (observedAt : Z) (changes : list spanChange) (s : cause_store) : list Message.Message :=
  let zones := extendingZones (cu_extensions s) in
  if (length zones =? 0)%nat || negb (touchesNameCitation changes) then []
  else
    let byScope := extension_gains zones observedAt (cu_citations s) in
    omap (gain_message observedAt byScope) (sorted_keys (dom byScope)).

(** ** Derivations that moved *)

Definition alertingDerivation (facet : string) : bool := String.eqb facet FacetResolution || String.eqb facet FacetReachability.

Definition unionLeaves (have more : list string) : list string :=
  sort_strings (foldl (λ acc l, if bool_decide (l ∈ acc) then acc else acc ++ [l]) have more).

Definition rebaseline_step (st : option (gmap string (list string) * list string)) (c : spanChange)
    : option (gmap string (list string) * list string) :=
  '(moved, order) ← st;
  let facet := tl_Facet (ch_Timeline c) in
  if ch_Opened c || (length (ch_PrevVector c) =? 0)%nat || negb (alertingDerivation facet) then Some (moved, order)
  else
    eq ← Vector_Equal (ch_PrevVector c) (ch_Vector c);
    if eq : bool then Some (moved, order)
    else
      Some (<[facet := unionLeaves (default [] (moved !! facet)) (MovedLeaves (ch_PrevVector c) (ch_Vector c))]> moved,
            if bool_decide (is_Some (moved !! facet)) then order else order ++ [facet]).

Definition rebaselineMessages (observedAt : Z) (changes : list spanChange) : option (list Message.Message) :=
  match foldl rebaseline_step (Some (∅, [])) changes with
  | None => None
  | Some (moved, order) =>
      Some (omap (λ facet, Rebaseline facet (default [] (moved !! facet)) (String.eqb facet FacetResolution) observedAt) order)
  end.

(** ** Gaps that close *)

Definition is_closure (c : spanChange) : bool := negb (ch_Opened c) && ch_PrevIsGap c && negb (ch_IsGap c).

Definition addrLess (a b : string) : bool :=
  match ParseAddr a, ParseAddr b with Some pa, Some pb => Addr_Less pa pb | _, _ => str_less a b end.

Definition gapValueLabel (facet value : string) : string :=
  if String.eqb value "" then ""
  else
    match resolution_value value with
    | None => TrimSpace value
    | Some (outcome, addrs) =>
        if String.eqb outcome "" then TrimSpace value
        else if negb (String.eqb facet FacetResolution) || (length addrs =? 0)%nat then outcome
        else (outcome +:+ " " +:+ String.concat ", " (sort_stable addrLess addrs))%string
    end.

(** The names whose open resolution lists the text. *)
Definition citing_names (rows : list citation_row) (addr : string) : list string :=
  flat_map (λ r : citedResolution,
    if bool_decide (is_Some (cr_ClosedAt r.1)) then []
    else map (λ _, cr_SubjectKey r.1) (filter (λ a, a = addr) r.2)) (cz_resolutions (parseCitationSpans rows)).

Definition covering_scope (inp : membershipInputs) (rows : list citation_row) (kind key : string) : string :=
  let own := coveringSeedKey kind key inp in
  if negb (String.eqb own "") then own
  else
    match subjectAddress kind key with
    | None => ""
    | Some addr =>
        let scope := coveringSeedKey subjectKindAddress (Addr_String addr) inp in
        if negb (String.eqb scope "") then scope
        else default "" (List.find (λ scope, negb (String.eqb scope ""))
               (map (λ name, coveringSeedKey subjectKindName name inp) (sort_strings (citing_names rows (Addr_String addr)))))
    end.

Definition gap_services (closed : list spanChange) : list string :=
  (dedup (once (λ c,
    if String.eqb (ch_Kind c) subjectKindService && String.eqb (tl_Facet (ch_Timeline c)) FacetReachability
    then Some (tl_Subject (ch_Timeline c)) else None)) closed).2.

Definition rulesOpenedByGapClose (observedAt : Z) (changes closed : list spanChange) (s : cause_store) : gmap string (list CensusEntry) :=
  let services := gap_services closed in
  let legs := legsFrom (ListServiceReachabilitySpansByClassForServices services (cu_vantages s) (cu_spans s)) (coveredAddressScope s) in
  list_to_map (map (λ svc,
    let after := composeInternetLeg legs svc in
    let reach := mkReach noLeg (CauseRules.mkLeg (bool_decide (is_Some after)) (default "" after)) in
    (svc, Rules (censusWithRules url_Parse ToLower vc observedAt changes svc [] reach (cu_spans s)))) services).

Record firing := mkFiring { fg_kind : string; fg_closures : list GapClosure; fg_rules : list CensusEntry }.

Definition gap_closure (c : spanChange) : GapClosure :=
  let t := ch_Timeline c in
  mkGapClosure (ch_Kind c) (tl_Subject t) (tl_Facet t) (gapValueLabel (tl_Facet t) (default "" (ch_BeforeGap c)))
    (gapValueLabel (tl_Facet t) (ch_Value c)) (ch_BrokeAcrossGap c).

(** Where a closing fires. *)
Definition firing_place (inp : membershipInputs) (rows : list citation_row) (c : spanChange) : string * string :=
  let scope := covering_scope inp rows (ch_Kind c) (tl_Subject (ch_Timeline c)) in
  if String.eqb scope "" then (tl_Subject (ch_Timeline c), ch_Kind c) else (scope, "seed"%string).

Definition gap_step (inp : membershipInputs) (rows : list citation_row) (rules : gmap string (list CensusEntry))
    (m : gmap string firing) (c : spanChange) : gmap string firing :=
  let '(scope, kind) := firing_place inp rows c in
  let f := default (mkFiring kind [] []) (m !! scope) in
  <[scope := mkFiring (fg_kind f) (fg_closures f ++ [gap_closure c])
               (fg_rules f ++ default [] (rules !! tl_Subject (ch_Timeline c)))]> m.

Definition gapCloseMessages (observedAt : Z) (changes : list spanChange) (inp : membershipInputs) (s : cause_store) : list Message.Message :=
  let closed := filter (λ c, is_closure c = true) changes in
  if (length closed =? 0)%nat then []
  else
    let byScope := foldl (gap_step inp (cu_citations s) (rulesOpenedByGapClose observedAt changes closed s)) ∅ closed in
    omap (λ scope, f ← byScope !! scope; GapClosed scope (fg_kind f) (fg_closures f) (fg_rules f) observedAt) (sorted_keys (dom byScope)).

(** ** What was declared *)

Definition declaredInputHeadline (subjectKey sourceKey : string) (timelines : Z) : string :=
  (subjectKey +:+ " withdrawn by declared exclusion " +:+ sourceKey +:+ " · " +:+ FormatInt timelines +:+ " " +:+
   (if (timelines =? 1)%Z then "timeline" else "timelines") +:+ " taken out of the estate")%string.

Definition declaredInputMessages (observedAt : Z) (departures : list departure) : list Message.Message :=
  map (λ d, DeclaredInput (dp_SourceKey d) (declaredInputHeadline (dp_SubjectKey d) (dp_SourceKey d) (dp_Timelines d)) observedAt)
    (filter (λ d, dp_Reason d = ReasonDescoped ∧ dp_SourceKey d ≠ "") departures).

Definition narrowingMessages (observedAt : Z) (narrowings : list NarrowingReceipt) : list Message.Message :=
  omap (λ r, Narrowing r (nr_Scope r) observedAt) narrowings.

(** ** The whole fold *)

Definition cause_window (s : cause_store) : option Z * option Z :=
  FoldedBatchWindow unfoldedBatchKinds (map (λ b, mkFolded (ba_Kind b) (ba_Outcome b) (ba_CreatedAt b)) (cu_batches s)).

Definition buildMessages (batchID observedAt : Z) (changes : list spanChange) (departures : list departure)
    (narrowings : list NarrowingReceipt) (inp : membershipInputs) (holdCensus : bool) (s : cause_store) : option (list Message.Message) :=
  let legs := readBatchLegs changes s in
  let msgs := flagshipMessages observedAt changes legs s in
  let msgs := msgs ++ vantageClassMessages batchID observedAt changes legs s in
  let msgs := msgs ++ membershipMessages batchID observedAt changes inp holdCensus in
  let openings := darkScopeOpenings changes inp in
  let rePointed := rePoints changes in
  let keys := mergeAddressKeys [scopeCandidateAddresses openings; rePointCandidateAddresses rePointed] in
  let citers := ListResolutionCitersForAddresses keys (cu_spans s) in
  let msgs := msgs ++ scopeRevealMessages observedAt openings citers in
  let msgs := msgs ++ rePointMessages batchID observedAt changes rePointed inp citers holdCensus in
  let msgs := msgs ++ extensionGainMessages observedAt changes s in
  rebaselined ← rebaselineMessages observedAt changes;
  let msgs := msgs ++ rebaselined in
  let msgs := msgs ++ gapCloseMessages observedAt changes inp s in
  let msgs := msgs ++ facetMoveMessages url_Parse ToLower vc observedAt changes msgs (cu_spans s) in
  let msgs := msgs ++ signalEdgeMessages url_Parse ToLower vc observedAt changes msgs (cu_annotations s) (cu_spans s) in
  let msgs := msgs ++ certificateLifetimeMessages url_Parse ToLower (cause_window s) observedAt changes msgs (cu_certs s) (cu_annotations s) in
  Some (msgs ++ declaredInputMessages observedAt departures ++ narrowingMessages observedAt narrowings).
End Produce.

(** ** Properties *)

(** Messages that fire where they were asked to. *)
Lemma fired_at_omap (f : string → option Message.Message) (l : list string) :
  (∀ k m, f k = Some m → ms_FiredAt m = k) → map ms_FiredAt (omap f l) = filter (λ k, is_Some (f k)) l.
Proof.
  intros Hf. induction l as [|k l IH]; [done|]. cbn [omap list_omap]. rewrite filter_cons. destruct (f k) as [m|] eqn:E.
  - rewrite decide_True by by eexists. cbn [map]. by rewrite IH, (Hf k m E).
  - rewrite decide_False by by intros []. done.
Qed.

(** *** The internet leg *)

Lemma composeLeg_reach legs svc class :
  composeLeg legs svc class = Some Exposure.Reached ↔ ∃ l, l ∈ legs ∧ cl_subject l = svc ∧ cl_class l = class ∧ cl_outcome l = Exposure.Reached.
Proof.
  unfold composeLeg, ComposeReach.
  assert (∀ outcomes d, (compose_from d outcomes).2 = true ∧ (compose_from d outcomes).1 = Exposure.Reached ↔ Exposure.Reached ∈ outcomes) as Hc.
  { induction outcomes as [|o l IH]; intros d; cbn; [destruct d; cbn; (split; [intros [? ?]; done|by intros ?%not_elem_of_nil])|].
    rewrite elem_of_cons. destruct (String.eqb_spec o Exposure.Reached) as [->|Ho]; [split; auto|]. rewrite IH. split; [auto|].
    intros [?|?]; [congruence|done]. }
  specialize (Hc (map cl_outcome (filter (λ l, cl_subject l = svc ∧ cl_class l = class) legs)) false).
  destruct (compose_from _ _) as [v ok]. cbn [fst snd] in Hc. rewrite list_elem_of_fmap in Hc.
  assert ((if ok : bool then Some v else None) = Some Exposure.Reached ↔ ok = true ∧ v = Exposure.Reached) as -> by (destruct ok; naive_solver).
  rewrite Hc. setoid_rewrite list_elem_of_filter. naive_solver.
Qed.

Lemma composeLeg_notReached legs svc class :
  composeLeg legs svc class = Some Exposure.NotReached ↔
  (∃ l, l ∈ legs ∧ cl_subject l = svc ∧ cl_class l = class ∧ cl_outcome l = Exposure.NotReached) ∧
  ∀ l, l ∈ legs → cl_subject l = svc → cl_class l = class → cl_outcome l ≠ Exposure.Reached.
Proof.
  unfold composeLeg, ComposeReach.
  assert (∀ outcomes d, (compose_from d outcomes).2 = true ∧ (compose_from d outcomes).1 = Exposure.NotReached ↔
                        (d = true ∨ Exposure.NotReached ∈ outcomes) ∧ Exposure.Reached ∉ outcomes) as Hc.
  { induction outcomes as [|o l IH]; intros d; cbn.
    - destruct d; cbn; split; try naive_solver; [intros _; split; [by left|apply not_elem_of_nil]|].
      by intros [[?|?%not_elem_of_nil] _].
    - rewrite !elem_of_cons. destruct (String.eqb_spec o Exposure.Reached) as [->|Ho]; cbn [fst snd].
      + split; [by intros [_ ?]|]. intros [_ Hn]. exfalso. apply Hn. by left.
      + rewrite IH. destruct (String.eqb_spec o Exposure.NotReached) as [->|Hn]; rewrite ?orb_true_r, ?orb_false_r; intuition congruence. }
  specialize (Hc (map cl_outcome (filter (λ l, cl_subject l = svc ∧ cl_class l = class) legs)) false).
  destruct (compose_from _ _) as [v ok]. cbn [fst snd] in Hc. rewrite !list_elem_of_fmap in Hc.
  assert ((if ok : bool then Some v else None) = Some Exposure.NotReached ↔ ok = true ∧ v = Exposure.NotReached) as -> by (destruct ok; naive_solver).
  rewrite Hc. setoid_rewrite list_elem_of_filter. naive_solver.
Qed.

(** *** The batch before and the rows in force *)

Lemma max_of_spec l m : max_of l = Some m ↔ m ∈ l ∧ ∀ x, x ∈ l → x ≤ m.
Proof.
  destruct l as [|a l]; [split; [done|by intros [?%not_elem_of_nil _]]|]. cbn.
  assert (∀ l a, (foldl Z.max a l = a ∨ foldl Z.max a l ∈ l) ∧ a ≤ foldl Z.max a l ∧ ∀ x, x ∈ l → x ≤ foldl Z.max a l) as Hg.
  { clear. induction l as [|b l IH]; intros a; cbn; [split; [by left|split; [lia|by intros ? ?%not_elem_of_nil]]|].
    destruct (IH (Z.max a b)) as (H1 & H2 & H3). split_and!.
    - destruct H1 as [->|?]; [|right; by right]. destruct (Z.max_spec a b) as [[_ ->]|[_ ->]]; [right; by left|by left].
    - lia.
    - intros x [->|Hx]%elem_of_cons; [lia|by apply H3]. }
  destruct (Hg l a) as (H1 & H2 & H3). split.
  - intros [= <-]. split; [rewrite elem_of_cons; destruct H1; auto|]. intros x [->|Hx]%elem_of_cons; [done|by apply H3].
  - intros [Hm Hle]. f_equal. apply Z.le_antisymm.
    + apply Hle. rewrite elem_of_cons. destruct H1; auto.
    + apply elem_of_cons in Hm as [->|?]; [done|by apply H3].
Qed.

(** [t] is the second largest instant of the batches. *)
Definition previous_instant (batches : list cause_batch) (t : Z) : Prop :=
  ∃ b l, b ∈ batches ∧ l ∈ batches ∧ ba_CreatedAt b = t ∧ t < ba_CreatedAt l ∧
    ∀ b', b' ∈ batches → ba_CreatedAt b' ≤ t ∨ ba_CreatedAt b' = ba_CreatedAt l.

Lemma PreviousBatchTime_spec s t : PreviousBatchTime s = Some t ↔ previous_instant (cu_batches s) t.
Proof.
  unfold PreviousBatchTime, previous_instant. destruct (max_of (map ba_CreatedAt (cu_batches s))) as [l|] eqn:El; cbn [mbind option_bind].
  - apply max_of_spec in El as [(bl & -> & Hbl)%list_elem_of_fmap Hle]. rewrite max_of_spec. setoid_rewrite list_elem_of_filter.
    setoid_rewrite list_elem_of_fmap in Hle. setoid_rewrite list_elem_of_fmap. split.
    + intros [[Hlt (b & -> & Hb)] Hm]. exists b, bl. split_and!; try done. intros b' Hb'.
      pose proof (Hle (ba_CreatedAt b') ltac:(eauto)). destruct (decide (ba_CreatedAt b' = ba_CreatedAt bl)); [by right|left].
      apply Hm. split; [lia|eauto].
    + intros (b & l & Hb & Hl & <- & Hlt & Hm). pose proof (Hle (ba_CreatedAt l) ltac:(eauto)).
      assert (ba_CreatedAt bl = ba_CreatedAt l) as El by (destruct (Hm bl Hbl); lia). rewrite El. split; [split; [lia|eauto]|].
      intros x [Hx (b' & -> & Hb')]. destruct (Hm b' Hb'); lia.
  - split; [done|]. intros (b & l & Hb & _). exfalso. destruct (cu_batches s); [by apply not_elem_of_nil in Hb|done].
Qed.

Definition vantage_before (a b : span_row) : bool := default false (vantage_less (sr_VantageID a) (sr_VantageID b)).

#[export] Instance vantage_before_weak : StrictWeak vantage_before.
Proof.
  split; unfold vantage_before; intros *; repeat match goal with |- context [sr_VantageID ?r] => destruct (sr_VantageID r) end;
    cbn; repeat case_match; cbn; bool_to_prop; try done; lia.
Qed.

#[export] Instance reach_less_weak : StrictWeak reach_less.
Proof.
  eapply (strict_weak_ext (lex_less (less_by sr_SubjectKey) (lex_less vantage_before
    (lex_less (λ a b, - sr_OpenedAt a <? - sr_OpenedAt b) (λ a b, - sr_ID a <? - sr_ID b))))).
  2: { apply lex_less_weak; [apply _|]. apply lex_less_weak; [apply _|]. apply lex_less_weak; apply Zltb_weak. }
  intros a b. unfold reach_less, lex_less, less_by, vantage_before.
  assert ((if sr_OpenedAt a =? sr_OpenedAt b then sr_ID b <? sr_ID a else sr_OpenedAt b <? sr_OpenedAt a) =
    (- sr_OpenedAt a <? - sr_OpenedAt b) || negb (- sr_OpenedAt b <? - sr_OpenedAt a) && (- sr_ID a <? - sr_ID b)) as ->.
  { destruct (Z.eqb_spec (sr_OpenedAt a) (sr_OpenedAt b)) as [->|]; [rewrite Z.ltb_irrefl; cbn|];
      repeat match goal with |- context [?x <? ?y] => destruct (Z.ltb_spec x y) end; cbn; done || lia. }
  destruct (String.eqb_spec (sr_SubjectKey a) (sr_SubjectKey b)) as [->|Hne]; cbn [negb].
  - rewrite (less_irrefl str_less). cbn [orb negb andb].
    destruct (sr_VantageID a) as [x|], (sr_VantageID b) as [y|]; cbn; try done.
    rewrite (Z.eqb_sym y x). destruct (Z.eqb_spec x y); cbn; [done|].
    destruct (Z.ltb_spec x y), (Z.ltb_spec y x); cbn; done || lia.
  - destruct (str_less (sr_SubjectKey a) (sr_SubjectKey b)) eqn:E; [done|].
    destruct (str_less (sr_SubjectKey b) (sr_SubjectKey a)) eqn:E'; [done|]. by destruct Hne; apply str_less_total.
Qed.

(** The reach of a service from a vantage, in force now or at an instant. *)
Definition in_force (at_ : option Z) (r : span_row) : bool :=
  match at_ with
  | None => row_open r
  | Some t => (sr_OpenedAt r <=? t) && match sr_ClosedAt r with None => true | Some c => t <? c end
  end.

Definition reach_of (svc : string) (vantage : Z) (at_ : option Z) (r : span_row) : Prop :=
  sr_SubjectKind r = subjectKindService ∧ sr_Facet r = FacetReachability ∧ sr_SubjectKey r = svc ∧
  sr_VantageID r = Some vantage ∧ in_force at_ r = true.

(** Some vantage whose presented addresses make it one of the internet reads the
    service so: the row last opened of those in force says it. *)
Definition internet_reads `{!JSONData} (s : cause_store) (at_ : option Z) (svc outcome : string) : Prop :=
  ∃ v r, v ∈ cu_vantages s ∧ r ∈ st_rows (cu_spans s) ∧
    DeriveClass (default "" (vr_Dialled v)) (default "" (vr_Egress v)) (coveredAddressScope s) = Custody.ClassInternet ∧
    reach_of svc (vr_ID v) at_ r ∧ json_outcome (sr_Value r) = outcome ∧
    ∀ r', r' ∈ st_rows (cu_spans s) → reach_of svc (vr_ID v) at_ r' →
      sr_OpenedAt r' < sr_OpenedAt r ∨ sr_OpenedAt r' = sr_OpenedAt r ∧ sr_ID r' ≤ sr_ID r.

(** The primary keys of the two tables. *)
Definition cause_keys (s : cause_store) : Prop :=
  NoDup (map sr_ID (st_rows (cu_spans s))) ∧ NoDup (map vr_ID (cu_vantages s)).

Definition with_vantage (vantages : list vantage_row) (r : span_row) : option (span_row * vantage_row) :=
  v ← (id ← sr_VantageID r; List.find (λ v, vr_ID v =? id) vantages); Some (r, v).

Lemma with_vantage_spec vantages r p : NoDup (map vr_ID vantages) →
  with_vantage vantages r = Some p ↔ p.1 = r ∧ p.2 ∈ vantages ∧ sr_VantageID r = Some (vr_ID p.2).
Proof.
  intros Hnd. unfold with_vantage. destruct p as [r' v]; cbn. destruct (sr_VantageID r) as [id|]; cbn; [|naive_solver].
  destruct (List.find _ vantages) as [w|] eqn:E; cbn.
  - apply find_some in E as [Hw Ew%Z.eqb_eq]. apply list_elem_of_In in Hw. split; [by intros [= <- <-]; rewrite Ew|].
    intros (-> & Hv & [= ->]). do 2 f_equal. by eapply (NoDup_map_inj vr_ID).
  - split; [done|]. intros (-> & Hv & [= ->]). apply list_elem_of_In, (find_none _ _ E), Z.eqb_neq in Hv. done.
Qed.

(** Of two rows of one leg the later opened stands first. *)
Lemma reach_less_same a b : sr_SubjectKey a = sr_SubjectKey b → sr_VantageID a = sr_VantageID b → reach_less a b = false →
  sr_OpenedAt a < sr_OpenedAt b ∨ sr_OpenedAt a = sr_OpenedAt b ∧ sr_ID a ≤ sr_ID b.
Proof.
  intros Es Ev. unfold reach_less. rewrite Es, Ev, String.eqb_refl. cbn [negb].
  assert (vantage_less (sr_VantageID b) (sr_VantageID b) = None) as ->.
  { destruct (sr_VantageID b); cbn; [by rewrite Z.eqb_refl|done]. }
  destruct (Z.eqb_spec (sr_OpenedAt a) (sr_OpenedAt b)); bool_to_prop; lia.
Qed.

Lemma joined_sorted vantages l : NoDup (map vr_ID vantages) → StronglySorted (not_after reach_less) l →
  StronglySorted (not_after (λ x y, reach_less x.1 y.1)) (omap (with_vantage vantages) l).
Proof.
  intros Hnd. induction 1 as [|r l Hl IH Hr]; cbn; [constructor|]. destruct (with_vantage vantages r) as [p|] eqn:E; [|done].
  apply with_vantage_spec in E as (<- & _); [|done]. constructor; [done|]. rewrite Forall_forall in Hr. apply Forall_forall.
  intros q (r' & Hr' & (<- & _)%with_vantage_spec)%list_elem_of_omap; [|done]. by apply Hr.
Qed.

Lemma reach_rows_elem keep vantages s row :
  NoDup (map sr_ID (st_rows s)) → NoDup (map vr_ID vantages) →
  row ∈ reach_rows keep vantages s ↔
  ∃ r v, v ∈ vantages ∧ r ∈ st_rows s ∧ keep r = true ∧ sr_VantageID r = Some (vr_ID v) ∧
    row = mkReachRow (sr_SubjectKey r) (sr_Value r) (default "" (vr_Dialled v)) (default "" (vr_Egress v)) ∧
    ∀ r', r' ∈ st_rows s → keep r' = true → sr_SubjectKey r' = sr_SubjectKey r → sr_VantageID r' = sr_VantageID r →
      sr_OpenedAt r' < sr_OpenedAt r ∨ sr_OpenedAt r' = sr_OpenedAt r ∧ sr_ID r' ≤ sr_ID r.
Proof.
  intros Hids Hvs. unfold reach_rows. set (key := λ rv : span_row * vantage_row, (sr_SubjectKey rv.1, sr_VantageID rv.1)).
  fold (with_vantage vantages). set (l := omap _ _).
  assert (StronglySorted (not_after (λ x y, reach_less x.1 y.1)) l) as Hs by (apply joined_sorted; [done|apply (sort_stable_Sorted reach_less)]).
  assert (∀ p, p ∈ l ↔ p.1 ∈ st_rows s ∧ keep p.1 = true ∧ p.2 ∈ vantages ∧ sr_VantageID p.1 = Some (vr_ID p.2)) as Hl.
  { intros p. unfold l. rewrite list_elem_of_omap. setoid_rewrite (with_vantage_spec _ _ _ Hvs).
    setoid_rewrite sort_stable_elem. setoid_rewrite list_elem_of_filter. split; [intros (r & [] & <- & ? & ?); done|].
    intros (? & ? & ? & ?). by exists p.1. }
  assert (StrictWeak (λ x y : span_row * vantage_row, reach_less x.1 y.1)) as Hweak.
  { split; intros *; [apply sw_asym|apply sw_trans]. }
  clearbody l. rewrite list_elem_of_fmap. split.
  - intros (p & -> & Hp). change (λ rv : span_row * vantage_row, _) with (λ rv, Some (key rv, rv)) in Hp.
    apply (firsts_least (λ x y, reach_less x.1 y.1) key) in Hp as [Hp Hleast]; [|done]. apply Hl in Hp as (Hr & Hk & Hv & Ev).
    exists p.1, p.2. split_and!; try done. intros r' Hr' Hk' Es Er.
    assert (reach_less r' p.1 = false) as Hn.
    { apply (Hleast (r', p.2)); [|by unfold key; cbn; rewrite Es, Er]. apply Hl. cbn. split_and!; try done. by rewrite Er. }
    by apply reach_less_same in Hn.
  - intros (r & v & Hv & Hr & Hk & Ev & -> & Hleast). exists (r, v). split; [done|].
    assert ((r, v) ∈ l) as Hin by (by apply Hl).
    destruct (firsts_has key l (r, v) Hin) as ([r' v'] & Hp & [= Es Er]). cbn in Es, Er.
    pose proof Hp as [Hp' Hmin]%(firsts_least (λ x y, reach_less x.1 y.1) key); [|done].
    pose proof (Hmin (r, v) Hin ltac:(unfold key; cbn; congruence)) as Hn. cbn in Hn.
    apply Hl in Hp' as (Hr' & Hk' & Hv' & Ev'). cbn in Hr', Hk', Hv', Ev'.
    apply reach_less_same in Hn; [|congruence..]. pose proof (Hleast r' Hr' Hk' Es Er).
    assert (r' = r) as -> by (apply (NoDup_map_inj sr_ID (st_rows s)); done || lia).
    assert (v' = v) as -> by (apply (NoDup_map_inj vr_ID vantages); done || congruence). done.
Qed.

(** Some vantage of the internet reads the service so. *)
Definition reads (legs : list classLeg) (svc outcome : string) : Prop :=
  ∃ l, l ∈ legs ∧ cl_subject l = svc ∧ cl_class l = "internet" ∧ cl_outcome l = outcome.

Lemma class_text_internet c : class_text c = "internet" ↔ c = Custody.ClassInternet.
Proof. destruct c; cbn; split; done. Qed.

(** The legs of a fold, from its rows. *)
Lemma reads_legs `{!JSONData} (s : cause_store) keep at_ svc outcome : cause_keys s →
  (∀ r, sr_SubjectKey r = svc → keep r = true ↔
     sr_SubjectKind r = subjectKindService ∧ sr_Facet r = FacetReachability ∧ in_force at_ r = true) →
  reads (legsFrom (reach_rows keep (cu_vantages s) (cu_spans s)) (coveredAddressScope s)) svc outcome ↔ internet_reads s at_ svc outcome.
Proof.
  intros [Hids Hvs] Hkeep. unfold reads, internet_reads, legsFrom, reachOutcome, reach_of. setoid_rewrite list_elem_of_fmap. split.
  - intros (l & (row & -> & Hrow) & Es & Ec & Eo). apply reach_rows_elem in Hrow as (r & v & Hv & Hr & Hk & Ev & -> & Hmax); [|done..].
    cbn in Es, Ec, Eo. apply class_text_internet in Ec. exists v, r.
    pose proof (proj1 (Hkeep r Es) Hk) as (? & ? & ?). split_and!; try done.
    intros r' Hr' (? & ? & Es' & Ev' & ?). apply Hmax; [done|by apply Hkeep|congruence..].
  - intros (v & r & Hv & Hr & Ec & (? & ? & Es & Ev & ?) & Eo & Hmax).
    exists (mkClassLeg (sr_SubjectKey r) (class_text (DeriveClass (default "" (vr_Dialled v)) (default "" (vr_Egress v)) (coveredAddressScope s)))
              (json_outcome (sr_Value r))). split_and!; cbn; [|done|by apply class_text_internet|done].
    exists (mkReachRow (sr_SubjectKey r) (sr_Value r) (default "" (vr_Dialled v)) (default "" (vr_Egress v))). split; [done|].
    apply reach_rows_elem; [done..|]. exists r, v. split_and!; try done; [by apply Hkeep|].
    intros r' Hr' Hk' Es' Ev'. assert (sr_SubjectKey r' = svc) as Es'' by congruence.
    pose proof (proj1 (Hkeep r' Es'') Hk') as (? & ? & ?). apply Hmax; [done|]. split_and!; congruence.
Qed.

Lemma is_reach_row_spec services svc r : svc ∈ services → sr_SubjectKey r = svc →
  is_reach_row services r = true ↔ sr_SubjectKind r = subjectKindService ∧ sr_Facet r = FacetReachability.
Proof.
  intros Hs E. unfold is_reach_row. rewrite E, bool_decide_eq_true_2 by done. rewrite andb_true_r, andb_true_iff, !String.eqb_eq. done.
Qed.

Section Spec.
Context {U : UnicodeCase} {JD : JSONData} {JC : JSONCited} {JA : JSONAddresses} {JV : JSONCause} {UF : UnicodeFold} {FJ : FactsJSON}.
Variable url_Parse : string → option (string * string).
Variable ToLower : string → string.
Variable vc : VergeCore.List.

Lemma flagship_message_spec observedAt changes legs s svc :
  (∃ m, flagship_message url_Parse ToLower vc observedAt changes legs s svc = Some m) ↔
  composeInternetLeg (bl_cur legs) svc = Some Exposure.Reached ∧ composeInternetLeg (bl_prev legs) svc = Some Exposure.NotReached.
Proof.
  unfold flagship_message. destruct (composeInternetLeg (bl_cur legs) svc) as [after|]; cbn [mbind option_bind]; [|naive_solver].
  destruct (composeInternetLeg (bl_prev legs) svc) as [before|]; cbn [mbind option_bind]; [|naive_solver].
  unfold Exposure.Flagship. destruct (String.eqb_spec before Exposure.NotReached) as [->|]; cbn [negb andb]; [|naive_solver].
  destruct (String.eqb_spec after Exposure.Reached) as [->|]; cbn [negb andb]; [|naive_solver].
  unfold Message.Flagship. cbn. split; [done|]. intros _. by eexists.
Qed.

Lemma flagship_message_at observedAt changes legs s svc m :
  flagship_message url_Parse ToLower vc observedAt changes legs s svc = Some m → ms_FiredAt m = svc.
Proof.
  unfold flagship_message. intros (after & _ & (before & _ & H)%bind_Some)%bind_Some. destruct (negb _); [done|].
  unfold Message.Flagship in H. cbn in H. by injection H as <-.
Qed.

Lemma flagship_candidates changes svc : svc ∈ flagshipCandidateServices changes ↔
  svc ≠ "" ∧ ∃ c, c ∈ changes ∧ tl_Facet (ch_Timeline c) = FacetReachability ∧ tl_Subject (ch_Timeline c) = svc.
Proof.
  unfold flagshipCandidateServices. match goal with |- context [once ?k] => destruct (once_spec k changes) as [_ ->] end. split.
  - intros (c & Hc & E). destruct (String.eqb_spec (tl_Facet (ch_Timeline c)) FacetReachability); cbn [negb orb] in E; [|done].
    destruct (String.eqb_spec (tl_Subject (ch_Timeline c)) ""); [done|]. injection E as <-. eauto.
  - intros (Hne & c & Hc & Ef & Es). exists c. split; [done|]. rewrite Ef, String.eqb_refl, Es. cbn [negb orb].
    by rewrite (proj2 (String.eqb_neq _ _) Hne).
Qed.

(** The legs the fold reads are those of the rows in force: now, and at the
    instant of the batch before. *)
Lemma readBatchLegs_reads changes s svc outcome : cause_keys s → svc ∈ flagshipCandidateServices changes →
  (reads (bl_cur (readBatchLegs changes s)) svc outcome ↔ internet_reads s None svc outcome) ∧
  (reads (bl_prev (readBatchLegs changes s)) svc outcome ↔
     ∃ t, PreviousBatchTime s = Some t ∧ internet_reads s (Some t) svc outcome).
Proof.
  intros Hk Hs. unfold readBatchLegs. destruct (Nat.eqb_spec (length (flagshipCandidateServices changes)) 0) as [E|_].
  { apply nil_length_inv in E. rewrite E in Hs. by apply not_elem_of_nil in Hs. }
  cbn [bl_cur bl_prev]. split.
  - apply reads_legs; [done|]. intros r Er. rewrite andb_true_iff, (is_reach_row_spec _ svc) by done. cbn. tauto.
  - destruct (PreviousBatchTime s) as [t|].
    + unfold ListServiceReachabilitySpansByClassAtForServices. rewrite (reads_legs s _ (Some t)); [|done|].
      * split; [by eexists|]. by intros (? & [= <-] & ?).
      * intros r Er. rewrite <- andb_assoc, andb_true_iff, (is_reach_row_spec _ svc) by done. cbn. tauto.
    + split; [by intros (? & ?%not_elem_of_nil & _)|by intros (? & ? & _)].
Qed.

(** [C19] The flagship message, from the rows of the store: a service gets one,
    and never two, exactly when this fold changed a timeline of its reach, the
    reach in force now at some vantage of the internet is [reached], and at the
    creation of the batch before (the second latest instant at which any batch was
    created) the reach in force at some vantage of the internet was [not-reached]
    and at none [reached].  Of the rows of one vantage in force at once the last
    opened is the one read; the ids of the rows and of the vantages are keys. *)
Theorem flagship_fires_on_the_move observedAt changes s :
  cause_keys s →
  let fired := map ms_FiredAt (flagshipMessages url_Parse ToLower vc observedAt changes (readBatchLegs changes s) s) in
  NoDup fired ∧
  ∀ svc, svc ∈ fired ↔
    svc ≠ "" ∧ (∃ c, c ∈ changes ∧ tl_Facet (ch_Timeline c) = FacetReachability ∧ tl_Subject (ch_Timeline c) = svc) ∧
    internet_reads s None svc Exposure.Reached ∧
    ∃ t, previous_instant (cu_batches s) t ∧
      internet_reads s (Some t) svc Exposure.NotReached ∧ ¬ internet_reads s (Some t) svc Exposure.Reached.
Proof.
  intros Hk fired. set (legs := readBatchLegs changes s) in *.
  assert (bl_services legs = flagshipCandidateServices changes) as Hserv.
  { unfold legs, readBatchLegs. destruct (length _ =? 0)%nat eqn:E; [|done]. by apply Nat.eqb_eq, nil_length_inv in E. }
  unfold fired, flagshipMessages. rewrite Hserv, fired_at_omap by (intros; by eapply flagship_message_at).
  split; [apply NoDup_filter; unfold flagshipCandidateServices; match goal with |- context [once ?k] => apply (once_spec k) end|].
  intros svc. rewrite list_elem_of_filter. unfold is_Some. rewrite flagship_message_spec. unfold composeInternetLeg.
  rewrite composeLeg_reach, composeLeg_notReached.
  change (∃ l, l ∈ bl_cur legs ∧ _) with (reads (bl_cur legs) svc Exposure.Reached).
  change (∃ l, l ∈ bl_prev legs ∧ _) with (reads (bl_prev legs) svc Exposure.NotReached).
  assert ((∀ l, l ∈ bl_prev legs → cl_subject l = svc → cl_class l = "internet" → cl_outcome l ≠ Exposure.Reached) ↔
    ¬ reads (bl_prev legs) svc Exposure.Reached) as -> by (unfold reads; naive_solver).
  rewrite flagship_candidates. setoid_rewrite <- PreviousBatchTime_spec. split.
  - intros [[Hr [Hn Hno]] [Hne Hc]]. assert (svc ∈ flagshipCandidateServices changes) as Hs by (by apply flagship_candidates).
    destruct (readBatchLegs_reads changes s svc Exposure.Reached Hk Hs) as [H1 H2].
    destruct (readBatchLegs_reads changes s svc Exposure.NotReached Hk Hs) as [_ H3].
    apply H1 in Hr. apply H3 in Hn as (t & Ht & Hn). split_and!; [done..|]. exists t. split_and!; [done..|].
    intros Hr'. apply Hno, H2. eauto.
  - intros (Hne & Hc & Hr & t & Ht & Hn & Hno). assert (svc ∈ flagshipCandidateServices changes) as Hs by (by apply flagship_candidates).
    destruct (readBatchLegs_reads changes s svc Exposure.Reached Hk Hs) as [H1 H2].
    destruct (readBatchLegs_reads changes s svc Exposure.NotReached Hk Hs) as [_ H3].
    split_and!; [by apply H1|apply H3; eauto| |done..]. intros (t' & Ht' & Hr')%H2. congruence.
Qed.

(** *** Gaps *)

Lemma gap_fold inp rows rules closed scope :
  fg_closures <$> foldl (gap_step inp rows rules) ∅ closed !! scope =
  match filter (λ c, (firing_place inp rows c).1 = scope) closed with [] => None | cs => Some (map gap_closure cs) end.
Proof.
  induction closed as [|c l IH] using rev_ind; [done|]. rewrite foldl_app, filter_app. cbn [foldl]. set (m := foldl _ ∅ l) in *.
  rewrite filter_cons, filter_nil. unfold gap_step. destruct (firing_place inp rows c) as [sc kind]. cbn [fst].
  destruct (decide (sc = scope)) as [->|Hne].
  - rewrite lookup_insert_eq. cbn [fmap option_fmap option_map fg_closures].
    destruct (m !! scope) as [f|], (filter _ l) as [|c' cs]; cbn [fmap option_fmap option_map] in IH; try done.
    injection IH as IH. cbn [from_option id fg_closures app]. rewrite IH. f_equal. change (c' :: cs ++ [c]) with ((c' :: cs) ++ [c]). by rewrite map_app.
  - rewrite lookup_insert_ne by done. by rewrite app_nil_r.
Qed.

Lemma GapClosed_at scope kind closures rules at_ m : GapClosed scope kind closures rules at_ = Some m → ms_FiredAt m = scope.
Proof. unfold GapClosed. destruct closures; [done|]. by intros [= <-]. Qed.

(** Every gap that a fold closes is told in exactly one message: the messages
    are one for each place a closing fires at, its covering scope or itself, in
    order, and the message of a place is made of the closings of that place, in
    the order of the fold. *)
Theorem gap_closings_told_once observedAt changes inp s :
  let closed := filter (λ c, is_closure c = true) changes in
  let place c := (firing_place inp (cu_citations s) c).1 in
  let msgs := gapCloseMessages url_Parse ToLower vc observedAt changes inp s in
  map ms_FiredAt msgs = sorted_keys (list_to_set (map place closed)) ∧
  ∀ c, c ∈ closed → ∃ kind rules m, m ∈ msgs ∧
    GapClosed (place c) kind (map gap_closure (filter (λ c', place c' = place c) closed)) rules observedAt = Some m.
Proof.
  intros closed place msgs. unfold msgs, gapCloseMessages. fold closed.
  destruct (Nat.eqb_spec (length closed) 0) as [E|E].
  { apply nil_length_inv in E. rewrite E. split; [done|]. by intros c ?%not_elem_of_nil. }
  set (rules := rulesOpenedByGapClose _ _ _ _ _ _ _). set (byScope := foldl (gap_step inp (cu_citations s) rules) ∅ closed).
  assert (∀ scope, fg_closures <$> byScope !! scope =
    match filter (λ c, place c = scope) closed with [] => None | cs => Some (map gap_closure cs) end) as Hfold by (intros; apply gap_fold).
  assert (dom byScope = list_to_set (map place closed)) as Hdom.
  { apply set_eq. intros scope. rewrite elem_of_dom, elem_of_list_to_set, list_elem_of_fmap. specialize (Hfold scope).
    split.
    - intros [f Hf]. rewrite Hf in Hfold. cbn in Hfold. destruct (filter _ closed) as [|c cs] eqn:Ef; [done|].
      assert (c ∈ c :: cs) as Hc by left. rewrite <- Ef in Hc. apply list_elem_of_filter in Hc as [<- Hc]. eauto.
    - intros (c & -> & Hc). destruct (byScope !! place c); [by eexists|]. cbn in Hfold.
      assert (c ∈ filter (λ c', place c' = place c) closed) as Hin by (by apply list_elem_of_filter).
      destruct (filter _ closed); [by apply not_elem_of_nil in Hin|done]. }
  rewrite Hdom. set (message := λ scope, f ← byScope !! scope; GapClosed scope (fg_kind f) (fg_closures f) (fg_rules f) observedAt).
  assert (∀ c, c ∈ closed → ∃ kind rules' m, message (place c) = Some m ∧
    GapClosed (place c) kind (map gap_closure (filter (λ c', place c' = place c) closed)) rules' observedAt = Some m) as Hmsg.
  { intros c Hc. specialize (Hfold (place c)).
    assert (c ∈ filter (λ c', place c' = place c) closed) as Hin by (by apply list_elem_of_filter).
    unfold message. destruct (byScope !! place c) as [f|]; cbn [fmap option_fmap option_map mbind option_bind] in *.
    - destruct (filter _ closed) as [|c' cs]; [by apply not_elem_of_nil in Hin|]. injection Hfold as ->.
      exists (fg_kind f), (fg_rules f). by eexists.
    - destruct (filter _ closed); [by apply not_elem_of_nil in Hin|done]. }
  split.
  - rewrite fired_at_omap.
    + assert (∀ l : list string, (∀ k, k ∈ l → k ∈ map place closed) → filter (λ k, is_Some (message k)) l = l) as Hall.
      { induction l as [|k l IH]; intros Hk; [done|]. rewrite filter_cons, decide_True.
        - by rewrite IH by (intros; apply Hk; by right).
        - destruct (proj1 (list_elem_of_fmap _ _ _) (Hk k ltac:(by left))) as (c & -> & Hc).
          destruct (Hmsg c Hc) as (_ & _ & m & -> & _). by eexists. }
      apply Hall. intros k. rewrite elem_of_sorted_keys. apply elem_of_list_to_set.
    + intros k m. unfold message. intros (f & _ & Hm)%bind_Some. by eapply GapClosed_at.
  - intros c Hc. destruct (Hmsg c Hc) as (kind & rules' & m & Hm & Hg). exists kind, rules', m. split; [|done].
    apply list_elem_of_omap. exists (place c). split; [|done]. rewrite elem_of_sorted_keys, elem_of_list_to_set. by apply list_elem_of_fmap_2.
Qed.

(** *** What an extension gains *)

Lemma gain_fold zones reached cs scope :
  let m := foldl (gain_step zones reached) ∅ cs in
  (is_Some (m !! scope) ↔ ∃ c, c ∈ cs ∧ extendingScopeOf (Owner c) zones = scope) ∧
  ∀ g, m !! scope = Some g → ∀ key, key ∈ dom (sg_gained g) ↔
    ∃ c, c ∈ cs ∧ extendingScopeOf (Owner c) zones = scope ∧ Address c ∉ reached ∧ Addr_String (Address c) = key.
Proof.
  cbv zeta. induction cs as [|c cs [IH1 IH2]] using rev_ind.
  { cbn. rewrite lookup_empty. split; [split; [by intros []|by intros (? & ?%not_elem_of_nil & _)]|done]. }
  rewrite foldl_app. cbn [foldl]. set (m := foldl _ ∅ cs) in *. setoid_rewrite elem_of_app. setoid_rewrite list_elem_of_singleton.
  unfold gain_step. destruct (decide (extendingScopeOf (Owner c) zones = scope)) as [Es|Es].
  - rewrite Es, lookup_insert_eq. split; [split; [intros _; exists c; auto|by eexists]|].
    intros g [= <-] key. cbn [sg_gained].
    assert (key ∈ dom (sg_gained (default (mkScopeGain ∅ ∅) (m !! scope))) ↔
      ∃ c, c ∈ cs ∧ extendingScopeOf (Owner c) zones = scope ∧ Address c ∉ reached ∧ Addr_String (Address c) = key) as Hold.
    { destruct (m !! scope) as [g|]; cbn [from_option id]; [by apply IH2|]. cbn [sg_gained]. rewrite dom_empty.
      split; [set_solver|]. intros (c' & Hc & E & _). exfalso.
      assert (is_Some (None : option scopeGain)) as [? ?]; [|done]. apply IH1. eauto. }
    case_bool_decide as Hr.
    + rewrite Hold. split; [intros (c' & ? & ?); exists c'; split; [by left|done]|].
      intros (c' & [?| ->] & ? & ? & ?); [by exists c'|done].
    + rewrite dom_insert, elem_of_union, elem_of_singleton, Hold. split.
      * intros [->|(c' & ? & ?)]; [exists c; split_and!; auto|exists c'; split; [by left|done]].
      * intros (c' & [?| ->] & ? & ? & ?); [right; by exists c'|by left].
  - rewrite lookup_insert_ne by done. rewrite IH1. split.
    + split; [intros (c' & ? & ?); exists c'; split; [by left|done]|]. intros (c' & [?| ->] & ?); [by exists c'|done].
    + intros g Hg key. rewrite (IH2 g Hg). split; [intros (c' & ? & ?); exists c'; split; [by left|done]|].
      intros (c' & [?| ->] & ? & ?); [by exists c'|done].
Qed.

Lemma ExtensionGained_spec scope gains covered at_ m :
  ExtensionGained scope gains covered at_ = Some m →
  ms_FiredAt m = scope ∧ ∃ census, ms_Census m = Some census ∧
    ∀ key, (∃ e, e ∈ census ∧ ce_Key e = key) ↔ ∃ g, g ∈ gains ∧ eg_Address g = key.
Proof.
  unfold ExtensionGained. destruct gains as [|g0 gains]; [done|]. set (gs := g0 :: gains). intros [= <-]. split; [done|].
  exists (NewCensus (map (λ g, mkEntry KindAddress (eg_Address g) (String.concat ", " (sort_strings (eg_Names g)))) gs)).
  split; [done|]. intros key. unfold NewCensus. setoid_rewrite sort_stable_elem. split.
  - intros (e & (g & -> & Hg)%list_elem_of_fmap & <-). by exists g.
  - intros (g & Hg & <-). eexists. split; [apply list_elem_of_fmap; by exists g|done].
Qed.

(** The gains of a custody extension: while some zone extends and the fold
    touched what a name cites, an address is told under a zone exactly when a name
    of that zone's cites it now and the extension reached it by no citation that
    stood just before the fold; otherwise no gain is told. *)
Theorem extension_tells_its_gains observedAt changes s :
  let zones := extendingZones (cu_extensions s) in
  let cited := parseCitationSpans (cu_citations s) in
  let before := extension_estate zones (citations cited (λ r, Before (cr_OpenedAt r) observedAt)) in
  let after := extension_estate zones (citations cited (λ r, bool_decide (cr_ClosedAt r = None))) in
  ∀ scope key,
    (∃ m census e, m ∈ extensionGainMessages observedAt changes s ∧ ms_FiredAt m = scope ∧ ms_Census m = Some census ∧
       e ∈ census ∧ ce_Key e = key) ↔
    zones ≠ [] ∧ touchesNameCitation changes = true ∧
    ∃ c, c ∈ ExtensionCitations after ∧ extendingScopeOf (Owner c) zones = scope ∧ Addr_String (Address c) = key ∧
         Address c ∉ ExtensionCandidates before.
Proof.
  intros zones cited before after scope key. unfold extensionGainMessages. fold zones.
  destruct (Nat.eqb_spec (length zones) 0) as [E|E]; cbn [orb].
  { apply nil_length_inv in E. rewrite E. split; [by intros (? & ? & ? & ?%not_elem_of_nil & _)|by intros [? _]]. }
  assert (zones ≠ []) as Hz by (by intros ->).
  destruct (touchesNameCitation changes); cbn [negb]; [|split; [by intros (? & ? & ? & ?%not_elem_of_nil & _)|by intros (_ & ? & _)]].
  assert (extension_gains zones observedAt (cu_citations s) =
    foldl (gain_step zones (list_to_set (ExtensionCandidates before))) ∅ (ExtensionCitations after)) as -> by done.
  set (byScope := foldl _ ∅ _).
  assert (∀ sc, (is_Some (byScope !! sc) ↔ ∃ c, c ∈ ExtensionCitations after ∧ extendingScopeOf (Owner c) zones = sc) ∧
    ∀ g, byScope !! sc = Some g → ∀ k, k ∈ dom (sg_gained g) ↔
      ∃ c, c ∈ ExtensionCitations after ∧ extendingScopeOf (Owner c) zones = sc ∧ Address c ∉ (list_to_set (ExtensionCandidates before) : gset Addr) ∧
           Addr_String (Address c) = k) as Hfold by (intros; apply gain_fold).
  clearbody byScope. split.
  - intros (m & census & e & Hm & Hf & Hc & He & Hk). split_and!; [done..|].
    apply list_elem_of_omap in Hm as (sc & Hsc & Hm). unfold gain_message in Hm.
    destruct (byScope !! sc) as [g|] eqn:Eg; [|done]. cbn [mbind option_bind] in Hm.
    apply ExtensionGained_spec in Hm as [E1 (census' & E2 & Hspec)]. assert (sc = scope) as -> by congruence.
    assert (census' = census) as -> by congruence. destruct (proj1 (Hspec key)) as (gn & Hgn & Ek); [by exists e|].
    apply list_elem_of_fmap in Hgn as (a & -> & Ha). cbn in Ek. subst a. rewrite elem_of_sorted_keys in Ha.
    destruct (Hfold scope) as [_ Hg]. apply (Hg g Eg) in Ha as (c & ? & ? & Hn & ?). exists c. split_and!; try done.
    by rewrite elem_of_list_to_set in Hn.
  - intros (_ & _ & c & Hc & Es & Ek & Hn). destruct (Hfold scope) as [Hsome Hg].
    assert (is_Some (byScope !! scope)) as [g Eg] by (apply Hsome; eauto).
    assert (key ∈ dom (sg_gained g)) as Hkey.
    { apply (Hg g Eg). exists c. split_and!; try done. by rewrite elem_of_list_to_set. }
    set (gains := map (λ a, mkGain a (default [] (sg_gained g !! a))) (sorted_keys (dom (sg_gained g)))).
    assert (mkGain key (default [] (sg_gained g !! key)) ∈ gains) as Hin.
    { apply list_elem_of_fmap. exists key. split; [done|]. by rewrite elem_of_sorted_keys. }
    assert (∃ m, ExtensionGained scope gains (Z.of_nat (size (sg_covered g))) observedAt = Some m) as [m Hm].
    { unfold ExtensionGained. destruct gains; [by apply not_elem_of_nil in Hin|]. by eexists. }
    pose proof (ExtensionGained_spec _ _ _ _ _ Hm) as [Ef (census & Ec & Hspec)].
    destruct (proj2 (Hspec key)) as (e & He & Eke); [by eexists|].
    exists m, census, e. split_and!; try done. apply list_elem_of_omap. exists scope. split.
    + rewrite elem_of_sorted_keys. apply elem_of_dom. by eexists.
    + unfold gain_message. by rewrite Eg.
Qed.

(** *** Dark ground *)

Lemma open_citers keys sp addr : addr ∈ keys →
  addr ∉ addressesWithOpenCiters (ListResolutionCitersForAddresses keys sp) ↔ ∀ r, r ∈ st_rows sp → cites sp addr r = false.
Proof.
  intros Hk. unfold addressesWithOpenCiters, ListResolutionCitersForAddresses. rewrite elem_of_list_to_set, list_elem_of_fmap.
  setoid_rewrite list_elem_of_In. setoid_rewrite in_flat_map. setoid_rewrite <- list_elem_of_In. split.
  - intros Hn r Hr. apply not_true_iff_false. intros Hc. apply Hn. exists (citer_of addr r). split; [done|].
    exists addr. split; [done|]. apply list_elem_of_fmap. exists r. split; [done|]. by apply list_elem_of_filter.
  - intros Hall (c & -> & a & Ha & (r & -> & [Hc Hr]%list_elem_of_filter)%list_elem_of_fmap). cbn in Hall. by rewrite Hall in Hc.
Qed.

(** [C22] Declared ground that no name cites is told, by the fold's own reads: a
    service or endpoint is in the census of a revealed scope exactly when the fold
    opened it at a bare address that no exclusion covers and no value of the fold
    cites, that scope is the first of the declared scopes, in the order of the
    seeds, that holds the address (an address inside two nested scopes is told
    under that one alone), no root of the fold lies above the subject, and no
    resolution open after the fold cites the address, one that is a gap citing
    what it did before.  Each scope fires once. *)
Theorem dark_ground_is_told observedAt changes inp (s : cause_store) :
  let openings := darkScopeOpenings changes inp in
  let keys := mergeAddressKeys [scopeCandidateAddresses openings; rePointCandidateAddresses (rePoints changes)] in
  let msgs := scopeRevealMessages observedAt openings (ListResolutionCitersForAddresses keys (cu_spans s)) in
  NoDup (map ms_FiredAt msgs) ∧
  ∀ scope kind key,
    (∃ m census, m ∈ msgs ∧ ms_FiredAt m = scope ∧ ms_Census m = Some census ∧ mkEntry kind key "" ∈ census) ↔
    ∃ c addrKey, c ∈ changes ∧
      dark_at (foldCitedAddresses changes) (map root_of (foldMembershipRoots changes)) inp c kind key scope addrKey ∧
      ∀ r, r ∈ st_rows (cu_spans s) → cites (cu_spans s) addrKey r = false.
Proof.
  intros openings keys msgs.
  destruct (scope_reveal_spec observedAt changes inp (ListResolutionCitersForAddresses keys (cu_spans s))) as [Hnd Hspec].
  split; [done|]. intros scope kind key. unfold msgs, openings. rewrite Hspec.
  assert (∀ c addrKey, c ∈ changes →
    dark_at (foldCitedAddresses changes) (map root_of (foldMembershipRoots changes)) inp c kind key scope addrKey → addrKey ∈ keys) as Hin.
  { intros c addrKey Hc Hd%dark_candidate_iff. unfold keys, mergeAddressKeys.
    assert (mkCandidate scope kind key addrKey ∈ openings) as Ho by (apply dark_candidates; eauto).
    rewrite elem_of_sorted_keys, elem_of_list_to_set. cbn [concat]. rewrite elem_of_app. left. unfold scopeCandidateAddresses.
    rewrite elem_of_sorted_keys, elem_of_list_to_set. apply list_elem_of_fmap. by exists (mkCandidate scope kind key addrKey). }
  split; intros (c & addrKey & Hc & Hd & Hno); exists c, addrKey; (split_and!; [done..|]); by eapply open_citers; eauto.
Qed.

(** *** A fold never panics *)

Lemma rebaseline_total observedAt changes :
  Forall (λ c, normal (ch_PrevVector c) ∧ normal (ch_Vector c)) changes → is_Some (rebaselineMessages observedAt changes).
Proof.
  intros Hall. unfold rebaselineMessages.
  assert (∀ st, is_Some st → is_Some (foldl rebaseline_step st changes)) as Hfold.
  { induction Hall as [|c l [Hp Hv] _ IH]; intros st Hst; [done|]. cbn [foldl]. apply IH. destruct Hst as [[moved order] ->].
    unfold rebaseline_step. cbn [mbind option_bind]. destruct (_ || _ || _); [by eexists|].
    rewrite Vector_Equal_normal by done. cbn [mbind option_bind]. destruct (bool_decide (ch_PrevVector c = ch_Vector c)); by eexists. }
  destruct (Hfold (Some (∅, []))) as [[moved order] ->]; by eexists.
Qed.

(** The producers of a fold never panic on the vectors the store keeps. *)
Lemma buildMessages_total batchID observedAt changes departures narrowings inp holdCensus s :
  Forall (λ c, normal (ch_PrevVector c) ∧ normal (ch_Vector c)) changes →
  is_Some (buildMessages url_Parse ToLower vc batchID observedAt changes departures narrowings inp holdCensus s).
Proof.
  intros Hall. unfold buildMessages. destruct (rebaseline_total observedAt changes Hall) as [msgs ->]. by eexists.
Qed.
End Spec.

(** ** Two folds to try it on *)

#[local] Instance demo_outcomes : JSONData :=
  {| json_render := Some; jsonb := id; json_outcome := id; json_cause := id |}.
#[local] Instance demo_cited : JSONCited := {| cited_addresses _ := None; json_valid _ := true |}.
#[local] Instance demo_facts : FactsJSON := {|
  DecodeCertificate _ := mkCertValue "" [] "" "" [] [] [];
  DecodeHTTPIdentity _ := mkHTTPValue "" 0 "" "" "" "";
  DecodeTLSAcceptance _ := mkTLSValue "" []
|}.

Definition demo_service : string := "192.0.2.1:443/tcp".
Definition demo_reach (id vantage : Z) (value : string) (opened : Z) (closed : option Z) : span_row :=
  mkRow id subjectKindService demo_service FacetReachability "" (Some vantage) "prober" value false [] opened closed "" 1 None false.
Definition demo_vantages : list vantage_row :=
  [mkVantageRow 1 "one" "" None (Some "203.0.113.9"%string); mkVantageRow 2 "two" "" None (Some "198.51.100.9"%string)].
Definition demo_batch (id created : Z) : cause_batch := mkCauseBatch id "hot" outcomeCompleted (Some 1) created.
Definition demo_store (rows : list span_row) (batches : list cause_batch) : cause_store :=
  mkCause (mkSpans rows 9) demo_vantages [] [] batches [] [] [] [].
Definition demo_change (opened : bool) (vantage : Z) (value previous : string) : spanChange :=
  mkChange subjectKindService (mkTimeline demo_service FacetReachability "" (Some vantage) "prober") opened false value previous
    false false None false [] [] None false.

(** A fold that a batch created at 100 makes at 101: the reach of one vantage
    moves. *)
Definition moved_reach : list span_row := [demo_reach 1 1 Exposure.NotReached 11 (Some 101); demo_reach 2 1 Exposure.Reached 101 None].
Definition reach_moves : list spanChange := [demo_change false 1 Exposure.Reached Exposure.NotReached].
(** The next fold, at 201: a second vantage reaches the service too. *)
Definition reach_opens : list spanChange := [demo_change true 2 Exposure.Reached ""].
Definition opened_reach : list span_row := moved_reach ++ [demo_reach 3 2 Exposure.Reached 201 None].

Definition demo_fired (changes : list spanChange) (s : cause_store) : list string :=
  map ms_FiredAt (flagshipMessages (λ _, None) id (VergeCore.mkList ∅ ∅) 0 changes (readBatchLegs changes s) s).

(** The batch before is dated by the start of its transaction and its spans by a
    later clock, so that instant reads the state before that batch: a move is told
    by the fold that saw it and again by the next fold that touches the service,
    and a state that the batch just before had opened is not seen at all. *)
Example flagship_told_twice :
  demo_fired reach_moves (demo_store moved_reach [demo_batch 1 10; demo_batch 2 40; demo_batch 3 100]) = [demo_service] ∧
  demo_fired reach_opens (demo_store opened_reach [demo_batch 1 10; demo_batch 2 40; demo_batch 3 100; demo_batch 4 200]) = [demo_service] ∧
  demo_fired reach_moves (demo_store moved_reach [demo_batch 1 10; demo_batch 3 100]) = [].
Proof. vm_compute. auto. Qed.

Lemma flagship_fires_on_the_move_witness :
  let s := demo_store moved_reach [demo_batch 1 10; demo_batch 2 40; demo_batch 3 100] in
  cause_keys s ∧
  internet_reads s None demo_service Exposure.Reached ∧ ¬ internet_reads s (Some 40) demo_service Exposure.Reached.
Proof.
  intros s.
  assert (cause_keys s) as Hk by (split; apply (bool_decide_unpack _); vm_compute; exact I).
  destruct (flagship_fires_on_the_move (λ _, None) id (VergeCore.mkList ∅ ∅) 0 reach_moves s Hk) as [_ H].
  assert (demo_service ∈ demo_fired reach_moves s) as Hf by (apply (bool_decide_unpack _); vm_compute; exact I).
  destruct (proj1 (H demo_service) Hf) as (_ & _ & Hr & t & Ht & _ & Hn).
  assert (t = 40) as ->; [|done]. apply PreviousBatchTime_spec in Ht. vm_compute in Ht. by injection Ht.
Defined.
