(* ===== verification/JobQueue.v ===== *)
(** * The job queue: dispatches, jobs, workers, the reaper

    [queue/queue.go], [worker.go], [pure.go], [hotlag.go], [reaper.go], the
    queries of [db/measurement.sql.go] and [db/dispatch.sql.go] they run, and the
    operator's stop and terminate of [cmd/web/scans.go].  A transaction is a
    function of the store, so the steps of a system are whole transactions in
    the order they commit; what a transaction writes elsewhere than in the queue
    is a parameter over the rest of the store.  The states and statuses are the
    check constraints' words as constructors. *)

From S2P Require Import Prelude GoTime GoStr.

(** ** The tables *)

Inductive job_state := Ready | Running | Done | Dead | Retried | Cancelled.

#[export] Instance job_state_eq : EqDecision job_state.
Proof. solve_decision. Defined.

Record job_row := mkJobRow {
  jb_ID : Z;
  jb_ScanID : Z;
  jb_VantageID : option Z;
  jb_DispatchID : option Z;
  jb_Kind : string;
  jb_Spec : string;
  jb_AttemptedScope : string;
  jb_Offers : string;
  jb_State : job_state;
  jb_Attempt : Z;
  jb_MaxAttempts : Z;
  jb_BatchID : option Z;
  jb_RunAfter : Z;
  jb_ClaimedAt : option Z
}.

Inductive dispatch_status := FannedOut | Stopped | Terminated | Skipped.

#[export] Instance dispatch_status_eq : EqDecision dispatch_status.
Proof. solve_decision. Defined.

Record dispatch_row := mkDispatchRow {
  dp_ScanID : Z;
  dp_ScheduledTime : Z;
  dp_Status : dispatch_status;
  dp_FanoutComplete : bool;
  dp_FanoutAbandoned : bool
}.

Record batch_row := mkBatchRow {
  bt_ScanID : Z;
  bt_DispatchID : option Z;
  bt_VantageID : option Z;
  bt_Kind : string;
  bt_Outcome : string;
  bt_Offers : string;
  bt_RecordedScope : string
}.

Definition outcomeCompleted : string := "completed".
Definition outcomeDeadLettered : string := "dead-lettered".

(** The tables by id, the ids to come, and the rest of the database. *)
Record Store {W : Type} := mkStore {
  jobs : gmap Z job_row;
  next_job : Z;
  dispatches : gmap Z dispatch_row;
  next_dispatch : Z;
  batches : gmap Z batch_row;
  next_batch : Z;
  rest : W
}.
Arguments Store : clear implicits.

(** [db.EnqueueJobParams]. *)
Record job_params := mkJobParams {
  ep_ScanID : Z;
  ep_VantageID : option Z;
  ep_DispatchID : option Z;
  ep_Kind : string;
  ep_Spec : string;
  ep_AttemptedScope : string;
  ep_Offers : string;
  ep_Attempt : Z;
  ep_MaxAttempts : Z;
  ep_RunAfter : Z
}.

Definition new_job (id : Z) (p : job_params) : job_row :=
  mkJobRow id (ep_ScanID p) (ep_VantageID p) (ep_DispatchID p) (ep_Kind p) (ep_Spec p) (ep_AttemptedScope p)
    (ep_Offers p) Ready (ep_Attempt p) (ep_MaxAttempts p) None (ep_RunAfter p) None.

(** A row with its state, attempt, batch, schedule and lease set. *)
Definition with_lease (j : job_row) (st : job_state) (attempt : Z) (batch : option Z) (run_after : Z)
    (claimed : option Z) : job_row :=
  mkJobRow (jb_ID j) (jb_ScanID j) (jb_VantageID j) (jb_DispatchID j) (jb_Kind j) (jb_Spec j) (jb_AttemptedScope j)
    (jb_Offers j) st attempt (jb_MaxAttempts j) batch run_after claimed.

Definition set_state (j : job_row) (st : job_state) : job_row :=
  with_lease j st (jb_Attempt j) (jb_BatchID j) (jb_RunAfter j) (jb_ClaimedAt j).

Definition set_batch (j : job_row) (st : job_state) (batch : Z) : job_row :=
  with_lease j st (jb_Attempt j) (Some batch) (jb_RunAfter j) (jb_ClaimedAt j).

Definition set_claim (j : job_row) (st : job_state) (now : Z) : job_row :=
  with_lease j st (jb_Attempt j) (jb_BatchID j) (jb_RunAfter j) (Some now).

Definition job_is (st : job_state) (j : job_row) : bool := bool_decide (jb_State j = st).
Definition active (j : job_row) : bool := job_is Ready j || job_is Running j.

Section Queue.
Context {W : Type}.
Implicit Types s : Store W.

Definition set_jobs (s : Store W) (m : gmap Z job_row) : Store W :=
  mkStore _ m (next_job s) (dispatches s) (next_dispatch s) (batches s) (next_batch s) (rest s).
Definition set_dispatches (s : Store W) (m : gmap Z dispatch_row) : Store W :=
  mkStore _ (jobs s) (next_job s) m (next_dispatch s) (batches s) (next_batch s) (rest s).
Definition set_rest (s : Store W) (w : W) : Store W :=
  mkStore _ (jobs s) (next_job s) (dispatches s) (next_dispatch s) (batches s) (next_batch s) w.

(** ** The queries *)

Definition EnqueueJob (p : job_params) (s : Store W) : Store W :=
  mkStore _ (<[next_job s := new_job (next_job s) p]> (jobs s)) (next_job s + 1)
    (dispatches s) (next_dispatch s) (batches s) (next_batch s) (rest s).

(** The order of the claim: the schedule, then the id. *)
Definition claim_before (a b : job_row) : bool :=
  (jb_RunAfter a <? jb_RunAfter b) || ((jb_RunAfter a =? jb_RunAfter b) && (jb_ID a <? jb_ID b)).

Definition earliest (best : option job_row) (j : job_row) : option job_row :=
  match best with None => Some j | Some b => if claim_before j b then Some j else best end.

(** [locked]: the rows another transaction holds, which are skipped. *)
Definition claimable (now : Z) (locked : Z → bool) (j : job_row) : bool :=
  job_is Ready j && (jb_RunAfter j <=? now) && negb (locked (jb_ID j)).

Definition ClaimJob (now : Z) (locked : Z → bool) (s : Store W) : option (job_row * Store W) :=
  j ← foldl earliest None (List.filter (claimable now locked) (map snd (map_to_list (jobs s))));
  let j := set_claim j Running now in
  Some (j, set_jobs s (<[jb_ID j := j]> (jobs s))).

(** An update of the row [id] where its state is [Running]; [None] is no row. *)
Definition update_running (id : Z) (f : job_row → job_row) (s : Store W) : option (Store W) :=
  match jobs s !! id with
  | Some j => if job_is Running j then Some (set_jobs s (<[id := f j]> (jobs s))) else None
  | None => None
  end.

Definition MarkJobDone (id batch : Z) : Store W → option (Store W) :=
  update_running id (λ j, set_batch j Done batch).
Definition MarkJobDead (id batch : Z) : Store W → option (Store W) :=
  update_running id (λ j, set_batch j Dead batch).
Definition MarkJobRetried (id : Z) : Store W → option (Store W) :=
  update_running id (λ j, set_state j Retried).
Definition RenewJobLease (now id : Z) : Store W → option (Store W) :=
  update_running id (λ j, set_claim j Running now).

Definition stale (cutoff : Z) (j : job_row) : bool :=
  job_is Running j && match jb_ClaimedAt j with Some c => c <? cutoff | None => false end.

Definition reap (now cutoff : Z) (j : job_row) : job_row :=
  if stale cutoff j
  then with_lease j (if jb_MaxAttempts j <=? jb_Attempt j then Dead else Ready) (jb_Attempt j + 1) (jb_BatchID j) now None
  else j.

Definition ReapStaleRunningJobs (now cutoff : Z) (s : Store W) : Store W :=
  set_jobs s (reap now cutoff <$> jobs s).

Definition of_dispatch (d : Z) (j : job_row) : bool := bool_decide (jb_DispatchID j = Some d).

Definition CancelReadyJobsForDispatch (d : Z) (s : Store W) : Store W :=
  set_jobs s ((λ j, if of_dispatch d j && job_is Ready j then set_state j Cancelled else j) <$> jobs s).

Definition CancelActiveJobsForDispatch (d : Z) (s : Store W) : Store W :=
  set_jobs s ((λ j, if of_dispatch d j && active j then set_state j Cancelled else j) <$> jobs s).

Definition InsertBatch (b : batch_row) (s : Store W) : Z * Store W :=
  (next_batch s,
   mkStore _ (jobs s) (next_job s) (dispatches s) (next_dispatch s)
     (<[next_batch s := b]> (batches s)) (next_batch s + 1) (rest s)).

(** The foreign key on the dispatch a batch or a job names. *)
Definition dispatch_stands (d : option Z) (s : Store W) : bool :=
  match d with None => true | Some id => bool_decide (is_Some (dispatches s !! id)) end.

(** [ON DELETE SET NULL]: a row of a dispatch that is gone names none. *)
Definition detach_job (gone : Z → bool) (j : job_row) : job_row :=
  match jb_DispatchID j with
  | Some d =>
      if gone d
      then mkJobRow (jb_ID j) (jb_ScanID j) (jb_VantageID j) None (jb_Kind j) (jb_Spec j) (jb_AttemptedScope j)
             (jb_Offers j) (jb_State j) (jb_Attempt j) (jb_MaxAttempts j) (jb_BatchID j) (jb_RunAfter j) (jb_ClaimedAt j)
      else j
  | None => j
  end.

Definition detach_batch (gone : Z → bool) (b : batch_row) : batch_row :=
  match bt_DispatchID b with
  | Some d =>
      if gone d then mkBatchRow (bt_ScanID b) None (bt_VantageID b) (bt_Kind b) (bt_Outcome b) (bt_Offers b) (bt_RecordedScope b) else b
  | None => b
  end.

(** The sweep of retention; [created_at] is a column no query of the queue reads. *)
Definition expired (before : Z) (created_at : Z → Z) (still_read : list Z) (s : Store W) (id : Z) : bool :=
  match dispatches s !! id with
  | Some d => (dp_ScheduledTime d <? before) && (created_at id <? before) && negb (bool_decide (id ∈ still_read))
  | None => false
  end.

Definition DeleteExpiredDispatches (before : Z) (created_at : Z → Z) (still_read : list Z) (s : Store W) : Store W :=
  let gone := expired before created_at still_read s in
  mkStore _ (detach_job gone <$> jobs s) (next_job s) (filter (λ kv, gone kv.1 = false) (dispatches s)) (next_dispatch s)
    (detach_batch gone <$> batches s) (next_batch s) (rest s).

(** The constraint on the tick: [None] where the scan has it already. *)
Definition tick_taken (scan tick : Z) (s : Store W) : bool :=
  existsb (λ kv, (dp_ScanID kv.2 =? scan) && (dp_ScheduledTime kv.2 =? tick)) (map_to_list (dispatches s)).

Definition TryFanOut (scan tick : Z) (s : Store W) : option (Z * Store W) :=
  if tick_taken scan tick s then None
  else Some (next_dispatch s,
    mkStore _ (jobs s) (next_job s)
      (<[next_dispatch s := mkDispatchRow scan tick FannedOut false false]> (dispatches s)) (next_dispatch s + 1)
      (batches s) (next_batch s) (rest s)).

Definition status_moves (old new : dispatch_status) : bool :=
  bool_decide (old = FannedOut) || (bool_decide (old = Stopped) && bool_decide (new = Terminated)).

Definition SetDispatchStatus (id : Z) (st : dispatch_status) (s : Store W) : Store W :=
  set_dispatches s (alter (λ d,
    if status_moves (dp_Status d) st
    then mkDispatchRow (dp_ScanID d) (dp_ScheduledTime d) st (dp_FanoutComplete d) (dp_FanoutAbandoned d) else d)
    id (dispatches s)).

Definition MarkFanOutComplete (id : Z) (s : Store W) : Store W :=
  set_dispatches s (alter (λ d,
    mkDispatchRow (dp_ScanID d) (dp_ScheduledTime d) (dp_Status d) true (dp_FanoutAbandoned d)) id (dispatches s)).

Definition has_active (P : job_row → bool) (s : Store W) : bool :=
  existsb (λ kv, P kv.2 && active kv.2) (map_to_list (jobs s)).

(** A job whose dispatch was swept counts too. *)
Definition ScanHasNonTerminalJobs (scan dispatch : Z) (s : Store W) : bool :=
  has_active (λ j, (jb_ScanID j =? scan) && negb (of_dispatch dispatch j)) s.

Definition AbandonUnfinishedDispatches (scan claimed : Z) (s : Store W) : Store W :=
  set_dispatches s (map_imap (λ id d, Some (
    if (dp_ScanID d =? scan) && negb (id =? claimed) && bool_decide (dp_Status d = FannedOut) &&
       negb (dp_FanoutComplete d) && negb (dp_FanoutAbandoned d) && negb (has_active (of_dispatch id) s)
    then mkDispatchRow (dp_ScanID d) (dp_ScheduledTime d) (dp_Status d) (dp_FanoutComplete d) true
    else d)) (dispatches s)).

(** ** Time *)

(** A UTC instant in nanoseconds; [Unix] floors, the quotient truncates. *)
Definition second : Z := 10 ^ 9.
Definition minute : Z := 60 * second.

Definition scheduledTick (now cadence : Z) : Z :=
  if cadence <=? 0 then now / second * second
  else
    let secs := Z.quot cadence second in
    let secs := if secs <=? 0 then 1 else secs in
    Z.quot (now / second) secs * secs * second.

Definition exhaustedRetries (attempt maxAttempts : Z) : bool := maxAttempts <=? attempt.

(** The loop runs [attempt - 1] times at most and stops at the cap. *)
Fixpoint doubled (n : nat) (d : Z) : Z :=
  match n with
  | O => d
  | S n' => let d := d * 2 in if 32 * minute <=? d then 32 * minute else doubled n' d
  end.

Definition backoff_ceiling (attempt : Z) : Z := doubled (Z.to_nat (attempt - 1)) (2 * minute).

(** [jitter] is the whole part of the random fraction of [half]. *)
Definition jitteredBackoff (attempt jitter : Z) : Z := backoff_ceiling attempt / 2 + jitter.

Definition StaleCutoff (now threshold : Z) : option Z :=
  if threshold <=? 0 then None else Some (now - threshold).

Definition HotLagGateArmed (threshold : Z) : bool := bool_decide (is_Some (StaleCutoff 0 threshold)).

Definition Sweep (now threshold : Z) (s : Store W) : Store W :=
  match StaleCutoff now threshold with None => s | Some cutoff => ReapStaleRunningJobs now cutoff s end.

(** ** The worker *)

Inductive tx_error := JobCanceled | TxFailed.

(** No row marked is the error of a job cancelled in flight. *)
Definition marked (r : option (Store W)) : tx_error + Store W :=
  match r with Some s => inr s | None => inl JobCanceled end.

Definition lift_work (r : option W) (s : Store W) : tx_error + Store W :=
  match r with Some w => inr (set_rest s w) | None => inl TxFailed end.

(** [runJobTx]: whether an error is reported, and the store after the commit or
    the roll back; a cancellation is no error. *)
Definition runJobTx (fn : Store W → tx_error + Store W) (s : Store W) : bool * Store W :=
  match fn s with
  | inr s' => (true, s')
  | inl JobCanceled => (true, s)
  | inl TxFailed => (false, s)
  end.

Definition batch_of (j : job_row) (outcome scope : string) : batch_row :=
  mkBatchRow (jb_ScanID j) (jb_DispatchID j) (jb_VantageID j) (jb_Kind j) outcome (jb_Offers j) scope.

(** A probe's answer, and what each outcome writes beside the queue: its
    observations, spans, departures, messages and transcript; [None] is an
    error of one of those writes. *)
Context {R : Type}.
Variable record_complete : job_row → R → Z → W → option W.
Variable record_dead : job_row → Z → W → option W.
Variable record_retry : job_row → W → option W.

(** A job held by a worker names the dispatch it was claimed with: where that is
    gone, the first insert of the transaction fails on the foreign key. *)
Definition complete (j : job_row) (r : R) (s : Store W) : tx_error + Store W :=
  if negb (dispatch_stands (jb_DispatchID j) s) then inl TxFailed else
  let '(b, s) := InsertBatch (batch_of j outcomeCompleted (jb_AttemptedScope j)) s in
  match lift_work (record_complete j r b (rest s)) s with
  | inl e => inl e
  | inr s => marked (MarkJobDone (jb_ID j) b s)
  end.

Definition emptyScope : string := (String (byte_of 123) (String (byte_of 34) ("names" +:+ String (byte_of 34) ":[]}")))%string.

Definition dead_letter (scope : string) (j : job_row) (s : Store W) : tx_error + Store W :=
  if negb (dispatch_stands (jb_DispatchID j) s) then inl TxFailed else
  let '(b, s) := InsertBatch (batch_of j outcomeDeadLettered scope) s in
  match lift_work (record_dead j b (rest s)) s with
  | inl e => inl e
  | inr s => marked (MarkJobDead (jb_ID j) b s)
  end.

Definition deadLetter : job_row → Store W → tx_error + Store W := dead_letter emptyScope.

(** A job a worker reads by itself dead-letters over no scope at all. *)
Definition deadLetterCT : job_row → Store W → tx_error + Store W := dead_letter "{}".

(** [now] is the worker's clock, [jitter] the back-off's. *)
Definition retry_params (j : job_row) (now jitter : Z) : job_params :=
  mkJobParams (jb_ScanID j) (jb_VantageID j) (jb_DispatchID j) (jb_Kind j) (jb_Spec j) (jb_AttemptedScope j)
    (jb_Offers j) (jb_Attempt j + 1) (jb_MaxAttempts j) (now + jitteredBackoff (jb_Attempt j + 1) jitter).

Definition retry (j : job_row) (now jitter : Z) (s : Store W) : tx_error + Store W :=
  if negb (dispatch_stands (jb_DispatchID j) s) then inl TxFailed else
  let s := EnqueueJob (retry_params j now jitter) s in
  match lift_work (record_retry j (rest s)) s with
  | inl e => inl e
  | inr s => marked (MarkJobRetried (jb_ID j) s)
  end.

(** The end of a probed job; [None] is a probe that failed. *)
Definition process (now jitter : Z) (j : job_row) (res : option R) (s : Store W) : bool * Store W :=
  match res with
  | Some r => runJobTx (complete j r) s
  | None =>
      if exhaustedRetries (jb_Attempt j) (jb_MaxAttempts j) then runJobTx (deadLetter j) s
      else runJobTx (retry j now jitter) s
  end.

(** What a worker that reads a zone file, a log or an index by itself comes to:
    something to admit, a failure that may pass, one that will not, or an error
    before any transaction. *)
Inductive read_end := ReadDone (r : R) | ReadFailed | ReadUnreadable | ReadError.

(** The end of a job no prober runs: [completeZone], which only admits or errs,
    and [completeCT] and [completeCTTail], whose failures retry and dead-letter. *)
Definition process_read (now jitter : Z) (j : job_row) (e : read_end) (s : Store W) : bool * Store W :=
  match e with
  | ReadDone r => runJobTx (complete j r) s
  | ReadFailed =>
      if exhaustedRetries (jb_Attempt j) (jb_MaxAttempts j) then runJobTx (deadLetterCT j) s
      else runJobTx (retry j now jitter) s
  | ReadUnreadable => runJobTx (deadLetterCT j) s
  | ReadError => (false, s)
  end.

(** ** The dispatcher *)

Inductive SkipReason := SkipNone | SkipTickDispatched | SkipCadenceLag.

Definition hotLagGateApplies (kind : string) : bool := String.eqb kind "hot" || String.eqb kind "ct-tail".

Definition hotTickLags (threshold scan dispatch : Z) (s : Store W) : bool :=
  if negb (HotLagGateArmed threshold) then false else ScanHasNonTerminalJobs scan dispatch s.

Definition gateHotTick (kind : string) (scan dispatch threshold : Z) (s : Store W) : SkipReason * Store W :=
  if negb (hotLagGateApplies kind) then (SkipNone, s)
  else if negb (hotTickLags threshold scan dispatch s) then (SkipNone, s)
  else (SkipCadenceLag, SetDispatchStatus dispatch Skipped s).

(** The dispatch claimed, [None] where the tick is skipped, and why. *)
Definition claimDispatch (kind : string) (scan tick threshold : Z) (s : Store W)
    : option Z * SkipReason * Store W :=
  match TryFanOut scan tick s with
  | None => (None, SkipTickDispatched, s)
  | Some (id, s) =>
      let '(gated, s) := gateHotTick kind scan id threshold s in
      match gated with
      | SkipNone =>
          (Some id, SkipNone, if String.eqb kind "hot" then AbandonUnfinishedDispatches scan id s else s)
      | _ => (None, gated, s)
      end
  end.

(** [fan] reads the jobs of the dispatch in the same transaction; [None] is its
    error, which rolls everything back. *)
Definition fanOutAtomic (kind : string) (scan tick threshold : Z) (fan : Z → Store W → option (list job_params))
    (s : Store W) : option (Z * SkipReason) * Store W :=
  match TryFanOut scan tick s with
  | None => (Some (0, SkipTickDispatched), s)
  | Some (id, s1) =>
      let '(gated, s1) := gateHotTick kind scan id threshold s1 in
      match gated with
      | SkipNone =>
          match fan id s1 with
          | None => (None, s)
          | Some ps =>
              (Some (Z.of_nat (length ps), SkipNone),
               MarkFanOutComplete id (foldl (λ s p, EnqueueJob p s) s1 ps))
          end
      | _ => (Some (0, gated), s1)
      end
  end.

Definition chunkCommitSize : nat := 500.

(** One transaction of a streamed fan-out; [ok] is whether it commits: it does not
    where the dispatch its jobs name was swept under it. *)
Definition flush (dispatch : Z) (final ok : bool) (chunk : list job_params) (s : Store W) : option (Store W) :=
  if (length chunk =? 0)%nat && negb final then Some s
  else if negb ok then None
  else
    let s := foldl (λ s p, EnqueueJob p s) s chunk in
    Some (if final then MarkFanOutComplete dispatch s else s).

(** The loop over the jobs: [total] committed, [chunk] in hand, [k] the number
    of the next transaction.  [ok k] is whether it commits: an error of the
    database, a crash of the process.  What it returns: the jobs committed,
    whether no error is reported, the store. *)
Fixpoint stream_loop (dispatch : Z) (ok : nat → bool) (jobs : list job_params) (chunk : list job_params)
    (total : Z) (k : nat) (s : Store W) : Z * bool * Store W :=
  match jobs with
  | [] =>
      match flush dispatch true (ok k) chunk s with
      | Some s => (total + Z.of_nat (length chunk), true, s)
      | None => (total, false, s)
      end
  | j :: jobs =>
      let chunk := chunk ++ [j] in
      if (chunkCommitSize <=? length chunk)%nat then
        match flush dispatch false (ok k) chunk s with
        | Some s => stream_loop dispatch ok jobs [] (total + Z.of_nat (length chunk)) (S k) s
        | None => (total, false, s)
        end
      else stream_loop dispatch ok jobs chunk total k s
  end.

Definition streamEnqueue (dispatch : Z) (ok : nat → bool) (jobs : list job_params) (s : Store W) : Z * bool * Store W :=
  stream_loop dispatch ok jobs [] 0 0 s.

(** ** The operator *)

(** A dispatch with work in flight is the only one either handler finds.  The
    handlers' two statements are two transactions, so below they are two steps. *)
Definition in_flight (id : Z) (s : Store W) : bool :=
  bool_decide (is_Some (dispatches s !! id)) && has_active (of_dispatch id) s.

Definition stopScan (id : Z) (s : Store W) : Store W :=
  if negb (in_flight id s) then s
  else SetDispatchStatus id Stopped (CancelReadyJobsForDispatch id s).

Definition terminateScan (id : Z) (s : Store W) : Store W :=
  if negb (in_flight id s) then s
  else SetDispatchStatus id Terminated (CancelActiveJobsForDispatch id s).

(** ** The system *)

(** The store and the jobs the workers hold in memory. *)
Record Sys := mkSys { sy_store : Store W; sy_held : list job_row }.

(** What happens to jobs already enqueued; the number is of claims.  A worker
    that crashes, or whose answer never comes, drops what it holds; retention
    sweeps dispatches; other transactions write what the queue does not read. *)
Inductive step : Z → Sys → Sys → Prop :=
  | step_claim now locked s held j s' :
      ClaimJob now locked s = Some (j, s') → step 1 (mkSys s held) (mkSys s' (j :: held))
  | step_finish now jitter res s h1 j h2 :
      step 0 (mkSys s (h1 ++ j :: h2)) (mkSys (process now jitter j res s).2 (h1 ++ h2))
  | step_read now jitter e s h1 j h2 :
      step 0 (mkSys s (h1 ++ j :: h2)) (mkSys (process_read now jitter j e s).2 (h1 ++ h2))
  | step_crash s h1 j h2 : step 0 (mkSys s (h1 ++ j :: h2)) (mkSys s (h1 ++ h2))
  | step_renew now id s held s' :
      RenewJobLease now id s = Some s' → step 0 (mkSys s held) (mkSys s' held)
  | step_sweep now threshold s held : step 0 (mkSys s held) (mkSys (Sweep now threshold s) held)
  | step_cancel_ready id s held : step 0 (mkSys s held) (mkSys (CancelReadyJobsForDispatch id s) held)
  | step_cancel_active id s held : step 0 (mkSys s held) (mkSys (CancelActiveJobsForDispatch id s) held)
  | step_status id st s held : step 0 (mkSys s held) (mkSys (SetDispatchStatus id st s) held)
  | step_retire before created_at still_read s held :
      step 0 (mkSys s held) (mkSys (DeleteExpiredDispatches before created_at still_read s) held)
  | step_other w s held : step 0 (mkSys s held) (mkSys (set_rest s w) held).

(** A fresh job as the fan-outs write it: five attempts, or the only one of a
    zone file's job. *)
Definition fresh_params (p : job_params) : Prop := ep_Attempt p = 1 ∧ (ep_MaxAttempts p = 5 ∨ ep_MaxAttempts p = 1).

(** The transactions of the dispatcher. *)
Inductive dispatcher_step : Sys → Sys → Prop :=
  | step_claim_dispatch kind scan tick threshold s held :
      dispatcher_step (mkSys s held) (mkSys (claimDispatch kind scan tick threshold s).2 held)
  | step_atomic kind scan tick threshold fan s held :
      (∀ id s ps, fan id s = Some ps → Forall fresh_params ps) →
      dispatcher_step (mkSys s held) (mkSys (fanOutAtomic kind scan tick threshold fan s).2 held)
  | step_flush id final ok chunk s held s' :
      Forall fresh_params chunk → flush id final ok chunk s = Some s' →
      dispatcher_step (mkSys s held) (mkSys s' held).

Definition any_step (x y : Sys) : Prop := (∃ n, step n x y) ∨ dispatcher_step x y.

Definition empty_store (w : W) : Store W := mkStore _ ∅ 1 ∅ 1 ∅ 1 w.

(** What any history of transactions leads to, from an empty database. *)
Definition reachable (x : Sys) : Prop := ∃ w, rtc any_step (mkSys (empty_store w) []) x.
End Queue.

(** ** The invariant of the tables *)

(** What a row's state says of its other columns. *)
Definition job_ok (j : job_row) : Prop :=
  match jb_State j with
  | Ready => jb_Attempt j ≤ jb_MaxAttempts j ∧ jb_BatchID j = None ∧ jb_ClaimedAt j = None
  | Running => jb_Attempt j ≤ jb_MaxAttempts j ∧ jb_BatchID j = None ∧ jb_ClaimedAt j ≠ None
  | Done => jb_BatchID j ≠ None
  | Dead => True
  | Retried | Cancelled => jb_BatchID j = None
  end.

Definition terminal (j : job_row) : Prop := jb_State j ≠ Ready ∧ jb_State j ≠ Running.

Section Invariant.
Context {W : Type}.
Implicit Types s : Store W.

Definition outcome_of (st : job_state) : string :=
  match st with Done => outcomeCompleted | Dead => outcomeDeadLettered | _ => "" end.

Record inv (s : Store W) : Prop := {
  inv_ids : ∀ id j, jobs s !! id = Some j → jb_ID j = id ∧ id < next_job s;
  inv_ok : ∀ id j, jobs s !! id = Some j → job_ok j;
  inv_batch : ∀ id j b, jobs s !! id = Some j → jb_BatchID j = Some b →
    ∃ bt, batches s !! b = Some bt ∧ bt_Outcome bt = outcome_of (jb_State j);
  inv_one : ∀ i1 i2 j1 j2 b, jobs s !! i1 = Some j1 → jobs s !! i2 = Some j2 →
    jb_BatchID j1 = Some b → jb_BatchID j2 = Some b → i1 = i2;
  inv_owned : ∀ b bt, batches s !! b = Some bt →
    b < next_batch s ∧ ∃ id j, jobs s !! id = Some j ∧ jb_BatchID j = Some b;
  inv_dispatches : ∀ id d, dispatches s !! id = Some d → id < next_dispatch s;
  inv_ticks : ∀ i1 i2 d1 d2, dispatches s !! i1 = Some d1 → dispatches s !! i2 = Some d2 →
    dp_ScanID d1 = dp_ScanID d2 → dp_ScheduledTime d1 = dp_ScheduledTime d2 → i1 = i2
}.

(** A row rewritten so that the invariant stands. *)
Definition keeps (j j' : job_row) : Prop :=
  job_ok j' ∧ jb_ID j' = jb_ID j ∧ jb_BatchID j' = jb_BatchID j ∧
  (jb_BatchID j ≠ None → jb_State j' = jb_State j).

Lemma keeps_refl j : job_ok j → keeps j j.
Proof. by intros Hj. Qed.

Lemma inv_mapped s (m : gmap Z job_row) (g : Z → job_row → job_row) :
  inv s → (∀ id, m !! id = g id <$> jobs s !! id) → (∀ id j, jobs s !! id = Some j → keeps j (g id j)) →
  inv (set_jobs s m).
Proof.
  intros Hi Hm Hg.
  assert (Hsome : ∀ id j', m !! id = Some j' → ∃ j, jobs s !! id = Some j ∧ j' = g id j ∧ keeps j j').
  { intros id j' Hj. rewrite Hm in Hj. apply fmap_Some in Hj as (j & Hj & ->). eauto. }
  constructor; cbn [jobs set_jobs next_job batches next_batch dispatches next_dispatch].
  - intros id j' (j & Hj & _ & _ & -> & _)%Hsome. by apply (inv_ids s Hi).
  - by intros id j' (j & _ & _ & ? & _)%Hsome.
  - intros id j' b (j & Hj & _ & _ & _ & Hb & Hst)%Hsome Hb'. rewrite Hb in Hb'.
    rewrite Hst by by rewrite Hb'. by eapply (inv_batch s Hi).
  - intros i1 i2 j1' j2' b (j1 & H1 & _ & _ & _ & Hb1 & _)%Hsome (j2 & H2 & _ & _ & _ & Hb2 & _)%Hsome B1 B2.
    rewrite Hb1 in B1. rewrite Hb2 in B2. by eapply (inv_one s Hi).
  - intros b bt Hb. destruct (inv_owned s Hi b bt Hb) as (Hlt & id & j & Hj & Hjb). split; [done|].
    exists id, (g id j). rewrite Hm, Hj. split; [done|]. destruct (Hg id j Hj) as (_ & _ & -> & _). done.
  - apply (inv_dispatches s Hi).
  - apply (inv_ticks s Hi).
Qed.

Lemma inv_fmap s f :
  inv s → (∀ j, job_ok j → keeps j (f j)) → inv (set_jobs s (f <$> jobs s)).
Proof.
  intros Hi Hf. apply (inv_mapped s _ (λ _, f)); [done|intros; by rewrite lookup_fmap|].
  intros id j Hj. by apply Hf, (inv_ok s Hi id).
Qed.

Lemma inv_insert s id j j' :
  inv s → jobs s !! id = Some j → keeps j j' → inv (set_jobs s (<[id := j']> (jobs s))).
Proof.
  intros Hi Hj Hk. apply (inv_mapped s _ (λ i x, if decide (i = id) then j' else x)); [done|..].
  - intros i. destruct (decide (i = id)) as [->|Hne]; [by rewrite lookup_insert_eq, Hj|].
    rewrite lookup_insert_ne by done. by destruct (jobs s !! i).
  - intros i x Hx. case_decide as Hd; [|by apply keeps_refl, (inv_ok s Hi i)]. subst i. by simplify_eq.
Qed.

Lemma inv_set_rest s w : inv s → inv (set_rest s w).
Proof. by intros []. Qed.

Lemma inv_enqueue s p : inv s → ep_Attempt p ≤ ep_MaxAttempts p → inv (EnqueueJob p s).
Proof.
  intros Hi Ha. assert (Hfresh : jobs s !! next_job s = None).
  { destruct (jobs s !! next_job s) eqn:E; [|done]. apply (inv_ids s Hi) in E. lia. }
  constructor; cbn [jobs EnqueueJob next_job batches next_batch dispatches next_dispatch].
  - intros id j [[<- <-]|[_ Hj]]%lookup_insert_Some; [cbn; lia|]. apply (inv_ids s Hi) in Hj. lia.
  - intros id j [[<- <-]|[_ Hj]]%lookup_insert_Some; [by split_and!|]. by apply (inv_ok s Hi id).
  - intros id j b [[<- <-]|[_ Hj]]%lookup_insert_Some Hb; [done|]. by eapply (inv_batch s Hi).
  - intros i1 i2 j1 j2 b [[<- <-]|[_ H1]]%lookup_insert_Some [[<- <-]|[_ H2]]%lookup_insert_Some; try done.
    by apply (inv_one s Hi).
  - intros b bt Hb. destruct (inv_owned s Hi b bt Hb) as (Hlt & id & j & Hj & Hjb). split; [done|].
    exists id, j. rewrite lookup_insert_ne; [done|]. intros Heq. by rewrite Heq, Hj in Hfresh.
  - apply (inv_dispatches s Hi).
  - apply (inv_ticks s Hi).
Qed.

(** The commit of an outcome: the batch, what is written beside it, the mark. *)
Lemma inv_outcome s id j bt w st :
  inv s → jobs s !! id = Some j → jb_State j = Running → (st = Done ∨ st = Dead) →
  bt_Outcome bt = outcome_of st →
  inv (mkStore _ (<[id := set_batch j st (next_batch s)]> (jobs s)) (next_job s) (dispatches s) (next_dispatch s)
         (<[next_batch s := bt]> (batches s)) (next_batch s + 1) w).
Proof.
  intros Hi Hj Hst Hterm Hout.
  assert (Hold : ∀ i x b, jobs s !! i = Some x → jb_BatchID x = Some b → b < next_batch s).
  { intros i x b Hx Hb. destruct (inv_batch s Hi i x b Hx Hb) as (y & Hy & _). by apply (inv_owned s Hi) in Hy as [? _]. }
  assert (Hnone : jb_BatchID j = None).
  { pose proof (inv_ok s Hi id j Hj) as H. unfold job_ok in H. rewrite Hst in H. tauto. }
  constructor; cbn [jobs next_job batches next_batch dispatches next_dispatch].
  - intros i x [[<- <-]|[_ Hx]]%lookup_insert_Some; [apply (inv_ids s Hi) in Hj; cbn; lia|]. by apply (inv_ids s Hi).
  - intros i x [[<- <-]|[_ Hx]]%lookup_insert_Some; [|by apply (inv_ok s Hi i)]. unfold job_ok. cbn.
    by destruct Hterm as [-> | ->].
  - intros i x b [[<- <-]|[_ Hx]]%lookup_insert_Some Hb.
    + cbn in Hb. injection Hb as <-. exists bt. by rewrite lookup_insert_eq.
    + pose proof (Hold i x b Hx Hb). rewrite lookup_insert_ne by lia. by eapply (inv_batch s Hi).
  - intros i1 i2 j1 j2 b [[<- <-]|[_ H1]]%lookup_insert_Some [[<- <-]|[_ H2]]%lookup_insert_Some B1 B2; [done|..].
    + cbn in B1. injection B1 as <-. pose proof (Hold _ _ _ H2 B2). lia.
    + cbn in B2. injection B2 as <-. pose proof (Hold _ _ _ H1 B1). lia.
    + by eapply (inv_one s Hi).
  - intros b x [[<- <-]|[_ Hx]]%lookup_insert_Some.
    + split; [lia|]. exists id, (set_batch j st (next_batch s)). by rewrite lookup_insert_eq.
    + destruct (inv_owned s Hi b x Hx) as (Hlt & i & y & Hy & Hyb). split; [lia|]. exists i, y.
      rewrite lookup_insert_ne; [done|]. intros <-. rewrite Hj in Hy. injection Hy as <-. by rewrite Hnone in Hyb.
  - apply (inv_dispatches s Hi).
  - apply (inv_ticks s Hi).
Qed.

Lemma update_running_Some id f s s' :
  update_running id f s = Some s' ↔
    ∃ j, jobs s !! id = Some j ∧ jb_State j = Running ∧ s' = set_jobs s (<[id := f j]> (jobs s)).
Proof.
  unfold update_running, job_is. destruct (jobs s !! id) as [j|]; [|naive_solver].
  case_bool_decide; naive_solver.
Qed.

Lemma inv_set_dispatches s (m : gmap Z dispatch_row) :
  inv s →
  (∀ id d, m !! id = Some d → ∃ d0, dispatches s !! id = Some d0 ∧
     dp_ScanID d = dp_ScanID d0 ∧ dp_ScheduledTime d = dp_ScheduledTime d0) →
  inv (set_dispatches s m).
Proof.
  intros Hi Hm. constructor; cbn [jobs set_dispatches next_job batches next_batch dispatches next_dispatch];
    [apply (inv_ids s Hi)|apply (inv_ok s Hi)|apply (inv_batch s Hi)|apply (inv_one s Hi)|apply (inv_owned s Hi)|..].
  - intros id d (d0 & Hd & _)%Hm. by apply (inv_dispatches s Hi) in Hd.
  - intros i1 i2 d1 d2 (e1 & H1 & -> & ->)%Hm (e2 & H2 & -> & ->)%Hm. by apply (inv_ticks s Hi).
Qed.

Lemma inv_alter s id f :
  inv s → (∀ d, dp_ScanID (f d) = dp_ScanID d ∧ dp_ScheduledTime (f d) = dp_ScheduledTime d) →
  inv (set_dispatches s (alter f id (dispatches s))).
Proof.
  intros Hi Hf. apply inv_set_dispatches; [done|]. intros i d Hd.
  destruct (decide (id = i)) as [->|Hne].
  - rewrite lookup_alter_eq in Hd. apply fmap_Some in Hd as (d0 & Hd0 & ->). exists d0. by destruct (Hf d0).
  - rewrite lookup_alter_ne in Hd by done. by exists d.
Qed.

Lemma inv_SetDispatchStatus s id st : inv s → inv (SetDispatchStatus id st s).
Proof. intros Hi. apply inv_alter; [done|]. intros d. by destruct (status_moves _ _). Qed.

Lemma inv_MarkFanOutComplete s id : inv s → inv (MarkFanOutComplete id s).
Proof. intros Hi. by apply inv_alter. Qed.

Lemma inv_Abandon s scan id : inv s → inv (AbandonUnfinishedDispatches scan id s).
Proof.
  intros Hi. apply inv_set_dispatches; [done|]. intros i d Hd. rewrite map_lookup_imap in Hd.
  destruct (dispatches s !! i) as [d0|]; [|done]. cbn in Hd. injection Hd as <-. exists d0.
  by destruct (_ && _).
Qed.

Lemma tick_taken_false scan tick s :
  tick_taken scan tick s = false →
  ∀ id d, dispatches s !! id = Some d → dp_ScanID d = scan → dp_ScheduledTime d ≠ tick.
Proof.
  unfold tick_taken. intros H id d Hd <- <-. apply not_true_iff_false in H. apply H, existsb_bool.
  exists (id, d). split; [by apply elem_of_map_to_list|]. cbn. by rewrite !Z.eqb_refl.
Qed.

Lemma inv_TryFanOut scan tick s id s' : inv s → TryFanOut scan tick s = Some (id, s') → inv s'.
Proof.
  unfold TryFanOut. intros Hi. destruct (tick_taken scan tick s) eqn:Ht; [done|]. intros [= <- <-].
  pose proof (tick_taken_false _ _ _ Ht) as Hno.
  constructor; cbn [jobs next_job batches next_batch dispatches next_dispatch];
    [apply (inv_ids s Hi)|apply (inv_ok s Hi)|apply (inv_batch s Hi)|apply (inv_one s Hi)|apply (inv_owned s Hi)|..].
  - intros i d [[<- <-]|[_ Hd]]%lookup_insert_Some; [lia|]. apply (inv_dispatches s Hi) in Hd. lia.
  - intros i1 i2 d1 d2 [[<- <-]|[_ H1]]%lookup_insert_Some [[<- <-]|[_ H2]]%lookup_insert_Some; cbn; [done|..].
    + intros Hs Ht2. exfalso. by apply (Hno i2 d2 H2).
    + intros Hs Ht2. exfalso. by apply (Hno i1 d1 H1).
    + by apply (inv_ticks s Hi).
Qed.

Lemma detach_job_keeps gone j : job_ok j → keeps j (detach_job gone j).
Proof. intros Hj. unfold detach_job. destruct (jb_DispatchID j) as [d|]; [destruct (gone d)|]; by split_and!. Qed.

Lemma inv_retire before created_at still_read s : inv s → inv (DeleteExpiredDispatches before created_at still_read s).
Proof.
  intros Hi. unfold DeleteExpiredDispatches. set (gone := expired _ _ _ s).
  assert (Hj : inv (set_jobs s (detach_job gone <$> jobs s))) by (apply inv_fmap; [done|]; intros; by apply detach_job_keeps).
  assert (Hd : inv (set_dispatches (set_jobs s (detach_job gone <$> jobs s)) (filter (λ kv, gone kv.1 = false) (dispatches s)))).
  { apply inv_set_dispatches; [done|]. intros id d [Hd _]%map_lookup_filter_Some. by exists d. }
  assert (Hout : ∀ bt, bt_Outcome (detach_batch gone bt) = bt_Outcome bt).
  { intros bt. unfold detach_batch. destruct (bt_DispatchID bt) as [d|]; [by destruct (gone d)|done]. }
  constructor; cbn [jobs next_job batches next_batch dispatches next_dispatch];
    [apply (inv_ids _ Hd)|apply (inv_ok _ Hd)| |apply (inv_one _ Hd)| |apply (inv_dispatches _ Hd)|apply (inv_ticks _ Hd)].
  - intros id j b Hj' Hb. destruct (inv_batch _ Hd id j b Hj' Hb) as (bt & Hbt & Ho). exists (detach_batch gone bt).
    rewrite lookup_fmap. cbn in Hbt. rewrite Hbt. by rewrite Hout.
  - intros b bt' Hb. rewrite lookup_fmap in Hb. destruct (batches s !! b) as [bt|] eqn:Hbt; [|done]. apply (inv_owned _ Hd b bt Hbt).
Qed.

Lemma inv_gate kind scan id threshold s : inv s → inv (gateHotTick kind scan id threshold s).2.
Proof.
  intros Hi. unfold gateHotTick. destruct (negb _); [done|]. destruct (negb _); [done|].
  by apply inv_SetDispatchStatus.
Qed.

Lemma inv_claimDispatch kind scan tick threshold s : inv s → inv (claimDispatch kind scan tick threshold s).2.
Proof.
  intros Hi. unfold claimDispatch. destruct (TryFanOut scan tick s) as [[id s1]|] eqn:Ht; [|done].
  apply inv_TryFanOut in Ht; [|done]. pose proof (inv_gate kind scan id threshold s1 Ht) as Hg.
  destruct (gateHotTick kind scan id threshold s1) as [[] s2]; cbn in Hg |- *; [|done..].
  destruct (String.eqb kind "hot"); [by apply inv_Abandon|done].
Qed.

Lemma inv_enqueues s ps : inv s → Forall (λ p, ep_Attempt p ≤ ep_MaxAttempts p) ps →
  inv (foldl (λ s p, EnqueueJob p s) s ps).
Proof.
  intros Hi Hp. rewrite Forall_forall in Hp. apply foldl_inv; [done|]. intros x p Hin Hx. by apply inv_enqueue; [|apply Hp].
Qed.

Lemma fresh_attempts ps : Forall fresh_params ps → Forall (λ p, ep_Attempt p ≤ ep_MaxAttempts p) ps.
Proof. rewrite !Forall_forall. intros H p Hp. destruct (H p Hp) as [-> [-> | ->]]; lia. Qed.

Lemma inv_fanOutAtomic kind scan tick threshold fan s :
  inv s → (∀ id s ps, fan id s = Some ps → Forall fresh_params ps) →
  inv (fanOutAtomic kind scan tick threshold fan s).2.
Proof.
  intros Hi Hfan. unfold fanOutAtomic. destruct (TryFanOut scan tick s) as [[id s1]|] eqn:Ht; [|done].
  apply inv_TryFanOut in Ht; [|done]. pose proof (inv_gate kind scan id threshold s1 Ht) as Hg.
  destruct (gateHotTick kind scan id threshold s1) as [[] s2]; cbn in Hg |- *; [|done..].
  destruct (fan id s2) as [ps|] eqn:Hf; [|done]. apply inv_MarkFanOutComplete, inv_enqueues; [done|].
  by eapply fresh_attempts, Hfan.
Qed.

Lemma inv_flush id final ok chunk s s' :
  inv s → Forall fresh_params chunk → flush id final ok chunk s = Some s' → inv s'.
Proof.
  intros Hi Hc. unfold flush. destruct (_ && negb final); [by intros [= <-]|]. destruct (negb ok); [done|].
  intros [= <-]. destruct final; [apply inv_MarkFanOutComplete|]; by apply inv_enqueues, fresh_attempts.
Qed.

(** ** The worker's transactions *)

Lemma earliest_in l best j :
  foldl earliest best l = Some j → best = Some j ∨ j ∈ l.
Proof.
  revert best. induction l as [|x l IH]; intros best; [by left|]. cbn [foldl]. intros [Hb|Hb]%IH; [|right; by right].
  unfold earliest in Hb. destruct best as [b|]; [destruct (claim_before x b)|]; simplify_eq; (by left) || (right; by left).
Qed.

Lemma ClaimJob_Some now locked s j' s' :
  ClaimJob now locked s = Some (j', s') →
  ∃ id j, jobs s !! id = Some j ∧ claimable now locked j = true ∧ j' = set_claim j Running now ∧
    s' = set_jobs s (<[jb_ID j := j']> (jobs s)).
Proof.
  unfold ClaimJob. intros H. apply bind_Some in H as (j & Hj & [= <- <-]).
  apply earliest_in in Hj as [?|Hj]; [done|]. apply list_elem_of_In, filter_In in Hj as [Hin Hc].
  apply list_elem_of_In, list_elem_of_fmap in Hin as ([id x] & -> & Hx%elem_of_map_to_list). by exists id, x.
Qed.

Lemma inv_ClaimJob now locked s j s' :
  inv s → ClaimJob now locked s = Some (j, s') → inv s' ∧ jb_Attempt j ≤ jb_MaxAttempts j.
Proof.
  intros Hi (id & x & Hx & Hc & -> & ->)%ClaimJob_Some. pose proof (inv_ids s Hi id x Hx) as [-> _].
  pose proof (inv_ok s Hi id x Hx) as Hok. unfold claimable, job_is in Hc. bool_to_prop.
  unfold job_ok in Hok. rewrite H in Hok. destruct Hok as (Ha & Hb & _).
  split; [|done]. apply (inv_insert s id x); [done|done|]. by split_and!.
Qed.

Lemma Running_ok x : job_ok x → jb_State x = Running → jb_Attempt x ≤ jb_MaxAttempts x ∧ jb_BatchID x = None.
Proof. unfold job_ok. intros H Hst. rewrite Hst in H. tauto. Qed.

Lemma keeps_reap now cutoff j : job_ok j → keeps j (reap now cutoff j).
Proof.
  intros Hok. unfold reap, stale, job_is. case_bool_decide as Hst; [|by apply keeps_refl]. cbn [andb].
  destruct (Running_ok j Hok Hst) as [Ha Hb].
  destruct (match jb_ClaimedAt j with Some c => _ | None => _ end); [|by apply keeps_refl].
  destruct (Z.leb_spec (jb_MaxAttempts j) (jb_Attempt j)); (split; [|split; [done|split; [done|by rewrite Hb]]]);
    unfold job_ok; cbn; [done|]. split_and!; [lia|done|done].
Qed.

Lemma keeps_cancel (P : job_row → bool) j :
  (∀ x, P x = true → jb_State x = Ready ∨ jb_State x = Running) →
  job_ok j → keeps j (if P j then set_state j Cancelled else j).
Proof.
  intros HP Hok. destruct (P j) eqn:E; [|by apply keeps_refl]. specialize (HP j E).
  assert (Hb : jb_BatchID j = None) by (unfold job_ok in Hok; destruct HP as [H|H]; rewrite H in Hok; tauto).
  split; [exact Hb|]. split; [done|]. split; [done|]. by rewrite Hb.
Qed.

Lemma active_spec j : active j = true ↔ jb_State j = Ready ∨ jb_State j = Running.
Proof. unfold active, job_is. rewrite orb_true_iff, !bool_decide_eq_true. done. Qed.

Lemma inv_Sweep now threshold s : inv s → inv (Sweep now threshold s).
Proof.
  intros Hi. unfold Sweep. destruct (StaleCutoff now threshold); [|done].
  apply inv_fmap; [done|]. intros j. apply keeps_reap.
Qed.

End Invariant.

Section Steps.
Context {W R : Type}.
Variable record_complete : job_row → R → Z → W → option W.
Variable record_dead : job_row → Z → W → option W.
Variable record_retry : job_row → W → option W.
Implicit Types s : Store W.

(** What a transaction's outcome must be for the store to keep a property. *)
Lemma runJobTx_ind (P : Store W → Prop) fn s :
  P s → (∀ s', fn s = inr s' → P s') → P (runJobTx fn s).2.
Proof. intros Hs Hf. unfold runJobTx. destruct (fn s) as [[]|s'] eqn:E; cbn; auto. Qed.

(** A committed outcome, taken apart. *)
Lemma complete_Some j r s s' :
  complete record_complete j r s = inr s' →
  ∃ x w, jobs s !! jb_ID j = Some x ∧ jb_State x = Running ∧
    s' = mkStore _ (<[jb_ID j := set_batch x Done (next_batch s)]> (jobs s)) (next_job s) (dispatches s) (next_dispatch s)
           (<[next_batch s := batch_of j outcomeCompleted (jb_AttemptedScope j)]> (batches s)) (next_batch s + 1) w.
Proof.
  unfold complete. destruct (negb _); [done|]. unfold InsertBatch, lift_work. cbn [rest]. destruct (record_complete _ _ _ _) as [w|]; [|done].
  unfold marked, MarkJobDone. destruct (update_running _ _ _) as [t|] eqn:Hu; [|done]. intros [= <-].
  apply update_running_Some in Hu as (x & Hx & Hst & ->). exists x, w. done.
Qed.

Lemma dead_letter_Some scope j s s' :
  dead_letter record_dead scope j s = inr s' →
  ∃ x w, jobs s !! jb_ID j = Some x ∧ jb_State x = Running ∧
    s' = mkStore _ (<[jb_ID j := set_batch x Dead (next_batch s)]> (jobs s)) (next_job s) (dispatches s) (next_dispatch s)
           (<[next_batch s := batch_of j outcomeDeadLettered scope]> (batches s)) (next_batch s + 1) w.
Proof.
  unfold dead_letter. destruct (negb _); [done|]. unfold InsertBatch, lift_work. cbn [rest]. destruct (record_dead _ _ _) as [w|]; [|done].
  unfold marked, MarkJobDead. destruct (update_running _ _ _) as [t|] eqn:Hu; [|done]. intros [= <-].
  apply update_running_Some in Hu as (x & Hx & Hst & ->). exists x, w. done.
Qed.

Lemma retry_Some j now jitter s s' :
  retry record_retry j now jitter s = inr s' →
  ∃ x w, jobs (EnqueueJob (retry_params j now jitter) s) !! jb_ID j = Some x ∧ jb_State x = Running ∧
    s' = set_rest (set_jobs (EnqueueJob (retry_params j now jitter) s)
                     (<[jb_ID j := set_state x Retried]> (jobs (EnqueueJob (retry_params j now jitter) s)))) w.
Proof.
  unfold retry. destruct (negb _); [done|]. unfold lift_work. destruct (record_retry _ _) as [w|]; [|done].
  unfold marked, MarkJobRetried. destruct (update_running _ _ _) as [t|] eqn:Hu; [|done]. intros [= <-].
  apply update_running_Some in Hu as (x & Hx & Hst & ->). exists x, w. done.
Qed.

(** However a job ends, one of three transactions commits, or none does. *)
Lemma process_ind (P : Store W → Prop) now jitter j s :
  P s →
  (∀ r s', complete record_complete j r s = inr s' → P s') →
  (∀ scope s', dead_letter record_dead scope j s = inr s' → P s') →
  (∀ s', jb_Attempt j < jb_MaxAttempts j → retry record_retry j now jitter s = inr s' → P s') →
  (∀ res, P (process record_complete record_dead record_retry now jitter j res s).2) ∧
  (∀ e, P (process_read record_complete record_dead record_retry now jitter j e s).2).
Proof.
  intros H0 Hc Hd Hr. unfold process, process_read, exhaustedRetries, deadLetter, deadLetterCT.
  split; [intros [r|]|intros [r| | |]]; try (destruct (Z.leb_spec (jb_MaxAttempts j) (jb_Attempt j)));
    try (apply runJobTx_ind; [done|]); eauto.
Qed.

Lemma inv_ends now jitter j s :
  inv s →
  (∀ res, inv (process record_complete record_dead record_retry now jitter j res s).2) ∧
  (∀ e, inv (process_read record_complete record_dead record_retry now jitter j e s).2).
Proof.
  intros Hi. apply process_ind; [done|..].
  - intros r s' (x & w & Hx & Hst & ->)%complete_Some. apply (inv_outcome s _ x); auto.
  - intros scope s' (x & w & Hx & Hst & ->)%dead_letter_Some. apply (inv_outcome s _ x); auto.
  - intros s' Hlt (x & w & Hx & Hst & ->)%retry_Some. apply inv_set_rest.
    assert (He : inv (EnqueueJob (retry_params j now jitter) s)) by (apply inv_enqueue; [done|cbn; lia]).
    apply (inv_insert _ _ x); [done|done|]. pose proof (inv_ok _ He _ _ Hx) as Hok.
    destruct (Running_ok x Hok Hst) as [Ha Hb]. split; [exact Hb|]. split; [done|]. split; [done|]. by rewrite Hb.
Qed.

(** *** Every step *)

Definition sys_inv (x : Sys (W:=W)) : Prop :=
  inv (sy_store x) ∧ Forall (λ j, jb_Attempt j ≤ jb_MaxAttempts j) (sy_held x).

Lemma step_inv n x y : sys_inv x → step record_complete record_dead record_retry n x y → sys_inv y.
Proof.
  intros [Hi Hh]. destruct 1; cbn [sy_store sy_held] in *.
  - destruct (inv_ClaimJob _ _ _ _ _ Hi H) as [? ?]. split; [done|]. by constructor.
  - split; [by apply inv_ends|]. apply Forall_app in Hh as [? [? ?]%Forall_cons]. by apply Forall_app.
  - split; [by apply inv_ends|]. apply Forall_app in Hh as [? [? ?]%Forall_cons]. by apply Forall_app.
  - split; [done|]. apply Forall_app in Hh as [? [? ?]%Forall_cons]. by apply Forall_app.
  - split; [|done]. apply update_running_Some in H as (j & Hj & Hst & ->). cbn [sy_store].
    apply (inv_insert s id j); [done|done|]. destruct (Running_ok j (inv_ok s Hi id j Hj) Hst) as [Ha Hb]. by split_and!.
  - split; [by apply inv_Sweep|done].
  - split; [|done]. apply inv_fmap; [done|]. intros j Hj. apply (keeps_cancel (λ j, of_dispatch id j && job_is Ready j)); [|done].
    intros x [_ Hx%bool_decide_eq_true]%andb_true_iff. by left.
  - split; [|done]. apply inv_fmap; [done|]. intros j Hj. apply (keeps_cancel (λ j, of_dispatch id j && active j)); [|done].
    intros x [_ Hx]%andb_true_iff. by apply active_spec.
  - split; [by apply inv_SetDispatchStatus|done].
  - split; [by apply inv_retire|done].
  - split; [by apply inv_set_rest|done].
Qed.

Lemma dispatcher_inv x y : sys_inv x → dispatcher_step x y → sys_inv y.
Proof.
  intros [Hi Hh]. destruct 1; cbn [sy_store sy_held] in *; (split; [|done]).
  - by apply inv_claimDispatch.
  - by apply inv_fanOutAtomic.
  - by eapply inv_flush.
Qed.

Lemma reachable_inv x : reachable record_complete record_dead record_retry x → sys_inv x.
Proof.
  intros [w Hr]. assert (H0 : sys_inv (mkSys (empty_store w) [])).
  { split; [|constructor]. by constructor; cbn; intros *; rewrite ?lookup_empty. }
  revert H0. induction Hr as [|x y z Hxy _ IH]; [done|]. intros Hx. apply IH.
  destruct Hxy as [[n Hs]|Hd]; [by eapply step_inv|by eapply dispatcher_inv].
Qed.
End Steps.

(** ** What is final *)

Section Final.
Context {W R : Type}.
Variable record_complete : job_row → R → Z → W → option W.
Variable record_dead : job_row → Z → W → option W.
Variable record_retry : job_row → W → option W.
Implicit Types s : Store W.

(** A row is the other, or was and lost the dispatch it named. *)
Definition same_job (j j' : job_row) : Prop := j' = j ∨ j' = detach_job (λ _, true) j.
Definition same_batch (b b' : batch_row) : Prop := b' = b ∨ b' = detach_batch (λ _, true) b.

(** Terminal rows and batches stand, but for the dispatch they name. *)
Definition extends s s' : Prop :=
  (∀ id j, jobs s !! id = Some j → terminal j → ∃ j', jobs s' !! id = Some j' ∧ same_job j j') ∧
  (∀ b bt, batches s !! b = Some bt → ∃ bt', batches s' !! b = Some bt' ∧ same_batch bt bt').

(** The common case: the rows stand as they are. *)
Definition stands s s' : Prop :=
  (∀ id j, jobs s !! id = Some j → terminal j → jobs s' !! id = Some j) ∧ batches s ⊆ batches s'.

Lemma stands_extends s s' : stands s s' → extends s s'.
Proof.
  intros [H1 H2]. split; [intros id j Hj Ht; exists j; split; [auto|by left]|].
  intros b bt Hb. exists bt. split; [by eapply lookup_weaken|by left].
Qed.

Lemma same_job_trans j1 j2 j3 : same_job j1 j2 → same_job j2 j3 → same_job j1 j3.
Proof.
  intros [-> | ->] [-> | ->]; [by left|by right..|]. right. unfold detach_job. destruct (jb_DispatchID j1) eqn:E; cbn; by rewrite ?E.
Qed.

Lemma same_batch_trans b1 b2 b3 : same_batch b1 b2 → same_batch b2 b3 → same_batch b1 b3.
Proof.
  intros [-> | ->] [-> | ->]; [by left|by right..|]. right. unfold detach_batch. destruct (bt_DispatchID b1) eqn:E; cbn; by rewrite ?E.
Qed.

Lemma same_job_terminal j j' : same_job j j' → terminal j → terminal j'.
Proof. intros [-> | ->]; [done|]. unfold terminal, detach_job. by destruct (jb_DispatchID j). Qed.

Lemma extends_trans s1 s2 s3 : extends s1 s2 → extends s2 s3 → extends s1 s3.
Proof.
  intros [H1 B1] [H2 B2]. split.
  - intros id j Hj Ht. destruct (H1 id j Hj Ht) as (j2 & Hj2 & S2). destruct (H2 id j2 Hj2 (same_job_terminal _ _ S2 Ht)) as (j3 & ? & S3).
    exists j3. split; [done|by eapply same_job_trans].
  - intros b bt Hb. destruct (B1 b bt Hb) as (b2 & Hb2 & S2). destruct (B2 b b2 Hb2) as (b3 & ? & S3).
    exists b3. split; [done|by eapply same_batch_trans].
Qed.

Lemma extends_refl s : extends s s.
Proof. by apply stands_extends. Qed.

Lemma extends_retire before created_at still_read s : extends s (DeleteExpiredDispatches before created_at still_read s).
Proof.
  unfold DeleteExpiredDispatches. set (gone := expired _ _ _ s). split; cbn [jobs batches].
  - intros id j Hj _. rewrite lookup_fmap, Hj. eexists. split; [done|]. unfold same_job, detach_job.
    destruct (jb_DispatchID j) as [d|]; [destruct (gone d)|]; auto.
  - intros b bt Hb. rewrite lookup_fmap, Hb. eexists. split; [done|]. unfold same_batch, detach_batch.
    destruct (bt_DispatchID bt) as [d|]; [destruct (gone d)|]; auto.
Qed.

Lemma extends_fmap s f : (∀ j, terminal j → f j = j) → extends s (set_jobs s (f <$> jobs s)).
Proof.
  intros Hf. apply stands_extends. split; [|done]. intros id j Hj Ht. cbn [jobs set_jobs].
  rewrite lookup_fmap, Hj. cbn. by rewrite Hf.
Qed.

Lemma extends_insert s id x j : jobs s !! id = Some x → ¬ terminal x → extends s (set_jobs s (<[id := j]> (jobs s))).
Proof.
  intros Hx Hn. apply stands_extends. split; [|done]. intros i y Hy Ht. cbn. rewrite lookup_insert_ne; [done|]. intros ->. by simplify_eq.
Qed.

Lemma extends_enqueue s p : inv s → extends s (EnqueueJob p s).
Proof.
  intros Hi. apply stands_extends. split; [|done]. intros id j Hj Ht. cbn. rewrite lookup_insert_ne; [done|].
  apply (inv_ids s Hi) in Hj. lia.
Qed.

Lemma extends_enqueues s ps : inv s → Forall (λ p, ep_Attempt p ≤ ep_MaxAttempts p) ps →
  extends s (foldl (λ s p, EnqueueJob p s) s ps).
Proof.
  revert s. induction ps as [|p ps IH]; intros s Hi Hp; [apply extends_refl|].
  apply Forall_cons in Hp as [Hp Hps]. cbn [foldl].
  eapply extends_trans; [by apply extends_enqueue|]. apply IH; [by apply inv_enqueue|done].
Qed.

Lemma not_terminal_running j : jb_State j = Running → ¬ terminal j.
Proof. intros Hs [_ ?]. done. Qed.

Lemma extends_ends now jitter j s :
  inv s →
  (∀ res, extends s (process record_complete record_dead record_retry now jitter j res s).2) ∧
  (∀ e, extends s (process_read record_complete record_dead record_retry now jitter j e s).2).
Proof.
  intros Hi. assert (Hfresh : ∀ bt : batch_row, batches s ⊆ <[next_batch s := bt]> (batches s)).
  { intros bt. apply insert_subseteq. destruct (batches s !! next_batch s) eqn:E; [|done].
    apply (inv_owned s Hi) in E as [? _]. lia. }
  assert (Hins : ∀ x (y : job_row), jobs s !! jb_ID j = Some x → jb_State x = Running → ∀ i z, jobs s !! i = Some z → terminal z →
    <[jb_ID j := y]> (jobs s) !! i = Some z).
  { intros x y Hx Hst i z Hz Ht. rewrite lookup_insert_ne; [done|]. intros <-. rewrite Hx in Hz. injection Hz as <-. by apply (not_terminal_running x). }
  apply process_ind; [apply extends_refl|..].
  - intros r s' (x & w & Hx & Hst & ->)%complete_Some. apply stands_extends. split; [exact (Hins x _ Hx Hst)|apply Hfresh].
  - intros scope s' (x & w & Hx & Hst & ->)%dead_letter_Some. apply stands_extends. split; [exact (Hins x _ Hx Hst)|apply Hfresh].
  - intros s' Hlt (x & w & Hx & Hst & ->)%retry_Some. eapply extends_trans; [by apply extends_enqueue|].
    eapply (extends_insert _ _ x); [done|by apply not_terminal_running].
Qed.

Lemma terminal_reap now cutoff j : terminal j → reap now cutoff j = j.
Proof. intros [_ Hn]. unfold reap, stale, job_is. by rewrite bool_decide_false. Qed.

Lemma terminal_cancel (P : job_row → bool) j :
  (∀ x, P x = true → active x = true) → terminal j → (if P j then set_state j Cancelled else j) = j.
Proof.
  intros HP [Hr Hn]. destruct (P j) eqn:E; [|done]. apply HP, active_spec in E as [?|?]; done.
Qed.

Lemma step_extends n x y :
  sys_inv x → step record_complete record_dead record_retry n x y → extends (sy_store x) (sy_store y).
Proof.
  intros [Hi _]. destruct 1; cbn [sy_store] in *.
  - apply ClaimJob_Some in H as (id & x & Hx & Hc & -> & ->). pose proof (inv_ids s Hi id x Hx) as [-> _].
    apply (extends_insert s id x); [done|]. intros [Hr _]. unfold claimable, job_is in Hc. bool_to_prop. done.
  - by apply extends_ends.
  - by apply extends_ends.
  - apply extends_refl.
  - apply update_running_Some in H as (j & Hj & Hst & ->). apply (extends_insert s id j); [done|]. by apply not_terminal_running.
  - unfold Sweep. destruct (StaleCutoff now threshold); [|apply extends_refl]. apply extends_fmap. intros j. apply terminal_reap.
  - apply extends_fmap. intros j. apply (terminal_cancel (λ j, of_dispatch id j && job_is Ready j)).
    intros x [_ Hx]%andb_true_iff. unfold active. by rewrite Hx.
  - apply extends_fmap. intros j. apply (terminal_cancel (λ j, of_dispatch id j && active j)). by intros x [_ Hx]%andb_true_iff.
  - by apply stands_extends.
  - apply extends_retire.
  - by apply stands_extends.
Qed.

Lemma gate_jobs kind scan id threshold s :
  jobs (gateHotTick kind scan id threshold s).2 = jobs s ∧ batches (gateHotTick kind scan id threshold s).2 = batches s.
Proof. unfold gateHotTick. destruct (negb _); [done|]. by destruct (negb _). Qed.

Lemma TryFanOut_jobs scan tick s id s' : TryFanOut scan tick s = Some (id, s') → jobs s' = jobs s ∧ batches s' = batches s.
Proof. unfold TryFanOut. destruct (tick_taken _ _ _); [done|]. by intros [= <- <-]. Qed.

Lemma extends_same s s' : jobs s' = jobs s → batches s' = batches s → extends s s'.
Proof. intros Hj Hb. apply stands_extends. split; [by rewrite Hj|by rewrite Hb]. Qed.

Lemma dispatcher_extends x y : sys_inv x → dispatcher_step x y → extends (sy_store x) (sy_store y).
Proof.
  intros [Hi _]. destruct 1; cbn [sy_store] in *.
  - unfold claimDispatch. destruct (TryFanOut scan tick s) as [[id s1]|] eqn:Ht; [|apply extends_refl].
    apply TryFanOut_jobs in Ht as [H1 H2]. pose proof (gate_jobs kind scan id threshold s1) as [H3 H4].
    destruct (gateHotTick _ _ _ _ _) as [g s2]. cbn [snd] in H3, H4. rewrite H1 in H3. rewrite H2 in H4.
    destruct g; cbn [snd]; [destruct (String.eqb _ _)|..]; by apply extends_same.
  - unfold fanOutAtomic. destruct (TryFanOut scan tick s) as [[id s1]|] eqn:Ht; [|apply extends_refl].
    pose proof (inv_TryFanOut _ _ _ _ _ Hi Ht) as Hi1. apply TryFanOut_jobs in Ht as [H1 H2].
    pose proof (gate_jobs kind scan id threshold s1) as [H3 H4]. pose proof (inv_gate kind scan id threshold s1 Hi1) as Hi2.
    destruct (gateHotTick _ _ _ _ _) as [g s2]. cbn [snd] in H3, H4, Hi2. rewrite H1 in H3. rewrite H2 in H4.
    destruct g; cbn [snd]; [|by apply extends_same..]. destruct (fan id s2) as [ps|] eqn:Hf; [|apply extends_refl].
    eapply extends_trans; [by apply (extends_same s s2)|].
    eapply extends_trans; [apply (extends_enqueues _ ps); [done|by eapply fresh_attempts, H]|]. by apply extends_same.
  - revert H0. unfold flush. destruct (_ && negb final); [intros [= <-]; apply extends_refl|]. destruct (negb ok); [done|].
    intros [= <-]. eapply extends_trans; [apply (extends_enqueues _ chunk); [done|by apply fresh_attempts]|].
    destruct final; by apply extends_same.
Qed.

(** What is recorded stays recorded.  Whatever the workers, the reaper, the
    dispatcher, retention and the operator do next, in any order, a job that is
    done, dead, retried or cancelled keeps its row for good, and no batch is
    removed; neither changes but for the dispatch it names, once that is swept. *)
Theorem terminal_jobs_are_final x y id j :
  reachable record_complete record_dead record_retry x →
  rtc (any_step record_complete record_dead record_retry) x y →
  jobs (sy_store x) !! id = Some j → terminal j →
  (∃ j', jobs (sy_store y) !! id = Some j' ∧ same_job j j') ∧
  (∀ b bt, batches (sy_store x) !! b = Some bt → ∃ bt', batches (sy_store y) !! b = Some bt' ∧ same_batch bt bt').
Proof.
  intros Hx Hr Hj Ht. apply reachable_inv in Hx.
  assert (He : extends (sy_store x) (sy_store y)); [|by destruct He; auto].
  clear Hj Ht. induction Hr as [x|x y z [[n Hs]|Hd] _ IH]; [apply extends_refl|..].
  - eapply extends_trans; [by eapply step_extends|]. apply IH. by eapply step_inv.
  - eapply extends_trans; [by eapply dispatcher_extends|]. apply IH. by eapply dispatcher_inv.
Qed.

(** [C6] One job, one outcome.  In whatever state the dispatcher, the workers, the
    reaper, retention and the operator bring the queue (workers that race, crash
    or answer after the reaper gave their job away), every batch
    belongs to exactly one job, a completed batch to a done job and a
    dead-lettered one to a dead job; every done job has its batch; a job still to
    run, retried or cancelled has none; and no two dispatches share a tick. *)
Theorem one_batch_per_job x :
  reachable record_complete record_dead record_retry x →
  let s := sy_store x in
  (∀ b bt, batches s !! b = Some bt → ∃ id j, jobs s !! id = Some j ∧ jb_BatchID j = Some b ∧
     (jb_State j = Done ∧ bt_Outcome bt = outcomeCompleted ∨ jb_State j = Dead ∧ bt_Outcome bt = outcomeDeadLettered) ∧
     ∀ id' j', jobs s !! id' = Some j' → jb_BatchID j' = Some b → id' = id) ∧
  (∀ id j, jobs s !! id = Some j → jb_State j = Done → ∃ b, jb_BatchID j = Some b ∧ is_Some (batches s !! b)) ∧
  (∀ id j, jobs s !! id = Some j → jb_State j ≠ Done → jb_State j ≠ Dead → jb_BatchID j = None) ∧
  (∀ i1 i2 d1 d2, dispatches s !! i1 = Some d1 → dispatches s !! i2 = Some d2 →
     dp_ScanID d1 = dp_ScanID d2 → dp_ScheduledTime d1 = dp_ScheduledTime d2 → i1 = i2).
Proof.
  intros [Hi _]%reachable_inv. cbv zeta. set (s := sy_store x) in *.
  assert (Hnone : ∀ id j, jobs s !! id = Some j → jb_State j ≠ Done → jb_State j ≠ Dead → jb_BatchID j = None).
  { intros id j Hj H1 H2. pose proof (inv_ok s Hi id j Hj) as Hok. unfold job_ok in Hok. destruct (jb_State j); tauto. }
  split_and!; [|..|exact Hnone|exact (inv_ticks s Hi)].
  - intros b bt Hb. destruct (inv_owned s Hi b bt Hb) as (_ & id & j & Hj & Hjb). exists id, j.
    split; [done|]. split; [done|]. split; [|intros i' j' Hj' Hb'; by eapply (inv_one s Hi)].
    destruct (inv_batch s Hi id j b Hj Hjb) as (bt' & Hb' & Ho). simplify_eq.
    destruct (decide (jb_State j = Done)) as [Hd|Hd]; [left; by rewrite Hd in Ho|].
    destruct (decide (jb_State j = Dead)) as [Hd'|Hd']; [right; by rewrite Hd' in Ho|].
    by rewrite (Hnone id j Hj Hd Hd') in Hjb.
  - intros id j Hj Hst. pose proof (inv_ok s Hi id j Hj) as Hok. unfold job_ok in Hok. rewrite Hst in Hok.
    destruct (jb_BatchID j) as [b|] eqn:Hb; [|done]. exists b. split; [done|].
    destruct (inv_batch s Hi id j b Hj Hb) as (bt & -> & _). by eexists.
Qed.

(** [C8] A job taken away commits nothing.  When the row of the job a worker
    holds is no longer running (the operator terminated its dispatch, or another
    worker or the reaper ended it), the worker's outcome leaves every table and
    everything it would have recorded as they were, whatever the probe said. *)
Theorem lost_job_commits_nothing now jitter j res s :
  inv s → (∀ x, jobs s !! jb_ID j = Some x → jb_State x ≠ Running) → is_Some (jobs s !! jb_ID j) →
  (process record_complete record_dead record_retry now jitter j res s).2 = s.
Proof.
  intros Hi Hn [x Hx]. specialize (Hn x Hx).
  assert (Hne : jb_ID j ≠ next_job s) by (apply (inv_ids s Hi) in Hx; lia).
  apply (process_ind record_complete record_dead record_retry (λ s', s' = s)); [done|..].
  - intros r s' (y & w & Hy & Hst & _)%complete_Some. by simplify_eq.
  - intros scope s' (y & w & Hy & Hst & _)%dead_letter_Some. by simplify_eq.
  - intros s' Hlt (y & w & Hy & Hst & _)%retry_Some. cbn in Hy. rewrite lookup_insert_ne in Hy by done. by simplify_eq.
Qed.
End Final.

(** ** The queue drains *)

Section Drain.
Context {W R : Type}.
Variable record_complete : job_row → R → Z → W → option W.
Variable record_dead : job_row → Z → W → option W.
Variable record_retry : job_row → W → option W.
Implicit Types s : Store W.

(** The claims a job with [k] attempts left can still lead to: its own, and
    those of the two rows a reaped job and the late failure of its first worker
    can leave behind. *)
Definition tries (k : Z) : Z := 2 ^ Z.max 0 k - 1.

Definition budget (j : job_row) : Z :=
  match jb_State j with
  | Ready => tries (jb_MaxAttempts j - jb_Attempt j + 1)
  | Running => tries (jb_MaxAttempts j - jb_Attempt j)
  | _ => 0
  end.

Definition held_budget (j : job_row) : Z := tries (jb_MaxAttempts j - jb_Attempt j).

Definition jobs_budget (m : gmap Z job_row) : Z := map_fold (λ _ j acc, budget j + acc) 0 m.

Definition work (x : Sys (W:=W)) : Z :=
  jobs_budget (jobs (sy_store x)) + sumZ (map held_budget (sy_held x)).

(** A run of steps and its claims. *)
Inductive run : Z → Sys → Sys → Prop :=
  | run_nil x : run 0 x x
  | run_cons n m x y z :
      step record_complete record_dead record_retry n x y → run m y z → run (n + m) x z.

Lemma tries_nonneg k : 0 ≤ tries k.
Proof. unfold tries. assert (0 < 2 ^ Z.max 0 k) by (apply Z.pow_pos_nonneg; lia). lia. Qed.

Lemma tries_step k : 0 ≤ k → tries (k + 1) = 1 + tries k + tries k.
Proof.
  intros Hk. unfold tries. rewrite !Z.max_r by lia. rewrite Z.pow_add_r by lia. lia.
Qed.

Lemma budget_nonneg j : 0 ≤ budget j.
Proof. unfold budget. destruct (jb_State j); (apply tries_nonneg || done). Qed.

Lemma jobs_budget_fresh (m : gmap Z job_row) id j :
  m !! id = None → jobs_budget (<[id := j]> m) = budget j + jobs_budget m.
Proof.
  intros Hm. unfold jobs_budget. apply (map_fold_insert_L (λ _ j acc, budget j + acc)); [intros; lia|done].
Qed.

Lemma jobs_budget_insert (m : gmap Z job_row) id x j :
  m !! id = Some x → jobs_budget (<[id := j]> m) = budget j - budget x + jobs_budget m.
Proof.
  intros Hx. rewrite <- (insert_delete_eq m id j), jobs_budget_fresh by apply lookup_delete_eq.
  rewrite <- (insert_id m id x Hx) at 2. rewrite <- (insert_delete_eq m id x), jobs_budget_fresh by apply lookup_delete_eq.
  lia.
Qed.

Lemma jobs_budget_nonneg m : 0 ≤ jobs_budget m.
Proof.
  induction m as [|id j m Hm IH] using map_ind; [done|]. rewrite jobs_budget_fresh by done.
  pose proof (budget_nonneg j). lia.
Qed.

Lemma jobs_budget_fmap f m :
  (∀ id j, m !! id = Some j → budget (f j) ≤ budget j) → jobs_budget (f <$> m) ≤ jobs_budget m.
Proof.
  induction m as [|id j m Hm IH] using map_ind; intros Hf; [by rewrite fmap_empty|].
  rewrite fmap_insert, !jobs_budget_fresh by (done || by rewrite lookup_fmap, Hm).
  pose proof (Hf id j (lookup_insert_eq _ _ _)). enough (jobs_budget (f <$> m) ≤ jobs_budget m) by lia.
  apply IH. intros i x Hx. apply (Hf i). rewrite lookup_insert_ne; [done|]. intros ->. by rewrite Hm in Hx.
Qed.

Lemma held_split h1 (j : job_row) h2 :
  sumZ (map held_budget (h1 ++ j :: h2)) = held_budget j + sumZ (map held_budget (h1 ++ h2)).
Proof.
  rewrite !map_app. cbn [map]. unfold sumZ. induction (map held_budget h1) as [|x l IH]; cbn in *; lia.
Qed.

Lemma ends_budget now jitter j s :
  inv s →
  let within s' := jobs_budget (jobs s') ≤ jobs_budget (jobs s) + held_budget j in
  (∀ res, within (process record_complete record_dead record_retry now jitter j res s).2) ∧
  (∀ e, within (process_read record_complete record_dead record_retry now jitter j e s).2).
Proof.
  intros Hi. pose proof (tries_nonneg (jb_MaxAttempts j - jb_Attempt j)) as Hp. fold (held_budget j) in Hp.
  apply process_ind; [lia|..].
  - intros r s' (x & w & Hx & Hst & ->)%complete_Some. cbn [jobs]. rewrite (jobs_budget_insert _ _ x) by done.
    pose proof (budget_nonneg x). cbn. lia.
  - intros scope s' (x & w & Hx & Hst & ->)%dead_letter_Some. cbn [jobs]. rewrite (jobs_budget_insert _ _ x) by done.
    pose proof (budget_nonneg x). cbn. lia.
  - intros s' Hlt (x & w & Hx & Hst & ->)%retry_Some. cbn [jobs set_rest set_jobs]. rewrite (jobs_budget_insert _ _ x) by done.
    cbn [jobs EnqueueJob]. rewrite jobs_budget_fresh.
    + pose proof (budget_nonneg x). unfold budget at 1 3. cbn. unfold held_budget.
      replace (jb_MaxAttempts j - (jb_Attempt j + 1) + 1) with (jb_MaxAttempts j - jb_Attempt j) by lia. lia.
    + destruct (jobs s !! next_job s) eqn:E; [|done]. apply (inv_ids s Hi) in E. lia.
Qed.

Lemma reap_budget now cutoff j : job_ok j → budget (reap now cutoff j) ≤ budget j.
Proof.
  intros Hok. unfold reap, stale, job_is. case_bool_decide as Hst; [|done]. cbn [andb].
  destruct (Running_ok j Hok Hst) as [Ha _].
  destruct (match jb_ClaimedAt j with Some c => _ | None => _ end); [|done]. unfold budget. rewrite Hst. cbn.
  destruct (Z.leb_spec (jb_MaxAttempts j) (jb_Attempt j)); cbn; [apply tries_nonneg|].
  replace (jb_MaxAttempts j - (jb_Attempt j + 1) + 1) with (jb_MaxAttempts j - jb_Attempt j) by lia. lia.
Qed.

Lemma cancel_budget (b : bool) j : budget (if b then set_state j Cancelled else j) ≤ budget j.
Proof. destruct b; [|done]. apply budget_nonneg. Qed.

Lemma step_budget n x y :
  sys_inv x → step record_complete record_dead record_retry n x y → n + work y ≤ work x.
Proof.
  intros [Hi _]. destruct 1; unfold work; cbn [sy_store sy_held] in *.
  - apply ClaimJob_Some in H as (id & x & Hx & Hc & -> & ->). pose proof (inv_ids s Hi id x Hx) as [-> _].
    pose proof (inv_ok s Hi id x Hx) as Hok. unfold claimable, job_is in Hc. bool_to_prop.
    unfold job_ok in Hok. rewrite H in Hok. cbn [jobs set_jobs]. rewrite (jobs_budget_insert _ _ x) by done.
    unfold budget, held_budget. cbn. rewrite H. rewrite tries_step by lia. unfold sumZ, held_budget. lia.
  - rewrite held_split. pose proof (proj1 (ends_budget now jitter j s Hi) res). cbv beta in *. lia.
  - rewrite held_split. pose proof (proj2 (ends_budget now jitter j s Hi) e). cbv beta in *. lia.
  - rewrite held_split. pose proof (tries_nonneg (jb_MaxAttempts j - jb_Attempt j)). unfold held_budget at 2. lia.
  - apply update_running_Some in H as (j & Hj & Hst & ->). cbn [jobs set_jobs].
    rewrite (jobs_budget_insert _ _ j) by done. unfold budget. cbn. rewrite Hst. lia.
  - unfold Sweep. destruct (StaleCutoff now threshold) as [c|]; [|lia].
    enough (jobs_budget (reap now c <$> jobs s) ≤ jobs_budget (jobs s)) by (cbn; lia).
    apply jobs_budget_fmap. intros id j Hj. apply reap_budget, (inv_ok s Hi id j Hj).
  - enough (jobs_budget (jobs (CancelReadyJobsForDispatch id s)) ≤ jobs_budget (jobs s)) by lia.
    apply jobs_budget_fmap. intros i j _. apply cancel_budget.
  - enough (jobs_budget (jobs (CancelActiveJobsForDispatch id s)) ≤ jobs_budget (jobs s)) by lia.
    apply jobs_budget_fmap. intros i j _. apply cancel_budget.
  - unfold SetDispatchStatus. cbn [jobs set_dispatches]. lia.
  - enough (jobs_budget (jobs (DeleteExpiredDispatches before created_at still_read s)) ≤ jobs_budget (jobs s)) by lia.
    apply jobs_budget_fmap. intros i j _. unfold detach_job. destruct (jb_DispatchID j) as [d|]; [by destruct (expired _ _ _ s d)|done].
  - cbn [jobs set_rest]. lia.
Qed.

(** [C7] The queue drains.  However workers (those that probe and those that read
    a zone file, a log or an index), the reaper, retention and the operator
    interleave (crashes, renewed leases, answers that come after the job was
    reaped and claimed again), the claims that jobs already enqueued can lead to
    are bounded by what those jobs are worth: 31 for a fresh job of five attempts,
    one for a fresh job of one attempt, nothing for one that ended.  So without
    new dispatches the claims come to an end. *)
Theorem claims_are_bounded n x y :
  reachable record_complete record_dead record_retry x → run n x y → 0 ≤ n + work y ≤ work x.
Proof.
  intros Hx Hr. apply reachable_inv in Hx. assert (Hle : n + work y ≤ work x ∧ 0 ≤ n).
  { induction Hr as [x|n m x y z Hs _ IH]; [lia|]. pose proof (step_budget _ _ _ Hx Hs).
    destruct IH as [? ?]; [by eapply step_inv|]. assert (0 ≤ n) by (destruct Hs; lia). lia. }
  assert (Hw : 0 ≤ work y); [|lia]. unfold work. pose proof (jobs_budget_nonneg (jobs (sy_store y))).
  enough (0 ≤ sumZ (map held_budget (sy_held y))) by lia.
  induction (sy_held y) as [|j l IH]; [done|]. cbn. pose proof (tries_nonneg (jb_MaxAttempts j - jb_Attempt j)).
  unfold sumZ in *. unfold held_budget at 1. lia.
Qed.

Lemma fresh_worth id p : fresh_params p → budget (new_job id p) = if ep_MaxAttempts p =? 5 then 31 else 1.
Proof. intros [Ha Hm]. unfold budget. cbn. by destruct Hm as [Hm|Hm]; rewrite Ha, Hm. Qed.
End Drain.

(** ** Claims and ticks *)

Section Ticks.
Context {W : Type}.
Implicit Types s : Store W.

Lemma earliest_least l best j :
  foldl earliest best l = Some j →
  (∀ x, x ∈ l → claim_before x j = false) ∧ (∀ b, best = Some b → claim_before b j = false).
Proof.
  assert (Hirr : ∀ x, claim_before x x = false).
  { intros x. unfold claim_before. rewrite Z.ltb_irrefl, Z.eqb_refl, Z.ltb_irrefl. done. }
  assert (Htr : ∀ x y z, claim_before y x = false → claim_before z y = false → claim_before z x = false).
  { unfold claim_before. intros x y z. rewrite !orb_false_iff, !andb_false_iff. intros H1 H2.
    repeat match goal with
    | H : _ ∧ _ |- _ => destruct H | H : _ ∨ _ |- _ => destruct H
    end; rewrite ?Z.ltb_ge, ?Z.eqb_neq in *; split; (lia || (left; lia) || (right; lia) || idtac).
    all: destruct (Z.eq_dec (jb_RunAfter z) (jb_RunAfter x)); (left; lia) || (right; lia). }
  assert (Has : ∀ x y, claim_before x y = true → claim_before y x = false).
  { unfold claim_before. intros x y. rewrite orb_true_iff, andb_true_iff, orb_false_iff, andb_false_iff.
    rewrite !Z.ltb_lt, !Z.ltb_ge, !Z.eqb_eq, !Z.eqb_neq. lia. }
  revert best. induction l as [|x l IH]; intros best; cbn [foldl].
  { intros ->. split; [set_solver|]. intros b [= <-]. apply Hirr. }
  intros H. destruct (IH _ H) as [Hl Hb]. unfold earliest in Hb.
  destruct best as [b|].
  - destruct (claim_before x b) eqn:E.
    + pose proof (Hb x eq_refl) as Hx. split.
      * intros y [->|Hy]%elem_of_cons; [done|by apply Hl].
      * intros b' [= <-]. eapply Htr; [exact Hx|]. by apply Has.
    + pose proof (Hb b eq_refl) as Hbj. split; [|intros b' [= <-]; done].
      intros y [->|Hy]%elem_of_cons; [|by apply Hl]. by eapply Htr.
  - split; [|done]. intros y [->|Hy]%elem_of_cons; [by apply Hb|by apply Hl].
Qed.

Lemma earliest_None l best : foldl earliest best l = None → l = [] ∧ best = None.
Proof.
  revert best. induction l as [|x l IH]; intros best; [done|]. cbn [foldl]. intros [_ H]%IH.
  unfold earliest in H. destruct best as [b|]; [by destruct (claim_before x b)|done].
Qed.

Lemma elem_of_claimable now locked s j :
  j ∈ List.filter (claimable now locked) (map snd (map_to_list (jobs s))) ↔
    claimable now locked j = true ∧ ∃ id, jobs s !! id = Some j.
Proof.
  rewrite list_elem_of_In, filter_In, <- list_elem_of_In, list_elem_of_fmap. split.
  - intros [([id x] & -> & Hx%elem_of_map_to_list) Hc]. split; [done|]. by exists id.
  - intros [Hc [id Hj]]. split; [|done]. exists (id, j). split; [done|by apply elem_of_map_to_list].
Qed.

(** The claim.  A worker gets no job exactly when no ready job is due and
    free of other transactions' locks; else it gets, of those, the one scheduled
    first, the older of two scheduled together, and the table then has that row
    running with its lease begun and every other row as it was: no second claim
    returns it while it runs. *)
Theorem ClaimJob_spec now locked s :
  inv s →
  match ClaimJob now locked s with
  | None => ∀ id j, jobs s !! id = Some j → claimable now locked j = false
  | Some (j', s') =>
      ∃ j, jobs s !! jb_ID j = Some j ∧ jb_State j = Ready ∧ jb_RunAfter j ≤ now ∧ locked (jb_ID j) = false ∧
        j' = set_claim j Running now ∧
        (∀ id x, jobs s !! id = Some x → claimable now locked x = true →
           jb_RunAfter j < jb_RunAfter x ∨ jb_RunAfter j = jb_RunAfter x ∧ jb_ID j ≤ jb_ID x) ∧
        jobs s' !! jb_ID j = Some j' ∧ (∀ id, id ≠ jb_ID j → jobs s' !! id = jobs s !! id) ∧
        (∀ now2 locked2 j2 s2, ClaimJob now2 locked2 s' = Some (j2, s2) → jb_ID j2 ≠ jb_ID j)
  end.
Proof.
  intros Hi. destruct (ClaimJob now locked s) as [[j' s']|] eqn:Hc.
  - pose proof Hc as Hc'. unfold ClaimJob in Hc'. apply bind_Some in Hc' as (j & Hj & [= <- <-]).
    apply earliest_least in Hj as Hleast. destruct Hleast as [Hleast _].
    apply earliest_in in Hj as [?|Hj]; [done|]. apply elem_of_claimable in Hj as [Hcl [id Hid]].
    pose proof (inv_ids s Hi id j Hid) as [Heq _]. subst id. pose proof Hcl as Hcl'. unfold claimable, job_is in Hcl'. bool_to_prop.
    exists j. split_and!; try done.
    + intros i x Hx Hx'. pose proof (Hleast x) as Hb. rewrite elem_of_claimable in Hb. specialize (Hb (conj Hx' (ex_intro _ i Hx))).
      unfold claim_before in Hb. apply orb_false_iff in Hb as [Hb1 Hb2]. apply Z.ltb_ge in Hb1.
      apply andb_false_iff in Hb2. rewrite Z.eqb_neq, Z.ltb_ge in Hb2. lia.
    + cbn. by rewrite lookup_insert_eq.
    + intros i Hne. cbn. by rewrite lookup_insert_ne.
    + intros now2 locked2 j2 s2 (i & y & Hy & Hcy & -> & _)%ClaimJob_Some Heq. cbn in Hy, Heq.
      unfold claimable, job_is in Hcy. bool_to_prop. apply lookup_insert_Some in Hy as [[<- <-]|[Hne Hy]]; [done|].
      pose proof (inv_ids s Hi i y Hy) as [Hyi _]. congruence.
  - unfold ClaimJob in Hc. intros id j Hj. destruct (claimable now locked j) eqn:E; [|done].
    destruct (foldl earliest None _) as [b|] eqn:Hb; [done|]. apply earliest_None in Hb as [Hb _].
    assert (Hin : j ∈ List.filter (claimable now locked) (map snd (map_to_list (jobs s)))).
    { apply elem_of_claimable. split; [done|]. by exists id. }
    rewrite Hb in Hin. by apply not_elem_of_nil in Hin.
Qed.

(** The tick of a window, for a clock past 1970 and a cadence of whole seconds. *)
Lemma scheduledTick_window now secs :
  0 ≤ now → 0 < secs →
  let tick := scheduledTick now (secs * second) in
  tick ≤ now < tick + secs * second ∧ (secs * second | tick) ∧
  ∀ now', tick ≤ now' < tick + secs * second → scheduledTick now' (secs * second) = tick.
Proof.
  intros Hn Hs. cbv zeta. assert (H0 : 0 < second) by reflexivity.
  assert (Heq : ∀ n, 0 ≤ n → scheduledTick n (secs * second) = n / (secs * second) * (secs * second)).
  { intros n Hn'. unfold scheduledTick. rewrite (proj2 (Z.leb_gt _ 0)) by nia. rewrite Z.quot_mul by lia.
    rewrite (proj2 (Z.leb_gt secs 0)) by lia. rewrite Z.quot_div_nonneg by (try apply Z.div_pos; lia).
    rewrite Z.div_div, (Z.mul_comm second secs) by lia. lia. }
  rewrite Heq by done. pose proof (Z.div_mod now (secs * second) ltac:(nia)).
  pose proof (Z.mod_pos_bound now (secs * second) ltac:(nia)). split; [lia|]. split; [apply Z.divide_factor_r|].
  intros now' Hw. assert (0 ≤ now / (secs * second)) by (apply Z.div_pos; nia). rewrite Heq by nia. f_equal.
  symmetry. apply Z.div_unique with (now' - now / (secs * second) * (secs * second)); lia.
Qed.

Lemma TryFanOut_taken scan tick s :
  TryFanOut scan tick s = None ↔ tick_taken scan tick s = true.
Proof. unfold TryFanOut. by destruct (tick_taken _ _ _). Qed.

Lemma tick_taken_true scan tick s :
  tick_taken scan tick s = true ↔ ∃ id d, dispatches s !! id = Some d ∧ dp_ScanID d = scan ∧ dp_ScheduledTime d = tick.
Proof.
  unfold tick_taken. rewrite existsb_bool. split.
  - intros ([id d] & Hd%elem_of_map_to_list & [H1%Z.eqb_eq H2%Z.eqb_eq]%andb_true_iff). by exists id, d.
  - intros (id & d & Hd & <- & <-). exists (id, d). split; [by apply elem_of_map_to_list|]. cbn. by rewrite !Z.eqb_refl.
Qed.

(** The dispatches after the gate and the abandonment, as far as ticks and the
    claimed row go. *)
Lemma gate_dispatch kind scan id threshold s d :
  dispatches s !! id = Some d → dp_Status d = FannedOut →
  match gateHotTick kind scan id threshold s with
  | (SkipNone, s') => s' = s ∧ (hotLagGateApplies kind = true → HotLagGateArmed threshold = true →
                                ScanHasNonTerminalJobs scan id s = false)
  | (SkipTickDispatched, _) => False
  | (SkipCadenceLag, s') => ∃ d', dispatches s' !! id = Some d' ∧ dp_Status d' = Skipped ∧ dp_ScanID d' = dp_ScanID d ∧
                     dp_ScheduledTime d' = dp_ScheduledTime d ∧ ScanHasNonTerminalJobs scan id s = true ∧ jobs s' = jobs s
  end.
Proof.
  intros Hd Hst. unfold gateHotTick, hotTickLags. destruct (hotLagGateApplies kind); cbn [negb]; [|done].
  destruct (HotLagGateArmed threshold); cbn [negb]; [|done]. destruct (ScanHasNonTerminalJobs scan id s); cbn [negb]; [|done].
  eexists. cbn. rewrite lookup_alter_eq, Hd. cbn. rewrite Hst. split; [done|]. done.
Qed.

Lemma has_active_spec P s :
  has_active P s = true ↔ ∃ id j, jobs s !! id = Some j ∧ P j = true ∧ active j = true.
Proof.
  unfold has_active. rewrite existsb_bool. split.
  - intros ([id j] & Hj%elem_of_map_to_list & [? ?]%andb_true_iff). by exists id, j.
  - intros (id & j & Hj & H1 & H2). exists (id, j). split; [by apply elem_of_map_to_list|]. cbn. by rewrite H1, H2.
Qed.

(** [C9] A window is dispatched once, and a gated scan never over its own tail.
    Whatever the outcome of a claim, the tick is taken afterwards, so no later
    poll of the same window claims it: it leaves the store as it found it.  A
    claim that succeeds took a free tick and, for the hot scan with the gate
    armed, found no job of an earlier dispatch of that scan still ready or
    running; a claim refused for lag has recorded the dispatch as skipped. *)
Theorem claimDispatch_once_a_window kind scan now now' secs threshold s :
  inv s → 0 ≤ now → 0 < secs →
  let tick := scheduledTick now (secs * second) in
  tick ≤ now' < tick + secs * second →
  let '(claimed, why, s') := claimDispatch kind scan tick threshold s in
  claimDispatch kind scan (scheduledTick now' (secs * second)) threshold s' = (None, SkipTickDispatched, s') ∧
  (why = SkipTickDispatched ↔ tick_taken scan tick s = true) ∧
  match why with
  | SkipNone => ∃ id d, claimed = Some id ∧ dispatches s' !! id = Some d ∧ dp_ScanID d = scan ∧ dp_ScheduledTime d = tick ∧
      dp_Status d = FannedOut ∧ dp_FanoutComplete d = false ∧ dp_FanoutAbandoned d = false ∧
      (hotLagGateApplies kind = true → 0 < threshold →
       ∀ i j, jobs s !! i = Some j → jb_ScanID j = scan → jb_DispatchID j ≠ Some id → active j = false)
  | SkipTickDispatched => claimed = None ∧ s' = s
  | SkipCadenceLag => claimed = None ∧ jobs s' = jobs s ∧
      ∃ id d, dispatches s' !! id = Some d ∧ dp_ScanID d = scan ∧ dp_ScheduledTime d = tick ∧ dp_Status d = Skipped
  end.
Proof.
  intros Hi Hn Hs tick Hw. pose proof (scheduledTick_window now secs Hn Hs) as (_ & _ & Hsame). fold tick in Hsame.
  rewrite (Hsame now' Hw). clear Hsame Hw.
  assert (Hagain : ∀ s', tick_taken scan tick s' = true → claimDispatch kind scan tick threshold s' = (None, SkipTickDispatched, s')).
  { intros s' Ht%TryFanOut_taken. unfold claimDispatch. by rewrite Ht. }
  unfold claimDispatch at 1. destruct (TryFanOut scan tick s) as [[id s1]|] eqn:Ht.
  2: { apply TryFanOut_taken in Ht. split; [by apply Hagain|]. by split. }
  assert (Hfree : tick_taken scan tick s = false).
  { apply not_true_iff_false. intros H%TryFanOut_taken. by rewrite H in Ht. }
  assert (Hd : dispatches s1 !! id = Some (mkDispatchRow scan tick FannedOut false false) ∧ jobs s1 = jobs s).
  { unfold TryFanOut in Ht. rewrite Hfree in Ht. injection Ht as <- <-. cbn. by rewrite lookup_insert_eq. }
  destruct Hd as [Hd Hj1]. pose proof (gate_dispatch kind scan id threshold s1 _ Hd eq_refl) as Hg.
  destruct (gateHotTick kind scan id threshold s1) as [[] s2].
  - destruct Hg as [-> Hg].
    set (s' := if String.eqb kind "hot" then AbandonUnfinishedDispatches scan id s1 else s1).
    assert (Hd' : dispatches s' !! id = Some (mkDispatchRow scan tick FannedOut false false)).
    { unfold s'. destruct (String.eqb kind "hot"); [|done]. cbn. rewrite map_lookup_imap, Hd. cbn.
      rewrite !Z.eqb_refl. done. }
    split; [apply Hagain, tick_taken_true; eauto 10|]. split; [by rewrite Hfree|].
    exists id, (mkDispatchRow scan tick FannedOut false false). split_and!; try done.
    intros Ha Hth i j Hij Hsc Hne. assert (Harm : HotLagGateArmed threshold = true).
    { unfold HotLagGateArmed, StaleCutoff. rewrite (proj2 (Z.leb_gt _ _)) by done. by apply bool_decide_eq_true. }
    specialize (Hg Ha Harm). apply not_true_iff_false in Hg. apply not_true_iff_false. intros Hact. apply Hg.
    apply has_active_spec. exists i, j. rewrite Hj1. split; [done|]. split; [|done]. rewrite Hsc, Z.eqb_refl.
    unfold of_dispatch. by rewrite bool_decide_false.
  - done.
  - destruct Hg as (d' & Hd' & Hst & Hsc & Htk & _ & Hj2). cbn in Hsc, Htk.
    split; [apply Hagain, tick_taken_true; eauto 10|]. split; [by rewrite Hfree|].
    split; [done|]. split; [congruence|]. exists id, d'. by split_and!.
Qed.
End Ticks.

(** ** The streamed fan-out *)

Section Stream.
Context {W : Type}.
Implicit Types s : Store W.

Definition enqueue_all (ps : list job_params) (s : Store W) : Store W := foldl (λ s p, EnqueueJob p s) s ps.

Lemma enqueue_all_app ps qs s : enqueue_all (ps ++ qs) s = enqueue_all qs (enqueue_all ps s).
Proof. unfold enqueue_all. by rewrite foldl_app. Qed.

Lemma flush_Some d final ok chunk s s' :
  flush d final ok chunk s = Some s' →
  s' = (if final then MarkFanOutComplete d else id) (enqueue_all chunk s).
Proof.
  unfold flush. destruct (Nat.eqb_spec (length chunk) 0) as [H0|H0]; cbn [andb].
  - apply nil_length_inv in H0. subst chunk. destruct final; cbn [negb]; [|by intros [= <-]].
    destruct ok; [|done]. by intros [= <-].
  - destruct ok; [|done]. intros [= <-]. by destruct final.
Qed.

Lemma stream_loop_spec d ok js chunk total k s :
  (length chunk < chunkCommitSize)%nat →
  let '(total', clean, s') := stream_loop d ok js chunk total k s in
  ∃ n, (n ≤ length (chunk ++ js))%nat ∧ total' = total + Z.of_nat n ∧
    s' = (if clean then MarkFanOutComplete d else id) (enqueue_all (take n (chunk ++ js)) s) ∧
    (if clean then n = length (chunk ++ js) else (∃ m, n = m * chunkCommitSize)%nat ∧ ∃ i, ok i = false).
Proof.
  revert chunk total k s. induction js as [|j js IH]; intros chunk total k s Hc; cbn [stream_loop].
  - rewrite app_nil_r. destruct (flush d true (ok k) chunk s) as [s'|] eqn:Hf.
    + apply flush_Some in Hf. exists (length chunk). split; [lia|]. split; [done|].
      rewrite take_ge by lia. by split.
    + exists 0%nat. split; [lia|]. split; [lia|]. split; [done|]. split; [by exists 0%nat|].
      exists k. unfold flush in Hf. destruct (ok k); [|done]. by destruct (_ && _).
  - destruct (Nat.leb_spec chunkCommitSize (length (chunk ++ [j]))) as [Hle|Hlt].
    + destruct (flush d false (ok k) (chunk ++ [j]) s) as [s1|] eqn:Hf.
      * apply flush_Some in Hf. cbn in Hf. subst s1.
        specialize (IH [] (total + Z.of_nat (length (chunk ++ [j]))) (S k) (enqueue_all (chunk ++ [j]) s)).
        destruct (stream_loop d ok js [] _ (S k) _) as [[total' clean] s'].
        destruct IH as (n & Hn & -> & -> & Hend); [cbn; unfold chunkCommitSize; lia|]. cbn [app] in *.
        exists (length (chunk ++ [j]) + n)%nat.
        assert (Heq : chunk ++ j :: js = (chunk ++ [j]) ++ js) by by rewrite <- app_assoc.
        rewrite Heq, (length_app (chunk ++ [j])). split; [lia|]. split; [lia|]. split.
        -- by rewrite take_app_add, (enqueue_all_app (chunk ++ [j])) .
        -- destruct clean; [lia|]. destruct Hend as [[m ->] Hk]. split; [|done]. exists (S m).
           rewrite length_app in *. cbn [length] in *. unfold chunkCommitSize in *. lia.
      * exists 0%nat. split; [lia|]. split; [lia|]. split; [done|]. split; [by exists 0%nat|].
        exists k. unfold flush in Hf. destruct (ok k); [|done]. by destruct (_ && _).
    + specialize (IH (chunk ++ [j]) total k s Hlt). destruct (stream_loop d ok js _ total k s) as [[total' clean] s'].
      by rewrite <- app_assoc in IH.
Qed.

Lemma enqueue_all_dispatches ps s : dispatches (enqueue_all ps s) = dispatches s.
Proof. unfold enqueue_all. revert s. induction ps as [|p ps IH]; intros s; [done|]. cbn. by rewrite IH. Qed.

(** The mark says the fan-out is whole.  A streamed fan-out, wherever it is
    cut off by a transaction that does not commit, has enqueued the first
    [total] of its jobs, each once and in order, and nothing else; the dispatch
    is marked complete exactly when every one of them is in; what a failure
    leaves is a whole number of chunks; and it is never cut off when every
    transaction commits. *)
Theorem streamEnqueue_marks_the_whole d row ok ps s :
  dispatches s !! d = Some row → dp_FanoutComplete row = false →
  let '(total, clean, s') := streamEnqueue d ok ps s in
  0 ≤ total ≤ Z.of_nat (length ps) ∧
  jobs s' = jobs (enqueue_all (take (Z.to_nat total) ps) s) ∧ next_job s' = next_job s + total ∧
  (∃ row', dispatches s' !! d = Some row' ∧ dp_FanoutComplete row' = clean) ∧
  (clean = true → total = Z.of_nat (length ps)) ∧
  (clean = false → (500 | total) ∧ ∃ k, ok k = false).
Proof.
  intros Hd Hf. unfold streamEnqueue. pose proof (stream_loop_spec d ok ps [] 0 0 s) as H.
  destruct (stream_loop d ok ps [] 0 0 s) as [[total clean] s'].
  destruct H as (n & Hn & -> & -> & Hend); [cbn; unfold chunkCommitSize; lia|]. cbn [app] in *.
  rewrite Z.add_0_l, Nat2Z.id. split; [lia|].
  assert (Hjobs : ∀ (x : Store W), jobs ((if clean then MarkFanOutComplete d else id) x) = jobs x ∧
                                  next_job ((if clean then MarkFanOutComplete d else id) x) = next_job x) by (by destruct clean).
  destruct (Hjobs (enqueue_all (take n ps) s)) as [-> ->]. split; [done|]. split.
  { rewrite <- (firstn_length_le ps Hn) at 2. generalize (take n ps). clear. intros l.
    unfold enqueue_all. revert s. induction l as [|p l IH]; intros s; cbn [foldl length]; [lia|].
    rewrite IH. cbn. lia. }
  split.
  { destruct clean; cbn; rewrite ?lookup_alter_eq, enqueue_all_dispatches, Hd; eexists; (split; [done|]); done. }
  split; [intros ->; by rewrite Hend|]. intros ->. destruct Hend as [[m ->] Hk]. split; [|done].
  exists (Z.of_nat m). unfold chunkCommitSize. lia.
Qed.
End Stream.

(** ** Back-off *)

(** The retry curve.  The waits before the second to the fifth attempt are
    capped at 4, 8, 16 and 32 minutes, and every later one at 32; the jitter
    takes at most half of the cap away.  So the whole schedule of a job of five
    attempts takes at most an hour and at least half of one, whatever the
    random fractions are. *)
Theorem jitteredBackoff_within_the_hour attempt j2 j3 j4 j5 :
  (1 ≤ attempt → 2 * minute ≤ backoff_ceiling attempt ≤ 32 * minute ∧
    ∀ j, 0 ≤ j ≤ backoff_ceiling attempt / 2 →
      backoff_ceiling attempt / 2 ≤ jitteredBackoff attempt j ≤ backoff_ceiling attempt) ∧
  (5 ≤ attempt → backoff_ceiling attempt = 32 * minute) ∧
  (0 ≤ j2 ≤ backoff_ceiling 2 / 2 → 0 ≤ j3 ≤ backoff_ceiling 3 / 2 →
   0 ≤ j4 ≤ backoff_ceiling 4 / 2 → 0 ≤ j5 ≤ backoff_ceiling 5 / 2 →
   30 * minute ≤ jitteredBackoff 2 j2 + jitteredBackoff 3 j3 + jitteredBackoff 4 j4 + jitteredBackoff 5 j5 ≤ 60 * minute).
Proof.
  assert (Hgen : ∀ n d, 2 * minute ≤ d ≤ 32 * minute → 2 * minute ≤ doubled n d ≤ 32 * minute).
  { induction n as [|n IH]; intros d Hd; cbn [doubled]; [done|].
    destruct (Z.leb_spec (32 * minute) (d * 2)); [unfold minute, second in *; lia|]. apply IH. unfold minute, second in *. lia. }
  split; [|split].
  - intros _. assert (Hc : 2 * minute ≤ backoff_ceiling attempt ≤ 32 * minute) by (apply Hgen; unfold minute, second; lia).
    split; [done|]. intros j Hj. unfold jitteredBackoff. pose proof (Z.mul_div_le (backoff_ceiling attempt) 2). lia.
  - intros Ha. unfold backoff_ceiling. replace (Z.to_nat (attempt - 1)) with (4 + Z.to_nat (attempt - 5))%nat by lia.
    reflexivity.
  - unfold jitteredBackoff.
    change (backoff_ceiling 2) with (4 * minute). change (backoff_ceiling 3) with (8 * minute).
    change (backoff_ceiling 4) with (16 * minute). change (backoff_ceiling 5) with (32 * minute).
    change (4 * minute / 2) with (2 * minute). change (8 * minute / 2) with (4 * minute).
    change (16 * minute / 2) with (8 * minute). change (32 * minute / 2) with (16 * minute).
    generalize minute. intros. lia.
Qed.

(** ** A history *)

Definition ex_complete (j : job_row) (r b : Z) (w : list Z) : option (list Z) := Some (r :: w).
Definition ex_dead (j : job_row) (b : Z) (w : list Z) : option (list Z) := Some w.
Definition ex_retry (j : job_row) (w : list Z) : option (list Z) := Some w.

Definition ex_params (d : Z) : job_params := mkJobParams 1 (Some 1) (Some d) "connect-outcome" "s" "a" "o" 1 5 0.
Definition ex_threshold : Z := 15 * minute.

Definition ex_s1 : Store (list Z) := (claimDispatch "hot" 1 0 ex_threshold (empty_store [])).2.
Definition ex_s2 : Store (list Z) := default ex_s1 (flush 1 true true [ex_params 1; ex_params 1] ex_s1).
Definition ex_c1 : job_row * Store (list Z) := default (new_job 0 (ex_params 0), ex_s2) (ClaimJob 10 (λ _, false) ex_s2).
Definition ex_s4 : Store (list Z) := (process ex_complete ex_dead ex_retry 20 0 ex_c1.1 (Some 7) ex_c1.2).2.

Lemma ex_reachable1 : reachable ex_complete ex_dead ex_retry (mkSys ex_s2 []).
Proof.
  exists []. eapply rtc_l; [right; apply (step_claim_dispatch "hot" 1 0 ex_threshold)|].
  eapply rtc_l; [right; apply (step_flush 1 true true [ex_params 1; ex_params 1] _ [] ex_s2); [|vm_compute; reflexivity]|apply rtc_refl].
  by repeat (constructor || left).
Qed.

Lemma ex_claims : rtc (any_step ex_complete ex_dead ex_retry) (mkSys ex_s2 []) (mkSys ex_s4 []).
Proof.
  eapply rtc_l; [left; exists 1; apply (step_claim _ _ _ 10 (λ _, false) ex_s2 [] ex_c1.1 ex_c1.2); vm_compute; reflexivity|].
  eapply rtc_l; [left; exists 0; apply (step_finish _ _ _ 20 0 (Some 7) ex_c1.2 [] ex_c1.1 [])|]. apply rtc_refl.
Qed.

Lemma ex_reachable2 : reachable ex_complete ex_dead ex_retry (mkSys ex_s4 []).
Proof. destruct ex_reachable1 as [w H]. exists w. etrans; [exact H|exact ex_claims]. Qed.

Lemma one_batch_per_job_witness :
  ∃ id j, jobs ex_s4 !! id = Some j ∧ jb_BatchID j = Some 1 ∧
    (jb_State j = Done ∧ bt_Outcome (mkBatchRow 1 (Some 1) (Some 1) "connect-outcome" "completed" "o" "a") = outcomeCompleted ∨
     jb_State j = Dead ∧ bt_Outcome (mkBatchRow 1 (Some 1) (Some 1) "connect-outcome" "completed" "o" "a") = outcomeDeadLettered) ∧
    ∀ id' j', jobs ex_s4 !! id' = Some j' → jb_BatchID j' = Some 1 → id' = id.
Proof.
  destruct (one_batch_per_job ex_complete ex_dead ex_retry (mkSys ex_s4 []) ex_reachable2) as [H _].
  apply (H 1 (mkBatchRow 1 (Some 1) (Some 1) "connect-outcome" "completed" "o" "a")). vm_compute. reflexivity.
Defined.

(** From the done job on: the other job is claimed, reaped and cancelled. *)
Definition ex_c2 : job_row * Store (list Z) := default (new_job 0 (ex_params 0), ex_s4) (ClaimJob 30 (λ _, false) ex_s4).
Definition ex_s5 : Store (list Z) := CancelActiveJobsForDispatch 1 (Sweep (31 + ex_threshold) ex_threshold ex_c2.2).

Lemma terminal_jobs_are_final_witness :
  (∃ j j', jobs ex_s4 !! 1 = Some j ∧ jobs ex_s5 !! 1 = Some j' ∧ same_job j j') ∧ option_map jb_State (jobs ex_s5 !! 2) = Some Cancelled.
Proof.
  assert (Hr : rtc (any_step ex_complete ex_dead ex_retry) (mkSys ex_s4 []) (mkSys ex_s5 [ex_c2.1])).
  { eapply rtc_l; [left; exists 1; apply (step_claim _ _ _ 30 (λ _, false) ex_s4 [] ex_c2.1 ex_c2.2); vm_compute; reflexivity|].
    eapply rtc_l; [left; exists 0; apply (step_sweep _ _ _ (31 + ex_threshold) ex_threshold)|].
    eapply rtc_l; [left; exists 0; apply (step_cancel_active _ _ _ 1)|]. apply rtc_refl. }
  destruct (jobs ex_s4 !! 1) as [j|] eqn:Hj; [|vm_compute in Hj; discriminate].
  assert (Ht : terminal j).
  { assert (Hs : option_map jb_State (jobs ex_s4 !! 1) = Some Done) by (vm_compute; reflexivity).
    rewrite Hj in Hs. cbn in Hs. injection Hs as Hs. split; rewrite Hs; discriminate. }
  destruct (terminal_jobs_are_final ex_complete ex_dead ex_retry _ _ 1 j ex_reachable2 Hr Hj Ht) as [H1 H2].
  split; [|vm_compute; reflexivity]. destruct H1 as (j' & H1 & Hs). exists j, j'. split; [reflexivity|]. split; [exact H1|exact Hs].
Defined.

(** The worker of the cancelled job answers all the same. *)
Lemma lost_job_commits_nothing_witness :
  (process ex_complete ex_dead ex_retry 99 0 ex_c2.1 (Some 8) ex_s5).2 = ex_s5 ∧ rest ex_s5 = [7].
Proof.
  assert (Hi : inv ex_s5).
  { unfold ex_s5. apply inv_fmap; [|intros j Hj; apply (keeps_cancel (λ j, of_dispatch 1 j && active j)); [|exact Hj];
      intros x [_ Hx]%andb_true_iff; by apply active_spec].
    apply inv_Sweep. destruct (reachable_inv _ _ _ _ ex_reachable2) as [H _].
    by destruct (inv_ClaimJob 30 (λ _, false) ex_s4 ex_c2.1 ex_c2.2 H ltac:(vm_compute; reflexivity)). }
  split; [|vm_compute; reflexivity].
  apply (lost_job_commits_nothing ex_complete ex_dead ex_retry 99 0 ex_c2.1 (Some 8) ex_s5 Hi).
  - intros x Hx Hs. assert (Hst : option_map jb_State (jobs ex_s5 !! jb_ID ex_c2.1) = Some Cancelled) by (vm_compute; reflexivity).
    rewrite Hx in Hst. cbn in Hst. rewrite Hs in Hst. discriminate.
  - assert (Hst : option_map jb_State (jobs ex_s5 !! jb_ID ex_c2.1) = Some Cancelled) by (vm_compute; reflexivity).
    destruct (jobs ex_s5 !! jb_ID ex_c2.1) as [x|]; [by exists x|discriminate].
Defined.

Lemma claims_are_bounded_witness :
  work (mkSys ex_s2 []) = 62 ∧ 0 ≤ 1 + work (mkSys ex_s4 []) ≤ work (mkSys ex_s2 []).
Proof.
  split; [vm_compute; reflexivity|].
  apply (claims_are_bounded ex_complete ex_dead ex_retry 1 (mkSys ex_s2 []) (mkSys ex_s4 []) ex_reachable1).
  apply (run_cons ex_complete ex_dead ex_retry 1 0 _ (mkSys ex_c1.2 [ex_c1.1]));
    [apply (step_claim _ _ _ 10 (λ _, false) ex_s2 [] ex_c1.1 ex_c1.2); vm_compute; reflexivity|].
  apply (run_cons ex_complete ex_dead ex_retry 0 0 _ (mkSys ex_s4 []));
    [apply (step_finish _ _ _ 20 0 (Some 7) ex_c1.2 [] ex_c1.1 [])|apply run_nil].
Defined.

Lemma ClaimJob_spec_witness :
  inv ex_s2 ∧ match ClaimJob 10 (λ _, false) ex_s2 with
              | None => False
              | Some (j', _) => jb_ID j' = 1 ∧ jb_State j' = Running
              end.
Proof.
  assert (Hi : inv ex_s2) by (destruct (reachable_inv _ _ _ _ ex_reachable1) as [H _]; exact H). split; [exact Hi|].
  pose proof (ClaimJob_spec 10 (λ _, false) ex_s2 Hi) as H. destruct (ClaimJob 10 (λ _, false) ex_s2) as [[j' s']|] eqn:E.
  - vm_compute in E. injection E as <- _. split; reflexivity.
  - vm_compute in E. discriminate.
Defined.

Lemma claimDispatch_once_a_window_witness :
  let now := 1700000000 * second in
  let tick := scheduledTick now (86400 * second) in
  inv ex_s2 ∧ claimDispatch "hot" 1 tick ex_threshold ex_s2 = (None, SkipCadenceLag, (claimDispatch "hot" 1 tick ex_threshold ex_s2).2) ∧
  claimDispatch "hot" 1 (scheduledTick (now + 5) (86400 * second)) ex_threshold (claimDispatch "hot" 1 tick ex_threshold ex_s2).2 =
    (None, SkipTickDispatched, (claimDispatch "hot" 1 tick ex_threshold ex_s2).2).
Proof.
  intros now tick. assert (Hi : inv ex_s2) by (destruct (reachable_inv _ _ _ _ ex_reachable1) as [H _]; exact H).
  split; [exact Hi|]. split; [vm_compute; reflexivity|].
  assert (H1 : 0 ≤ now) by (vm_compute; discriminate). assert (H2 : 0 < 86400) by reflexivity.
  assert (H3 : tick ≤ now + 5 < tick + 86400 * second) by (split; [vm_compute; discriminate|vm_compute; reflexivity]).
  pose proof (claimDispatch_once_a_window "hot" 1 now (now + 5) 86400 ex_threshold ex_s2 Hi H1 H2 H3) as H.
  fold tick in H. destruct (claimDispatch "hot" 1 tick ex_threshold ex_s2) as [[c w] s']. exact (proj1 H).
Defined.

Lemma streamEnqueue_marks_the_whole_witness :
  let '(total, clean, s') := streamEnqueue 1 (λ _, true) [ex_params 1] ex_s1 in
  total = 1 ∧ clean = true ∧ ∃ row', dispatches s' !! 1 = Some row' ∧ dp_FanoutComplete row' = clean.
Proof.
  destruct (dispatches ex_s1 !! 1) as [row|] eqn:Hd; [|vm_compute in Hd; discriminate].
  assert (Hf : dp_FanoutComplete row = false) by (vm_compute in Hd; injection Hd as <-; reflexivity).
  pose proof (streamEnqueue_marks_the_whole 1 row (λ _, true) [ex_params 1] ex_s1 Hd Hf) as H.
  destruct (streamEnqueue 1 (λ _, true) [ex_params 1] ex_s1) as [[total clean] s'] eqn:E.
  destruct H as (_ & _ & _ & H & _). vm_compute in E. injection E as <- <- <-. split; [reflexivity|]. split; [reflexivity|]. exact H.
Defined.
