(* ===== verification/Delivery.v ===== *)
(** * Notification channels: delivery of messages and of report notices

    [internal/delivery] and [report/notify.go] over [db/delivery.sql.go] and
    [report_notification.sql.go], with the channel form's URL check
    ([cmd/web/settings.go]).  A stored message becomes one row for each channel
    its class routes to; a runner claims due rows, POSTs a signed body and writes
    the outcome down.  Report notices are rows of a second table with the same
    life.  [url.Parse], [encoding/json], the resolver and the HTTP client are
    parameters; the clock and the commit of a write are arguments. *)

From S2P Require Import Prelude GoTime GoStr NetIP NetParse NetText GoBytes GoConv Custody ClientIP Egress Auth Message JobQueue.

(** ** Text *)

(** [url.PathEscape]. *)
Fixpoint PathEscape (s : string) : string :=
  match s with
  | "" => ""
  | String c s' =>
      if is_upper c || is_lower c || is_digit c ||
         bool_decide (c ∈ ["-"; "_"; "."; "~"; "$"; "&"; "+"; ":"; "="; "@"]%char)
      then String c (PathEscape s')
      else String "%" (String (hex_upper (code c / 16)) (String (hex_upper (code c mod 16)) (PathEscape s')))
  end.

Fixpoint trimSlash_from (fuel : nat) (s : string) : string :=
  match fuel with
  | O => s
  | S fuel' => match cut_suffix "/" s with Some s' => trimSlash_from fuel' s' | None => s end
  end.

(** Each pass removes a byte. *)
Definition trimSlash (s : string) : string := trimSlash_from (String.length s) s.

(** ** The body of a POST *)

Record Firing := mkFiring {
  fg_ID : Z; fg_Cause : string; fg_Class : string; fg_SubjectKind : string; fg_FiredAt : string;
  fg_Instant : Z; fg_Census : list Z; fg_Headline : string
}.

Record Body := mkBody {
  by_Message : Z; by_Class : string; by_Cause : string; by_SubjectKind : string; by_SubjectKey : string;
  by_Instant : Z; by_Headline : string; by_Census : option Z; by_Link : string
}.

(** The body of a report notice: a period and a link, no row of the estate. *)
Record ReadyBody := mkReady { rb_Kind : string; rb_Report : string; rb_PeriodStart : Z; rb_PeriodEnd : Z; rb_URL : string }.

(** [message.ParseCensus] and the marshalling of both bodies. *)
Class BodyJSON := {
  ParseCensus : list Z → option Census;
  MarshalBody : Body → option (list Z);
  MarshalReadyBody : ReadyBody → option (list Z)
}.

Definition link (base cause subjectKind firedAt : string) : string :=
  if String.eqb base "" then ""
  else
    let base := trimSlash base in
    let kind := LinkKindForCause cause in
    if String.eqb kind "source" then base +:+ "/sources"
    else if String.eqb kind "seed" then
      if String.eqb subjectKind KindVantageClass then base +:+ "/settings?tab=vantages" else base +:+ "/seeds"
    else if String.eqb subjectKind "service" then base +:+ "/subjects/service?key=" +:+ QueryEscape firedAt
    else if String.eqb subjectKind "name" then base +:+ "/subjects/" +:+ PathEscape firedAt
    else base +:+ "/subjects".

Definition BuildBody {J : BodyJSON} (f : Firing) (baseURL : string) : Body :=
  mkBody (fg_ID f) (fg_Class f) (fg_Cause f) (fg_SubjectKind f) (fg_FiredAt f) (fg_Instant f) (fg_Headline f)
    (match fg_Census f with [] => None | _ => Census_Len <$> ParseCensus (fg_Census f) end)
    (link baseURL (fg_Cause f) (fg_SubjectKind f) (fg_FiredAt f)).

Definition reportReadyPath : string := "/reports/delivery".

Definition BuildReadyBody (report : string) (periodStart periodEnd : Z) (baseURL : string) : ReadyBody :=
  mkReady "report-ready" report periodStart periodEnd (trimSlash baseURL +:+ reportReadyPath).

(** ** Routing *)

Definition Routes (routeDrift routeCoverage routeClock : bool) (class : string) : bool :=
  if String.eqb class ClassDrift then routeDrift
  else if String.eqb class ClassCoverage then routeCoverage
  else if String.eqb class ClassClock then routeClock
  else false.

(** ** The signed request *)

Definition HeaderTimestamp : string := "X-Verge-Timestamp".
Definition HeaderSignature : string := "X-Verge-Signature".
Definition sigScheme : string := "sha256=".

Definition Sign (secret body : list Z) (ts : Z) : string :=
  hex_EncodeToString (Hmac Sum256 secret (bytes_of (FormatInt (Unix ts)) ++ bytes_of "." ++ body)).

Record request := mkRequest { rq_URL : string; rq_Headers : list (string * string); rq_Body : list Z }.

Definition NewRequest (targetURL : string) (body secret : list Z) (ts : Z) : request :=
  mkRequest targetURL
    ([("Content-Type", "application/json"); (HeaderTimestamp, FormatInt (Unix ts))] ++
     match secret with [] => [] | _ => [(HeaderSignature, sigScheme +:+ Sign secret body ts)] end) body.

(** ** The guard on the target *)

(** [netip.Addr.IsLoopback]: 127.0.0.0/8 or ::1, a mapped address unmapped first. *)
Definition IsLoopback (ip : Addr) : bool :=
  match Unmap ip with
  | Addr4 v => Z.shiftr v 24 =? 127
  | Addr6 v _ => v =? 1
  | AddrInvalid => false
  end.

Definition dialable (ip : Addr) : bool :=
  let ip := Unmap ip in IsLoopback ip || negb (IsNonGloballyReachable ip).

(** A [url.Error] prints the URL it holds; any other error is its text. *)
Inductive send_error := UrlError (op : string) (inner : option string) (url : string) | PlainError (text : string).

Section Errors.
(** [strconv.Quote], which [%q] prints with. *)
Context (Quote : string → string).

Definition error_text (e : send_error) : string :=
  match e with
  | UrlError op inner url => op +:+ " " +:+ Quote url +:+ ": " +:+ default "%!s(<nil>)" inner
  | PlainError t => t
  end.

(** [fmt.Errorf] with a prefix and [%w]: [errors.As] still finds the [url.Error]. *)
Inductive wrapped := Wrapped (prefix : string) (e : send_error).

Definition wrapped_text (w : wrapped) : string := let '(Wrapped p e) := w in p +:+ error_text e.

Definition redactTransportError (w : wrapped) : string :=
  match w with
  | Wrapped _ (UrlError op (Some inner) _) => op +:+ ": " +:+ inner
  | Wrapped _ (UrlError op None _) => op
  | Wrapped p (PlainError t) => p +:+ t
  end.

Definition status_text (statusCode : Z) : string := "HTTP " +:+ FormatInt statusCode.

Definition deliveryError (r : wrapped + Z) : string :=
  match r with inl e => redactTransportError e | inr statusCode => status_text statusCode end.

Definition notifyError (r : wrapped + Z) : string :=
  match r with inl e => wrapped_text e | inr statusCode => status_text statusCode end.
End Errors.

Section Guard.
Context {W : Type} (Quote : string → string).
(** [url.Parse], as far as the host name; the resolver; the client's POST. *)
Context (url_Parse : string → send_error + string) (LookupNetIP : string → St W (send_error + list Addr))
  (Do : request → St W (send_error + Z)).

Definition guard_addrs (host : string) (addrs : list Addr) : option wrapped :=
  match List.find (λ a, negb (dialable a)) addrs with
  | Some a => Some (Wrapped "" (PlainError ("refusing delivery to " +:+ Quote host +:+ ": resolves to non-globally-reachable address " +:+ Addr_String a)))
  | None =>
      let loopbacks := count_if (λ a, IsLoopback (Unmap a)) addrs in
      if negb (loopbacks =? 0) && negb (loopbacks =? Z.of_nat (length addrs))
      then Some (Wrapped "" (PlainError ("refusing delivery to " +:+ Quote host +:+ ": resolves to loopback and non-loopback addresses")))
      else None
  end.

Definition guardTarget (targetURL : string) : St W (option wrapped) :=
  match url_Parse targetURL with
  | inl e => mret (Some (Wrapped "parse target url: " e))
  | inr host =>
      match ParseAddr host with
      | Some ip =>
          mret (if negb (dialable ip)
                then Some (Wrapped "" (PlainError ("refusing delivery to non-globally-reachable host " +:+ host))) else None)
      | None =>
          res ← LookupNetIP host;
          mret (match res with
                | inl e => Some (Wrapped ("resolve " +:+ Quote host +:+ ": ") e)
                | inr addrs => guard_addrs host addrs
                end)
      end
  end.

(** The status of the response, or the error; the body is not read. *)
Definition SendSigned (targetURL : string) (body secret : list Z) (now : Z) : St W (wrapped + Z) :=
  refused ← guardTarget targetURL;
  match refused with
  | Some e => mret (inl e)
  | None =>
      res ← Do (NewRequest targetURL body secret now);
      mret (match res with inl e => inl (Wrapped "" e) | inr statusCode => inr statusCode end)
  end.
End Guard.

(** The dialer's hook: [None] lets the address through. *)
Definition dialControl (address : string) : option string :=
  match SplitHostPort address with
  | None => Some "bad address"
  | Some host =>
      match ParseAddr host with
      | None => Some "bad address"
      | Some ip => if negb (dialable ip) then Some ("delivery: refusing to dial non-globally-reachable address " +:+ host) else None
      end
  end.

(** What the channel form accepts; the parsed URL is an argument. *)
Record parsed_url := mkURL { pu_Scheme : string; pu_Host : string; pu_Hostname : string; pu_String : string }.

Definition validateChannelURL (u : option parsed_url) : option string :=
  u ← u;
  if String.eqb (pu_Scheme u) "" || String.eqb (pu_Host u) "" then None
  else if String.eqb (pu_Scheme u) "https" then
    match ParseAddr (pu_Hostname u) with
    | Some ip => if IsNonGloballyReachable ip then None else Some (pu_String u)
    | None => Some (pu_String u)
    end
  else if String.eqb (pu_Scheme u) "http" then
    match ParseAddr (pu_Hostname u) with
    | Some ip => if IsLoopback ip then Some (pu_String u) else None
    | None => None
    end
  else None.

(** ** Rows that are sent until they are delivered *)

Inductive send_state := Pending | Sending | Delivered | Undelivered.
#[export] Instance send_state_eq : EqDecision send_state.
Proof. solve_decision. Defined.

(** A row of [delivery] or of [report_notification]; the item is what it delivers. *)
Record row (P : Type) := mkRow {
  rw_ID : Z; rw_Item : P; rw_ChannelID : Z; rw_State : send_state; rw_Attempt : Z; rw_MaxAttempts : Z;
  rw_RunAfter : Z; rw_LastError : option string
}.
Arguments mkRow {P}.
Arguments rw_ID {P}.
Arguments rw_Item {P}.
Arguments rw_ChannelID {P}.
Arguments rw_State {P}.
Arguments rw_Attempt {P}.
Arguments rw_MaxAttempts {P}.
Arguments rw_RunAfter {P}.
Arguments rw_LastError {P}.

Inductive Verdict := VerdictDelivered | VerdictRetry | VerdictUndelivered.

Definition Decide (delivered : bool) (attempt maxAttempts : Z) : Verdict :=
  if delivered then VerdictDelivered else if attempt <? maxAttempts then VerdictRetry else VerdictUndelivered.

(** A status in the two hundreds. *)
Definition Delivered_status (statusCode : Z) : bool := (200 <=? statusCode) && (statusCode <? 300).

Section Rows.
Context {P : Type}.
Implicit Types r : row P.

Definition with_state (st : send_state) (err : option string) r : row P :=
  mkRow (rw_ID r) (rw_Item r) (rw_ChannelID r) st (rw_Attempt r) (rw_MaxAttempts r) (rw_RunAfter r) err.

Definition at_id (id : Z) (f : row P → row P) (rows : list (row P)) : list (row P) :=
  map (λ r, if rw_ID r =? id then f r else r) rows.

(** [state = 'pending' AND run_after <= now()], and no other transaction holds it. *)
Definition claimable (now : Z) (locked : Z → bool) r : bool :=
  bool_decide (rw_State r = Pending) && (rw_RunAfter r <=? now) && negb (locked (rw_ID r)).

Definition claim_less (a b : row P) : bool :=
  (rw_RunAfter a <? rw_RunAfter b) || ((rw_RunAfter a =? rw_RunAfter b) && (rw_ID a <? rw_ID b)).

(** [ClaimDelivery] and [ClaimReportNotification]: the row claimed, and the table. *)
Definition Claim (now : Z) (locked : Z → bool) (rows : list (row P)) : option (row P * list (row P)) :=
  r ← head (sort_stable claim_less (filter (λ r, claimable now locked r = true) rows));
  Some (r, at_id (rw_ID r) (λ r, with_state Sending (rw_LastError r) r) rows).

(** [MarkDeliveryDelivered] and [MarkReportNotificationDelivered]; [stamp] is what
    the first writes beside the state. *)
Definition MarkDelivered (stamp : P → P) (id : Z) : list (row P) → list (row P) :=
  at_id id (λ r, mkRow (rw_ID r) (stamp (rw_Item r)) (rw_ChannelID r) Delivered (rw_Attempt r) (rw_MaxAttempts r) (rw_RunAfter r) None).

Definition MarkUndelivered (id : Z) (err : string) : list (row P) → list (row P) :=
  at_id id (with_state Undelivered (Some err)).

Definition Retry (id attempt runAfter : Z) (err : string) : list (row P) → list (row P) :=
  at_id id (λ r, mkRow (rw_ID r) (rw_Item r) (rw_ChannelID r) Pending attempt (rw_MaxAttempts r) runAfter (Some err)).

Definition delivered_by (res : wrapped + Z) : bool :=
  match res with inl _ => false | inr statusCode => Delivered_status statusCode end.

(** What [post] writes of an answer; [message] is the text of a failure. *)
Definition record_outcome (stamp : P → P) (message : wrapped + Z → string) (now jitter : Z) (claim : row P) (res : wrapped + Z)
    : list (row P) → list (row P) :=
  match Decide (delivered_by res) (rw_Attempt claim) (rw_MaxAttempts claim) with
  | VerdictDelivered => MarkDelivered stamp (rw_ID claim)
  | VerdictRetry => Retry (rw_ID claim) (rw_Attempt claim + 1) (now + jitteredBackoff (rw_Attempt claim + 1) jitter) (message res)
  | VerdictUndelivered => MarkUndelivered (rw_ID claim) (message res)
  end.
End Rows.

(** ** The runners *)

Record channel := mkChannel {
  ch_ID : Z; ch_URL : string; ch_Secret : option string; ch_RouteDrift : bool; ch_RouteCoverage : bool; ch_RouteClock : bool;
  ch_Enabled : bool
}.

Record delivery_item := mkItem { di_MessageID : Z; di_DeliveredAt : option Z }.

Definition delivery := row delivery_item.

(** [INSERT ... ON CONFLICT (message_id, channel_id) DO NOTHING], with the defaults of the table. *)
Definition InsertDelivery (id now message channel : Z) (rows : list delivery) : list delivery :=
  if existsb (λ r, (di_MessageID (rw_Item r) =? message) && (rw_ChannelID r =? channel)) rows then rows
  else rows ++ [mkRow id (mkItem message None) channel Pending 1 5 now None].

(** The rows of a message, with the ids of the sequence, and how many channels it went to. *)
Fixpoint EnqueueForMessage (nextID now message : Z) (class : string) (channels : list channel) (rows : list delivery)
    : Z * Z * list delivery :=
  match channels with
  | [] => (nextID, 0, rows)
  | c :: channels' =>
      if negb (ch_Enabled c) || negb (Routes (ch_RouteDrift c) (ch_RouteCoverage c) (ch_RouteClock c) class)
      then EnqueueForMessage nextID now message class channels' rows
      else
        let '(nextID, n, rows) := EnqueueForMessage (nextID + 1) now message class channels' (InsertDelivery nextID now message (ch_ID c) rows) in
        (nextID, n + 1, rows)
  end.

Definition GetChannelForDelivery (channels : list channel) (id : Z) : option channel := List.find (λ c, ch_ID c =? id) channels.

(** One turn of a runner: nothing was due, a row was handled, or an error stopped it. *)
Inductive turn := Idle | Ran | Failed.

Section Runners.
Context {W : Type} {A : AEAD} {J : BodyJSON}.
Context (Quote : string → string) (url_Parse : string → send_error + string)
  (LookupNetIP : string → St W (send_error + list Addr)) (Do : request → St W (send_error + Z))
  (secretKey : list Z) (baseURL : string) (channels : list channel).

(** [None] is a secret that does not open, which is no answer of the channel. *)
Definition sendToChannel (c : channel) (body : list Z) (now : Z) : St W (option (wrapped + Z)) :=
  match OpenText secretKey (ch_Secret c) with
  | None => mret None
  | Some secret => res ← SendSigned Quote url_Parse LookupNetIP Do (ch_URL c) body secret now; mret (Some res)
  end.

(** [post] of both runners: the channel, the body and the send, then [record]. *)
Definition post_claim {T} (channelID : Z) (body : option (list Z)) (now : Z) (record : wrapped + Z → T → T) (t : T) : St W (turn * T) :=
  match GetChannelForDelivery channels channelID, body with
  | Some c, Some body =>
      res ← sendToChannel c body now;
      match res with
      | None => mret (Failed, t)
      | Some res => mret (Ran, record res t)
      end
  | _, _ => mret (Failed, t)
  end.

(** What a turn meets: the clock, the rows others hold, the jitter of its backoff,
    and whether its last write commits. *)
Record weather := mkWeather { we_now : Z; we_locked : Z → bool; we_jitter : Z; we_commits : bool }.

Definition committed {T} (w : weather) (old : T) (out : turn * T) : turn * T :=
  match out with
  | (Ran, t) => if we_commits w then (Ran, t) else (Failed, old)
  | out => out
  end.

Definition firing_of (messages : list Firing) (id : Z) : option Firing := List.find (λ f, fg_ID f =? id) messages.

Definition delivered_at (now : Z) (i : delivery_item) : delivery_item := mkItem (di_MessageID i) (Some now).

(** [Runner.RunOnce]. *)
Definition RunOnce (messages : list Firing) (w : weather) (rows : list delivery) : St W (turn * list delivery) :=
  match Claim (we_now w) (we_locked w) rows with
  | None => mret (Idle, rows)
  | Some (claim, rows) =>
      match firing_of messages (di_MessageID (rw_Item claim)) with
      | None => mret (Failed, rows)
      | Some f =>
          out ← post_claim (rw_ChannelID claim) (MarshalBody (BuildBody f baseURL)) (we_now w)
                  (record_outcome (delivered_at (we_now w)) deliveryError (we_now w) (we_jitter w) claim) rows;
          mret (committed w rows out)
      end
  end.

(** A report's receipt, as far as a notice reads and writes it. *)
Record receipt := mkReceipt {
  rc_ID : Z; rc_ScheduleID : Z; rc_PeriodStart : Z; rc_PeriodEnd : Z; rc_State : string; rc_DeliveredAt : option Z
}.

(** A notice delivers the receipt whose id it holds. *)
Definition notice := row Z.

Definition InsertReportNotification (id now receiptID channelID : Z) (rows : list notice) : list notice :=
  rows ++ [mkRow id receiptID channelID Pending 0 5 now None].

Definition MarkReportDeliveryDelivered (id now : Z) : list receipt → list receipt :=
  map (λ c, if rc_ID c =? id then mkReceipt (rc_ID c) (rc_ScheduleID c) (rc_PeriodStart c) (rc_PeriodEnd c) "delivered" (Some now) else c).

(** The two writes of [markDelivered] are one transaction. *)
Definition record_notice (w : weather) (claim : notice) (res : wrapped + Z) (t : list notice * list receipt) : list notice * list receipt :=
  (record_outcome id (notifyError Quote) (we_now w) (we_jitter w) claim res t.1,
   if delivered_by res then MarkReportDeliveryDelivered (rw_Item claim) (we_now w) t.2 else t.2).

(** [NotifyRunner.RunOnce]; the claim joins the receipt and its schedule, named by [name_of]. *)
Definition NotifyOnce (name_of : Z → option string) (w : weather) (t : list notice * list receipt)
    : St W (turn * (list notice * list receipt)) :=
  match Claim (we_now w) (we_locked w) t.1 with
  | None => mret (Idle, t)
  | Some (claim, rows) =>
      match c ← List.find (λ c, rc_ID c =? rw_Item claim) t.2; name ← name_of (rc_ScheduleID c); Some (c, name) with
      | None => mret (Idle, t)
      | Some (c, name) =>
          out ← post_claim (rw_ChannelID claim)
                  (MarshalReadyBody (BuildReadyBody name (rc_PeriodStart c) (rc_PeriodEnd c) baseURL)) (we_now w)
                  (record_notice w claim) (rows, t.2);
          mret (committed w (rows, t.2) out)
      end
  end.

(** [Drain]: turns until one is idle, [Some true], or fails, [Some false]; a
    weather for each turn. *)
Fixpoint Drain {T} (once : weather → T → St W (turn * T)) (ws : list weather) (t : T) : St W (option bool * T) :=
  match ws with
  | [] => mret (None, t)
  | w :: ws' =>
      '(out, t) ← once w t;
      match out with
      | Idle => mret (Some true, t)
      | Failed => mret (Some false, t)
      | Ran => Drain once ws' t
      end
  end.
End Runners.

(** ** Lemmas: the rows *)

Section RowLemmas.
Context {P : Type}.
Implicit Types (r c : row P) (rows : list (row P)).

Lemma at_id_elem id f rows r : r ∈ at_id id f rows ↔ ∃ r0, r0 ∈ rows ∧ r = if rw_ID r0 =? id then f r0 else r0.
Proof. unfold at_id. rewrite list_elem_of_fmap. split; intros (r0 & ? & ?); eauto. Qed.

Lemma at_id_ids id f rows : (∀ r, rw_ID (f r) = rw_ID r) → map rw_ID (at_id id f rows) = map rw_ID rows.
Proof. intros Hf. unfold at_id. rewrite map_map. apply map_ext. intros r. by destruct (_ =? _). Qed.

Lemma Claim_spec now locked rows c rows' : Claim now locked rows = Some (c, rows') →
  c ∈ rows ∧ claimable now locked c = true ∧ rows' = at_id (rw_ID c) (λ r, with_state Sending (rw_LastError r) r) rows.
Proof.
  unfold Claim. destruct (head _) as [r|] eqn:E; [|done]. cbn [mbind option_bind]. intros [= <- <-].
  assert (r ∈ sort_stable claim_less (filter (λ r, claimable now locked r = true) rows)) as Hr.
  { destruct (sort_stable _ _); [done|]. injection E as ->. by left. }
  rewrite sort_stable_elem, list_elem_of_filter in Hr. by destruct Hr.
Qed.

(** [record_outcome] touches the claimed row alone, and keeps its identity. *)
Lemma record_outcome_at stamp message now jitter c res rows :
  ∃ f, record_outcome stamp message now jitter c res rows = at_id (rw_ID c) f rows ∧
  (∀ r, rw_ID (f r) = rw_ID r ∧ rw_MaxAttempts (f r) = rw_MaxAttempts r) ∧
  (∀ r, if delivered_by res then rw_State (f r) = Delivered ∧ rw_Attempt (f r) = rw_Attempt r
        else if rw_Attempt c <? rw_MaxAttempts c then rw_State (f r) = Pending ∧ rw_Attempt (f r) = rw_Attempt c + 1
        else rw_State (f r) = Undelivered ∧ rw_Attempt (f r) = rw_Attempt r).
Proof.
  unfold record_outcome, Decide, MarkDelivered, Retry, MarkUndelivered. destruct (delivered_by res); [by eexists|].
  destruct (_ <? _); by eexists.
Qed.
End RowLemmas.

(** ** Any number of runners over one table *)

Section Life.
Context {P : Type} (first : Z).

(** The table, the claims that runners hold, and the POSTs made: which row, and
    whether the answer was in the two hundreds. *)
Record system := mkSystem { sy_rows : list (row P); sy_flight : list (row P); sy_log : list (Z * bool) }.

Inductive step : system → system → Prop :=
  (** A row is inserted with the table's first attempt. *)
  | step_insert r s :
      rw_State r = Pending → rw_Attempt r = first → first ≤ rw_MaxAttempts r → rw_ID r ∉ map rw_ID (sy_rows s) →
      step s (mkSystem (sy_rows s ++ [r]) (sy_flight s) (sy_log s))
  (** A runner claims a row. *)
  | step_claim now locked c rows s :
      Claim now locked (sy_rows s) = Some (c, rows) →
      step s (mkSystem rows (sy_flight s ++ [c]) (sy_log s))
  (** A runner that holds a claim POSTs and writes the outcome down. *)
  | step_post stamp message now jitter c res f1 f2 s :
      sy_flight s = f1 ++ c :: f2 →
      step s (mkSystem (record_outcome stamp message now jitter c res (sy_rows s)) (f1 ++ f2) (sy_log s ++ [(rw_ID c, delivered_by res)]))
  (** A claim is lost: the secret does not open, a row it reads is missing, the
      process ends, or the write fails after the POST. *)
  | step_lose c posted f1 f2 s :
      sy_flight s = f1 ++ c :: f2 →
      step s (mkSystem (sy_rows s) (f1 ++ f2) (sy_log s ++ match posted with Some d => [(rw_ID c, d)] | None => [] end)).

Inductive reachable : system → Prop :=
  | reach_start : reachable (mkSystem [] [] [])
  | reach_step s s' : reachable s → step s s' → reachable s'.

Definition posts (log : list (Z * bool)) (id : Z) : Z := count_if (λ e, e.1 =? id) log.
Definition wins (log : list (Z * bool)) (id : Z) : Z := count_if (λ e, (e.1 =? id) && e.2) log.

Definition row_ok (flight : list Z) (log : list (Z * bool)) (r : row P) : Prop :=
  let n := posts log (rw_ID r) in
  let won := wins log (rw_ID r) in
  first ≤ rw_Attempt r ≤ rw_MaxAttempts r ∧ (rw_ID r ∈ flight → rw_State r = Sending) ∧
  match rw_State r with
  | Pending => n = rw_Attempt r - first ∧ won = 0
  | Sending =>
      if decide (rw_ID r ∈ flight) then n = rw_Attempt r - first ∧ won = 0
      else rw_Attempt r - first ≤ n ≤ rw_Attempt r - first + 1 ∧ 0 ≤ won ≤ n - (rw_Attempt r - first)
  | Delivered => n = rw_Attempt r - first + 1 ∧ won = 1
  | Undelivered => rw_Attempt r = rw_MaxAttempts r ∧ n = rw_Attempt r - first + 1 ∧ won = 0
  end.

Definition inv (s : system) : Prop :=
  NoDup (map rw_ID (sy_rows s)) ∧ NoDup (map rw_ID (sy_flight s)) ∧
  (∀ c, c ∈ sy_flight s → ∃ r, r ∈ sy_rows s ∧ rw_ID r = rw_ID c ∧ rw_Attempt r = rw_Attempt c ∧ rw_MaxAttempts r = rw_MaxAttempts c) ∧
  (∀ r, r ∈ sy_rows s → row_ok (map rw_ID (sy_flight s)) (sy_log s) r) ∧
  (∀ e, e ∈ sy_log s → e.1 ∈ map rw_ID (sy_rows s)).

(** A row whose POSTs and claims a step leaves as they were stays in order. *)
Lemma row_ok_frame fl fl' log log' r :
  (rw_ID r ∈ fl ↔ rw_ID r ∈ fl') → posts log (rw_ID r) = posts log' (rw_ID r) → wins log (rw_ID r) = wins log' (rw_ID r) →
  row_ok fl log r → row_ok fl' log' r.
Proof.
  intros Hf Hp Hw. unfold row_ok. rewrite Hp, Hw. intros (H1 & H2 & H3). split; [done|]. split; [tauto|].
  destruct (rw_State r); try done. destruct (decide (rw_ID r ∈ fl)), (decide (rw_ID r ∈ fl')); tauto.
Qed.

Lemma posts_snoc log id id' d : posts (log ++ [(id', d)]) id = posts log id + (if id' =? id then 1 else 0).
Proof. unfold posts. rewrite count_if_app, count_if_cons, count_if_nil. cbn [fst]. by destruct (id' =? id). Qed.

Lemma wins_snoc log id id' d : wins (log ++ [(id', d)]) id = wins log id + (if (id' =? id) && d then 1 else 0).
Proof. unfold wins. rewrite count_if_app, count_if_cons, count_if_nil. cbn [fst snd]. by destruct ((id' =? id) && d). Qed.

Lemma row_inv_insert r s :
  rw_State r = Pending → rw_Attempt r = first → first ≤ rw_MaxAttempts r → rw_ID r ∉ map rw_ID (sy_rows s) →
  inv s → inv (mkSystem (sy_rows s ++ [r]) (sy_flight s) (sy_log s)).
Proof.
  intros Hs Ha Hm Hid (I1 & I2 & I3 & I4 & I5). split_and!; cbn [sy_rows sy_flight sy_log].
  - rewrite map_app. apply NoDup_app. split_and!; [done| |by apply NoDup_singleton]. by intros k Hk ->%list_elem_of_singleton.
  - done.
  - intros c Hc. destruct (I3 c Hc) as (r0 & ? & ?). exists r0. split; [apply elem_of_app; by left|done].
  - intros r0 [Hr0| ->%list_elem_of_singleton]%elem_of_app; [by apply I4|].
    assert (rw_ID r ∉ map rw_ID (sy_flight s)) as Hfl.
    { intros (c & E & Hc)%list_elem_of_fmap. destruct (I3 c Hc) as (r0 & Hr0 & E' & _). apply Hid. rewrite E, <- E'. by apply list_elem_of_fmap_2. }
    assert (∀ e, e ∈ sy_log s → (e.1 =? rw_ID r) = false) as Hlog.
    { intros e He. apply Z.eqb_neq. intros E. apply Hid. rewrite <- E. by apply I5. }
    assert (posts (sy_log s) (rw_ID r) = 0 ∧ wins (sy_log s) (rw_ID r) = 0) as [Hp Hw].
    { clear -Hlog. unfold posts, wins. induction (sy_log s) as [|e l IH]; [done|]. rewrite !count_if_cons, Hlog by by left. cbn [andb].
      destruct IH as [-> ->]; [|done]. intros e' He'. apply Hlog. by right. }
    unfold row_ok. rewrite Hp, Hw, Hs. split_and!; [lia|lia|done|lia|done].
  - intros e He. rewrite map_app. apply elem_of_app. left. by apply I5.
Qed.

Lemma row_inv_claim now locked c rows s : Claim now locked (sy_rows s) = Some (c, rows) →
  inv s → inv (mkSystem rows (sy_flight s ++ [c]) (sy_log s)).
Proof.
  intros (Hc & Hcl & ->)%Claim_spec (I1 & I2 & I3 & I4 & I5).
  unfold claimable in Hcl. apply andb_true_iff in Hcl as [[Hst%bool_decide_eq_true _]%andb_true_iff _].
  assert (rw_ID c ∉ map rw_ID (sy_flight s)) as Hfl.
  { intros Hin. destruct (I4 c Hc) as (_ & H & _). apply H in Hin. congruence. }
  split_and!; cbn [sy_rows sy_flight sy_log].
  - by rewrite at_id_ids.
  - rewrite map_app. apply NoDup_app. split_and!; [done| |by apply NoDup_singleton]. by intros k Hk ->%list_elem_of_singleton.
  - assert (∀ c' : row P, (∃ r, r ∈ sy_rows s ∧ rw_ID r = rw_ID c' ∧ rw_Attempt r = rw_Attempt c' ∧ rw_MaxAttempts r = rw_MaxAttempts c') →
      ∃ r, r ∈ at_id (rw_ID c) (λ r, with_state Sending (rw_LastError r) r) (sy_rows s) ∧
        rw_ID r = rw_ID c' ∧ rw_Attempt r = rw_Attempt c' ∧ rw_MaxAttempts r = rw_MaxAttempts c') as Hkeep.
    { intros c' (r & Hr & ?). eexists. split; [apply at_id_elem; by exists r|]. by destruct (_ =? _). }
    intros c' [Hc'| ->%list_elem_of_singleton]%elem_of_app; apply Hkeep; [by apply I3|by exists c].
  - intros r (r0 & Hr0 & ->)%at_id_elem. rewrite map_app. destruct (Z.eqb_spec (rw_ID r0) (rw_ID c)) as [E|E].
    + assert (r0 = c) as -> by (by apply (NoDup_map_inj rw_ID (sy_rows s))). destruct (I4 c Hc) as (H1 & _ & H3). rewrite Hst in H3.
      unfold row_ok. cbn [with_state rw_ID rw_State rw_Attempt rw_MaxAttempts]. split; [done|]. split; [done|].
      rewrite decide_True; [done|]. apply elem_of_app. right. by left.
    + eapply row_ok_frame, I4; [|done..|done]. rewrite elem_of_app. split; [by left|]. intros [?|Hin]; [done|].
      cbn in Hin. apply list_elem_of_singleton in Hin. done.
  - intros e He. rewrite at_id_ids by done. by apply I5.
Qed.

Lemma row_inv_lose c posted f1 f2 s : sy_flight s = f1 ++ c :: f2 →
  inv s → inv (mkSystem (sy_rows s) (f1 ++ f2) (sy_log s ++ match posted with Some d => [(rw_ID c, d)] | None => [] end)).
Proof.
  intros Hf (I1 & I2 & I3 & I4 & I5). rewrite Hf in I2, I3, I4. rewrite map_app in I2, I4. cbn [map] in I2, I4.
  assert (rw_ID c ∉ map rw_ID (f1 ++ f2)) as Hout.
  { rewrite map_app. apply NoDup_app in I2 as (_ & H1 & [H2 _]%NoDup_cons). intros [H|H]%elem_of_app; [|done]. apply (H1 _ H). by left. }
  split_and!; cbn [sy_rows sy_flight sy_log].
  - done.
  - rewrite map_app. apply NoDup_app in I2 as (N1 & N2 & [_ N3]%NoDup_cons). apply NoDup_app. split_and!; [done| |done].
    intros k Hk Hk'. apply (N2 k Hk). by right.
  - intros c' Hc'. apply I3. set_solver.
  - intros r Hr. destruct (decide (rw_ID r = rw_ID c)) as [E|E].
    + destruct (I4 r Hr) as (H1 & H2 & H3). assert (rw_ID r ∈ map rw_ID f1 ++ rw_ID c :: map rw_ID f2) as Hin.
      { rewrite E. apply elem_of_app. right. by left. }
      rewrite (H2 Hin), decide_True in H3 by done. unfold row_ok. rewrite E, (H2 Hin), decide_False by done. split; [done|]. split; [done|].
      rewrite E in H3. destruct posted as [d|]; [rewrite posts_snoc, wins_snoc, Z.eqb_refl|rewrite app_nil_r]; [destruct d; cbn [andb]|]; lia.
    + assert ((rw_ID c =? rw_ID r) = false) as Hne by (by apply Z.eqb_neq).
      eapply row_ok_frame, I4; [|..|done].
      * rewrite map_app, !elem_of_app, elem_of_cons. naive_solver.
      * destruct posted; [rewrite posts_snoc, Hne; lia|by rewrite app_nil_r].
      * destruct posted; [rewrite wins_snoc, Hne; cbn [andb]; lia|by rewrite app_nil_r].
  - intros e [He|He]%elem_of_app; [by apply I5|]. destruct posted as [d|]; [|by apply elem_of_nil in He].
    apply list_elem_of_singleton in He as ->. cbn [fst]. destruct (I3 c) as (r & Hr & E & _); [set_solver|]. rewrite <- E. by apply list_elem_of_fmap_2.
Qed.

Lemma row_inv_post stamp message now jitter c res f1 f2 s : sy_flight s = f1 ++ c :: f2 →
  inv s → inv (mkSystem (record_outcome stamp message now jitter c res (sy_rows s)) (f1 ++ f2) (sy_log s ++ [(rw_ID c, delivered_by res)])).
Proof.
  intros Hf Hinv. pose proof (row_inv_lose c (Some (delivered_by res)) f1 f2 s Hf Hinv) as (L1 & L2 & L3 & L4 & L5).
  cbn [sy_rows sy_flight sy_log] in *. destruct Hinv as (I1 & I2 & I3 & I4 & _).
  destruct (record_outcome_at stamp message now jitter c res (sy_rows s)) as (f & -> & Hid & Hst).
  destruct (I3 c) as (rc & Hrc & Eid & Ea & Em); [rewrite Hf; apply elem_of_app; right; by left|].
  assert (rw_ID c ∉ map rw_ID (f1 ++ f2)) as Hout.
  { rewrite Hf, map_app in I2. cbn [map] in I2. rewrite map_app. apply NoDup_app in I2 as (_ & H1 & [H2 _]%NoDup_cons).
    intros [H|H]%elem_of_app; [|done]. apply (H1 _ H). by left. }
  assert (map rw_ID (at_id (rw_ID c) f (sy_rows s)) = map rw_ID (sy_rows s)) as Hids by (apply at_id_ids; apply Hid).
  split_and!; cbn [sy_rows sy_flight sy_log].
  - by rewrite Hids.
  - done.
  - intros c' Hc'. destruct (L3 c' Hc') as (r & Hr & E & ?). exists r. split; [|done]. apply at_id_elem. exists r. split; [done|].
    destruct (Z.eqb_spec (rw_ID r) (rw_ID c)) as [E'|]; [|done]. exfalso. apply Hout. rewrite <- E', E. by apply list_elem_of_fmap_2.
  - intros r (r0 & Hr0 & ->)%at_id_elem. destruct (Z.eqb_spec (rw_ID r0) (rw_ID c)) as [E|]; [|by apply L4].
    assert (r0 = rc) as -> by (apply (NoDup_map_inj rw_ID (sy_rows s)); [done..|congruence]).
    destruct (I4 rc Hrc) as (H1 & H2 & H3). destruct (Hid rc) as [Hi Hm]. specialize (Hst rc).
    rewrite H2, decide_True in H3 by (rewrite Eid, Hf, map_app; apply elem_of_app; right; by left).
    rewrite Eid in H3. unfold row_ok. rewrite Hi, Eid, Hm, posts_snoc, wins_snoc, Z.eqb_refl. cbn [andb].
    destruct (delivered_by res); [destruct Hst as [-> ->]; split; [done|split; [done|lia]]|].
    destruct (Z.ltb_spec (rw_Attempt c) (rw_MaxAttempts c)); destruct Hst as [-> ->]; (split; [lia|split; [done|lia]]).
  - intros e He. rewrite Hids. by apply L5.
Qed.

Lemma reachable_row_inv s : reachable s → inv s.
Proof.
  induction 1 as [|s s' _ IH Hstep].
  - split_and!; cbn; [constructor..| | |]; by intros ? ?%elem_of_nil.
  - destruct Hstep; eauto using row_inv_insert, row_inv_claim, row_inv_post, row_inv_lose.
Qed.

(** [C15] What a row's state says of the POSTs made for it, however many runners
    share the table.  A row is POSTed at most once for each attempt from the
    table's first to its last; one marked delivered was answered in the two
    hundreds; one marked undelivered was refused at every attempt, with none left
    out; one that is pending was refused at each attempt before the one it is due
    for.  A row still in [sending] is one whose outcome is not recorded, or was
    lost; of that only the bound is said. *)
Theorem attempts_are_bounded s r (Hs : reachable s) (Hr : r ∈ sy_rows s) :
  let n := posts (sy_log s) (rw_ID r) in
  let won := wins (sy_log s) (rw_ID r) in
  0 ≤ won ≤ n ∧ n ≤ rw_MaxAttempts r - first + 1 ∧
  (rw_State r = Delivered → 1 ≤ won) ∧
  (rw_State r = Undelivered → won = 0 ∧ n = rw_MaxAttempts r - first + 1) ∧
  (rw_State r = Pending → won = 0 ∧ n = rw_Attempt r - first).
Proof.
  destruct (reachable_row_inv s Hs) as (_ & _ & _ & I4 & _). destruct (I4 r Hr) as (H1 & _ & H3).
  destruct (rw_State r); [..|]; try destruct (decide _); split_and!; try done; try lia.
Qed.

(** A row that was claimed and whose claim was lost stays as it is for ever: no
    step claims, sends or settles it. *)
Lemma lost_row_stays s s' r : reachable s → step s s' →
  r ∈ sy_rows s → rw_State r = Sending → rw_ID r ∉ map rw_ID (sy_flight s) →
  r ∈ sy_rows s' ∧ rw_ID r ∉ map rw_ID (sy_flight s').
Proof.
  intros (I1 & _)%reachable_row_inv Hstep Hr Hst Hfl. destruct Hstep as [r' s _ _ _ _|now locked c rows s Hc|stamp message now jitter c res f1 f2 s Hf|c posted f1 f2 s Hf].
  - cbn. split; [apply elem_of_app; by left|done].
  - apply Claim_spec in Hc as (Hc & Hcl & ->). cbn [sy_rows sy_flight].
    unfold claimable in Hcl. apply andb_true_iff in Hcl as [[Hst'%bool_decide_eq_true _]%andb_true_iff _].
    assert (rw_ID r ≠ rw_ID c) as Hne. { intros E. assert (r = c) as -> by (by apply (NoDup_map_inj rw_ID (sy_rows s))). congruence. }
    split; [apply at_id_elem; exists r; by rewrite (proj2 (Z.eqb_neq _ _) Hne)|]. rewrite map_app, elem_of_app.
    intros [?|?]; [done|]. cbn in *. by apply Hne, list_elem_of_singleton.
  - cbn [sy_rows sy_flight]. rewrite Hf, map_app in Hfl. cbn [map] in Hfl. rewrite elem_of_app, elem_of_cons in Hfl.
    destruct (record_outcome_at stamp message now jitter c res (sy_rows s)) as (f & -> & _).
    split; [apply at_id_elem; exists r; rewrite (proj2 (Z.eqb_neq (rw_ID r) (rw_ID c))); tauto|]. rewrite map_app, elem_of_app. tauto.
  - cbn [sy_rows sy_flight]. rewrite Hf, map_app in Hfl. cbn [map] in Hfl. rewrite elem_of_app, elem_of_cons in Hfl.
    split; [done|]. rewrite map_app, elem_of_app. tauto.
Qed.
End Life.

(** ** The turns of a runner *)

Section Turns.
Context {P : Type}.
Implicit Types (r c : row P) (rows : list (row P)).

(** The turns a row can still take. *)
Definition turns_left r : Z :=
  if decide (rw_State r = Pending) then Z.max 1 (rw_MaxAttempts r - rw_Attempt r + 1) else 0.

Lemma turns_left_nonneg r : 0 ≤ turns_left r.
Proof. unfold turns_left. case_decide; lia. Qed.

Lemma at_id_sum c f rows : NoDup (map rw_ID rows) → c ∈ rows →
  sumZ (map turns_left (at_id (rw_ID c) f rows)) = sumZ (map turns_left rows) - turns_left c + turns_left (f c).
Proof.
  induction rows as [|r rows IH]; [by intros _ ?%elem_of_nil|]. cbn [map at_id sumZ foldr]. intros [Hr Hnd]%NoDup_cons Hc.
  fold (at_id (rw_ID c) f rows). fold (sumZ (map turns_left rows)). fold (sumZ (map turns_left (at_id (rw_ID c) f rows))).
  apply elem_of_cons in Hc as [<-|Hc].
  - rewrite Z.eqb_refl. assert (at_id (rw_ID c) f rows = rows) as ->; [|lia].
    clear -Hr. induction rows as [|r' rows IH]; [done|]. cbn [map at_id] in *. rewrite elem_of_cons in Hr. fold (at_id (rw_ID c) f rows).
    rewrite (proj2 (Z.eqb_neq _ _)) by (intros E; apply Hr; by left). f_equal. apply IH. intros ?. apply Hr. by right.
  - rewrite (proj2 (Z.eqb_neq _ _)); [|intros E; apply Hr; rewrite E; by apply list_elem_of_fmap_2]. rewrite IH by done. lia.
Qed.

(** A turn that writes an outcome takes one of the turns left. *)
Lemma turn_taken now locked c rows1 rows stamp message now' jitter res :
  Claim now locked rows = Some (c, rows1) → NoDup (map rw_ID rows) →
  let rows2 := record_outcome stamp message now' jitter c res rows1 in
  map rw_ID rows2 = map rw_ID rows ∧ sumZ (map turns_left rows2) + 1 ≤ sumZ (map turns_left rows).
Proof.
  intros (Hc & Hcl & ->)%Claim_spec Hnd. cbv zeta. set (f := λ r, with_state Sending (rw_LastError r) r).
  unfold claimable in Hcl. apply andb_true_iff in Hcl as [[Hst%bool_decide_eq_true _]%andb_true_iff _].
  destruct (record_outcome_at stamp message now' jitter c res (at_id (rw_ID c) f rows)) as (g & -> & Hid & Hg).
  assert (map rw_ID (at_id (rw_ID c) f rows) = map rw_ID rows) as Hids by by apply at_id_ids.
  split; [by rewrite (at_id_ids (rw_ID c) g), Hids by apply Hid|].
  assert (f c ∈ at_id (rw_ID c) f rows) as Hfc by (apply at_id_elem; exists c; by rewrite Z.eqb_refl).
  pose proof (at_id_sum (f c) g _ ltac:(by rewrite Hids) Hfc) as H2. change (rw_ID (f c)) with (rw_ID c) in H2. rewrite H2.
  rewrite (at_id_sum c f rows Hnd Hc). enough (turns_left (g (f c)) + 1 ≤ turns_left c) by lia.
  specialize (Hg (f c)). destruct (Hid (f c)) as [_ Hm]. assert (turns_left c = Z.max 1 (rw_MaxAttempts c - rw_Attempt c + 1)) as -> by (unfold turns_left; by rewrite decide_True).
  unfold turns_left. rewrite Hm. change (rw_MaxAttempts (f c)) with (rw_MaxAttempts c).
  destruct (delivered_by res); [destruct Hg as [-> _]; rewrite decide_False by done; lia|].
  destruct (Z.ltb_spec (rw_Attempt c) (rw_MaxAttempts c)); destruct Hg as [-> Ha]; [rewrite decide_True by done; lia|rewrite decide_False by done; lia].
Qed.
End Turns.

Section DrainEnds.
Context {W T : Type} (once : weather → T → St W (turn * T)) (I : T → Prop) (left : T → Z).
Context (Hleft : ∀ t, 0 ≤ left t) (Honce : ∀ w t w0 t' w1, I t → once w t w0 = ((Ran, t'), w1) → I t' ∧ left t' + 1 ≤ left t).

Lemma Drain_ends_gen ws t w0 : I t → left t < Z.of_nat (length ws) → (Drain once ws t w0).1.1 ≠ None.
Proof.
  revert t w0. induction ws as [|w ws IH]; intros t w0 Ht Hl; [pose proof (Hleft t); cbn in Hl; lia|]. cbn [length] in Hl.
  cbn [Drain]. unfold mbind, St_bind. destruct (once w t w0) as [[out t'] w1] eqn:E. destruct out; [done| |done].
  destruct (Honce _ _ _ _ _ Ht E). apply IH; [done|lia].
Qed.
End DrainEnds.

Section RunnerTheorems.
Context {W : Type} {A : AEAD} {J : BodyJSON}.
Context (Quote : string → string) (url_Parse : string → send_error + string)
  (LookupNetIP : string → St W (send_error + list Addr)) (Do : request → St W (send_error + Z))
  (secretKey : list Z) (baseURL : string) (channels : list channel) (messages : list Firing).
Notation once := (RunOnce Quote url_Parse LookupNetIP Do secretKey baseURL channels messages).

(** What a turn does: nothing, or one claim that is settled, or one that is lost. *)
Inductive turn_result (w : weather) (rows : list delivery) : turn → list delivery → Prop :=
  | turn_idle : Claim (we_now w) (we_locked w) rows = None → turn_result w rows Idle rows
  | turn_lost c rows' : Claim (we_now w) (we_locked w) rows = Some (c, rows') → turn_result w rows Failed rows'
  | turn_ran c rows' res : Claim (we_now w) (we_locked w) rows = Some (c, rows') →
      turn_result w rows Ran (record_outcome (delivered_at (we_now w)) deliveryError (we_now w) (we_jitter w) c res rows').

Lemma RunOnce_turn w rows w0 : turn_result w rows (once w rows w0).1.1 (once w rows w0).1.2.
Proof.
  unfold RunOnce. destruct (Claim _ _ rows) as [[c rows']|] eqn:Ec; [|by constructor].
  destruct (firing_of messages _) as [f|]; [|by econstructor].
  unfold post_claim, mbind, St_bind. destruct (GetChannelForDelivery channels _) as [ch|]; [|by econstructor].
  destruct (MarshalBody _) as [body|]; [|by econstructor]. destruct (sendToChannel _ _ _ _ _ _ _ _ w0) as [[res|] w1]; [|by econstructor].
  cbn. destruct (we_commits w); by econstructor.
Qed.

(** A turn of a runner, on the table of a reachable system, is steps of it. *)
Lemma RunOnce_is_steps w s w0 : reachable 1 s → ∃ s', reachable 1 s' ∧ sy_rows s' = (once w (sy_rows s) w0).1.2 ∧ sy_flight s' = sy_flight s.
Proof.
  intros Hs. destruct (RunOnce_turn w (sy_rows s) w0) as [Hc|c rows Hc|c rows res Hc].
  - by exists s.
  - eexists. split; [eapply reach_step, (step_lose 1 c None (sy_flight s) []); [eapply reach_step, step_claim, Hc; done|done]|].
    cbn. by rewrite app_nil_r.
  - eexists. split; [eapply reach_step, (step_post 1 (delivered_at (we_now w)) deliveryError (we_now w) (we_jitter w) c res (sy_flight s) []);
      [eapply reach_step, step_claim, Hc; done|done]|]. cbn. by rewrite app_nil_r.
Qed.

(** A drain ends: whatever the channels answer, it takes no more turns than
    the attempts left to the pending rows, and one to see that none is due. *)
Theorem drain_ends ws rows w0 (Hids : NoDup (map rw_ID rows)) (Hws : sumZ (map turns_left rows) < Z.of_nat (length ws)) :
  (Drain once ws rows w0).1.1 ≠ None.
Proof.
  apply (Drain_ends_gen once (λ rows, NoDup (map rw_ID rows)) (λ rows, sumZ (map turns_left rows))); [| |done|done].
  - intros t. induction t as [|r t IH]; [done|]. cbn. pose proof (turns_left_nonneg r). unfold sumZ in IH. lia.
  - intros w t w1 t' w2 Ht E. pose proof (RunOnce_turn w t w1) as H. rewrite E in H. cbn [fst snd] in H.
    inversion H as [| |c rows' res Hc]; subst. destruct (turn_taken _ _ _ _ _ (delivered_at (we_now w)) deliveryError (we_now w) (we_jitter w) res Hc Ht) as [Hi Hl].
    split; [by rewrite Hi|exact Hl].
Qed.

(** What a turn over the notices does: the row and its receipt change together. *)
Lemma NotifyOnce_turn name_of w (t : list notice * list receipt) w0 :
  let '(out, t') := (NotifyOnce Quote url_Parse LookupNetIP Do secretKey baseURL channels name_of w t w0).1 in
  match out with
  | Idle => t' = t
  | Failed => ∃ c rows, Claim (we_now w) (we_locked w) t.1 = Some (c, rows) ∧ t' = (rows, t.2)
  | Ran => ∃ c rows res, Claim (we_now w) (we_locked w) t.1 = Some (c, rows) ∧
      t' = (record_outcome id (notifyError Quote) (we_now w) (we_jitter w) c res rows,
            if delivered_by res then MarkReportDeliveryDelivered (rw_Item c) (we_now w) t.2 else t.2)
  end.
Proof.
  unfold NotifyOnce. destruct (Claim _ _ t.1) as [[c rows']|] eqn:Ec; [|done].
  destruct (rc ← List.find _ t.2; name ← _; Some (rc, name)) as [[rc name]|]; [|done].
  unfold post_claim, mbind, St_bind. destruct (GetChannelForDelivery channels _) as [ch|]; [|cbn; eauto].
  destruct (MarshalReadyBody _) as [body|]; [|cbn; eauto]. destruct (sendToChannel _ _ _ _ _ _ _ _ w0) as [[res|] w1]; [|cbn; eauto].
  cbn. destruct (we_commits w); cbn; [|eauto]. exists c, rows', res. done.
Qed.

Lemma notices_drain_end name_of ws (t : list notice * list receipt) w0 :
  NoDup (map rw_ID t.1) → sumZ (map turns_left t.1) < Z.of_nat (length ws) →
  (Drain (NotifyOnce Quote url_Parse LookupNetIP Do secretKey baseURL channels name_of) ws t w0).1.1 ≠ None.
Proof.
  intros Hids Hws. apply (Drain_ends_gen _ (λ t, NoDup (map rw_ID t.1)) (λ t, sumZ (map turns_left t.1))); [| |done|done].
  - intros [l ?]. cbn. induction l as [|r l IH]; [done|]. cbn. pose proof (turns_left_nonneg r). unfold sumZ in IH. lia.
  - intros w t0 w1 t' w2 Ht E. pose proof (NotifyOnce_turn name_of w t0 w1) as H. rewrite E in H. cbn [fst snd] in H.
    destruct H as (c & rows' & res & Hc & ->). cbn [fst].
    destruct (turn_taken _ _ _ _ _ id (notifyError Quote) (we_now w) (we_jitter w) res Hc Ht) as [Hi Hl]. split; [by rewrite Hi|exact Hl].
Qed.
End RunnerTheorems.

(** ** Where a POST may go *)

Lemma dialable_spec a : dialable a = true ↔ IsLoopback (Unmap a) = true ∨ IsNonGloballyReachable a = false.
Proof. unfold dialable. rewrite IsNonGlobal_Unmap, orb_true_iff, negb_true_iff. done. Qed.

(** The hook lets an address through exactly when it may be dialled, whatever the
    resolver said before. *)
Lemma dialControl_spec a p : Addr_wf a → a ≠ AddrInvalid → hasZone a = false → 0 ≤ p < 2 ^ 16 →
  dialControl (AddrPort_String (mkAddrPort a p)) = None ↔ dialable a = true.
Proof.
  intros. unfold dialControl. rewrite SplitHostPort_String, ParseAddr_String by done. by destruct (dialable a).
Qed.

Section Outside.
Context {W : Type} (Quote : string → string) (url_Parse : string → send_error + string)
  (LookupNetIP : string → St W (send_error + list Addr)) (Do : request → St W (send_error + Z)).
Notation guard := (guardTarget Quote url_Parse LookupNetIP).

Lemma guard_addrs_None host addrs : guard_addrs Quote host addrs = None ↔
  (∀ a, a ∈ addrs → dialable a = true) ∧
  ((∀ a, a ∈ addrs → IsLoopback (Unmap a) = false) ∨ (∀ a, a ∈ addrs → IsLoopback (Unmap a) = true)).
Proof.
  unfold guard_addrs. destruct (List.find _ addrs) as [a|] eqn:E.
  - apply find_some in E as [Ha%list_elem_of_In Hd%negb_true_iff]. split; [done|]. intros [H _]. apply H in Ha. congruence.
  - assert (∀ a, a ∈ addrs → dialable a = true) as Hd.
    { intros a Ha%list_elem_of_In. pose proof (find_none _ _ E a Ha) as H. by apply negb_false_iff in H. }
    assert (count_if (λ a, IsLoopback (Unmap a)) addrs = 0 ↔ ∀ a, a ∈ addrs → IsLoopback (Unmap a) = false) as H0.
    { clear. induction addrs as [|a l IH]; [split; [by intros _ ? ?%elem_of_nil|done]|]. rewrite count_if_cons.
      pose proof (count_if_bounds (λ a, IsLoopback (Unmap a)) l). setoid_rewrite elem_of_cons.
      destruct (IsLoopback (Unmap a)) eqn:Ea; [split; [lia|intros H'; specialize (H' a (or_introl eq_refl)); congruence]|].
      rewrite Z.add_0_l, IH. naive_solver. }
    assert (count_if (λ a, IsLoopback (Unmap a)) addrs = Z.of_nat (length addrs) ↔ ∀ a, a ∈ addrs → IsLoopback (Unmap a) = true) as H1.
    { clear. induction addrs as [|a l IH]; [split; [by intros _ ? ?%elem_of_nil|done]|]. rewrite count_if_cons. cbn [length].
      pose proof (count_if_bounds (λ a, IsLoopback (Unmap a)) l). setoid_rewrite elem_of_cons.
      destruct (IsLoopback (Unmap a)) eqn:Ea; [|split; [lia|intros H'; specialize (H' a (or_introl eq_refl)); congruence]].
      assert (1 + count_if (λ a, IsLoopback (Unmap a)) l = Z.of_nat (S (length l)) ↔ count_if (λ a, IsLoopback (Unmap a)) l = Z.of_nat (length l))
        as -> by lia.
      rewrite IH. naive_solver. }
    destruct (Z.eqb_spec (count_if (λ a, IsLoopback (Unmap a)) addrs) 0) as [E0|E0]; cbn [negb andb]; [tauto|].
    destruct (Z.eqb_spec (count_if (λ a, IsLoopback (Unmap a)) addrs) (Z.of_nat (length addrs))) as [E1|E1]; cbn [negb]; [tauto|].
    split; [done|tauto].
Qed.

(** A refused target gets no POST: the world is as the lookup left it.  One that
    is not refused is an address that may be dialled, or a name all of whose
    addresses may be, with the loopback ones alone or not at all. *)
Theorem send_stays_outside targetURL body secret now w0 :
  let '(refused, w1) := guard targetURL w0 in
  (∀ e, refused = Some e → SendSigned Quote url_Parse LookupNetIP Do targetURL body secret now w0 = (inl e, w1)) ∧
  (refused = None → ∃ host, url_Parse targetURL = inr host ∧
     ((∃ ip, ParseAddr host = Some ip ∧ dialable ip = true) ∨
      (∃ addrs, LookupNetIP host w0 = (inr addrs, w1) ∧ (∀ a, a ∈ addrs → dialable a = true) ∧
         ((∀ a, a ∈ addrs → IsLoopback (Unmap a) = false) ∨ (∀ a, a ∈ addrs → IsLoopback (Unmap a) = true))))).
Proof.
  destruct (guard targetURL w0) as [refused w1] eqn:E. split.
  - intros e ->. unfold SendSigned, mbind, St_bind. by rewrite E.
  - intros ->. unfold guardTarget in E. destruct (url_Parse targetURL) as [e|host]; [done|]. exists host. split; [done|].
    destruct (ParseAddr host) as [ip|]; [left; exists ip; split; [done|by destruct (dialable ip)]|right].
    unfold mbind, St_bind in E. destruct (LookupNetIP host w0) as [[e|addrs] w1'] eqn:El; [done|]. injection E as E <-.
    exists addrs. split; [done|]. by apply guard_addrs_None in E.
Qed.
End Outside.

(** An address literal the form accepts is one the runner dials. *)
Lemma validated_literal_is_dialable u s ip :
  validateChannelURL (Some u) = Some s → ParseAddr (pu_Hostname u) = Some ip → dialable ip = true.
Proof.
  unfold validateChannelURL. cbn [mbind option_bind]. intros H Hip. rewrite Hip in H. apply dialable_spec. revert H.
  repeat case_match; try done; intros _; [by right|left]. unfold IsLoopback in *. by rewrite Unmap_idem.
Qed.

(** ** Enqueueing *)

Definition routed (message : Z) (class : string) (c : channel) : bool :=
  ch_Enabled c && Routes (ch_RouteDrift c) (ch_RouteCoverage c) (ch_RouteClock c) class.

Definition pair_of (r : delivery) : Z * Z := (di_MessageID (rw_Item r), rw_ChannelID r).

Lemma InsertDelivery_pairs id now message channel rows :
  map pair_of (InsertDelivery id now message channel rows) =
  map pair_of rows ++ (if decide ((message, channel) ∈ map pair_of rows) then [] else [(message, channel)]).
Proof.
  unfold InsertDelivery. destruct existsb eqn:E.
  - apply existsb_bool in E as (r & Hr & [E1%Z.eqb_eq E2%Z.eqb_eq]%andb_true_iff). rewrite decide_True, app_nil_r; [done|].
    apply list_elem_of_fmap. exists r. unfold pair_of. by rewrite E1, E2.
  - rewrite decide_False; [by rewrite map_app|]. intros (r & Er & Hr)%list_elem_of_fmap. unfold pair_of in Er. injection Er as E1 E2.
    enough (existsb (λ r, (di_MessageID (rw_Item r) =? message) && (rw_ChannelID r =? channel)) rows = true) by congruence.
    apply existsb_bool. exists r. split; [done|]. by rewrite <- E1, <- E2, !Z.eqb_refl.
Qed.

(** A message goes to the enabled channels its class routes to, once to each. *)
Lemma EnqueueForMessage_spec nextID now message class channels rows : NoDup (map pair_of rows) →
  let '(_, n, rows') := EnqueueForMessage nextID now message class channels rows in
  NoDup (map pair_of rows') ∧ n = count_if (routed message class) channels ∧
  ∀ m c, (m, c) ∈ map pair_of rows' ↔
    (m, c) ∈ map pair_of rows ∨ (m = message ∧ ∃ ch, ch ∈ channels ∧ ch_ID ch = c ∧ routed message class ch = true).
Proof.
  revert nextID rows. induction channels as [|ch channels IH]; intros nextID rows Hnd.
  - cbn. split_and!; [done|done|]. intros m c. split; [by left|]. intros [?|(_ & ? & ?%elem_of_nil & _)]; done.
  - cbn [EnqueueForMessage]. rewrite count_if_cons. unfold routed at 1.
    assert (negb (ch_Enabled ch) || negb (Routes (ch_RouteDrift ch) (ch_RouteCoverage ch) (ch_RouteClock ch) class) =
      negb (routed message class ch)) as -> by (unfold routed; by rewrite negb_andb).
    fold (routed message class ch). destruct (routed message class ch) eqn:E; cbn [negb].
    + pose proof (IH (nextID + 1) (InsertDelivery nextID now message (ch_ID ch) rows)) as H.
      rewrite InsertDelivery_pairs in H. destruct (EnqueueForMessage (nextID + 1) _ _ _ _ _) as [[nx n] rows'].
      destruct H as (H1 & H2 & H3).
      { case_decide; [by rewrite app_nil_r|]. apply NoDup_app. split_and!; [done| |apply NoDup_singleton]. by intros k Hk ->%list_elem_of_singleton. }
      split_and!; [done|lia|]. intros m c. rewrite H3, elem_of_app.
      assert ((m, c) ∈ (if decide ((message, ch_ID ch) ∈ map pair_of rows) then [] else [(message, ch_ID ch)]) ∨ (m, c) ∈ map pair_of rows ↔
        (m, c) = (message, ch_ID ch) ∨ (m, c) ∈ map pair_of rows) as Hx.
      { case_decide; rewrite ?elem_of_nil, ?list_elem_of_singleton; [|tauto]. split; [tauto|]. intros [[= -> ->]|?]; by right. }
      split.
      * intros [H|(-> & ch' & ? & ? & ?)]; [|right; split; [done|]; exists ch'; split; [by right|done]].
        destruct (proj1 Hx ltac:(tauto)) as [[= -> ->]|?]; [right; split; [done|]; exists ch; split; [by left|done]|by left].
      * intros [H|(-> & ch' & [->|?]%elem_of_cons & <- & ?)]; [left; by left|left; tauto|right; eauto].
    + pose proof (IH nextID rows Hnd) as H. destruct (EnqueueForMessage nextID _ _ _ _ _) as [[nx n] rows']. destruct H as (H1 & H2 & H3).
      split_and!; [done|lia|]. intros m c. rewrite H3. split; (intros [?|(? & ch' & Hin & ? & ?)]; [by left|right; split; [done|]]).
      * exists ch'. split; [by right|done].
      * apply elem_of_cons in Hin as [->|?]; [congruence|eauto].
Qed.

(** ** Runs to try it on *)

(** The text a failed notice keeps holds the URL it was sent to, which the
    delivery of a message takes out. *)
Example notice_keeps_the_url :
  let failed := inl (Wrapped "" (UrlError "Post" (Some "connection refused") "https://hooks.example/T0/secret")) in
  notifyError (λ s, s) failed = "Post https://hooks.example/T0/secret: connection refused" ∧
  deliveryError failed = "Post: connection refused".
Proof. vm_compute. auto. Qed.

Definition demo_row : row unit := mkRow 7 tt 3 Pending 1 5 0 None.

Definition demo_at (st : send_state) (attempt runAfter : Z) (err : option string) : row unit :=
  mkRow 7 tt 3 st attempt 5 runAfter err.

(** Refused once, then delivered. *)
Lemma attempts_are_bounded_witness :
  let log := [(7, false); (7, true)] in
  posts log 7 ≤ 5 ∧ 1 ≤ wins log 7.
Proof.
  pose (due := 240000000000). pose (second := demo_at Pending 2 due (Some "HTTP 503")).
  assert (reachable 1 (mkSystem [demo_row] [] [])) as R1.
  { eapply reach_step; [apply reach_start|]. by apply (step_insert 1 demo_row (mkSystem [] [] [])); [..|apply not_elem_of_nil]. }
  assert (reachable 1 (mkSystem [demo_at Sending 1 0 None] [demo_row] [])) as R2.
  { eapply reach_step; [exact R1|]. exact (step_claim 1 0 (λ _, false) demo_row _ (mkSystem [demo_row] [] []) eq_refl). }
  assert (reachable 1 (mkSystem [second] [] [(7, false)])) as R3.
  { eapply reach_step; [exact R2|].
    exact (step_post 1 id deliveryError 0 120000000000 demo_row (inr 503) [] [] (mkSystem _ [demo_row] []) eq_refl). }
  assert (reachable 1 (mkSystem [demo_at Sending 2 due (Some "HTTP 503")] [second] [(7, false)])) as R4.
  { eapply reach_step; [exact R3|]. exact (step_claim 1 due (λ _, false) second _ (mkSystem [second] [] _) eq_refl). }
  assert (reachable 1 (mkSystem [demo_at Delivered 2 due None] [] [(7, false); (7, true)])) as R5.
  { eapply reach_step; [exact R4|]. exact (step_post 1 id deliveryError due 0 second (inr 204) [] [] (mkSystem _ [second] [(7, false)]) eq_refl). }
  destruct (attempts_are_bounded 1 _ _ R5 (list_elem_of_here _ _)) as (_ & H1 & H3 & _).
  split; [exact H1|by apply H3].
Defined.

(** A claim whose secret does not open is lost: nothing is due ever after. *)
Example unopened_secret_strands :
  let '(claimed, rows) := default (demo_row, []) (Claim 10 (λ _, false) [demo_row]) in
  Claim 1000000000000000 (λ _, false) rows = None.
Proof. vm_compute. reflexivity. Qed.

#[local] Instance demo_aead : AEAD := {|
  NewX _ := true; NonceSize := 0; KeySize := 0; AEAD_Seal _ _ p := p; AEAD_Open _ _ p := Some p; HKDF _ _ _ := Some []
|}.
#[local] Instance demo_bodies : BodyJSON := {|
  ParseCensus _ := None; MarshalBody _ := Some []; MarshalReadyBody _ := Some []
|}.

(** A receiver that always refuses, and counts. *)
Definition refusing (_ : request) : St Z (send_error + Z) := λ n, (inr 500, n + 1).
Definition demo_parse (_ : string) : send_error + string := inr "203.0.114.5".
Definition demo_lookup (_ : string) : St Z (send_error + list Addr) := mret (inr []).
Definition demo_channels : list channel := [mkChannel 3 "https://hooks.example/" None true true true true].
Definition hourly : list weather := map (λ n, mkWeather (Z.of_nat n * Hour) (λ _, false) 0 true) (seq 1 8).

(** A message is tried five times and a notice six, since the table of notices
    counts its first attempt as zero. *)
Example tries_of_each :
  (Drain (RunOnce (λ s, s) demo_parse demo_lookup refusing [] "" demo_channels [mkFiring 1 "drift" "drift" "name" "a.example" 0 [] ""])
     hourly (InsertDelivery 7 0 1 3 []) 0).2 = 5 ∧
  (Drain (NotifyOnce (λ s, s) demo_parse demo_lookup refusing [] "" demo_channels (λ _, Some "weekly"))
     hourly (InsertReportNotification 7 0 9 3 [], [mkReceipt 9 1 0 1 "generated" None]) 0).2 = 6.
Proof. vm_compute. auto. Qed.

Lemma drain_ends_witness :
  (Drain (RunOnce (λ s, s) demo_parse demo_lookup refusing [] "" demo_channels [mkFiring 1 "drift" "drift" "name" "a.example" 0 [] ""])
     hourly (InsertDelivery 7 0 1 3 []) 0).1.1 ≠ None.
Proof.
  apply (drain_ends (λ s, s) demo_parse demo_lookup refusing [] "" demo_channels [mkFiring 1 "drift" "drift" "name" "a.example" 0 [] ""]
    hourly (InsertDelivery 7 0 1 3 []) 0).
  - apply NoDup_singleton.
  - vm_compute. reflexivity.
Defined.
